(* ===== verification/_CoqProject ===== *)
-Q . S2P
Prelude.v
JsString.v
Effects.v
JsDate.v
CodeUnits.v
Regex.v
Json.v
Contracts.v
Precedence.v
Taxonomy.v
Safety.v
Classify.v
Gates.v
Commands.v
Invocation.v
Tools.v
DecisionService.v
Outbox.v
ApprovalFsm.v
ApprovalStore.v
CanonicalJson.v
Schemas.v
Idempotency.v
RunStore.v
CommandBus.v
Comments.v
Queue.v
Relay.v
Webhooks.v
GithubWrites.v
PullRequests.v
GithubClient.v
PolicyDocuments.v
PolicyStore.v
Authorization.v
Gateway.v
Authentication.v
Transport.v
Sessions.v
AgentContract.v
Workspace.v
WorkspaceManager.v
Definitions.v
Runs.v
RunQuery.v
Aggregator.v
Executor.v
Execution.v
ApprovalServices.v
Trust.v
PathGuard.v
TarArchive.v
Patches.v
ArtifactScan.v
Redaction.v
Perimeter.v
OutputGuard.v
SandboxCommands.v
