(* ===== verification/Prelude.v ===== *)
(** * Verification of the DevGuard control plane

    DevGuard decides which actions an agent may take on a repository, asks a person where its
    policy says so, and carries the approved action out exactly once.  This library models that
    core as pure Rocq definitions, written after the TypeScript sources under [src/], and
    proves what makes it correct.

    ** The parts and how they interact

    _Who calls._  A request enters through the HTTP transport ([Transport]), which limits its
    rate and its body, finds the session or token of its caller ([Authentication]) and asks the
    perimeter about its origin ([Perimeter]); capabilities are decided by [Authorization].

    _From a comment to a run._  A GitHub delivery is recorded in a ledger together with an
    outbox row ([Webhooks]); the relay turns rows of the transactional outbox ([Outbox]) into
    jobs ([Relay]), the queue leases jobs to workers, retries and fences them ([Queue]).  The
    worker parses the commands of a comment ([Comments]), matches them against the invocation
    registry ([Invocation]), asks the authorizer about the author ([Authorization]) and submits
    them to the command bus ([CommandBus]), which creates a run with its idempotency key.  Runs
    and their event logs are rows ([RunStore]); definitions are immutable and versioned
    ([Definitions]), a run is bound to a snapshot of one and moves through its state machines
    ([Runs]), steps execute under locks ([Executor]), results are aggregated ([Aggregator]), and
    runs are listed and cancelled page by page ([RunQuery]).

    _Decisions._  A repository's policy is a document, decoded, validated and brought to a
    canonical form ([PolicyDocuments]), and kept in versions with a head ([PolicyStore]).  A tool
    call is resolved in the tool registry ([Tools]) to an action, and the action is looked up in
    the action catalog ([Taxonomy]); a shell command is first analysed ([Commands]).  Its risk is
    raised by context rules ([Classify]), the deployed ceilings are computed ([Safety]), and all of
    these facts go through the ordered stages of the precedence evaluator ([Precedence]), whose
    answer the decision service persists and turns into a dispatch token ([DecisionService]).
    Evidence of tests, scans and reviews is judged by the validation gates ([Gates]).

    _Approvals._  A decision that asks for a person becomes an approval, whose life is a state
    machine ([ApprovalFsm]) kept in SQL rows ([ApprovalStore]); use cases resolve it, re-check it,
    execute it and resume the suspended run ([ApprovalServices], [Execution]).  Requests are made
    repeatable by idempotency records ([Idempotency]) over canonical JSON ([CanonicalJson]).

    _Agents and their surroundings._  An agent works in a sandbox workspace ([Workspace],
    [WorkspaceManager]) through sessions and turns ([Sessions]), on a runtime that was probed and
    pinned to a contract snapshot before ([AgentContract]); its tool calls pass the policy
    gateway ([Gateway]), its commands run governed in the sandbox ([SandboxCommands]) and
    what they print is bounded and freed of secrets ([OutputGuard]); branches, commits and pull
    requests are written by the GitHub adapter ([GithubWrites], [PullRequests]), whose client and
    token leases are those of the app ([GithubClient]).  What an agent reads comes through the
    trust boundary ([Trust]); paths, archives, patches and output it produces pass the content
    guards ([PathGuard], [TarArchive], [Patches], [ArtifactScan]); registered secrets are
    redacted, and what is published is scanned for them ([Redaction]).

    ** Files and sources

    - [Prelude]: notation, tactics, the hint database [js], lists, [Array.prototype.sort] over a
      consistent comparator (class [Comparator]), [localeCompare] (class [Collation]).
    - [JsString], [JsDate], [Json], [Effects]: the part of the JavaScript library the sources
      use: strings, [toISOString], [JSON.stringify] with the digest applied to it (class
      [Digest]), and [async] functions as trees of port calls, with [exec] to run one against
      an implementation of its ports, [ensures] to reason about every implementation, a
      pool of concurrently running functions ([pool_step]), and what makes a call happen at most
      once in every run of a pool.
    - [CodeUnits], [Regex]: strings of arbitrary UTF-16 code units with [decodeURIComponent] and
      the Unicode tables (class [Unicode]); a matcher of regular expressions proved against its
      semantics, with [matchAll] and [replace] on top of it.
    - [Contracts]: [packages/contracts/src/policy.ts] and the identifiers of [primitives.ts];
      [Schemas]: the combinators in which the strict object schemas of the sources are written.
    - [packages/policy-engine/src/]: [Precedence], [DecisionService] ([evaluator/]), [Taxonomy]
      ([actions/]), [Safety] ([safety/]), [Classify] ([classification/]), [Gates]
      ([validation-gates/]), [Commands] ([commands/]), [Invocation] ([invocation/]), [Tools]
      ([tools/]), [PolicyDocuments] ([schema/], [parsing/], [validation/], [normalization/],
      [service.ts]).
    - [packages/approvals/src/]: [ApprovalFsm] ([domain/]), [ApprovalServices], [Execution]
      ([application/]), [CanonicalJson] ([fingerprint/]).
    - [packages/db/src/]: [ApprovalStore], [RunStore], [PolicyStore] with the routes over it
      ([repositories/]), [Idempotency], [Outbox] ([reliability/]).
    - [packages/workflows/src/]: [CommandBus], [Comments] ([commands/]), [Definitions]
      ([definitions/]), [Runs], [RunQuery] ([runs/]), [Aggregator] ([validation/]), [Executor]
      ([executor/]).
    - [packages/queue/src/] with the compositions of [apps/]: [Queue], [Relay], [Webhooks].
    - [packages/authorization/src/]: [Authorization]; [packages/github-adapter/src/write/]:
      [GithubWrites], [PullRequests]; its [core/], [auth/] and [write/issue/]: [GithubClient];
      [packages/auth/src/] with its repositories: [Authentication];
      [apps/api/src/transport/]: [Transport].
    - [packages/sandbox/src/]: [Workspace], [WorkspaceManager] ([workspaces/]), [OutputGuard],
      [SandboxCommands] ([commands/], Module [Containment] for [controls/], Module [Artifacts] for
      [artifacts/]); [packages/agent/src/]: [AgentContract] (the files of the directory itself),
      [Gateway] ([policy-gateway/]), [Sessions] ([sessions/]).
    - [packages/security/src/]: [Trust] ([trust/]), [PathGuard], [TarArchive], [Patches],
      [ArtifactScan] ([content/]), [Redaction] ([redaction/], [leak-scan/], Module
      [SandboxRules] for the rules of the sandbox), [Perimeter] ([secrets/], [api/]).

    Names are those of the sources, up to a prefix where two records share a field name.  A
    function that throws returns an [outcome]; an [async] function over ports is a [proc]; a
    SQL statement is a function from the rows of its table to the result and the new rows, and
    the interleavings of many callers are the reachable states of a step relation, or the runs
    of a [proc] against every answer of its ports.

    ** What the theorems show

    - Decisions: the evaluator equals an abstract first-match specification; ALLOW needs every
      guard, an unresolved approval floor counting as none; restricting the facts never relaxes the
      answer; the deployed floors hold at every autonomy level; classification is the join of the baseline with the matched rules; a
      token is issued only for a persisted ALLOW and refused once its inputs changed.
    - Policies: what the pipeline accepts is sound, its canonical form is stable, and no document
      escapes the limits of the decoder; versions are numbered without a gap under any
      interleaving, an undisturbed save is read back, and a lost race jams the policy.
    - Commands: an analysed shell text fails closed on the operators it looks for; a resolved tool
      call names a registered tool, in the version range that was published for it.
    - Callers: a principal stands on a live session, a login opens one session, a revocation is
      final, a controller runs only behind its gates, the rate limit counts exactly, a mutation
      with cookies comes from an allowed site, a webhook is signed.
    - Secrets: a secret is leased for its purpose and scope only, a sealed record opens only
      under the data it was sealed with, registered values leave neither the redaction nor the
      output of a command, published bytes were scanned.
    - Approvals: every EXECUTED approval was approved and executing before; the SQL store refines
      the machine under any interleaving; the compare-and-set has one winner; over all answers
      of the ports, and over any number of racing workers, the external effect happens at most
      once and only after every step of the double check.
    - From comment to run: an accepted delivery has its job, a published row is in the queue, a
      comment reaches the worker as it was sent, the queue loses nothing, leases are exclusive
      and retries end, a key names one run, pages enumerate every run.
    - Authorization: an allowance is justified by a fresh role; agents: no tool call without an
      intent, turns are fenced, an orphaned turn stops its session, locks exclude each other, a
      ready workspace carries its proofs, a command runs only with the permission it names; a runtime is ready only with a verified,
      fresh snapshot, and a verification records what was probed.
    - GitHub: a request fills the template of its operation, a caller gets the token of its own
      scope under any interleaving, with one mint at most under way; writes are authorised, a
      pull request is written as it was approved and at most once per operation; what becomes of
      a retried commit.
    - Content: an accepted path is plain and stays inside its root, accepted archives and
      patches keep to what the guards promise, written archives and diffs are read back, and
      a model context holds nothing but sealed, clean and quoted content.
    - What the code does not give is stated too: items, turns and leases that get stuck, retries
      that answer for a write that failed, patches of git that are refused, quoted text that
      closes its own section, secrets that overlap or are cut, output wrongly called complete, a
      comment whose text is in the URL.

    ** Bounds, parameters and hypotheses

    Recursion is structural on the data where it can be.  Where the code loops on an index or
    on a text that shrinks, the definition takes fuel: the length of the text
    ([Trust.replaceAll], [ArtifactScan.remove_matches]), the number of lines left
    ([Patches.parse_blocks], [parse_hunks]), of header blocks left ([TarArchive.scan_headers]),
    of attempts left ([ArtifactScan.scan_rounds]), of rows ([RunQuery.walk]), of characters left to
    search ([Redaction.occurrences], [Regex.re_scan], [OutputGuard.strip_ansi]); each round consumes,
    and the lemmas [inspection_ends], [validation_ends] and [pages_enumerate] show that the fuel
    given is enough.  The slices of a command's output come from the provider without a bound:
    [SandboxCommands.stream_loop] takes the number of slices read.  A retry of a job or a commit
    is a step of the relation.

    Numbers are integers: times in milliseconds (microseconds where the database gives them), ages
    in seconds, and the few products of the code (a lease in seconds times 1000, sizes of tar
    blocks, the expansion ratio of an archive) stay below 2^53 under the bounds the code
    imposes; the backoff of the queue is computed with exact rationals.

    Third-party code and the platform are classes: the digest (SHA-256 of [node:crypto], [Digest],
    its injectivity the hypothesis [CollisionFree] of the theorems that compare digests),
    [JSON.parse] ([JsonParse]; of an untrusted policy with the YAML library, [PolicyParsers]), what
    a [jsonb] column gives back ([Jsonb]), the order of [localeCompare] ([Collation]), UTF-8 decoding
    ([Utf8], [TextDecoder]), the Unicode tables ([Unicode]) and date texts ([DateTime],
    [DateParse]), keyed digests and authenticated encryption ([Hmac], [Digest64], [Aead]), Base64
    and the decoding of URLs ([Base64], [Utf8Decode], [UrlOrigin], [UrlParse]) and the tables of
    the login ([LoginStore]), each with its documented laws; the witnesses instantiate them.  UUIDs,
    tokens, random numbers and the clock are arguments or calls.  What a database row lock or a
    compare-and-set gives is expressed by the atomicity of one statement's step.

    ** What is not modelled

    Outside [CodeUnits], [PathGuard], [TarArchive], [Patches] and [ArtifactScan], characters beyond
    Latin-1: strings are sequences of code units below U+0100.  Floating-point numbers, the zod
    library (its checks are boolean functions, its outputs the record types), the YAML parser, SQL
    text and isolation levels beyond the effect of each statement, and I/O.  Of the packages: the
    creation of approvals; the product workflows;
    the TrueForge client of the sandbox and of the agent; the OAuth client and the linking of
    users; the error catalog and the configuration (tables); the read operations, the webhook
    processor, the health metadata and the repository map of the GitHub adapter; the clients of
    BullMQ and Redis; the web application and the command line. *)

From stdpp Require Export base decidable option list strings gmap sets sorting pretty.
From Stdlib Require Export ZArith Lia Ascii.

Open Scope Z_scope.

(** ** Notation *)

Declare Scope js_scope.
Delimit Scope js_scope with js.
Infix "=s?" := String.eqb (at level 70, no associativity) : js_scope.
Infix "+s" := String.append (at level 60, right associativity) : js_scope.
Notation "a ?? b" := (default b a) (at level 58, right associativity) : js_scope.
Open Scope js_scope.
#[global] Arguments String.append !_ _ : simpl nomatch.

(** ** Tactics *)

(** Split every boolean conjunction, disjunction and negation of the context into
    propositions. *)
Ltac breflect :=
  repeat match goal with
  | H : _ && _ = true |- _ => apply andb_true_iff in H; destruct H
  | H : _ || _ = false |- _ => apply orb_false_iff in H; destruct H
  | H : negb _ = true |- _ => apply negb_true_iff in H
  | H : negb _ = false |- _ => apply negb_false_iff in H
  | H : String.eqb _ _ = true |- _ => apply String.eqb_eq in H
  | H : String.eqb _ _ = false |- _ => apply String.eqb_neq in H
  | H : Z.eqb _ _ = true |- _ => apply Z.eqb_eq in H
  | H : Z.eqb _ _ = false |- _ => apply Z.eqb_neq in H
  | H : Z.leb _ _ = true |- _ => apply Z.leb_le in H
  | H : Z.leb _ _ = false |- _ => apply Z.leb_gt in H
  | H : Z.ltb _ _ = true |- _ => apply Z.ltb_lt in H
  | H : Z.ltb _ _ = false |- _ => apply Z.ltb_ge in H
  | H : bool_decide _ = true |- _ => apply bool_decide_eq_true in H
  | H : bool_decide _ = false |- _ => apply bool_decide_eq_false in H
  end.

(** Enumerate the elements of a literal list from [H : x ∈ [..]]. *)
Ltac in_cases H :=
  repeat (apply elem_of_cons in H; destruct H as [H|H]); [..|by apply elem_of_nil in H].

(** Case analysis over every [match] and [if] of the goal, closing the absurd branches. *)
Ltac crush_match :=
  repeat (case_match; simplify_eq/=; try done).

(** Decide a closed goal by evaluation. *)
Ltac compute_done := vm_compute; first [ reflexivity | done | repeat split; done ].

(** ** Boolean membership *)

(** JavaScript's [Array.prototype.includes] on strings. *)
Definition str_in (s : string) (l : list string) : bool :=
  existsb (String.eqb s) l.

Lemma str_in_spec s l : str_in s l = true ↔ s ∈ l.
Proof.
  unfold str_in. rewrite existsb_exists. setoid_rewrite String.eqb_eq.
  setoid_rewrite <- list_elem_of_In. naive_solver.
Qed.

Lemma str_in_false s l : str_in s l = false ↔ s ∉ l.
Proof. rewrite <- str_in_spec. destruct (str_in s l); naive_solver. Qed.

(** [Array.prototype.includes] on a type with decidable equality. *)
Definition includes `{EqDecision A} (l : list A) (a : A) : bool := bool_decide (a ∈ l).

Lemma includes_spec `{EqDecision A} (l : list A) a : includes l a = true ↔ a ∈ l.
Proof. unfold includes. apply bool_decide_eq_true. Qed.

(** ** Lists *)

Lemma existsb_false {A} (f : A → bool) l : existsb f l = false ↔ ∀ x, x ∈ l → f x = false.
Proof.
  induction l as [|y l IH]; simpl.
  - split; [intros _ x Hx; inversion Hx | done].
  - rewrite orb_false_iff, IH. split.
    + intros [Hy Hl] x [->|Hx]%elem_of_cons; auto.
    + intros H. split; [apply H; left | intros x Hx; apply H; by right].
Qed.

Lemma existsb_true {A} (f : A → bool) l : existsb f l = true ↔ ∃ x, x ∈ l ∧ f x = true.
Proof. rewrite existsb_exists. by setoid_rewrite <- list_elem_of_In. Qed.

Lemma forallb_true {A} (f : A → bool) l : forallb f l = true ↔ ∀ x, x ∈ l → f x = true.
Proof. rewrite forallb_forall. by setoid_rewrite <- list_elem_of_In. Qed.

Lemma find_some_elem {A} (f : A → bool) l x : List.find f l = Some x → x ∈ l ∧ f x = true.
Proof. intros H%List.find_some. by rewrite list_elem_of_In. Qed.

Lemma find_none_elem {A} (f : A → bool) l x : List.find f l = None → x ∈ l → f x = false.
Proof. intros H Hx%list_elem_of_In. eapply List.find_none; eauto. Qed.

(** [Array.prototype.filter] with a boolean predicate. *)
Lemma bfilter_elem {A} (f : A → bool) l x : x ∈ List.filter f l ↔ x ∈ l ∧ f x = true.
Proof. rewrite !list_elem_of_In. apply List.filter_In. Qed.

Lemma existsb_ext' {A} (f g : A → bool) l : (∀ x, f x = g x) → existsb f l = existsb g l.
Proof. intros Hfg. induction l as [|x l IH]; simpl; [done|]. by rewrite Hfg, IH. Qed.

Lemma existsb_perm {A} (f : A → bool) l l' : l ≡ₚ l' → existsb f l = existsb f l'.
Proof. intros Hp. apply eq_true_iff_eq. rewrite !existsb_true. by setoid_rewrite Hp. Qed.

Lemma bfilter_perm {A} (f : A → bool) l l' : l ≡ₚ l' → List.filter f l ≡ₚ List.filter f l'.
Proof.
  induction 1 as [|x l l' _ IH|x y l|l l' l'' _ IH _ IH']; simpl.
  - done.
  - by destruct (f x); rewrite IH.
  - destruct (f x), (f y); [apply Permutation_swap|done..].
  - by etrans.
Qed.

(** A diagnostic list with at most one entry per check is empty iff no check fires. *)
Lemma if_then_nil {A} (b : bool) (x : A) l : (if b then [] else x :: l) = [] ↔ b = true.
Proof. by destruct b. Qed.
Lemma if_else_nil {A} (b : bool) (x : A) l : (if b then x :: l else []) = [] ↔ b = false.
Proof. by destruct b. Qed.

Lemma rev_elem {A} (l : list A) x : x ∈ rev l ↔ x ∈ l.
Proof. rewrite !list_elem_of_In. symmetry. apply in_rev. Qed.

#[export] Instance map_inj {A B} (f : A → B) : Inj (=) (=) f → Inj (=) (=) (map f).
Proof. exact (list_fmap_eq_inj f). Qed.

(** The order-preserving deduplication of [[...new Set(values)]]. *)
Fixpoint dedup_acc `{EqDecision A} (seen l : list A) : list A :=
  match l with
  | [] => []
  | x :: l => if decide (x ∈ seen) then dedup_acc seen l else x :: dedup_acc (x :: seen) l
  end.
Definition dedup `{EqDecision A} (l : list A) : list A := dedup_acc [] l.

Lemma dedup_acc_elem `{EqDecision A} (l seen : list A) x :
  x ∈ dedup_acc seen l ↔ x ∈ l ∧ x ∉ seen.
Proof.
  revert seen. induction l as [|y l IH]; intros seen; simpl.
  - set_solver.
  - case_decide; rewrite ?elem_of_cons, IH; [|destruct (decide (x = y))]; set_solver.
Qed.

Lemma dedup_elem `{EqDecision A} (l : list A) x : x ∈ dedup l ↔ x ∈ l.
Proof. unfold dedup. rewrite dedup_acc_elem. set_solver. Qed.

Lemma dedup_acc_NoDup `{EqDecision A} (l seen : list A) : NoDup (dedup_acc seen l).
Proof.
  revert seen. induction l as [|y l IH]; intros seen; simpl; [constructor|].
  case_decide; [done|]. constructor; [|done]. rewrite dedup_acc_elem. set_solver.
Qed.

Lemma dedup_NoDup `{EqDecision A} (l : list A) : NoDup (dedup l).
Proof. apply dedup_acc_NoDup. Qed.

Lemma dedup_acc_id `{EqDecision A} (l seen : list A) :
  NoDup l → (∀ x, x ∈ l → x ∉ seen) → dedup_acc seen l = l.
Proof.
  revert seen. induction l as [|y l IH]; intros seen Hnd Hs; simpl; [done|].
  inversion Hnd; subst. case_decide as Hd.
  - exfalso. apply (Hs y); [left | done].
  - f_equal. apply IH; [done|]. intros x Hx. specialize (Hs x). set_solver.
Qed.

Lemma dedup_id `{EqDecision A} (l : list A) : NoDup l → dedup l = l.
Proof. intros H. apply dedup_acc_id; [done | set_solver]. Qed.

(** Rewriting database [js]: boolean list tests as membership statements. *)
Create HintDb js.
#[export] Hint Rewrite str_in_spec str_in_false @includes_spec @existsb_true @forallb_true
  @bfilter_elem @rev_elem @dedup_elem : js.
#[export] Hint Resolve dedup_NoDup dedup_id : js.

(** [breflect], with the tests on lists. *)
Ltac js_reflect := repeat first [ progress breflect | progress (autorewrite with js in *) ].

(** ** Comparators and [Array.prototype.sort] *)

(** A consistent comparator in the sense of ECMA-262: a total preorder given by the sign. *)
Class Comparator {A} (cmp : A → A → Z) : Prop := {
  cmp_refl a : cmp a a = 0;
  cmp_sym a b : Z.sgn (cmp b a) = - Z.sgn (cmp a b);
  cmp_trans a b c : cmp a b ≤ 0 → cmp b c ≤ 0 → cmp a c ≤ 0;
}.

Section Sort.
Context {A : Type} (cmp : A → A → Z).

Fixpoint sort_insert (x : A) (l : list A) : list A :=
  match l with
  | [] => [x]
  | y :: l' => if cmp x y <=? 0 then x :: l else y :: sort_insert x l'
  end.

(** The stable sort of ECMA-262, as insertion from the right. *)
Definition js_sort (l : list A) : list A := foldr sort_insert [] l.

Definition cmp_le (a b : A) : Prop := cmp a b ≤ 0.

Lemma sort_insert_perm x l : sort_insert x l ≡ₚ x :: l.
Proof.
  induction l as [|y l IH]; simpl; [done|]. case_match; [done|].
  rewrite IH. constructor.
Qed.

Lemma js_sort_perm l : js_sort l ≡ₚ l.
Proof.
  induction l as [|x l IH]; simpl; [done|]. by rewrite sort_insert_perm, IH.
Qed.

Lemma js_sort_elem l x : x ∈ js_sort l ↔ x ∈ l.
Proof. by rewrite js_sort_perm. Qed.

Lemma js_sort_length l : length (js_sort l) = length l.
Proof. by rewrite js_sort_perm. Qed.

Context `{!Comparator cmp}.

Lemma cmp_total a b : cmp_le a b ∨ cmp_le b a.
Proof. unfold cmp_le. pose proof (cmp_sym a b). lia. Qed.

Lemma sort_insert_sorted x l :
  StronglySorted cmp_le l → StronglySorted cmp_le (sort_insert x l).
Proof.
  induction 1 as [|y l Hl IH Hy]; simpl; [repeat constructor|].
  case_match eqn:E; breflect.
  - constructor; [by constructor|]. constructor; [done|].
    eapply Forall_impl; [exact Hy|]. intros z Hz. by eapply cmp_trans.
  - constructor; [done|]. rewrite sort_insert_perm. constructor; [|done].
    unfold cmp_le. pose proof (cmp_sym y x). lia.
Qed.

Lemma js_sort_sorted l : StronglySorted cmp_le (js_sort l).
Proof. induction l; simpl; [constructor | by apply sort_insert_sorted]. Qed.

Lemma sort_insert_head x l : Forall (cmp_le x) l → sort_insert x l = x :: l.
Proof.
  destruct l as [|y l]; simpl; [done|]. intros H. inversion H; subst.
  case_match; breflect; [done | unfold cmp_le in *; lia].
Qed.

Lemma js_sort_id l : StronglySorted cmp_le l → js_sort l = l.
Proof.
  induction 1 as [|x l Hl IH Hx]; simpl; [done|]. rewrite IH. by apply sort_insert_head.
Qed.

Lemma js_sort_idemp l : js_sort (js_sort l) = js_sort l.
Proof. apply js_sort_id, js_sort_sorted. Qed.
End Sort.

#[export] Hint Rewrite @js_sort_elem @js_sort_length : js.
#[export] Hint Resolve js_sort_perm js_sort_sorted js_sort_id : js.

(** Two permutations of one list sort to the same list when ties are equal elements. *)
Lemma js_sort_perm_eq {A} (cmp : A → A → Z) `{!Comparator cmp} l1 l2 :
  (∀ a b, a ∈ l1 → b ∈ l1 → cmp a b = 0 → a = b) →
  l1 ≡ₚ l2 → js_sort cmp l1 = js_sort cmp l2.
Proof.
  intros Hanti Hp.
  assert (Hs : js_sort cmp l1 ≡ₚ js_sort cmp l2) by (by rewrite !js_sort_perm).
  pose proof (js_sort_sorted cmp l1) as S1. pose proof (js_sort_sorted cmp l2) as S2.
  assert (Hin : ∀ a, a ∈ js_sort cmp l1 → a ∈ l1) by (intros a; by rewrite js_sort_elem).
  revert Hs S1 S2 Hin. generalize (js_sort cmp l1) (js_sort cmp l2). clear Hp l2.
  intros m1. induction m1 as [|x m1 IH]; intros m2 Hs S1 S2 Hin.
  - by apply Permutation_nil_l in Hs as ->.
  - destruct m2 as [|y m2]; [by apply Permutation_nil_r in Hs|].
    inversion S1 as [|? ? S1' F1]; inversion S2 as [|? ? S2' F2]; subst.
    assert (x = y) as ->.
    { assert (Hx : x ∈ y :: m2) by (rewrite <- Hs; left).
      assert (Hy : y ∈ x :: m1) by (rewrite Hs; left).
      apply elem_of_cons in Hx as [->|Hx]; [done|].
      apply elem_of_cons in Hy as [->|Hy]; [done|].
      rewrite Forall_forall in F1, F2. specialize (F1 _ Hy). specialize (F2 _ Hx).
      unfold cmp_le in *. apply Hanti; [apply Hin; left | apply Hin; by right |].
      pose proof (cmp_sym x y). lia. }
    f_equal. apply IH; [by apply Permutation_cons_inv in Hs | done | done |].
    intros a Ha. apply Hin. by right.
Qed.

(** Lexicographic composition: the source's [p || q] on comparators. *)
Definition cmp_then {A} (p q : A → A → Z) (a b : A) : Z :=
  if p a b =? 0 then q a b else p a b.

#[export] Instance cmp_then_comparator {A} (p q : A → A → Z) :
  Comparator p → Comparator q → Comparator (cmp_then p q).
Proof.
  intros Hp Hq. split; unfold cmp_then.
  - intros a. rewrite cmp_refl. apply cmp_refl.
  - intros a b. pose proof (cmp_sym (cmp := p) a b). pose proof (cmp_sym (cmp := q) a b).
    repeat case_match; breflect; lia.
  - intros a b c.
    pose proof (cmp_sym (cmp := p) a b). pose proof (cmp_sym (cmp := p) b c).
    pose proof (cmp_trans (cmp := p) a b c). pose proof (cmp_trans (cmp := p) c b a).
    pose proof (cmp_trans (cmp := q) a b c). pose proof (cmp_sym (cmp := p) a c).
    pose proof (cmp_trans (cmp := p) b c a). pose proof (cmp_trans (cmp := p) c a b).
    repeat case_match; breflect; lia.
Qed.

(** Comparison of a key. *)
Definition cmp_by {A B} (f : A → B) (p : B → B → Z) (a b : A) : Z := p (f a) (f b).

#[export] Instance cmp_by_comparator {A B} (f : A → B) (p : B → B → Z) :
  Comparator p → Comparator (cmp_by f p).
Proof.
  intros Hp. unfold cmp_by. split; intros *.
  - apply cmp_refl.
  - apply cmp_sym.
  - apply cmp_trans.
Qed.

(** Numeric comparison [(a, b) => a - b]. *)
#[export] Instance sub_comparator : Comparator Z.sub.
Proof. split; intros; lia. Qed.

(** ** Locale-aware comparison

    [String.prototype.localeCompare] is implementation defined; ECMA-402 promises a
    consistent comparator, and that is all the code relies on. *)
Class Collation := {
  localeCompare : string → string → Z;
  #[global] localeCompare_comparator :: Comparator localeCompare;
}.
