(* ===== verification/JsString.v ===== *)
(** * JavaScript strings

    The string operations the sources use, on [string] read as a sequence of UTF-16 code units
    below U+0100 (one [ascii] per unit).  On that fragment every string is already in Unicode
    normal form C, so [normalize('NFC')] is the identity, and [toLowerCase] maps the ASCII
    capitals and the Latin-1 capitals U+00C0-U+00DE (except the multiplication sign) 32 units
    up. *)

From S2P Require Import Prelude.

Definition code_of (c : ascii) : Z := Z.of_N (N_of_ascii c).

(** [s.normalize('NFC')], the identity on Latin-1. *)
Definition normalize_nfc (s : string) : string := s.

Definition lower_char (c : ascii) : ascii :=
  let n := N_of_ascii c in
  if ((65 <=? n) && (n <=? 90) || (192 <=? n) && (n <=? 222) && negb (n =? 215))%N
  then ascii_of_N (n + 32)%N else c.

Fixpoint toLowerCase (s : string) : string :=
  match s with
  | EmptyString => EmptyString
  | String c s => String (lower_char c) (toLowerCase s)
  end.

Definition upper_char (c : ascii) : ascii :=
  let n := N_of_ascii c in
  if ((97 <=? n) && (n <=? 122))%N then ascii_of_N (n - 32)%N else c.

(** [s.toUpperCase()] on ASCII strings, the only ones the sources apply it to. *)
Fixpoint toUpperCase (s : string) : string :=
  match s with
  | EmptyString => EmptyString
  | String c s => String (upper_char c) (toUpperCase s)
  end.

(** [\s]: tab, line feed, vertical tab, form feed, carriage return, space, no-break space. *)
Definition is_space (c : ascii) : bool :=
  let n := N_of_ascii c in ((9 <=? n) && (n <=? 13) || (n =? 32) || (n =? 160))%N.

Definition is_digit (c : ascii) : bool :=
  let n := N_of_ascii c in ((48 <=? n) && (n <=? 57))%N.
Definition is_lower (c : ascii) : bool :=
  let n := N_of_ascii c in ((97 <=? n) && (n <=? 122))%N.
Definition is_upper (c : ascii) : bool :=
  let n := N_of_ascii c in ((65 <=? n) && (n <=? 90))%N.
Definition is_alpha (c : ascii) : bool := is_lower c || is_upper c.
Definition is_alnum (c : ascii) : bool := is_alpha c || is_digit c.
Definition is_hex (c : ascii) : bool :=
  let n := N_of_ascii c in
  (is_digit c || (97 <=? n) && (n <=? 102) || (65 <=? n) && (n <=? 70))%N.
(** The character class written as the string of its members. *)
Fixpoint char_in (l : string) (c : ascii) : bool :=
  match l with
  | EmptyString => false
  | String d l => Ascii.eqb c d || char_in l c
  end.

(** Every character satisfies the class: [/^[class]*$/]. *)
Fixpoint all_chars (p : ascii → bool) (s : string) : bool :=
  match s with
  | EmptyString => true
  | String c s => p c && all_chars p s
  end.

(** Some character satisfies the class: [/[class]/]. *)
Fixpoint any_char (p : ascii → bool) (s : string) : bool :=
  match s with
  | EmptyString => false
  | String c s => p c || any_char p s
  end.

Definition startsWith (s pre : string) : bool := String.prefix pre s.

(** [s.slice(n)] for a nonnegative [n]. *)
Fixpoint slice_from (n : nat) (s : string) : string :=
  match n, s with
  | O, _ => s
  | S n, EmptyString => EmptyString
  | S n, String _ s => slice_from n s
  end.

(** [s.slice(0, n)] for a nonnegative [n]. *)
Fixpoint slice_to (n : nat) (s : string) : string :=
  match n, s with
  | O, _ | _, EmptyString => EmptyString
  | S n, String c s => String c (slice_to n s)
  end.

(** [s.slice(a, b)] for [0 <= a <= b]. *)
Definition slice (a b : nat) (s : string) : string := slice_to (b - a) (slice_from a s).

Definition endsWith (s suf : string) : bool :=
  (String.length suf <=? String.length s)%nat &&
  (slice_from (String.length s - String.length suf) s =s? suf).

(** [s.includes(sub)]. *)
Fixpoint str_includes (s sub : string) : bool :=
  String.prefix sub s ||
  match s with EmptyString => false | String _ s => str_includes s sub end.

(** [s.split(c)] for a one-character separator. *)
Fixpoint split_char (c : ascii) (s : string) : list string :=
  match s with
  | EmptyString => [""]
  | String d s =>
      if Ascii.eqb c d then "" :: split_char c s
      else match split_char c s with
           | w :: ws => String d w :: ws
           | [] => [String d ""]
           end
  end.

(** [parts.join(sep)]. *)
Fixpoint join (sep : string) (l : list string) : string :=
  match l with
  | [] => ""
  | [x] => x
  | x :: l => x +s sep +s join sep l
  end.

Fixpoint trimStart (s : string) : string :=
  match s with
  | String c s' => if is_space c then trimStart s' else s
  | EmptyString => EmptyString
  end.

Fixpoint str_rev_acc (acc s : string) : string :=
  match s with
  | EmptyString => acc
  | String c s => str_rev_acc (String c acc) s
  end.
Definition str_rev (s : string) : string := str_rev_acc "" s.

Definition trimEnd (s : string) : string := str_rev (trimStart (str_rev s)).
Definition trim (s : string) : string := trimEnd (trimStart s).

Fixpoint map_chars (f : ascii → ascii) (s : string) : string :=
  match s with
  | EmptyString => EmptyString
  | String c s => String (f c) (map_chars f s)
  end.

(** Removal of every character of a class: [s.replace(/[class]/g, '')]. *)
Fixpoint strip_chars (p : ascii → bool) (s : string) : string :=
  match s with
  | EmptyString => EmptyString
  | String c s => if p c then strip_chars p s else String c (strip_chars p s)
  end.

(** The decimal form of a JavaScript safe integer. *)
Definition num_to_string (n : Z) : string := pretty n.

(** [Number.parseInt(text, 10)], [None] for [NaN]. *)
Fixpoint leading_digits (acc : Z) (s : string) : Z :=
  match s with
  | String c s => if is_digit c then leading_digits (10 * acc + (code_of c - 48)) s else acc
  | EmptyString => acc
  end.
Definition parseInt10 (text : string) : option Z :=
  let number s := match s with
    | String c _ => if is_digit c then Some (leading_digits 0 s) else None
    | EmptyString => None
    end in
  match trimStart text with
  | String c s => if Ascii.eqb c "-" then Z.opp <$> number s
                  else if Ascii.eqb c "+" then number s else number (String c s)
  | EmptyString => None
  end.

Definition str_length (s : string) : Z := Z.of_nat (String.length s).

(** [Buffer.byteLength(s, 'utf8')]: a code point from 128 to 255 takes two bytes. *)
Fixpoint utf8_length (s : string) : Z :=
  match s with
  | EmptyString => 0
  | String c s => (if code_of c <? 128 then 1 else 2) + utf8_length s
  end.

(** Truthiness of an optional string: [undefined] and the empty string are falsy. *)
Definition truthy (s : option string) : bool :=
  match s with Some s => negb (s =s? "") | None => false end.

Definition nonempty (s : string) : bool := negb (s =s? "").

(** The order of [a < b] on strings: by code units, first difference or prefix. *)
Fixpoint code_unit_compare (a b : string) : Z :=
  match a, b with
  | EmptyString, EmptyString => 0
  | EmptyString, String _ _ => -1
  | String _ _, EmptyString => 1
  | String c a, String d b =>
      if code_of c <? code_of d then -1
      else if code_of d <? code_of c then 1
      else code_unit_compare a b
  end.

Lemma code_of_inj c d : code_of c = code_of d → c = d.
Proof.
  unfold code_of. intros H0. assert (H : N_of_ascii c = N_of_ascii d) by lia.
  rewrite <- (ascii_N_embedding c), <- (ascii_N_embedding d). by f_equal.
Qed.

Lemma code_unit_compare_eq a b : code_unit_compare a b = 0 → a = b.
Proof.
  revert b. induction a as [|c a IH]; intros [|d b]; simpl; try done.
  repeat case_match; breflect; try done. intros Hrec. f_equal; [apply code_of_inj; lia | auto].
Qed.

#[export] Instance code_unit_comparator : Comparator code_unit_compare.
Proof.
  split.
  - induction a as [|c a IH]; simpl; [done|]. by rewrite Z.ltb_irrefl.
  - induction a as [|c a IH]; intros [|d b]; simpl; try done.
    specialize (IH b). repeat case_match; breflect; lia.
  - induction a as [|c a IH]; intros [|d b] [|e f]; simpl; try lia.
    specialize (IH b f). repeat case_match; breflect; lia.
Qed.

(** The code-unit order is a collation, the one the examples evaluate with. *)
#[export] Instance code_unit_collation : Collation | 100 := {
  localeCompare := code_unit_compare;
}.

(** ** Lemmas *)

Lemma lower_char_idemp c : lower_char (lower_char c) = lower_char c.
Proof. by destruct c as [[] [] [] [] [] [] [] []]. Qed.

Lemma toLowerCase_idemp s : toLowerCase (toLowerCase s) = toLowerCase s.
Proof. induction s as [|c s IH]; simpl; [done|]. by rewrite lower_char_idemp, IH. Qed.

Lemma str_app_assoc (a b c : string) : (a +s b) +s c = a +s (b +s c).
Proof. induction a; simpl; congruence. Qed.

Lemma str_app_nil_r (a : string) : a +s "" = a.
Proof. induction a; simpl; congruence. Qed.

Lemma prefix_app (p s : string) : String.prefix p (p +s s) = true.
Proof.
  induction p as [|c p IH]; [by destruct s|].
  change (String.prefix (String c p) (String c (p +s s)) = true). simpl.
  by destruct (ascii_dec c c).
Qed.

Lemma prefix_spec (p s : string) : String.prefix p s = true ↔ ∃ t, s = p +s t.
Proof.
  split.
  - revert s. induction p as [|c p IH]; intros s; simpl.
    + intros _. by exists s.
    + destruct s as [|d s]; simpl; [done|].
      destruct (ascii_dec c d) as [->|]; [|done].
      intros [t ->]%IH. by exists t.
  - intros [t ->]. apply prefix_app.
Qed.

(** [includes] finds exactly the substrings. *)
Lemma str_includes_spec s sub : str_includes s sub = true ↔ ∃ a b, s = a +s sub +s b.
Proof.
  split.
  - induction s as [|c s IH]; cbn -[String.prefix]; intros [Hp|Hr]%orb_true_iff; try done.
    + apply prefix_spec in Hp as [t Ht]. by exists "", t.
    + apply prefix_spec in Hp as [t Ht]. by exists "", t.
    + apply IH in Hr as (a & b & ->). by exists (String c a), b.
  - intros (a & b & ->). induction a as [|c a IH]; simpl.
    + change ("" +s sub +s b) with (sub +s b).
      assert (Hp : String.prefix sub (sub +s b) = true) by apply prefix_app.
      destruct (sub +s b); cbn -[String.prefix]; by rewrite Hp.
    + change (String c a +s sub +s b) with (String c (a +s sub +s b)).
      cbn -[String.prefix String.append]. by rewrite IH, orb_true_r.
Qed.

Lemma str_includes_app s t sub : str_includes s sub = true → str_includes (s +s t) sub = true.
Proof.
  rewrite !str_includes_spec. intros (a & b & ->). exists a, (b +s t). by rewrite !str_app_assoc.
Qed.

(** More parts extend the joined text. *)
Lemma join_extends sep l l' : ∃ t, join sep (l ++ l') = join sep l +s t.
Proof.
  induction l as [|x l [t IH]]; [by exists (join sep l')|].
  destruct l as [|y l].
  - destruct l' as [|z l']; [by exists ""; rewrite str_app_nil_r|].
    by exists (sep +s join sep (z :: l')).
  - exists t.
    change (join sep ((x :: y :: l) ++ l')) with (x +s sep +s join sep ((y :: l) ++ l')).
    rewrite IH. change (join sep (x :: y :: l)) with (x +s sep +s join sep (y :: l)).
    by rewrite !str_app_assoc.
Qed.

Lemma all_chars_app p a b : all_chars p (a +s b) = all_chars p a && all_chars p b.
Proof. induction a; simpl; [done|]. by rewrite IHa, andb_assoc. Qed.

Lemma any_char_all p s : any_char p s = negb (all_chars (λ c, negb (p c)) s).
Proof. induction s; simpl; [done|]. rewrite IHs. by destruct (p a). Qed.

Lemma any_char_ext p q s : (∀ c, p c = q c) → any_char p s = any_char q s.
Proof. intros Hpq. induction s as [|c s IH]; simpl; [done|]. by rewrite Hpq, IH. Qed.

Lemma any_char_app p a b : any_char p (a +s b) = any_char p a || any_char p b.
Proof. induction a as [|c a IH]; simpl; [done|]. by rewrite IH, orb_assoc. Qed.

Lemma any_char_or p q s : any_char (λ c, p c || q c) s = any_char p s || any_char q s.
Proof.
  induction s as [|c s IH]; simpl; [done|]. rewrite IH.
  by destruct (p c), (q c), (any_char p s).
Qed.

Lemma any_char_mono (p q : ascii → bool) s :
  (∀ c, p c = true → q c = true) → any_char q s = false → any_char p s = false.
Proof.
  intros Hpq. induction s as [|c s IH]; simpl; [done|]. intros [Hc Hs]%orb_false_iff.
  rewrite IH by done. destruct (p c) eqn:E; [|done]. apply Hpq in E. congruence.
Qed.

(** A one-character text occurs iff some character is that one. *)
Lemma str_includes_char c s : str_includes s (String c "") = any_char (Ascii.eqb c) s.
Proof.
  induction s as [|d s IH]; [done|]. cbn -[ascii_dec]. rewrite IH. f_equal.
  destruct (ascii_dec c d) as [->|Hne]; [by rewrite Ascii.eqb_refl; destruct s|].
  by apply Ascii.eqb_neq in Hne as ->.
Qed.

(** The separator never occurs inside a part of [split]. *)
Lemma split_char_parts c s :
  Forall (λ w, all_chars (λ d, negb (Ascii.eqb c d)) w = true) (split_char c s).
Proof.
  induction s as [|d s IH]; simpl; [by repeat constructor|].
  destruct (Ascii.eqb c d) eqn:E; [by constructor|].
  destruct (split_char c s) as [|w ws]; [repeat constructor; simpl; by rewrite E|].
  inversion IH; subst. constructor; [|done]. simpl. by rewrite E.
Qed.

Lemma split_char_absent c s : any_char (Ascii.eqb c) s = false → split_char c s = [s].
Proof.
  induction s as [|d s IH]; simpl; [done|]. intros [Hd Hs]%orb_false_iff.
  by rewrite Hd, IH.
Qed.

Lemma split_char_nonempty c s : split_char c s ≠ [].
Proof. destruct s; simpl; [done|]. repeat case_match; done. Qed.

(** Splitting and joining on the same separator is the identity. *)
Lemma join_split_char c s : join (String c "") (split_char c s) = s.
Proof.
  induction s as [|d s IH]; simpl; [done|].
  pose proof (split_char_nonempty c s) as Hne.
  destruct (Ascii.eqb c d) eqn:E.
  - apply Ascii.eqb_eq in E as ->. destruct (split_char d s) as [|w ws]; [done|].
    simpl. f_equal. exact IH.
  - destruct (split_char c s) as [|w ws]; [done|].
    destruct ws; simpl in *; congruence.
Qed.

(** ** Character classes and lengths *)

(** Every character in the class and a length within bounds: [/^[class]{a,b}$/]. *)
Definition chars_between (p : ascii → bool) (a b : Z) (s : string) : bool :=
  all_chars p s && (a <=? str_length s) && (str_length s <=? b).

Definition lower_hex (c : ascii) : bool := is_digit c || char_in "abcdef" c.
Definition hex64 (s : string) : bool := all_chars lower_hex s && (str_length s =? 64).

(** [z.string().min(a).max(b)]. *)
Definition len_between (a b : Z) (s : string) : bool := (a <=? str_length s) && (str_length s <=? b).

Definition digits (s : string) : bool := all_chars is_digit s && nonempty s.

(** [/^\d+\.\d+\.\d+$/]. *)
Definition three_numbers (s : string) : bool :=
  match split_char "." s with
  | [a; b; c] => digits a && digits b && digits c
  | _ => false
  end.

(** The longest prefix within a class, and the rest. *)
Fixpoint span_chars (p : ascii → bool) (s : string) : string * string :=
  match s with
  | EmptyString => (EmptyString, EmptyString)
  | String c s' =>
      if p c then let '(a, b) := span_chars p s' in (String c a, b) else (EmptyString, s)
  end.

(** Splitting at the first separator. *)
Lemma split_char_cons c a b :
  any_char (Ascii.eqb c) a = false → split_char c (a +s String c b) = a :: split_char c b.
Proof.
  induction a as [|d a IH]; cbn [any_char].
  - intros _. change ("" +s String c b) with (String c b). simpl. by rewrite Ascii.eqb_refl.
  - intros [Hd Ha]%orb_false_iff. change (String d a +s String c b) with (String d (a +s String c b)).
    cbn [split_char]. by rewrite Hd, IH.
Qed.

Lemma class_absent (p : ascii → bool) c s :
  p c = false → all_chars p s = true → any_char (Ascii.eqb c) s = false.
Proof.
  intros Hc. induction s as [|d s IH]; simpl; [done|]. intros [Hd Hs]%andb_true_iff.
  rewrite IH by done. destruct (Ascii.eqb_spec c d); [congruence|done].
Qed.

Lemma chars_between_ok p a b s : chars_between p a b s = true → all_chars p s = true ∧ a ≤ str_length s.
Proof. unfold chars_between. intros H. by breflect. Qed.

(** ** Reversal and trimming *)

Lemma str_rev_acc_twice x acc s : str_rev_acc x (str_rev_acc acc s) = str_rev_acc (s +s x) acc.
Proof. revert acc. induction s as [|c s IH]; intros acc; simpl; [done|]. by rewrite IH. Qed.

Lemma str_rev_involutive s : str_rev (str_rev s) = s.
Proof. unfold str_rev. rewrite str_rev_acc_twice. simpl. apply str_app_nil_r. Qed.

Lemma all_chars_rev_acc p acc s : all_chars p (str_rev_acc acc s) = all_chars p s && all_chars p acc.
Proof.
  revert acc. induction s as [|c s IH]; intros acc; simpl; [done|]. rewrite IH. simpl.
  by destruct (p c), (all_chars p s).
Qed.

Definition no_space (s : string) : bool := all_chars (λ c, negb (is_space c)) s.

Lemma trimStart_no_space s : no_space s = true → trimStart s = s.
Proof. destruct s as [|c s]; simpl; [done|]. intros [Hc _]%andb_true_iff. by apply negb_true_iff in Hc as ->. Qed.

Lemma trim_no_space s : no_space s = true → trim s = s.
Proof.
  intros Hs. unfold trim, trimEnd. rewrite (trimStart_no_space s) by done.
  rewrite trimStart_no_space; [apply str_rev_involutive|].
  unfold no_space, str_rev. rewrite all_chars_rev_acc. by rewrite andb_true_r.
Qed.

Lemma no_space_app a b : no_space (a +s b) = no_space a && no_space b.
Proof. apply all_chars_app. Qed.

Lemma str_length_app a b : str_length (a +s b) = str_length a + str_length b.
Proof. unfold str_length. induction a as [|c a IH]; simpl; lia. Qed.

Lemma str_length_pos s : s ≠ "" → 1 ≤ str_length s.
Proof. destruct s; [done|]. unfold str_length. simpl. lia. Qed.

#[export] Hint Rewrite str_app_assoc str_app_nil_r : js.
