(* ===== verification/Effects.v ===== *)
(** * Asynchronous code over ports

    An [async] function of the sources talks to the outside through injected ports.  [proc]
    is the tree of its port calls: it either is finished, with a value or a thrown error, or
    awaits one call and goes on with the answer, which may itself be a rejection.  [exec] runs
    it against an arbitrary stateful implementation of the ports and records the calls it
    makes; [ensures] states what holds of every call and of the result for every behaviour of
    the ports. *)

From S2P Require Import Prelude.

(** What [throw] carries: an error of [packages/errors] with its registered code, or a plain
    [Error] with its message. *)
Inductive js_error :=
  | GuardError (code : string)
  | PlainError (message : string).

#[export] Instance js_error_eq_dec : EqDecision js_error.
Proof. solve_decision. Defined.

Inductive outcome (A : Type) :=
  | Returned (a : A)
  | Threw (e : js_error).
Arguments Returned {A} a.
Arguments Threw {A} e.

Definition obind {A B} (o : outcome A) (f : A → outcome B) : outcome B :=
  match o with Returned a => f a | Threw e => Threw e end.

Notation "'let?' x ':=' o 'in' f" := (obind o (λ x, f))
  (at level 200, x name, o at level 100, f at level 200) : js_scope.

Section Proc.
Context {Call : Type} {Ans : Call → Type}.

Inductive proc (A : Type) : Type :=
  | Done (o : outcome A)
  | Await (c : Call) (k : outcome (Ans c) → proc A).
Arguments Done {A} o.
Arguments Await {A} c k.

Definition pret {A} (a : A) : proc A := Done (Returned a).
Definition throw {A} (e : js_error) : proc A := Done (Threw e).
Definition call (c : Call) : proc (Ans c) := Await c Done.

(** [await p] followed by the rest of the function; an error propagates. *)
Fixpoint pbind {A B} (p : proc A) (f : A → proc B) : proc B :=
  match p with
  | Done (Returned a) => f a
  | Done (Threw e) => Done (Threw e)
  | Await c k => Await c (λ o, pbind (k o) f)
  end.

(** [try { p } catch (e) { h(e) }]. *)
Fixpoint ptry {A} (p : proc A) (h : js_error → proc A) : proc A :=
  match p with
  | Done (Returned a) => Done (Returned a)
  | Done (Threw e) => h e
  | Await c k => Await c (λ o, ptry (k o) h)
  end.

(** A call with its answer. *)
Definition event : Type := sigT (λ c : Call, outcome (Ans c)).
Definition ev (c : Call) (o : outcome (Ans c)) : event := existT c o.
Definition ev_call (e : event) : Call := projT1 e.
Definition acknowledged (e : event) : Prop := ∃ a, projT2 e = Returned a.

(** Run against an implementation of the ports with state [W]. *)
Fixpoint exec {A W} (port : ∀ c, W → outcome (Ans c) * W) (p : proc A) (w : W)
  : outcome A * list event * W :=
  match p with
  | Done o => (o, [], w)
  | Await c k =>
      let '(o, w) := port c w in
      let '(r, tr, w) := exec port (k o) w in
      (r, ev c o :: tr, w)
  end.

(** [ensures P Q tr p]: whatever the ports answer, after the calls [tr] every further call
    [c] of [p] meets [P] of the calls before it, and the result meets [Q] of all of them. *)
Fixpoint ensures {A} (P : list event → Call → Prop) (Q : list event → outcome A → Prop)
    (tr : list event) (p : proc A) : Prop :=
  match p with
  | Done o => Q tr o
  | Await c k => P tr c ∧ ∀ o, ensures P Q (tr ++ [ev c o]) (k o)
  end.

Lemma pbind_pret {A B} (a : A) (f : A → proc B) : pbind (pret a) f = f a.
Proof. done. Qed.

(** Every run of an [ensures] program meets it. *)
Lemma ensures_exec {A W} P Q (port : ∀ c, W → outcome (Ans c) * W) (p : proc A) w tr0 :
  ensures P Q tr0 p →
  let '(r, tr, _) := exec port p w in
  Q (tr0 ++ tr) r ∧
  ∀ pre e post, tr = pre ++ e :: post → P (tr0 ++ pre) (ev_call e).
Proof.
  revert w tr0. induction p as [o|c k IH]; intros w tr0; simpl.
  - intros HQ. rewrite app_nil_r. split; [done|]. by intros [].
  - intros [HP Hk]. destruct (port c w) as [o w'].
    specialize (IH o w' (tr0 ++ [ev c o]) (Hk o)).
    destruct (exec port (k o) w') as [[r tr] w'']. destruct IH as [HQ Hcalls].
    rewrite <- app_assoc in HQ. split; [done|].
    intros [|e' pre] e post; simpl; intros Htr; injection Htr as <- Htr.
    + by rewrite app_nil_r.
    + specialize (Hcalls _ _ _ Htr). by rewrite <- app_assoc in Hcalls.
Qed.

Lemma ensures_mono {A} (P P' : list event → Call → Prop) (Q Q' : list event → outcome A → Prop)
    tr p :
  (∀ tr c, P tr c → P' tr c) → (∀ tr o, Q tr o → Q' tr o) →
  ensures P Q tr p → ensures P' Q' tr p.
Proof.
  intros HP HQ. revert tr. induction p as [o|c k IH]; intros tr; simpl; [apply HQ|].
  intros [Hc Hk]. split; [by apply HP|]. intros o. apply IH, Hk.
Qed.

Lemma ensures_pbind {A B} P (Q : list event → outcome B → Prop) tr (p : proc A) f :
  ensures P (λ tr o, match o with
                     | Returned a => ensures P Q tr (f a)
                     | Threw e => Q tr (Threw e)
                     end) tr p →
  ensures P Q tr (pbind p f).
Proof.
  revert tr. induction p as [[a|e]|c k IH]; intros tr; simpl; [done|done|].
  intros [Hc Hk]. split; [done|]. intros o. apply IH, Hk.
Qed.

Lemma ensures_pbind_assoc {A B C} P (Q : list event → outcome C → Prop) tr
    (p : proc A) (g : A → proc B) f :
  ensures P Q tr (pbind p (λ x, pbind (g x) f)) → ensures P Q tr (pbind (pbind p g) f).
Proof.
  revert tr. induction p as [[a|e]|c k IH]; intros tr; simpl; [done|done|].
  intros [Hc Hk]. split; [done|]. intros o. apply IH, Hk.
Qed.

Lemma ensures_ptry {A} P (Q : list event → outcome A → Prop) tr p h :
  ensures P (λ tr o, match o with
                     | Returned a => Q tr (Returned a)
                     | Threw e => ensures P Q tr (h e)
                     end) tr p →
  ensures P Q tr (ptry p h).
Proof.
  revert tr. induction p as [[a|e]|c k IH]; intros tr; simpl; [done|done|].
  intros [Hc Hk]. split; [done|]. intros o. apply IH, Hk.
Qed.

(** The result and the final state of a run, without its calls. *)
Definition final {A W} (port : ∀ c, W → outcome (Ans c) * W) (p : proc A) (w : W)
  : outcome A * W :=
  let '(o, _, w) := exec port p w in (o, w).

Lemma final_await {A W} (port : ∀ c, W → outcome (Ans c) * W) c (k : _ → proc A) w :
  final port (Await c k) w = final port (k (port c w).1) (port c w).2.
Proof. unfold final. simpl. destruct (port c w) as [o w']. by destruct (exec _ _ _) as [[? ?] ?]. Qed.

Lemma final_call {W} (port : ∀ c, W → outcome (Ans c) * W) c w : final port (call c) w = port c w.
Proof. unfold call. rewrite final_await. unfold final. simpl. by destruct (port c w). Qed.

Lemma final_pret {A W} (port : ∀ c, W → outcome (Ans c) * W) (a : A) w :
  final port (pret a) w = (Returned a, w).
Proof. done. Qed.

Lemma final_pbind {A B W} (port : ∀ c, W → outcome (Ans c) * W) (p : proc A) (f : A → proc B) w :
  final port (pbind p f) w =
  match final port p w with
  | (Returned a, w') => final port (f a) w'
  | (Threw e, w') => (Threw e, w')
  end.
Proof.
  revert w. induction p as [[a|e]|c k IH]; intros w; [done|done|]. cbn [pbind].
  by rewrite !final_await, IH.
Qed.

Lemma final_ptry {A W} (port : ∀ c, W → outcome (Ans c) * W) (p : proc A) h w :
  final port (ptry p h) w =
  match final port p w with
  | (Returned a, w') => (Returned a, w')
  | (Threw e, w') => final port (h e) w'
  end.
Proof.
  revert w. induction p as [[a|e]|c k IH]; intros w; [done|done|]. cbn [ptry].
  by rewrite !final_await, IH.
Qed.
End Proc.

Arguments proc {Call} Ans A.
Arguments event {Call} Ans.
Arguments Done {Call Ans A} o.
Arguments Await {Call Ans A} c k.

Notation "x <~ p ;; f" := (pbind p (λ x, f))
  (at level 100, p at next level, f at level 200, right associativity) : js_scope.
Notation "p ;~ f" := (pbind p (λ _, f))
  (at level 100, right associativity) : js_scope.

(** ** Concurrent runs

    A pool of programs over one shared implementation of the ports.  A step lets one program
    make its next call, or lets the environment change the shared state; every program keeps
    the trace of its own calls. *)
Section Pool.
Context {Call : Type} {Ans : Call → Type} {A W : Type}.
Variable port : ∀ c, W → outcome (Ans c) * W.
Variable environment : W → W → Prop.

Definition thread : Type := list (event Ans) * proc Ans A.

Inductive pool_step : W * list thread → W * list thread → Prop :=
  | pool_call w before tr c k after o w' :
      port c w = (o, w') →
      pool_step (w, before ++ (tr, Await c k) :: after)
                (w', before ++ (tr ++ [ev c o], k o) :: after)
  | pool_env w w' ts : environment w w' → pool_step (w, ts) (w', ts).

(** A property of the traces that every ensured call preserves holds of every thread. *)
Lemma pool_traces (P : list (event Ans) → Call → Prop) Q (I : list (event Ans) → Prop) w ts w' ts' :
  (∀ tr c o, I tr → P tr c → I (tr ++ [ev c o])) →
  rtc pool_step (w, ts) (w', ts') →
  Forall (λ t : thread, I t.1 ∧ ensures P Q t.1 t.2) ts →
  Forall (λ t : thread, I t.1 ∧ ensures P Q t.1 t.2) ts'.
Proof.
  intros HI Hsteps. remember (w, ts) as a eqn:Ha. remember (w', ts') as b eqn:Hb.
  revert w ts Ha Hb. induction Hsteps as [x|x y z Hstep _ IH]; intros w ts -> Hb Hall.
  - by simplify_eq.
  - destruct y as [w1 ts1]. apply (IH w1 ts1 eq_refl Hb).
    inversion Hstep; subst; [|done].
    apply Forall_app in Hall as [Hbefore Hrest].
    inversion Hrest as [|? ? [Ht Hp] Hafter]; subst. simpl in Ht, Hp. destruct Hp as [Hp Hk].
    apply Forall_app. split; [done|]. constructor; [|done]. split; [by apply HI|apply Hk].
Qed.

(** A finished program makes no more calls. *)
Lemma pool_done w ts w' ts' i tr o :
  rtc pool_step (w, ts) (w', ts') → ts !! i = Some (tr, Done o) → ts' !! i = Some (tr, Done o).
Proof.
  intros Hrun. remember (w, ts) as p eqn:Hp. remember (w', ts') as q eqn:Hq. revert w ts Hp.
  induction Hrun as [x|x [w1 ts1] z Hstep _ IH]; intros w ts -> Hi; [by simplify_eq|].
  apply (IH Hq w1 ts1 eq_refl). inversion Hstep; subst; [|done].
  destruct (decide (i < length before)%nat).
  - rewrite lookup_app_l in Hi |- *; done.
  - rewrite lookup_app_r in Hi |- * by lia. by destruct (i - length before)%nat.
Qed.

(** One turn of the program at a position, and a schedule of turns. *)
Definition turn (i : nat) (s : W * list thread) : W * list thread :=
  match s.2 !! i with
  | Some (tr, Await c k) =>
      let '(o, w) := port c s.1 in (w, <[i := (tr ++ [ev c o], k o)]> s.2)
  | _ => s
  end.

Definition schedule (turns : list nat) (s : W * list thread) : W * list thread :=
  fold_left (λ s i, turn i s) turns s.

Lemma turn_sound i s : rtc pool_step s (turn i s).
Proof.
  unfold turn. destruct s as [w ts]. simpl. destruct (ts !! i) as [[tr [o|c k]]|] eqn:Hi; try done.
  destruct (port c w) as [o w'] eqn:Hp. apply rtc_once.
  rewrite <- (take_drop_middle _ _ _ Hi) at 1. rewrite insert_take_drop by (by eapply lookup_lt_Some).
  by constructor.
Qed.

Lemma schedule_sound turns s : rtc pool_step s (schedule turns s).
Proof.
  unfold schedule. revert s. induction turns as [|i turns IH]; intros s; simpl; [done|].
  etrans; [apply turn_sound|apply IH].
Qed.
End Pool.

(** ** At most once, over any number of racing programs

    Some events are [acts], and some answers are [grants] that allow one.  When every program
    acts at most as often as it was granted, a grant is given only while the shared state is
    [live] and ends that for good, then all programs together act at most once.  Every answer of
    the ports is [genuine]. *)
Section AtMostOnce.
Context {Call : Type} {Ans : Call → Type} {A W : Type}.
Variable port : ∀ c, W → outcome (Ans c) * W.
Variable environment : W → W → Prop.
Variables (acts grants : event Ans → bool) (live : W → bool) (genuine : event Ans → Prop).

Definition count (f : event Ans → bool) (tr : list (event Ans)) : nat := length (List.filter f tr).

Lemma count_snoc f tr e : count f (tr ++ [e]) = (count f tr + if f e then 1 else 0)%nat.
Proof. unfold count. rewrite List.filter_app, length_app. simpl. by destruct (f e). Qed.

Definition within_grants (tr : list (event Ans)) : Prop := (count acts tr ≤ count grants tr)%nat.

(** What a call may be: it keeps the program within its grants, a grant it obtains ends the life
    of the state, and it does not revive the state. *)
Definition rationed (P : list (event Ans) → Call → Prop) : Prop :=
  ∀ tr c o, P tr c → Forall genuine tr →
    (within_grants tr → within_grants (tr ++ [ev c o])) ∧
    ∀ w w', port c w = (o, w') →
      (grants (ev c o) = true → live w = true ∧ live w' = false) ∧ (live w = false → live w' = false).

Definition rationed_thread (t : thread (Ans := Ans) (A := A)) : Prop :=
  Forall genuine t.1 ∧ within_grants t.1 ∧ ∃ P Q, rationed P ∧ ensures P Q t.1 t.2.

Definition total (f : event Ans → bool) (ts : list (thread (Ans := Ans) (A := A))) : nat :=
  sum_list_with (λ t, count f t.1) ts.

Hypothesis port_genuine : ∀ c w, genuine (ev c (port c w).1).
Hypothesis environment_ok : ∀ w w', environment w w' → live w = false → live w' = false.

Definition grants_bounded (w : W) (ts : list (thread (Ans := Ans) (A := A))) : Prop :=
  (total grants ts ≤ if live w then 0 else 1)%nat.

Lemma rationed_step w ts w' ts' :
  pool_step port environment (w, ts) (w', ts') →
  Forall rationed_thread ts → grants_bounded w ts →
  Forall rationed_thread ts' ∧ grants_bounded w' ts'.
Proof.
  unfold grants_bounded, total. intros Hstep Hall Hb.
  inversion Hstep as [? before tr c k after o ? Hport|? ? ? Henv]; subst.
  2: { split; [done|]. destruct (live w) eqn:E, (live w') eqn:E'; try lia.
       by rewrite (environment_ok _ _ Henv E) in E'. }
  apply Forall_app in Hall as [Hbefore Hrest]. inversion Hrest as [|? ? Ht Hafter]; subst.
  destruct Ht as (Hgen & Hw & P & Q & HP & Hc & Hk). cbn [fst snd] in Hgen, Hw, Hc, Hk.
  destruct (HP tr c o Hc Hgen) as [Hwithin Hcall]. destruct (Hcall _ _ Hport) as [Hgrant Hnever]. split.
  - apply Forall_app. split; [done|]. constructor; [|done]. split_and!.
    + apply Forall_app. split; [done|]. constructor; [|done].
      pose proof (port_genuine c w) as Hg. by rewrite Hport in Hg.
    + by apply Hwithin.
    + exists P, Q. split; [done|apply Hk].
  - rewrite sum_list_with_app in *. cbn [sum_list_with fst] in *. rewrite count_snoc.
    destruct (grants (ev c o)) eqn:Hg.
    + destruct (Hgrant eq_refl) as [H1 H2]. rewrite H1 in Hb. rewrite H2. lia.
    + destruct (live w) eqn:E; [destruct (live w'); lia|]. rewrite Hnever by done. lia.
Qed.

Lemma at_most_once w ts w' ts' :
  rtc (pool_step port environment) (w, ts) (w', ts') →
  Forall rationed_thread ts → grants_bounded w ts → (total acts ts' ≤ 1)%nat.
Proof.
  intros Hrun Hall Hb.
  assert (Forall rationed_thread ts' ∧ grants_bounded w' ts') as [Hall' Hb'].
  { remember (w, ts) as p eqn:Hp. remember (w', ts') as q eqn:Hq. revert w ts Hp Hall Hb.
    induction Hrun as [x|x [w1 ts1] z Hstep _ IH]; intros w ts -> Hall Hb; [by simplify_eq|].
    destruct (rationed_step _ _ _ _ Hstep Hall Hb). by apply (IH Hq w1 ts1 eq_refl). }
  assert ((total acts ts' ≤ total grants ts')%nat) as Hsum.
  { unfold total. clear -Hall'. induction Hall' as [|t ts (_ & Ht & _) _ IH]; cbn [sum_list_with]; [lia|].
    unfold within_grants in Ht. lia. }
  unfold grants_bounded in Hb'. destruct (live w'); lia.
Qed.

(** Programs that have not started. *)
Lemma starting_rationed {B} (f : B → proc Ans A) (l : list B) :
  (∀ b, ∃ P Q, rationed P ∧ ensures P Q [] (f b)) →
  Forall rationed_thread ((λ b, ([], f b)) <$> l).
Proof.
  intros Hf. apply Forall_forall. intros t (b & -> & _)%list_elem_of_fmap.
  split_and!; [constructor|unfold within_grants, count; simpl; lia|apply Hf].
Qed.

Lemma starting_total {B} f (g : B → proc Ans A) (l : list B) :
  total f ((λ b, ([], g b)) <$> l) = 0%nat.
Proof. unfold total. induction l as [|b l IH]; [done|]. rewrite fmap_cons. exact IH. Qed.
End AtMostOnce.

(** Walk an [ensures] goal to its leaves: one step per call, one case per branch. *)
Ltac ensures_step :=
  first
  [ progress simpl
  | match goal with
    | |- _ ∧ _ => split
    | |- ∀ o : outcome _, _ => let o := fresh "ans" in intros o; destruct o
    | |- context [match ?x with _ => _ end] => destruct x eqn:?
    end ].
