(* ===== verification/JsDate.v ===== *)
(** * Dates

    [Date.prototype.toISOString] on integer milliseconds since the epoch, in the proleptic
    Gregorian calendar of ECMA-262. *)

From S2P Require Import Prelude JsString Effects.

Definition ms_per_day : Z := 86400000.

(** Year, month and day of a day number. *)
Definition civil_from_days (days : Z) : Z * Z * Z :=
  let z := days + 719468 in
  let era := z / 146097 in
  let doe := z mod 146097 in
  let yoe := (doe - doe / 1460 + doe / 36524 - doe / 146096) / 365 in
  let doy := doe - (365 * yoe + yoe / 4 - yoe / 100) in
  let mp := (5 * doy + 2) / 153 in
  let d := doy - (153 * mp + 2) / 5 + 1 in
  let m := if mp <? 10 then mp + 3 else mp - 9 in
  (yoe + era * 400 + (if m <=? 2 then 1 else 0), m, d).

Fixpoint zeros (n : nat) : string :=
  match n with O => "" | S n => String "0" (zeros n) end.

Definition pad (width : nat) (n : Z) : string :=
  let s := num_to_string n in zeros (width - String.length s) +s s.

Definition iso_year (y : Z) : string :=
  if (0 <=? y) && (y <=? 9999) then pad 4 y
  else (if y <? 0 then "-" else "+") +s pad 6 (Z.abs y).

Definition toISOString (ms : Z) : outcome string :=
  if 8640000000000000 <? Z.abs ms then Threw (PlainError "Invalid time value")
  else
    let '(y, m, d) := civil_from_days (ms / ms_per_day) in
    let t := ms mod ms_per_day in
    Returned
      (iso_year y +s "-" +s pad 2 m +s "-" +s pad 2 d +s "T" +s pad 2 (t / 3600000) +s ":" +s
       pad 2 (t / 60000 mod 60) +s ":" +s pad 2 (t / 1000 mod 60) +s "." +s
       pad 3 (t mod 1000) +s "Z").

Example toISOString_examples :
  toISOString 0 = Returned "1970-01-01T00:00:00.000Z" ∧
  toISOString 951782399999 = Returned "2000-02-28T23:59:59.999Z" ∧
  toISOString 951782400000 = Returned "2000-02-29T00:00:00.000Z" ∧
  toISOString (-1) = Returned "1969-12-31T23:59:59.999Z" ∧
  toISOString 253402300800000 = Returned "+010000-01-01T00:00:00.000Z".
Proof. by vm_compute. Qed.

(** [Date.parse], [None] for [NaN]. *)
Class DateParse := date_parse : string → option Z.
