(* ===== verification/CodeUnits.v ===== *)
(** * Strings of any UTF-16 code units

    The content guards look at text an attacker chose, so their strings are sequences of code
    units without a bound of U+00FF: the string operations of the JavaScript library they use,
    [decodeURIComponent] as ECMAScript defines it, and the Unicode tables ([String.normalize],
    the case mappings) as an interface with the documented facts the guards rely on. *)

From S2P Require Import Prelude JsString.

Notation ustring := (list Z).

(** The code units of a literal of the source. *)
Fixpoint u (s : string) : ustring :=
  match s with
  | EmptyString => []
  | String c s => code_of c :: u s
  end.

Lemma u_app a b : u (a +s b) = u a ++ u b.
Proof. induction a as [|c a IH]; simpl; [done|]. by rewrite IH. Qed.

Lemma u_inj a b : u a = u b → a = b.
Proof.
  revert b. induction a as [|c a IH]; intros [|d b]; simpl; intros H; simplify_eq; [done|].
  f_equal; [by apply code_of_inj|by apply IH].
Qed.

(** ** Operations *)

(** Equality of strings. *)
Definition ueqb (a b : ustring) : bool := bool_decide (a = b).
Infix "=u?" := ueqb (at level 70, no associativity) : js_scope.

Lemma ueqb_spec a b : reflect (a = b) (a =u? b).
Proof. unfold ueqb. apply bool_decide_reflect. Qed.

(** [s.includes(c)] for one code unit. *)
Definition has (c : Z) (s : ustring) : bool := existsb (Z.eqb c) s.

(** A member of the class occurs: [/[class]/.test(s)]. *)
Definition some_unit (p : Z → bool) (s : ustring) : bool := existsb p s.

(** [s.startsWith(pre)] *)
Fixpoint u_starts (pre s : ustring) : bool :=
  match pre, s with
  | [], _ => true
  | p :: pre, c :: s => (p =? c) && u_starts pre s
  | _ :: _, [] => false
  end.

(** [s.includes(sub)] *)
Fixpoint u_includes (sub s : ustring) : bool :=
  u_starts sub s || match s with [] => false | _ :: s => u_includes sub s end.

(** [s.split(c)] for one code unit. *)
Fixpoint u_split (c : Z) (s : ustring) : list ustring :=
  match s with
  | [] => [[]]
  | d :: s =>
      if d =? c then [] :: u_split c s
      else match u_split c s with
           | part :: parts => (d :: part) :: parts
           | [] => [[d]]
           end
  end.

(** [parts.join(c)] for one code unit. *)
Fixpoint u_join (c : Z) (l : list ustring) : ustring :=
  match l with
  | [] => []
  | [a] => a
  | a :: l => a ++ c :: u_join c l
  end.

(** [\s] of a regular expression, which is also what [trim] removes. *)
Definition u_space (c : Z) : bool :=
  (9 <=? c) && (c <=? 13) || (c =? 32) || (c =? 160) || (c =? 5760) ||
  (8192 <=? c) && (c <=? 8202) || (c =? 8232) || (c =? 8233) || (c =? 8239) ||
  (c =? 8287) || (c =? 12288) || (c =? 65279).

Fixpoint u_trimStart (s : ustring) : ustring :=
  match s with
  | c :: s' => if u_space c then u_trimStart s' else s
  | [] => []
  end.
Definition u_trim (s : ustring) : ustring := rev (u_trimStart (rev (u_trimStart s))).

(** The value of a hexadecimal digit. *)
Definition hex_value (c : Z) : option Z :=
  if (48 <=? c) && (c <=? 57) then Some (c - 48)
  else if (65 <=? c) && (c <=? 70) then Some (c - 55)
  else if (97 <=? c) && (c <=? 102) then Some (c - 87)
  else None.
Definition u_hex (c : Z) : bool := bool_decide (is_Some (hex_value c)).

Definition percent : Z := 37.

(** [/%[0-9a-fA-F]{2}/.test(s)] *)
Fixpoint percent_encoded (s : ustring) : bool :=
  match s with
  | [] => false
  | c :: s' =>
      match s' with
      | h1 :: h2 :: _ => (c =? percent) && u_hex h1 && u_hex h2
      | _ => false
      end || percent_encoded s'
  end.

(** ** [decodeURIComponent]

    First every [%XX] becomes an octet, then the runs of octets are decoded as UTF-8.  A [%] that
    two hexadecimal digits do not follow, and octets that are not well-formed UTF-8, are a
    [URIError], written [None]. *)
Inductive piece := Unit (c : Z) | Octet (b : Z).

Fixpoint uri_pieces (s : ustring) : option (list piece) :=
  match s with
  | [] => Some []
  | c :: s' =>
      if c =? percent then
        match s' with
        | h1 :: h2 :: rest =>
            a ← hex_value h1; b ← hex_value h2;
            l ← uri_pieces rest; Some (Octet (16 * a + b) :: l)
        | _ => None
        end
      else l ← uri_pieces s'; Some (Unit c :: l)
  end.

(** A code point in UTF-16. *)
Definition utf16 (v : Z) : ustring :=
  if v <? 65536 then [v]
  else [55296 + (v - 65536) / 1024; 56320 + (v - 65536) mod 1024].

(** A code point under construction: how many octets are missing, the bits so far, and the least
    value that needs this many octets. *)
Record partial := { missing : nat; bits : Z; least : Z }.

(** The first octet of a code point. *)
Definition first_octet (b : Z) : option (Z + partial) :=
  if b <? 128 then Some (inl b)
  else if b <? 194 then None
  else if b <? 224 then Some (inr {| missing := 1; bits := b - 192; least := 128 |})
  else if b <? 240 then Some (inr {| missing := 2; bits := b - 224; least := 2048 |})
  else if b <? 245 then Some (inr {| missing := 3; bits := b - 240; least := 65536 |})
  else None.

(** A complete value is a Unicode scalar value in its shortest form. *)
Definition scalar (p : partial) : bool :=
  (least p <=? bits p) && (bits p <=? 1114111) &&
  negb ((55296 <=? bits p) && (bits p <=? 57343)).

Definition next_octet (p : partial) (b : Z) : option (Z + partial) :=
  if (128 <=? b) && (b <=? 191) then
    let p' := {| missing := pred (missing p); bits := 64 * bits p + (b - 128);
                 least := least p |} in
    if (missing p' =? 0)%nat then if scalar p' then Some (inl (bits p')) else None
    else Some (inr p')
  else None.

Fixpoint uri_decode (state : option partial) (l : list piece) : option ustring :=
  match l with
  | [] => match state with None => Some [] | Some _ => None end
  | Unit c :: l =>
      match state with None => s ← uri_decode None l; Some (c :: s) | Some _ => None end
  | Octet b :: l =>
      r ← match state with None => first_octet b | Some p => next_octet p b end;
      match r with
      | inl v => s ← uri_decode None l; Some (utf16 v ++ s)
      | inr p => uri_decode (Some p) l
      end
  end.

Definition decodeURIComponent (s : ustring) : option ustring :=
  l ← uri_pieces s; uri_decode None l.

(** ** The Unicode tables *)

Class Unicode := {
  nfc : ustring → ustring;            (* [s.normalize('NFC')] *)
  u_upper : ustring → ustring;        (* [s.toUpperCase()] *)
  u_lower : ustring → ustring;        (* [s.toLowerCase()] *)
}.

Definition slash : Z := 47.
Definition backslash : Z := 92.

(** What Unicode says of the normal form C: it is stable; the solidus neither composes with its
    neighbours nor is reordered past them; no other character becomes a solidus or a backslash,
    and none becomes part of a percent escape. *)
Class UnicodeLaws `{Unicode} : Prop := {
  nfc_nil : nfc [] = [];
  nfc_stable s : nfc (nfc s) = nfc s;
  nfc_slash a b : nfc (a ++ slash :: b) = nfc a ++ slash :: nfc b;
  nfc_separator c s : c = slash ∨ c = backslash → c ∈ nfc s → c ∈ s;
  nfc_percent s : percent_encoded (nfc s) = true → percent_encoded s = true;
}.

(** ** Lemmas *)

Lemma has_spec c s : has c s = true ↔ c ∈ s.
Proof.
  unfold has. rewrite existsb_true. split.
  - intros (x & Hx & ->%Z.eqb_eq). done.
  - intros H. exists c. split; [done|]. apply Z.eqb_refl.
Qed.

Lemma has_false c s : has c s = false ↔ c ∉ s.
Proof. rewrite <- has_spec. destruct (has c s); naive_solver. Qed.

Lemma u_split_nonempty c s : u_split c s ≠ [].
Proof.
  destruct s as [|d s]; simpl; [done|]. destruct (d =? c); [done|]. by destruct (u_split c s).
Qed.

Lemma u_join_split c s : u_join c (u_split c s) = s.
Proof.
  induction s as [|d s IH]; simpl; [done|].
  destruct (d =? c) eqn:Hd.
  - apply Z.eqb_eq in Hd as ->. rewrite <- IH at 2.
    by destruct (u_split c s) eqn:Hs; [destruct (u_split_nonempty _ _ Hs)|].
  - rewrite <- IH at 2. destruct (u_split c s) as [|x [|y l]]; done.
Qed.

(** Splitting undoes joining when no part contains the separator. *)
Lemma u_split_part c a s : c ∉ a → u_split c (a ++ c :: s) = a :: u_split c s.
Proof.
  induction a as [|d a IH]; intros Ha; cbn [app u_split].
  - by rewrite Z.eqb_refl.
  - apply not_elem_of_cons in Ha as [Hd Ha].
    assert (Hd' : (d =? c) = false) by (by apply Z.eqb_neq).
    by rewrite Hd', (IH Ha).
Qed.

Lemma u_split_absent c a : c ∉ a → u_split c a = [a].
Proof.
  induction a as [|d a IH]; intros Ha; cbn [u_split]; [done|].
  apply not_elem_of_cons in Ha as [Hd Ha].
  assert (Hd' : (d =? c) = false) by (by apply Z.eqb_neq).
  by rewrite Hd', (IH Ha).
Qed.

Lemma u_split_join c l : l ≠ [] → Forall (λ a, c ∉ a) l → u_split c (u_join c l) = l.
Proof.
  intros Hne Hl. induction Hl as [|a l Ha Hl IH]; [done|].
  destruct l as [|b l]; [by apply u_split_absent|].
  change (u_join c (a :: b :: l)) with (a ++ c :: u_join c (b :: l)).
  by rewrite u_split_part, IH by done.
Qed.

Lemma u_split_parts c s : Forall (λ a, c ∉ a) (u_split c s).
Proof.
  induction s as [|d s IH]; cbn [u_split].
  - repeat constructor. apply not_elem_of_nil.
  - destruct (d =? c) eqn:Hd; [constructor; [apply not_elem_of_nil|done]|].
    apply Z.eqb_neq in Hd. destruct (u_split c s) as [|x l].
    + repeat constructor. by apply not_elem_of_cons; split; [|apply not_elem_of_nil].
    + apply Forall_cons in IH as [Hx Hl]. constructor; [|done].
      by apply not_elem_of_cons.
Qed.

Lemma u_join_elem c l x : x ∈ u_join c l → x = c ∨ ∃ a, a ∈ l ∧ x ∈ a.
Proof.
  induction l as [|a l IH]; cbn [u_join]; [by intros ?%elem_of_nil|].
  destruct l as [|b l].
  - intros Hx. right. exists a. split; [left|done].
  - intros [Hx|Hx]%elem_of_app; [right; exists a; split; [left|done]|].
    apply elem_of_cons in Hx as [->|Hx]; [by left|].
    destruct (IH Hx) as [->|(y & Hy & Hx')]; [by left|].
    right. exists y. split; [by right|done].
Qed.

Lemma u_starts_spec pre s : u_starts pre s = true ↔ ∃ t, s = pre ++ t.
Proof.
  revert s. induction pre as [|p pre IH]; intros s; simpl.
  - split; [by exists s|done].
  - destruct s as [|c s]; [split; [done|by intros [t ?]]|].
    rewrite andb_true_iff, Z.eqb_eq, IH. split.
    + intros [-> [t ->]]. by exists t.
    + intros [t ?]; simplify_eq. split; [done|by exists t].
Qed.

Lemma u_hex_slash : u_hex slash = false.
Proof. reflexivity. Qed.

Lemma percent_encoded_slash a b :
  percent_encoded (a ++ slash :: b) = percent_encoded a || percent_encoded b.
Proof.
  induction a as [|c a IH]; [by destruct b as [|h1 [|h2 b]]|].
  change (percent_encoded ((c :: a) ++ slash :: b))
    with (match a ++ slash :: b with
          | h1 :: h2 :: _ => (c =? percent) && u_hex h1 && u_hex h2
          | _ => false
          end || percent_encoded (a ++ slash :: b)).
  rewrite IH. destruct a as [|h1 [|h2 a]].
  - destruct b as [|h b]; simpl; [done|]. by rewrite andb_false_r.
  - cbn [app]. rewrite u_hex_slash, andb_false_r. done.
  - cbn [app]. rewrite orb_assoc. done.
Qed.

Lemma percent_encoded_join l :
  percent_encoded (u_join slash l) = existsb percent_encoded l.
Proof.
  induction l as [|a l IH]; [done|]. destruct l as [|b l]; [by simpl; rewrite orb_false_r|].
  change (u_join slash (a :: b :: l)) with (a ++ slash :: u_join slash (b :: l)).
  by rewrite percent_encoded_slash, IH.
Qed.

Section Laws.
Context `{UnicodeLaws}.

Lemma nfc_join l : nfc (u_join slash l) = u_join slash (nfc <$> l).
Proof.
  induction l as [|a l IH]; [apply nfc_nil|]. destruct l as [|b l]; [done|].
  change (u_join slash (a :: b :: l)) with (a ++ slash :: u_join slash (b :: l)).
  by rewrite nfc_slash, IH.
Qed.

(** The segments of a text in normal form are in normal form. *)
Lemma nfc_segments s a : nfc s = s → a ∈ u_split slash s → nfc a = a.
Proof.
  intros Hs Ha.
  assert (Hm : nfc <$> u_split slash s = u_split slash s).
  { rewrite <- (u_split_join slash (nfc <$> u_split slash s)).
    - by rewrite <- nfc_join, u_join_split, Hs.
    - intros ?%fmap_nil_inv. by eapply u_split_nonempty.
    - apply Forall_fmap. eapply Forall_impl; [apply u_split_parts|].
      intros x Hx ?%nfc_separator; [done|by left]. }
  apply list_elem_of_lookup in Ha as [i Hi].
  assert (Hl : (nfc <$> u_split slash s) !! i = Some a) by by rewrite Hm.
  rewrite list_lookup_fmap, Hi in Hl. by injection Hl.
Qed.
End Laws.

Lemma u_join_part c l a x : a ∈ l → x ∈ a → x ∈ u_join c l.
Proof.
  intros Ha Hx. induction l as [|b l IH]; [by apply elem_of_nil in Ha|].
  apply elem_of_cons in Ha as [<-|Ha]; destruct l as [|d l]; try done.
  - change (u_join c (a :: d :: l)) with (a ++ c :: u_join c (d :: l)).
    apply elem_of_app. by left.
  - by apply elem_of_nil in Ha.
  - change (u_join c (b :: d :: l)) with (b ++ c :: u_join c (d :: l)).
    apply elem_of_app. right. right. by apply IH.
Qed.

Lemma list_fmap_id_on {A} (f : A → A) (l : list A) : (∀ x : A, x ∈ l → f x = x) → f <$> (l : list A) = l.
Proof.
  induction l as [|x l IH]; intros Hf; [done|]. cbn [fmap list_fmap].
  f_equal; [apply Hf; left|apply IH; intros y Hy; apply Hf; by right].
Qed.

(** The tables restricted to ASCII, for evaluation on concrete inputs. *)
Definition ascii_upper (c : Z) : Z := if (97 <=? c) && (c <=? 122) then c - 32 else c.
Definition ascii_lower (c : Z) : Z := if (65 <=? c) && (c <=? 90) then c + 32 else c.
Definition ascii_tables : Unicode :=
  {| nfc s := s; u_upper := map ascii_upper; u_lower := map ascii_lower |}.

Lemma ascii_tables_lawful : @UnicodeLaws ascii_tables.
Proof. by constructor. Qed.

Lemma u_join_app c l l' :
  l ≠ [] → l' ≠ [] → u_join c l ++ c :: u_join c l' = u_join c (l ++ l').
Proof.
  intros Hl Hl'. induction l as [|a l IH]; [done|]. destruct l as [|b l].
  - cbn [u_join app]. by destruct l'.
  - change (u_join c (a :: b :: l)) with (a ++ c :: u_join c (b :: l)).
    change ((a :: b :: l) ++ l') with (a :: b :: (l ++ l')).
    change (u_join c (a :: b :: (l ++ l'))) with (a ++ c :: u_join c (b :: (l ++ l'))).
    rewrite <- app_assoc. cbn [app]. by rewrite IH.
Qed.
