(* ===== verification/Regex.v ===== *)
(** * Regular expressions

    The patterns of the sources that need more than a character class: a small abstract syntax
    and a backtracking matcher in continuation-passing style, for [RegExp.prototype.test] and the
    index [exec] finds, with the semantics the matcher is proved to decide. *)

From S2P Require Import Prelude JsString.

(** A pattern.  A starred item is a class, which is all the sources use. *)
Inductive re :=
  | Eps
  | Cls (p : ascii → bool)
  | Cat (a b : re)
  | Alt (a b : re)
  | StarCls (p : ascii → bool)
  | LazyCls (p : ascii → bool)   (* [*?] *)
  | Start              (* [^], without the flag [m] *)
  | Boundary.          (* [\b] *)

Definition Opt (r : re) : re := Alt r Eps.
Definition PlusCls (p : ascii → bool) : re := Cat (Cls p) (StarCls p).

(** The text [s], in either case: the flag [i] on ASCII. *)
Definition same_letter (a b : ascii) : bool := Ascii.eqb (lower_char a) (lower_char b).
Fixpoint Lit (s : string) : re :=
  match s with
  | EmptyString => Eps
  | String c s => Cat (Cls (same_letter c)) (Lit s)
  end.

(** One of some texts. *)
Fixpoint OneOf (l : list string) : re :=
  match l with
  | [] => Cls (λ _, false)
  | [s] => Lit s
  | s :: l => Alt (Lit s) (OneOf l)
  end.

Fixpoint Seq (l : list re) : re :=
  match l with [] => Eps | [r] => r | r :: l => Cat r (Seq l) end.

(** [\w] *)
Definition word_char (c : ascii) : bool := is_alnum c || Ascii.eqb c "_".

(** Between the character before and the text after, one is a word character and one is not. *)
Definition boundary (prev : option ascii) (s : string) : bool :=
  xorb (from_option word_char false prev)
       (match s with String c _ => word_char c | EmptyString => false end).

(** [k] is asked of every way to match, with the last character before the rest and the rest. *)
Fixpoint rmatch (r : re) (prev : option ascii) (s : string) (k : option ascii → string → bool)
    : bool :=
  match r with
  | Eps => k prev s
  | Cls p => match s with String c s' => if p c then k (Some c) s' else false | EmptyString => false end
  | Cat a b => rmatch a prev s (λ prev s, rmatch b prev s k)
  | Alt a b => if rmatch a prev s k then true else rmatch b prev s k
  | StarCls p =>
      (fix star (prev : option ascii) (s : string) : bool :=
         if k prev s then true
         else match s with
              | String c s' => if p c then star (Some c) s' else false
              | EmptyString => false
              end) prev s
  | LazyCls p =>
      (fix star (prev : option ascii) (s : string) : bool :=
         if k prev s then true
         else match s with
              | String c s' => if p c then star (Some c) s' else false
              | EmptyString => false
              end) prev s
  | Start => match prev with None => k prev s | Some _ => false end
  | Boundary => if boundary prev s then k prev s else false
  end.

(** The connectives above are lazy: the branch not needed is not run. *)
Ltac connectives :=
  repeat match goal with
  | |- context [if ?a then true else ?b] => change (if a then true else b) with (a || b)
  | |- context [if ?a then ?b else false] => change (if a then b else false) with (a && b)
  end.

(** The text after a match of the pattern at the head of [s]. *)
Inductive matched : re → option ascii → string → option ascii → string → Prop :=
  | m_eps prev s : matched Eps prev s prev s
  | m_cls p prev c s : p c = true → matched (Cls p) prev (String c s) (Some c) s
  | m_cat a b prev s prev1 s1 prev2 s2 :
      matched a prev s prev1 s1 → matched b prev1 s1 prev2 s2 →
      matched (Cat a b) prev s prev2 s2
  | m_left a b prev s prev1 s1 : matched a prev s prev1 s1 → matched (Alt a b) prev s prev1 s1
  | m_right a b prev s prev1 s1 : matched b prev s prev1 s1 → matched (Alt a b) prev s prev1 s1
  | m_none p prev s : matched (StarCls p) prev s prev s
  | m_more p prev c s prev1 s1 :
      p c = true → matched (StarCls p) (Some c) s prev1 s1 →
      matched (StarCls p) prev (String c s) prev1 s1
  | m_lazy p prev s prev1 s1 : matched (StarCls p) prev s prev1 s1 → matched (LazyCls p) prev s prev1 s1
  | m_start s : matched Start None s None s
  | m_boundary prev s : boundary prev s = true → matched Boundary prev s prev s.

(** A star asks [k] of every run of its class. *)
Lemma star_spec (p : ascii → bool) (prev : option ascii) (s : string) (k : option ascii → string → bool) :
  (fix star (prev : option ascii) (s : string) : bool :=
     if k prev s then true
     else match s with
          | String c s' => if p c then star (Some c) s' else false
          | EmptyString => false
          end) prev s = true ↔
  ∃ prev1 s1, matched (StarCls p) prev s prev1 s1 ∧ k prev1 s1 = true.
Proof.
  revert prev. induction s as [|c s IH]; intros prev; cbn beta iota fix; connectives;
      rewrite orb_true_iff.
  - split; [intros [Hk|]; [|done]; exists prev, ""; by split; [constructor|]|].
    intros (p1 & s1 & Hm & Hk). inversion Hm; subst. by left.
  - rewrite andb_true_iff, IH. split.
    + intros [Hk|(Hp & p1 & s1 & Hm & Hk)]; [exists prev, (String c s); by split; [constructor|]|].
      exists p1, s1. split; [by apply m_more|done].
    + intros (p1 & s1 & Hm & Hk). inversion Hm; subst; [by left|right].
      split; [done|]. by eexists _, _.
Qed.

(** The matcher tries exactly the matches of the semantics. *)
Lemma rmatch_spec r prev s k :
  rmatch r prev s k = true ↔ ∃ prev1 s1, matched r prev s prev1 s1 ∧ k prev1 s1 = true.
Proof.
  revert prev s k. induction r as [|p|a IHa b IHb|a IHa b IHb|p|p| |]; intros prev s k; cbn [rmatch]; connectives.
  - split; [intros Hk; exists prev, s; by split; [constructor|]|].
    intros (p1 & s1 & Hm & Hk). by inversion Hm; subst.
  - split.
    + destruct s as [|c s]; [done|]. intros [Hp Hk]%andb_true_iff.
      exists (Some c), s. by split; [constructor|].
    + intros (p1 & s1 & Hm & Hk). inversion Hm; subst. by apply andb_true_iff.
  - rewrite IHa. split.
    + intros (p1 & s1 & Hm & (p2 & s2 & Hm2 & Hk)%IHb). exists p2, s2.
      by split; [econstructor|].
    + intros (p2 & s2 & Hm & Hk). inversion Hm; subst. eexists _, _. split; [done|].
      apply IHb. by eexists _, _.
  - rewrite orb_true_iff, IHa, IHb. split.
    + intros [(p1 & s1 & Hm & Hk)|(p1 & s1 & Hm & Hk)]; exists p1, s1; (split; [|done]);
        [by apply m_left|by apply m_right].
    + intros (p1 & s1 & Hm & Hk). inversion Hm; subst; [left|right]; by eexists _, _.
  - apply star_spec.
  - rewrite star_spec. split; intros (p1 & s1 & Hm & Hk); exists p1, s1; (split; [|done]);
      [by constructor | by inversion Hm; subst].
  - split.
    + destruct prev; [done|]. intros Hk. exists None, s. by split; [constructor|].
    + intros (p1 & s1 & Hm & Hk). by inversion Hm; subst.
  - rewrite andb_true_iff. split.
    + intros [Hb Hk]. exists prev, s. by split; [constructor|].
    + intros (p1 & s1 & Hm & Hk). by inversion Hm; subst.
Qed.

(** The index of the first match. *)
Fixpoint search_from (i : Z) (r : re) (prev : option ascii) (s : string) : option Z :=
  if rmatch r prev s (λ _ _, true) then Some i
  else match s with
       | String c s' => search_from (i + 1) r (Some c) s'
       | EmptyString => None
       end.

(** [r.exec(s)?.index] and [r.test(s)] *)
Definition re_index (r : re) (s : string) : option Z := search_from 0 r None s.
Definition re_test (r : re) (s : string) : bool := bool_decide (is_Some (re_index r s)).

(** The character before the text [b] when [a] precedes it. *)
Fixpoint last_char (prev : option ascii) (a : string) : option ascii :=
  match a with EmptyString => prev | String c a => last_char (Some c) a end.

Lemma search_from_spec i r prev s :
  is_Some (search_from i r prev s) ↔
  ∃ a b prev1 rest, s = a +s b ∧ matched r (last_char prev a) b prev1 rest.
Proof.
  revert i prev. induction s as [|c s IH]; intros i prev; cbn [search_from].
  - destruct (rmatch r prev "" (λ _ _, true)) eqn:E.
    + apply rmatch_spec in E as (p1 & s1 & Hm & _). split; [|by eexists].
      intros _. by exists "", "", p1, s1.
    + split; [by intros []|]. intros (a & b & p1 & rest & Hab & Hm).
      destruct a; [|done]. simpl in *; subst b. exfalso.
      assert (rmatch r prev "" (λ _ _, true) = true) by (apply rmatch_spec; by eexists _, _).
      congruence.
  - destruct (rmatch r prev (String c s) (λ _ _, true)) eqn:E.
    + apply rmatch_spec in E as (p1 & s1 & Hm & _). split; [|by eexists].
      intros _. by exists "", (String c s), p1, s1.
    + rewrite IH. split.
      * intros (a & b & p1 & rest & -> & Hm). by exists (String c a), b, p1, rest.
      * intros (a & b & p1 & rest & Hab & Hm). destruct a as [|d a]; simplify_eq/=.
        -- exfalso. assert (rmatch r prev (String c s) (λ _ _, true) = true)
             by (apply rmatch_spec; by eexists _, _). congruence.
        -- by exists a, b, p1, rest.
Qed.

(** A pattern tests positive exactly when it matches somewhere. *)
Lemma re_test_spec r s :
  re_test r s = true ↔
  ∃ a b prev1 rest, s = a +s b ∧ matched r (last_char None a) b prev1 rest.
Proof. unfold re_test, re_index. by rewrite bool_decide_eq_true, search_from_spec. Qed.

(** ** Matches and the texts between them *)

(** The first match in the order of the backtracking search: the character before the rest, and
    the rest. *)
Fixpoint rexec {A} (r : re) (prev : option ascii) (s : string) (k : option ascii → string → option A)
    : option A :=
  match r with
  | Eps => k prev s
  | Cls p => match s with String c s' => if p c then k (Some c) s' else None | EmptyString => None end
  | Cat a b => rexec a prev s (λ prev s, rexec b prev s k)
  | Alt a b => match rexec a prev s k with Some x => Some x | None => rexec b prev s k end
  | StarCls p =>
      (fix star (prev : option ascii) (s : string) : option A :=
         match match s with
               | String c s' => if p c then star (Some c) s' else None
               | EmptyString => None
               end with
         | Some x => Some x
         | None => k prev s
         end) prev s
  | LazyCls p =>
      (fix star (prev : option ascii) (s : string) : option A :=
         match k prev s with
         | Some x => Some x
         | None => match s with
                   | String c s' => if p c then star (Some c) s' else None
                   | EmptyString => None
                   end
         end) prev s
  | Start => match prev with None => k prev s | Some _ => None end
  | Boundary => if boundary prev s then k prev s else None
  end.

(** What the search finds is a match, and it fails only when there is none. *)
Lemma rexec_sound {A} r prev s (k : option ascii → string → option A) x :
  rexec r prev s k = Some x → ∃ prev1 s1, matched r prev s prev1 s1 ∧ k prev1 s1 = Some x.
Proof.
  revert prev s k x. induction r as [|p|a IHa b IHb|a IHa b IHb|p|p| |]; intros prev s k x; cbn [rexec].
  - intros Hk. exists prev, s. by split; [constructor|].
  - destruct s as [|c s]; [done|]. destruct (p c) eqn:Hp; [|done]. intros Hk.
    exists (Some c), s. by split; [constructor|].
  - intros (p1 & s1 & Hm & (p2 & s2 & Hm2 & Hk)%IHb)%IHa. exists p2, s2. by split; [econstructor|].
  - destruct (rexec a prev s k) eqn:Ha.
    + intros [= <-]. apply IHa in Ha as (p1 & s1 & Hm & Hk). exists p1, s1. by split; [apply m_left|].
    + intros (p1 & s1 & Hm & Hk)%IHb. exists p1, s1. by split; [apply m_right|].
  - revert prev. induction s as [|c s IH]; intros prev; cbn beta iota fix.
    + intros Hk. exists prev, "". by split; [constructor|].
    + destruct (p c) eqn:Hp; [|intros Hk; exists prev, (String c s); by split; [constructor|]].
      destruct (_ (Some c) s) eqn:Hs.
      * intros [= <-]. destruct (IH _ Hs) as (p1 & s1 & Hm & Hk). exists p1, s1. by split; [apply m_more|].
      * intros Hk. exists prev, (String c s). by split; [constructor|].
  - revert prev. induction s as [|c s IH]; intros prev; cbn beta iota fix.
    + destruct (k prev "") eqn:Hk; [|done]. intros [= <-]. exists prev, "". by split; [do 2 constructor|].
    + destruct (k prev (String c s)) eqn:Hk.
      * intros [= <-]. exists prev, (String c s). by split; [do 2 constructor|].
      * destruct (p c) eqn:Hp; [|done]. intros (p1 & s1 & Hm & Hk')%IH. exists p1, s1. split; [|done].
        inversion Hm; subst. constructor. by apply m_more.
  - destruct prev; [done|]. intros Hk. exists None, s. by split; [constructor|].
  - destruct (boundary prev s) eqn:Hb; [|done]. intros Hk. exists prev, s. by split; [constructor|].
Qed.

Lemma star_complete {A} p prev s prev1 s1 (k : option ascii → string → option A) :
  matched (StarCls p) prev s prev1 s1 → is_Some (k prev1 s1) →
  is_Some (rexec (StarCls p) prev s k) ∧ is_Some (rexec (LazyCls p) prev s k).
Proof.
  cbn [rexec]. revert prev. induction s as [|c s IH]; intros prev Hm Hk.
  - inversion Hm; subst. cbn beta iota fix. destruct Hk as [x ->]. by split; eexists.
  - cbn beta iota fix. inversion Hm as [| | | | |? ? ?|? ? ? ? ? ? Hp Hm'| | |]; subst.
    + split; [case_match; [by eexists|done] | destruct Hk as [x ->]; by eexists].
    + rewrite Hp. destruct (IH (Some c) Hm' Hk) as [[x Hx] Hlazy]. split; [rewrite Hx; by eexists|].
      case_match; [by eexists | done].
Qed.

Lemma rexec_complete {A} r prev s prev1 s1 (k : option ascii → string → option A) :
  matched r prev s prev1 s1 → is_Some (k prev1 s1) → is_Some (rexec r prev s k).
Proof.
  revert prev s prev1 s1 k. induction r as [|p|a IHa b IHb|a IHa b IHb|p|p| |];
    intros prev s prev1 s1 k Hm Hk; cbn [rexec].
  - by inversion Hm; subst.
  - inversion Hm as [|? ? ? ? Hp| | | | | | | |]; subst. by rewrite Hp.
  - inversion Hm; subst. eapply IHa; [done|]. cbn beta. by eapply IHb.
  - inversion Hm; subst.
    + destruct (IHa _ _ _ _ k ltac:(eassumption) Hk) as [x ->]. by eexists.
    + case_match; [by eexists|]. by eapply IHb.
  - by eapply (star_complete p).
  - inversion Hm; subst. by eapply (star_complete p).
  - by inversion Hm; subst.
  - inversion Hm as [| | | | | | | | |? ? Hb]; subst. by rewrite Hb.
Qed.

(** One match at the head of the text. *)
Definition re_match (r : re) (prev : option ascii) (s : string) : option (option ascii * string) :=
  rexec r prev s (λ prev s, Some (prev, s)).

Lemma re_match_sound r prev s p1 s1 : re_match r prev s = Some (p1, s1) → matched r prev s p1 s1.
Proof. intros (p & t & Hm & [= <- <-])%rexec_sound. done. Qed.

Lemma re_match_none r prev s p1 s1 : re_match r prev s = None → ¬ matched r prev s p1 s1.
Proof.
  intros Hn Hm. destruct (rexec_complete r prev s p1 s1 (λ prev s, Some (prev, s)) Hm) as [x Hx]; [by eexists|].
  unfold re_match in Hn. congruence.
Qed.

Lemma matched_suffix r prev s p1 s1 : matched r prev s p1 s1 → ∃ w, s = w +s s1 ∧ p1 = last_char prev w.
Proof.
  induction 1; try (by exists ""); try done.
  - by exists (String c "").
  - destruct IHmatched1 as (w & -> & ->), IHmatched2 as (w' & -> & ->). exists (w +s w').
    rewrite str_app_assoc. split; [done|]. clear. revert prev. induction w; intros prev; [done|]. apply IHw.
  - destruct IHmatched as (w & -> & ->). by exists (String c w).
Qed.

(** A global replacement or [matchAll]: the offset, the end and the text of every match, and the
    texts between them.  After an empty match the search moves on by one character. *)
Record re_hit := { hit_start : Z; hit_end : Z; hit_text : string }.

Fixpoint re_scan (fuel : nat) (r : re) (i : Z) (prev : option ascii) (s : string)
  : list string * list re_hit :=
  match fuel with
  | O => ([s], [])
  | S fuel =>
      match s with
      | EmptyString =>
          match re_match r prev "" with
          | Some _ => ([""; ""], [{| hit_start := i; hit_end := i; hit_text := "" |}])
          | None => ([""], [])
          end
      | String c s' =>
          match re_match r prev s with
          | Some (prev1, rest) =>
              let n := str_length s - str_length rest in
              let hit := {| hit_start := i; hit_end := i + n; hit_text := slice_to (Z.to_nat n) s |} in
              if n =? 0 then
                match re_scan fuel r (i + 1) (Some c) s' with
                | (p :: ps, hits) => ("" :: String c p :: ps, hit :: hits)
                | ([], hits) => ([""; String c ""], hit :: hits)
                end
              else let '(ps, hits) := re_scan fuel r (i + n) prev1 rest in ("" :: ps, hit :: hits)
          | None =>
              match re_scan fuel r (i + 1) (Some c) s' with
              | (p :: ps, hits) => (String c p :: ps, hits)
              | ([], hits) => ([String c ""], hits)
              end
          end
      end
  end.

Definition re_parts (r : re) (s : string) : list string := (re_scan (S (String.length s)) r 0 None s).1.
Definition matchAll (r : re) (s : string) : list re_hit := (re_scan (S (String.length s)) r 0 None s).2.
(** [s.replace(/r/g, by_)] *)
Definition re_replace (r : re) (by_ s : string) : string := join by_ (re_parts r s).

(** Every text between two matches is a part of the text. *)
Lemma includes_self s : str_includes s s = true.
Proof. apply str_includes_spec. exists "", "". by rewrite str_app_nil_r. Qed.
Lemma includes_empty s : str_includes s "" = true.
Proof. apply str_includes_spec. by exists "", s. Qed.
Lemma includes_suffix w s p : str_includes s p = true → str_includes (w +s s) p = true.
Proof.
  intros (a & b & ->)%str_includes_spec. apply str_includes_spec. exists (w +s a), b. by rewrite str_app_assoc.
Qed.

Definition parts_of (s : string) (l : list string) : Prop :=
  ∃ p ps, l = p :: ps ∧ (∃ t, s = p +s t) ∧ ∀ q, q ∈ ps → str_includes s q = true.

Lemma parts_cons c s l :
  parts_of s l → parts_of (String c s) (match l with p :: ps => String c p :: ps | [] => [String c ""] end).
Proof.
  intros (p & ps & -> & [t ->] & Hps). exists (String c p), ps. split; [done|]. split; [by exists t|].
  intros q Hq. apply (includes_suffix (String c "")). by apply Hps.
Qed.

Lemma parts_elem s l p : parts_of s l → p ∈ l → str_includes s p = true.
Proof.
  intros (q & ps & -> & [t ->] & Hps) Hp. apply elem_of_cons in Hp as [->|Hp]; [|by apply Hps].
  apply str_includes_spec. by exists "", t.
Qed.

(** After a match, the parts of the rest follow an empty one. *)
Lemma parts_skip w s l : parts_of s l → parts_of (w +s s) ("" :: l).
Proof.
  intros Hl. exists "", l. split; [done|]. split; [by exists (w +s s)|].
  intros q Hq. apply includes_suffix. by eapply parts_elem.
Qed.

Lemma re_scan_parts fuel r i prev s : parts_of s (re_scan fuel r i prev s).1.
Proof.
  assert (Hone : ∀ s, parts_of s [s]).
  { intros t. exists t, []. split; [done|]. split; [exists ""; by rewrite str_app_nil_r|].
    intros q Hq. by apply elem_of_nil in Hq. }
  revert i prev s. induction fuel as [|fuel IH]; intros i prev s; cbn [re_scan]; [apply Hone|].
  destruct s as [|c s]; cbn [fst].
  - destruct (re_match r prev "") as [[]|]; [apply (parts_skip ""), Hone | apply Hone].
  - destruct (re_match r prev (String c s)) as [[p1 rest]|] eqn:Hm.
    + apply re_match_sound, matched_suffix in Hm as (w & Hw & _).
      destruct (_ =? 0).
      * specialize (IH (i + 1) (Some c) s). destruct (re_scan fuel r (i + 1) (Some c) s) as [ps hits].
        apply (parts_cons c), (parts_skip "") in IH. by destruct ps.
      * specialize (IH (i + (str_length (String c s) - str_length rest)) p1 rest).
        destruct (re_scan _ _ _ p1 rest) as [ps hits]. rewrite Hw. by apply parts_skip.
    + specialize (IH (i + 1) (Some c) s). destruct (re_scan fuel r (i + 1) (Some c) s) as [ps hits].
      apply (parts_cons c) in IH. by destruct ps.
Qed.

Lemma re_parts_included r s p : p ∈ re_parts r s → str_includes s p = true.
Proof. apply parts_elem, re_scan_parts. Qed.

(** Without a hit the pattern matches nowhere. *)
Lemma re_scan_no_hit fuel r i prev s :
  (String.length s < fuel)%nat → (re_scan fuel r i prev s).2 = [] → search_from i r prev s = None.
Proof.
  assert (Hnone : ∀ prev t, re_match r prev t = None → rmatch r prev t (λ _ _, true) = false).
  { intros p t Hn. apply not_true_is_false. rewrite rmatch_spec. intros (p1 & s1 & Hm & _).
    by eapply re_match_none. }
  revert i prev s. induction fuel as [|fuel IH]; intros i prev s Hf; [lia|].
  destruct s as [|c s]; cbn [re_scan search_from].
  - destruct (re_match r prev "") as [[? ?]|] eqn:Hm; [done|]. by rewrite Hnone.
  - destruct (re_match r prev (String c s)) as [[p1 rest]|] eqn:Hm.
    + destruct (_ =? 0); [destruct (re_scan _ _ _ _ _) as [[] ?] | destruct (re_scan _ _ _ _ _)]; done.
    + rewrite Hnone by done. specialize (IH (i + 1) (Some c) s). cbn [String.length] in Hf.
      destruct (re_scan _ _ _ _ _) as [ps hits]. destruct ps; intros Hh; apply IH; (lia || done).
Qed.

Lemma matchAll_none r s : matchAll r s = [] → re_test r s = false.
Proof.
  intros H. unfold re_test, re_index. apply bool_decide_eq_false.
  rewrite (re_scan_no_hit (S (String.length s))) by (done || lia). by intros [].
Qed.
