(* ===== verification/Json.v ===== *)
(** * JSON text and digests

    [JSON.stringify] on the values the sources hash, and the digest they apply to it.  Numbers
    are the safe integers.  An [undefined] array element is written [JNull] and an [undefined]
    member is left out, as [stringify] does. *)

From Stdlib Require Import ClassicalEpsilon.
From S2P Require Import Prelude JsString.

Inductive json :=
  | JNull
  | JBool (b : bool)
  | JNum (n : Z)
  | JStr (s : string)
  | JArr (l : list json)
  | JObj (l : list (string * json)).

(** Induction through the nested lists. *)
Section JsonInd.
Context (P : json → Prop).
Context (Hnull : P JNull) (Hbool : ∀ b, P (JBool b)) (Hnum : ∀ n, P (JNum n))
  (Hstr : ∀ s, P (JStr s)) (Harr : ∀ l, Forall P l → P (JArr l))
  (Hobj : ∀ l, Forall (λ kv, P kv.2) l → P (JObj l)).

Fixpoint json_nested_ind (j : json) : P j :=
  match j with
  | JNull => Hnull
  | JBool b => Hbool b
  | JNum n => Hnum n
  | JStr s => Hstr s
  | JArr l => Harr l ((fix go l : Forall P l :=
      match l with
      | [] => Forall_nil_2 P
      | x :: l => Forall_cons_2 P x l (json_nested_ind x) (go l)
      end) l)
  | JObj l => Hobj l ((fix go l : Forall (λ kv, P kv.2) l :=
      match l with
      | [] => Forall_nil_2 _
      | x :: l => Forall_cons_2 _ x l (json_nested_ind x.2) (go l)
      end) l)
  end.
End JsonInd.

Definition hex_digit (n : N) : ascii :=
  if (n <? 10)%N then ascii_of_N (48 + n) else ascii_of_N (87 + n).

(** One UTF-16 unit of a quoted string. *)
Definition escape_char (c : ascii) : string :=
  let n := N_of_ascii c in
  if (n =? 34)%N then "\" +s String c ""
  else if (n =? 92)%N then "\\"
  else if (n =? 8)%N then "\b"
  else if (n =? 12)%N then "\f"
  else if (n =? 10)%N then "\n"
  else if (n =? 13)%N then "\r"
  else if (n =? 9)%N then "\t"
  else if (n <? 32)%N then
    "\u00" +s String (hex_digit (n / 16)) (String (hex_digit (n mod 16)) "")
  else String c "".

Fixpoint escape (s : string) : string :=
  match s with
  | EmptyString => EmptyString
  | String c s => escape_char c +s escape s
  end.

Definition dquote : ascii := ascii_of_N 34.
Definition quote (s : string) : string := String dquote (escape s +s String dquote "").

#[global] Arguments quote : simpl never.

(** [JSON.stringify]. *)
Fixpoint stringify (j : json) : string :=
  match j with
  | JNull => "null"
  | JBool true => "true"
  | JBool false => "false"
  | JNum n => num_to_string n
  | JStr s => quote s
  | JArr l => "[" +s join "," (map stringify l) +s "]"
  | JObj l => "{" +s join "," (map (λ '(k, v), quote k +s ":" +s stringify v) l) +s "}"
  end.

Definition JOpt {A} (f : A → json) (o : option A) : json :=
  match o with Some a => f a | None => JNull end.

(** ** Digests

    [createHash('sha256').update(text).digest('hex')] of [node:crypto]. *)
Class Digest := sha256 : string → string.

(** Collision resistance, idealised: distinct texts have distinct digests. *)
Class CollisionFree `{Digest} : Prop := sha256_inj : Inj (=) (=) sha256.

(** [JSON.parse]; it inverts [stringify] on values without repeated keys. *)
Inductive distinct_keys : json → Prop :=
  | dk_null : distinct_keys JNull
  | dk_bool b : distinct_keys (JBool b)
  | dk_num n : distinct_keys (JNum n)
  | dk_str s : distinct_keys (JStr s)
  | dk_arr l : Forall distinct_keys l → distinct_keys (JArr l)
  | dk_obj l : NoDup l.*1 → Forall (λ kv, distinct_keys kv.2) l → distinct_keys (JObj l).

Class JsonParse := {
  json_parse : string → option json;
  json_parse_stringify v : distinct_keys v → json_parse (stringify v) = Some v;
}.

(** ** The text determines the value *)

Definition num_char (c : ascii) : bool := is_digit c || Ascii.eqb c "-".

Definition first_char (s : string) : option ascii :=
  match s with String c _ => Some c | EmptyString => None end.

(** What may follow a value: the end, or a delimiter. *)
Definition delimited (r : string) : Prop :=
  match r with
  | EmptyString => True
  | String c _ => char_in ",]}" c = true
  end.

Lemma pretty_N_char_digit n : is_digit (pretty_N_char n) = true.
Proof. by destruct n as [|[[[[]|[]|]|[[]|[]|]|]|[[[]|[]|]|[[]|[]|]|]|]]. Qed.

Lemma pretty_N_go_digits x s : all_chars is_digit s = true → all_chars is_digit (pretty_N_go x s) = true.
Proof.
  revert s. induction (N.lt_wf_0 x) as [x _ IH]; intros s Hs.
  assert (x = 0 ∨ 0 < x)%N as [->|?] by lia; [by rewrite pretty_N_go_0|].
  rewrite pretty_N_go_step by done. apply IH; [by apply N.div_lt|].
  simpl. by rewrite pretty_N_char_digit.
Qed.

Lemma pretty_N_digits (n : N) : all_chars is_digit (pretty n : string) = true.
Proof. unfold pretty, pretty_N. case_decide; [done|]. by apply pretty_N_go_digits. Qed.

(** [Number.parseInt] reads back what [String] prints. *)
Lemma leading_digits_go x s :
  leading_digits 0 (pretty_N_go x s) = leading_digits (Z.of_N x) s.
Proof.
  revert s. induction (N.lt_wf_0 x) as [x _ IH]; intros s.
  assert (x = 0 ∨ 0 < x)%N as [->|?] by lia; [by rewrite pretty_N_go_0|].
  rewrite pretty_N_go_step by done. rewrite IH by by apply N.div_lt.
  cbn [leading_digits]. rewrite pretty_N_char_digit. f_equal.
  assert (Hc : ∀ n, (n < 10)%N → code_of (pretty_N_char n) - 48 = Z.of_N n).
  { intros n Hn. destruct n as [|[[[[]|[]|]|[[]|[]|]|]|[[[]|[]|]|[[]|[]|]|]|]]; try done; lia. }
  rewrite Hc by (apply N.mod_lt; done).
  rewrite N2Z.inj_div, N2Z.inj_mod. pose proof (Z.div_mod (Z.of_N x) 10). lia.
Qed.

Lemma digits_first s : digits s = true → ∃ c t, s = String c t ∧ is_digit c = true.
Proof. unfold digits. destruct s as [|c t]; simpl; [done|]. intros H. breflect. eauto. Qed.

Lemma digit_plain c : is_digit c = true → is_space c = false ∧ Ascii.eqb c "-" = false ∧ Ascii.eqb c "+" = false.
Proof. by destruct c as [[] [] [] [] [] [] [] []]. Qed.

Lemma parseInt10_digits s : digits s = true → parseInt10 s = Some (leading_digits 0 s).
Proof.
  intros (c & t & -> & Hc)%digits_first. unfold parseInt10. cbn [trimStart].
  destruct (digit_plain c Hc) as (-> & -> & ->). by rewrite Hc.
Qed.

Lemma all_chars_impl p q s :
  (∀ c, p c = true → q c = true) → all_chars p s = true → all_chars q s = true.
Proof.
  intros Hpq. induction s as [|c s IH]; simpl; [done|]. intros Hs. breflect.
  rewrite Hpq, IH; done.
Qed.

Lemma num_chars z : all_chars num_char (num_to_string z) = true.
Proof.
  assert (Hd : ∀ n : N, all_chars num_char (pretty n) = true).
  { intros n. eapply all_chars_impl; [|apply pretty_N_digits].
    intros c Hc. unfold num_char. by rewrite Hc. }
  unfold num_to_string. destruct z; [done | apply Hd | apply (Hd (N.pos _))].
Qed.

Lemma num_nonempty z : num_to_string z ≠ "".
Proof.
  assert (Hp : ∀ p, (pretty (N.pos p) : string) ≠ "").
  { intros p Hp. assert (He : (pretty (N.pos p) : string) = pretty 0%N +s "" ∨ True) by auto.
    unfold pretty, pretty_N in Hp. case_decide; [done|].
    assert (Hlen : ∀ x s, (String.length s <= String.length (pretty_N_go x s))%nat).
    { intros x. induction (N.lt_wf_0 x) as [x _ IH]; intros s.
      assert (x = 0 ∨ 0 < x)%N as [->|?] by lia; [by rewrite pretty_N_go_0|].
      rewrite pretty_N_go_step by done. etrans; [|apply IH, N.div_lt; lia]. simpl. lia. }
    rewrite pretty_N_go_step in Hp by lia.
    pose proof (Hlen (N.pos p `div` 10)%N (String (pretty_N_char (N.pos p `mod` 10)) "")) as Hl.
    rewrite Hp in Hl. simpl in Hl. lia. }
  unfold num_to_string. destruct z; [done | apply Hp | done].
Qed.

Lemma num_digits n : 0 ≤ n → digits (num_to_string n) = true.
Proof.
  intros Hn. unfold digits. apply andb_true_iff. split.
  - unfold num_to_string. destruct n as [|p|p]; [done|apply (pretty_N_digits (N.pos p))|lia].
  - unfold nonempty. apply negb_true_iff, String.eqb_neq, num_nonempty.
Qed.

Lemma parseInt10_num n : 0 ≤ n → parseInt10 (num_to_string n) = Some n.
Proof.
  intros Hn. rewrite parseInt10_digits by by apply num_digits. f_equal.
  unfold num_to_string. destruct n as [|p|p]; [done| |lia].
  change (leading_digits 0 (pretty_N_go (N.pos p) "") = Z.pos p). by rewrite leading_digits_go.
Qed.

(** A maximal run of one character class is determined by the text. *)
Lemma span_inj p a b r1 r2 :
  all_chars p a = true → all_chars p b = true →
  (∀ c, first_char r1 = Some c → p c = false) → (∀ c, first_char r2 = Some c → p c = false) →
  a +s r1 = b +s r2 → a = b ∧ r1 = r2.
Proof.
  revert b. induction a as [|c a IH]; intros [|d b]; simpl; intros Ha Hb H1 H2 E; breflect.
  - done.
  - subst r1. rewrite (H1 d) in * by done. done.
  - subst r2. rewrite (H2 c) in * by done. done.
  - injection E as -> E. destruct (IH b) as [-> ->]; done.
Qed.

Definition unhex (c : ascii) : N :=
  let n := N_of_ascii c in if (n <? 58)%N then (n - 48)%N else (n - 87)%N.

(** The reader of one escaped unit, the inverse of [escape_char]. *)
Definition unescape1 (s : string) : option (ascii * string) :=
  match s with
  | EmptyString => None
  | String c s =>
      let n := N_of_ascii c in
      if (n =? 34)%N then None
      else if (n =? 92)%N then
        match s with
        | String "b" s => Some (ascii_of_N 8, s)
        | String "f" s => Some (ascii_of_N 12, s)
        | String "n" s => Some (ascii_of_N 10, s)
        | String "r" s => Some (ascii_of_N 13, s)
        | String "t" s => Some (ascii_of_N 9, s)
        | String "u" (String _ (String _ (String h (String l s)))) =>
            Some (ascii_of_N (16 * unhex h + unhex l), s)
        | String d s => Some (d, s)
        | EmptyString => None
        end
      else Some (c, s)
  end.

Lemma unescape1_escape c s : unescape1 (escape_char c +s s) = Some (c, s).
Proof. by destruct c as [[] [] [] [] [] [] [] []]. Qed.

Lemma escape_inj a b r1 r2 :
  escape a +s String dquote r1 = escape b +s String dquote r2 → a = b ∧ r1 = r2.
Proof.
  revert b. induction a as [|c a IH]; intros [|d b]; cbn [escape]; rewrite ?str_app_assoc.
  - intros [= ->]. done.
  - intros E%(f_equal unescape1). by rewrite unescape1_escape in E.
  - intros E%(f_equal unescape1). by rewrite unescape1_escape in E.
  - intros E%(f_equal unescape1). rewrite !unescape1_escape in E. injection E as -> E.
    by destruct (IH b E) as [-> ->].
Qed.

Lemma quote_inj a b r1 r2 : quote a +s r1 = quote b +s r2 → a = b ∧ r1 = r2.
Proof.
  unfold quote. intros E. change (String dquote (escape a +s String dquote "") +s r1) with
    (String dquote ((escape a +s String dquote "") +s r1)) in E.
  change (String dquote (escape b +s String dquote "") +s r2) with
    (String dquote ((escape b +s String dquote "") +s r2)) in E.
  rewrite !str_app_assoc in E. injection E as E. by apply escape_inj in E.
Qed.

Lemma delimited_not_num r c : delimited r → first_char r = Some c → num_char c = false.
Proof.
  destruct r as [|d r]; [done|]. intros Hd [= ->]. unfold delimited in Hd.
  by destruct c as [[] [] [] [] [] [] [] []].
Qed.

(** [join] followed by a closing bracket, element by element. *)
Fixpoint tail_text (close : string) (l : list string) : string :=
  match l with
  | [] => close
  | x :: l => "," +s x +s tail_text close l
  end.

Lemma join_close close x l : join "," (x :: l) +s close = x +s tail_text close l.
Proof.
  revert x. induction l as [|y l IH]; intros x; [done|].
  change (join "," (x :: y :: l)) with (x +s "," +s join "," (y :: l)).
  by rewrite !str_app_assoc, IH.
Qed.

(** The leading character tells the constructor. *)
Definition char_tag (c : ascii) : nat :=
  if Ascii.eqb c "n" then 0 else if Ascii.eqb c "t" then 1 else if Ascii.eqb c "f" then 2
  else if num_char c then 3 else if Ascii.eqb c dquote then 4
  else if Ascii.eqb c "[" then 5 else 6.

Definition tag (j : json) : nat :=
  match j with
  | JNull => 0 | JBool true => 1 | JBool false => 2 | JNum _ => 3
  | JStr _ => 4 | JArr _ => 5 | JObj _ => 6
  end.

Lemma num_char_tag c : num_char c = true → char_tag c = 3%nat.
Proof. by destruct c as [[] [] [] [] [] [] [] []]. Qed.

Lemma stringify_tag j r : ∃ c t, stringify j +s r = String c t ∧ char_tag c = tag j.
Proof.
  destruct j as [|[]|n|s|l|l]; try by (eexists _, _; split; [reflexivity|]).
  simpl. pose proof (num_chars n) as Hc. destruct (num_to_string n) as [|c t] eqn:E.
  - by apply num_nonempty in E.
  - exists c, (t +s r). split; [done|]. simpl in Hc. breflect. by apply num_char_tag.
Qed.

Definition text_determines (v : json) : Prop :=
  ∀ w r1 r2, delimited r1 → delimited r2 →
    stringify v +s r1 = stringify w +s r2 → v = w ∧ r1 = r2.

(** Lists of elements, each of whose texts determines it; [close] is the bracket and what
    follows it. *)
Definition each_determines {A} (f : A → string) (l : list A) : Prop :=
  Forall (λ x, ∀ y s1 s2, delimited s1 → delimited s2 →
    f x +s s1 = f y +s s2 → x = y ∧ s1 = s2) l.

Lemma tail_delimited close l : delimited close → delimited (tail_text close l).
Proof. by destruct l. Qed.

Lemma tail_inj {A} (f : A → string) c1 c2 l l' :
  delimited c1 → delimited c2 →
  (∃ c t, c1 = String c t ∧ c ≠ ","%char) → (∃ c t, c2 = String c t ∧ c ≠ ","%char) →
  each_determines f l →
  tail_text c1 (map f l) = tail_text c2 (map f l') → l = l' ∧ c1 = c2.
Proof.
  intros Hd1 Hd2 (a1 & t1 & -> & Hn1) (a2 & t2 & -> & Hn2).
  revert l'. induction l as [|x l IH]; intros [|y l'] Hf E; simpl in E.
  - done.
  - injection E as -> _. done.
  - injection E as <- _. done.
  - inversion Hf as [|? ? Hx Hl]; subst. injection E as E.
    apply Hx in E as [-> E]; [|by apply tail_delimited..]. by destruct (IH l' Hl E) as [-> E'].
Qed.

Lemma list_inj {A} (f : A → string) close l l' r1 r2 :
  char_in ",]}" close = true → close ≠ ","%char →
  (∀ x, ∃ c t, f x = String c t ∧ c ≠ close) →
  each_determines f l →
  join "," (map f l) +s String close r1 = join "," (map f l') +s String close r2 →
  l = l' ∧ r1 = r2.
Proof.
  intros Hd Hc Hh Hf E.
  destruct l as [|x l], l' as [|y l']; simpl map in E; rewrite ?join_close in E.
  - simpl in E. by injection E as ->.
  - destruct (Hh y) as (c & t & Ey & Hne). rewrite Ey in E. injection E as <- _. done.
  - destruct (Hh x) as (c & t & Ex & Hne). rewrite Ex in E. injection E as -> _. done.
  - inversion Hf as [|? ? Hx Hl]; subst.
    apply Hx in E as [-> E]; [|by apply tail_delimited..].
    apply tail_inj in E as [-> E]; eauto. by injection E as ->.
Qed.

Lemma stringify_head j : ∃ c t, stringify j = String c t ∧ c ≠ "]"%char.
Proof.
  destruct (stringify_tag j "") as (c & t & E & Ht). rewrite str_app_nil_r in E.
  exists c, t. split; [done|]. intros ->. by destruct j as [|[]| | | |].
Qed.

Lemma json_text_determines v : text_determines v.
Proof.
  induction v as [|b|n|s|l IH|l IH] using json_nested_ind; intros w r1 r2 H1 H2 E.
  all: match type of E with stringify ?v +s _ = _ =>
         destruct (stringify_tag v r1) as (c & t & Ev & Hv) end;
       destruct (stringify_tag w r2) as (c' & t' & Ew & Hw);
       rewrite Ev, Ew in E; injection E as -> ->; rewrite <- Ev in Ew; clear Ev;
       rewrite Hv in Hw; clear Hv.
  - destruct w as [|[]| | | |]; try discriminate Hw. by injection Ew as ->.
  - destruct b, w as [|[]| | | |]; try discriminate Hw; by injection Ew as ->.
  - destruct w as [|[]|m| | |]; try discriminate Hw. symmetry in Ew.
    eapply span_inj in Ew as [E ->]; try apply num_chars; try (by intros c; apply delimited_not_num).
    split; [f_equal; by apply (inj pretty) | done].
  - destruct w as [|[]| |s'| |]; try discriminate Hw. symmetry in Ew.
    by apply quote_inj in Ew as [-> ->].
  - destruct w as [|[]| | |l'|]; try discriminate Hw. symmetry in Ew. simpl in Ew.
    rewrite !str_app_assoc in Ew. injection Ew as Ew.
    apply list_inj in Ew as [-> ->]; try done. apply stringify_head.
  - destruct w as [|[]| | | |l']; try discriminate Hw. symmetry in Ew. simpl in Ew.
    rewrite !str_app_assoc in Ew. injection Ew as Ew.
    apply list_inj in Ew as [-> ->]; try done.
    + intros [k j]. by eexists _, _.
    + eapply Forall_impl; [exact IH|]. intros [k x] Hx [k' y] s1 s2 D1 D2 E'.
      change ((quote k +s ":" +s stringify x) +s s1 = (quote k' +s ":" +s stringify y) +s s2) in E'.
      rewrite !str_app_assoc in E'. apply quote_inj in E' as [-> E'].
      injection E' as E'. simpl in Hx. apply Hx in E' as [E1 E2]; [|done..]. by subst.
Qed.

(** Two values with the same JSON text are equal. *)
#[export] Instance stringify_inj : Inj (=) (=) stringify.
Proof.
  intros v w E. apply (json_text_determines v w "" ""); [done..|]. by rewrite !str_app_nil_r.
Qed.

(** A digest of a JSON text binds the value. *)
Lemma digest_inj `{CollisionFree} v w : sha256 (stringify v) = sha256 (stringify w) → v = w.
Proof. intros E. by apply sha256_inj, (inj stringify) in E. Qed.

(** Some inverse of [stringify], for the witnesses of theorems about [JSON.parse]. *)
Definition any_inverse (s : string) : option json :=
  match excluded_middle_informative (∃ v, stringify v = s) with
  | left H => Some (proj1_sig (constructive_indefinite_description _ H))
  | right _ => None
  end.

Lemma any_inverse_stringify v : any_inverse (stringify v) = Some v.
Proof.
  unfold any_inverse. destruct (excluded_middle_informative _) as [Hex|Hno].
  - f_equal. destruct (constructive_indefinite_description _ Hex) as [w Hw]. simpl.
    by apply (inj stringify).
  - destruct Hno. by exists v.
Qed.
