(* ===== verification/Contracts.v ===== *)
(** * Shared contracts

    The closed vocabularies of [packages/contracts/src/policy.ts] and the canonical
    action-to-risk table every proposal must agree with. *)

From S2P Require Import Prelude JsString.

(* @src packages/contracts/src/policy.ts:41-48 RiskClass *)
Inductive RiskClass :=
  | read | reversible_write | sensitive_write | destructive | external_side_effect.

(* @src packages/contracts/src/policy.ts:50-51 AutonomyLevel *)
Inductive AutonomyLevel := assist | developer | trusted | autonomous.

(* @src packages/contracts/src/policy.ts:53-55 PolicyEffect *)
Inductive PolicyEffect := ALLOW | REQUIRE_APPROVAL | DENY.

(* @src packages/contracts/src/policy.ts:57-58 ExecutionEnvironment *)
Inductive ExecutionEnvironment := sandbox_required | devguard_service.

Inductive NetworkMode := default_deny | allowlist.

(* @src packages/contracts/src/policy.ts:60-87 Obligation *)
Inductive Obligation :=
  | execution_environment (environment : ExecutionEnvironment)
  | network_policy (mode : NetworkMode) (hosts : option (list string))
  | timeout_ms (value : Z)
  | resource_ceiling (cpuCores memoryMb diskMb : option Z)
  | secret_grant (names : list string).

#[export] Instance RiskClass_eq_dec : EqDecision RiskClass.
Proof. solve_decision. Defined.
#[export] Instance AutonomyLevel_eq_dec : EqDecision AutonomyLevel.
Proof. solve_decision. Defined.
#[export] Instance PolicyEffect_eq_dec : EqDecision PolicyEffect.
Proof. solve_decision. Defined.
#[export] Instance ExecutionEnvironment_eq_dec : EqDecision ExecutionEnvironment.
Proof. solve_decision. Defined.
#[export] Instance NetworkMode_eq_dec : EqDecision NetworkMode.
Proof. solve_decision. Defined.
#[export] Instance Obligation_eq_dec : EqDecision Obligation.
Proof. solve_decision. Defined.

Definition risk_name (r : RiskClass) : string :=
  match r with
  | read => "read"
  | reversible_write => "reversible_write"
  | sensitive_write => "sensitive_write"
  | destructive => "destructive"
  | external_side_effect => "external_side_effect"
  end.

Definition effect_name (e : PolicyEffect) : string :=
  match e with
  | ALLOW => "ALLOW" | REQUIRE_APPROVAL => "REQUIRE_APPROVAL" | DENY => "DENY"
  end.

Definition level_name (l : AutonomyLevel) : string :=
  match l with
  | assist => "assist" | developer => "developer"
  | trusted => "trusted" | autonomous => "autonomous"
  end.

(** The strength order of effects. *)
Definition effect_rank (e : PolicyEffect) : Z :=
  match e with ALLOW => 0 | REQUIRE_APPROVAL => 1 | DENY => 2 end.

Definition effect_eqb (a b : PolicyEffect) : bool := bool_decide (a = b).

Lemma effect_rank_inj a b : effect_rank a = effect_rank b → a = b.
Proof. by destruct a, b. Qed.

(* @src packages/contracts/src/policy.ts:13-39 ActionType *)
Definition ActionType : list string :=
  ["repository.read"; "issue.read"; "file.read"; "check.read"; "review.read";
   "session.stream.read"; "branch.create"; "commit.push"; "pull_request.create";
   "pull_request.update"; "comment.create"; "pull_request.merge"; "workflow_file.write";
   "branch.delete"; "repository.file.delete"; "sandbox.command"; "artifact.store";
   "notification.send"].

(* @src packages/contracts/src/policy.ts:135-154 RISK_FOR_ACTION *)
Definition RISK_FOR_ACTION : list (string * RiskClass) :=
  [("repository.read", read); ("issue.read", read); ("file.read", read);
   ("check.read", read); ("review.read", read); ("session.stream.read", read);
   ("branch.create", reversible_write); ("commit.push", reversible_write);
   ("pull_request.create", reversible_write); ("pull_request.update", reversible_write);
   ("comment.create", reversible_write);
   ("pull_request.merge", sensitive_write); ("workflow_file.write", sensitive_write);
   ("branch.delete", destructive); ("repository.file.delete", destructive);
   ("sandbox.command", external_side_effect); ("artifact.store", external_side_effect);
   ("notification.send", external_side_effect)].

(** Lookup in a constant object literal, first match (keys are distinct). *)
Fixpoint assoc {A} (k : string) (l : list (string * A)) : option A :=
  match l with
  | [] => None
  | (k', a) :: l => if k =s? k' then Some a else assoc k l
  end.

Lemma assoc_elem {A} k (l : list (string * A)) a : assoc k l = Some a → (k, a) ∈ l.
Proof.
  induction l as [|[k' a'] l IH]; simpl; [done|]. case_match; breflect.
  - intros [= ->]. subst. left.
  - intros H'. right. auto.
Qed.

Lemma assoc_none {A} k (l : list (string * A)) : assoc k l = None ↔ k ∉ l.*1.
Proof.
  induction l as [|[k' a'] l IH]; simpl; [set_solver|].
  rewrite not_elem_of_cons, <- IH. case_match; breflect; naive_solver.
Qed.

(** A [Map] with string keys, in insertion order: [set] keeps the place of a key it finds,
    [delete] drops it. *)
Fixpoint set_key {A} (k : string) (a : A) (l : list (string * A)) : list (string * A) :=
  match l with
  | [] => [(k, a)]
  | (k', a') :: l => if k =s? k' then (k, a) :: l else (k', a') :: set_key k a l
  end.

Definition delete_key {A} (k : string) (l : list (string * A)) : list (string * A) :=
  List.filter (λ e, negb (e.1 =s? k)) l.

Lemma assoc_delete_same {A} k (l : list (string * A)) : assoc k (delete_key k l) = None.
Proof.
  apply assoc_none. intros (e & -> & Hin)%list_elem_of_fmap.
  apply bfilter_elem in Hin as [_ Hin]. by rewrite String.eqb_refl in Hin.
Qed.

Lemma assoc_delete {A} k k' (l : list (string * A)) :
  k' ≠ k → assoc k' (delete_key k l) = assoc k' l.
Proof.
  intros Hk. induction l as [|[k2 a] l IH]; [done|]. cbn [delete_key List.filter fst].
  destruct (k2 =s? k) eqn:H2; breflect; subst; cbn [negb assoc].
  - rewrite (proj2 (String.eqb_neq k' k) Hk). apply IH.
  - case_match; [done|apply IH].
Qed.

Lemma assoc_set {A} k k' (a : A) l :
  assoc k' (set_key k a l) = if k' =s? k then Some a else assoc k' l.
Proof.
  induction l as [|[k2 a2] l IH]; cbn [set_key assoc]; [done|].
  destruct (k =s? k2) eqn:H2; breflect; subst; cbn [assoc].
  - by destruct (k' =s? k2).
  - rewrite IH. destruct (k' =s? k2) eqn:H3, (k' =s? k) eqn:H4; breflect; subst; done.
Qed.

Lemma set_key_NoDup {A} k (a : A) l : NoDup l.*1 → NoDup (set_key k a l).*1.
Proof.
  induction l as [|[k' a'] l IH]; cbn [set_key fmap list_fmap fst].
  - intros _. apply NoDup_singleton.
  - intros [Hk Hl]%NoDup_cons. destruct (k =s? k') eqn:He; breflect; subst;
      cbn [fmap list_fmap fst]; apply NoDup_cons; (split; [|by auto]); [done|].
    rewrite <- assoc_none in *. rewrite assoc_set.
    destruct (k' =s? k) eqn:He'; breflect; congruence.
Qed.

Lemma set_key_in {A} k (a : A) l k' a' :
  (k', a') ∈ set_key k a l → (k', a') = (k, a) ∨ (k', a') ∈ l.
Proof.
  induction l as [|[k2 a2] l IH]; cbn [set_key]; [set_solver|].
  destruct (k =s? k2); rewrite !elem_of_cons; naive_solver.
Qed.

Lemma in_set_key {A} k (a : A) l : (k, a) ∈ set_key k a l.
Proof.
  induction l as [|[k2 a2] l IH]; cbn [set_key]; [set_solver|].
  destruct (k =s? k2); rewrite !elem_of_cons; naive_solver.
Qed.

Lemma set_key_keys {A} k (a : A) l x : x ∈ (set_key k a l).*1 → x = k ∨ x ∈ l.*1.
Proof.
  intros ([k' a'] & -> & Hin)%list_elem_of_fmap. apply set_key_in in Hin as [[= -> ->]|Hin]; [by left|].
  right. by apply (list_elem_of_fmap_2 fst _ (k', a')).
Qed.

Lemma set_key_fresh {A} k (a : A) l : assoc k l = None → set_key k a l = l ++ [(k, a)].
Proof.
  induction l as [|[k' a'] l IH]; cbn [assoc set_key]; [done|].
  destruct (k =s? k'); [done|]. intros H. by rewrite (IH H).
Qed.

Lemma delete_key_NoDup {A} k (l : list (string * A)) : NoDup l.*1 → NoDup (delete_key k l).*1.
Proof.
  induction l as [|[k' a] l IH]; [done|]. cbn [delete_key List.filter fmap list_fmap fst].
  intros [Hk Hl]%NoDup_cons. destruct (negb _); cbn [fmap list_fmap fst]; [|by apply IH].
  apply NoDup_cons. split; [|by apply IH].
  intros ([k2 a2] & -> & Hin)%list_elem_of_fmap. apply bfilter_elem in Hin as [Hin _].
  apply Hk. by apply (list_elem_of_fmap_2 fst _ (k2, a2)).
Qed.

Lemma assoc_in {A} k (a : A) l : NoDup l.*1 → (k, a) ∈ l → assoc k l = Some a.
Proof.
  induction l as [|[k' a'] l IH]; [set_solver|]. cbn [fmap list_fmap fst assoc].
  intros [Hk Hl]%NoDup_cons [[= -> ->]|Hin]%elem_of_cons; [by rewrite String.eqb_refl|].
  case_match; breflect; [|by apply IH]. subst. destruct Hk.
  by apply (list_elem_of_fmap_2 fst _ (k', a)).
Qed.

(* @src packages/contracts/src/policy.ts:156-159 riskClassForAction *)
Definition riskClassForAction (actionType : string) : option RiskClass :=
  assoc actionType RISK_FOR_ACTION.

(** Branded identifiers: a lowercase UUID v1 to v8, or a ULID in Crockford's base 32. *)
(* @src packages/contracts/src/primitives.ts:41-50 ID_SCHEMA *)
Definition id_schema (value : string) : bool :=
  len_between 26 36 value &&
  match split_char "-" value with
  | [a; b; c; d; e] =>
      forallb (all_chars lower_hex) [a; b; c; d; e] &&
      (str_length a =? 8) && (str_length b =? 4) && (str_length c =? 4) && (str_length d =? 4) &&
      (str_length e =? 12) &&
      match c, d with
      | String c1 _, String d1 _ => char_in "12345678" c1 && char_in "89ab" d1
      | _, _ => false
      end
  | [u] => (str_length u =? 26) && all_chars (char_in "0123456789ABCDEFGHJKMNPQRSTVWXYZ") u
  | _ => false
  end.
