(* ===== verification/Precedence.v ===== *)
(** * Policy precedence

    [packages/policy-engine/src/evaluator/precedence.ts]: the ordered stages that turn the
    resolved facts about one proposed action into a decision, and the merge of a run's
    snapshot decision with the current one. *)

From S2P Require Import Prelude JsString Contracts.

Abbreviation DecisionEffect := PolicyEffect (only parsing).

(* @src packages/policy-engine/src/evaluator/precedence.ts:27-32 MatchedRule *)
Record MatchedRule := {
  stage : Z;
  ruleId : string;
  rule_effect : PolicyEffect;
  rule_explanation : string;
}.

(* @src packages/policy-engine/src/evaluator/precedence.ts:35-54 EvaluationInput *)
Record EvaluationInput := {
  actionId : option string;
  riskClass : option RiskClass;
  repositoryDenyMatch : option bool;
  globalDenyMatch : option bool;
  globalApprovalFloorMatch : option bool;
  workflowPermitted : option bool;
  ceilingEffect : option PolicyEffect;
  contextRequiresApproval : option bool;
  sandboxRequired : option bool;
  gateSatisfied : option bool;
  gateRequired : bool;
  explicitAllowMatch : bool;
  explicitRequireApprovalMatch : bool;
  explicitDenyMatch : bool;
  exactValidApprovalPresent : bool;
  targetsProtectedBranch : option bool;
  mergesProtectedBranch : option bool;
}.

(* @src packages/policy-engine/src/evaluator/precedence.ts:56-62 EvaluationOutcome *)
Record EvaluationOutcome := {
  effect : PolicyEffect;
  reasonCode : string;
  matchedRules : list MatchedRule;
  obligations : list Obligation;
  explanation : string;
}.

(** Truthiness of an optional boolean. *)
Definition yes (b : option bool) : bool := default false b.

(* @src packages/policy-engine/src/evaluator/precedence.ts:64-69 strongest *)
Definition strongest (a : option PolicyEffect) (b : PolicyEffect) : PolicyEffect :=
  match a with
  | None => b
  | Some a =>
      if effect_eqb a DENY || effect_eqb b DENY then DENY
      else if effect_eqb a REQUIRE_APPROVAL || effect_eqb b REQUIRE_APPROVAL
      then REQUIRE_APPROVAL else ALLOW
  end.

(* @src packages/policy-engine/src/evaluator/precedence.ts:71-73 rule *)
Definition rule (stage : Z) (id : string) (effect : PolicyEffect) (explanation : string)
  : MatchedRule :=
  {| stage := stage; ruleId := id; rule_effect := effect; rule_explanation := explanation |}.

(** [id.replace(/^stage\d+-/, '')]. *)
Fixpoint drop_digits (s : string) : string :=
  match s with
  | String c s' => if is_digit c then drop_digits s' else s
  | EmptyString => EmptyString
  end.

Definition strip_stage (id : string) : string :=
  if startsWith id "stage" then
    let rest := slice_from 5 id in
    match rest, drop_digits rest with
    | String c _, String "-" tail => if is_digit c then tail else id
    | _, _ => id
    end
  else id.

(* @src packages/policy-engine/src/evaluator/precedence.ts:360-369 reasonFrom *)
Definition reasonFrom (rules : list MatchedRule) : string :=
  match List.find (λ r, negb (effect_eqb (rule_effect r) ALLOW)) (rev rules) with
  | Some d => slice_to 64 (toUpperCase (strip_stage (ruleId d)))
  | None =>
      match last rules with
      | Some d => slice_to 64 (toUpperCase (strip_stage (ruleId d)))
      | None => "EVALUATED"
      end
  end.

Section Evaluate.
Context `{Collation}.

Definition rule_order : MatchedRule → MatchedRule → Z :=
  cmp_then (cmp_by stage Z.sub) (cmp_by ruleId localeCompare).

#[export] Instance rule_order_comparator : Comparator rule_order.
Proof. apply _. Qed.

Definition render_rule (r : MatchedRule) : string :=
  "[" +s num_to_string (stage r) +s "] " +s ruleId r +s ": " +s rule_explanation r.

(* @src packages/policy-engine/src/evaluator/precedence.ts:371-390 finalize *)
Definition finalize (effect : PolicyEffect) (reasonCode : string) (rules : list MatchedRule)
    (obligations : list Obligation) (explanationOverride : option string) : EvaluationOutcome :=
  {| effect := effect;
     reasonCode := reasonCode;
     matchedRules := js_sort rule_order rules;
     obligations := obligations;
     explanation := explanationOverride ?? join "; " (render_rule <$> rules) |}.

(* @src packages/policy-engine/src/evaluator/precedence.ts:122-141 evaluatePrecedence *)
Definition unknownDimensions (i : EvaluationInput) : list string :=
  (if truthy (actionId i) then [] else ["action"]) ++
  (if riskClass i then [] else ["risk classification"]) ++
  (match globalDenyMatch i, repositoryDenyMatch i, workflowPermitted i, ceilingEffect i,
         contextRequiresApproval i, sandboxRequired i with
   | Some _, Some _, Some _, Some _, Some _, Some _ => []
   | _, _, _, _, _, _ => ["safety/workflow resolution"]
   end) ++
  (match sandboxRequired i, gateSatisfied i with
   | Some _, None => if gateRequired i then ["validation gate"] else []
   | _, _ => []
   end).

(** Stages 1 to 5: the denials that end the evaluation, tried in order. *)
(* @src packages/policy-engine/src/evaluator/precedence.ts:84-196 evaluatePrecedence *)
Definition short_circuit (i : EvaluationInput) : option EvaluationOutcome :=
  if yes (globalDenyMatch i) then
    Some (finalize DENY "GLOBAL_SAFETY_DENY"
      [rule 1 "stage1-global-deny" DENY
         "a non-overridable global safety denial matches this action"] []
      (Some "global safety denies this operation regardless of policy or approvals"))
  else if yes (repositoryDenyMatch i) then
    Some (finalize DENY "REPOSITORY_DENIED"
      [rule 2 "stage2-repository-deny" DENY
         "the active canonical repository policy denies this action"] []
      (Some "repository policy denies this action"))
  else match unknownDimensions i with
  | _ :: _ as dims =>
      Some (finalize DENY "UNKNOWN_CAPABILITY"
        [rule 3 "stage3-unknown-fail-closed" DENY
           ("unknown or unresolvable input dimension(s): " +s join ", " dims)] []
        (Some ("cannot establish a known, registered operation (" +s join ", " dims +s ")")))
  | [] =>
  if negb (yes (workflowPermitted i)) then
    Some (finalize DENY "WORKFLOW_NOT_PERMITTED"
      [rule 4 "stage4-workflow-not-permitted" DENY
         "the active workflow definition does not permit this action"] []
      (Some "workflow scope does not include this action"))
  else if bool_decide (ceilingEffect i = Some DENY) then
    Some (finalize DENY "AUTONOMY_CEILING_EXCEEDED"
      [rule 5 "stage5-autonomy-ceiling-deny" DENY
         "hard autonomy/global ceiling denies this action at every level"] []
      (Some "the configured autonomy level cannot authorize this operation"))
  else None
  end.

(** The mutable locals of the evaluation: [effect], [rules] and [obligations]. *)
Record Progress := {
  p_effect : option PolicyEffect;
  p_rules : list MatchedRule;
  p_obligations : list Obligation;
}.

Definition start : Progress := {| p_effect := None; p_rules := []; p_obligations := [] |}.

(** Raise the effect to at least [e] and record the rule. *)
Definition raise (e : PolicyEffect) (r : MatchedRule) (p : Progress) : Progress :=
  {| p_effect := Some (strongest (p_effect p) e);
     p_rules := p_rules p ++ [r];
     p_obligations := p_obligations p |}.

Definition when (b : bool) (f : Progress → Progress) (p : Progress) : Progress :=
  if b then f p else p.

Definition gate_open (i : EvaluationInput) : bool :=
  gateRequired i && negb (yes (gateSatisfied i)).

(* @src packages/policy-engine/src/evaluator/precedence.ts:197-207 evaluatePrecedence *)
Definition stage5_floor (i : EvaluationInput) : Progress → Progress :=
  when (bool_decide (ceilingEffect i = Some REQUIRE_APPROVAL) || yes (globalApprovalFloorMatch i))
    (λ p, {| p_effect := Some REQUIRE_APPROVAL;
             p_rules := p_rules p ++
               [rule 5 "stage5-hard-approval-floor" REQUIRE_APPROVAL
                  "a non-overridable approval floor applies to this action"];
             p_obligations := p_obligations p |}).

(* @src packages/policy-engine/src/evaluator/precedence.ts:210-220 evaluatePrecedence *)
Definition stage6_context (i : EvaluationInput) : Progress → Progress :=
  when (yes (contextRequiresApproval i))
    (raise REQUIRE_APPROVAL
       (rule 6 "stage6-context-escalation" REQUIRE_APPROVAL
          "trusted target/command/risk facts escalated this action")).

(* @src packages/policy-engine/src/evaluator/precedence.ts:221-226 evaluatePrecedence *)
Definition stage6_sandbox (i : EvaluationInput) : Progress → Progress :=
  when (yes (sandboxRequired i))
    (λ p, {| p_effect := p_effect p; p_rules := p_rules p;
             p_obligations := p_obligations p ++ [execution_environment sandbox_required] |}).

(* @src packages/policy-engine/src/evaluator/precedence.ts:229-239 evaluatePrecedence *)
Definition stage7_gate (i : EvaluationInput) : Progress → Progress :=
  when (gate_open i)
    (raise REQUIRE_APPROVAL
       (rule 7 "stage7-validation-gate-open" REQUIRE_APPROVAL
          "required validation evidence is missing, stale or failed")).

(* @src packages/policy-engine/src/evaluator/precedence.ts:242-252 evaluatePrecedence *)
Definition stage8_deny (i : EvaluationInput) : Progress → Progress :=
  when (explicitDenyMatch i)
    (raise DENY
       (rule 8 "repo-explicit-deny" DENY
          "canonical repository policy explicitly denies this action")).

(* @src packages/policy-engine/src/evaluator/precedence.ts:253-267 evaluatePrecedence *)
Definition stage8_floor (i : EvaluationInput) : Progress → Progress :=
  when (explicitRequireApprovalMatch i || yes (mergesProtectedBranch i) ||
        yes (targetsProtectedBranch i))
    (raise REQUIRE_APPROVAL
       (rule 8 "repo-policy-floor" REQUIRE_APPROVAL
          "repository policy requires durable human approval for this action")).

(* @src packages/policy-engine/src/evaluator/precedence.ts:268-278 evaluatePrecedence *)
Definition stage8_allow (i : EvaluationInput) : Progress → Progress :=
  when (explicitAllowMatch i)
    (λ p, {| p_effect := Some (p_effect p ?? ALLOW);
             p_rules := p_rules p ++
               [rule 8 "repo-explicit-allow" ALLOW
                  "canonical repository policy explicitly allows this action"];
             p_obligations := p_obligations p |}).

(* @src packages/policy-engine/src/evaluator/precedence.ts:281-295 evaluatePrecedence *)
Definition approval_satisfies (i : EvaluationInput) (p : Progress) : Progress :=
  when (bool_decide (p_effect p = Some REQUIRE_APPROVAL) && exactValidApprovalPresent i &&
        negb (gate_open i))
    (λ p, {| p_effect := Some ALLOW;
             p_rules := p_rules p ++
               [rule 7 "approval-satisfies-floor" ALLOW
                  "exact fresh authorized approval satisfies the outstanding requirement"];
             p_obligations := p_obligations p |}) p.

(** Stage 9, when nothing decided; stage 10 is the impossible remainder. *)
(* @src packages/policy-engine/src/evaluator/precedence.ts:298-352 evaluatePrecedence *)
Definition risk_default (i : EvaluationInput) (p : Progress) : EvaluationOutcome :=
  let decide_with e r :=
    let rules := p_rules p ++ [r] in
    finalize e (reasonFrom rules) rules (p_obligations p) None in
  match riskClass i with
  | Some read =>
      decide_with ALLOW (rule 9 "risk-default-read" ALLOW
        "known read action with no applicable restriction defaults to allow within workflow/ceiling checks already passed")
  | Some reversible_write =>
      decide_with ALLOW (rule 9 "risk-default-reversible-write" ALLOW
        "known reversible write defaults to allow; sandbox/workspace obligations still attach")
  | Some ((sensitive_write | destructive | external_side_effect) as r) =>
      decide_with REQUIRE_APPROVAL (rule 9 "risk-default-elevated" REQUIRE_APPROVAL
        (risk_name r +s " defaults to human approval absent explicit policy"))
  | None =>
      finalize DENY "NO_APPLICABLE_RULE"
        (p_rules p ++ [rule 10 "no-rule-fail-closed" DENY
           "no rule or default mapping exists for this input"]) []
        (Some "fail closed: nothing authorizes this operation")
  end.

(** Stages 5 (floor part) to 8 in the order the code runs them. *)
Definition accumulate (i : EvaluationInput) : Progress :=
  approval_satisfies i (stage8_allow i (stage8_floor i (stage8_deny i (stage7_gate i
    (stage6_sandbox i (stage6_context i (stage5_floor i start))))))).

(* @src packages/policy-engine/src/evaluator/precedence.ts:78-358 evaluatePrecedence *)
Definition evaluatePrecedence (i : EvaluationInput) : EvaluationOutcome :=
  match short_circuit i with
  | Some denied => denied
  | None =>
      let p := accumulate i in
      match p_effect p with
      | Some e => finalize e (reasonFrom (p_rules p)) (p_rules p) (p_obligations p) None
      | None => risk_default i p
      end
  end.
End Evaluate.

Record MergeResult := {
  merge_effect : PolicyEffect;
  requireFreshDecision : bool;
  merge_explanation : string;
}.

(* @src packages/policy-engine/src/evaluator/precedence.ts:398-424 mergeSnapshotWithCurrent *)
Definition mergeSnapshotWithCurrent (snapshotResult currentResult : EvaluationOutcome)
  : MergeResult :=
  if effect_rank (effect snapshotResult) <? effect_rank (effect currentResult) then
    {| merge_effect := effect currentResult;
       requireFreshDecision := false;
       merge_explanation := "current stricter policy applies: " +s reasonCode currentResult +s
         " overrides snapshot " +s effect_name (effect snapshotResult) |}
  else if effect_rank (effect currentResult) <? effect_rank (effect snapshotResult) then
    {| merge_effect := effect snapshotResult;
       requireFreshDecision := true;
       merge_explanation := "current policy is looser than the run snapshot; NO silent elevation — a fresh proposal/decision (and fresh approval where applicable) is required" |}
  else
    {| merge_effect := effect snapshotResult;
       requireFreshDecision := false;
       merge_explanation := "snapshot and current agree" |}.

(** ** The reference decision

    What the stages promise, as one table: which facts deny, which demand a human, and what
    the remaining requests default to. *)

Definition known_inputs (i : EvaluationInput) : bool :=
  truthy (actionId i) && bool_decide (is_Some (riskClass i)) &&
  bool_decide (is_Some (globalDenyMatch i)) && bool_decide (is_Some (repositoryDenyMatch i)) &&
  bool_decide (is_Some (workflowPermitted i)) && bool_decide (is_Some (ceilingEffect i)) &&
  bool_decide (is_Some (contextRequiresApproval i)) && bool_decide (is_Some (sandboxRequired i)) &&
  (negb (gateRequired i) || bool_decide (is_Some (gateSatisfied i))).

(** A denial no approval, allow rule or default can lift. *)
Definition denied (i : EvaluationInput) : bool :=
  yes (globalDenyMatch i) || yes (repositoryDenyMatch i) || negb (known_inputs i) ||
  negb (yes (workflowPermitted i)) || bool_decide (ceilingEffect i = Some DENY) ||
  explicitDenyMatch i.

(** Some rule demands a human decision. *)
Definition floored (i : EvaluationInput) : bool :=
  bool_decide (ceilingEffect i = Some REQUIRE_APPROVAL) || yes (globalApprovalFloorMatch i) ||
  yes (contextRequiresApproval i) || gate_open i || explicitRequireApprovalMatch i ||
  yes (mergesProtectedBranch i) || yes (targetsProtectedBranch i).

Definition elevated (i : EvaluationInput) : bool :=
  match riskClass i with
  | Some (sensitive_write | destructive | external_side_effect) => true
  | _ => false
  end.

Definition reference_effect (i : EvaluationInput) : PolicyEffect :=
  if denied i then DENY
  else if floored i then
    if exactValidApprovalPresent i && negb (gate_open i) then ALLOW else REQUIRE_APPROVAL
  else if explicitAllowMatch i then ALLOW
  else if elevated i then REQUIRE_APPROVAL
  else ALLOW.

Section Properties.
Context `{Collation}.

Lemma unknownDimensions_nil i : unknownDimensions i = [] ↔ known_inputs i = true.
Proof.
  unfold unknownDimensions, known_inputs. rewrite !app_nil.
  rewrite <- (andb_assoc _ _ (_ || _)), andb_true_iff, andb_true_iff.
  set (safety := match globalDenyMatch i with Some _ => _ | None => _ end).
  set (gate := match sandboxRequired i with Some _ => _ | None => _ end).
  assert (H1 : (if truthy (actionId i) then [] else ["action"]) = [] ↔
               truthy (actionId i) = true) by (destruct (truthy _); naive_solver).
  assert (H2 : (if riskClass i then [] else ["risk classification"]) = [] ↔
               bool_decide (is_Some (riskClass i)) = true)
    by (destruct (riskClass i); naive_solver).
  assert (H3 : safety = [] ↔
    bool_decide (is_Some (globalDenyMatch i)) && bool_decide (is_Some (repositoryDenyMatch i)) &&
    bool_decide (is_Some (workflowPermitted i)) && bool_decide (is_Some (ceilingEffect i)) &&
    bool_decide (is_Some (contextRequiresApproval i)) &&
    bool_decide (is_Some (sandboxRequired i)) = true).
  { unfold safety. destruct (globalDenyMatch i), (repositoryDenyMatch i), (workflowPermitted i),
      (ceilingEffect i), (contextRequiresApproval i), (sandboxRequired i); by split. }
  assert (H4 : gate = [] ↔ bool_decide (is_Some (sandboxRequired i)) = false ∨
    negb (gateRequired i) || bool_decide (is_Some (gateSatisfied i)) = true).
  { unfold gate. destruct (sandboxRequired i), (gateSatisfied i), (gateRequired i);
      simpl; naive_solver. }
  rewrite H1, H2, H3, H4, !andb_true_iff.
  destruct (bool_decide (is_Some (sandboxRequired i))); naive_solver.
Qed.

(** The denials that short-circuit are exactly those of [denied], the explicit deny of
    stage 8 apart. *)
Lemma short_circuit_none i :
  short_circuit i = None ↔
  yes (globalDenyMatch i) = false ∧ yes (repositoryDenyMatch i) = false ∧
  known_inputs i = true ∧ yes (workflowPermitted i) = true ∧ ceilingEffect i ≠ Some DENY.
Proof.
  rewrite <- unknownDimensions_nil. unfold short_circuit.
  repeat case_match; breflect; naive_solver congruence.
Qed.

Lemma short_circuit_some i o : short_circuit i = Some o → effect o = DENY.
Proof. unfold short_circuit. intros. repeat case_match; simplify_eq/=; done. Qed.

Lemma short_circuit_denied i :
  denied i = match short_circuit i with Some _ => true | None => explicitDenyMatch i end.
Proof.
  destruct (short_circuit i) eqn:E.
  - destruct (denied i) eqn:Ed; [done|]. exfalso.
    unfold denied in Ed. breflect.
    assert (short_circuit i = None) as Hn by (apply short_circuit_none; done).
    congruence.
  - apply short_circuit_none in E as (H1 & H2 & H3 & H4 & H5).
    unfold denied. rewrite H1, H2, H3, H4, bool_decide_false by done. done.
Qed.

(** The effect component of each stage. *)
Lemma when_raise_effect b e r p :
  p_effect (when b (raise e r) p) =
    if b then Some (strongest (p_effect p) e) else p_effect p.
Proof. by destruct b. Qed.

Lemma stage5_floor_effect i :
  p_effect (stage5_floor i start) =
    if bool_decide (ceilingEffect i = Some REQUIRE_APPROVAL) || yes (globalApprovalFloorMatch i)
    then Some REQUIRE_APPROVAL else None.
Proof. unfold stage5_floor, when. by case_match. Qed.

Lemma stage6_sandbox_effect i p : p_effect (stage6_sandbox i p) = p_effect p.
Proof. unfold stage6_sandbox, when. by case_match. Qed.

Lemma stage8_allow_effect i p :
  p_effect (stage8_allow i p) =
    if explicitAllowMatch i then Some (p_effect p ?? ALLOW) else p_effect p.
Proof. unfold stage8_allow, when. by case_match. Qed.

Lemma approval_effect i p :
  p_effect (approval_satisfies i p) =
    if bool_decide (p_effect p = Some REQUIRE_APPROVAL) && exactValidApprovalPresent i &&
       negb (gate_open i)
    then Some ALLOW else p_effect p.
Proof. unfold approval_satisfies, when. by case_match. Qed.

(** How raising composes: floors accumulate by disjunction, a deny is absorbing. *)
Lemma raise_floor (b c : bool) :
  (if c then Some (strongest (if b then Some REQUIRE_APPROVAL else None) REQUIRE_APPROVAL)
   else if b then Some REQUIRE_APPROVAL else None) =
  if b || c then Some REQUIRE_APPROVAL else None.
Proof. by destruct b, c. Qed.

Lemma raise_deny (b : bool) (o : option PolicyEffect) :
  (if b then Some (strongest o DENY) else o) = if b then Some DENY else o.
Proof. by destruct b, o as [[]|]. Qed.

Lemma raise_floor_deny (d b c : bool) :
  (if c then
     Some (strongest (if d then Some DENY else if b then Some REQUIRE_APPROVAL else None)
             REQUIRE_APPROVAL)
   else if d then Some DENY else if b then Some REQUIRE_APPROVAL else None) =
  if d then Some DENY else if b || c then Some REQUIRE_APPROVAL else None.
Proof. by destruct d, b, c. Qed.

(** The effect the accumulating stages leave. *)
Lemma accumulate_effect i :
  p_effect (accumulate i) =
    if explicitDenyMatch i then Some DENY
    else if floored i then
      Some (if exactValidApprovalPresent i && negb (gate_open i)
            then ALLOW else REQUIRE_APPROVAL)
    else if explicitAllowMatch i then Some ALLOW else None.
Proof.
  unfold accumulate. rewrite approval_effect, stage8_allow_effect.
  unfold stage8_floor, stage8_deny, stage7_gate, stage6_context.
  rewrite !when_raise_effect, stage6_sandbox_effect, when_raise_effect, stage5_floor_effect.
  unfold floored.
  generalize (bool_decide (ceilingEffect i = Some REQUIRE_APPROVAL)) (gate_open i).
  intros c g. rewrite !raise_floor, raise_deny, raise_floor_deny.
  replace (c || _ || _ || _ || (_ || _ || _)) with
    (c || yes (globalApprovalFloorMatch i) || yes (contextRequiresApproval i) || g ||
     explicitRequireApprovalMatch i || yes (mergesProtectedBranch i) ||
     yes (targetsProtectedBranch i)) by (rewrite !orb_assoc; done).
  generalize (c || yes (globalApprovalFloorMatch i) || yes (contextRequiresApproval i) || g ||
     explicitRequireApprovalMatch i || yes (mergesProtectedBranch i) ||
     yes (targetsProtectedBranch i)) as f; intros f.
  by destruct (explicitDenyMatch i), f, (explicitAllowMatch i), (exactValidApprovalPresent i), g.
Qed.

Lemma evaluatePrecedence_effect i : effect (evaluatePrecedence i) = reference_effect i.
Proof.
  unfold evaluatePrecedence, reference_effect. rewrite short_circuit_denied.
  destruct (short_circuit i) eqn:E; [by eapply short_circuit_some|].
  pose proof (accumulate_effect i) as Ha.
  apply short_circuit_none in E as (_ & _ & Hk & _ & _).
  destruct (p_effect (accumulate i)) eqn:Ep; simpl.
  - repeat case_match; simplify_eq; done.
  - unfold risk_default, elevated, known_inputs in *. breflect.
    destruct (riskClass i) as [[]|]; simpl; repeat case_match; simplify_eq; try done.
    all: match goal with H : is_Some None |- _ => by destruct H end.
Qed.

(* @prop equivalence 1 : evaluatePrecedence short_circuit risk_default strongest approval_satisfies stage8_deny *)
(** C1. The staged evaluation computes exactly the reference decision table: denials are
    absolute, an approval only ever lifts an approval floor whose validation gate is closed,
    an explicit allow only decides where nothing restricts, and the risk class decides the
    rest. *)
Theorem evaluatePrecedence_reference i : effect (evaluatePrecedence i) = reference_effect i.
Proof. apply evaluatePrecedence_effect. Qed.

(* @prop safety 2 : evaluatePrecedence short_circuit strongest stage7_gate approval_satisfies / allow_requires_every_guard_witness *)
(** C4. An ALLOW is never issued past a restriction: no deny rule matched; the action, its risk
    class, both denials, the workflow permission, the autonomy ceiling, the context escalation,
    the sandbox requirement and, where a gate is required, its outcome were all resolved; the
    workflow permits the action, the autonomy ceiling does not deny it, a required validation
    gate is satisfied, and every approval floor that is known to hold was met by an exact valid
    approval.  The global approval floor and the two facts about protected branches are not among
    the dimensions that must be resolved: left undefined, they count as no floor, by
    [unresolved_floors_are_no_floors]. *)
Theorem allow_requires_every_guard i :
  effect (evaluatePrecedence i) = ALLOW →
  yes (globalDenyMatch i) = false ∧ yes (repositoryDenyMatch i) = false ∧
  explicitDenyMatch i = false ∧ known_inputs i = true ∧
  yes (workflowPermitted i) = true ∧ ceilingEffect i ≠ Some DENY ∧
  (gateRequired i = true → gateSatisfied i = Some true) ∧
  (floored i = true → exactValidApprovalPresent i = true).
Proof.
  rewrite evaluatePrecedence_effect. unfold reference_effect.
  destruct (denied i) eqn:Hd; [done|]. unfold denied in Hd. breflect.
  intros Ha. repeat split; try done.
  - intros Hg. destruct (floored i) eqn:Hf.
    + case_match; [|done]. breflect. unfold gate_open in *. rewrite Hg in *.
      destruct (gateSatisfied i) as [[]|]; done.
    + unfold floored in Hf. breflect. unfold gate_open in *. rewrite Hg in *.
      destruct (gateSatisfied i) as [[]|]; done.
  - intros Hf. rewrite Hf in Ha. case_match; [|done]. by breflect.
Qed.

(** The same input, with other facts about the global floor and the protected branches. *)
Definition with_floors (floor targets merges : option bool) (i : EvaluationInput) : EvaluationInput := {|
  actionId := actionId i; riskClass := riskClass i;
  repositoryDenyMatch := repositoryDenyMatch i; globalDenyMatch := globalDenyMatch i;
  globalApprovalFloorMatch := floor; workflowPermitted := workflowPermitted i;
  ceilingEffect := ceilingEffect i; contextRequiresApproval := contextRequiresApproval i;
  sandboxRequired := sandboxRequired i; gateSatisfied := gateSatisfied i; gateRequired := gateRequired i;
  explicitAllowMatch := explicitAllowMatch i; explicitRequireApprovalMatch := explicitRequireApprovalMatch i;
  explicitDenyMatch := explicitDenyMatch i; exactValidApprovalPresent := exactValidApprovalPresent i;
  targetsProtectedBranch := targets; mergesProtectedBranch := merges
|}.

(** Stage 3 asks for every dimension but these three: for the decision, not to know whether a
    floor applies is to know that it does not. *)
Theorem unresolved_floors_are_no_floors i :
  effect (evaluatePrecedence (with_floors None None None i)) =
  effect (evaluatePrecedence (with_floors (Some false) (Some false) (Some false) i)).
Proof. by rewrite !evaluatePrecedence_effect. Qed.

(** How restrictive one dimension is; an unresolved one is the most restrictive. *)
Definition deny_rank (b : option bool) : Z :=
  match b with Some false => 0 | Some true => 1 | None => 2 end.
Definition permit_rank (b : option bool) : Z :=
  match b with Some true => 0 | Some false => 1 | None => 2 end.
Definition ceiling_rank (e : option PolicyEffect) : Z :=
  match e with Some e => effect_rank e | None => 3 end.
Definition risk_rank (i : EvaluationInput) : Z :=
  match riskClass i with None => 2 | Some _ => Z.b2z (elevated i) end.

(** [i] restricts at most as much as [i'], dimension by dimension.  The global approval floor and
    the facts about protected branches restrict where they are known to hold and nowhere else. *)
Record restricts_le (i i' : EvaluationInput) : Prop := {
  le_action : Z.b2z (truthy (actionId i')) ≤ Z.b2z (truthy (actionId i));
  le_risk : risk_rank i ≤ risk_rank i';
  le_global : deny_rank (globalDenyMatch i) ≤ deny_rank (globalDenyMatch i');
  le_repo : deny_rank (repositoryDenyMatch i) ≤ deny_rank (repositoryDenyMatch i');
  le_gfloor : Z.b2z (yes (globalApprovalFloorMatch i)) ≤ Z.b2z (yes (globalApprovalFloorMatch i'));
  le_workflow : permit_rank (workflowPermitted i) ≤ permit_rank (workflowPermitted i');
  le_ceiling : ceiling_rank (ceilingEffect i) ≤ ceiling_rank (ceilingEffect i');
  le_context : deny_rank (contextRequiresApproval i) ≤ deny_rank (contextRequiresApproval i');
  le_sandbox : is_Some (sandboxRequired i') → is_Some (sandboxRequired i);
  le_gate : Z.b2z (gateRequired i) ≤ Z.b2z (gateRequired i');
  le_satisfied : permit_rank (gateSatisfied i) ≤ permit_rank (gateSatisfied i');
  le_allow : Z.b2z (explicitAllowMatch i') ≤ Z.b2z (explicitAllowMatch i);
  le_require :
    Z.b2z (explicitRequireApprovalMatch i) ≤ Z.b2z (explicitRequireApprovalMatch i');
  le_deny : Z.b2z (explicitDenyMatch i) ≤ Z.b2z (explicitDenyMatch i');
  le_approval : Z.b2z (exactValidApprovalPresent i') ≤ Z.b2z (exactValidApprovalPresent i);
  le_targets : Z.b2z (yes (targetsProtectedBranch i)) ≤ Z.b2z (yes (targetsProtectedBranch i'));
  le_merges : Z.b2z (yes (mergesProtectedBranch i)) ≤ Z.b2z (yes (mergesProtectedBranch i'));
}.

Lemma deny_rank_le a b : deny_rank a ≤ deny_rank b → is_Some b → is_Some a ∧ (yes a = true → yes b = true).
Proof.
  intros Hle [x ->]. destruct a as [[]|], x; simpl in *; first [lia | by split; [eexists|]].
Qed.
Lemma permit_rank_le a b :
  permit_rank a ≤ permit_rank b → is_Some b → is_Some a ∧ (yes b = true → yes a = true).
Proof.
  intros Hle [x ->]. destruct a as [[]|], x; simpl in *; first [lia | by split; [eexists|]].
Qed.
Lemma b2z_le a b : Z.b2z a ≤ Z.b2z b → a = true → b = true.
Proof. by destruct a, b. Qed.

(** What an undenied input has resolved, as one conjunction. *)
Lemma denied_false i :
  denied i = false ↔
  yes (globalDenyMatch i) = false ∧ yes (repositoryDenyMatch i) = false ∧
  known_inputs i = true ∧ yes (workflowPermitted i) = true ∧
  ceilingEffect i ≠ Some DENY ∧ explicitDenyMatch i = false.
Proof.
  unfold denied. rewrite !orb_false_iff, !negb_false_iff, bool_decide_eq_false. tauto.
Qed.

Lemma known_inputs_true i :
  known_inputs i = true ↔
  truthy (actionId i) = true ∧ is_Some (riskClass i) ∧ is_Some (globalDenyMatch i) ∧
  is_Some (repositoryDenyMatch i) ∧ is_Some (workflowPermitted i) ∧
  is_Some (ceilingEffect i) ∧ is_Some (contextRequiresApproval i) ∧
  is_Some (sandboxRequired i) ∧ (gateRequired i = false ∨ is_Some (gateSatisfied i)).
Proof.
  unfold known_inputs.
  rewrite !andb_true_iff, orb_true_iff, !bool_decide_eq_true, negb_true_iff. tauto.
Qed.

Lemma known_inputs_mono i i' : restricts_le i i' → known_inputs i' = true → known_inputs i = true.
Proof.
  intros [] (Ha & Hr & Hg & Hd & Hw & Hc & Hx & Hs & Hv)%known_inputs_true.
  apply known_inputs_true.
  split; [by apply (b2z_le _ _ le_action0)|].
  split; [unfold risk_rank, elevated in *; destruct Hr as [r' Hr']; rewrite Hr' in *;
          destruct (riskClass i) as [r|]; [eauto | destruct r'; simpl in *; lia]|].
  split; [by eapply deny_rank_le|]. split; [by eapply deny_rank_le|].
  split; [by eapply permit_rank_le|].
  split; [destruct Hc as [e' He']; rewrite He' in *; destruct (ceilingEffect i) as [e|];
          [eauto | destruct e'; simpl in *; lia]|].
  split; [by eapply deny_rank_le|]. split; [auto|].
  destruct (gateRequired i) eqn:Eg; [right|by left].
  destruct Hv as [Hv|Hv]; [rewrite Hv in *; simpl in *; lia|]. by eapply permit_rank_le.
Qed.

Lemma denied_mono i i' : restricts_le i i' → denied i' = false → denied i = false.
Proof.
  intros Hle (Hg & Hr & Hk & Hw & Hc & He)%denied_false.
  pose proof (known_inputs_mono _ _ Hle Hk) as Hk0. apply denied_false.
  apply known_inputs_true in Hk as (_ & _ & Sg & Sr & Sw & Sc & _). destruct Hle.
  assert (∀ a b, deny_rank a ≤ deny_rank b → is_Some b → yes b = false → yes a = false) as Hdr.
  { intros a b Hab Hb Hy. destruct (deny_rank_le _ _ Hab Hb) as [_ Hi].
    destruct (yes a); [by rewrite Hi in Hy | done]. }
  split; [by eapply Hdr|]. split; [by eapply Hdr|]. split; [done|].
  split; [by apply (permit_rank_le _ _ le_workflow0 Sw)|].
  split.
  - destruct Sc as [e Ee]. rewrite Ee in *. intros E0. rewrite E0 in *.
    destruct e; simpl in *; try lia. done.
  - rewrite He in le_deny0. by destruct (explicitDenyMatch i).
Qed.

Lemma gate_open_mono i i' :
  restricts_le i i' → known_inputs i' = true → gate_open i = true → gate_open i' = true.
Proof.
  intros [] (_ & _ & _ & _ & _ & _ & _ & _ & Hv)%known_inputs_true Ho.
  unfold gate_open in *. breflect.
  destruct Hv as [Hv|Hv]; [rewrite Hv in *; destruct (gateRequired i); simpl in *; lia|].
  destruct (permit_rank_le _ _ le_satisfied0 Hv) as [_ Hy].
  apply andb_true_iff; split; [by apply (b2z_le _ _ le_gate0)|].
  destruct (yes (gateSatisfied i')); [|done]. by rewrite Hy in *.
Qed.

Lemma floored_mono i i' :
  restricts_le i i' → denied i' = false → floored i = true → floored i' = true.
Proof.
  intros Hle (_ & _ & Hk & _ & Hc & _)%denied_false.
  pose proof (gate_open_mono _ _ Hle Hk) as Hgate.
  apply known_inputs_true in Hk as (_ & _ & _ & _ & _ & [e He] & Hx & _). destruct Hle.
  unfold floored. rewrite !orb_true_iff, !bool_decide_eq_true. rewrite He in *.
  intros [[[[[[Hf|Hf]|Hf]|Hf]|Hf]|Hf]|Hf].
  - rewrite Hf in *. destruct e; simpl in *; try lia; [naive_solver | done].
  - apply (b2z_le _ _ le_gfloor0) in Hf. naive_solver.
  - destruct (deny_rank_le _ _ le_context0 Hx) as [_ Hi].
    apply Hi in Hf. naive_solver.
  - naive_solver.
  - apply (b2z_le _ _ le_require0) in Hf. naive_solver.
  - apply (b2z_le _ _ le_merges0) in Hf. naive_solver.
  - apply (b2z_le _ _ le_targets0) in Hf. naive_solver.
Qed.

Lemma elevated_mono i i' :
  restricts_le i i' → denied i' = false → elevated i = true → elevated i' = true.
Proof.
  intros [] (_ & _ & Hk & _)%denied_false Hel.
  apply known_inputs_true in Hk as (_ & [r' Hr'] & _).
  unfold risk_rank in *. rewrite Hr', Hel in *. unfold elevated in Hel.
  destruct (riskClass i); [|done]. by destruct (elevated i').
Qed.

(** The only requirement an approval cannot lift: the risk default of an elevated action that
    no rule floors or allows. *)
Definition default_only (i : EvaluationInput) : bool :=
  elevated i && negb (floored i) && negb (explicitAllowMatch i).

(* @prop invariant 3 : evaluatePrecedence short_circuit stage8_floor strongest approval_satisfies / decision_monotone_witness *)
(** C16. Restrictions compose monotonically: strengthening any dimension of the input (adding a
    deny, a floor, a ceiling, a context escalation, a required gate or a higher risk, dropping
    an allow rule or an approval, or losing the resolution of any dimension that stage 3 asks
    for) never yields a weaker decision, as long as no approval is presented for a request only
    the risk default stops.  The global approval floor and the protected branch facts are
    excepted: they may be added but not lost, because the code takes an unresolved one for
    false and its loss turns a required approval into an ALLOW ([losing_a_floor_relaxes]). *)
Theorem decision_monotone i i' :
  restricts_le i i' →
  (default_only i = true → exactValidApprovalPresent i' = false) →
  effect_rank (effect (evaluatePrecedence i)) ≤ effect_rank (effect (evaluatePrecedence i')).
Proof.
  intros Hle Hdef. rewrite !evaluatePrecedence_effect. unfold reference_effect.
  destruct (denied i') eqn:Hd'; [by repeat case_match|].
  rewrite (denied_mono _ _ Hle Hd').
  pose proof (floored_mono _ _ Hle Hd') as Hf. pose proof (elevated_mono _ _ Hle Hd') as He.
  apply denied_false in Hd' as (_ & _ & Hk & _).
  pose proof (gate_open_mono _ _ Hle Hk) as Hg. destruct Hle as [].
  pose proof (b2z_le _ _ le_allow0) as Hal. pose proof (b2z_le _ _ le_approval0) as Hap.
  unfold default_only in Hdef. destruct (floored i) eqn:Ef.
  - rewrite (Hf eq_refl). destruct (exactValidApprovalPresent i' && _) eqn:E'; [|by case_match].
    breflect. rewrite Hap by done. destruct (gate_open i); [specialize (Hg eq_refl); congruence | done].
  - destruct (explicitAllowMatch i) eqn:Ea; [by repeat case_match|].
    destruct (elevated i) eqn:El; [|by repeat case_match].
    rewrite Hdef, He by done.
    destruct (explicitAllowMatch i'); [by specialize (Hal eq_refl) | by repeat case_match].
Qed.

(** An exact valid approval cannot authorize a request that only its elevated risk class
    stops: the approval is consulted before the risk default applies, so the decision stays
    REQUIRE_APPROVAL, while the same request under an additional approval floor is allowed. *)
Theorem approval_never_lifts_risk_default i :
  denied i = false → default_only i = true → exactValidApprovalPresent i = true →
  effect (evaluatePrecedence i) = REQUIRE_APPROVAL ∧
  ∀ i', denied i' = false → explicitRequireApprovalMatch i' = true → gate_open i' = false →
        exactValidApprovalPresent i' = true → effect (evaluatePrecedence i') = ALLOW.
Proof.
  unfold default_only. intros Hd Ho Hv. breflect. split.
  - rewrite evaluatePrecedence_effect. unfold reference_effect. by repeat case_match.
  - intros i' Hd' Hr Hg Ha. rewrite evaluatePrecedence_effect. unfold reference_effect.
    assert (floored i' = true) as -> by (unfold floored; rewrite Hr, !orb_true_r; done).
    by rewrite Hd', Ha, Hg.
Qed.

(** The progress explains its effect by one of its rules. *)
Definition explained (p : Progress) : Prop :=
  ∀ e, p_effect p = Some e → ∃ r, r ∈ p_rules p ∧ rule_effect r = e.

Lemma strongest_one_of o e : strongest o e = e ∨ o = Some (strongest o e).
Proof. destruct o as [[]|], e; vm_compute; auto. Qed.

Lemma explained_raise b e id st ex p :
  explained p → explained (when b (raise e (rule st id e ex)) p).
Proof.
  intros Hp. destruct b; simpl; [|done]. intros e' [= <-]. simpl.
  destruct (strongest_one_of (p_effect p) e) as [->|Ho].
  - eexists. rewrite elem_of_app, list_elem_of_singleton. by split; [right|].
  - apply Hp in Ho as (r & Hr & He). exists r. rewrite elem_of_app. auto.
Qed.

Lemma explained_set b e f id st ex p :
  explained p → (∀ q, p_effect (f q) = p_effect q ∨ p_effect (f q) = Some e) →
  (∀ q, p_rules (f q) = p_rules q ++ [rule st id e ex]) →
  explained (when b f p).
Proof.
  intros Hp He Hr. destruct b; simpl; [|done]. intros e' E. rewrite Hr.
  destruct (He p) as [E'|E']; rewrite E' in E.
  - apply Hp in E as (r & Hin & <-). exists r. rewrite elem_of_app. auto.
  - simplify_eq. eexists. rewrite elem_of_app, list_elem_of_singleton. by split; [right|].
Qed.

Lemma accumulate_explained i : explained (accumulate i).
Proof.
  unfold accumulate. eapply explained_set; [|by right|done].
  eapply explained_set; [|intros q; destruct (p_effect q) eqn:E; simpl; rewrite ?E; auto|done].
  apply explained_raise, explained_raise, explained_raise.
  assert (Hs : ∀ p, explained p → explained (stage6_sandbox i p)).
  { intros p Hp. unfold stage6_sandbox. by destruct (yes _). }
  apply Hs, explained_raise. eapply explained_set; [|by right|done].
  intros e He. discriminate He.
Qed.

(** Every decision is explained: among its matched rules, which come sorted by stage and
    then rule id, there is one whose own effect is the decision. *)
Theorem decision_is_explained i :
  let o := evaluatePrecedence i in
  StronglySorted (cmp_le rule_order) (matchedRules o) ∧
  ∃ r, r ∈ matchedRules o ∧ rule_effect r = effect o.
Proof.
  assert (Hfin : ∀ e c rs ob x, (∃ r, r ∈ rs ∧ rule_effect r = e) →
    let o := finalize e c rs ob x in
    StronglySorted (cmp_le rule_order) (matchedRules o) ∧
    ∃ r, r ∈ matchedRules o ∧ rule_effect r = effect o).
  { intros e c rs ob x (r & Hr & He). split; [apply js_sort_sorted, _|].
    exists r. simpl. by rewrite js_sort_elem. }
  assert (Hone : ∀ rs st id e ex, ∃ r, r ∈ rs ++ [rule st id e ex] ∧ rule_effect r = e).
  { intros. eexists. rewrite elem_of_app, list_elem_of_singleton. by split; [right|]. }
  unfold evaluatePrecedence. destruct (short_circuit i) as [o|] eqn:E.
  - unfold short_circuit in E.
    repeat case_match; simplify_eq; apply Hfin, (Hone []).
  - pose proof (accumulate_explained i) as Hx. destruct (p_effect (accumulate i)) eqn:Ep.
    + by apply Hfin, Hx.
    + unfold risk_default. repeat case_match; apply Hfin, Hone.
Qed.

Lemma when_same {A} (g : Progress → A) b f p :
  (∀ q, g (f q) = g q) → g (when b f p) = g p.
Proof. intros Hf. by destruct b; simpl. Qed.

Lemma accumulate_obligations i :
  p_obligations (accumulate i) =
    if yes (sandboxRequired i) then [execution_environment sandbox_required] else [].
Proof.
  unfold accumulate, approval_satisfies, stage8_allow, stage8_floor, stage8_deny, stage7_gate.
  rewrite !(when_same p_obligations) by done. unfold stage6_sandbox, when.
  destruct (yes (sandboxRequired i)); simpl; unfold stage6_context, stage5_floor;
    by rewrite !(when_same p_obligations).
Qed.

(** Obligations compose apart from effects and are never dropped by one: whenever the sandbox
    is required and the request is not denied outright, the decision carries the
    sandbox-required obligation, whether it allows or asks for approval. *)
Theorem sandbox_obligation_kept i :
  yes (sandboxRequired i) = true → denied i = false →
  execution_environment sandbox_required ∈ obligations (evaluatePrecedence i).
Proof.
  intros Hs Hd. assert (short_circuit i = None) as Hn.
  { rewrite short_circuit_denied in Hd. by destruct (short_circuit i). }
  apply denied_false in Hd as (_ & _ & (_ & [r Hr] & _)%known_inputs_true & _).
  pose proof (accumulate_obligations i) as Ho. rewrite Hs in Ho.
  unfold evaluatePrecedence. rewrite Hn. case_match.
  - simpl. rewrite Ho. left.
  - unfold risk_default. rewrite Hr. destruct r; simpl; rewrite Ho; left.
Qed.
End Properties.

(** Merging a run's snapshot decision with the current one yields the stricter of the two, and
    asks for a fresh decision exactly when the current policy is looser, so a policy change
    never elevates a running workflow. *)
Theorem merge_takes_stricter s c :
  effect_rank (merge_effect (mergeSnapshotWithCurrent s c)) =
    Z.max (effect_rank (effect s)) (effect_rank (effect c)) ∧
  (requireFreshDecision (mergeSnapshotWithCurrent s c) = true ↔
   effect_rank (effect c) < effect_rank (effect s)).
Proof.
  unfold mergeSnapshotWithCurrent. repeat case_match; breflect; simpl; split; try lia; done.
Qed.

(** ** Witnesses *)

Definition sample_input : EvaluationInput := {|
  actionId := Some "branch_push"; riskClass := Some reversible_write;
  repositoryDenyMatch := Some false; globalDenyMatch := Some false;
  globalApprovalFloorMatch := Some false; workflowPermitted := Some true;
  ceilingEffect := Some ALLOW; contextRequiresApproval := Some false;
  sandboxRequired := Some true; gateSatisfied := Some true; gateRequired := true;
  explicitAllowMatch := false; explicitRequireApprovalMatch := false;
  explicitDenyMatch := false; exactValidApprovalPresent := false;
  targetsProtectedBranch := None; mergesProtectedBranch := None;
|}.

(** The same request classified sensitive, with an approval at hand. *)
Definition sample_elevated : EvaluationInput := {|
  actionId := Some "branch_push"; riskClass := Some sensitive_write;
  repositoryDenyMatch := Some false; globalDenyMatch := Some false;
  globalApprovalFloorMatch := Some false; workflowPermitted := Some true;
  ceilingEffect := Some ALLOW; contextRequiresApproval := Some false;
  sandboxRequired := Some true; gateSatisfied := Some true; gateRequired := true;
  explicitAllowMatch := false; explicitRequireApprovalMatch := false;
  explicitDenyMatch := false; exactValidApprovalPresent := true;
  targetsProtectedBranch := None; mergesProtectedBranch := None;
|}.

(** The same request classified sensitive, with no approval. *)
Definition sample_stricter : EvaluationInput := {|
  actionId := Some "branch_push"; riskClass := Some sensitive_write;
  repositoryDenyMatch := Some false; globalDenyMatch := Some false;
  globalApprovalFloorMatch := Some false; workflowPermitted := Some true;
  ceilingEffect := Some ALLOW; contextRequiresApproval := Some false;
  sandboxRequired := Some true; gateSatisfied := Some true; gateRequired := true;
  explicitAllowMatch := false; explicitRequireApprovalMatch := false;
  explicitDenyMatch := false; exactValidApprovalPresent := false;
  targetsProtectedBranch := None; mergesProtectedBranch := None;
|}.

Example sample_allowed :
  effect (evaluatePrecedence sample_input) = ALLOW ∧
  reasonCode (evaluatePrecedence sample_input) = "RISK-DEFAULT-REVERSIBLE-WRITE".
Proof. by vm_compute. Qed.

Lemma allow_requires_every_guard_witness :
  effect (evaluatePrecedence sample_input) = ALLOW ∧ known_inputs sample_input = true.
Proof.
  split; [by vm_compute|].
  destruct (allow_requires_every_guard sample_input) as (_ & _ & _ & Hk & _); [by vm_compute|].
  exact Hk.
Defined.

Lemma decision_monotone_witness :
  effect_rank (effect (evaluatePrecedence sample_input)) ≤
  effect_rank (effect (evaluatePrecedence sample_stricter)).
Proof.
  apply (decision_monotone sample_input sample_stricter); [|by vm_compute].
  by split; vm_compute.
Defined.

(** A floor that held and is no longer resolved. *)
Example losing_a_floor_relaxes :
  map (λ f, effect (evaluatePrecedence (with_floors f None None sample_input))) [Some true; None; Some false] =
  [REQUIRE_APPROVAL; ALLOW; ALLOW].
Proof. vm_compute. reflexivity. Qed.

Lemma approval_never_lifts_risk_default_witness :
  effect (evaluatePrecedence sample_elevated) = REQUIRE_APPROVAL.
Proof. apply (approval_never_lifts_risk_default sample_elevated); by vm_compute. Defined.

Lemma sandbox_obligation_kept_witness :
  execution_environment sandbox_required ∈ obligations (evaluatePrecedence sample_input).
Proof. apply (sandbox_obligation_kept sample_input); by vm_compute. Defined.
