(* ===== verification/Taxonomy.v ===== *)
(** * Action taxonomy

    [packages/policy-engine/src/actions/catalog.ts]: every operation DevGuard can understand,
    with its category, baseline risk, privilege, default effect and obligations; the public
    aliases; and the catalog's own consistency check. *)

From S2P Require Import Prelude JsString Contracts.

(* @src packages/policy-engine/src/actions/catalog.ts:16-28 ACTION_CATEGORIES *)
Inductive ActionCategory :=
  | cat_repository_read | cat_workspace_write | cat_github_write | cat_collaboration
  | cat_validation | cat_sandbox | cat_administration | cat_external_effect | cat_destructive.

#[export] Instance ActionCategory_eq_dec : EqDecision ActionCategory.
Proof. solve_decision. Defined.

(** [ExecutionObligation] has the shapes of the shared [Obligation] union. *)
(* @src packages/policy-engine/src/actions/catalog.ts:38-48 ActionDefinition *)
Record ActionDefinition := {
  id : string;
  category : ActionCategory;
  baselineRisk : RiskClass;
  reversible : bool;
  privileged : bool;
  defaultEffect : PolicyEffect;
  requiredContext : list string;
  action_obligations : list Obligation;
}.

(* @src packages/policy-engine/src/actions/catalog.ts:50-53 SANDBOX_ONLY *)
Definition SANDBOX_ONLY : Obligation := execution_environment sandbox_required.
(* @src packages/policy-engine/src/actions/catalog.ts:54-54 NETWORK_DENY *)
Definition NETWORK_DENY : Obligation := network_policy default_deny None.
(* @src packages/policy-engine/src/actions/catalog.ts:55-55 READ_TIMEOUT *)
Definition READ_TIMEOUT : Obligation := timeout_ms 60000.
(* @src packages/policy-engine/src/actions/catalog.ts:56-56 BUILD_TIMEOUT *)
Definition BUILD_TIMEOUT : Obligation := timeout_ms 600000.
(* @src packages/policy-engine/src/actions/catalog.ts:57-62 RESOURCES_DEFAULT *)
Definition RESOURCES_DEFAULT : Obligation :=
  resource_ceiling (Some 2) (Some 2048) (Some 8192).

(* @src packages/policy-engine/src/actions/catalog.ts:64-74 read *)
Definition read_action (id : string) (context : list string) : ActionDefinition := {|
  id := id; category := cat_repository_read; baselineRisk := read;
  reversible := true; privileged := false; defaultEffect := ALLOW;
  requiredContext := context; action_obligations := [NETWORK_DENY; READ_TIMEOUT] |}.

(* @src packages/policy-engine/src/actions/catalog.ts:76-86 workspace *)
Definition workspace (id : string) : ActionDefinition := {|
  id := id; category := cat_workspace_write; baselineRisk := reversible_write;
  reversible := true; privileged := false; defaultEffect := ALLOW;
  requiredContext := []; action_obligations := [SANDBOX_ONLY] |}.

(* @src packages/policy-engine/src/actions/catalog.ts:88-98 gitWrite *)
Definition gitWrite (id : string) : ActionDefinition := {|
  id := id; category := cat_github_write; baselineRisk := reversible_write;
  reversible := true; privileged := false; defaultEffect := ALLOW;
  requiredContext := ["target.ref"]; action_obligations := [NETWORK_DENY] |}.

(* @src packages/policy-engine/src/actions/catalog.ts:100-114 sandboxCmd *)
Definition sandboxCmd (id : string) (baseline : RiskClass) (obligations : list Obligation)
  : ActionDefinition := {|
  id := id; category := cat_sandbox; baselineRisk := baseline;
  reversible := true; privileged := false; defaultEffect := ALLOW;
  requiredContext := ["command.fingerprint"];
  action_obligations := obligations ++ [SANDBOX_ONLY] |}.

(** [defaultEffect] is [REQUIRE_APPROVAL] or [DENY]. *)
(* @src packages/policy-engine/src/actions/catalog.ts:116-126 sensitive *)
Definition sensitive (id : string) (defaultEffect : PolicyEffect) : ActionDefinition := {|
  id := id; category := cat_administration;
  baselineRisk := if effect_eqb defaultEffect DENY then destructive else sensitive_write;
  reversible := false; privileged := true; defaultEffect := defaultEffect;
  requiredContext := ["target.id"]; action_obligations := [NETWORK_DENY] |}.

(* @src packages/policy-engine/src/actions/catalog.ts:128-138 destructive *)
Definition destructive_action (id : string) (defaultEffect : PolicyEffect) : ActionDefinition := {|
  id := id; category := cat_destructive; baselineRisk := destructive;
  reversible := false; privileged := true; defaultEffect := defaultEffect;
  requiredContext := ["target.id"]; action_obligations := [NETWORK_DENY] |}.

(* @src packages/policy-engine/src/actions/catalog.ts:140-150 external *)
Definition external (id : string) : ActionDefinition := {|
  id := id; category := cat_external_effect; baselineRisk := external_side_effect;
  reversible := false; privileged := true; defaultEffect := REQUIRE_APPROVAL;
  requiredContext := ["target.environment"]; action_obligations := [NETWORK_DENY] |}.

(* @src packages/policy-engine/src/actions/catalog.ts:152-164 validationAct *)
Definition validationAct (id : string) (baseline : RiskClass) : ActionDefinition := {|
  id := id; category := cat_validation; baselineRisk := baseline;
  reversible := true; privileged := false; defaultEffect := ALLOW;
  requiredContext := []; action_obligations := [NETWORK_DENY; READ_TIMEOUT] |}.

(* @src packages/policy-engine/src/actions/catalog.ts:167-266 ACTION_DEFINITIONS *)
Definition ACTION_DEFINITIONS : list ActionDefinition :=
  let build := [NETWORK_DENY; BUILD_TIMEOUT; RESOURCES_DEFAULT] in
  let quick := [NETWORK_DENY; READ_TIMEOUT; RESOURCES_DEFAULT] in
  [ read_action "repository_read" [];
    read_action "issue_read" [];
    read_action "issue_comments_read" [];
    read_action "content_read" ["target.ref"];
    read_action "tree_list" ["target.ref"];
    read_action "branch_read" [];
    read_action "commit_compare" ["operation.baseSha"; "operation.headSha"];
    read_action "pull_request_read" [];
    read_action "review_read" [];
    read_action "checks_read" [];
    read_action "workflow_logs_read" [];
    read_action "repository_metadata_read" [];
    workspace "workspace_create";
    workspace "workspace_write_file";
    workspace "workspace_delete_file";
    workspace "workspace_apply_patch";
    workspace "workspace_collect_artifact";
    workspace "workspace_destroy";
    sandboxCmd "sandbox_run_readonly" read quick;
    sandboxCmd "sandbox_run_dependency_freshness" read
      [network_policy allowlist (Some ["registry.npmjs.org"; "registry.yarnpkg.com"; "pypi.org"]);
       BUILD_TIMEOUT; RESOURCES_DEFAULT];
    sandboxCmd "sandbox_run_build" reversible_write build;
    sandboxCmd "sandbox_run_test" reversible_write build;
    sandboxCmd "sandbox_run_lint" read quick;
    sandboxCmd "sandbox_run_typecheck" read quick;
    sandboxCmd "sandbox_run_security_scan" read
      [network_policy allowlist (Some ["api.github.com"]); BUILD_TIMEOUT; RESOURCES_DEFAULT];
    sandboxCmd "sandbox_install_dependency" reversible_write
      [network_policy allowlist (Some ["registry.npmjs.org"]); BUILD_TIMEOUT; RESOURCES_DEFAULT];
    sandboxCmd "sandbox_run_networked" reversible_write [BUILD_TIMEOUT; RESOURCES_DEFAULT];
    sandboxCmd "sandbox_run_migration_simulation" sensitive_write build;
    gitWrite "branch_create";
    gitWrite "commit_create";
    gitWrite "branch_push";
    gitWrite "pull_request_create";
    gitWrite "pull_request_update";
    gitWrite "pull_request_comment";
    gitWrite "review_request";
    sensitive "protected_branch_write" REQUIRE_APPROVAL;
    sensitive "ci_workflow_modify" REQUIRE_APPROVAL;
    sensitive "branch_delete" REQUIRE_APPROVAL;
    sensitive "repository_settings_modify" DENY;
    sensitive "secret_config_modify" DENY;
    destructive_action "default_branch_history_rewrite" DENY;
    destructive_action "pull_request_merge" REQUIRE_APPROVAL;
    destructive_action "repository_delete" DENY;
    destructive_action "repository_content_permanent_delete" DENY;
    destructive_action "credential_rotate_or_remove" DENY;
    destructive_action "destructive_migration" DENY;
    destructive_action "issue_destructive_close" REQUIRE_APPROVAL;
    external "production_deploy";
    external "external_notification_send";
    external "billing_resource_create";
    external "production_settings_modify";
    validationAct "validation_run" read;
    validationAct "security_finding_record" reversible_write;
    validationAct "workflow_cancel" reversible_write;
    validationAct "approval_checkpoint_create" reversible_write ].

(** [new Map(ACTION_DEFINITIONS.map(d => [d.id, d]))]; a later entry would replace an earlier
    one of the same id, so lookup takes the last. *)
(* @src packages/policy-engine/src/actions/catalog.ts:270-272 BY_ID *)
Definition BY_ID (i : string) : option ActionDefinition :=
  List.find (λ d, id d =s? i) (rev ACTION_DEFINITIONS).

(* @src packages/policy-engine/src/actions/catalog.ts:276-288 PUBLIC_ACTION_ALIASES *)
Definition PUBLIC_ACTION_ALIASES : list (string * string) :=
  [("repository.read", "repository_read"); ("issue.read", "issue_read");
   ("file.read", "content_read"); ("check.read", "checks_read");
   ("review.read", "review_read"); ("branch.write", "branch_create");
   ("commit.write", "commit_create"); ("pull_request.write", "pull_request_update");
   ("pull_request.merge", "pull_request_merge"); ("sandbox.command", "sandbox_run_readonly");
   ("issue.write", "issue_destructive_close")].

(* @src packages/policy-engine/src/actions/catalog.ts:290-292 normalizeActionId *)
Definition normalizeActionId (i : string) : string := assoc i PUBLIC_ACTION_ALIASES ?? i.

(* @src packages/policy-engine/src/actions/catalog.ts:295-297 findActionDefinition *)
Definition findActionDefinition (i : string) : option ActionDefinition :=
  BY_ID (normalizeActionId i).

(** [/^[a-z][a-z0-9_]*$/]. *)
Definition id_grammar (s : string) : bool :=
  match s with
  | String c s => is_lower c && all_chars (λ c, is_lower c || is_digit c || char_in "_" c) s
  | EmptyString => false
  end.

Definition bool_name (b : bool) : string := if b then "true" else "false".

(* @src packages/policy-engine/src/actions/catalog.ts:304-316 validateCatalog *)
Definition definition_problems (seen : list string) (d : ActionDefinition) : list string :=
  (if id_grammar (id d) then [] else ["action '" +s id d +s "' violates ID grammar"]) ++
  (if str_in (id d) seen then ["duplicate action '" +s id d +s "'"] else []) ++
  (if effect_eqb (defaultEffect d) ALLOW && (privileged d || negb (reversible d))
   then ["action '" +s id d +s "' defaults ALLOW while privileged=" +s bool_name (privileged d)
         +s " reversible=" +s bool_name (reversible d)] else []) ++
  (if bool_decide (baselineRisk d = destructive) && reversible d
   then ["action '" +s id d +s "' destructive but flagged reversible"] else []).

(** The loop of [validateCatalog] over any list of definitions. *)
Fixpoint catalog_problems (seen : list string) (ds : list ActionDefinition) : list string :=
  match ds with
  | [] => []
  | d :: ds => definition_problems seen d ++ catalog_problems (id d :: seen) ds
  end.

(* @src packages/policy-engine/src/actions/catalog.ts:300-319 validateCatalog *)
Definition validateCatalog : list string := catalog_problems [] ACTION_DEFINITIONS.

(** ** Properties *)

(** What a catalog that reports no problem guarantees, for any list of definitions. *)
Definition well_formed_definition (d : ActionDefinition) : Prop :=
  id_grammar (id d) = true ∧
  (defaultEffect d = ALLOW → privileged d = false ∧ reversible d = true) ∧
  (baselineRisk d = destructive → reversible d = false).

Lemma definition_problems_nil seen d :
  definition_problems seen d = [] ↔ well_formed_definition d ∧ id d ∉ seen.
Proof.
  unfold definition_problems, well_formed_definition, effect_eqb.
  rewrite !app_nil, <- str_in_false, if_then_nil, !if_else_nil.
  rewrite !andb_false_iff, orb_false_iff, !bool_decide_eq_false, negb_false_iff.
  destruct (decide (defaultEffect d = ALLOW)), (decide (baselineRisk d = destructive)),
    (reversible d); naive_solver.
Qed.

Lemma catalog_problems_nil seen ds :
  catalog_problems seen ds = [] ↔
  Forall well_formed_definition ds ∧ NoDup (id <$> ds) ∧ ∀ d, d ∈ ds → id d ∉ seen.
Proof.
  revert seen. induction ds as [|d ds IH]; intros seen; simpl.
  - split; [|done]. intros _. split; [constructor|]. split; [constructor|]. set_solver.
  - rewrite app_nil, definition_problems_nil, IH, Forall_cons, NoDup_cons.
    rewrite list_elem_of_fmap. split.
    + intros [[Hw Hs] (Hf & Hn & Hd)]. split_and!; [done|done| |done|].
      * intros (d' & He & Hin). apply (Hd d' Hin). rewrite He. left.
      * intros d' [->|Hin]%elem_of_cons; [done|]. specialize (Hd _ Hin). set_solver.
    + intros ((Hw & Hf) & (Hni & Hn) & Hd). split_and!; [done|apply Hd; left|done|done|].
      intros d' Hin [He|Hs]%elem_of_cons; [apply Hni; by exists d' | by eapply Hd, Hs; right].
Qed.

(** The deployed catalog passes its own check, and that check is sound: ids are distinct and
    well formed, no action that defaults to ALLOW is privileged or irreversible, nothing
    destructive is flagged reversible, and every public alias resolves to a catalog entry. *)
Theorem catalog_is_sound :
  validateCatalog = [] ∧ NoDup (id <$> ACTION_DEFINITIONS) ∧
  Forall well_formed_definition ACTION_DEFINITIONS ∧
  ∀ alias target, (alias, target) ∈ PUBLIC_ACTION_ALIASES →
    ∃ d, findActionDefinition alias = Some d ∧ id d = target.
Proof.
  assert (Hc : validateCatalog = []) by by vm_compute.
  split; [done|]. apply catalog_problems_nil in Hc as (Hw & Hn & _).
  split; [done|]. split; [done|].
  intros a t Hin. unfold PUBLIC_ACTION_ALIASES in Hin.
  in_cases Hin; injection Hin as -> ->; eexists; by split; vm_compute.
Qed.

(** An unregistered id has no definition. *)
Lemma findActionDefinition_registered i d :
  findActionDefinition i = Some d → d ∈ ACTION_DEFINITIONS ∧ id d = normalizeActionId i.
Proof.
  intros [Hin He]%find_some_elem. breflect.
  split; [by apply rev_elem in Hin | done].
Qed.
