(* ===== verification/Safety.v ===== *)
(** * Global safety and autonomy ceilings

    [packages/policy-engine/src/safety/]: the deployed deny and floor rules, the autonomy
    profiles, the restrictions the constraint service derives from them, and its startup
    integrity check. *)

From S2P Require Import Prelude JsString Contracts Taxonomy.

(* @src packages/policy-engine/src/safety/catalog.ts:12-17 RESTRICTION_SOURCES *)
Inductive RestrictionSource := GLOBAL_SAFETY | AUTONOMY_CEILING | REPOSITORY_DENY.

(* @src packages/policy-engine/src/safety/catalog.ts:19-25 Restriction *)
Record Restriction := {
  source : RestrictionSource;
  minimumEffect : PolicyEffect;
  restriction_ruleId : string;
  restriction_explanation : string;
  nonOverridable : bool;
}.

(* @src packages/policy-engine/src/safety/catalog.ts:34-41 GlobalRule *)
Record GlobalRule := {
  global_id : string;
  denyActions : list string;
  approvalFloorActions : list string;
  global_explanation : string;
}.

(* @src packages/policy-engine/src/safety/catalog.ts:43-51 DENY_ALL_LEVELS_ACTIONS *)
Definition DENY_ALL_LEVELS_ACTIONS : list string :=
  ["repository_delete"; "repository_content_permanent_delete"; "credential_rotate_or_remove";
   "destructive_migration"; "default_branch_history_rewrite"; "repository_settings_modify";
   "secret_config_modify"].

(* @src packages/policy-engine/src/safety/catalog.ts:54-63 APPROVAL_FLOOR_ACTIONS *)
Definition APPROVAL_FLOOR_ACTIONS : list string :=
  ["pull_request_merge"; "protected_branch_write"; "ci_workflow_modify"; "branch_delete";
   "issue_destructive_close"; "production_deploy"; "production_settings_modify";
   "billing_resource_create"].

(** An absent action list is the empty one: the code reads it through [?? []]. *)
(* @src packages/policy-engine/src/safety/catalog.ts:65-78 GLOBAL_RULES *)
Definition GLOBAL_RULES : list GlobalRule :=
  [{| global_id := "global-deny-destructive-administration";
      denyActions := DENY_ALL_LEVELS_ACTIONS; approvalFloorActions := [];
      global_explanation := "repository deletion, irreversible content/history operations, credential and settings administration are globally denied in MVP" |};
   {| global_id := "global-approval-floor-privileged";
      denyActions := []; approvalFloorActions := APPROVAL_FLOOR_ACTIONS;
      global_explanation := "privileged merge/protected/external actions require exact durable human approval even under autonomous autonomy" |}].

(* @src packages/policy-engine/src/safety/catalog.ts:89-97 AutonomyProfile *)
Record AutonomyProfile := {
  level : AutonomyLevel;
  automaticActions : list string;
  approvalRequiredActions : list string;
  deniedActions : list string;
}.

(* @src packages/policy-engine/src/safety/catalog.ts:121-134 READ_ACTIONS *)
Definition READ_ACTIONS : list string :=
  ["repository_read"; "issue_read"; "issue_comments_read"; "content_read"; "tree_list";
   "branch_read"; "commit_compare"; "pull_request_read"; "review_read"; "checks_read";
   "workflow_logs_read"; "repository_metadata_read"].

(* @src packages/policy-engine/src/safety/catalog.ts:136-155 SANDBOX_ACTIONS *)
Definition SANDBOX_ACTIONS : list string :=
  ["workspace_create"; "workspace_write_file"; "workspace_delete_file"; "workspace_apply_patch";
   "workspace_collect_artifact"; "workspace_destroy"; "sandbox_run_readonly";
   "sandbox_run_dependency_freshness"; "sandbox_run_build"; "sandbox_run_test";
   "sandbox_run_lint"; "sandbox_run_typecheck"; "sandbox_run_security_scan";
   "sandbox_run_migration_simulation"; "validation_run"; "security_finding_record";
   "workflow_cancel"; "approval_checkpoint_create"].

(* @src packages/policy-engine/src/safety/catalog.ts:157-167 REVERSIBLE_GIT_WRITES *)
Definition REVERSIBLE_GIT_WRITES : list string :=
  ["branch_create"; "commit_create"; "branch_push"; "pull_request_create";
   "pull_request_update"; "pull_request_comment"; "review_request";
   "sandbox_install_dependency"; "sandbox_run_networked"].

(* @src packages/policy-engine/src/safety/catalog.ts:177-213 AUTONOMY_PROFILES *)
Definition AUTONOMY_PROFILES (l : AutonomyLevel) : AutonomyProfile :=
  match l with
  | assist => {|
      level := assist;
      automaticActions := READ_ACTIONS ++ SANDBOX_ACTIONS;
      approvalRequiredActions := [];
      deniedActions := dedup (REVERSIBLE_GIT_WRITES ++ APPROVAL_FLOOR_ACTIONS ++
        ["external_notification_send"; "production_deploy"; "billing_resource_create"] ++
        DENY_ALL_LEVELS_ACTIONS) |}
  | developer | trusted | autonomous => {|
      level := l;
      automaticActions := READ_ACTIONS ++ SANDBOX_ACTIONS ++ REVERSIBLE_GIT_WRITES;
      approvalRequiredActions := APPROVAL_FLOOR_ACTIONS ++ ["external_notification_send"];
      deniedActions := DENY_ALL_LEVELS_ACTIONS |}
  end.

(* @src packages/policy-engine/src/safety/catalog.ts:216-218 profileForLevel *)
Definition profileForLevel (l : AutonomyLevel) : AutonomyProfile := AUTONOMY_PROFILES l.

Definition levels : list AutonomyLevel := [assist; developer; trusted; autonomous].

(* @src packages/policy-engine/src/safety/service.ts:24-30 ClassifiedActionRef *)
Record ClassifiedActionRef := {
  ref_actionId : string;
  ref_targetsProtected : bool;
  ref_mergesProtected : bool;
}.

(* @src packages/policy-engine/src/safety/service.ts:35-41 restrictionRank *)
Definition restrictionRank (r : Restriction) : Z :=
  match minimumEffect r with DENY => 2 | REQUIRE_APPROVAL => 1 | ALLOW => 0 end.

(** The map an index loop builds: for each rule in turn, each of its actions is set to the rule,
    so a later rule replaces an earlier one. *)
(* @src packages/policy-engine/src/safety/service.ts:53-62 constructor *)
Definition build_index (actions : GlobalRule → list string) (rules : list GlobalRule)
  : gmap string GlobalRule :=
  foldl (λ m r, foldl (λ m a, <[a := r]> m) m (actions r)) ∅ rules.

Definition denyIndex : gmap string GlobalRule := build_index denyActions GLOBAL_RULES.
Definition floorIndex : gmap string GlobalRule := build_index approvalFloorActions GLOBAL_RULES.

(** The insertion-ordered keys an index is iterated by. *)
Definition index_keys (actions : GlobalRule → list string) (rules : list GlobalRule)
  : list string := dedup (mjoin (actions <$> rules)).

(** The first problem the startup gate throws, if any. *)
(* @src packages/policy-engine/src/safety/service.ts:79-115 #assertIntegrity *)
Definition assertIntegrity (known : list string) (rules : list GlobalRule)
    (profiles : AutonomyLevel → AutonomyProfile) : option string :=
  let deny := index_keys denyActions rules in
  let floor := index_keys approvalFloorActions rules in
  match List.find (λ a, negb (str_in a known)) (deny ++ floor) with
  | Some a => Some ("global rule references unknown action '" +s a +s "'")
  | None =>
  match List.find (λ a, str_in a deny) floor with
  | Some a => Some ("action '" +s a +s "' is both globally denied and approval-floored")
  | None =>
      let groups l := automaticActions (profiles l) ++ approvalRequiredActions (profiles l) ++
                      deniedActions (profiles l) in
      match List.find (λ '(l, a), negb (str_in a known))
              (mjoin ((λ l, pair l <$> groups l) <$> levels)) with
      | Some (l, a) => Some ("autonomy " +s level_name l +s " references unknown action '" +s a +s "'")
      | None => None
      end
  end
  end.

Section Restrictions.
Context `{Collation}.

Definition byRuleId : Restriction → Restriction → Z := cmp_by restriction_ruleId localeCompare.

Definition global_restriction (e : PolicyEffect) (r : GlobalRule) : Restriction :=
  {| source := GLOBAL_SAFETY; minimumEffect := e; restriction_ruleId := global_id r;
     restriction_explanation := global_explanation r; nonOverridable := true |}.

(* @src packages/policy-engine/src/safety/service.ts:125-160 globalRestrictions *)
Definition globalRestrictions (input : ClassifiedActionRef) : list Restriction :=
  let deny := denyIndex !! ref_actionId input in
  let floor := floorIndex !! ref_actionId input in
  js_sort byRuleId (
    match deny with Some r => [global_restriction DENY r] | None => [] end ++
    match deny, floor with
    | None, Some r => [global_restriction REQUIRE_APPROVAL r]
    | _, _ => []
    end ++
    match deny with
    | None =>
        if ref_targetsProtected input || ref_mergesProtected input then
          [{| source := GLOBAL_SAFETY; minimumEffect := REQUIRE_APPROVAL;
              restriction_ruleId := "global-floor-protected-target";
              restriction_explanation := "operations on protected/default branches or their merges require human approval";
              nonOverridable := true |}]
        else []
    | Some _ => []
    end).

(* @src packages/policy-engine/src/safety/service.ts:163-184 autonomyRestrictions *)
Definition autonomyRestrictions (l : AutonomyLevel) (input : ClassifiedActionRef)
  : list Restriction :=
  let profile := profileForLevel l in
  let a := ref_actionId input in
  js_sort byRuleId (
    if str_in a (deniedActions profile) then
      [{| source := AUTONOMY_CEILING; minimumEffect := DENY;
          restriction_ruleId := "ceiling-" +s level_name l +s "-deny";
          restriction_explanation :=
            "'" +s a +s "' exceeds the '" +s level_name l +s "' autonomy ceiling";
          nonOverridable := true |}]
    else if str_in a (approvalRequiredActions profile) then
      [{| source := AUTONOMY_CEILING; minimumEffect := REQUIRE_APPROVAL;
          restriction_ruleId := "ceiling-" +s level_name l +s "-floor";
          restriction_explanation :=
            "'" +s a +s "' requires durable human approval under '" +s level_name l +s "'";
          nonOverridable := true |}]
    else []).

(* @src packages/policy-engine/src/safety/service.ts:187-191 restrictionsFor *)
Definition restrictionsFor (l : AutonomyLevel) (input : ClassifiedActionRef)
  : list Restriction :=
  js_sort byRuleId (globalRestrictions input ++ autonomyRestrictions l input).
End Restrictions.

(** Repository allow entries that a global deny always blocks. *)
(* @src packages/policy-engine/src/safety/service.ts:198-217 validatePolicy *)
Definition validatePolicy (allow : list string) : list (string * string) :=
  omap (λ a, if denyIndex !! a then
               Some ("POLICY_CONFLICT", "action '" +s a +s
                 "' is globally denied and can never be allowed by repository policy")
             else None) allow.

(** ** Properties *)

(** The strongest minimum effect among some restrictions, [ALLOW] for none. *)
Definition strongest_restriction (rs : list Restriction) : Z :=
  foldr (λ r m, Z.max (restrictionRank r) m) 0 rs.

Lemma strongest_restriction_ge rs r : r ∈ rs → restrictionRank r ≤ strongest_restriction rs.
Proof.
  induction rs as [|x rs IH]; [by intros ?%elem_of_nil|].
  intros [->|Hr]%elem_of_cons; simpl; [lia|]. specialize (IH Hr). simpl in IH. lia.
Qed.

Lemma strongest_restriction_perm rs rs' :
  rs ≡ₚ rs' → strongest_restriction rs = strongest_restriction rs'.
Proof. induction 1; simpl in *; lia. Qed.

Lemma strongest_restriction_app rs rs' :
  strongest_restriction (rs ++ rs') =
    Z.max (strongest_restriction rs) (strongest_restriction rs').
Proof.
  assert (Hnn : ∀ rs, 0 ≤ strongest_restriction rs) by (intros l; induction l; simpl in *; lia).
  specialize (Hnn rs'). induction rs; simpl in *; lia.
Qed.

(** The index lookup in closed form. *)
Lemma foldl_insert_lookup {A} (r : A) keys (m : gmap string A) (a : string) :
  foldl (λ m k, <[k := r]> m) m keys !! a = if str_in a keys then Some r else m !! a.
Proof.
  revert m. induction keys as [|k keys IH]; intros m; simpl; [done|].
  rewrite IH. destruct (str_in a keys) eqn:E; [by rewrite orb_true_r|]. rewrite orb_false_r.
  destruct (String.eqb_spec a k) as [->|]; [by rewrite lookup_insert_eq|].
  by rewrite lookup_insert_ne.
Qed.

Definition is_deny (a : string) : bool := str_in a DENY_ALL_LEVELS_ACTIONS.
Definition is_floor (a : string) : bool := str_in a APPROVAL_FLOOR_ACTIONS.

Lemma denyIndex_lookup a : bool_decide (is_Some (denyIndex !! a)) = is_deny a.
Proof.
  unfold denyIndex, build_index, GLOBAL_RULES. cbn [foldl denyActions].
  rewrite foldl_insert_lookup, lookup_empty. unfold is_deny. by case_match.
Qed.

Lemma floorIndex_lookup a : bool_decide (is_Some (floorIndex !! a)) = is_floor a.
Proof.
  unfold floorIndex, build_index, GLOBAL_RULES. cbn [foldl approvalFloorActions].
  rewrite foldl_insert_lookup, lookup_empty. unfold is_floor. by case_match.
Qed.

(** The three upper levels share one ceiling, and assist's is above it. *)
Definition ceiling (l : AutonomyLevel) (a : string) : Z :=
  if str_in a (deniedActions (profileForLevel l)) then 2
  else Z.b2z (str_in a (approvalRequiredActions (profileForLevel l))).

Section SafetyProperties.
Context `{Collation}.

(** The rank of the global restrictions as a table. *)
Lemma globalRestrictions_rank i :
  strongest_restriction (globalRestrictions i) =
    if is_deny (ref_actionId i) then 2
    else Z.b2z (is_floor (ref_actionId i) || ref_targetsProtected i || ref_mergesProtected i).
Proof.
  unfold globalRestrictions. rewrite (strongest_restriction_perm _ _ (js_sort_perm _ _)).
  rewrite <- denyIndex_lookup, <- floorIndex_lookup, !strongest_restriction_app.
  destruct (denyIndex !! _), (floorIndex !! _), (ref_targetsProtected i),
    (ref_mergesProtected i); reflexivity.
Qed.

Lemma autonomyRestrictions_rank l i :
  strongest_restriction (autonomyRestrictions l i) =
    ceiling l (ref_actionId i).
Proof.
  unfold autonomyRestrictions, ceiling. rewrite (strongest_restriction_perm _ _ (js_sort_perm _ _)).
  by repeat case_match.
Qed.

Lemma restrictionsFor_rank l i :
  strongest_restriction (restrictionsFor l i) =
    Z.max (strongest_restriction (globalRestrictions i))
          (strongest_restriction (autonomyRestrictions l i)).
Proof.
  unfold restrictionsFor. rewrite (strongest_restriction_perm _ _ (js_sort_perm _ _)).
  apply strongest_restriction_app.
Qed.

Lemma denied_all_levels a l : is_deny a = true → str_in a (deniedActions (profileForLevel l)) = true.
Proof.
  unfold is_deny. rewrite !str_in_spec. intros Ha. destruct l; try done.
  change (a ∈ dedup (REVERSIBLE_GIT_WRITES ++ APPROVAL_FLOOR_ACTIONS ++
    ["external_notification_send"; "production_deploy"; "billing_resource_create"] ++
    DENY_ALL_LEVELS_ACTIONS)).
  rewrite dedup_elem, !elem_of_app. auto.
Qed.

(** No autonomy level escapes global safety: at every level a globally denied action keeps a
      DENY restriction, and a floored action or one on a protected or default branch keeps at
      least an approval requirement; every restriction reported is non-overridable. *)
Theorem global_safety_floor l i :
  (is_deny (ref_actionId i) = true → strongest_restriction (restrictionsFor l i) = 2) ∧
  (is_floor (ref_actionId i) || ref_targetsProtected i || ref_mergesProtected i = true →
   1 ≤ strongest_restriction (restrictionsFor l i)) ∧
  (∀ r, r ∈ restrictionsFor l i → nonOverridable r = true).
Proof.
  rewrite restrictionsFor_rank, globalRestrictions_rank, autonomyRestrictions_rank.
  split_and!.
  - intros Hd. unfold ceiling. by rewrite Hd, (denied_all_levels _ l Hd).
  - intros Hf. destruct (is_deny _); [lia|].
    rewrite Hf. simpl. lia.
  - apply Forall_forall. unfold restrictionsFor, globalRestrictions, autonomyRestrictions.
    rewrite !js_sort_perm. repeat apply Forall_app_2; repeat case_match; by repeat constructor.
Qed.

Definition level_rank (l : AutonomyLevel) : Z :=
  match l with assist => 0 | developer => 1 | trusted => 2 | autonomous => 3 end.

(** The assist ceiling denies whatever the other levels deny or floor. *)
Lemma assist_denies a :
  str_in a DENY_ALL_LEVELS_ACTIONS ||
  str_in a (APPROVAL_FLOOR_ACTIONS ++ ["external_notification_send"]) = true →
  str_in a (deniedActions (profileForLevel assist)) = true.
Proof.
  rewrite orb_true_iff, !str_in_spec. change (deniedActions (profileForLevel assist)) with
    (dedup (REVERSIBLE_GIT_WRITES ++ APPROVAL_FLOOR_ACTIONS ++
      ["external_notification_send"; "production_deploy"; "billing_resource_create"] ++
      DENY_ALL_LEVELS_ACTIONS)).
  rewrite dedup_elem, !elem_of_app, !elem_of_cons. tauto.
Qed.

Lemma upper_ceiling l a : l ≠ assist → ceiling l a = ceiling developer a.
Proof. by destruct l. Qed.

Lemma assist_ceiling a : ceiling developer a ≤ ceiling assist a.
Proof.
  pose proof (assist_denies a) as Ha. unfold ceiling.
  change (deniedActions (profileForLevel developer)) with DENY_ALL_LEVELS_ACTIONS.
  change (approvalRequiredActions (profileForLevel developer)) with
    (APPROVAL_FLOOR_ACTIONS ++ ["external_notification_send"]).
  destruct (str_in a DENY_ALL_LEVELS_ACTIONS); [by rewrite Ha|].
  destruct (str_in a (APPROVAL_FLOOR_ACTIONS ++ _)); [by rewrite Ha|].
  simpl. by repeat case_match.
Qed.

(** Exactly one behaviour per registered action and level, checked by evaluation. *)
Definition behaviours (l : AutonomyLevel) (a : string) : Z :=
  let p := profileForLevel l in
  Z.b2z (str_in a (automaticActions p)) + Z.b2z (str_in a (approvalRequiredActions p)) +
  Z.b2z (str_in a (deniedActions p)).

Lemma catalog_covered l : forallb (λ d, behaviours l (id d) =? 1) ACTION_DEFINITIONS = true.
Proof. destruct l; vm_compute; reflexivity. Qed.

(** Raising the autonomy level never adds a restriction, and for every registered action each
      level has exactly one behaviour: automatic, approval required or denied. *)
Theorem autonomy_levels_monotone l l' i :
  level_rank l ≤ level_rank l' →
  strongest_restriction (restrictionsFor l' i) ≤ strongest_restriction (restrictionsFor l i) ∧
  ∀ d, d ∈ ACTION_DEFINITIONS → behaviours l (id d) = 1.
Proof.
  intros Hle. split.
  - rewrite !restrictionsFor_rank, !autonomyRestrictions_rank.
    apply Z.max_le_compat_l. destruct (decide (l = l')) as [->|Hne]; [lia|].
    destruct (decide (l' = assist)) as [->|Hl']; [destruct l; simpl in Hle; done || lia|].
    rewrite (upper_ceiling l') by done.
    destruct (decide (l = assist)) as [->|Hl]; [apply assist_ceiling | by rewrite (upper_ceiling l)].
  - intros d Hd. apply Z.eqb_eq.
    exact (proj1 (forallb_true (λ d, behaviours l (id d) =? 1) ACTION_DEFINITIONS)
      (catalog_covered l) d Hd).
Qed.

(** The startup gate is sound for any catalog: when it raises no error, every globally denied
    or floored action is registered, no action is both denied and floored, and every action an
    autonomy profile names is registered. *)
Theorem startup_gate_sound known rules profiles :
  assertIntegrity known rules profiles = None →
  (∀ r a, r ∈ rules → a ∈ denyActions r ++ approvalFloorActions r → a ∈ known) ∧
  (∀ r r' a, r ∈ rules → r' ∈ rules → a ∈ denyActions r → a ∈ approvalFloorActions r' → False) ∧
  (∀ l a, a ∈ automaticActions (profiles l) ++ approvalRequiredActions (profiles l) ++
              deniedActions (profiles l) → a ∈ known).
Proof.
  unfold assertIntegrity. do 3 (case_match; [by repeat case_match|]). intros _.
  assert (Hk : ∀ f r a, r ∈ rules → a ∈ f r → a ∈ index_keys f rules).
  { intros f r a Hr Ha. unfold index_keys. rewrite dedup_elem.
    apply list_elem_of_join. exists (f r). split; [done|]. apply list_elem_of_fmap. eauto. }
  split_and!.
  - intros r a Hr Ha. apply str_in_spec, negb_false_iff.
    eapply (find_none_elem (λ a, negb (str_in a known))); [done|].
    apply elem_of_app in Ha as [Ha|Ha]; rewrite elem_of_app; [left|right]; eauto.
  - intros r r' a Hr Hr' Ha Ha'.
    assert (str_in a (index_keys denyActions rules) = false) as Hf
      by (eapply (find_none_elem (λ a, str_in a (index_keys denyActions rules))); eauto).
    apply str_in_false in Hf. eauto.
  - intros l a Ha. apply str_in_spec, negb_false_iff.
    eapply (find_none_elem (λ '(l, a), negb (str_in a known)) _ (l, a)); [done|].
    apply list_elem_of_join. eexists. split; [apply list_elem_of_fmap_2; exact Ha|].
    apply list_elem_of_fmap. exists l. split; [done|]. destruct l; set_solver.
Qed.
End SafetyProperties.

(** ** Witnesses *)

Definition delete_repository : ClassifiedActionRef :=
  {| ref_actionId := "repository_delete"; ref_targetsProtected := false;
     ref_mergesProtected := false |}.

Lemma autonomy_levels_monotone_witness :
  strongest_restriction (restrictionsFor autonomous delete_repository) ≤
  strongest_restriction (restrictionsFor assist delete_repository).
Proof. apply (autonomy_levels_monotone assist autonomous delete_repository). by vm_compute. Defined.

Lemma startup_gate_sound_witness : "repository_delete" ∈ (id <$> ACTION_DEFINITIONS).
Proof.
  apply (startup_gate_sound (id <$> ACTION_DEFINITIONS) GLOBAL_RULES AUTONOMY_PROFILES)
    with (l := developer); [by vm_compute|].
  apply str_in_spec. by vm_compute.
Defined.
