(* ===== verification/Classify.v ===== *)
(** * Contextual risk classification

    [packages/policy-engine/src/classification/]: the restriction lattice, the context rules and
    the pure classifier that escalates an action's baseline risk. *)

From S2P Require Import Prelude JsString Json Contracts.

(** ** The lattice *)

(* @src packages/policy-engine/src/classification/lattice.ts:21-27 RANK *)
Definition RANK (r : RiskClass) : Z :=
  match r with
  | read => 0 | reversible_write => 1 | sensitive_write => 2
  | destructive => 3 | external_side_effect => 3
  end.

(* @src packages/policy-engine/src/classification/lattice.ts:30-34 joinRisks *)
Definition joinRisks (a b : RiskClass) : RiskClass :=
  if RANK b <? RANK a then a
  else if RANK a <? RANK b then b
  else if decide (a = b) then a else destructive.

(* @src packages/policy-engine/src/classification/lattice.ts:36-38 rankOf *)
Definition rankOf (r : RiskClass) : Z := RANK r.

(* @src packages/policy-engine/src/classification/lattice.ts:41-43 monotonic *)
Definition monotonic (from to : RiskClass) : bool := RANK from <=? RANK to.

(** ** Trusted context *)

Inductive TargetKind :=
  | t_repository | t_branch | t_tag | t_pull_request | t_issue | t_file | t_workflow_run
  | t_deployment.

Inductive Environment := e_sandbox | e_development | e_staging | e_production.

(* @src packages/policy-engine/src/classification/lattice.ts:46-63 targetDescriptor *)
Record targetDescriptor := {
  kind : TargetKind;
  target_id : string;
  ref : option string;
  protected : option bool;
  environment : option Environment;
}.

Inductive FactSource :=
  | github_adapter | policy_service | domain_state | sandbox_runtime
  | untrusted_model | repository_content.

(* @src packages/policy-engine/src/classification/lattice.ts:70-83 provenance *)
Record Provenance := {
  prov_source : FactSource;
  fetchedAt : string;
  version : option string;
}.

Record Fact := { fact_kind : string; fact_value : json; fact_provenance : Provenance }.

Record Operation := {
  targetRef : option string;
  baseSha : option string;
  headSha : option string;
  path : option string;
  paths : option (list string);
  commandFingerprint : option string;
}.

Inductive Actor := a_agent | a_user | a_webhook | a_system.

#[export] Instance TargetKind_eq_dec : EqDecision TargetKind.
Proof. solve_decision. Defined.
#[export] Instance Environment_eq_dec : EqDecision Environment.
Proof. solve_decision. Defined.
#[export] Instance FactSource_eq_dec : EqDecision FactSource.
Proof. solve_decision. Defined.
#[export] Instance Actor_eq_dec : EqDecision Actor.
Proof. solve_decision. Defined.

(* @src packages/policy-engine/src/classification/lattice.ts:85-114 actionContext *)
Record ActionContext := {
  repositoryId : string;
  workflowId : string;
  actor : Actor;
  target : targetDescriptor;
  operation : Operation;
  facts : list Fact;
}.

(* @src packages/policy-engine/src/classification/lattice.ts:119-124 isTrustedFact *)
Definition isTrustedFact (p : Provenance) : bool :=
  match prov_source p with
  | github_adapter | policy_service | domain_state | sandbox_runtime => true
  | untrusted_model | repository_content => false
  end.

(* @src packages/policy-engine/src/classification/lattice.ts:127-130 RiskFactor *)
Record RiskFactor := { factor_ruleId : string; factor_explanation : string }.

Inductive Confidence := DETERMINATE | UNKNOWN.

(** [effectiveRisk] is [None] for ['unknown']. *)
(* @src packages/policy-engine/src/classification/lattice.ts:132-140 Classification *)
Record Classification := {
  class_baselineRisk : RiskClass;
  effectiveRisk : option RiskClass;
  factors : list RiskFactor;
  class_obligations : list string;
  confidence : Confidence;
  classifierVersion : string;
  inputFingerprint : string;
}.

(** ** Rules *)

(* @src packages/policy-engine/src/classification/rules.ts:24-33 ContextRiskRule *)
Record ContextRiskRule := {
  rule_id : string;
  requiresFacts : list string;
  rule_matches : ActionContext → bool;
  escalateTo : RiskClass;
  rule_obligations : list string;
  rule_explanation : string;
}.

(* @src packages/policy-engine/src/classification/rules.ts:36-43 SENSITIVE_PATH_FRAGMENTS *)
Definition SENSITIVE_PATH_FRAGMENTS : list string :=
  [".github/workflows/"; ".circleci/"; "dockerfile"; "terraform/"; ".github/security"; "security/"].

(* @src packages/policy-engine/src/classification/rules.ts:45-47 normalizePath *)
Definition normalizePath (p : string) : string :=
  let slashed := map_chars (λ c, if Ascii.eqb c "\" then "/"%char else c) p in
  toLowerCase (if startsWith slashed "./" then slice_from 2 slashed else slashed).

(* @src packages/policy-engine/src/classification/rules.ts:49-52 looksSensitivePath *)
Definition looksSensitivePath (p : string) : bool :=
  existsb (str_includes (normalizePath p)) SENSITIVE_PATH_FRAGMENTS.

Definition is_default_branch (r : option string) : bool :=
  match r with Some r => (r =s? "main") || (r =s? "master") | None => false end.

Definition operation_paths (o : Operation) : list string :=
  default [] (paths o) ++ (if truthy (path o) then [default "" (path o)] else []).

Definition branch_or_repository (k : TargetKind) : bool :=
  bool_decide (k = t_branch) || bool_decide (k = t_repository).

(** The literal is already in rule-id order, so the load-time [sort] leaves it. *)
(* @src packages/policy-engine/src/classification/rules.ts:55-118 CONTEXT_RISK_RULES *)
Definition CONTEXT_RISK_RULES : list ContextRiskRule :=
  [{| rule_id := "rule-01-protected-branch-write"; requiresFacts := []; rule_obligations := [];
      rule_matches c := default false (protected (target c)) ||
        existsb is_default_branch
          [ref (target c); Some (target_id (target c)); targetRef (operation c)];
      escalateTo := sensitive_write;
      rule_explanation := "target is a protected/default branch" |};
   {| rule_id := "rule-02-sensitive-path"; requiresFacts := []; rule_obligations := [];
      rule_matches c := existsb looksSensitivePath (operation_paths (operation c));
      escalateTo := sensitive_write;
      rule_explanation := "operation touches CI/security/infrastructure configuration paths" |};
   {| rule_id := "rule-03-force-history-rewrite"; requiresFacts := []; rule_obligations := [];
      rule_matches c := (workflowId c =s? "op.history_rewrite") &&
        branch_or_repository (kind (target c));
      escalateTo := destructive;
      rule_explanation := "history rewrite on branch/repository target" |};
   {| rule_id := "rule-04-permanent-deletion"; requiresFacts := []; rule_obligations := [];
      rule_matches c := bool_decide (actor c = a_agent) &&
        bool_decide (kind (target c) = t_repository) && (workflowId c =s? "op.delete");
      escalateTo := destructive;
      rule_explanation := "permanent deletion proposed by agent actor" |};
   {| rule_id := "rule-05-production-environment"; requiresFacts := [];
      rule_matches c := bool_decide (environment (target c) = Some e_production);
      escalateTo := external_side_effect; rule_obligations := ["approval.privileged"];
      rule_explanation := "target environment is production" |};
   {| rule_id := "rule-06-external-network-effect"; requiresFacts := []; rule_obligations := [];
      rule_matches c := startsWith (workflowId c) "ext.";
      escalateTo := external_side_effect;
      rule_explanation := "workflow declared external network side effect" |};
   {| rule_id := "rule-07-breadth-limit"; requiresFacts := []; rule_obligations := [];
      rule_matches c := 50 <? Z.of_nat (length (default [] (paths (operation c))));
      escalateTo := sensitive_write;
      rule_explanation := "change breadth exceeds 50 paths in one operation" |}].

(* @src packages/policy-engine/src/classification/rules.ts:121-121 BASE_OBLIGATIONS *)
Definition BASE_OBLIGATIONS : list string := ["sandbox_only"; "timeout_required"].

(* @src packages/policy-engine/src/classification/rules.ts:123-133 factByName *)
Definition factByName (c : ActionContext) (name : string) : option (json * Provenance) :=
  match List.find (λ f, (fact_kind f =s? name) && isTrustedFact (fact_provenance f)) (facts c) with
  | Some f => Some (fact_value f, fact_provenance f)
  | None => None
  end.

(** ** JSON projections of the fingerprint *)

Definition target_kind_name (k : TargetKind) : string :=
  match k with
  | t_repository => "repository" | t_branch => "branch" | t_tag => "tag"
  | t_pull_request => "pull_request" | t_issue => "issue" | t_file => "file"
  | t_workflow_run => "workflow_run" | t_deployment => "deployment"
  end.

Definition environment_name (e : Environment) : string :=
  match e with
  | e_sandbox => "sandbox" | e_development => "development"
  | e_staging => "staging" | e_production => "production"
  end.

Definition source_name (s : FactSource) : string :=
  match s with
  | github_adapter => "github_adapter" | policy_service => "policy_service"
  | domain_state => "domain_state" | sandbox_runtime => "sandbox_runtime"
  | untrusted_model => "untrusted_model" | repository_content => "repository_content"
  end.

Definition actor_name (a : Actor) : string :=
  match a with
  | a_agent => "agent" | a_user => "user" | a_webhook => "webhook" | a_system => "system"
  end.

(** An optional member: left out when undefined. *)
Definition member {A} (k : string) (f : A → json) (o : option A) : list (string * json) :=
  match o with Some a => [(k, f a)] | None => [] end.

Definition target_json (t : targetDescriptor) : json :=
  JObj ([("kind", JStr (target_kind_name (kind t))); ("id", JStr (target_id t))] ++
        member "ref" JStr (ref t) ++ member "protected" JBool (protected t) ++
        member "environment" (λ e, JStr (environment_name e)) (environment t)).

Definition operation_json (o : Operation) : json :=
  JObj (member "targetRef" JStr (targetRef o) ++ member "baseSha" JStr (baseSha o) ++
        member "headSha" JStr (headSha o) ++ member "path" JStr (path o) ++
        member "paths" (λ l, JArr (JStr <$> l)) (paths o) ++
        member "commandFingerprint" JStr (commandFingerprint o)).

Definition fact_json (f : Fact) : json :=
  JArr [JStr (fact_kind f); fact_value f; JStr (source_name (prov_source (fact_provenance f)));
        JOpt JStr (version (fact_provenance f))].

Section Classifier.
Context `{Collation} `{Digest}.

Definition fact_order : json → json → Z := cmp_by stringify localeCompare.

(* @src packages/policy-engine/src/classification/rules.ts:150-164 classify *)
Definition context_fingerprint (baseline : RiskClass) (c : ActionContext) : string :=
  sha256 (stringify (JArr [
    JStr (risk_name baseline); JStr (repositoryId c); JStr (workflowId c);
    JStr (actor_name (actor c)); target_json (target c); operation_json (operation c);
    JArr (js_sort fact_order (fact_json <$> facts c))])).

(** The loop over the sorted rules. *)
(* @src packages/policy-engine/src/classification/rules.ts:166-187 classify *)
Fixpoint classify_loop (fp : string) (baseline : RiskClass) (c : ActionContext)
    (rules : list ContextRiskRule) (effective : RiskClass) (fs : list RiskFactor)
    (obligations : list string) : Classification :=
  match rules with
  | [] => {| class_baselineRisk := baseline; effectiveRisk := Some effective; factors := fs;
             class_obligations := js_sort code_unit_compare obligations;
             confidence := DETERMINATE; classifierVersion := "classifier@1";
             inputFingerprint := fp |}
  | r :: rules =>
      if negb (rule_matches r c) then classify_loop fp baseline c rules effective fs obligations
      else if existsb (λ q, bool_decide (factByName c q = None)) (requiresFacts r) then
        {| class_baselineRisk := baseline; effectiveRisk := None; factors := fs;
           class_obligations := obligations; confidence := UNKNOWN;
           classifierVersion := "classifier@1"; inputFingerprint := fp |}
      else classify_loop fp baseline c rules (joinRisks effective (escalateTo r))
             (fs ++ [{| factor_ruleId := rule_id r; factor_explanation := rule_explanation r |}])
             (dedup (obligations ++ rule_obligations r))
  end.

Definition rule_id_order : ContextRiskRule → ContextRiskRule → Z := cmp_by rule_id localeCompare.

(* @src packages/policy-engine/src/classification/rules.ts:140-198 classify *)
Definition classify (baseline : RiskClass) (c : ActionContext) (rules : list ContextRiskRule)
  : Classification :=
  classify_loop (context_fingerprint baseline c) baseline c (js_sort rule_id_order rules)
    baseline [] BASE_OBLIGATIONS.
End Classifier.

Record Comparison := { changed : bool; escalated : bool; staleApproval : bool }.

(** The rank of the comparison: ['unknown'] is [Number.MAX_SAFE_INTEGER]. *)
Definition compare_rank (r : option RiskClass) : Z :=
  match r with Some r => RANK r | None => 9007199254740991 end.

(* @src packages/policy-engine/src/classification/rules.ts:201-220 compareClassifications *)
Definition compareClassifications (prevRisk : option RiskClass) (prevFingerprint : string)
    (current : Classification) : Comparison :=
  let esc := bool_decide (effectiveRisk current = None) ||
             (compare_rank prevRisk <? compare_rank (effectiveRisk current)) in
  {| changed := negb (prevFingerprint =s? inputFingerprint current);
     escalated := esc; staleApproval := esc |}.

(** ** Properties *)

(** [joinRisks] is the join of a chain: ties between the two terminal classes go to
    [destructive]. *)
Definition chain_rank (r : RiskClass) : Z :=
  match r with
  | read => 0 | reversible_write => 1 | sensitive_write => 2
  | external_side_effect => 3 | destructive => 4
  end.

Lemma joinRisks_max a b : chain_rank (joinRisks a b) = Z.max (chain_rank a) (chain_rank b).
Proof. by destruct a, b. Qed.

Lemma chain_rank_inj a b : chain_rank a = chain_rank b → a = b.
Proof. by destruct a, b. Qed.

Lemma chain_rank_RANK a b : chain_rank a ≤ chain_rank b → RANK a ≤ RANK b.
Proof. by destruct a, b. Qed.

Definition unverified (c : ActionContext) (r : ContextRiskRule) : bool :=
  rule_matches r c && existsb (λ q, bool_decide (factByName c q = None)) (requiresFacts r).

Definition matching (c : ActionContext) (rules : list ContextRiskRule) : list RiskClass :=
  escalateTo <$> List.filter (λ r, rule_matches r c) rules.

Section ClassifyProperties.
Context `{Collation} `{Digest}.

Lemma classify_loop_risk fp b c rules e fs ob :
  effectiveRisk (classify_loop fp b c rules e fs ob) =
    if existsb (unverified c) rules then None else Some (foldl joinRisks e (matching c rules)).
Proof.
  revert e fs ob. induction rules as [|r rules IH]; intros e fs ob; simpl; [done|].
  unfold unverified at 1, matching. simpl.
  destruct (rule_matches r c); simpl; [|apply IH].
  destruct (existsb _ (requiresFacts r)); simpl; [done | apply IH].
Qed.

Lemma classify_loop_confidence fp b c rules e fs ob :
  confidence (classify_loop fp b c rules e fs ob) = UNKNOWN ↔
  effectiveRisk (classify_loop fp b c rules e fs ob) = None.
Proof.
  revert e fs ob. induction rules as [|r rules IH]; intros e fs ob; simpl; [done|].
  repeat case_match; first [apply IH | done].
Qed.

Lemma foldl_join_rank e l :
  chain_rank (foldl joinRisks e l) = foldr (λ x m, Z.max (chain_rank x) m) (chain_rank e) l.
Proof.
  revert e. induction l as [|x l IH]; intros e; simpl; [done|]. rewrite IH, joinRisks_max.
  clear IH. induction l as [|y l IH]; simpl; [lia|]. simpl in IH. lia.
Qed.

Lemma foldl_join_perm e l l' : l ≡ₚ l' → foldl joinRisks e l = foldl joinRisks e l'.
Proof.
  intros Hp. apply chain_rank_inj. rewrite !foldl_join_rank.
  induction Hp; simpl in *; lia.
Qed.

Lemma classify_risk b c rules :
  effectiveRisk (classify b c rules) =
    if existsb (unverified c) rules then None else Some (foldl joinRisks b (matching c rules)).
Proof.
  unfold classify. rewrite classify_loop_risk.
  pose proof (js_sort_perm rule_id_order rules) as Hp.
  rewrite (existsb_perm _ _ _ Hp). case_match; [done|]. f_equal. apply foldl_join_perm.
  unfold matching. by rewrite (bfilter_perm _ _ _ Hp).
Qed.

(** The classifier computes exactly the join of the baseline risk with the escalations of the
    rules that match, whatever order the rules were registered in, and it is unknown exactly
    when some matching rule lacks a trusted fact it requires; hence a determinate result never
    ranks below the baseline nor below any matching rule's escalation. *)
Theorem classify_is_join b c rules rules' :
  effectiveRisk (classify b c rules) =
    (if existsb (unverified c) rules then None else Some (foldl joinRisks b (matching c rules))) ∧
  (rules ≡ₚ rules' → effectiveRisk (classify b c rules) = effectiveRisk (classify b c rules')) ∧
  (∀ r, effectiveRisk (classify b c rules) = Some r →
     RANK b ≤ RANK r ∧ ∀ x, x ∈ rules → rule_matches x c = true → RANK (escalateTo x) ≤ RANK r) ∧
  (confidence (classify b c rules) = UNKNOWN ↔ existsb (unverified c) rules = true).
Proof.
  split_and!.
  - apply classify_risk.
  - intros Hp. rewrite !classify_risk, (existsb_perm _ _ _ Hp). case_match; [done|].
    f_equal. apply foldl_join_perm. unfold matching. by rewrite (bfilter_perm _ _ _ Hp).
  - intros r. rewrite classify_risk. case_match; [done|]. intros [= <-].
    assert (Hge : ∀ e l x, x = e ∨ x ∈ l → RANK x ≤ RANK (foldl joinRisks e l)).
    { intros e l x Hx. apply chain_rank_RANK. rewrite foldl_join_rank.
      induction l as [|y l IH]; simpl.
      { destruct Hx as [->|Hx]; [lia|by apply elem_of_nil in Hx]. }
      destruct Hx as [->|[->|Hx]%elem_of_cons]; simpl in IH; [|lia|].
      - specialize (IH (or_introl eq_refl)). lia.
      - specialize (IH (or_intror Hx)). lia. }
    split; [apply Hge; auto|]. intros x Hx Hm. apply Hge. right.
    unfold matching. apply list_elem_of_fmap. exists x. by rewrite bfilter_elem.
  - unfold classify at 1. rewrite classify_loop_confidence. fold (classify b c rules).
    rewrite classify_risk. by case_match.
Qed.

(** The context without its untrusted facts. *)
Definition trusted_only (c : ActionContext) : ActionContext :=
  {| repositoryId := repositoryId c; workflowId := workflowId c; actor := actor c;
     target := target c; operation := operation c;
     facts := List.filter (λ f, isTrustedFact (fact_provenance f)) (facts c) |}.

Lemma factByName_trusted c q : factByName (trusted_only c) q = factByName c q.
Proof.
  unfold factByName, trusted_only; simpl. induction (facts c) as [|f fs IH]; simpl; [done|].
  destruct (isTrustedFact (fact_provenance f)) eqn:E; simpl; rewrite ?E.
  - by destruct (fact_kind f =s? q).
  - by destruct (fact_kind f =s? q).
Qed.

(** Facts from the model or from repository content never lower risk: dropping every untrusted
    fact leaves the deployed rules' classification, confidence, factors and obligations
    unchanged. *)
Theorem untrusted_facts_never_matter b c :
  let k := classify b c CONTEXT_RISK_RULES in
  let k' := classify b (trusted_only c) CONTEXT_RISK_RULES in
  effectiveRisk k = effectiveRisk k' ∧ confidence k = confidence k' ∧
  factors k = factors k' ∧ class_obligations k = class_obligations k'.
Proof.
  assert (Hl : ∀ fp fp' rules e fs ob,
    (∀ r, r ∈ rules → rule_matches r (trusted_only c) = rule_matches r c) →
    let k := classify_loop fp b c rules e fs ob in
    let k' := classify_loop fp' b (trusted_only c) rules e fs ob in
    effectiveRisk k = effectiveRisk k' ∧ confidence k = confidence k' ∧
    factors k = factors k' ∧ class_obligations k = class_obligations k').
  { intros fp fp' rules. induction rules as [|r rules IH]; intros e fs ob Hm; simpl; [done|].
    rewrite (Hm r) by left. destruct (rule_matches r c); simpl.
    - rewrite (existsb_ext' (λ q, bool_decide (factByName (trusted_only c) q = None)) (λ q, bool_decide (factByName c q = None)))
        by (intros q; apply bool_decide_ext; by rewrite factByName_trusted).
      case_match; [done|]. apply IH. intros x Hx. apply Hm. by right.
    - apply IH. intros x Hx. apply Hm. by right. }
  apply Hl. intros r. rewrite js_sort_elem. unfold CONTEXT_RISK_RULES. intros Hr.
  in_cases Hr; by rewrite Hr.
Qed.
End ClassifyProperties.
