(* ===== verification/Gates.v ===== *)
(** * Validation gates

    [packages/policy-engine/src/validation-gates/]: the obligation merge algebra, the evaluation
    of evidence against the merged obligations, and the staleness check of an outcome.  Times
    are integer milliseconds, ages integer seconds. *)

From S2P Require Import Prelude JsString Json.

(** ** Schemas *)

(* @src packages/policy-engine/src/validation-gates/schemas.ts:11-20 GATE_KINDS *)
Inductive GateKind :=
  PR_CREATE | PR_UPDATE | APPROVAL_REQUEST | PRIVILEGED_EXECUTION | MERGE | WORKFLOW_COMPLETE.

(* @src packages/policy-engine/src/validation-gates/schemas.ts:35-36 EVIDENCE_STATUSES *)
Inductive EvidenceStatus := PASSED | FAILED | SKIPPED | CANCELLED | TIMED_OUT.

Inductive ObligationScope := WORKFLOW | CHANGESET | TARGET_ACTION.

#[export] Instance GateKind_eq_dec : EqDecision GateKind.
Proof. solve_decision. Defined.
#[export] Instance EvidenceStatus_eq_dec : EqDecision EvidenceStatus.
Proof. solve_decision. Defined.
#[export] Instance ObligationScope_eq_dec : EqDecision ObligationScope.
Proof. solve_decision. Defined.

(* @src packages/policy-engine/src/validation-gates/schemas.ts:39-47 ValidationObligation *)
Record ValidationObligation := {
  validatorId : string;
  sourceRuleId : string;
  scope : ObligationScope;
  applicableGates : list GateKind;
  maxAgeSeconds : Z;
  requireTargetFingerprint : bool;
}.

(** [provenance] stays a string: the gate itself checks it. *)
(* @src packages/policy-engine/src/validation-gates/schemas.ts:49-63 validationEvidence *)
Record ValidationEvidence := {
  ev_validatorId : string;
  ev_status : EvidenceStatus;
  ev_targetFingerprint : string;
  producedAtMs : Z;
  ev_provenance : string;
  providerVersion : string;
  resultKey : string;
}.

Definition obligation (v src : string) (s : ObligationScope) (gates : list GateKind) (age : Z)
    (fp : bool) : ValidationObligation :=
  {| validatorId := v; sourceRuleId := src; scope := s; applicableGates := gates;
     maxAgeSeconds := age; requireTargetFingerprint := fp |}.

(* @src packages/policy-engine/src/validation-gates/schemas.ts:66-141 DEFAULT_OBLIGATIONS *)
Definition DEFAULT_OBLIGATIONS : list ValidationObligation :=
  [obligation "unit_tests" "global-gate-changeset-defaults" CHANGESET
     [PR_CREATE; PR_UPDATE; APPROVAL_REQUEST; PRIVILEGED_EXECUTION; MERGE] (24 * 3600) true;
   obligation "typecheck" "global-gate-changeset-defaults" CHANGESET
     [PR_CREATE; PR_UPDATE; APPROVAL_REQUEST; PRIVILEGED_EXECUTION; MERGE] (24 * 3600) true;
   obligation "lint" "global-gate-changeset-defaults" CHANGESET
     [PR_CREATE; PR_UPDATE] (7 * 24 * 3600) true;
   obligation "build" "global-gate-changeset-defaults" CHANGESET
     [PR_CREATE; PR_UPDATE; MERGE] (24 * 3600) true;
   obligation "security_scan" "global-gate-changeset-defaults" CHANGESET
     [PR_CREATE; PR_UPDATE; APPROVAL_REQUEST; PRIVILEGED_EXECUTION; MERGE] (24 * 3600) true;
   obligation "dependency_check" "global-gate-merge-floor" WORKFLOW
     [MERGE] (12 * 3600) false;
   obligation "review_provenance" "global-gate-merge-floor" TARGET_ACTION
     [MERGE] (30 * 24 * 3600) true].

(** ** The merge algebra *)

Definition merge_scope (a b : ObligationScope) : ObligationScope :=
  if decide (a = TARGET_ACTION ∨ b = TARGET_ACTION) then TARGET_ACTION
  else if decide (a = CHANGESET ∨ b = CHANGESET) then CHANGESET else WORKFLOW.

(* @src packages/policy-engine/src/validation-gates/schemas.ts:160-174 mergeObligations *)
Definition merge_obligation (existing o : ValidationObligation) : ValidationObligation :=
  {| validatorId := validatorId existing;
     sourceRuleId := sourceRuleId existing +s "+" +s sourceRuleId o;
     maxAgeSeconds := Z.min (maxAgeSeconds existing) (maxAgeSeconds o);
     requireTargetFingerprint := requireTargetFingerprint existing || requireTargetFingerprint o;
     applicableGates := dedup (applicableGates existing ++ applicableGates o);
     scope := merge_scope (scope existing) (scope o) |}.

(** The [Map] by validator id, in insertion order; each entry's key is its validator id. *)
(* @src packages/policy-engine/src/validation-gates/schemas.ts:152-175 mergeObligations *)
Fixpoint merge_into (m : list ValidationObligation) (o : ValidationObligation)
  : list ValidationObligation :=
  match m with
  | [] => [o]
  | x :: m => if validatorId x =s? validatorId o then merge_obligation x o :: m
              else x :: merge_into m o
  end.

(* @src packages/policy-engine/src/validation-gates/gates.ts:18-27 GateContext *)
Record GateContext := {
  gateKind : GateKind;
  policySnapshotId : string;
  currentPolicyVersionId : string;
  validatorRegistryVersion : string;
  targetFingerprint : string;
  repositoryId : string;
  extraObligations : option (list ValidationObligation);
}.

Inductive Verdict :=
  | OfStatus (s : EvidenceStatus)
  | MISSING | STALE_AGE | WRONG_TARGET | UNKNOWN_PROVENANCE.

#[export] Instance Verdict_eq_dec : EqDecision Verdict.
Proof. solve_decision. Defined.

(* @src packages/policy-engine/src/validation-gates/gates.ts:30-45 ObligationAssessment *)
Record ObligationAssessment := {
  as_validatorId : string;
  as_sourceRuleId : string;
  verdict : Verdict;
  explanation : string;
  selectedEvidenceResultKey : option string;
}.

Inductive GateStatus := SATISFIED | BLOCKED | UNKNOWN.

#[export] Instance GateStatus_eq_dec : EqDecision GateStatus.
Proof. solve_decision. Defined.

(* @src packages/policy-engine/src/validation-gates/gates.ts:47-56 GateOutcome *)
Record GateOutcome := {
  status : GateStatus;
  assessments : list ObligationAssessment;
  out_targetFingerprint : string;
  evaluatedAtMs : Z;
  out_policySnapshotId : string;
  out_currentPolicyVersionId : string;
  out_validatorRegistryVersion : string;
  outcomeHash : string;
}.

(* @src packages/policy-engine/src/validation-gates/gates.ts:58-58 TRUSTED_PROVENANCE *)
Definition TRUSTED_PROVENANCE : list string :=
  ["github_checks"; "sandbox_validator"; "devguard_service"].

Definition status_name (s : EvidenceStatus) : string :=
  match s with
  | PASSED => "PASSED" | FAILED => "FAILED" | SKIPPED => "SKIPPED"
  | CANCELLED => "CANCELLED" | TIMED_OUT => "TIMED_OUT"
  end.

Definition verdict_name (v : Verdict) : string :=
  match v with
  | OfStatus s => status_name s
  | MISSING => "MISSING" | STALE_AGE => "STALE_AGE" | WRONG_TARGET => "WRONG_TARGET"
  | UNKNOWN_PROVENANCE => "UNKNOWN_PROVENANCE"
  end.

Definition gate_name (g : GateKind) : string :=
  match g with
  | PR_CREATE => "PR_CREATE" | PR_UPDATE => "PR_UPDATE" | APPROVAL_REQUEST => "APPROVAL_REQUEST"
  | PRIVILEGED_EXECUTION => "PRIVILEGED_EXECUTION" | MERGE => "MERGE"
  | WORKFLOW_COMPLETE => "WORKFLOW_COMPLETE"
  end.

(** [Math.floor((nowMs - producedAtMs) / 1000)]. *)
Definition age_seconds (now : Z) (e : ValidationEvidence) : Z := (now - producedAtMs e) / 1000.

Section Gates.
Context `{Collation} `{Digest}.

(* @src packages/policy-engine/src/validation-gates/schemas.ts:147-178 mergeObligations *)
Definition mergeObligations (groups : list (list ValidationObligation))
  : list ValidationObligation :=
  js_sort (cmp_by validatorId localeCompare)
    (foldl (λ m group, foldl merge_into m group) [] groups).

Definition applicable (g : GateKind) (l : list ValidationObligation) : list ValidationObligation :=
  List.filter (λ o, includes (applicableGates o) g) l.

(* @src packages/policy-engine/src/validation-gates/gates.ts:65-74 ValidationGateService.resolveObligations *)
Definition resolveObligations (globals : list ValidationObligation) (c : GateContext)
  : list ValidationObligation :=
  mergeObligations [applicable (gateKind c) globals;
                    applicable (gateKind c) (default [] (extraObligations c))].

Definition evidence_order : ValidationEvidence → ValidationEvidence → Z :=
  cmp_then (λ a b, producedAtMs b - producedAtMs a) (cmp_by resultKey localeCompare).

(* @src packages/policy-engine/src/validation-gates/gates.ts:131-135 ValidationGateService.#assess *)
Definition candidates_of (o : ValidationObligation) (evidence : list ValidationEvidence)
  : list ValidationEvidence :=
  js_sort evidence_order (List.filter (λ e, ev_validatorId e =s? validatorId o) evidence).

(* @src packages/policy-engine/src/validation-gates/gates.ts:147-205 ValidationGateService.#assess *)
Fixpoint assess_loop (c : GateContext) (o : ValidationObligation) (now : Z) (total : nat)
    (candidates : list ValidationEvidence) : ObligationAssessment :=
  let result v why key :=
    {| as_validatorId := validatorId o; as_sourceRuleId := sourceRuleId o; verdict := v;
       explanation := why; selectedEvidenceResultKey := key |} in
  match candidates with
  | [] =>
      result WRONG_TARGET
        (num_to_string (Z.of_nat total) +s " result(s) exist but none bind to target fingerprint "
          +s slice_to 12 (targetFingerprint c) +s "…") None
  | e :: rest =>
      if negb (str_in (ev_provenance e) TRUSTED_PROVENANCE) then
        result UNKNOWN_PROVENANCE
          ("evidence '" +s resultKey e +s "' carries untrusted provenance '" +s
            ev_provenance e +s "'") None
      else if requireTargetFingerprint o &&
              negb (ev_targetFingerprint e =s? targetFingerprint c) then
        assess_loop c o now total rest
      else if now <? producedAtMs e then
        result STALE_AGE ("evidence " +s resultKey e +s " was produced in the future")
          (Some (resultKey e))
      else if maxAgeSeconds o <=? age_seconds now e then
        result STALE_AGE
          ("newest exact-target result " +s resultKey e +s " is " +s
            num_to_string (age_seconds now e) +s "s old (max " +s
            num_to_string (maxAgeSeconds o) +s "s); at/over max is stale")
          (Some (resultKey e))
      else if decide (ev_status e = PASSED) then
        result (OfStatus PASSED) ("exact-target passed evidence " +s resultKey e)
          (Some (resultKey e))
      else
        result (OfStatus (ev_status e))
          ("required evidence " +s resultKey e +s " was " +s status_name (ev_status e) +s
            "; only PASSED satisfies required obligations")
          (Some (resultKey e))
  end.

(* @src packages/policy-engine/src/validation-gates/gates.ts:125-206 ValidationGateService.#assess *)
Definition assess (c : GateContext) (o : ValidationObligation)
    (evidence : list ValidationEvidence) (now : Z) : ObligationAssessment :=
  match candidates_of o evidence with
  | [] => {| as_validatorId := validatorId o; as_sourceRuleId := sourceRuleId o;
             verdict := MISSING;
             explanation := "no evidence for required validator '" +s validatorId o +s "'";
             selectedEvidenceResultKey := None |}
  | candidates => assess_loop c o now (length candidates) candidates
  end.

(* @src packages/policy-engine/src/validation-gates/gates.ts:104-121 ValidationGateService.evaluate *)
Definition outcome_json (c : GateContext) (l : list ObligationAssessment) (now : Z) : json :=
  JArr [JStr (gate_name (gateKind c)); JStr (policySnapshotId c);
        JStr (currentPolicyVersionId c); JStr (validatorRegistryVersion c);
        JStr (targetFingerprint c);
        JArr ((λ a, JArr [JStr (as_validatorId a); JStr (as_sourceRuleId a);
                          JStr (verdict_name (verdict a));
                          JOpt JStr (selectedEvidenceResultKey a)]) <$> l);
        JNum now].

(* @src packages/policy-engine/src/validation-gates/gates.ts:76-123 ValidationGateService.evaluate *)
Definition evaluate (globals : list ValidationObligation) (c : GateContext)
    (evidence : list ValidationEvidence) (now : Z) : GateOutcome :=
  let l := (λ o, assess c o evidence now) <$> resolveObligations globals c in
  let unknown := existsb (λ a, bool_decide (verdict a = UNKNOWN_PROVENANCE)) l in
  let blocked := existsb (λ a, negb (bool_decide (verdict a = OfStatus PASSED))) l in
  {| status := if unknown then UNKNOWN else if blocked then BLOCKED else SATISFIED;
     assessments := l; out_targetFingerprint := targetFingerprint c; evaluatedAtMs := now;
     out_policySnapshotId := policySnapshotId c;
     out_currentPolicyVersionId := currentPolicyVersionId c;
     out_validatorRegistryVersion := validatorRegistryVersion c;
     outcomeHash := sha256 (stringify (outcome_json c l now)) |}.

Definition cause (b : bool) (why : string) : list string := if b then [why] else [].

(* @src packages/policy-engine/src/validation-gates/gates.ts:213-231 ValidationGateService.isStale *)
Definition isStale (globals : list ValidationObligation) (out : GateOutcome)
    (current : GateContext) (evidence : list ValidationEvidence) (now : Z)
  : bool * list string :=
  let expectedNow := evaluate globals current evidence now in
  let causes :=
    cause (negb (out_targetFingerprint out =s? targetFingerprint current)) "target changed" ++
    cause (negb (out_currentPolicyVersionId out =s? currentPolicyVersionId current))
      "policy changed" ++
    cause (negb (out_validatorRegistryVersion out =s? validatorRegistryVersion current))
      "validator registry changed" ++
    cause (negb (outcomeHash expectedNow =s? outcomeHash out)) "evaluation inputs changed" in
  (bool_decide (causes ≠ []), causes).
End Gates.

(** ** Properties of the merge *)

Definition scope_rank (s : ObligationScope) : Z :=
  match s with WORKFLOW => 0 | CHANGESET => 1 | TARGET_ACTION => 2 end.

(** [m] demands at least what [o] demands. *)
Record tighter (m o : ValidationObligation) : Prop := {
  tight_id : validatorId m = validatorId o;
  tight_age : maxAgeSeconds m ≤ maxAgeSeconds o;
  tight_target : requireTargetFingerprint o = true → requireTargetFingerprint m = true;
  tight_gates : applicableGates o ⊆ applicableGates m;
  tight_scope : scope_rank (scope o) ≤ scope_rank (scope m);
}.

(** Every constraint of [m] comes from one of the obligations [l] on its validator. *)
Record attained (m : ValidationObligation) (l : list ValidationObligation) : Prop := {
  att_age : ∃ o, o ∈ l ∧ validatorId o = validatorId m ∧ maxAgeSeconds o = maxAgeSeconds m;
  att_target : requireTargetFingerprint m = true →
    ∃ o, o ∈ l ∧ validatorId o = validatorId m ∧ requireTargetFingerprint o = true;
  att_gates g : g ∈ applicableGates m →
    ∃ o, o ∈ l ∧ validatorId o = validatorId m ∧ g ∈ applicableGates o;
}.

Record strongest_merge (m l : list ValidationObligation) : Prop := {
  sm_nodup : NoDup (validatorId <$> m);
  sm_covers o : o ∈ l → ∃ x, x ∈ m ∧ tighter x o;
  sm_attained x : x ∈ m → attained x l;
}.

#[export] Instance tighter_refl : Reflexive tighter.
Proof. intros o. by split. Qed.

#[export] Instance tighter_trans : Transitive tighter.
Proof. intros a b c [] []. split; [congruence|lia|auto|set_solver|lia]. Qed.

Lemma merge_scope_rank a b :
  scope_rank (merge_scope a b) = Z.max (scope_rank a) (scope_rank b).
Proof. by destruct a, b. Qed.

Lemma merge_obligation_tighter x o :
  validatorId x = validatorId o →
  tighter (merge_obligation x o) x ∧ tighter (merge_obligation x o) o.
Proof.
  intros Hv. split; split; simpl; rewrite ?merge_scope_rank; try (done || lia).
  - by intros ->.
  - intros g. rewrite dedup_elem. set_solver.
  - intros ->. by rewrite orb_true_r.
  - intros g. rewrite dedup_elem. set_solver.
Qed.

Lemma attained_mono x l l' : l ⊆ l' → attained x l → attained x l'.
Proof.
  intros Hl [(o & ? & ?) Ht Hg]. split.
  - exists o. eauto.
  - intros Hq. destruct (Ht Hq) as (o' & ? & ?). eauto.
  - intros g Hq. destruct (Hg g Hq) as (o' & ? & ?). eauto.
Qed.

Lemma attained_self o l : o ∈ l → attained o l.
Proof. intros Hl. split; eauto. Qed.

Lemma merge_obligation_attained x o l :
  validatorId x = validatorId o → attained x l → attained (merge_obligation x o) (l ++ [o]).
Proof.
  intros Hv [(y & Hy & Hyv & Hya) Ht Hg]. split; simpl.
  - destruct (Z.min_spec (maxAgeSeconds x) (maxAgeSeconds o)) as [[_ ->]|[_ ->]].
    + exists y. set_solver.
    + exists o. set_solver.
  - intros [Hq|Hq]%orb_true_iff.
    + destruct (Ht Hq) as (y' & ? & ?). exists y'. set_solver.
    + exists o. set_solver.
  - intros g. rewrite dedup_elem. intros [Hq|Hq]%elem_of_app.
    + destruct (Hg g Hq) as (y' & ? & ?). exists y'. set_solver.
    + exists o. set_solver.
Qed.

Lemma merge_into_ids m o :
  validatorId <$> merge_into m o =
    if decide (validatorId o ∈ validatorId <$> m) then validatorId <$> m
    else (validatorId <$> m) ++ [validatorId o].
Proof.
  induction m as [|x m IH]; [done|]. cbn [merge_into].
  destruct (validatorId x =s? validatorId o) eqn:E; breflect; rewrite ?fmap_cons.
  - rewrite decide_True; [done|]. rewrite E. left.
  - rewrite IH. destruct (decide (validatorId o ∈ validatorId <$> m)).
    + rewrite decide_True; [done|]. by right.
    + rewrite decide_False; [done|]. intros [Hx|Hx]%elem_of_cons; [by rewrite Hx in E | done].
Qed.

Lemma merge_into_nodup m o :
  NoDup (validatorId <$> m) → NoDup (validatorId <$> merge_into m o).
Proof.
  rewrite merge_into_ids. intros Hm. case_decide as Hd; [done|].
  apply NoDup_app. split_and!; [done| |apply NoDup_singleton].
  intros v Hv ->%list_elem_of_singleton. done.
Qed.

Lemma merge_into_elem m o x :
  x ∈ merge_into m o →
  x ∈ m ∨ x = o ∨ ∃ y, y ∈ m ∧ validatorId y = validatorId o ∧ x = merge_obligation y o.
Proof.
  induction m as [|y m IH]; simpl.
  - intros ->%list_elem_of_singleton. auto.
  - case_match eqn:E; breflect; intros [->|Hx]%elem_of_cons.
    + right. right. exists y. split; [left|done].
    + left. by right.
    + left. left.
    + destruct (IH Hx) as [?|[?|(z & ? & ?)]]; [left; by right|auto|].
      right. right. exists z. split; [by right|done].
Qed.

Lemma merge_into_keeps m o y :
  y ∈ m → ∃ x, x ∈ merge_into m o ∧ tighter x y.
Proof.
  induction m as [|z m IH]; [by intros ?%elem_of_nil|]. simpl.
  case_match eqn:E; breflect; intros [->|Hy]%elem_of_cons.
  - eexists. split; [left|]. by apply merge_obligation_tighter.
  - exists y. split; [by right|done].
  - exists z. split; [left|done].
  - destruct (IH Hy) as (x & ? & ?). exists x. split; [by right|done].
Qed.

Lemma merge_into_covers m o : ∃ x, x ∈ merge_into m o ∧ tighter x o.
Proof.
  induction m as [|z m IH]; simpl.
  - exists o. split; [left|done].
  - case_match eqn:E; breflect.
    + eexists. split; [left|]. by apply merge_obligation_tighter.
    + destruct IH as (x & ? & ?). exists x. split; [by right|done].
Qed.

Lemma merge_into_strongest m l o :
  strongest_merge m l → strongest_merge (merge_into m o) (l ++ [o]).
Proof.
  intros [Hn Hc Ha]. split.
  - by apply merge_into_nodup.
  - intros y [Hy| ->%list_elem_of_singleton]%elem_of_app; [|apply merge_into_covers].
    destruct (Hc y Hy) as (x & Hx & Hxy). destruct (merge_into_keeps m o x Hx) as (z & ? & ?).
    exists z. split; [done|]. by etrans.
  - intros x [Hx|[->|(y & Hy & Hv & ->)]]%merge_into_elem.
    + eapply attained_mono; [|by apply Ha]. set_solver.
    + apply attained_self. set_solver.
    + apply merge_obligation_attained; auto.
Qed.

Lemma foldl_merge_strongest l m l0 :
  strongest_merge m l0 → strongest_merge (foldl merge_into m l) (l0 ++ l).
Proof.
  revert m l0. induction l as [|o l IH]; intros m l0 Hm; simpl; [by rewrite app_nil_r|].
  replace (l0 ++ o :: l) with ((l0 ++ [o]) ++ l) by (by rewrite <- app_assoc).
  by apply IH, merge_into_strongest.
Qed.

Lemma foldl_groups {A B} (f : A → B → A) m (groups : list (list B)) :
  foldl (λ m g, foldl f m g) m groups = foldl f m (mjoin groups).
Proof.
  revert m. induction groups as [|g groups IH]; intros m; simpl; [done|].
  by rewrite foldl_app, IH.
Qed.

Lemma strongest_merge_perm m m' l : m ≡ₚ m' → strongest_merge m l → strongest_merge m' l.
Proof.
  intros Hp [Hn Hc Ha]. split.
  - by rewrite <- Hp.
  - intros o Ho. destruct (Hc o Ho) as (x & ? & ?). exists x. by rewrite <- Hp.
  - intros x. rewrite <- Hp. apply Ha.
Qed.

Section GateProperties.
Context `{Collation} `{Digest}.

Lemma mergeObligations_strongest groups :
  strongest_merge (mergeObligations groups) (mjoin groups).
Proof.
  unfold mergeObligations. rewrite foldl_groups.
  eapply strongest_merge_perm; [symmetry; apply js_sort_perm|].
  apply (foldl_merge_strongest (mjoin groups) [] []). split; [constructor| |]; intros ? Hx; by apply elem_of_nil in Hx.
Qed.

(** The merge of obligation groups holds one obligation per validator, ordered by validator
    id; it is at least as tight as every obligation merged into it (age, target binding, gates,
    scope), and no tighter than they are together: its age bound, its target requirement and
    each of its gates come from one of them. *)
Theorem merge_is_strongest_constraint groups :
  let m := mergeObligations groups in
  StronglySorted (λ a b, localeCompare (validatorId a) (validatorId b) ≤ 0) m ∧
  NoDup (validatorId <$> m) ∧
  (∀ o, o ∈ mjoin groups → ∃ x, x ∈ m ∧ tighter x o) ∧
  (∀ x, x ∈ m → attained x (mjoin groups)).
Proof.
  destruct (mergeObligations_strongest groups) as [Hn Hc Ha].
  split_and!; [|done..]. apply js_sort_sorted, _.
Qed.

(** ** Properties of the evaluation *)

Definition trusted (e : ValidationEvidence) : Prop := ev_provenance e ∈ TRUSTED_PROVENANCE.

(** Evidence the loop passes over: trusted, but bound to another target. *)
Definition passed_over (c : GateContext) (o : ValidationObligation) (e : ValidationEvidence)
  : Prop :=
  trusted e ∧ requireTargetFingerprint o = true ∧ ev_targetFingerprint e ≠ targetFingerprint c.

(** Evidence that meets an obligation. *)
Record meets (c : GateContext) (now : Z) (o : ValidationObligation) (e : ValidationEvidence)
  : Prop := {
  meets_validator : ev_validatorId e = validatorId o;
  meets_passed : ev_status e = PASSED;
  meets_trusted : trusted e;
  meets_target : requireTargetFingerprint o = true →
    ev_targetFingerprint e = targetFingerprint c;
  meets_past : producedAtMs e ≤ now;
  meets_fresh : now - producedAtMs e < 1000 * maxAgeSeconds o;
}.

Lemma meets_tighter c now m o e : tighter m o → meets c now m e → meets c now o e.
Proof. intros [] []. split; try done; [congruence|auto|lia]. Qed.

Lemma age_bound now e m : age_seconds now e < m ↔ now - producedAtMs e < 1000 * m.
Proof.
  unfold age_seconds. pose proof (Z.div_mod (now - producedAtMs e) 1000 ltac:(lia)).
  pose proof (Z.mod_pos_bound (now - producedAtMs e) 1000 ltac:(lia)). lia.
Qed.

Lemma assess_loop_passed c o now n l :
  (∀ e, e ∈ l → ev_validatorId e = validatorId o) →
  verdict (assess_loop c o now n l) = OfStatus PASSED ↔
  ∃ pre e post, l = pre ++ e :: post ∧ Forall (passed_over c o) pre ∧ meets c now o e.
Proof.
  induction l as [|e l IH]; intros Hv; cbn [assess_loop].
  - split; [done|]. intros (pre & e & post & Hl & _). by destruct pre.
  - assert (Hve : ev_validatorId e = validatorId o) by (apply Hv; left).
    specialize (IH (λ e' He', Hv e' (list_elem_of_further _ _ _ He'))).
    assert (Hhead : ∀ P : Prop, (P ↔ meets c now o e) → ¬ passed_over c o e → P ↔
      ∃ pre e' post, e :: l = pre ++ e' :: post ∧ Forall (passed_over c o) pre ∧ meets c now o e').
    { intros P HP Hno. rewrite HP. split.
      - intros Hm. exists [], e, l. done.
      - intros (pre & e' & post & Heq & Hpre & Hm). destruct pre as [|p pre]; simplify_eq/=; [done|].
        by inversion Hpre. }
    destruct (str_in (ev_provenance e) TRUSTED_PROVENANCE) eqn:Et; cbn [negb verdict].
    2: { apply str_in_false in Et. unfold trusted in *.
      apply Hhead; [split; [discriminate|intros []; contradiction]|]. intros []; contradiction. }
    apply str_in_spec in Et.
    destruct (requireTargetFingerprint o && _) eqn:Ef; breflect.
    { rewrite IH. split.
      - intros (pre & e' & post & -> & Hpre & Hm). exists (e :: pre), e', post.
        split_and!; [done| |done]. by constructor.
      - intros (pre & e' & post & Heq & Hpre & Hm). destruct pre as [|p pre]; simplify_eq/=.
        + by destruct Hm as [_ _ _ Ht _ _]; specialize (Ht ltac:(done)).
        + inversion Hpre; subst. by exists pre, e', post. }
    assert (Hft : requireTargetFingerprint o = true → ev_targetFingerprint e = targetFingerprint c).
    { intros Hr. rewrite Hr in Ef. simpl in Ef. by breflect. }
    apply Hhead; [|intros (_ & Hr & Hne); auto].
    pose proof (age_bound now e (maxAgeSeconds o)).
    repeat case_match; breflect; cbn [verdict]; split; try done; try (intros []; done || lia).
    + intros _. split; try done. apply H1. lia.
    + intros [= Hs]. done.
Qed.

#[local] Instance evidence_order_comparator : Comparator evidence_order.
Proof.
  apply cmp_then_comparator; [|apply cmp_by_comparator, _]. split; intros; lia.
Qed.

Lemma candidates_elem o evidence e :
  e ∈ candidates_of o evidence ↔ e ∈ evidence ∧ ev_validatorId e = validatorId o.
Proof. unfold candidates_of. by rewrite js_sort_elem, bfilter_elem, String.eqb_eq. Qed.

Lemma candidates_newest o evidence pre e post e' :
  candidates_of o evidence = pre ++ e :: post → e' ∈ post → producedAtMs e' ≤ producedAtMs e.
Proof.
  intros Hc He'. pose proof (js_sort_sorted evidence_order
    (List.filter (λ x, ev_validatorId x =s? validatorId o) evidence)) as Hs.
  fold (candidates_of o evidence) in Hs. rewrite Hc in Hs.
  apply StronglySorted_app_1_r in Hs. inversion Hs as [|? ? _ Hall]; subst.
  rewrite Forall_forall in Hall. specialize (Hall _ He').
  unfold cmp_le, evidence_order, cmp_then in Hall. case_match; breflect; lia.
Qed.

Lemma assess_passed c o evidence now :
  verdict (assess c o evidence now) = OfStatus PASSED ↔
  ∃ pre e post, candidates_of o evidence = pre ++ e :: post ∧
    Forall (passed_over c o) pre ∧ meets c now o e.
Proof.
  rewrite <- (assess_loop_passed c o now (length (candidates_of o evidence)));
    [|intros e He%candidates_elem; tauto].
  unfold assess. destruct (candidates_of o evidence); [|done]. by split.
Qed.

Lemma evaluate_satisfied globals c evidence now :
  status (evaluate globals c evidence now) = SATISFIED ↔
  ∀ m, m ∈ resolveObligations globals c → verdict (assess c m evidence now) = OfStatus PASSED.
Proof.
  cbn [evaluate status]. set (l := _ <$> _). split.
  - case_match; [done|]. case_match eqn:Hb; [done|]. intros _ m Hm.
    rewrite existsb_false in Hb. specialize (Hb (assess c m evidence now) (list_elem_of_fmap_2 _ _ _ Hm)). by breflect.
  - intros Hall. assert (Hv : ∀ a, a ∈ l → verdict a = OfStatus PASSED).
    { intros a (m & -> & Hm)%list_elem_of_fmap. auto. }
    replace (existsb _ l) with false.
    2: { symmetry. apply existsb_false. intros a Ha. by rewrite (Hv a Ha). }
    replace (existsb _ l) with false; [done|].
    symmetry. apply existsb_false. intros a Ha. by rewrite (Hv a Ha).
Qed.

Lemma resolve_covers globals c o :
  o ∈ globals ++ default [] (extraObligations c) → gateKind c ∈ applicableGates o →
  ∃ m, m ∈ resolveObligations globals c ∧ tighter m o.
Proof.
  intros Ho Hg. unfold resolveObligations.
  apply (sm_covers _ _ (mergeObligations_strongest _)). simpl. rewrite app_nil_r.
  unfold applicable. rewrite elem_of_app, !bfilter_elem, includes_spec.
  apply elem_of_app in Ho. tauto.
Qed.

(** A gate that reports SATISFIED has, for every obligation that applies to it -- global or
    added, none can be removed or masked by another -- trusted PASSED evidence of that
    validator which is bound to the gate's target where the obligation asks for it, is not from
    the future and is strictly younger than the obligation's maximum age; and no evidence of
    that validator for this target is newer than the evidence relied on. *)
Theorem gate_needs_fresh_evidence globals c evidence now o
  (Hsat : status (evaluate globals c evidence now) = SATISFIED)
  (Ho : o ∈ globals ++ default [] (extraObligations c))
  (Hgate : gateKind c ∈ applicableGates o) :
  ∃ e, e ∈ evidence ∧ meets c now o e ∧
    ∀ e', e' ∈ evidence → ev_validatorId e' = validatorId o →
      ev_targetFingerprint e' = targetFingerprint c → producedAtMs e' ≤ producedAtMs e.
Proof.
  destruct (resolve_covers globals c o Ho Hgate) as (m & Hm & Htight).
  rewrite evaluate_satisfied in Hsat. specialize (Hsat m Hm).
  apply assess_passed in Hsat as (pre & e & post & Hc & Hpre & Hmeets).
  assert (Hin : ∀ x, x ∈ evidence ∧ ev_validatorId x = validatorId m ↔ x ∈ pre ++ e :: post)
    by (intros x; by rewrite <- Hc, candidates_elem).
  exists e. split_and!; [apply Hin; set_solver|by eapply meets_tighter|].
  intros e' He' Hv Ht. rewrite <- (tight_id _ _ Htight) in Hv.
  pose proof (proj1 (Hin e') (conj He' Hv)) as [Hp|[->|Hp]%elem_of_cons]%elem_of_app.
  - rewrite Forall_forall in Hpre. by destruct (Hpre _ Hp) as (_ & _ & Hne).
  - done.
  - by eapply candidates_newest.
Qed.

Definition assessment_key (a : ObligationAssessment) : string * string * Verdict * option string :=
  (as_validatorId a, as_sourceRuleId a, verdict a, selectedEvidenceResultKey a).

Lemma gate_name_inj g g' : gate_name g = gate_name g' → g = g'.
Proof. by destruct g, g'. Qed.

Lemma verdict_name_inj v v' : verdict_name v = verdict_name v' → v = v'.
Proof. by destruct v as [[]| | | |], v' as [[]| | | |]. Qed.

Lemma JOpt_JStr_inj a b : JOpt JStr a = JOpt JStr b → a = b.
Proof. destruct a, b; simpl; congruence. Qed.

Lemma outcome_json_inj c c' l l' t t' :
  outcome_json c l t = outcome_json c' l' t' →
  gateKind c = gateKind c' ∧ policySnapshotId c = policySnapshotId c' ∧
  currentPolicyVersionId c = currentPolicyVersionId c' ∧
  validatorRegistryVersion c = validatorRegistryVersion c' ∧
  targetFingerprint c = targetFingerprint c' ∧
  assessment_key <$> l = assessment_key <$> l' ∧ t = t'.
Proof.
  unfold outcome_json. intros Heq. injection Heq as Hg Hp Hv Hr Ht Hl Hn.
  split_and!; try done; [by apply gate_name_inj|].
  clear -Hl. revert l' Hl. induction l as [|a l IH]; intros [|a' l'] Hl; try done.
  rewrite !fmap_cons in Hl. injection Hl as Hv Hs Hd Hk Hrest.
  rewrite !fmap_cons, (IH _ Hrest). f_equal. unfold assessment_key.
  apply verdict_name_inj in Hd. apply JOpt_JStr_inj in Hk. congruence.
Qed.

Lemma outcome_json_cong c c' l l' t :
  gateKind c = gateKind c' → policySnapshotId c = policySnapshotId c' →
  currentPolicyVersionId c = currentPolicyVersionId c' →
  validatorRegistryVersion c = validatorRegistryVersion c' →
  targetFingerprint c = targetFingerprint c' →
  assessment_key <$> l = assessment_key <$> l' → outcome_json c l t = outcome_json c' l' t.
Proof.
  unfold outcome_json. intros -> -> -> -> -> Hl.
  match goal with |- context [JArr (?f <$> l)] => assert (f <$> l = f <$> l') as -> end; [|done].
  revert l' Hl. induction l as [|a l IH]; intros [|a' l'] Hl; try done.
  rewrite !fmap_cons in *. injection Hl as Hv Hs Hd Hk Hrest.
  by rewrite Hv, Hs, Hd, Hk, (IH _ Hrest).
Qed.

Lemma isStale_false globals out c evidence now :
  (isStale globals out c evidence now).1 = false ↔
  out_targetFingerprint out = targetFingerprint c ∧
  out_currentPolicyVersionId out = currentPolicyVersionId c ∧
  out_validatorRegistryVersion out = validatorRegistryVersion c ∧
  outcomeHash (evaluate globals c evidence now) = outcomeHash out.
Proof.
  unfold isStale. cbn [fst]. rewrite bool_decide_eq_false, <- !String.eqb_eq.
  repeat (destruct (String.eqb _ _)); simpl; intuition congruence.
Qed.

(** With a collision-free digest, an outcome passes the staleness check exactly when the gate,
    the policy snapshot, the policy and registry versions, the target and every assessment
    (source rules, verdict and selected evidence) are what they were, and the check runs at the
    very millisecond of the evaluation: the time is hashed into the outcome, so any later check
    of unchanged inputs reports them changed. *)
Theorem staleness_exact `{!CollisionFree} globals c c' evidence evidence' t t' :
  (isStale globals (evaluate globals c evidence t) c' evidence' t').1 = false ↔
  gateKind c = gateKind c' ∧ policySnapshotId c = policySnapshotId c' ∧
  currentPolicyVersionId c = currentPolicyVersionId c' ∧
  validatorRegistryVersion c = validatorRegistryVersion c' ∧
  targetFingerprint c = targetFingerprint c' ∧
  assessment_key <$> assessments (evaluate globals c evidence t) =
    assessment_key <$> assessments (evaluate globals c' evidence' t') ∧
  t = t'.
Proof.
  rewrite isStale_false. cbn [evaluate out_targetFingerprint out_currentPolicyVersionId
    out_validatorRegistryVersion outcomeHash assessments]. split.
  - intros (_ & _ & _ & Hh%digest_inj%outcome_json_inj).
    destruct Hh as (? & ? & ? & ? & ? & ? & ?). by split_and!.
  - intros (? & ? & ? & ? & ? & ? & <-). split_and!; [done..|].
    f_equal. f_equal. by apply outcome_json_cong.
Qed.

(** A merge gate whose only global obligation is the dependency check of the defaults. *)
Definition dependency_obligation : ValidationObligation :=
  obligation "dependency_check" "global-gate-merge-floor" WORKFLOW [MERGE] (12 * 3600) false.
Definition tightening : ValidationObligation :=
  obligation "dependency_check" "repo-rule" WORKFLOW [MERGE] (12 * 3600) true.
Definition merge_context (extras : list ValidationObligation) : GateContext :=
  {| gateKind := MERGE; policySnapshotId := "snapshot"; currentPolicyVersionId := "v1";
     validatorRegistryVersion := "r1"; targetFingerprint := "repo|main|sha-of-this-head";
     repositoryId := "repo"; extraObligations := Some extras |}.
Definition evidence_of (s : EvidenceStatus) (target key : string) (t : Z) : ValidationEvidence :=
  {| ev_validatorId := "dependency_check"; ev_status := s; ev_targetFingerprint := target;
     producedAtMs := t; ev_provenance := "github_checks"; providerVersion := "1";
     resultKey := key |}.
Definition mixed_evidence : list ValidationEvidence :=
  [evidence_of PASSED "repo|main|sha-of-this-head" "old" 1000;
   evidence_of FAILED "repo|main|another-head" "new" 2000].

(** Tightening can unblock: an added obligation that demands the target binding makes the
    merged dependency check skip a newer FAILED result of another target, so a gate that is
    BLOCKED by the global obligation alone becomes SATISFIED when the repository adds its own,
    although extra obligations are meant only to add or tighten. *)
Theorem extra_obligation_unblocks :
  tighter (merge_obligation dependency_obligation tightening) dependency_obligation ∧
  status (evaluate [dependency_obligation] (merge_context []) mixed_evidence 3000) = BLOCKED ∧
  status (evaluate [dependency_obligation] (merge_context [tightening]) mixed_evidence 3000)
    = SATISFIED.
Proof. split; [by apply merge_obligation_tighter | by split]. Qed.
End GateProperties.

(** ** Witnesses *)

Lemma gate_needs_fresh_evidence_witness :
  let _ : Digest := λ s, s in
  ∃ e, e ∈ mixed_evidence ∧ meets (merge_context [tightening]) 3000 tightening e ∧
    ∀ e', e' ∈ mixed_evidence → ev_validatorId e' = "dependency_check" →
      ev_targetFingerprint e' = "repo|main|sha-of-this-head" → producedAtMs e' ≤ producedAtMs e.
Proof.
  intros D.
  apply (gate_needs_fresh_evidence (H := code_unit_collation) (H0 := D) [dependency_obligation]
           (merge_context [tightening]) mixed_evidence 3000 tightening).
  - vm_compute. reflexivity.
  - simpl. right. left.
  - simpl. left.
Defined.

Lemma staleness_exact_witness :
  let _ : Digest := λ s, s in
  (isStale (H := code_unit_collation) [dependency_obligation]
    (evaluate (H := code_unit_collation) [dependency_obligation] (merge_context [])
      mixed_evidence 3000)
    (merge_context []) mixed_evidence 3000).1 = false.
Proof.
  intros D. assert (CollisionFree) by (by intros x y).
  apply (staleness_exact (H := code_unit_collation)). by split_and!.
Defined.
