(* ===== verification/Commands.v ===== *)
(** * Sandbox command analysis

    [packages/policy-engine/src/commands/analyzer.ts]: the structural findings of a simple
    command, the conservative shell splitter with its quoting tokenizer, and the analysis that
    gives a proposed command its classes, factors and obligations.  [String.prototype.split] on
    [|] and the regular expressions are written out over the characters. *)

From S2P Require Import Prelude JsString Json.

(** ** Proposals *)

(* @src packages/policy-engine/src/commands/analyzer.ts:20-25 networkRequest *)
Record NetworkRequest := { required : bool; destinations : list string }.

(** The fields both modes share. *)
Record Limits := {
  cwd : string;
  envKeys : list string;
  timeoutMs : Z;
  network : NetworkRequest;
}.

(* @src packages/policy-engine/src/commands/analyzer.ts:38-61 sandboxCommandProposal *)
Inductive SandboxCommandProposal :=
  | Direct (executable : string) (argv : list string) (limits : Limits)
  | Shell (shell source : string) (limits : Limits).

(* @src packages/policy-engine/src/commands/analyzer.ts:27-36 relativePath *)
Definition relativePath (value : string) : bool :=
  (1 <=? str_length value) && (str_length value <=? 512) &&
  negb (startsWith value "/") && negb (str_in ".." (split_char "/" value)).

(* @src packages/policy-engine/src/commands/analyzer.ts:65-74 CommandClass *)
Inductive CommandClass :=
  READ_ONLY | BUILD_TEST | PACKAGE_INSTALL | NETWORKED | PRIVILEGED | DESTRUCTIVE | DATABASE
| INFRASTRUCTURE | UNKNOWN.

#[export] Instance CommandClass_eq_dec : EqDecision CommandClass.
Proof. solve_decision. Defined.

Definition class_name (k : CommandClass) : string :=
  match k with
  | READ_ONLY => "READ_ONLY" | BUILD_TEST => "BUILD_TEST" | PACKAGE_INSTALL => "PACKAGE_INSTALL"
  | NETWORKED => "NETWORKED" | PRIVILEGED => "PRIVILEGED" | DESTRUCTIVE => "DESTRUCTIVE"
  | DATABASE => "DATABASE" | INFRASTRUCTURE => "INFRASTRUCTURE" | UNKNOWN => "UNKNOWN"
  end.

Inductive ParseStatus := COMPLETE | AMBIGUOUS | UNSUPPORTED.

#[export] Instance ParseStatus_eq_dec : EqDecision ParseStatus.
Proof. solve_decision. Defined.

Record Factor := { ruleId : string; explanation : string }.

(* @src packages/policy-engine/src/commands/analyzer.ts:76-83 CommandClassification *)
Record CommandClassification := {
  classes : list CommandClass;
  factors : list Factor;
  obligations : list string;
  parseStatus : ParseStatus;
  astFingerprint : string;
  analyzerVersion : string;
}.

(* @src packages/policy-engine/src/commands/analyzer.ts:85-85 SANDBOX_OBLIGATIONS *)
Definition SANDBOX_OBLIGATIONS : list string := ["sandbox_only"; "timeout_required"].

(** Every finding the source constructs carries an [addsClass]. *)
(* @src packages/policy-engine/src/commands/analyzer.ts:88-92 StructuralFinding *)
Record StructuralFinding := { factor : Factor; addsClass : CommandClass }.

Definition finding (rule why : string) (k : CommandClass) : StructuralFinding :=
  {| factor := {| ruleId := rule; explanation := why |}; addsClass := k |}.

(** ** Structural findings *)

(** [argv[0]], absent when there is no argument. *)
Definition arg0_is (argv : list string) (f : string → string) (words : list string) : bool :=
  match argv with a :: _ => str_in (f a) words | [] => false end.

(** [(argv[0] ?? '').toLowerCase()]. *)
Definition sub_of (argv : list string) : string := toLowerCase (default "" (head argv)).

(** [/^-[a-z]*f/]. *)
Fixpoint flag_run (s : string) : bool :=
  match s with
  | String c s => Ascii.eqb c "f" || is_lower c && flag_run s
  | EmptyString => false
  end.
(* @src packages/policy-engine/src/commands/analyzer.ts:125-125 structuralFindingsForSimple (rm) *)
Definition short_f (s : string) : bool :=
  match s with String c s => Ascii.eqb c "-" && flag_run s | EmptyString => false end.

(** [/^[^/]*\/\.\.$/]. *)
(* @src packages/policy-engine/src/commands/analyzer.ts:131-131 structuralFindingsForSimple (rm) *)
Definition ends_in_parent (target : string) : bool :=
  match split_char "/" target with [_; p] => p =s? ".." | _ => false end.

(** [/(^|[:/])(main|master)$/]. *)
(* @src packages/policy-engine/src/commands/analyzer.ts:155-155 structuralFindingsForSimple (git) *)
Definition names_default_branch (refspec : string) : bool :=
  existsb (λ b, (refspec =s? b) || endsWith refspec (":" +s b) || endsWith refspec ("/" +s b))
    ["main"; "master"].

Definition is_flag (a : string) : bool := startsWith a "-".

(* @src packages/policy-engine/src/commands/analyzer.ts:119-149 structuralFindingsForSimple (rm) *)
Definition rm_findings (executable : string) (argv all : list string) : list StructuralFinding :=
  if executable =s? "rm" then
    let recursive := str_in "-r" argv || str_in "-rf" argv || str_in "-fr" argv ||
                     existsb (λ t, startsWith t "--recursive") all in
    let force := str_in "-f" argv || existsb short_f argv in
    let targets := List.filter (λ a, negb (is_flag a)) argv in
    let dangerousTarget := existsb (λ t, (t =s? "/") || (t =s? "") || ends_in_parent t ||
                                         str_in ".." (split_char "/" t)) targets in
    if recursive && force then
      [finding "cmd-03-rm-rf"
         (if dangerousTarget then "recursive forced deletion at root/parent equivalent"
          else "recursive forced deletion") DESTRUCTIVE]
    else if recursive then [finding "cmd-04-rm-r" "recursive deletion" DESTRUCTIVE]
    else []
  else [].

(* @src packages/policy-engine/src/commands/analyzer.ts:151-181 structuralFindingsForSimple (git) *)
Definition git_findings (executable : string) (argv all : list string) : list StructuralFinding :=
  if executable =s? "git" then
    let sub := sub_of argv in
    (if (sub =s? "push") && existsb (λ a, startsWith a "--force" || (a =s? "-f")) argv then
       let defaultBranch :=
         match List.find (λ a, negb (is_flag a)) (rev argv) with
         | None => true
         | Some refspec => names_default_branch refspec
         end in
       [finding "cmd-05-force-push"
          (if defaultBranch then "forced push to default branch rewrites remote history"
           else "forced push rewrites remote history") DESTRUCTIVE]
     else []) ++
    (if (sub =s? "reset") && str_in "--hard" argv then
       [finding "cmd-06-reset-hard" "git reset --hard discards uncommitted work" DESTRUCTIVE]
     else []) ++
    (if (sub =s? "clean") && (existsb (λ t, str_includes t "fdx") all ||
                              str_in "-f" argv && str_in "-d" argv) then
       [finding "cmd-07-clean-fdx"
          "git clean -fd(x) removes untracked/ignored files destructively" DESTRUCTIVE]
     else [])
  else [].

Definition when (b : bool) (f : StructuralFinding) : list StructuralFinding :=
  if b then [f] else [].

(* @src packages/policy-engine/src/commands/analyzer.ts:94-233 structuralFindingsForSimple *)
Definition structuralFindingsForSimple (executable : string) (argv : list string)
  : list StructuralFinding :=
  let all := map toLowerCase (executable :: argv) in
  let joined := join " " all in
  when (str_in (toLowerCase executable) ["sudo"; "su"; "doas"])
    (finding "cmd-01-privilege" ("privilege escalation via '" +s executable +s "'") PRIVILEGED) ++
  when (str_in (toLowerCase executable) ["eval"; "exec"; "source"; "."])
    (finding "cmd-02-eval" ("'" +s executable +s "' executes dynamic content") UNKNOWN) ++
  rm_findings executable argv all ++
  git_findings executable argv all ++
  when ((executable =s? "gh") &&
        match argv with a :: b :: _ => (a =s? "repo") && (b =s? "delete") | _ => false end)
    (finding "cmd-08-repo-delete" "repository deletion requested" DESTRUCTIVE) ++
  when (str_in (toLowerCase executable) ["psql"; "mysql"; "sqlite3"] ||
        str_includes joined "drop database" || str_includes joined "drop table" ||
        str_includes joined "truncate table")
    (finding "cmd-09-destructive-sql" "destructive SQL statement detected" DATABASE) ++
  when ((executable =s? "terraform") && arg0_is argv toLowerCase ["destroy"])
    (finding "cmd-10-tf-destroy" "terraform destroy targets infrastructure deletion"
       INFRASTRUCTURE) ++
  when ((executable =s? "kubectl") && arg0_is argv toLowerCase ["delete"])
    (finding "cmd-11-k8s-delete" "kubectl delete targets infrastructure removal"
       INFRASTRUCTURE) ++
  when (str_in executable ["npm"; "pnpm"; "yarn"] &&
        arg0_is argv (λ a, a) ["install"; "add"; "ci"])
    (finding "cmd-12-package-install"
       "package installation runs lifecycle scripts under constrained network/resources"
       PACKAGE_INSTALL).

(** ** Classes of a simple command *)

(* @src packages/policy-engine/src/commands/analyzer.ts:235-235 BUILD_FAMILIES *)
Definition BUILD_FAMILIES : list string :=
  ["pnpm"; "npm"; "yarn"; "make"; "cargo"; "go"; "mvn"; "gradle"].

(* @src packages/policy-engine/src/commands/analyzer.ts:236-245 TEST_SUBCOMMANDS *)
Definition TEST_SUBCOMMANDS : list string :=
  ["test"; "vitest"; "jest"; "pytest"; "check"; "lint"; "typecheck"; "tsc"].

Definition GIT_READS : list string :=
  ["status"; "log"; "diff"; "show"; "branch"; "remote"; "rev-parse"].

(** The cases [cat] to [wc] fall through into the block of [git]; the statements after that
    block's [break] are not reachable. *)
(* @src packages/policy-engine/src/commands/analyzer.ts:247-293 classifySimple *)
Definition classifySimple (executable : string) (argv : list string) : list CommandClass :=
  let sub := sub_of argv in
  if str_in executable BUILD_FAMILIES then
    if str_in sub TEST_SUBCOMMANDS then
      [if (sub =s? "typecheck") || (sub =s? "lint") then READ_ONLY else BUILD_TEST]
    else if (sub =s? "install") || (sub =s? "add") || (sub =s? "ci") then [PACKAGE_INSTALL]
    else if str_in sub ["build"; "run"; "compile"] then [BUILD_TEST]
    else [UNKNOWN]
  else if str_in executable ["cat"; "ls"; "head"; "tail"; "grep"; "rg"; "find"; "wc"; "git"] then
    if str_in sub GIT_READS then [READ_ONLY] else [UNKNOWN]
  else if str_in executable ["curl"; "wget"] then [NETWORKED]
  else [UNKNOWN].

(** ** The shell splitter *)

Record Segment := { executable : string; argv : list string }.

(** The quotes of the tokenizer; a string literal cannot hold the double one. *)
Definition squote : ascii := "'".

(** [if (current) words.push(current)]. *)
Definition push_word (current : string) (words : list string) : list string :=
  if current =s? "" then words else current :: words.

Definition add_char (current : string) (c : ascii) : string := current +s String c "".

Definition expands (c : ascii) : bool := Ascii.eqb c "$" || Ascii.eqb c "`".

(** The loop from the rest of the input, with [current] and [quote]. *)
(* @src packages/policy-engine/src/commands/analyzer.ts:352-379 tokenize *)
Fixpoint tokenize_from (current : string) (q : option ascii) (input : string)
  : option (list string) :=
  match input with
  | EmptyString => Some (push_word current [])
  | String char rest =>
      match q with
      | Some k =>
          if Ascii.eqb char k then tokenize_from current None rest
          else if Ascii.eqb k dquote && expands char then None
          else tokenize_from (add_char current char) q rest
      | None =>
          if Ascii.eqb char dquote || Ascii.eqb char squote then
            tokenize_from current (Some char) rest
          else
            let plain :=
              if is_space char then push_word current <$> tokenize_from "" None rest
              else if expands char then None
              else tokenize_from (add_char current char) None rest in
            if Ascii.eqb char "\" then
              match rest with
              | String next rest' => tokenize_from (add_char current next) None rest'
              | EmptyString => plain
              end
            else plain
      end
  end.

(* @src packages/policy-engine/src/commands/analyzer.ts:348-381 tokenize *)
Definition tokenize (input : string) : option (list string) := tokenize_from "" None input.

Inductive ShellAnalysis :=
  | Segments (l : list Segment)
  | Unsupported (reason : string).

(** [/[;&><`$()]|\|\||&&/] on the source; replacing a single bar by itself changes nothing. *)
(* @src packages/policy-engine/src/commands/analyzer.ts:314-314 analyzeShellSource *)
Definition first_metas (source : string) : bool :=
  any_char (char_in ";&><`$()") source || str_includes source "||" || str_includes source "&&".

(** [/[;&<>`()]/] or [/\$\{?/]. *)
(* @src packages/policy-engine/src/commands/analyzer.ts:315-315 analyzeShellSource *)
Definition second_metas (source : string) : bool :=
  any_char (char_in ";&<>`()") source || any_char (Ascii.eqb "$") source.

(* @src packages/policy-engine/src/commands/analyzer.ts:327-336 analyzeShellSource *)
Definition segment_of (side : string) : option Segment :=
  match tokenize side with
  | Some (w :: ws) => Some {| executable := w; argv := ws |}
  | _ => None
  end.

(* @src packages/policy-engine/src/commands/analyzer.ts:301-345 analyzeShellSource *)
Definition analyzeShellSource (source : string) : ShellAnalysis :=
  if any_char (λ c, Ascii.eqb c "010" || Ascii.eqb c "013") source ||
     (8192 <? str_length source) then Unsupported "multi-line or oversized shell input"
  else if first_metas source && second_metas source then
    Unsupported "shell metacharacters/substitution present"
  else if str_includes source "|" then
    match mapM segment_of (split_char "|" source) with
    | Some l => Segments l
    | None => Unsupported "empty pipeline segment"
    end
  else
    match segment_of source with
    | Some s => Segments [s]
    | None => Unsupported "unparseable command"
    end.

(** ** The analysis *)

(** [knownScriptHashes]: own properties in insertion order. *)
Definition ScriptHashes : Type := list (string * string).

Definition script_hash (known : ScriptHashes) (executable : string) : option string :=
  snd <$> List.find (λ p, p.1 =s? executable) known.

(* @src packages/policy-engine/src/commands/analyzer.ts:426-426 analyzeCommand (shell) *)
Definition INTERPRETERS : list string :=
  ["sh"; "bash"; "zsh"; "python"; "python3"; "perl"; "ruby"; "node"].

(* @src packages/policy-engine/src/commands/analyzer.ts:422-428 analyzeCommand (shell) *)
Definition pipes_to_shell (l : list Segment) : bool :=
  existsb (λ s, str_in (executable s) INTERPRETERS) (tail l).

(* @src packages/policy-engine/src/commands/analyzer.ts:423-437 analyzeCommand (shell) *)
Definition fetches (l : list Segment) : bool :=
  existsb (λ s, str_in (executable s) ["curl"; "wget"]) (removelast l).

Definition pipe_to_shell : StructuralFinding :=
  finding "cmd-30-pipe-to-shell" "pipeline feeds download/network content to an interpreter"
    PRIVILEGED.

(** What the two branches of the analysis leave: findings, classes in insertion order, parse
    status, reason. *)
Record Analysis := {
  an_findings : list StructuralFinding;
  an_classes : list CommandClass;
  an_status : ParseStatus;
  an_reason : option string;
}.

(** Dynamic and unregistered executables. *)
(* @src packages/policy-engine/src/commands/analyzer.ts:400-410 analyzeCommand (direct) *)
Definition dynamic_findings (known : ScriptHashes) (exe : string) : list StructuralFinding :=
  when ((startsWith exe "./" || str_includes exe "/") && negb (truthy (script_hash known exe)))
    (finding "cmd-20-dynamic-executable"
       "executable resolves outside the trusted manifest snapshot" UNKNOWN).

(* @src packages/policy-engine/src/commands/analyzer.ts:397-414 analyzeCommand (direct) *)
Definition analyze_direct (known : ScriptHashes) (exe : string) (args : list string)
    (needs_network : bool) : Analysis := {|
  an_findings := structuralFindingsForSimple exe args ++ dynamic_findings known exe;
  an_classes := classifySimple exe args ++ (if needs_network then [NETWORKED] else []);
  an_status := COMPLETE;
  an_reason := None;
|}.

(* @src packages/policy-engine/src/commands/analyzer.ts:414-450 analyzeCommand (shell) *)
Definition analyze_shell (source : string) : Analysis :=
  match analyzeShellSource source with
  | Unsupported reason =>
      {| an_findings := []; an_classes := [UNKNOWN]; an_status := UNSUPPORTED;
         an_reason := Some reason |}
  | Segments l =>
      let findings :=
        when (pipes_to_shell l) pipe_to_shell ++
        (l ≫= λ s, structuralFindingsForSimple (executable s) (argv s)) in
      let ambiguous := (1 <? Z.of_nat (length l)) &&
        existsb (λ f, ruleId (factor f) =s? "cmd-30-pipe-to-shell") findings in
      {| an_findings := findings;
         an_classes := (if fetches l then [NETWORKED] else []) ++
                       (l ≫= λ s, classifySimple (executable s) (argv s));
         an_status := if ambiguous then AMBIGUOUS else COMPLETE;
         an_reason := if ambiguous then
                        Some "pipeline mixes network fetch with interpreter execution"
                      else None |}
  end.

Definition limits_json (l : Limits) : list (string * json) :=
  [("cwd", JStr (cwd l)); ("envKeys", JArr (map JStr (envKeys l)));
   ("timeoutMs", JNum (timeoutMs l));
   ("network", JObj [("required", JBool (required (network l)));
                     ("destinations", JArr (map JStr (destinations (network l))))])].

Definition proposal_json (p : SandboxCommandProposal) : json :=
  match p with
  | Direct e a l =>
      JObj ([("mode", JStr "direct"); ("executable", JStr e); ("argv", JArr (map JStr a))]
            ++ limits_json l)
  | Shell s src l =>
      JObj ([("mode", JStr "shell"); ("shell", JStr s); ("source", JStr src)] ++ limits_json l)
  end.

Definition class_order : CommandClass → CommandClass → Z := cmp_by class_name code_unit_compare.

Section Analyze.
Context `{Digest}.

(* @src packages/policy-engine/src/commands/analyzer.ts:388-477 analyzeCommand *)
Definition analyzeCommand (proposal : SandboxCommandProposal) (known : ScriptHashes)
  : CommandClassification :=
  let a := match proposal with
           | Direct exe args l => analyze_direct known exe args (required (network l))
           | Shell _ source _ => analyze_shell source
           end in
  let set := dedup (an_classes a ++ map addsClass (an_findings a)) in
  {| classes := js_sort class_order set;
     factors := map factor (an_findings a) ++
       match an_reason a with
       | Some r => if r =s? "" then []
                   else [{| ruleId := "cmd-99-unsupported"; explanation := r |}]
       | None => []
       end;
     obligations := SANDBOX_OBLIGATIONS ++
       (if includes set NETWORKED || includes set PACKAGE_INSTALL then ["network_profile_required"]
        else ["network_default_deny"]);
     parseStatus := an_status a;
     astFingerprint := sha256 (stringify (JArr [proposal_json proposal;
       JObj (map (λ p, (p.1, JStr p.2)) known)]));
     analyzerVersion := "command-analyzer@1" |}.
End Analyze.

(** ** Lemmas *)

#[export] Instance class_order_comparator : Comparator class_order.
Proof. unfold class_order. apply _. Qed.

Lemma class_name_inj a b : class_order a b = 0 → a = b.
Proof. unfold class_order, cmp_by. intros H%code_unit_compare_eq. by destruct a, b. Qed.

Lemma when_elem b f x : x ∈ when b f ↔ b = true ∧ x = f.
Proof. destruct b; simpl; set_solver. Qed.

(** What a structural finding can be. *)
Definition structural (f : StructuralFinding) : Prop :=
  ruleId (factor f) ≠ "cmd-30-pipe-to-shell" ∧ addsClass f ≠ READ_ONLY.

Lemma structural_findings exe args f : f ∈ structuralFindingsForSimple exe args → structural f.
Proof.
  assert (Hw : ∀ b g, structural g → ∀ x, x ∈ when b g → structural x)
    by (intros b g Hg x [_ ->]%when_elem; done).
  assert (Hrm : ∀ all x, x ∈ rm_findings exe args all → structural x).
  { intros all x. unfold rm_findings. repeat case_match; intros Hx; in_cases Hx; subst; done. }
  assert (Hgit : ∀ all x, x ∈ git_findings exe args all → structural x).
  { intros all x. unfold git_findings.
    repeat case_match; rewrite ?elem_of_app; intros Hx; destruct_or? Hx;
      in_cases Hx; subst; done. }
  unfold structuralFindingsForSimple. rewrite !elem_of_app. intros Hf.
  destruct_or! Hf; eauto; eapply Hw; try exact Hf; done.
Qed.

(** An executable with a slash in its name is in none of the tables. *)
Lemma slash_unknown exe args :
  startsWith exe "./" || str_includes exe "/" = true → classifySimple exe args = [UNKNOWN].
Proof.
  intros Hs. unfold classifySimple.
  assert (Hn : ∀ l, forallb (λ e, negb (startsWith e "./" || str_includes e "/")) l = true →
    str_in exe l = false).
  { intros l Hl. apply str_in_false. intros Hin. js_reflect. specialize (Hl _ Hin).
    by rewrite Hs in Hl. }
  by rewrite !Hn by done.
Qed.

Section AnalyzeLemmas.
Context `{Digest}.

Lemma classes_elem p known k :
  let a := match p with
           | Direct exe args l => analyze_direct known exe args (required (network l))
           | Shell _ source _ => analyze_shell source
           end in
  k ∈ classes (analyzeCommand p known) ↔
  k ∈ an_classes a ∨ ∃ f, f ∈ an_findings a ∧ addsClass f = k.
Proof.
  intros a. unfold analyzeCommand. cbn [classes]. fold a.
  rewrite js_sort_elem, dedup_elem, elem_of_app, list_elem_of_fmap. naive_solver.
Qed.

Lemma direct_elem exe args l known k :
  required (network l) = false →
  k ∈ classes (analyzeCommand (Direct exe args l) known) ↔
  k ∈ classifySimple exe args ∨
  ∃ f, f ∈ structuralFindingsForSimple exe args ∧ addsClass f = k.
Proof.
  intros Hn. rewrite classes_elem. unfold analyze_direct. cbn [an_classes an_findings].
  rewrite Hn, app_nil_r. split.
  - intros [?|(f & Hf & <-)]; [by left|]. apply elem_of_app in Hf as [Hf|Hf]; [eauto|].
    apply when_elem in Hf as [Hd ->]. left. apply andb_true_iff in Hd as [Hd _].
    rewrite slash_unknown by exact Hd. by left.
  - intros [?|(f & Hf & <-)]; [by left|]. right. exists f. split; [|done].
    apply elem_of_app. by left.
Qed.
End AnalyzeLemmas.

(** ** Quoting *)

(** A character the tokenizer takes as it stands. *)
Definition bare (c : ascii) : bool :=
  negb (Ascii.eqb c dquote || Ascii.eqb c squote || Ascii.eqb c "\" || is_space c || expands c).

(** The shell texts of one word: bare characters, backslash escapes and quoted chunks in any
    mixture. *)
Inductive spells : string → string → Prop :=
  | spells_nil : spells "" ""
  | spells_bare c s w : bare c = true → spells s w → spells (String c s) (String c w)
  | spells_escape c s w : spells s w → spells (String "\" (String c s)) (String c w)
  | spells_single q s w : any_char (Ascii.eqb squote) q = false → spells s w →
      spells (String squote (q +s String squote s)) (q +s w)
  | spells_double q s w : any_char (λ c, Ascii.eqb c dquote || expands c) q = false →
      spells s w → spells (String dquote (q +s String dquote s)) (q +s w).

(** The texts of a list of words separated by blanks. *)
Inductive spelled_line : string → list string → Prop :=
  | line_nil : spelled_line "" []
  | line_blank c s ws : is_space c = true → spelled_line s ws → spelled_line (String c s) ws
  | line_last t w : spells t w → w ≠ "" → spelled_line t [w]
  | line_word t w c s ws : spells t w → w ≠ "" → is_space c = true → spelled_line s ws →
      spelled_line (t +s String c s) (w :: ws).

Lemma add_char_app cur c w : add_char cur c +s w = cur +s String c w.
Proof. unfold add_char. by rewrite str_app_assoc. Qed.

Lemma tokenize_quoted k q cur s :
  any_char (λ c, Ascii.eqb c k || Ascii.eqb k dquote && expands c) q = false →
  tokenize_from cur (Some k) (q +s String k s) = tokenize_from (cur +s q) None s.
Proof.
  revert cur. induction q as [|c q IH]; intros cur Hq.
  - cbn. by rewrite Ascii.eqb_refl, str_app_nil_r.
  - cbn [any_char] in Hq. apply orb_false_iff in Hq as [[Hc He]%orb_false_iff Hq].
    change (String c q +s String k s) with (String c (q +s String k s)).
    cbn [tokenize_from]. rewrite Hc, He, IH by done. by rewrite add_char_app.
Qed.

Lemma is_space_not_meta c : is_space c = true →
  Ascii.eqb c dquote || Ascii.eqb c squote = false ∧ Ascii.eqb c "\" = false ∧ expands c = false.
Proof. by destruct c as [[] [] [] [] [] [] [] []]. Qed.

Lemma tokenize_spelled t w cur s :
  spells t w → tokenize_from cur None (t +s s) = tokenize_from (cur +s w) None s.
Proof.
  intros Ht. revert cur. induction Ht as [|c t w Hc _ IH|c t w _ IH|q t w Hq _ IH|q t w Hq _ IH];
    intros cur.
  - by rewrite str_app_nil_r.
  - unfold bare in Hc. breflect. change (String c t +s s) with (String c (t +s s)).
    cbn [tokenize_from]. rewrite H, H0, H1, H2, H3. cbn [orb]. by rewrite IH, add_char_app.
  - change (String "\" (String c t) +s s) with (String "\" (String c (t +s s))).
    cbn -[add_char String.append]. by rewrite IH, add_char_app.
  - change (String squote (q +s String squote t) +s s)
      with (String squote ((q +s String squote t) +s s)).
    rewrite str_app_assoc. change (String squote t +s s) with (String squote (t +s s)).
    transitivity (tokenize_from cur (Some squote) (q +s String squote (t +s s))); [done|].
    rewrite tokenize_quoted; [by rewrite IH, str_app_assoc|].
    rewrite <- Hq. apply any_char_ext. intros c. rewrite orb_false_r. apply Ascii.eqb_sym.
  - change (String dquote (q +s String dquote t) +s s)
      with (String dquote ((q +s String dquote t) +s s)).
    rewrite str_app_assoc. change (String dquote t +s s) with (String dquote (t +s s)).
    transitivity (tokenize_from cur (Some dquote) (q +s String dquote (t +s s))); [done|].
    rewrite tokenize_quoted; [by rewrite IH, str_app_assoc|exact Hq].
Qed.

Lemma push_word_nonempty w ws : w ≠ "" → push_word w ws = w :: ws.
Proof. unfold push_word. intros Hw. by apply String.eqb_neq in Hw as ->. Qed.

Lemma tokenize_space cur c s : is_space c = true →
  tokenize_from cur None (String c s) = push_word cur <$> tokenize_from "" None s.
Proof.
  intros Hc. destruct (is_space_not_meta c Hc) as (H1 & H2 & _).
  cbn [tokenize_from]. by rewrite H1, H2, Hc.
Qed.

Lemma tokenize_spelled_line src ws : spelled_line src ws → tokenize src = Some ws.
Proof.
  unfold tokenize.
  induction 1 as [|c s ws Hc _ IH|t w Ht Hw|t w c s ws Ht Hw Hc _ IH].
  - done.
  - rewrite tokenize_space, IH by done. done.
  - rewrite <- (str_app_nil_r t), (tokenize_spelled _ _ _ _ Ht). cbn.
    by rewrite push_word_nonempty.
  - rewrite (tokenize_spelled _ _ _ _ Ht), tokenize_space, IH by done. cbn.
    by rewrite push_word_nonempty.
Qed.

(** ** Sets of classes *)

Lemma class_set_ext l1 l2 :
  (∀ k, k ∈ l1 ↔ k ∈ l2) →
  js_sort class_order (dedup l1) = js_sort class_order (dedup l2) ∧
  ∀ k, includes (dedup l1) k = includes (dedup l2) k.
Proof.
  intros He. split.
  - apply js_sort_perm_eq; [apply _|intros a b _ _; apply class_name_inj|].
    apply NoDup_Permutation; [apply dedup_NoDup..|]. intros k. by rewrite !dedup_elem.
  - intros k. apply bool_decide_ext. by rewrite !dedup_elem.
Qed.

(** ** Shell sources *)

Definition newline (c : ascii) : bool := Ascii.eqb c "010" || Ascii.eqb c "013".

(** The characters no supported source holds anywhere, not even quoted. *)
Definition unsupported_char (c : ascii) : bool := char_in ";&<>`()$" c || newline c.

Lemma metas_exact source :
  any_char newline source = false →
  first_metas source && second_metas source = any_char unsupported_char source.
Proof.
  intros Hn. unfold unsupported_char. rewrite any_char_or, Hn, orb_false_r.
  assert (H1 : any_char (char_in ";&><`$()") source = any_char (char_in ";&<>`()$") source)
    by (apply any_char_ext; by intros [[] [] [] [] [] [] [] []]).
  assert (H2 : second_metas source = any_char (char_in ";&<>`()$") source).
  { unfold second_metas. rewrite <- any_char_or. apply any_char_ext.
    by intros [[] [] [] [] [] [] [] []]. }
  unfold first_metas. rewrite H1, H2.
  destruct (any_char (char_in ";&<>`()$") source); [done|apply andb_false_r].
Qed.

(** The splitter, on one list of sides. *)
Lemma analyzeShellSource_exact source l :
  analyzeShellSource source = Segments l ↔
  any_char unsupported_char source = false ∧ str_length source ≤ 8192 ∧
  mapM segment_of (split_char "|" source) = Some l.
Proof.
  unfold analyzeShellSource. change (any_char _ source) with (any_char newline source) at 1.
  destruct (any_char newline source) eqn:Hn; simpl.
  { split; [done|]. intros [Hu _]. unfold unsupported_char in Hu. rewrite any_char_or, Hn in Hu.
    by rewrite orb_true_r in Hu. }
  destruct (8192 <? str_length source) eqn:Hl; breflect.
  { split; [done|]. intros (_ & ? & _). lia. }
  rewrite metas_exact by done. destruct (any_char unsupported_char source) eqn:Hu.
  { split; [done|]. by intros []. }
  change "|" with (String "|" "") at 1. rewrite str_includes_char.
  destruct (any_char (Ascii.eqb "|") source) eqn:Hb.
  - destruct (mapM _ _); split; [by intros [= ->]|by intros (_ & _ & [= ->])|done|by intros (_ & _ & ?)].
  - rewrite split_char_absent by done. simpl. destruct (segment_of source); simpl;
      (split; [|by intros (_ & _ & [= <-])]); by intros [= <-].
Qed.

(** ** More arguments *)

Definition class_in (k : CommandClass) (l : list StructuralFinding) : Prop :=
  ∃ f, f ∈ l ∧ addsClass f = k.

Lemma class_in_app k l1 l2 : class_in k (l1 ++ l2) ↔ class_in k l1 ∨ class_in k l2.
Proof. unfold class_in. setoid_rewrite elem_of_app. naive_solver. Qed.

Lemma class_in_when k b f : class_in k (when b f) ↔ b = true ∧ addsClass f = k.
Proof. unfold class_in. setoid_rewrite when_elem. naive_solver. Qed.

Lemma existsb_more {A} (f : A → bool) l l' : existsb f l = true → existsb f (l ++ l') = true.
Proof. rewrite existsb_app. by intros ->. Qed.

Lemma class_in_rm k exe args all :
  class_in k (rm_findings exe args all) ↔
  exe = "rm" ∧ k = DESTRUCTIVE ∧
  str_in "-r" args || str_in "-rf" args || str_in "-fr" args ||
    existsb (λ t, startsWith t "--recursive") all = true.
Proof.
  unfold rm_findings, class_in. destruct (String.eqb_spec exe "rm"); [|set_solver].
  destruct (_ || existsb (λ t, startsWith t _) all); simpl; [|set_solver].
  destruct (_ || _); simpl; (split; [intros (f & Hf & <-); by in_cases Hf; subst|]);
    (intros (_ & -> & _); eexists; split; [by left|done]).
Qed.

Lemma git_more k exe a args extra all all' :
  class_in k (git_findings exe (a :: args) all) →
  class_in k (git_findings exe (a :: args ++ extra) (all ++ all')).
Proof.
  unfold git_findings. destruct (exe =s? "git"); [|done].
  change (sub_of (a :: args ++ extra)) with (sub_of (a :: args)).
  change (a :: args ++ extra) with ((a :: args) ++ extra). generalize (sub_of (a :: args)) as sub.
  generalize (a :: args) as l. intros l sub.
  assert (Hif : ∀ (b b' : bool) why why' rule, (b = true → b' = true) →
    class_in k (if b then [finding rule why DESTRUCTIVE] else []) →
    class_in k (if b' then [finding rule why' DESTRUCTIVE] else [])).
  { intros b b' why why' rule Hb. destruct b; [rewrite Hb by done|];
      intros (f & Hf & <-); in_cases Hf; subst. eexists; split; [by left|done]. }
  rewrite !class_in_app. intros [Hk|[Hk|Hk]]; [left|right; left|right; right];
    revert Hk; apply Hif; unfold str_in; intros Hb; breflect; apply andb_true_iff; (split; [by apply String.eqb_eq|]).
  - by apply existsb_more.
  - by apply existsb_more.
  - apply orb_true_iff. apply orb_true_iff in H0 as [Ha|Hb]; [left; by apply existsb_more|right].
    breflect. by rewrite !existsb_more.
Qed.

Lemma findings_more k exe a args extra :
  class_in k (structuralFindingsForSimple exe (a :: args)) →
  class_in k (structuralFindingsForSimple exe (a :: args ++ extra)).
Proof.
  unfold structuralFindingsForSimple.
  replace (map toLowerCase (exe :: a :: args ++ extra))
    with (map toLowerCase (exe :: a :: args) ++ map toLowerCase extra)
    by (simpl; by rewrite map_app).
  destruct (join_extends " " (map toLowerCase (exe :: a :: args)) (map toLowerCase extra))
    as [t ->].
  rewrite !class_in_app, !class_in_when, !class_in_rm.
  intros Hk. destruct_or! Hk.
  - by left.
  - by right; left.
  - right; right; left. destruct Hk as (-> & -> & Hr). split_and!; [done..|].
    change (a :: args ++ extra) with ((a :: args) ++ extra). unfold str_in in *.
    rewrite !existsb_app. apply orb_true_iff in Hr as [Hr|Hr]; [|rewrite Hr; by rewrite !orb_true_r].
    apply orb_true_iff in Hr as [Hr|Hr]; [|rewrite Hr; by rewrite !orb_true_r].
    apply orb_true_iff in Hr as [Hr|Hr]; rewrite Hr; by rewrite ?orb_true_r.
  - do 3 right; left. by apply git_more.
  - do 4 right; left. destruct Hk as [Hb Hk]. split; [|done]. destruct args; [|done].
    by rewrite andb_false_r in Hb.
  - do 5 right; left. destruct Hk as [Hb Hk]. split; [|done].
    apply orb_true_iff in Hb as [Hb|Hb];
      [apply orb_true_iff in Hb as [Hb|Hb]; [apply orb_true_iff in Hb as [Hb|Hb]|]|];
      [rewrite Hb|rewrite (str_includes_app _ _ _ Hb)..]; by rewrite ?orb_true_r.
  - by do 6 right; left.
  - by do 7 right; left.
  - by do 8 right.
Qed.

(** ** What is read-only *)

Definition READ_TOOLS : list string :=
  ["cat"; "ls"; "head"; "tail"; "grep"; "rg"; "find"; "wc"; "git"].

(** The command line mentions one of the watched SQL statements. *)
Definition sql_phrase (exe : string) (args : list string) : bool :=
  let joined := join " " (map toLowerCase (exe :: args)) in
  str_includes joined "drop database" || str_includes joined "drop table" ||
  str_includes joined "truncate table".

Definition read_only_shape (exe : string) (args : list string) : Prop :=
  (exe ∈ READ_TOOLS ∧ sub_of args ∈ GIT_READS) ∨
  (exe ∈ BUILD_FAMILIES ∧ sub_of args ∈ ["typecheck"; "lint"]).

Lemma read_only_class exe args :
  READ_ONLY ∈ classifySimple exe args ↔ read_only_shape exe args.
Proof.
  unfold classifySimple, read_only_shape. fold READ_TOOLS. rewrite <- !str_in_spec.
  destruct (str_in exe BUILD_FAMILIES) eqn:Hb.
  - assert (Hr : str_in exe READ_TOOLS = false).
    { apply str_in_spec in Hb. in_cases Hb; by rewrite Hb. }
    rewrite Hr. split.
    + intros Hk. right. split; [done|]. revert Hk. unfold str_in at 1. simpl.
      repeat case_match; intros Hk; in_cases Hk; try done; breflect.
      match goal with H : _ || _ = true |- _ => apply orb_true_iff in H as [E|E] end;
        breflect; by rewrite E.
    + intros [[? _]|[_ Hs]]; [done|]. apply str_in_spec in Hs. in_cases Hs; rewrite Hs; by left.
  - destruct (str_in exe READ_TOOLS) eqn:Hr.
    + split; [|intros [[_ ->]|[? _]]; [by left|done]].
      destruct (str_in (sub_of args) GIT_READS); [by left|]. intros Hk. by in_cases Hk.
    + split; [|naive_solver]. destruct (str_in exe ["curl"; "wget"]); intros Hk; by in_cases Hk.
Qed.

Lemma no_findings exe args :
  read_only_shape exe args → sql_phrase exe args = false → structuralFindingsForSimple exe args = [].
Proof.
  intros Hs Hsql. unfold structuralFindingsForSimple.
  assert (Hdb : ∀ b f, b = false →
    when (b || str_includes (join " " (map toLowerCase (exe :: args))) "drop database" ||
          str_includes (join " " (map toLowerCase (exe :: args))) "drop table" ||
          str_includes (join " " (map toLowerCase (exe :: args))) "truncate table") f = []).
  { intros b f ->. unfold sql_phrase in Hsql. cbn [orb]. by rewrite Hsql. }
  destruct args as [|a args]; [destruct Hs as [[_ Hs]|[_ Hs]]; by in_cases Hs|].
  unfold git_findings, arg0_is, read_only_shape in *.
  change (sub_of (a :: args)) with (toLowerCase a) in *.
  assert (Hni : str_in a ["install"; "add"; "ci"] = true →
    str_in (toLowerCase a) ["install"; "add"; "ci"] = true).
  { intros Hi. apply str_in_spec in Hi. in_cases Hi; by rewrite Hi. }
  destruct Hs as [[He Hs]|[He Hs]].
  - in_cases He; subst exe; rewrite Hdb by done; cbn -[String.eqb]; try done.
    in_cases Hs; by rewrite Hs.
  - destruct (str_in a ["install"; "add"; "ci"]).
    { specialize (Hni eq_refl). in_cases Hs; by rewrite Hs in Hni. }
    in_cases He; subst exe; rewrite Hdb by done; done.
Qed.

(** ** Properties *)

(** A proposal of this simple command, without network. *)
Definition alone (s : Segment) (l : Limits) : SandboxCommandProposal :=
  Direct (executable s) (argv s)
    {| cwd := cwd l; envKeys := envKeys l; timeoutMs := timeoutMs l;
       network := {| required := false; destinations := [] |} |}.

Lemma pipes_longer l : pipes_to_shell l = true → (1 <? Z.of_nat (length l)) = true.
Proof. destruct l as [|x [|y l]]; [done..|]. intros _. apply Z.ltb_lt. simpl. lia. Qed.

Lemma pipe_finding_only l :
  existsb (λ f, ruleId (factor f) =s? "cmd-30-pipe-to-shell")
    (when (pipes_to_shell l) pipe_to_shell ++
     (l ≫= λ s, structuralFindingsForSimple (executable s) (argv s))) = pipes_to_shell l.
Proof.
  destruct (pipes_to_shell l) eqn:Hp; [done|]. simpl. apply existsb_false. intros f Hf.
  apply list_elem_of_bind in Hf as (s & Hf & _). apply structural_findings in Hf as [Hf _].
  by apply String.eqb_neq.
Qed.

Section CommandProperties.
Context `{Digest}.

Lemma shell_elem sh source lim known l k :
  analyzeShellSource source = Segments l →
  k ∈ classes (analyzeCommand (Shell sh source lim) known) ↔
  (∃ s, s ∈ l ∧ k ∈ classes (analyzeCommand (alone s lim) known)) ∨
  (k = PRIVILEGED ∧ pipes_to_shell l = true) ∨ (k = NETWORKED ∧ fetches l = true).
Proof.
  intros Hl. rewrite classes_elem. unfold analyze_shell. rewrite Hl.
  cbn [an_classes an_findings]. unfold alone. setoid_rewrite direct_elem; [|done].
  split.
  - intros [Hk|(f & Hf & <-)].
    + apply elem_of_app in Hk as [Hk|Hk].
      * right; right. destruct (fetches l); in_cases Hk; done.
      * apply list_elem_of_bind in Hk as (s & Hk & Hs). left. eauto.
    + apply elem_of_app in Hf as [Hf|Hf].
      * apply when_elem in Hf as [Hp ->]. right; left. done.
      * apply list_elem_of_bind in Hf as (s & Hf & Hs). left. eauto 6.
  - intros [(s & Hs & [Hk|(f & Hf & <-)])|[[-> Hp]|[-> Hf]]].
    + left. apply elem_of_app; right. apply list_elem_of_bind. eauto.
    + right. exists f. split; [|done]. apply elem_of_app; right. apply list_elem_of_bind. eauto.
    + right. exists pipe_to_shell. rewrite Hp. split; [by left|done].
    + left. rewrite Hf. by left.
Qed.

(* @prop safety 4.5 : analyzeCommand analyzeShellSource tokenize analyze_shell structuralFindingsForSimple classifySimple / shell_fails_closed_witness *)
(** C19. Shell analysis fails closed on what it does not read and misses nothing it splits: a source
    that holds one of the characters [;], [&], [<], [>], [(], [)], [$], the backquote or a line
    break anywhere -- even inside quotes --, is longer than 8192 units, or has a side of a pipe
    without a word is UNSUPPORTED and of class UNKNOWN; every other source is cut at its pipes,
    and its classes are exactly the classes each of its commands has when it is proposed alone,
    plus PRIVILEGED when a later command of the pipe is an interpreter (and only then the parse
    is AMBIGUOUS) and NETWORKED when an earlier one downloads.  No other character makes a source
    unsupported: patterns, tildes and braces are words as they stand and an open quote ends with
    the source, all of it COMPLETE ([patterns_are_complete]), although patterns on dangerous
    operands are said to be refused. *)
Theorem shell_fails_closed sh source lim known r
  (Hr : r = analyzeCommand (Shell sh source lim) known) :
  (any_char unsupported_char source = true ∨ 8192 < str_length source ∨
    mapM segment_of (split_char "|" source) = None →
   parseStatus r = UNSUPPORTED ∧ classes r = [UNKNOWN]) ∧
  (∀ l, mapM segment_of (split_char "|" source) = Some l →
   any_char unsupported_char source = false → str_length source ≤ 8192 →
   parseStatus r = (if pipes_to_shell l then AMBIGUOUS else COMPLETE) ∧
   ∀ k, k ∈ classes r ↔
     (∃ s, s ∈ l ∧ k ∈ classes (analyzeCommand (alone s lim) known)) ∨
     (k = PRIVILEGED ∧ pipes_to_shell l = true) ∨ (k = NETWORKED ∧ fetches l = true)).
Proof.
  subst r. split.
  - intros Hbad. assert (Hu : ∃ why, analyzeShellSource source = Unsupported why).
    { destruct (analyzeShellSource source) as [l|why] eqn:E; [exfalso|eauto].
      apply analyzeShellSource_exact in E as (Hm & Hlen & Hs).
      destruct Hbad as [?|[?|?]]; [congruence|lia|congruence]. }
    destruct Hu as [why Hu]. unfold analyzeCommand, analyze_shell. by rewrite Hu.
  - intros l Hs Hm Hlen.
    assert (Hl : analyzeShellSource source = Segments l) by by apply analyzeShellSource_exact.
    split; [|intros k; by apply shell_elem].
    unfold analyzeCommand, analyze_shell. rewrite Hl. cbn [parseStatus an_status].
    rewrite pipe_finding_only. destruct (pipes_to_shell l) eqn:Hp; [|by rewrite andb_false_r].
    by rewrite pipes_longer.
Qed.

(** Quoting hides nothing: however the words of a command are written in the shell -- with
    backslash escapes, single or double quotes around any part of a word, and any blanks
    between words -- the shell analysis gives the classes, obligations and structural findings
    that the same command gets as plain argument data. *)
Theorem spelling_irrelevant sh source exe args lim known
  (Hw : spelled_line source (exe :: args))
  (Hplain : any_char (λ c, unsupported_char c || Ascii.eqb "|" c) source = false)
  (Hlen : str_length source ≤ 8192) :
  let s := analyzeCommand (Shell sh source lim) known in
  let d := analyzeCommand (alone {| executable := exe; argv := args |} lim) known in
  parseStatus s = COMPLETE ∧ classes s = classes d ∧ obligations s = obligations d ∧
  factors s = map factor (structuralFindingsForSimple exe args) ∧
  ∃ dynamic, factors d = factors s ++ map factor dynamic.
Proof.
  intros s d. subst s d. rewrite any_char_or in Hplain. apply orb_false_iff in Hplain as [Hm Hb].
  assert (Hl : analyzeShellSource source = Segments [{| executable := exe; argv := args |}]).
  { apply analyzeShellSource_exact. split_and!; [done..|].
    rewrite split_char_absent by done. simpl. unfold segment_of.
    by rewrite (tokenize_spelled_line _ _ Hw). }
  set (seg := {| executable := exe; argv := args |}) in *.
  assert (Hset : ∀ k,
    k ∈ an_classes (analyze_shell source) ++ map addsClass (an_findings (analyze_shell source)) ↔
    k ∈ an_classes (analyze_direct known exe args false) ++
        map addsClass (an_findings (analyze_direct known exe args false))).
  { intros k. pose proof (shell_elem sh source lim known _ k Hl) as He.
    unfold alone, analyzeCommand in He. cbn [classes network required] in He.
    rewrite !js_sort_elem, !dedup_elem in He. rewrite He. setoid_rewrite js_sort_elem.
    setoid_rewrite dedup_elem. split.
    - intros [(s & Hs & Hk)|[[_ Hp]|[_ Hf]]]; [|done..].
      by apply list_elem_of_singleton in Hs as ->.
    - intros Hk. left. exists seg. split; [by left|done]. }
  apply class_set_ext in Hset as [Hcls Hinc].
  unfold analyzeCommand, alone. cbn [parseStatus classes obligations factors network required].
  rewrite Hcls, !Hinc. unfold analyze_shell. rewrite Hl. cbn -[structuralFindingsForSimple].
  rewrite !app_nil_r. split_and!; [done..|]. rewrite map_app. by eexists.
Qed.

(** What counts as purely read-only, exactly: a command proposed as argument data has the one
    class READ_ONLY if and only if it asks for no network, mentions no watched SQL statement,
    and is either a build tool called with lint or typecheck, or one of cat, ls, head, tail,
    grep, rg, find, wc and git whose first argument, lowercased, is one of seven git
    subcommands.  So [cat README.md] is not read-only, while [find log -delete] and
    [git branch -D main] are: the cases of the plain tools fall through into git's. *)
Theorem read_only_exact exe args lim known :
  classes (analyzeCommand (Direct exe args lim) known) = [READ_ONLY] ↔
  required (network lim) = false ∧ sql_phrase exe args = false ∧ read_only_shape exe args.
Proof.
  split.
  - intros Hc.
    assert (Hall : ∀ k, k ∈ classes (analyzeCommand (Direct exe args lim) known) ↔ k = READ_ONLY)
      by (intros k; rewrite Hc; apply list_elem_of_singleton).
    setoid_rewrite classes_elem in Hall. cbn [an_classes an_findings analyze_direct] in Hall.
    split_and!.
    + destruct (required (network lim)); [|done].
      specialize (proj1 (Hall NETWORKED)). rewrite elem_of_app. intros Hn.
      discriminate Hn. left. right. by left.
    + destruct (sql_phrase exe args) eqn:Hs; [|done].
      specialize (proj1 (Hall DATABASE)). intros Hd. discriminate Hd. right.
      assert (Hk : class_in DATABASE (structuralFindingsForSimple exe args)).
      { unfold structuralFindingsForSimple. rewrite !class_in_app, !class_in_when.
        do 5 right; left. split; [|done]. unfold sql_phrase in Hs.
        rewrite <- !orb_assoc, orb_assoc, <- orb_assoc.
        apply orb_true_iff; right. by rewrite orb_assoc. }
      destruct Hk as (f & Hf & He). exists f. split; [|done]. apply elem_of_app. by left.
    + apply read_only_class. destruct (proj2 (Hall READ_ONLY) eq_refl) as [Hk|(f & Hf & He)].
      * apply elem_of_app in Hk as [Hk|Hk]; [done|]. case_match; by in_cases Hk.
      * apply elem_of_app in Hf as [Hf|Hf].
        -- by apply structural_findings in Hf as [_ ?].
        -- by apply when_elem in Hf as [_ ->].
  - intros (Hn & Hsql & Hs). pose proof (no_findings _ _ Hs Hsql) as Hno.
    apply read_only_class in Hs.
    assert (Hone : classifySimple exe args = [READ_ONLY]).
    { revert Hs. unfold classifySimple. repeat case_match; intros Hs; by in_cases Hs. }
    assert (Hd : (startsWith exe "./" || str_includes exe "/") = false).
    { destruct (_ || _) eqn:E; [|done]. rewrite slash_unknown in Hone by done. done. }
    unfold analyzeCommand, analyze_direct, dynamic_findings.
    cbn [classes an_classes an_findings]. by rewrite Hone, Hno, Hd, Hn.
Qed.

(** More arguments never clear a command: whatever is appended to a command with at least one
    argument, every class it had before it keeps, so no trailing flag or operand downgrades a
    destructive, privileged or database command. *)
Theorem arguments_only_add exe a args extra lim known k
  (Hk : k ∈ classes (analyzeCommand (Direct exe (a :: args) lim) known)) :
  k ∈ classes (analyzeCommand (Direct exe (a :: args ++ extra) lim) known).
Proof.
  rewrite classes_elem in *. cbn [an_classes an_findings analyze_direct] in *.
  change (classifySimple exe (a :: args ++ extra)) with (classifySimple exe (a :: args)).
  destruct Hk as [Hk|Hk]; [by left|right]. revert Hk.
  fold (class_in k (structuralFindingsForSimple exe (a :: args) ++ dynamic_findings known exe)).
  fold (class_in k (structuralFindingsForSimple exe (a :: args ++ extra) ++
    dynamic_findings known exe)).
  rewrite !class_in_app. intros [Hk|Hk]; [left; by apply findings_more|by right].
Qed.
End CommandProperties.

(** ** Witnesses *)

Definition quiet : Limits :=
  {| cwd := "."; envKeys := []; timeoutMs := 1000;
     network := {| required := false; destinations := [] |} |}.

(** [r\m 'bu'ild  -rf] is [rm build -rf]. *)
Definition hidden_rm : string := "r\m 'bu'ild  -rf".

Lemma hidden_rm_spelled : spelled_line hidden_rm ["rm"; "build"; "-rf"].
Proof.
  refine (line_word "r\m" "rm" " " "'bu'ild  -rf" _ _ _ eq_refl _); [|done|].
  - by repeat constructor.
  - refine (line_word "'bu'ild" "build" " " " -rf" _ _ _ eq_refl _); [|done|].
    + apply (spells_single "bu" "ild" "ild"); [done|]. by repeat constructor.
    + apply line_blank; [done|]. apply line_last; [|done]. by repeat constructor.
Defined.

Lemma spelling_irrelevant_witness :
  let _ : Digest := λ s, s in
  classes (analyzeCommand (Shell "sh" hidden_rm quiet) []) = [DESTRUCTIVE; UNKNOWN].
Proof.
  intros D.
  destruct (spelling_irrelevant "sh" hidden_rm "rm" ["build"; "-rf"] quiet [] hidden_rm_spelled)
    as (_ & Hc & _); [by vm_compute..|].
  rewrite Hc. by vm_compute.
Defined.

(** The parse and the classes of a shell text. *)
Definition shell_summary (source : string) : ParseStatus * list CommandClass :=
  let _ : Digest := λ s, s in
  let r := analyzeCommand (Shell "sh" source quiet) [] in (parseStatus r, classes r).

Example patterns_are_complete :
  map (λ s, (shell_summary s).1) ["rm -rf *"; "rm -rf /et?/[a-z]*"; "cat ~/x{a,b}"; "ls 'open quote"] =
  [COMPLETE; COMPLETE; COMPLETE; COMPLETE].
Proof. vm_compute. reflexivity. Qed.

Lemma shell_fails_closed_witness :
  let _ : Digest := λ s, s in
  parseStatus (analyzeCommand (Shell "sh" "curl http://x | sh" quiet) []) = AMBIGUOUS ∧
  classes (analyzeCommand (Shell "sh" "ls $(id)" quiet) []) = [UNKNOWN].
Proof.
  intros D. split.
  - destruct (shell_fails_closed "sh" "curl http://x | sh" quiet [] _ eq_refl) as [_ Hs].
    edestruct Hs as [-> _]; by vm_compute.
  - destruct (shell_fails_closed "sh" "ls $(id)" quiet [] _ eq_refl) as [Hu _].
    apply Hu. left. by vm_compute.
Defined.

Lemma arguments_only_add_witness :
  let _ : Digest := λ s, s in
  DESTRUCTIVE ∈ classes (analyzeCommand (Direct "rm" ["-rf"; "x"; "--dry-run"] quiet) []).
Proof.
  intros D. apply (arguments_only_add "rm" "-rf" ["x"] ["--dry-run"] quiet []).
  vm_compute. by left.
Defined.

Example plain_reads_are_unknown :
  let _ : Digest := λ s, s in
  classes (analyzeCommand (Direct "cat" ["README.md"] quiet) []) = [UNKNOWN] ∧
  classes (analyzeCommand (Direct "find" ["log"; "-delete"] quiet) []) = [READ_ONLY] ∧
  classes (analyzeCommand (Direct "git" ["branch"; "-D"; "main"] quiet) []) = [READ_ONLY].
Proof. by vm_compute. Qed.
