(* ===== verification/Invocation.v ===== *)
(** * Invocation: workflow names, trigger rules and manual commands

    [packages/policy-engine/src/invocation/]: the canonical workflow ids with their aliases
    ([registry.ts]), the trigger matcher with its dedupe keys and the manual command
    authorization ([matcher.ts]), and the per-command input schemas ([command-input.ts]). *)

From S2P Require Import Prelude JsString Effects Json Contracts.

(** ** The registry *)

(* @src packages/policy-engine/src/invocation/registry.ts:8-19 WorkflowIdV1 *)
Inductive WorkflowIdV1 :=
  | implement_issue | diagnose_failure | security_audit | security_patch | dependency_upgrade
  | review_remediation | repository_health_check | manual_refactor.

#[export] Instance WorkflowIdV1_eq_dec : EqDecision WorkflowIdV1.
Proof. solve_decision. Defined.

Definition workflow_name (w : WorkflowIdV1) : string :=
  match w with
  | implement_issue => "implement_issue" | diagnose_failure => "diagnose_failure"
  | security_audit => "security_audit" | security_patch => "security_patch"
  | dependency_upgrade => "dependency_upgrade" | review_remediation => "review_remediation"
  | repository_health_check => "repository_health_check" | manual_refactor => "manual_refactor"
  end.

Definition WORKFLOW_IDS_V1 : list WorkflowIdV1 :=
  [implement_issue; diagnose_failure; security_audit; security_patch; dependency_upgrade;
   review_remediation; repository_health_check; manual_refactor].

(* @src packages/policy-engine/src/invocation/registry.ts:21-33 TriggerIdV1 *)
Inductive TriggerIdV1 :=
  | issues_opened | issues_labeled | pull_request_opened | pull_request_synchronize
  | pull_request_reopened | pull_request_review_submitted | pull_request_review_comment_created
  | check_run_completed | push_default_branch.

Definition trigger_name (t : TriggerIdV1) : string :=
  match t with
  | issues_opened => "issues.opened" | issues_labeled => "issues.labeled"
  | pull_request_opened => "pull_request.opened"
  | pull_request_synchronize => "pull_request.synchronize"
  | pull_request_reopened => "pull_request.reopened"
  | pull_request_review_submitted => "pull_request_review.submitted"
  | pull_request_review_comment_created => "pull_request_review_comment.created"
  | check_run_completed => "check_run.completed" | push_default_branch => "push.default_branch"
  end.

(* @src packages/policy-engine/src/invocation/registry.ts:36-42 BASE_SURFACE_ALIASES *)
Definition BASE_SURFACE_ALIASES : list (string * WorkflowIdV1) :=
  [("fix_tests", diagnose_failure); ("diagnose_bug", diagnose_failure);
   ("security_scan", security_audit); ("dependency_update", dependency_upgrade);
   ("refactor", manual_refactor)].

(* @src packages/policy-engine/src/invocation/registry.ts:52-59 COMMAND_ALIASES_V1 *)
Definition COMMAND_ALIASES_V1 : list (string * WorkflowIdV1) :=
  BASE_SURFACE_ALIASES ++
  [("review", review_remediation); ("fix", diagnose_failure); ("audit", security_audit);
   ("patch", security_patch); ("implement", implement_issue)].

(** What a plain object inherits: all of these members are truthy. *)
Definition object_prototype_members : list string :=
  ["constructor"; "__defineGetter__"; "__defineSetter__"; "hasOwnProperty"; "__lookupGetter__";
   "__lookupSetter__"; "isPrototypeOf"; "propertyIsEnumerable"; "toString"; "valueOf";
   "__proto__"; "toLocaleString"].

(** The value of [COMMAND_ALIASES_V1[name]]: a workflow id, or a member of
    [Object.prototype]. *)
Inductive alias_target := Workflow (w : WorkflowIdV1) | Inherited (name : string).

#[export] Instance alias_target_eq_dec : EqDecision alias_target.
Proof. solve_decision. Defined.

(* @src packages/policy-engine/src/invocation/registry.ts:93-93 normalizeWorkflowId *)
Definition alias_of (name : string) : option alias_target :=
  match assoc name COMMAND_ALIASES_V1 with
  | Some w => Some (Workflow w)
  | None => if str_in name object_prototype_members then Some (Inherited name) else None
  end.

(* @src packages/policy-engine/src/invocation/registry.ts:62-67 NON_WORKFLOW_NAMES *)
Definition NON_WORKFLOW_NAMES : list string :=
  ["run_tests"; "static_analysis"; "integration_tests"; "dependency_check"].

(* @src packages/policy-engine/src/invocation/registry.ts:69-76 WorkflowIdResult *)
Inductive WorkflowIdResult :=
  | RESOLVED (workflowId : alias_target) (viaAlias : option string)
  | UNKNOWN (input : string)
  | NOT_A_WORKFLOW (input hint : string).

(* @src packages/policy-engine/src/invocation/registry.ts:82-84 normalizeWorkflowId *)
Definition find_workflow (s : string) : option WorkflowIdV1 :=
  List.find (λ w, workflow_name w =s? s) WORKFLOW_IDS_V1.

(* @src packages/policy-engine/src/invocation/registry.ts:78-96 normalizeWorkflowId *)
Definition normalizeWorkflowId (input : string) : WorkflowIdResult :=
  let trimmed := trim input in
  if negb (nonempty trimmed) then UNKNOWN input
  else match find_workflow trimmed with
  | Some w => RESOLVED (Workflow w) None
  | None =>
      if str_in trimmed NON_WORKFLOW_NAMES then
        NOT_A_WORKFLOW input
          ("'" +s trimmed +s "' is a validation step/obligation name, not a standalone workflow")
      else match alias_of trimmed with
      | Some t => RESOLVED t (Some trimmed)
      | None => UNKNOWN input
      end
  end.

Definition command_unknown : js_error := GuardError "COMMAND_UNKNOWN".

(* @src packages/policy-engine/src/invocation/registry.ts:121-126 normalizeCommandId *)
Definition normalizeCommandId (input : string) : outcome alias_target :=
  match normalizeWorkflowId input with
  | RESOLVED t _ => Returned t
  | _ => Threw command_unknown
  end.

Definition INVOCATION_REGISTRY_VERSION : string := "invocation-registry@1".

(* @src packages/policy-engine/src/invocation/registry.ts:135-151 triggerFilter *)
Record TriggerFilter := {
  labelsAny : option (list string);
  branchesAny : option (list string);
  conclusionsAny : option (list string);
  prOrigin : option string;
}.

(* @src packages/policy-engine/src/invocation/registry.ts:135-149 triggerFilter *)
Definition triggerFilter (f : TriggerFilter) : bool :=
  let opt {A} (p : A → bool) (o : option A) := match o with Some a => p a | None => true end in
  let texts hi n l := forallb (len_between 1 hi) l && (Z.of_nat (length l) <=? n) in
  opt (texts 64 16) (labelsAny f) && opt (texts 256 16) (branchesAny f) &&
  opt (λ l, forallb (λ c, str_in c ["success"; "failure"; "cancelled"; "timed_out"]) l &&
            (Z.of_nat (length l) <=? 4)) (conclusionsAny f) &&
  opt (λ o, str_in o ["fork"; "same_repository"]) (prOrigin f).

(* @src packages/policy-engine/src/invocation/registry.ts:153-161 TriggerRule *)
Record TriggerRule := {
  ruleId : string;
  eventTrigger : TriggerIdV1;
  rule_workflowId : WorkflowIdV1;
  filter : option TriggerFilter;
  enabled : bool;
  maxFanOut : Z;
  cooldownSeconds : Z;
}.

(* @src packages/policy-engine/src/invocation/registry.ts:163-170 ManualCommandDefinition *)
Record ManualCommandDefinition := {
  cmd_workflowId : WorkflowIdV1;
  inputSchemaId : string;
  available : bool;
  rateLimitPerHour : Z;
}.

Definition manual (w : WorkflowIdV1) (schema : string) (limit : Z) : ManualCommandDefinition :=
  {| cmd_workflowId := w; inputSchemaId := schema; available := true; rateLimitPerHour := limit |}.

(* @src packages/policy-engine/src/invocation/registry.ts:173-222 MANUAL_COMMANDS_V1 *)
Definition MANUAL_COMMANDS_V1 : list ManualCommandDefinition :=
  [manual implement_issue "input.implement-issue@1" 10;
   manual diagnose_failure "input.diagnose-failure@1" 20;
   manual security_audit "input.security-audit@1" 6;
   manual security_patch "input.security-patch@1" 6;
   manual dependency_upgrade "input.dependency-upgrade@1" 4;
   manual review_remediation "input.review-remediation@1" 12;
   manual repository_health_check "input.repository-health@1" 4;
   manual manual_refactor "input.manual-refactor@1" 4].

(** ** The trigger matcher *)

(* @src packages/policy-engine/src/invocation/matcher.ts:16-27 NormalizedEvent *)
Record NormalizedEvent := {
  deliveryId : string;
  repositoryExternalId : string;
  trigger : string;
  resourceIdentity : string;
  labels : list string;
  branch : option string;
  conclusions : option (list string);
  event_prOrigin : option string;
  actorLogin : string;
}.

(* @src packages/policy-engine/src/invocation/matcher.ts:29-32 PolicyTriggerSnapshot *)
Record PolicyTriggerSnapshot := { policySnapshotId : string; rules : list TriggerRule }.

(* @src packages/policy-engine/src/invocation/matcher.ts:34-40 MatchedCandidate *)
Record MatchedCandidate := {
  cand_workflowId : WorkflowIdV1;
  matchedRuleIds : list string;
  dedupeKey : string;
  resourceKey : string;
  cand_maxFanOut : Z;
}.

(* @src packages/policy-engine/src/invocation/matcher.ts:42-49 MatchResult *)
Inductive MatchResult :=
  | MATCHED (candidates : list MatchedCandidate)
  | NO_MATCH
  | COOLDOWN_ACTIVE (rule : string) (seconds : Z)
  | FAN_OUT_EXCEEDED (distinct cap : Z).

(* @src packages/policy-engine/src/invocation/matcher.ts:51-69 filterMatches *)
Definition filterMatches (r : TriggerRule) (e : NormalizedEvent) : bool :=
  match filter r with
  | None => true
  | Some f =>
      match labelsAny f with
      | Some l => existsb (λ x, str_in x (labels e)) l
      | None => true
      end &&
      match branchesAny f with
      | Some l => match branch e with Some b => nonempty b && str_in b l | None => false end
      | None => true
      end &&
      match conclusionsAny f with
      | Some l => existsb (λ c, str_in c l) (conclusions e ?? [])
      | None => true
      end &&
      match prOrigin f with
      | Some o => negb (nonempty o) || bool_decide (event_prOrigin e = Some o)
      | None => true
      end
  end.

Section Matcher.
Context `{Digest} `{Collation}.

(* @src packages/policy-engine/src/invocation/matcher.ts:72-93 invocationDedupeKey *)
Definition invocationDedupeKey (repositoryId sourceKey rule workflow resource snapshot : string)
  : string :=
  sha256 (join "|" [repositoryId; sourceKey; rule; workflow; resource; snapshot;
                    INVOCATION_REGISTRY_VERSION]).

(** [byWorkflow]: a [Map] in insertion order, with the rule ids and the first rule. *)
Definition groups : Type := list (WorkflowIdV1 * (list string * TriggerRule)).

(* @src packages/policy-engine/src/invocation/matcher.ts:143-152 TriggerMatcher.matchEvent *)
Fixpoint add_rule (r : TriggerRule) (g : groups) : groups :=
  match g with
  | [] => [(rule_workflowId r, ([ruleId r], r))]
  | (w, (ids, first)) :: g =>
      if decide (w = rule_workflowId r) then
        (w, (js_sort code_unit_compare (ids ++ [ruleId r]), first)) :: g
      else (w, (ids, first)) :: add_rule r g
  end.

(* @src packages/policy-engine/src/invocation/matcher.ts:141-152 TriggerMatcher.matchEvent *)
Definition group_rules (l : list TriggerRule) : groups := fold_left (λ g r, add_rule r g) l [].

(* @src packages/policy-engine/src/invocation/matcher.ts:142-144 TriggerMatcher.matchEvent *)
Definition fan_out_cap (l : list TriggerRule) : Z :=
  fold_left (λ cap r, Z.min cap (maxFanOut r)) l 9007199254740991.

(** [lastInvocationAtByRule.get(`${rule.ruleId}|${event.resourceIdentity}`)] in cooldown. *)
(* @src packages/policy-engine/src/invocation/matcher.ts:126-129 TriggerMatcher.matchEvent *)
Definition cooling (e : NormalizedEvent) (now : Z) (last : gmap string Z) (r : TriggerRule) : bool :=
  match last !! (ruleId r +s "|" +s resourceIdentity e) with
  | Some t => now - t <? cooldownSeconds r * 1000
  | None => false
  end.

(* @src packages/policy-engine/src/invocation/matcher.ts:164-177 TriggerMatcher.matchEvent *)
Definition candidate (e : NormalizedEvent) (snapshot : string)
    (g : WorkflowIdV1 * (list string * TriggerRule)) : MatchedCandidate :=
  let '(w, (ids, first)) := g in
  {| cand_workflowId := w; matchedRuleIds := ids;
     dedupeKey := invocationDedupeKey (repositoryExternalId e) (deliveryId e) (join "+" ids)
                    (workflow_name w) (resourceIdentity e) snapshot;
     resourceKey := resourceIdentity e; cand_maxFanOut := maxFanOut first |}.

Definition by_workflow_name {A} : WorkflowIdV1 * A → WorkflowIdV1 * A → Z :=
  cmp_by (λ g, workflow_name g.1) localeCompare.

(** Enabled rules of the event's trigger, by rule id. *)
(* @src packages/policy-engine/src/invocation/matcher.ts:108-115 TriggerMatcher.matchEvent *)
Definition matching_rules (e : NormalizedEvent) (s : PolicyTriggerSnapshot) : list TriggerRule :=
  List.filter (λ r, filterMatches r e)
    (js_sort (cmp_by ruleId localeCompare)
       (List.filter (λ r, enabled r && (trigger_name (eventTrigger r) =s? trigger e)) (rules s))).

(* @src packages/policy-engine/src/invocation/matcher.ts:100-180 TriggerMatcher.matchEvent *)
Definition matchEvent (e : NormalizedEvent) (s : PolicyTriggerSnapshot) (now : Z)
    (lastInvocationAtByRule : gmap string Z) : MatchResult :=
  let matching := matching_rules e s in
  match matching with
  | [] => NO_MATCH
  | _ =>
      match List.find (cooling e now lastInvocationAtByRule) matching with
      | Some r => COOLDOWN_ACTIVE (ruleId r) (cooldownSeconds r)
      | None =>
          let byWorkflow := group_rules matching in
          let cap := fan_out_cap matching in
          if Z.of_nat (length byWorkflow) >? cap then
            FAN_OUT_EXCEEDED (Z.of_nat (length byWorkflow)) cap
          else
            MATCHED (map (candidate e (policySnapshotId s)) (js_sort by_workflow_name byWorkflow))
      end
  end.

(** ** Manual commands *)

(* @src packages/policy-engine/src/invocation/matcher.ts:187-194 ManualCommandRequest *)
Record ManualCommandRequest := {
  workflowIdInput : string;
  repositoryId : string;
  idempotencyKey : string;
  callerHasRepositoryAccess : bool;
  req_policySnapshotId : string;
}.

(* @src packages/policy-engine/src/invocation/matcher.ts:196-207 ManualResult *)
Inductive ManualResult :=
  | AUTHORIZED (workflowId : alias_target) (key : string) (viaAlias : option string)
  | DENIED_UNKNOWN (input : string)
  | DENIED_NOT_A_WORKFLOW (input hint : string)
  | DENIED_UNAVAILABLE (workflowId : alias_target)
  | DENIED_NO_ACCESS (detail : string)
  | DENIED_RATE_LIMIT (detail : string).

(* @src packages/policy-engine/src/invocation/matcher.ts:215-269 ManualCommandRegistry.authorize *)
Definition authorize (request : ManualCommandRequest) (normalize : string → WorkflowIdResult)
    (definitions : list ManualCommandDefinition) (recentInvocationCount : option Z) : ManualResult :=
  match normalize (workflowIdInput request) with
  | UNKNOWN _ => DENIED_UNKNOWN (workflowIdInput request)
  | NOT_A_WORKFLOW _ hint => DENIED_NOT_A_WORKFLOW (workflowIdInput request) hint
  | RESOLVED t via =>
      match List.find (λ c, bool_decide (Workflow (cmd_workflowId c) = t)) definitions with
      | None => DENIED_UNKNOWN (workflowIdInput request)
      | Some d =>
          if negb (available d) then DENIED_UNAVAILABLE t
          else if negb (callerHasRepositoryAccess request) then
            DENIED_NO_ACCESS "caller lacks repository workflow-start permission"
          else if (recentInvocationCount ?? 0) >=? rateLimitPerHour d then
            DENIED_RATE_LIMIT ("manual invocation limit " +s num_to_string (rateLimitPerHour d) +s
                               "/hour reached")
          else
            AUTHORIZED t
              (invocationDedupeKey (repositoryId request) (idempotencyKey request) "manual"
                 (workflow_name (cmd_workflowId d)) "manual" (req_policySnapshotId request)) via
      end
  end.
End Matcher.

(** ** What a match says *)

Section Matching.
Context `{Digest} `{Collation}.

Definition rules_for (w : WorkflowIdV1) (l : list TriggerRule) : list TriggerRule :=
  List.filter (λ r, bool_decide (rule_workflowId r = w)) l.

Definition entry_ok (l : list TriggerRule) (g : WorkflowIdV1 * (list string * TriggerRule)) : Prop :=
  g.2.1 ≡ₚ map ruleId (rules_for g.1 l) ∧ g.2.2 ∈ rules_for g.1 l.

Lemma rules_for_snoc w l r :
  rules_for w (l ++ [r]) = rules_for w l ++ if decide (rule_workflowId r = w) then [r] else [].
Proof.
  unfold rules_for. rewrite List.filter_app. cbn [List.filter]. f_equal.
  destruct (decide (rule_workflowId r = w)) as [E|E]; [by rewrite bool_decide_eq_true_2|by rewrite bool_decide_eq_false_2].
Qed.

Lemma add_rule_keys r g :
  map fst (add_rule r g) =
    if decide (rule_workflowId r ∈ map fst g) then map fst g else map fst g ++ [rule_workflowId r].
Proof.
  induction g as [|[w [ids first]] g IH]; simpl; [done|].
  destruct (decide (w = rule_workflowId r)) as [->|Hne]; simpl.
  - rewrite decide_True; [done|left].
  - rewrite IH. repeat case_decide; try done; set_solver.
Qed.

Lemma add_rule_entries l r g :
  NoDup (map fst g) → Forall (entry_ok l) g →
  (rule_workflowId r ∉ map fst g → rules_for (rule_workflowId r) l = []) →
  Forall (entry_ok (l ++ [r])) (add_rule r g).
Proof.
  assert (Hother : ∀ g, rule_workflowId r ∉ map fst g → Forall (entry_ok l) g →
      Forall (entry_ok (l ++ [r])) g).
  { intros g0 Hn Hg. apply Forall_forall. intros [w x] Hin. rewrite Forall_forall in Hg.
    destruct (Hg _ Hin) as [Hp Hf]. unfold entry_ok. simpl in *. rewrite rules_for_snoc. case_decide as Hw; [|by rewrite app_nil_r].
    exfalso. apply Hn. rewrite Hw. by apply (list_elem_of_fmap_2 fst _ (w, x)). }
  induction g as [|[w [ids first]] g IH]; intros Hnd Hall Hnew; simpl in *.
  - constructor; [|done]. unfold entry_ok. simpl. rewrite rules_for_snoc, Hnew by set_solver.
    rewrite decide_True by done. simpl. set_solver.
  - inversion Hnd as [|? ? Hw Hnd']; inversion Hall as [|? ? [Hp Hf] Hall']; subst. simpl in *.
    case_decide as Hc; subst.
    + constructor; [|by apply Hother]. unfold entry_ok. simpl.
      rewrite rules_for_snoc, decide_True by done. rewrite js_sort_perm, map_app, Hp.
      split; [done|]. apply elem_of_app. by left.
    + constructor.
      * unfold entry_ok. simpl. rewrite rules_for_snoc, decide_False by done.
        by rewrite app_nil_r.
      * apply IH; [done|done|]. intros Hn. apply Hnew. set_solver.
Qed.

Record grouped (l : list TriggerRule) (g : groups) : Prop := {
  grouped_keys : NoDup (map fst g);
  grouped_covers : ∀ w, w ∈ map fst g ↔ ∃ r, r ∈ l ∧ rule_workflowId r = w;
  grouped_entries : Forall (entry_ok l) g;
}.

Lemma rules_for_nil w l : (¬ ∃ r, r ∈ l ∧ rule_workflowId r = w) → rules_for w l = [].
Proof.
  intros Hno. destruct (rules_for w l) as [|r m] eqn:E; [done|]. exfalso. apply Hno.
  assert (Hr : r ∈ rules_for w l) by (rewrite E; left).
  apply bfilter_elem in Hr as [Hr Hw]. exists r. by breflect.
Qed.

Lemma group_rules_grouped l : grouped l (group_rules l).
Proof.
  unfold group_rules. induction l as [|r l IH] using rev_ind; [|rewrite fold_left_app]; simpl.
  - split; [constructor| |constructor]. set_solver.
  - destruct IH as [Hnd Hc He]. split.
    + rewrite add_rule_keys. case_decide; [done|]. apply NoDup_app.
      split_and!; [done|set_solver|apply NoDup_singleton].
    + intros w. rewrite add_rule_keys. setoid_rewrite elem_of_app. setoid_rewrite list_elem_of_singleton.
      case_decide as Hk; [|rewrite elem_of_app, list_elem_of_singleton]; rewrite Hc; [apply Hc in Hk|];
        naive_solver.
    + apply add_rule_entries; [done|done|]. intros Hn. apply rules_for_nil.
      intros Hex. by apply Hn, Hc.
Qed.

Lemma fan_out_cap_spec l cap0 :
  let cap := fold_left (λ cap r, Z.min cap (maxFanOut r)) l cap0 in
  cap ≤ cap0 ∧ (∀ r, r ∈ l → cap ≤ maxFanOut r) ∧ (cap = cap0 ∨ ∃ r, r ∈ l ∧ maxFanOut r = cap).
Proof.
  revert cap0. induction l as [|r l IH]; intros cap0; simpl.
  - split_and!; [lia|set_solver|by left].
  - destruct (IH (Z.min cap0 (maxFanOut r))) as (H1 & H2 & H3).
    set (cap := fold_left _ l _) in *. split_and!; [lia| |].
    + intros r' [->|Hr']%elem_of_cons; [lia|]. by apply H2.
    + destruct H3 as [H3|(r' & Hr' & H3)]; [|right; exists r'; split; [by right|done]].
      destruct (Z.le_gt_cases cap0 (maxFanOut r)); [left; lia|].
      right. exists r. split; [left|lia].
Qed.

Lemma workflow_ids_complete w : w ∈ WORKFLOW_IDS_V1.
Proof. apply includes_spec. by destruct w. Qed.

Lemma distinct_workflows_le (l : list WorkflowIdV1) : NoDup l → (length l ≤ 8)%nat.
Proof.
  intros Hnd. apply (NoDup_incl_length (l := l) (l' := WORKFLOW_IDS_V1)).
  - by apply NoDup_ListNoDup.
  - intros w _. apply list_elem_of_In, workflow_ids_complete.
Qed.

Definition matches (e : NormalizedEvent) (r : TriggerRule) : Prop :=
  enabled r = true ∧ trigger_name (eventTrigger r) = trigger e ∧ filterMatches r e = true.

Lemma matching_rules_elem e s r : r ∈ matching_rules e s ↔ r ∈ rules s ∧ matches e r.
Proof.
  unfold matching_rules, matches. rewrite bfilter_elem, js_sort_elem, bfilter_elem, andb_true_iff,
    String.eqb_eq. tauto.
Qed.

(** What a match says, for every event and every set of trigger rules, with the rules that
    match being the enabled rules of the event's trigger whose filters accept it: no match means
    that no rule matches; a cooldown rejection names a matching rule that ran on this resource
    within its cooldown; a fan-out rejection means that the matching rules start more distinct
    workflows than one of them allows; and a match has exactly one candidate per workflow that a
    matching rule starts, with exactly the ids of those rules, no matching rule in cooldown and
    no matching rule's cap exceeded. *)
Theorem match_exact e s now last_ :
  let M := λ r, r ∈ rules s ∧ matches e r in
  match matchEvent e s now last_ with
  | NO_MATCH => ∀ r, ¬ M r
  | COOLDOWN_ACTIVE rule seconds =>
      ∃ r, M r ∧ ruleId r = rule ∧ cooldownSeconds r = seconds ∧ cooling e now last_ r = true
  | FAN_OUT_EXCEEDED distinct cap =>
      ∃ r ws, M r ∧ maxFanOut r = cap ∧ NoDup ws ∧ (∀ w, w ∈ ws ↔ ∃ r, M r ∧ rule_workflowId r = w) ∧
        cap < Z.of_nat (length ws) ∧ distinct = Z.of_nat (length ws)
  | MATCHED cs =>
      (∃ r, M r) ∧ NoDup (map cand_workflowId cs) ∧
      (∀ w, w ∈ map cand_workflowId cs ↔ ∃ r, M r ∧ rule_workflowId r = w) ∧
      (∀ r, M r → cooling e now last_ r = false ∧ Z.of_nat (length cs) ≤ maxFanOut r) ∧
      ∀ c, c ∈ cs →
        (∀ i, i ∈ matchedRuleIds c ↔ ∃ r, M r ∧ rule_workflowId r = cand_workflowId c ∧ ruleId r = i) ∧
        dedupeKey c = invocationDedupeKey (repositoryExternalId e) (deliveryId e)
          (join "+" (matchedRuleIds c)) (workflow_name (cand_workflowId c)) (resourceIdentity e)
          (policySnapshotId s)
  end.
Proof.
  intros M. assert (HM : ∀ r, r ∈ matching_rules e s ↔ M r) by (intros; apply matching_rules_elem).
  unfold matchEvent. destruct (matching_rules e s) as [|r0 rs] eqn:Hm.
  { intros r Hr. apply HM in Hr. by apply elem_of_nil in Hr. }
  assert (Hr0 : M r0) by (apply HM; left). rewrite <- Hm in *. clear Hm rs.
  destruct (List.find _ _) as [r|] eqn:Hf.
  { apply find_some_elem in Hf as [Hr Hc]. exists r. by rewrite <- HM. }
  destruct (group_rules_grouped (matching_rules e s)) as [Hnd Hcov Hent].
  setoid_rewrite HM in Hcov. set (g := group_rules _) in *.
  destruct (fan_out_cap_spec (matching_rules e s) 9007199254740991) as (Hmax & Hle & Hmin).
  fold (fan_out_cap (matching_rules e s)) in *. set (cap := fan_out_cap _) in *.
  assert (Hlen : length g = length (map fst g)) by (by rewrite length_map).
  destruct (_ >? cap) eqn:Hcap.
  - apply Z.gtb_lt in Hcap. pose proof (distinct_workflows_le _ Hnd).
    destruct Hmin as [E|(r & Hr & E)]; [lia|].
    exists r, (map fst g). rewrite <- HM. by rewrite <- Hlen.
  - rewrite Z.gtb_ltb in Hcap. breflect.
    assert (Hws : map cand_workflowId (map (candidate e (policySnapshotId s)) (js_sort by_workflow_name g))
        ≡ₚ map fst g).
    { rewrite map_map. rewrite (map_ext _ fst) by (by intros [? [? ?]]). by rewrite js_sort_perm. }
    split_and!; [by exists r0|by rewrite Hws| | |].
    + intros w. rewrite Hws. apply Hcov.
    + intros r Hr. apply HM in Hr. split; [by eapply find_none_elem|].
      specialize (Hle r Hr). rewrite length_map, js_sort_length. lia.
    + intros c ([w [ids first]] & -> & Hin)%list_elem_of_fmap. rewrite js_sort_elem in Hin.
      rewrite Forall_forall in Hent. destruct (Hent _ Hin) as [Hids _]. simpl in *.
      split; [|done]. intros i. rewrite Hids. setoid_rewrite list_elem_of_fmap.
      unfold rules_for. setoid_rewrite bfilter_elem. setoid_rewrite HM.
      split; [intros (r & -> & Hr & Hw)|intros (r & Hr & Hw & <-)]; exists r; by breflect;
        rewrite ?bool_decide_eq_true_2.
Qed.

(** A redelivered event starts nothing new: the answer to an event, with its candidates, their
    order and their dedupe keys, does not depend on the order in which the rules of the policy
    snapshot are stored, as long as the collation tells their ids apart. *)
Theorem match_order_independent e snapshot rules1 rules2 now last_
  (Hids : ∀ a b, a ∈ rules1 → b ∈ rules1 → localeCompare (ruleId a) (ruleId b) = 0 → a = b)
  (Hperm : rules1 ≡ₚ rules2) :
  matchEvent e {| policySnapshotId := snapshot; rules := rules1 |} now last_ =
  matchEvent e {| policySnapshotId := snapshot; rules := rules2 |} now last_.
Proof.
  unfold matchEvent, matching_rules. cbn [rules policySnapshotId].
  rewrite (js_sort_perm_eq (cmp_by ruleId localeCompare)
    (List.filter (λ r, enabled r && (trigger_name (eventTrigger r) =s? trigger e)) rules1)
    (List.filter (λ r, enabled r && (trigger_name (eventTrigger r) =s? trigger e)) rules2)); [done| |].
  - intros a b [Ha _]%bfilter_elem [Hb _]%bfilter_elem. by apply Hids.
  - by apply bfilter_perm.
Qed.
End Matching.

(** ** Names *)

Lemma own_alias_none name (l : list (string * WorkflowIdV1)) w :
  assoc name l = None → (name, w) ∉ l.
Proof.
  intros Hl%assoc_none Hin. apply Hl. by apply (list_elem_of_fmap_2 fst _ (name, w)).
Qed.

(** [normalizeCommandId], as a function of the trimmed name. *)
Definition resolve_name (name : string) : outcome alias_target :=
  match find_workflow name with
  | Some w => Returned (Workflow w)
  | None => match alias_of name with Some t => Returned t | None => Threw command_unknown end
  end.

Lemma normalizeCommandId_name input : normalizeCommandId input = resolve_name (trim input).
Proof.
  unfold normalizeCommandId, normalizeWorkflowId, resolve_name. generalize (trim input).
  intros name. destruct (nonempty name) eqn:Hn; cbn [negb].
  - destruct (find_workflow name); [done|].
    destruct (str_in name NON_WORKFLOW_NAMES) eqn:Hs; [|by destruct (alias_of name)].
    apply str_in_spec in Hs. unfold NON_WORKFLOW_NAMES in Hs. in_cases Hs; by subst.
  - unfold nonempty in Hn. breflect. by subst.
Qed.

(** Which names resolve: a name, surrounding blanks aside, resolves to a workflow exactly when
    it is a canonical id or one of the ten aliases, in the exact case, and then to that one
    workflow; everything else is rejected -- except the names of the members every JavaScript
    object inherits, such as constructor or __proto__, which also resolve, to a value that is
    no workflow id. *)
Theorem names_resolve input :
  let name := trim input in
  match normalizeCommandId input with
  | Returned (Workflow w) => name = workflow_name w ∨ (name, w) ∈ COMMAND_ALIASES_V1
  | Returned (Inherited m) => name = m ∧ m ∈ object_prototype_members
  | Threw e => e = command_unknown ∧ ∀ w, name ≠ workflow_name w ∧ (name, w) ∉ COMMAND_ALIASES_V1
  end ∧
  (∀ w, name = workflow_name w ∨ (name, w) ∈ COMMAND_ALIASES_V1 →
     normalizeCommandId input = Returned (Workflow w)) ∧
  (name ∈ object_prototype_members → normalizeCommandId input = Returned (Inherited name)).
Proof.
  intros name. rewrite normalizeCommandId_name. fold name. generalize name. clear input name.
  intros name. split_and!.
  - unfold resolve_name. destruct (find_workflow name) as [w|] eqn:Hw.
    { apply find_some_elem in Hw as [_ Hw]. breflect. by left. }
    assert (Hno : ∀ w, name ≠ workflow_name w).
    { intros w ->. eapply find_none_elem in Hw; [|apply (workflow_ids_complete w)].
      by rewrite String.eqb_refl in Hw. }
    unfold alias_of. destruct (assoc name _) as [w|] eqn:Ha.
    { apply assoc_elem in Ha. right. exact Ha. }
    destruct (str_in name object_prototype_members) eqn:Hp; [by apply str_in_spec in Hp|].
    split; [done|]. intros w. split; [apply Hno|]. by apply own_alias_none.
  - intros w [->|Hin]; [by destruct w|].
    unfold COMMAND_ALIASES_V1, BASE_SURFACE_ALIASES in Hin. simpl in Hin.
    in_cases Hin; by injection Hin as -> ->.
  - intros Hin. unfold object_prototype_members in Hin. in_cases Hin; by subst.
Qed.

(** ** Witness *)

Definition sample_rule (i : string) (w : WorkflowIdV1) : TriggerRule :=
  {| ruleId := i; eventTrigger := issues_opened; rule_workflowId := w; filter := None;
     enabled := true; maxFanOut := 2; cooldownSeconds := 60 |}.

Definition sample_event : NormalizedEvent :=
  {| deliveryId := "d1"; repositoryExternalId := "r"; trigger := "issues.opened";
     resourceIdentity := "7"; labels := []; branch := None; conclusions := None;
     event_prOrigin := None; actorLogin := "alice" |}.

#[local] Instance sample_digest : Digest := λ s, s.

Lemma match_order_independent_witness :
  ∃ c1 c2,
    matchEvent sample_event {| policySnapshotId := "s"; rules :=
        [sample_rule "a" implement_issue; sample_rule "b" security_audit;
         sample_rule "c" implement_issue] |} 0 ∅ = MATCHED [c1; c2] ∧
    matchEvent sample_event {| policySnapshotId := "s"; rules :=
        [sample_rule "c" implement_issue; sample_rule "b" security_audit;
         sample_rule "a" implement_issue] |} 0 ∅ = MATCHED [c1; c2] ∧
    matchedRuleIds c1 = ["a"; "c"].
Proof.
  do 2 eexists. split; [by vm_compute|]. split; [|reflexivity].
  rewrite <- (match_order_independent sample_event "s"
    [sample_rule "a" implement_issue; sample_rule "b" security_audit;
     sample_rule "c" implement_issue]); [by vm_compute| |].
  - intros a b Ha Hb. in_cases Ha; in_cases Hb; subst; by vm_compute.
  - apply (Permutation_rev [_; _; _]).
Defined.
