(* ===== verification/Tools.v ===== *)
(** * Tools: the registry of provider tools

    [packages/policy-engine/src/tools/registry.ts]: build-time validation of tool definitions,
    the snapshot and its hash, resolution of a raw provider call, the tools a workflow may see,
    the verification of a provider's manifest, and the matcher of version ranges.  The zod
    schema of a tool and its metadata extractor are the fields of its definition.  Version
    parts are integers; the doubles of the code agree with them below 2^53. *)

From S2P Require Import Prelude JsString Effects JsDate Json Contracts Taxonomy Invocation.

(** ** Versions *)

(** [/^\d+\.\d+\.\d+(?:[-+].+)?$/]; [.] excludes line terminators. *)
Definition line_terminator (c : ascii) : bool := (code_of c =? 10) || (code_of c =? 13).

Definition version_suffix (s : string) : bool :=
  match s with
  | EmptyString => true
  | String c s => char_in "-+" c && nonempty s && all_chars (λ c, negb (line_terminator c)) s
  end.

Definition after_dot (s : string) : option string :=
  match s with
  | String c s => if Ascii.eqb c "." then Some s else None
  | EmptyString => None
  end.

(** The number at the head of the text and what follows its dot. *)
Definition number_dot (s : string) : option (string * string) :=
  let '(n, rest) := span_chars is_digit s in
  if nonempty n then (λ t, (n, t)) <$> after_dot rest else None.

(* @src packages/policy-engine/src/tools/registry.ts:64-64 semverish *)
Definition semverish (s : string) : bool :=
  match number_dot s with
  | None => false
  | Some (_, s) =>
      match number_dot s with
      | None => false
      | Some (_, s) =>
          let '(n, rest) := span_chars is_digit s in nonempty n && version_suffix rest
      end
  end.

(** A number of JavaScript that is an integer or [NaN]. *)
Definition js_number : Type := option Z.

Definition nth_number (parts : list js_number) (i : nat) : js_number := parts !! i ?? Some 0.

Definition head_of (l : list string) : string := head l ?? "".

(* @src packages/policy-engine/src/tools/registry.ts:363-367 parseSemver *)
Definition parseSemver (v : string) : js_number * js_number * js_number :=
  let core := head_of (split_char "+" (head_of (split_char "-" v))) in
  let parts := map parseInt10 (split_char "." core) in
  (nth_number parts 0, nth_number parts 1, nth_number parts 2).

(** [x !== y]: [NaN] differs from everything. *)
Definition differs (x y : js_number) : bool :=
  match x, y with Some x, Some y => negb (x =? y) | _, _ => true end.
Definition minus (x y : js_number) : js_number :=
  match x, y with Some x, Some y => Some (x - y) | _, _ => None end.

(* @src packages/policy-engine/src/tools/registry.ts:369-376 compareSemver *)
Definition compareSemver (a b : string) : js_number :=
  let '(a0, a1, a2) := parseSemver a in
  let '(b0, b1, b2) := parseSemver b in
  if differs a0 b0 then minus a0 b0
  else if differs a1 b1 then minus a1 b1
  else if differs a2 b2 then minus a2 b2
  else Some 0.

(** Comparisons with [0]; every comparison of [NaN] is false. *)
Definition ge0 (x : js_number) : bool := match x with Some x => 0 <=? x | None => false end.
Definition lt0 (x : js_number) : bool := match x with Some x => x <? 0 | None => false end.
Definition gt0 (x : js_number) : bool := match x with Some x => 0 <? x | None => false end.
Definition eq0 (x : js_number) : bool := match x with Some x => x =? 0 | None => false end.
Definition succ (x : js_number) : js_number := Z.succ <$> x.
Definition number_text (x : js_number) : string :=
  match x with Some x => num_to_string x | None => "NaN" end.
Definition version_text (a b c : js_number) : string :=
  join "." [number_text a; number_text b; number_text c].

(* @src packages/policy-engine/src/tools/registry.ts:339-361 versionSatisfies *)
Definition versionSatisfies (version range : string) : bool :=
  if negb (semverish version) then false
  else
    let clean := trim range in
    if startsWith clean "^" then
      let '(b0, b1, b2) := parseSemver (slice_from 1 clean) in
      let upper := if gt0 b0 then version_text (succ b0) (Some 0) (Some 0)
                   else if gt0 b1 then version_text (Some 0) (succ b1) (Some 0)
                   else version_text (Some 0) (Some 0) (succ b2) in
      ge0 (compareSemver version (slice_from 1 clean)) && lt0 (compareSemver version upper)
    else if startsWith clean "~" then
      let '(b0, b1, _) := parseSemver (slice_from 1 clean) in
      ge0 (compareSemver version (slice_from 1 clean)) &&
      lt0 (compareSemver version (number_text b0 +s "." +s number_text (succ b1) +s ".0"))
    else if startsWith clean ">=" then ge0 (compareSemver version (slice_from 2 clean))
    else if match clean with String c _ => is_digit c | EmptyString => false end
    then eq0 (compareSemver version clean)
    else false.

(** ** Definitions and registered tools *)

(* @src packages/policy-engine/src/tools/registry.ts:13-14 PROVIDER_IDS *)
Inductive ProviderId := github_adapter | trueforge_mcp | sandbox | webhook.

#[export] Instance ProviderId_eq_dec : EqDecision ProviderId.
Proof. solve_decision. Defined.

Definition provider_name (p : ProviderId) : string :=
  match p with
  | github_adapter => "github_adapter" | trueforge_mcp => "trueforge_mcp"
  | sandbox => "sandbox" | webhook => "webhook"
  end.
Definition PROVIDER_IDS : list string :=
  map provider_name [github_adapter; trueforge_mcp; sandbox; webhook].

(* @src packages/policy-engine/src/tools/registry.ts:16-24 TOOL_STATUSES *)
Inductive ToolStatus := DISCOVERED | VERIFIED | ENABLED | DEPRECATED | DISABLED | INCOMPATIBLE.

#[export] Instance ToolStatus_eq_dec : EqDecision ToolStatus.
Proof. solve_decision. Defined.

Definition status_text (s : ToolStatus) : string :=
  match s with
  | DISCOVERED => "DISCOVERED" | VERIFIED => "VERIFIED" | ENABLED => "ENABLED"
  | DEPRECATED => "DEPRECATED" | DISABLED => "DISABLED" | INCOMPATIBLE => "INCOMPATIBLE"
  end.

(* @src packages/policy-engine/src/tools/registry.ts:27-34 ActionMetadata *)
Record ActionMetadata := {
  targetRef : option string;
  baseSha : option string;
  headSha : option string;
  path : option string;
  paths : option (list string);
  commandFingerprint : option string;
}.

(* @src packages/policy-engine/src/tools/registry.ts:47-54 RegisteredTool *)
Record RegisteredTool := {
  t_id : string;
  provider : ProviderId;
  providerToolName : string;
  capabilityVersionRange : string;
  actionId : string;
  status : ToolStatus;
}.

#[export] Instance RegisteredTool_eq_dec : EqDecision RegisteredTool.
Proof. solve_decision. Defined.

Section Registry.
(** The payload of a call, what a schema makes of it, and [new Date()]. *)
Context {Payload Input : Type}.

(** [safeParse]: the data, or the issues as paths and messages. *)
Definition ZodType : Type := Payload → Input + list (list string * string).

(* @src packages/policy-engine/src/tools/registry.ts:36-45 ToolDefinitionInput *)
Record ToolDefinitionInput := {
  d_id : string;
  d_provider : ProviderId;
  d_providerToolName : string;
  d_range : string;
  d_actionId : string;
  d_schema : ZodType;
  d_extractor : Input → ActionMetadata;
}.

(** [None] of [call] below: not an object, or a [toolName] that is no string. *)
(* @src packages/policy-engine/src/tools/registry.ts:57-62 RawProviderToolCall *)
Record RawProviderToolCall := {
  c_provider : string;
  c_toolName : string;
  capabilityVersion : option string;
  payload : Payload;
}.

(* @src packages/policy-engine/src/tools/registry.ts:70-75 ProviderCapabilityManifest *)
Record ProviderCapabilityManifest := {
  m_provider : ProviderId;
  apiVersion : string;
  capabilities : list (string * string);
  manifestHash : string;
}.

(* @src packages/policy-engine/src/tools/registry.ts:82-110 ResolveResult *)
Inductive ResolveResult :=
  | RESOLVED (toolId : string) (action : ActionDefinition) (validatedInput : Input)
      (metadata : ActionMetadata) (registrySnapshotId : string)
  | DENIED_UNKNOWN_CAPABILITY (code detail : string)
  | DENIED_INVALID_INPUT (fieldErrors : list string)
  | DENIED_INCOMPATIBLE (code detail : string)
  | DENIED_DISABLED (code detail : string).

(* @src packages/policy-engine/src/tools/registry.ts:114-119 RegistryEntry *)
Record RegistryEntry := {
  tool : RegisteredTool;
  inputSchema : ZodType;
  metadataExtractor : Input → ActionMetadata;
  action : ActionDefinition;
}.

(* @src packages/policy-engine/src/tools/registry.ts:121-126 RegistrySnapshot *)
Record RegistrySnapshot := {
  registryVersionId : string;
  snapshotHash : string;
  createdAtIso : string;
  snapshot_entries : list RegisteredTool;
}.

Definition key_of (p t : string) : string := p +s ":" +s t.

(** The [Map] by provider and name, in insertion order. *)
Definition entries_map : Type := list (string * RegistryEntry).

(** [set.add(x)] answers the set, which is truthy whether or not [x] was in it. *)
Definition set_add (seen : list string) (x : string) : bool * list string := (true, x :: seen).

(* @src packages/policy-engine/src/tools/registry.ts:162-162 buildRegistry *)
Definition range_char (c : ascii) : bool := char_in "~^>=<" c || is_space c.

(* @src packages/policy-engine/src/tools/registry.ts:167-179 buildRegistry *)
Definition entry_of (d : ToolDefinitionInput) (a : ActionDefinition) : RegistryEntry := {|
  tool := {| t_id := d_id d; provider := d_provider d; providerToolName := d_providerToolName d;
    capabilityVersionRange := d_range d; actionId := d_actionId d; status := ENABLED |};
  inputSchema := d_schema d; metadataExtractor := d_extractor d; action := a |}.

(** The loop over the definitions. *)
(* @src packages/policy-engine/src/tools/registry.ts:143-181 buildRegistry *)
Fixpoint register (definitions : list ToolDefinitionInput)
    (byProviderName : entries_map) (idsSeen problems : list string)
  : outcome (entries_map * list string) :=
  match definitions with
  | [] => Returned (byProviderName, problems)
  | definition :: rest =>
      let '(added, idsSeen) := set_add idsSeen (d_id definition) in
      if negb added then Threw (PlainError ("duplicate tool id '" +s d_id definition +s "'"))
      else
        let key := key_of (provider_name (d_provider definition)) (d_providerToolName definition) in
        match assoc key byProviderName with
        | Some _ => Threw (PlainError ("provider alias collision: '" +s key +s
            "' maps to multiple actions (" +s d_actionId definition +s ")"))
        | None =>
            match findActionDefinition (d_actionId definition) with
            | None => Threw (PlainError ("tool '" +s d_id definition +s
                "' references unregistered action '" +s d_actionId definition +s "'"))
            | Some a =>
                let problems :=
                  if negb (semverish (strip_chars range_char (d_range definition)))
                  then problems ++ ["tool '" +s d_id definition +s
                    "' has unparsable capability range '" +s d_range definition +s "'"]
                  else problems in
                register rest (byProviderName ++ [(key, entry_of definition a)]) idsSeen problems
            end
        end
  end.

(** What [buildRegistry] closes over. *)
Record Registry := {
  entries : entries_map;
  r_snapshotHash : string;
  r_versionId : string;
}.

Section Built.
Context {Hdigest : Digest}.

(* @src packages/policy-engine/src/tools/registry.ts:187-194 buildRegistry *)
Definition tool_json (t : RegisteredTool) : json :=
  JArr (map JStr [t_id t; provider_name (provider t); providerToolName t;
    capabilityVersionRange t; actionId t; status_text (status t)]).

(* @src packages/policy-engine/src/tools/registry.ts:183-197 buildRegistry *)
Definition hash_entries (m : entries_map) : string :=
  sha256 (stringify (JArr (map (λ e, tool_json (tool e.2)) m))).

(* @src packages/policy-engine/src/tools/registry.ts:129-210 buildRegistry *)
Definition buildRegistry (definitions : list ToolDefinitionInput) : outcome Registry :=
  let? built := register definitions [] [] [] in
  let '(byProviderName, problems) := built in
  if bool_decide (problems = []) then
    let snapshotHash := hash_entries byProviderName in
    Returned {| entries := byProviderName; r_snapshotHash := snapshotHash;
      r_versionId := "registry-" +s slice_to 16 snapshotHash |}
  else Threw (PlainError (join "; " problems)).

(* @src packages/policy-engine/src/tools/registry.ts:199-205 makeSnapshot *)
Definition makeSnapshot (r : Registry) (now : Z) : outcome RegistrySnapshot :=
  let? iso := toISOString now in
  Returned {| registryVersionId := r_versionId r; snapshotHash := r_snapshotHash r;
    createdAtIso := iso; snapshot_entries := map (λ e, tool e.2) (entries r) |}.

(* @src packages/policy-engine/src/tools/registry.ts:211-278 resolve *)
Definition resolve (r : Registry) (call : option RawProviderToolCall) : ResolveResult :=
  match call with
  | None => DENIED_UNKNOWN_CAPABILITY "UNKNOWN_TOOL" "malformed call envelope"
  | Some rawCall =>
      if negb (str_in (c_provider rawCall) PROVIDER_IDS) then
        DENIED_UNKNOWN_CAPABILITY "UNKNOWN_PROVIDER"
          ("provider '" +s c_provider rawCall +s "' is not registered")
      else
        match assoc (key_of (c_provider rawCall) (c_toolName rawCall)) (entries r) with
        | None => DENIED_UNKNOWN_CAPABILITY "UNKNOWN_TOOL" ("tool '" +s c_provider rawCall +s "/" +s
            c_toolName rawCall +s "' is not in registry " +s r_versionId r)
        | Some entry =>
            if negb (bool_decide (status (tool entry) = ENABLED)) then
              DENIED_DISABLED
                match status (tool entry) with
                | DISCOVERED => "TOOL_DISCOVERED_ONLY"
                | DEPRECATED => "TOOL_DEPRECATED"
                | _ => "TOOL_DISABLED"
                end ("tool status " +s status_text (status (tool entry)))
            else if match capabilityVersion rawCall with
                    | None => true
                    | Some v => negb (versionSatisfies v (capabilityVersionRange (tool entry)))
                    end
            then DENIED_INCOMPATIBLE "CAPABILITY_VERSION_DRIFT" ("declared " +s
                   (capabilityVersion rawCall ?? "undefined") +s " outside " +s
                   capabilityVersionRange (tool entry))
            else
              match inputSchema entry (payload rawCall) with
              | inr issues => DENIED_INVALID_INPUT
                  (map (λ '(p, message), join "." p +s ": " +s message) (take 10 issues))
              | inl data => RESOLVED (t_id (tool entry)) (action entry) data
                  (metadataExtractor entry data) (r_versionId r)
              end
        end
  end.

(* @src packages/policy-engine/src/tools/registry.ts:280-286 listForWorkflow *)
Definition listForWorkflow (r : Registry) (actionIds : list string) : list RegisteredTool :=
  map (λ e, tool e.2)
    (List.filter (λ e, bool_decide (status (tool e.2) = ENABLED) && str_in (id (action e.2)) actionIds)
      (entries r)).

(** ** The manifest of a provider *)

(** The order of the own string keys of an object: array indices ascending, then insertion. *)
Definition array_index (k : string) : option Z :=
  match parseInt10 k with
  | Some n => if (num_to_string n =s? k) && (0 <=? n) && (n <? 4294967295) then Some n else None
  | None => None
  end.
Definition index_order (a b : string * string) : Z :=
  (array_index a.1 ?? 0) - (array_index b.1 ?? 0).
Definition object_order (l : list (string * string)) : list (string * string) :=
  let indexed kv := bool_decide (is_Some (array_index kv.1)) in
  js_sort index_order (List.filter indexed l) ++ List.filter (λ kv, negb (indexed kv)) l.

(** The default order of [sort] on pairs: the texts [key,value] by code units. *)
Definition entry_order (a b : string * string) : Z :=
  code_unit_compare (a.1 +s "," +s a.2) (b.1 +s "," +s b.2).

(** [/^\d+\.\d+\.\d+$|^\d{4}-\d{2}-\d{2}$/]. *)
Definition date_stamp (s : string) : bool :=
  match split_char "-" s with
  | [y; m; d] => chars_between is_digit 4 4 y && chars_between is_digit 2 2 m &&
                 chars_between is_digit 2 2 d
  | _ => false
  end.
(* @src packages/policy-engine/src/tools/registry.ts:315-315 verifyCapabilities *)
Definition version_stamp (s : string) : bool := three_numbers s || date_stamp s.

(* @src packages/policy-engine/src/tools/registry.ts:316-323 verifyCapabilities *)
Definition manifest_digest (m : ProviderCapabilityManifest) : string :=
  sha256 (stringify (JObj [("provider", JStr (provider_name (m_provider m)));
    ("apiVersion", JStr (apiVersion m));
    ("capabilities", JObj (map (λ '(k, v), (k, JStr v))
      (object_order (js_sort entry_order (capabilities m)))))])).

(** [manifest.capabilities[name]] also finds what every object inherits: a value, but no text
    of a version. *)
(* @src packages/policy-engine/src/tools/registry.ts:301-310 verifyCapabilities *)
Definition drift (m : ProviderCapabilityManifest) (t : RegisteredTool) : list string :=
  match assoc (providerToolName t) (capabilities m) with
  | Some declared =>
      if negb (semverish declared) then ["malformed version for " +s t_id t]
      else if negb (versionSatisfies declared (capabilityVersionRange t)) then
        ["drift for " +s t_id t +s ": declared " +s declared +s ", requires " +s
           capabilityVersionRange t]
      else []
  | None => if str_in (providerToolName t) object_prototype_members
            then ["malformed version for " +s t_id t] else []
  end.

(* @src packages/policy-engine/src/tools/registry.ts:292-310 verifyCapabilities *)
Definition found_problems (r : Registry) (m : ProviderCapabilityManifest) : list string :=
  let tools := map (λ e, tool e.2) (entries r) in
  omap (λ '(name, _),
    if existsb (λ t, bool_decide (provider t = m_provider m) && (providerToolName t =s? name)) tools
    then None else Some ("unknown capability " +s name)) (capabilities m) ++
  flat_map (drift m) (List.filter (λ t, bool_decide (provider t = m_provider m)) tools).

(* @src packages/policy-engine/src/tools/registry.ts:288-335 verifyCapabilities *)
Definition verifyCapabilities (r : Registry) (m : ProviderCapabilityManifest) : bool * list string :=
  let found := found_problems r m in
  let versionStamp := version_stamp (apiVersion m) in
  let hashValid := hex64 (manifestHash m) && (manifest_digest m =s? manifestHash m) in
  let ok := bool_decide (found = []) && versionStamp && hashValid in
  (ok, if ok then []
       else found ++ (if versionStamp then [] else ["malformed apiVersion"]) ++
            (if hashValid then [] else ["invalid manifestHash"])).
End Built.
End Registry.

#[global] Arguments ToolDefinitionInput : clear implicits.
#[global] Arguments RegistryEntry : clear implicits.
#[global] Arguments Registry : clear implicits.

(** ** What the matcher of versions decides *)

(** The plain version [a.b.c], and the order of versions. *)
Definition triple : Type := Z * Z * Z.
Definition version_of (t : triple) : string :=
  let '(a, b, c) := t in version_text (Some a) (Some b) (Some c).
Definition natural (t : triple) : Prop := let '(a, b, c) := t in 0 ≤ a ∧ 0 ≤ b ∧ 0 ≤ c.
Definition triple_lt (x y : triple) : Prop :=
  let '(a, b, c) := x in let '(a', b', c') := y in
  a < a' ∨ (a = a' ∧ (b < b' ∨ (b = b' ∧ c < c'))).
#[export] Instance triple_lt_dec x y : Decision (triple_lt x y).
Proof. destruct x as [[a b] c], y as [[a' b'] c']. simpl. solve_decision. Defined.

(** The least version outside a caret range, and outside a tilde range. *)
Definition caret_bound (t : triple) : triple :=
  let '(a, b, c) := t in
  if decide (0 < a) then (a + 1, 0, 0) else if decide (0 < b) then (0, b + 1, 0) else (0, 0, c + 1).
Definition tilde_bound (t : triple) : triple := let '(a, b, _) := t in (a, b + 1, 0).

Lemma num_no_char c n : is_digit c = false → 0 ≤ n → any_char (Ascii.eqb c) (num_to_string n) = false.
Proof.
  intros Hc Hn. eapply (class_absent is_digit); [done|].
  pose proof (num_digits n Hn) as Hd. unfold digits in Hd. by breflect.
Qed.

Lemma any_char_version c t :
  is_digit c = false → Ascii.eqb c "." = false → natural t → any_char (Ascii.eqb c) (version_of t) = false.
Proof.
  destruct t as [[a b] d]. intros Hc Hdot (Ha & Hb & Hd). unfold version_of, version_text.
  cbn [join number_text]. rewrite !any_char_app, !num_no_char by done. cbn [any_char orb].
  by rewrite Hdot.
Qed.

Lemma split_version t : natural t →
  split_char "." (version_of t) =
  let '(a, b, c) := t in [num_to_string a; num_to_string b; num_to_string c].
Proof.
  destruct t as [[a b] d]. intros (Ha & Hb & Hd). unfold version_of, version_text.
  cbn [join number_text].
  change ("." +s num_to_string b +s "." +s num_to_string d)
    with (String "." (num_to_string b +s String "." (num_to_string d))).
  by rewrite !split_char_cons, split_char_absent by by apply num_no_char.
Qed.

Lemma head_split_app c a s :
  any_char (Ascii.eqb c) a = false → head_of (split_char c (a +s s)) = a +s head_of (split_char c s).
Proof.
  induction a as [|d a IH]; cbn [any_char]; [done|]. intros [Hd Ha]%orb_false_iff.
  specialize (IH Ha). cbn [String.append split_char]. rewrite Hd.
  pose proof (split_char_nonempty c (a +s s)). unfold head_of in *.
  destruct (split_char c (a +s s)) as [|w ws]; [done|]. simpl in *. by rewrite IH.
Qed.

Lemma head_split_sep c s : head_of (split_char c (String c s)) = "".
Proof. cbn [split_char]. by rewrite Ascii.eqb_refl. Qed.

Lemma head_split_self c s : any_char (Ascii.eqb c) s = false → head_of (split_char c s) = s.
Proof. intros H. by rewrite split_char_absent. Qed.

Lemma parse_version t : natural t →
  parseSemver (version_of t) = let '(a, b, c) := t in (Some a, Some b, Some c).
Proof.
  intros Ht. unfold parseSemver. rewrite (head_split_self "-"), (head_split_self "+") by by apply any_char_version.
  rewrite split_version by done.
  destruct t as [[a b] c], Ht as (Ha & Hb & Hc). cbn [map nth_number].
  unfold nth_number. simpl. by rewrite !parseInt10_num.
Qed.

Definition numbers (t : triple) : js_number * js_number * js_number :=
  let '(a, b, c) := t in (Some a, Some b, Some c).

(** The comparison of two parsed versions is that of the triples. *)
Lemma compare_triples u v x y :
  parseSemver u = numbers x → parseSemver v = numbers y →
  ge0 (compareSemver u v) = bool_decide (¬ triple_lt x y) ∧
  lt0 (compareSemver u v) = bool_decide (triple_lt x y) ∧
  eq0 (compareSemver u v) = bool_decide (x = y).
Proof.
  intros Hu Hv. unfold compareSemver. rewrite Hu, Hv.
  destruct x as [[a b] c], y as [[a' b'] c']. cbn [numbers differs minus].
  destruct (Z.eqb_spec a a') as [->|?]; cbn [negb].
  - destruct (Z.eqb_spec b b') as [->|?]; cbn [negb].
    + destruct (Z.eqb_spec c c') as [->|?]; cbn [negb ge0 lt0 eq0];
        repeat split; symmetry; repeat case_bool_decide; breflect; simpl in *; simplify_eq; try lia;
        first [apply Z.leb_le | apply Z.leb_gt | apply Z.ltb_lt | apply Z.ltb_ge | apply Z.eqb_neq | idtac];
        try lia; try done; congruence.
    + cbn [ge0 lt0 eq0]. repeat split; symmetry; repeat case_bool_decide; simpl in *; simplify_eq;
        first [apply Z.leb_le | apply Z.leb_gt | apply Z.ltb_lt | apply Z.ltb_ge | apply Z.eqb_neq | idtac];
        lia.
  - cbn [ge0 lt0 eq0]. repeat split; symmetry; repeat case_bool_decide; simpl in *; simplify_eq;
        first [apply Z.leb_le | apply Z.leb_gt | apply Z.ltb_lt | apply Z.ltb_ge | apply Z.eqb_neq | idtac];
        lia.
Qed.

Lemma span_digits s n rest :
  span_chars is_digit s = (n, rest) → s = n +s rest ∧ all_chars is_digit n = true.
Proof.
  revert n rest. induction s as [|c s IH]; cbn [span_chars]; intros n rest.
  - intros [= <- <-]. done.
  - destruct (is_digit c) eqn:Hc.
    + destruct (span_chars is_digit s) as [a b] eqn:E. intros [= <- <-].
      destruct (IH a b eq_refl) as [-> Ha]. simpl. by rewrite Hc, Ha.
    + intros [= <- <-]. done.
Qed.

Lemma number_dot_spec s n t :
  number_dot s = Some (n, t) → s = n +s String "." t ∧ digits n = true.
Proof.
  unfold number_dot. destruct (span_chars is_digit s) as [a b] eqn:E.
  destruct (nonempty a) eqn:Hn; [|done]. destruct (after_dot b) as [t'|] eqn:Hb; [|done].
  intros [= <- <-]. apply span_digits in E as [-> Ha]. unfold after_dot in Hb.
  destruct b as [|c b]; [done|]. destruct (Ascii.eqb_spec c "."); [|done]. simplify_eq.
  unfold digits. by rewrite Ha, Hn.
Qed.

Lemma digits_absent c n : is_digit c = false → digits n = true → any_char (Ascii.eqb c) n = false.
Proof. intros Hc Hn. unfold digits in Hn. breflect. by eapply (class_absent is_digit). Qed.

Lemma leading_digits_nonneg acc s : 0 ≤ acc → 0 ≤ leading_digits acc s.
Proof.
  revert acc. induction s as [|c s IH]; intros acc Ha; cbn [leading_digits]; [done|].
  destruct (is_digit c) eqn:Hc; [|done]. apply IH.
  assert (48 ≤ code_of c); [|lia]. by destruct c as [[] [] [] [] [] [] [] []].
Qed.

(** A version is three numbers, and what follows a hyphen or a plus is not looked at. *)
Lemma semverish_parts v : semverish v = true →
  ∃ x, natural x ∧ parseSemver v = numbers x.
Proof.
  unfold semverish. intros H.
  destruct (number_dot v) as [[a s]|] eqn:E1; [|done]. destruct (number_dot s) as [[b s']|] eqn:E2; [|done].
  apply number_dot_spec in E1 as [-> Ha], E2 as [-> Hb].
  destruct (span_chars is_digit s') as [c rest] eqn:E3.
  apply span_digits in E3 as [-> Hc']. breflect. rename H0 into Hsuf.
  assert (Hc : digits c = true) by (unfold digits; by rewrite Hc', H).
  exists (leading_digits 0 a, leading_digits 0 b, leading_digits 0 c).
  split; [simpl; auto using leading_digits_nonneg with lia|].
  set (core := a +s String "." (b +s String "." c)).
  assert (Hcore : a +s String "." (b +s String "." (c +s rest)) = core +s rest).
  { unfold core. rewrite !str_app_assoc. cbn [String.append]. by rewrite !str_app_assoc. }
  assert (Habs : ∀ d, is_digit d = false → Ascii.eqb d "." = false → any_char (Ascii.eqb d) core = false).
  { intros d Hd Hdot. unfold core. rewrite any_char_app. cbn [any_char]. rewrite any_char_app.
    cbn [any_char]. by rewrite Hdot, !digits_absent. }
  assert (Hhead : head_of (split_char "+" (head_of (split_char "-" (core +s rest)))) = core).
  { rewrite (head_split_app "-") by by apply Habs.
    destruct rest as [|d rest].
    { change (head_of (split_char "-" "")) with "". rewrite str_app_nil_r. by apply head_split_self, Habs. }
    unfold version_suffix in Hsuf. breflect. rename H0 into Hd. cbn [char_in] in Hd.
    destruct (Ascii.eqb_spec d "-") as [->|];
      [rewrite head_split_sep, str_app_nil_r; by apply head_split_self, Habs|].
    destruct (Ascii.eqb_spec d "+") as [->|]; [|done].
    change (String "+" rest) with ("+" +s rest). rewrite (head_split_app "-" "+") by done.
    rewrite head_split_app by by apply Habs. cbn [String.append]. by rewrite head_split_sep, str_app_nil_r. }
  unfold parseSemver. rewrite Hcore, Hhead. unfold core.
  rewrite (split_char_cons "." a) by by apply digits_absent.
  rewrite (split_char_cons "." b), (split_char_absent "." c) by by apply digits_absent.
  cbn [map]. by rewrite !parseInt10_digits.
Qed.

Lemma semverish_version t : natural t → semverish (version_of t) = true.
Proof.
  assert (Hspan : ∀ n rest, 0 ≤ n → (∀ c, first_char rest = Some c → is_digit c = false) →
    span_chars is_digit (num_to_string n +s rest) = (num_to_string n, rest)).
  { intros n rest Hn Hrest. pose proof (num_digits n Hn) as Hd. unfold digits in Hd. breflect.
    clear Hn. revert H. generalize (num_to_string n). intros s. induction s as [|c s IH].
    - intros _. destruct rest as [|c rest]; [done|]. cbn [String.append span_chars].
      by rewrite (Hrest c).
    - cbn [all_chars]. intros Hc. breflect. cbn [String.append span_chars]. rewrite H, IH; done. }
  assert (Hne : ∀ n, 0 ≤ n → nonempty (num_to_string n) = true).
  { intros n Hn. pose proof (num_digits n Hn) as Hd. unfold digits in Hd. by breflect. }
  destruct t as [[a b] c]. intros (Ha & Hb & Hc). unfold version_of, version_text. cbn [join number_text].
  assert (Hdot : ∀ n t, 0 ≤ n → number_dot (num_to_string n +s "." +s t) = Some (num_to_string n, t)).
  { intros n t Hn. unfold number_dot. rewrite Hspan by (done || by intros d [= <-]). by rewrite Hne. }
  unfold semverish. rewrite !Hdot by done.
  rewrite <- (str_app_nil_r (num_to_string c)), Hspan by done. by rewrite Hne.
Qed.

Lemma trim_range pre t : no_space pre = true → natural t → trim (pre +s version_of t) = pre +s version_of t.
Proof.
  intros Hp Ht. apply trim_no_space. rewrite no_space_app, Hp. cbn [andb].
  destruct t as [[a b] c], Ht as (Ha & Hb & Hc). unfold version_of, version_text. cbn [join number_text].
  assert (Hn : ∀ n, 0 ≤ n → no_space (num_to_string n) = true).
  { intros n Hn. eapply all_chars_impl; [|apply num_chars].
    intros d. by destruct d as [[] [] [] [] [] [] [] []]. }
  rewrite !no_space_app, !Hn by done. done.
Qed.

Lemma version_first t : natural t → ∃ c s, version_of t = String c s ∧ is_digit c = true.
Proof.
  destruct t as [[a b] d]. intros (Ha & _). destruct (digits_first _ (num_digits a Ha)) as (c & s & Hs & Hc).
  unfold version_of, version_text. cbn [join number_text]. rewrite Hs. cbn [String.append]. eauto.
Qed.

Lemma digit_not_prefix c s d p : is_digit c = true → is_digit d = false → startsWith (String c s) (String d p) = false.
Proof.
  intros Hc Hd. unfold startsWith. cbn [String.prefix]. by destruct (ascii_dec d c) as [->|]; [congruence|].
Qed.

(** Against plain bounds the matcher decides membership in an interval of versions: the caret
    up to the next breaking version, the tilde up to the next minor one. *)
Definition in_range (lower : triple) (upper : option triple) (x : triple) : bool :=
  bool_decide (¬ triple_lt x lower) &&
  match upper with Some u => bool_decide (triple_lt x u) | None => true end.

Lemma versions_against v x t :
  semverish v = true → parseSemver v = numbers x → natural t →
  versionSatisfies v ("^" +s version_of t) = in_range t (Some (caret_bound t)) x ∧
  versionSatisfies v ("~" +s version_of t) = in_range t (Some (tilde_bound t)) x ∧
  versionSatisfies v (">=" +s version_of t) = in_range t None x ∧
  versionSatisfies v (version_of t) = bool_decide (x = t).
Proof.
  intros Hv Hx Ht. unfold versionSatisfies. rewrite Hv. cbn [negb].
  pose proof (parse_version t Ht) as Hp.
  assert (parseSemver (version_of t) = numbers t) as Hpt by (rewrite Hp; by destruct t as [[? ?] ?]).
  destruct (compare_triples v (version_of t) x t Hx Hpt) as (Hge & Hlt & Heq).
  assert (Hup : ∀ u, natural u → lt0 (compareSemver v (version_of u)) = bool_decide (triple_lt x u)).
  { intros u Hu. apply (compare_triples v (version_of u) x u Hx).
    rewrite parse_version by done. by destruct u as [[? ?] ?]. }
  split; [|split; [|split]].
  - rewrite trim_range by done. unfold startsWith. rewrite prefix_app.
    change (slice_from 1 ("^" +s version_of t)) with (version_of t). rewrite Hpt.
    destruct t as [[a b] c], Ht as (Ha & Hb & Hc). cbn [numbers]. unfold in_range. rewrite Hge. f_equal.
    cbn [gt0 succ fmap option_fmap option_map caret_bound].
    destruct (decide (0 < a)), (Z.ltb_spec 0 a); try lia; [apply (Hup (a + 1, 0, 0)); simpl; lia|].
    destruct (decide (0 < b)), (Z.ltb_spec 0 b); try lia;
      [apply (Hup (0, b + 1, 0)) | apply (Hup (0, 0, c + 1))]; simpl; lia.
  - rewrite trim_range by done. change (startsWith ("~" +s version_of t) "^") with false.
    unfold startsWith. rewrite prefix_app.
    change (slice_from 1 ("~" +s version_of t)) with (version_of t). rewrite Hpt.
    destruct t as [[a b] c], Ht as (Ha & Hb & Hc). cbn [numbers]. unfold in_range. rewrite Hge. f_equal.
    apply (Hup (a, b + 1, 0)). simpl. lia.
  - rewrite trim_range by done. change (startsWith (">=" +s version_of t) "^") with false.
    change (startsWith (">=" +s version_of t) "~") with false. unfold startsWith. rewrite prefix_app.
    change (slice_from 2 (">=" +s version_of t)) with (version_of t).
    unfold in_range. by rewrite Hge, andb_true_r.
  - change (trim (version_of t)) with (trim ("" +s version_of t)). rewrite trim_range by done.
    change ("" +s version_of t) with (version_of t).
    destruct (version_first t Ht) as (c & s & Hc & Hd). rewrite Hc.
    rewrite !digit_not_prefix by done. rewrite Hd, <- Hc. exact Heq.
Qed.

(** No version is accepted that is not one, and no range is understood that is not one of the
    four forms. *)
Lemma versionSatisfies_semverish v r : versionSatisfies v r = true → semverish v = true.
Proof. unfold versionSatisfies. by destruct (semverish v). Qed.

(** ** What a built registry resolves *)

Section Resolution.
Context {Payload Input : Type} {Hdigest : Digest}.
Implicit Types d : ToolDefinitionInput Payload Input.

Definition alias_key d : string := key_of (provider_name (d_provider d)) (d_providerToolName d).

(** The entry a definition becomes. *)
Definition entry_from d (e : string * RegistryEntry Payload Input) : Prop :=
  e.1 = alias_key d ∧ ∃ a, findActionDefinition (d_actionId d) = Some a ∧ e.2 = entry_of d a.

Lemma register_entries ds m seen ps m' ps' :
  register ds m seen ps = Returned (m', ps') →
  ∃ es, m' = m ++ es ∧ Forall2 entry_from ds es ∧ (NoDup m.*1 → NoDup m'.*1).
Proof.
  revert m seen ps. induction ds as [|d ds IH]; intros m seen ps; cbn [register set_add negb].
  - intros [= <- <-]. exists []. by rewrite app_nil_r.
  - fold (alias_key d). destruct (assoc (alias_key d) m) eqn:Hk; [done|].
    destruct (findActionDefinition (d_actionId d)) as [a|] eqn:Ha; [|done].
    intros (es & -> & Hes & Hnd)%IH. exists ((alias_key d, entry_of d a) :: es).
    split; [by rewrite <- app_assoc|]. split.
    + constructor; [|done]. split; [done|]. by exists a.
    + intros Hm. apply Hnd. rewrite fmap_app. apply NoDup_app. split; [done|]. split.
      * intros k Hin Hs. apply list_elem_of_singleton in Hs as ->. by apply assoc_none in Hk.
      * apply NoDup_singleton.
Qed.

Lemma built_entries ds r :
  buildRegistry ds = Returned r → Forall2 entry_from ds (entries r) ∧ NoDup (entries r).*1.
Proof.
  unfold buildRegistry. destruct (register ds [] [] []) as [[m ps]|] eqn:Hr; [|done]. cbn [obind].
  case_bool_decide; [|done]. intros [= <-]. cbn [entries].
  apply register_entries in Hr as (es & -> & Hes & Hnd). split; [done|]. apply Hnd, NoDup_nil_2.
Qed.

Lemma Forall2_keys ds es : Forall2 entry_from ds es → es.*1 = map alias_key ds.
Proof. induction 1 as [|d e ds es [He _] _ IH]; [done|]. cbn. by rewrite IH, He. Qed.

(** What a resolved call went through. *)
Definition admitted d (call : RawProviderToolCall (Payload := Payload)) (a : ActionDefinition)
    (input : Input) : Prop :=
  provider_name (d_provider d) = c_provider call ∧ d_providerToolName d = c_toolName call ∧
  findActionDefinition (d_actionId d) = Some a ∧
  (∃ v, capabilityVersion call = Some v ∧ versionSatisfies v (d_range d) = true) ∧
  d_schema d (payload call) = inl input.

Lemma key_of_inj p p' t t' :
  p ∈ PROVIDER_IDS → p' ∈ PROVIDER_IDS → key_of p t = key_of p' t' → p = p' ∧ t = t'.
Proof.
  intros Hp Hp'. unfold PROVIDER_IDS in *. cbn [map provider_name] in *. unfold key_of.
  in_cases Hp; in_cases Hp'; subst; cbn [String.append]; intros Heq; simplify_eq; done.
Qed.

Lemma provider_name_known p : provider_name p ∈ PROVIDER_IDS.
Proof. unfold PROVIDER_IDS. apply list_elem_of_In. destruct p; simpl; tauto. Qed.

Lemma resolve_spec ds r call toolId a input meta snapshot :
  buildRegistry ds = Returned r →
  resolve r (Some call) = RESOLVED toolId a input meta snapshot →
  ∃ d, d ∈ ds ∧ admitted d call a input ∧ d_id d = toolId ∧ meta = d_extractor d input ∧
    snapshot = r_versionId r.
Proof.
  intros [Hes Hnd]%built_entries. unfold resolve.
  destruct (str_in (c_provider call) PROVIDER_IDS) eqn:Hp; [|done]. cbn [negb]. apply str_in_spec in Hp.
  destruct (assoc _ (entries r)) as [e|] eqn:He; [|done].
  apply assoc_elem in He. apply list_elem_of_lookup in He as [i Hi].
  destruct (Forall2_lookup_r _ _ _ _ _ Hes Hi) as (d & Hd & Hkey & a' & Ha & Hent).
  cbn [fst snd] in Hkey, Hent. subst e. cbn [entry_of tool status].
  rewrite bool_decide_true by done. cbn [negb capabilityVersionRange inputSchema action t_id metadataExtractor].
  destruct (capabilityVersion call) as [v|] eqn:Hv; [|done].
  destruct (versionSatisfies v (d_range d)) eqn:Hsat; [|done]. cbn [negb].
  cbn [entry_of inputSchema action metadataExtractor].
  destruct (d_schema d (payload call)) as [data|] eqn:Hs; [|done]. intros [= <- <- <- <- <-].
  apply key_of_inj in Hkey as [Hpn Htn]; [|done|apply provider_name_known].
  exists d. split; [by eapply list_elem_of_lookup_2|]. unfold admitted. repeat split; eauto.
Qed.
End Resolution.

(** A call that a built registry resolves names a registered tool: one definition of the
    registry has that provider and that name (no other one shares the alias), its action is in
    the catalog, the version the call declares satisfies the definition's range, its schema
    accepted the payload, and what is handed on is the schema's output with the metadata
    extracted from it.  Nothing else resolves: unknown providers, unknown tools, calls without
    a version and malformed envelopes are denied. *)
Theorem resolved_is_registered {Payload Input} `{Digest} (ds : list (ToolDefinitionInput Payload Input))
    r call toolId a input meta snapshot
  (Hbuilt : buildRegistry ds = Returned r)
  (Hres : resolve r call = RESOLVED toolId a input meta snapshot) :
  ∃ d rawCall, call = Some rawCall ∧ d ∈ ds ∧ admitted d rawCall a input ∧
    d_id d = toolId ∧ meta = d_extractor d input ∧ a ∈ ACTION_DEFINITIONS ∧
    NoDup (map alias_key ds).
Proof.
  destruct call as [rawCall|]; [|done].
  destruct (resolve_spec _ _ _ _ _ _ _ _ Hbuilt Hres) as (d & Hd & Hadm & Hid & Hmeta & _).
  exists d, rawCall. destruct (built_entries _ _ Hbuilt) as [Hes Hnd].
  rewrite <- (Forall2_keys _ _ Hes). destruct Hadm as (? & ? & Ha & ? & ?).
  split_and!; try done. by apply findActionDefinition_registered in Ha as [].
Qed.

Definition sample_tool (i name range : string) : ToolDefinitionInput string string := {|
  d_id := i; d_provider := trueforge_mcp; d_providerToolName := name; d_range := range;
  d_actionId := "issue_read"; d_schema := λ p, if p =s? "" then inr [(["ref"], "Required")] else inl p;
  d_extractor := λ p, {| targetRef := Some p; baseSha := None; headSha := None; path := None;
    paths := None; commandFingerprint := None |} |}.

Definition sample_call (name version : string) : RawProviderToolCall (Payload := string) :=
  {| c_provider := "trueforge_mcp"; c_toolName := name; capabilityVersion := Some version;
     payload := "main" |}.

#[local] Instance sample_digest : Digest := λ s, s.

Definition built_sample : outcome (Registry string string) :=
  buildRegistry [sample_tool "t1" "github_read_issues" "^1.0.0"; sample_tool "t2" "merge_pr" "~2.1.0"].

Lemma resolved_is_registered_witness :
  ∃ r a, built_sample = Returned r ∧
    resolve r (Some (sample_call "github_read_issues" "1.2.0")) =
      RESOLVED "t1" a "main" (d_extractor (sample_tool "" "" "") "main") (r_versionId r) ∧
    ∃ d rawCall, Some (sample_call "github_read_issues" "1.2.0") = Some rawCall ∧
      admitted d rawCall a "main" ∧ d_id d = "t1".
Proof.
  destruct built_sample as [r|] eqn:Hb; [|vm_compute in Hb; discriminate Hb].
  destruct (findActionDefinition "issue_read") as [a|] eqn:Ha; [|vm_compute in Ha; discriminate Ha].
  assert (Hr : resolve r (Some (sample_call "github_read_issues" "1.2.0")) =
      RESOLVED "t1" a "main" (d_extractor (sample_tool "" "" "") "main") (r_versionId r)).
  { vm_compute in Hb. injection Hb as <-. vm_compute in Ha. injection Ha as <-. by vm_compute. }
  exists r, a. split; [done|]. split; [done|].
  destruct (resolved_is_registered _ _ _ _ _ _ _ _ Hb Hr) as (d & c & Hc & _ & Hadm & Hid & _).
  by exists d, c.
Defined.

(** The matcher of versions is the specification of ranges by intervals: every version text
    has a triple of numbers; against the range [^a.b.c] it holds exactly from that version up to
    the next one that changes the first non-zero part, against [~a.b.c] up to the next minor
    version, against [>=a.b.c] from there on and against [a.b.c] for that triple alone; whatever
    follows a hyphen or a plus is ignored, and a text that is no version satisfies nothing. *)
Theorem version_ranges_are_intervals v :
  (semverish v = false → ∀ range, versionSatisfies v range = false) ∧
  (semverish v = true → ∃ x, natural x ∧ parseSemver v = numbers x ∧ ∀ t, natural t →
     versionSatisfies v ("^" +s version_of t) = in_range t (Some (caret_bound t)) x ∧
     versionSatisfies v ("~" +s version_of t) = in_range t (Some (tilde_bound t)) x ∧
     versionSatisfies v (">=" +s version_of t) = in_range t None x ∧
     versionSatisfies v (version_of t) = bool_decide (x = t)).
Proof.
  split.
  - intros Hv range. unfold versionSatisfies. by rewrite Hv.
  - intros Hv. destruct (semverish_parts v Hv) as (x & Hx & Hp). exists x. split; [done|].
    split; [done|]. intros t Ht. by apply versions_against.
Qed.

(** The snapshot hash identifies the tools. *)
#[local] Instance tool_json_inj : Inj (=) (=) tool_json.
Proof.
  intros t t'. destruct t as [? p ? ? ? s], t' as [? p' ? ? ? s']. intros Heq. injection Heq as -> Hp -> -> -> Hs.
  assert (p = p') as -> by by destruct p, p'. assert (s = s') as -> by by destruct s, s'. done.
Qed.

Lemma snapshot_identity {Payload Input} `{CollisionFree} (m m' : entries_map (Payload := Payload) (Input := Input)) :
  hash_entries m = hash_entries m' → map (λ e, tool e.2) m = map (λ e, tool e.2) m'.
Proof.
  unfold hash_entries. rewrite <- !(map_map (λ e, tool e.2) tool_json).
  intros [= Hh]%digest_inj. by apply (inj (fmap tool_json)) in Hh.
Qed.

(** [add] never answers false: two tools of one id are published. *)
Example duplicate_ids_published :
  ∃ r, buildRegistry [sample_tool "t1" "a" "^1.0.0"; sample_tool "t1" "b" "^1.0.0"] = Returned r ∧
    map (λ t, t_id t) (listForWorkflow r ["issue_read"]) = ["t1"; "t1"].
Proof. eexists. split; [vm_compute; reflexivity|]. by vm_compute. Qed.

(** The check of the build removes every range character; the matcher reads only one leading
    operator.  Such a range is published and nothing satisfies it, or half of it is ignored. *)
Lemma published_ranges_differ :
  (∃ r, buildRegistry [sample_tool "t1" "a" "<2.0.0"] = Returned r) ∧
  (∀ v, versionSatisfies v "<2.0.0" = false) ∧
  (∃ r, buildRegistry [sample_tool "t1" "a" ">=1.0.0<2"] = Returned r) ∧
  versionSatisfies "9.0.0" ">=1.0.0<2" = true.
Proof.
  split; [eexists; vm_compute; reflexivity|]. split.
  - intros v. unfold versionSatisfies. destruct (semverish v); [|done]. by vm_compute.
  - split; [eexists; vm_compute; reflexivity | by vm_compute].
Qed.

(** A prerelease satisfies the range of its release. *)
Example prerelease_is_accepted : versionSatisfies "1.0.0-alpha" "^1.0.0" = true.
Proof. by vm_compute. Qed.
