(* ===== verification/DecisionService.v ===== *)
(** * The decision service

    [packages/policy-engine/src/evaluator/service.ts]: the persisted decision, the fingerprint
    of its inputs, and the dispatch token issued for it.  The persistence port is the one call
    of the service; the ids and the clock come from outside. *)

From S2P Require Import Prelude JsString Effects JsDate Json Contracts Precedence.

(* @src packages/policy-engine/src/evaluator/service.ts:23-44 PolicyDecisionRecord *)
Record PolicyDecisionRecord := {
  dec_id : string;
  dec_workflowRunId : string;
  dec_actionOperationKey : string;
  dec_effect : PolicyEffect;
  dec_reasonCode : string;
  dec_obligations : list Obligation;
  dec_matchedRules : list MatchedRule;
  dec_explanation : string;
  dec_inputFingerprint : string;
  dec_policySnapshotId : string;
  dec_currentPolicyVersionId : string;
  dec_globalSafetyVersionId : string;
  dec_registrySnapshotId : string;
  evaluatorVersion : string;
  createdAtIso : string;
}.

(* @src packages/policy-engine/src/evaluator/service.ts:54-62 EvaluationRequest *)
Record EvaluationRequest := {
  input : EvaluationInput;
  req_repositoryId : string;
  req_workflowRunId : string;
  req_actionOperationKey : string;
  req_policySnapshotId : string;
  req_currentPolicyVersionId : string;
  req_globalSafetyVersionId : string;
  req_registrySnapshotId : string;
}.

(* @src packages/policy-engine/src/evaluator/precedence.ts:25-25 EVALUATOR_VERSION *)
Definition EVALUATOR_VERSION : string := "policy-evaluator@1".

(* @src packages/policy-engine/src/evaluator/service.ts:69-87 inputFingerprint *)
Definition fingerprint_json (i : EvaluationInput) : json :=
  JArr [JOpt JStr (actionId i); JOpt (λ r, JStr (risk_name r)) (riskClass i);
        JOpt JBool (repositoryDenyMatch i); JOpt JBool (globalDenyMatch i);
        JOpt JBool (globalApprovalFloorMatch i); JOpt JBool (workflowPermitted i);
        JOpt (λ e, JStr (effect_name e)) (ceilingEffect i);
        JOpt JBool (contextRequiresApproval i); JOpt JBool (sandboxRequired i);
        JBool (gateRequired i); JOpt JBool (gateSatisfied i); JBool (explicitAllowMatch i);
        JBool (explicitRequireApprovalMatch i); JBool (explicitDenyMatch i);
        JBool (exactValidApprovalPresent i);
        JBool (targetsProtectedBranch i ?? false); JBool (mergesProtectedBranch i ?? false)].

Definition environment_text (e : ExecutionEnvironment) : string :=
  match e with sandbox_required => "sandbox_required" | devguard_service => "devguard_service" end.

Definition mode_text (m : NetworkMode) : string :=
  match m with default_deny => "default_deny" | allowlist => "allowlist" end.

(** A member that is left out when undefined. *)
Definition opt_member {A} (k : string) (f : A → json) (o : option A) : list (string * json) :=
  match o with Some a => [(k, f a)] | None => [] end.

Definition obligation_json (o : Obligation) : json :=
  match o with
  | execution_environment e =>
      JObj [("kind", JStr "execution_environment"); ("environment", JStr (environment_text e))]
  | network_policy m hosts =>
      JObj ([("kind", JStr "network_policy"); ("mode", JStr (mode_text m))] ++
            opt_member "allowlist" (λ l, JArr (JStr <$> l)) hosts)
  | timeout_ms v => JObj [("kind", JStr "timeout_ms"); ("value", JNum v)]
  | resource_ceiling c m d =>
      JObj ([("kind", JStr "resource_ceiling")] ++ opt_member "cpuCores" JNum c ++
            opt_member "memoryMb" JNum m ++ opt_member "diskMb" JNum d)
  | secret_grant l => JObj [("kind", JStr "secret_grant"); ("names", JArr (JStr <$> l))]
  end.

Definition matched_rule_json (r : MatchedRule) : json :=
  JObj [("stage", JNum (stage r)); ("ruleId", JStr (ruleId r));
        ("effect", JStr (effect_name (rule_effect r)));
        ("explanation", JStr (rule_explanation r))].

Definition record_json (r : PolicyDecisionRecord) : json :=
  JObj [("id", JStr (dec_id r)); ("workflowRunId", JStr (dec_workflowRunId r));
        ("actionOperationKey", JStr (dec_actionOperationKey r));
        ("effect", JStr (effect_name (dec_effect r))); ("reasonCode", JStr (dec_reasonCode r));
        ("obligations", JArr (obligation_json <$> dec_obligations r));
        ("matchedRules", JArr (matched_rule_json <$> dec_matchedRules r));
        ("explanation", JStr (dec_explanation r));
        ("inputFingerprint", JStr (dec_inputFingerprint r));
        ("policySnapshotId", JStr (dec_policySnapshotId r));
        ("currentPolicyVersionId", JStr (dec_currentPolicyVersionId r));
        ("globalSafetyVersionId", JStr (dec_globalSafetyVersionId r));
        ("registrySnapshotId", JStr (dec_registrySnapshotId r));
        ("evaluatorVersion", JStr (evaluatorVersion r)); ("createdAtIso", JStr (createdAtIso r))].

(* @src packages/policy-engine/src/evaluator/service.ts:97-102 AuthorizedActionToken *)
Record AuthorizedActionToken := {
  decisionId : string;
  tokenHash : string;
  operationFingerprint : string;
  expiresAtMs : Z;
}.

(** The persistence port. *)
(* @src packages/policy-engine/src/evaluator/service.ts:46-52 DecisionPersistencePort *)
Inductive StoreCall :=
  persistAttemptAndDecision (decision : PolicyDecisionRecord) (outcomeHash : string)
    (eventType : string) (payload : json).

Definition StoreAns (_ : StoreCall) : Type := unit.

Section Service.
Context `{Collation} `{Digest}.

(** [error.message] of a rejected call. *)
Variable message_of : js_error → string.

(* @src packages/policy-engine/src/evaluator/service.ts:66-90 inputFingerprint *)
Definition inputFingerprint (r : EvaluationRequest) : string :=
  sha256 (stringify (fingerprint_json (input r))).

(* @src packages/policy-engine/src/evaluator/service.ts:213-215 decisionHash *)
Definition decisionHash (r : PolicyDecisionRecord) : string := sha256 (stringify (record_json r)).

(** The record with its [outcomeHash]; [newId] is the id drawn for it. *)
(* @src packages/policy-engine/src/evaluator/service.ts:111-135 PolicyEvaluationService.evaluate *)
Definition evaluate (newId : string) (r : EvaluationRequest) (nowIso : string)
  : PolicyDecisionRecord * string :=
  let outcome := evaluatePrecedence (input r) in
  let record :=
    {| dec_id := newId; dec_workflowRunId := req_workflowRunId r;
       dec_actionOperationKey := req_actionOperationKey r; dec_effect := effect outcome;
       dec_reasonCode := reasonCode outcome; dec_obligations := obligations outcome;
       dec_matchedRules := matchedRules outcome; dec_explanation := explanation outcome;
       dec_inputFingerprint := inputFingerprint r;
       dec_policySnapshotId := req_policySnapshotId r;
       dec_currentPolicyVersionId := req_currentPolicyVersionId r;
       dec_globalSafetyVersionId := req_globalSafetyVersionId r;
       dec_registrySnapshotId := req_registrySnapshotId r;
       evaluatorVersion := EVALUATOR_VERSION; createdAtIso := nowIso |} in
  (record, decisionHash record).

(* @src packages/policy-engine/src/evaluator/service.ts:151-157 PolicyEvaluationService.evaluateAndPersist *)
Definition event_type (e : PolicyEffect) : string :=
  match e with
  | ALLOW => "action.authorized"
  | REQUIRE_APPROVAL => "approval.required"
  | DENY => "action.denied"
  end.

Definition event_payload (r : PolicyDecisionRecord) : json :=
  JObj [("decisionId", JStr (dec_id r)); ("workflowRunId", JStr (dec_workflowRunId r));
        ("actionOperationKey", JStr (dec_actionOperationKey r));
        ("effect", JStr (effect_name (dec_effect r))); ("reasonCode", JStr (dec_reasonCode r))].

(* @src packages/policy-engine/src/evaluator/service.ts:142-173 PolicyEvaluationService.evaluateAndPersist *)
Definition evaluateAndPersist (newId : string) (r : EvaluationRequest) (nowMs : option Z)
    (clock : Z) : proc StoreAns (PolicyDecisionRecord * string) :=
  match toISOString (nowMs ?? clock) with
  | Threw e => throw e
  | Returned nowIso =>
  let '(record, hash) := evaluate newId r nowIso in
  ptry
    (call (persistAttemptAndDecision record hash (event_type (dec_effect record))
             (event_payload record)) ;~ pret tt)
    (λ e, throw (PlainError
      ("decision persistence failed; no action may be dispatched (" +s message_of e +s ")"))) ;~
  pret (record, hash)
  end.

(* @src packages/policy-engine/src/evaluator/service.ts:180-191 PolicyEvaluationService.verifyDispatch *)
Definition verifyDispatch (token : AuthorizedActionToken) (fingerprint : string) (nowMs : Z)
  : bool * option string :=
  if expiresAtMs token <=? nowMs then (false, Some "DECISION_STALE")
  else if negb (operationFingerprint token =s? fingerprint) then (false, Some "CONTEXT_CHANGED")
  else (true, None).

(* @src packages/policy-engine/src/evaluator/service.ts:193-210 PolicyEvaluationService.issueToken *)
Definition issueToken (record : PolicyDecisionRecord) (ttlMs nowMs : Z)
  : outcome AuthorizedActionToken :=
  if negb (effect_eqb (dec_effect record) ALLOW) then
    Threw (PlainError "cannot issue a dispatch token for a non-ALLOW decision")
  else Returned
    {| decisionId := dec_id record;
       tokenHash := sha256 (join "|" [dec_id record; dec_inputFingerprint record;
                                      num_to_string (nowMs + ttlMs)]);
       operationFingerprint := dec_inputFingerprint record;
       expiresAtMs := nowMs + ttlMs |}.
End Service.

Section ServiceProperties.
Context `{Collation} `{Digest} (message_of : js_error → string).

(** Persist before return, whatever the store does: a decision is returned only after exactly
    one store call, acknowledged, that carried this very record and the event of its effect;
    when the store rejects, the call throws, so no decision reaches the caller. *)
Theorem decision_persisted_before_return newId r nowMs clock :
  ensures
    (λ tr c, tr = [])
    (λ tr o, match o with
             | Returned (d, h) =>
                 (∃ iso, (d, h) = evaluate newId r iso) ∧
                 tr = [ev (persistAttemptAndDecision d h (event_type (dec_effect d))
                             (event_payload d)) (Returned tt)]
             | Threw _ => ∀ e, e ∈ tr → ¬ acknowledged e
             end)
    [] (evaluateAndPersist message_of newId r nowMs clock).
Proof.
  unfold evaluateAndPersist. destruct (toISOString _) as [iso|e]; simpl.
  - split; [done|]. intros [[]|e]; simpl; [eauto|].
    intros e' ->%list_elem_of_singleton. by intros [[] ?].
  - intros e' Hin. by apply elem_of_nil in Hin.
Qed.

Lemma JOpt_inj {A} (f : A → json) a b :
  (∀ x y, f x = f y → x = y) → (∀ x, f x ≠ JNull) → JOpt f a = JOpt f b → a = b.
Proof.
  intros Hf Hn. destruct a, b; simpl; intros Heq; [f_equal; auto|by apply Hn in Heq| |done].
  by destruct (Hn _ (eq_sym Heq)).
Qed.

(** What the fingerprint identifies: two inputs that agree but for an undefined branch fact,
    which counts as false. *)
Definition normalized (i : EvaluationInput) : EvaluationInput :=
  {| actionId := actionId i; riskClass := riskClass i;
     repositoryDenyMatch := repositoryDenyMatch i; globalDenyMatch := globalDenyMatch i;
     globalApprovalFloorMatch := globalApprovalFloorMatch i;
     workflowPermitted := workflowPermitted i; ceilingEffect := ceilingEffect i;
     contextRequiresApproval := contextRequiresApproval i; sandboxRequired := sandboxRequired i;
     gateSatisfied := gateSatisfied i; gateRequired := gateRequired i;
     explicitAllowMatch := explicitAllowMatch i;
     explicitRequireApprovalMatch := explicitRequireApprovalMatch i;
     explicitDenyMatch := explicitDenyMatch i;
     exactValidApprovalPresent := exactValidApprovalPresent i;
     targetsProtectedBranch := Some (yes (targetsProtectedBranch i));
     mergesProtectedBranch := Some (yes (mergesProtectedBranch i)) |}.

Lemma fingerprint_json_inj i j : fingerprint_json i = fingerprint_json j → normalized i = normalized j.
Proof.
  destruct i, j. unfold fingerprint_json, normalized, yes. simpl. intros Heq. simplify_eq.
  repeat match goal with
  | Hj : JOpt _ _ = JOpt _ _ |- _ =>
      apply JOpt_inj in Hj; [|first [by intros [] [] | by intros ? ? [= ->]]|done]
  end.
  subst. by repeat match goal with Hd : _ = _ |- _ => rewrite Hd; clear Hd end.
Qed.

Lemma evaluate_normalized i : evaluatePrecedence (normalized i) = evaluatePrecedence i.
Proof. reflexivity. Qed.

Lemma fingerprint_decides `{!CollisionFree} r r' :
  inputFingerprint r = inputFingerprint r' →
  evaluatePrecedence (input r) = evaluatePrecedence (input r').
Proof.
  intros Hf%digest_inj%fingerprint_json_inj.
  by rewrite <- (evaluate_normalized (input r)), Hf, evaluate_normalized.
Qed.

(* @prop safety 7 : issueToken verifyDispatch inputFingerprint evaluate evaluatePrecedence / dispatch_needs_current_allow_witness *)
(** C31. A token never dispatches what would not be allowed now: with a collision-free digest, if a
    token issued for a decision passes the pre-dispatch check against the fingerprint of the
    current request, then evaluating the current request yields ALLOW with the same reason,
    rules and obligations as the committed decision, and the token's lifetime has not ended. *)
Theorem dispatch_needs_current_allow `{!CollisionFree} newId r iso ttl now token current now'
  (Hissue : issueToken (evaluate newId r iso).1 ttl now = Returned token)
  (Hverify : (verifyDispatch token (inputFingerprint current) now').1 = true) :
  effect (evaluatePrecedence (input current)) = ALLOW ∧
  evaluatePrecedence (input current) = evaluatePrecedence (input r) ∧
  now' < now + ttl.
Proof.
  unfold issueToken in Hissue. cbn [evaluate fst dec_effect dec_inputFingerprint] in Hissue.
  destruct (effect_eqb (effect (evaluatePrecedence (input r))) ALLOW) eqn:Ea; [|done].
  unfold effect_eqb in Ea. breflect. injection Hissue as <-.
  unfold verifyDispatch in Hverify. simpl in Hverify.
  destruct (now + ttl <=? now') eqn:Et; [done|].
  destruct (inputFingerprint r =s? inputFingerprint current) eqn:Ef; [|done].
  breflect. rewrite <- (fingerprint_decides r current Ef). split_and!; [done|done|lia].
Qed.

(** The token binds the evaluation inputs only: a token issued for a decision passes the
    pre-dispatch check, within its lifetime, for every request with the same inputs, whatever
    repository, workflow run and operation key that request names, although the token calls
    its fingerprint the fingerprint of the operation. *)
Theorem token_not_bound_to_operation newId r iso ttl now token current now'
  (Hissue : issueToken (evaluate newId r iso).1 ttl now = Returned token)
  (Hsame : input current = input r) (Hlive : now' < now + ttl) :
  verifyDispatch token (inputFingerprint current) now' = (true, None).
Proof.
  unfold issueToken in Hissue. case_match; [done|]. injection Hissue as <-.
  unfold verifyDispatch, inputFingerprint. simpl.
  destruct (Z.leb_spec (now + ttl) now'); [lia|].
  unfold inputFingerprint. by rewrite Hsame, String.eqb_refl.
Qed.
End ServiceProperties.

(** ** Witnesses *)

Definition read_input : EvaluationInput :=
  {| actionId := Some "repository_read"; riskClass := Some read;
     repositoryDenyMatch := Some false; globalDenyMatch := Some false;
     globalApprovalFloorMatch := Some false; workflowPermitted := Some true;
     ceilingEffect := Some ALLOW; contextRequiresApproval := Some false;
     sandboxRequired := Some false; gateSatisfied := None; gateRequired := false;
     explicitAllowMatch := false; explicitRequireApprovalMatch := false;
     explicitDenyMatch := false; exactValidApprovalPresent := false;
     targetsProtectedBranch := None; mergesProtectedBranch := None |}.

Definition read_request (repository run : string) : EvaluationRequest :=
  {| input := read_input; req_repositoryId := repository; req_workflowRunId := run;
     req_actionOperationKey := run; req_policySnapshotId := "s"; req_currentPolicyVersionId := "v";
     req_globalSafetyVersionId := "g"; req_registrySnapshotId := "t" |}.

Definition read_token (D : Digest) : outcome AuthorizedActionToken :=
  issueToken (evaluate "d1" (read_request "repo-a" "run-a") "now").1 60000 1000.

Lemma dispatch_needs_current_allow_witness :
  let _ : Digest := λ s, s in effect (evaluatePrecedence read_input) = ALLOW.
Proof.
  intros D. assert (CollisionFree) by (by intros x y).
  by eapply (dispatch_needs_current_allow "d1" (read_request "repo-a" "run-a") "now" 60000 1000 _
    (read_request "repo-a" "run-a") 2000); vm_compute.
Defined.

Lemma token_not_bound_to_operation_witness :
  let D : Digest := λ s, s in
  ∃ token, read_token D = Returned token ∧
    verifyDispatch token (inputFingerprint (read_request "repo-b" "run-b")) 2000 = (true, None).
Proof.
  intros D. eexists. split; [reflexivity|].
  by apply (token_not_bound_to_operation "d1" (read_request "repo-a" "run-a") "now" 60000 1000).
Defined.
