(* ===== verification/Outbox.v ===== *)
(** * The transactional outbox

    [packages/db/src/reliability/outbox.ts]: the validated writer, and the claim, lease and
    compare-and-set outcomes of the publisher.  The table is a map from event id to row; [now]
    is the database clock in milliseconds; ids are fresh UUIDs from outside. *)

From S2P Require Import Prelude JsString Effects Json.

(* @src packages/db/src/reliability/outbox.ts:14-15 MAX_OUTBOX_ATTEMPTS *)
Definition MAX_OUTBOX_ATTEMPTS : Z := 10.

(* @src packages/db/src/reliability/outbox.ts:17-18 MAX_OUTBOX_SERIALIZED_BYTES *)
Definition MAX_OUTBOX_SERIALIZED_BYTES : Z := 65536.

(* @src packages/db/src/reliability/outbox.ts:20-30 OutboxEventLike *)
Record OutboxEventLike := {
  eventType : string;
  schemaVersion : Z;
  payload : json;
  correlation : json;
  aggregateType : option string;
  aggregateId : option string;
  aggregateVersion : option Z;
}.

Inductive OutboxStatus := pending | publishing | published | dead_lettered.

#[export] Instance OutboxStatus_eq_dec : EqDecision OutboxStatus.
Proof. solve_decision. Defined.

(** A row of [outbox_events]. *)
(* @src packages/db/src/reliability/outbox.ts:32-56 OutboxRecord *)
Record OutboxRow := {
  event : OutboxEventLike;
  status : OutboxStatus;
  availableAt : Z;
  attempts : Z;
  leaseOwner : option string;
  leaseExpiresAt : option Z;
  publishedAt : option Z;
  lastErrorCode : option string;
  rowVersion : Z;
}.

Abbreviation Outbox := (gmap string OutboxRow) (only parsing).

(** ** Writing *)

(* @src packages/db/src/reliability/outbox.ts:58-67 assertNonEmptyObject *)
Definition nonEmptyObject (v : json) : bool :=
  match v with JObj (_ :: _) => true | _ => false end.

(* @src packages/db/src/reliability/outbox.ts:69-74 assertBoundedJson *)
Definition boundedJson (v : json) : bool :=
  utf8_length (stringify v) <? MAX_OUTBOX_SERIALIZED_BYTES.

Definition validation_failed : js_error := GuardError "VALIDATION_FAILED".

(** The checks of [append], in order; all raise [VALIDATION_FAILED]. *)
(* @src packages/db/src/reliability/outbox.ts:78-88 OutboxWriter.append *)
Definition event_valid (e : OutboxEventLike) : bool :=
  nonempty (trim (eventType e)) && (1 <=? schemaVersion e) &&
  nonEmptyObject (payload e) && nonEmptyObject (correlation e) &&
  boundedJson (payload e) && boundedJson (correlation e).

(* @src packages/db/src/reliability/outbox.ts:78-107 OutboxWriter.append *)
Definition append (now : Z) (id : string) (e : OutboxEventLike) (m : Outbox)
  : outcome unit * Outbox :=
  if negb (event_valid e) then (Threw validation_failed, m)
  else match m !! id with
  | Some _ => (Threw (PlainError "23505"), m)
  | None =>
      (Returned tt,
       <[id := {| event := e; status := pending; availableAt := now; attempts := 0;
                  leaseOwner := None; leaseExpiresAt := None; publishedAt := None;
                  lastErrorCode := None; rowVersion := 1 |}]> m)
  end.

(** ** Claiming *)

(** The WHERE clause of the claim. *)
(* @src packages/db/src/reliability/outbox.ts:117-124 CLAIM_SQL *)
Definition claimable (now : Z) (r : OutboxRow) : bool :=
  match status r with
  | pending => availableAt r <=? now
  | publishing => match leaseExpiresAt r with Some t => t <? now | None => false end
  | _ => false
  end.

(** [ORDER BY available_at, id]. *)
Definition claim_order : string * OutboxRow → string * OutboxRow → Z :=
  cmp_then (cmp_by (λ p, availableAt p.2) Z.sub) (cmp_by fst code_unit_compare).

(** [LIMIT $3 FOR UPDATE SKIP LOCKED]; [locked] are the rows peers hold. *)
(* @src packages/db/src/reliability/outbox.ts:117-124 CLAIM_SQL *)
Definition selected (now : Z) (batch : nat) (locked : list string) (m : Outbox) : list string :=
  take batch (fst <$> js_sort claim_order
    (List.filter (λ p, claimable now p.2 && negb (str_in p.1 locked)) (map_to_list m))).

(* @src packages/db/src/reliability/outbox.ts:110-126 CLAIM_SQL *)
Definition claimed_row (now leaseMs : Z) (owner : string) (r : OutboxRow) : OutboxRow :=
  {| event := event r; status := publishing; availableAt := availableAt r;
     attempts := attempts r; leaseOwner := Some owner; leaseExpiresAt := Some (now + leaseMs);
     publishedAt := publishedAt r; lastErrorCode := lastErrorCode r;
     rowVersion := rowVersion r + 1 |}.

(** The claimed ids with their new rows, and the new table. *)
(* @src packages/db/src/reliability/outbox.ts:187-193 OutboxRepository.claim *)
Definition claim (now : Z) (batch : nat) (leaseMs : Z) (owner : string) (locked : list string)
    (m : Outbox) : list (string * OutboxRow) * Outbox :=
  let ids := selected now batch locked m in
  let m' := foldr (λ id m, alter (claimed_row now leaseMs owner) id m) m ids in
  (omap (λ id, (λ r, (id, r)) <$> m' !! id) ids, m').

(** ** Outcomes *)

Definition conflict : js_error := GuardError "VERSION_CONFLICT".

(** [WHERE id = $1 AND row_version = $2 AND status = 'publishing']. *)
(* @src packages/db/src/reliability/outbox.ts:128-137 MARK_PUBLISHED_SQL *)
Definition held (id : string) (version : Z) (m : Outbox) : option OutboxRow :=
  match m !! id with
  | Some r => if (rowVersion r =? version) && bool_decide (status r = publishing)
              then Some r else None
  | None => None
  end.

(* @src packages/db/src/reliability/outbox.ts:195-206 OutboxRepository.markPublished *)
Definition markPublished (now : Z) (id : string) (expectedRowVersion : Z) (m : Outbox)
  : outcome unit * Outbox :=
  match held id expectedRowVersion m with
  | Some r =>
      (Returned tt,
       <[id := {| event := event r; status := published; availableAt := availableAt r;
                  attempts := attempts r; leaseOwner := None; leaseExpiresAt := None;
                  publishedAt := Some now; lastErrorCode := lastErrorCode r;
                  rowVersion := rowVersion r + 1 |}]> m)
  | None => (Threw conflict, m)
  end.

(* @src packages/db/src/reliability/outbox.ts:140-151 RESCHEDULE_SQL *)
Definition rescheduled_row (nextAt : Z) (errorCode : string) (r : OutboxRow) : OutboxRow :=
  let exhausted := MAX_OUTBOX_ATTEMPTS <=? attempts r + 1 in
  {| event := event r; status := if exhausted then dead_lettered else pending;
     availableAt := if exhausted then availableAt r else nextAt;
     attempts := attempts r + 1; leaseOwner := None; leaseExpiresAt := None;
     publishedAt := publishedAt r; lastErrorCode := Some (slice_to 128 errorCode);
     rowVersion := rowVersion r + 1 |}.

(* @src packages/db/src/reliability/outbox.ts:213-239 OutboxRepository.reschedule *)
Definition reschedule (id : string) (expectedRowVersion nextAt : Z) (errorCode : string)
    (m : Outbox) : outcome (OutboxStatus * Z) * Outbox :=
  match held id expectedRowVersion m with
  | Some r =>
      let r' := rescheduled_row nextAt errorCode r in
      (Returned (status r', attempts r'), <[id := r']> m)
  | None => (Threw conflict, m)
  end.

(* @src packages/db/src/reliability/outbox.ts:242-252 OutboxRepository.deadLetter *)
Definition deadLetter (id : string) (expectedRowVersion : Z) (errorCode : string) (m : Outbox)
  : outcome unit * Outbox :=
  match held id expectedRowVersion m with
  | Some r =>
      (Returned tt,
       <[id := {| event := event r; status := dead_lettered; availableAt := availableAt r;
                  attempts := attempts r; leaseOwner := None; leaseExpiresAt := None;
                  publishedAt := publishedAt r; lastErrorCode := Some (slice_to 128 errorCode);
                  rowVersion := rowVersion r + 1 |}]> m)
  | None => (Threw conflict, m)
  end.

(** ** The table as a transition system *)

Inductive OutboxStep (m : Outbox) : Outbox → Prop :=
  | step_append now id e : OutboxStep m (append now id e m).2
  | step_claim now batch lease owner locked :
      OutboxStep m (claim now batch lease owner locked m).2
  | step_publish now id v : OutboxStep m (markPublished now id v m).2
  | step_reschedule id v next code : OutboxStep m (reschedule id v next code m).2
  | step_dead_letter id v code : OutboxStep m (deadLetter id v code m).2.

(** What a row keeps: its event, a version that counts the changes, an attempt count within the
    ceiling, and its lease exactly while it is being published. *)
Record row_ok (r : OutboxRow) : Prop := {
  ok_version : 1 ≤ rowVersion r;
  ok_attempts : 0 ≤ attempts r ≤ MAX_OUTBOX_ATTEMPTS;
  ok_retryable : status r = pending ∨ status r = publishing → attempts r < MAX_OUTBOX_ATTEMPTS;
  ok_lease : status r = publishing ↔ is_Some (leaseExpiresAt r);
}.

Definition table_ok (m : Outbox) : Prop := ∀ id r, m !! id = Some r → row_ok r.

(** One step of one row: unchanged, or one version on, from a state that is not final. *)
Definition row_moves (r r' : OutboxRow) : Prop :=
  r' = r ∨
  rowVersion r' = rowVersion r + 1 ∧ event r' = event r ∧
  (status r = pending ∧ status r' = publishing ∨ status r = publishing).

(** ** Properties *)

Lemma foldr_alter_lookup {A} (f : A → A) (ids : list string) (m : gmap string A) id :
  NoDup ids →
  foldr (λ i m, alter f i m) m ids !! id = (if decide (id ∈ ids) then f <$> m !! id else m !! id).
Proof.
  induction 1 as [|i ids Hi Hnd IH]; simpl; [done|].
  destruct (decide (id = i)) as [->|Hne].
  - rewrite lookup_alter_eq, IH, decide_False by done. rewrite decide_True by left. done.
  - rewrite lookup_alter_ne, IH by done. repeat case_decide; set_solver.
Qed.

Lemma selected_nodup now batch locked m : NoDup (selected now batch locked m).
Proof.
  unfold selected. eapply sublist_NoDup; [|apply sublist_take].
  assert (Hp : fst <$> js_sort claim_order (List.filter
      (λ p, claimable now p.2 && negb (str_in p.1 locked)) (map_to_list m)) ≡ₚ
    fst <$> List.filter (λ p, claimable now p.2 && negb (str_in p.1 locked)) (map_to_list m))
    by (by rewrite js_sort_perm).
  rewrite Hp. clear Hp. assert (Hnd : NoDup (map_to_list m).*1) by apply NoDup_fst_map_to_list.
  revert Hnd. generalize (map_to_list m). intros l. induction l as [|p l IH]; [constructor|].
  intros Hnd. rewrite fmap_cons in Hnd. inversion Hnd as [|? ? Hn Hnd']; subst. simpl.
  case_match; [|by apply IH]. rewrite fmap_cons. constructor; [|by apply IH].
  intros (q & Hq & Hin)%list_elem_of_fmap. apply Hn. rewrite Hq.
  apply list_elem_of_fmap_2. js_reflect. by destruct Hin.
Qed.

Lemma selected_elem now batch locked m id :
  id ∈ selected now batch locked m →
  ∃ r, m !! id = Some r ∧ claimable now r = true ∧ id ∉ locked.
Proof.
  intros Hid%elem_of_take. destruct Hid as (i & Hi & _).
  apply list_elem_of_lookup_2 in Hi.
  apply list_elem_of_fmap in Hi as ([id' r] & -> & Hi).
  apply js_sort_elem, bfilter_elem in Hi as [Hi Hc]. apply elem_of_map_to_list in Hi.
  simpl in *. breflect. apply str_in_false in H0. eauto.
Qed.

Lemma claim_lookup now batch lease owner locked m id :
  (claim now batch lease owner locked m).2 !! id =
    if decide (id ∈ selected now batch locked m)
    then claimed_row now lease owner <$> m !! id else m !! id.
Proof. simpl. apply foldr_alter_lookup, selected_nodup. Qed.

Lemma claim_elem now batch lease owner locked m id r :
  (id, r) ∈ (claim now batch lease owner locked m).1 →
  id ∈ selected now batch locked m ∧
  ∃ r0, m !! id = Some r0 ∧ claimable now r0 = true ∧ r = claimed_row now lease owner r0 ∧
    (claim now batch lease owner locked m).2 !! id = Some r.
Proof.
  unfold claim at 1. cbn [fst]. intros (i & Hi & Heq)%list_elem_of_omap.
  split.
  - by destruct (_ !! i); simplify_eq/=.
  - pose proof (claim_lookup now batch lease owner locked m i) as Hl.
    unfold claim in Hl. cbn [snd] in Hl. rewrite decide_True in Hl by done.
    destruct (selected_elem _ _ _ _ _ Hi) as (r0 & Hr0 & Hc & _).
    rewrite Hl, Hr0 in Heq. simpl in Heq. simplify_eq. exists r0. split_and!; try done.
    rewrite claim_lookup, decide_True, Hr0 by done. done.
Qed.

Lemma held_spec id v m r :
  held id v m = Some r ↔ m !! id = Some r ∧ rowVersion r = v ∧ status r = publishing.
Proof.
  unfold held. destruct (m !! id) as [r0|]; [|naive_solver].
  destruct (Z.eqb_spec (rowVersion r0) v), (bool_decide_reflect (status r0 = publishing)); simpl;
    naive_solver.
Qed.

(** An outcome changes at most the row it holds. *)
Lemma held_insert_moves id v m (f : OutboxRow → OutboxRow) id' r :
  (∀ x, rowVersion (f x) = rowVersion x + 1 ∧ event (f x) = event x) →
  m !! id' = Some r →
  ∃ r', (match held id v m with Some x => <[id := f x]> m | None => m end) !! id' = Some r' ∧
    row_moves r r'.
Proof.
  intros Hf Hr. destruct (held id v m) as [x|] eqn:Hh.
  - apply held_spec in Hh as (Hx & _ & Hs). destruct (decide (id = id')) as [->|Hne].
    + rewrite lookup_insert_eq. simplify_eq. eexists. split; [done|]. right.
      destruct (Hf r). auto.
    + rewrite lookup_insert_ne by done. exists r. split; [done|by left].
  - exists r. split; [done|by left].
Qed.

Lemma step_row m m' id r :
  OutboxStep m m' → m !! id = Some r → ∃ r', m' !! id = Some r' ∧ row_moves r r'.
Proof.
  intros Hstep Hr. destruct Hstep.
  - exists r. split; [|by left]. unfold append. repeat case_match; simpl; try done.
    destruct (decide (id0 = id)) as [->|]; [congruence | by rewrite lookup_insert_ne].
  - rewrite claim_lookup. case_decide as Hin.
    + rewrite Hr. eexists. split; [done|]. right. split_and!; [done..|].
      destruct (selected_elem _ _ _ _ _ Hin) as (r0 & Hr0 & Hc & _). assert (r0 = r) as -> by congruence.
      unfold claimable in Hc. destruct (status r) eqn:E; try done; auto.
    + exists r. split; [done|by left].
  - unfold markPublished. destruct (held_insert_moves id0 v m (λ r, {| event := event r;
      status := published; availableAt := availableAt r; attempts := attempts r;
      leaseOwner := None; leaseExpiresAt := None; publishedAt := Some now;
      lastErrorCode := lastErrorCode r; rowVersion := rowVersion r + 1 |}) id r) as (r' & H1 & H2);
      [done..|]. exists r'. by destruct (held id0 v m).
  - unfold reschedule. destruct (held_insert_moves id0 v m (rescheduled_row next code) id r)
      as (r' & H1 & H2); [done..|]. exists r'. by destruct (held id0 v m).
  - unfold deadLetter. destruct (held_insert_moves id0 v m (λ r, {| event := event r;
      status := dead_lettered; availableAt := availableAt r; attempts := attempts r;
      leaseOwner := None; leaseExpiresAt := None; publishedAt := publishedAt r;
      lastErrorCode := Some (slice_to 128 code); rowVersion := rowVersion r + 1 |}) id r)
      as (r' & H1 & H2); [done..|]. exists r'. by destruct (held id0 v m).
Qed.

Lemma steps_row m m' id r :
  rtc OutboxStep m m' → m !! id = Some r →
  ∃ r', m' !! id = Some r' ∧ event r' = event r ∧ rowVersion r ≤ rowVersion r' ∧
    (rowVersion r' = rowVersion r → r' = r) ∧
    (status r = published ∨ status r = dead_lettered → r' = r).
Proof.
  intros Hsteps. revert r. induction Hsteps as [m|m m1 m2 Hstep _ IH]; intros r Hr.
  - exists r. split_and!; done || lia.
  - destruct (step_row _ _ _ _ Hstep Hr) as (r1 & Hr1 & Hm).
    destruct (IH _ Hr1) as (r2 & Hr2 & He & Hv & Heq & Hfin). exists r2.
    destruct Hm as [->|(Hv1 & He1 & Hs1)]; [auto|].
    split_and!; [done|congruence|lia|lia|]. intros Hs. exfalso.
    intuition congruence.
Qed.

Lemma claimable_live now r : claimable now r = true → status r = pending ∨ status r = publishing.
Proof. unfold claimable. destruct (status r); auto; done. Qed.

Lemma table_ok_held id v m f :
  table_ok m → (∀ r, row_ok r → status r = publishing → row_ok (f r)) →
  table_ok (match held id v m with Some r => <[id := f r]> m | None => m end).
Proof.
  intros Hok Hf. destruct (held id v m) as [r|] eqn:Hh; [|done].
  apply held_spec in Hh as (Hr & _ & Hs). intros i r' [[<- <-]|[_ Hr']]%lookup_insert_Some.
  - apply Hf; [by eapply Hok|done].
  - by eapply Hok.
Qed.

Lemma table_ok_step m m' : table_ok m → OutboxStep m m' → table_ok m'.
Proof.
  intros Hok Hstep. destruct Hstep.
  - unfold append. repeat case_match; simpl; try done.
    intros i r [[<- <-]|[_ Hr]]%lookup_insert_Some; [|by eapply Hok].
    split; simpl; unfold MAX_OUTBOX_ATTEMPTS; try lia. split; [done|by intros [? ?]].
  - intros i r. rewrite claim_lookup. case_decide as Hin; [|apply Hok].
    intros (r0 & Hr0 & ->)%fmap_Some_1. destruct (Hok _ _ Hr0) as [H1 H2 H3 H4].
    destruct (selected_elem _ _ _ _ _ Hin) as (r1 & Hr1 & Hc%claimable_live & _).
    assert (r1 = r0) as -> by congruence. split; simpl; [lia|done|auto|].
    split; [eauto|done].
  - unfold markPublished. pose proof (table_ok_held id v m (λ r, {| event := event r;
      status := published; availableAt := availableAt r; attempts := attempts r;
      leaseOwner := None; leaseExpiresAt := None; publishedAt := Some now;
      lastErrorCode := lastErrorCode r; rowVersion := rowVersion r + 1 |}) Hok) as Hh.
    destruct (held id v m); simpl in *; [apply Hh|done].
    intros x [] _. split; simpl; [lia|done|by intros [? | ?]|split; [done|by intros [? ?]]].
  - unfold reschedule. pose proof (table_ok_held id v m (rescheduled_row next code) Hok) as Hh.
    destruct (held id v m); simpl in *; [apply Hh|done].
    intros x [? ? H3 ?] Hs. specialize (H3 (or_intror Hs)).
    unfold rescheduled_row. split; simpl; [lia|lia| |].
    + destruct (Z.leb_spec MAX_OUTBOX_ATTEMPTS (attempts x + 1)); [by intros [? | ?]|done].
    + split; [by case_match|by intros [? ?]].
  - unfold deadLetter. pose proof (table_ok_held id v m (λ r, {| event := event r;
      status := dead_lettered; availableAt := availableAt r; attempts := attempts r;
      leaseOwner := None; leaseExpiresAt := None; publishedAt := publishedAt r;
      lastErrorCode := Some (slice_to 128 code); rowVersion := rowVersion r + 1 |}) Hok) as Hh.
    destruct (held id v m); simpl in *; [apply Hh|done].
    intros x [] _. split; simpl; [lia|done|by intros [? | ?]|split; [done|by intros [? ?]]].
Qed.

(** The outbox through any interleaving of writers and publishers: starting empty, every row's
    attempts stay within the ceiling and below it while the event can still be sent, and a row
    carries a lease exactly while it is being published; and no operation ever loses an event,
    changes its content, or touches it again once it is published or dead-lettered. *)
Theorem outbox_invariant m m' (H0 : rtc OutboxStep ∅ m) (Hsteps : rtc OutboxStep m m') :
  (∀ id r, m' !! id = Some r → row_ok r) ∧
  ∀ id r, m !! id = Some r → ∃ r', m' !! id = Some r' ∧ event r' = event r ∧
    rowVersion r ≤ rowVersion r' ∧
    (status r = published ∨ status r = dead_lettered → r' = r).
Proof.
  split.
  - intros id r Hr. assert (Hall : rtc OutboxStep ∅ m') by (by etrans).
    assert (Hok : table_ok m'); [|by eapply Hok].
    clear -Hall. revert Hall. apply rtc_ind_r; [by intros i r; rewrite lookup_empty|].
    intros x y _ Hs Hx. by eapply table_ok_step.
  - intros id r Hr. destruct (steps_row _ _ _ _ Hsteps Hr) as (r' & ? & ? & ? & _ & ?).
    by exists r'.
Qed.

(** Stale publishers are fenced: whatever other writers and publishers do after an event is
    claimed, the claimer's outcome -- published, rescheduled or dead-lettered -- succeeds only
    if the row is still exactly the one it claimed, under its own unreclaimed lease; otherwise
    it fails with a version conflict and changes nothing; and a claim takes only rows that are
    due, or whose previous lease ran out, skipping those locked by peers. *)
Theorem publisher_exclusive m now batch lease owner locked id r m'
  (Hclaim : (id, r) ∈ (claim now batch lease owner locked m).1)
  (Hlater : rtc OutboxStep (claim now batch lease owner locked m).2 m') :
  (∃ r0, m !! id = Some r0 ∧ claimable now r0 = true ∧ id ∉ locked ∧
     rowVersion r = rowVersion r0 + 1) ∧
  leaseOwner r = Some owner ∧
  (∀ t, (m' !! id = Some r ∧ (markPublished t id (rowVersion r) m').1 = Returned tt) ∨
     markPublished t id (rowVersion r) m' = (Threw conflict, m')) ∧
  (∀ next code, m' !! id = Some r ∨
     reschedule id (rowVersion r) next code m' = (Threw conflict, m')) ∧
  (∀ code, m' !! id = Some r ∨ deadLetter id (rowVersion r) code m' = (Threw conflict, m')).
Proof.
  apply claim_elem in Hclaim as (Hsel & r0 & Hr0 & Hc & -> & Hlook).
  apply selected_elem in Hsel as (r1 & _ & _ & Hlocked).
  destruct (steps_row _ _ _ _ Hlater Hlook) as (r' & Hr' & _ & _ & Heq & _).
  assert (Hheld : held id (rowVersion (claimed_row now lease owner r0)) m' = None ∨
    held id (rowVersion (claimed_row now lease owner r0)) m' = Some (claimed_row now lease owner r0)
      ∧ m' !! id = Some (claimed_row now lease owner r0)).
  { destruct (held _ _ m') as [x|] eqn:E; [right|by left].
    apply held_spec in E as (Hx & Hv & _). rewrite Hr' in Hx. simplify_eq. by rewrite <- Heq. }
  split_and!; [by exists r0|done| | |];
    intros *; unfold markPublished, reschedule, deadLetter;
    destruct Hheld as [-> | [-> ?]]; auto.
Qed.

(** ** Witnesses *)

Definition sample_event : OutboxEventLike :=
  {| eventType := "approval.resume_requested"; schemaVersion := 1;
     payload := JObj [("approvalId", JStr "a")]; correlation := JObj [("approvalId", JStr "a")];
     aggregateType := None; aggregateId := None; aggregateVersion := None |}.

Definition one_event : gmap string OutboxRow := (append 0 "e1" sample_event ∅).2.

Lemma outbox_invariant_witness : ∃ r, one_event !! "e1" = Some r ∧ row_ok r.
Proof.
  eexists. split; [by vm_compute|].
  apply (proj1 (outbox_invariant ∅ one_event (rtc_once _ _ (step_append _ 0 "e1" sample_event))
    (rtc_refl _ _)) "e1"). by vm_compute.
Defined.

Lemma publisher_exclusive_witness :
  ∃ r, (claim 5 10 1000 "w1" [] one_event).1 = [("e1", r)] ∧ leaseOwner r = Some "w1" ∧
    markPublished 9 "e1" (rowVersion r) (claim 2000 10 1000 "w2" []
      (claim 5 10 1000 "w1" [] one_event).2).2
    = (Threw conflict, (claim 2000 10 1000 "w2" [] (claim 5 10 1000 "w1" [] one_event).2).2).
Proof.
  eexists. split; [by vm_compute|].
  edestruct (publisher_exclusive one_event 5 10 1000 "w1" [] "e1") as (_ & Ho & Hp & _).
  - vm_compute. left.
  - apply rtc_once. apply (step_claim _ 2000 10 1000 "w2" []).
  - split; [done|]. destruct (Hp 9) as [[Hm _]|Hm]; [by vm_compute in Hm|exact Hm].
Defined.
