(* ===== verification/ApprovalFsm.v ===== *)
(** * The approval state machine

    [packages/approvals/src/domain/approval-fsm.ts]: the table of legal edges, the guards, and
    the pure predicate every approval transition goes through. *)

From S2P Require Import Prelude JsString.

(* @src packages/approvals/src/domain/approval-fsm.ts:8-20 APPROVAL_STATUSES *)
Inductive ApprovalStatus :=
  PENDING | APPROVED | REJECTED | EXPIRED | CANCELLED | STALE | EXECUTING | EXECUTED
| EXECUTION_FAILED.

#[export] Instance ApprovalStatus_eq_dec : EqDecision ApprovalStatus.
Proof. solve_decision. Defined.

Definition APPROVAL_STATUSES : list ApprovalStatus :=
  [PENDING; APPROVED; REJECTED; EXPIRED; CANCELLED; STALE; EXECUTING; EXECUTED;
   EXECUTION_FAILED].

(* @src packages/approvals/src/domain/approval-fsm.ts:22-29 TERMINAL_STATUSES *)
Definition TERMINAL_STATUSES : list ApprovalStatus :=
  [REJECTED; EXPIRED; CANCELLED; STALE; EXECUTED; EXECUTION_FAILED].

(* @src packages/approvals/src/domain/approval-fsm.ts:31-33 isTerminal *)
Definition isTerminal (s : ApprovalStatus) : bool := includes TERMINAL_STATUSES s.

Definition approval_status_name (s : ApprovalStatus) : string :=
  match s with
  | PENDING => "PENDING" | APPROVED => "APPROVED" | REJECTED => "REJECTED"
  | EXPIRED => "EXPIRED" | CANCELLED => "CANCELLED" | STALE => "STALE"
  | EXECUTING => "EXECUTING" | EXECUTED => "EXECUTED" | EXECUTION_FAILED => "EXECUTION_FAILED"
  end.

(* @src packages/approvals/src/domain/approval-fsm.ts:36-46 ApprovalTrigger *)
Inductive ApprovalTrigger :=
  create | approve | reject | expire | mark_stale | cancel_before_execution
| cancel_reconciled | execution_claim | execute_verified | execute_failed.

#[export] Instance ApprovalTrigger_eq_dec : EqDecision ApprovalTrigger.
Proof. solve_decision. Defined.

Definition trigger_name (t : ApprovalTrigger) : string :=
  match t with
  | create => "create" | approve => "approve" | reject => "reject" | expire => "expire"
  | mark_stale => "mark-stale" | cancel_before_execution => "cancel-before-execution"
  | cancel_reconciled => "cancel-reconciled" | execution_claim => "execution-claim"
  | execute_verified => "execute-verified" | execute_failed => "execute-failed"
  end.

Record Edge := { edge_from : ApprovalStatus; edge_to : ApprovalStatus; guard : string }.

Definition edge (f t : ApprovalStatus) (g : string) : Edge :=
  {| edge_from := f; edge_to := t; guard := g |}.

(* @src packages/approvals/src/domain/approval-fsm.ts:48-108 LEGAL_EDGES *)
Definition LEGAL_EDGES (t : ApprovalTrigger) : list Edge :=
  match t with
  | create =>
      [edge PENDING PENDING
         "persisted REQUIRE_APPROVAL decision + complete fingerprints + future expiry"]
  | approve =>
      [edge PENDING APPROVED
         "authorized actor + expected version/fingerprints + valid workflow/target/policy + not expired"]
  | reject => [edge PENDING REJECTED "authorized actor on current unresolved version"]
  | expire =>
      [edge PENDING EXPIRED "database now >= expiresAt";
       edge APPROVED EXPIRED "expiry reached before execution claim"]
  | mark_stale =>
      [edge PENDING STALE "current context differs from binding";
       edge APPROVED STALE "target/policy/risk/validation/default-branch binding changed"]
  | cancel_before_execution =>
      [edge PENDING CANCELLED "durable run cancellation generation is current";
       edge APPROVED CANCELLED "no external effect has begun"]
  | cancel_reconciled =>
      [edge EXECUTING CANCELLED "provider proves execution never began AND lease fenced"]
  | execution_claim =>
      [edge APPROVED EXECUTING "steps 1-6 passed + unique lease/attempt claimed"]
  | execute_verified => [edge EXECUTING EXECUTED "provider proves exact intended effect"]
  | execute_failed =>
      [edge EXECUTING EXECUTION_FAILED
         "provider proves failure/absence OR uncertainty exhausted to human intervention"]
  end.

(** [Partial<TransitionGuardContext>]: an absent member is [None]. *)
(* @src packages/approvals/src/domain/approval-fsm.ts:110-128 TransitionGuardContext *)
Record TransitionGuardContext := {
  nowMs : option Z;
  expiresAtMs : option Z;
  contextMatchesBinding : option bool;
  cancellationCurrent : option bool;
  stepsOneThroughSixPassed : option bool;
  externalEffectBegan : option bool;
  providerProvesNotStarted : option bool;
  leaseFenced : option bool;
  providerOutcomeVerified : option bool;
  resolutionAuthorized : option bool;
  expectedVersionMatches : option bool;
  fingerprintsMatch : option bool;
  providerProvesFailure : option bool;
  uncertaintyExhausted : option bool;
}.

(** The context of a call that passes none. *)
Definition no_context : TransitionGuardContext :=
  {| nowMs := None; expiresAtMs := None; contextMatchesBinding := None;
     cancellationCurrent := None; stepsOneThroughSixPassed := None; externalEffectBegan := None;
     providerProvesNotStarted := None; leaseFenced := None; providerOutcomeVerified := None;
     resolutionAuthorized := None; expectedVersionMatches := None; fingerprintsMatch := None;
     providerProvesFailure := None; uncertaintyExhausted := None |}.

(** A refusal always carries the code [APPROVAL_ILLEGAL_TRANSITION]. *)
(* @src packages/approvals/src/domain/approval-fsm.ts:130-136 TransitionVerdict *)
Inductive TransitionVerdict :=
  | Allowed (from to : ApprovalStatus)
  | Refused (detail : string).

Definition MAX_SAFE_INTEGER : Z := 9007199254740991.

Definition is_true (b : option bool) : bool := bool_decide (b = Some true).
Definition is_false (b : option bool) : bool := bool_decide (b = Some false).

(** The trigger's own guard: [None] when it passes. *)
(* @src packages/approvals/src/domain/approval-fsm.ts:164-254 resolveEdge *)
Definition refused_guard (from : ApprovalStatus) (t : ApprovalTrigger)
    (c : TransitionGuardContext) : option string :=
  let now := default 0 (nowMs c) in
  let expires := default MAX_SAFE_INTEGER (expiresAtMs c) in
  match t with
  | approve | reject =>
      if expires <=? now then Some "approval already past expiry; expire instead" else None
  | expire =>
      if now <? expires then Some "not yet past expiry (database clock)" else None
  | mark_stale =>
      if negb (is_false (contextMatchesBinding c)) then
        Some "context still matches binding; nothing to invalidate" else None
  | cancel_before_execution =>
      if negb (is_true (cancellationCurrent c)) then
        Some "cancellation generation superseded"
      else if bool_decide (from = APPROVED) && negb (is_false (externalEffectBegan c)) then
        Some "external effect may have begun; reconciliation decides the outcome, not cancel"
      else None
  | cancel_reconciled =>
      if negb (is_true (providerProvesNotStarted c) && is_true (leaseFenced c)) then
        Some "reconciled cancellation requires proof-not-started AND a fenced lease" else None
  | execution_claim =>
      if expires <=? now then Some "expired before claim"
      else if negb (is_true (stepsOneThroughSixPassed c)) then
        Some "execution claim requires steps 1-6 proven"
      else None
  | execute_verified =>
      if negb (is_true (providerOutcomeVerified c)) then
        Some "EXECUTED requires provider-verified outcome evidence" else None
  | execute_failed | create => None
  end.

(* @src packages/approvals/src/domain/approval-fsm.ts:142-257 resolveEdge *)
Definition resolveEdge (from : ApprovalStatus) (t : ApprovalTrigger)
    (c : TransitionGuardContext) : TransitionVerdict :=
  if isTerminal from then
    Refused ("'" +s approval_status_name from +s
             "' is terminal; approvals never transition out of terminal states")
  else
    match List.find (λ e, bool_decide (edge_from e = from)) (LEGAL_EDGES t) with
    | None =>
        Refused ("trigger '" +s trigger_name t +s "' cannot fire from '" +s
                 approval_status_name from +s "'")
    | Some candidate =>
        match refused_guard from t c with
        | Some detail => Refused detail
        | None => Allowed (edge_from candidate) (edge_to candidate)
        end
    end.

Definition TRIGGERS : list ApprovalTrigger :=
  [create; approve; reject; expire; mark_stale; cancel_before_execution; cancel_reconciled;
   execution_claim; execute_verified; execute_failed].

(* @src packages/approvals/src/domain/approval-fsm.ts:260-267 allPairs *)
Definition allPairs : list (ApprovalStatus * ApprovalTrigger) :=
  from ← APPROVAL_STATUSES; t ← TRIGGERS; [(from, t)].

(** ** The contract

    What the table of the plan promises of each trigger, in terms of the facts alone. *)

(** The edges, without their guards. *)
Inductive legal : ApprovalTrigger → ApprovalStatus → ApprovalStatus → Prop :=
  | legal_create : legal create PENDING PENDING
  | legal_approve : legal approve PENDING APPROVED
  | legal_reject : legal reject PENDING REJECTED
  | legal_expire from : from = PENDING ∨ from = APPROVED → legal expire from EXPIRED
  | legal_stale from : from = PENDING ∨ from = APPROVED → legal mark_stale from STALE
  | legal_cancel from :
      from = PENDING ∨ from = APPROVED → legal cancel_before_execution from CANCELLED
  | legal_reconciled : legal cancel_reconciled EXECUTING CANCELLED
  | legal_claim : legal execution_claim APPROVED EXECUTING
  | legal_verified : legal execute_verified EXECUTING EXECUTED
  | legal_failed : legal execute_failed EXECUTING EXECUTION_FAILED.

(** Before the expiry, as far as the facts say when both are: without a time it is 0, without an
    expiry there is none ([missing_clock_is_live] below). *)
Definition live (c : TransitionGuardContext) : Prop :=
  default 0 (nowMs c) < default MAX_SAFE_INTEGER (expiresAtMs c).

(** The facts a trigger needs. *)
Definition guarded (from : ApprovalStatus) (t : ApprovalTrigger) (c : TransitionGuardContext)
  : Prop :=
  match t with
  | approve | reject => live c
  | expire => ¬ live c
  | mark_stale => contextMatchesBinding c = Some false
  | cancel_before_execution =>
      cancellationCurrent c = Some true ∧ (from = APPROVED → externalEffectBegan c = Some false)
  | cancel_reconciled => providerProvesNotStarted c = Some true ∧ leaseFenced c = Some true
  | execution_claim => live c ∧ stepsOneThroughSixPassed c = Some true
  | execute_verified => providerOutcomeVerified c = Some true
  | execute_failed | create => True
  end.

Lemma refused_guard_spec from t c : refused_guard from t c = None ↔ guarded from t c.
Proof.
  unfold refused_guard, guarded, live, is_true, is_false.
  destruct t; repeat case_match; breflect;
    repeat match goal with
    | H : context [bool_decide ?P] |- _ => destruct (bool_decide_reflect P)
    end; simpl in *; (intuition (congruence || lia || auto)).
Qed.

(** The predicate allows a transition exactly when the table has the edge and the trigger's
    guard facts hold: approvals and rejections before the expiry, expiry only at or after it, a
    claim before the expiry with all six steps proven, success only with a verified outcome,
    cancellation after the claim only with proof that nothing started and a fenced lease; and
    the target is the table's. *)
Theorem resolveEdge_exact from t c to :
  resolveEdge from t c = Allowed from to ↔ legal t from to ∧ guarded from t c.
Proof.
  rewrite <- refused_guard_spec. unfold resolveEdge.
  destruct (refused_guard from t c) eqn:Hg;
    destruct t, from; simpl; split; try done; try (intros [Hl ?]; inversion Hl; naive_solver);
    intros [= <-]; split; (done || constructor; auto).
Qed.

(** Facts without a time, or without an expiry, are never past it: an approval goes through and
    an expiry does not. *)
Lemma missing_clock_is_live c :
  (nowMs c = None ∧ 0 < default MAX_SAFE_INTEGER (expiresAtMs c)) ∨
  (expiresAtMs c = None ∧ default 0 (nowMs c) < MAX_SAFE_INTEGER) →
  resolveEdge PENDING approve c = Allowed PENDING APPROVED ∧
  ∀ to, resolveEdge PENDING expire c ≠ Allowed PENDING to.
Proof.
  intros Hc. assert (Hl : live c) by (unfold live; destruct Hc as [[-> ?]|[-> ?]]; done).
  split; [apply resolveEdge_exact; by split; [constructor|]|].
  intros to [_ Hn]%resolveEdge_exact. by apply Hn.
Qed.

(** ** Histories *)

Definition Step : Type := ApprovalTrigger * TransitionGuardContext.

(** Apply triggers in order; a refusal ends the run with no status. *)
Fixpoint run (s : ApprovalStatus) (h : list Step) : option ApprovalStatus :=
  match h with
  | [] => Some s
  | (t, c) :: h => match resolveEdge s t c with Allowed _ to => run to h | Refused _ => None end
  end.

(** One transition, whatever its trigger. *)
Inductive fsm_step (s s' : ApprovalStatus) : Prop :=
  fsm_step_intro t c : resolveEdge s t c = Allowed s s' → fsm_step s s'.

(** How far an approval is from its end. *)
Definition remaining (s : ApprovalStatus) : nat :=
  match s with PENDING => 3 | APPROVED => 2 | EXECUTING => 1 | _ => 0 end.

Lemma resolveEdge_allowed s t c f s' :
  resolveEdge s t c = Allowed f s' → f = s ∧ legal t s s' ∧ guarded s t c.
Proof.
  intros H. assert (f = s) as ->.
  { unfold resolveEdge in H. case_match; [done|].
    destruct (List.find _ _) as [e|] eqn:E; [|done]. apply find_some_elem in E as [_ E]. breflect.
    case_match; congruence. }
  split; [done|]. by apply resolveEdge_exact.
Qed.

Lemma legal_progress t s s' : legal t s s' → t = create ∨ (remaining s' < remaining s)%nat.
Proof.
  intros Hl. destruct Hl as [| | |? [-> | ->]|? [-> | ->]|? [-> | ->]| | | |];
    first [by left | right; simpl; lia].
Qed.

Lemma terminal_step s t c : isTerminal s = true → ∃ d, resolveEdge s t c = Refused d.
Proof. unfold resolveEdge. intros ->. eauto. Qed.

Definition not_create (x : Step) : bool := negb (bool_decide (x.1 = create)).

Lemma run_cons s t c h s' :
  run s ((t, c) :: h) = Some s' →
  ∃ m, legal t s m ∧ guarded s t c ∧ run m h = Some s'.
Proof.
  simpl. destruct (resolveEdge s t c) as [f m|] eqn:E; [|done].
  apply resolveEdge_allowed in E as (-> & ? & ?). eauto.
Qed.

Lemma run_length s h s' :
  run s h = Some s' → (length (List.filter not_create h) + remaining s' ≤ remaining s)%nat.
Proof.
  revert s. induction h as [|[t c] h IH]; intros s; [by intros [= ->]|].
  intros (m & Hl & _ & Hr)%run_cons. specialize (IH m Hr). simpl. unfold not_create at 1.
  apply legal_progress in Hl as Hp. simpl.
  case_bool_decide; simpl; [|destruct Hp; [done|lia]].
  subst. inversion Hl; subst; simpl in *; lia.
Qed.

Lemma run_terminal s h s' : isTerminal s = true → run s h = Some s' → h = [] ∧ s' = s.
Proof.
  destruct h as [|[t c] h]; [by intros _ [= ->]|]. simpl. intros Ht.
  by destruct (terminal_step s t c Ht) as [d ->].
Qed.

Lemma run_executing h :
  run EXECUTING h = Some EXECUTED →
  ∃ c, List.filter not_create h = [(execute_verified, c)] ∧ providerOutcomeVerified c = Some true.
Proof.
  destruct h as [|[t c] h]; [done|]. intros (m & Hl & Hg & Hr)%run_cons.
  pose proof (run_length _ _ _ Hr) as Hlen.
  inversion Hl; subst; simpl in *; try (by apply run_terminal in Hr as [-> ?]).
  exists c. split; [|done]. f_equal. by destruct (List.filter not_create h); simpl in *; [|lia].
Qed.

(* @prop invariant 8 : resolveEdge LEGAL_EDGES isTerminal TERMINAL_STATUSES / executed_history_witness *)
(** C36. Life of an approval: from PENDING, every sequence of transitions that ends EXECUTED is,
    creation aside, an approval before the expiry, then a claim before the expiry with steps
    one to six proven, then a verified outcome; no sequence makes more than three moves, and
    nothing leaves a terminal status.  "Before the expiry" is what the code takes it to be: the
    time is before the expiry of the facts given, where a missing time counts as 0 and a missing
    expiry as the largest safe integer, so that facts with neither refuse neither an approval nor
    a claim for its time ([missing_clock_is_live]). *)
Theorem executed_history h s (Hrun : run PENDING h = Some s) :
  (length (List.filter not_create h) ≤ 3)%nat ∧
  (isTerminal s = true → ∀ t c, run s [(t, c)] = None) ∧
  (s = EXECUTED → ∃ c1 c2 c3,
     List.filter not_create h = [(approve, c1); (execution_claim, c2); (execute_verified, c3)] ∧
     live c1 ∧ live c2 ∧ stepsOneThroughSixPassed c2 = Some true ∧
     providerOutcomeVerified c3 = Some true).
Proof.
  pose proof (run_length _ _ _ Hrun) as Hlen. split_and!; [simpl in Hlen; lia| |].
  { intros Ht t c. simpl. by destruct (terminal_step s t c Ht) as [d ->]. }
  intros ->. clear Hlen. induction h as [|[t c] h IH]; [done|].
  apply run_cons in Hrun as (m & Hl & Hg & Hr).
  inversion Hl; subst; simpl; try (by apply run_terminal in Hr as [-> ?]).
  { by apply IH. }
  clear IH. induction h as [|[t' c'] h IH]; [done|].
  apply run_cons in Hr as (m & Hl' & Hg' & Hr).
  inversion Hl'; subst; simpl; try (by apply run_terminal in Hr as [-> ?]).
  apply run_executing in Hr as (c3 & Hf & Hv). destruct Hg' as [Hlive Hsteps].
  exists c, c', c3. by rewrite Hf.
Qed.

Definition claim_context : TransitionGuardContext :=
  {| nowMs := Some 1; expiresAtMs := Some 2; contextMatchesBinding := None;
     cancellationCurrent := None; stepsOneThroughSixPassed := Some true;
     externalEffectBegan := None; providerProvesNotStarted := None; leaseFenced := None;
     providerOutcomeVerified := Some true; resolutionAuthorized := None;
     expectedVersionMatches := None; fingerprintsMatch := None; providerProvesFailure := None;
     uncertaintyExhausted := None |}.

Lemma executed_history_witness :
  ∃ c1 c2 c3, [(approve, claim_context); (execution_claim, claim_context);
               (execute_verified, claim_context)] =
    [(approve, c1); (execution_claim, c2); (execute_verified, c3)] ∧
    live c1 ∧ live c2 ∧ stepsOneThroughSixPassed c2 = Some true ∧
    providerOutcomeVerified c3 = Some true.
Proof.
  apply (executed_history [(create, no_context); (approve, claim_context);
    (execution_claim, claim_context); (execute_verified, claim_context)] EXECUTED); by vm_compute.
Defined.
