(* ===== verification/ApprovalStore.v ===== *)
(** * The approval store

    [ApprovalStore] of [packages/db/src/repositories/policy-approval.ts] and the expiry of
    [packages/db/src/repositories/approval-resume.ts]: the rows of the [approvals] and
    [approval_transitions] tables with the effect of each SQL statement on them, and the
    resolution the API performs over them in one unit of work
    ([apps/api/src/composition/container.ts]).  [now] is the database clock; a throw aborts the
    surrounding transaction. *)

From S2P Require Import Prelude JsString Effects Json ApprovalFsm.
From S2P Require Outbox.

(* @src packages/db/src/repositories/policy-approval.ts:30-31 ApprovalDbStatus *)
Inductive DbStatus :=
  db_pending | db_approved | db_rejected | db_expired | db_stale | db_executing | db_executed
| db_failed.

#[export] Instance DbStatus_eq_dec : EqDecision DbStatus.
Proof. solve_decision. Defined.

Definition db_name (s : DbStatus) : string :=
  match s with
  | db_pending => "pending" | db_approved => "approved" | db_rejected => "rejected"
  | db_expired => "expired" | db_stale => "stale" | db_executing => "executing"
  | db_executed => "executed" | db_failed => "failed"
  end.

Inductive ActorType := actor_user | actor_system.

#[export] Instance ActorType_eq_dec : EqDecision ActorType.
Proof. solve_decision. Defined.

(* @src packages/db/src/repositories/policy-approval.ts:20-28 ApprovalStatusTransition *)
Record ApprovalStatusTransition := {
  tr_from : DbStatus;
  tr_to : DbStatus;
  actorType : ActorType;
  actorId : string;
  reasonCode : string;
  commandKey : string;
  resolutionComment : option string;
}.

(** A row of [approvals]; the columns no operation reads or writes after the insert are in
    [binding]. *)
Record Binding := {
  repositoryId : string;
  workflowRunId : option string;
  actionType : string;
  riskClass : string;
  row_reasonCode : string;
  reasonSummary : string;
  operationHash : string;
  fingerprintHash : string;
  expiresAt : Z;
}.

(* @src packages/db/src/repositories/policy-approval.ts:33-54 mapApproval *)
Record ApprovalRow := {
  binding : Binding;
  status : DbStatus;
  resolvedBy : option string;
  comment : option string;
  resolvedAt : option Z;
  executionStatus : option DbStatus;
  executedAt : option Z;
  updatedAt : Z;
  rowVersion : Z;
}.

(** A row of [approval_transitions]; [(approvalId, commandKey)] is unique. *)
Record TransitionRow := {
  ev_approvalId : string;
  ev_from : DbStatus;
  ev_to : DbStatus;
  ev_actorType : ActorType;
  ev_actorId : string;
  ev_reasonCode : string;
  ev_commandKey : string;
}.

Record Store := {
  approvals : gmap string ApprovalRow;
  evidence : list TransitionRow;
  outbox : gmap string Outbox.OutboxRow;
}.

Definition set_row (id : string) (r : ApprovalRow) (s : Store) : Store :=
  {| approvals := <[id := r]> (approvals s); evidence := evidence s; outbox := outbox s |}.

Definition set_evidence (l : list TransitionRow) (s : Store) : Store :=
  {| approvals := approvals s; evidence := l; outbox := outbox s |}.

(** SQLSTATEs of the constraints the statements can violate. *)
Definition unique_violation : js_error := PlainError "23505".
Definition foreign_key_violation : js_error := PlainError "23503".

(* @src packages/db/src/repositories/policy-approval.ts:187-224 ApprovalStore.insert *)
Definition insert_approval (now : Z) (id : string) (b : Binding) (s : Store)
  : outcome ApprovalRow * Store :=
  match approvals s !! id with
  | Some _ => (Threw unique_violation, s)
  | None =>
      let row := {| binding := b; status := db_pending; resolvedBy := None; comment := None;
                    resolvedAt := None; executionStatus := None; executedAt := None;
                    updatedAt := now; rowVersion := 1 |} in
      (Returned row, set_row id row s)
  end.

(* @src packages/db/src/repositories/policy-approval.ts:243-252 ApprovalStore.transition *)
Definition legalMap (from : DbStatus) : option (list DbStatus) :=
  match from with
  | db_pending => Some [db_approved; db_rejected; db_expired; db_stale]
  | db_approved => Some [db_stale; db_executing]
  | db_executing => Some [db_executed; db_failed]
  | _ => None
  end.

(** [INSERT ... ON CONFLICT (approval_id, command_key) DO NOTHING]. *)
(* @src packages/db/src/repositories/policy-approval.ts:254-268 ApprovalStore.transition *)
Definition insert_evidence (e : TransitionRow) (l : list TransitionRow) : list TransitionRow :=
  if existsb (λ x, (ev_approvalId x =s? ev_approvalId e) && (ev_commandKey x =s? ev_commandKey e)) l
  then l else l ++ [e].

Definition evidence_of (id : string) (t : ApprovalStatusTransition) : TransitionRow :=
  {| ev_approvalId := id; ev_from := tr_from t; ev_to := tr_to t; ev_actorType := actorType t;
     ev_actorId := actorId t; ev_reasonCode := reasonCode t; ev_commandKey := commandKey t |}.

(** The row the UPDATE writes. *)
(* @src packages/db/src/repositories/policy-approval.ts:270-291 ApprovalStore.transition *)
Definition updated_row (now : Z) (t : ApprovalStatusTransition) (row : ApprovalRow)
  : ApprovalRow :=
  let to := tr_to t in
  {| binding := binding row;
     status := to;
     resolvedBy :=
       if includes [db_approved; db_rejected] to then
         (if decide (actorType t = actor_user) then Some (actorId t) else None)
       else resolvedBy row;
     comment := match resolutionComment t with Some c => Some c | None => comment row end;
     resolvedAt :=
       if includes [db_approved; db_rejected; db_expired; db_stale] to then Some now
       else resolvedAt row;
     executionStatus :=
       if includes [db_executing; db_executed; db_failed] to then Some to else executionStatus row;
     executedAt := if decide (to = db_executed) then Some now else executedAt row;
     updatedAt := now;
     rowVersion := rowVersion row + 1 |}.

Definition version_conflict (expected : Z) : js_error :=
  PlainError ("VERSION_CONFLICT:expected=" +s num_to_string expected).

Definition illegal_transition (from to : DbStatus) : js_error :=
  PlainError ("ILLEGAL_TRANSITION:" +s db_name from +s "->" +s db_name to).

(* @src packages/db/src/repositories/policy-approval.ts:237-307 ApprovalStore.transition *)
Definition transition (now : Z) (id : string) (expectedVersion : Z) (t : ApprovalStatusTransition)
    (s : Store) : outcome ApprovalRow * Store :=
  match legalMap (tr_from t) with
  | Some allowed =>
      if includes allowed (tr_to t) then
        match approvals s !! id with
        | None => (Threw foreign_key_violation, s)
        | Some row =>
            let s := set_evidence (insert_evidence (evidence_of id t) (evidence s)) s in
            if (rowVersion row =? expectedVersion) && bool_decide (status row = tr_from t) then
              let row := updated_row now t row in
              (Returned row, set_row id row s)
            else if decide (status row = tr_to t) then (Returned row, s)
            else (Threw (version_conflict expectedVersion), s)
        end
      else (Threw (illegal_transition (tr_from t) (tr_to t)), s)
  | None => (Threw (illegal_transition (tr_from t) (tr_to t)), s)
  end.

(** The unit of work around [transition]: a throw rolls back. *)
Definition atomically {A} (f : Store → outcome A * Store) (s : Store) : outcome A * Store :=
  match f s with
  | (Returned a, s') => (Returned a, s')
  | (Threw e, _) => (Threw e, s)
  end.

(* @src packages/db/src/repositories/approval-resume.ts:131-148 PostgresApprovalResumeStore.markExpired *)
Definition markExpired (now : Z) (id : string) (s : Store) : Store :=
  match approvals s !! id with
  | Some row =>
      if bool_decide (status row = db_approved) && (expiresAt (binding row) <=? now) then
        let row' :=
          {| binding := binding row; status := db_expired; resolvedBy := resolvedBy row;
             comment := comment row;
             resolvedAt := Some (match resolvedAt row with Some t => t | None => now end);
             executionStatus := executionStatus row; executedAt := executedAt row;
             updatedAt := now; rowVersion := rowVersion row + 1 |} in
        set_evidence
          (insert_evidence
             {| ev_approvalId := id; ev_from := db_approved; ev_to := db_expired;
                ev_actorType := actor_system; ev_actorId := "scheduler";
                ev_reasonCode := "approval_expired";
                ev_commandKey := "expire:" +s id +s ":" +s num_to_string (rowVersion row') |}
             (evidence s))
          (set_row id row' s)
      else s
  | None => s
  end.

(* @src packages/approvals/src/application/create-approval.ts:22-25 toDbStatus *)
Definition toDbStatus (s : ApprovalStatus) : string := toLowerCase (approval_status_name s).

(** ** Resolution by a user *)

Inductive ResolveResult :=
  | Resolved
  | NotResolved (code detail : string).

Record ResolveOptions := { idempotencyKey : string; expectedVersion : Z }.

Definition command_key (id : string) (resolution : DbStatus) (options : option ResolveOptions)
  : string :=
  match options with
  | Some o => idempotencyKey o
  | None => "web:" +s id +s ":" +s db_name resolution
  end.

Definition resume_event (id run : string) (expected : Z) (key : string)
  : Outbox.OutboxEventLike :=
  {| Outbox.eventType := "approval.resume_requested"; Outbox.schemaVersion := 1;
     Outbox.payload :=
       JObj [("approvalId", JStr id); ("workflowRunId", JStr run); ("action", JStr "resume");
             ("resolutionVersion", JNum (expected + 1))];
     Outbox.correlation :=
       JObj [("approvalId", JStr id); ("workflowRunId", JStr run); ("idempotencyKey", JStr key)];
     Outbox.aggregateType := Some "approval"; Outbox.aggregateId := Some id;
     Outbox.aggregateVersion := None |}.

Definition user_transition (resolution : DbStatus) (userId key : string)
  : ApprovalStatusTransition :=
  {| tr_from := db_pending; tr_to := resolution; actorType := actor_user; actorId := userId;
     reasonCode := if decide (resolution = db_approved) then "user_approved" else "user_rejected";
     commandKey := key; resolutionComment := None |}.

(** The body of the unit of work.  The [catch] is inside it, so every path commits: the store
    is the one reached when the error was raised.  [resolution] is [db_approved] or
    [db_rejected]; [eventId] is the UUID of the outbox row. *)
(* @src apps/api/src/composition/container.ts:204-275 DurableApprovals.resolve *)
Definition resolve (now : Z) (eventId runId id : string) (resolution : DbStatus)
    (userId : string) (options : option ResolveOptions) (s : Store) : ResolveResult * Store :=
  match approvals s !! id with
  | None => (NotResolved "APPROVAL_UNKNOWN" "Approval was not found.", s)
  | Some row =>
      let run := default "" (workflowRunId (binding row)) in
      if nonempty runId && negb (run =s? runId) then
        (NotResolved "APPROVAL_UNKNOWN" "Approval was not found.", s)
      else if negb (bool_decide (status row = db_pending)) then
        (NotResolved "APPROVAL_ALREADY_RESOLVED" "This approval is no longer pending.", s)
      else
        let failed :=
          NotResolved "APPROVAL_VERSION_CONFLICT" "The approval changed. Refresh and retry." in
        let expected := match options with Some o => expectedVersion o | None => rowVersion row end in
        let key := command_key id resolution options in
        match transition now id expected (user_transition resolution userId key) s with
        | (Threw _, s) => (failed, s)
        | (Returned _, s) =>
            if decide (resolution = db_approved) then
              match Outbox.append now eventId (resume_event id run expected key) (outbox s) with
              | (Threw _, _) => (failed, s)
              | (Returned _, o) =>
                  (Resolved, {| approvals := approvals s; evidence := evidence s; outbox := o |})
              end
            else (Resolved, s)
        end
  end.

(** ** The store as a transition system *)

Inductive StoreStep : Store → Store → Prop :=
  | step_insert now id b s r s' :
      insert_approval now id b s = (r, s') → StoreStep s s'
  | step_transition now id v t s r s' :
      atomically (transition now id v t) s = (r, s') → StoreStep s s'
  | step_expire now id s : StoreStep s (markExpired now id s)
  | step_resolve now eid run id res user options s r s' :
      resolve now eid run id res user options s = (r, s') → StoreStep s s'.

(** The FSM status a stored status stands for. *)
Definition fsm_status (s : DbStatus) : ApprovalStatus :=
  match s with
  | db_pending => PENDING | db_approved => APPROVED | db_rejected => REJECTED
  | db_expired => EXPIRED | db_stale => STALE | db_executing => EXECUTING
  | db_executed => EXECUTED | db_failed => EXECUTION_FAILED
  end.

(** How one row may evolve in one step: not at all, or along an edge of the FSM with the next
    version, the binding untouched and the resolver fixed once the approval is resolved. *)
Definition row_step (r r' : ApprovalRow) : Prop :=
  r' = r ∨
  (∃ t, legal t (fsm_status (status r)) (fsm_status (status r'))) ∧
  rowVersion r' = rowVersion r + 1 ∧ binding r' = binding r ∧
  (status r ≠ db_pending → resolvedBy r' = resolvedBy r).

(** ** Properties *)

Lemma legalMap_legal from to l :
  legalMap from = Some l → to ∈ l → ∃ t, legal t (fsm_status from) (fsm_status to).
Proof.
  destruct from; intros [= <-] Hto; repeat (apply elem_of_cons in Hto as [->|Hto]);
    try (by apply elem_of_nil in Hto);
    first [exists approve; constructor; fail | exists reject; constructor; fail
          | exists expire; constructor; by left | exists mark_stale; constructor; auto; fail
          | exists execution_claim; constructor; fail | exists execute_verified; constructor; fail
          | exists execute_failed; constructor].
Qed.

(** What a transition does to the rows: nothing, or the CAS on the named row. *)
Lemma transition_rows now id v t s r s' :
  transition now id v t s = (r, s') →
  approvals s' = approvals s ∨
  ∃ row l, approvals s !! id = Some row ∧ rowVersion row = v ∧ status row = tr_from t ∧
    legalMap (tr_from t) = Some l ∧ tr_to t ∈ l ∧
    r = Returned (updated_row now t row) ∧
    approvals s' = <[id := updated_row now t row]> (approvals s).
Proof.
  unfold transition. intros H.
  destruct (legalMap (tr_from t)) as [l|] eqn:Hl; [|simplify_eq; by left].
  destruct (includes l (tr_to t)) eqn:Hi; [|simplify_eq; by left].
  destruct (approvals s !! id) as [row|] eqn:Hrow; [|simplify_eq; by left].
  destruct (_ && _) eqn:Hcas; [|case_decide; simplify_eq; by left].
  js_reflect. simplify_eq. right. exists row, l. done.
Qed.

Lemma updated_row_step now t row l :
  status row = tr_from t → legalMap (tr_from t) = Some l → tr_to t ∈ l →
  row_step row (updated_row now t row).
Proof.
  intros Hs Hl Hto. right. split_and!; [|done..|].
  - rewrite Hs. by eapply legalMap_legal.
  - rewrite Hs. intros Hp. simpl. destruct (includes _ (tr_to t)) eqn:Hi; [|done].
    js_reflect. destruct (tr_from t); try done; simplify_eq/=;
      in_cases Hto; rewrite Hto in Hi; in_cases Hi; done.
Qed.

(** Rows only evolve by [row_step], and none disappears. *)
Definition rows_step (m m' : gmap string ApprovalRow) : Prop :=
  ∀ id r, m !! id = Some r → ∃ r', m' !! id = Some r' ∧ row_step r r'.

Lemma rows_step_refl m : rows_step m m.
Proof. intros id r Hr. exists r. split; [done|by left]. Qed.

Lemma rows_step_insert m id r r' :
  m !! id = Some r → row_step r r' → rows_step m (<[id := r']> m).
Proof.
  intros Hr Hs i x Hx. destruct (decide (id = i)) as [->|Hne].
  - rewrite lookup_insert_eq. simplify_eq. eauto.
  - rewrite lookup_insert_ne by done. exists x. split; [done|by left].
Qed.

Lemma transition_rows_step now id v t s r s' :
  transition now id v t s = (r, s') → rows_step (approvals s) (approvals s').
Proof.
  intros [->|(row & l & Hr & _ & Hs & Hl & Hto & _ & ->)]%transition_rows;
    [apply rows_step_refl|].
  eapply rows_step_insert; [done|]. by eapply updated_row_step.
Qed.

Lemma atomically_rows {A} (f : Store → outcome A * Store) s r s' :
  (∀ r s', f s = (r, s') → rows_step (approvals s) (approvals s')) →
  atomically f s = (r, s') → rows_step (approvals s) (approvals s').
Proof.
  unfold atomically. intros Hf. destruct (f s) as [[a|e] s1] eqn:E; intros [= <- <-].
  - by eapply Hf.
  - apply rows_step_refl.
Qed.

Lemma resolve_transition now eid run id res user options s r s' :
  resolve now eid run id res user options s = (r, s') →
  approvals s' = approvals s ∨
  ∃ v key r1 s1, transition now id v (user_transition res user key) s = (r1, s1) ∧
    approvals s' = approvals s1.
Proof.
  unfold resolve. destruct (approvals s !! id) as [row|]; [|intros [= <- <-]; by left].
  destruct (_ && _); [intros [= <- <-]; by left|].
  destruct (negb _); [intros [= <- <-]; by left|].
  match goal with |- context [transition ?n ?i ?v (user_transition ?a ?b ?k) s] =>
    destruct (transition n i v (user_transition a b k) s) as [r1 s1] eqn:E;
    intros H; right; exists v, k, r1, s1; split; [done|] end.
  destruct r1; [|by simplify_eq]. case_decide; [|by simplify_eq].
  destruct (Outbox.append _ _ _ _) as [[]]; by simplify_eq.
Qed.

Lemma markExpired_rows now id s : rows_step (approvals s) (approvals (markExpired now id s)).
Proof.
  unfold markExpired. destruct (approvals s !! id) as [row|] eqn:Hr; [|apply rows_step_refl].
  destruct (bool_decide _ && _) eqn:E; [|apply rows_step_refl]. breflect. simpl.
  eapply rows_step_insert; [done|]. right. split_and!; try done.
  exists expire. rewrite H. constructor. by right.
Qed.

Lemma store_step_rows s s' : StoreStep s s' → rows_step (approvals s) (approvals s').
Proof.
  destruct 1 as [now id b s r s' H|now id v t s r s' H|now id s|now eid run id res u o s r s' H].
  - unfold insert_approval in H. destruct (approvals s !! id) eqn:E; simplify_eq/=;
      [apply rows_step_refl|]. intros i x Hx. exists x. split; [|by left].
    rewrite lookup_insert_ne; [done|]. intros ->. congruence.
  - eapply atomically_rows; [|exact H]. intros. by eapply transition_rows_step.
  - apply markExpired_rows.
  - apply resolve_transition in H as [->|(v & k & r1 & s1 & Ht & ->)]; [apply rows_step_refl|].
    by eapply transition_rows_step.
Qed.

Lemma terminal_no_edge t a b : isTerminal a = true → legal t a b → False.
Proof. intros Ht Hl. destruct Hl; intuition (subst; done). Qed.

Lemma row_step_facts r r' :
  row_step r r' →
  rtc (λ a b, ∃ t, legal t a b) (fsm_status (status r)) (fsm_status (status r')) ∧
  rowVersion r ≤ rowVersion r' ∧ (rowVersion r' = rowVersion r → r' = r) ∧
  binding r' = binding r ∧ (status r ≠ db_pending → resolvedBy r' = resolvedBy r) ∧
  (isTerminal (fsm_status (status r)) = true → r' = r).
Proof.
  intros [->|([t Ht] & Hv & Hb & Hres)]; [split_and!; done || lia|].
  split_and!; [apply rtc_once; eauto|lia|lia|done|done|].
  intros Hterm. by destruct (terminal_no_edge _ _ _ Hterm Ht).
Qed.

Lemma not_pending_step r r' : row_step r r' → status r ≠ db_pending → status r' ≠ db_pending.
Proof.
  intros [->|([t Ht] & _)] Hp; [done|]. intros Hp'. rewrite Hp' in Ht. simpl in Ht.
  inversion Ht; subst; by destruct (status r).
Qed.

(* @prop refinement 3 : transition legalMap updated_row markExpired resolve insert_approval / store_refines_fsm_witness *)
(** C17. The database store refines the approval state machine: over any sequence of inserts,
    transitions, expirations and user resolutions, an approval never disappears, its status
    only moves along edges of the machine, every move increases its version, its binding
    (operation, fingerprint, expiry) never changes, whoever resolved it stays recorded, and
    once its status is terminal its row never changes again. *)
Theorem store_refines_fsm s s' id r
  (Hsteps : rtc StoreStep s s') (Hr : approvals s !! id = Some r) :
  ∃ r', approvals s' !! id = Some r' ∧
    rtc (λ a b, ∃ t, legal t a b) (fsm_status (status r)) (fsm_status (status r')) ∧
    rowVersion r ≤ rowVersion r' ∧ (rowVersion r' = rowVersion r → r' = r) ∧
    binding r' = binding r ∧ (status r ≠ db_pending → resolvedBy r' = resolvedBy r) ∧
    (isTerminal (fsm_status (status r)) = true → r' = r).
Proof.
  revert r Hr. induction Hsteps as [s|s s1 s2 Hstep _ IH]; intros r Hr.
  { exists r. split_and!; try done; lia. }
  destruct (store_step_rows _ _ Hstep _ _ Hr) as (r1 & Hr1 & Hrs).
  destruct (row_step_facts _ _ Hrs) as (Hp & Hv & Heq & Hb & Hres & Hterm).
  destruct (IH _ Hr1) as (r2 & Hr2 & Hp' & Hv' & Heq' & Hb' & Hres' & Hterm').
  exists r2. split_and!; [done|by etrans|lia| |congruence| |].
  - intros Hv2. rewrite <- (Heq ltac:(lia)). apply Heq'. lia.
  - intros Hnp. rewrite Hres' by (by eapply not_pending_step). auto.
  - intros Ht. rewrite <- (Hterm Ht). apply Hterm'. by rewrite (Hterm Ht).
Qed.

Lemma steps_version s s' id r :
  rtc StoreStep s s' → approvals s !! id = Some r →
  ∃ r', approvals s' !! id = Some r' ∧ rowVersion r ≤ rowVersion r'.
Proof.
  intros Hsteps. revert r. induction Hsteps as [s|s s1 s2 Hstep _ IH]; intros r Hr.
  - exists r. split; [done|lia].
  - destruct (store_step_rows _ _ Hstep _ _ Hr) as (r1 & Hr1 & Hrs).
    apply row_step_facts in Hrs as (_ & Hv & _).
    destruct (IH _ Hr1) as (r2 & ? & ?). exists r2. split; [done|lia].
Qed.

(** A version is spent once: after one transition has moved an approval from the version it
    expected, no transition that expects that same version ever changes the table again,
    whatever happened in between, so of any number of concurrent resolvers, expirers and
    executors that read the same version at most one takes effect. *)
Theorem cas_exclusive now id v t s r s1 s2 now' t' r' s3
  (Hfirst : transition now id v t s = (r, s1)) (Hmoved : approvals s1 ≠ approvals s)
  (Hlater : rtc StoreStep s1 s2) (Hsecond : transition now' id v t' s2 = (r', s3)) :
  approvals s3 = approvals s2.
Proof.
  apply transition_rows in Hfirst as [?|(row & l & _ & Hv & _ & _ & _ & _ & H1)]; [done|].
  destruct (steps_version s1 s2 id (updated_row now t row)) as (r2 & Hr2 & Hle);
    [done|by rewrite H1, lookup_insert_eq|]. simpl in Hle.
  apply transition_rows in Hsecond as [?|(row' & l' & Hr' & Hv' & _)]; [done|].
  rewrite Hr2 in Hr'. simplify_eq. lia.
Qed.

Lemma insert_evidence_elem e l : e ∈ insert_evidence e l ∨ ∃ x, x ∈ l ∧
  ev_approvalId x = ev_approvalId e ∧ ev_commandKey x = ev_commandKey e.
Proof.
  unfold insert_evidence. destruct (existsb _ l) eqn:E.
  - right. js_reflect. destruct E as (x & Hx & Hk). breflect. eauto.
  - left. set_solver.
Qed.

(** What a user resolution of a pending approval does. With the current version it is applied
    and the resolver recorded, whether or not the approval's expiry has passed. With any other
    version it is refused as a conflict and the approval is unchanged, but the audit evidence
    of the transition that did not happen is committed all the same (unless its command key
    was already used), because the error is caught inside the unit of work. *)
Theorem resolution_outcomes now eid id resolution user key v s row
  (Hrow : approvals s !! id = Some row) (Hpending : status row = db_pending)
  (Hres : resolution = db_rejected ∨ resolution = db_approved)
  (Hevent : Outbox.event_valid
     (resume_event id (default "" (workflowRunId (binding row))) v key) = true)
  (Hfresh : outbox s !! eid = None) :
  let o := {| idempotencyKey := key; expectedVersion := v |} in
  let done := resolve now eid "" id resolution user (Some o) s in
  (v = rowVersion row →
     done.1 = Resolved ∧ ∃ row', approvals done.2 = <[id := row']> (approvals s) ∧
       status row' = resolution ∧ resolvedBy row' = Some user ∧ rowVersion row' = v + 1) ∧
  (v ≠ rowVersion row →
     done.1 = NotResolved "APPROVAL_VERSION_CONFLICT"
                "The approval changed. Refresh and retry." ∧
     approvals done.2 = approvals s ∧
     evidence done.2 = insert_evidence
       (evidence_of id (user_transition resolution user key)) (evidence s)).
Proof.
  assert (Hl : ∃ l, legalMap db_pending = Some l ∧ includes l resolution = true)
    by (eexists; split; [reflexivity|]; by destruct Hres as [-> | ->]).
  destruct Hl as (l & Hl & Hin). unfold resolve. rewrite Hrow, Hpending. simpl.
  unfold transition. cbn [user_transition tr_from tr_to]. rewrite Hl, Hin, Hrow, Hpending.
  rewrite bool_decide_eq_true_2 by done. simpl.
  destruct (Z.eqb_spec (rowVersion row) v) as [Hv|Hv]; simpl.
  - split; [intros _|congruence].
    assert (Hincl : includes [db_approved; db_rejected] resolution = true)
      by (by destruct Hres as [-> | ->]).
    case_decide as Ha.
    + unfold Outbox.append. rewrite Hevent. simpl. rewrite Hfresh. split; [done|].
      eexists. split_and!; [done|done| |simpl; lia]. simpl. by rewrite Hincl.
    + split; [done|]. eexists. split_and!; [done|done| |simpl; lia]. simpl. by rewrite Hincl.
  - split; [congruence|intros _].
    rewrite decide_False by (by destruct Hres as [-> | ->]). done.
Qed.

(** A lost race reported as success: when an approval already has the requested status, a
    transition with a stale version returns the current row as if it had succeeded, under any
    command key and for any actor -- not only for a retry of the original command -- leaves the
    recorded resolver as it was, and records evidence naming the actor who lost. *)
Theorem replay_masks_conflict now id v t s row
  (Hrow : approvals s !! id = Some row) (Hto : status row = tr_to t)
  (Hlegal : ∃ l, legalMap (tr_from t) = Some l ∧ tr_to t ∈ l)
  (Hnew : ∀ x, x ∈ evidence s → ev_commandKey x ≠ commandKey t) :
  transition now id v t s =
    (Returned row, set_evidence (evidence s ++ [evidence_of id t]) s).
Proof.
  destruct Hlegal as (l & Hl & Hin). unfold transition.
  rewrite Hl, (proj2 (includes_spec _ _) Hin), Hrow.
  assert (Hne : bool_decide (status row = tr_from t) = false).
  { apply bool_decide_eq_false. rewrite Hto. intros Heq. rewrite <- Heq in Hl.
    destruct (tr_to t); simplify_eq/=; in_cases Hin; done. }
  rewrite Hne, andb_false_r, decide_True by done. do 2 f_equal.
  unfold insert_evidence. replace (existsb _ _) with false; [done|]. symmetry.
  apply existsb_false. intros x Hx. apply andb_false_iff. right. apply String.eqb_neq.
  by apply Hnew.
Qed.

(** The status vocabularies differ: the lower-cased statuses of the state machine include
    'cancelled' and 'execution_failed', which no stored status is, so neither a cancellation
    nor a failed execution of the machine can be stored under the name the creation module
    documents as matching the table's CHECK constraint. *)
Theorem toDbStatus_outside_vocabulary s :
  (∃ d, db_name d = toDbStatus s) ↔ s ≠ CANCELLED ∧ s ≠ EXECUTION_FAILED.
Proof.
  split.
  - intros (d & Hd). split; intros ->; by destruct d.
  - intros [H1 H2].
    destruct s; try done; [exists db_pending|exists db_approved|exists db_rejected|exists db_expired
      |exists db_stale|exists db_executing|exists db_executed]; by vm_compute.
Qed.

(** ** Witnesses *)

Definition sample_binding : Binding :=
  {| repositoryId := "repo"; workflowRunId := Some "run"; actionType := "pull_request.merge";
     riskClass := "sensitive_write"; row_reasonCode := "AWAITING_RESOLUTION";
     reasonSummary := ""; operationHash := "h"; fingerprintHash := "f"; expiresAt := 10 |}.

Definition sample_row : ApprovalRow :=
  {| binding := sample_binding; status := db_pending; resolvedBy := None; comment := None;
     resolvedAt := None; executionStatus := None; executedAt := None; updatedAt := 0;
     rowVersion := 1 |}.

Definition sample_store : Store :=
  {| approvals := {[ "a" := sample_row ]}; evidence := []; outbox := ∅ |}.

Definition approve_by (user key : string) : ApprovalStatusTransition :=
  user_transition db_approved user key.

Definition approved_store : Store := (transition 5 "a" 1 (approve_by "alice" "k1") sample_store).2.

Lemma store_refines_fsm_witness :
  ∃ r', approvals approved_store !! "a" = Some r' ∧ binding r' = sample_binding.
Proof.
  destruct (store_refines_fsm sample_store approved_store "a" sample_row)
    as (r' & Hr' & _ & _ & _ & Hb & _).
  - apply rtc_once.
    apply (step_transition 5 "a" 1 (approve_by "alice" "k1") sample_store
      (Returned (updated_row 5 (approve_by "alice" "k1") sample_row)) approved_store).
    by vm_compute.
  - by vm_compute.
  - by exists r'.
Defined.

Lemma cas_exclusive_witness :
  approvals (transition 6 "a" 1 (user_transition db_rejected "bob" "k2") approved_store).2
    = approvals approved_store.
Proof.
  eapply (cas_exclusive 5 "a" 1 (approve_by "alice" "k1") sample_store _ approved_store
    approved_store 6 (user_transition db_rejected "bob" "k2")).
  - apply surjective_pairing.
  - intros Heq. apply (f_equal (λ m, status <$> m !! "a")) in Heq. by vm_compute in Heq.
  - done.
  - apply surjective_pairing.
Defined.

Lemma resolution_outcomes_witness :
  let done := resolve 20 "e" "" "a" db_approved "alice"
    (Some {| idempotencyKey := "k"; expectedVersion := 7 |}) sample_store in
  approvals done.2 = approvals sample_store ∧
  evidence done.2 = [evidence_of "a" (approve_by "alice" "k")].
Proof.
  eapply (resolution_outcomes 20 "e" "a" db_approved "alice" "k" 7 sample_store sample_row);
    [by vm_compute|done|by right|by vm_compute|by vm_compute|done].
Defined.

Lemma replay_masks_conflict_witness :
  transition 9 "a" 1 (approve_by "bob" "k2") approved_store =
    (Returned (updated_row 5 (approve_by "alice" "k1") sample_row),
     set_evidence (evidence approved_store ++ [evidence_of "a" (approve_by "bob" "k2")])
       approved_store).
Proof.
  apply (replay_masks_conflict 9 "a" 1 (approve_by "bob" "k2") approved_store
    (updated_row 5 (approve_by "alice" "k1") sample_row)); [by vm_compute|done| |].
  - eexists. split; [reflexivity|]. left.
  - intros x. vm_compute. intros Hx. apply elem_of_cons in Hx as [->|Hx]; [done|by apply elem_of_nil in Hx].
Defined.
