(* ===== verification/CanonicalJson.v ===== *)
(** * Canonical JSON

    The two canonical serializers of the code base: [packages/approvals/src/fingerprint/
    canonical.ts], which the approval fingerprints are computed over, and
    [packages/db/src/reliability/idempotency.ts], which idempotency keys and requests are
    hashed with.  Objects are association lists in iteration order; numbers are integers; on
    the Latin-1 strings of the model NFC normalization is the identity and no lone surrogate
    occurs. *)

From S2P Require Import Prelude JsString Effects Json.

Section JsonTraversal.
Context {A : Type}.

(** The first error of a list of results, or all the values. *)
Fixpoint sequence (l : list (outcome A)) : outcome (list A) :=
  match l with
  | [] => Returned []
  | o :: l => obind o (λ a, obind (sequence l) (λ r, Returned (a :: r)))
  end.
End JsonTraversal.

(** [(a < b ? -1 : a > b ? 1 : 0)] on the keys. *)
Definition by_key {A} : string * A → string * A → Z := cmp_by fst code_unit_compare.

(* @src packages/db/src/reliability/idempotency.ts:21-32 canonicalJsonStringify *)
Fixpoint canonicalJsonStringify (v : json) : string :=
  match v with
  | JArr l => "[" +s join "," (map canonicalJsonStringify l) +s "]"
  | JObj l =>
      "{" +s join "," (map (λ '(k, text), quote k +s ":" +s text)
        (js_sort by_key (map (λ '(k, v), (k, canonicalJsonStringify v)) l))) +s "}"
  | scalar => stringify scalar
  end.

(** String serialization: on Latin-1 text the escapes of RFC 8785 are those of [stringify]. *)
(* @src packages/approvals/src/fingerprint/canonical.ts:30-71 serializeString *)
Definition serializeString (s : string) : string := quote (normalize_nfc s).

(* @src packages/approvals/src/fingerprint/canonical.ts:73-79 serializeNumber *)
Definition serializeNumber (n : Z) : string := num_to_string n.

Definition key_collision : js_error := PlainError "normalized key collision".

(** The loop over the sorted keys, with the keys seen so far. *)
(* @src packages/approvals/src/fingerprint/canonical.ts:96-107 canonicalize *)
Fixpoint object_parts (seen : list string) (l : list (string * outcome string))
  : outcome (list string) :=
  match l with
  | [] => Returned []
  | (k, text) :: l =>
      if str_in (normalize_nfc k) seen then Threw key_collision
      else obind text (λ t,
        obind (object_parts (normalize_nfc k :: seen) l) (λ r,
          Returned ((serializeString k +s ":" +s t) :: r)))
  end.

(* @src packages/approvals/src/fingerprint/canonical.ts:81-117 canonicalize *)
Fixpoint canonicalize (v : json) : outcome string :=
  match v with
  | JNull => Returned "null"
  | JStr s => Returned (serializeString s)
  | JNum n => Returned (serializeNumber n)
  | JBool b => Returned (if b then "true" else "false")
  | JArr l =>
      obind (sequence (map canonicalize l)) (λ parts, Returned ("[" +s join "," parts +s "]"))
  | JObj l =>
      obind (object_parts [] (js_sort by_key (map (λ '(k, v), (k, canonicalize v)) l)))
        (λ parts, Returned ("{" +s join "," parts +s "}"))
  end.

Section Hashes.
Context `{Digest}.

(* @src packages/db/src/reliability/idempotency.ts:15-18 idempotencyKeyHash *)
Definition idempotencyKeyHash (scope key : string) : string :=
  sha256 (scope +s String Ascii.zero "" +s key).

(* @src packages/db/src/reliability/idempotency.ts:34-37 requestFingerprint *)
Definition requestFingerprint (request : json) : string := sha256 (canonicalJsonStringify request).

(* @src packages/approvals/src/fingerprint/canonical.ts:124-136 fingerprint *)
Definition fingerprint (v : json) : outcome (string * string) :=
  obind (canonicalize v) (λ text, Returned (text, sha256 text)).
End Hashes.

(** ** Equality of JSON values up to the order of object members *)

Fixpoint same_json (v w : json) {struct v} : Prop :=
  match v, w with
  | JArr l, JArr l' =>
      (fix go l l' : Prop :=
         match l, l' with
         | [], [] => True
         | x :: l, y :: l' => same_json x y ∧ go l l'
         | _, _ => False
         end) l l'
  | JObj l, JObj l' =>
      ∃ p, p ≡ₚ l' ∧
      (fix go l p : Prop :=
         match l, p with
         | [], [] => True
         | (k, x) :: l, (k', y) :: p => k = k' ∧ same_json x y ∧ go l p
         | _, _ => False
         end) l p
  | _, _ => v = w
  end.

(** The value with the members of every object in key order. *)
Fixpoint sort_keys (v : json) : json :=
  match v with
  | JArr l => JArr (map sort_keys l)
  | JObj l => JObj (js_sort by_key (map (λ '(k, v), (k, sort_keys v)) l))
  | scalar => scalar
  end.

Definition on_values (f : json → json) (kv : string * json) : string * json :=
  let '(k, v) := kv in (k, f v).

(** Sorting by key commutes with a map over the values. *)
Lemma js_sort_map_values {A B} (f : A → B) (l : list (string * A)) :
  js_sort by_key (map (λ '(k, v), (k, f v)) l) = map (λ '(k, v), (k, f v)) (js_sort by_key l).
Proof.
  induction l as [|[k v] l IH]; simpl; [done|]. rewrite IH. clear IH.
  generalize (js_sort by_key l). intros m. induction m as [|[k' v'] m IH]; simpl; [done|].
  unfold by_key at 1 3, cmp_by. simpl. case_match; simpl; [done|]. by rewrite IH.
Qed.

Lemma canonicalJsonStringify_sorted v : canonicalJsonStringify v = stringify (sort_keys v).
Proof.
  induction v as [| | | |l IH|l IH] using json_nested_ind; try done.
  - assert (Hl : map canonicalJsonStringify l = map stringify (map sort_keys l)).
    { rewrite map_map. induction IH as [|x l Hx _ IH]; simpl; [done|]. by rewrite Hx, IH. }
    simpl. by rewrite Hl.
  - cbn [canonicalJsonStringify sort_keys stringify]. rewrite !js_sort_map_values, !map_map.
    assert (Hs : Forall (λ kv, canonicalJsonStringify kv.2 = stringify (sort_keys kv.2))
      (js_sort by_key l)) by (by rewrite js_sort_perm).
    do 3 f_equal.
    induction Hs as [|[k x] m Hx _ IHm]; simpl; [done|]. simpl in Hx.
    f_equal; [by rewrite Hx|exact IHm].
Qed.

Lemma sort_keys_same v w : sort_keys v = sort_keys w → same_json v w.
Proof.
  revert w. induction v as [| | | |l IH|l IH] using json_nested_ind;
    intros [| | | |l'|l'] Heq; simpl in Heq; try done.
  - injection Heq as Heq. simpl. revert l' Heq.
    induction IH as [|x l Hx _ IH]; intros [|y l'] Heq; try done.
    injection Heq as Hxy Heq. split; [by apply Hx|by apply IH].
  - injection Heq as Heq. simpl.
    assert (Hp : map (λ '(k, v), (k, sort_keys v)) l ≡ₚ map (λ '(k, v), (k, sort_keys v)) l')
      by (by rewrite <- (js_sort_perm by_key (map _ l)), Heq, js_sort_perm).
    apply Permutation_map_inv in Hp as (p & Hl & Hp). exists p. split; [done|].
    clear Heq Hp l'. revert p Hl.
    induction IH as [|[k x] l Hx _ IH]; intros [|[k' y] p] Hl; try done.
    injection Hl as Hk Hxy Hl. split_and!; [done|by apply Hx|by apply IH].
Qed.

Lemma map_values_keys {A B} (f : A → B) (l : list (string * A)) :
  (map (λ '(k, v), (k, f v)) l).*1 = l.*1.
Proof. induction l as [|[k v] l IH]; [done|]. simpl. f_equal. exact IH. Qed.

Lemma nodup_keys_functional {A} (l : list (string * A)) k a b :
  NoDup l.*1 → (k, a) ∈ l → (k, b) ∈ l → a = b.
Proof.
  induction l as [|[k' v] l IH]; intros Hnd Ha Hb; [by apply elem_of_nil in Ha|].
  rewrite fmap_cons in Hnd. inversion Hnd as [|? ? Hk Hnd']; subst. simpl in Hk.
  apply elem_of_cons in Ha as [Ha|Ha]; apply elem_of_cons in Hb as [Hb|Hb]; simplify_eq; auto;
    destruct Hk; apply list_elem_of_fmap; by eexists (_, _).
Qed.

Lemma same_json_sort v w : distinct_keys v → same_json v w → sort_keys v = sort_keys w.
Proof.
  revert w. induction v as [| | | |l IH|l IH] using json_nested_ind;
    intros [| | | |l'|l'] Hd Hs; simpl in Hs; try done; inversion Hd as [| | | |? Hall|? Hnd Hall];
    subst; simpl; f_equal.
  - clear Hd. revert l' Hs. induction IH as [|x l Hx _ IH]; intros [|y l'] Hs; simpl; try done.
    inversion Hall; subst. destruct Hs as [Hxy Hs]. f_equal; auto.
  - destruct Hs as (p & Hp & Hs).
    assert (Hmap : map (λ '(k, v), (k, sort_keys v)) l = map (λ '(k, v), (k, sort_keys v)) p).
    { clear Hd Hp Hnd. revert p Hs. induction IH as [|[k x] l Hx _ IH]; intros [|[k' y] p] Hs;
        simpl; try done. inversion Hall; subst. destruct Hs as (-> & Hxy & Hs).
      f_equal; [f_equal; by apply Hx|by apply IH]. }
    rewrite Hmap. apply js_sort_perm_eq.
    + apply cmp_by_comparator, _.
    + rewrite <- Hmap. intros [k a] [k' b] Ha Hb Hk. apply code_unit_compare_eq in Hk.
      simpl in Hk. subst k'. f_equal. eapply nodup_keys_functional; [|done..].
      by rewrite map_values_keys.
    + by rewrite Hp.
Qed.

Lemma object_parts_ok seen (l : list (string * string)) :
  NoDup l.*1 → (∀ k, k ∈ l.*1 → k ∉ seen) →
  object_parts seen (map (λ '(k, t), (k, Returned t)) l) =
    Returned (map (λ '(k, t), quote k +s ":" +s t) l).
Proof.
  revert seen. induction l as [|[k t] l IH]; intros seen Hnd Hs; simpl; [done|].
  inversion Hnd as [|? ? Hk Hnd']; subst. unfold normalize_nfc.
  replace (str_in k seen) with false by (symmetry; apply str_in_false, Hs; left).
  rewrite IH; [done|done|]. intros k' Hk' [->|Hin]%elem_of_cons; [done|].
  eapply Hs; [right|]; eauto.
Qed.

Lemma sequence_returned {A} (l : list A) : sequence (map Returned l) = Returned l.
Proof. induction l; simpl; [done|]. by rewrite IHl. Qed.

Lemma canonicalize_returns v : distinct_keys v → canonicalize v = Returned (canonicalJsonStringify v).
Proof.
  induction v as [| | | |l IH|l IH] using json_nested_ind; intros Hd; try done;
    inversion Hd as [| | | |? Hall|? Hnd Hall]; subst.
  - assert (Hl : map canonicalize l = map Returned (map canonicalJsonStringify l)).
    { rewrite map_map. clear Hd. induction IH as [|x l Hx _ IH]; simpl; [done|].
      inversion Hall; subst. by rewrite Hx, IH. }
    simpl. by rewrite Hl, sequence_returned.
  - assert (Hl : map (λ '(k, v), (k, canonicalize v)) l =
      map (λ '(k, t), (k, Returned t)) (map (λ '(k, v), (k, canonicalJsonStringify v)) l)).
    { rewrite map_map. clear Hd Hnd. induction IH as [|[k x] l Hx _ IH]; simpl; [done|].
      inversion Hall; subst. simpl in Hx. f_equal; [by rewrite Hx|by apply IH]. }
    cbn [canonicalize canonicalJsonStringify].
    rewrite Hl, (js_sort_map_values Returned), object_parts_ok; [done| |set_solver].
    assert (Hk : (js_sort by_key (map (λ '(k, v), (k, canonicalJsonStringify v)) l)).*1 ≡ₚ l.*1)
      by (by rewrite js_sort_perm, map_values_keys).
    by rewrite Hk.
Qed.

Lemma canonical_text_iff v w :
  distinct_keys v → (canonicalJsonStringify v = canonicalJsonStringify w ↔ same_json v w).
Proof.
  intros Hv. rewrite !canonicalJsonStringify_sorted. split.
  - intros Heq%(inj stringify). by apply sort_keys_same.
  - intros Hs. f_equal. by apply same_json_sort.
Qed.

(** Canonical JSON identifies values exactly up to the order of object members: both
    serializers succeed on every value whose objects have distinct keys and produce the same
    text, and two such values have the same canonical text if and only if they are equal up to
    reordering members at any depth; so reordering never changes a fingerprint and, with a
    collision-free digest, equal fingerprints mean equal content. *)
Theorem canonical_text_decides v w (Hv : distinct_keys v) (Hw : distinct_keys w) :
  canonicalize v = Returned (canonicalJsonStringify v) ∧
  (canonicalize v = canonicalize w ↔ same_json v w) ∧
  (canonicalJsonStringify v = canonicalJsonStringify w ↔ same_json v w).
Proof.
  pose proof (canonical_text_iff v w Hv) as Hdec.
  rewrite !canonicalize_returns by done. split_and!; [done| |done].
  rewrite <- Hdec. split; [by intros [= ->]|by intros ->].
Qed.

Lemma canonical_text_decides_witness :
  canonicalize (JObj [("b", JNum 1); ("a", JArr [JNull])]) =
  canonicalize (JObj [("a", JArr [JNull]); ("b", JNum 1)]).
Proof.
  apply (canonical_text_decides (JObj [("b", JNum 1); ("a", JArr [JNull])])
    (JObj [("a", JArr [JNull]); ("b", JNum 1)])).
  - apply dk_obj; [apply (bool_decide_unpack _); by vm_compute|]. repeat constructor.
  - apply dk_obj; [apply (bool_decide_unpack _); by vm_compute|]. repeat constructor.
  - exists [("b", JNum 1); ("a", JArr [JNull])]. split; [apply Permutation_swap|done].
Defined.
