(* ===== verification/Schemas.v ===== *)
(** * Schemas

    The checks of the zod schemas on a JSON value: each gives the value it accepts, or none. *)

From S2P Require Import Prelude JsString Json Contracts.

(** A member that has a default when it is absent. *)
Definition with_default {A} (f : json → option A) (d : A) (o : option json) : option A :=
  match o with None => Some d | Some j => f j end.

(** [z.string()] with a check, [z.array(...).max(n)], [z.object(...).strict()]. *)
Definition p_string (p : string → bool) (j : json) : option string :=
  match j with JStr s => if p s then Some s else None | _ => None end.

Definition p_array {A} (n : Z) (f : json → option A) (j : json) : option (list A) :=
  match j with JArr l => if Z.of_nat (length l) <=? n then mapM f l else None | _ => None end.

Definition p_strict (keys : list string) (j : json) : option (list (string * json)) :=
  match j with
  | JObj l => if forallb (λ kv, str_in kv.1 keys) l then Some l else None
  | _ => None
  end.

(** [z.boolean()], [z.enum], a member that may be absent. *)
Definition p_bool (j : json) : option bool := match j with JBool b => Some b | _ => None end.

Definition p_enum {A} (names : string → option A) (j : json) : option A :=
  match j with JStr s => names s | _ => None end.

Definition p_optional {A} (f : json → option A) (o : option json) : option (option A) :=
  match o with None => Some None | Some j => Some <$> f j end.

(** [z.record(z.string(), z.unknown())] *)
Definition p_record (j : json) : option unit := match j with JObj _ => Some () | _ => None end.

Lemma p_string_some p j s : p_string p j = Some s → j = JStr s ∧ p s = true.
Proof. destruct j; simpl; try done. destruct (p s0) eqn:E; [|done]. by intros [= ->]. Qed.

