(* ===== verification/Idempotency.v ===== *)
(** * Idempotency records

    [packages/db/src/reliability/idempotency.ts]: the begin, replay and complete protocol over
    the [idempotency_records] table, keyed by scope and key hash.  [now] is the database clock
    in milliseconds; [token] is the fresh UUID a call draws. *)

From S2P Require Import Prelude JsString Effects Json CanonicalJson.
From S2P Require Outbox.

Inductive RecordStatus := processing | completed | failed_retriable.

#[export] Instance RecordStatus_eq_dec : EqDecision RecordStatus.
Proof. solve_decision. Defined.

(* @src packages/db/src/reliability/idempotency.ts:39-43 StoredResult *)
Record StoredResult := { responseCode : Z; responseJson : json }.

(* @src packages/db/src/reliability/idempotency.ts:57-63 IdempotencyRow *)
Record Row := {
  status : RecordStatus;
  requestFp : option string;
  ownerToken : option string;
  leaseExpiresAt : option Z;
  response_code : option Z;
  response_json : json;
}.

Abbreviation Table := (gmap (string * string) Row) (only parsing).

(* @src packages/db/src/reliability/idempotency.ts:45-48 BeginOutcome *)
Inductive BeginOutcome :=
  | acquired (token : string)
  | replay (result : StoredResult)
  | conflict.

(* @src packages/db/src/reliability/idempotency.ts:50-55 BeginInput *)
Record BeginInput := { scope : string; key : string; fingerprint : string; leaseMs : Z }.

Section Store.
Context `{Digest}.

Definition slot (i : BeginInput) : string * string :=
  (scope i, idempotencyKeyHash (scope i) (key i)).

(** [RECLAIM_LEASE]: the new owner, when the stored lease has run out. *)
(* @src packages/db/src/reliability/idempotency.ts:78-89 RECLAIM_LEASE *)
Definition reclaim (now : Z) (token : string) (leaseMs : Z) (r : Row) : option Row :=
  match leaseExpiresAt r with
  | Some t =>
      if t <=? now then
        Some {| status := status r; requestFp := requestFp r; ownerToken := Some token;
                leaseExpiresAt := Some (now + leaseMs); response_code := response_code r;
                response_json := response_json r |}
      else None
  | None => None
  end.

(* @src packages/db/src/reliability/idempotency.ts:110-148 IdempotencyStore.begin *)
Definition begin (now : Z) (token : string) (i : BeginInput) (m : Table)
  : outcome BeginOutcome * Table :=
  match m !! slot i with
  | None =>
      (Returned (acquired token),
       <[slot i := {| status := processing; requestFp := Some (fingerprint i);
                      ownerToken := Some token; leaseExpiresAt := Some (now + leaseMs i);
                      response_code := None; response_json := JNull |}]> m)
  | Some r =>
      if match requestFp r with Some fp => negb (fp =s? fingerprint i) | None => false end then
        (Threw (GuardError "IDEMPOTENCY_KEY_REUSED"), m)
      else if decide (status r = completed) then
        (Returned (replay {| responseCode := response_code r ?? 200;
                             responseJson := response_json r |}), m)
      else
        match reclaim now token (leaseMs i) r with
        | Some r' => (Returned (acquired token), <[slot i := r']> m)
        | None => (Returned conflict, m)
        end
  end.

Definition owned (token : string) (r : Row) : bool :=
  bool_decide (ownerToken r = Some token) && bool_decide (status r = processing).

(** The row [COMPLETE_BY_TOKEN] leaves. *)
(* @src packages/db/src/reliability/idempotency.ts:91-99 COMPLETE_BY_TOKEN *)
Definition completed_row (token : string) (result : StoredResult) (r : Row) : Row :=
  if owned token r then
    {| status := completed; requestFp := requestFp r; ownerToken := ownerToken r;
       leaseExpiresAt := leaseExpiresAt r; response_code := Some (responseCode result);
       response_json := responseJson result |}
  else r.

(* @src packages/db/src/reliability/idempotency.ts:151-165 IdempotencyStore.complete *)
Definition complete (token : string) (result : StoredResult) (m : Table) : outcome unit * Table :=
  if 65536 <? utf8_length (stringify (responseJson result)) then
    (Threw (GuardError "VALIDATION_FAILED"), m)
  else if existsb (λ kr, owned token kr.2) (map_to_list m) then
    (Returned tt, completed_row token result <$> m)
  else
    (Threw (PlainError ("Unknown or non-processing idempotency token '" +s token +s "'.")), m).

(** ** The table as a transition system

    Calls by others than the holder of [t]: tokens are unique, so no other call draws it. *)
Inductive other_step (t : string) (m : Table) : Table → Prop :=
  | other_begin now token i : token ≠ t → other_step t m (begin now token i m).2
  | other_complete token result : token ≠ t → other_step t m (complete token result m).2.

(** What a row may become: a completed row stays; otherwise it keeps its request fingerprint. *)
Definition row_after (r r' : Row) : Prop :=
  (status r = completed → r' = r) ∧ requestFp r' = requestFp r.

Lemma begin_rows now token i m k r :
  m !! k = Some r →
  ∃ r', (begin now token i m).2 !! k = Some r' ∧ row_after r r' ∧
    (r' = r ∨ ownerToken r' = Some token ∧ status r' = status r ∧
              ∃ t, leaseExpiresAt r = Some t ∧ t ≤ now).
Proof.
  intros Hr. assert (Hsame : ∃ r', Some r = Some r' ∧ row_after r r' ∧
    (r' = r ∨ ownerToken r' = Some token ∧ status r' = status r ∧
              ∃ t, leaseExpiresAt r = Some t ∧ t ≤ now)) by (exists r; unfold row_after; auto).
  unfold begin. destruct (m !! slot i) as [x|] eqn:Hx.
  - destruct (match requestFp x with Some _ => _ | None => _ end); [simpl; by rewrite Hr|].
    case_decide as Hc; [simpl; by rewrite Hr|].
    destruct (reclaim now token (leaseMs i) x) as [x'|] eqn:Hrec; simpl; [|simpl; by rewrite Hr].
    unfold reclaim in Hrec. destruct (leaseExpiresAt x) as [t|] eqn:Hl; [|done].
    destruct (Z.leb_spec t now); [|done]. injection Hrec as <-.
    destruct (decide (slot i = k)) as [<-|Hne].
    + rewrite lookup_insert_eq. eexists. split; [done|]. simplify_eq. split; [by split|].
      right. split_and!; [done|done|eauto].
    + rewrite lookup_insert_ne by done. simpl; by rewrite Hr.
  - simpl. rewrite lookup_insert_ne by congruence. simpl; by rewrite Hr.
Qed.

Lemma begin_new now token i m k r :
  m !! k = None → (begin now token i m).2 !! k = Some r → ownerToken r = Some token.
Proof.
  intros Hk. unfold begin. destruct (m !! slot i) as [x|] eqn:Hx.
  - assert (slot i ≠ k) by congruence.
    repeat case_match; simpl; rewrite ?lookup_insert_ne by done; congruence.
  - simpl. by intros [[_ <-]|[_ ?]]%lookup_insert_Some; [|congruence].
Qed.

Lemma complete_rows token result m k r :
  m !! k = Some r →
  (complete token result m).2 !! k = Some r ∨
  (complete token result m).2 !! k = Some (completed_row token result r).
Proof.
  intros Hr. unfold complete. repeat case_match; auto. right. simpl.
  by rewrite lookup_fmap, Hr.
Qed.

Lemma owned_spec token r : owned token r = true ↔ ownerToken r = Some token ∧ status r = processing.
Proof. unfold owned. by rewrite andb_true_iff, !bool_decide_eq_true. Qed.

Lemma completed_row_other t token result r :
  token ≠ t → ownerToken r = Some t → completed_row token result r = r.
Proof.
  intros Hne Ho. unfold completed_row. destruct (owned token r) eqn:E; [|done].
  apply owned_spec in E as [E _]. congruence.
Qed.

Lemma completed_row_after token result r : row_after r (completed_row token result r).
Proof.
  unfold row_after, completed_row. destruct (owned token r) eqn:E; [|done].
  apply owned_spec in E as [_ E]. simpl. split; [congruence|done].
Qed.

(** [t] owns no row but possibly the one at [k]. *)
Definition owns_only (t : string) (k : string * string) (m : Table) : Prop :=
  ∀ k' r, m !! k' = Some r → ownerToken r = Some t → k' = k.

Lemma other_step_owns t k m m' : other_step t m m' → owns_only t k m → owns_only t k m'.
Proof.
  intros Hstep Ho k' r' Hr' Hown. destruct (m !! k') as [r|] eqn:Hr.
  - apply (Ho k' r Hr). destruct Hstep as [now token i Hne|token result Hne].
    + destruct (begin_rows now token i m k' r Hr) as (x & Hx & _ & [->|[Hx2 _]]); congruence.
    + destruct (complete_rows token result m k' r Hr) as [Hx|Hx]; [congruence|].
      rewrite Hx in Hr'. simplify_eq. unfold completed_row in Hown. by case_match.
  - exfalso. destruct Hstep as [now token i Hne|token result Hne].
    + rewrite (begin_new _ _ _ _ _ _ Hr Hr') in Hown. congruence.
    + unfold complete in Hr'. repeat case_match; simplify_eq/=; try congruence.
      rewrite lookup_fmap, Hr in Hr'. done.
Qed.

(** The state of [t]'s slot while others act. *)
Definition held_or_lost (t : string) (fp : option string) (expiry : Z) (r : Row) : Prop :=
  requestFp r = fp ∧
  (status r = processing ∧ ownerToken r = Some t ∧ leaseExpiresAt r = Some expiry ∨
   ownerToken r ≠ Some t).

Lemma other_step_slot t k fp e m m' r :
  other_step t m m' → m !! k = Some r → held_or_lost t fp e r →
  ∃ r', m' !! k = Some r' ∧ held_or_lost t fp e r'.
Proof.
  intros Hstep Hr [Hfp Hh]. destruct Hstep as [now token i Hne|token result Hne].
  - destruct (begin_rows now token i m k r Hr) as (r' & Hr' & [_ Hfp'] & Ho).
    exists r'. split; [done|]. split; [congruence|]. destruct Ho as [->|(Ho & _)]; [done|].
    right. congruence.
  - destruct (complete_rows token result m k r Hr) as [Hr'|Hr']; [exists r; done|].
    eexists. split; [done|]. split; [by rewrite (proj2 (completed_row_after token result r))|].
    destruct Hh as [(Hs & Ho & Hl)|Ho].
    + left. by rewrite (completed_row_other t).
    + right. unfold completed_row. by case_match.
Qed.

Lemma acquired_row now t i m m1 :
  begin now t i m = (Returned (acquired t), m1) →
  (∀ k r, m !! k = Some r → ownerToken r ≠ Some t) →
  (∀ r, m !! slot i = Some r → requestFp r = Some (fingerprint i) ∧ status r = processing) →
  owns_only t (slot i) m1 ∧
  ∃ r, m1 !! slot i = Some r ∧ held_or_lost t (Some (fingerprint i)) (now + leaseMs i) r.
Proof.
  intros Hacq Hfresh Hfp.
  assert (Hins : ∃ r, m1 = <[slot i := r]> m ∧
    held_or_lost t (Some (fingerprint i)) (now + leaseMs i) r).
  { unfold begin in Hacq. destruct (m !! slot i) as [r|] eqn:Hr.
    - destruct (Hfp r eq_refl) as [Hf Hs]. repeat case_match; simplify_eq.
      unfold reclaim in *. repeat case_match; simplify_eq. eexists. split; [done|].
      split; [done|]. by left.
    - simplify_eq. eexists. split; [done|]. split; [done|]. by left. }
  destruct Hins as (r & -> & Hh). split.
  - intros k' r' [[<- _]|[_ Hr']]%lookup_insert_Some Ho; [done|]. by destruct (Hfresh _ _ Hr').
  - exists r. by rewrite lookup_insert_eq.
Qed.

Lemma later_row t k fp e m m' :
  rtc (other_step t) m m' → owns_only t k m →
  (∃ r, m !! k = Some r ∧ held_or_lost t fp e r) →
  owns_only t k m' ∧ ∃ r, m' !! k = Some r ∧ held_or_lost t fp e r.
Proof.
  induction 1 as [m|m m2 m3 Hstep _ IH]; [done|]. intros Ho (r & Hr & Hh). apply IH.
  - by eapply other_step_owns.
  - by eapply other_step_slot.
Qed.

Lemma complete_unowned t result m :
  (∀ k r, m !! k = Some r → owned t r = false) →
  (complete t result m).2 = m ∧ (complete t result m).1 ≠ Returned tt.
Proof.
  intros Hno. unfold complete. case_match; [done|]. replace (existsb _ _) with false; [done|].
  symmetry. apply existsb_false. intros [k r] Hkr. apply elem_of_map_to_list in Hkr. by eapply Hno.
Qed.

Lemma begin_other_fingerprint now t i m r fp :
  m !! slot i = Some r → requestFp r = Some fp → fp ≠ fingerprint i →
  begin now t i m = (Threw (GuardError "IDEMPOTENCY_KEY_REUSED"), m).
Proof.
  intros Hr Hf Hne. unfold begin. rewrite Hr, Hf.
  by replace (fp =s? fingerprint i) with false by (symmetry; by apply String.eqb_neq).
Qed.

Lemma begin_live now t i m r e :
  m !! slot i = Some r → status r = processing → leaseExpiresAt r = Some e → now < e →
  (begin now t i m).2 = m ∧
  ((begin now t i m).1 = Returned conflict ∨
   (begin now t i m).1 = Threw (GuardError "IDEMPOTENCY_KEY_REUSED")).
Proof.
  intros Hr Hs Hl Hlt. unfold begin. rewrite Hr.
  destruct (match requestFp r with Some _ => _ | None => _ end); [auto|].
  rewrite decide_False by (by rewrite Hs). unfold reclaim. rewrite Hl.
  destruct (Z.leb_spec e now); [lia|auto].
Qed.

Lemma completed_stays m k r :
  m !! k = Some r → status r = completed →
  (∀ now t i, (begin now t i m).2 !! k = Some r) ∧
  (∀ t result, (complete t result m).2 !! k = Some r) ∧
  (∀ now t i, slot i = k → requestFp r = Some (fingerprint i) →
     begin now t i m = (Returned (replay {| responseCode := response_code r ?? 200;
                                            responseJson := response_json r |}), m)).
Proof.
  intros Hr Hs. split_and!.
  - intros now t i. destruct (begin_rows now t i m k r Hr) as (r' & Hr' & [Hst _] & _).
    by rewrite <- (Hst Hs) at 1.
  - intros t result. destruct (complete_rows t result m k r Hr) as [?|Hr']; [done|].
    by rewrite Hr', (proj1 (completed_row_after t result r) Hs).
  - intros now t i <- Hf. unfold begin. rewrite Hr, Hf, String.eqb_refl. simpl.
    by rewrite decide_True.
Qed.

(** One owner per idempotency key: after a caller acquires a key with a fresh token, whatever
    other callers do, either it still holds the key -- then every other begin is refused as a
    conflict until its lease runs out -- or it has lost it to a later owner, and then its own
    completion fails and changes nothing; a different request under the same key is always
    rejected; and once a result is stored, no begin and no completion by anyone changes it, and
    every repeat of the request replays exactly that result. *)
Theorem one_owner_completes now t i m m1 m'
  (Hacq : begin now t i m = (Returned (acquired t), m1))
  (Hfresh : ∀ k r, m !! k = Some r → ownerToken r ≠ Some t)
  (Hfp : ∀ r, m !! slot i = Some r → requestFp r = Some (fingerprint i) ∧ status r = processing)
  (Hlater : rtc (other_step t) m1 m') :
  (∃ r, m' !! slot i = Some r ∧ requestFp r = Some (fingerprint i) ∧
     (owned t r = true ∧
        (∀ now' t' i', slot i' = slot i → now' < now + leaseMs i →
           (begin now' t' i' m').2 = m' ∧
           ((begin now' t' i' m').1 = Returned conflict ∨
            (begin now' t' i' m').1 = Threw (GuardError "IDEMPOTENCY_KEY_REUSED"))) ∨
      owned t r = false ∧ ∀ result, (complete t result m').2 = m' ∧
                            (complete t result m').1 ≠ Returned tt)) ∧
  (∀ i' now' t', slot i' = slot i → fingerprint i' ≠ fingerprint i →
     begin now' t' i' m' = (Threw (GuardError "IDEMPOTENCY_KEY_REUSED"), m')) ∧
  (∀ k r, m' !! k = Some r → status r = completed →
     (∀ now' t' i', (begin now' t' i' m').2 !! k = Some r) ∧
     (∀ t' result, (complete t' result m').2 !! k = Some r) ∧
     (∀ now' t' i', slot i' = k → requestFp r = Some (fingerprint i') →
        begin now' t' i' m' = (Returned (replay {| responseCode := response_code r ?? 200;
                                                  responseJson := response_json r |}), m'))).
Proof.
  destruct (acquired_row _ _ _ _ _ Hacq Hfresh Hfp) as [Hown1 Hrow1].
  destruct (later_row _ _ _ _ _ _ Hlater Hown1 Hrow1) as [Hown (r & Hr & Hf & Hh)].
  split_and!.
  - exists r. split_and!; [done|done|]. destruct Hh as [(Hs & Ho & Hl)|Ho]; [left|right].
    + split; [by apply owned_spec|]. intros now' t' i' Hi Hlt. rewrite <- Hi in Hr.
      by eapply begin_live.
    + assert (Hnot : ∀ x, ownerToken x ≠ Some t → owned t x = false).
      { intros x Hx. destruct (owned t x) eqn:E; [|done]. by apply owned_spec in E as [? _]. }
      split; [by apply Hnot|]. intros result. apply complete_unowned. intros k x Hx.
      apply Hnot. intros Hxo. pose proof (Hown _ _ Hx Hxo). congruence.
  - intros i' now' t' Hi Hne. rewrite <- Hi in Hr. by eapply begin_other_fingerprint.
  - intros k x. apply completed_stays.
Qed.
End Store.

Definition charge_request : BeginInput :=
  {| scope := "run"; key := "k1"; fingerprint := "fp"; leaseMs := 1000 |}.

Lemma one_owner_completes_witness :
  let _ : Digest := λ s, s in
  (begin 500 "t2" charge_request (begin 0 "t1" charge_request ∅).2).1 = Returned conflict ∨
  (begin 500 "t2" charge_request (begin 0 "t1" charge_request ∅).2).1
    = Threw (GuardError "IDEMPOTENCY_KEY_REUSED").
Proof.
  intros D. set (m1 := (begin 0 "t1" charge_request ∅).2).
  assert (Hacq : begin 0 "t1" charge_request ∅ = (Returned (acquired "t1"), m1)) by reflexivity.
  pose proof (one_owner_completes 0 "t1" charge_request ∅ m1 m1 Hacq) as Hone.
  destruct Hone as [(r & Hr & _ & [(_ & Hb)|(Ho & _)]) _].
  - intros k r H. by rewrite lookup_empty in H.
  - intros r H. by rewrite lookup_empty in H.
  - apply rtc_refl.
  - by apply (Hb 500 "t2" charge_request).
  - exfalso. unfold m1, begin in Hr. rewrite lookup_empty in Hr. simpl in Hr.
    rewrite lookup_insert_eq in Hr. by injection Hr as <-.
Defined.
