(* ===== verification/RunStore.v ===== *)
(** * Workflow runs and their events

    [packages/db/src/repositories/workflow-evidence.ts]: the compare-and-set lifecycle of the
    [workflow_runs] rows, the execution lease the workers claim, and the append-only event log
    with its per-run sequence numbers.  [now] is the database clock in milliseconds. *)

From S2P Require Import Prelude JsString Effects Json.

Inductive RunStatus :=
  queued | dispatch_pending | provisioning | running | waiting_for_approval | resuming
| verifying | run_completed | failed | cancelled | rejected | timed_out | expired.

#[export] Instance RunStatus_eq_dec : EqDecision RunStatus.
Proof. solve_decision. Defined.

Definition run_status_name (s : RunStatus) : string :=
  match s with
  | queued => "queued" | dispatch_pending => "dispatch_pending" | provisioning => "provisioning"
  | running => "running" | waiting_for_approval => "waiting_for_approval"
  | resuming => "resuming" | verifying => "verifying" | run_completed => "completed"
  | failed => "failed" | cancelled => "cancelled" | rejected => "rejected"
  | timed_out => "timed_out" | expired => "expired"
  end.

(* @src packages/db/src/repositories/workflow-evidence.ts:14-27 NewRunInput *)
Record NewRunInput := {
  new_id : string;
  new_repositoryId : string;
  workflowType : string;
  definitionVersion : option string;
  triggerType : string;
  triggerReferenceJson : string;
  idempotencyKeyHash : option string;
  policySnapshotId : option string;
  createdBy : option string;
  originSurface : option string;
}.

(** A row of [workflow_runs]; the columns fixed at creation are in [input], with the defaults
    the insert fills in. *)
Record RunRow := {
  input : NewRunInput;
  status : RunStatus;
  startedAt : option Z;
  completedAt : option Z;
  cancelRequestedAt : option Z;
  leaseOwner : option string;
  leaseToken : option string;
  leaseExpiresAt : option Z;
  executionGeneration : Z;
  updatedAt : Z;
  rowVersion : Z;
}.

Abbreviation Runs := (gmap string RunRow) (only parsing).

Definition with_defaults (i : NewRunInput) : NewRunInput :=
  {| new_id := new_id i; new_repositoryId := new_repositoryId i; workflowType := workflowType i;
     definitionVersion := Some (definitionVersion i ?? "1.0.0"); triggerType := triggerType i;
     triggerReferenceJson := triggerReferenceJson i; idempotencyKeyHash := idempotencyKeyHash i;
     policySnapshotId := policySnapshotId i; createdBy := Some (createdBy i ?? "system");
     originSurface := Some (originSurface i ?? "web") |}.

(** A row with this non-null key hash exists. *)
Definition key_used (h : option string) (m : Runs) : bool :=
  match h with
  | None => false
  | Some h => existsb (λ p, bool_decide (idempotencyKeyHash (input p.2) = Some h)) (map_to_list m)
  end.

(* @src packages/db/src/repositories/workflow-evidence.ts:127-155 WorkflowRunStore.create *)
Definition create (now : Z) (i : NewRunInput) (m : Runs) : outcome RunRow * Runs :=
  if key_used (idempotencyKeyHash i) m then
    (Threw (PlainError "IDEMPOTENCY_REPLAY:run already exists for this key"), m)
  else match m !! new_id i with
  | Some _ => (Threw (PlainError "23505"), m)
  | None =>
      let r := {| input := with_defaults i; status := queued; startedAt := None;
                  completedAt := None; cancelRequestedAt := None; leaseOwner := None;
                  leaseToken := None; leaseExpiresAt := None; executionGeneration := 0;
                  updatedAt := now; rowVersion := 1 |} in
      (Returned r, <[new_id i := r]> m)
  end.

(** The columns every update touches. *)
Definition bump (now : Z) (s : RunStatus) (started completed cancelReq : option Z) (r : RunRow)
  : RunRow :=
  {| input := input r; status := s; startedAt := started; completedAt := completed;
     cancelRequestedAt := cancelReq; leaseOwner := leaseOwner r; leaseToken := leaseToken r;
     leaseExpiresAt := leaseExpiresAt r; executionGeneration := executionGeneration r;
     updatedAt := now; rowVersion := rowVersion r + 1 |}.

Definition coalesce (o : option Z) (now : Z) : option Z :=
  match o with Some t => Some t | None => Some now end.

(* @src packages/db/src/repositories/workflow-evidence.ts:249-264 WorkflowRunStore.cancel *)
Definition cancel (now : Z) (id : string) (expectedVersion : Z) (m : Runs)
  : outcome RunRow * Runs :=
  match m !! id with
  | Some r =>
      if (rowVersion r =? expectedVersion) &&
         includes [queued; dispatch_pending; waiting_for_approval] (status r) then
        let r' := bump now cancelled (startedAt r) (Some now)
                    (coalesce (cancelRequestedAt r) now) r in
        (Returned r', <[id := r']> m)
      else (Threw (PlainError "CANCEL_CONFLICT:not cancellable at this version"), m)
  | None => (Threw (PlainError "CANCEL_CONFLICT:not cancellable at this version"), m)
  end.

(* @src packages/db/src/repositories/workflow-evidence.ts:266-288 LEGAL *)
Definition LEGAL (s : RunStatus) : list RunStatus :=
  match s with
  | queued => [dispatch_pending; provisioning; running; cancelled]
  | dispatch_pending => [provisioning; running; cancelled]
  | provisioning => [running; waiting_for_approval; failed; cancelled; timed_out]
  | running =>
      [waiting_for_approval; resuming; verifying; run_completed; failed; cancelled; timed_out]
  | waiting_for_approval => [resuming; rejected; expired; cancelled]
  | resuming => [running; failed; cancelled]
  | verifying => [run_completed; failed; cancelled]
  | run_completed | failed | cancelled | rejected | timed_out | expired => []
  end.

Definition ended : list RunStatus := [run_completed; failed; cancelled; rejected; timed_out; expired].

(* @src packages/db/src/repositories/workflow-evidence.ts:290-320 WorkflowRunStore.transition *)
Definition transition (now : Z) (id : string) (expectedVersion : Z)
    (expectedStatus next : RunStatus) (m : Runs) : outcome RunRow * Runs :=
  if negb (includes (LEGAL expectedStatus) next) then
    (Threw (PlainError ("ILLEGAL_TRANSITION:" +s run_status_name expectedStatus +s "->" +s
                        run_status_name next)), m)
  else
    let conflict :=
      Threw (PlainError ("VERSION_CONFLICT:expected=" +s num_to_string expectedVersion)) in
    match m !! id with
    | Some r =>
        if (rowVersion r =? expectedVersion) && bool_decide (status r = expectedStatus) then
          let r' := bump now next
            (if decide (next = running) then coalesce (startedAt r) now else startedAt r)
            (if includes ended next then Some now else completedAt r) (cancelRequestedAt r) r in
          (Returned r', <[id := r']> m)
        else (conflict, m)
    | None => (conflict, m)
    end.

(* @src packages/db/src/repositories/workflow-evidence.ts:327-353 WorkflowRunStore.claimExecutionLease *)
Definition claimExecutionLease (now : Z) (id owner token : string) (leaseMs : Z) (m : Runs)
  : bool * Runs :=
  match m !! id with
  | Some r =>
      if includes [queued; dispatch_pending; resuming] (status r) then
        (true,
         <[id := {| input := input r; status := running; startedAt := coalesce (startedAt r) now;
                    completedAt := completedAt r; cancelRequestedAt := cancelRequestedAt r;
                    leaseOwner := Some owner; leaseToken := Some token;
                    leaseExpiresAt := Some (now + Z.max 1000 leaseMs);
                    executionGeneration := executionGeneration r + 1; updatedAt := now;
                    rowVersion := rowVersion r + 1 |}]> m)
      else (bool_decide (status r = running), m)
  | None => (false, m)
  end.

(* @src packages/db/src/repositories/workflow-evidence.ts:356-370 WorkflowRunStore.resumeForApproval *)
Definition resumeForApproval (now : Z) (id : string) (m : Runs) : bool * Runs :=
  match m !! id with
  | Some r =>
      if decide (status r = waiting_for_approval) then
        (true, <[id := bump now resuming (startedAt r) (completedAt r) (cancelRequestedAt r) r]> m)
      else (bool_decide (status r = resuming), m)
  | None => (false, m)
  end.

Inductive RunStep (m : Runs) : Runs → Prop :=
  | step_create now i : RunStep m (create now i m).2
  | step_cancel now id v : RunStep m (cancel now id v m).2
  | step_transition now id v s s' : RunStep m (transition now id v s s' m).2
  | step_claim now id owner token lease : RunStep m (claimExecutionLease now id owner token lease m).2
  | step_resume now id : RunStep m (resumeForApproval now id m).2.

(** One step of one run: unchanged, or along the legal table with the next version. *)
Definition run_moves (r r' : RunRow) : Prop :=
  r' = r ∨
  status r' ∈ LEGAL (status r) ∧ rowVersion r' = rowVersion r + 1 ∧ input r' = input r ∧
  executionGeneration r ≤ executionGeneration r'.

Lemma insert_moves (m : Runs) id r r' i x :
  m !! id = Some r → run_moves r r' → m !! i = Some x →
  ∃ x', <[id := r']> m !! i = Some x' ∧ run_moves x x'.
Proof.
  intros Hr Hm Hx. destruct (decide (id = i)) as [->|Hne].
  - rewrite lookup_insert_eq. simplify_eq. eauto.
  - rewrite lookup_insert_ne by done. exists x. split; [done|by left].
Qed.

Lemma run_step_moves m m' id r :
  RunStep m m' → m !! id = Some r → ∃ r', m' !! id = Some r' ∧ run_moves r r'.
Proof.
  intros Hstep Hr. assert (Hsame : ∃ r', m !! id = Some r' ∧ run_moves r r') by (exists r; split; [done|by left]).
  destruct Hstep as [now i|now i v|now i v s s'|now i owner token lease|now i].
  - unfold create. repeat case_match; try done. simpl.
    exists r. rewrite lookup_insert_ne by congruence. split; [done|by left].
  - unfold cancel. destruct (m !! i) as [x|] eqn:Hx; [|done]. case_match eqn:Hc; [|done].
    simpl. eapply insert_moves; [done| |done]. breflect. apply includes_spec in H0.
    right. split_and!; [|done|done|done]. in_cases H0; rewrite H0; set_solver.
  - unfold transition. destruct (includes (LEGAL s) s') eqn:Hl; [|done]. simpl.
    destruct (m !! i) as [x|] eqn:Hx; [|done]. case_match eqn:Hc; [|done]. simpl.
    eapply insert_moves; [done| |done]. js_reflect. subst.
    right. by split_and!.
  - unfold claimExecutionLease. destruct (m !! i) as [x|] eqn:Hx; [|done].
    destruct (includes _ (status x)) eqn:Hc; [|done]. simpl.
    eapply insert_moves; [done| |done]. apply includes_spec in Hc.
    right. split_and!; [|done|done|simpl; lia]. in_cases Hc; rewrite Hc; set_solver.
  - unfold resumeForApproval. destruct (m !! i) as [x|] eqn:Hx; [|done].
    case_decide as Hs; [|done]. simpl. eapply insert_moves; [done| |done].
    right. split_and!; [|done|done|done]. rewrite Hs. set_solver.
Qed.

Definition keys_unique (m : Runs) : Prop :=
  ∀ i j r r' h, m !! i = Some r → m !! j = Some r' →
    idempotencyKeyHash (input r) = Some h → idempotencyKeyHash (input r') = Some h → i = j.

Lemma key_used_false h m id r :
  key_used (Some h) m = false → m !! id = Some r → idempotencyKeyHash (input r) ≠ Some h.
Proof.
  unfold key_used. rewrite existsb_false. intros Hno Hr Hh.
  specialize (Hno (id, r)). rewrite elem_of_map_to_list in Hno. specialize (Hno Hr).
  simpl in Hno. by breflect.
Qed.

Lemma keys_unique_step m m' : RunStep m m' → keys_unique m → keys_unique m'.
Proof.
  intros Hstep Hu i j ri rj h Hi Hj Hhi Hhj.
  assert (Hold : ∀ k rk, m' !! k = Some rk → idempotencyKeyHash (input rk) = Some h →
    (∃ r, m !! k = Some r ∧ idempotencyKeyHash (input r) = Some h) ∨
    (key_used (Some h) m = false ∧ ∃ now x, m' = (create now x m).2 ∧ k = new_id x)).
  { intros k rk Hk Hh. destruct (m !! k) as [r|] eqn:Hr.
    - destruct (run_step_moves _ _ _ _ Hstep Hr) as (r' & Hr' & Hm).
      left. exists r. split; [done|]. destruct Hm as [->|(_ & _ & Hin & _)]; congruence.
    - right. destruct Hstep as [now x|now x v|now x v s s'|now x owner token lease|now x].
      1: { unfold create in *. destruct (key_used (idempotencyKeyHash x) m) eqn:Hk'; simpl in Hk;
             [congruence|]. destruct (m !! new_id x) eqn:Hx; simpl in Hk; [congruence|].
           apply lookup_insert_Some in Hk as [[<- <-]|[_ ?]]; [|congruence].
           simpl in Hh. rewrite Hh in Hk'. split; [done|]. exists now, x. by rewrite Hh, Hk', Hx. }
      all: exfalso; unfold cancel, transition, claimExecutionLease, resumeForApproval in Hk;
        repeat case_match; simpl in Hk;
        try (apply lookup_insert_Some in Hk as [[<- _]|[_ ?]]); congruence. }
  destruct (Hold i ri Hi Hhi) as [(r1 & H1 & Hh1)|(Hno & now & x & Hc & Hix)];
    destruct (Hold j rj Hj Hhj) as [(r2 & H2 & Hh2)|(Hno' & now' & x' & Hc' & Hjx)].
  - by apply (Hu i j r1 r2 h).
  - by destruct (key_used_false _ _ _ _ Hno' H1).
  - by destruct (key_used_false _ _ _ _ Hno H2).
  - assert (Hi' : m !! i = None).
    { destruct (m !! i) as [r|] eqn:Hr; [|done].
      destruct (run_step_moves _ _ _ _ Hstep Hr) as (r' & Hr' & Hm).
      exfalso. apply (key_used_false _ _ _ _ Hno Hr).
      destruct Hm as [->|(_ & _ & Hin & _)]; congruence. }
    assert (Hj' : m !! j = None).
    { destruct (m !! j) as [r|] eqn:Hr; [|done].
      destruct (run_step_moves _ _ _ _ Hstep Hr) as (r' & Hr' & Hm).
      exfalso. apply (key_used_false _ _ _ _ Hno Hr).
      destruct Hm as [->|(_ & _ & Hin & _)]; congruence. }
    subst m'. unfold create in Hi, Hj. repeat case_match; simpl in *; try congruence.
    apply lookup_insert_Some in Hi as [[<- _]|[_ ?]]; [|congruence].
    by apply lookup_insert_Some in Hj as [[<- _]|[_ ?]]; [|congruence].
Qed.

(** A run keeps its inputs, whatever happens to it. *)
Lemma run_steps_keep_input m m' id r :
  rtc RunStep m m' → m !! id = Some r → ∃ r', m' !! id = Some r' ∧ input r' = input r.
Proof.
  intros Hsteps. revert r. induction Hsteps as [m|m m1 m2 Hstep _ IH]; intros r Hr; [by exists r|].
  destruct (run_step_moves _ _ _ _ Hstep Hr) as (r1 & Hr1 & Hm).
  destruct (IH _ Hr1) as (r2 & Hr2 & Hi). exists r2. split; [done|].
  destruct Hm as [->|(_ & _ & Hi1 & _)]; congruence.
Qed.

Lemma run_steps_keys_unique m : rtc RunStep ∅ m → keys_unique m.
Proof.
  apply rtc_ind_r; [|intros; by eapply keys_unique_step].
  intros i j r r' h Hi. by rewrite lookup_empty in Hi.
Qed.

(** The life of a run, over any interleaving of creations, cancellations, transitions, lease
    claims and resumptions: its status only moves along the table of legal transitions, every
    change raises its version, its inputs never change and its execution generation never
    decreases, nothing changes it once it has ended, and two runs never share an idempotency
    key. *)
Theorem run_lifecycle m m' id r
  (H0 : rtc RunStep ∅ m) (Hsteps : rtc RunStep m m') (Hr : m !! id = Some r) :
  keys_unique m' ∧
  ∃ r', m' !! id = Some r' ∧ rtc (λ a b, b ∈ LEGAL a) (status r) (status r') ∧
    rowVersion r ≤ rowVersion r' ∧ (rowVersion r' = rowVersion r → r' = r) ∧
    input r' = input r ∧ executionGeneration r ≤ executionGeneration r' ∧
    (LEGAL (status r) = [] → r' = r).
Proof.
  split.
  - apply run_steps_keys_unique. by etrans.
  - clear H0. revert r Hr. induction Hsteps as [m|m m1 m2 Hstep _ IH]; intros r Hr.
    { exists r. split_and!; try done; lia. }
    destruct (run_step_moves _ _ _ _ Hstep Hr) as (r1 & Hr1 & Hm).
    destruct (IH _ Hr1) as (r2 & Hr2 & Hp & Hv & Heq & Hi & Hg & Hend). exists r2.
    destruct Hm as [->|(Hl & Hv1 & Hi1 & Hg1)]; [done|].
    split_and!; [done|by eapply rtc_l|lia|lia|congruence|lia|].
    intros Hnil. rewrite Hnil in Hl. by apply elem_of_nil in Hl.
Qed.

(** The execution lease is not exclusive: once any worker's claim of a run has succeeded, every
    further claim of that run -- by another owner, with another token, at any time, whether or
    not the first lease has run out -- succeeds as well and changes nothing, until the run
    leaves the running state; the comment promises that a run is claimed once per generation. *)
Theorem lease_not_exclusive now id o t lease m m1 now' o' t' lease'
  (Hfirst : claimExecutionLease now id o t lease m = (true, m1)) :
  claimExecutionLease now' id o' t' lease' m1 = (true, m1).
Proof.
  unfold claimExecutionLease in Hfirst. destruct (m !! id) as [r|] eqn:Hr; [|done].
  destruct (includes _ (status r)) eqn:Hc; injection Hfirst.
  - intros <-. unfold claimExecutionLease. rewrite lookup_insert_eq. done.
  - intros <- Hs. breflect. unfold claimExecutionLease. rewrite Hr, Hc, Hs. done.
Qed.

(** ** Events *)

(* @src packages/db/src/repositories/workflow-evidence.ts:375-389 StoredEvent *)
Record StoredEvent := {
  eventId : string;
  runId : string;
  sequenceNumber : Z;
  eventType : string;
  payloadJson : json;
}.

Definition of_run (run : string) (l : list StoredEvent) : list StoredEvent :=
  List.filter (λ e, runId e =s? run) l.

(** [COALESCE(MAX(sequence_number), -1) + 1] over the run's events. *)
(* @src packages/db/src/repositories/workflow-evidence.ts:412-420 EventStore.append (sequence number) *)
Definition next_sequence (run : string) (l : list StoredEvent) : Z :=
  foldr Z.max (-1) (sequenceNumber <$> of_run run l) + 1.

(** Insertion under the per-run advisory lock; [id] is the generated UUID. *)
(* @src packages/db/src/repositories/workflow-evidence.ts:402-431 EventStore.append *)
Definition append (id run eventType : string) (payload : json) (l : list StoredEvent)
  : StoredEvent * list StoredEvent :=
  let e := {| eventId := id; runId := run; sequenceNumber := next_sequence run l;
              eventType := eventType; payloadJson := payload |} in
  (e, l ++ [e]).

(* @src packages/db/src/repositories/workflow-evidence.ts:433-450 EventStore.readAfter *)
Definition readAfter (run : string) (afterSequence : Z) (limit : nat) (l : list StoredEvent)
  : list StoredEvent :=
  take limit (js_sort (cmp_by sequenceNumber Z.sub)
    (List.filter (λ e, (runId e =s? run) && (afterSequence <? sequenceNumber e)) l)).

Inductive EventStep (l : list StoredEvent) : list StoredEvent → Prop :=
  step_append id run ty p : EventStep l (append id run ty p l).2.

(** Numbers [from], [from + 1], ... *)
Fixpoint numbered (from : Z) (l : list StoredEvent) : Prop :=
  match l with [] => True | e :: l => sequenceNumber e = from ∧ numbered (from + 1) l end.

Lemma numbered_app from l e :
  numbered from l → sequenceNumber e = from + Z.of_nat (length l) → numbered from (l ++ [e]).
Proof.
  revert from. induction l as [|x l IH]; intros from; simpl; [intros _ ?; split; [lia|done]|].
  intros [Hx Hl] He. split; [done|]. apply IH; [done|lia].
Qed.

Lemma max_from_mono (l : list StoredEvent) a b :
  foldr (λ e, Z.max (sequenceNumber e)) (Z.max a b) l =
  Z.max (foldr (λ e, Z.max (sequenceNumber e)) a l) b.
Proof. induction l as [|x l IH]; simpl; [done|]. rewrite IH. lia. Qed.

Lemma numbered_max from l :
  0 ≤ from → numbered from l →
  foldr (λ e, Z.max (sequenceNumber e)) (from - 1) l = from - 1 + Z.of_nat (length l).
Proof.
  revert from. induction l as [|x l IH]; intros from Hf; simpl; [lia|].
  intros [Hx Hl]. specialize (IH (from + 1) ltac:(lia) Hl).
  pose proof (max_from_mono l (from - 1) from) as Hm.
  rewrite Z.max_r in Hm by lia.
  replace (from + 1 - 1) with from in IH by lia. rewrite IH in Hm. lia.
Qed.

Lemma next_sequence_numbered run l :
  numbered 0 (of_run run l) → next_sequence run l = Z.of_nat (length (of_run run l)).
Proof.
  unfold next_sequence. intros Hn. apply (numbered_max 0) in Hn; [|lia].
  assert (Hf : ∀ m, foldr Z.max (-1) (sequenceNumber <$> m) =
    foldr (λ e, Z.max (sequenceNumber e)) (-1) m).
  { induction m as [|x m IH]; [done|]. rewrite fmap_cons. simpl. by rewrite IH. }
  rewrite Hf. change (0 - 1) with (-1) in Hn. unfold of_run in *. rewrite Hn. lia.
Qed.

Lemma events_numbered l run : rtc EventStep [] l → numbered 0 (of_run run l).
Proof.
  revert l. apply (rtc_ind_r (λ l, numbered 0 (of_run run l))); [done|].
  intros l l' _ [id run' ty p] IH. unfold append. cbn [snd]. unfold of_run in *.
  rewrite List.filter_app. simpl. destruct (String.eqb_spec run' run) as [->|]; [|by rewrite app_nil_r].
  apply numbered_app; [done|]. simpl. by apply next_sequence_numbered.
Qed.

Lemma numbered_sorted from l :
  numbered from l → StronglySorted (cmp_le (cmp_by sequenceNumber Z.sub)) l ∧
    Forall (λ e, from ≤ sequenceNumber e) l.
Proof.
  revert from. induction l as [|x l IH]; intros from; simpl; [by repeat constructor|].
  intros [Hx Hl]. destruct (IH _ Hl) as [Hs Hall]. split.
  - constructor; [done|]. eapply Forall_impl; [exact Hall|]. intros e He. simpl in He.
    unfold cmp_le, cmp_by. lia.
  - constructor; [lia|]. eapply Forall_impl; [exact Hall|]. simpl. lia.
Qed.

Lemma numbered_after from a l :
  numbered from l →
  List.filter (λ e, a <? sequenceNumber e) l = drop (Z.to_nat (a + 1 - from)) l.
Proof.
  revert from. induction l as [|x l IH]; intros from; simpl; [by rewrite drop_nil|].
  intros [Hx Hl]. rewrite (IH (from + 1) Hl). destruct (Z.ltb_spec a (sequenceNumber x)).
  - replace (Z.to_nat (a + 1 - from)) with O by lia.
    replace (Z.to_nat (a + 1 - (from + 1))) with O by lia. done.
  - replace (Z.to_nat (a + 1 - from)) with (S (Z.to_nat (a + 1 - (from + 1)))) by lia. done.
Qed.

(** The event log has no gaps: over any interleaving of appends to any runs, the events of a run
    are numbered 0, 1, 2, ... in the order they were appended, nothing is ever lost or
    renumbered, and reading after a sequence number with a limit returns exactly the next
    events of that run, in order, up to the limit. *)
Theorem event_log_gapless l run after limit (Hl : rtc EventStep [] l) :
  numbered 0 (of_run run l) ∧
  (∀ id ty p, of_run run (append id run ty p l).2 = of_run run l ++ [(append id run ty p l).1] ∧
     sequenceNumber (append id run ty p l).1 = Z.of_nat (length (of_run run l))) ∧
  readAfter run after limit l = take limit (drop (Z.to_nat (after + 1)) (of_run run l)).
Proof.
  pose proof (events_numbered l run Hl) as Hn. split_and!; [done| |].
  - intros id ty p. split; [|by apply next_sequence_numbered].
    unfold append, of_run. cbn [fst snd]. rewrite List.filter_app. simpl.
    by rewrite String.eqb_refl.
  - unfold readAfter. f_equal.
    assert (Hf : List.filter (λ e, (runId e =s? run) && (after <? sequenceNumber e)) l =
      List.filter (λ e, after <? sequenceNumber e) (of_run run l)).
    { unfold of_run. clear. induction l as [|x l IH]; simpl; [done|].
      destruct (runId x =s? run); simpl; [|done]. by rewrite IH. }
    rewrite Hf, (numbered_after 0 after _ Hn). replace (after + 1 - 0) with (after + 1) by lia.
    apply js_sort_id.
    destruct (numbered_sorted 0 _ Hn) as [Hs _].
    rewrite <- (take_drop (Z.to_nat (after + 1)) (of_run run l)) in Hs.
    by apply StronglySorted_app_1_r in Hs.
Qed.

(** ** Witnesses *)

Definition sample_input : NewRunInput :=
  {| new_id := "r1"; new_repositoryId := "repo"; workflowType := "wf"; definitionVersion := None;
     triggerType := "manual"; triggerReferenceJson := "{}"; idempotencyKeyHash := Some "h";
     policySnapshotId := None; createdBy := None; originSurface := None |}.

Definition one_run : gmap string RunRow := (create 0 sample_input ∅).2.

Lemma run_lifecycle_witness :
  ∃ r', (claimExecutionLease 5 "r1" "w1" "t1" 1000 one_run).2 !! "r1" = Some r' ∧
    input r' = with_defaults sample_input.
Proof.
  edestruct (run_lifecycle one_run (claimExecutionLease 5 "r1" "w1" "t1" 1000 one_run).2 "r1")
    as [_ (r' & Hr' & _ & _ & _ & Hi & _)].
  - apply rtc_once. apply step_create.
  - apply rtc_once. apply step_claim.
  - by vm_compute.
  - exists r'. split; [exact Hr'|exact Hi].
Defined.

Lemma lease_not_exclusive_witness :
  (claimExecutionLease 6 "r1" "w2" "t2" 1000
    (claimExecutionLease 5 "r1" "w1" "t1" 1000 one_run).2).1 = true.
Proof.
  rewrite (lease_not_exclusive 5 "r1" "w1" "t1" 1000 one_run
    (claimExecutionLease 5 "r1" "w1" "t1" 1000 one_run).2); [reflexivity|].
  unfold one_run. by vm_compute.
Defined.

Lemma event_log_witness :
  readAfter "a" 0 5 (append "e3" "a" "z" JNull (append "e2" "b" "y" JNull
    (append "e1" "a" "x" JNull []).2).2).2 =
  take 5 (drop 1 (of_run "a" (append "e3" "a" "z" JNull (append "e2" "b" "y" JNull
    (append "e1" "a" "x" JNull []).2).2).2)).
Proof.
  apply (event_log_gapless _ "a" 0 5).
  do 3 (eapply rtc_r; [|apply step_append]). apply rtc_refl.
Defined.
