(* ===== verification/CommandBus.v ===== *)
(** * Command bus

    The one path from a command of any surface to a queued run:
    [packages/policy-engine/src/invocation/command-input.ts] (input schemas),
    [packages/workflows/src/commands/command-bus.ts] (checks, normalization, fingerprint) and
    the durable persistence of [apps/api/src/composition/command-bus-adapter.ts] and
    [apps/worker/src/composition/command-bus-persistence.ts], over the run store and the
    outbox. *)

From S2P Require Import Prelude JsString JsDate Effects Json Contracts CanonicalJson Invocation.
From S2P Require RunStore Outbox.

Definition validation_failed : js_error := GuardError "VALIDATION_FAILED".

(** ** Input schemas *)

(** [z.object({...}).strict()]: the members, when the value is an object without others. *)
Definition strict_object (allowed : list string) (v : json) : option (list (string * json)) :=
  match v with
  | JObj l => if forallb (λ kv, str_in kv.1 allowed) l then Some l else None
  | _ => None
  end.

Abbreviation member := assoc.

(** [z.number().int().positive().max(10_000_000)]. *)
Definition ten_million (v : option json) : option json :=
  match v with
  | Some (JNum n) => if (1 <=? n) && (n <=? 10000000) then v else None
  | _ => None
  end.

(** [z.string().min(1).max(n).optional()], as the members of the output. *)
Definition optional_text (k : string) (n : Z) (v : option json) : option (list (string * json)) :=
  match v with
  | None => Some []
  | Some (JStr s) => if len_between 1 n s then Some [(k, JStr s)] else None
  | Some _ => None
  end.

Definition is_text (p : string → bool) (v : json) : bool :=
  match v with JStr s => p s | _ => false end.

Definition text_array (p : string → bool) (a b : Z) (v : json) : bool :=
  match v with
  | JArr l => forallb (is_text p) l && (a <=? Z.of_nat (length l)) && (Z.of_nat (length l) <=? b)
  | _ => false
  end.

Section Schemas.
(** [z.string().uuid()] of zod. *)
Variable zod_uuid : string → bool.

(* @src packages/policy-engine/src/invocation/command-input.ts:8-12 reviewRemediationInputSchema *)
Definition reviewRemediationInputSchema (v : json) : option json :=
  l ← strict_object ["pullRequestNumber"] v;
  n ← ten_million (member "pullRequestNumber" l);
  Some (JObj [("pullRequestNumber", n)]).

(* @src packages/policy-engine/src/invocation/command-input.ts:14-19 diagnoseFailureInputSchema *)
Definition diagnoseFailureInputSchema (v : json) : option json :=
  l ← strict_object ["pullRequestNumber"; "checkRunId"] v;
  n ← ten_million (member "pullRequestNumber" l);
  c ← optional_text "checkRunId" 128 (member "checkRunId" l);
  Some (JObj (("pullRequestNumber", n) :: c)).

(* @src packages/policy-engine/src/invocation/command-input.ts:21-25 implementIssueInputSchema *)
Definition implementIssueInputSchema (v : json) : option json :=
  l ← strict_object ["issueNumber"] v;
  n ← ten_million (member "issueNumber" l);
  Some (JObj [("issueNumber", n)]).

(* @src packages/policy-engine/src/invocation/command-input.ts:27-32 securityAuditInputSchema *)
Definition securityAuditInputSchema (v : json) : option json :=
  l ← strict_object ["ref"; "scopes"] v;
  r ← optional_text "ref" 256 (member "ref" l);
  s ← match member "scopes" l with
      | None => Some []
      | Some a => if text_array (len_between 1 64) 0 16 a then Some [("scopes", a)] else None
      end;
  Some (JObj (r ++ s)).

(* @src packages/policy-engine/src/invocation/command-input.ts:34-38 securityPatchInputSchema *)
Definition securityPatchInputSchema (v : json) : option json :=
  l ← strict_object ["findingIds"] v;
  match member "findingIds" l with
  | Some a => if text_array zod_uuid 1 50 a then Some (JObj [("findingIds", a)]) else None
  | None => None
  end.

(* @src packages/policy-engine/src/invocation/command-input.ts:40-40 EMPTY_OBJECT_SCHEMA *)
Definition EMPTY_OBJECT_SCHEMA (v : json) : option json :=
  l ← strict_object [] v; Some (JObj l).

Definition parse_or_fail (o : option json) : outcome json :=
  match o with Some v => Returned v | None => Threw validation_failed end.

(** The input is present: the bus calls it only then. *)
(* @src packages/policy-engine/src/invocation/command-input.ts:42-73 validateManualCommandInput *)
Definition validateManualCommandInput (w : WorkflowIdV1) (input : json) : outcome json :=
  let or_empty := match input with JNull => JObj [] | v => v end in
  parse_or_fail
    match w with
    | review_remediation => reviewRemediationInputSchema input
    | diagnose_failure => diagnoseFailureInputSchema input
    | implement_issue => implementIssueInputSchema input
    | security_audit => securityAuditInputSchema or_empty
    | security_patch => securityPatchInputSchema input
    | dependency_upgrade | repository_health_check | manual_refactor => EMPTY_OBJECT_SCHEMA or_empty
    end.

(** ** The bus *)

(* @src packages/workflows/src/commands/command-bus.ts:33-39 COMMAND_BUS_MVP_IDS *)
Definition COMMAND_BUS_MVP_IDS : list WorkflowIdV1 :=
  [implement_issue; diagnose_failure; security_audit; security_patch; review_remediation].

(* @src packages/workflows/src/commands/command-bus.ts:41-41 OriginSurfaceV1 *)
Inductive OriginSurfaceV1 := web | cli | github_comment | github_event | schedule.

Definition surface_name (s : OriginSurfaceV1) : string :=
  match s with
  | web => "web" | cli => "cli" | github_comment => "github_comment"
  | github_event => "github_event" | schedule => "schedule"
  end.

(* @src packages/workflows/src/commands/command-bus.ts:62-69 SubmitCommandShape *)
Record SubmitCommandShape := {
  commandId : string;
  definitionVersion : option string;
  command_input : option json;
}.

(* @src packages/workflows/src/commands/command-bus.ts:73-96 CreateQueuedRunInput *)
Record CreateQueuedRunInput := {
  run_id : string;
  run_repositoryId : string;
  workflowType : WorkflowIdV1;
  triggerType : string;
  idempotencyKeyHash : string;
  run_originSurface : OriginSurfaceV1;
  eventPayload : json;
  requestFingerprint : string;
  run_definitionVersion : option string;
  run_createdBy : option string;
}.

Inductive CreateOutcome := Created (runId : string) | Replayed (runId : string).

(* @src packages/workflows/src/commands/command-bus.ts:114-120 SubmitResult *)
Record SubmitResult := {
  runId : string;
  replayed : bool;
  result_commandId : WorkflowIdV1;
  result_originSurface : OriginSurfaceV1;
  createdAt : string;
}.

(* @src packages/workflows/src/commands/command-bus.ts:169-178 CommandBus.submit *)
Record SubmitInput := {
  command : SubmitCommandShape;
  repositoryId : string;
  originSurface : OriginSurfaceV1;
  idempotencyKey : string;
  createdBy : option string;
  trustedSurface : option bool;
}.

(* @src packages/workflows/src/commands/command-bus.ts:139-146 listAvailableCommands *)
Definition listAvailableCommands : list (WorkflowIdV1 * string) :=
  map (λ d, (cmd_workflowId d, inputSchemaId d))
    (List.filter (λ d, includes COMMAND_BUS_MVP_IDS (cmd_workflowId d)) MANUAL_COMMANDS_V1).

(** [/^\d+\.\d+\.\d+(?:-[0-9A-Za-z.-]+)?(?:\+[0-9A-Za-z.-]+)?$/]: the build part follows the first
    plus sign, the prerelease part the first hyphen before it. *)
(* @src packages/workflows/src/commands/command-bus.ts:264-264 normalizeDefinitionVersion *)
Definition semver (s : string) : bool :=
  let label t := match t with
                 | EmptyString => true
                 | String _ t => nonempty t && all_chars (λ c, is_alnum c || char_in ".-" c) t
                 end in
  let '(front, build) := span_chars (λ c, negb (Ascii.eqb c "+")) s in
  let '(core, pre) := span_chars (λ c, negb (Ascii.eqb c "-")) front in
  three_numbers core && label pre && label build.

(** [/^\d+\.\d+$/]. *)
Definition two_numbers (s : string) : bool :=
  match split_char "." s with [a; b] => digits a && digits b | _ => false end.

(* @src packages/workflows/src/commands/command-bus.ts:253-268 normalizeDefinitionVersion *)
Definition normalizeDefinitionVersion (raw : option string) : outcome (option string) :=
  match raw with
  | None => Returned None
  | Some raw =>
      let value := trim raw in
      if negb (nonempty value) || (64 <? str_length value) then Threw validation_failed
      else
        let canonical := if digits value then value +s ".0.0"
                         else if two_numbers value then value +s ".0" else value in
        if negb (semver canonical) then Threw validation_failed else Returned (Some canonical)
  end.

(* @src packages/workflows/src/commands/command-bus.ts:271-273 isPlainJsonObject *)
Definition isPlainJsonObject (v : json) : bool := match v with JObj _ => true | _ => false end.

(** The same function as the canonical serializer of the idempotency records. *)
(* @src packages/workflows/src/commands/command-bus.ts:276-286 stableStringify *)
Definition stableStringify : json → string := canonicalJsonStringify.

Definition opt_member (k : string) (v : option json) : list (string * json) :=
  match v with Some v => [(k, v)] | None => [] end.

(** What a request is, for an exact replay. *)
(* @src packages/workflows/src/commands/command-bus.ts:214-220 CommandBus.submit *)
Definition request_json (w : WorkflowIdV1) (repository : string) (surface : OriginSurfaceV1)
    (version : option string) (input : option json) : json :=
  JObj ([("commandId", JStr (workflow_name w)); ("repositoryId", JStr repository);
         ("originSurface", JStr (surface_name surface))]
        ++ opt_member "definitionVersion" (JStr <$> version) ++ opt_member "input" input).

(** The checks before anything is done: the workflow, the normalized version and input. *)
(* @src packages/workflows/src/commands/command-bus.ts:179-207 CommandBus.submit *)
Definition checked (i : SubmitInput) : outcome (WorkflowIdV1 * option string * option json) :=
  let? target := normalizeCommandId (commandId (command i)) in
  match target with
  | Inherited _ => Threw (GuardError "COMMAND_NO_LONGER_ALLOWED")
  | Workflow w =>
      if negb (includes COMMAND_BUS_MVP_IDS w) then Threw (GuardError "COMMAND_NO_LONGER_ALLOWED")
      else if negb (bool_decide (trustedSurface i = Some true)) &&
              match originSurface i with web | cli => false | _ => true end then
        Threw (GuardError "ORIGIN_FORGED")
      else match originSurface i with
      | schedule => Threw validation_failed
      | surface =>
          if str_length (trim (idempotencyKey i)) <? 16 then Threw validation_failed
          else if match command_input (command i) with
                  | Some v => negb (isPlainJsonObject v) | None => false end then
            Threw validation_failed
          else
            let? input :=
              match command_input (command i), surface with
              | Some v, (web | cli) =>
                  obind (validateManualCommandInput w v) (λ v, Returned (Some v))
              | v, _ => Returned v
              end in
            let? version := normalizeDefinitionVersion (definitionVersion (command i)) in
            Returned (w, version, input)
      end
  end.

Definition trigger_type (s : OriginSurfaceV1) : string :=
  match s with github_comment | github_event => "webhook" | _ => "manual" end.

Section Bus.
Context `{Digest}.

(* @src packages/workflows/src/commands/command-bus.ts:134-136 idempotencyKeyHashOf *)
Definition idempotencyKeyHashOf (key : string) : string :=
  sha256 ("devguard.command.idempotency.v1:" +s key).

Inductive BusCall :=
  | bus_now
  | newRunId
  | createQueuedRun_ (i : CreateQueuedRunInput).

Definition BusAns (c : BusCall) : Type :=
  match c with bus_now => Z | newRunId => string | createQueuedRun_ _ => CreateOutcome end.

Definition queued_run (i : SubmitInput) (w : WorkflowIdV1) (version : option string)
    (input : option json) (id : string) : CreateQueuedRunInput :=
  {| run_id := id; run_repositoryId := repositoryId i; workflowType := w;
     triggerType := trigger_type (originSurface i);
     idempotencyKeyHash := idempotencyKeyHashOf (idempotencyKey i);
     run_originSurface := originSurface i;
     eventPayload := JObj ([("repositoryId", JStr (repositoryId i));
                            ("trigger", JStr (trigger_type (originSurface i)))]
                           ++ opt_member "requestedBy" (JStr <$> createdBy i));
     requestFingerprint :=
       stableStringify (request_json w (repositoryId i) (originSurface i) version input);
     run_definitionVersion := version; run_createdBy := createdBy i |}.

(* @src packages/workflows/src/commands/command-bus.ts:169-249 CommandBus.submit *)
Definition submit (i : SubmitInput) : proc BusAns SubmitResult :=
  match checked i with
  | Threw e => throw e
  | Returned (w, version, input) =>
      now <~ call bus_now ;;
      match toISOString now with
      | Threw e => throw e
      | Returned at_ =>
          id <~ call newRunId ;;
          persisted <~ call (createQueuedRun_ (queued_run i w version input id)) ;;
          let result run again :=
            {| runId := run; replayed := again; result_commandId := w;
               result_originSurface := originSurface i; createdAt := at_ |} in
          match persisted with
          | Created run => pret (result run false)
          | Replayed run => pret (result run true)
          end
      end
  end.

(** ** Durable persistence *)

(** The worker's copy leaves the origin surface column to its default. *)
Inductive adapter := Api | Worker.

Context `{JsonParse}.

(* @src apps/api/src/composition/command-bus-adapter.ts:22-29 storedFingerprintOf *)
Definition storedFingerprintOf (triggerReferenceJson : string) : option string :=
  match json_parse triggerReferenceJson with
  | Some (JObj l) =>
      match member "requestFingerprint" l with Some (JStr s) => Some s | _ => None end
  | _ => None
  end.

Definition trigger_reference (i : CreateQueuedRunInput) : json :=
  JObj ([("originSurface", JStr (surface_name (run_originSurface i)));
         ("commandId", JStr (workflow_name (workflowType i)));
         ("requestFingerprint", JStr (requestFingerprint i))]
        ++ opt_member "definitionVersion" (JStr <$> run_definitionVersion i)).

(* @src apps/api/src/composition/command-bus-adapter.ts:44-67 PostgresCommandBusPersistencePort.createQueuedRun *)
Definition new_run (a : adapter) (i : CreateQueuedRunInput) : RunStore.NewRunInput :=
  {| RunStore.new_id := run_id i; RunStore.new_repositoryId := run_repositoryId i;
     RunStore.workflowType := workflow_name (workflowType i);
     RunStore.definitionVersion := run_definitionVersion i;
     RunStore.triggerType := triggerType i;
     RunStore.triggerReferenceJson := stringify (trigger_reference i);
     RunStore.idempotencyKeyHash := Some (idempotencyKeyHash i);
     RunStore.policySnapshotId := None; RunStore.createdBy := run_createdBy i;
     RunStore.originSurface :=
       match a with Api => Some (surface_name (run_originSurface i)) | Worker => None end |}.

(* @src apps/api/src/composition/command-bus-adapter.ts:89-108 PostgresCommandBusPersistencePort.createQueuedRun *)
Definition queued_event (i : CreateQueuedRunInput) (run : string) : Outbox.OutboxEventLike :=
  {| Outbox.eventType := "workflow.queued"; Outbox.schemaVersion := 1;
     Outbox.payload := eventPayload i;
     Outbox.correlation :=
       JObj ([("runId", JStr run); ("repositoryId", JStr (run_repositoryId i));
              ("commandId", JStr (workflow_name (workflowType i)));
              ("originSurface", JStr (surface_name (run_originSurface i)))]
             ++ opt_member "definitionVersion" (JStr <$> run_definitionVersion i));
     Outbox.aggregateType := Some "workflow_run"; Outbox.aggregateId := Some run;
     Outbox.aggregateVersion := None |}.

(* @src packages/db/src/repositories/workflow-evidence.ts:173-188 WorkflowRunStore.findByIdempotencyKeyHash *)
Definition findByIdempotencyKeyHash (h : string) (m : gmap string RunStore.RunRow)
  : option (string * string) :=
  (λ p : string * RunStore.RunRow, (p.1, RunStore.triggerReferenceJson (RunStore.input p.2))) <$>
    List.find (λ p, bool_decide (RunStore.idempotencyKeyHash (RunStore.input p.2) = Some h))
      (map_to_list m).

Definition db : Type := gmap string RunStore.RunRow * gmap string Outbox.OutboxRow.

(** One transaction: an exception rolls both tables back.  [now] is the database clock and
    [event_id] the UUID of the event. *)
(* @src apps/api/src/composition/command-bus-adapter.ts:34-111 PostgresCommandBusPersistencePort.createQueuedRun *)
Definition createQueuedRun (a : adapter) (now : Z) (event_id : string) (i : CreateQueuedRunInput)
    (s : db) : outcome CreateOutcome * db :=
  match RunStore.create now (new_run a i) s.1 with
  | (Threw e, _) =>
      if match e with PlainError m => startsWith m "IDEMPOTENCY_REPLAY" | _ => false end then
        match findByIdempotencyKeyHash (idempotencyKeyHash i) s.1 with
        | Some (id, reference) =>
            if bool_decide (storedFingerprintOf reference = Some (requestFingerprint i)) then
              (Returned (Replayed id), s)
            else (Threw (GuardError "IDEMPOTENCY_KEY_CONFLICT"), s)
        | None => (Threw e, s)
        end
      else (Threw e, s)
  | (Returned r, runs) =>
      let id := RunStore.new_id (RunStore.input r) in
      match Outbox.append now event_id (queued_event i id) s.2 with
      | (Threw e, _) => (Threw e, s)
      | (Returned _, events) => (Returned (Created id), (runs, events))
      end
  end.

(** The ports of the bus over the database: the clock, the UUIDs of runs and events. *)
Record Machine := { tables : db; wall_clock : Z; fresh_run : string; fresh_event : string }.

Definition bus_port (a : adapter) (c : BusCall) (w : Machine) : outcome (BusAns c) * Machine :=
  match c return outcome (BusAns c) * Machine with
  | bus_now => (Returned (wall_clock w), w)
  | newRunId => (Returned (fresh_run w), w)
  | createQueuedRun_ i =>
      let '(o, s) := createQueuedRun a (wall_clock w) (fresh_event w) i (tables w) in
      (o, {| tables := s; wall_clock := wall_clock w; fresh_run := fresh_run w;
             fresh_event := fresh_event w |})
  end.

(** A submission from start to end: its result and the tables after it. *)
Definition submission (a : adapter) (i : SubmitInput) (w : Machine) : outcome SubmitResult * db :=
  let '(o, _, w) := exec (bus_port a) (submit i) w in (o, tables w).
End Bus.
End Schemas.

(** ** Facts *)

Section Facts.
Context (zod_uuid : string → bool) `{Digest} `{JsonParse}.

Lemma create_used now i m :
  RunStore.key_used (RunStore.idempotencyKeyHash i) m = true →
  RunStore.create now i m =
    (Threw (PlainError "IDEMPOTENCY_REPLAY:run already exists for this key"), m).
Proof. intros Hk. unfold RunStore.create. by rewrite Hk. Qed.

Lemma find_key h id r m :
  RunStore.keys_unique m → m !! id = Some r →
  RunStore.idempotencyKeyHash (RunStore.input r) = Some h →
  RunStore.key_used (Some h) m = true ∧
  findByIdempotencyKeyHash h m = Some (id, RunStore.triggerReferenceJson (RunStore.input r)).
Proof.
  intros Hu Hr Hh. split.
  - destruct (RunStore.key_used (Some h) m) eqn:E; [done|].
    by destruct (RunStore.key_used_false _ _ _ _ E Hr).
  - unfold findByIdempotencyKeyHash. destruct (List.find _ _) as [[i x]|] eqn:Hf.
    + apply find_some_elem in Hf as [Hin Hx]. apply elem_of_map_to_list in Hin. simpl in Hx.
      breflect. assert (i = id) as -> by (by eapply Hu). by simplify_eq/=.
    + eapply find_none_elem in Hf; [|by apply elem_of_map_to_list]. simpl in Hf. by breflect.
Qed.

Lemma trigger_reference_distinct i : distinct_keys (trigger_reference i).
Proof.
  unfold trigger_reference. apply dk_obj.
  - destruct (run_definitionVersion i); apply (bool_decide_unpack _); by vm_compute.
  - destruct (run_definitionVersion i); repeat constructor.
Qed.

Lemma stored_fingerprint i :
  storedFingerprintOf (stringify (trigger_reference i)) = Some (requestFingerprint i).
Proof.
  unfold storedFingerprintOf. by rewrite json_parse_stringify by apply trigger_reference_distinct.
Qed.

(** The tables after a submission that started a run. *)
Definition started_by (a : adapter) (i : CreateQueuedRunInput) (now : Z) (event_id : string)
    (s s' : db) : Prop :=
  s.1 !! run_id i = None ∧
  (∃ row, s'.1 = <[run_id i := row]> s.1 ∧ RunStore.status row = RunStore.queued ∧
     RunStore.input row = RunStore.with_defaults (new_run a i)) ∧
  s.2 !! event_id = None ∧
  ∃ ev, s'.2 = <[event_id := ev]> s.2 ∧ Outbox.event ev = queued_event i (run_id i) ∧
    Outbox.status ev = Outbox.pending.

Lemma createQueuedRun_created a now event_id i s run s' :
  createQueuedRun a now event_id i s = (Returned (Created run), s') →
  run = run_id i ∧ started_by a i now event_id s s' ∧ RunStore.RunStep s.1 s'.1.
Proof.
  unfold createQueuedRun. pose proof (RunStore.step_create s.1 now (new_run a i)) as Hstep.
  unfold RunStore.create in *. destruct (RunStore.key_used _ _).
  { simpl. intros. repeat case_match; simplify_eq. }
  destruct (s.1 !! RunStore.new_id (new_run a i)) eqn:Hi; [done|]. simpl in *.
  unfold Outbox.append. destruct (negb (Outbox.event_valid _)); [done|].
  destruct (s.2 !! event_id) eqn:He; [done|]. intros [= <- <-].
  split; [done|]. split; [|exact Hstep]. split; [done|]. split; [by eexists|]. split; [done|]. by eexists.
Qed.

Lemma createQueuedRun_again a now event_id i s id r i1 a1 :
  RunStore.keys_unique s.1 → s.1 !! id = Some r →
  RunStore.input r = RunStore.with_defaults (new_run a1 i1) →
  idempotencyKeyHash i = idempotencyKeyHash i1 →
  createQueuedRun a now event_id i s =
    (if bool_decide (requestFingerprint i1 = requestFingerprint i) then Returned (Replayed id)
     else Threw (GuardError "IDEMPOTENCY_KEY_CONFLICT"), s).
Proof.
  intros Hu Hr Hin Hk. destruct (find_key (idempotencyKeyHash i) id r s.1) as [Hused Hfind];
    [done|done|by rewrite Hin; simpl; rewrite Hk|].
  unfold createQueuedRun. rewrite create_used by done. cbn -[storedFingerprintOf trigger_reference stringify].
  rewrite Hfind, Hin. cbn -[storedFingerprintOf trigger_reference stringify].
  rewrite stored_fingerprint.
  rewrite (bool_decide_ext _ (requestFingerprint i1 = requestFingerprint i)) by (split; congruence).
  by case_bool_decide.
Qed.

Lemma submission_checked a i w :
  submission zod_uuid a i w =
    match checked zod_uuid i with
    | Threw e => (Threw e, tables w)
    | Returned (wf, version, input) =>
        match toISOString (wall_clock w) with
        | Threw e => (Threw e, tables w)
        | Returned at_ =>
            let '(o, s) := createQueuedRun a (wall_clock w) (fresh_event w)
                             (queued_run i wf version input (fresh_run w)) (tables w) in
            (obind o (λ c, Returned
               match c with
               | Created run =>
                   {| runId := run; replayed := false; result_commandId := wf;
                      result_originSurface := originSurface i; createdAt := at_ |}
               | Replayed run =>
                   {| runId := run; replayed := true; result_commandId := wf;
                      result_originSurface := originSurface i; createdAt := at_ |}
               end), s)
        end
    end.
Proof.
  unfold submission, submit. destruct (checked zod_uuid i) as [[[wf v] x]|e]; [|done].
  cbn [exec call pbind bus_port]. destruct (toISOString (wall_clock w)) as [t|e]; [|done].
  cbn [exec call pbind bus_port tables wall_clock fresh_run fresh_event].
  destruct (createQueuedRun _ _ _ _ _) as [[[run|run]|e] s]; done.
Qed.

(** What a checked submission asks for. *)
Definition request_of (i : SubmitInput) : option json :=
  match checked zod_uuid i with
  | Returned (w, version, input) =>
      Some (request_json w (repositoryId i) (originSurface i) version input)
  | Threw _ => None
  end.
End Facts.

(** One run per idempotency key, through either adapter: a submission that starts a run adds,
    in one transaction, exactly that run, queued, and one pending workflow.queued event about
    it.  After any further life of the runs, a submission under the same key -- from any surface
    or user -- that passes the checks starts nothing and changes nothing: if it asks for the
    same command, repository, surface, version and input, up to the order of object members, it
    is answered with the run of the first; otherwise it is rejected as a key conflict.  What
    fails a check changes nothing either. *)
Theorem one_run_per_key zod_uuid `{Digest} `{JsonParse} a1 i1 w1 r1 s1 q1 a2 i2 w2 at2
  (Hreach : rtc RunStore.RunStep ∅ (tables w1).1)
  (Hfirst : submission zod_uuid a1 i1 w1 = (Returned r1, s1)) (Hnew : replayed r1 = false)
  (Hq1 : request_of zod_uuid i1 = Some q1) (Hd1 : distinct_keys q1)
  (Hlater : rtc RunStore.RunStep s1.1 (tables w2).1)
  (Hkey : idempotencyKey i2 = idempotencyKey i1) (Hclock : toISOString (wall_clock w2) = Returned at2) :
  (∃ wf v x, started_by a1 (queued_run i1 wf v x (runId r1)) (wall_clock w1) (fresh_event w1)
               (tables w1) s1) ∧
  (submission zod_uuid a2 i2 w2).2 = tables w2 ∧
  match request_of zod_uuid i2 with
  | None => ∃ e, (submission zod_uuid a2 i2 w2).1 = Threw e ∧ checked zod_uuid i2 = Threw e
  | Some q2 =>
      (same_json q1 q2 →
         ∃ r2, (submission zod_uuid a2 i2 w2).1 = Returned r2 ∧ runId r2 = runId r1 ∧
               replayed r2 = true) ∧
      (¬ same_json q1 q2 →
         (submission zod_uuid a2 i2 w2).1 = Threw (GuardError "IDEMPOTENCY_KEY_CONFLICT"))
  end.
Proof.
  unfold request_of in *. rewrite submission_checked in *.
  destruct (checked zod_uuid i1) as [[[wf1 v1] x1]|e1]; [|done]. injection Hq1 as <-.
  destruct (toISOString (wall_clock w1)) as [t1|]; [|done].
  destruct (createQueuedRun _ _ _ _ (tables w1)) as [[[run|run]|e] s] eqn:Hc; simplify_eq/=.
  apply createQueuedRun_created in Hc as (-> & Hstart & Hstep). split; [by exists wf1, v1, x1|].
  destruct Hstart as (Hfree & (row & Hrow & _ & Hin) & _).
  assert (Hr1 : s1.1 !! fresh_run w1 = Some row) by (rewrite Hrow; apply lookup_insert_eq).
  destruct (RunStore.run_steps_keep_input _ _ _ _ Hlater Hr1) as (row2 & Hr2 & Hin2).
  assert (Hu : RunStore.keys_unique (tables w2).1).
  { apply RunStore.run_steps_keys_unique. etrans; [|exact Hlater]. by eapply rtc_r. }
  destruct (checked zod_uuid i2) as [[[wf2 v2] x2]|e2]; [|by split; [|exists e2]].
  rewrite Hclock.
  rewrite (createQueuedRun_again a2 _ _ (queued_run i2 wf2 v2 x2 (fresh_run w2)) (tables w2)
    (fresh_run w1) row2 (queued_run i1 wf1 v1 x1 (fresh_run w1)) a1); [|done|done|congruence|].
  2: { simpl. by rewrite Hkey. }
  cbn [requestFingerprint queued_run]. unfold stableStringify.
  split; [by case_bool_decide|].
  pose proof (canonical_text_iff _ (request_json wf2 (repositoryId i2) (originSurface i2) v2 x2) Hd1) as Hiff.
  split; intros Hs.
  - rewrite bool_decide_eq_true_2 by (by apply Hiff). by eexists.
  - rewrite bool_decide_eq_false_2 by (by rewrite Hiff). done.
Qed.

(** ** Witness: one comment delivered to the API and replayed to the worker *)

#[local] Instance sample_parse : JsonParse :=
  {| json_parse := any_inverse; json_parse_stringify v _ := any_inverse_stringify v |}.
#[local] Instance sample_digest : Digest := λ s, s.

Definition sample_submit (surface : OriginSurfaceV1) (version : string) : SubmitInput :=
  {| command := {| commandId := "implement"; definitionVersion := Some version;
                   command_input := Some (JObj [("issueNumber", JNum 7)]) |};
     repositoryId := "repo"; originSurface := surface; idempotencyKey := "0123456789abcdef";
     createdBy := Some "alice"; trustedSurface := Some true |}.

Definition sample_machine (s : db) : Machine :=
  {| tables := s; wall_clock := 0; fresh_run := "run-1"; fresh_event := "event-1" |}.

Definition first_submission : outcome SubmitResult * db :=
  submission (λ _, true) Api (sample_submit github_comment "1.0.0") (sample_machine (∅, ∅)).

Definition first_result : SubmitResult :=
  {| runId := "run-1"; replayed := false; result_commandId := implement_issue;
     result_originSurface := github_comment; createdAt := "1970-01-01T00:00:00.000Z" |}.

Definition first_request : json :=
  request_json implement_issue "repo" github_comment (Some "1.0.0")
    (Some (JObj [("issueNumber", JNum 7)])).

Lemma one_run_per_key_witness :
  first_submission = (Returned first_result, first_submission.2) ∧
  ∃ r2,
    (submission (λ _, true) Worker (sample_submit github_comment "1")
       {| tables := first_submission.2; wall_clock := 1000; fresh_run := "run-2";
          fresh_event := "event-2" |}).1 = Returned r2 ∧
    runId r2 = "run-1" ∧ replayed r2 = true.
Proof.
  assert (Hfirst : first_submission = (Returned first_result, first_submission.2)).
  { rewrite (surjective_pairing first_submission) at 1. by f_equal. }
  assert (Hd : distinct_keys first_request).
  { repeat constructor; apply (bool_decide_unpack _); by vm_compute. }
  split; [done|].
  destruct (one_run_per_key (λ _, true) Api (sample_submit github_comment "1.0.0")
    (sample_machine (∅, ∅)) first_result first_submission.2 first_request
    Worker (sample_submit github_comment "1")
    {| tables := first_submission.2; wall_clock := 1000; fresh_run := "run-2";
       fresh_event := "event-2" |} "1970-01-01T00:00:01.000Z"
    (rtc_refl _ _) Hfirst eq_refl (ltac:(by vm_compute)) Hd (rtc_refl _ _) eq_refl
    (ltac:(by vm_compute))) as (_ & _ & Hsecond).
  assert (Hq : request_of (λ _, true) (sample_submit github_comment "1") = Some first_request)
    by (by vm_compute).
  rewrite Hq in Hsecond. apply Hsecond. by apply canonical_text_iff.
Defined.
