(* ===== verification/Comments.v ===== *)
(** * Commands in comments

    [packages/workflows/src/commands/]: the webhook payload of a comment
    ([issue-comment-event.ts]), the parser of the commands in its first line
    ([github-comment-parser.ts]), and the service that checks the repository and the author and
    submits the command ([comment-command-service.ts]).  Numbers written in a comment are read
    as integers. *)

From S2P Require Import Prelude JsString Effects Json Invocation CommandBus.

(** ** The webhook payload *)

(* @src packages/workflows/src/commands/issue-comment-event.ts:5-23 IssueCommentWebhookEvent *)
Record IssueCommentWebhookEvent := {
  comment_id : Z;
  comment_body : string;
  user_id : Z;
  user_login : string;
  issue_number : Z;
  pull_request : option json;
  repository_id : Z;
  repository_owner : string;
  repository_name : string;
  repository_full_name : option string;
  installation_id : option Z;
}.

(** [typeof v === 'object' && v !== null], with the members; an array has none of the names. *)
Definition members (v : option json) : option (list (string * json)) :=
  match v with Some (JObj l) => Some l | Some (JArr _) => Some [] | _ => None end.

Definition number_member (k : string) (l : list (string * json)) : option Z :=
  match member k l with Some (JNum n) => Some n | _ => None end.
Definition text_member (k : string) (l : list (string * json)) : option string :=
  match member k l with Some (JStr s) => Some s | _ => None end.

(* @src packages/workflows/src/commands/issue-comment-event.ts:25-75 parseIssueCommentWebhook *)
Definition parseIssueCommentWebhook (payload : json) : option IssueCommentWebhookEvent :=
  record ← members (Some payload);
  action ← text_member "action" record;
  if negb (action =s? "created") then None
  else
    c ← members (member "comment" record);
    i ← members (member "issue" record);
    r ← members (member "repository" record);
    u ← members (member "user" c);
    cid ← number_member "id" c;
    body ← text_member "body" c;
    uid ← number_member "id" u;
    login ← text_member "login" u;
    number ← number_member "number" i;
    o ← members (member "owner" r);
    rid ← number_member "id" r;
    name ← text_member "name" r;
    owner ← text_member "login" o;
    Some {| comment_id := cid; comment_body := body; user_id := uid; user_login := login;
            issue_number := number;
            pull_request :=
              match member "pull_request" i with
              | Some (JObj _ | JArr _) as v => v
              | _ => None
              end;
            repository_id := rid; repository_owner := owner; repository_name := name;
            repository_full_name := text_member "full_name" r;
            installation_id :=
              inst ← members (member "installation" record); number_member "id" inst |}.

(* @src packages/workflows/src/commands/issue-comment-event.ts:77-79 issueCommentIsOnPullRequest *)
Definition issueCommentIsOnPullRequest (e : IssueCommentWebhookEvent) : bool :=
  bool_decide (is_Some (pull_request e)).

(** ** The parser *)

Inductive MetaVerb := help | status_verb.

(* @src packages/workflows/src/commands/github-comment-parser.ts:9-23 ParsedGitHubComment *)
Inductive ParsedGitHubComment :=
  | Ignored
  | Meta (verb : MetaVerb)
  | Command (verb : string) (commandId : alias_target) (input : list (string * json)) (notes : string)
  | Denied (code detail : string).

Definition newline : ascii := ascii_of_N 10.
Definition carriage_return : ascii := ascii_of_N 13.

(** [body.replace(/\r\n/g, '\n')]. *)
Fixpoint lf_only (s : string) : string :=
  match s with
  | EmptyString => EmptyString
  | String c s' =>
      match s' with
      | String d _ =>
          if Ascii.eqb c carriage_return && Ascii.eqb d newline then lf_only s' else String c (lf_only s')
      | EmptyString => s
      end
  end.

Definition body_lines (body : string) : list string := split_char newline (lf_only body).

Definition blank (line : string) : bool := negb (nonempty (trim line)).

(** The first line that is not blank, and the lines after it. *)
Fixpoint first_line (lines : list string) : option (string * list string) :=
  match lines with
  | [] => None
  | l :: lines => if blank l then first_line lines else Some (l, lines)
  end.

Definition is_word (c : ascii) : bool := is_alnum c || Ascii.eqb c "_".

Fixpoint last_char (d : ascii) (s : string) : ascii :=
  match s with EmptyString => d | String c s => last_char c s end.

(** The rest after [new RegExp(`^[@/]${login}\b`, 'i')], when it matches; [login] is in lower
    case.  A word boundary lies between a word character and one that is not. *)
(* @src packages/workflows/src/commands/github-comment-parser.ts:51-54 parseDevguardComment *)
Definition after_mention (login trimmed : string) : option string :=
  match trimmed with
  | String at_ rest =>
      let n := String.length login in
      let following := slice_from n rest in
      let before_word := is_word (last_char at_ login) in
      let after_word := match following with String c _ => is_word c | EmptyString => false end in
      if char_in "@/" at_ && (toLowerCase (slice_to n rest) =s? login) && xorb before_word after_word
      then Some (trim following) else None
  | EmptyString => None
  end.

(** The maximal runs of characters that are not blank: [/(\S+=\S+|\S+)/g]. *)
Fixpoint words_acc (acc : string) (s : string) : list string :=
  let flush := if nonempty acc then [str_rev acc] else [] in
  match s with
  | EmptyString => flush
  | String c s => if is_space c then flush ++ words_acc "" s else words_acc (String c acc) s
  end.

(* @src packages/workflows/src/commands/github-comment-parser.ts:91-99 tokenize *)
Definition tokenize (text : string) : list string := words_acc "" text.

Definition digit_value (c : ascii) : Z := code_of c - 48.

Fixpoint read_digits (acc : Z) (s : string) : Z :=
  match s with EmptyString => acc | String c s => read_digits (10 * acc + digit_value c) s end.

(** [Number(s)] of a text of digits. *)
Definition Number (s : string) : Z := read_digits 0 s.

(** [/^\d+$/.test(s)], with the number. *)
Definition number_text (s : string) : option Z := if digits s then Some (Number s) else None.

Fixpoint cut_at (c : ascii) (s : string) : option (string * string) :=
  match s with
  | EmptyString => None
  | String d s =>
      if Ascii.eqb c d then Some (EmptyString, s)
      else match cut_at c s with Some (a, b) => Some (String d a, b) | None => None end
  end.

(** The members with a later one first, so that [member] finds the last assignment. *)
(* @src packages/workflows/src/commands/github-comment-parser.ts:197-207 readKeyValues *)
Definition readKeyValues (tokens : list string) : list (string * string) :=
  fold_left (λ out token,
    match cut_at "=" token with
    | Some (k, v) => if nonempty k && nonempty v then (toLowerCase k, v) :: out else out
    | None => out
    end) tokens [].

(* @src packages/workflows/src/commands/github-comment-parser.ts:209-212 isNestedReview *)
Definition isNestedReview (token : string) : bool :=
  let lower := toLowerCase token in (lower =s? "remediation") || (lower =s? "remediations").

(* @src packages/workflows/src/commands/github-comment-parser.ts:214-233 readIssueShorthand *)
Definition readIssueShorthand (verb : string) (positional : list string) (kv : list (string * string))
  : option Z :=
  match member "issue" kv ≫= number_text with
  | Some n => Some n
  | None =>
      match positional with
      | [a; b] => if toLowerCase a =s? "issue" then number_text b else None
      | [a] => if verb =s? "implement" then number_text a else None
      | _ => None
      end
  end.

(* @src packages/workflows/src/commands/github-comment-parser.ts:235-240 buildReviewInput *)
Definition buildReviewInput (kv : list (string * string)) : list (string * json) :=
  match member "pr" kv ≫= number_text with
  | Some n => [("pullRequestNumber", JNum n)]
  | None => []
  end.

Definition check_member (kv : list (string * string)) : list (string * json) :=
  opt_member "checkRunId" (JStr <$> member "check" kv).

(** [split(',').map(trim).filter(nonempty)]. *)
Definition comma_list (s : string) : list json :=
  map JStr (List.filter nonempty (map trim (split_char "," s))).

(* @src packages/workflows/src/commands/github-comment-parser.ts:101-195 parseTail *)
Definition parseTail (commandId : alias_target) (verb : string) (tail : list string)
  : list (string * json) + string :=
  let kv := readKeyValues tail in
  let positional := List.filter (λ t, negb (str_includes t "=")) tail in
  match commandId with
  | Workflow review_remediation =>
      match positional with
      | [] => inl (buildReviewInput kv)
      | [p] => if isNestedReview p then inl (buildReviewInput kv)
               else inr "Unexpected tokens after review."
      | _ => inr "Unexpected tokens after review."
      end
  | Workflow diagnose_failure =>
      match readIssueShorthand verb positional kv, positional with
      | Some n, _ => inl (("pullRequestNumber", JNum n) :: check_member kv)
      | None, _ :: _ => inr "Unexpected tokens after fix."
      | None, [] =>
          inl (match member "pr" kv ≫= number_text with
               | Some n => if 0 <? n then [("pullRequestNumber", JNum n)] else []
               | None => []
               end ++ check_member kv)
      end
  | Workflow implement_issue =>
      match readIssueShorthand verb positional kv, positional with
      | Some n, _ => inl [("issueNumber", JNum n)]
      | None, _ :: _ => inr "Unexpected tokens after implement."
      | None, [] =>
          match member "issue" kv with
          | Some s =>
              match number_text s with
              | Some n => if n <=? 0 then inr "Invalid issue number." else inl [("issueNumber", JNum n)]
              | None => inr "Invalid issue number."
              end
          | None => inl []
          end
      end
  | Workflow security_patch =>
      match positional with
      | _ :: _ => inr "Unexpected tokens after patch."
      | [] =>
          inl match (match member "finding" kv with Some f => Some f | None => member "findings" kv end) with
              | Some f => [("findingIds", JArr (comma_list f))]
              | None => []
              end
      end
  | Workflow security_audit =>
      match positional with
      | _ :: _ => inr "Unexpected tokens after audit."
      | [] => inl (opt_member "ref" (JStr <$> member "ref" kv))
      end
  | _ =>
      match positional with
      | _ :: _ => inr ("Unexpected tokens after " +s verb +s ".")
      | [] => inl []
      end
  end.

(** The command of a first line: everything but the notes. *)
(* @src packages/workflows/src/commands/github-comment-parser.ts:50-88 parseDevguardComment *)
Definition parse_line (login firstLine notes : string) : ParsedGitHubComment :=
  match after_mention login (trim firstLine) with
  | None => Ignored
  | Some afterMention =>
      match tokenize afterMention with
      | [] => Meta help
      | t :: tail =>
          let verb := toLowerCase t in
          if verb =s? "help" then Meta help
          else if verb =s? "status" then Meta status_verb
          else match alias_of verb with
          | None => Denied "COMMAND_UNKNOWN" ("Unknown verb '" +s verb +s "'.")
          | Some target =>
              match parseTail target verb tail with
              | inr detail => Denied "COMMAND_UNKNOWN" detail
              | inl input => Command verb target input notes
              end
          end
      end
  end.

Definition notes_of (rest : list string) : string := trim (join (String newline "") rest).

(* @src packages/workflows/src/commands/github-comment-parser.ts:36-89 parseDevguardComment *)
Definition parseDevguardComment (body : string) (mentionLogin authorLogin : option string)
  : ParsedGitHubComment :=
  let mention := toLowerCase (mentionLogin ?? "devguard") in
  if bool_decide (toLowerCase <$> authorLogin = Some mention) then
    Denied "BOT_SELF" "ignore comments from the app login"
  else
    match first_line (body_lines body) with
    | None => Ignored
    | Some (firstLine, rest) => parse_line mention firstLine (notes_of rest)
    end.

(* @src packages/workflows/src/commands/github-comment-parser.ts:247-249 githubCommentIdempotencyKey *)
Definition githubCommentIdempotencyKey (commentId : Z) (commandId : string) : string :=
  "github_comment:" +s num_to_string commentId +s ":" +s commandId.

(** ** The service *)

(* @src packages/workflows/src/commands/comment-command-service.ts:20-29 CommentCommandOutcome *)
Inductive CommentCommandOutcome :=
  | OutIgnored
  | OutMeta (verb : MetaVerb)
  | OutDenied (code detail : string)
  | OutSubmitted (run : string) (replayed : bool) (commandId : WorkflowIdV1).

Record ConnectedRepository := { connected_id : string; connected_status : string }.
Record Authorization := { allowed : bool; reasonCode : option string }.

(* @src packages/workflows/src/commands/comment-command-service.ts:31-63 CommentCommandServiceDeps *)
Inductive CommentCall :=
  | findByGitHubRepositoryId (githubRepositoryId : string)
  | resolveOrCreateUser (issuer subject login : string)
  | authorizeWorkflowStart (userId issuer providerSubject repositoryId : string)
  | submitCommand_ (i : SubmitInput)
  | postAck (message : string).

Definition CommentAns (c : CommentCall) : Type :=
  match c with
  | findByGitHubRepositoryId _ => option ConnectedRepository
  | resolveOrCreateUser _ _ _ => string
  | authorizeWorkflowStart _ _ _ _ => Authorization
  | submitCommand_ _ => SubmitResult
  | postAck _ => unit
  end.

(* @src packages/workflows/src/commands/comment-command-service.ts:65-73 CommentCommandServiceDeps *)
Record CommentCommandServiceDeps := {
  has_acks : bool;
  mentionLogin : option string;
  acksEnabled : option bool;
}.

Definition GITHUB_ISSUER : string := "https://github.com".

(* @src packages/workflows/src/commands/comment-command-service.ts:192-200 parsedNotes *)
Definition parsedNotes (e : IssueCommentWebhookEvent) : string :=
  match first_line (body_lines (comment_body e)) with
  | None => ""
  | Some (_, rest) => notes_of rest
  end.

Definition without (k : string) (l : list (string * json)) : bool := negb (str_in k (map fst l)).

(* @src packages/workflows/src/commands/comment-command-service.ts:170-190 enrichInput *)
Definition enrichInput (commandId : alias_target) (input : list (string * json))
    (e : IssueCommentWebhookEvent) : list (string * json) :=
  let on w := bool_decide (commandId = Workflow w) in
  let next :=
    if (on review_remediation || on diagnose_failure) && without "pullRequestNumber" input &&
       issueCommentIsOnPullRequest e
    then input ++ [("pullRequestNumber", JNum (issue_number e))] else input in
  let next :=
    if on implement_issue && without "issueNumber" next
    then next ++ [("issueNumber", JNum (issue_number e))] else next in
  if nonempty (parsedNotes e) then next ++ [("notes", JStr (parsedNotes e))] else next.

Inductive AckOutcome :=
  | AckMeta (verb : MetaVerb)
  | AckDenied (code detail : string)
  | AckSubmitted (run : string) (replayed : bool).

(* @src packages/workflows/src/commands/comment-command-service.ts:202-224 formatAck *)
Definition formatAck (o : AckOutcome) : option string :=
  match o with
  | AckMeta help => Some "DevGuard commands: review, fix, audit, patch, implement, status, help."
  | AckMeta status_verb =>
      Some "Use `@devguard status` on a run in the DevGuard UI for live workflow state."
  | AckDenied code detail =>
      if code =s? "BOT_SELF" then None
      else if code =s? "COMMAND_UNKNOWN" then
        Some ("Unknown command. Reply with `@devguard help` for the verb list. (" +s detail +s ")")
      else Some ("Could not start a workflow: " +s detail)
  | AckSubmitted run replayed =>
      if replayed then Some ("This comment already started run `" +s run +s "`.")
      else Some ("Queued workflow run `" +s run +s "` (origin GitHub comment).")
  end.

Section Service.
Context (deps : CommentCommandServiceDeps).

(* @src packages/workflows/src/commands/comment-command-service.ts:156-167 CommentCommandService.maybeAck *)
Definition maybeAck (o : AckOutcome) : proc CommentAns unit :=
  if bool_decide (acksEnabled deps = Some false) || negb (has_acks deps) then pret tt
  else match formatAck o with
  | None => pret tt
  | Some message => call (postAck message)
  end.

Definition deny (code detail : string) : proc CommentAns CommentCommandOutcome :=
  maybeAck (AckDenied code detail) ;~ pret (OutDenied code detail).

(* @src packages/workflows/src/commands/comment-command-service.ts:132-145 CommentCommandService.submitCommand *)
Definition comment_submission (e : IssueCommentWebhookEvent) (repo userId : string)
    (w : WorkflowIdV1) (input : list (string * json)) : SubmitInput :=
  {| command := {| commandId := workflow_name w; definitionVersion := Some "1.0.0";
                   command_input := Some (JObj (enrichInput (Workflow w) input e)) |};
     repositoryId := repo; originSurface := github_comment;
     idempotencyKey := githubCommentIdempotencyKey (comment_id e) (workflow_name w);
     createdBy := Some userId; trustedSurface := Some true |}.

(** An inherited member is no string: [submit] fails in its first call, [input.trim()]. *)
(* @src packages/workflows/src/commands/comment-command-service.ts:95-154 CommentCommandService.submitCommand *)
Definition submitCommand (e : IssueCommentWebhookEvent) (target : alias_target)
    (input : list (string * json)) : proc CommentAns CommentCommandOutcome :=
  found <~ call (findByGitHubRepositoryId (num_to_string (repository_id e))) ;;
  match found with
  | Some repo =>
      if negb (connected_status repo =s? "active") then
        deny "REPOSITORY_UNKNOWN" "Repository is not connected to DevGuard."
      else
        userId <~ call (resolveOrCreateUser GITHUB_ISSUER (num_to_string (user_id e)) (user_login e)) ;;
        authz <~ call (authorizeWorkflowStart userId GITHUB_ISSUER (num_to_string (user_id e))
                         (connected_id repo)) ;;
        if negb (allowed authz) then
          deny (reasonCode authz ?? "FORBIDDEN")
            "You do not have permission to start workflows on this repository."
        else
          match target with
          | Inherited _ => throw (PlainError "TypeError: input.trim is not a function")
          | Workflow w =>
              receipt <~ call (submitCommand_ (comment_submission e (connected_id repo) userId w input)) ;;
              maybeAck (AckSubmitted (runId receipt) (replayed receipt)) ;~
              pret (OutSubmitted (runId receipt) (replayed receipt) w)
          end
  | None => deny "REPOSITORY_UNKNOWN" "Repository is not connected to DevGuard."
  end.

(* @src packages/workflows/src/commands/comment-command-service.ts:78-93 CommentCommandService.handle *)
Definition handle (e : IssueCommentWebhookEvent) : proc CommentAns CommentCommandOutcome :=
  match parseDevguardComment (comment_body e) (mentionLogin deps) (Some (user_login e)) with
  | Ignored => pret OutIgnored
  | Denied code detail => deny code detail
  | Meta verb => maybeAck (AckMeta verb) ;~ pret (OutMeta verb)
  | Command _ target input _ => submitCommand e target input
  end.
End Service.

(** ** What starts a workflow *)

Section Starts.
Context (deps : CommentCommandServiceDeps) (e : IssueCommentWebhookEvent).

Definition parsed : ParsedGitHubComment :=
  parseDevguardComment (comment_body e) (mentionLogin deps) (Some (user_login e)).

(** The calls that precede a submission, with what they answered. *)
Definition cleared (tr : list (event CommentAns)) (repo user : string) : Prop :=
  ∃ r a, connected_id r = repo ∧ connected_status r = "active" ∧ allowed a = true ∧
    tr = [ev (findByGitHubRepositoryId (num_to_string (repository_id e))) (Returned (Some r));
          ev (resolveOrCreateUser GITHUB_ISSUER (num_to_string (user_id e)) (user_login e))
             (Returned user);
          ev (authorizeWorkflowStart user GITHUB_ISSUER (num_to_string (user_id e)) repo) (Returned a)].

Definition call_earned (tr : list (event CommentAns)) (c : CommentCall) : Prop :=
  match c with
  | submitCommand_ i =>
      ∃ verb w input notes repo user, parsed = Command verb (Workflow w) input notes ∧
        cleared tr repo user ∧ i = comment_submission e repo user w input
  | postAck _ => True
  | _ => ∃ verb target input notes, parsed = Command verb target input notes
  end.

Definition is_submit (x : event CommentAns) : bool :=
  match ev_call x with submitCommand_ _ => true | _ => false end.

Definition submits (tr : list (event CommentAns)) : nat := length (List.filter is_submit tr).

Definition outcome_earned (tr : list (event CommentAns)) (o : outcome CommentCommandOutcome) : Prop :=
  (submits tr ≤ 1)%nat ∧
  match o with
  | Returned OutIgnored => parsed = Ignored ∧ tr = []
  | Returned (OutSubmitted run again w) =>
      ∃ verb input notes i receipt, parsed = Command verb (Workflow w) input notes ∧
        ev (submitCommand_ i) (Returned receipt) ∈ tr ∧ runId receipt = run ∧ replayed receipt = again
  | Returned _ => submits tr = 0%nat
  | Threw _ => True
  end.

Lemma submits_snoc tr x : submits (tr ++ [x]) = (submits tr + if is_submit x then 1 else 0)%nat.
Proof. unfold submits. rewrite List.filter_app, length_app. simpl. by destruct (is_submit x). Qed.

(** An acknowledgement changes nothing but the trace. *)
Lemma ensures_ack {A} (k : proc CommentAns A) Q tr o :
  ensures call_earned Q tr k →
  (∀ m, ensures call_earned Q (tr ++ [ev (postAck m) (Returned tt)]) k) →
  (∀ m x, Q (tr ++ [ev (postAck m) (Threw x)]) (Threw x)) →
  ensures call_earned Q tr (maybeAck deps o ;~ k).
Proof.
  intros H1 H2 H3. unfold maybeAck. destruct (_ || _); [exact H1|].
  destruct (formatAck o) as [m|]; [|exact H1]. cbn [call pbind ensures].
  split; [done|]. intros [[]|x]; [apply H2|apply H3].
Qed.

Lemma ensures_deny tr code detail :
  submits tr = 0%nat → ensures call_earned outcome_earned tr (deny deps code detail).
Proof.
  intros Hs. apply ensures_ack; intros; unfold outcome_earned; cbn [ensures pret];
    rewrite ?submits_snoc, Hs; simpl; auto with lia.
Qed.

Lemma ensures_handle : ensures call_earned outcome_earned [] (handle deps e).
Proof.
  unfold handle. fold parsed. destruct parsed as [|verb|verb target input notes|code detail] eqn:Hp.
  - split; [unfold submits; simpl; lia|by split].
  - apply ensures_ack; intros; unfold outcome_earned; cbn [ensures pret]; unfold submits; simpl; auto.
  - unfold submitCommand. cbn [call pbind ensures]. split; [by do 4 eexists|].
    intros [[r|]|x]; cbn [pbind]; [|by apply ensures_deny|by split; [unfold submits; simpl; lia|]].
    destruct (negb (connected_status r =s? "active")) eqn:Ha; [by apply ensures_deny|].
    cbn [call pbind ensures]. split; [by do 4 eexists|].
    intros [user|x]; cbn [pbind]; [|by split; [unfold submits; simpl; lia|]].
    split; [by do 4 eexists|].
    intros [a|x]; cbn [pbind]; [|by split; [unfold submits; simpl; lia|]].
    destruct (negb (allowed a)) eqn:Hal; [by apply ensures_deny|]. breflect.
    destruct target as [w|m]; [|by split; [unfold submits; simpl; lia|]].
    cbn [call pbind ensures app]. split.
    { exists verb, w, input, notes, (connected_id r), user. split; [done|]. split; [|done].
      by exists r, a. }
    intros [receipt|x]; cbn [pbind]; [|by split; [unfold submits; simpl; lia|]].
    assert (Hdone : ∀ tr, submits tr = 1%nat →
      ev (submitCommand_ (comment_submission e (connected_id r) user w input)) (Returned receipt) ∈ tr →
      outcome_earned tr (Returned (OutSubmitted (runId receipt) (replayed receipt) w))).
    { intros tr Hs Hin. split; [lia|]. by do 5 eexists. }
    apply ensures_ack; intros; cbn [ensures pret].
    + apply Hdone; [done|]. set_solver.
    + apply Hdone; [done|]. set_solver.
    + by split.
  - by apply ensures_deny.
Qed.
End Starts.

(** What a comment can start, whatever the repository store, the identity service, the
    authorizer, the command bus and the acknowledgements answer: a workflow is submitted at most
    once, and only for a comment whose first line parsed as a command, after its repository was
    found active, its author resolved to a user and that user authorized for that repository, in
    this order and with nothing in between; the submission carries exactly that repository and
    user, the parsed command, the comment surface and the key of the comment.  A comment without
    a command makes no call at all, and a reported run is one the bus acknowledged. *)
Theorem comment_starts_authorized_only deps e :
  ensures (call_earned deps e) (outcome_earned deps e) [] (handle deps e).
Proof. apply ensures_handle. Qed.

(** ** The submission and the bus *)

Lemma num_no_space n : no_space (num_to_string n) = true.
Proof.
  unfold no_space. eapply all_chars_impl; [|apply num_chars].
  intros c. unfold num_char. by destruct c as [[] [] [] [] [] [] [] []].
Qed.

Lemma key_trimmed n w :
  trim (githubCommentIdempotencyKey n (workflow_name w)) = githubCommentIdempotencyKey n (workflow_name w).
Proof.
  apply trim_no_space. unfold githubCommentIdempotencyKey.
  rewrite !no_space_app, num_no_space. by destruct w.
Qed.

Lemma key_length n w : 16 ≤ str_length (githubCommentIdempotencyKey n (workflow_name w)).
Proof.
  unfold githubCommentIdempotencyKey. rewrite !str_length_app.
  pose proof (str_length_pos _ (num_nonempty n)). change (str_length "github_comment:") with 15.
  change (str_length ":") with 1. assert (0 ≤ str_length (workflow_name w)) by (by destruct w). lia.
Qed.

(** A comment's submission and the command bus fit together: whatever the comment, the bus
    accepts its submission exactly for the five commands of the initial catalog, with the input
    as the parser built it and version 1.0.0, and rejects the others as no longer allowed -- its
    key is never too short and its origin never counts as forged; and two comment submissions
    share a key exactly when they are about the same comment and the same command. *)
Theorem comment_submission_accepted zod_uuid e repo user w input e' repo' user' w' input' :
  let i := comment_submission e repo user w input in
  let i' := comment_submission e' repo' user' w' input' in
  checked zod_uuid i =
    (if includes COMMAND_BUS_MVP_IDS w then
       Returned (w, Some "1.0.0", Some (JObj (enrichInput (Workflow w) input e)))
     else Threw (GuardError "COMMAND_NO_LONGER_ALLOWED")) ∧
  (idempotencyKey i = idempotencyKey i' ↔ comment_id e = comment_id e' ∧ w = w').
Proof.
  intros i i'. split.
  - unfold checked. cbn [i comment_submission command commandId originSurface trustedSurface
      idempotencyKey command_input definitionVersion].
    replace (normalizeCommandId (workflow_name w)) with (Returned (Workflow w)) by (by destruct w).
    cbn [obind]. destruct (includes COMMAND_BUS_MVP_IDS w); [|done]. cbn [negb].
    rewrite bool_decide_eq_true_2 by done. cbn [negb andb].
    rewrite key_trimmed. pose proof (key_length (comment_id e) w) as Hl.
    apply Z.ltb_ge in Hl as ->. done.
  - cbn. unfold githubCommentIdempotencyKey. split; [|by intros [-> ->]].
    intros E. apply (inj (String.append "github_comment:")) in E.
    eapply (span_inj num_char) in E as [Hn Hw]; [|apply num_chars|apply num_chars|by intros ? [= <-]|by intros ? [= <-]].
    split; [by apply (inj pretty)|]. injection Hw as Hw. by destruct w, w'.
Qed.
