(* ===== verification/Queue.v ===== *)
(** * The job queue

    [packages/queue/src/]: job envelopes and the handler registry ([envelope.ts]), backoff,
    the in-memory transport and the cancellation fence ([retry.ts]), and the worker runtime
    ([runtime.ts]).  The transport's two [Map]s are association lists in insertion order; its
    operations are functions of the clock readings they take, so that any interleaving of any
    number of workers is a sequence of operations.  The runtime is a program over the
    transport, the fence, the random source and the job handlers. *)

From Stdlib Require Import QArith.QArith QArith.Qround.
From S2P Require Import Prelude JsString JsDate Effects Json Contracts.
#[local] Close Scope Q_scope.
#[local] Open Scope Z_scope.

(** ** Envelopes *)

(* @src packages/queue/src/envelope.ts:8-17 QUEUE_NAMES *)
Definition QUEUE_NAMES : list string :=
  ["webhook-processing"; "workflow-execution"; "sandbox-monitoring"; "approval-resume";
   "outbox-publishing"; "cleanup"].

(* @src packages/queue/src/envelope.ts:19-21 dlqFor *)
Definition dlqFor (queue : string) : string := queue +s "-dlq".

(* @src packages/queue/src/envelope.ts:26-33 JOB_TYPES_V1 *)
Definition JOB_TYPES_V1 : list string :=
  ["webhook.process"; "workflow.execute"; "approval.resume"; "outbox.publish";
   "sandbox.monitor"; "cleanup.retention"].

(* @src packages/queue/src/envelope.ts:37-37 MAX_PAYLOAD_BYTES *)
Definition MAX_PAYLOAD_BYTES : Z := 32 * 1024.

(* @src packages/queue/src/envelope.ts:43-62 JobEnvelope *)
Record JobEnvelope := {
  envelopeVersion : Z;
  jobId : string;
  jobType : string;
  schemaVersion : Z;
  queue : string;
  uniqueKey : string;
  payload : list (string * json);
  tenantId : option string;
  repositoryId : option string;
  workflowRunId : option string;
  sessionId : option string;
  actionId : option string;
  correlationId : string;
  causationId : option string;
  traceparent : option string;
  cancellationGeneration : Z;
  enqueuedAtIso : string;
}.

(* @src packages/queue/src/envelope.ts:66-87 buildEnvelope *)
Record EnvelopeInput := {
  in_jobType : string;
  in_schemaVersion : Z;
  in_queue : string;
  in_uniqueKey : string;
  in_payload : list (string * json);
  in_correlationId : string;
  in_cancellationGeneration : option Z;
  in_tenantId : option string;
  in_repositoryId : option string;
  in_workflowRunId : option string;
  in_sessionId : option string;
  in_actionId : option string;
  in_causationId : option string;
  in_traceparent : option string;
}.

(* @src packages/queue/src/envelope.ts:95-95 buildEnvelope *)
Definition FORBIDDEN_FIELDS : list string := ["password"; "token"; "secret"; "authorization"].

(** [key in payload]: the payload is an object literal, and none of the four names is a member
    it inherits.  [now] is the reading of the injected clock. *)
(* @src packages/queue/src/envelope.ts:66-119 buildEnvelope *)
Definition buildEnvelope (now : Z) (i : EnvelopeInput) : outcome JobEnvelope :=
  let payloadBytes := utf8_length (stringify (JObj (in_payload i))) in
  if payloadBytes >? MAX_PAYLOAD_BYTES then
    Threw (PlainError ("payload " +s num_to_string payloadBytes +s "B exceeds " +s
                       num_to_string MAX_PAYLOAD_BYTES +s "B budget"))
  else match List.find (λ key, str_in key (in_payload i).*1) FORBIDDEN_FIELDS with
  | Some key => Threw (PlainError ("forbidden payload field '" +s key +s "'"))
  | None =>
      let? iso := toISOString now in
      Returned
        {| envelopeVersion := 1;
           jobId := "env1:" +s in_jobType i +s ":" +s in_uniqueKey i;
           jobType := in_jobType i; schemaVersion := in_schemaVersion i; queue := in_queue i;
           uniqueKey := in_uniqueKey i; payload := in_payload i; tenantId := in_tenantId i;
           repositoryId := in_repositoryId i; workflowRunId := in_workflowRunId i;
           sessionId := in_sessionId i; actionId := in_actionId i;
           correlationId := in_correlationId i; causationId := in_causationId i;
           traceparent := in_traceparent i;
           cancellationGeneration := in_cancellationGeneration i ?? 0;
           enqueuedAtIso := iso |}
  end.

(** ** The handler registry

    A handler is known by a name; what it answers is up to the ports of the runtime. *)

(* @src packages/queue/src/envelope.ts:146-146 JobHandler *)
Definition JobHandler : Type := string.

(* @src packages/queue/src/envelope.ts:133-144 JobHandlerResult *)
Inductive JobHandlerResult :=
  | SUCCEEDED
  | RETRYABLE_FAILURE (errorCode : string)
  | PERMANENT_FAILURE (errorCode : string).

Abbreviation JobRegistry := (gmap string JobHandler) (only parsing).

Definition registry_key (jobType : string) (schemaVersion : Z) : string :=
  jobType +s "@" +s num_to_string schemaVersion.

(* @src packages/queue/src/envelope.ts:158-164 JobRegistry.register *)
Definition register (jobType : string) (schemaVersion : Z) (handler : JobHandler)
    (r : JobRegistry) : outcome unit * JobRegistry :=
  let key := registry_key jobType schemaVersion in
  match r !! key with
  | Some _ => (Threw (PlainError ("duplicate handler registration for '" +s key +s "'")), r)
  | None => (Returned tt, <[key := handler]> r)
  end.

(** An [UnknownJobTypeError], recognised by its class; its message is left out. *)
Definition UnknownJobTypeError : js_error := GuardError "UnknownJobTypeError".

(* @src packages/queue/src/envelope.ts:166-171 JobRegistry.resolve *)
Definition resolve (jobType : string) (schemaVersion : Z) (r : JobRegistry) : outcome JobHandler :=
  match r !! registry_key jobType schemaVersion with
  | Some handler => Returned handler
  | None => Threw UnknownJobTypeError
  end.

(** ** Retry options and backoff *)

(* @src packages/queue/src/retry.ts:14-19 RetryOptions *)
Record RetryOptions := {
  maxAttempts : Z;
  backoffBaseSeconds : option Z;
  maxBackoffSeconds : option Z;
}.

Definition attempts_only (n : Z) : RetryOptions :=
  {| maxAttempts := n; backoffBaseSeconds := None; maxBackoffSeconds := None |}.

(* @src packages/queue/src/retry.ts:21-28 QUEUE_RETRY_DEFAULTS *)
Definition QUEUE_RETRY_DEFAULTS : list (string * RetryOptions) :=
  [("webhook-processing", attempts_only 8); ("workflow-execution", attempts_only 10);
   ("sandbox-monitoring", attempts_only 6); ("approval-resume", attempts_only 12);
   ("outbox-publishing", attempts_only 15); ("cleanup", attempts_only 3)].

Definition backoff_cap (attempt : Z) (options : RetryOptions) : Z :=
  Z.min (maxBackoffSeconds options ?? 60) ((backoffBaseSeconds options ?? 1) * 2 ^ (attempt - 1)).

(** The draw is a rational in [[0, 1)]; the product is exact, which the rounding of doubles
    does not change below the integer bound. *)
(* @src packages/queue/src/retry.ts:31-41 backoffDelayMs *)
Definition backoffDelayMs (attempt : Z) (options : RetryOptions) (draw : Q) : outcome Z :=
  if attempt <? 1 then Threw (PlainError "attempt is 1-based and must be >= 1")
  else Returned (Qfloor (draw * inject_Z (backoff_cap attempt options * 1000))%Q).

(** ** The in-memory transport *)

(* @src packages/queue/src/retry.ts:67-67 InMemoryTransport.pending *)
Record PendingJob := { p_envelope : JobEnvelope; availableAtMs : Z }.

(* @src packages/queue/src/retry.ts:68-71 InMemoryTransport.active *)
Record ActiveJob := {
  a_envelope : JobEnvelope;
  leaseUntilMs : Z;
  workerId : string;
  a_attempts : Z;
}.

(* @src packages/queue/src/retry.ts:66-73 InMemoryTransport *)
Record InMemoryTransport := {
  pending : list (string * PendingJob);
  active : list (string * ActiveJob);
  dead : gset string;
  perQueueAttemptCount : gmap string Z;
}.

Definition empty_transport : InMemoryTransport :=
  {| pending := []; active := []; dead := ∅; perQueueAttemptCount := ∅ |}.

(* @src packages/queue/src/runtime.ts:25-28 EnqueueResult *)
Record EnqueueResult := { accepted : bool; duplicate : bool }.

Definition tracked (key : string) (t : InMemoryTransport) : bool :=
  match assoc key (pending t), assoc key (active t) with None, None => false | _, _ => true end.

(* @src packages/queue/src/retry.ts:77-86 InMemoryTransport.enqueue *)
Definition enqueue (now : Z) (envelope : JobEnvelope) (delayMs : Z) (t : InMemoryTransport)
  : EnqueueResult * InMemoryTransport :=
  let key := uniqueKey envelope in
  if tracked key t then ({| accepted := false; duplicate := true |}, t)
  else
    ({| accepted := true; duplicate := false |},
     {| pending := set_key key {| p_envelope := envelope; availableAtMs := now + delayMs |} (pending t);
        active := active t; dead := dead t; perQueueAttemptCount := perQueueAttemptCount t |}).

(* @src packages/queue/src/retry.ts:142-152 InMemoryTransport.releaseExpiredLeases *)
Definition release_one (nowMs : Z) (s : Z * InMemoryTransport) (e : string * ActiveJob)
  : Z * InMemoryTransport :=
  let '(released, t) := s in
  let '(key, held) := e in
  if leaseUntilMs held <=? nowMs then
    (released + 1,
     {| pending := set_key key {| p_envelope := a_envelope held; availableAtMs := nowMs |} (pending t);
        active := delete_key key (active t); dead := dead t;
        perQueueAttemptCount := perQueueAttemptCount t |})
  else (released, t).

(* @src packages/queue/src/retry.ts:140-154 InMemoryTransport.releaseExpiredLeases *)
Definition releaseExpiredLeases (nowMs : Z) (t : InMemoryTransport) : Z * InMemoryTransport :=
  fold_left (release_one nowMs) (active t) (0, t).

(* @src packages/queue/src/retry.ts:157-159 InMemoryTransport.attemptsOf *)
Definition attemptsOf (key : string) (t : InMemoryTransport) : Z :=
  perQueueAttemptCount t !! key ?? 0.

(** One job moves from pending to active, under a lease of its worker. *)
(* @src packages/queue/src/retry.ts:97-105 InMemoryTransport.claim *)
Definition take_one (now leaseMs : Z) (worker : string) (key : string) (entry : PendingJob)
    (t : InMemoryTransport) : InMemoryTransport :=
  let attempts := attemptsOf key t + 1 in
  {| pending := delete_key key (pending t);
     active := set_key key
                 {| a_envelope := p_envelope entry; leaseUntilMs := now + leaseMs;
                    workerId := worker; a_attempts := attempts |} (active t);
     dead := dead t;
     perQueueAttemptCount := <[key := attempts]> (perQueueAttemptCount t) |}.

(* @src packages/queue/src/retry.ts:92-108 InMemoryTransport.claim *)
Fixpoint take_loop (now : Z) (queueName : string) (leaseMs : Z) (worker : string)
    (entries : list (string * PendingJob)) (claimed : list JobEnvelope) (t : InMemoryTransport)
  : list JobEnvelope * InMemoryTransport :=
  match entries with
  | [] => (claimed, t)
  | (key, entry) :: entries =>
      if negb (queue (p_envelope entry) =s? queueName) || (now <? availableAtMs entry) then
        take_loop now queueName leaseMs worker entries claimed t
      else
        let t := take_one now leaseMs worker key entry t in
        let claimed := claimed ++ [p_envelope entry] in
        if (10 <=? length claimed)%nat then (claimed, t)
        else take_loop now queueName leaseMs worker entries claimed t
  end.

Definition by_availability : string * PendingJob → string * PendingJob → Z :=
  cmp_by (λ e, availableAtMs e.2) Z.sub.

(** The part of [claim] after its [await]: the due jobs of the queue, the earliest first. *)
(* @src packages/queue/src/retry.ts:90-109 InMemoryTransport.claim *)
Definition take (now : Z) (queueName : string) (leaseMs : Z) (worker : string)
    (t : InMemoryTransport) : list JobEnvelope * InMemoryTransport :=
  take_loop now queueName leaseMs worker (js_sort by_availability (pending t)) [] t.

(** [claim] reads the clock twice; other calls may run in between, at its [await]. *)
(* @src packages/queue/src/retry.ts:88-110 InMemoryTransport.claim *)
Definition claim (now1 now2 : Z) (queueName : string) (leaseMs : Z) (worker : string)
    (t : InMemoryTransport) : list JobEnvelope * InMemoryTransport :=
  take now2 queueName leaseMs worker (releaseExpiredLeases now1 t).2.

(* @src packages/queue/src/retry.ts:112-117 InMemoryTransport.heartbeat *)
Definition heartbeat (now : Z) (key : string) (leaseMs : Z) (worker : string)
    (t : InMemoryTransport) : bool * InMemoryTransport :=
  match assoc key (active t) with
  | None => (false, t)
  | Some held =>
      if negb (workerId held =s? worker) then (false, t)
      else
        (true,
         {| pending := pending t;
            active := set_key key {| a_envelope := a_envelope held; leaseUntilMs := now + leaseMs;
                                     workerId := workerId held; a_attempts := a_attempts held |}
                        (active t);
            dead := dead t; perQueueAttemptCount := perQueueAttemptCount t |})
  end.

Inductive Completion := completed | fenced | missing.

(* @src packages/queue/src/retry.ts:119-125 InMemoryTransport.complete *)
Definition complete (key worker : string) (t : InMemoryTransport) : Completion * InMemoryTransport :=
  match assoc key (active t) with
  | None => (missing, t)
  | Some held =>
      if negb (workerId held =s? worker) then (fenced, t)
      else
        (completed,
         {| pending := pending t; active := delete_key key (active t); dead := dead t;
            perQueueAttemptCount := perQueueAttemptCount t |})
  end.

(* @src packages/queue/src/retry.ts:127-132 InMemoryTransport.deadLetter *)
Definition deadLetter (key : string) (t : InMemoryTransport) : InMemoryTransport :=
  {| pending := delete_key key (pending t); active := delete_key key (active t);
     dead := {[key]} ∪ dead t; perQueueAttemptCount := perQueueAttemptCount t |}.

Inductive Removal := removed | still_active | not_found.

(* @src packages/queue/src/retry.ts:134-138 InMemoryTransport.remove *)
Definition remove (key : string) (t : InMemoryTransport) : Removal * InMemoryTransport :=
  match assoc key (pending t) with
  | Some _ =>
      (removed, {| pending := delete_key key (pending t); active := active t; dead := dead t;
                   perQueueAttemptCount := perQueueAttemptCount t |})
  | None =>
      match assoc key (active t) with Some _ => (still_active, t) | None => (not_found, t) end
  end.

(** ** The cancellation fence *)

(* @src packages/queue/src/retry.ts:173-177 CancellationFence.bump *)
Definition bump (runId : string) (generations : gmap string Z) : Z * gmap string Z :=
  let next := (generations !! runId ?? 0) + 1 in (next, <[runId := next]> generations).

(* @src packages/queue/src/retry.ts:179-182 CancellationFence.isFenced *)
Definition isFenced (job : JobEnvelope) (generations : gmap string Z) : bool :=
  match workflowRunId job with
  | Some runId =>
      nonempty runId && (cancellationGeneration job <? (generations !! runId ?? 0))
  | None => false
  end.

(** ** The transport over any sequence of operations *)

Inductive transport_op :=
  | op_enqueue (now : Z) (envelope : JobEnvelope) (delayMs : Z)
  | op_release (nowMs : Z)
  | op_take (now : Z) (queueName : string) (leaseMs : Z) (worker : string)
  | op_heartbeat (now : Z) (key : string) (leaseMs : Z) (worker : string)
  | op_complete (key worker : string)
  | op_deadLetter (key : string)
  | op_remove (key : string).

Definition apply_op (t : InMemoryTransport) (op : transport_op) : InMemoryTransport :=
  match op with
  | op_enqueue now envelope delayMs => (enqueue now envelope delayMs t).2
  | op_release nowMs => (releaseExpiredLeases nowMs t).2
  | op_take now queueName leaseMs worker => (take now queueName leaseMs worker t).2
  | op_heartbeat now key leaseMs worker => (heartbeat now key leaseMs worker t).2
  | op_complete key worker => (complete key worker t).2
  | op_deadLetter key => deadLetter key t
  | op_remove key => (remove key t).2
  end.

Definition apply_ops (t : InMemoryTransport) (ops : list transport_op) : InMemoryTransport :=
  fold_left apply_op ops t.

(** The two maps read as one: where the job of a key is. *)
Inductive place := Waiting (e : PendingJob) | Running (a : ActiveJob) | Nowhere.

Definition place_of (t : InMemoryTransport) (key : string) : place :=
  match assoc key (active t) with
  | Some a => Running a
  | None => match assoc key (pending t) with Some e => Waiting e | None => Nowhere end
  end.

(** Keys are not repeated, no job both waits and runs, every job is filed under its own key,
    and the attempt of a running job is the one counted last. *)
Record well_formed (t : InMemoryTransport) : Prop := {
  pending_keys : NoDup (pending t).*1;
  active_keys : NoDup (active t).*1;
  exclusive key : assoc key (active t) = None ∨ assoc key (pending t) = None;
  pending_own key e : assoc key (pending t) = Some e → uniqueKey (p_envelope e) = key;
  active_own key a :
    assoc key (active t) = Some a →
    uniqueKey (a_envelope a) = key ∧ attemptsOf key t = a_attempts a ∧ 1 ≤ a_attempts a;
  counts_nonneg key : 0 ≤ attemptsOf key t;
}.

Lemma well_formed_empty : well_formed empty_transport.
Proof.
  split; simpl; try done; [by apply NoDup_nil..|by left].
Qed.

#[local] Hint Resolve set_key_NoDup delete_key_NoDup : js.

(** The lookups of an updated map, by cases on the key. *)
Ltac lookups :=
  repeat match goal with
  | H : context [assoc ?k (delete_key ?k' _)] |- _ =>
      destruct (decide (k = k')) as [->|?];
      [rewrite assoc_delete_same in H|rewrite (assoc_delete k' k) in H by done]
  | |- context [assoc ?k (delete_key ?k' _)] =>
      destruct (decide (k = k')) as [->|?];
      [rewrite assoc_delete_same|rewrite (assoc_delete k' k) by done]
  | H : context [assoc ?k (set_key ?k' _ _)] |- _ =>
      rewrite assoc_set in H; destruct (k =s? k') eqn:?; breflect; subst
  | |- context [assoc ?k (set_key ?k' _ _)] =>
      rewrite assoc_set; destruct (k =s? k') eqn:?; breflect; subst
  end.

(** What an operation may do to the job of a key, and to its count of attempts: the
    transport's life cycle of a job. *)
Definition job_step (op : transport_op) (key : string) (n n' : Z) (p p' : place) : Prop :=
  (p' = p ∧ n' = n) ∨
  match op, p, p' with
  | op_enqueue now envelope delayMs, Nowhere, Waiting e =>
      n' = n ∧ uniqueKey envelope = key ∧ e = {| p_envelope := envelope; availableAtMs := now + delayMs |}
  | op_release nowMs, Running a, Waiting e =>
      n' = n ∧ leaseUntilMs a ≤ nowMs ∧ e = {| p_envelope := a_envelope a; availableAtMs := nowMs |}
  | op_take now queueName leaseMs worker, Waiting e, Running a =>
      n' = n + 1 ∧ queue (p_envelope e) = queueName ∧ availableAtMs e ≤ now ∧
      a = {| a_envelope := p_envelope e; leaseUntilMs := now + leaseMs; workerId := worker;
             a_attempts := n + 1 |}
  | op_heartbeat now k leaseMs worker, Running a, Running a' =>
      n' = n ∧ k = key ∧ workerId a = worker ∧
      a' = {| a_envelope := a_envelope a; leaseUntilMs := now + leaseMs; workerId := worker;
              a_attempts := a_attempts a |}
  | op_complete k worker, Running a, Nowhere => n' = n ∧ k = key ∧ workerId a = worker
  | op_deadLetter k, _, Nowhere => n' = n ∧ k = key
  | op_remove k, Waiting _, Nowhere => n' = n ∧ k = key
  | _, _, _ => False
  end.

Lemma place_running t key a : place_of t key = Running a ↔ assoc key (active t) = Some a.
Proof. unfold place_of. repeat case_match; naive_solver. Qed.

Lemma place_waiting t key e :
  well_formed t → place_of t key = Waiting e ↔ assoc key (pending t) = Some e.
Proof.
  intros Hw. unfold place_of. destruct (exclusive _ Hw key) as [H|H]; rewrite H;
    repeat case_match; naive_solver.
Qed.

Lemma place_nowhere t key : place_of t key = Nowhere ↔ tracked key t = false.
Proof. unfold place_of, tracked. repeat case_match; naive_solver. Qed.

(** *** One operation at a time *)

(** A running job is put back. *)
Lemma park_ok t key held nowMs :
  well_formed t → assoc key (active t) = Some held →
  let t' := {| pending := set_key key {| p_envelope := a_envelope held; availableAtMs := nowMs |} (pending t);
               active := delete_key key (active t); dead := dead t;
               perQueueAttemptCount := perQueueAttemptCount t |} in
  well_formed t' ∧
  ∀ k, place_of t' k = if k =s? key then Waiting {| p_envelope := a_envelope held; availableAtMs := nowMs |}
                       else place_of t k.
Proof.
  intros Hw Hk t'. split.
  - split; simpl; [apply set_key_NoDup, Hw|apply delete_key_NoDup, Hw|..].
    + intros k. lookups; solve [by left|congruence|apply Hw].
    + intros k e. lookups; [intros [= <-]; apply (active_own _ Hw _ _ Hk)|apply Hw].
    + intros k a. lookups; [done|]. apply Hw.
    + apply Hw.
  - intros k. unfold place_of. simpl. lookups; solve [done|congruence].
Qed.

(** A waiting job is taken. *)
Lemma take_one_ok now leaseMs worker key entry t :
  well_formed t → assoc key (pending t) = Some entry →
  let t' := take_one now leaseMs worker key entry t in
  let a := {| a_envelope := p_envelope entry; leaseUntilMs := now + leaseMs; workerId := worker;
              a_attempts := attemptsOf key t + 1 |} in
  well_formed t' ∧
  (∀ k, place_of t' k = if k =s? key then Running a else place_of t k) ∧
  ∀ k, attemptsOf k t' = if k =s? key then attemptsOf key t + 1 else attemptsOf k t.
Proof.
  intros Hw Hk t' a.
  assert (Hn : ∀ k, attemptsOf k t' = if k =s? key then attemptsOf key t + 1 else attemptsOf k t).
  { intros k. unfold attemptsOf at 1. subst t'. simpl.
    destruct (k =s? key) eqn:E; breflect; subst; [by rewrite lookup_insert_eq|].
    by rewrite lookup_insert_ne. }
  split_and!; [|intros k; unfold place_of; simpl; lookups; solve [done|congruence]|done].
  split; simpl; [apply delete_key_NoDup, Hw|apply set_key_NoDup, Hw|..].
  - intros k. lookups; solve [by right|congruence|apply Hw].
  - intros k e. lookups; [done|]. apply Hw.
  - intros k b. rewrite Hn. lookups.
    + intros [= <-]. pose proof (counts_nonneg _ Hw key).
      split_and!; [by apply Hw|done|simpl; lia].
    + apply Hw.
  - intros k. rewrite Hn. pose proof (counts_nonneg _ Hw key). case_match; [lia|]. apply Hw.
Qed.

(** *** Releases and takes, over a snapshot of their map *)

Definition released (nowMs : Z) (p : place) : place :=
  match p with
  | Running a =>
      if leaseUntilMs a <=? nowMs then
        Waiting {| p_envelope := a_envelope a; availableAtMs := nowMs |}
      else p
  | _ => p
  end.

Lemma release_fold nowMs l n t :
  well_formed t → NoDup l.*1 → (∀ k a, (k, a) ∈ l → assoc k (active t) = Some a) →
  let t' := (fold_left (release_one nowMs) l (n, t)).2 in
  well_formed t' ∧ perQueueAttemptCount t' = perQueueAttemptCount t ∧
  ∀ k, place_of t' k = if str_in k l.*1 then released nowMs (place_of t k) else place_of t k.
Proof.
  revert n t. induction l as [|[key held] l IH]; intros n t Hw Hl Hin; [done|].
  cbn [fmap list_fmap fst] in Hl |- *. apply NoDup_cons in Hl as [Hkey Hl].
  assert (Hheld : assoc key (active t) = Some held) by (apply Hin; left).
  cbn [fold_left release_one]. destruct (leaseUntilMs held <=? nowMs) eqn:Hdue.
  - destruct (park_ok t key held nowMs Hw Hheld) as [Hw1 Hp1].
    match goal with |- context [fold_left _ _ (_, ?x)] => set (t1 := x) in * end.
    destruct (IH (n + 1) t1 Hw1 Hl) as (Hw' & Hc' & Hp').
    { intros k a Ha. assert (k ≠ key).
      { intros ->. apply Hkey. by apply (list_elem_of_fmap_2 fst _ (key, a)). }
      subst t1. cbn [active]. rewrite assoc_delete by done. apply Hin. by right. }
    split_and!; [done|done|]. intros k. rewrite Hp', Hp1. cbn [str_in existsb].
    destruct (String.eqb_spec k key) as [->|Hk]; cbn [orb]; [|done].
    apply place_running in Hheld. rewrite Hheld. cbn [released]. rewrite Hdue.
    by destruct (str_in key l.*1).
  - destruct (IH n t Hw Hl) as (Hw' & Hc' & Hp').
    { intros k a Ha. apply Hin. by right. }
    split_and!; [done|done|]. intros k. rewrite Hp'. cbn [str_in existsb].
    destruct (String.eqb_spec k key) as [->|Hk]; cbn [orb]; [|done].
    apply place_running in Hheld. rewrite Hheld. cbn [released]. rewrite Hdue.
    by destruct (str_in key l.*1).
Qed.

(** A release puts back exactly the jobs whose lease has run out. *)
Lemma release_ok nowMs t :
  well_formed t →
  let t' := (releaseExpiredLeases nowMs t).2 in
  well_formed t' ∧ perQueueAttemptCount t' = perQueueAttemptCount t ∧
  ∀ k, place_of t' k = released nowMs (place_of t k).
Proof.
  intros Hw. destruct (release_fold nowMs (active t) 0 t Hw (active_keys _ Hw)) as (Hw' & Hc & Hp).
  { intros k a. apply assoc_in, Hw. }
  split_and!; [done|done|]. intros k. unfold releaseExpiredLeases. rewrite Hp.
  destruct (str_in k (active t).*1) eqn:Hk; [done|]. apply str_in_false, assoc_none in Hk.
  unfold place_of. rewrite Hk. by destruct (assoc k (pending t)).
Qed.

Lemma take_loop_ok now queueName leaseMs worker entries claimed t :
  well_formed t → NoDup entries.*1 → (∀ k e, (k, e) ∈ entries → assoc k (pending t) = Some e) →
  let t' := (take_loop now queueName leaseMs worker entries claimed t).2 in
  well_formed t' ∧
  ∀ k, job_step (op_take now queueName leaseMs worker) k (attemptsOf k t) (attemptsOf k t')
         (place_of t k) (place_of t' k).
Proof.
  revert claimed t. induction entries as [|[key e] entries IH]; intros claimed t Hw Hl Hin.
  { split; [done|]. intros k. by left. }
  cbn [fmap list_fmap fst] in Hl. apply NoDup_cons in Hl as [Hkey Hl]. cbn [take_loop].
  assert (Hrest : ∀ k e', (k, e') ∈ entries → assoc k (pending t) = Some e').
  { intros k e' He'. apply Hin. by right. }
  destruct (negb _ || _) eqn:Hdue; [by apply IH|]. breflect.
  assert (He : assoc key (pending t) = Some e) by (apply Hin; left).
  destruct (take_one_ok now leaseMs worker key e t Hw He) as (Hw1 & Hp1 & Hn1).
  set (t1 := take_one now leaseMs worker key e t) in *.
  assert (Hstep : job_step (op_take now queueName leaseMs worker) key (attemptsOf key t)
            (attemptsOf key t1) (place_of t key) (place_of t1 key)).
  { right. rewrite Hp1, Hn1, String.eqb_refl, (proj2 (place_waiting t key e Hw) He). done. }
  assert (Hother : ∀ k, k ≠ key → attemptsOf k t1 = attemptsOf k t ∧ place_of t1 k = place_of t k).
  { intros k Hk. rewrite Hp1, Hn1, (proj2 (String.eqb_neq k key) Hk). done. }
  case_match.
  - split; [done|]. intros k. destruct (decide (k = key)) as [->|Hk]; [done|].
    left. by destruct (Hother k Hk).
  - destruct (IH (claimed ++ [p_envelope e]) t1 Hw1 Hl) as (Hw' & Hp').
    { intros k e' He'. subst t1. cbn [take_one pending]. rewrite assoc_delete; [by apply Hrest|].
      intros ->. apply Hkey. by apply (list_elem_of_fmap_2 fst _ (key, e')). }
    split; [done|]. intros k. destruct (decide (k = key)) as [->|Hk].
    + specialize (Hp' key). assert (Hrun : ∃ a, place_of t1 key = Running a).
      { rewrite Hp1, String.eqb_refl. by eexists. }
      destruct Hrun as [a Hrun]. rewrite Hrun in Hp', Hstep.
      destruct Hp' as [[-> ->]|[]]. done.
    + destruct (Hother k Hk) as [Hn Hp]. specialize (Hp' k). by rewrite Hn, Hp in Hp'.
Qed.

Lemma take_ok now queueName leaseMs worker t :
  well_formed t →
  let t' := (take now queueName leaseMs worker t).2 in
  well_formed t' ∧
  ∀ k, job_step (op_take now queueName leaseMs worker) k (attemptsOf k t) (attemptsOf k t')
         (place_of t k) (place_of t' k).
Proof.
  intros Hw. apply take_loop_ok; [done| |].
  - rewrite (js_sort_perm by_availability (pending t)). apply Hw.
  - intros k e He. rewrite js_sort_elem in He. apply assoc_in; [apply Hw|done].
Qed.

(** *** Every operation *)

(** Dropping a key from either map, or from both. *)
Lemma drop_ok t t' :
  well_formed t → perQueueAttemptCount t' = perQueueAttemptCount t →
  (∃ k, pending t' = delete_key k (pending t)) ∨ pending t' = pending t →
  (∃ k, active t' = delete_key k (active t)) ∨ active t' = active t →
  well_formed t'.
Proof.
  intros Hw Hc Hp Ha.
  assert (Hp1 : NoDup (pending t').*1 ∧ ∀ k e, assoc k (pending t') = Some e → assoc k (pending t) = Some e).
  { destruct Hp as [[k0 ->]| ->]; [|split; [apply Hw|done]].
    split; [apply delete_key_NoDup, Hw|]. intros k e. by lookups. }
  assert (Ha1 : NoDup (active t').*1 ∧ ∀ k e, assoc k (active t') = Some e → assoc k (active t) = Some e).
  { destruct Ha as [[k0 ->]| ->]; [|split; [apply Hw|done]].
    split; [apply delete_key_NoDup, Hw|]. intros k e. by lookups. }
  assert (Hn : ∀ k, attemptsOf k t' = attemptsOf k t) by (intros; unfold attemptsOf; by rewrite Hc).
  destruct Hp1 as [Hp1 Hp2], Ha1 as [Ha1 Ha2]. split; [done|done|..].
  - intros k. destruct (assoc k (active t')) eqn:E; [|by left].
    destruct (assoc k (pending t')) eqn:E'; [|by right].
    apply Ha2 in E. apply Hp2 in E'. destruct (exclusive _ Hw k); congruence.
  - intros k e He. by apply Hw, Hp2.
  - intros k a Hk. rewrite Hn. by apply Hw, Ha2.
  - intros k. rewrite Hn. apply Hw.
Qed.

Lemma enqueue_ok now envelope delayMs t :
  well_formed t → well_formed (enqueue now envelope delayMs t).2.
Proof.
  intros Hw. unfold enqueue. destruct (tracked _ t) eqn:Ht; [done|].
  apply place_nowhere in Ht. unfold place_of in Ht.
  split; simpl; [apply set_key_NoDup, Hw|apply Hw|..]; try apply Hw.
  - intros k. lookups; [left|apply Hw]. by repeat case_match.
  - intros k e. lookups; [by intros [= <-]|apply Hw].
Qed.

Lemma apply_op_ok t op : well_formed t → well_formed (apply_op t op).
Proof.
  intros Hw. destruct op; cbn [apply_op].
  - by apply enqueue_ok.
  - by apply release_ok.
  - by apply take_ok.
  - unfold heartbeat. destruct (assoc key (active t)) as [held|] eqn:Hk; [|done].
    destruct (negb _) eqn:Hh; [done|]. breflect.
    split; simpl; [apply Hw|apply set_key_NoDup, Hw|..]; try apply Hw.
    + intros k. lookups; [|apply Hw]. right. destruct (exclusive _ Hw key); congruence.
    + intros k a. lookups; [|apply Hw]. intros [= <-]. simpl. by apply Hw.
  - unfold complete. destruct (assoc key (active t)) as [held|] eqn:Hk; [|done].
    destruct (negb _) eqn:Hh; [done|]. apply (drop_ok t); [done|done|by right|left; by exists key].
  - apply (drop_ok t); [done|done|left|left]; by exists key.
  - unfold remove. repeat case_match; try done.
    apply (drop_ok t); [done|done|left; by exists key|by right].
Qed.

Lemma apply_op_step t op key :
  well_formed t →
  job_step op key (attemptsOf key t) (attemptsOf key (apply_op t op))
    (place_of t key) (place_of (apply_op t op) key).
Proof.
  intros Hw. destruct op; cbn [apply_op].
  - unfold enqueue. destruct (tracked _ t) eqn:Ht; [by left|]. apply place_nowhere in Ht.
    destruct (decide (key = uniqueKey envelope)) as [->|Hk].
    + right. unfold place_of in *. cbn [snd active pending]. rewrite assoc_set, String.eqb_refl.
      destruct (assoc _ (active t)); [done|]. by rewrite Ht.
    + left. unfold place_of. cbn [snd active pending].
      by rewrite assoc_set, (proj2 (String.eqb_neq _ _) Hk).
  - destruct (release_ok nowMs t Hw) as (_ & Hc & Hp). rewrite Hp. unfold attemptsOf. rewrite Hc.
    destruct (place_of t key) as [e|a|]; [by left| |by left]. cbn [released].
    destruct (leaseUntilMs a <=? nowMs) eqn:Hl; [|by left]. breflect. by right.
  - by apply take_ok.
  - unfold heartbeat. destruct (assoc key0 (active t)) as [held|] eqn:Hk; [|by left].
    destruct (negb _) eqn:Hh; [by left|]. breflect. unfold place_of. cbn [snd active pending].
    rewrite assoc_set. destruct (String.eqb_spec key key0) as [->|Hne]; [|by left].
    right. rewrite Hk. subst worker. done.
  - unfold complete. destruct (assoc key0 (active t)) as [held|] eqn:Hk; [|by left].
    destruct (negb _) eqn:Hh; [by left|]. breflect. unfold place_of. cbn [snd active pending].
    destruct (decide (key = key0)) as [->|Hne].
    + right. rewrite assoc_delete_same, Hk. by destruct (exclusive _ Hw key0) as [?| ->]; [congruence|].
    + left. by rewrite assoc_delete.
  - unfold place_of. cbn [deadLetter active pending]. destruct (decide (key = key0)) as [->|Hne].
    + right. rewrite !assoc_delete_same. by repeat case_match.
    + left. by rewrite !assoc_delete.
  - unfold remove. destruct (assoc key0 (pending t)) as [e|] eqn:Hk.
    + unfold place_of. cbn [snd active pending]. destruct (decide (key = key0)) as [->|Hne].
      * right. rewrite assoc_delete_same, Hk. by destruct (exclusive _ Hw key0) as [-> |?]; [|congruence].
      * left. by rewrite assoc_delete.
    + left. by destruct (assoc key0 (active t)).
Qed.

Lemma apply_ops_ok ops t : well_formed t → well_formed (apply_ops t ops).
Proof. revert t. induction ops as [|op ops IH]; intros t Hw; [done|]. by apply IH, apply_op_ok. Qed.

(* @prop invariant 6.8 : enqueue claim take_loop releaseExpiredLeases heartbeat complete deadLetter remove InMemoryTransport *)
(** C28. No job is lost and none runs twice at once, over any sequence of operations of any
    number of producers and workers: a key is filed once, a job either waits or runs, and it
    moves only along the life cycle -- enqueued when nowhere, taken when due and counted as one
    more attempt, put back when its lease has run out, and gone only when the worker that runs
    it completes it, when it is dead-lettered, or when it is removed while it waits. *)
Theorem queue_loses_nothing ops op key :
  let t := apply_ops empty_transport ops in
  let t' := apply_op t op in
  well_formed t ∧
  job_step op key (attemptsOf key t) (attemptsOf key t') (place_of t key) (place_of t' key) ∧
  (place_of t key ≠ Nowhere → place_of t' key = Nowhere →
   op = op_deadLetter key ∨
   (op = op_remove key ∧ ∃ e, place_of t key = Waiting e) ∨
   (∃ a, op = op_complete key (workerId a) ∧ place_of t key = Running a)).
Proof.
  intros t t'. assert (Hw : well_formed t) by (apply apply_ops_ok, well_formed_empty).
  pose proof (apply_op_step t op key Hw) as Hstep. fold t' in Hstep.
  split_and!; [done|done|]. intros Hsome Hnone. rewrite Hnone in Hstep.
  destruct Hstep as [[Heq _]|Hstep]; [by rewrite Heq in Hsome|].
  destruct op; simpl in Hstep; destruct (place_of t key) as [e|a|]; try done;
    destruct_and?; subst; eauto 8.
Qed.

(** What leaves the lease of [key], held by [worker] until [until] at least, in place. *)
Definition respects (key worker : string) (until : Z) (op : transport_op) : bool :=
  match op with
  | op_release nowMs => nowMs <? until
  | op_heartbeat now k leaseMs w => negb ((k =s? key) && (w =s? worker)) || (until <=? now + leaseMs)
  | op_complete k w => negb ((k =s? key) && (w =s? worker))
  | op_deadLetter k => negb (k =s? key)
  | _ => true
  end.

Lemma lease_step t key a until op :
  well_formed t → place_of t key = Running a → until ≤ leaseUntilMs a →
  respects key (workerId a) until op = true →
  ∃ a', place_of (apply_op t op) key = Running a' ∧ until ≤ leaseUntilMs a' ∧
    workerId a' = workerId a ∧ a_envelope a' = a_envelope a ∧ a_attempts a' = a_attempts a.
Proof.
  intros Hw Hp Hu Hr. pose proof (apply_op_step t op key Hw) as Hstep. rewrite Hp in Hstep.
  destruct Hstep as [[-> _]|Hstep]; [by exists a|].
  destruct op, (place_of (apply_op t _) key) as [e'|a'|]; simpl in Hstep; try done;
    destruct_and?; subst; cbn [respects] in Hr; rewrite ?String.eqb_refl in Hr; cbn in Hr;
    try done.
  - breflect. lia.
  - exists {| a_envelope := a_envelope a; leaseUntilMs := now + leaseMs; workerId := workerId a;
              a_attempts := a_attempts a |}. split_and!; [done| |done..]. simpl.
    breflect. lia.
Qed.

Lemma lease_steps ops t key a until :
  well_formed t → place_of t key = Running a → until ≤ leaseUntilMs a →
  forallb (respects key (workerId a) until) ops = true →
  ∃ a', place_of (apply_ops t ops) key = Running a' ∧ until ≤ leaseUntilMs a' ∧
    workerId a' = workerId a ∧ a_envelope a' = a_envelope a ∧ a_attempts a' = a_attempts a.
Proof.
  revert t a. induction ops as [|op ops IH]; intros t a Hw Hp Hu Hr; [by exists a|].
  simpl in Hr. apply andb_true_iff in Hr as [Hr1 Hr].
  destruct (lease_step t key a until op Hw Hp Hu Hr1) as (a1 & Hp1 & Hu1 & Hk1 & He1 & Hn1).
  rewrite <- Hk1 in Hr.
  destruct (IH _ a1 (apply_op_ok t op Hw) Hp1 Hu1 Hr) as (a' & Hp' & Hu' & Hk' & He' & Hn').
  exists a'. split_and!; [done|done|congruence..].
Qed.

(* @prop safety 6.9 : claim take_loop releaseExpiredLeases heartbeat complete deadLetter remove InMemoryTransport / lease_exclusive_witness *)
(** C29. A lease is exclusive: from the moment a worker has taken a job, and as long as no lease
    release runs at or after its expiry and nobody dead-letters the job, no sequence of
    operations of the other workers -- takes, completions, heartbeats, removals, enqueues of
    the same key -- ends its hold: the job stays with that worker under the same attempt, an
    enqueue of the key is refused as a duplicate, a completion by another worker is fenced,
    and its own completion succeeds. *)
Theorem lease_exclusive ops0 ops key a until :
  let t0 := apply_ops empty_transport ops0 in
  let t := apply_ops t0 ops in
  place_of t0 key = Running a → until ≤ leaseUntilMs a →
  forallb (respects key (workerId a) until) ops = true →
  (∃ a', place_of t key = Running a' ∧ workerId a' = workerId a ∧ a_envelope a' = a_envelope a ∧
     attemptsOf key t = a_attempts a ∧ until ≤ leaseUntilMs a') ∧
  (∀ now queueName leaseMs worker,
     place_of (take now queueName leaseMs worker t).2 key = place_of t key) ∧
  (∀ worker, worker ≠ workerId a → (complete key worker t).1 = fenced) ∧
  (complete key (workerId a) t).1 = completed ∧
  (∀ now envelope delayMs, uniqueKey envelope = key →
     enqueue now envelope delayMs t = ({| accepted := false; duplicate := true |}, t)).
Proof.
  intros t0 t Hp Hu Hr.
  assert (Hw0 : well_formed t0) by apply apply_ops_ok, well_formed_empty.
  assert (Hw : well_formed t) by by apply apply_ops_ok.
  destruct (lease_steps ops t0 key a until Hw0 Hp Hu Hr) as (a' & Hp' & Hu' & Hk' & He' & Hn').
  fold t in Hp'. pose proof Hp' as Ha'. apply place_running in Ha'. split_and!.
  - exists a'. split_and!; [done|done|done| |done]. rewrite <- Hn'. by apply (active_own _ Hw).
  - intros now q l w. destruct (apply_op_step t (op_take now q l w) key Hw) as [[? _]|Hstep]; [done|].
    rewrite Hp' in Hstep. by destruct Hstep.
  - intros worker Hne. unfold complete. rewrite Ha', Hk'.
    by rewrite (proj2 (String.eqb_neq (workerId a) worker)).
  - unfold complete. by rewrite Ha', Hk', String.eqb_refl.
  - intros now envelope delayMs <-. unfold enqueue, tracked. rewrite Ha'.
    by destruct (assoc _ (pending t)).
Qed.

Definition sample_job (key : string) : JobEnvelope :=
  {| envelopeVersion := 1; jobId := "env1:workflow.execute:" +s key; jobType := "workflow.execute";
     schemaVersion := 1; queue := "workflow-execution"; uniqueKey := key; payload := [];
     tenantId := None; repositoryId := None; workflowRunId := Some "run"; sessionId := None;
     actionId := None; correlationId := "c"; causationId := None; traceparent := None;
     cancellationGeneration := 0; enqueuedAtIso := "1970-01-01T00:00:00.000Z" |}.

(** A job taken by w1 at 0 for 100 ms; w2 looks for work, releases leases and tries to
    complete it. *)
Lemma lease_exclusive_witness :
  (complete "k" "w2"
     (apply_ops (apply_ops empty_transport
                   [op_enqueue 0 (sample_job "k") 0; op_take 0 "workflow-execution" 100 "w1"])
        [op_release 50; op_take 50 "workflow-execution" 100 "w2"; op_complete "k" "w2"])).1 = fenced.
Proof.
  apply (lease_exclusive
           [op_enqueue 0 (sample_job "k") 0; op_take 0 "workflow-execution" 100 "w1"]
           [op_release 50; op_take 50 "workflow-execution" 100 "w2"; op_complete "k" "w2"] "k"
           {| a_envelope := sample_job "k"; leaseUntilMs := 100; workerId := "w1"; a_attempts := 1 |}
           100); [reflexivity|simpl; lia|reflexivity|done].
Defined.

(** ** Backoff *)

Lemma backoff_value attempt options draw :
  1 ≤ attempt →
  backoffDelayMs attempt options draw =
  Returned (Qfloor (draw * inject_Z (backoff_cap attempt options * 1000))%Q).
Proof. intros Ha. unfold backoffDelayMs. by rewrite (proj2 (Z.ltb_ge attempt 1)) by lia. Qed.

Definition uniform_draw (r : Q) : Prop := (0 <= r)%Q ∧ (r < 1)%Q.

(** [Math.floor] of a draw scaled to [n] ranges over exactly the integers from 0 below [n]. *)
Lemma floor_draw_bounds n r : 0 < n → uniform_draw r → 0 ≤ Qfloor (r * inject_Z n)%Q < n.
Proof.
  intros Hn [H0 H1].
  assert (Hpos : (0 < inject_Z n)%Q) by (change 0%Q with (inject_Z 0); by rewrite <- Zlt_Qlt).
  split.
  - apply (Qfloor_resp_le 0). apply Qmult_le_0_compat; [done|]. by apply Qlt_le_weak.
  - rewrite Zlt_Qlt. eapply Qle_lt_trans; [apply Qfloor_le|].
    apply Qlt_le_trans with (1 * inject_Z n)%Q; [by apply Qmult_lt_r|].
    rewrite Qmult_1_l. apply Qle_refl.
Qed.

Lemma floor_draw_all n d : 0 ≤ d < n → ∃ r, uniform_draw r ∧ Qfloor (r * inject_Z n)%Q = d.
Proof.
  intros Hd. exists (d # Z.to_pos n)%Q. split.
  - split; unfold Qle, Qlt; simpl; [lia|]. rewrite Z2Pos.id; lia.
  - etrans; [|apply (Qfloor_Z d)]. apply Qfloor_comp.
    unfold Qeq. cbn [Qnum Qden Qmult inject_Z]. rewrite Pos.mul_1_r, Z2Pos.id by lia. lia.
Qed.

Lemma backoff_cap_pos attempt options :
  1 ≤ attempt → 0 < (backoffBaseSeconds options ?? 1) → 0 < (maxBackoffSeconds options ?? 60) →
  0 < backoff_cap attempt options.
Proof.
  intros Ha Hb Hm. unfold backoff_cap. pose proof (Z.pow_pos_nonneg 2 (attempt - 1)). nia.
Qed.

(** The backoff is a full jitter, within its bounds and over all of them: for every attempt
    from 1 and positive options the possible delays are exactly the milliseconds from 0 to
    just below 1000 times the lesser of the cap and base * 2^(attempt-1) seconds -- a bound
    that never shrinks from one attempt to the next and never exceeds the cap. *)
Theorem backoff_range attempt options (d : Z) :
  1 ≤ attempt → 0 < (backoffBaseSeconds options ?? 1) → 0 < (maxBackoffSeconds options ?? 60) →
  ((∃ r, uniform_draw r ∧ backoffDelayMs attempt options r = Returned d) ↔
   0 ≤ d < 1000 * backoff_cap attempt options) ∧
  backoff_cap attempt options ≤ backoff_cap (attempt + 1) options ≤ maxBackoffSeconds options ?? 60.
Proof.
  intros Ha Hb Hm. pose proof (backoff_cap_pos attempt options Ha Hb Hm) as Hc. split; [split|].
  - intros (r & Hr & Hd). rewrite backoff_value in Hd by done.
    pose proof (floor_draw_bounds (backoff_cap attempt options * 1000) r ltac:(lia) Hr) as Hf.
    assert (Heq : d = Qfloor (r * inject_Z (backoff_cap attempt options * 1000))%Q) by congruence. lia.
  - intros Hd. destruct (floor_draw_all (backoff_cap attempt options * 1000) d) as (r & Hr & Hf); [lia|].
    exists r. split; [done|]. rewrite backoff_value by done. by rewrite Hf.
  - unfold backoff_cap. replace (attempt + 1 - 1) with (Z.succ (attempt - 1)) by lia.
    rewrite Z.pow_succ_r by lia. pose proof (Z.pow_pos_nonneg 2 (attempt - 1)). nia.
Qed.

Lemma backoff_range_witness :
  ∃ r, uniform_draw r ∧ backoffDelayMs 9 (attempts_only 10) r = Returned 59999.
Proof.
  apply (backoff_range 9 (attempts_only 10) 59999); [lia|reflexivity|reflexivity|].
  split; [lia|reflexivity].
Defined.

(** ** The worker runtime *)

(* @src packages/queue/src/runtime.ts:63-70 WorkerRuntimeOptions *)
Record WorkerRuntimeOptions := {
  queues : list string;
  leaseMs : Z;
  maxConcurrent : Z;
  runtime_workerId : string;
  maxAttemptsByQueue : list (string * RetryOptions);
}.

(* @src packages/queue/src/envelope.ts:125-131 HandlerContext *)
Record HandlerContext := {
  attempt : Z;
  ctx_maxAttempts : Z;
  leaseToken : string;
}.

(** The calls of the runtime: the transport, the fence, the random source, the set of jobs in
    flight, and the handler found. *)
(* @src packages/queue/src/retry.ts:53-64 QueueTransport *)
Inductive QueueCall :=
  | call_release (nowMs : Z)
  | call_claim (queueName : string) (leaseMs : Z) (worker : string)
  | call_complete (key worker : string)
  | call_deadLetter (key errorCode : string)
  | call_enqueue (envelope : JobEnvelope) (delayMs : Z)
  | call_attemptsOf (key : string)
  | call_isFenced (envelope : JobEnvelope)
  | call_random
  | call_inFlightSize
  | call_inFlightAdd (key : string)
  | call_inFlightDelete (key : string)
  | call_handler (handler : JobHandler) (envelope : JobEnvelope) (ctx : HandlerContext).

Definition QueueAns (c : QueueCall) : Type :=
  match c with
  | call_release _ => Z
  | call_claim _ _ _ => list JobEnvelope
  | call_complete _ _ => Completion
  | call_deadLetter _ _ => unit
  | call_enqueue _ _ => EnqueueResult
  | call_attemptsOf _ => Z
  | call_isFenced _ => bool
  | call_random => Q
  | call_inFlightSize => Z
  | call_inFlightAdd _ => unit
  | call_inFlightDelete _ => unit
  | call_handler _ _ _ => JobHandlerResult
  end.

(* @src packages/queue/src/runtime.ts:125-127 WorkerRuntime.executeClaimed *)
Definition retry_options (options : WorkerRuntimeOptions) (queueName : string) : RetryOptions :=
  let defaults := assoc queueName QUEUE_RETRY_DEFAULTS ?? attempts_only 8 in
  match assoc queueName (maxAttemptsByQueue options) with
  | None => defaults
  | Some overrides =>
      {| maxAttempts := maxAttempts overrides;
         backoffBaseSeconds := match backoffBaseSeconds overrides with
                               | Some b => Some b | None => backoffBaseSeconds defaults end;
         maxBackoffSeconds := match maxBackoffSeconds overrides with
                              | Some b => Some b | None => maxBackoffSeconds defaults end |}
  end.

Section Runtime.
Context (registry : JobRegistry) (options : WorkerRuntimeOptions).

(** The handler's outcome, or nothing once an unknown job type has been dead-lettered. *)
(* @src packages/queue/src/runtime.ts:136-158 WorkerRuntime.executeClaimed *)
Definition dispatch (envelope : JobEnvelope) : proc QueueAns (option JobHandlerResult) :=
  let key := uniqueKey envelope in
  ptry
    (match resolve (jobType envelope) (schemaVersion envelope) registry with
     | Threw e => throw e
     | Returned handler =>
         n <~ call (Ans := QueueAns) (call_attemptsOf key) ;;
         r <~ call (Ans := QueueAns) (call_handler handler envelope
                 {| attempt := n;
                    ctx_maxAttempts := maxAttempts (retry_options options (queue envelope));
                    leaseToken := runtime_workerId options +s ":" +s key |}) ;;
         pret (Some (r : JobHandlerResult))
     end)
    (λ e, if decide (e = UnknownJobTypeError) then
            call (call_deadLetter key "JOB_UNKNOWN") ;~ pret None
          else throw e).

(* @src packages/queue/src/runtime.ts:167-188 WorkerRuntime.executeClaimed *)
Definition retry_or_bury (envelope : JobEnvelope) (errorCode : string) : proc QueueAns unit :=
  let key := uniqueKey envelope in
  let retry := retry_options options (queue envelope) in
  attempts <~ call (call_attemptsOf key) ;;
  if maxAttempts retry <=? attempts then call (call_deadLetter key errorCode)
  else
    draw <~ call call_random ;;
    match backoffDelayMs (attempts + 1) retry draw with
    | Threw e => throw e
    | Returned delay =>
        ptry (call (call_complete key (runtime_workerId options)) ;~ pret tt) (λ _, pret tt) ;~
        call (call_enqueue envelope delay) ;~ pret tt
    end.

(* @src packages/queue/src/runtime.ts:122-199 WorkerRuntime.executeClaimed *)
Definition executeClaimed (envelope : JobEnvelope) : proc QueueAns unit :=
  let key := uniqueKey envelope in
  fenced_ <~ call (call_isFenced envelope) ;;
  if (fenced_ : bool) then call (call_deadLetter key "CANCELLED_FENCED")
  else
    outcome_ <~ dispatch envelope ;;
    match outcome_ with
    | None => pret tt
    | Some SUCCEEDED => call (call_complete key (runtime_workerId options)) ;~ pret tt
    | Some (RETRYABLE_FAILURE errorCode) => retry_or_bury envelope errorCode
    | Some (PERMANENT_FAILURE errorCode) => call (call_deadLetter key errorCode)
    end.

(** [try { ... } finally { this.#inFlight.delete(uniqueKey) }]. *)
(* @src packages/queue/src/runtime.ts:109-116 WorkerRuntime.processOnce *)
Definition process_claimed (envelope : JobEnvelope) : proc QueueAns unit :=
  let key := uniqueKey envelope in
  call (call_inFlightAdd key) ;~
  failed <~ ptry (executeClaimed envelope ;~ pret None) (λ e, pret (Some e)) ;;
  call (call_inFlightDelete key) ;~
  match failed with None => pret tt | Some e => throw e end.

(* @src packages/queue/src/runtime.ts:108-117 WorkerRuntime.processOnce *)
Fixpoint process_all (claimed : list JobEnvelope) (processed : Z) : proc QueueAns Z :=
  match claimed with
  | [] => pret processed
  | envelope :: claimed => process_claimed envelope ;~ process_all claimed (processed + 1)
  end.

(* @src packages/queue/src/runtime.ts:101-119 WorkerRuntime.processOnce *)
Fixpoint process_queues (names : list string) (processed : Z) : proc QueueAns Z :=
  match names with
  | [] => pret processed
  | queueName :: names =>
      size <~ call call_inFlightSize ;;
      if maxConcurrent options <=? size then pret processed
      else
        claimed <~ call (call_claim queueName (leaseMs options) (runtime_workerId options)) ;;
        processed <~ process_all claimed processed ;;
        process_queues names processed
  end.

(* @src packages/queue/src/runtime.ts:97-120 WorkerRuntime.processOnce *)
Definition processOnce (running draining stopRequested : bool) (nowMs : Z) : proc QueueAns Z :=
  if negb running || draining || stopRequested then pret 0
  else
    call (call_release nowMs) ;~ process_queues (queues options) 0.
End Runtime.

(** ** The runtime over the in-memory transport

    One worker with its transport, fence and clock; [draws] are the numbers its random source
    gives, [answer] is what its handlers answer and [takes] the milliseconds they take to. *)
Record World := {
  transport : InMemoryTransport;
  generations : gmap string Z;
  clock : Z;
  inFlight : gset string;
  drawn : nat;
}.

Section WithWorld.
Context (draws : nat → Q) (answer : JobHandler → JobEnvelope → HandlerContext → outcome JobHandlerResult).
Context (takes : JobHandler → JobEnvelope → HandlerContext → Z).

Definition with_transport (w : World) (t : InMemoryTransport) : World :=
  {| transport := t; generations := generations w; clock := clock w; inFlight := inFlight w;
     drawn := drawn w |}.

Definition with_inFlight (w : World) (s : gset string) : World :=
  {| transport := transport w; generations := generations w; clock := clock w; inFlight := s;
     drawn := drawn w |}.

Definition at_time (now : Z) (w : World) : World :=
  {| transport := transport w; generations := generations w; clock := now;
     inFlight := inFlight w; drawn := drawn w |}.

Definition queue_port (c : QueueCall) (w : World) : outcome (QueueAns c) * World :=
  let t := transport w in
  match c return outcome (QueueAns c) * World with
  | call_release nowMs =>
      let '(n, t) := releaseExpiredLeases nowMs t in (Returned n, with_transport w t)
  | call_claim q l k => let '(c, t) := claim (clock w) (clock w) q l k t in (Returned c, with_transport w t)
  | call_complete k o => let '(c, t) := complete k o t in (Returned c, with_transport w t)
  | call_deadLetter k _ => (Returned tt, with_transport w (deadLetter k t))
  | call_enqueue e d => let '(r, t) := enqueue (clock w) e d t in (Returned r, with_transport w t)
  | call_attemptsOf k => (Returned (attemptsOf k t), w)
  | call_isFenced e => (Returned (isFenced e (generations w)), w)
  | call_random =>
      (Returned (draws (drawn w)),
       {| transport := t; generations := generations w; clock := clock w; inFlight := inFlight w;
          drawn := S (drawn w) |})
  | call_inFlightSize => (Returned (Z.of_nat (size (inFlight w))), w)
  | call_inFlightAdd k => (Returned tt, with_inFlight w ({[k]} ∪ inFlight w))
  | call_inFlightDelete k => (Returned tt, with_inFlight w (inFlight w ∖ {[k]}))
  | call_handler h e ctx => (answer h e ctx, at_time (clock w + takes h e ctx) w)
  end.

Context (registry : JobRegistry) (options : WorkerRuntimeOptions).

#[local] Abbreviation worker := (runtime_workerId options).
#[local] Abbreviation runs := (final queue_port).

(** What the handler of a job is given on an attempt. *)
Definition context_at (e : JobEnvelope) (n : Z) : HandlerContext :=
  {| attempt := n; ctx_maxAttempts := maxAttempts (retry_options options (queue e));
     leaseToken := worker +s ":" +s uniqueKey e |}.
Definition context_of (w : World) (e : JobEnvelope) : HandlerContext :=
  context_at e (attemptsOf (uniqueKey e) (transport w)).

(** The state after a retryable failure: buried at the last attempt, else put back with the
    backoff of the next one. *)
Definition after_retryable (w : World) (e : JobEnvelope) : World :=
  let t := transport w in
  let retry := retry_options options (queue e) in
  let n := attemptsOf (uniqueKey e) t in
  if maxAttempts retry <=? n then with_transport w (deadLetter (uniqueKey e) t)
  else
    let delay := Qfloor (draws (drawn w) * inject_Z (backoff_cap (n + 1) retry * 1000))%Q in
    {| transport := (enqueue (clock w) e delay (complete (uniqueKey e) worker t).2).2;
       generations := generations w; clock := clock w; inFlight := inFlight w;
       drawn := S (drawn w) |}.

(** What one execution leaves behind, when its handler answers. *)
Definition after_execution (w : World) (e : JobEnvelope) (handler : JobHandler)
    (r : JobHandlerResult) : World :=
  if isFenced e (generations w) then with_transport w (deadLetter (uniqueKey e) (transport w))
  else
    let w := at_time (clock w + takes handler e (context_of w e)) w in
    match r with
    | SUCCEEDED => with_transport w (complete (uniqueKey e) worker (transport w)).2
    | RETRYABLE_FAILURE _ => after_retryable w e
    | PERMANENT_FAILURE _ => with_transport w (deadLetter (uniqueKey e) (transport w))
    end.

Lemma port_complete w k o :
  queue_port (call_complete k o) w =
  (Returned (complete k o (transport w)).1, with_transport w (complete k o (transport w)).2).
Proof. simpl. by destruct (complete _ _ _). Qed.

Lemma port_enqueue w e d :
  queue_port (call_enqueue e d) w =
  (Returned (enqueue (clock w) e d (transport w)).1,
   with_transport w (enqueue (clock w) e d (transport w)).2).
Proof. simpl. by destruct (enqueue _ _ _ _). Qed.

Lemma run_retry w e code :
  0 ≤ attemptsOf (uniqueKey e) (transport w) →
  runs (retry_or_bury options e code) w = (Returned tt, after_retryable w e).
Proof.
  intros Hn. unfold retry_or_bury, after_retryable.
  rewrite final_pbind, final_call. cbn [queue_port fst snd].
  case_match; [reflexivity|].
  rewrite final_pbind, final_call. cbn [queue_port]. rewrite backoff_value by lia.
  rewrite final_pbind, final_ptry, final_pbind, final_call, port_complete.
  cbv beta iota. rewrite final_pret. cbv beta iota.
  rewrite final_pbind, final_call, port_enqueue. reflexivity.
Qed.

Lemma run_execute w e handler r :
  0 ≤ attemptsOf (uniqueKey e) (transport w) →
  resolve (jobType e) (schemaVersion e) registry = Returned handler →
  answer handler e (context_of w e) = Returned r →
  runs (executeClaimed registry options e) w = (Returned tt, after_execution w e handler r).
Proof.
  intros Hn Hh Hr. unfold executeClaimed, after_execution.
  rewrite final_pbind, final_call. cbn [queue_port].
  case_match; [reflexivity|].
  rewrite final_pbind. unfold dispatch. rewrite Hh, final_ptry, final_pbind, final_call.
  cbn [queue_port]. rewrite final_pbind, final_call. cbn [queue_port].
  unfold context_of, context_at in *. rewrite Hr. cbv beta iota. rewrite final_pret. cbv beta iota.
  destruct r as [|code|code].
  - rewrite final_pbind, final_call, port_complete. reflexivity.
  - by apply run_retry.
  - reflexivity.
Qed.

(** *** One job, pass after pass *)

Lemma take_nothing now q l k t :
  (∀ key e, (key, e) ∈ pending t → queue (p_envelope e) ≠ q) → take now q l k t = ([], t).
Proof.
  intros Hq. unfold take.
  assert (H : ∀ key e, (key, e) ∈ js_sort by_availability (pending t) → queue (p_envelope e) ≠ q).
  { intros key e. rewrite js_sort_elem. apply Hq. }
  revert H. generalize (js_sort by_availability (pending t)). intros l0 H.
  induction l0 as [|[key e] l0 IH]; [done|]. cbn [take_loop].
  assert (Hqe : (queue (p_envelope e) =s? q) = false) by (apply String.eqb_neq, (H key); left).
  rewrite Hqe. apply IH.
  intros key' e' Hin. apply (H key'). by right.
Qed.

Lemma nothing_due names n w :
  active (transport w) = [] →
  (∀ key e, (key, e) ∈ pending (transport w) → queue (p_envelope e) ∉ names) →
  runs (process_queues registry options names n) w = (Returned n, w).
Proof.
  intros Ha Hq. induction names as [|q names IH]; [done|]. cbn [process_queues].
  rewrite final_pbind, final_call. cbn [queue_port]. case_match; [done|].
  rewrite final_pbind, final_call. cbn [queue_port]. unfold claim, releaseExpiredLeases. rewrite Ha.
  cbn [fold_left snd]. rewrite take_nothing.
  - cbn [process_all]. rewrite pbind_pret. destruct w. apply IH.
    intros key e Hin. apply Hq in Hin. by apply not_elem_of_cons in Hin as [_ ?].
  - intros key e Hin Heq. apply (Hq key e Hin). rewrite Heq. left.
Qed.

Lemma skip_names names1 names2 n w :
  active (transport w) = [] → inFlight w = ∅ → 0 < maxConcurrent options →
  (∀ key e, (key, e) ∈ pending (transport w) → queue (p_envelope e) ∉ names1) →
  runs (process_queues registry options (names1 ++ names2) n) w =
  runs (process_queues registry options names2 n) w.
Proof.
  intros Ha Hf Hm Hq. induction names1 as [|q names1 IH]; [done|]. cbn [app process_queues].
  rewrite final_pbind, final_call. cbn [queue_port]. rewrite Hf, size_empty.
  rewrite (proj2 (Z.leb_gt _ _)) by (simpl; lia).
  rewrite final_pbind, final_call. cbn [queue_port]. unfold claim, releaseExpiredLeases. rewrite Ha.
  cbn [fold_left snd]. rewrite take_nothing.
  - cbn [process_all]. rewrite pbind_pret. destruct w. apply IH.
    intros key e Hin. apply Hq in Hin. by apply not_elem_of_cons in Hin as [_ ?].
  - intros key e Hin Heq. apply (Hq key e Hin). rewrite Heq. left.
Qed.

Definition only_waiting (e : JobEnvelope) (n availableAt : Z) (w : World) : Prop :=
  pending (transport w) = [(uniqueKey e, {| p_envelope := e; availableAtMs := availableAt |})] ∧
  active (transport w) = [] ∧ attemptsOf (uniqueKey e) (transport w) = n ∧ inFlight w = ∅.

(** Neither waiting nor running, and nothing else is. *)
Definition gone (w : World) : Prop :=
  pending (transport w) = [] ∧ active (transport w) = [] ∧ inFlight w = ∅.

Definition pass (now : Z) (w : World) : World :=
  (runs (processOnce registry options true false false now) (at_time now w)).2.

Definition passes (times : list Z) (w : World) : World := fold_left (λ w now, pass now w) times w.

Lemma pass_gone now w : gone w → pass now w = at_time now w.
Proof.
  intros (Hp & Ha & Hf). unfold pass, processOnce. cbn [negb orb].
  rewrite final_pbind, final_call. cbn [queue_port transport at_time].
  unfold releaseExpiredLeases. rewrite Ha. cbn [fold_left].
  rewrite nothing_due; simpl; [by destruct w|done|]. rewrite Hp. by intros key e ?%elem_of_nil.
Qed.

(** How a job ends on its attempt [n]: it completed, or it is among the dead because it was
    fenced, failed for good, or failed on its last attempt. *)
Definition settled (e : JobEnvelope) (handler : JobHandler) (n : Z) (w : World) : Prop :=
  gone w ∧ attemptsOf (uniqueKey e) (transport w) = n ∧
  ((isFenced e (generations w) = false ∧ answer handler e (context_at e n) = Returned SUCCEEDED) ∨
   (uniqueKey e ∈ dead (transport w) ∧
    (isFenced e (generations w) = true ∨
     (∃ code, answer handler e (context_at e n) = Returned (PERMANENT_FAILURE code)) ∨
     (maxAttempts (retry_options options (queue e)) ≤ n ∧
      ∃ code, answer handler e (context_at e n) = Returned (RETRYABLE_FAILURE code))))).

(** It is not fenced and failed on the attempt, with another to come. *)
Definition retried (e : JobEnvelope) (handler : JobHandler) (w : World) (n : Z) : Prop :=
  isFenced e (generations w) = false ∧ n < maxAttempts (retry_options options (queue e)) ∧
  ∃ code, answer handler e (context_at e n) = Returned (RETRYABLE_FAILURE code).

Lemma settled_at_time e handler n now w : settled e handler n w → settled e handler n (at_time now w).
Proof. done. Qed.

Lemma run_claimed w e handler r n :
  0 ≤ attemptsOf (uniqueKey e) (transport w) →
  resolve (jobType e) (schemaVersion e) registry = Returned handler →
  answer handler e (context_of w e) = Returned r →
  inFlight w = ∅ →
  runs (process_all registry options [e] n) w = (Returned (n + 1), after_execution w e handler r).
Proof.
  intros Hn Hh Hr Hf. cbn [process_all]. rewrite final_pbind. unfold process_claimed.
  rewrite final_pbind. cbn [final exec call queue_port]. cbv beta iota.
  rewrite final_pbind, final_ptry, final_pbind.
  rewrite (run_execute (with_inFlight w ({[uniqueKey e]} ∪ inFlight w)) e handler r) by done.
  cbv beta iota. rewrite final_pret. cbv beta iota. rewrite final_pbind.
  cbn [final exec call queue_port]. cbv beta iota. rewrite final_pret. cbv beta iota.
  rewrite final_pret. f_equal.
  assert (Hs : ({[uniqueKey e]} ∪ ∅) ∖ {[uniqueKey e]} =@{gset string} ∅) by set_solver.
  destruct w as [t g c f d]. simpl in Hf. subst f.
  unfold after_execution, after_retryable, with_inFlight, with_transport. simpl.
  repeat case_match; simpl; by rewrite Hs.
Qed.

(** The queue's turn: the job is taken under a lease, and runs. *)
Lemma claim_only e n availableAt w :
  only_waiting e n availableAt w → availableAt ≤ clock w →
  let t := transport w in
  claim (clock w) (clock w) (queue e) (leaseMs options) worker t =
  ([e], {| pending := [];
           active := [(uniqueKey e,
                       {| a_envelope := e; leaseUntilMs := clock w + leaseMs options;
                          workerId := worker; a_attempts := n + 1 |})];
           dead := dead t;
           perQueueAttemptCount := <[uniqueKey e := n + 1]> (perQueueAttemptCount t) |}).
Proof.
  intros (Hp & Ha & Hn & _) Hdue t. subst t. unfold claim, releaseExpiredLeases. rewrite Ha.
  cbn [fold_left snd]. unfold take. rewrite Hp. cbn [js_sort foldr sort_insert take_loop p_envelope].
  rewrite String.eqb_refl, (proj2 (Z.ltb_ge _ _)) by (simpl; lia). cbn [negb orb length app].
  unfold take_one. rewrite Hp, Ha, Hn. cbn [delete_key List.filter fst set_key].
  by rewrite String.eqb_refl.
Qed.

(** However the handler answers, the job is settled or waits for its next attempt. *)
Lemma execution_moves_on e handler r w n until :
  pending (transport w) = [] →
  active (transport w) = [(uniqueKey e, {| a_envelope := e; leaseUntilMs := until;
                                           workerId := worker; a_attempts := n |})] →
  attemptsOf (uniqueKey e) (transport w) = n → inFlight w = ∅ → 1 ≤ n →
  answer handler e (context_at e n) = Returned r →
  let retry := retry_options options (queue e) in
  0 < (backoffBaseSeconds retry ?? 1) → 0 < (maxBackoffSeconds retry ?? 60) →
  (∀ i, uniform_draw (draws i)) →
  let w' := after_execution w e handler r in
  generations w' = generations w ∧
  (settled e handler n w' ∨
   (retried e handler w n ∧
    ∃ availableAt, only_waiting e n availableAt w' ∧
      availableAt < clock w + takes handler e (context_at e n) + 1000 * (maxBackoffSeconds retry ?? 60))).
Proof.
  intros Hp Ha Hn Hf Hn1 Hr retry Hb Hm Hd w'. subst w'.
  assert (Hdead : ∀ now, let w' := with_transport (at_time now w) (deadLetter (uniqueKey e) (transport w)) in
    gone w' ∧ attemptsOf (uniqueKey e) (transport w') = n ∧ uniqueKey e ∈ dead (transport w')).
  { intros now. split; [|split; [exact Hn|set_solver]]. unfold gone, deadLetter, with_transport. simpl.
    rewrite Hp, Ha. simpl. by rewrite String.eqb_refl. }
  assert (Hdone : pending (complete (uniqueKey e) worker (transport w)).2 = [] ∧
                  active (complete (uniqueKey e) worker (transport w)).2 = [] ∧
                  perQueueAttemptCount (complete (uniqueKey e) worker (transport w)).2 =
                  perQueueAttemptCount (transport w)).
  { unfold complete. rewrite Ha. simpl. rewrite !String.eqb_refl. simpl. rewrite Hp. done. }
  unfold after_execution. destruct (isFenced e (generations w)) eqn:Hfence.
  { split; [done|]. left. destruct (Hdead (clock w)) as (Hg & Hk & Hin). split; [exact Hg|]. split; [exact Hk|].
    right. split; [exact Hin|by left]. }
  unfold context_of. rewrite Hn. set (later := clock w + takes handler e (context_at e n)).
  destruct r as [|code|code].
  - split; [done|]. left. destruct Hdone as (H1 & H2 & H3). split; [by split_and!|].
    split; [unfold attemptsOf in *; simpl; by rewrite H3|]. by left.
  - unfold after_retryable. cbn [transport at_time drawn clock generations inFlight]. fold retry. rewrite Hn.
    case_match; breflect.
    + split; [done|]. left. destruct (Hdead later) as (Hg & Hk & Hin). split; [exact Hg|]. split; [exact Hk|].
      right. split; [exact Hin|]. right; right. split; [done|by exists code].
    + split; [done|]. right. split; [split_and!; [done|done|by exists code]|]. set (delay := Qfloor _).
      assert (Hdelay : 0 ≤ delay < backoff_cap (n + 1) retry * 1000).
      { apply floor_draw_bounds; [|apply Hd]. pose proof (backoff_cap_pos (n + 1) retry). lia. }
      exists (later + delay). destruct Hdone as (Hp1 & Ha1 & Hc1). split.
      * revert Hp1 Ha1 Hc1. generalize ((complete (uniqueKey e) worker (transport w)).2).
        intros t1 Hp1 Ha1 Hc1. unfold only_waiting, enqueue, tracked. rewrite Hp1, Ha1. simpl.
        unfold attemptsOf in *. simpl. by rewrite Hc1.
      * unfold backoff_cap in Hdelay. lia.
  - split; [done|]. left. destruct (Hdead later) as (Hg & Hk & Hin). split; [exact Hg|]. split; [exact Hk|].
    right. split; [exact Hin|]. right; left. by exists code.
Qed.

Lemma pass_moves_on e handler now w n availableAt names1 names2 :
  only_waiting e n availableAt w → availableAt ≤ now → 0 ≤ n →
  queues options = names1 ++ queue e :: names2 →
  queue e ∉ names1 → queue e ∉ names2 → 0 < maxConcurrent options →
  resolve (jobType e) (schemaVersion e) registry = Returned handler →
  (∀ ctx, ∃ r, answer handler e ctx = Returned r) →
  let retry := retry_options options (queue e) in
  0 < (backoffBaseSeconds retry ?? 1) → 0 < (maxBackoffSeconds retry ?? 60) →
  (∀ i, uniform_draw (draws i)) →
  generations (pass now w) = generations w ∧
  (settled e handler (n + 1) (pass now w) ∨
   (retried e handler w (n + 1) ∧
    ∃ availableAt', only_waiting e (n + 1) availableAt' (pass now w) ∧
     availableAt' < now + takes handler e (context_at e (n + 1)) + 1000 * (maxBackoffSeconds retry ?? 60))).
Proof.
  intros Hw Hdue Hn Hq H1 H2 Hc Hh Hr retry Hb Hm Hd.
  assert (Hw0 : only_waiting e n availableAt (at_time now w)) by exact Hw.
  destruct (Hw0) as (Hp & Ha & Hk & Hf).
  assert (Hpass : ∃ r until w1,
    pending (transport w1) = [] ∧
    active (transport w1) = [(uniqueKey e, {| a_envelope := e; leaseUntilMs := until;
                                             workerId := worker; a_attempts := n + 1 |})] ∧
    attemptsOf (uniqueKey e) (transport w1) = n + 1 ∧ inFlight w1 = ∅ ∧ clock w1 = now ∧
    generations w1 = generations w ∧ answer handler e (context_at e (n + 1)) = Returned r ∧
    pass now w = (runs (process_queues registry options names2 1) (after_execution w1 e handler r)).2).
  { set (w1 := with_transport (at_time now w)
        (claim now now (queue e) (leaseMs options) worker (transport w)).2).
    pose proof (claim_only e n availableAt (at_time now w) Hw0 Hdue) as Hcl. simpl in Hcl.
    destruct (Hr (context_at e (n + 1))) as [r Hr1].
    assert (Hk1 : attemptsOf (uniqueKey e) (transport w1) = n + 1).
    { subst w1. unfold attemptsOf. simpl. rewrite Hcl. simpl. by rewrite lookup_insert_eq. }
    exists r, (now + leaseMs options), w1.
    split_and!; [by subst w1; simpl; rewrite Hcl|by subst w1; simpl; rewrite Hcl|done|done|done|done|done|].
    unfold pass, processOnce. cbn [negb orb]. rewrite final_pbind, final_call.
    cbn [queue_port transport at_time]. unfold releaseExpiredLeases. simpl in Ha. rewrite Ha.
    cbn [fold_left]. rewrite Hq. change (with_transport (at_time now w) (transport w)) with (at_time now w).
    rewrite skip_names; [|done|done|done|].
    2: { rewrite Hp. intros key e' [= -> ->]%list_elem_of_singleton. done. }
    cbn [process_queues]. rewrite final_pbind, final_call. cbn [queue_port]. rewrite Hf, size_empty.
    rewrite (proj2 (Z.leb_gt _ _)) by (simpl; lia).
    rewrite final_pbind, final_call. cbn [queue_port clock transport at_time].
    assert (Hrun : runs (process_all registry options [e] 0) w1 =
                   (Returned 1, after_execution w1 e handler r)).
    { apply run_claimed; [lia|done|by unfold context_of; rewrite Hk1|done]. }
    subst w1. rewrite Hcl in Hrun |- *. cbn [snd] in Hrun |- *.
    by rewrite final_pbind, Hrun. }
  destruct Hpass as (r & until & w1 & Hp1 & Ha1 & Hk1 & Hf1 & Hc1 & Hg1 & Hr1 & ->).
  destruct (execution_moves_on e handler r w1 (n + 1) until Hp1 Ha1 Hk1 Hf1 ltac:(lia) Hr1 Hb Hm Hd)
    as [Hgen [Hg|(Hret & availableAt' & Hw1 & Hav)]].
  - rewrite nothing_due; [|apply Hg|]; cbn [snd].
    + split; [congruence|by left].
    + destruct Hg as ((-> & _) & _). by intros key e' ?%elem_of_nil.
  - rewrite nothing_due; [|apply Hw1|]; cbn [snd].
    + split; [congruence|]. right. unfold retried in *. rewrite Hg1 in Hret. split; [done|].
      exists availableAt'. by rewrite Hc1 in Hav.
    + destruct Hw1 as (-> & _). by intros key e' [= -> ->]%list_elem_of_singleton.
Qed.
End WithWorld.

(** Pass times: each leaves at least the longest backoff since the one before. *)
Fixpoint spaced (gap since : Z) (times : list Z) : bool :=
  match times with
  | [] => true
  | now :: times => (since <=? now) && spaced gap (now + gap) times
  end.

(** Some pass settles the job, after attempts that all failed and could be made again. *)
Lemma passes_settle draws answer takes registry options e handler names1 names2 longest times :
  queues options = names1 ++ queue e :: names2 →
  queue e ∉ names1 → queue e ∉ names2 → 0 < maxConcurrent options →
  resolve (jobType e) (schemaVersion e) registry = Returned handler →
  (∀ ctx, ∃ r, answer handler e ctx = Returned r) → (∀ ctx, takes handler e ctx ≤ longest) →
  let retry := retry_options options (queue e) in
  0 < (backoffBaseSeconds retry ?? 1) → 0 < (maxBackoffSeconds retry ?? 60) →
  (∀ i, uniform_draw (draws i)) →
  ∀ w n availableAt since, only_waiting e n availableAt w → availableAt ≤ since → 0 ≤ n →
    spaced (longest + 1000 * (maxBackoffSeconds retry ?? 60)) since times = true →
    Z.max 1 (maxAttempts retry - n) ≤ Z.of_nat (length times) →
    let w' := passes draws answer takes registry options times w in
    generations w' = generations w ∧
    ∃ k, n < k ∧ k ≤ Z.max (n + 1) (maxAttempts retry) ∧ settled answer options e handler k w' ∧
      ∀ i, n < i < k → retried answer options e handler w i.
Proof.
  intros Hq H1 H2 Hc Hh Hr Ht retry Hb Hm Hd.
  assert (Hgone : ∀ k times w, settled answer options e handler k w →
    let w' := passes draws answer takes registry options times w in
    generations w' = generations w ∧ settled answer options e handler k w').
  { clear times. intros k times. induction times as [|now times IH]; intros w Hw; [done|].
    cbn [passes fold_left]. rewrite pass_gone by apply Hw. apply (IH (at_time now w)). by apply settled_at_time. }
  induction times as [|now times IH]; intros w n availableAt since Hw Hav Hn Hs Hl; [simpl in Hl; lia|].
  simpl in Hs. apply andb_true_iff in Hs as [Hnow Hs]. breflect.
  destruct (pass_moves_on draws answer takes registry options e handler now w n availableAt names1 names2
              Hw ltac:(lia) Hn Hq H1 H2 Hc Hh Hr Hb Hm Hd) as [Hgen [Hg|(Hret & av & Hw' & Hav')]].
  - destruct (Hgone (n + 1) times _ Hg) as [Hgen' Hset]. split; [by etrans|].
    exists (n + 1). split_and!; [lia|lia|exact Hset|lia].
  - fold retry in Hav'. pose proof (Ht (context_at options e (n + 1))).
    destruct (IH (pass draws answer takes registry options now w) (n + 1) av
      (now + (longest + 1000 * (maxBackoffSeconds retry ?? 60)))) as (Hgen' & k & Hk & Hmax & Hset & Hall);
      [done|lia|lia|done|simpl in Hl; destruct Hret as (_ & Hlt & _); fold retry in Hlt; lia|].
    split; [by etrans|]. exists k. destruct Hret as (Hf & Hlt & Hret). fold retry in Hlt.
    split_and!; [lia|lia|exact Hset|]. intros i Hi. destruct (decide (i = n + 1)) as [->|Hne]; [done|].
    specialize (Hall i ltac:(lia)). unfold retried in *. by rewrite Hgen in Hall.
Qed.


Definition sample_options : WorkerRuntimeOptions :=
  {| queues := ["webhook-processing"; "workflow-execution"]; leaseMs := 30000; maxConcurrent := 4;
     runtime_workerId := "w1";
     maxAttemptsByQueue := [("workflow-execution", attempts_only 3)] |}.

Definition sample_world : World :=
  {| transport := (enqueue 0 (sample_job "k") 0 empty_transport).2; generations := ∅; clock := 0;
     inFlight := ∅; drawn := 0 |}.

