(* ===== verification/Relay.v ===== *)
(** * The outbox relay

    [apps/worker/src/composition/outbox-publish.ts]: the relay that claims rows of the outbox,
    turns each into a job envelope and marks it published once the queue has it; the older
    [packages/queue/src/publisher.ts] does the same over a cursor.  The values of a row's JSON
    payload are read with [String] and [Number]. *)

From S2P Require Import Prelude JsString JsDate Effects Json Contracts.
From S2P Require Outbox Queue.

(** ** Reading members *)

(** [String(v)] of a JSON value. *)
Fixpoint js_String (v : json) : string :=
  match v with
  | JNull => "null"
  | JBool b => if b then "true" else "false"
  | JNum n => num_to_string n
  | JStr s => s
  | JArr l => join "," (map (λ x, match x with JNull => "" | _ => js_String x end) l)
  | JObj _ => "[object Object]"
  end.

Definition own (k : string) (v : json) : option json :=
  match v with JObj l => match assoc k l with Some JNull => None | o => o end | _ => None end.

(** [String(v ?? '')]. *)
Definition text_of (o : option json) : string := from_option js_String "" o.

(** The value of a text of decimal digits. *)
Fixpoint decimal (acc : Z) (s : string) : Z :=
  match s with
  | EmptyString => acc
  | String c s => decimal (acc * 10 + (code_of c - 48)) s
  end.

(** [Number(v)] as JSON writes it, [NaN] as null; of the texts that [Number] reads, only the
    integers without exponent or radix prefix are values of the model. *)
Definition js_Number (v : json) : json :=
  match v with
  | JNull => JNum 0
  | JBool b => JNum (if b then 1 else 0)
  | JNum n => JNum n
  | JStr s =>
      let s := trim s in
      if negb (nonempty s) then JNum 0
      else if digits s then JNum (decimal 0 s)
      else match s with
           | String "-" t => if digits t then JNum (- decimal 0 t) else JNull
           | String "+" t => if digits t then JNum (decimal 0 t) else JNull
           | _ => JNull
           end
  | JArr _ | JObj _ => JNull
  end.

Infix "<|?>" := (λ a b, match a with Some x => Some x | None => b end)
  (at level 58, right associativity) : js_scope.

(** ** Envelopes for rows *)

(* @src apps/worker/src/composition/outbox-publish.ts:15-19 DEFAULT_MAPPINGS *)
Record Mapping := { eventType : string; jobType : string; queue : string }.

(* @src apps/worker/src/composition/outbox-publish.ts:15-35 DEFAULT_MAPPINGS *)
Definition DEFAULT_MAPPINGS : list Mapping :=
  [{| eventType := "workflow.queued"; jobType := "workflow.execute"; queue := "workflow-execution" |};
   {| eventType := "webhook.accepted"; jobType := "webhook.process"; queue := "webhook-processing" |};
   {| eventType := "approval.resume_requested"; jobType := "approval.resume";
      queue := "approval-resume" |}].

Definition mapping_of (event : string) : option Mapping :=
  List.find (λ m, eventType m =s? event) DEFAULT_MAPPINGS.

(* @src apps/worker/src/composition/outbox-publish.ts:46-72 buildPayload *)
Definition buildPayload (job : string) (row : Outbox.OutboxRow) (runId deliveryId : string)
  : list (string * json) :=
  let payload := Outbox.payload (Outbox.event row) in
  let correlation := Outbox.correlation (Outbox.event row) in
  if job =s? "workflow.execute" then
    [("runId", JStr runId); ("stepId", JStr "start"); ("stepAttempt", JNum 0)]
  else if job =s? "approval.resume" then
    [("approvalId", JStr (text_of (own "approvalId" payload)));
     ("resolutionVersion", js_Number (own "resolutionVersion" payload ?? JNum 1))]
  else
    [("deliveryId", JStr deliveryId);
     ("repositoryId", JStr (text_of (own "repositoryId" correlation <|?> own "repositoryId" payload)));
     ("payloadRef", JStr (text_of (own "payloadRef" correlation <|?> own "payloadRef" payload)));
     ("event", JStr (text_of (own "event" payload <|?> own "payloadRef" correlation)))] ++
    match own "issueCommentPayload" payload with
    | Some (JStr s) => [("issueCommentPayload", JStr s)]
    | _ => []
    end.

Definition row_key (id : string) : string := "outbox:" +s id.

(* @src apps/worker/src/composition/outbox-publish.ts:74-103 toEnvelope *)
Definition toEnvelope (now : Z) (id : string) (row : Outbox.OutboxRow) (m : Mapping)
  : outcome Queue.JobEnvelope :=
  let payload := Outbox.payload (Outbox.event row) in
  let correlation := Outbox.correlation (Outbox.event row) in
  let runId := text_of (own "runId" correlation <|?> own "runId" payload <|?>
                        own "workflowRunId" correlation) in
  let deliveryId := text_of (own "deliveryId" correlation) in
  let repositoryId := text_of (own "repositoryId" correlation <|?> own "repositoryId" payload) in
  let anchor := if nonempty runId then runId else if nonempty deliveryId then deliveryId else id in
  Queue.buildEnvelope now
    {| Queue.in_jobType := jobType m; Queue.in_schemaVersion := 1; Queue.in_queue := queue m;
       Queue.in_uniqueKey := row_key id;
       Queue.in_payload := buildPayload (jobType m) row runId deliveryId;
       Queue.in_correlationId := "outbox:" +s anchor;
       Queue.in_cancellationGeneration := Some 0;
       Queue.in_tenantId := None;
       Queue.in_repositoryId := if repositoryId =s? "" then None else Some repositoryId;
       Queue.in_workflowRunId := if runId =s? "" then None else Some runId;
       Queue.in_sessionId := None; Queue.in_actionId := None; Queue.in_causationId := None;
       Queue.in_traceparent := None |}.

(** ** The relay *)

(* @src apps/worker/src/composition/outbox-publish.ts:37-44 OutboxPublishDeps *)
Inductive RelayCall :=
  | claim_ (batchSize leaseMs : Z) (workerId : string)
  | deadLetter_ (id : string) (version : Z) (errorCode : string)
  | markPublished_ (id : string) (version : Z)
  | reschedule_ (id : string) (version : Z) (nextAt errorCode : string)
  | enqueue_ (envelope : Queue.JobEnvelope) (delayMs : Z)
  | now_.

Definition RelayAns (c : RelayCall) : Type :=
  match c with
  | claim_ _ _ _ => list (string * Outbox.OutboxRow)
  | deadLetter_ _ _ _ => unit
  | markPublished_ _ _ => unit
  | reschedule_ _ _ _ _ => Outbox.OutboxStatus * Z
  | enqueue_ _ _ => Queue.EnqueueResult
  | now_ => Z
  end.

Section Relay.
(** The message of an error of [packages/errors], a constant table by code. *)
Context (registered_message : string → string).

Definition message_of (e : js_error) : string :=
  match e with GuardError code => registered_message code | PlainError m => m end.

(** The body of the [try]: true when a job was published. *)
(* @src apps/worker/src/composition/outbox-publish.ts:113-121 publishOutboxOnce *)
Definition publish_row (id : string) (row : Outbox.OutboxRow) : proc RelayAns bool :=
  match mapping_of (Outbox.eventType (Outbox.event row)) with
  | None => call (deadLetter_ id (Outbox.rowVersion row) "OUTBOX_EVENT_UNKNOWN") ;~ pret false
  | Some m =>
      now <~ call (Ans := RelayAns) now_ ;;
      match toEnvelope now id row m with
      | Threw e => throw e
      | Returned envelope =>
          call (enqueue_ envelope 0) ;~
          call (markPublished_ id (Outbox.rowVersion row)) ;~
          pret true
      end
  end.

(* @src apps/worker/src/composition/outbox-publish.ts:122-126 publishOutboxOnce *)
Definition put_back (id : string) (row : Outbox.OutboxRow) (e : js_error) : proc RelayAns bool :=
  now <~ call (Ans := RelayAns) now_ ;;
  match toISOString (now + 5000) with
  | Threw e => throw e
  | Returned nextAt =>
      call (reschedule_ id (Outbox.rowVersion row) nextAt (slice_to 128 (message_of e))) ;~
      pret false
  end.

(* @src apps/worker/src/composition/outbox-publish.ts:111-127 publishOutboxOnce *)
Fixpoint publish_rows (rows : list (string * Outbox.OutboxRow)) (published : Z)
  : proc RelayAns Z :=
  match rows with
  | [] => pret published
  | (id, row) :: rows =>
      done_ <~ ptry (publish_row id row) (put_back id row) ;;
      publish_rows rows (if (done_ : bool) then published + 1 else published)
  end.

(* @src apps/worker/src/composition/outbox-publish.ts:105-129 publishOutboxOnce *)
Definition publishOutboxOnce (leaseMs batchSize : option Z) (workerId : string)
  : proc RelayAns Z :=
  claimed <~ call (claim_ (batchSize ?? 64) (leaseMs ?? 30000) workerId) ;;
  publish_rows claimed 0.
End Relay.

(** ** What a pass does, whatever the table, the queue and the clock answer *)

Section Pass.
Context (registered_message : string → string).

Definition claimed_in (tr : list (event RelayAns)) : list (string * Outbox.OutboxRow) :=
  match tr with
  | existT (claim_ _ _ _) (Returned rows) :: _ => rows
  | _ => []
  end.

Definition acked (e : event RelayAns) : bool :=
  match e with existT c o => match o with Returned _ => true | Threw _ => false end end.

(** The row whose fate a call writes. *)
Definition writes (e : event RelayAns) : option string :=
  match ev_call e with
  | deadLetter_ id _ _ | markPublished_ id _ | reschedule_ id _ _ _ => Some id
  | _ => None
  end.

Definition is_mark (e : event RelayAns) : bool :=
  match ev_call e with markPublished_ _ _ => acked e | _ => false end.

Definition marks (tr : list (event RelayAns)) : Z := Z.of_nat (length (List.filter is_mark tr)).

Definition disposed (id : string) (tr : list (event RelayAns)) : Prop :=
  ∃ e, e ∈ tr ∧ acked e = true ∧ writes e = Some id.

(** What precedes each call. *)
Definition relay_allowed (tr : list (event RelayAns)) (c : RelayCall) : Prop :=
  match c with
  | claim_ _ _ _ => tr = []
  | now_ => True
  | enqueue_ envelope delayMs =>
      delayMs = 0 ∧ ∃ id row m now, (id, row) ∈ claimed_in tr ∧
        mapping_of (Outbox.eventType (Outbox.event row)) = Some m ∧
        toEnvelope now id row m = Returned envelope
  | markPublished_ id v =>
      ∃ row envelope r tr', (id, row) ∈ claimed_in tr ∧ v = Outbox.rowVersion row ∧
        Queue.uniqueKey envelope = row_key id ∧
        tr = tr' ++ [ev (enqueue_ envelope 0) (Returned r)]
  | deadLetter_ id v _ =>
      ∃ row, (id, row) ∈ claimed_in tr ∧ v = Outbox.rowVersion row ∧
        mapping_of (Outbox.eventType (Outbox.event row)) = None
  | reschedule_ id v _ _ => ∃ row, (id, row) ∈ claimed_in tr ∧ v = Outbox.rowVersion row
  end.

Definition pass_true (tr : list (event RelayAns)) (r : outcome Z) : Prop :=
  match r with
  | Returned n => n = marks tr ∧ ∀ id row, (id, row) ∈ claimed_in tr → disposed id tr
  | Threw _ => True
  end.

Lemma claimed_in_snoc tr e : tr ≠ [] → claimed_in (tr ++ [e]) = claimed_in tr.
Proof. by destruct tr as [|[[] []] tr]. Qed.

Lemma marks_snoc tr e : marks (tr ++ [e]) = marks tr + if is_mark e then 1 else 0.
Proof.
  unfold marks. rewrite List.filter_app, length_app. simpl. destruct (is_mark e); simpl; lia.
Qed.

Lemma disposed_snoc id tr e : disposed id tr → disposed id (tr ++ [e]).
Proof. intros (x & Hx & H). exists x. split; [|done]. apply elem_of_app. by left. Qed.

Lemma disposed_last id tr e : acked e = true → writes e = Some id → disposed id (tr ++ [e]).
Proof. intros. exists e. split; [|done]. apply elem_of_app. right. by left. Qed.

Lemma envelope_key now id row m envelope :
  toEnvelope now id row m = Returned envelope → Queue.uniqueKey envelope = row_key id.
Proof.
  unfold toEnvelope, Queue.buildEnvelope, obind. intros H. by repeat case_match; simplify_eq/=.
Qed.

(** What is known between two rows: [todo] are not disposed of yet. *)
Definition between (todo : list (string * Outbox.OutboxRow)) (published : Z)
    (tr : list (event RelayAns)) : Prop :=
  tr ≠ [] ∧ marks tr = published ∧
  ∀ id row, (id, row) ∈ claimed_in tr → disposed id tr ∨ (id, row) ∈ todo.

Lemma between_step todo n tr e :
  between todo n tr → is_mark e = false → between todo n (tr ++ [e]).
Proof.
  intros (Hne & Hm & Hd) He. split_and!.
  - by destruct tr.
  - rewrite marks_snoc, He. lia.
  - rewrite claimed_in_snoc by done. intros id row Hin.
    destruct (Hd id row Hin); [left; by apply disposed_snoc|by right].
Qed.

Lemma between_done todo n id row tr e :
  between ((id, row) :: todo) n tr → acked e = true → writes e = Some id →
  between todo (if is_mark e then n + 1 else n) (tr ++ [e]).
Proof.
  intros (Hne & Hm & Hd) Ha Hw. split_and!.
  - by destruct tr.
  - rewrite marks_snoc. destruct (is_mark e); lia.
  - rewrite claimed_in_snoc by done. intros id' row' Hin.
    destruct (Hd id' row' Hin) as [?|[[= -> ->]|?]%elem_of_cons];
      [left; by apply disposed_snoc|left; by apply disposed_last|by right].
Qed.

Lemma ensures_put_back id row e todo n tr (k : bool → proc RelayAns Z) :
  between ((id, row) :: todo) n tr → (id, row) ∈ claimed_in tr →
  (∀ tr', claimed_in tr' = claimed_in tr → between todo n tr' →
     ensures relay_allowed pass_true tr' (k false)) →
  ensures relay_allowed pass_true tr (pbind (put_back registered_message id row e) k).
Proof.
  intros Hb Hin Hk. unfold put_back. cbn [call pbind ensures]. split; [done|].
  intros [now|e']; [|done]. cbn [pbind]. destruct (toISOString (now + 5000)) as [nextAt|e']; [|done].
  cbn [call pbind ensures]. pose proof (claimed_in_snoc tr (ev now_ (Returned now)) (proj1 Hb)) as Hc.
  split; [exists row; by rewrite Hc|]. intros [r|e']; [|done]. cbn [pbind].
  apply Hk.
  - rewrite claimed_in_snoc by (by destruct tr). done.
  - apply (between_done todo n id row _ (ev (reschedule_ _ _ _ _) (Returned r)));
      [by apply between_step|done|done].
Qed.

Lemma ensures_publish_row id row todo n tr (k : bool → proc RelayAns Z) :
  between ((id, row) :: todo) n tr → (id, row) ∈ claimed_in tr →
  (∀ tr' b, claimed_in tr' = claimed_in tr → between todo (if (b : bool) then n + 1 else n) tr' →
     ensures relay_allowed pass_true tr' (k b)) →
  ensures relay_allowed pass_true tr
    (pbind (ptry (publish_row id row) (put_back registered_message id row)) k).
Proof.
  intros Hb Hin Hk.
  assert (Hfail : ∀ tr' e, claimed_in tr' = claimed_in tr → between ((id, row) :: todo) n tr' →
    ensures relay_allowed pass_true tr' (pbind (put_back registered_message id row e) k)).
  { intros tr' e Hc Hb'. apply (ensures_put_back id row e todo n); [done|by rewrite Hc|].
    intros tr2 Hc2 Hb2. apply (Hk tr2 false); [by rewrite Hc2, Hc|done]. }
  assert (Hsnoc : ∀ tr' e, between ((id, row) :: todo) n tr' → claimed_in (tr' ++ [e]) = claimed_in tr').
  { intros tr' e Hb'. by apply claimed_in_snoc, (proj1 Hb'). }
  unfold publish_row. destruct (mapping_of _) as [m|] eqn:Hm.
  - cbn [call pbind ptry ensures]. split; [done|].
    intros [now|e]; cbn [pbind ptry];
      [|apply Hfail; [by apply Hsnoc|by apply between_step]].
    set (tr1 := tr ++ _). assert (Hb1 : between ((id, row) :: todo) n tr1) by by apply between_step.
    assert (Hc1 : claimed_in tr1 = claimed_in tr) by by apply Hsnoc. clearbody tr1.
    destruct (toEnvelope now id row m) as [envelope|e] eqn:He; cbn [ptry pbind throw]; [|by apply Hfail].
    cbn [call pbind ptry ensures].
    split; [split; [done|]; exists id, row, m, now; by rewrite Hc1|].
    intros [r|e]; cbn [pbind ptry];
      [|apply Hfail; [by rewrite Hsnoc|by apply between_step]].
    cbn [ensures]. split.
    { exists row, envelope, r, tr1. split_and!; [by rewrite Hsnoc, Hc1|done| |done].
      by apply (envelope_key now id row m). }
    set (tr2 := tr1 ++ _). assert (Hb2 : between ((id, row) :: todo) n tr2) by by apply between_step.
    assert (Hc2 : claimed_in tr2 = claimed_in tr) by (subst tr2; by rewrite Hsnoc). clearbody tr2.
    intros [[]|e]; cbn [pbind ptry pret];
      [|apply Hfail; [by rewrite Hsnoc|by apply between_step]].
    apply (Hk _ true); [by rewrite Hsnoc|].
    by apply (between_done todo n id row tr2 (ev (markPublished_ id _) (Returned tt))).
  - cbn [call pbind ptry ensures]. split; [by exists row|].
    intros [[]|e]; cbn [pbind ptry pret];
      [|apply Hfail; [by rewrite Hsnoc|by apply between_step]].
    apply (Hk _ false); [by rewrite Hsnoc|].
    by apply (between_done todo n id row tr (ev (deadLetter_ id _ _) (Returned tt))).
Qed.

Lemma ensures_publish_rows rows n tr :
  between rows n tr → (∀ id row, (id, row) ∈ rows → (id, row) ∈ claimed_in tr) →
  ensures relay_allowed pass_true tr (publish_rows registered_message rows n).
Proof.
  revert n tr. induction rows as [|[id row] rows IH]; intros n tr Hb Hin.
  - destruct Hb as (_ & Hm & Hd). split; [done|]. intros id row Hr.
    by destruct (Hd id row Hr) as [|?%elem_of_nil].
  - cbn [publish_rows]. apply (ensures_publish_row id row rows n); [done|apply Hin; left|].
    intros tr' b Hc Hb'. apply IH; [by destruct b|].
    intros id' row' Hr. rewrite Hc. apply Hin. by right.
Qed.

(** Nothing is marked published that the queue does not have, whatever the outbox, the queue
    and the clock answer or reject: a row is marked published, at the version it was claimed
    with, only as the call right after the queue acknowledged the job of that very row under
    the key outbox:id; it is dead-lettered only when no job type takes its event; every call
    is about a row of this claim.  A pass that returns has disposed of every row it claimed --
    published, dead-lettered or put back -- and returns the number it marked published. *)
Theorem published_is_enqueued leaseMs batchSize workerId :
  ensures relay_allowed pass_true [] (publishOutboxOnce registered_message leaseMs batchSize workerId).
Proof.
  unfold publishOutboxOnce. cbn [call pbind ensures]. split; [done|].
  intros [rows|e]; [|done]. cbn [pbind app]. apply ensures_publish_rows; [|done].
  split_and!; [done|done|]. intros id row Hin. by right.
Qed.
End Pass.
