(* ===== verification/Webhooks.v ===== *)
(** * Webhook deliveries

    The ledger of GitHub deliveries ([packages/db/src/repositories/webhook-delivery.ts]), their
    acceptance together with an outbox row
    ([apps/api/src/composition/durable-webhook-acceptance.ts]), and their processing by the
    worker ([packages/queue/src/jobs/job-processing.ts], [jobs/contracts.ts],
    [apps/worker/src/composition/handlers.ts] and [webhook-comment.ts]).  The ledger is a map
    from delivery id to row; a transaction commits both tables or neither. *)

From S2P Require Import Prelude JsString Effects Json Contracts Comments.
From S2P Require Outbox Queue Relay.

(** ** The life of a delivery *)

(* @src packages/db/src/repositories/webhook-delivery.ts:13-15 DeliveryStateV1 *)
Inductive DeliveryState :=
  ACCEPTED | PROCESSING | ROUTED | IGNORED | FAILED_RETRYABLE | DEAD_LETTERED.

#[export] Instance DeliveryState_eq_dec : EqDecision DeliveryState.
Proof. solve_decision. Defined.

(* @src packages/db/src/repositories/webhook-delivery.ts:17-24 LEGAL *)
Definition LEGAL (from : DeliveryState) : list DeliveryState :=
  match from with
  | ACCEPTED => [PROCESSING; FAILED_RETRYABLE]
  | PROCESSING => [ROUTED; IGNORED; FAILED_RETRYABLE; DEAD_LETTERED]
  | ROUTED => [ROUTED]
  | IGNORED => [IGNORED]
  | FAILED_RETRYABLE => [PROCESSING; DEAD_LETTERED]
  | DEAD_LETTERED => []
  end.

(* @src packages/queue/src/jobs/contracts.ts:54-67 resolveDeliveryEdge *)
Definition resolveDeliveryEdge (from to : DeliveryState) : bool :=
  if decide (from = DEAD_LETTERED) then false
  else if decide (from = ROUTED ∨ from = IGNORED) then bool_decide (to = from)
  else if decide (to = from) then true
  else includes (LEGAL from) to.

(** A row of [github_webhook_deliveries]. *)
(* @src packages/db/src/repositories/webhook-delivery.ts:34-40 PostgresWebhookDeliveryStore.insert *)
Record DeliveryRow := {
  githubEvent : string;
  rawPayloadHash : string;
  payloadRef : string;
  row_repositoryId : option string;
  state : DeliveryState;
}.

Abbreviation Deliveries := (gmap string DeliveryRow) (only parsing).

Definition conflict : js_error := PlainError "WEBHOOK_DELIVERY_CONFLICT".

(** Whether the delivery is a replay of an accepted one. *)
(* @src packages/db/src/repositories/webhook-delivery.ts:33-75 PostgresWebhookDeliveryStore.insert *)
Definition insert_delivery (id event hash : string) (ref repo : option string) (m : Deliveries)
  : outcome bool * Deliveries :=
  match m !! id with
  | None =>
      (Returned false,
       <[id := {| githubEvent := event; rawPayloadHash := hash; payloadRef := ref ?? "";
                  row_repositoryId := repo; state := ACCEPTED |}]> m)
  | Some row =>
      if negb (rawPayloadHash row =s? hash) || negb (githubEvent row =s? event) ||
         negb (bool_decide (row_repositoryId row = repo))
      then (Threw conflict, m) else (Returned true, m)
  end.

Definition state_of (id : string) (m : Deliveries) : option DeliveryState := state <$> m !! id.

Inductive AcceptanceOutcome :=
  | accepted_new
  | duplicate_of (status : DeliveryState)
  | conflicts_with (status : DeliveryState).

(* @src packages/db/src/repositories/webhook-delivery.ts:77-104 PostgresWebhookDeliveryStore.acceptDelivery *)
Definition acceptDelivery (id event digest : string) (repo : option string) (m : Deliveries)
  : outcome AcceptanceOutcome * Deliveries :=
  match insert_delivery id event digest None repo m with
  | (Returned false, m) => (Returned accepted_new, m)
  | (Returned true, m) => (Returned (duplicate_of (state_of id m ?? ACCEPTED)), m)
  | (Threw e, m) =>
      if decide (e = conflict) then (Returned (conflicts_with (state_of id m ?? ACCEPTED)), m)
      else (Threw e, m)
  end.

Definition with_state (s : DeliveryState) (row : DeliveryRow) : DeliveryRow :=
  {| githubEvent := githubEvent row; rawPayloadHash := rawPayloadHash row;
     payloadRef := payloadRef row; row_repositoryId := row_repositoryId row; state := s |}.

(** True when the claim moved the delivery to PROCESSING. *)
(* @src packages/db/src/repositories/webhook-delivery.ts:115-124 PostgresWebhookDeliveryStore.claim *)
Definition claim_delivery (id : string) (m : Deliveries) : bool * Deliveries :=
  match m !! id with
  | Some row =>
      if includes [ACCEPTED; FAILED_RETRYABLE] (state row) then
        (true, <[id := with_state PROCESSING row]> m)
      else (false, m)
  | None => (false, m)
  end.

(* @src packages/db/src/repositories/webhook-delivery.ts:126-141 PostgresWebhookDeliveryStore.transition *)
Definition transition (id : string) (from to : DeliveryState) (m : Deliveries)
  : outcome DeliveryState * Deliveries :=
  let illegal := PlainError "ILLEGAL_DELIVERY_TRANSITION" in
  if negb (includes (LEGAL from) to) then (Threw illegal, m)
  else match m !! id with
  | Some row =>
      if decide (state row = from) then (Returned to, <[id := with_state to row]> m)
      else (Threw illegal, m)
  | None => (Threw illegal, m)
  end.

(** ** Acceptance *)

Definition opt_text (k : string) (o : option string) : list (string * json) :=
  match o with Some s => [(k, JStr s)] | None => [] end.

(** The event, as [JSON.stringify] writes what [parseIssueCommentWebhook] returns. *)
(* @src packages/workflows/src/commands/issue-comment-event.ts:50-74 parseIssueCommentWebhook *)
Definition event_json (e : IssueCommentWebhookEvent) : json :=
  JObj ([("action", JStr "created");
         ("comment", JObj [("id", JNum (comment_id e)); ("body", JStr (comment_body e));
                           ("user", JObj [("id", JNum (user_id e)); ("login", JStr (user_login e))])]);
         ("issue", JObj (("number", JNum (issue_number e)) ::
                         match pull_request e with Some v => [("pull_request", v)] | None => [] end));
         ("repository", JObj ([("id", JNum (repository_id e));
                               ("owner", JObj [("login", JStr (repository_owner e))]);
                               ("name", JStr (repository_name e))] ++
                              opt_text "full_name" (repository_full_name e)))] ++
        match installation_id e with
        | Some n => [("installation", JObj [("id", JNum n)])]
        | None => []
        end).

(* @src apps/api/src/composition/durable-webhook-acceptance.ts:16-16 MAX_JOB_PAYLOAD_BYTES *)
Definition MAX_JOB_PAYLOAD_BYTES : Z := 32768.

Section Acceptance.
Context `{Digest} `{JsonParse}.
(** [resolveRepositoryId], when the composition has it. *)
Context (resolveRepositoryId : option (string → outcome (option string))).

(** The repository and the bounded excerpt of the comment, or neither. *)
(* @src apps/api/src/composition/durable-webhook-acceptance.ts:35-51 DurableWebhookAcceptance.accept *)
Definition inspect (payloadJson : string) : option string * option string :=
  match e ← json_parse payloadJson; parseIssueCommentWebhook e with
  | None => (None, None)
  | Some issueComment =>
      let repo := match resolveRepositoryId with
                  | Some f => f (num_to_string (repository_id issueComment))
                  | None => Returned None
                  end in
      match repo with
      | Threw _ => (None, None)
      | Returned repositoryId =>
          let excerpt := stringify (event_json issueComment) in
          (repositoryId,
           if utf8_length excerpt <=? MAX_JOB_PAYLOAD_BYTES then Some excerpt else None)
      end
  end.

(* @src apps/api/src/composition/durable-webhook-acceptance.ts:69-85 DurableWebhookAcceptance.accept *)
Definition accepted_event (deliveryId event hash : string)
    (repositoryId issueCommentPayload : option string) : Outbox.OutboxEventLike :=
  {| Outbox.eventType := "webhook.accepted";
     Outbox.schemaVersion := 1;
     Outbox.payload :=
       JObj ([("deliveryId", JStr deliveryId); ("event", JStr event)] ++
             opt_text "repositoryId" repositoryId ++
             opt_text "issueCommentPayload" issueCommentPayload);
     Outbox.correlation :=
       JObj ([("deliveryId", JStr deliveryId); ("payloadRef", JStr ("sha256:" +s hash))] ++
             opt_text "repositoryId" repositoryId);
     Outbox.aggregateType := Some "github_webhook_delivery";
     Outbox.aggregateId := Some deliveryId;
     Outbox.aggregateVersion := None |}.

Abbreviation Tables := (gmap string DeliveryRow * gmap string Outbox.OutboxRow)%type (only parsing).

(** Whether the delivery was a replay; [rowId] is the fresh id of the outbox row. *)
(* @src apps/api/src/composition/durable-webhook-acceptance.ts:26-92 DurableWebhookAcceptance.accept *)
Definition accept (now : Z) (rowId deliveryId event payloadJson : string) (s : Tables)
  : outcome bool * Tables :=
  let hash := sha256 payloadJson in
  let '(repositoryId, issueCommentPayload) := inspect payloadJson in
  let '(deliveries, outbox) := s in
  match insert_delivery deliveryId event hash (Some ("sha256:" +s hash)) repositoryId deliveries with
  | (Threw e, _) => (Threw e, s)
  | (Returned true, _) => (Returned true, s)
  | (Returned false, deliveries) =>
      match Outbox.append now rowId
              (accepted_event deliveryId event hash repositoryId issueCommentPayload) outbox with
      | (Threw e, _) => (Threw e, s)
      | (Returned _, outbox) => (Returned false, (deliveries, outbox))
      end
  end.
End Acceptance.

(** ** Processing *)

(* @src packages/queue/src/jobs/contracts.ts:22-29 JobOutcome *)
Inductive JobOutcome :=
  | JobOk (nextRun : option string)
  | JobFailed (retryable : bool) (detail : string).

(** The ledger, the trigger router, the workflow creator and the comment command service. *)
(* @src packages/queue/src/jobs/contracts.ts:69-92 TriggerRouter *)
Inductive WebhookCall :=
  | state_ (deliveryId : string)
  | claim_ (deliveryId : string)
  | transition_ (deliveryId : string) (from to : DeliveryState)
  | route_ (repositoryId event : string)
  | createRuns_ (repositoryId : string) (triggerKeys : list string)
  | handle_ (comment : IssueCommentWebhookEvent).

Definition WebhookAns (c : WebhookCall) : Type :=
  match c with
  | state_ _ => option DeliveryState
  | claim_ _ => option DeliveryState
  | transition_ _ _ _ => DeliveryState
  | route_ _ _ => bool * list string
  | createRuns_ _ _ => list string
  | handle_ _ => CommentCommandOutcome
  end.

Definition terminal (s : option DeliveryState) : bool :=
  match s with Some (ROUTED | IGNORED | DEAD_LETTERED) => true | _ => false end.

Section Processing.
Context (registered_message : string → string).

(** The inner [try] of a failure: back to FAILED_RETRYABLE if the delivery is still open. *)
(* @src packages/queue/src/jobs/job-processing.ts:59-65 WebhookProcessingService.process *)
Definition mark_retryable (deliveryId : string) : proc WebhookAns unit :=
  ptry
    (s <~ call (state_ deliveryId) ;;
     match s with
     | Some ((ACCEPTED | PROCESSING) as s) =>
         call (transition_ deliveryId s FAILED_RETRYABLE) ;~ pret tt
     | _ => pret tt
     end)
    (λ _, pret tt).

(* @src packages/queue/src/jobs/job-processing.ts:40-57 WebhookProcessingService.process *)
Definition route_claimed (deliveryId repositoryId payloadRef : string) (claimed : DeliveryState)
  : proc WebhookAns JobOutcome :=
  routed <~ call (Ans := WebhookAns) (route_ repositoryId payloadRef) ;;
  (if decide (claimed = PROCESSING) then pret tt
   else call (transition_ deliveryId claimed PROCESSING) ;~ pret tt) ;~
  if negb (routed : bool * list string).1 then
    call (transition_ deliveryId PROCESSING IGNORED) ;~ pret (JobOk None)
  else
    created <~ call (createRuns_ repositoryId (routed : bool * list string).2) ;;
    call (transition_ deliveryId PROCESSING ROUTED) ;~ pret (JobOk (head created)).

(* @src packages/queue/src/jobs/job-processing.ts:30-72 WebhookProcessingService.process *)
Definition process (deliveryId repositoryId payloadRef : string) : proc WebhookAns JobOutcome :=
  current <~ call (state_ deliveryId) ;;
  if terminal current then pret (JobOk None)
  else
    claimed <~ call (claim_ deliveryId) ;;
    match claimed with
    | None => pret (JobFailed true "delivery unavailable")
    | Some s =>
        ptry (route_claimed deliveryId repositoryId payloadRef s)
          (λ e, mark_retryable deliveryId ;~
                pret (JobFailed true (Relay.message_of registered_message e)))
    end.

Context `{JsonParse}.

(* @src apps/worker/src/composition/webhook-comment.ts:3-12 parseWorkerIssueCommentPayload *)
Definition parseWorkerIssueCommentPayload (issueCommentPayload : option string)
  : option IssueCommentWebhookEvent :=
  s ← issueCommentPayload;
  if negb (nonempty s) then None else v ← json_parse s; parseIssueCommentWebhook v.

Definition process_failed : Queue.JobHandlerResult := Queue.RETRYABLE_FAILURE "WEBHOOK_PROCESS_FAILED".

(* @src apps/worker/src/composition/handlers.ts:121-144 registerWebhookProcess *)
Definition handle_comment (deliveryId : string) (comment : IssueCommentWebhookEvent)
  : proc WebhookAns Queue.JobHandlerResult :=
  claimed <~ call (claim_ deliveryId) ;;
  match claimed with
  | None => pret process_failed
  | Some s =>
      ptry
        (o <~ call (handle_ comment) ;;
         let target := match o with OutIgnored => IGNORED | _ => ROUTED end in
         call (transition_ deliveryId s target) ;~ pret Queue.SUCCEEDED)
        (λ _, mark_retryable deliveryId ;~ pret process_failed)
  end.

(** The job handler of [webhook.process]; [commands] says whether the comment service is
    mounted. *)
(* @src apps/worker/src/composition/handlers.ts:109-162 registerWebhookProcess *)
Definition webhook_handler (commands : bool) (payload : list (string * json))
  : proc WebhookAns Queue.JobHandlerResult :=
  match text_member "deliveryId" payload with
  | None => pret (Queue.PERMANENT_FAILURE "webhook_job_missing_delivery")
  | Some deliveryId =>
      match parseWorkerIssueCommentPayload (text_member "issueCommentPayload" payload), commands with
      | Some comment, true => handle_comment deliveryId comment
      | _, _ =>
          outcome_ <~ process deliveryId (text_member "repositoryId" payload ?? "")
                        (text_member "payloadRef" payload ?? text_member "event" payload ?? "ping") ;;
          pret match outcome_ with JobOk _ => Queue.SUCCEEDED | JobFailed _ _ => process_failed end
      end
  end.
End Processing.

(** ** A delivery whose worker is gone *)

Section Ledger.
Context (outside : ∀ c, outcome (WebhookAns c)).

(** The ledger answers its own calls; [outside] answers for the router, the creator and the
    comment service. *)
Definition webhook_port (c : WebhookCall) (m : Deliveries) : outcome (WebhookAns c) * Deliveries :=
  match c return outcome (WebhookAns c) * Deliveries with
  | state_ id => (Returned (state_of id m), m)
  | claim_ id =>
      let '(ok, m) := claim_delivery id m in (Returned (if ok then Some PROCESSING else None), m)
  | transition_ id from to => transition id from to m
  | c => (outside c, m)
  end.
End Ledger.

(** A delivery whose worker died is never taken up again: once it is PROCESSING, every job
    for it -- whatever its payload, and whatever router, creator and comment service would
    answer -- fails as retryable and leaves the ledger as it is, because a claim takes only
    accepted and retryable deliveries and the claims carry no lease. *)
Theorem stuck_delivery outside registered_message `{JsonParse} commands payload id m row :
  m !! id = Some row → state row = PROCESSING → text_member "deliveryId" payload = Some id →
  final (webhook_port outside) (webhook_handler registered_message commands payload) m =
  (Returned process_failed, m).
Proof.
  intros Hm Hs Hid. unfold webhook_handler. rewrite Hid.
  assert (Hc : claim_delivery id m = (false, m)) by (unfold claim_delivery; by rewrite Hm, Hs).
  assert (Hst : state_of id m = Some PROCESSING) by (unfold state_of; by rewrite Hm, <- Hs).
  assert (Hh : ∀ comment, final (webhook_port outside) (handle_comment id comment) m =
                          (Returned process_failed, m)).
  { intros comment. unfold handle_comment. rewrite final_pbind, final_call. cbn [webhook_port].
    by rewrite Hc. }
  assert (Hp : ∀ repo ref, final (webhook_port outside) (process registered_message id repo ref) m =
                           (Returned (JobFailed true "delivery unavailable"), m)).
  { intros repo ref. unfold process. rewrite final_pbind, final_call. cbn [webhook_port].
    rewrite Hst. cbn [terminal].
    rewrite final_pbind, final_call. cbn [webhook_port]. by rewrite Hc. }
  destruct (parseWorkerIssueCommentPayload _) as [comment|]; [destruct commands|].
  - apply Hh.
  - by rewrite final_pbind, Hp.
  - by rewrite final_pbind, Hp.
Qed.

(** ** Acceptance and its job *)

Lemma distinct_member k l x : distinct_keys (JObj l) → assoc k l = Some x → distinct_keys x.
Proof.
  intros Hd Hx. inversion Hd as [| | | | |? _ Hl]; subst. apply assoc_elem in Hx.
  rewrite Forall_forall in Hl. by apply (Hl (k, x)).
Qed.

Lemma distinct_members v l : distinct_keys v → members (Some v) = Some l → distinct_keys (JObj l).
Proof. destruct v; simpl; try done; intros Hd [= <-]; [by repeat constructor|done]. Qed.

(** What the parser keeps of a parsed text has distinct keys. *)
Lemma parsed_pull_request v e x :
  distinct_keys v → parseIssueCommentWebhook v = Some e → pull_request e = Some x → distinct_keys x.
Proof.
  intros Hd Hp Hx. unfold parseIssueCommentWebhook in Hp.
  destruct (members (Some v)) as [record|] eqn:Hr; [|done]. cbn [mbind option_bind] in Hp.
  destruct (text_member "action" record) as [action|]; [|done]. cbn [mbind option_bind] in Hp.
  destruct (negb _); [done|].
  destruct (members (assoc "comment" record)) as [c|]; [|done]. cbn [mbind option_bind] in Hp.
  destruct (assoc "issue" record) as [issue|] eqn:Hi; [|done].
  destruct (members (Some issue)) as [i|] eqn:Him; [|done]. cbn [mbind option_bind] in Hp.
  repeat match type of Hp with
         | context [mbind _ ?o] => destruct o; [|done]; cbn [mbind option_bind] in Hp
         end.
  injection Hp as <-. cbn [pull_request] in Hx.
  destruct (assoc "pull_request" i) as [p|] eqn:Hpr; [|done].
  assert (Hdp : distinct_keys p).
  { apply (distinct_member "pull_request" i); [|done]. apply (distinct_members issue); [|done].
    apply (distinct_member "issue" record); [|done]. by apply (distinct_members v). }
  by destruct p; simplify_eq.
Qed.

(** The worker reads the event the acceptance wrote. *)
Lemma event_json_parse e :
  (∀ x, pull_request e = Some x → (∃ l, x = JObj l) ∨ ∃ l, x = JArr l) →
  parseIssueCommentWebhook (event_json e) = Some e.
Proof.
  intros Hpr. destruct e as [cid body uid login num pr rid owner name full inst]. simpl in Hpr.
  unfold event_json. cbn [comment_id comment_body user_id user_login issue_number pull_request
    repository_id repository_owner repository_name repository_full_name installation_id].
  destruct pr as [x|]; [destruct (Hpr x eq_refl) as [[l ->]|[l ->]]|];
    destruct full, inst; reflexivity.
Qed.

Lemma event_json_distinct e :
  (∀ x, pull_request e = Some x → distinct_keys x) → distinct_keys (event_json e).
Proof.
  intros Hpr. destruct e as [cid body uid login num pr rid owner name full inst]. simpl in Hpr.
  unfold event_json. cbn [comment_id comment_body user_id user_login issue_number pull_request
    repository_id repository_owner repository_name repository_full_name installation_id].
  destruct pr as [x|]; [pose proof (Hpr x eq_refl)|]; destruct full, inst;
    repeat (constructor || assumption); apply (bool_decide_unpack _); reflexivity.
Qed.

Lemma stringify_nonempty v : nonempty (stringify v) = true.
Proof.
  destruct (stringify_head v) as (c & t & -> & _). reflexivity.
Qed.

Section Roundtrip.
Context `{Digest} `{JsonParse}.

Lemma inspect_comment resolve payloadJson v e repo :
  json_parse payloadJson = Some v → parseIssueCommentWebhook v = Some e →
  (match resolve with Some f => f (num_to_string (repository_id e)) | None => Returned None end)
    = Returned repo →
  utf8_length (stringify (event_json e)) ≤ MAX_JOB_PAYLOAD_BYTES →
  inspect resolve payloadJson = (repo, Some (stringify (event_json e))).
Proof.
  intros Hv He Hr Hl. unfold inspect. rewrite Hv. cbn [mbind option_bind]. rewrite He, Hr.
  by rewrite (proj2 (Z.leb_le _ _)).
Qed.

Lemma worker_parse v e :
  distinct_keys v → parseIssueCommentWebhook v = Some e →
  parseWorkerIssueCommentPayload (Some (stringify (event_json e))) = Some e.
Proof.
  intros Hd He. unfold parseWorkerIssueCommentPayload. cbn [mbind option_bind].
  rewrite stringify_nonempty. cbn [negb].
  assert (Hj : distinct_keys (event_json e)).
  { apply event_json_distinct. intros x. by apply (parsed_pull_request v e). }
  rewrite (json_parse_stringify _ Hj).
  cbn [mbind option_bind]. apply event_json_parse. intros x Hx.
  clear Hd Hj. unfold parseIssueCommentWebhook in He.
  repeat match type of He with
         | context [mbind _ ?o] => destruct o eqn:?; [|done]; cbn [mbind option_bind] in He
         | context [if ?b then _ else _] => destruct b; [done|]
         end.
  injection He as <-. cbn [pull_request] in Hx.
  repeat case_match; simplify_eq; eauto.
Qed.

Definition webhook_mapping : Relay.Mapping :=
  {| Relay.eventType := "webhook.accepted"; Relay.jobType := "webhook.process";
     Relay.queue := "webhook-processing" |}.

Lemma envelope_payload now id row m envelope :
  Relay.toEnvelope now id row m = Returned envelope →
  ∃ runId, Queue.payload envelope =
    Relay.buildPayload (Relay.jobType m) row runId
      (Relay.text_of (Relay.own "deliveryId" (Outbox.correlation (Outbox.event row)))).
Proof.
  unfold Relay.toEnvelope, Queue.buildEnvelope, obind. intros Henv. cbv zeta in Henv.
  match type of Henv with context [Relay.buildPayload _ _ ?r _] => exists r end.
  by repeat case_match; simplify_eq/=.
Qed.

Lemma accepted_payload now row envelope deliveryId event hash repo excerpt rowId :
  Outbox.event row = accepted_event deliveryId event hash repo (Some excerpt) →
  Relay.toEnvelope now rowId row webhook_mapping = Returned envelope →
  text_member "deliveryId" (Queue.payload envelope) = Some deliveryId ∧
  text_member "issueCommentPayload" (Queue.payload envelope) = Some excerpt.
Proof.
  intros Hrow Henv. destruct (envelope_payload _ _ _ _ _ Henv) as [runId ->].
  unfold Relay.buildPayload. rewrite Hrow. destruct repo; split; reflexivity.
Qed.
End Roundtrip.

(** A comment survives the trip from the API to the worker: when a delivery is accepted whose
    text parses as a new comment and whose excerpt is within the bound, the accepting
    transaction adds an outbox row, and every envelope the relay builds from that row makes the
    worker claim that delivery and hand its comment service exactly the comment that was
    parsed from GitHub's text. *)
Theorem comment_reaches_worker `{Digest} `{JsonParse} registered_message resolve now rowId
    deliveryId event payloadJson v e repo s s' :
  json_parse payloadJson = Some v → distinct_keys v → parseIssueCommentWebhook v = Some e →
  (match resolve with Some f => f (num_to_string (repository_id e)) | None => Returned None end)
    = Returned repo →
  utf8_length (stringify (event_json e)) ≤ MAX_JOB_PAYLOAD_BYTES →
  accept resolve now rowId deliveryId event payloadJson s = (Returned false, s') →
  ∃ row, s'.2 !! rowId = Some row ∧
    Relay.mapping_of (Outbox.eventType (Outbox.event row)) = Some webhook_mapping ∧
    ∀ now' envelope,
      Relay.toEnvelope now' rowId row webhook_mapping = Returned envelope →
      webhook_handler registered_message true (Queue.payload envelope) =
      handle_comment deliveryId e.
Proof.
  intros Hv Hd He Hr Hl Ha. destruct s as [deliveries outbox]. unfold accept in Ha.
  rewrite (inspect_comment resolve payloadJson v e repo Hv He Hr Hl) in Ha.
  remember (stringify (event_json e)) as excerpt eqn:Hexc.
  destruct (insert_delivery _ _ _ _ _ _) as [[[]|] d]; [done| |done].
  unfold Outbox.append in Ha. destruct (negb _); [done|].
  destruct (outbox !! rowId); [done|]. injection Ha as <-. eexists.
  split; [apply lookup_insert_eq|]. split; [reflexivity|].
  intros now' envelope Henv.
  match type of Henv with Relay.toEnvelope _ _ ?r _ = _ =>
    destruct (accepted_payload now' r envelope deliveryId event (sha256 payloadJson) repo excerpt rowId
                eq_refl Henv) as [H1 H2]
  end.
  unfold webhook_handler. by rewrite H1, H2, Hexc, (worker_parse v e Hd He).
Qed.

(** *** Excerpts the queue does not take *)

Lemma utf8_length_app a b : utf8_length (a +s b) = utf8_length a + utf8_length b.
Proof. induction a as [|c a IH]; simpl; [done|]. case_match; lia. Qed.

Lemma utf8_length_nonneg s : 0 ≤ utf8_length s.
Proof. induction s; simpl; [lia|]. case_match; lia. Qed.

Lemma escape_length s : utf8_length s ≤ utf8_length (escape s).
Proof.
  induction s as [|c s IH]; simpl; [done|]. rewrite utf8_length_app.
  assert (Hc : (if code_of c <? 128 then 1 else 2) ≤ utf8_length (escape_char c)).
  { clear. destruct c as [[] [] [] [] [] [] [] []]; vm_compute; discriminate. }
  lia.
Qed.

Lemma quote_length s : utf8_length s + 2 ≤ utf8_length (quote s).
Proof.
  unfold quote. cbn [utf8_length]. rewrite utf8_length_app. pose proof (escape_length s).
  replace (code_of dquote <? 128) with true by reflexivity.
  change (utf8_length (String dquote "")) with 1. lia.
Qed.

Lemma join_length sep l x : x ∈ l → utf8_length x ≤ utf8_length (join sep l).
Proof.
  induction l as [|y l IH]; intros Hx; [by apply elem_of_nil in Hx|]. cbn [join].
  apply elem_of_cons in Hx as [->|Hx].
  - destruct l; [done|]. rewrite !utf8_length_app.
    pose proof (utf8_length_nonneg sep). pose proof (utf8_length_nonneg (join sep (s :: l))). lia.
  - destruct l as [|z l]; [by apply elem_of_nil in Hx|]. rewrite !utf8_length_app.
    specialize (IH Hx). pose proof (utf8_length_nonneg y). pose proof (utf8_length_nonneg sep). lia.
Qed.

Lemma member_length k v l :
  (k, v) ∈ l → utf8_length k + utf8_length (stringify v) + 5 ≤ utf8_length (stringify (JObj l)).
Proof.
  intros Hin. cbn [stringify]. rewrite !utf8_length_app.
  set (f := λ kv : string * json, let '(k, v) := kv in quote k +s ":" +s stringify v).
  assert (Hm : utf8_length (f (k, v)) ≤ utf8_length (join "," (map f l))).
  { apply join_length. by apply (list_elem_of_fmap_2 f l (k, v)). }
  subst f. cbn beta iota in Hm. rewrite !utf8_length_app in Hm. pose proof (quote_length k).
  change (utf8_length ":") with 1 in Hm. change (utf8_length "{") with 1.
  change (utf8_length "}") with 1. lia.
Qed.

(** An excerpt just within the bound of the acceptance makes a payload beyond the bound of the
    queue: the relay can never build the job of that delivery. *)
Theorem long_comment_never_queued `{Digest} now rowId row deliveryId event hash repo excerpt :
  Outbox.event row = accepted_event deliveryId event hash repo (Some excerpt) →
  MAX_JOB_PAYLOAD_BYTES - 26 < utf8_length excerpt →
  ∃ e, Relay.toEnvelope now rowId row webhook_mapping = Threw e.
Proof.
  intros Hrow Hl. unfold Relay.toEnvelope, Queue.buildEnvelope. cbv zeta.
  cbn [Queue.in_payload]. set (payload := Relay.buildPayload _ _ _ _).
  assert (Hin : ("issueCommentPayload", JStr excerpt) ∈ payload).
  { subst payload. unfold Relay.buildPayload. rewrite Hrow. apply elem_of_app. right.
    destruct repo; left. }
  pose proof (member_length _ _ _ Hin) as Hm. cbn [stringify] in Hm. pose proof (quote_length excerpt).
  change (utf8_length "issueCommentPayload") with 19 in Hm.
  unfold MAX_JOB_PAYLOAD_BYTES in Hl. unfold Queue.MAX_PAYLOAD_BYTES.
  destruct (utf8_length _ >? 32 * 1024) eqn:Hgt; [by eexists|]. exfalso.
  apply Z.gtb_ltb in Hgt || rewrite Z.gtb_ltb in Hgt. apply Z.ltb_ge in Hgt.
  unfold stringify in Hm, Hgt. lia.
Qed.

(** *** Every accepted delivery has its job *)

(** The ledger and the outbox, in the hands of the API and the workers. *)
Inductive WebhookStep `{Digest} `{JsonParse} (s : gmap string DeliveryRow * gmap string Outbox.OutboxRow)
  : gmap string DeliveryRow * gmap string Outbox.OutboxRow → Prop :=
  | step_accept resolve now rowId id event text :
      WebhookStep s (accept resolve now rowId id event text s).2
  | step_claim id : WebhookStep s ((claim_delivery id s.1).2, s.2)
  | step_transition id from to : WebhookStep s ((transition id from to s.1).2, s.2)
  | step_outbox o : Outbox.OutboxStep s.2 o → WebhookStep s (s.1, o).

Definition has_job (id : string) (row : DeliveryRow) (o : gmap string Outbox.OutboxRow) : Prop :=
  ∃ rowId job, o !! rowId = Some job ∧
    Outbox.eventType (Outbox.event job) = "webhook.accepted" ∧
    Outbox.aggregateId (Outbox.event job) = Some id ∧
    Relay.text_of (Relay.own "deliveryId" (Outbox.correlation (Outbox.event job))) = id ∧
    Relay.text_of (Relay.own "payloadRef" (Outbox.correlation (Outbox.event job))) =
      "sha256:" +s rawPayloadHash row.

Lemma has_job_moves id row o o' : has_job id row o → Outbox.OutboxStep o o' → has_job id row o'.
Proof.
  intros (rowId & job & Hj & H) Hstep.
  destruct (Outbox.step_row o o' rowId job Hstep Hj) as (job' & Hj' & Hmove).
  assert (He : Outbox.event job' = Outbox.event job) by (destruct Hmove as [->|(_ & He & _)]; done).
  exists rowId, job'. by rewrite He.
Qed.

Definition all_have_jobs (s : gmap string DeliveryRow * gmap string Outbox.OutboxRow) : Prop :=
  ∀ id row, s.1 !! id = Some row → has_job id row s.2.

Lemma with_state_jobs d o id row st :
  all_have_jobs (d, o) → d !! id = Some row → all_have_jobs (<[id := with_state st row]> d, o).
Proof.
  intros Hall Hd id' row' Hrow. simpl in Hrow. destruct (decide (id' = id)) as [->|Hne].
  - rewrite lookup_insert_eq in Hrow. injection Hrow as <-. exact (Hall id row Hd).
  - rewrite lookup_insert_ne in Hrow by done. by apply Hall.
Qed.

Lemma accept_jobs `{Digest} `{JsonParse} resolve now rowId id event text s :
  all_have_jobs s → all_have_jobs (accept resolve now rowId id event text s).2.
Proof.
  intros Hall. destruct s as [d o]. unfold accept. destruct (inspect resolve text) as [repo excerpt].
  unfold insert_delivery. destruct (d !! id) as [row0|] eqn:Hd.
  { by destruct (negb _ || negb _ || negb _). }
  destruct (Outbox.append _ _ _ _) as [[u|err] o'] eqn:Hap; [|done].
  assert (Hstep : Outbox.OutboxStep o o').
  { pose proof (Outbox.step_append o now rowId
      (accepted_event id event (sha256 text) repo excerpt)) as Hs. by rewrite Hap in Hs. }
  intros id' row' Hrow. simpl in Hrow |- *. destruct (decide (id' = id)) as [->|Hne].
  - rewrite lookup_insert_eq in Hrow. injection Hrow as <-.
    unfold Outbox.append in Hap. destruct (negb _); [done|]. destruct (o !! rowId); [done|].
    injection Hap as _ <-. eexists rowId, _. split; [apply lookup_insert_eq|].
    split_and!; reflexivity.
  - rewrite lookup_insert_ne in Hrow by done. apply has_job_moves with o; [|done]. by apply Hall.
Qed.

Lemma step_jobs `{Digest} `{JsonParse} s s' : WebhookStep s s' → all_have_jobs s → all_have_jobs s'.
Proof.
  intros Hstep Hall. destruct s as [d o]. destruct Hstep; simpl.
  - by apply accept_jobs.
  - unfold claim_delivery. destruct (d !! id) as [row|] eqn:Hd; [|done].
    case_match; [by apply with_state_jobs|done].
  - unfold transition. case_match; [done|]. destruct (d !! id) as [row|] eqn:Hd; [|done].
    case_decide; [by apply with_state_jobs|done].
  - intros id row Hrow. apply has_job_moves with o; [|done]. by apply Hall.
Qed.

(* @prop invariant 6.72 : accept accepted_event insert_delivery claim_delivery transition Outbox.append Outbox.claim Outbox.markPublished / accepted_deliveries_have_jobs_witness *)
(** C26. No accepted delivery is without its job: over any interleaving of acceptances, claims and
    transitions of deliveries, and any work of the outbox writers and publishers, every row of
    the ledger has a row of the outbox -- pending, being published, published or dead-lettered
    -- with the event webhook.accepted of that very delivery, carrying the delivery's id and
    the digest of its body. *)
Theorem accepted_deliveries_have_jobs `{Digest} `{JsonParse} s id row :
  rtc WebhookStep (∅, ∅) s → s.1 !! id = Some row → has_job id row s.2.
Proof.
  intros Hsteps. assert (Hall : all_have_jobs s); [|by apply Hall].
  assert (Hinit : all_have_jobs (∅, ∅)) by (intros i r; simpl; by rewrite lookup_empty).
  remember ((∅, ∅) : gmap string DeliveryRow * gmap string Outbox.OutboxRow) as s0 eqn:E. clear E.
  induction Hsteps as [|s0 s1 s2 Hstep _ IH]; [done|]. apply IH. by apply (step_jobs s0).
Qed.

(** ** Witnesses: one comment, accepted and processed *)

#[local] Instance sample_parse : JsonParse :=
  {| json_parse := any_inverse;
     json_parse_stringify v _ := any_inverse_stringify v |}.
#[local] Instance sample_digest : Digest := λ s, s.

Lemma stuck_delivery_witness :
  (final (webhook_port (λ _, Threw (PlainError "down")))
     (webhook_handler (λ c, c) true [("deliveryId", JStr "d")])
     {["d" := {| githubEvent := "push"; rawPayloadHash := "h"; payloadRef := "";
                 row_repositoryId := None; state := PROCESSING |}]}).1 = Returned process_failed.
Proof.
  rewrite (stuck_delivery (λ _, Threw (PlainError "down")) (λ c, c) true [("deliveryId", JStr "d")] "d" _
             {| githubEvent := "push"; rawPayloadHash := "h"; payloadRef := "";
                row_repositoryId := None; state := PROCESSING |}); reflexivity.
Defined.

Definition sample_comment : IssueCommentWebhookEvent :=
  {| comment_id := 1; comment_body := "@devguard review"; user_id := 2; user_login := "ann";
     issue_number := 3; pull_request := Some (JObj []); repository_id := 4;
     repository_owner := "acme"; repository_name := "shop"; repository_full_name := None;
     installation_id := Some 5 |}.

Definition sample_text : string := stringify (event_json sample_comment).

Definition sample_accept : outcome bool * (gmap string DeliveryRow * gmap string Outbox.OutboxRow) :=
  accept None 0 "r1" "d" "issue_comment" sample_text (∅, ∅).

Definition sample_row : Outbox.OutboxRow :=
  {| Outbox.event := accepted_event "d" "issue_comment" sample_text None (Some sample_text);
     Outbox.status := Outbox.pending; Outbox.availableAt := 0; Outbox.attempts := 0;
     Outbox.leaseOwner := None; Outbox.leaseExpiresAt := None; Outbox.publishedAt := None;
     Outbox.lastErrorCode := None; Outbox.rowVersion := 1 |}.

Lemma sample_distinct : distinct_keys (event_json sample_comment).
Proof. apply event_json_distinct. intros x [= <-]. by repeat constructor. Qed.

Lemma sample_accepted :
  sample_accept =
  (Returned false,
   ({["d" := {| githubEvent := "issue_comment"; rawPayloadHash := sample_text;
                payloadRef := "sha256:" +s sample_text; row_repositoryId := None;
                state := ACCEPTED |}]},
    {["r1" := sample_row]})).
Proof.
  unfold sample_accept, accept.
  rewrite (inspect_comment None sample_text (event_json sample_comment) sample_comment None);
    [|apply any_inverse_stringify|reflexivity|reflexivity|vm_compute; discriminate].
  vm_compute. reflexivity.
Qed.

Lemma comment_reaches_worker_witness :
  ∃ row, sample_accept.2.2 !! "r1" = Some row ∧
    ∀ now envelope,
      Relay.toEnvelope now "r1" row webhook_mapping = Returned envelope →
      webhook_handler (λ c, c) true (Queue.payload envelope) = handle_comment "d" sample_comment.
Proof.
  destruct (comment_reaches_worker (λ c, c) None 0 "r1" "d" "issue_comment" sample_text
              (event_json sample_comment) sample_comment None (∅, ∅) sample_accept.2)
    as (row & Hrow & _ & Henv).
  - apply any_inverse_stringify.
  - apply sample_distinct.
  - reflexivity.
  - reflexivity.
  - vm_compute. discriminate.
  - fold sample_accept. rewrite sample_accepted. reflexivity.
  - exists row. split; [exact Hrow|exact Henv].
Defined.

Lemma accepted_deliveries_have_jobs_witness :
  has_job "d" {| githubEvent := "issue_comment"; rawPayloadHash := sample_text;
                 payloadRef := "sha256:" +s sample_text; row_repositoryId := None;
                 state := ACCEPTED |} sample_accept.2.2.
Proof.
  apply (accepted_deliveries_have_jobs sample_accept.2 "d").
  - apply rtc_once. apply (step_accept (∅, ∅) None 0 "r1" "d" "issue_comment" sample_text).
  - rewrite sample_accepted. reflexivity.
Defined.
