(* ===== verification/GithubWrites.v ===== *)
(** * Branch and commit mutations on GitHub

    [packages/github-adapter/src/write/]: the state machine of a mutation ([fsm.ts]), branch
    names, digests and commit messages ([mutation-identity.ts]), the store of operations and
    branch ownership ([mutation-operation-store.ts]), and the adapter that creates branches and
    commits and advances branches ([github-branches-commits.ts]).  Every adapter method is a
    program over the store, the provider, the event sink, the clock and the source of ids. *)

From S2P Require Import Prelude JsString Effects Json Contracts CanonicalJson.

(** ** The mutation state machine *)

(* @src packages/github-adapter/src/write/contracts.ts:17-28 MUTATION_STATUSES *)
Inductive MutationStatus :=
  authorized | executing | applied | outcome_unknown | conflicted | failed | reconciling
| not_applied | manual_review.

#[export] Instance MutationStatus_eq_dec : EqDecision MutationStatus.
Proof. solve_decision. Defined.

(* @src packages/github-adapter/src/write/contracts.ts:30-35 MUTATION_TERMINAL_STATUSES *)
Definition MUTATION_TERMINAL_STATUSES : list MutationStatus :=
  [applied; conflicted; failed; manual_review].

(* @src packages/github-adapter/src/write/fsm.ts:12-23 MutationTrigger *)
Inductive MutationTrigger :=
  t_begin | t_applied | t_unknown | t_conflict | t_fail | t_begin_reconcile | t_reconciled_applied
| t_reconciled_not_applied | t_reconciled_conflicted | t_manual | t_retry.

#[export] Instance MutationTrigger_eq_dec : EqDecision MutationTrigger.
Proof. solve_decision. Defined.

(* @src packages/github-adapter/src/write/fsm.ts:25-45 EDGES *)
Definition EDGES (t : MutationTrigger) : list (MutationStatus * MutationStatus) :=
  match t with
  | t_begin => [(authorized, executing)]
  | t_applied => [(executing, applied); (reconciling, applied)]
  | t_unknown => [(executing, outcome_unknown)]
  | t_conflict => [(executing, conflicted); (reconciling, conflicted)]
  | t_fail => [(executing, failed)]
  | t_begin_reconcile => [(outcome_unknown, reconciling)]
  | t_reconciled_applied => [(reconciling, applied)]
  | t_reconciled_not_applied => [(reconciling, not_applied)]
  | t_reconciled_conflicted => [(reconciling, conflicted)]
  | t_manual => [(reconciling, manual_review)]
  | t_retry => [(not_applied, executing)]
  end.

(** The state after the trigger, when it may fire. *)
(* @src packages/github-adapter/src/write/fsm.ts:69-89 resolveMutationEdge *)
Definition resolveMutationEdge (from : MutationStatus) (t : MutationTrigger)
  : option MutationStatus :=
  if includes MUTATION_TERMINAL_STATUSES from && negb (bool_decide (t = t_retry)) then None
  else snd <$> List.find (λ e, bool_decide (e.1 = from)) (EDGES t).

(** ** Identity *)

(* @src packages/github-adapter/src/write/contracts.ts:15-15 BRANCH_PREFIX *)
Definition BRANCH_PREFIX : string := "agent/".

(** [replace(/[^a-z0-9_-]+/g, '-')]: every run of other characters becomes one dash. *)
Fixpoint dash_runs (inside : bool) (s : string) : string :=
  match s with
  | EmptyString => EmptyString
  | String c s =>
      if is_lower c || is_digit c || char_in "_-" c then String c (dash_runs false s)
      else if inside then dash_runs true s else String "-" (dash_runs true s)
  end.

(** [replace(/^-+|-+$/g, '')]. *)
Fixpoint drop_dashes (s : string) : string :=
  match s with
  | String c s' => if Ascii.eqb c "-" then drop_dashes s' else s
  | EmptyString => EmptyString
  end.

(* @src packages/github-adapter/src/write/mutation-identity.ts:35-42 safeSegment *)
Definition safeSegment (value : string) : string :=
  let dashed := dash_runs false (toLowerCase value) in
  let cleaned := slice_to 40 (str_rev (drop_dashes (str_rev (drop_dashes dashed)))) in
  if nonempty cleaned then cleaned else "run".

Section Identity.
Context `{Digest}.

(* @src packages/github-adapter/src/write/mutation-identity.ts:13-32 mutationInputDigest *)
Definition mutationInputDigest (input : json) : string := sha256 (canonicalJsonStringify input).

(* @src packages/github-adapter/src/write/mutation-identity.ts:45-49 buildWorkflowBranchName *)
Definition buildWorkflowBranchName (workflowRunId operationKey : string) : string :=
  BRANCH_PREFIX +s safeSegment workflowRunId +s "/" +s slice_to 8 (sha256 operationKey).
End Identity.

(* @src packages/github-adapter/src/write/mutation-identity.ts:52-54 isMutationBranch *)
Definition isMutationBranch (branch : string) : bool :=
  startsWith branch BRANCH_PREFIX && (str_length branch <=? 256).

(* @src packages/github-adapter/src/write/mutation-identity.ts:63-72 isProtectedTarget *)
Definition isProtectedTarget (branch : string) : bool :=
  let lower := toLowerCase branch in
  (lower =s? "main") || (lower =s? "master") || (lower =s? "trunk") ||
  startsWith lower "refs/heads/main" || startsWith lower "refs/heads/master".

(** ** Commit messages *)

(** The words of [SECRET_INLINE]; a gap is one optional character of [[-_ .]]. *)
Definition secret_words : list (list string) :=
  [["api"; "key"]; ["access"; "token"]; ["refresh"; "token"]; ["token"]; ["password"]; ["passwd"];
   ["secret"]; ["private"; "key"]; ["credentials"]].

Definition strip_prefix (p s : string) : option string :=
  if startsWith s p then Some (slice_from (String.length p) s) else None.

(** What may follow the words of one alternative, at the start of a text. *)
Fixpoint after_words (words : list string) (s : string) : list string :=
  match words with
  | [] => [s]
  | w :: words =>
      match strip_prefix w s with
      | None => []
      | Some s =>
          after_words words s ++
          match words, s with
          | _ :: _, String c s => if char_in "-_ ." c then after_words words s else []
          | _, _ => []
          end
      end
  end.

Definition secret_char (c : ascii) : bool :=
  negb (Ascii.eqb c dquote || Ascii.eqb c "'" || is_space c || char_in ",;&" c).

(** [\s*[:=]\s*["']?[^"'\s,;&]{6,}]. *)
Definition secret_value (s : string) : bool :=
  match trimStart s with
  | String c s =>
      char_in ":=" c &&
      let s := trimStart s in
      let s := match s with
               | String q s' => if Ascii.eqb q dquote || Ascii.eqb q "'" then s' else s
               | _ => s
               end in
      (6 <=? str_length (span_chars secret_char s).1)
  | EmptyString => false
  end.

Definition secret_here (s : string) : bool :=
  existsb (λ words, existsb secret_value (after_words words s)) secret_words.

Fixpoint secret_anywhere (s : string) : bool :=
  secret_here s || match s with String _ s => secret_anywhere s | EmptyString => false end.

(* @src packages/github-adapter/src/write/mutation-identity.ts:78-79 SECRET_INLINE *)
Definition SECRET_INLINE (s : string) : bool := secret_anywhere (toLowerCase s).

(** [replace(/\s+/g, ' ')]. *)
Fixpoint collapse_spaces (inside : bool) (s : string) : string :=
  match s with
  | EmptyString => EmptyString
  | String c s =>
      if is_space c then if inside then collapse_spaces true s else String " " (collapse_spaces true s)
      else String c (collapse_spaces false s)
  end.

Definition blank_control (c : ascii) : ascii :=
  if (code_of c <? 32) || (code_of c =? 127) then " "%char else c.

(* @src packages/github-adapter/src/write/mutation-identity.ts:82-91 sanitizeCommitMessage *)
Definition sanitizeCommitMessage (raw : string) : outcome string :=
  let cleaned := trim (collapse_spaces false (map_chars blank_control raw)) in
  let message := slice_to 10000 cleaned in
  if negb (nonempty message) then Threw (PlainError "GITHUB_COMMIT_MESSAGE_EMPTY")
  else if SECRET_INLINE message then Threw (PlainError "GITHUB_COMMIT_SECRET_REJECTED")
  else Returned message.

(** ** Contracts of the adapter *)

(* @src packages/github-adapter/src/write/contracts.ts:44-44 sha40 *)
Definition sha40 (s : string) : bool := all_chars lower_hex s && (str_length s =? 40).

(* @src packages/github-adapter/src/write/contracts.ts:45-49 branchName *)
Definition branchName (s : string) : bool :=
  len_between 1 256 s && all_chars (λ c, is_alnum c || char_in "._-/" c) s.

(* @src packages/github-adapter/src/write/contracts.ts:54-57 GitRepoRef *)
Record GitRepoRef := { owner : string; repo : string }.

(* @src packages/github-adapter/src/write/contracts.ts:51-53 gitRepoRefSchema *)
Definition gitRepoRefSchema (r : GitRepoRef) : bool :=
  len_between 1 100 (owner r) && len_between 1 100 (repo r).

(* @src packages/github-adapter/src/write/contracts.ts:68-74 GitBranch *)
Record GitBranch := {
  name : string;
  ref : string;
  headSha : string;
  protected : bool;
  repositoryId : string
}.

(* @src packages/github-adapter/src/write/contracts.ts:83-87 VerifiedCommitIdentity *)
Record VerifiedCommitIdentity := { id_name : string; id_email : string; id_dateIso : string }.

(* @src packages/github-adapter/src/write/contracts.ts:76-82 commitIdentitySchema *)
Definition commitIdentitySchema (i : VerifiedCommitIdentity) : bool :=
  len_between 1 100 (id_name i) && len_between 3 200 (id_email i) && len_between 1 40 (id_dateIso i).

(* @src packages/github-adapter/src/write/contracts.ts:101-110 GitCommit *)
Record GitCommit := {
  sha : string;
  parents : list string;
  treeSha : string;
  author : VerifiedCommitIdentity;
  committer : VerifiedCommitIdentity;
  message : string;
  verification : string;
  createdAtIso : string
}.

(* @src packages/github-adapter/src/write/contracts.ts:127-134 CommitTreeSpec *)
Record TreeEntry := {
  entry_path : string;
  entry_mode : string;
  entry_type : string;
  entry_sha : string
}.

(* @src packages/github-adapter/src/write/contracts.ts:112-126 commitTreeSpecSchema *)
Definition commitTreeSpecSchema (entries : list TreeEntry) : bool :=
  (Z.of_nat (length entries) <=? 10000) &&
  forallb (λ e, len_between 1 1024 (entry_path e) && negb (startsWith (entry_path e) "/") &&
                negb (str_includes (entry_path e) "..") &&
                includes ["100644"; "100755"; "040000"; "120000"] (entry_mode e) &&
                includes ["blob"; "tree"] (entry_type e) && sha40 (entry_sha e)) entries.

(* @src packages/github-adapter/src/write/contracts.ts:145-151 CreateBranchInput *)
Record CreateBranchInput := {
  cb_repository : GitRepoRef;
  cb_branch : string;
  baseSha : string;
  cb_workflowRunId : string;
  cb_operationKey : string
}.

(* @src packages/github-adapter/src/write/contracts.ts:136-144 createBranchInputSchema *)
Definition createBranchInputSchema (i : CreateBranchInput) : bool :=
  gitRepoRefSchema (cb_repository i) && branchName (cb_branch i) && sha40 (baseSha i) &&
  id_schema (cb_workflowRunId i) && id_schema (cb_operationKey i).

(* @src packages/github-adapter/src/write/contracts.ts:166-176 CreateCommitInput *)
Record CreateCommitInput := {
  cc_repository : GitRepoRef;
  cc_branch : string;
  expectedHeadSha : string;
  parentSha : string;
  tree : list TreeEntry;
  cc_message : string;
  cc_author : option VerifiedCommitIdentity;
  cc_workflowRunId : string;
  cc_operationKey : string
}.

(* @src packages/github-adapter/src/write/contracts.ts:153-165 createCommitInputSchema *)
Definition createCommitInputSchema (i : CreateCommitInput) : bool :=
  gitRepoRefSchema (cc_repository i) && branchName (cc_branch i) && sha40 (expectedHeadSha i) &&
  sha40 (parentSha i) && commitTreeSpecSchema (tree i) && len_between 1 10000 (cc_message i) &&
  match cc_author i with Some a => commitIdentitySchema a | None => true end &&
  id_schema (cc_workflowRunId i) && id_schema (cc_operationKey i).

(** [force] is the literal [false] of its type: it is no field here. *)
(* @src packages/github-adapter/src/write/contracts.ts:190-198 AdvanceBranchInput *)
Record AdvanceBranchInput := {
  ab_repository : GitRepoRef;
  ab_branch : string;
  expectedOldSha : string;
  newSha : string;
  ab_workflowRunId : string;
  ab_operationKey : string
}.

(* @src packages/github-adapter/src/write/contracts.ts:178-189 advanceBranchInputSchema *)
Definition advanceBranchInputSchema (i : AdvanceBranchInput) : bool :=
  gitRepoRefSchema (ab_repository i) && branchName (ab_branch i) && sha40 (expectedOldSha i) &&
  sha40 (newSha i) && id_schema (ab_workflowRunId i) && id_schema (ab_operationKey i).

(* @src packages/github-adapter/src/write/contracts.ts:204-204 GitMutationOperation *)
Inductive MutationKind := create_branch | create_commit | advance_branch.

#[export] Instance MutationKind_eq_dec : EqDecision MutationKind.
Proof. solve_decision. Defined.

(* @src packages/github-adapter/src/write/contracts.ts:202-218 GitMutationOperation *)
Record GitMutationOperation := {
  id : string;
  kind : MutationKind;
  actionId : string;
  repository : GitRepoRef;
  branch : string;
  workflowRunId : string;
  operationKey : string;
  inputDigest : string;
  expectedBeforeSha : string;
  intendedAfterSha : option string;
  state : MutationStatus;
  attempts : Z;
  providerRefs : list string;
  op_createdAtIso : string;
  updatedAtIso : string
}.

(** [status] with its value, where the code returns one, and its detail. *)
(* @src packages/github-adapter/src/write/contracts.ts:220-224 MutationResult *)
Inductive MutationResult (T : Type) :=
  | Applied (value : T)
  | Replayed (value : option T) (detail : option string)
  | Conflict (detail : string)
  | OutcomeUnknown (detail : string).
Arguments Applied {T} value.
Arguments Replayed {T} value detail.
Arguments Conflict {T} detail.
Arguments OutcomeUnknown {T} detail.

(** ** The operation store *)

(* @src packages/github-adapter/src/write/mutation-operation-store.ts:11-18 ClaimResult *)
Inductive ClaimResult :=
  | claim_ok (operation : GitMutationOperation) (replayed : bool)
  | claim_no (code detail : string) (existing : option GitMutationOperation).

(* @src packages/github-adapter/src/write/mutation-operation-store.ts:27-29 InMemoryMutationOperationStore *)
Record OperationStore := {
  ops : list (string * GitMutationOperation);
  ownership : list (string * string)
}.

(* @src packages/github-adapter/src/write/mutation-operation-store.ts:31-33 keyOf *)
Definition keyOf (r : GitRepoRef) (branch : string) : string :=
  owner r +s "/" +s repo r +s "/heads/" +s branch.

(* @src packages/github-adapter/src/write/mutation-operation-store.ts:71-76 findByIdempotency *)
Definition findByIdempotency (key : string) (s : OperationStore) : option GitMutationOperation :=
  snd <$> List.find (λ e, operationKey e.2 =s? key) (ops s).

(* @src packages/github-adapter/src/write/mutation-operation-store.ts:63-65 record *)
Definition record (op : GitMutationOperation) (s : OperationStore) : OperationStore :=
  {| ops := set_key (id op) op (ops s); ownership := ownership s |}.

(* @src packages/github-adapter/src/write/mutation-operation-store.ts:67-69 get *)
Definition get (id : string) (s : OperationStore) : option GitMutationOperation := assoc id (ops s).

(* @src packages/github-adapter/src/write/mutation-operation-store.ts:35-61 claim *)
Definition claim (op : GitMutationOperation) (s : OperationStore) : ClaimResult * OperationStore :=
  match findByIdempotency (operationKey op) s with
  | Some byOp =>
      (if bool_decide (kind byOp = kind op) && (inputDigest byOp =s? inputDigest op)
       then claim_ok byOp true
       else claim_no "DIGEST_CONFLICT" "operation key reused with different inputs" (Some byOp), s)
  | None =>
      let branchKey := keyOf (repository op) (branch op) in
      if match assoc branchKey (ownership s) with
         | Some run => negb (run =s? workflowRunId op)
         | None => false
         end
      then (claim_no "OWNERSHIP_CONFLICT" "branch is owned by another run" None, s)
      else (claim_ok op false,
            {| ops := set_key (id op) op (ops s);
               ownership := set_key branchKey (workflowRunId op) (ownership s) |})
  end.

(** ** The ports of the adapter *)

(* @src packages/github-adapter/src/write/provider-port.ts:19-20 GitProviderErrorCode *)
Inductive GitProviderErrorCode :=
  NOT_FOUND | CONFLICT | PERMISSION | RATE_LIMITED | SERVER_ERROR | TIMEOUT.

#[export] Instance GitProviderErrorCode_eq_dec : EqDecision GitProviderErrorCode.
Proof. solve_decision. Defined.

(** A code inside a template string. *)
Definition code_text (c : GitProviderErrorCode) : string :=
  match c with
  | NOT_FOUND => "NOT_FOUND" | CONFLICT => "CONFLICT" | PERMISSION => "PERMISSION"
  | RATE_LIMITED => "RATE_LIMITED" | SERVER_ERROR => "SERVER_ERROR" | TIMEOUT => "TIMEOUT"
  end.

(* @src packages/github-adapter/src/write/provider-port.ts:22-24 GitProviderResult *)
Inductive GitProviderResult (T : Type) :=
  | provided (value : T)
  | refused (code : GitProviderErrorCode) (detail : string).
Arguments provided {T} value.
Arguments refused {T} code detail.

(* @src packages/github-adapter/src/write/provider-port.ts:33-39 branchState *)
Record BranchState := {
  exists_ : bool;
  bs_headSha : option string;
  bs_protected : option bool
}.

(** [head.value.protected], as a condition. *)
Definition is_protected (b : BranchState) : bool := bs_protected b ?? false.
(** [head.value.headSha] in a template string. *)
Definition head_text (b : BranchState) : string := bs_headSha b ?? "undefined".
Definition head_is (b : BranchState) (sha : string) : bool :=
  match bs_headSha b with Some h => h =s? sha | None => false end.

(* @src packages/github-adapter/src/write/github-branches-commits.ts:46-56 MutationEvent *)
Record MutationEvent := {
  type : string;
  aggregateId : string;
  operationId : string;
  payload : list (string * json)
}.

(** A ref the provider answers with. *)
Record RefValue := { rv_ref : string; rv_sha : string }.

(* @src packages/github-adapter/src/write/provider-port.ts:32-71 GitHubMutationProviderPort *)
Inductive WriteCall :=
  | branchState_ (repository : GitRepoRef) (branch : string)
  | getCommit_ (repository : GitRepoRef) (sha : string)
  | createRef_ (repository : GitRepoRef) (ref sha : string)
  | createCommit_ (repository : GitRepoRef) (tree : list TreeEntry) (parents : list string)
      (message : string) (author : option VerifiedCommitIdentity)
  | updateRef_ (repository : GitRepoRef) (ref oldSha newSha : string) (force : bool)
  | claim_ (op : GitMutationOperation)
  | record_ (op : GitMutationOperation)
  | get_ (id : string)
  | emit_ (e : MutationEvent)
  | nowIso_
  | randomUUID_.

(* @src packages/github-adapter/src/write/mutation-operation-store.ts:20-25 MutationOperationStorePort *)
Definition WriteAns (c : WriteCall) : Type :=
  match c with
  | branchState_ _ _ => GitProviderResult BranchState
  | getCommit_ _ _ => GitProviderResult GitCommit
  | createRef_ _ _ _ => GitProviderResult RefValue
  | createCommit_ _ _ _ _ _ => GitProviderResult string
  | updateRef_ _ _ _ _ _ => GitProviderResult RefValue
  | claim_ _ => ClaimResult
  | record_ _ => unit
  | get_ _ => option GitMutationOperation
  | emit_ _ => unit
  | nowIso_ => string
  | randomUUID_ => string
  end.

(* @src packages/github-adapter/src/core/contracts.ts:86-92 AuthorizedActionContext *)
Record AuthorizedActionContext := {
  decisionId : string;
  ctx_operationKey : string;
  actionFingerprint : string;
  digest : string
}.

(* @src packages/github-adapter/src/write/github-branches-commits.ts:39-44 WriteContext *)
Record WriteContext := {
  correlationId : string;
  ctx_actionId : string;
  ctx_authorized : AuthorizedActionContext
}.

(** ** The adapter *)

(* @src packages/github-adapter/src/write/github-branches-commits.ts:94-94 REF_PREFIX *)
Definition REF_PREFIX : string := "refs/heads/".

(* @src packages/github-adapter/src/write/github-branches-commits.ts:626-628 repositoryKey *)
Definition repositoryKey (r : GitRepoRef) : string := owner r +s "/" +s repo r.

(* @src packages/github-adapter/src/write/github-branches-commits.ts:630-638 branchOf *)
Definition branchOf (r : GitRepoRef) (b sha : string) : GitBranch :=
  {| name := b; ref := REF_PREFIX +s b; headSha := sha; protected := false;
     repositoryId := repositoryKey r |}.

Definition repo_json (r : GitRepoRef) : json :=
  JObj [("owner", JStr (owner r)); ("repo", JStr (repo r))].

Definition identity_json (i : VerifiedCommitIdentity) : json :=
  JObj [("name", JStr (id_name i)); ("email", JStr (id_email i)); ("dateIso", JStr (id_dateIso i))].

Definition tree_json (entries : list TreeEntry) : json :=
  JObj [("entries", JArr (map (λ e,
    JObj [("path", JStr (entry_path e)); ("mode", JStr (entry_mode e));
          ("type", JStr (entry_type e)); ("sha", JStr (entry_sha e))]) entries))].

(** The digested inputs: [{ kind, ...req }]. *)
(* @src packages/github-adapter/src/write/github-branches-commits.ts:157-157 createBranch *)
Definition create_branch_json (i : CreateBranchInput) : json :=
  JObj [("kind", JStr "create_branch"); ("repository", repo_json (cb_repository i));
        ("branch", JStr (cb_branch i)); ("baseSha", JStr (baseSha i));
        ("workflowRunId", JStr (cb_workflowRunId i)); ("operationKey", JStr (cb_operationKey i))].

(* @src packages/github-adapter/src/write/github-branches-commits.ts:243-243 createCommit *)
Definition create_commit_json (i : CreateCommitInput) (message : string) : json :=
  JObj ([("kind", JStr "create_commit"); ("repository", repo_json (cc_repository i));
         ("branch", JStr (cc_branch i)); ("expectedHeadSha", JStr (expectedHeadSha i));
         ("parentSha", JStr (parentSha i)); ("tree", tree_json (tree i));
         ("message", JStr message)] ++
        match cc_author i with Some a => [("author", identity_json a)] | None => [] end ++
        [("workflowRunId", JStr (cc_workflowRunId i)); ("operationKey", JStr (cc_operationKey i))]).

(* @src packages/github-adapter/src/write/github-branches-commits.ts:400-400 advanceBranch *)
Definition advance_branch_json (i : AdvanceBranchInput) : json :=
  JObj [("kind", JStr "advance_branch"); ("repository", repo_json (ab_repository i));
        ("branch", JStr (ab_branch i)); ("expectedOldSha", JStr (expectedOldSha i));
        ("newSha", JStr (newSha i)); ("force", JBool false);
        ("workflowRunId", JStr (ab_workflowRunId i)); ("operationKey", JStr (ab_operationKey i))].

(* @src packages/github-adapter/src/write/github-branches-commits.ts:602-613 protect *)
Definition protect (b : string) (ctx : WriteContext) (key digest_ : string) : outcome unit :=
  let a := ctx_authorized ctx in
  if negb (isMutationBranch b) then Threw (PlainError "GITHUB_MUTATION_NAMESPACE_DENIED")
  else if isProtectedTarget b then Threw (PlainError "GITHUB_PROTECTED_BRANCH_DENIED")
  else if negb (nonempty (digest a)) || negb (ctx_operationKey a =s? key) ||
          negb (actionFingerprint a =s? digest_) || negb (digest a =s? digest_)
  then Threw (GuardError "REPOSITORY_FORBIDDEN")
  else Returned ().

(** A state in place of another: [{ ...op, state, attempts: op.attempts + 1, updatedAtIso }]. *)
Definition next_op (op : GitMutationOperation) (st : MutationStatus) (refs : list string)
    (after : option string) (attempts_ : Z) (now : string) : GitMutationOperation :=
  {| id := id op; kind := kind op; actionId := actionId op; repository := repository op;
     branch := branch op; workflowRunId := workflowRunId op; operationKey := operationKey op;
     inputDigest := inputDigest op; expectedBeforeSha := expectedBeforeSha op;
     intendedAfterSha := match after with Some a => Some a | None => intendedAfterSha op end; state := st; attempts := attempts_;
     providerRefs := providerRefs op ++ refs; op_createdAtIso := op_createdAtIso op;
     updatedAtIso := now |}.

(* @src packages/github-adapter/src/write/github-branches-commits.ts:589-599 #event *)
Definition event_ (type_ : string) (op : GitMutationOperation) (payload_ : list (string * json))
  : proc WriteAns unit :=
  ptry (call (Ans := WriteAns) (emit_ {| type := type_; aggregateId := operationKey op;
                                        operationId := id op; payload := payload_ |}))
       (λ _, pret ()).

(* @src packages/github-adapter/src/write/github-branches-commits.ts:546-561 #succeedOp *)
Definition succeedOp (op : GitMutationOperation) (st : MutationStatus) (refs : list string)
    (after : option string) : proc WriteAns unit :=
  now <~ call (Ans := WriteAns) nowIso_ ;;
  call (Ans := WriteAns) (record_ (next_op op st refs after (attempts op + 1) now)).

(* @src packages/github-adapter/src/write/github-branches-commits.ts:563-576 #failOp *)
Definition failOp (op : GitMutationOperation) (st : MutationStatus) (detail : string)
  : proc WriteAns unit :=
  now <~ call (Ans := WriteAns) nowIso_ ;;
  let next := next_op op st [] None (attempts op + 1) now in
  call (Ans := WriteAns) (record_ next) ;~
  event_ "github.mutation.conflicted" next [("detail", JStr detail)].

(** [markUnknown({ ...op, intendedAfterSha }, detail)], with [after] when the call adds it. *)
(* @src packages/github-adapter/src/write/github-branches-commits.ts:578-587 #markUnknown *)
Definition markUnknown (op : GitMutationOperation) (after : option string) (detail : string)
  : proc WriteAns unit :=
  now <~ call (Ans := WriteAns) nowIso_ ;;
  let next := next_op op outcome_unknown [] after (attempts op + 1) now in
  call (Ans := WriteAns) (record_ next) ;~
  event_ "github.mutation.reconciling" next [("detail", JStr detail)].

(* @src packages/github-adapter/src/write/github-branches-commits.ts:516-544 #newOperation *)
Definition newOperation (kind_ : MutationKind) (ctx : WriteContext) (r : GitRepoRef)
    (b run key digest_ before : string) (after : option string)
  : proc WriteAns GitMutationOperation :=
  uuid <~ call (Ans := WriteAns) randomUUID_ ;;
  created <~ call (Ans := WriteAns) nowIso_ ;;
  updated <~ call (Ans := WriteAns) nowIso_ ;;
  pret {| id := uuid; kind := kind_; actionId := ctx_actionId ctx; repository := r; branch := b;
          workflowRunId := run; operationKey := key; inputDigest := digest_;
          expectedBeforeSha := before; intendedAfterSha := after; state := authorized;
          attempts := 1; providerRefs := []; op_createdAtIso := created;
          updatedAtIso := updated |}.

(** The value of an outcome, or its error thrown. *)
Definition lift {T} (o : outcome T) : proc WriteAns T := Done o.

(** What an event says of the branch. *)
Definition branch_payload (r : GitRepoRef) (b sha_ : string) : list (string * json) :=
  [("repository", repo_json r); ("branch", JStr b); ("sha", JStr sha_)].

(* @src packages/github-adapter/src/write/github-branches-commits.ts:116-128 getBranch *)
Definition getBranch (r : GitRepoRef) (b : string)
  : proc WriteAns (GitBranch + string * string) :=
  st <~ call (Ans := WriteAns) (branchState_ r b) ;;
  match st with
  | refused code detail => pret (inr (code_text code, detail))
  | provided v =>
      match bs_headSha v with
      | Some h =>
          if exists_ v
          then pret (inl {| name := b; ref := REF_PREFIX +s b; headSha := h;
                            protected := is_protected v; repositoryId := repositoryKey r |})
          else pret (inr ("NOT_FOUND", "branch not found"))
      | None => pret (inr ("NOT_FOUND", "branch not found"))
      end
  end.

Section Adapter.
Context `{Digest}.

(** The answer of a read that found the branch. *)
Definition existing (st : GitProviderResult BranchState) : option BranchState :=
  match st with
  | provided v => if exists_ v then Some v else None
  | refused _ _ => None
  end.

(* @src packages/github-adapter/src/write/github-branches-commits.ts:616-624 assertBoundBranch *)
Definition assertBoundBranch (b run key : string) : outcome unit :=
  if b =s? buildWorkflowBranchName run key then Returned ()
  else Threw (PlainError "GITHUB_MUTATION_BRANCH_UNBOUND").

(* @src packages/github-adapter/src/write/github-branches-commits.ts:147-230 createBranch *)
Definition createBranch (req : CreateBranchInput) (ctx : WriteContext)
  : proc WriteAns (MutationResult GitBranch) :=
  if negb (createBranchInputSchema req) then throw (GuardError "VALIDATION_FAILED")
  else
  let r := cb_repository req in
  let b := cb_branch req in
  lift (assertBoundBranch b (cb_workflowRunId req) (cb_operationKey req)) ;~
  let digest_ := mutationInputDigest (create_branch_json req) in
  lift (protect b ctx (cb_operationKey req) digest_) ;~
  op <~ newOperation create_branch ctx r b (cb_workflowRunId req) (cb_operationKey req) digest_
          (baseSha req) None ;;
  claimed <~ call (Ans := WriteAns) (claim_ op) ;;
  match claimed with
  | claim_no code _ _ => pret (Conflict code)
  | claim_ok prior true =>
      if bool_decide (state prior = applied)
      then pret (Replayed (Some (branchOf r b (baseSha req))) (Some "operation already applied"))
      else
        let detail := "prior operation not confirmed applied; reconcile required" in
        pret (if includes [outcome_unknown; reconciling; executing] (state prior)
              then OutcomeUnknown detail else Conflict detail)
  | claim_ok _ false =>
      st <~ call (Ans := WriteAns) (branchState_ r b) ;;
      match existing st with
      | Some v =>
          failOp op conflicted ("branch already exists at " +s head_text v) ;~
          pret (if head_is v (baseSha req)
                then Replayed (Some (branchOf r b (baseSha req)))
                              (Some "branch already at requested base")
                else Conflict ("branch exists at different base " +s head_text v))
      | None =>
          did <~ call (Ans := WriteAns) (createRef_ r (REF_PREFIX +s b) (baseSha req)) ;;
          match did with
          | provided v =>
              succeedOp op applied [rv_sha v] None ;~
              event_ "branch.created" op (branch_payload r b (rv_sha v)) ;~
              pret (Applied (branchOf r b (baseSha req)))
          | refused CONFLICT _ =>
              failOp op conflicted "branch exists (provider conflict)" ;~
              pret (Conflict "branch already exists")
          | refused code detail =>
              markUnknown op None detail ;~
              pret (OutcomeUnknown ("createRef " +s code_text code +s ": " +s detail))
          end
      end
  end.

(** The preflight both remaining mutations share: the branch must be readable, exist, not be
    protected and be at the expected commit; otherwise the answer is already decided. *)
(* @src packages/github-adapter/src/write/github-branches-commits.ts:422-444 advanceBranch *)
Definition preflight {T} (op : GitMutationOperation) (r : GitRepoRef) (b expected : string)
    (moved_record : BranchState → string) (moved : string) (go : proc WriteAns (MutationResult T))
  : proc WriteAns (MutationResult T) :=
  head <~ call (Ans := WriteAns) (branchState_ r b) ;;
  match head with
  | refused code _ =>
      markUnknown op None ("branch preflight " +s code_text code) ;~
      pret (OutcomeUnknown ("branch preflight " +s code_text code))
  | provided v =>
      if negb (exists_ v) || is_protected v then
        let why := if is_protected v then "branch is provider-protected"
                   else "branch does not exist" in
        failOp op conflicted why ;~ pret (Conflict why)
      else if negb (head_is v expected) then
        failOp op conflicted (moved_record v) ;~ pret (Conflict moved)
      else go
  end.

(** From the new commit on: record it, then advance the branch. *)
(* @src packages/github-adapter/src/write/github-branches-commits.ts:307-387 createCommit *)
Definition push_commit (req : CreateCommitInput) (op : GitMutationOperation) (sha_ : string)
  : proc WriteAns (MutationResult GitCommit) :=
  let r := cc_repository req in
  let b := cc_branch req in
  fetched <~ call (Ans := WriteAns) (getCommit_ r sha_) ;;
  match fetched with
  | refused code _ =>
      markUnknown op (Some sha_) ("getCommit " +s code_text code) ;~
      pret (OutcomeUnknown
              ("commit created but metadata unavailable (" +s code_text code +s ")"))
  | provided committed =>
      succeedOp op executing [sha_] (Some sha_) ;~
      event_ "commit.created" op (branch_payload r b sha_) ;~
      advanced <~ call (Ans := WriteAns)
                    (updateRef_ r (REF_PREFIX +s b) (expectedHeadSha req) sha_ false) ;;
      match advanced with
      | provided v =>
          succeedOp op applied [sha_; rv_sha v] None ;~
          event_ "commit.pushed" op (branch_payload r b (rv_sha v)) ;~
          pret (Applied committed)
      | refused CONFLICT _ =>
          failOp op conflicted ("ref advance conflict (orphan commit " +s sha_ +s ")") ;~
          pret (Conflict ("ref advanced by another writer; orphan commit " +s sha_))
      | refused code _ =>
          markUnknown op (Some sha_) (code_text code +s ": ref not confirmed") ;~
          pret (OutcomeUnknown
                  ("commit created but ref not confirmed (orphan commit " +s sha_ +s ")"))
      end
  end.

(* @src packages/github-adapter/src/write/github-branches-commits.ts:232-306 createCommit *)
Definition createCommit (req : CreateCommitInput) (ctx : WriteContext)
  : proc WriteAns (MutationResult GitCommit) :=
  if negb (createCommitInputSchema req) then throw (GuardError "VALIDATION_FAILED")
  else
  let r := cc_repository req in
  let b := cc_branch req in
  lift (assertBoundBranch b (cc_workflowRunId req) (cc_operationKey req)) ;~
  message_ <~ lift (sanitizeCommitMessage (cc_message req)) ;;
  let digest_ := mutationInputDigest (create_commit_json req message_) in
  lift (protect b ctx (cc_operationKey req) digest_) ;~
  op <~ newOperation create_commit ctx r b (cc_workflowRunId req) (cc_operationKey req) digest_
          (parentSha req) None ;;
  claimed <~ call (Ans := WriteAns) (claim_ op) ;;
  match claimed with
  | claim_no code _ _ => pret (Conflict code)
  | claim_ok prior replayed_ =>
      if replayed_ && bool_decide (intendedAfterSha prior ≠ None)
      then pret (Replayed None (Some "operation already applied"))
      else
        preflight op r b (expectedHeadSha req)
          (λ v, "head changed " +s head_text v +s " != " +s expectedHeadSha req)
          "expected head no longer current"
          (created <~ call (Ans := WriteAns)
                        (createCommit_ r (tree req) [parentSha req] message_ (cc_author req)) ;;
           match created with
           | provided sha_ => push_commit req op sha_
           | refused CONFLICT detail => failOp op conflicted detail ;~ pret (Conflict detail)
           | refused code detail =>
               markUnknown op None detail ;~
               pret (OutcomeUnknown ("createCommit " +s code_text code))
           end)
  end.

(* @src packages/github-adapter/src/write/github-branches-commits.ts:390-467 advanceBranch *)
Definition advanceBranch (req : AdvanceBranchInput) (ctx : WriteContext)
  : proc WriteAns (MutationResult GitBranch) :=
  if negb (advanceBranchInputSchema req) then throw (GuardError "VALIDATION_FAILED")
  else
  let r := ab_repository req in
  let b := ab_branch req in
  lift (assertBoundBranch b (ab_workflowRunId req) (ab_operationKey req)) ;~
  let digest_ := mutationInputDigest (advance_branch_json req) in
  lift (protect b ctx (ab_operationKey req) digest_) ;~
  op <~ newOperation advance_branch ctx r b (ab_workflowRunId req) (ab_operationKey req) digest_
          (expectedOldSha req) (Some (newSha req)) ;;
  claimed <~ call (Ans := WriteAns) (claim_ op) ;;
  match claimed with
  | claim_no code _ _ => pret (Conflict code)
  | claim_ok prior replayed_ =>
      match (if replayed_ then intendedAfterSha prior else None) with
      | Some sha_ => pret (Replayed (Some (branchOf r b sha_)) None)
      | None =>
          preflight op r b (expectedOldSha req)
            (λ _, "expected old SHA no longer current") "expected old SHA no longer current"
            (advanced <~ call (Ans := WriteAns)
                           (updateRef_ r (REF_PREFIX +s b) (expectedOldSha req) (newSha req) false) ;;
             match advanced with
             | provided v =>
                 succeedOp op applied [rv_sha v] None ;~
                 event_ "commit.pushed" op (branch_payload r b (rv_sha v)) ;~
                 pret (Applied (branchOf r b (newSha req)))
             | refused CONFLICT detail => failOp op conflicted detail ;~ pret (Conflict detail)
             | refused _ detail => markUnknown op None detail ;~ pret (OutcomeUnknown detail)
             end)
      end
  end.
End Adapter.

(** ** Reconciliation *)

(* @src packages/github-adapter/src/write/github-branches-commits.ts:62-66 ReconciliationResult *)
Record ReconciliationResult := { rr_operationId : string; rr_state : MutationStatus; rr_detail : string }.

Definition trigger_text (t : MutationTrigger) : string :=
  match t with
  | t_begin => "begin" | t_applied => "applied" | t_unknown => "unknown" | t_conflict => "conflict"
  | t_fail => "fail" | t_begin_reconcile => "begin_reconcile"
  | t_reconciled_applied => "reconciled_applied"
  | t_reconciled_not_applied => "reconciled_not_applied"
  | t_reconciled_conflicted => "reconciled_conflicted" | t_manual => "manual" | t_retry => "retry"
  end.

(* @src packages/github-adapter/src/write/github-branches-commits.ts:485-499 reconcile *)
Definition verdict (op : GitMutationOperation) (st : GitProviderResult BranchState)
  : MutationTrigger :=
  match st with
  | refused _ _ => t_manual
  | provided v =>
      if exists_ v then
        if bool_decide (bs_headSha v = intendedAfterSha op) then t_reconciled_applied
        else if bool_decide (kind op = create_branch) && head_is v (expectedBeforeSha op)
        then t_reconciled_applied
        else t_reconciled_conflicted
      else if bool_decide (kind op = create_branch) then t_reconciled_not_applied
      else t_reconciled_conflicted
  end.

(* @src packages/github-adapter/src/write/github-branches-commits.ts:469-512 reconcile *)
Definition reconcile (id_ : string) : proc WriteAns ReconciliationResult :=
  found <~ call (Ans := WriteAns) (get_ id_) ;;
  match found with
  | None =>
      pret {| rr_operationId := id_; rr_state := failed; rr_detail := "operation not found" |}
  | Some op =>
      if negb (bool_decide (state op = outcome_unknown)) && negb (bool_decide (state op = executing))
      then pret {| rr_operationId := id op; rr_state := state op;
                   rr_detail := "no reconciliation needed" |}
      else match resolveMutationEdge (state op) t_begin_reconcile with
      | None => pret {| rr_operationId := id op; rr_state := state op;
                        rr_detail := "cannot reconcile from current state" |}
      | Some _ =>
          st <~ call (Ans := WriteAns) (branchState_ (repository op) (branch op)) ;;
          let trigger := verdict op st in
          let next := resolveMutationEdge reconciling trigger ?? manual_review in
          now <~ call (Ans := WriteAns) nowIso_ ;;
          let nextOp := next_op op next [] None (attempts op) now in
          call (Ans := WriteAns) (record_ nextOp) ;~
          event_ (if bool_decide (trigger = t_reconciled_conflicted)
                  then "github.mutation.conflicted" else "github.mutation.reconciling") nextOp [] ;~
          pret {| rr_operationId := id op; rr_state := next;
                  rr_detail := "reconciled via " +s trigger_text trigger |}
      end
  end.

(** ** Branch names *)

Definition segment_char (c : ascii) : bool := is_lower c || is_digit c || char_in "_-" c.

Lemma dash_runs_class inside s : all_chars segment_char (dash_runs inside s) = true.
Proof.
  revert inside. induction s as [|c s IH]; intros inside; cbn [dash_runs]; [done|].
  fold (segment_char c). destruct (segment_char c) eqn:Hc; cbn [all_chars]; [by rewrite Hc, IH|].
  destruct inside; [apply IH|]. cbn [all_chars]. by rewrite IH.
Qed.

Lemma drop_dashes_class p s : all_chars p s = true → all_chars p (drop_dashes s) = true.
Proof.
  induction s as [|c s IH]; [done|]. cbn [drop_dashes]. destruct (Ascii.eqb c "-"); [|done].
  cbn [all_chars]. intros [_ Hs]%andb_true_iff. by apply IH.
Qed.

Lemma slice_to_class p n s : all_chars p s = true → all_chars p (slice_to n s) = true.
Proof.
  revert s. induction n as [|n IH]; intros [|c s]; cbn [slice_to all_chars]; try done.
  intros [Hc Hs]%andb_true_iff. by rewrite Hc, (IH s Hs).
Qed.

Lemma slice_to_length n s : str_length (slice_to n s) ≤ Z.of_nat n.
Proof.
  unfold str_length. revert s. induction n as [|n IH]; intros [|c s]; simpl; try lia.
  specialize (IH s). lia.
Qed.

Lemma slice_to_short n s : str_length s ≤ Z.of_nat n → slice_to n s = s.
Proof.
  unfold str_length. revert s. induction n as [|n IH]; intros [|c s]; simpl; try (by intros; lia || done).
  intros Hs. rewrite IH; [done|lia].
Qed.

Lemma safeSegment_class s :
  all_chars segment_char (safeSegment s) = true ∧ 1 ≤ str_length (safeSegment s) ≤ 40.
Proof.
  unfold safeSegment. cbv zeta. destruct (nonempty _) eqn:Hn.
  - split; [|split].
    + apply slice_to_class. unfold str_rev at 1. rewrite all_chars_rev_acc, andb_true_r.
      apply drop_dashes_class. unfold str_rev. rewrite all_chars_rev_acc, andb_true_r.
      apply drop_dashes_class, dash_runs_class.
    + apply str_length_pos. intros Hs. by rewrite Hs in Hn.
    + apply slice_to_length.
  - vm_compute. split; [done|]. split; discriminate.
Qed.

(** A text of lower-case letters, digits and dashes that neither starts nor ends with a dash
    is its own segment. *)
Lemma dash_runs_id inside s : all_chars segment_char s = true → dash_runs inside s = s.
Proof.
  revert inside. induction s as [|c s IH]; intros inside; cbn [all_chars dash_runs]; [done|].
  intros [Hc Hs]%andb_true_iff. unfold segment_char in Hc. by rewrite Hc, (IH false Hs).
Qed.

Lemma drop_dashes_id s :
  match s with String c _ => Ascii.eqb c "-" = false | EmptyString => True end → drop_dashes s = s.
Proof. destruct s as [|c s]; [done|]. cbn [drop_dashes]. by intros ->. Qed.

Lemma safeSegment_id s :
  all_chars segment_char s = true → toLowerCase s = s → 1 ≤ str_length s ≤ 40 →
  drop_dashes s = s → drop_dashes (str_rev s) = str_rev s →
  safeSegment s = s.
Proof.
  intros Hs Hl [H1 H2] Hd Hr. unfold safeSegment. cbv zeta.
  rewrite Hl, (dash_runs_id false s Hs), Hd, Hr, str_rev_involutive, (slice_to_short 40 s) by done.
  by destruct s.
Qed.

Lemma str_rev_app a b : str_rev (a +s b) = str_rev b +s str_rev a.
Proof.
  assert (Hacc : ∀ s acc, str_rev_acc acc s = str_rev s +s acc).
  { intros s. induction s as [|c s IH]; intros acc; [done|]. unfold str_rev. simpl.
    rewrite (IH (String c acc)), (IH (String c "")), str_app_assoc. done. }
  induction a as [|c a IH]; [by rewrite str_app_nil_r|].
  change (str_rev (String c a +s b)) with (str_rev_acc (String c "") (a +s b)).
  change (str_rev (String c a)) with (str_rev_acc (String c "") a).
  by rewrite !Hacc, IH, str_app_assoc.
Qed.

Lemma toLowerCase_app a b : toLowerCase (a +s b) = toLowerCase a +s toLowerCase b.
Proof. induction a as [|c a IH]; simpl; [done|]. by rewrite IH. Qed.

Lemma toLowerCase_length s : str_length (toLowerCase s) = str_length s.
Proof. unfold str_length. induction s as [|c s IH]; simpl; [done|]. lia. Qed.

Definition no_dash (c : ascii) : bool := negb (Ascii.eqb c "-").

(** Neither end of a text of parts without dashes is one. *)
Lemma drop_dashes_head a s :
  all_chars no_dash a = true → 1 ≤ str_length a → drop_dashes (a +s s) = a +s s.
Proof.
  destruct a as [|c a]; [by intros _|]. cbn [all_chars]. intros [Hc _]%andb_true_iff _.
  apply (drop_dashes_id (String c (a +s s))). by apply negb_true_iff.
Qed.

Lemma drop_dashes_last a s :
  all_chars no_dash a = true → 1 ≤ str_length a →
  drop_dashes (str_rev (s +s a)) = str_rev (s +s a).
Proof.
  intros Ha Hl. rewrite str_rev_app. apply drop_dashes_head.
  - unfold str_rev. by rewrite all_chars_rev_acc, Ha.
  - assert (Hlen : ∀ t acc, str_length (str_rev_acc acc t) = str_length t + str_length acc).
    { unfold str_length. intros t. induction t as [|c t IH]; intros acc; simpl; [done|].
      rewrite IH. simpl. lia. }
    unfold str_rev. rewrite Hlen. unfold str_length at 2. simpl. lia.
Qed.

(** Both shapes of an id, in lower case: parts around dashes, or one part. *)
Definition lower_part (a : string) : Prop :=
  all_chars (λ c, is_lower c || is_digit c) a = true ∧ 1 ≤ str_length a.

Lemma lower_part_class a : lower_part a →
  all_chars segment_char a = true ∧ all_chars no_dash a = true ∧ toLowerCase a = a.
Proof.
  intros [Ha _]. split_and!.
  - revert Ha. apply all_chars_impl. intros c Hc. unfold segment_char. by rewrite Hc.
  - revert Ha. apply all_chars_impl. clear. intros c. unfold no_dash.
    destruct c as [[] [] [] [] [] [] [] []]; vm_compute; congruence.
  - induction a as [|c a IH]; [done|]. cbn [all_chars] in Ha. apply andb_true_iff in Ha as [Hc Ha].
    cbn [toLowerCase]. rewrite (IH Ha). f_equal. revert Hc. clear.
    destruct c as [[] [] [] [] [] [] [] []]; vm_compute; congruence.
Qed.

Lemma segment_of_part a : lower_part a → str_length a ≤ 40 → safeSegment a = a.
Proof.
  intros Ha Hl. destruct (lower_part_class a Ha) as (Hs & Hd & Hlow). destruct Ha as [_ H1].
  apply safeSegment_id; try done.
  - rewrite <- (str_app_nil_r a). by apply drop_dashes_head.
  - by apply (drop_dashes_last a "").
Qed.

Lemma segment_of_parts a m e :
  lower_part a → lower_part e → all_chars segment_char m = true → toLowerCase m = m →
  str_length (a +s m +s e) ≤ 40 → safeSegment (a +s m +s e) = a +s m +s e.
Proof.
  intros Ha He Hm Hml Hlen. destruct (lower_part_class a Ha) as (Hs & Hd & Hlow).
  destruct (lower_part_class e He) as (Hs' & Hd' & Hlow'). destruct Ha as [_ H1], He as [_ H1'].
  apply safeSegment_id.
  - by rewrite !all_chars_app, Hs, Hm, Hs'.
  - by rewrite !toLowerCase_app, Hlow, Hml, Hlow'.
  - split; [|done]. rewrite str_length_app in Hlen |- *. unfold str_length in *. lia.
  - by apply drop_dashes_head.
  - rewrite <- str_app_assoc. by apply drop_dashes_last.
Qed.

(** The segment of a run id is the id in lower case. *)
Lemma hex_part a n : all_chars lower_hex a = true → str_length a = n → 1 ≤ n → lower_part a.
Proof.
  intros Ha Hl Hn. split; [|lia]. revert Ha. apply all_chars_impl. clear.
  intros c. destruct c as [[] [] [] [] [] [] [] []]; vm_compute; congruence.
Qed.

Lemma ulid_chars u : all_chars (char_in "0123456789ABCDEFGHJKMNPQRSTVWXYZ") u = true →
  all_chars (λ c, is_lower c || is_digit c) (toLowerCase u) = true ∧ toUpperCase (toLowerCase u) = u.
Proof.
  induction u as [|c u IH]; [done|]. cbn [all_chars toLowerCase toUpperCase].
  intros [Hc Hu]%andb_true_iff. destruct (IH Hu) as [-> ->]. rewrite andb_true_r. revert Hc. clear.
  destruct c as [[] [] [] [] [] [] [] []]; vm_compute; split; congruence.
Qed.

(** The two shapes of ids: lower case with 36 characters, or upper case with 26. *)
Lemma id_schema_cases v : id_schema v = true →
  (safeSegment v = v ∧ str_length v = 36) ∨
  (safeSegment v = toLowerCase v ∧ str_length v = 26 ∧ toUpperCase (toLowerCase v) = v).
Proof.
  unfold id_schema. intros [_ H]%andb_true_iff.
  pose proof (join_split_char "-" v) as Hj.
  destruct (split_char "-" v) as [|a [|b [|c [|d [|e [|]]]]]]; try done.
  - right. simpl in Hj. subst a. apply andb_true_iff in H as [H26 Hu]. apply Z.eqb_eq in H26.
    destruct (ulid_chars v Hu) as [Hl Hup]. split_and!; [|done|done].
    rewrite <- (segment_of_part (toLowerCase v)).
    + unfold safeSegment. by rewrite toLowerCase_idemp.
    + split; [done|]. rewrite toLowerCase_length. lia.
    + rewrite toLowerCase_length. lia.
  - left. breflect. cbn [forallb] in *. breflect.
    assert (Hv : v = a +s ("-" +s b +s "-" +s c +s "-" +s d +s "-") +s e).
    { rewrite <- Hj. cbn [join]. by rewrite !str_app_assoc. }
    assert (Hlen : str_length v = 36).
    { rewrite Hv, !str_length_app. change (str_length "-") with 1. lia. }
    split; [|done].
    destruct (lower_part_class b) as (Hb & _ & Hb'); [by eapply hex_part|].
    destruct (lower_part_class c) as (Hc & _ & Hc'); [by eapply hex_part|].
    destruct (lower_part_class d) as (Hd & _ & Hd'); [by eapply hex_part|].
    rewrite Hv. apply segment_of_parts.
    + by eapply hex_part.
    + by eapply hex_part.
    + by rewrite !all_chars_app, Hb, Hc, Hd.
    + by rewrite !toLowerCase_app, Hb', Hc', Hd'.
    + rewrite <- Hv. lia.
Qed.

Lemma safeSegment_id_inj v w :
  id_schema v = true → id_schema w = true → safeSegment v = safeSegment w → v = w.
Proof.
  intros Hv Hw Heq.
  destruct (id_schema_cases v Hv) as [[Hsv Hlv]|(Hsv & Hlv & Huv)],
           (id_schema_cases w Hw) as [[Hsw Hlw]|(Hsw & Hlw & Huw)].
  - congruence.
  - rewrite Hsv, Hsw in Heq. rewrite Heq, toLowerCase_length in Hlv. lia.
  - rewrite Hsv, Hsw in Heq. rewrite <- Heq, toLowerCase_length in Hlw. lia.
  - congruence.
Qed.

Lemma bound_branch `{Digest} run key :
  let b := buildWorkflowBranchName run key in
  isMutationBranch b = true ∧ isProtectedTarget b = false ∧ str_length b ≤ 55.
Proof.
  cbv zeta. destruct (safeSegment_class run) as [_ [_ Hl]].
  assert (Hlen : str_length (buildWorkflowBranchName run key) ≤ 55).
  { unfold buildWorkflowBranchName. rewrite !str_length_app.
    pose proof (slice_to_length 8 (sha256 key)). change (str_length BRANCH_PREFIX) with 6.
    change (str_length "/") with 1. lia. }
  split_and!; [|reflexivity|done].
  unfold isMutationBranch, startsWith. apply andb_true_iff. split; [apply prefix_app|].
  apply Z.leb_le. lia.
Qed.

(** The branch of a workflow run is its own: the name built for a run and an operation lies
    in the agent namespace, is never a protected target and is at most 55 characters long; and
    runs with different ids never share a branch, whatever their operations -- the lower-casing,
    the replaced characters and the cut to forty characters lose nothing of an id. *)
Theorem branch_identifies_run `{Digest} run run' key key' :
  id_schema run = true → id_schema run' = true →
  let b := buildWorkflowBranchName run key in
  isMutationBranch b = true ∧ isProtectedTarget b = false ∧ str_length b ≤ 55 ∧
  (b = buildWorkflowBranchName run' key' → run = run').
Proof.
  intros Hr Hr' b. destruct (bound_branch run key) as (H1 & H2 & H3). split_and!; [done..|].
  intros Heq. apply safeSegment_id_inj; [done..|]. subst b. unfold buildWorkflowBranchName in Heq.
  assert (Hcut : ∀ r x, split_char "/" (BRANCH_PREFIX +s safeSegment r +s "/" +s x) =
    "agent" :: safeSegment r :: split_char "/" x).
  { intros r x. change (BRANCH_PREFIX +s ?t) with ("agent" +s String "/" t).
    rewrite split_char_cons by done. f_equal. change ("/" +s x) with (String "/" x).
    rewrite split_char_cons; [done|]. apply (class_absent segment_char); [done|].
    apply safeSegment_class. }
  pose proof (f_equal (split_char "/") Heq) as Hs. rewrite !Hcut in Hs. congruence.
Qed.

(** ** No write without its authorisation *)

Section Guards.
Context `{Digest}.

Definition is_write (c : WriteCall) : bool :=
  match c with createRef_ _ _ _ | createCommit_ _ _ _ _ _ | updateRef_ _ _ _ _ _ => true | _ => false end.

Definition no_write (tr : list (event WriteAns)) : Prop :=
  Forall (λ e, is_write (ev_call e) = false) tr.

Definition no_update (tr : list (event WriteAns)) : Prop :=
  Forall (λ e, match ev_call e with updateRef_ _ _ _ _ _ => False | _ => True end) tr.

(** The context authorises exactly this input under this operation's key, and the branch is the
    one of the run and the key. *)
Definition authorised (ctx : WriteContext) (input : json) (op : GitMutationOperation) : Prop :=
  let a := ctx_authorized ctx in
  digest a ≠ "" ∧ digest a = mutationInputDigest input ∧ actionFingerprint a = digest a ∧
  inputDigest op = digest a ∧ ctx_operationKey a = operationKey op ∧
  branch op = buildWorkflowBranchName (workflowRunId op) (operationKey op).

(** The store took the operation. *)
Definition claimed (tr : list (event WriteAns)) (op : GitMutationOperation) : Prop :=
  ∃ prior replayed, ev (claim_ op) (Returned (claim_ok prior replayed)) ∈ tr.

(** The branch was read: it exists, is not protected, and stands at the commit. *)
Definition read_at (tr : list (event WriteAns)) (r : GitRepoRef) (b sha_ : string) : Prop :=
  ∃ v, ev (branchState_ r b) (Returned (provided v)) ∈ tr ∧
    exists_ v = true ∧ is_protected v = false ∧ bs_headSha v = Some sha_.

Definition permitted (ctx : WriteContext) (input : json) (tr : list (event WriteAns))
    (r : GitRepoRef) (b : string) : Prop :=
  ∃ op, authorised ctx input op ∧ claimed tr op ∧ repository op = r ∧ branch op = b.

Definition write_allowed (ctx : WriteContext) (input : json) (tr : list (event WriteAns))
    (c : WriteCall) : Prop :=
  match c with
  | claim_ op => authorised ctx input op
  | createRef_ r ref_ _ => no_write tr ∧ ∃ b, ref_ = REF_PREFIX +s b ∧ permitted ctx input tr r b
  | createCommit_ r _ _ _ _ =>
      no_write tr ∧ ∃ b sha_, permitted ctx input tr r b ∧ read_at tr r b sha_
  | updateRef_ r ref_ old _ force =>
      force = false ∧ no_update tr ∧
      ∃ b, ref_ = REF_PREFIX +s b ∧ permitted ctx input tr r b ∧ read_at tr r b old
  | record_ op' =>
      ∃ op, authorised ctx input op ∧ claimed tr op ∧ id op' = id op ∧
        operationKey op' = operationKey op ∧ inputDigest op' = inputDigest op
  | _ => True
  end.

Lemma protect_ok b ctx key digest_ :
  protect b ctx key digest_ = Returned () →
  let a := ctx_authorized ctx in
  digest a ≠ "" ∧ ctx_operationKey a = key ∧ actionFingerprint a = digest_ ∧ digest a = digest_.
Proof.
  unfold protect. cbv zeta. repeat (case_match; [done|]). intros _. breflect.
  split_and!; try done. intros Hd. by rewrite Hd in *.
Qed.

Lemma assertBound_ok b run key :
  assertBoundBranch b run key = Returned () → b = buildWorkflowBranchName run key.
Proof. unfold assertBoundBranch. case_match; [|done]. intros _. by breflect. Qed.

(** More calls, none of them a write. *)
Definition grows (tr tr' : list (event WriteAns)) : Prop :=
  ∃ l, tr' = tr ++ l ∧ no_write l.

Lemma grows_refl tr : grows tr tr.
Proof. exists []. rewrite app_nil_r. split; [done|constructor]. Qed.

Lemma grows_snoc tr tr' e : grows tr tr' → is_write (ev_call e) = false → grows tr (tr' ++ [e]).
Proof.
  intros (l & -> & Hl) He. exists (l ++ [e]). rewrite app_assoc. split; [done|].
  apply Forall_app. split; [done|by repeat constructor].
Qed.

Lemma grows_trans tr tr1 tr2 : grows tr tr1 → grows tr1 tr2 → grows tr tr2.
Proof.
  intros (l & -> & Hl) (l' & -> & Hl'). exists (l ++ l'). rewrite app_assoc. split; [done|].
  by apply Forall_app.
Qed.

Lemma claimed_app tr l op : claimed tr op → claimed (tr ++ l) op.
Proof. intros (p & b & Hin). exists p, b. apply elem_of_app. by left. Qed.

Lemma grows_claimed tr tr' op : grows tr tr' → claimed tr op → claimed tr' op.
Proof. intros (l & -> & _). apply claimed_app. Qed.

Lemma grows_read tr tr' r b s : grows tr tr' → read_at tr r b s → read_at tr' r b s.
Proof. intros (l & -> & _) (v & Hin & Hv). exists v. split; [|done]. apply elem_of_app. by left. Qed.

Lemma grows_no_write tr tr' : grows tr tr' → no_write tr → no_write tr'.
Proof. intros (l & -> & Hl) Htr. by apply Forall_app. Qed.

Lemma no_write_update tr : no_write tr → no_update tr.
Proof. intros Htr. eapply Forall_impl; [exact Htr|]. intros e He. simpl in *. by destruct (ev_call e). Qed.

Lemma grows_no_update tr tr' : grows tr tr' → no_update tr → no_update tr'.
Proof. intros (l & -> & Hl) Htr. apply Forall_app. split; [done|by apply no_write_update]. Qed.

Notation guarded ctx input := (ensures (write_allowed ctx input) (λ _ _, True)).

(** The bookkeeping around a write: it only records the claimed operation, and goes on. *)
Definition books {T} (ctx : WriteContext) (input : json) (op : GitMutationOperation)
    (tr : list (event WriteAns)) (p : proc WriteAns T) : Prop :=
  ∀ tr', grows tr tr' →
    ensures (write_allowed ctx input) (λ tr2 _, grows tr tr2) tr' p.

Lemma books_bind {T U} ctx input op tr (p : proc WriteAns T) (k : T → proc WriteAns U) :
  books ctx input op tr p →
  (∀ a tr', grows tr tr' → guarded ctx input tr' (k a)) →
  guarded ctx input tr (pbind p k).
Proof.
  intros Hp Hk. apply ensures_pbind.
  refine (ensures_mono _ _ _ _ _ _ _ _ (Hp tr (grows_refl tr))); [done|].
  intros tr2 [a|e] Hg; [|done]. by apply Hk.
Qed.

Lemma books_record ctx input op tr st refs after n now :
  authorised ctx input op → claimed tr op →
  books ctx input op tr (call (Ans := WriteAns) (record_ (next_op op st refs after n now))).
Proof.
  intros Ha Hc tr' Hg. cbn [call ensures]. split.
  - exists op. split_and!; try done. by apply (grows_claimed tr).
  - intros o. by apply grows_snoc.
Qed.

Lemma books_event ctx input op tr ty op' pl : books ctx input op tr (event_ ty op' pl).
Proof.
  intros tr' Hg. unfold event_. cbn [call ptry ensures]. split; [done|].
  intros [u|e]; cbn [ptry ensures pret]; by apply grows_snoc.
Qed.

Lemma books_then {T U} ctx input op tr (p : proc WriteAns T) (k : T → proc WriteAns U) :
  books ctx input op tr p → (∀ a, books ctx input op tr (k a)) →
  books ctx input op tr (pbind p k).
Proof.
  intros Hp Hk tr' Hg. apply ensures_pbind.
  refine (ensures_mono _ _ _ _ _ _ _ _ (Hp tr' Hg)); [done|].
  intros tr2 [a|e] Hg2; [|done]. by apply Hk.
Qed.

Lemma books_now ctx input op tr : books ctx input op tr (call (Ans := WriteAns) nowIso_).
Proof. intros tr' Hg. cbn [call ensures]. split; [done|]. intros o. by apply grows_snoc. Qed.

Lemma books_succeedOp ctx input op tr st refs after :
  authorised ctx input op → claimed tr op → books ctx input op tr (succeedOp op st refs after).
Proof. intros. apply books_then; [apply books_now|]. intros now. by apply books_record. Qed.

Lemma books_failOp ctx input op tr st d :
  authorised ctx input op → claimed tr op → books ctx input op tr (failOp op st d).
Proof.
  intros. apply books_then; [apply books_now|]. intros now.
  apply books_then; [by apply books_record|]. intros _. apply books_event.
Qed.

Lemma books_markUnknown ctx input op tr after d :
  authorised ctx input op → claimed tr op → books ctx input op tr (markUnknown op after d).
Proof.
  intros. apply books_then; [apply books_now|]. intros now.
  apply books_then; [by apply books_record|]. intros _. apply books_event.
Qed.

(** The claim: of a fresh operation with the fields of the request, or the answer is given. *)
Lemma guarded_claim {T} ctx input kind_ r b run key before after
    (k : GitMutationOperation → ClaimResult → proc WriteAns T) :
  b = buildWorkflowBranchName run key →
  protect b ctx key (mutationInputDigest input) = Returned () →
  (∀ op prior replayed tr,
     repository op = r → branch op = b → authorised ctx input op → claimed tr op → no_write tr →
     guarded ctx input tr (k op (claim_ok prior replayed))) →
  (∀ op code d e tr, guarded ctx input tr (k op (claim_no code d e))) →
  guarded ctx input []
    (op <~ newOperation kind_ ctx r b run key (mutationInputDigest input) before after ;;
     claimed <~ call (Ans := WriteAns) (claim_ op) ;; k op claimed).
Proof.
  intros Hb Hp Hok Hno. apply protect_ok in Hp as (Hne & Hkey & Hf & Hd).
  unfold newOperation. cbn [call pret pbind ensures app].
  split; [done|]. intros [u|e]; [|done]. cbn [pbind ensures app].
  split; [done|]. intros [c|e]; [|done]. cbn [pbind ensures app].
  split; [done|]. intros [w|e]; [|done]. cbn [pbind ensures app]. set (op := {| id := u |}).
  assert (Ha : authorised ctx input op) by (split_and!; simpl; congruence).
  split; [exact Ha|]. intros [[prior replayed|code d ex]|e]; cbn [pbind]; [| |done].
  - apply Hok; try done.
    + exists prior, replayed. set_solver.
    + by repeat constructor.
  - apply Hno.
Qed.

(** The preflight passes only with the head it read. *)
Lemma guarded_preflight {T} ctx input op tr r b expected rec_ moved
    (go : proc WriteAns (MutationResult T)) :
  authorised ctx input op → claimed tr op → no_write tr →
  (∀ tr', grows tr tr' → read_at tr' r b expected → guarded ctx input tr' go) →
  guarded ctx input tr (preflight op r b expected rec_ moved go).
Proof.
  intros Ha Hc Hn Hgo. unfold preflight. cbn [call pbind ensures]. split; [done|].
  intros [st|e]; cbn [pbind]; [|done].
  assert (Hg : grows tr (tr ++ [ev (branchState_ r b) (Returned st)]))
    by (apply grows_snoc; [apply grows_refl|done]).
  pose proof (grows_claimed _ _ op Hg Hc) as Hc'.
  destruct st as [v|code d].
  - destruct (negb (exists_ v) || is_protected v) eqn:Hx.
    { apply (books_bind ctx input op); [by apply books_failOp|done]. }
    destruct (negb (head_is v expected)) eqn:Hh.
    { apply (books_bind ctx input op); [by apply books_failOp|done]. }
    apply Hgo; [done|]. exists v. breflect. split_and!; [set_solver|done|done|].
    unfold head_is in Hh. destruct (bs_headSha v); [|done]. breflect. by subst.
  - apply (books_bind ctx input op); [by apply books_markUnknown|done].
Qed.

Lemma guarded_lift {T U} ctx input tr (o : outcome T) (k : T → proc WriteAns U) :
  (∀ a, o = Returned a → guarded ctx input tr (k a)) → guarded ctx input tr (pbind (lift o) k).
Proof. destruct o as [a|e]; intros Hk; [by apply Hk|done]. Qed.

(** The claim is still there after one more call. *)
Ltac claim_grew :=
  match goal with
  | Hc : claimed ?tr ?op |- ensures _ _ (?tr ++ ?l) _ => pose proof (claimed_app tr l op Hc)
  end.

Lemma guarded_createBranch ctx req :
  guarded ctx (create_branch_json req) [] (createBranch req ctx).
Proof.
  unfold createBranch. destruct (negb _); [done|]. cbv zeta.
  apply guarded_lift. intros [] Hb%assertBound_ok. apply guarded_lift. intros [] Hp.
  apply guarded_claim; [done|done| |done].
  intros op prior replayed tr Hr Hbr Ha Hc Hn. destruct replayed.
  { by case_bool_decide. }
  cbn [call pbind ensures]. split; [done|]. intros [st|e]; cbn [pbind]; [|done].
  assert (Hg : grows tr (tr ++ [ev (branchState_ (cb_repository req) (cb_branch req)) (Returned st)]))
    by (apply grows_snoc; [apply grows_refl|done]).
  pose proof (grows_claimed _ _ op Hg Hc) as Hc'.
  destruct (existing st) as [v|].
  { apply (books_bind _ _ op); [by apply books_failOp|done]. }
  cbn [call pbind ensures]. split.
  { split; [by apply (grows_no_write tr)|]. eexists. split; [done|]. by exists op. }
  intros [[v|code d]|e]; cbn [pbind]; [| |done].
  all: claim_grew.
  - apply (books_bind _ _ op); [by apply books_succeedOp|]. intros _ tr' _.
    apply (books_bind _ _ op); [apply books_event|done].
  - destruct code.
    2: apply (books_bind _ _ op); [by apply books_failOp|done].
    all: apply (books_bind _ _ op); [by apply books_markUnknown|done].
Qed.

Lemma guarded_advanceBranch ctx req :
  guarded ctx (advance_branch_json req) [] (advanceBranch req ctx).
Proof.
  unfold advanceBranch. destruct (negb _); [done|]. cbv zeta.
  apply guarded_lift. intros [] Hb%assertBound_ok. apply guarded_lift. intros [] Hp.
  apply guarded_claim; [done|done| |done].
  intros op prior replayed tr Hr Hbr Ha Hc Hn. destruct (if replayed then _ else None); [done|].
  apply guarded_preflight; [done..|]. intros tr' Hg Hread.
  pose proof (grows_claimed _ _ op Hg Hc) as Hc'.
  cbn [call pbind ensures]. split.
  { split; [done|]. split; [by apply (grows_no_update tr), no_write_update|].
    eexists. split_and!; [done|by exists op|done]. }
  intros [[v|code d]|e]; cbn [pbind]; [| |done].
  all: claim_grew.
  - apply (books_bind _ _ op); [by apply books_succeedOp|]. intros _ tr2 _.
    apply (books_bind _ _ op); [apply books_event|done].
  - destruct code.
    2: apply (books_bind _ _ op); [by apply books_failOp|done].
    all: apply (books_bind _ _ op); [by apply books_markUnknown|done].
Qed.

Lemma guarded_push ctx input req op tr sha_ :
  authorised ctx input op → claimed tr op → no_update tr →
  repository op = cc_repository req → branch op = cc_branch req →
  read_at tr (cc_repository req) (cc_branch req) (expectedHeadSha req) →
  guarded ctx input tr (push_commit req op sha_).
Proof.
  intros Ha Hc Hn Hr Hb Hread. unfold push_commit. cbn [call pbind ensures]. split; [done|].
  intros [st|e]; cbn [pbind]; [|done].
  assert (Hg : grows tr (tr ++ [ev (getCommit_ (cc_repository req) sha_) (Returned st)]))
    by (apply grows_snoc; [apply grows_refl|done]).
  pose proof (grows_claimed _ _ op Hg Hc) as Hc'. destruct st as [committed|code d].
  2: { apply (books_bind _ _ op); [by apply books_markUnknown|done]. }
  apply (books_bind _ _ op); [by apply books_succeedOp|]. intros _ tr1 Hg1.
  apply (books_bind _ _ op); [apply books_event|]. intros _ tr2 Hg2.
  assert (Hg' : grows tr tr2) by (eapply grows_trans; [|exact Hg2]; by eapply grows_trans).
  clear Hg Hg1 Hg2 Hc'. pose proof (grows_claimed _ _ op Hg' Hc) as Hc'.
  cbn [call pbind ensures]. split.
  { split; [done|]. split; [by apply (grows_no_update tr)|].
    eexists. split_and!; [done|by exists op|by apply (grows_read tr)]. }
  intros [[v|code d]|e]; cbn [pbind]; [| |done].
  all: claim_grew.
  - apply (books_bind _ _ op); [by apply books_succeedOp|]. intros _ tr3 _.
    apply (books_bind _ _ op); [apply books_event|done].
  - destruct code.
    2: apply (books_bind _ _ op); [by apply books_failOp|done].
    all: apply (books_bind _ _ op); [by apply books_markUnknown|done].
Qed.

Lemma guarded_createCommit ctx req message_ :
  sanitizeCommitMessage (cc_message req) = Returned message_ →
  guarded ctx (create_commit_json req message_) [] (createCommit req ctx).
Proof.
  intros Hm. unfold createCommit. destruct (negb _); [done|]. cbv zeta.
  apply guarded_lift. intros [] Hb%assertBound_ok. rewrite Hm. cbn [lift pbind].
  apply guarded_lift. intros [] Hp. apply guarded_claim; [done|done| |done].
  intros op prior replayed tr Hr Hbr Ha Hc Hn. destruct (replayed && _); [done|].
  apply guarded_preflight; [done..|]. intros tr' Hg Hread.
  pose proof (grows_claimed _ _ op Hg Hc) as Hc'.
  cbn [call pbind ensures]. split.
  { split; [by apply (grows_no_write tr)|]. eexists _, _. split; [by exists op|done]. }
  intros [[sha_|code d]|e]; cbn [pbind]; [| |done].
  all: claim_grew.
  - apply guarded_push; try done.
    + apply Forall_app. split; [by apply (grows_no_update tr), no_write_update|by repeat constructor].
    + destruct Hread as (v & Hin & Hv). exists v. split; [|done]. apply elem_of_app. by left.
  - destruct code.
    2: apply (books_bind _ _ op); [by apply books_failOp|done].
    all: apply (books_bind _ _ op); [by apply books_markUnknown|done].
Qed.
End Guards.

Definition committed_message (req : CreateCommitInput) : string :=
  match sanitizeCommitMessage (cc_message req) with Returned m => m | Threw _ => "" end.

(* @prop safety 6.73 : createBranch createCommit advanceBranch protect assertBoundBranch mutationInputDigest preflight push_commit newOperation succeedOp failOp markUnknown *)
(** C27. No write to GitHub without its authorisation, whatever the store, the provider and the
    event sink answer or throw: every ref created, commit created and branch moved is on the
    branch that belongs to its run and operation key, after the store has taken an operation
    whose input digest is the digest of exactly this request and is the one the context
    authorises under that key; commits and moves come only after a read showed the branch
    existing, unprotected and at a known head, and the move names that head as the one it
    expects and never forces; a request makes at most one write besides the move of the branch
    and moves it at most once; and what is recorded is always the operation taken. *)
Theorem writes_are_authorised `{Digest} ctx :
  (∀ req, ensures (write_allowed ctx (create_branch_json req)) (λ _ _, True) []
            (createBranch req ctx)) ∧
  (∀ req, ensures (write_allowed ctx (create_commit_json req (committed_message req)))
            (λ _ _, True) [] (createCommit req ctx)) ∧
  (∀ req, ensures (write_allowed ctx (advance_branch_json req)) (λ _ _, True) []
            (advanceBranch req ctx)).
Proof.
  split_and!; intros req.
  - apply guarded_createBranch.
  - unfold committed_message. destruct (sanitizeCommitMessage (cc_message req)) as [m|e] eqn:Hm.
    + by apply guarded_createCommit.
    + unfold createCommit. destruct (negb _); [done|]. cbv zeta.
      apply guarded_lift. intros [] _. by rewrite Hm.
  - apply guarded_advanceBranch.
Qed.

(** ** Requests that are made again *)

Section Retry.
Context `{Digest}.
(** Everything outside the store: GitHub, the event sink, the clock and the source of ids. *)
Context {W : Type} (outside : ∀ c, W → outcome (WriteAns c) * W).

(** The ports over the in-memory store. *)
Definition github_port (c : WriteCall) (w : OperationStore * W)
  : outcome (WriteAns c) * (OperationStore * W) :=
  match c with
  | claim_ op => let '(r, s) := claim op w.1 in (Returned r, (s, w.2))
  | record_ op => (Returned (), (record op w.1, w.2))
  | get_ id_ => (Returned (get id_ w.1), w)
  | c => let '(o, x) := outside c w.2 in (o, (w.1, x))
  end.

(** The operations stored under a key are all of this kind, digest and intended commit. *)
Definition only (key : string) (kind_ : MutationKind) (digest_ : string) (after : option string)
    (s : OperationStore) : Prop :=
  ∀ i op, (i, op) ∈ ops s → operationKey op = key →
    kind op = kind_ ∧ inputDigest op = digest_ ∧ intendedAfterSha op = after.

Definition present (key : string) (s : OperationStore) : Prop :=
  ∃ i op, (i, op) ∈ ops s ∧ operationKey op = key.


Lemma find_present key kind_ digest_ after s :
  only key kind_ digest_ after s → present key s →
  ∃ prior, findByIdempotency key s = Some prior ∧
    kind prior = kind_ ∧ inputDigest prior = digest_ ∧ intendedAfterSha prior = after.
Proof.
  intros Honly (i & op & Hin & Hkey). unfold findByIdempotency.
  destruct (List.find _ (ops s)) as [[i' op']|] eqn:Hf.
  - apply find_some_elem in Hf as [Hin' Hk]. simpl in Hk. apply String.eqb_eq in Hk.
    exists op'. split; [done|]. by apply (Honly i').
  - apply (find_none_elem _ _ _ Hf) in Hin. simpl in Hin. by rewrite Hkey, String.eqb_refl in Hin.
Qed.

Lemma find_absent key s : findByIdempotency key s = None →
  ∀ i op, (i, op) ∈ ops s → operationKey op ≠ key.
Proof.
  unfold findByIdempotency. destruct (List.find _ _) as [|] eqn:Hf; [done|]. intros _ i op Hin.
  apply (find_none_elem _ _ _ Hf) in Hin. simpl in Hin. by apply String.eqb_neq.
Qed.

(** What a program may record without disturbing the operations of a key. *)
Definition same_record (key : string) (kind_ : MutationKind) (digest_ : string)
    (after : option string) (c : WriteCall) : Prop :=
  match c with
  | claim_ _ => False
  | record_ op =>
      operationKey op = key ∧ kind op = kind_ ∧ inputDigest op = digest_ ∧
      intendedAfterSha op = after
  | _ => True
  end.

Lemma final_keeps {T} key kind_ digest_ after (p : proc WriteAns T) tr w :
  ensures (λ _, same_record key kind_ digest_ after) (λ _ _, True) tr p →
  only key kind_ digest_ after w.1 → present key w.1 →
  let w' := (final github_port p w).2 in
  only key kind_ digest_ after w'.1 ∧ present key w'.1.
Proof.
  cbv zeta. revert tr w. induction p as [o|c k IH]; intros tr w; [by intros|].
  cbn [ensures]. intros [Hc Hk] Ho Hp. rewrite final_await.
  assert (Hstep : only key kind_ digest_ after (github_port c w).2.1 ∧
                  present key (github_port c w).2.1).
  { destruct c; simpl in Hc |- *; try done; try (by destruct (outside _ _)).
    destruct Hc as (Hkey & Hkind & Hdig & Haft). split.
    - intros i op' [[= -> ->]|Hin]%set_key_in; [done|by apply Ho in Hin].
    - exists (id op), op. split; [apply in_set_key|done]. }
  destruct Hstep as [H1 H2]. exact (IH _ _ _ (Hk _) H1 H2).
Qed.

(** A clock and a source of ids that always answer. *)
Definition answers (c : WriteCall) : Prop := ∀ w, ∃ a w', outside c w = (Returned a, w').

Definition owned_by (r : GitRepoRef) (b run : string) (s : OperationStore) : Prop :=
  match assoc (keyOf r b) (ownership s) with Some o => o = run | None => True end.

Lemma final_newOperation kind_ ctx r b run key digest_ before after s w :
  answers randomUUID_ → answers nowIso_ →
  ∃ op w', final github_port (newOperation kind_ ctx r b run key digest_ before after) (s, w) =
             (Returned op, (s, w')) ∧
    kind op = kind_ ∧ repository op = r ∧ branch op = b ∧ workflowRunId op = run ∧
    operationKey op = key ∧ inputDigest op = digest_ ∧ intendedAfterSha op = after.
Proof.
  intros Hu Hn. unfold newOperation.
  destruct (Hu w) as (u & w1 & E1), (Hn w1) as (c & w2 & E2), (Hn w2) as (d & w3 & E3).
  rewrite final_pbind, final_call. simpl github_port. rewrite E1.
  rewrite final_pbind, final_call. simpl github_port. rewrite E2.
  rewrite final_pbind, final_call. simpl github_port. rewrite E3.
  rewrite final_pret. by eexists _, _.
Qed.

(** A claim of a fresh key is taken; one of a known key with its kind and digest is a replay. *)
Lemma claim_fresh op s :
  findByIdempotency (operationKey op) s = None →
  owned_by (repository op) (branch op) (workflowRunId op) s →
  ∃ s', claim op s = (claim_ok op false, s') ∧ ops s' = set_key (id op) op (ops s).
Proof.
  intros Hf Ho. unfold claim. rewrite Hf. unfold owned_by in Ho.
  destruct (assoc _ _) as [o|]; [subst o; rewrite String.eqb_refl|]; simpl; by eexists.
Qed.

Lemma claim_replay op prior s :
  findByIdempotency (operationKey op) s = Some prior → kind prior = kind op →
  inputDigest prior = inputDigest op → claim op s = (claim_ok prior true, s).
Proof.
  intros Hf Hk Hd. unfold claim. rewrite Hf, Hd, String.eqb_refl.
  by rewrite bool_decide_eq_true_2.
Qed.

(** Requests the adapter takes to the store. *)
Definition advance_accepted (req : AdvanceBranchInput) (ctx : WriteContext) : Prop :=
  advanceBranchInputSchema req = true ∧
  assertBoundBranch (ab_branch req) (ab_workflowRunId req) (ab_operationKey req) = Returned () ∧
  protect (ab_branch req) ctx (ab_operationKey req)
    (mutationInputDigest (advance_branch_json req)) = Returned ().

Definition keeps key kind_ digest_ after {T} (p : proc WriteAns T) : Prop :=
  ∀ tr, ensures (λ _, same_record key kind_ digest_ after) (λ _ _, True) tr p.

Lemma keeps_bind key kind_ digest_ after {T U} (p : proc WriteAns T) (k : T → proc WriteAns U) :
  keeps key kind_ digest_ after p → (∀ a, keeps key kind_ digest_ after (k a)) →
  keeps key kind_ digest_ after (pbind p k).
Proof.
  intros Hp Hk tr. apply ensures_pbind.
  refine (ensures_mono _ _ _ _ _ _ _ _ (Hp tr)); [done|]. intros tr2 [a|e] _; [apply Hk|done].
Qed.

Lemma keeps_call key kind_ digest_ after c :
  same_record key kind_ digest_ after c → keeps key kind_ digest_ after (call (Ans := WriteAns) c).
Proof. intros Hc tr. cbn [call ensures]. done. Qed.

Lemma keeps_pret key kind_ digest_ after {T} (a : T) : keeps key kind_ digest_ after (pret a).
Proof. by intros tr. Qed.

Lemma keeps_event key kind_ digest_ after ty op pl : keeps key kind_ digest_ after (event_ ty op pl).
Proof. intros tr. unfold event_. cbn [call ptry ensures]. split; [done|]. by intros []. Qed.

Notation keeps_op op p :=
  (keeps (operationKey op) (kind op) (inputDigest op) (intendedAfterSha op) p).

Lemma keeps_succeedOp op st refs : keeps_op op (succeedOp op st refs None).
Proof. apply keeps_bind; [by apply keeps_call|]. intros now. by apply keeps_call. Qed.

Lemma keeps_failOp op st d : keeps_op op (failOp op st d).
Proof.
  apply keeps_bind; [by apply keeps_call|]. intros now. cbv zeta.
  apply keeps_bind; [by apply keeps_call|]. intros _. apply keeps_event.
Qed.

Lemma keeps_markUnknown op d : keeps_op op (markUnknown op None d).
Proof.
  apply keeps_bind; [by apply keeps_call|]. intros now. cbv zeta.
  apply keeps_bind; [by apply keeps_call|]. intros _. apply keeps_event.
Qed.

Lemma keeps_preflight {T} op r b expected rec_ moved (go : proc WriteAns (MutationResult T)) :
  keeps_op op go → keeps_op op (preflight op r b expected rec_ moved go).
Proof.
  intros Hgo. unfold preflight. apply keeps_bind; [by apply keeps_call|]. intros [v|code d].
  - repeat case_match; try done.
    all: apply keeps_bind; [apply keeps_failOp|]; intros; apply keeps_pret.
  - apply keeps_bind; [apply keeps_markUnknown|]. intros; apply keeps_pret.
Qed.

(** An accepted advance of a fresh key leaves an operation that names its new commit. *)
Lemma advance_leaves req ctx s w :
  advance_accepted req ctx → answers randomUUID_ → answers nowIso_ →
  findByIdempotency (ab_operationKey req) s = None →
  owned_by (ab_repository req) (ab_branch req) (ab_workflowRunId req) s →
  let s1 := (final github_port (advanceBranch req ctx) (s, w)).2.1 in
  let d := mutationInputDigest (advance_branch_json req) in
  only (ab_operationKey req) advance_branch d (Some (newSha req)) s1 ∧
  present (ab_operationKey req) s1.
Proof.
  intros (Hs & Hb & Hp) Hu Hn Hf Ho. cbv zeta.
  set (d := mutationInputDigest (advance_branch_json req)) in *.
  remember (final github_port (advanceBranch req ctx) (s, w)) as out eqn:Hout.
  unfold advanceBranch in Hout. rewrite Hs in Hout. cbn [negb] in Hout. cbv zeta in Hout.
  fold d in Hout. rewrite Hb in Hout. cbn [lift pbind] in Hout. rewrite Hp in Hout.
  cbn [lift pbind] in Hout. rewrite final_pbind in Hout.
  destruct (final_newOperation advance_branch ctx (ab_repository req) (ab_branch req)
    (ab_workflowRunId req) (ab_operationKey req) d (expectedOldSha req) (Some (newSha req)) s w Hu Hn)
    as (op & w' & Hop & Hkind & Hr & Hbr & Hrun & Hkey & Hd & Haft).
  rewrite Hop, final_pbind, final_call in Hout. unfold github_port at 1 in Hout.
  cbn [fst snd] in Hout. rewrite <- Hkey in Hf. rewrite <- Hr, <- Hbr, <- Hrun in Ho.
  destruct (claim_fresh op s Hf Ho) as (s' & Hcl & Hops). rewrite Hcl in Hout.
  cbv beta iota zeta in Hout. rewrite <- Hkey, <- Hkind, <- Hd, <- Haft. subst out.
  apply (final_keeps _ _ _ _ _ [] _).
  - apply keeps_preflight. apply keeps_bind; [by apply keeps_call|]. intros [v|[] x].
    all: apply keeps_bind;
      [apply keeps_succeedOp || apply keeps_failOp || apply keeps_markUnknown|intros _; try apply keeps_pret].
    apply keeps_bind; [apply keeps_event|intros; apply keeps_pret].
  - cbn [fst]. intros i op' Hin Hk. rewrite Hops in Hin. apply set_key_in in Hin as [[= -> ->]|Hin];
      [done|]. by destruct (find_absent _ _ Hf i op').
  - cbn [fst]. exists (id op), op. rewrite Hops. split; [apply in_set_key|done].
Qed.

(** Asking again after an advance of a branch always answers that the branch is at the new
    commit, whatever became of the first request -- the expected head was gone, GitHub refused
    the move, the read failed, the outcome is unknown, a call threw -- and asks GitHub nothing:
    the operation carries its intended commit from the start, and it is only that field the
    replay looks at, never the state. *)
Theorem advance_retry req ctx s w w2 :
  advance_accepted req ctx → answers randomUUID_ → answers nowIso_ →
  findByIdempotency (ab_operationKey req) s = None →
  owned_by (ab_repository req) (ab_branch req) (ab_workflowRunId req) s →
  let s1 := (final github_port (advanceBranch req ctx) (s, w)).2.1 in
  ∃ w3, final github_port (advanceBranch req ctx) (s1, w2) =
    (Returned (Replayed (Some (branchOf (ab_repository req) (ab_branch req) (newSha req))) None),
     (s1, w3)).
Proof.
  intros Ha Hu Hn Hf Ho s1. destruct (advance_leaves req ctx s w Ha Hu Hn Hf Ho) as [Hs1 Hp1].
  fold s1 in Hs1, Hp1. destruct (find_present _ _ _ _ _ Hs1 Hp1) as (prior & Hfind & Hk & Hd & Hi).
  clearbody s1. destruct Ha as (Hs & Hb & Hp).
  unfold advanceBranch. rewrite Hs. cbn [negb]. cbv zeta. rewrite Hb. cbn [lift pbind].
  rewrite Hp. cbn [lift pbind]. rewrite final_pbind.
  destruct (final_newOperation advance_branch ctx (ab_repository req) (ab_branch req)
    (ab_workflowRunId req) (ab_operationKey req) (mutationInputDigest (advance_branch_json req))
    (expectedOldSha req) (Some (newSha req)) s1 w2 Hu Hn)
    as (op & w' & -> & Hkind & Hr & Hbr & Hrun & Hkey & Hdig & Haft).
  rewrite final_pbind, final_call. unfold github_port at 1. cbn [fst snd].
  rewrite (claim_replay op prior s1) by congruence. cbv beta iota zeta. rewrite Hi.
  exists w'. by rewrite final_pret.
Qed.

(** *** Commits *)

(** Under a key the store holds just the operation with this id. *)
Definition holds (key u : string) (op : GitMutationOperation) (s : OperationStore) : Prop :=
  NoDup (ops s).*1 ∧ assoc u (ops s) = Some op ∧ operationKey op = key ∧
  ∀ i op', (i, op') ∈ ops s → operationKey op' = key → i = u.

Lemma holds_record key op s :
  NoDup (ops s).*1 → operationKey op = key →
  (∀ i op', (i, op') ∈ ops s → operationKey op' = key → i = id op) →
  holds key (id op) op {| ops := set_key (id op) op (ops s); ownership := ownership s |}.
Proof.
  intros Hn Hk Hall. split_and!; simpl.
  - by apply set_key_NoDup.
  - by rewrite assoc_set, String.eqb_refl.
  - done.
  - intros i op' [[= -> ->]|Hin]%set_key_in Hk'; [done|by apply (Hall i op')].
Qed.

Lemma holds_again key u op s op' :
  holds key u op s → id op' = u → operationKey op' = key → holds key u op' (record op' s).
Proof.
  intros (Hn & _ & _ & Hall) <- Hkey. unfold record. by apply holds_record.
Qed.

Lemma holds_find key u op s : holds key u op s → findByIdempotency key s = Some op.
Proof.
  intros (Hn & Ha & Hk & Hall). unfold findByIdempotency.
  destruct (List.find _ (ops s)) as [[i op']|] eqn:Hf.
  - apply find_some_elem in Hf as [Hin Hkey]. simpl in Hkey. apply String.eqb_eq in Hkey.
    pose proof (Hall _ _ Hin Hkey) as ->. apply (assoc_in _ _ _ Hn) in Hin. simpl. congruence.
  - apply assoc_elem in Ha. apply (find_none_elem _ _ _ Hf) in Ha. simpl in Ha.
    by rewrite Hk, String.eqb_refl in Ha.
Qed.

Ltac fcall :=
  match goal with |- context [?t] =>
    match t with final github_port (call ?c) ?x =>
      let z := fresh "z" in let Hz := fresh "Hz" in
      set (z := t); assert (Hz : z = github_port c x) by exact (final_call github_port c x);
      clearbody z; subst z
    end
  end; unfold github_port at 1; cbn [fst snd].

Tactic Notation "ask" simple_intropattern(p) :=
  match goal with |- context [outside ?c ?x] => destruct (outside c x) as p; cbv beta iota end.

(** What a request leaves behind, when it ends well and when it ends not knowing. *)
Lemma final_succeedOp op st refs after s w a s' :
  final github_port (succeedOp op st refs after) (s, w) = (Returned a, s') →
  ∃ now, s'.1 = record (next_op op st refs after (attempts op + 1) now) s.
Proof.
  unfold succeedOp. rewrite final_pbind, final_call. unfold github_port at 1. cbn [fst snd].
  destruct (outside nowIso_ w) as [[now|e] w']; [|discriminate]. intros Hf.
  exists now. by injection Hf as _ <-.
Qed.

Lemma final_event ty op pl s w :
  ∃ w', final github_port (event_ ty op pl) (s, w) = (Returned (), (s, w')).
Proof.
  unfold event_. rewrite final_ptry. fcall.
  ask [[[]|e] w']; [by exists w'|]. rewrite final_pret. by exists w'.
Qed.

(** Runs the next step of a program. *)
Ltac run_event :=
  match goal with |- context [final _ (event_ ?t ?o ?p) (?x, ?y)] =>
    let w := fresh "w" in destruct (final_event t o p x y) as [w ->] end.

Tactic Notation "run_step" simple_intropattern(p) ident(E) :=
  rewrite final_pbind;
  match goal with |- context [final ?port ?q ?x] =>
    lazymatch q with
    | succeedOp _ _ _ _ => destruct (final port q x) as p eqn:E
    | failOp _ _ _ => destruct (final port q x) as p eqn:E
    | markUnknown _ _ _ => destruct (final port q x) as p eqn:E
    end
  end.

Lemma final_markUnknown op after d s w a s' :
  final github_port (markUnknown op after d) (s, w) = (Returned a, s') →
  ∃ now, s'.1 = record (next_op op outcome_unknown [] after (attempts op + 1) now) s.
Proof.
  unfold markUnknown. rewrite final_pbind, final_call. unfold github_port at 1. cbn [fst snd].
  destruct (outside nowIso_ w) as [[now|e] w']; [|discriminate]. cbv zeta.
  rewrite final_pbind.
  fcall. match goal with |- context [final github_port (event_ ?t ?o ?p) (?s0, ?w0)] =>
    destruct (final_event t o p s0 w0) as [w2 ->] end.
  intros [= _ <-]. by exists now.
Qed.

Lemma final_failOp op st d s w :
  answers nowIso_ → ∃ s', final github_port (failOp op st d) (s, w) = (Returned (), s').
Proof.
  intros Hn. unfold failOp. rewrite final_pbind. fcall. destruct (Hn w) as (now & w' & ->).
  rewrite final_pbind. fcall. run_event. by eexists.
Qed.

(** The branch is found, unprotected, at another head. *)
Lemma preflight_moved {T} op r b expected rec_ moved (go : proc WriteAns (MutationResult T)) s w :
  answers nowIso_ →
  (∃ v y, outside (branchState_ r b) w = (Returned (provided v), y) ∧ exists_ v = true ∧
     is_protected v = false ∧ bs_headSha v ≠ Some expected) →
  (final github_port (preflight op r b expected rec_ moved go) (s, w)).1 =
    Returned (Conflict moved).
Proof.
  intros Hn (v & y & Hv & He & Hp & Hh). unfold preflight. rewrite final_pbind. fcall. rewrite Hv.
  rewrite He, Hp. cbn [negb orb].
  replace (head_is v expected) with false; [|unfold head_is; destruct (bs_headSha v) as [h|]; [|done];
    symmetry; apply String.eqb_neq; congruence].
  cbn [negb]. rewrite final_pbind.
  destruct (final_failOp op conflicted (rec_ v) s y Hn) as [s' ->]. done.
Qed.

(** The outcomes that leave the operation without, and with, the commit it made. *)
Definition with_commit (o : MutationResult GitCommit) : option bool :=
  match o with
  | Applied _ => Some false
  | OutcomeUnknown d => if startsWith d "commit created but" then Some true else None
  | _ => None
  end.

Lemma commit_leaves_push req op s w o r s' b :
  holds (operationKey op) (id op) op s → intendedAfterSha op = None →
  final github_port (push_commit req op o) (s, w) = (Returned r, s') → with_commit r = Some b →
  ∃ op', holds (operationKey op) (id op) op' s'.1 ∧ kind op' = kind op ∧
    inputDigest op' = inputDigest op ∧ intendedAfterSha op' = if b then Some o else None.
Proof.
  intros Hh Hi. unfold push_commit. cbv zeta. rewrite final_pbind. fcall.
  ask [[[committed|code d]|e] w1]; [| |done].
  - run_step [[u|e] [s1 w2]] H1; [|done].
    destruct (final_succeedOp _ _ _ _ _ _ _ _ H1) as [now1 Hs1]. cbn [fst] in Hs1.
    rewrite final_pbind. run_event. rewrite final_pbind. fcall.
    assert (Hh1 : holds (operationKey op) (id op)
      (next_op op executing [o] (Some o) (attempts op + 1) now1) s1).
    { rewrite Hs1. eapply holds_again; [exact Hh|done|done]. }
    ask [[[v|code d]|e] w4]; [| |done].
    + run_step [[u'|e] [s2 w5]] H2; [|done].
      destruct (final_succeedOp _ _ _ _ _ _ _ _ H2) as [now2 Hs2]. cbn [fst] in Hs2.
      rewrite final_pbind. run_event. rewrite final_pret. intros [= <- <-] [= <-].
      eexists. cbn [fst]. split; [rewrite Hs2; eapply holds_again; [exact Hh1|done|done]|].
      split_and!; [done|done|exact Hi].
    + destruct code.
      2: { run_step [[u'|e] [s2 w5]] H2; [|done]. rewrite final_pret. by intros [= <- <-]. }
      all: run_step [[u'|e] [s2 w5]] H2; [|done]; rewrite final_pret; intros [= <- <-] Hb;
        destruct (final_markUnknown _ _ _ _ _ _ _ H2) as [now2 Hs2]; cbn [fst] in Hs2;
        apply (f_equal (default false)) in Hb; simpl in Hb; subst b;
        eexists; cbn [fst];
        (split; [rewrite Hs2; eapply holds_again; [exact Hh1|done|done]|done]).
  - run_step [[u'|e] [s2 w5]] H2; [|done]. rewrite final_pret. intros [= <- <-] Hb.
    destruct (final_markUnknown _ _ _ _ _ _ _ H2) as [now2 Hs2]. cbn [fst] in Hs2.
    apply (f_equal (default false)) in Hb; simpl in Hb; subst b.
    eexists. cbn [fst]. split; [rewrite Hs2; eapply holds_again; [exact Hh|done|done]|done].
Qed.

Definition commit_accepted (req : CreateCommitInput) (ctx : WriteContext) (m : string) : Prop :=
  createCommitInputSchema req = true ∧ sanitizeCommitMessage (cc_message req) = Returned m ∧
  assertBoundBranch (cc_branch req) (cc_workflowRunId req) (cc_operationKey req) = Returned () ∧
  protect (cc_branch req) ctx (cc_operationKey req)
    (mutationInputDigest (create_commit_json req m)) = Returned ().

(** What follows the claim in [createCommit]. *)
Definition commit_go (req : CreateCommitInput) (m : string) (op : GitMutationOperation)
  : proc WriteAns (MutationResult GitCommit) :=
  preflight op (cc_repository req) (cc_branch req) (expectedHeadSha req)
    (λ v, "head changed " +s head_text v +s " != " +s expectedHeadSha req)
    "expected head no longer current"
    (created <~ call (Ans := WriteAns)
                  (createCommit_ (cc_repository req) (tree req) [parentSha req] m (cc_author req)) ;;
     match created with
     | provided sha_ => push_commit req op sha_
     | refused CONFLICT detail => failOp op conflicted detail ;~ pret (Conflict detail)
     | refused code detail =>
         markUnknown op None detail ;~ pret (OutcomeUnknown ("createCommit " +s code_text code))
     end).

(** An accepted request up to the answer of the claim. *)
Lemma final_createCommit req ctx m s w :
  commit_accepted req ctx m → answers randomUUID_ → answers nowIso_ →
  ∃ op w', kind op = create_commit ∧ repository op = cc_repository req ∧
    branch op = cc_branch req ∧ workflowRunId op = cc_workflowRunId req ∧
    operationKey op = cc_operationKey req ∧
    inputDigest op = mutationInputDigest (create_commit_json req m) ∧ intendedAfterSha op = None ∧
    final github_port (createCommit req ctx) (s, w) =
    final github_port
      match (claim op s).1 with
      | claim_no code _ _ => pret (Conflict code)
      | claim_ok prior replayed_ =>
          if replayed_ && bool_decide (intendedAfterSha prior ≠ None)
          then pret (Replayed None (Some "operation already applied"))
          else commit_go req m op
      end ((claim op s).2, w').
Proof.
  intros (Hs & Hm & Hb & Hp) Hu Hn. unfold createCommit. rewrite Hs. cbn [negb]. cbv zeta.
  rewrite Hb. cbn [lift pbind]. rewrite Hm. cbn [lift pbind]. rewrite Hp. cbn [lift pbind].
  rewrite final_pbind.
  destruct (final_newOperation create_commit ctx (cc_repository req) (cc_branch req)
    (cc_workflowRunId req) (cc_operationKey req) (mutationInputDigest (create_commit_json req m))
    (parentSha req) None s w Hu Hn)
    as (op & w' & Hop & Hkind & Hr & Hbr & Hrun & Hkey & Hd & Haft).
  exists op, w'. split_and!; try done. rewrite Hop, final_pbind. fcall.
  by destruct (claim op s) as [a s'].
Qed.

Lemma commit_leaves req ctx m s w r s' b :
  commit_accepted req ctx m → answers randomUUID_ → answers nowIso_ →
  NoDup (ops s).*1 → findByIdempotency (cc_operationKey req) s = None →
  owned_by (cc_repository req) (cc_branch req) (cc_workflowRunId req) s →
  final github_port (createCommit req ctx) (s, w) = (Returned r, s') → with_commit r = Some b →
  ∃ prior, findByIdempotency (cc_operationKey req) s'.1 = Some prior ∧
    kind prior = create_commit ∧
    inputDigest prior = mutationInputDigest (create_commit_json req m) ∧
    bool_decide (intendedAfterSha prior ≠ None) = b.
Proof.
  intros Ha Hu Hn Hnd Hf Ho.
  destruct (final_createCommit req ctx m s w Ha Hu Hn)
    as (op & w' & Hkind & Hr & Hbr & Hrun & Hkey & Hd & Haft & ->).
  rewrite <- Hkey in Hf |- *. rewrite <- Hr, <- Hbr, <- Hrun in Ho.
  destruct (claim_fresh op s Hf Ho) as (s0 & -> & Hops). cbn [fst snd andb].
  assert (Hh : holds (operationKey op) (id op) op s0).
  { destruct (holds_record (operationKey op) op s Hnd eq_refl) as (H1 & H2 & H3 & H4).
    - intros i op' Hin Hk. by destruct (find_absent _ _ Hf i op').
    - unfold holds. rewrite Hops. by split_and!. }
  intros Hrun1 Hw. rewrite <- Hd, <- Hkind.
  cut (∃ o op', holds (operationKey op) (id op) op' s'.1 ∧ kind op' = kind op ∧
    inputDigest op' = inputDigest op ∧ intendedAfterSha op' = if b then Some o else None).
  { intros (o & op' & Hh' & ? & ? & Hi). exists op'. split; [by eapply holds_find|].
    split_and!; [done|done|]. rewrite Hi. by destruct b. }
  revert Hrun1. unfold commit_go, preflight. rewrite final_pbind. fcall.
  ask [[[v|code d]|e] w1]; [| |done].
  - destruct (negb (exists_ v) || is_protected v).
    { run_step [[u|e] s1] H1; [|done]. rewrite final_pret. by intros [= <- <-]. }
    destruct (negb (head_is v _)).
    { run_step [[u|e] s1] H1; [|done]. rewrite final_pret. by intros [= <- <-]. }
    rewrite final_pbind. fcall. ask [[[sha_|code d]|e] w2]; [| |done].
    + intros Hp. exists sha_. by apply (commit_leaves_push req op s0 w2 sha_ r s' b).
    + destruct code; (run_step [[u|e] s1] H1; [|done]); rewrite final_pret; by intros [= <- <-].
  - run_step [[u|e] s1] H1; [|done]. rewrite final_pret. intros [= <- <-]. by destruct code.
Qed.
End Retry.

(** Asking again for a commit answers the wrong way round.  When the first request ended with
    the commit created and the branch moved, the recorded operation no longer names its commit,
    so the same request is carried out once more: as soon as the branch is read at its new
    head, the answer is a conflict.  When the first request ended not knowing whether the
    branch ever moved, or without the commit's metadata, the same request answers that the
    operation is already applied -- without a value, and without asking GitHub. *)
Theorem commit_retry `{Digest} {W W'} (outside : ∀ c, W → outcome (WriteAns c) * W)
    (later : ∀ c, W' → outcome (WriteAns c) * W') req ctx m s w r s' w2 :
  commit_accepted req ctx m → answers outside randomUUID_ → answers outside nowIso_ →
  answers later randomUUID_ → answers later nowIso_ →
  NoDup (ops s).*1 → findByIdempotency (cc_operationKey req) s = None →
  owned_by (cc_repository req) (cc_branch req) (cc_workflowRunId req) s →
  final (github_port outside) (createCommit req ctx) (s, w) = (Returned r, s') →
  let again := final (github_port later) (createCommit req ctx) (s'.1, w2) in
  (∀ commit, r = Applied commit →
     (∀ x, ∃ v y, later (branchState_ (cc_repository req) (cc_branch req)) x =
                  (Returned (provided v), y) ∧ exists_ v = true ∧ is_protected v = false ∧
                  bs_headSha v ≠ Some (expectedHeadSha req)) →
     again.1 = Returned (Conflict "expected head no longer current")) ∧
  (∀ d, r = OutcomeUnknown d → startsWith d "commit created but" = true →
     again.1 = Returned (Replayed None (Some "operation already applied")) ∧ again.2.1 = s'.1).
Proof.
  intros Ha Hu Hn Hu' Hn' Hnd Hf Ho Hrun again.
  pose proof (commit_leaves outside req ctx m s w r s') as Hleave.
  subst again. destruct (final_createCommit later req ctx m s'.1 w2 Ha Hu' Hn')
    as (op & w' & Hkind & Hr & Hbr & Hrun' & Hkey & Hd & Haft & ->).
  split.
  - intros commit -> Hmoved.
    destruct (Hleave false) as (prior & Hfind & Hk & Hdig & Hi); try done.
    rewrite (claim_replay op prior s'.1) by congruence. cbn [fst snd]. rewrite Hi.
    cbn [andb]. by apply preflight_moved.
  - intros d -> Hd'.
    destruct (Hleave true) as (prior & Hfind & Hk & Hdig & Hi); try done.
    { unfold with_commit. by rewrite Hd'. }
    rewrite (claim_replay op prior s'.1) by congruence. cbn [fst snd]. rewrite Hi.
    cbn [andb]. by rewrite final_pret.
Qed.

(** ** Reconciliation *)

(** Reconciling writes nothing to GitHub; an operation that is not known to be unknown is left
    as it is -- also one that is still marked as executing, which no later call can settle. *)
Theorem reconcile_leaves {W} (outside : ∀ c, W → outcome (WriteAns c) * W) i op s w :
  get i s = Some op → state op ≠ outcome_unknown →
  final (github_port outside) (reconcile i) (s, w) =
  (Returned {| rr_operationId := id op; rr_state := state op;
               rr_detail := if bool_decide (state op = executing)
                            then "cannot reconcile from current state"
                            else "no reconciliation needed" |}, (s, w)).
Proof.
  intros Hg Hs. unfold reconcile. rewrite final_pbind.
  change (final (github_port outside) (call (get_ i)) (s, w)) with
    (Returned (get i s), (s, w)). rewrite Hg. cbv beta iota.
  rewrite (bool_decide_eq_false_2 (state op = outcome_unknown)) by done. cbn [negb andb].
  case_bool_decide as He; [|done]. cbn [negb]. by rewrite He.
Qed.

(** ** Witnesses *)

#[local] Instance plain_digest : Digest := λ s, s.

Definition run1 : string := "01ARZ3NDEKTSV4RRFFQ69G5FAV".
Definition run2 : string := "7f3d2c1a-0b4e-4a6f-8c9d-0123456789ab".
Definition key1 : string := "01BX5ZZKBKACTAV9WEVGEMMVRZ".
Definition sha_a : string := "aaaaaaaaaaaaaaaaaaaaaaaaaaaaaaaaaaaaaaaa".
Definition sha_b : string := "bbbbbbbbbbbbbbbbbbbbbbbbbbbbbbbbbbbbbbbb".
Definition acme : GitRepoRef := {| owner := "acme"; repo := "shop" |}.

Lemma branch_identifies_run_witness :
  buildWorkflowBranchName run1 key1 = "agent/01arz3ndektsv4rrffq69g5fav/01BX5ZZK" ∧
  (buildWorkflowBranchName run1 key1 = buildWorkflowBranchName run2 key1 → run1 = run2).
Proof.
  split; [vm_compute; reflexivity|].
  destruct (branch_identifies_run run1 run2 key1 key1) as (_ & _ & _ & Hb);
    [vm_compute; reflexivity|vm_compute; reflexivity|exact Hb].
Defined.

Definition advance_req : AdvanceBranchInput :=
  {| ab_repository := acme; ab_branch := buildWorkflowBranchName run1 key1;
     expectedOldSha := sha_a; newSha := sha_b; ab_workflowRunId := run1; ab_operationKey := key1 |}.

Definition context_for (d : string) : WriteContext :=
  {| correlationId := "c"; ctx_actionId := "a";
     ctx_authorized := {| decisionId := "d"; ctx_operationKey := key1; actionFingerprint := d;
                          digest := d |} |}.

(** GitHub with the branch at a commit: it creates commits, and does what [moves] says of a
    moving branch. *)
Definition sample_commit : GitCommit :=
  {| sha := sha_b; parents := [sha_a]; treeSha := sha_a; author := Build_VerifiedCommitIdentity "" "" "";
     committer := Build_VerifiedCommitIdentity "" "" ""; message := "fix"; verification := "unsigned";
     createdAtIso := "" |}.

Definition github_at (head : string) (moves : GitProviderResult RefValue) (c : WriteCall) (w : unit)
  : outcome (WriteAns c) * unit :=
  match c with
  | branchState_ _ _ => (Returned (provided (Build_BranchState true (Some head) None)), w)
  | getCommit_ _ _ => (Returned (provided sample_commit), w)
  | createRef_ _ _ _ => (Returned (refused CONFLICT "exists"), w)
  | createCommit_ _ _ _ _ _ => (Returned (provided sha_b), w)
  | updateRef_ _ _ _ _ _ => (Returned moves, w)
  | claim_ op => (Threw (PlainError ""), w)
  | record_ op => (Returned (), w)
  | get_ _ => (Returned None, w)
  | emit_ _ => (Returned (), w)
  | nowIso_ => (Returned "2026-01-01T00:00:00.000Z", w)
  | randomUUID_ => (Returned "u", w)
  end.

Definition no_ops : OperationStore := {| ops := []; ownership := [] |}.
Definition advance_ctx : WriteContext := context_for (mutationInputDigest (advance_branch_json advance_req)).

(** The head has moved on: the first answer is a conflict, the second a replay. *)
Lemma advance_retry_witness :
  let port := github_port (github_at sha_b (refused CONFLICT "")) in
  let first := final port (advanceBranch advance_req advance_ctx) (no_ops, ()) in
  first.1 = Returned (Conflict "expected old SHA no longer current") ∧
  ∃ w3, final port (advanceBranch advance_req advance_ctx) (first.2.1, ()) =
    (Returned (Replayed (Some (branchOf acme (ab_branch advance_req) sha_b)) None), (first.2.1, w3)).
Proof.
  cbv zeta. split; [vm_compute; reflexivity|].
  apply (advance_retry (github_at sha_b (refused CONFLICT "")) advance_req advance_ctx no_ops () ()).
  - split; [|split]; vm_compute; reflexivity.
  - intros []. by exists "u", ().
  - intros []. by exists "2026-01-01T00:00:00.000Z", ().
  - reflexivity.
  - exact I.
Defined.

Definition commit_req : CreateCommitInput :=
  {| cc_repository := acme; cc_branch := buildWorkflowBranchName run1 key1;
     expectedHeadSha := sha_a; parentSha := sha_a; tree := []; cc_message := "fix";
     cc_author := None; cc_workflowRunId := run1; cc_operationKey := key1 |}.

Definition commit_ctx : WriteContext :=
  context_for (mutationInputDigest (create_commit_json commit_req "fix")).

Definition moved : GitProviderResult RefValue := provided {| rv_ref := ""; rv_sha := sha_b |}.

Lemma commit_retry_witness :
  let port := github_port (github_at sha_a moved) in
  let first := final port (createCommit commit_req commit_ctx) (no_ops, ()) in
  first.1 = Returned (Applied sample_commit) ∧
  (final (github_port (github_at sha_b moved)) (createCommit commit_req commit_ctx)
     (first.2.1, ())).1 = Returned (Conflict "expected head no longer current").
Proof.
  cbv zeta.
  assert (H1 : (final (github_port (github_at sha_a moved)) (createCommit commit_req commit_ctx)
    (no_ops, ())).1 = Returned (Applied sample_commit)) by (vm_compute; reflexivity).
  split; [exact H1|]. destruct (final _ _ (no_ops, ())) as [o s'] eqn:Hrun.
  cbn [fst] in H1. subst o.
  destruct (commit_retry (github_at sha_a moved) (github_at sha_b moved) commit_req commit_ctx "fix"
    no_ops () (Applied sample_commit) s' ()) as [Happ _].
  - repeat split; vm_compute; reflexivity.
  - intros []. by exists "u", ().
  - intros []. by exists "2026-01-01T00:00:00.000Z", ().
  - intros []. by exists "u", ().
  - intros []. by exists "2026-01-01T00:00:00.000Z", ().
  - constructor.
  - reflexivity.
  - exact I.
  - exact Hrun.
  - apply (Happ sample_commit eq_refl). intros [].
    exists (Build_BranchState true (Some sha_b) None), (). repeat split. discriminate.
Defined.
