(* ===== verification/PullRequests.v ===== *)
(** * Pull requests on GitHub

    [packages/github-adapter/src/write/pr/]: the state machines ([fsm.ts]), the store of
    operations ([operation-store.ts]), content safety ([pr-safe.ts]), the inputs with their
    schemas ([contracts.ts]) and the adapter ([github-pull-requests.ts]), whose methods are
    programs over the store, the provider, the event sink, the clock and the source of ids. *)

From S2P Require Import Prelude JsString Effects Json Contracts CanonicalJson.
From S2P Require GithubWrites.

(** ** The state machines *)

(* @src packages/github-adapter/src/write/pr/fsm.ts:9-19 PR_MUTATION_STATUSES *)
Definition PR_MUTATION_STATUSES : list string :=
  ["authorized"; "executing"; "applied"; "outcome_unknown"; "conflicted"; "failed"; "reconciling";
   "not_applied"].

(* @src packages/github-adapter/src/write/pr/fsm.ts:21-32 PR_MERGE_STATUSES *)
Definition PR_MERGE_STATUSES : list string :=
  ["approved"; "revalidating"; "executing"; "verifying"; "applied"; "stale"; "blocked";
   "outcome_unknown"; "failed"].

(* @src packages/github-adapter/src/write/pr/fsm.ts:34-52 MUTATION_EDGES *)
Definition MUTATION_EDGES : list (string * list (string * string)) := [
  ("begin", [("authorized", "executing")]);
  ("applied", [("executing", "applied"); ("reconciling", "applied")]);
  ("unknown", [("executing", "outcome_unknown")]);
  ("conflict", [("executing", "conflicted"); ("reconciling", "conflicted")]);
  ("fail", [("executing", "failed")]);
  ("begin_reconcile", [("outcome_unknown", "reconciling")]);
  ("reconciled_applied", [("reconciling", "applied")]);
  ("reconciled_not_applied", [("reconciling", "not_applied")]);
  ("reconciled_conflicted", [("reconciling", "conflicted")])].

(* @src packages/github-adapter/src/write/pr/fsm.ts:54-75 MERGE_EDGES *)
Definition MERGE_EDGES : list (string * list (string * string)) := [
  ("revalidate", [("approved", "revalidating")]);
  ("execute", [("revalidating", "executing")]);
  ("verify", [("executing", "verifying")]);
  ("applied", [("verifying", "applied")]);
  ("stale", [("approved", "stale"); ("revalidating", "stale")]);
  ("blocked", [("approved", "blocked"); ("verifying", "blocked")]);
  ("unknown", [("executing", "outcome_unknown"); ("verifying", "outcome_unknown")]);
  ("fail", [("revalidating", "failed"); ("executing", "failed")])].

(** [(EDGES[trigger] ?? []).find(([f]) => f === from)]: the state it leads to. *)
Definition edge (table : list (string * list (string * string))) (from trigger : string)
  : option string :=
  snd <$> List.find (λ e, e.1 =s? from) (assoc trigger table ?? []).

(* @src packages/github-adapter/src/write/pr/fsm.ts:81-93 resolvePrMutationEdge *)
Definition resolvePrMutationEdge : string → string → option string := edge MUTATION_EDGES.

(* @src packages/github-adapter/src/write/pr/fsm.ts:95-100 resolvePrMergeEdge *)
Definition resolvePrMergeEdge : string → string → option string := edge MERGE_EDGES.

(** ** Content *)

(** At least [n] characters of a class at the start of a text. *)
Definition class_run (n : Z) (p : ascii → bool) (s : string) : bool :=
  n <=? str_length (span_chars p s).1.

Definition word_char (c : ascii) : bool := is_alnum c || Ascii.eqb c "_".

(** A secret of [SECRET_STANDALONE] at the start of a text. *)
Definition standalone_here (s : string) : bool :=
  match s with
  | String "g" (String "h" (String k (String "_" rest))) =>
      char_in "pousr" k && class_run 20 word_char rest
  | _ => false
  end ||
  match GithubWrites.strip_prefix "github_pat_" s with
  | Some rest => class_run 20 word_char rest
  | None => false
  end ||
  match s with
  | String "x" (String "o" (String "x" (String k (String "-" rest)))) =>
      char_in "baprs" k && class_run 20 (λ c, is_alnum c || Ascii.eqb c "-") rest
  | _ => false
  end.

(* @src packages/github-adapter/src/write/pr/pr-safe.ts:29-30 SECRET_STANDALONE *)
Fixpoint SECRET_STANDALONE (s : string) : bool :=
  standalone_here s || match s with String _ s => SECRET_STANDALONE s | EmptyString => false end.

(* @src packages/github-adapter/src/write/pr/pr-safe.ts:27-28 SECRET_INLINE *)
Definition SECRET_INLINE (s : string) : bool := GithubWrites.SECRET_INLINE s.

(* @src packages/github-adapter/src/write/pr/pr-safe.ts:32-42 sanitizePrContent *)
Definition sanitizePrContent (raw : string) (max : nat) : outcome string :=
  let cleaned := trim (map_chars GithubWrites.blank_control raw) in
  if negb (nonempty cleaned) then Threw (PlainError "GITHUB_PR_CONTENT_EMPTY")
  else if SECRET_INLINE cleaned || SECRET_STANDALONE cleaned
  then Threw (PlainError "GITHUB_PR_SECRET_REJECTED")
  else Returned (slice_to max cleaned).

(** [max = 256_000], the bound of a body. *)
Definition body_max : nat := Z.to_nat 256000.

(* @src packages/github-adapter/src/write/pr/pr-safe.ts:6-25 mutationInputDigest *)
Definition mutationInputDigest `{Digest} (input : json) : string :=
  sha256 (canonicalJsonStringify input).

(** ** Contracts *)

(* @src packages/github-adapter/src/write/pr/contracts.ts:14-21 PR_STATES *)
Inductive PrState := open_draft | open_ready | closed_unmerged | merged | unknown_state.

#[export] Instance PrState_eq_dec : EqDecision PrState.
Proof. solve_decision. Defined.

Definition state_text (s : PrState) : string :=
  match s with
  | open_draft => "open_draft" | open_ready => "open_ready" | closed_unmerged => "closed_unmerged"
  | merged => "merged" | unknown_state => "unknown"
  end.

(* @src packages/github-adapter/src/write/pr/contracts.ts:102-102 mergeable *)
Inductive Mergeable := mergeable | conflicting | unknown_mergeable.

#[export] Instance Mergeable_eq_dec : EqDecision Mergeable.
Proof. solve_decision. Defined.

Definition mergeable_text (m : Mergeable) : string :=
  match m with
  | mergeable => "mergeable" | conflicting => "conflicting" | unknown_mergeable => "unknown"
  end.

(* @src packages/github-adapter/src/write/pr/contracts.ts:52-56 PrRef *)
Record PrRef := { ref_owner : string; ref_repo : string; ref_number : Z }.

(* @src packages/github-adapter/src/write/pr/contracts.ts:45-51 prRefSchema *)
Definition prRefSchema (r : PrRef) : bool :=
  len_between 1 100 (ref_owner r) && len_between 1 100 (ref_repo r) &&
  (1 <=? ref_number r) && (ref_number r <=? 10000000).

(* @src packages/github-adapter/src/write/pr/contracts.ts:89-106 PullRequest *)
Record PullRequest := {
  providerId : string;
  ref : PrRef;
  number : Z;
  title : string;
  body : string;
  pr_state : PrState;
  draft : bool;
  baseRef : string;
  headRef : string;
  baseSha : string;
  headSha : string;
  authorLogin : string;
  pr_mergeable : Mergeable;
  mergedAtIso : option string;
  mergedByLogin : option string;
  pr_updatedAtIso : string
}.

(* @src packages/github-adapter/src/write/pr/contracts.ts:124-137 ReviewEvidence *)
Record ReviewEvidence := {
  ev_providerId : string;
  ev_kind : string;
  ev_authorLogin : option string;
  ev_sourceLabel : string;
  ev_state : string;
  ev_conclusion : option string;
  ev_bodyReference : option string;
  ev_path : option string;
  ev_line : option Z;
  ev_commitSha : option string;
  ev_submittedAtIso : option string;
  ev_dismissed : bool
}.

(* @src packages/github-adapter/src/write/pr/contracts.ts:152-162 PullRequestFingerprint *)
Record PullRequestFingerprint := {
  fp_prNumber : Z;
  fp_baseSha : string;
  fp_headSha : string;
  fp_state : PrState;
  fp_draft : bool;
  fp_mergeable : Mergeable;
  requiredEvidenceDigests : list string;
  policyVersionId : string;
  capturedAtIso : string
}.

(* @src packages/github-adapter/src/write/pr/contracts.ts:139-151 pullRequestFingerprintSchema *)
Definition pullRequestFingerprintSchema (f : PullRequestFingerprint) : bool :=
  (1 <=? fp_prNumber f) && GithubWrites.sha40 (fp_baseSha f) && GithubWrites.sha40 (fp_headSha f) &&
  forallb (len_between 0 64) (requiredEvidenceDigests f) &&
  (Z.of_nat (length (requiredEvidenceDigests f)) <=? 64) &&
  len_between 0 64 (policyVersionId f) && len_between 1 40 (capturedAtIso f).

(* @src packages/github-adapter/src/write/pr/contracts.ts:179-190 CreatePullRequest *)
Record CreatePullRequest := {
  c_repository : GithubWrites.GitRepoRef;
  c_ownedHeadBranch : string;
  c_headSha : string;
  c_baseBranch : string;
  c_baseSha : string;
  c_title : string;
  c_body : string;
  c_draft : bool;
  c_workflowRunId : string;
  c_operationKey : string
}.

(* @src packages/github-adapter/src/write/pr/contracts.ts:165-178 createPullRequestSchema *)
Definition createPullRequestSchema (i : CreatePullRequest) : bool :=
  GithubWrites.gitRepoRefSchema (c_repository i) && len_between 1 256 (c_ownedHeadBranch i) && GithubWrites.sha40 (c_headSha i) &&
  len_between 1 256 (c_baseBranch i) && GithubWrites.sha40 (c_baseSha i) && len_between 0 200 (c_title i) &&
  len_between 0 256000 (c_body i) && id_schema (c_workflowRunId i) && id_schema (c_operationKey i).

(* @src packages/github-adapter/src/write/pr/contracts.ts:214-218 UpdatePullRequest *)
Record PrPatch := {
  p_title : option string;
  p_body : option string;
  p_draft : option bool
}.

(* @src packages/github-adapter/src/write/pr/contracts.ts:209-221 UpdatePullRequest *)
Record UpdatePullRequest := {
  u_repository : GithubWrites.GitRepoRef;
  u_prNumber : Z;
  u_expectedHeadSha : string;
  u_expectedBaseSha : string;
  u_patch : PrPatch;
  u_workflowRunId : string;
  u_operationKey : string
}.

(** [z.string().max(n).optional()]. *)
Definition opt_max (n : Z) (s : option string) : bool :=
  match s with Some s => len_between 0 n s | None => true end.

(* @src packages/github-adapter/src/write/pr/contracts.ts:192-208 updatePullRequestSchema *)
Definition updatePullRequestSchema (i : UpdatePullRequest) : bool :=
  GithubWrites.gitRepoRefSchema (u_repository i) && (1 <=? u_prNumber i) && GithubWrites.sha40 (u_expectedHeadSha i) &&
  GithubWrites.sha40 (u_expectedBaseSha i) && opt_max 200 (p_title (u_patch i)) &&
  opt_max 256000 (p_body (u_patch i)) && id_schema (u_workflowRunId i) && id_schema (u_operationKey i).

(* @src packages/github-adapter/src/write/pr/contracts.ts:232-238 PostPullRequestComment *)
Record PostPullRequestComment := {
  o_repository : GithubWrites.GitRepoRef;
  o_prNumber : Z;
  o_body : string;
  o_workflowRunId : string;
  o_operationKey : string
}.

(* @src packages/github-adapter/src/write/pr/contracts.ts:223-231 postCommentSchema *)
Definition postCommentSchema (i : PostPullRequestComment) : bool :=
  GithubWrites.gitRepoRefSchema (o_repository i) && (1 <=? o_prNumber i) && len_between 0 64000 (o_body i) &&
  id_schema (o_workflowRunId i) && id_schema (o_operationKey i).

(* @src packages/github-adapter/src/write/pr/contracts.ts:249-255 RequestReview *)
Record RequestReview := {
  r_repository : GithubWrites.GitRepoRef;
  r_prNumber : Z;
  r_reviewers : list string;
  r_workflowRunId : string;
  r_operationKey : string
}.

(* @src packages/github-adapter/src/write/pr/contracts.ts:240-248 requestReviewSchema *)
Definition requestReviewSchema (i : RequestReview) : bool :=
  GithubWrites.gitRepoRefSchema (r_repository i) && (1 <=? r_prNumber i) &&
  forallb (len_between 1 100) (r_reviewers i) && (Z.of_nat (length (r_reviewers i)) <=? 20) &&
  id_schema (r_workflowRunId i) && id_schema (r_operationKey i).

(** [method] is one of its two texts. *)
(* @src packages/github-adapter/src/write/pr/contracts.ts:273-286 MergePullRequest *)
Record MergePullRequest := {
  m_repository : GithubWrites.GitRepoRef;
  m_prNumber : Z;
  expectedHeadSha : string;
  expectedBaseSha : string;
  approvedFingerprint : PullRequestFingerprint;
  approvalId : string;
  m_actionId : string;
  validationDigest : string;
  method : string;
  commitTitle : option string;
  m_workflowRunId : string;
  m_operationKey : string
}.

(* @src packages/github-adapter/src/write/pr/contracts.ts:257-272 mergePullRequestSchema *)
Definition mergePullRequestSchema (i : MergePullRequest) : bool :=
  GithubWrites.gitRepoRefSchema (m_repository i) && (1 <=? m_prNumber i) && GithubWrites.sha40 (expectedHeadSha i) &&
  GithubWrites.sha40 (expectedBaseSha i) && pullRequestFingerprintSchema (approvedFingerprint i) &&
  id_schema (approvalId i) && len_between 1 128 (m_actionId i) && len_between 0 64 (validationDigest i) &&
  includes ["merge"; "squash"] (method i) && opt_max 200 (commitTitle i) &&
  id_schema (m_workflowRunId i) && id_schema (m_operationKey i).

(** ** The operation store *)

(* @src packages/github-adapter/src/write/pr/operation-store.ts:8-19 PrOperation *)
Record PrOperation := {
  id : string;
  kind : string;
  operationKey : string;
  inputDigest : string;
  state : string;
  attempts : Z;
  workflowRunId : string;
  createdAtIso : string;
  updatedAtIso : string;
  providerRefs : list string
}.

(* @src packages/github-adapter/src/write/pr/operation-store.ts:21-28 PrClaimResult *)
Inductive PrClaimResult :=
  | claim_ok (operation : PrOperation) (replayed : bool)
  | DIGEST_CONFLICT (detail : string) (existing : option PrOperation).

Definition PrOperationStore : Type := list (string * PrOperation).

(* @src packages/github-adapter/src/write/pr/operation-store.ts:69-74 findByIdempotencySync *)
Definition findByIdempotency (key : string) (ops : PrOperationStore) : option PrOperation :=
  snd <$> List.find (λ e, operationKey e.2 =s? key) ops.

(* @src packages/github-adapter/src/write/pr/operation-store.ts:40-55 claim *)
Definition claim (op : PrOperation) (ops : PrOperationStore) : PrClaimResult * PrOperationStore :=
  match findByIdempotency (operationKey op) ops with
  | Some existing =>
      (if (kind existing =s? kind op) && (inputDigest existing =s? inputDigest op)
       then claim_ok existing true
       else DIGEST_CONFLICT "operation key reused with different inputs" (Some existing), ops)
  | None => (claim_ok op false, set_key (id op) op ops)
  end.

(* @src packages/github-adapter/src/write/pr/operation-store.ts:57-59 record *)
Definition record (op : PrOperation) (ops : PrOperationStore) : PrOperationStore :=
  set_key (id op) op ops.

(* @src packages/github-adapter/src/write/pr/operation-store.ts:61-63 get *)
Definition get (i : string) (ops : PrOperationStore) : option PrOperation := assoc i ops.

(** ** The ports *)

(* @src packages/github-adapter/src/write/pr/provider-port.ts:19-20 PrProviderErrorCode *)
Inductive PrProviderErrorCode := NOT_FOUND | CONFLICT | PERMISSION | RATE_LIMITED | SERVER_ERROR | TIMEOUT.

Definition code_text (c : PrProviderErrorCode) : string :=
  match c with
  | NOT_FOUND => "NOT_FOUND" | CONFLICT => "CONFLICT" | PERMISSION => "PERMISSION"
  | RATE_LIMITED => "RATE_LIMITED" | SERVER_ERROR => "SERVER_ERROR" | TIMEOUT => "TIMEOUT"
  end.

(** Without [fetchedAtIso], which the adapter does not read. *)
(* @src packages/github-adapter/src/write/pr/provider-port.ts:21-23 PrProviderResult *)
Inductive PrProviderResult (T : Type) :=
  | provided (value : T)
  | refused (code : PrProviderErrorCode) (detail : string).
Arguments provided {T} value.
Arguments refused {T} code detail.

(* @src packages/github-adapter/src/write/pr/github-pull-requests.ts:71-76 PrEvent *)
Record PrEvent := {
  type : string;
  aggregateId : string;
  operationId : string;
  payload : list (string * json)
}.

(* @src packages/github-adapter/src/write/pr/provider-port.ts:25-46 PrProviderPort *)
Inductive PrCall :=
  | getPullRequest_ (r : PrRef)
  | listEvidence_ (r : PrRef) (kinds : list string) (limit : Z)
  | createPullRequest_ (i : CreatePullRequest)
  | updatePullRequest_ (i : UpdatePullRequest)
  | postComment_ (i : PostPullRequestComment)
  | requestReview_ (r : GithubWrites.GitRepoRef) (prNumber : Z) (reviewers : list string)
  | mergePullRequest_ (i : MergePullRequest)
  | claim_ (op : PrOperation)
  | record_ (op : PrOperation)
  | get_ (i : string)
  | emit_ (e : PrEvent)
  | nowIso_
  | randomUUID_.

(* @src packages/github-adapter/src/write/pr/operation-store.ts:30-35 PrOperationStorePort *)
Definition PrAns (c : PrCall) : Type :=
  match c with
  | getPullRequest_ _ => PrProviderResult PullRequest
  | listEvidence_ _ _ _ => PrProviderResult (list ReviewEvidence)
  | createPullRequest_ _ | updatePullRequest_ _ => PrProviderResult PullRequest
  | postComment_ _ | mergePullRequest_ _ => PrProviderResult string
  | requestReview_ _ _ _ => PrProviderResult unit
  | claim_ _ => PrClaimResult
  | record_ _ => unit
  | get_ _ => option PrOperation
  | emit_ _ => unit
  | nowIso_ | randomUUID_ => string
  end.

Definition adapter : Type → Type := proc PrAns.
Definition ask (c : PrCall) : adapter (PrAns c) := call (Ans := PrAns) c.
Definition lift {T} (o : outcome T) : adapter T := Done o.

(* @src packages/github-adapter/src/write/pr/github-pull-requests.ts:39-43 PrWriteContext *)
Record PrWriteContext := { correlationId : string; actionId : string; authorized : GithubWrites.AuthorizedActionContext }.

(** The statuses of a result that carry a detail; [replayed] carries no value in this adapter. *)
Inductive PrRefusal := replayed_ | conflict | stale | blocked | outcome_unknown | failed.

(* @src packages/github-adapter/src/write/pr/github-pull-requests.ts:45-57 PrMutationResult *)
Inductive PrMutationResult (T : Type) :=
  | Applied (value : T) (operationId : string)
  | Answer (status : PrRefusal) (detail operationId : string).
Arguments Applied {T} value operationId.
Arguments Answer {T} status detail operationId.

(* @src packages/github-adapter/src/write/pr/github-pull-requests.ts:59-63 MergeResult *)
Record MergeResult := { mr_prNumber : Z; mr_mergeSha : option string; mr_mergedAtIso : option string }.

(* @src packages/github-adapter/src/write/pr/github-pull-requests.ts:65-69 ReconciliationResult *)
Record ReconciliationResult := { rr_operationId : string; rr_state : string; rr_detail : string }.

(** ** The digested inputs *)

Definition opt_field (k : string) (v : option json) : list (string * json) :=
  match v with Some v => [(k, v)] | None => [] end.

(* @src packages/github-adapter/src/write/pr/github-pull-requests.ts:166-167 createPullRequest *)
Definition create_json (i : CreatePullRequest) (body_ : string) : json :=
  JObj [("kind", JStr "pr_create"); ("repository", GithubWrites.repo_json (c_repository i));
        ("ownedHeadBranch", JStr (c_ownedHeadBranch i)); ("headSha", JStr (c_headSha i));
        ("baseBranch", JStr (c_baseBranch i)); ("baseSha", JStr (c_baseSha i));
        ("title", JStr (c_title i)); ("body", JStr body_); ("draft", JBool (c_draft i));
        ("workflowRunId", JStr (c_workflowRunId i)); ("operationKey", JStr (c_operationKey i))].

Definition patch_json (p : PrPatch) : json :=
  JObj (opt_field "title" (JStr <$> p_title p) ++ opt_field "body" (JStr <$> p_body p) ++
        opt_field "draft" (JBool <$> p_draft p)).

(* @src packages/github-adapter/src/write/pr/github-pull-requests.ts:204-204 updatePullRequest *)
Definition update_json (i : UpdatePullRequest) (patch : PrPatch) : json :=
  JObj [("kind", JStr "pr_update"); ("repository", GithubWrites.repo_json (u_repository i));
        ("prNumber", JNum (u_prNumber i)); ("expectedHeadSha", JStr (u_expectedHeadSha i));
        ("expectedBaseSha", JStr (u_expectedBaseSha i)); ("patch", patch_json patch);
        ("workflowRunId", JStr (u_workflowRunId i)); ("operationKey", JStr (u_operationKey i))].

(* @src packages/github-adapter/src/write/pr/github-pull-requests.ts:234-239 postPullRequestComment *)
Definition comment_json (i : PostPullRequestComment) (body_ : string) : json :=
  JObj [("kind", JStr "pr_comment"); ("repo", GithubWrites.repo_json (o_repository i));
        ("prNumber", JNum (o_prNumber i)); ("body", JStr body_)].

(* @src packages/github-adapter/src/write/pr/github-pull-requests.ts:268-268 requestReview *)
Definition review_json (i : RequestReview) : json :=
  JObj [("kind", JStr "pr_request_review"); ("repository", GithubWrites.repo_json (r_repository i));
        ("prNumber", JNum (r_prNumber i)); ("reviewers", JArr (map JStr (r_reviewers i)));
        ("workflowRunId", JStr (r_workflowRunId i)); ("operationKey", JStr (r_operationKey i))].

Definition fingerprint_json (f : PullRequestFingerprint) : json :=
  JObj [("prNumber", JNum (fp_prNumber f)); ("baseSha", JStr (fp_baseSha f));
        ("headSha", JStr (fp_headSha f)); ("state", JStr (state_text (fp_state f)));
        ("draft", JBool (fp_draft f)); ("mergeable", JStr (mergeable_text (fp_mergeable f)));
        ("requiredEvidenceDigests", JArr (map JStr (requiredEvidenceDigests f)));
        ("policyVersionId", JStr (policyVersionId f)); ("capturedAtIso", JStr (capturedAtIso f))].

(* @src packages/github-adapter/src/write/pr/github-pull-requests.ts:295-295 mergePullRequest *)
Definition merge_json (i : MergePullRequest) : json :=
  JObj ([("kind", JStr "pr_merge"); ("repository", GithubWrites.repo_json (m_repository i));
         ("prNumber", JNum (m_prNumber i)); ("expectedHeadSha", JStr (expectedHeadSha i));
         ("expectedBaseSha", JStr (expectedBaseSha i));
         ("approvedFingerprint", fingerprint_json (approvedFingerprint i));
         ("approvalId", JStr (approvalId i)); ("actionId", JStr (m_actionId i));
         ("validationDigest", JStr (validationDigest i)); ("method", JStr (method i))] ++
        opt_field "commitTitle" (JStr <$> commitTitle i) ++
        [("workflowRunId", JStr (m_workflowRunId i)); ("operationKey", JStr (m_operationKey i))]).

(** ** The adapter *)

(* @src packages/github-adapter/src/write/pr/github-pull-requests.ts:455-464 authorize *)
Definition authorize (ctx : PrWriteContext) (key digest_ : string) : outcome unit :=
  let a := authorized ctx in
  if negb (nonempty (GithubWrites.digest a)) || negb (GithubWrites.ctx_operationKey a =s? key) ||
     negb (GithubWrites.actionFingerprint a =s? digest_) || negb (GithubWrites.digest a =s? digest_)
  then Threw (GuardError "REPOSITORY_FORBIDDEN")
  else Returned ().

(* @src packages/github-adapter/src/write/pr/github-pull-requests.ts:467-485 replayStatus *)
Definition replayStatus {T} (op : PrOperation) : PrMutationResult T :=
  let status :=
    if includes ["applied"; "not_applied"] (state op) then replayed_
    else if includes ["outcome_unknown"; "reconciling"] (state op) then outcome_unknown
    else if state op =s? "stale" then stale
    else if state op =s? "blocked" then blocked
    else if state op =s? "failed" then failed
    else conflict in
  Answer status
    (match status with
     | replayed_ => "operation already applied"
     | _ => "prior attempt left operation " +s state op +s "; not applied"
     end) (id op).

(* @src packages/github-adapter/src/write/pr/github-pull-requests.ts:408-421 #op *)
Definition new_op (kind_ key digest_ run : string) : adapter PrOperation :=
  uuid <~ ask randomUUID_ ;;
  created <~ ask nowIso_ ;;
  updated <~ ask nowIso_ ;;
  pret {| id := uuid; kind := kind_; operationKey := key; inputDigest := digest_;
          state := "authorized"; attempts := 1; workflowRunId := run; createdAtIso := created;
          updatedAtIso := updated; providerRefs := [] |}.

(** [{ ...op, state, attempts, providerRefs, updatedAtIso }]. *)
Definition with_state (op : PrOperation) (st : string) (attempts_ : Z) (refs : list string) (now : string)
  : PrOperation :=
  {| id := id op; kind := kind op; operationKey := operationKey op; inputDigest := inputDigest op;
     state := st; attempts := attempts_; workflowRunId := workflowRunId op;
     createdAtIso := createdAtIso op; updatedAtIso := now; providerRefs := refs |}.

(* @src packages/github-adapter/src/write/pr/github-pull-requests.ts:423-435 #record *)
Definition save (op : PrOperation) (st : option string) (refs : list string) : adapter () :=
  now <~ ask nowIso_ ;;
  ask (record_ (with_state op (st ?? state op) (attempts op + 1) (providerRefs op ++ refs) now)).

(* @src packages/github-adapter/src/write/pr/github-pull-requests.ts:450-452 #persist *)
Definition persist (op : PrOperation) (st : string) : adapter () := save op (Some st) [].

(* @src packages/github-adapter/src/write/pr/github-pull-requests.ts:437-448 #event *)
Definition event_ (type_ : string) (op : PrOperation) (payload_ : list (string * json)) : adapter () :=
  ptry (ask (emit_ {| type := type_; aggregateId := operationKey op; operationId := id op;
                      payload := payload_ |}))
       (λ _, pret ()).

(** [{ repo, pr }], with a reason. *)
Definition pr_payload (r : GithubWrites.GitRepoRef) (n : Z) (reason : option string)
  : list (string * json) :=
  [("repo", GithubWrites.repo_json r); ("pr", JNum n)] ++ opt_field "reason" (JStr <$> reason).

Section Adapter.
Context `{Digest}.

(** From the digest of the input to the claimed operation, as every mutation starts: the fresh
    operation, the authorization, the claim; [go] gets the fresh and the claimed operation. *)
(* @src packages/github-adapter/src/write/pr/github-pull-requests.ts:167-172 createPullRequest *)
Definition claimed {T} (kind_ key digest_ run : string) (ctx : PrWriteContext)
    (go : PrOperation → PrOperation → adapter (PrMutationResult T)) : adapter (PrMutationResult T) :=
  op <~ new_op kind_ key digest_ run ;;
  lift (authorize ctx key digest_) ;~
  c <~ ask (claim_ op) ;;
  match c with
  | DIGEST_CONFLICT detail _ => pret (Answer conflict detail (id op))
  | claim_ok prior true => pret (replayStatus prior)
  | claim_ok current false => go op current
  end.

(* @src packages/github-adapter/src/write/pr/github-pull-requests.ts:158-189 createPullRequest *)
Definition createPullRequest (req : CreatePullRequest) (ctx : PrWriteContext)
  : adapter (PrMutationResult PullRequest) :=
  if negb (createPullRequestSchema req) then throw (GuardError "VALIDATION_FAILED") else
  body_ <~ lift (sanitizePrContent (c_body req) body_max) ;;
  claimed "pr_create" (c_operationKey req) (mutationInputDigest (create_json req body_))
    (c_workflowRunId req) ctx (λ op current,
  created <~ ask (createPullRequest_ {|
    c_repository := c_repository req; c_ownedHeadBranch := c_ownedHeadBranch req;
    c_headSha := c_headSha req; c_baseBranch := c_baseBranch req; c_baseSha := c_baseSha req;
    c_title := c_title req; c_body := body_; c_draft := c_draft req;
    c_workflowRunId := c_workflowRunId req; c_operationKey := c_operationKey req |}) ;;
  match created with
  | provided pr =>
      save current (Some "applied") [providerId pr] ;~
      event_ "pull_request.created" op (pr_payload (c_repository req) (number pr) None) ;~
      pret (Applied pr (id op))
  | refused CONFLICT detail => persist current "conflicted" ;~ pret (Answer conflict detail (id op))
  | refused code _ =>
      persist current "outcome_unknown" ;~
      pret (Answer outcome_unknown ("create " +s code_text code) (id op))
  end).

(** The title and the body of a patch, where it has them, are sanitised in this order. *)
(* @src packages/github-adapter/src/write/pr/github-pull-requests.ts:199-203 updatePullRequest *)
Definition sanitized_patch (p : PrPatch) : outcome PrPatch :=
  let? t := match p_title p with
            | Some t => let? t := sanitizePrContent t 200 in Returned (Some t)
            | None => Returned None
            end in
  let? b := match p_body p with
            | Some b => let? b := sanitizePrContent b body_max in Returned (Some b)
            | None => Returned None
            end in
  Returned {| p_title := t; p_body := b; p_draft := p_draft p |}.

(* @src packages/github-adapter/src/write/pr/github-pull-requests.ts:191-223 updatePullRequest *)
Definition updatePullRequest (req : UpdatePullRequest) (ctx : PrWriteContext)
  : adapter (PrMutationResult PullRequest) :=
  if negb (updatePullRequestSchema req) then throw (GuardError "VALIDATION_FAILED") else
  patch <~ lift (sanitized_patch (u_patch req)) ;;
  claimed "pr_update" (u_operationKey req) (mutationInputDigest (update_json req patch))
    (u_workflowRunId req) ctx (λ op current,
  updated <~ ask (updatePullRequest_ {|
    u_repository := u_repository req; u_prNumber := u_prNumber req;
    u_expectedHeadSha := u_expectedHeadSha req; u_expectedBaseSha := u_expectedBaseSha req;
    u_patch := patch; u_workflowRunId := u_workflowRunId req;
    u_operationKey := u_operationKey req |}) ;;
  match updated with
  | provided pr =>
      save current (Some "applied") [providerId pr] ;~
      event_ "pull_request.updated" op (pr_payload (u_repository req) (u_prNumber req) None) ;~
      pret (Applied pr (id op))
  | refused CONFLICT _ => persist current "conflicted" ;~ pret (Answer conflict "PR moved" (id op))
  | refused code _ =>
      persist current "outcome_unknown" ;~
      pret (Answer outcome_unknown ("update " +s code_text code) (id op))
  end).

(** The value is the id the provider gave the comment. *)
(* @src packages/github-adapter/src/write/pr/github-pull-requests.ts:225-261 postPullRequestComment *)
Definition postPullRequestComment (req : PostPullRequestComment) (ctx : PrWriteContext)
  : adapter (PrMutationResult string) :=
  if negb (postCommentSchema req) then throw (GuardError "VALIDATION_FAILED") else
  body_ <~ lift (sanitizePrContent (o_body req) body_max) ;;
  claimed "pr_comment" (o_operationKey req) (mutationInputDigest (comment_json req body_))
    (o_workflowRunId req) ctx (λ op current,
  posted <~ ask (postComment_ {| o_repository := o_repository req; o_prNumber := o_prNumber req;
    o_body := body_; o_workflowRunId := o_workflowRunId req; o_operationKey := o_operationKey req |}) ;;
  match posted with
  | provided comment =>
      save current (Some "applied") [comment] ;~
      event_ "pull_request.comment.posted" op (pr_payload (o_repository req) (o_prNumber req) None) ;~
      pret (Applied comment (id op))
  | refused CONFLICT detail => persist current "conflicted" ;~ pret (Answer conflict detail (id op))
  | refused code _ =>
      persist current "outcome_unknown" ;~
      pret (Answer outcome_unknown ("comment " +s code_text code) (id op))
  end).

(* @src packages/github-adapter/src/write/pr/github-pull-requests.ts:263-285 requestReview *)
Definition requestReview (req : RequestReview) (ctx : PrWriteContext)
  : adapter (PrMutationResult ()) :=
  if negb (requestReviewSchema req) then throw (GuardError "VALIDATION_FAILED") else
  claimed "pr_request_review" (r_operationKey req) (mutationInputDigest (review_json req))
    (r_workflowRunId req) ctx (λ op current,
  result <~ ask (requestReview_ (r_repository req) (r_prNumber req) (r_reviewers req)) ;;
  match result with
  | provided _ => save current (Some "applied") [] ;~ pret (Applied () (id op))
  | refused code _ =>
      persist current "outcome_unknown" ;~
      pret (Answer outcome_unknown ("requestReview " +s code_text code) (id op))
  end).

(** The pull request is exactly the approved one. *)
(* @src packages/github-adapter/src/write/pr/github-pull-requests.ts:312-323 mergePullRequest *)
Definition moved (req : MergePullRequest) (current : PullRequest) : bool :=
  let f := approvedFingerprint req in
  negb (headSha current =s? expectedHeadSha req) || negb (baseSha current =s? expectedBaseSha req) ||
  negb (headSha current =s? fp_headSha f) || negb (baseSha current =s? fp_baseSha f) ||
  negb (number current =? fp_prNumber f) || negb (bool_decide (pr_state current = fp_state f)) ||
  negb (Bool.eqb (draft current) (fp_draft f)) ||
  negb (bool_decide (pr_mergeable current = fp_mergeable f)) ||
  negb (fp_prNumber f =? m_prNumber req).

Definition merge_ref (req : MergePullRequest) : PrRef := {|
  ref_owner := GithubWrites.owner (m_repository req); ref_repo := GithubWrites.repo (m_repository req);
  ref_number := m_prNumber req |}.

(** After the provider acknowledged the merge: read the pull request again. *)
(* @src packages/github-adapter/src/write/pr/github-pull-requests.ts:345-379 mergePullRequest *)
Definition confirm_merge (req : MergePullRequest) (op current : PrOperation) (mergeSha : string)
  : adapter (PrMutationResult MergeResult) :=
  verified <~ ask (getPullRequest_ (merge_ref req)) ;;
  match (match verified with
         | provided pr => if bool_decide (pr_state pr = merged) then Some pr else None
         | refused _ _ => None
         end) with
  | Some pr =>
      save current (Some "applied") [mergeSha] ;~
      event_ "pull_request.merged" op
        (pr_payload (m_repository req) (m_prNumber req) None ++ [("mergeSha", JStr mergeSha)]) ;~
      at_ <~ match mergedAtIso pr with Some t => pret t | None => ask nowIso_ end ;;
      pret (Applied {| mr_prNumber := m_prNumber req; mr_mergeSha := Some mergeSha;
                       mr_mergedAtIso := Some at_ |} (id op))
  | None =>
      persist current "outcome_unknown" ;~
      event_ "pull_request.merge.started" op
        (pr_payload (m_repository req) (m_prNumber req) (Some "verifying")) ;~
      pret (Answer outcome_unknown "merge requested but not confirmed merged" (id op))
  end.

(* @src packages/github-adapter/src/write/pr/github-pull-requests.ts:287-386 mergePullRequest *)
Definition mergePullRequest (req : MergePullRequest) (ctx : PrWriteContext)
  : adapter (PrMutationResult MergeResult) :=
  if negb (mergePullRequestSchema req) then throw (GuardError "VALIDATION_FAILED") else
  claimed "pr_merge" (m_operationKey req) (mutationInputDigest (merge_json req))
    (m_workflowRunId req) ctx (λ op current,
  match resolvePrMergeEdge "approved" "revalidate" with
  | None => throw (PlainError "merge FSM broken")
  | Some _ =>
      read <~ ask (getPullRequest_ (merge_ref req)) ;;
      match read with
      | refused code _ =>
          pret (Answer blocked ("cannot revalidate PR: " +s code_text code) (id op))
      | provided pr =>
          if moved req pr then
            save current (Some "stale") [] ;~
            event_ "pull_request.merge.blocked" op
              (pr_payload (m_repository req) (m_prNumber req) (Some "stale")) ;~
            pret (Answer stale "PR moved since approval" (id op))
          else if bool_decide (pr_mergeable pr = conflicting) then
            persist current "blocked" ;~
            event_ "pull_request.merge.blocked" op
              (pr_payload (m_repository req) (m_prNumber req) (Some "conflict")) ;~
            pret (Answer blocked "PR is in a conflicting state" (id op))
          else
            event_ "pull_request.merge.started" op
              (pr_payload (m_repository req) (m_prNumber req) None) ;~
            result <~ ask (mergePullRequest_ req) ;;
            match result with
            | provided mergeSha => confirm_merge req op current mergeSha
            | refused CONFLICT detail =>
                persist current "stale" ;~ pret (Answer stale detail (id op))
            | refused code _ =>
                persist current "outcome_unknown" ;~
                pret (Answer outcome_unknown ("merge " +s code_text code) (id op))
            end
      end
  end).
End Adapter.

(** ** Reads and reconciliation *)

(* @src packages/github-adapter/src/write/pr/github-pull-requests.ts:136-145 getPullRequest *)
Definition getPullRequest (r : PrRef) : adapter (PullRequest + string * string) :=
  if negb (prRefSchema r) then pret (inr ("VALIDATION_FAILED", "bad PR ref")) else
  result <~ ask (getPullRequest_ r) ;;
  pret match result with
       | provided pr => inl pr
       | refused code detail => inr (code_text code, detail)
       end.

(* @src packages/github-adapter/src/write/pr/github-pull-requests.ts:147-156 listReviewEvidence *)
Definition listReviewEvidence (r : PrRef) (kinds : list string) (limit : Z)
  : adapter (list ReviewEvidence) :=
  result <~ ask (listEvidence_ r kinds limit) ;;
  pret match result with provided l => l | refused _ _ => [] end.

(* @src packages/github-adapter/src/write/pr/github-pull-requests.ts:388-406 reconcile *)
Definition reconcile (i : string) : adapter ReconciliationResult :=
  found <~ ask (get_ i) ;;
  match found with
  | None => pret {| rr_operationId := i; rr_state := "failed"; rr_detail := "operation not found" |}
  | Some op =>
      if negb (state op =s? "outcome_unknown")
      then pret {| rr_operationId := id op; rr_state := state op; rr_detail := "no reconciliation needed" |}
      else
        now <~ ask nowIso_ ;;
        save (with_state op "reconciling" (attempts op + 1) (providerRefs op) now) None [] ;~
        pret {| rr_operationId := id op; rr_state := "reconciling";
                rr_detail := "reconciliation requested" |}
  end.

(** ** What a mutation may call *)

(** A write to GitHub, and a fresh claim of the operation key. *)
Definition is_write (c : PrCall) : bool :=
  match c with
  | createPullRequest_ _ | updatePullRequest_ _ | postComment_ _ | requestReview_ _ _ _
  | mergePullRequest_ _ => true
  | _ => false
  end.

Definition acts (e : event PrAns) : bool := is_write (ev_call e).

Definition grants (e : event PrAns) : bool :=
  match projT1 e as c return outcome (PrAns c) → bool with
  | claim_ _ => λ o, match o with Returned (claim_ok _ false) => true | _ => false end
  | _ => λ _, false
  end (projT2 e).

(** The operation [current] was claimed under the key with the digest of the request, which the
    context authorises. *)
Definition taken (key digest_ : string) (ctx : PrWriteContext) (tr : list (event PrAns))
    (current : PrOperation) : Prop :=
  authorize ctx key digest_ = Returned () ∧
  ∃ op, ev (Ans := PrAns) (claim_ op) (Returned (claim_ok current false)) ∈ tr ∧
    operationKey op = key ∧ inputDigest op = digest_.

(** A record is of the operation taken; a write is the first of the request, comes after the
    operation was taken, and is what the request asks for. *)
Definition allowed (key digest_ : string) (ctx : PrWriteContext)
    (asked : list (event PrAns) → PrCall → Prop) (tr : list (event PrAns)) (c : PrCall) : Prop :=
  match c with
  | claim_ op =>
      authorize ctx key digest_ = Returned () ∧ operationKey op = key ∧ inputDigest op = digest_ ∧
      state op = "authorized" ∧ count acts tr = 0%nat ∧ count grants tr = 0%nat
  | record_ op =>
      ∃ current, taken key digest_ ctx tr current ∧ id op = id current ∧
        kind op = kind current ∧ operationKey op = operationKey current ∧
        inputDigest op = inputDigest current
  | get_ _ | listEvidence_ _ _ _ => False
  | getPullRequest_ _ | emit_ _ | nowIso_ | randomUUID_ => True
  | c => (∃ current, taken key digest_ ctx tr current) ∧ count acts tr = 0%nat ∧ asked tr c
  end.

(** More calls that neither write nor claim. *)
Definition later (tr tr' : list (event PrAns)) : Prop :=
  ∃ more, tr' = tr ++ more ∧ Forall (λ e, acts e = false) more.

Lemma later_refl tr : later tr tr.
Proof. exists []. by rewrite app_nil_r. Qed.

Lemma later_snoc tr tr' e : later tr tr' → acts e = false → later tr (tr' ++ [e]).
Proof.
  intros (more & -> & Hm) He. exists (more ++ [e]). rewrite app_assoc. split; [done|].
  apply Forall_app. by split; [|constructor].
Qed.

Lemma later_trans tr tr' tr'' : later tr tr' → later tr' tr'' → later tr tr''.
Proof.
  intros (m & -> & Hm) (m' & -> & Hm'). exists (m ++ m'). rewrite app_assoc. split; [done|].
  by apply Forall_app.
Qed.

Lemma later_elem tr tr' e : later tr tr' → e ∈ tr → e ∈ tr'.
Proof. intros (m & -> & _) He. apply elem_of_app. by left. Qed.

Lemma later_taken key digest_ ctx tr tr' current :
  later tr tr' → taken key digest_ ctx tr current → taken key digest_ ctx tr' current.
Proof.
  intros Hl (Ha & op & Hin & Ho). split; [done|]. exists op. split; [|done]. by eapply later_elem.
Qed.

Lemma taken_app key digest_ ctx tr more current :
  taken key digest_ ctx tr current → taken key digest_ ctx (tr ++ more) current.
Proof.
  intros (Ha & op & Hin & Ho). split; [done|]. exists op. split; [|done].
  apply elem_of_app. by left.
Qed.

Lemma later_unwritten tr tr' : later tr tr' → count acts tr = 0%nat → count acts tr' = 0%nat.
Proof.
  intros (m & -> & Hm) Hc. unfold count in *. rewrite List.filter_app, length_app, Hc.
  induction Hm as [|e m He Hm IH]; [done|]. simpl. rewrite He. exact IH.
Qed.

Section Allowed.
Context `{Digest} (key digest_ : string) (ctx : PrWriteContext).
Context (asked : list (event PrAns) → PrCall → Prop).
Local Notation P := (allowed key digest_ ctx asked).

(** A result condition that only speaks of applied results. *)
Definition of_applied {T} (Q : list (event PrAns) → T → Prop) (tr : list (event PrAns))
    (o : outcome (PrMutationResult T)) : Prop :=
  match o with Returned (Applied v _) => Q tr v | _ => True end.

Lemma ensures_save {T} (Q : list (event PrAns) → T → Prop) tr current st refs f :
  taken key digest_ ctx tr current →
  (∀ tr', later tr tr' → ensures P (of_applied Q) tr' (f ())) →
  ensures P (of_applied Q) tr (pbind (save current st refs) f).
Proof.
  intros Ht Hf. unfold save, ask, call. cbn [pbind]. split; [done|]. intros [now|e]; [|done].
  cbn [pbind]. split.
  - exists current. split; [|done]. eapply later_taken; [|done]. by apply later_snoc; [apply later_refl|].
  - intros [[]|e]; [|done]. cbn [pbind]. apply Hf. by do 2 (apply later_snoc; [|done]); apply later_refl.
Qed.

Lemma ensures_event {T} (Q : list (event PrAns) → T → Prop) tr type_ op payload_ f :
  (∀ tr', later tr tr' → ensures P (of_applied Q) tr' (f ())) →
  ensures P (of_applied Q) tr (pbind (event_ type_ op payload_) f).
Proof.
  intros Hf. unfold event_, ask, call. cbn [ptry pbind]. split; [done|].
  intros [[]|e]; cbn [ptry pbind pret]; apply Hf; by apply later_snoc; [apply later_refl|].
Qed.

Lemma ensures_claimed {T} (Q : list (event PrAns) → T → Prop) kind_ run go :
  (∀ tr op current, taken key digest_ ctx tr current → count acts tr = 0%nat →
     ensures P (of_applied Q) tr (go op current)) →
  ensures P (of_applied Q) [] (claimed kind_ key digest_ run ctx go).
Proof.
  intros Hgo. unfold claimed, new_op, ask, call. cbn [pbind]. split; [done|].
  intros [uuid|e]; [|done]. cbn [pbind]. split; [done|]. intros [created|e]; [|done]. cbn [pbind].
  split; [done|]. intros [updated|e]; [|done]. cbn [pbind pret].
  destruct (authorize ctx key digest_) as [[]|e] eqn:Ha; [|done]. cbn [lift pbind].
  split; [done|]. intros [[current []|detail prior]|e]; cbn [pbind]; [done| |done..].
  apply Hgo; [|done]. split; [done|]. eexists. split; [apply elem_of_app; right; by left|done].
Qed.
End Allowed.

(** Walk through the records and announcements that follow a write. *)
Ltac books :=
  unfold persist;
  repeat first
    [ apply ensures_save; [by eauto using taken_app, later_taken|intros ? ?]
    | apply ensures_event; intros ? ? ];
  try done.

Ltac wrote Ht :=
  match goal with |- ensures _ _ (_ ++ ?m) _ => apply (taken_app _ _ _ _ m) in Ht end.

Section Mutations.
Context `{Digest}.

Lemma ensures_lift {A B} P (Q : list (event PrAns) → outcome B → Prop) (o : outcome A) f :
  (∀ e, Q [] (Threw e)) → (∀ a, o = Returned a → ensures P Q [] (f a)) →
  ensures P Q [] (x <~ lift o ;; f x).
Proof. destruct o as [a|e]; intros He Hf; [by apply Hf|apply He]. Qed.

(** The digest a mutation must be authorised for, and the write it asks for. *)
Definition create_body (req : CreatePullRequest) : outcome string := sanitizePrContent (c_body req) body_max.

Definition asked_create (req : CreatePullRequest) (b : string) (tr : list (event PrAns)) (c : PrCall) : Prop :=
  c = createPullRequest_ {|
    c_repository := c_repository req; c_ownedHeadBranch := c_ownedHeadBranch req;
    c_headSha := c_headSha req; c_baseBranch := c_baseBranch req; c_baseSha := c_baseSha req;
    c_title := c_title req; c_body := b; c_draft := c_draft req;
    c_workflowRunId := c_workflowRunId req; c_operationKey := c_operationKey req |}.

Definition asked_update (req : UpdatePullRequest) (p : PrPatch) (tr : list (event PrAns)) (c : PrCall) : Prop :=
  c = updatePullRequest_ {|
    u_repository := u_repository req; u_prNumber := u_prNumber req;
    u_expectedHeadSha := u_expectedHeadSha req; u_expectedBaseSha := u_expectedBaseSha req;
    u_patch := p; u_workflowRunId := u_workflowRunId req; u_operationKey := u_operationKey req |}.

Definition asked_comment (req : PostPullRequestComment) (b : string) (tr : list (event PrAns)) (c : PrCall)
  : Prop :=
  c = postComment_ {| o_repository := o_repository req; o_prNumber := o_prNumber req; o_body := b;
                      o_workflowRunId := o_workflowRunId req; o_operationKey := o_operationKey req |}.

Definition asked_review (req : RequestReview) (tr : list (event PrAns)) (c : PrCall) : Prop :=
  c = requestReview_ (r_repository req) (r_prNumber req) (r_reviewers req).

(** A merge is asked for only once a read showed the pull request as it was approved, and not
    conflicting. *)
Definition asked_merge (req : MergePullRequest) (tr : list (event PrAns)) (c : PrCall) : Prop :=
  c = mergePullRequest_ req ∧
  ∃ pr, ev (Ans := PrAns) (getPullRequest_ (merge_ref req)) (Returned (provided pr)) ∈ tr ∧
    moved req pr = false ∧ pr_mergeable pr ≠ conflicting.

(** A merge counts as applied when the provider acknowledged it and a later read showed it. *)
Definition merge_seen (req : MergePullRequest) (tr : list (event PrAns)) (v : MergeResult) : Prop :=
  mr_prNumber v = m_prNumber req ∧
  ∃ sha before pr after, mr_mergeSha v = Some sha ∧ pr_state pr = merged ∧
    tr = before ++ after ∧
    ev (Ans := PrAns) (mergePullRequest_ req) (Returned (provided sha)) ∈ before ∧
    ev (Ans := PrAns) (getPullRequest_ (merge_ref req)) (Returned (provided pr)) ∈ after.


Lemma create_allowed req ctx b : create_body req = Returned b →
  ensures (allowed (c_operationKey req) (mutationInputDigest (create_json req b)) ctx (asked_create req b))
    (of_applied (λ _ _, True)) [] (createPullRequest req ctx).
Proof.
  intros Hb. unfold createPullRequest. destruct (negb _); [done|].
  apply ensures_lift; [done|]. intros b' Hb'. unfold create_body in Hb. rewrite Hb' in Hb. injection Hb as ->.
  apply ensures_claimed. intros tr op current Ht Hw. unfold ask at 1, call at 1. cbn [pbind].
  split; [by split; [eexists|]|]. intros [[pr|code detail]|e]; [| |done]; cbn [pbind].
  all: wrote Ht; try destruct code; books.
Qed.

Lemma update_allowed req ctx p : sanitized_patch (u_patch req) = Returned p →
  ensures (allowed (u_operationKey req) (mutationInputDigest (update_json req p)) ctx (asked_update req p))
    (of_applied (λ _ _, True)) [] (updatePullRequest req ctx).
Proof.
  intros Hp. unfold updatePullRequest. destruct (negb _); [done|]. rewrite Hp. cbn [lift pbind].
  apply ensures_claimed. intros tr op current Ht Hw. unfold ask at 1, call at 1. cbn [pbind].
  split; [by split; [eexists|]|]. intros [[pr|code detail]|e]; [| |done]; cbn [pbind].
  all: wrote Ht; try destruct code; books.
Qed.

Lemma comment_allowed req ctx b : sanitizePrContent (o_body req) body_max = Returned b →
  ensures (allowed (o_operationKey req) (mutationInputDigest (comment_json req b)) ctx (asked_comment req b))
    (of_applied (λ _ _, True)) [] (postPullRequestComment req ctx).
Proof.
  intros Hb. unfold postPullRequestComment. destruct (negb _); [done|]. rewrite Hb. cbn [lift pbind].
  apply ensures_claimed. intros tr op current Ht Hw. unfold ask at 1, call at 1. cbn [pbind].
  split; [by split; [eexists|]|]. intros [[pr|code detail]|e]; [| |done]; cbn [pbind].
  all: wrote Ht; try destruct code; books.
Qed.

Lemma review_allowed req ctx :
  ensures (allowed (r_operationKey req) (mutationInputDigest (review_json req)) ctx (asked_review req))
    (of_applied (λ _ _, True)) [] (requestReview req ctx).
Proof.
  unfold requestReview. destruct (negb _); [done|].
  apply ensures_claimed. intros tr op current Ht Hw. unfold ask at 1, call at 1. cbn [pbind].
  split; [by split; [eexists|]|]. intros [[pr|code detail]|e]; [| |done]; cbn [pbind].
  all: wrote Ht; try destruct code; books.
Qed.

Lemma confirm_allowed req ctx op current sha tr :
  taken (m_operationKey req) (mutationInputDigest (merge_json req)) ctx tr current →
  ev (Ans := PrAns) (mergePullRequest_ req) (Returned (provided sha)) ∈ tr →
  ensures (allowed (m_operationKey req) (mutationInputDigest (merge_json req)) ctx (asked_merge req))
    (of_applied (merge_seen req)) tr (confirm_merge req op current sha).
Proof.
  intros Ht Hin. unfold confirm_merge, ask at 1, call at 1. cbn [pbind]. split; [done|].
  intros [r|e]; [|done]. cbn [pbind]. wrote Ht.
  destruct (match r with provided _ => _ | refused _ _ => _ end) as [pr|] eqn:Hr; [|books].
  destruct r as [pr'|]; [|done]. case_bool_decide; [|done]. injection Hr as ->.
  apply ensures_save; [done|]. intros tr1 Hl1. apply ensures_event. intros tr2 Hl2.
  assert (Hseen : ∀ tr3, later tr2 tr3 → merge_seen req tr3 {| mr_prNumber := m_prNumber req;
    mr_mergeSha := Some sha; mr_mergedAtIso := None |}).
  { intros tr3 Hl3. destruct (later_trans _ _ _ (later_trans _ _ _ Hl1 Hl2) Hl3) as (more & -> & _).
    split; [done|]. eexists sha, tr, pr, _. split_and!; [done..|by rewrite <- app_assoc|done|].
    apply elem_of_app. left. by left. }
  destruct (mergedAtIso pr) as [t|]; cbn [pbind pret].
  - destruct (Hseen tr2 (later_refl _)) as (Hn & sha' & b & p & a & Hs & Hrest).
    split; [done|]. by exists sha', b, p, a.
  - unfold ask, call. cbn [pbind]. split; [done|]. intros [t|e]; [|done]. cbn [pbind pret].
    destruct (Hseen (tr2 ++ [ev nowIso_ (Returned t)])) as (Hn & sha' & b & p & a & Hs & Hrest).
    { by apply later_snoc; [apply later_refl|]. }
    split; [done|]. by exists sha', b, p, a.
Qed.

Lemma merge_allowed req ctx :
  ensures (allowed (m_operationKey req) (mutationInputDigest (merge_json req)) ctx (asked_merge req))
    (of_applied (merge_seen req)) [] (mergePullRequest req ctx).
Proof.
  unfold mergePullRequest. destruct (negb _); [done|].
  apply ensures_claimed. intros tr op current Ht Hw.
  change (resolvePrMergeEdge "approved" "revalidate") with (Some "revalidating"). cbn match.
  unfold ask at 1, call at 1. cbn [pbind]. split; [done|]. intros [[pr|code detail]|e]; [|done|done].
  cbn [pbind]. wrote Ht. destruct (moved req pr) eqn:Hm; [books|].
  destruct (bool_decide (pr_mergeable pr = conflicting)) eqn:Hc; [books|].
  apply ensures_event. intros tr1 Hl1. unfold ask at 1, call at 1. cbn [pbind]. split.
  - split; [exists current; by eapply later_taken|]. split.
    + eapply later_unwritten; [exact Hl1|]. eapply later_unwritten; [|exact Hw].
      by apply later_snoc; [apply later_refl|].
    + split; [done|]. exists pr. split; [|split; [done|by apply bool_decide_eq_false in Hc]].
      eapply later_elem; [exact Hl1|]. apply elem_of_app. right. by left.
  - apply (later_taken _ _ _ _ _ _ Hl1) in Ht. intros [[sha|code detail]|e]; [| |done]; cbn [pbind]; wrote Ht.
    + apply confirm_allowed; [done|]. apply elem_of_app. right. by left.
    + destruct code; books.
Qed.
End Mutations.

(** The sanitised text that is sent; without one nothing is sent. *)
Definition sent {A} (none : A) (o : outcome A) : A := match o with Returned a => a | Threw _ => none end.

Definition no_patch : PrPatch := {| p_title := None; p_body := None; p_draft := None |}.

Ltac unsent := by repeat (match goal with |- context [if ?b then _ else _] => destruct b end).

Lemma create_sent `{Digest} req ctx (b := sent "" (sanitizePrContent (c_body req) body_max)) :
  ensures (allowed (c_operationKey req) (mutationInputDigest (create_json req b)) ctx (asked_create req b))
    (λ _ _, True) [] (createPullRequest req ctx).
Proof.
  subst b. destruct (sanitizePrContent (c_body req) body_max) as [b|e] eqn:Hb; cbn [sent].
  - by eapply ensures_mono; [..|apply (create_allowed _ _ _ Hb)].
  - unfold createPullRequest. rewrite Hb. unsent.
Qed.

Lemma update_sent `{Digest} req ctx (p := sent no_patch (sanitized_patch (u_patch req))) :
  ensures (allowed (u_operationKey req) (mutationInputDigest (update_json req p)) ctx (asked_update req p))
    (λ _ _, True) [] (updatePullRequest req ctx).
Proof.
  subst p. destruct (sanitized_patch (u_patch req)) as [p|e] eqn:Hp; cbn [sent].
  - by eapply ensures_mono; [..|apply (update_allowed _ _ _ Hp)].
  - unfold updatePullRequest. rewrite Hp. unsent.
Qed.

Lemma comment_sent `{Digest} req ctx (b := sent "" (sanitizePrContent (o_body req) body_max)) :
  ensures (allowed (o_operationKey req) (mutationInputDigest (comment_json req b)) ctx
    (asked_comment req b)) (λ _ _, True) [] (postPullRequestComment req ctx).
Proof.
  subst b. destruct (sanitizePrContent (o_body req) body_max) as [b|e] eqn:Hb; cbn [sent].
  - by eapply ensures_mono; [..|apply (comment_allowed _ _ _ Hb)].
  - unfold postPullRequestComment. rewrite Hb. unsent.
Qed.

(* @prop safety 6.7 : mergePullRequest confirm_merge moved createPullRequest updatePullRequest postPullRequestComment requestReview claimed authorize mutationInputDigest merge_json save event_ *)
(** C25. No pull request is written without its authorisation, and none is merged but as it was
    approved, whatever the store, the provider, the event sink and the clock answer or throw.
    Every mutation first takes an operation whose key and input digest are those of exactly this
    request and are authorised by its context; it makes at most one write, which is the one the
    request asks for, field by field, with the body of a new pull request, the body of a comment
    and the title and body of an update sanitised -- the title of a new pull request and the title
    of a merge commit are sent as they came ([titles_are_not_searched]); and it records nothing
    but the operation it took.
    The merge call moreover comes only after a read of this request that showed the pull request
    with the head, base, number, state, draft flag and mergeability of the approved fingerprint
    and not conflicting; and a merge is reported as applied only with the commit the provider
    acknowledged and after a later read showed the pull request merged. *)
Theorem pull_requests_are_written_as_approved `{Digest} ctx :
  (∀ req, ensures (allowed (m_operationKey req) (mutationInputDigest (merge_json req)) ctx (asked_merge req))
            (of_applied (merge_seen req)) [] (mergePullRequest req ctx)) ∧
  (∀ req, let b := sent "" (sanitizePrContent (c_body req) body_max) in
     ensures (allowed (c_operationKey req) (mutationInputDigest (create_json req b)) ctx (asked_create req b))
       (λ _ _, True) [] (createPullRequest req ctx)) ∧
  (∀ req, let p := sent no_patch (sanitized_patch (u_patch req)) in
     ensures (allowed (u_operationKey req) (mutationInputDigest (update_json req p)) ctx (asked_update req p))
       (λ _ _, True) [] (updatePullRequest req ctx)) ∧
  (∀ req, let b := sent "" (sanitizePrContent (o_body req) body_max) in
     ensures (allowed (o_operationKey req) (mutationInputDigest (comment_json req b)) ctx
       (asked_comment req b)) (λ _ _, True) [] (postPullRequestComment req ctx)) ∧
  (∀ req, ensures (allowed (r_operationKey req) (mutationInputDigest (review_json req)) ctx
            (asked_review req)) (λ _ _, True) [] (requestReview req ctx)).
Proof.
  split_and!; intros req;
    [apply merge_allowed|apply create_sent|apply update_sent|apply comment_sent|].
  by eapply ensures_mono; [..|apply review_allowed].
Qed.

(** ** One write per operation key *)

Section OneWrite.
Context `{Digest}.
(** Everything outside the store: GitHub, the event sink, the clock and the source of ids. *)
Context {W : Type} (outside : ∀ c, W → outcome (PrAns c) * W).

Definition pr_port (c : PrCall) (w : PrOperationStore * W) : outcome (PrAns c) * (PrOperationStore * W) :=
  match c with
  | claim_ op => let '(r, s) := claim op w.1 in (Returned r, (s, w.2))
  | record_ op => (Returned (), (record op w.1, w.2))
  | get_ i => (Returned (get i w.1), w)
  | c => let '(o, x) := outside c w.2 in (o, (w.1, x))
  end.

(** No operation has the key yet. *)
Definition unused (key : string) (w : PrOperationStore * W) : bool :=
  match findByIdempotency key w.1 with Some _ => false | None => true end.

(** The store hands out the operation it was given. *)
Definition genuine (e : event PrAns) : Prop :=
  match projT1 e as c return outcome (PrAns c) → Prop with
  | claim_ op => λ o, match o with Returned (claim_ok current false) => current = op | _ => True end
  | _ => λ _, True
  end (projT2 e).

Lemma port_genuine c w : genuine (ev c (pr_port c w).1).
Proof.
  unfold genuine. cbn [projT1 projT2 ev]. destruct c; try done. cbn [pr_port].
  unfold claim. destruct (findByIdempotency _ _) as [prior|]; [|done].
  by destruct (_ && _).
Qed.

Lemma record_used key op w : operationKey op = key → unused key (record op w.1, w.2) = false.
Proof.
  intros Hk. unfold unused, record, findByIdempotency. cbn [fst].
  assert (Hin : (id op, op) ∈ set_key (id op) op w.1).
  { clear Hk. induction w.1 as [|[i o] l IH]; simpl; [by left|]. case_match; breflect; subst; [by left|by right]. }
  destruct (List.find _ _) as [[i o]|] eqn:Hf; [done|].
  apply (find_none_elem _ _ _ Hf) in Hin. simpl in Hin. by rewrite Hk, String.eqb_refl in Hin.
Qed.

Lemma elem_counted (f : event PrAns → bool) e tr : e ∈ tr → f e = true → (1 ≤ count f tr)%nat.
Proof.
  unfold count. intros Hin He. assert (e ∈ List.filter f tr) as Hf by by apply bfilter_elem.
  destruct (List.filter f tr); [by apply elem_of_nil in Hf|simpl; lia].
Qed.

Lemma mutation_rationed key digest_ ctx asked :
  rationed pr_port acts grants (unused key) genuine (allowed key digest_ ctx asked).
Proof.
  intros tr c o Hc Hgen. split.
  - unfold within_grants. rewrite !count_snoc. intros Hle. destruct (acts (ev c o)) eqn:Ha; [|lia].
    assert (count acts tr = 0 ∧ 1 ≤ count grants tr)%nat as [-> Hg]; [|lia].
    destruct c; try done; destruct Hc as ((current & _ & op & Hin & _) & Hz & _);
      (split; [done|]); by eapply elem_counted.
  - intros w w' Hport. destruct c; try done; cbn [pr_port] in Hport.
    1-6: split; [intros Hg; discriminate Hg|]; destruct (outside _ _) in Hport; by simplify_eq.
    + destruct Hc as (_ & <- & _). unfold claim in Hport.
      destruct (findByIdempotency (operationKey op) w.1) as [prior|] eqn:Hf; injection Hport as <- <-.
      * unfold unused. cbn [fst]. rewrite Hf. split; [|done].
        destruct (_ && _); intros Hg; discriminate Hg.
      * split; [intros _; split|intros _]; [unfold unused; by rewrite Hf|by apply (record_used _ op w)..].
    + destruct Hc as (current & (_ & op0 & Hin & Hk & _) & _ & _ & Ho & _). simplify_eq/=.
      split; [intros Hg; discriminate Hg|]. intros _. apply record_used. rewrite Ho.
      rewrite Forall_forall in Hgen. specialize (Hgen _ Hin). cbn in Hgen. by subst.
    + split; [intros Hg; discriminate Hg|]; destruct (outside _ _) in Hport; by simplify_eq.
    + split; [intros Hg; discriminate Hg|]; destruct (outside _ _) in Hport; by simplify_eq.
    + split; [intros Hg; discriminate Hg|]; destruct (outside _ _) in Hport; by simplify_eq.
Qed.
End OneWrite.

(** A request of any of the five kinds. *)
Inductive PrRequest :=
  | Create (i : CreatePullRequest)
  | Update (i : UpdatePullRequest)
  | Comment (i : PostPullRequestComment)
  | Review (i : RequestReview)
  | Merge (i : MergePullRequest).

Definition request_key (r : PrRequest) : string :=
  match r with
  | Create i => c_operationKey i | Update i => u_operationKey i | Comment i => o_operationKey i
  | Review i => r_operationKey i | Merge i => m_operationKey i
  end.

Definition perform `{Digest} (r : PrRequest) (ctx : PrWriteContext) : adapter () :=
  match r with
  | Create i => createPullRequest i ctx ;~ pret ()
  | Update i => updatePullRequest i ctx ;~ pret ()
  | Comment i => postPullRequestComment i ctx ;~ pret ()
  | Review i => requestReview i ctx ;~ pret ()
  | Merge i => mergePullRequest i ctx ;~ pret ()
  end.

Definition performing `{Digest} (requests : list (PrRequest * PrWriteContext))
    : list (list (event PrAns) * adapter ()) :=
  (λ x, ([], perform x.1 x.2)) <$> requests.

Lemma forget {A} P (Q : list (event PrAns) → outcome A → Prop) (p : adapter A) :
  ensures P Q [] p → ensures P (λ _ _, True) [] (p ;~ pret ()).
Proof. intros Hp. apply ensures_pbind. eapply ensures_mono; [done| |exact Hp]. by intros tr [a|e]. Qed.

Lemma perform_allowed `{Digest} r ctx :
  ∃ digest_ asked, ensures (allowed (request_key r) digest_ ctx asked) (λ _ _, True) [] (perform r ctx).
Proof.
  destruct r as [i|i|i|i|i]; eexists _, _; cbn [perform request_key]; eapply forget;
    [apply create_sent|apply update_sent|apply comment_sent|apply review_allowed|apply merge_allowed].
Qed.

(* @prop safety 1.5 : createPullRequest updatePullRequest postPullRequestComment requestReview mergePullRequest claimed claim record findByIdempotency / one_write_per_operation_witness *)
(** C3. One write per operation key: let any number of requests, of the same or of different
    kinds and with the same or different inputs, be made under one operation key, their port
    calls interleaved in any order with each other and with any activity that does not drop the
    key from the store, retries and crashes included; over all of them together at most one
    write reaches GitHub, whatever GitHub answers. *)
Theorem one_write_per_operation `{Digest} {W} (outside : ∀ c, W → outcome (PrAns c) * W)
    (environment : PrOperationStore * W → PrOperationStore * W → Prop) key requests w w' ts
  (Hkey : Forall (λ x, request_key x.1 = key) requests)
  (Henv : ∀ x y, environment x y → unused key x = false → unused key y = false)
  (Hrun : rtc (pool_step (pr_port outside) environment) (w, performing requests) (w', ts)) :
  (total acts ts ≤ 1)%nat.
Proof.
  unfold performing in Hrun.
  refine (at_most_once (pr_port outside) environment acts grants (unused key) genuine
            (port_genuine outside) Henv _ _ _ _ Hrun _ _).
  - apply Forall_forall. intros t (x & -> & Hx)%list_elem_of_fmap.
    rewrite Forall_forall in Hkey. specialize (Hkey x Hx). destruct (perform_allowed x.1 x.2) as (d & a & Hp).
    split_and!; [constructor|unfold within_grants, count; simpl; lia|].
    eexists _, _. split; [|exact Hp]. rewrite Hkey. apply mutation_rationed.
  - unfold grants_bounded. rewrite (starting_total grants (λ x, perform x.1 x.2)). lia.
Qed.

(** ** A merge whose read failed *)

(** The clock and the source of ids answer. *)
Definition ticking {W} (outside : ∀ c, W → outcome (PrAns c) * W) : Prop :=
  (∀ x, ∃ t x', outside nowIso_ x = (Returned t, x')) ∧
  (∀ x, ∃ t x', outside randomUUID_ x = (Returned t, x')).

(** A mutation up to its claim, run against the store. *)
Lemma final_claimed `{Digest} {W T} (outside : ∀ c, W → outcome (PrAns c) * W) kind_ key digest_ run ctx
    (go : PrOperation → PrOperation → adapter (PrMutationResult T)) w :
  ticking outside → authorize ctx key digest_ = Returned () →
  ∃ op x, kind op = kind_ ∧ operationKey op = key ∧ inputDigest op = digest_ ∧ state op = "authorized" ∧
    final (pr_port outside) (claimed kind_ key digest_ run ctx go) w =
    match claim op w.1 with
    | (DIGEST_CONFLICT detail _, s) => (Returned (Answer conflict detail (id op)), (s, x))
    | (claim_ok prior true, s) => (Returned (replayStatus prior), (s, x))
    | (claim_ok current false, s) => final (pr_port outside) (go op current) (s, x)
    end.
Proof.
  intros [Hclock Hids] Ha. destruct (Hids w.2) as (uuid & x1 & H1). destruct (Hclock x1) as (t & x2 & H2).
  destruct (Hclock x2) as (t' & x3 & H3).
  exists {| id := uuid; kind := kind_; operationKey := key; inputDigest := digest_; state := "authorized";
            attempts := 1; workflowRunId := run; createdAtIso := t; updatedAtIso := t'; providerRefs := [] |}, x3.
  split_and!; [done..|].
 unfold claimed, new_op, ask. rewrite !final_pbind, final_call. cbn [pr_port]. rewrite H1.
  rewrite final_pbind, final_call. cbn [pr_port snd]. rewrite H2.
  rewrite final_pbind, final_call. cbn [pr_port snd]. rewrite H3. rewrite final_pret, Ha. cbn [lift pbind].
  rewrite final_pbind, final_call. cbn [pr_port fst snd].
  by destruct (claim _ w.1) as [[current []|detail prior] s].
Qed.

Lemma unclaimed op ops : findByIdempotency (operationKey op) ops = None →
  claim op ops = (claim_ok op false, set_key (id op) op ops).
Proof. unfold claim. by intros ->. Qed.

Lemma find_stored op ops : findByIdempotency (operationKey op) ops = None →
  findByIdempotency (operationKey op) (set_key (id op) op ops) = Some op.
Proof.
  unfold findByIdempotency. induction ops as [|[i o] ops IH]; cbn [List.find set_key fst snd].
  - intros _. cbn. by rewrite String.eqb_refl.
  - destruct (operationKey o =s? operationKey op) eqn:E; [done|]. intros Hf.
    destruct (id op =s? i); cbn [List.find snd].
    + by rewrite String.eqb_refl.
    + rewrite E. by apply IH.
Qed.

(** A merge whose read failed can never be made: when the first read of the pull request is
    refused, the merge is answered as blocked and the operation stays claimed as authorized; from
    then on the same request under the same key is answered with a conflict, says that a prior
    attempt left the operation authorized, leaves the store as it is and merges nothing, even
    though GitHub answers again.  Reconciliation finds nothing to reconcile either. *)
Theorem unreadable_pull_request_sticks `{Digest} {W} (outside later_outside : ∀ c, W → outcome (PrAns c) * W)
    req ctx w code detail
  (Hticks : ticking outside) (Hticks' : ticking later_outside)
  (Hread : ∀ x, ∃ x', outside (getPullRequest_ (merge_ref req)) x = (Returned (refused code detail), x'))
  (Hvalid : mergePullRequestSchema req = true)
  (Hauth : authorize ctx (m_operationKey req) (mutationInputDigest (merge_json req)) = Returned ())
  (Hnew : unused (m_operationKey req) w = true) :
  ∃ ops i x,
    final (pr_port outside) (mergePullRequest req ctx) w =
      (Returned (Answer blocked ("cannot revalidate PR: " +s code_text code) i), (ops, x)) ∧
    ∀ y, (∃ y', final (pr_port later_outside) (mergePullRequest req ctx) (ops, y) =
            (Returned (Answer conflict "prior attempt left operation authorized; not applied" i), (ops, y'))) ∧
         final (pr_port later_outside) (reconcile i) (ops, y) =
           (Returned {| rr_operationId := i; rr_state := "authorized";
                        rr_detail := "no reconciliation needed" |}, (ops, y)).
Proof.
  unfold unused in Hnew. destruct (findByIdempotency _ _) eqn:Hf in Hnew; [done|]. clear Hnew.
  unfold mergePullRequest. rewrite Hvalid. cbn [negb].
  change (resolvePrMergeEdge "approved" "revalidate") with (Some "revalidating"). cbn match.
  match goal with |- context [claimed _ _ _ _ _ ?go] =>
    destruct (final_claimed outside "pr_merge" (m_operationKey req) (mutationInputDigest (merge_json req))
                (m_workflowRunId req) ctx go w Hticks Hauth) as (op & x & Hk & Hkey & Hd & Hst & Hrun) end.
  rewrite <- Hkey in Hf. rewrite (unclaimed _ _ Hf) in Hrun. destruct (Hread x) as [x' Hx].
  exists (set_key (id op) op w.1), (id op), x'. split.
  { rewrite Hrun. unfold ask. rewrite final_pbind, final_call. cbn [pr_port fst snd]. by rewrite Hx. }
  assert (Hstored : findByIdempotency (m_operationKey req) (set_key (id op) op w.1) = Some op).
  { rewrite <- Hkey. by apply find_stored. }
  intros y. split.
  - match goal with |- context [claimed _ _ _ _ _ ?go] =>
      destruct (final_claimed later_outside "pr_merge" (m_operationKey req) (mutationInputDigest (merge_json req))
        (m_workflowRunId req) ctx go (set_key (id op) op w.1, y) Hticks' Hauth)
        as (op' & y' & Hk' & Hkey' & Hd' & _ & Hrun') end.
    exists y'. etransitivity; [exact Hrun'|]. unfold claim. cbn [fst]. rewrite Hkey', Hstored, Hk, Hk', Hd, Hd'.
    rewrite !String.eqb_refl. cbn [andb]. unfold replayStatus. by rewrite Hst.
  - unfold reconcile, ask. rewrite final_pbind, final_call. cbn [pr_port fst]. unfold get.
    rewrite assoc_set, String.eqb_refl. rewrite Hst. done.
Qed.

(** ** Witnesses *)

#[local] Instance plain_digest : Digest := λ s, s.

Definition sample_run : string := "11111111-1111-7111-8111-111111111111".
Definition sample_key : string := "22222222-2222-7222-8222-222222222222".
Definition sample_sha : string := "0123456789012345678901234567890123456789".
Definition sample_repo : GithubWrites.GitRepoRef :=
  {| GithubWrites.owner := "acme"; GithubWrites.repo := "app" |}.

Definition sample_pr (st : PrState) : PullRequest := {|
  providerId := "pr-7"; ref := {| ref_owner := "acme"; ref_repo := "app"; ref_number := 7 |};
  number := 7; title := "Fix"; body := "Fixes it"; pr_state := st; draft := false; baseRef := "main";
  headRef := "agent/run/1"; baseSha := sample_sha; headSha := sample_sha; authorLogin := "devguard";
  pr_mergeable := mergeable; mergedAtIso := None; mergedByLogin := None; pr_updatedAtIso := "t" |}.

Definition sample_merge : MergePullRequest := {|
  m_repository := sample_repo; m_prNumber := 7; expectedHeadSha := sample_sha; expectedBaseSha := sample_sha;
  approvedFingerprint := {| fp_prNumber := 7; fp_baseSha := sample_sha; fp_headSha := sample_sha;
    fp_state := open_ready; fp_draft := false; fp_mergeable := mergeable; requiredEvidenceDigests := [];
    policyVersionId := "v1"; capturedAtIso := "t" |};
  approvalId := sample_run; m_actionId := "pr_merge"; validationDigest := ""; method := "squash";
  commitTitle := None; m_workflowRunId := sample_run; m_operationKey := sample_key |}.

Definition sample_ctx (key digest_ : string) : PrWriteContext := {|
  correlationId := "c"; actionId := "pr_merge";
  authorized := {| GithubWrites.decisionId := "d"; GithubWrites.ctx_operationKey := key;
                   GithubWrites.actionFingerprint := digest_; GithubWrites.digest := digest_ |} |}.

Definition merge_ctx : PrWriteContext := sample_ctx sample_key (mutationInputDigest (merge_json sample_merge)).

(** A GitHub with one pull request, merged or not; [up] says whether it can be read. *)
Definition sample_outside (up : bool) (c : PrCall) (is_merged : bool) : outcome (PrAns c) * bool :=
  match c return outcome (PrAns c) * bool with
  | getPullRequest_ _ =>
      (Returned (if up then provided (sample_pr (if is_merged then merged else open_ready))
                 else refused SERVER_ERROR "down"), is_merged)
  | mergePullRequest_ _ => (Returned (provided sample_sha), true)
  | createPullRequest_ _ | updatePullRequest_ _ => (Returned (provided (sample_pr open_ready)), is_merged)
  | postComment_ _ => (Returned (provided "comment"), is_merged)
  | requestReview_ _ _ _ => (Returned (provided ()), is_merged)
  | listEvidence_ _ _ _ => (Returned (provided []), is_merged)
  | claim_ op => (Returned (claim_ok op false), is_merged)
  | get_ _ => (Returned None, is_merged)
  | nowIso_ => (Returned "2026-01-01T00:00:00.000Z", is_merged)
  | randomUUID_ => (Returned "op", is_merged)
  | record_ _ | emit_ _ => (Returned (), is_merged)
  end.

Lemma sample_ticking up : ticking (sample_outside up).
Proof. split; intros x; eexists _, _; reflexivity. Qed.

(** Two workers merge the same pull request under one key; the first to claim merges. *)
Definition sample_requests : list (PrRequest * PrWriteContext) :=
  [(Merge sample_merge, merge_ctx); (Merge sample_merge, merge_ctx)].

Definition sample_race :=
  schedule (pr_port (sample_outside true)) ([0; 1; 0; 1; 0; 1] ++ concat (repeat [1; 0] 12))%nat
    (([], false), performing sample_requests).

Lemma one_write_per_operation_witness :
  rtc (pool_step (pr_port (sample_outside true)) (λ _ _, False))
    (([], false), performing sample_requests) sample_race ∧
  sample_race.1.2 = true ∧ total acts sample_race.2 = 1%nat ∧ (total acts sample_race.2 ≤ 1)%nat.
Proof.
  assert (rtc (pool_step (pr_port (sample_outside true)) (λ _ _, False))
            (([], false), performing sample_requests) sample_race) as Hrun by apply schedule_sound.
  split; [exact Hrun|]. split; [vm_compute; reflexivity|]. split; [vm_compute; reflexivity|].
  destruct sample_race as [w' ts].
  apply (one_write_per_operation (sample_outside true) (λ _ _, False) sample_key sample_requests
           ([], false) w' ts).
  - repeat constructor.
  - by intros x y [].
  - exact Hrun.
Defined.

Lemma unreadable_pull_request_sticks_witness :
  ∃ ops i x,
    final (pr_port (sample_outside false)) (mergePullRequest sample_merge merge_ctx) ([], false) =
      (Returned (Answer blocked "cannot revalidate PR: SERVER_ERROR" i), (ops, x)) ∧
    ∀ y, (∃ y', final (pr_port (sample_outside true)) (mergePullRequest sample_merge merge_ctx) (ops, y) =
            (Returned (Answer conflict "prior attempt left operation authorized; not applied" i), (ops, y'))) ∧
         final (pr_port (sample_outside true)) (reconcile i) (ops, y) =
           (Returned {| rr_operationId := i; rr_state := "authorized";
                        rr_detail := "no reconciliation needed" |}, (ops, y)).
Proof.
  apply (unreadable_pull_request_sticks (sample_outside false) (sample_outside true) sample_merge merge_ctx
           ([], false) SERVER_ERROR "down").
  - apply sample_ticking.
  - apply sample_ticking.
  - intros x. eexists. reflexivity.
  - vm_compute. reflexivity.
  - vm_compute. reflexivity.
  - reflexivity.
Defined.

(** ** Behaviours worth knowing *)

(** The adapter goes from [authorized] to [applied], [stale] or [conflicted] at once, which its
    state machine does not allow; the machine is consulted for one constant edge only. *)
Example machine_is_bypassed :
  map (resolvePrMutationEdge "authorized") ["applied"; "conflict"; "unknown"; "begin"] =
  [None; None; None; Some "executing"].
Proof. reflexivity. Qed.

(** The title of a new pull request is sent as it is, a secret included; the body is searched. *)
Definition secret_title : CreatePullRequest := {|
  c_repository := sample_repo; c_ownedHeadBranch := "agent/run/1"; c_headSha := sample_sha;
  c_baseBranch := "main"; c_baseSha := sample_sha; c_title := "password=hunter2hunter2"; c_body := "Fix";
  c_draft := false; c_workflowRunId := sample_run; c_operationKey := sample_key |}.

Example titles_are_not_searched :
  SECRET_INLINE (c_title secret_title) = true ∧
  ∃ i w, final (pr_port (sample_outside true))
    (createPullRequest secret_title
       (sample_ctx sample_key (mutationInputDigest (create_json secret_title "Fix")))) ([], false) =
    (Returned (Applied (sample_pr open_ready) i), w).
Proof. split; [vm_compute; reflexivity|]. eexists _, _. vm_compute. reflexivity. Qed.

(** Line breaks and tabs of a body become blanks, so its Markdown is lost. *)
Example line_breaks_become_blanks :
  sanitizePrContent ("# Fix" +s String "010" ("- one" +s String "010" "- two")) body_max =
  Returned "# Fix - one - two".
Proof. vm_compute. reflexivity. Qed.

(** An operation that is being reconciled stays so: reconciliation answers that it is not needed,
    the request that it is unknown.  The step that led there counted two attempts. *)
Definition unknown_op : PrOperation := {|
  id := "op"; kind := "pr_merge"; operationKey := sample_key;
  inputDigest := mutationInputDigest (merge_json sample_merge); state := "outcome_unknown"; attempts := 2;
  workflowRunId := sample_run; createdAtIso := "t"; updatedAtIso := "t"; providerRefs := [] |}.

Example reconciliation_never_ends :
  let '(r, (ops, x)) := final (pr_port (sample_outside true)) (reconcile "op") ([("op", unknown_op)], true) in
  (rr_state <$> match r with Returned r => Some r | _ => None end) = Some "reconciling" ∧
  (attempts <$> get "op" ops) = Some 4 ∧
  final (pr_port (sample_outside true)) (reconcile "op") (ops, x) =
    (Returned {| rr_operationId := "op"; rr_state := "reconciling";
                 rr_detail := "no reconciliation needed" |}, (ops, x)) ∧
  final (pr_port (sample_outside true)) (mergePullRequest sample_merge merge_ctx) (ops, x) =
    (Returned (Answer outcome_unknown "prior attempt left operation reconciling; not applied" "op"), (ops, x)).
Proof. vm_compute. split_and!; reflexivity. Qed.
