(* ===== verification/GithubClient.v ===== *)
(** * The GitHub client and its credentials

    [packages/github-adapter/src/core/]: the client that turns an operation and its input into
    one request and one classified result; [src/auth/]: the permissions of a capability, the
    claims of the app's token, the mint of installation tokens, their leases with one mint in
    flight per scope, and the role of a collaborator; [src/write/issue/]: the acknowledgement
    of a comment.  Signing and the transport are parameters. *)

From S2P Require Import Prelude JsString Effects JsDate Json Contracts Regex PullRequests.

(** ** Capabilities and scopes *)

(* @src packages/github-adapter/src/auth/contracts.ts:31-45 CAPABILITY_PERMISSION_MAP *)
Definition CAPABILITY_PERMISSION_MAP : list (string * list string) := [
  ("repository.metadata.read", ["metadata: read"]);
  ("issue.read", ["issues: read"]);
  ("issue.comment.read", ["issues: read"]);
  ("issue.comment.write", ["issues: write"]);
  ("content.read", ["contents: read"]);
  ("tree.read", ["contents: read"]);
  ("branch.read", ["contents: read"]);
  ("commit.read", ["contents: read"]);
  ("pull_request.read", ["pull_requests: read"]);
  ("review.read", ["pull_requests: read"]);
  ("check.read", ["checks: read"]);
  ("webhook.receive", [])].

(** The permissions, or the capability that is unknown. *)
(* @src packages/github-adapter/src/auth/contracts.ts:47-60 requiredPermissionsFor *)
Definition requiredPermissionsFor (capabilities : list string) : outcome (list string) :=
  let? l := fold_left (λ acc c,
      let? l := acc in
      match assoc c CAPABILITY_PERMISSION_MAP with
      | Some ps => Returned (l ++ ps)
      | None => Threw (PlainError ("unknown GitHub capability '" +s c +s "'"))
      end) capabilities (Returned []) in
  Returned (js_sort code_unit_compare (dedup l)).

(* @src packages/github-adapter/src/auth/contracts.ts:122-129 scopeDigest *)
Definition scopeDigest `{Digest} (ids capabilities : list string) : outcome string :=
  let? ps := requiredPermissionsFor capabilities in
  Returned (sha256 (stringify (JArr [JArr (map JStr (js_sort code_unit_compare ids)); JArr (map JStr ps)]))).

(** ** The token of the app *)

Record AppKeyMaterial := { privateKeyPem : string; keyVersion : string; appId : string }.

(** The claims, and when they expire in milliseconds; header and payload are then signed. *)
(* @src packages/github-adapter/src/auth/app-jwt-signer.ts:57-79 sign *)
Definition sign_claims (now backdate lifetime : Z) (key : AppKeyMaterial) : outcome (json * Z) :=
  if backdate <? 0 then Threw (PlainError "invalid JWT backdate")
  else if (lifetime <=? 0) || (600 <? lifetime) then Threw (PlainError "invalid JWT lifetime")
  else
    let iat := now / 1000 - backdate in
    let exp := iat + lifetime in
    Returned (JObj [("iss", JStr (appId key)); ("iat", JNum iat); ("exp", JNum exp)], exp * 1000).

(** ** The mint *)

(** [encodeURIComponent]: all but a few characters become the octets of their UTF-8. *)
Definition uri_unreserved (c : ascii) : bool := is_alnum c || char_in "-_.!~*'()" c.

Definition upper_hex (n : Z) : ascii :=
  if n <? 10 then ascii_of_N (Z.to_N (48 + n)) else ascii_of_N (Z.to_N (55 + n)).

Definition percent_octet (n : Z) : string := String "%" (String (upper_hex (n / 16)) (String (upper_hex (n mod 16)) "")).

Fixpoint encodeURIComponent (s : string) : string :=
  match s with
  | EmptyString => EmptyString
  | String c s =>
      (if uri_unreserved c then String c ""
       else let n := code_of c in
            if n <? 128 then percent_octet n else percent_octet (192 + n / 64) +s percent_octet (128 + n mod 64)) +s
      encodeURIComponent s
  end.

Record RawTransportResponse := {
  r_status : Z;
  r_headers : list (string * string);
  bodyText : option string
}.

Record TransportRequest := {
  t_method : string;
  t_path : string;
  t_headers : list (string * string);
  t_body : option string;
  timeoutMs : Z;
  host : string
}.

Definition permission_members (ps : list string) : outcome (list (string * json)) :=
  fold_left (λ acc p,
    let? l := acc in
    let '(name, rest) := span_chars (λ c, negb (Ascii.eqb c ":")) p in
    match rest with
    | String _ level => if nonempty name then Returned (set_key name (JStr (trim level)) l)
                        else Threw (PlainError ("invalid GitHub permission '" +s p +s "'"))
    | EmptyString => Threw (PlainError ("invalid GitHub permission '" +s p +s "'"))
    end) ps (Returned []).

(** [Number] of an identifier that GitHub gave. *)
Definition id_number (s : string) : json := if digits s then JNum (leading_digits 0 s) else JNull.

(* @src packages/github-adapter/src/auth/installation-token-mint.ts:31-61 mint *)
Definition mint_request (jwt apiVersion installationId : string) (ids capabilities : list string)
  : outcome TransportRequest :=
  let? ps := requiredPermissionsFor capabilities in
  let? permissions := permission_members ps in
  Returned {|
    t_method := "POST";
    t_path := "/app/installations/" +s encodeURIComponent installationId +s "/access_tokens";
    t_headers := [("accept", "application/vnd.github+json"); ("authorization", "Bearer " +s jwt);
                  ("x-github-api-version", apiVersion); ("content-type", "application/json")];
    t_body := Some (stringify (JObj [("repository_ids", JArr (map id_number ids)); ("permissions", JObj permissions)]));
    timeoutMs := 30000; host := "api.github.com" |}.

(** The token and the text of its expiry. *)
(* @src packages/github-adapter/src/auth/installation-token-mint.ts:62-73 mint *)
Definition mint_answer `{JsonParse} (r : RawTransportResponse) : outcome (string * string) :=
  if negb (r_status r =? 201) then
    Threw (PlainError ("installation_token_mint_failed:" +s num_to_string (r_status r)))
  else
    match json_parse (bodyText r ?? "{}") with
    | None => Threw (PlainError "SyntaxError")
    | Some (JObj l) =>
        match assoc "token" l, assoc "expires_at" l with
        | Some (JStr t), Some (JStr e) => Returned (t, e)
        | _, _ => Threw (PlainError "installation_token_mint_schema_mismatch")
        end
    | Some JNull => Threw (PlainError "TypeError")
    | Some _ => Threw (PlainError "installation_token_mint_schema_mismatch")
    end.

(** ** Leases *)

(* @src packages/github-adapter/src/auth/contracts.ts:72-80 InstallationTokenLease *)
Record InstallationTokenLease := {
  token : string;
  expiresAtIso : string;
  refreshAtMs : Z;
  l_installationId : string;
  l_scopeDigest : string;
  l_credentialVersion : string
}.

Record LeaseRequest := {
  installationId : string;
  githubRepositoryIds : list string;
  capabilities : list string;
  credentialVersion : string
}.

(** A call of [acquire]: it has its lease, waits for a mint, or has failed. *)
Inductive caller := Holds (l : InstallationTokenLease) | Waits (mint : nat) | Refused.

(** A mint for a key: under way, answered (its promise is resolved or rejected), or forgotten by
    the map of mints in flight. *)
Inductive mint_state := Pending | Answered (o : option InstallationTokenLease) | Settled (o : option InstallationTokenLease).

Record Manager := {
  cache : gmap string InstallationTokenLease;
  inFlight : gmap string nat;
  mints : list (string * LeaseRequest * mint_state);
  callers : list (LeaseRequest * caller)
}.

Section Leases.
Context `{Digest} `{DateParse}.
(** [refreshSkewMs] *)
Context (skew : Z).

(* @src packages/github-adapter/src/auth/token-lease-cache.ts:83-83 acquire *)
Definition cacheKey (q : LeaseRequest) (digest : string) : string :=
  installationId q +s "|" +s digest +s "|" +s credentialVersion q.

(** The part of [acquire] before its first [await], which no other code interrupts. *)
(* @src packages/github-adapter/src/auth/token-lease-cache.ts:75-107 acquire *)
Definition acquire (now : Z) (q : LeaseRequest) (m : Manager) : Manager :=
  match scopeDigest (githubRepositoryIds q) (capabilities q) with
  | Threw _ => {| cache := cache m; inFlight := inFlight m; mints := mints m; callers := callers m ++ [(q, Refused)] |}
  | Returned digest =>
      let key := cacheKey q digest in
      let join n := {| cache := cache m; inFlight := inFlight m; mints := mints m;
                       callers := callers m ++ [(q, Waits n)] |} in
      let wait := match inFlight m !! key with
        | Some n => join n
        | None =>
            let n := length (mints m) in
            {| cache := cache m; inFlight := <[key := n]> (inFlight m); mints := mints m ++ [(key, q, Pending)];
               callers := callers m ++ [(q, Waits n)] |}
        end in
      match cache m !! key with
      | Some l => if now <? refreshAtMs l
                  then {| cache := cache m; inFlight := inFlight m; mints := mints m;
                          callers := callers m ++ [(q, Holds l)] |}
                  else wait
      | None => wait
      end
  end.

(** The lease for an answered mint; an expiry that is no date makes [toISOString] throw. *)
(* @src packages/github-adapter/src/auth/token-lease-cache.ts:116-136 #mint *)
Definition lease_of (q : LeaseRequest) (answer : option (string * string)) : option InstallationTokenLease :=
  '(t, e) ← answer;
  expires ← date_parse e;
  match scopeDigest (githubRepositoryIds q) (capabilities q) with
  | Threw _ => None
  | Returned digest =>
      Some {| token := t; expiresAtIso := e; refreshAtMs := expires - skew; l_installationId := installationId q;
              l_scopeDigest := digest; l_credentialVersion := credentialVersion q |}
  end.

Definition set_mint (i : nat) (x : string * LeaseRequest * mint_state) (m : Manager) : Manager :=
  {| cache := cache m; inFlight := inFlight m; mints := <[i := x]> (mints m); callers := callers m |}.

(** The provider answers a mint: the lease is cached. *)
(* @src packages/github-adapter/src/auth/token-lease-cache.ts:109-137 #mint *)
Definition mint_answers (i : nat) (answer : option (string * string)) (m : Manager) : Manager :=
  match mints m !! i with
  | Some (key, q, Pending) =>
      match lease_of q answer with
      | Some l => {| cache := <[key := l]> (cache m); inFlight := inFlight m;
                     mints := <[i := (key, q, Answered (Some l))]> (mints m); callers := callers m |}
      | None => set_mint i (key, q, Answered None) m
      end
  | _ => m
  end.

(** The [finally] of the caller that started a mint. *)
(* @src packages/github-adapter/src/auth/token-lease-cache.ts:102-106 acquire *)
Definition mint_settles (i : nat) (m : Manager) : Manager :=
  match mints m !! i with
  | Some (key, q, Answered o) =>
      {| cache := cache m; inFlight := delete key (inFlight m); mints := <[i := (key, q, Settled o)]> (mints m);
         callers := callers m |}
  | _ => m
  end.

(** A caller gets the result of the mint it waits for. *)
(* @src packages/github-adapter/src/auth/token-lease-cache.ts:103-103 acquire *)
Definition resume (j : nat) (m : Manager) : Manager :=
  match callers m !! j with
  | Some (q, Waits n) =>
      match mints m !! n with
      | Some (_, _, Answered o) | Some (_, _, Settled o) =>
          {| cache := cache m; inFlight := inFlight m; mints := mints m;
             callers := <[j := (q, match o with Some l => Holds l | None => Refused end)]> (callers m) |}
      | _ => m
      end
  | _ => m
  end.

(* @src packages/github-adapter/src/auth/token-lease-cache.ts:140-149 invalidate *)
Definition invalidate (q : LeaseRequest) (m : Manager) : Manager :=
  match scopeDigest (githubRepositoryIds q) (capabilities q) with
  | Returned digest => {| cache := delete (cacheKey q digest) (cache m); inFlight := inFlight m; mints := mints m;
                          callers := callers m |}
  | Threw _ => m
  end.

(* @src packages/github-adapter/src/auth/token-lease-cache.ts:151-153 invalidateAll *)
Definition invalidateAll (m : Manager) : Manager :=
  {| cache := ∅; inFlight := inFlight m; mints := mints m; callers := callers m |}.

Inductive lease_step : Manager → Manager → Prop :=
  | Acquires m now q : lease_step m (acquire now q m)
  | MintAnswers m i answer : lease_step m (mint_answers i answer m)
  | MintSettles m i : lease_step m (mint_settles i m)
  | Resumes m j : lease_step m (resume j m)
  | Invalidates m q : lease_step m (invalidate q m)
  | InvalidatesAll m : lease_step m (invalidateAll m).

Definition no_leases : Manager := {| cache := ∅; inFlight := ∅; mints := []; callers := [] |}.
End Leases.

(** ** Operations and requests *)

(* @src packages/github-adapter/src/core/contracts.ts:13-27 GitHubOperation *)
Record GitHubOperation (O : Type) := {
  operationId : string;
  op_method : string;
  is_write : bool;
  pathTemplate : string;
  inputSchema : json → option (list (string * json));
  outputSchema : option json → option O;
  successStatuses : list Z
}.
Arguments operationId {O} _.
Arguments op_method {O} _.
Arguments is_write {O} _.
Arguments pathTemplate {O} _.
Arguments inputSchema {O} _ _.
Arguments outputSchema {O} _ _.
Arguments successStatuses {O} _.

(* @src packages/github-adapter/src/core/contracts.ts:29-40 GitHubRequestContext *)
Record GitHubRequestContext := {
  c_operationId : string;
  correlationId : string;
  deadlineMs : option Z;
  authorizationDigest : option string
}.

(* @src packages/github-adapter/src/core/contracts.ts:86-92 AuthorizedActionContext *)
Record AuthorizedActionContext := {
  decisionId : string;
  operationKey : string;
  actionFingerprint : string;
  a_digest : string
}.

(* @src packages/github-adapter/src/core/contracts.ts:58-69 GitHubAdapterErrorKind *)
Inductive GitHubAdapterErrorKind :=
  AUTHENTICATION | PERMISSION | NOT_FOUND | VALIDATION | CONFLICT | RATE_LIMITED | SERVER_ERROR | TIMEOUT
| SCHEMA_MISMATCH | OUTCOME_UNKNOWN | UNAUTHORIZED_WRITE.

#[export] Instance GitHubAdapterErrorKind_eq_dec : EqDecision GitHubAdapterErrorKind.
Proof. solve_decision. Defined.

(** [Number] of a header, none when it is no number. *)
Definition header_number (s : string) : option Z := if digits s then Some (leading_digits 0 s) else None.

(* @src packages/github-adapter/src/core/contracts.ts:48-56 GitHubResponseMeta *)
Record GitHubResponseMeta := {
  githubRequestId : option string;
  m_status : Z;
  m_etag : option string;
  lastModified : option string;
  rate : option (option Z * option Z * option Z);
  linkHeader : option string
}.

(** The delay is [Some None] when the header is no number. *)
(* @src packages/github-adapter/src/core/contracts.ts:71-78 GitHubAdapterError *)
Record GitHubAdapterError := {
  kind : GitHubAdapterErrorKind;
  e_operationId : string;
  e_status : option Z;
  e_message : string;
  retryAfterMs : option (option Z);
  e_githubRequestId : option string
}.

(* @src packages/github-adapter/src/core/contracts.ts:80-83 GitHubResult *)
Inductive GitHubResult (O : Type) :=
  | Value (v : O) (m : GitHubResponseMeta)
  | NotModified (m : GitHubResponseMeta)
  | Failure (e : GitHubAdapterError).
Arguments Value {O} v m.
Arguments NotModified {O} m.
Arguments Failure {O} e.

(** A header that is present and not empty. *)
Definition header (k : string) (r : RawTransportResponse) : option string :=
  match assoc k (r_headers r) with Some v => if nonempty v then Some v else None | None => None end.

(* @src packages/github-adapter/src/core/client.ts:113-119 parseRate *)
Definition parseRate (r : RawTransportResponse) : option (option Z * option Z * option Z) :=
  l ← header "x-ratelimit-limit" r;
  m ← header "x-ratelimit-remaining" r;
  t ← header "x-ratelimit-reset" r;
  Some (header_number l, header_number m, header_number t).

(* @src packages/github-adapter/src/core/client.ts:121-131 errorKind *)
Definition errorKind (status : Z) : GitHubAdapterErrorKind :=
  if status =? 401 then AUTHENTICATION
  else if status =? 403 then PERMISSION
  else if status =? 404 then NOT_FOUND
  else if status =? 422 then VALIDATION
  else if status =? 409 then CONFLICT
  else if status =? 429 then RATE_LIMITED
  else SERVER_ERROR.

(** [String(value)] *)
Fixpoint js_string (j : json) : string :=
  match j with
  | JNull => "null"
  | JBool true => "true"
  | JBool false => "false"
  | JNum n => num_to_string n
  | JStr s => s
  | JArr l => join "," (map (λ x, match x with JNull => "" | _ => js_string x end) l)
  | JObj _ => "[object Object]"
  end.

(** [/\{(\w+)\}/] after the brace: the key and the rest. *)
Definition placeholder (s : string) : option (string * string) :=
  let '(key, rest) := span_chars word_char s in
  match rest with
  | String c rest => if Ascii.eqb c "}" && nonempty key then Some (key, rest) else None
  | EmptyString => None
  end.

(** A template as texts and keys, in order; the fuel is its length. *)
Fixpoint template_parts (fuel : nat) (t : string) : list (string + string) :=
  match fuel, t with
  | S fuel, String c t =>
      match (if Ascii.eqb c "{" then placeholder t else None) with
      | Some (key, rest) => inr key :: template_parts fuel rest
      | None => inl (String c "") :: template_parts fuel t
      end
  | _, _ => []
  end.

Definition parts_of_template (t : string) : list (string + string) := template_parts (String.length t) t.

Definition template_keys (t : string) : list string :=
  omap (λ p, match p with inr k => Some k | inl _ => None end) (parts_of_template t).

(* @src packages/github-adapter/src/core/client.ts:255-263 buildPath *)
Definition buildPath (t : string) (input : list (string * json)) : outcome string :=
  fold_right (λ p acc,
    let? rest := acc in
    match p with
    | inl s => Returned (s +s rest)
    | inr k =>
        match assoc k input with
        | None | Some JNull => Threw (PlainError ("missing path parameter '" +s k +s "' for operation template '" +s t +s "'"))
        | Some v => Returned (encodeURIComponent (js_string v) +s rest)
        end
    end) (Returned "") (parts_of_template t).

Definition query_of (t : string) (input : list (string * json)) : string :=
  join "&" (map (λ '(k, v), encodeURIComponent (if k =s? "commit_sha" then "ref" else k) +s "=" +s
                            encodeURIComponent (js_string v))
              (List.filter (λ kv, negb (str_in kv.1 (template_keys t))) input)).

(* @src packages/github-adapter/src/core/client.ts:143-159 execute *)
Definition unauthorized {O} (op : GitHubOperation O) (ctx : GitHubRequestContext)
    (authorized : option AuthorizedActionContext) : bool :=
  is_write op &&
  match authorized with
  | None => true
  | Some a => negb (bool_decide (authorizationDigest ctx = Some (a_digest a))) ||
              negb (operationKey a =s? operationId op) || negb (c_operationId ctx =s? operationId op)
  end.

(* @src packages/github-adapter/src/core/client.ts:161-197 execute *)
Definition request_of {O} (op : GitHubOperation O) (input : json) (ctx : GitHubRequestContext)
    (token apiVersion : string) : outcome TransportRequest :=
  match inputSchema op input with
  | None => Threw (PlainError "ZodError")
  | Some l =>
      let? path := buildPath (pathTemplate op) l in
      let query := query_of (pathTemplate op) l in
      Returned {|
        t_method := op_method op;
        t_path := if nonempty query then path +s "?" +s query else path;
        t_headers := [("accept", "application/vnd.github+json"); ("authorization", "Bearer " +s token);
                      ("x-github-api-version", apiVersion); ("x-correlation-id", correlationId ctx);
                      ("content-type", "application/json")];
        t_body := if str_in (op_method op) ["GET"; "DELETE"] then None
                  else Some (stringify (JObj (List.filter (λ kv, negb (str_in kv.1 (template_keys (pathTemplate op)))) l)));
        timeoutMs := deadlineMs ctx ?? 30000;
        host := "api.github.com" |}
  end.

(** The result, or what the schema throws on an empty answer. *)
(* @src packages/github-adapter/src/core/client.ts:199-250 execute *)
Definition result_of `{JsonParse} {O} (op : GitHubOperation O) (r : RawTransportResponse) : outcome (GitHubResult O) :=
  let meta := {| githubRequestId := header "x-github-request-id" r; m_status := r_status r; m_etag := header "etag" r;
                 lastModified := header "last-modified" r; rate := parseRate r; linkHeader := header "link" r |} in
  let mismatch := Returned (Failure {| kind := SCHEMA_MISMATCH; e_operationId := operationId op; e_status := None;
      e_message := "response schema mismatch for " +s operationId op; retryAfterMs := None;
      e_githubRequestId := githubRequestId meta |}) in
  if r_status r =? 304 then Returned (NotModified meta)
  else if negb (existsb (Z.eqb (r_status r)) (successStatuses op)) then
    Returned (Failure {|
      kind := errorKind (r_status r); e_operationId := operationId op; e_status := Some (r_status r);
      e_message := "GitHub API returned " +s num_to_string (r_status r) +s " for " +s operationId op;
      retryAfterMs := option_map (λ s, option_map (Z.mul 1000) (header_number s)) (header "retry-after" r);
      e_githubRequestId := githubRequestId meta |})
  else
    let text := bodyText r ?? "" in
    if (r_status r =? 204) || negb (nonempty text) then
      match outputSchema op None with Some v => Returned (Value v meta) | None => Threw (PlainError "ZodError") end
    else
      match json_parse text with
      | None => mismatch
      | Some j => match outputSchema op (Some j) with Some v => Returned (Value v meta) | None => mismatch end
      end.

(** The transport, and the manager of leases: a token. *)
Inductive ClientCall := Send (r : TransportRequest) | Lease (q : LeaseRequest).
Definition ClientAns (c : ClientCall) : Type :=
  match c with Send _ => RawTransportResponse | Lease _ => string end.

(* @src packages/github-adapter/src/core/client.ts:136-251 execute *)
Definition execute `{JsonParse} {O} (apiVersion : string) (op : GitHubOperation O) (input : json) (ctx : GitHubRequestContext)
    (token : string) (authorized : option AuthorizedActionContext) : proc ClientAns (GitHubResult O) :=
  if unauthorized op ctx authorized then
    pret (Failure {| kind := UNAUTHORIZED_WRITE; e_operationId := operationId op; e_status := None;
      e_message := "write operations require an AuthorizedActionContext from the action gateway";
      retryAfterMs := None; e_githubRequestId := None |})
  else
    match request_of op input ctx token apiVersion with
    | Threw e => throw e
    | Returned request => r <~ call (Send request);; Done (result_of op r)
    end.

(** ** Acknowledging a comment *)

(* @src packages/github-adapter/src/write/issue/operations.ts:23-42 OP_CREATE_ISSUE_COMMENT *)
Definition OP_CREATE_ISSUE_COMMENT : GitHubOperation Z := {|
  operationId := "github.create-issue-comment";
  op_method := "POST";
  is_write := true;
  pathTemplate := "/repos/{owner}/{repo}/issues/{issue_number}/comments";
  inputSchema j :=
    match j with
    | JObj l =>
        match assoc "owner" l, assoc "repo" l, assoc "issue_number" l, assoc "body" l with
        | Some (JStr o), Some (JStr r), Some (JNum n), Some (JStr b) =>
            if nonempty o && nonempty r && (1 <=? n) && (n <=? 10000000) && len_between 1 256000 b
            then Some [("owner", JStr o); ("repo", JStr r); ("issue_number", JNum n); ("body", JStr b)]
            else None
        | _, _, _, _ => None
        end
    | _ => None
    end;
  outputSchema j :=
    match j with
    | Some (JObj l) =>
        match assoc "id" l, assoc "body" l with
        | Some (JNum n), Some (JStr _) => if 1 <=? n then Some n else None
        | _, _ => None
        end
    | _ => None
    end;
  successStatuses := [201]
|}.

(* @src packages/github-adapter/src/write/issue/github-issue-comment-acks.ts:15-25 PostIssueCommentAckInput *)
Record PostIssueCommentAckInput := {
  i_correlationId : string;
  i_installationId : string;
  githubRepositoryId : string;
  i_owner : string;
  i_repo : string;
  issueNumber : Z;
  triggerCommentId : Z;
  i_body : string
}.

(* @src packages/github-adapter/src/write/issue/github-issue-comment-acks.ts:27-34 PostIssueCommentAckResult *)
Inductive PostIssueCommentAckResult := Posted (githubCommentId : Z) | NotPosted (code detail : string).

(* @src packages/github-adapter/src/write/issue/github-issue-comment-acks.ts:102-118 postAck *)
Definition ack_code (k : GitHubAdapterErrorKind) : string :=
  match k with
  | PERMISSION | AUTHENTICATION => "PERMISSION"
  | VALIDATION => "VALIDATION"
  | RATE_LIMITED => "RATE_LIMITED"
  | UNAUTHORIZED_WRITE => "UNAUTHORIZED_WRITE"
  | _ => "SERVER_ERROR"
  end.

(* @src packages/github-adapter/src/write/issue/github-issue-comment-acks.ts:46-123 postAck *)
Definition postAck `{Digest} `{JsonParse} (registered_message : string → string) (version : string)
    (input : PostIssueCommentAckInput) : proc ClientAns PostIssueCommentAckResult :=
  match sanitizePrContent (i_body input) 64000 with
  | Threw e => pret (NotPosted "VALIDATION" (match e with GuardError c => registered_message c | PlainError m => m end))
  | Returned text =>
      let digest := mutationInputDigest (JObj [("kind", JStr "issue_comment_ack");
        ("triggerCommentId", JNum (triggerCommentId input)); ("issueNumber", JNum (issueNumber input));
        ("repositoryId", JStr (githubRepositoryId input)); ("body", JStr text)]) in
      t <~ call (Lease {| installationId := i_installationId input; githubRepositoryIds := [githubRepositoryId input];
                          capabilities := ["issue.comment.write"]; credentialVersion := version |});;
      result <~ execute "2022-11-28" OP_CREATE_ISSUE_COMMENT
        (JObj [("owner", JStr (i_owner input)); ("repo", JStr (i_repo input)); ("issue_number", JNum (issueNumber input));
               ("body", JStr text)])
        {| c_operationId := operationId OP_CREATE_ISSUE_COMMENT; correlationId := i_correlationId input;
           deadlineMs := None; authorizationDigest := Some digest |} t
        (Some {| decisionId := "system-github-comment-ack"; operationKey := operationId OP_CREATE_ISSUE_COMMENT;
                 actionFingerprint := digest; a_digest := digest |});;
      match result with
      | Failure e => pret (NotPosted (ack_code (kind e)) (e_message e))
      | NotModified _ => pret (NotPosted "SERVER_ERROR" "unexpected 304 on create comment")
      | Value id _ => pret (Posted id)
      end
  end.

(** ** The role of a collaborator *)

(* @src packages/github-adapter/src/auth/github-collaborator-role.ts:12-23 normalizePermission *)
Definition normalizePermission (raw : string) : string :=
  if str_in raw ["admin"; "maintain"; "write"; "triage"; "read"] then raw else "none".

(* @src packages/github-adapter/src/auth/github-collaborator-role.ts:31-48 fetchRole *)
Definition role_request (token owner repo login apiVersion : string) : TransportRequest := {|
  t_method := "GET";
  t_path := "/repos/" +s encodeURIComponent owner +s "/" +s encodeURIComponent repo +s "/collaborators/" +s
            encodeURIComponent login +s "/permission";
  t_headers := [("accept", "application/vnd.github+json"); ("authorization", "Bearer " +s token);
                ("x-github-api-version", apiVersion)];
  t_body := None; timeoutMs := 30000; host := "api.github.com" |}.

(** The role and the digest of what it was read from. *)
(* @src packages/github-adapter/src/auth/github-collaborator-role.ts:49-88 fetchRole *)
Definition role_answer `{Digest} `{JsonParse} (owner repo login : string) (r : RawTransportResponse)
  : outcome (string * string) :=
  if r_status r =? 404 then
    if toLowerCase owner =s? toLowerCase login then
      Returned ("admin", sha256 (stringify (JObj [("permission", JStr "admin"); ("owner", JStr owner); ("repo", JStr repo);
        ("login", JStr login); ("source", JStr "owner_login_match")])))
    else Returned ("none", sha256 (stringify (JObj [("permission", JStr "none"); ("owner", JStr owner); ("repo", JStr repo)])))
  else if negb (r_status r =? 200) then
    Threw (PlainError ("github_collaborator_permission_failed:" +s num_to_string (r_status r)))
  else
    match json_parse (bodyText r ?? "{}") with
    | None => Threw (PlainError "SyntaxError")
    | Some JNull => Threw (PlainError "TypeError")
    | Some j =>
        let permission := match j with
                          | JObj l => match assoc "permission" l with Some (JStr p) => p | _ => "none" end
                          | _ => "none"
                          end in
        Returned (normalizePermission permission,
          sha256 (stringify (JObj [("permission", JStr permission); ("owner", JStr owner); ("repo", JStr repo);
            ("login", JStr login)])))
    end.

(* @src packages/github-adapter/src/auth/github-permission-service.ts:52-74 fetchUserRole *)
Definition fetchUserRole `{Digest} `{JsonParse} (version : string)
    (context : option (string * string * string * string * string)) : proc ClientAns (string * string) :=
  match context with
  | None => throw (PlainError "github_permission_context_unresolved")
  | Some (installation, owner, repo, login, repository) =>
      t <~ call (Lease {| installationId := installation; githubRepositoryIds := [repository];
                          capabilities := ["repository.metadata.read"]; credentialVersion := version |});;
      r <~ call (Send (role_request t owner repo login "2022-11-28"));;
      Done (role_answer owner repo login r)
  end.

(** ** Requests fill their template *)

(** What [encodeURIComponent] leaves: no separator of paths, of queries or of their members. *)
Definition url_char (c : ascii) : bool := uri_unreserved c || Ascii.eqb c "%".

Lemma hex_url n : 0 ≤ n < 16 → url_char (upper_hex n) = true.
Proof.
  intros Hn. assert (Hin : n ∈ seqZ 0 16) by (apply elem_of_seqZ; lia). clear Hn. revert n Hin. apply Forall_forall.
  apply (bool_decide_unpack _). vm_compute. reflexivity.
Qed.

Lemma octet_url n : 0 ≤ n < 256 → all_chars url_char (percent_octet n) = true.
Proof.
  intros Hn. unfold percent_octet. cbn [all_chars]. rewrite !hex_url; [done| |].
  - apply Z.mod_pos_bound. lia.
  - split; [apply Z.div_pos; lia|apply Z.div_lt_upper_bound; lia].
Qed.

Lemma encoded_url s : all_chars url_char (encodeURIComponent s) = true.
Proof.
  induction s as [|c s IH]; [done|]. cbn [encodeURIComponent]. rewrite all_chars_app, IH, andb_true_r.
  destruct (uri_unreserved c) eqn:Hc; [cbn; unfold url_char; by rewrite Hc|].
  assert (0 ≤ code_of c < 256) by (unfold code_of; pose proof (N_ascii_bounded c); lia).
  cbv zeta. destruct (code_of c <? 128) eqn:E; breflect; [apply octet_url; lia|].
  rewrite all_chars_app, !octet_url; [done| |].
  - pose proof (Z.mod_pos_bound (code_of c) 64). lia.
  - assert (code_of c / 64 < 4) by (apply Z.div_lt_upper_bound; lia).
    assert (0 ≤ code_of c / 64) by (apply Z.div_pos; lia). lia.
Qed.

(** A path that fills a template from an input: the texts as they are, and for every key the coding
    of the value the input has for it, in which no separator is left. *)
Inductive filled (input : list (string * json)) : list (string + string) → string → Prop :=
  | filled_end : filled input [] ""
  | filled_text s l p : filled input l p → filled input (inl s :: l) (s +s p)
  | filled_key k v w l p : assoc k input = Some v → v ≠ JNull → w = encodeURIComponent (js_string v) →
      all_chars url_char w = true → filled input l p → filled input (inr k :: l) (w +s p).

Lemma build_fills t input path : buildPath t input = Returned path → filled input (parts_of_template t) path.
Proof.
  unfold buildPath. revert path. induction (parts_of_template t) as [|[s|k] l IH]; intros path; cbn [fold_right].
  - intros [= <-]. constructor.
  - destruct (fold_right _ _ l) as [p|e]; [|done]. cbn. intros [= <-]. constructor. by apply IH.
  - destruct (fold_right _ _ l) as [p|e]; [|done]. cbn [obind]. destruct (assoc k input) as [v|] eqn:Hk; [|done].
    pose proof (encoded_url (js_string v)) as Hw. intros Hpath.
    assert (v ≠ JNull ∧ path = encodeURIComponent (js_string v) +s p) as [Hv ->].
    { destruct v; try done; by injection Hpath as <-. }
    eapply filled_key; [exact Hk|done..|by apply IH].
Qed.

Definition query_char (c : ascii) : bool := url_char c || char_in "=&" c.

Lemma query_url t input : all_chars query_char (query_of t input) = true.
Proof.
  assert (Hq : ∀ s, all_chars query_char (encodeURIComponent s) = true).
  { intros s. eapply all_chars_impl; [|apply encoded_url]. intros c Hc. unfold query_char. by rewrite Hc. }
  unfold query_of. generalize (List.filter (λ kv, negb (str_in kv.1 (template_keys t))) input). intros l.
  induction l as [|[k v] l IH]; [done|]. cbn [map].
  assert (Hk : all_chars query_char (encodeURIComponent (if k =s? "commit_sha" then "ref" else k) +s "=" +s
    encodeURIComponent (js_string v)) = true) by (rewrite !all_chars_app, !Hq; reflexivity).
  destruct l as [|kv l]; [exact Hk|]. cbn [map join] in *. rewrite all_chars_app, Hk. exact IH.
Qed.

(** What may be sent for an operation and an input. *)
Definition proper {O} (op : GitHubOperation O) (input : json) (ctx : GitHubRequestContext) (token : string)
    (authorized : option AuthorizedActionContext) (c : ClientCall) : Prop :=
  match c with
  | Lease _ => False
  | Send r =>
      host r = "api.github.com" ∧ t_method r = op_method op ∧
      assoc "authorization" (t_headers r) = Some ("Bearer " +s token) ∧
      (∃ l path, inputSchema op input = Some l ∧ filled l (parts_of_template (pathTemplate op)) path ∧
         let query := query_of (pathTemplate op) l in
         all_chars query_char query = true ∧ t_path r = path +s (if nonempty query then "?" +s query else "") ∧
         (t_body r = None ∨ ∃ members, t_body r = Some (stringify (JObj members)) ∧
            ∀ kv, kv ∈ members ↔ kv ∈ l ∧ kv.1 ∉ template_keys (pathTemplate op))) ∧
      (is_write op = true → ∃ a, authorized = Some a ∧ operationKey a = operationId op ∧
         c_operationId ctx = operationId op ∧ authorizationDigest ctx = Some (a_digest a))
  end.

(* @prop safety 7.65 : execute request_of buildPath unauthorized result_of errorKind *)
(** C34. A request fills the template of its operation: for every operation, input and token, the
    client sends at most one request, to the one host it knows, with the method of the operation
    and the token; its path is the template with every placeholder replaced by the coding of the
    value that the validated input has for it, in which no separator is left; the query has no
    other separators than its own; a body holds exactly the members that are not in the path; a
    write is sent only with a context whose operation and digest are those of the request; and a
    result is a success only if the status of the answer was one of the operation's, or 304.
    Coding leaves dots: a value of two dots stays a segment of two dots ([dot_segments]), which
    whoever resolves the URL takes for a step up. *)
Theorem requests_fill_their_template `{JsonParse} {O} version (op : GitHubOperation O) input ctx token authorized :
  ensures (λ tr c, tr = [] ∧ proper op input ctx token authorized c)
    (λ tr o, match o with
             | Returned (Value _ m) => ∃ q r, tr = [ev (Send q) (Returned r)] ∧ r_status r ∈ successStatuses op
             | Returned (NotModified m) => ∃ q r, tr = [ev (Send q) (Returned r)] ∧ r_status r = 304
             | Returned (Failure e) =>
                 kind e ≠ UNAUTHORIZED_WRITE → ∃ q r, tr = [ev (Send q) (Returned r)] ∧
                   (kind e = SCHEMA_MISMATCH ∨ kind e = errorKind (r_status r))
             | Threw _ => True
             end) [] (execute version op input ctx token authorized).
Proof.
  unfold execute. destruct (unauthorized op ctx authorized) eqn:Hu; [by intros []|].
  unfold request_of. destruct (inputSchema op input) as [l|] eqn:Hl; [|done].
  destruct (buildPath (pathTemplate op) l) as [path|e] eqn:Hp; [|done]. cbn [obind].
  unfold call. cbn [pbind]. split.
  - split; [done|]. cbn [proper host t_method t_path t_body t_headers]. split_and!; [done|done|done| |].
    + exists l, path. split_and!; [done|by apply build_fills|apply query_url|..].
      * case_match; [done|by rewrite str_app_nil_r].
      * case_match; [by left|right]. eexists. split; [done|]. intros kv. rewrite bfilter_elem, negb_true_iff.
        by rewrite str_in_false.
    + intros Hw. unfold unauthorized in Hu. rewrite Hw in Hu. destruct authorized as [a|]; [|done]. cbn [andb] in Hu.
      apply orb_false_iff in Hu as [Hu Hc]. apply orb_false_iff in Hu as [Hd Hk]. breflect. by exists a.
  - intros [r|e]; [|done]. cbn [pbind app]. unfold result_of. cbn [ensures].
    destruct (r_status r =? 304) eqn:E304; [breflect; by eexists _, _|].
    destruct (existsb (Z.eqb (r_status r)) (successStatuses op)) eqn:Es; cbn [negb].
    + apply existsb_true in Es as (x & Hx & Ex). breflect. subst x.
      destruct ((r_status r =? 204) || negb (nonempty (bodyText r ?? ""))).
      * destruct (outputSchema op None); [by eexists _, _|done].
      * destruct (json_parse (bodyText r ?? "")) as [j|]; [destruct (outputSchema op (Some j))|];
          try (by eexists _, _); intros _; eexists _, _; split; [done|by left|done|by left].
    + intros _. eexists _, _. split; [done|by right].
Qed.

(** ** Leases match their scope *)

Section LeaseProof.
Context `{Digest} `{DateParse} (skew : Z).

Definition keyed (q : LeaseRequest) (key : string) : Prop :=
  ∃ d, scopeDigest (githubRepositoryIds q) (capabilities q) = Returned d ∧ key = cacheKey q d.

Definition matches (q : LeaseRequest) (l : InstallationTokenLease) : Prop :=
  l_installationId l = installationId q ∧ l_credentialVersion l = credentialVersion q ∧
  scopeDigest (githubRepositoryIds q) (capabilities q) = Returned (l_scopeDigest l).

(** A lease under a key was minted for a request that has this key. *)
Definition leased (rs : list LeaseRequest) (key : string) (l : InstallationTokenLease) : Prop :=
  ∃ q, q ∈ rs ∧ keyed q key ∧ matches q l.

Definition open_ (s : mint_state) : Prop := match s with Settled _ => False | _ => True end.
#[local] Instance open_dec s : Decision (open_ s).
Proof. destruct s; apply _. Defined.
Definition result (s : mint_state) : option InstallationTokenLease :=
  match s with Pending => None | Answered o | Settled o => o end.

Record sane (m : Manager) : Prop := {
  s_flight key n : inFlight m !! key = Some n ↔ ∃ q s, mints m !! n = Some (key, q, s) ∧ open_ s;
  s_mint n key q s : mints m !! n = Some (key, q, s) →
    q ∈ (callers m).*1 ∧ keyed q key ∧ ∀ l, result s = Some l → leased (callers m).*1 key l;
  s_cache key l : cache m !! key = Some l → leased (callers m).*1 key l;
  s_call j q c : callers m !! j = Some (q, c) →
    match c with
    | Waits n => ∃ key q' s, mints m !! n = Some (key, q', s) ∧ keyed q key
    | Holds l => ∃ key, keyed q key ∧ leased (callers m).*1 key l
    | Refused => True
    end
}.

Lemma leased_mono rs rs' key l : (∀ q, q ∈ rs → q ∈ rs') → leased rs key l → leased rs' key l.
Proof. intros Hsub (q & Hq & Hk). exists q. split; [by apply Hsub|done]. Qed.

(** A new caller, whose state is right, and nothing else. *)
Lemma sane_caller m q c :
  sane m →
  match c with
  | Waits n => ∃ key q' s, mints m !! n = Some (key, q', s) ∧ keyed q key
  | Holds l => ∃ key, keyed q key ∧ leased (callers m).*1 key l
  | Refused => True
  end →
  sane {| cache := cache m; inFlight := inFlight m; mints := mints m; callers := callers m ++ [(q, c)] |}.
Proof.
  intros [Hf Hm Hc Hs] Hnew. assert (Hsub : ∀ x, x ∈ (callers m).*1 → x ∈ (callers m ++ [(q, c)]).*1)
    by (intros x Hx; rewrite fmap_app; set_solver).
  constructor; cbn [cache inFlight mints callers]; [done| | |].
  - intros n key q' s Hn. destruct (Hm _ _ _ _ Hn) as (Hq & Hk & Hl).
    split_and!; [by apply Hsub|done|]. intros l Hr. by eapply leased_mono, Hl.
  - intros key l Hl. by eapply leased_mono, Hc.
  - intros j q' c' [Hj|[_ Hj]]%lookup_app_Some.
    + specialize (Hs _ _ _ Hj). destruct c' as [l|n|]; [|done|done]. destruct Hs as (key & Hk & Hl).
      exists key. split; [done|]. by eapply leased_mono.
    + apply list_lookup_singleton_Some in Hj as [_ [= <- <-]]. destruct c as [l|n|]; [|done|done].
      destruct Hnew as (key & Hk & Hl). exists key. split; [done|]. by eapply leased_mono.
Qed.

(** A mint whose key has none under way, together with the caller that started it. *)
Lemma sane_mint m q key :
  sane m → keyed q key → inFlight m !! key = None →
  sane {| cache := cache m; inFlight := <[key := length (mints m)]> (inFlight m);
          mints := mints m ++ [(key, q, Pending)]; callers := callers m ++ [(q, Waits (length (mints m)))] |}.
Proof.
  intros [Hf Hm Hc Hs] Hkey Hnone. assert (Hsub : ∀ x, x ∈ (callers m).*1 → x ∈ (callers m ++ [(q, Waits (length (mints m)))]).*1)
    by (intros x Hx; rewrite fmap_app; set_solver).
  constructor; cbn [cache inFlight mints callers].
  - intros k n. destruct (decide (k = key)) as [->|Hk].
    + rewrite lookup_insert_eq. split.
      * intros [= <-]. exists q, Pending. split; [|done]. by rewrite lookup_app_r, Nat.sub_diag by lia.
      * intros (q' & s & [Hl|[Hge Hl]]%lookup_app_Some & Ho).
        -- assert (inFlight m !! key = Some n) by (apply Hf; by exists q', s). congruence.
        -- apply list_lookup_singleton_Some in Hl as [Hz _]. f_equal. lia.
    + rewrite lookup_insert_ne, Hf by done. split; intros (q' & s & Hl & Ho); exists q', s; (split; [|done]).
      * by apply lookup_app_l_Some.
      * apply lookup_app_Some in Hl as [Hl|[_ Hl]]; [done|]. apply list_lookup_singleton_Some in Hl as [_ [= <- _ _]]. done.
  - intros n k q' s [Hn|[_ Hn]]%lookup_app_Some.
    + destruct (Hm _ _ _ _ Hn) as (Hq & Hk & Hl). split_and!; [by apply Hsub|done|].
      intros l Hr. by eapply leased_mono, Hl.
    + apply list_lookup_singleton_Some in Hn as [_ [= <- <- <-]].
      split_and!; [rewrite fmap_app; set_solver|done|done].
  - intros k l Hl. by eapply leased_mono, Hc.
  - intros j q' c [Hj|[_ Hj]]%lookup_app_Some.
    + specialize (Hs _ _ _ Hj). destruct c as [l|n|]; [| |done].
      * destruct Hs as (k & Hk & Hl). exists k. split; [done|]. by eapply leased_mono.
      * destruct Hs as (k & q'' & s & Hn & Hk). exists k, q'', s. split; [by apply lookup_app_l_Some|done].
    + apply list_lookup_singleton_Some in Hj as [_ [= <- <-]]. exists key, q, Pending.
      split; [by rewrite lookup_app_r, Nat.sub_diag by lia|done].
Qed.

Lemma acquire_sane now q m : sane m → sane (acquire now q m).
Proof.
  intros Hs. unfold acquire. destruct (scopeDigest _ _) as [d|e] eqn:Hd; [|by apply sane_caller].
  assert (Hkey : keyed q (cacheKey q d)) by (by exists d). set (key := cacheKey q d) in *.
  assert (Hwait : sane match inFlight m !! key with
    | Some n => {| cache := cache m; inFlight := inFlight m; mints := mints m; callers := callers m ++ [(q, Waits n)] |}
    | None => {| cache := cache m; inFlight := <[key := length (mints m)]> (inFlight m);
                 mints := mints m ++ [(key, q, Pending)]; callers := callers m ++ [(q, Waits (length (mints m)))] |}
    end).
  { destruct (inFlight m !! key) as [n|] eqn:Hn; [|by apply sane_mint].
    apply sane_caller; [done|]. apply (s_flight m Hs) in Hn as (q' & s & Hn & _). by exists key, q', s. }
  destruct (cache m !! key) as [l|] eqn:Hl; [|exact Hwait]. destruct (now <? refreshAtMs l); [|exact Hwait].
  apply sane_caller; [done|]. exists key. split; [done|]. by apply (s_cache m Hs).
Qed.

(** A mint moves on: the map of mints under way follows, and the cache only gets what the mint gave. *)
Lemma sane_moves m i key q s s' flight store :
  sane m → mints m !! i = Some (key, q, s) → open_ s →
  (∀ l, result s' = Some l → leased (callers m).*1 key l) →
  (∀ k l, store !! k = Some l → leased (callers m).*1 k l) →
  (∀ k, flight !! k = if bool_decide (k = key ∧ ¬ open_ s') then None else inFlight m !! k) →
  sane {| cache := store; inFlight := flight; mints := <[i := (key, q, s')]> (mints m); callers := callers m |}.
Proof.
  intros [Hf Hm Hc Hs] Hi Ho Hres Hstore Hflight. pose proof (lookup_lt_Some _ _ _ Hi) as Hlt.
  assert (Hown : inFlight m !! key = Some i) by (apply Hf; by exists q, s).
  constructor; cbn [cache inFlight mints callers]; [| |done|].
  - intros k n. rewrite Hflight. destruct (decide (n = i)) as [->|Hn].
    + rewrite list_lookup_insert_eq by done. case_bool_decide as Hb.
      * split; [done|]. intros (q' & s'' & [= -> -> ->] & Ho'). tauto.
      * split.
        -- intros Hx%Hf. destruct Hx as (q1 & s1 & Hi' & _). rewrite Hi in Hi'. injection Hi' as <- <- <-. exists q, s'. split; [done|].
           destruct s'; cbn in *; tauto.
        -- by intros (q' & s'' & [= <- <- <-] & _).
    + rewrite list_lookup_insert_ne, <- Hf by done. case_bool_decide as Hb; [|done].
      destruct Hb as [-> _]. split; [done|]. congruence.
  - intros n k q' s'' Hn. destruct (decide (n = i)) as [->|Hne].
    + rewrite list_lookup_insert_eq in Hn by done. injection Hn as <- <- <-.
      destruct (Hm _ _ _ _ Hi) as (Hq & Hk & _). done.
    + rewrite list_lookup_insert_ne in Hn by done. by eapply Hm.
  - intros j q' c Hj. specialize (Hs _ _ _ Hj). destruct c as [l|n|]; [done| |done].
    destruct Hs as (k & q'' & s'' & Hn & Hk). destruct (decide (n = i)) as [->|Hne].
    + simplify_eq. exists k, q'', s'. by rewrite list_lookup_insert_eq.
    + exists k, q'', s''. by rewrite list_lookup_insert_ne.
Qed.

Lemma lease_of_matches q answer l : lease_of skew q answer = Some l → matches q l.
Proof.
  unfold lease_of. destruct answer as [[t e]|]; [|done]. simpl. destruct (date_parse e) as [x|]; [|done]. simpl.
  destruct (scopeDigest _ _) as [d|] eqn:Hd; [|done]. intros [= <-]. by split_and!.
Qed.

Lemma answers_sane i answer m : sane m → sane (mint_answers skew i answer m).
Proof.
  intros Hs. unfold mint_answers, set_mint. destruct (mints m !! i) as [[[key q] [|o|o]]|] eqn:Hi; [|done..].
  destruct (s_mint m Hs _ _ _ _ Hi) as (Hq & Hk & _).
  destruct (lease_of skew q answer) as [l|] eqn:Hl; eapply sane_moves; try done; try apply (s_cache m Hs);
    try (intros k; rewrite bool_decide_eq_false_2; [done|cbn; tauto]).
  - intros l' [= <-]. exists q. by apply lease_of_matches in Hl.
  - intros k l' [[<- <-]|[_ Hl']]%lookup_insert_Some; [|by apply (s_cache m Hs)].
    exists q. by apply lease_of_matches in Hl.
Qed.

Lemma settles_sane i m : sane m → sane (mint_settles i m).
Proof.
  intros Hs. unfold mint_settles. destruct (mints m !! i) as [[[key q] [|o|o]]|] eqn:Hi; [done| |done..].
  eapply sane_moves; try done; try apply (s_cache m Hs).
  - intros l Hl. by apply (s_mint m Hs _ _ _ _ Hi).
  - intros k. destruct (decide (k = key)) as [->|Hk].
    + by rewrite lookup_delete_eq, bool_decide_eq_true_2 by tauto.
    + rewrite lookup_delete_ne, bool_decide_eq_false_2 by (try congruence; tauto). done.
Qed.

Lemma resume_sane j m : sane m → sane (resume j m).
Proof.
  intros Hs. unfold resume. destruct (callers m !! j) as [[q [l|n|]]|] eqn:Hj; try done.
  destruct (mints m !! n) as [[[key q'] s]|] eqn:Hn; [|done].
  assert (Hgo : sane {| cache := cache m; inFlight := inFlight m; mints := mints m;
    callers := <[j := (q, match result s with Some l => Holds l | None => Refused end)]> (callers m) |});
    [|by destruct s].
  assert (Hsame : (<[j := (q, match result s with Some l => Holds l | None => Refused end)]> (callers m)).*1
    = (callers m).*1) by (rewrite list_fmap_insert; cbn [fst]; apply list_insert_id; by rewrite list_lookup_fmap, Hj).
  constructor; cbn [cache inFlight mints callers]; rewrite ?Hsame; [apply (s_flight m Hs)|apply (s_mint m Hs)|
    apply (s_cache m Hs)|].
  intros j' q'' c Hc. destruct (decide (j' = j)) as [->|Hne].
  - rewrite list_lookup_insert_eq in Hc by by eapply lookup_lt_Some. injection Hc as <- <-.
    destruct (result s) as [l|] eqn:Hr; [|done]. destruct (s_call m Hs _ _ _ Hj) as (k & q2 & s2 & Hn2 & Hk).
    rewrite Hn in Hn2. injection Hn2 as <- <- <-. exists key. split; [done|]. by apply (s_mint m Hs _ _ _ _ Hn).
  - rewrite list_lookup_insert_ne in Hc by done. apply (s_call m Hs _ _ _ Hc).
Qed.

(** Forgetting leases keeps a manager right. *)
Lemma forget_sane m store :
  sane m → store ⊆ cache m →
  sane {| cache := store; inFlight := inFlight m; mints := mints m; callers := callers m |}.
Proof.
  intros [Hf Hm Hc Hs] Hsub. constructor; cbn [cache inFlight mints callers]; [done..| |done].
  intros key l Hl. apply Hc. by eapply lookup_weaken.
Qed.

Lemma reachable_sane m : rtc (lease_step skew) no_leases m → sane m.
Proof.
  intros Hr. assert (H0' : sane no_leases).
  { constructor; cbn [no_leases cache inFlight mints callers]; intros *; rewrite ?lookup_empty, ?lookup_nil; try done.
    split; [done|]. by intros (q & s & Hl & _). }
  revert H0'. induction Hr as [m|m m' m'' Hstep Hr IH]; [done|]. intros Hs. apply IH.
  destruct Hstep; [by apply acquire_sane|by apply answers_sane|by apply settles_sane|by apply resume_sane| |].
  - unfold invalidate. destruct (scopeDigest _ _); [|done]. apply forget_sane; [done|]. apply delete_subseteq.
  - apply forget_sane; [done|]. apply map_empty_subseteq.
Qed.

(** A key determines the installation and the digest, when neither holds the separator. *)
Lemma cut_at_separator a b s t :
  any_char (Ascii.eqb "|") a = false → any_char (Ascii.eqb "|") b = false →
  a +s String "|" s = b +s String "|" t → a = b ∧ s = t.
Proof.
  revert b. induction a as [|c a IH]; intros [|d b] Ha Hb Heq; cbn [String.append] in Heq.
  - by injection Heq as <-.
  - injection Heq as <- _. done.
  - injection Heq as -> _. done.
  - injection Heq as <- Heq. cbn [any_char] in Ha, Hb. apply orb_false_iff in Ha as [_ Ha], Hb as [_ Hb].
    by destruct (IH b Ha Hb Heq) as [-> ->].
Qed.

Lemma digest_of_scope ids cs d (Hhex : ∀ s, hex64 (sha256 s) = true) :
  scopeDigest ids cs = Returned d → any_char (Ascii.eqb "|") d = false.
Proof.
  unfold scopeDigest. destruct (requiredPermissionsFor cs); [|done]. intros [= <-].
  specialize (Hhex (stringify (JArr [JArr (map JStr (js_sort code_unit_compare ids)); JArr (map JStr a)]))).
  unfold hex64 in Hhex. apply andb_true_iff in Hhex as [Hhex _]. by eapply (class_absent lower_hex).
Qed.

Lemma keyed_inj (Hhex : ∀ s, hex64 (sha256 s) = true) q q' key l :
  digits (installationId q) = true → digits (installationId q') = true →
  keyed q key → keyed q' key → matches q l → matches q' l.
Proof.
  intros Hq Hq' (d & Hd & ->) (d' & Hd' & Hkey) (Hi & Hc & Hs). unfold cacheKey in Hkey.
  unfold digits in Hq, Hq'. apply andb_true_iff in Hq as [Hq _], Hq' as [Hq' _].
  apply cut_at_separator in Hkey as [Hid Hkey]; [|by eapply (class_absent is_digit)..].
  apply cut_at_separator in Hkey as [-> Hv]; [|by eapply digest_of_scope..].
  split_and!; [congruence|congruence|congruence].
Qed.

(* @prop safety 7.7 : acquire mint_answers mint_settles resume lease_of cacheKey scopeDigest invalidate / leases_match_their_scope_witness *)
(** C35. Whatever the order in which callers ask for tokens, mints are answered, leases expire or are
    forgotten and waiting callers go on: a caller that gets a token gets one of its own
    installation and credential version whose scope has the digest of the repositories and
    permissions it asked for, never the token of another scope; and there is one mint at most
    under way for a scope.  (Installations are named by digits, as GitHub names them, and digests
    are hexadecimal texts of 64 characters; any collision of the digest is allowed.) *)
Theorem leases_match_their_scope (Hhex : ∀ s, hex64 (sha256 s) = true) m
  (Hreach : rtc (lease_step skew) no_leases m)
  (Hids : ∀ q c, (q, c) ∈ callers m → digits (installationId q) = true) :
  (∀ q l, (q, Holds l) ∈ callers m →
     l_installationId l = installationId q ∧ l_credentialVersion l = credentialVersion q ∧
     scopeDigest (githubRepositoryIds q) (capabilities q) = Returned (l_scopeDigest l)) ∧
  (∀ i j key q q' s s', mints m !! i = Some (key, q, s) → mints m !! j = Some (key, q', s') →
     open_ s → open_ s' → i = j).
Proof.
  apply reachable_sane in Hreach. split.
  - intros q l Hl. pose proof (Hids _ _ Hl) as Hq. apply list_elem_of_lookup_1 in Hl as [j Hj].
    destruct (s_call m Hreach _ _ _ Hj) as (key & Hk & q' & Hq' & Hk' & Hm).
    apply list_elem_of_fmap in Hq' as ([q'' c] & -> & Hc). by eapply keyed_inj, Hm; eauto.
  - intros i j key q q' s s' Hi Hj Ho Ho'.
    assert (inFlight m !! key = Some i ∧ inFlight m !! key = Some j) as [Hx Hy]; [|congruence].
    split; apply (s_flight m Hreach); [by exists q, s|by exists q', s'].
Qed.
End LeaseProof.

Section LeaseExamples.
#[local] Instance constant_digest : Digest := λ _, "aaaaaaaaaaaaaaaaaaaaaaaaaaaaaaaaaaaaaaaaaaaaaaaaaaaaaaaaaaaaaaaa".
#[local] Instance constant_date : DateParse := λ _, Some 3600000.

Definition read_issue : LeaseRequest :=
  {| installationId := "7"; githubRepositoryIds := ["1"]; capabilities := ["issue.read"]; credentialVersion := "v1" |}.
Definition read_content : LeaseRequest :=
  {| installationId := "7"; githubRepositoryIds := ["1"]; capabilities := ["content.read"]; credentialVersion := "v2" |}.

(** Two callers share a mint, a third has its own. *)
Definition two_mints : Manager :=
  resume 1 (resume 0 (mint_settles 0 (mint_answers 60000 0 (Some ("t", "2026-01-01T00:00:00Z"))
    (acquire 0 read_content (acquire 0 read_issue (acquire 0 read_issue no_leases)))))).

Lemma leases_match_their_scope_witness :
  ∃ l, (read_issue, Holds l) ∈ callers two_mints ∧ token l = "t" ∧ length (mints two_mints) = 2%nat ∧
    l_installationId l = "7" ∧ l_credentialVersion l = "v1".
Proof.
  destruct (leases_match_their_scope 60000) with (m := two_mints) as [Hm _].
  - intros s. vm_compute. reflexivity.
  - do 7 (eapply rtc_r; [|constructor]). reflexivity.
  - intros q c Hin. vm_compute in Hin. repeat (apply elem_of_cons in Hin as [[= -> ->]|Hin]; [reflexivity|]).
    by apply not_elem_of_nil in Hin.
  - exists {| token := "t"; expiresAtIso := "2026-01-01T00:00:00Z"; refreshAtMs := 3540000; l_installationId := "7";
      l_scopeDigest := constant_digest ""; l_credentialVersion := "v1" |}.
    assert (Hin : (read_issue, Holds {| token := "t"; expiresAtIso := "2026-01-01T00:00:00Z"; refreshAtMs := 3540000;
      l_installationId := "7"; l_scopeDigest := constant_digest ""; l_credentialVersion := "v1" |}) ∈ callers two_mints)
      by (apply list_elem_of_lookup; exists 0%nat; vm_compute; reflexivity).
    destruct (Hm _ _ Hin) as (Hi & Hc & _). split_and!; [exact Hin|done|by vm_compute|exact Hi|exact Hc].
Defined.

(** Only the clock and [invalidate] end a lease: a lease past its refresh is minted again. *)
Example a_stale_lease_is_minted_again :
  (length (mints (acquire 3539999 read_issue two_mints)), length (mints (acquire 3540000 read_issue two_mints)))
  = (2%nat, 3%nat).
Proof. vm_compute. reflexivity. Qed.
End LeaseExamples.

(** ** What the client sends *)

Section Requests.
Definition ack_context : GitHubRequestContext :=
  {| c_operationId := "github.create-issue-comment"; correlationId := "c"; deadlineMs := None; authorizationDigest := Some "d" |}.

Definition path_sent (owner repo body : string) : option string :=
  match request_of OP_CREATE_ISSUE_COMMENT
    (JObj [("owner", JStr owner); ("repo", JStr repo); ("issue_number", JNum 7); ("body", JStr body)]) ack_context "t" "v" with
  | Returned r => Some (t_path r)
  | Threw _ => None
  end.

(** What is not in the path goes to the query whatever the method: a comment is posted twice, and
    its text is in the URL. *)
Example comment_text_in_url :
  path_sent "octo" "app" "a & b" = Some "/repos/octo/app/issues/7/comments?body=a%20%26%20b".
Proof. vm_compute. reflexivity. Qed.

(** Coding leaves dots, so a segment of two dots goes through. *)
Example dot_segments : path_sent ".." "app" "x" = Some "/repos/../app/issues/7/comments?body=x".
Proof. vm_compute. reflexivity. Qed.

(** Any status the table does not know is a fault of the server. *)
Example unknown_statuses_are_server_errors :
  map errorKind [301; 410; 451; 500] = [SERVER_ERROR; SERVER_ERROR; SERVER_ERROR; SERVER_ERROR].
Proof. vm_compute. reflexivity. Qed.
End Requests.
