(* ===== verification/PolicyDocuments.v ===== *)
(** * Policy documents

    [packages/policy-engine/src/]: diagnostics and the document schema ([schema/]), the decoder
    of untrusted text ([parsing/]), semantic validation ([validation/]), the canonical form
    ([normalization/]), versions ([versioning/]) and the service over them ([service.ts]); and
    the store of versions and heads in [packages/db/src/repositories/policy-approval.ts].

    [JSON.parse] and the YAML library are parameters: a parser gives the value, or its error.
    Of a YAML document the decoder also looks at the nodes, which are modelled.  Strings are
    Latin-1, on which NFC is the identity. *)

From S2P Require Import Prelude JsString Effects JsDate Json Contracts CanonicalJson Schemas.

(** ** Diagnostics *)

(* @src packages/policy-engine/src/schema/diagnostics.ts:10-10 MAX_DIAGNOSTICS *)
Definition MAX_DIAGNOSTICS : Z := 25.

(* @src packages/policy-engine/src/schema/diagnostics.ts:12-17 PolicyDiagnosticCode *)
Inductive PolicyDiagnosticCode :=
  POLICY_SYNTAX_INVALID | POLICY_SCHEMA_INVALID | POLICY_REFERENCE_UNKNOWN | POLICY_CONFLICT
| POLICY_TOO_LARGE.

#[export] Instance PolicyDiagnosticCode_eq_dec : EqDecision PolicyDiagnosticCode.
Proof. solve_decision. Defined.

Definition SourceLocation : Type := option (Z * Z).

(** A message that was cut ends with an ellipsis, a character outside of Latin-1: [cut]. *)
(* @src packages/policy-engine/src/schema/diagnostics.ts:24-29 PolicyDiagnostic *)
Record PolicyDiagnostic := {
  code : PolicyDiagnosticCode;
  path : string;
  message : string;
  cut : bool;
  location : SourceLocation
}.

Definition report : Type := list PolicyDiagnostic.

Definition diagnostic (c : PolicyDiagnosticCode) (p m : string) : PolicyDiagnostic :=
  {| code := c; path := p; message := m; cut := false; location := None |}.

(* @src packages/policy-engine/src/schema/diagnostics.ts:38-47 add *)
Definition add (d : PolicyDiagnostic) (r : report) : report :=
  if MAX_DIAGNOSTICS <=? Z.of_nat (length r) then r
  else r ++ [if 300 <? str_length (message d)
             then {| code := code d; path := path d; message := slice_to 297 (message d); cut := true;
                     location := location d |}
             else d].

(* @src packages/policy-engine/src/schema/diagnostics.ts:49-51 addAll *)
Definition addAll (ds : list PolicyDiagnostic) (r : report) : report := foldl (λ r d, add d r) r ds.

(* @src packages/policy-engine/src/schema/diagnostics.ts:57-59 ok *)
Definition ok (r : report) : bool := match r with [] => true | _ => false end.

(* @src packages/policy-engine/src/schema/diagnostics.ts:61-73 worstCode *)
Definition worstCode (r : report) : PolicyDiagnosticCode :=
  match List.find (λ c, existsb (λ d, bool_decide (code d = c)) r)
          [POLICY_TOO_LARGE; POLICY_SYNTAX_INVALID; POLICY_SCHEMA_INVALID; POLICY_CONFLICT;
           POLICY_REFERENCE_UNKNOWN] with
  | Some c => c
  | None => match r with d :: _ => code d | [] => POLICY_SCHEMA_INVALID end
  end.

(* @src packages/policy-engine/src/schema/diagnostics.ts:77-90 httpStatusFor *)
Definition httpStatusFor (c : PolicyDiagnosticCode) : Z :=
  match c with
  | POLICY_SYNTAX_INVALID => 400
  | POLICY_CONFLICT => 409
  | POLICY_TOO_LARGE => 413
  | POLICY_SCHEMA_INVALID | POLICY_REFERENCE_UNKNOWN => 422
  end.

(** ** Decoding *)

(** A value of a parser.  [ROther] is what JSON does not have, with its [typeof], or
    ["timestamp"] for a date. *)
Inductive raw :=
  | RNull
  | RBool (b : bool)
  | RNum (n : Z)
  | RStr (s : string)
  | RArr (l : list raw)
  | RObj (l : list (string * raw))
  | ROther (kind : string).

Section RawInd.
Context (P : raw → Prop).
Context (Hnull : P RNull) (Hbool : ∀ b, P (RBool b)) (Hnum : ∀ n, P (RNum n))
  (Hstr : ∀ s, P (RStr s)) (Harr : ∀ l, Forall P l → P (RArr l))
  (Hobj : ∀ l, Forall (λ kv, P kv.2) l → P (RObj l)) (Hother : ∀ k, P (ROther k)).

Fixpoint raw_nested_ind (v : raw) : P v :=
  match v with
  | RNull => Hnull
  | RBool b => Hbool b
  | RNum n => Hnum n
  | RStr s => Hstr s
  | RArr l => Harr l ((fix go l : Forall P l :=
      match l with
      | [] => Forall_nil_2 P
      | x :: l => Forall_cons_2 P x l (raw_nested_ind x) (go l)
      end) l)
  | RObj l => Hobj l ((fix go l : Forall (λ kv, P kv.2) l :=
      match l with
      | [] => Forall_nil_2 _
      | x :: l => Forall_cons_2 _ x l (raw_nested_ind x.2) (go l)
      end) l)
  | ROther k => Hother k
  end.
End RawInd.

Module DECODE_LIMITS.
(* @src packages/policy-engine/src/parsing/decoder.ts:20-20 DECODE_LIMITS *)
Definition maxBytes : Z := 256 * 1024.
(* @src packages/policy-engine/src/parsing/decoder.ts:21-21 DECODE_LIMITS *)
Definition maxDepth : Z := 32.
(* @src packages/policy-engine/src/parsing/decoder.ts:22-22 DECODE_LIMITS *)
Definition maxNodes : Z := 8192.
(* @src packages/policy-engine/src/parsing/decoder.ts:23-23 DECODE_LIMITS *)
Definition maxScalarLength : Z := 4096.
(* @src packages/policy-engine/src/parsing/decoder.ts:24-24 DECODE_LIMITS *)
Definition maxCollections : Z := 512.
End DECODE_LIMITS.

(* @src packages/policy-engine/src/parsing/decoder.ts:27-27 DANGEROUS_KEYS *)
Definition DANGEROUS_KEYS : list string := ["__proto__"; "constructor"; "prototype"].

(** The node budget left, and the report. *)
Definition decoder : Type := Z * report.

Definition complain (c : PolicyDiagnosticCode) (p m : string) (s : decoder) : decoder :=
  (s.1, add (diagnostic c p m) s.2).

(** [failed && !report.ok ? undefined : out]. *)
Definition unless_failed {A} (failed : bool) (out : A) (s : decoder) : option A * decoder :=
  (if failed && negb (ok s.2) then None else Some out, s).

(* @src packages/policy-engine/src/parsing/decoder.ts:148-269 #sanitize *)
Fixpoint sanitize (value : raw) (p : string) (depth : Z) (s : decoder) : option json * decoder :=
  let '(budget, r) := s in
  if budget <=? 0 then (None, complain POLICY_TOO_LARGE p "document exceeds 8192 nodes" s) else
  let s := (budget - 1, r) in
  if DECODE_LIMITS.maxDepth <? depth then
    (None, complain POLICY_TOO_LARGE p "nesting deeper than 32" s) else
  match value with
  | RNull => (Some JNull, s)
  | RBool b => (Some (JBool b), s)
  | RNum n => (Some (JNum n), s)
  | RStr t =>
      let normalized := normalize_nfc t in
      if DECODE_LIMITS.maxScalarLength <? str_length normalized
      then (None, complain POLICY_TOO_LARGE p "scalar longer than 4096" s)
      else (Some (JStr normalized), s)
  | RArr l =>
      if DECODE_LIMITS.maxCollections <? Z.of_nat (length l)
      then (None, complain POLICY_TOO_LARGE p "array larger than 512" s)
      else
        let '(out, failed, s) :=
          (fix items (i : Z) (l : list raw) (s : decoder) : list json * bool * decoder :=
             match l with
             | [] => ([], false, s)
             | v :: l =>
                 let '(o, s) := sanitize v (p +s "[" +s num_to_string i +s "]") (depth + 1) s in
                 let '(out, failed, s) := items (i + 1) l s in
                 match o with
                 | Some j => (j :: out, failed, s)
                 | None => (out, true, s)
                 end
             end) 0 l s in
        let '(o, s) := unless_failed failed out s in (JArr <$> o, s)
  | RObj l =>
      if DECODE_LIMITS.maxCollections <? Z.of_nat (length l)
      then (None, complain POLICY_TOO_LARGE p "object larger than 512" s)
      else
        let '(out, failed, s) :=
          (fix members (seen : list string) (l : list (string * raw)) (s : decoder)
             : list (string * json) * bool * decoder :=
             match l with
             | [] => ([], false, s)
             | (k, v) :: l =>
                 if str_in k DANGEROUS_KEYS then
                   let '(out, _, s) := members seen l
                     (complain POLICY_SCHEMA_INVALID (p +s "." +s k) ("key '" +s k +s "' is forbidden") s) in
                   (out, true, s)
                 else if str_in k seen then
                   let '(out, _, s) := members seen l
                     (complain POLICY_SYNTAX_INVALID (p +s "." +s k) ("duplicate key '" +s k +s "'") s) in
                   (out, true, s)
                 else
                   let '(o, s) := sanitize v (p +s "." +s k) (depth + 1) s in
                   let '(out, failed, s) := members (k :: seen) l s in
                   match o with
                   | Some j => ((k, j) :: out, failed, s)
                   | None => (out, true, s)
                   end
             end) [] l s in
        let '(o, s) := unless_failed failed out s in (JObj <$> o, s)
  | ROther kind =>
      (None, complain POLICY_SCHEMA_INVALID p ("unsupported value type '" +s kind +s "'") s)
  end.

(** A YAML node with its anchor and its tag ([""] when absent); of a scalar, the text of its
    value. *)
Inductive node :=
  | Alias
  | Scalar (anchor tag text : string)
  | Map (anchor tag : string) (pairs : list (node * node))
  | Seq (anchor tag : string) (items : list node).

Definition node_tag (n : node) : string :=
  match n with Alias => "" | Scalar _ t _ | Map _ t _ | Seq _ t _ => t end.

Definition tagged (anchor tag : string) : option string :=
  if nonempty anchor || nonempty tag then Some "YAML anchors/tags are forbidden" else None.

Definition or_else (a b : option string) : option string := match a with Some _ => a | None => b end.

(** The first reason to reject, in the order of the visit. *)
(* @src packages/policy-engine/src/parsing/decoder.ts:113-134 #parseYamlSafely *)
Fixpoint hostile (n : node) : option string :=
  match n with
  | Alias => Some "YAML aliases are forbidden"
  | Scalar anchor tag _ => tagged anchor tag
  | Map anchor tag pairs =>
      or_else (tagged anchor tag)
        ((fix each (l : list (node * node)) : option string :=
            match l with
            | [] => None
            | (k, v) :: l =>
                or_else
                  (match k with
                   | Scalar _ _ text => if text =s? "<<" then Some "YAML merge keys are forbidden" else None
                   | _ => None
                   end)
                  (or_else
                     (if nonempty (node_tag k) then Some "YAML anchors/tags are forbidden" else None)
                     (or_else (hostile k) (or_else (hostile v) (each l))))
            end) pairs)
  | Seq anchor tag items =>
      or_else (tagged anchor tag)
        ((fix each (l : list node) : option string :=
            match l with [] => None | v :: l => or_else (hostile v) (each l) end) items)
  end.

(** What [parseDocument] gives: the nodes, its errors and warnings, and the value. *)
Record YamlDocument := {
  contents : node;
  errors : list (string * SourceLocation);
  warnings : list string;
  toJS : raw
}.

(** The parsers; an error has a message and perhaps a place. *)
Class PolicyParsers := {
  parse_json : string → raw + string * SourceLocation;
  parse_yaml : string → YamlDocument;
}.

Inductive format := yaml | json_.

#[export] Instance format_eq_dec : EqDecision format.
Proof. solve_decision. Defined.

(** A text, or bytes: their number, and what the strict UTF-8 decoder makes of them. *)
Inductive PolicySource :=
  | Text (s : string)
  | Bytes (byteLength : Z) (decoded : option string).

(* @src packages/policy-engine/src/parsing/decoder.ts:279-286 isPlainValue *)
Definition isPlainValue (v : raw) : bool :=
  match v with
  | RNull => false
  | ROther k => str_in k ["undefined"; "timestamp"; "object"]
  | _ => true
  end.

Section Decoder.
Context `{PolicyParsers}.

(* @src packages/policy-engine/src/parsing/decoder.ts:111-145 #parseYamlSafely *)
Definition parseYamlSafely (text : string) : raw + string * SourceLocation :=
  let doc := parse_yaml text in
  match hostile (contents doc) with
  | Some reason => inr (reason, None)
  | None =>
      match errors doc with
      | e :: _ => inr e
      | [] =>
          match warnings doc with
          | w :: _ => inr ("unresolved or non-core YAML features: " +s w, None)
          | [] => inl (toJS doc)
          end
      end
  end.

(** [/^\s*[{}[]/.test(text)]. *)
Definition looks_like_json (text : string) : bool :=
  match trimStart text with String c _ => char_in "{}[" c | EmptyString => false end.

Definition too_large : PolicyDiagnostic := diagnostic POLICY_TOO_LARGE "" "policy exceeds 262144 bytes".

(* @src packages/policy-engine/src/parsing/decoder.ts:74-76 decode *)
Definition parse_text (text : string) (hint : option format) : raw + string * SourceLocation :=
  let isJson := bool_decide (hint = Some json_) ||
                (negb (bool_decide (hint = Some yaml)) && looks_like_json text) in
  if isJson then parse_json text else parseYamlSafely text.

(* @src packages/policy-engine/src/parsing/decoder.ts:66-98 decode *)
Definition decode_text (text : string) (hint : option format) (r : report) : option json * report :=
  if DECODE_LIMITS.maxBytes <? utf8_length text then (None, add too_large r) else
  match parse_text text hint with
  | inr (m, loc) =>
      (None, add {| code := POLICY_SYNTAX_INVALID; path := ""; message := m; cut := false;
                    location := loc |} r)
  | inl v =>
      if negb (isPlainValue v) then
        (None, add (diagnostic POLICY_SCHEMA_INVALID "" "document root must be an object") r)
      else
        let '(o, (_, r)) := sanitize v "$" 0 (DECODE_LIMITS.maxNodes, r) in (o, r)
  end.

(* @src packages/policy-engine/src/parsing/decoder.ts:47-99 decode *)
Definition decode (source : PolicySource) (hint : option format) (r : report) : option json * report :=
  match source with
  | Text text => decode_text text hint r
  | Bytes n decoded =>
      if DECODE_LIMITS.maxBytes <? n then (None, add too_large r) else
      match decoded with
      | None => (None, add (diagnostic POLICY_SYNTAX_INVALID "" "invalid UTF-8") r)
      | Some text => decode_text text hint r
      end
  end.
End Decoder.

(** ** The document schema

    The checks of the zod schema, which gives the record or rejects the value. *)

(* @src packages/policy-engine/src/schema/policy-v1.ts:13-17 POLICY_LIMIT_DEFAULTS *)
Definition POLICY_LIMIT_DEFAULTS : Z * Z * Z := (25, 6, 20).

(* @src packages/policy-engine/src/schema/policy-v1.ts:20-24 POLICY_LIMIT_GLOBAL_CAPS *)
Definition POLICY_LIMIT_GLOBAL_CAPS : Z * Z * Z := (200, 30, 240).

(* @src packages/policy-engine/src/schema/policy-v1.ts:84-84 RepositoryPolicyV1 *)
Record RepositoryPolicyV1 := {
  owner : string;
  name : string;
  level : AutonomyLevel;
  triggers : list (string * list string);
  manualCommands : list string;
  allow : list string;
  requireApproval : list string;
  deny : list string;
  obligations : list string;
  maxFilesChanged : option Z;
  maxIterations : option Z;
  maxRuntimeMinutes : option Z
}.

Definition p_positive (j : json) : option (option Z) :=
  match j with JNum n => if 1 <=? n then Some (Some n) else None | _ => None end.

(** [/^[A-Za-z0-9][A-Za-z0-9._-]*$/] of 1 to 128 characters. *)
(* @src packages/policy-engine/src/schema/policy-v1.ts:26-30 ownerName *)
Definition ownerName (s : string) : bool :=
  len_between 1 128 s &&
  match s with
  | String c rest => is_alnum c && all_chars (λ c, is_alnum c || char_in "._-" c) rest
  | EmptyString => false
  end.

Definition p_level (j : json) : option AutonomyLevel :=
  match j with
  | JStr s => List.find (λ l, level_name l =s? s) [assist; developer; trusted; autonomous]
  | _ => None
  end.

Definition p_actions : json → option (list string) := p_array 64 (p_string (λ s, str_in s ActionType)).
Definition p_ids : json → option (list string) := p_array 64 (p_string (len_between 1 64)).

Definition p_triggers (j : json) : option (list (string * list string)) :=
  match j with
  | JObj l => mapM (λ kv, if len_between 1 64 kv.1 then pair kv.1 <$> p_ids kv.2 else None) l
  | _ => None
  end.

(* @src packages/policy-engine/src/schema/policy-v1.ts:48-81 repositoryPolicyV1 *)
Definition repositoryPolicyV1 (j : json) : option RepositoryPolicyV1 :=
  d ← p_strict ["schemaVersion"; "repository"; "autonomy"; "triggers"; "manualCommands"; "actions";
                "validation"; "limits"] j;
  v ← assoc "schemaVersion" d;
  _ ← match v with JNum 1 => Some () | _ => None end;
  r ← assoc "repository" d ≫= p_strict ["owner"; "name"];
  o ← assoc "owner" r ≫= p_string ownerName;
  n ← assoc "name" r ≫= p_string ownerName;
  a ← assoc "autonomy" d ≫= p_strict ["level"];
  l ← assoc "level" a ≫= p_level;
  t ← with_default p_triggers [] (assoc "triggers" d);
  m ← with_default p_ids [] (assoc "manualCommands" d);
  acts ← with_default (p_strict ["allow"; "requireApproval"; "deny"]) [] (assoc "actions" d);
  al ← with_default p_actions [] (assoc "allow" acts);
  ra ← with_default p_actions [] (assoc "requireApproval" acts);
  dn ← with_default p_actions [] (assoc "deny" acts);
  v ← with_default (p_strict ["obligations"]) [] (assoc "validation" d);
  ob ← with_default (p_array 32 (p_string (len_between 1 128))) [] (assoc "obligations" v);
  lim ← with_default (p_strict ["maxFilesChanged"; "maxIterations"; "maxRuntimeMinutes"]) []
          (assoc "limits" d);
  f ← with_default p_positive None (assoc "maxFilesChanged" lim);
  i ← with_default p_positive None (assoc "maxIterations" lim);
  rt ← with_default p_positive None (assoc "maxRuntimeMinutes" lim);
  Some {| owner := o; name := n; level := l; triggers := t; manualCommands := m; allow := al;
          requireApproval := ra; deny := dn; obligations := ob; maxFilesChanged := f;
          maxIterations := i; maxRuntimeMinutes := rt |}.

(** ** Semantic validation *)

(* @src packages/policy-engine/src/validation/semantic.ts:17-24 RegistryLookups *)
Record RegistryLookups := {
  knownActions : list string;
  knownWorkflows : list string;
  knownObligations : list string
}.

(* @src packages/policy-engine/src/validation/semantic.ts:33-37 EMPTY_REGISTRIES *)
Definition EMPTY_REGISTRIES : RegistryLookups :=
  {| knownActions := []; knownWorkflows := []; knownObligations := [] |}.

(* @src packages/policy-engine/src/validation/semantic.ts:26-30 SemanticContext *)
Record SemanticContext := {
  expectedOwner : option string;
  expectedName : option string;
  registries : RegistryLookups
}.

(** The group of an action seen before, and the report. *)
Definition group_action (g : string) (s : list (string * string) * report) (action : string)
  : list (string * string) * report :=
  let '(seen, r) := s in
  match assoc action seen with
  | Some g' =>
      (seen, if g' =s? g then r
             else add (diagnostic POLICY_CONFLICT ("actions." +s g)
                        ("action '" +s action +s "' appears in both '" +s g' +s "' and '" +s g +s
                         "'; arrays must be disjoint")) r)
  | None => (set_key action g seen, r)
  end.

(* @src packages/policy-engine/src/validation/semantic.ts:52-71 validateDisjointActions *)
Definition validateDisjointActions (p : RepositoryPolicyV1) (r : report) : report :=
  (foldl (λ s '(g, actions), foldl (group_action g) s actions) ([], r)
    [("allow", allow p); ("requireApproval", requireApproval p); ("deny", deny p)]).2.

Definition limit_within (r : report) (x : string * option Z * Z) : report :=
  let '(key, value, cap) := x in
  match value with
  | Some v =>
      if cap <? v then
        add (diagnostic POLICY_CONFLICT ("limits." +s key)
              ("limit " +s num_to_string v +s " exceeds global cap " +s num_to_string cap)) r
      else r
  | None => r
  end.

(* @src packages/policy-engine/src/validation/semantic.ts:73-89 validateLimitsWithinCaps *)
Definition validateLimitsWithinCaps (p : RepositoryPolicyV1) (r : report) : report :=
  foldl limit_within r
    [("maxFilesChanged", maxFilesChanged p, 200); ("maxIterations", maxIterations p, 30);
     ("maxRuntimeMinutes", maxRuntimeMinutes p, 240)].

(* @src packages/policy-engine/src/validation/semantic.ts:91-118 validateRepositoryMatch *)
Definition validateRepositoryMatch (p : RepositoryPolicyV1) (c : SemanticContext) (r : report) : report :=
  match expectedOwner c, expectedName c with
  | None, Some _ | Some _, None =>
      add (diagnostic POLICY_CONFLICT "repository"
             "expected repository owner and name must be provided together") r
  | Some o, Some n =>
      if (toLowerCase (owner p) =s? toLowerCase o) && (toLowerCase (name p) =s? toLowerCase n) then r
      else add (diagnostic POLICY_CONFLICT "repository"
                 ("policy targets " +s owner p +s "/" +s name p +s ", but is bound to " +s o +s "/" +s n +s
                  "; retargeting is forbidden")) r
  | None, None => r
  end.

(* @src packages/policy-engine/src/validation/semantic.ts:121-121 TRIGGER_KINDS *)
Definition TRIGGER_KINDS : list string := ["manual"; "webhook"; "api"].

(** One reference that must be among the known ones. *)
Definition refer (known : list string) (p what : string) (r : report) (x : string) : report :=
  if str_in x known then r
  else add (diagnostic POLICY_REFERENCE_UNKNOWN p ("unknown " +s what +s " '" +s x +s "'")) r.

Definition refer_trigger (known : list string) (r : report) (t : string * list string) : report :=
  let r := if str_in t.1 TRIGGER_KINDS then r
           else add (diagnostic POLICY_REFERENCE_UNKNOWN "triggers"
                      ("unknown trigger kind '" +s t.1 +s "' (expected manual|webhook|api)")) r in
  foldl (refer known ("triggers." +s t.1) "workflow id") r t.2.

(* @src packages/policy-engine/src/validation/semantic.ts:123-177 validateReferences *)
Definition validateReferences (p : RepositoryPolicyV1) (c : SemanticContext) (r : report) : report :=
  let known := registries c in
  let r := foldl (refer (knownActions known) "actions" "action") r (allow p ++ requireApproval p ++ deny p) in
  let r := foldl (refer_trigger (knownWorkflows known)) r (triggers p) in
  let r := foldl (refer (knownWorkflows known) "manualCommands" "workflow id") r (manualCommands p) in
  foldl (refer (knownObligations known) "validation.obligations" "validation obligation") r (obligations p).

(* @src packages/policy-engine/src/validation/semantic.ts:41-50 validateSemantics *)
Definition validateSemantics (p : RepositoryPolicyV1) (c : SemanticContext) (r : report) : report :=
  validateReferences p c (validateRepositoryMatch p c (validateLimitsWithinCaps p (validateDisjointActions p r))).

(** ** The canonical form *)

(* @src packages/policy-engine/src/normalization/canonical.ts:23-27 sortedUnique *)
Definition sortedUnique (values : list string) : list string :=
  js_sort code_unit_compare (dedup (map normalize_nfc values)).

(* @src packages/policy-engine/src/schema/policy-v1.ts:87-101 CanonicalPolicyDocument *)
Record CanonicalPolicyDocument := {
  d_owner : string;
  d_name : string;
  d_level : AutonomyLevel;
  d_triggers : list (string * list string);
  d_manualCommands : list string;
  d_allow : list string;
  d_requireApproval : list string;
  d_deny : list string;
  d_obligations : list string;
  d_limits : Z * Z * Z
}.

(* @src packages/policy-engine/src/normalization/canonical.ts:65-82 effectiveLimits *)
Definition effectiveLimits (p : RepositoryPolicyV1) : Z * Z * Z :=
  let '(f, i, t) := POLICY_LIMIT_DEFAULTS in
  let '(cf, ci, ct) := POLICY_LIMIT_GLOBAL_CAPS in
  (Z.min (maxFilesChanged p ?? f) cf, Z.min (maxIterations p ?? i) ci, Z.min (maxRuntimeMinutes p ?? t) ct).

(* @src packages/policy-engine/src/normalization/canonical.ts:89-114 normalizePolicyV1 *)
Definition normalizePolicyV1 (p : RepositoryPolicyV1) : CanonicalPolicyDocument := {|
  d_owner := toLowerCase (owner p);
  d_name := toLowerCase (name p);
  d_level := level p;
  d_triggers := map (λ '(t, ws), (t, sortedUnique ws)) (triggers p);
  d_manualCommands := sortedUnique (manualCommands p);
  d_allow := sortedUnique (allow p);
  d_requireApproval := sortedUnique (requireApproval p);
  d_deny := sortedUnique (deny p);
  d_obligations := sortedUnique (obligations p);
  d_limits := effectiveLimits p
|}.

Definition strings (l : list string) : json := JArr (map JStr l).

(** The document as the object the code builds. *)
Definition document_json (d : CanonicalPolicyDocument) : json :=
  let '(f, i, t) := d_limits d in
  JObj [("schemaVersion", JNum 1);
        ("repository", JObj [("owner", JStr (d_owner d)); ("name", JStr (d_name d))]);
        ("autonomy", JObj [("level", JStr (level_name (d_level d)))]);
        ("triggers", JObj (map (λ '(k, ws), (k, strings ws)) (d_triggers d)));
        ("manualCommands", strings (d_manualCommands d));
        ("actions", JObj [("allow", strings (d_allow d)); ("requireApproval", strings (d_requireApproval d));
                          ("deny", strings (d_deny d))]);
        ("validation", JObj [("obligations", strings (d_obligations d))]);
        ("limits", JObj [("maxFilesChanged", JNum f); ("maxIterations", JNum i);
                         ("maxRuntimeMinutes", JNum t)])].

(** Objects with their keys in order.  (A key that is an array index would come first, as an
    object lists it; trigger kinds, the only keys a document chooses, are none once validated.) *)
(* @src packages/policy-engine/src/normalization/canonical.ts:38-49 sortedDeep *)
Definition sortedDeep : json → json := sort_keys.

(* @src packages/policy-engine/src/normalization/canonical.ts:55-57 canonicalJson *)
Definition canonicalJson (d : CanonicalPolicyDocument) : string := stringify (sortedDeep (document_json d)).

(* @src packages/policy-engine/src/normalization/canonical.ts:60-62 canonicalHash *)
Definition canonicalHash `{Digest} (d : CanonicalPolicyDocument) : string := sha256 (canonicalJson d).

(** A text that does not parse makes the check throw. *)
(* @src packages/policy-engine/src/normalization/canonical.ts:117-122 canonicalizationIsStable *)
Definition canonicalizationIsStable `{JsonParse} (d : CanonicalPolicyDocument) : option bool :=
  let once := canonicalJson d in
  reparsed ← json_parse once ≫= repositoryPolicyV1;
  Some (once =s? canonicalJson (normalizePolicyV1 reparsed)).

(** ** The pipeline *)

Section Pipeline.
Context `{PolicyParsers}.
(** The text of the first issue zod reports. *)
Context (firstIssueMessage : json → string).

(* @src packages/policy-engine/src/service.ts:143-170 #runPipeline *)
Definition runPipeline (source : PolicySource) (hint : option format) (c : SemanticContext)
  : CanonicalPolicyDocument + report :=
  match decode source hint [] with
  | (None, r) => inr r
  | (Some value, r) =>
      match repositoryPolicyV1 value with
      | None => inr (add (diagnostic POLICY_SCHEMA_INVALID "" (firstIssueMessage value)) r)
      | Some parsed =>
          let r := validateSemantics parsed c r in
          if ok r then inl (normalizePolicyV1 parsed) else inr r
      end
  end.

(* @src packages/policy-engine/src/service.ts:37-48 ValidatePolicyResult *)
Record ValidatePolicyResult := {
  vr_ok : bool;
  vr_diagnostics : report;
  vr_canonical : option (string * string * (Z * Z * Z) * Z)
}.

(* @src packages/policy-engine/src/service.ts:68-89 validate *)
Definition validate `{Digest} (source : PolicySource) (hint : option format) (c : SemanticContext)
  : ValidatePolicyResult :=
  match runPipeline source hint c with
  | inr r => {| vr_ok := false; vr_diagnostics := r; vr_canonical := None |}
  | inl d => {| vr_ok := true; vr_diagnostics := [];
                vr_canonical := Some (canonicalJson d, canonicalHash d, d_limits d,
                  Z.of_nat (length (d_allow d) + length (d_requireApproval d) + length (d_deny d))) |}
  end.
End Pipeline.

(** ** Reports only grow by [add] *)

Section AddClosed.
Context (I : report → Prop) (Hadd : ∀ d r, I r → I (add d r)).

Lemma foldl_closed {A} (f : report → A → report) l r :
  (∀ r x, I r → I (f r x)) → I r → I (foldl f r l).
Proof. intros Hf. revert r. induction l as [|x l IH]; intros r Hr; simpl; auto. Qed.

Lemma refer_closed known q what r x : I r → I (refer known q what r x).
Proof. intros Hr. unfold refer. destruct (str_in x known); auto. Qed.

Lemma refer_trigger_closed known r t : I r → I (refer_trigger known r t).
Proof.
  intros Hr. unfold refer_trigger. apply foldl_closed; [auto using refer_closed|].
  destruct (str_in t.1 TRIGGER_KINDS); auto.
Qed.

Lemma references_closed p c r : I r → I (validateReferences p c r).
Proof.
  intros Hr. unfold validateReferences. cbv zeta.
  repeat (apply foldl_closed; [auto using refer_closed, refer_trigger_closed|]). done.
Qed.

Lemma match_closed p c r : I r → I (validateRepositoryMatch p c r).
Proof.
  intros Hr. unfold validateRepositoryMatch.
  destruct (expectedOwner c) as [o|], (expectedName c) as [n|]; auto. destruct (_ && _); auto.
Qed.

Lemma limits_closed p r : I r → I (validateLimitsWithinCaps p r).
Proof.
  intros Hr. apply foldl_closed; [|done]. intros r' [[k [v|]] cap] Hr'; simpl; [|done].
  destruct (cap <? v); auto.
Qed.

Lemma group_closed g seen r action : I r → I (group_action g (seen, r) action).2.
Proof. intros Hr. unfold group_action. destruct (assoc action seen); simpl; [case_match|]; auto. Qed.

Lemma groups_closed g actions s : I s.2 → I (foldl (group_action g) s actions).2.
Proof.
  revert s. induction actions as [|a l IH]; intros [seen r] Hs; simpl; [done|].
  apply IH. by apply group_closed.
Qed.

Lemma disjoint_closed p r : I r → I (validateDisjointActions p r).
Proof. intros Hr. unfold validateDisjointActions. simpl. by repeat apply groups_closed. Qed.

Lemma semantics_closed p c r : I r → I (validateSemantics p c r).
Proof. intros Hr. by apply references_closed, match_closed, limits_closed, disjoint_closed. Qed.

(** The loops of [sanitize], named. *)
Lemma sanitize_closed v p depth s : I s.2 → I (sanitize v p depth s).2.2.
Proof.
  revert p depth s. induction v as [| | | |l IH|l IH|] using raw_nested_ind; intros p depth [budget r] Hs;
    cbn [sanitize]; (destruct (budget <=? 0); [by apply Hadd|]);
    (destruct (DECODE_LIMITS.maxDepth <? depth); [by apply Hadd|]); try done.
  - destruct (_ <? str_length _); [by apply Hadd|done].
  - destruct (_ <? Z.of_nat _); [by apply Hadd|].
    match goal with |- context [?f 0 l (budget - 1, r)] => set (items := f) end.
    assert (Hl : ∀ i s, I s.2 → I (items i l s).2.2).
    { clear budget r Hs. induction IH as [|x l Hx _ IHl]; intros i s Hs; [done|]. cbn [items].
      specialize (Hx (p +s "[" +s num_to_string i +s "]") (depth + 1) s Hs).
      destruct (sanitize x _ _ s) as [o s1]. specialize (IHl (i + 1) s1 Hx). cbn [snd] in *.
      fold items. destruct (items (i + 1) l s1) as [[out f] s2]. by destruct o. }
    specialize (Hl 0 (budget - 1, r) Hs). destruct (items 0 l (budget - 1, r)) as [[out f] s2]. exact Hl.
  - destruct (_ <? Z.of_nat _); [by apply Hadd|].
    match goal with |- context [?f [] l (budget - 1, r)] => set (members := f) end.
    assert (Hl : ∀ seen s, I s.2 → I (members seen l s).2.2).
    { clear budget r Hs. induction IH as [|[k x] l Hx _ IHl]; intros seen s Hs; [done|]. cbn [members].
      fold members. cbn [snd] in Hx.
      assert (Hc : ∀ c q m, I (complain c q m s).2) by (intros; by apply Hadd).
      destruct (str_in k DANGEROUS_KEYS); [|destruct (str_in k seen)].
      { specialize (IHl seen _ (Hc POLICY_SCHEMA_INVALID (p +s "." +s k) ("key '" +s k +s "' is forbidden"))).
        by destruct (members seen l _) as [[out f] s2]. }
      { specialize (IHl seen _ (Hc POLICY_SYNTAX_INVALID (p +s "." +s k) ("duplicate key '" +s k +s "'"))).
        by destruct (members seen l _) as [[out f] s2]. }
      specialize (Hx (p +s "." +s k) (depth + 1) s Hs). destruct (sanitize x _ _ s) as [o s1].
      specialize (IHl (k :: seen) s1 Hx). destruct (members (k :: seen) l s1) as [[out f] s2].
      by destruct o. }
    specialize (Hl [] (budget - 1, r) Hs). destruct (members [] l (budget - 1, r)) as [[out f] s2]. exact Hl.
  - by apply Hadd.
Qed.

Lemma decode_text_closed `{PolicyParsers} text hint r : I r → I (decode_text text hint r).2.
Proof.
  intros Hr. unfold decode_text. destruct (_ <? utf8_length text); [by apply Hadd|].
  destruct (parse_text text hint) as [v|[m loc]]; [|by apply Hadd].
  destruct (negb (isPlainValue v)); [by apply Hadd|].
  pose proof (sanitize_closed v "$" 0 (DECODE_LIMITS.maxNodes, r) Hr) as Hs.
  by destruct (sanitize v "$" 0 (DECODE_LIMITS.maxNodes, r)) as [o [b' r']].
Qed.

Lemma decode_closed `{PolicyParsers} source hint r : I r → I (decode source hint r).2.
Proof.
  intros Hr. unfold decode. destruct source as [text|n decoded]; [by apply decode_text_closed|].
  destruct (DECODE_LIMITS.maxBytes <? n); [by apply Hadd|]. destruct decoded; [by apply decode_text_closed|by apply Hadd].
Qed.
End AddClosed.

(** A diagnostic is never taken back, and the first one is always kept. *)
Lemma add_not_ok d r : ok (add d r) = false.
Proof.
  unfold add. destruct (MAX_DIAGNOSTICS <=? _) eqn:Hl; [|by destruct r].
  destruct r; [done|done].
Qed.

Lemma not_ok_add d r : ok r = false → ok (add d r) = false.
Proof. intros _. apply add_not_ok. Qed.

(** ** What a decoded document can be *)

(** Within the limits at a depth: short strings, small collections, distinct and safe keys. *)
Inductive tame : Z → json → Prop :=
  | tame_null d : d ≤ 32 → tame d JNull
  | tame_bool d b : d ≤ 32 → tame d (JBool b)
  | tame_num d n : d ≤ 32 → tame d (JNum n)
  | tame_str d s : d ≤ 32 → str_length s ≤ 4096 → tame d (JStr s)
  | tame_arr d l : d ≤ 32 → (length l ≤ 512)%nat → Forall (tame (d + 1)) l → tame d (JArr l)
  | tame_obj d l : d ≤ 32 → (length l ≤ 512)%nat → NoDup l.*1 →
      Forall (λ kv, kv.1 ∉ DANGEROUS_KEYS) l → Forall (λ kv, tame (d + 1) kv.2) l → tame d (JObj l).

Definition total_nodes (f : json → Z) (l : list json) : Z := foldr (λ j n, f j + n) 0 l.

Fixpoint nodes (j : json) : Z :=
  match j with
  | JArr l => 1 + foldr (λ j n, nodes j + n) 0 l
  | JObj l => 1 + foldr (λ kv n, nodes kv.2 + n) 0 l
  | _ => 1
  end.

Lemma tame_distinct d j : tame d j → distinct_keys j.
Proof.
  revert d. induction j as [| | | |l IH|l IH] using json_nested_ind; intros d Hj; inversion Hj; subst;
    constructor; try done.
  - match goal with H : Forall _ l |- _ => revert IH H end. clear. intros IH Hl.
    induction IH as [|x l Hx _ IHl]; inversion Hl; subst; constructor; eauto.
  - match goal with H : Forall (λ kv, tame _ kv.2) l |- _ => revert IH H end. clear. intros IH Hl.
    induction IH as [|x l Hx _ IHl]; inversion Hl; subst; constructor; eauto.
Qed.

(** The outcome of a part of the sanitiser: the budget only shrinks, a diagnostic stays, and a
    failure left one. *)
Definition fair (b : Z) (r : report) (failed : bool) (s : decoder) : Prop :=
  0 ≤ s.1 ≤ b ∧ (ok r = false → ok s.2 = false) ∧ (failed = true → ok s.2 = false).

Lemma sanitize_tame v p depth b r : 0 ≤ b →
  let '(o, s) := sanitize v p depth (b, r) in
  fair b r (match o with Some _ => false | None => true end) s ∧
  match o with Some j => tame depth j ∧ nodes j ≤ b - s.1 | None => True end.
Proof.
  assert (Hstop : ∀ b b' r c q m, 0 ≤ b' ≤ b → fair b r true (complain c q m (b', r))).
  { intros. split; [done|]. split; intros; apply add_not_ok. }
  assert (Hgo : ∀ b b' r, 0 ≤ b' ≤ b → fair b r false (b', r)).
  { intros. split; [done|]. by split. }
  revert p depth b r. induction v as [| | | |l IH|l IH|] using raw_nested_ind; intros p depth budget r Hb;
    cbn [sanitize]; (destruct (budget <=? 0) eqn:E0; breflect; [by split; [apply Hstop; lia|]|]);
    (destruct (DECODE_LIMITS.maxDepth <? depth) eqn:E1; [by split; [apply Hstop; lia|]|]);
    unfold DECODE_LIMITS.maxDepth, DECODE_LIMITS.maxCollections, DECODE_LIMITS.maxScalarLength in *;
    breflect.
  1-3: split; [apply Hgo; lia|]; split; [constructor; lia|simpl; lia].
  - destruct (4096 <? _) eqn:E; breflect; [by split; [apply Hstop; lia|]|].
    split; [apply Hgo; lia|]. split; [by constructor|simpl; lia].
  - destruct (512 <? _) eqn:E; breflect; [by split; [apply Hstop; lia|]|].
    match goal with |- context [?f 0 l (budget - 1, r)] => set (items := f) end.
    assert (Hl : ∀ i b r, 0 ≤ b → let '(out, failed, s) := items i l (b, r) in
              fair b r failed s ∧ Forall (tame (depth + 1)) out ∧ (length out ≤ length l)%nat ∧
              foldr (λ j n, nodes j + n) 0 out ≤ b - s.1).
    { clear -IH Hgo. induction IH as [|x l Hx _ IHl]; intros i b r Hb; [by split_and!; [apply Hgo; lia|..|simpl; lia]|].
      cbn [items]. specialize (Hx (p +s "[" +s num_to_string i +s "]") (depth + 1) b r Hb).
      destruct (sanitize x _ _ (b, r)) as [o [b1 r1]]. destruct Hx as ((Hb1 & Hr1 & Hf1) & Hx). fold items.
      cbn [fst snd] in *. specialize (IHl (i + 1) b1 r1). destruct (items (i + 1) l (b1, r1)) as [[out f] [b2 r2]].
      destruct IHl as ((Hb2 & Hr2 & Hf2) & Hout & Hlen & Hn); [lia|]. cbn [fst snd] in *.
      unfold fair. cbn [fst snd]. destruct o as [j|].
      - destruct Hx as [Hj Hnj]. cbn [length foldr fst snd]. split_and!; [lia|lia|auto|auto|by constructor|lia|lia].
      - cbn [length fst snd]. split_and!; [lia|lia|auto|auto|done|lia|lia]. }
    specialize (Hl 0 (budget - 1) r). destruct (items 0 l (budget - 1, r)) as [[out f] [b2 r2]].
    destruct Hl as ((Hb2 & Hr2 & Hf2) & Hout & Hlen & Hn); [lia|]. cbn [fst snd] in *.
    unfold unless_failed, fair. cbn [fst snd]. destruct (f && negb (ok r2)) eqn:Ef; cbn [fmap option_fmap option_map fst snd].
    + breflect. split; [|done]. split_and!; [lia|lia|auto|auto].
    + split; [|split].
      * split_and!; [lia|lia|auto|done].
      * constructor; [lia|lia|done].
      * cbn [nodes]. lia.
  - destruct (512 <? _) eqn:E; breflect; [by split; [apply Hstop; lia|]|].
    match goal with |- context [?f [] l (budget - 1, r)] => set (members := f) end.
    assert (Hl : ∀ seen b r, 0 ≤ b → let '(out, failed, s) := members seen l (b, r) in
              fair b r failed s ∧ Forall (λ kv, kv.1 ∉ DANGEROUS_KEYS) out ∧
              Forall (λ kv, tame (depth + 1) kv.2) out ∧ NoDup out.*1 ∧ Forall (λ kv, kv.1 ∉ seen) out ∧
              (length out ≤ length l)%nat ∧ foldr (λ kv n, nodes kv.2 + n) 0 out ≤ b - s.1).
    { clear -IH Hgo.
      induction IH as [|[k x] l Hx _ IHl]; intros seen b r Hb;
        [split_and!; first [by apply Hgo; lia|constructor|simpl; lia]|].
      cbn [members]. fold members.
      assert (Hskip : ∀ c q m, let '(out, failed, s) := members seen l (complain c q m (b, r)) in
        fair b r true s ∧ Forall (λ kv, kv.1 ∉ DANGEROUS_KEYS) out ∧
        Forall (λ kv, tame (depth + 1) kv.2) out ∧ NoDup out.*1 ∧ Forall (λ kv, kv.1 ∉ seen) out ∧
        (length out ≤ S (length l))%nat ∧ foldr (λ kv n, nodes kv.2 + n) 0 out ≤ b - s.1).
      { intros c q m. specialize (IHl seen b (add (diagnostic c q m) r) Hb). unfold complain. cbn [fst snd].
        destruct (members seen l _) as [[out f] [b2 r2]].
        destruct IHl as ((Hb2 & Hr2 & Hf2) & Hs & Ht & Hnd & Hns & Hlen & Hn).
        unfold fair. cbn [fst snd] in *. split_and!; auto; try lia; intros; apply Hr2, add_not_ok. }
      destruct (str_in k DANGEROUS_KEYS) eqn:Hk; [|destruct (str_in k seen) eqn:Hk'].
      { specialize (Hskip POLICY_SCHEMA_INVALID (p +s "." +s k) ("key '" +s k +s "' is forbidden")).
        destruct (members seen l _) as [[out f] s2]. exact Hskip. }
      { specialize (Hskip POLICY_SYNTAX_INVALID (p +s "." +s k) ("duplicate key '" +s k +s "'")).
        destruct (members seen l _) as [[out f] s2]. exact Hskip. }
      apply str_in_false in Hk, Hk'. cbn [snd] in Hx. specialize (Hx (p +s "." +s k) (depth + 1) b r Hb).
      destruct (sanitize x _ _ (b, r)) as [o [b1 r1]]. destruct Hx as ((Hb1 & Hr1 & Hf1) & Hx).
      cbn [fst snd] in *. specialize (IHl (k :: seen) b1 r1).
      destruct (members (k :: seen) l (b1, r1)) as [[out f] [b2 r2]].
      destruct IHl as ((Hb2 & Hr2 & Hf2) & Hs & Ht & Hnd & Hns & Hlen & Hn); [lia|]. cbn [fst snd] in *.
      assert (Hns' : Forall (λ kv, kv.1 ∉ seen) out ∧ k ∉ out.*1).
      { split.
        - eapply Forall_impl; [exact Hns|]. intros kv Hkv. set_solver.
        - intros (kv & Heq & Hin)%list_elem_of_fmap. rewrite Forall_forall in Hns. specialize (Hns _ Hin).
          subst. set_solver. }
      destruct Hns' as [Hns' Hko]. unfold fair. cbn [fst snd]. destruct o as [j|].
      - destruct Hx as [Hj Hnj]. cbn [length foldr fst snd]. rewrite fmap_cons. cbn [fst snd].
        split_and!; try lia; auto; constructor; done.
      - cbn [length fst snd]. split_and!; auto; lia. }
    specialize (Hl [] (budget - 1) r). destruct (members [] l (budget - 1, r)) as [[out f] [b2 r2]].
    destruct Hl as ((Hb2 & Hr2 & Hf2) & Hs & Ht & Hnd & _ & Hlen & Hn); [lia|]. cbn [fst snd] in *.
    unfold unless_failed, fair. cbn [fst snd]. destruct (f && negb (ok r2)) eqn:Ef; cbn [fmap option_fmap option_map fst snd].
    + breflect. split; [|done]. split_and!; [lia|lia|auto|auto].
    + split; [|split].
      * split_and!; [lia|lia|auto|done].
      * constructor; [lia|lia|done..].
      * cbn [nodes]. lia.
  - split; [apply Hstop; lia|done].
Qed.

Lemma decode_tame `{PolicyParsers} source hint r j r' :
  decode source hint r = (Some j, r') → tame 0 j ∧ nodes j ≤ 8192.
Proof.
  assert (Htext : ∀ text, decode_text text hint r = (Some j, r') → tame 0 j ∧ nodes j ≤ 8192).
  { intros text. unfold decode_text. destruct (DECODE_LIMITS.maxBytes <? _); [done|].
    destruct (parse_text text hint) as [v|[m loc]]; [|done].
    destruct (negb (isPlainValue v)); [done|].
    pose proof (sanitize_tame v "$" 0 DECODE_LIMITS.maxNodes r) as Hs.
    destruct (sanitize v "$" 0 _) as [o [b2 r2]]. intros [= -> ->].
    destruct Hs as [((Hb & _) & _) [Hj Hn]]; [done|]. cbn [fst] in *. unfold DECODE_LIMITS.maxNodes in *.
    split; [done|lia]. }
  destruct source as [text|n decoded]; cbn [decode]; [apply Htext|].
  destruct (DECODE_LIMITS.maxBytes <? n); [done|]. destruct decoded as [text|]; [apply Htext|done].
Qed.

(** The value of a parser as JSON, its texts normalised and no limits imposed; nothing if a part of
    it is not JSON. *)
Fixpoint converted (v : raw) : option json :=
  match v with
  | RNull => Some JNull
  | RBool b => Some (JBool b)
  | RNum n => Some (JNum n)
  | RStr t => Some (JStr (normalize_nfc t))
  | RArr l => JArr <$> (fix go (l : list raw) : option (list json) :=
      match l with
      | [] => Some []
      | x :: l => j ← converted x; js ← go l; Some (j :: js)
      end) l
  | RObj l => JObj <$> (fix go (l : list (string * raw)) : option (list (string * json)) :=
      match l with
      | [] => Some []
      | (k, x) :: l => j ← converted x; js ← go l; Some ((k, j) :: js)
      end) l
  | ROther _ => None
  end.

(** As long as nothing is reported, the sanitiser converts the whole value. *)
Lemma sanitize_converts v p depth s :
  let '(o, s') := sanitize v p depth s in
  ok s'.2 = true → ok s.2 = true ∧ ∃ j, o = Some j ∧ converted v = Some j.
Proof.
  assert (Hstop : ∀ c q m s, ok (complain c q m s).2 = true → False)
    by (intros *; cbn [complain snd]; by rewrite add_not_ok).
  revert p depth s. induction v as [| | | |l IH|l IH|] using raw_nested_ind; intros p depth [budget r];
    cbn [sanitize]; (destruct (budget <=? 0); [by intros ?%Hstop|]);
    (destruct (DECODE_LIMITS.maxDepth <? depth); [by intros ?%Hstop|]); try by eauto.
  - destruct (_ <? str_length _); [by intros ?%Hstop|]. by eauto.
  - destruct (_ <? Z.of_nat _); [by intros ?%Hstop|]. cbn [converted].
    match goal with |- context [?f 0 l (budget - 1, r)] => set (items := f) end.
    match goal with |- context [JArr <$> ?f l = _] => set (go := f) end.
    assert (Hl : ∀ i s, let '(out, failed, s') := items i l s in
              ok s'.2 = true → ok s.2 = true ∧ failed = false ∧ go l = Some out).
    { clear budget r. induction IH as [|x l Hx _ IHl]; intros i s; [done|].
      cbn [items]. fold items. cbn [go]. fold go. specialize (Hx (p +s "[" +s num_to_string i +s "]") (depth + 1) s).
      destruct (sanitize x _ _ s) as [o s1]. specialize (IHl (i + 1) s1).
      destruct (items (i + 1) l s1) as [[out f] s2].
      assert (Hgo : ok s2.2 = true → ok s.2 = true ∧ ∃ j, o = Some j ∧ f = false ∧
        (j' ← converted x; js ← go l; Some (j' :: js)) = Some (j :: out)).
      { intros Hok. destruct (IHl Hok) as (H1 & Hf & Hg). destruct (Hx H1) as (H0 & j & Ho & Hj).
        split; [done|]. exists j. by rewrite Hj, Hg. }
      destruct o as [j|]; intros (H0 & j' & Ho & Hf & Hg)%Hgo; [|done]. by injection Ho as <-. }
    specialize (Hl 0 (budget - 1, r)). destruct (items 0 l (budget - 1, r)) as [[out f] s2].
    unfold unless_failed. cbn [fst snd]. intros Hok. destruct (Hl Hok) as (H0 & -> & Hg).
    split; [exact H0|]. exists (JArr out). by rewrite Hg.
  - destruct (_ <? Z.of_nat _); [by intros ?%Hstop|]. cbn [converted].
    match goal with |- context [?f [] l (budget - 1, r)] => set (members := f) end.
    match goal with |- context [JObj <$> ?f l = _] => set (go := f) end.
    assert (Hl : ∀ seen s, let '(out, failed, s') := members seen l s in
              ok s'.2 = true → ok s.2 = true ∧ failed = false ∧ go l = Some out).
    { clear budget r. induction IH as [|[k x] l Hx _ IHl]; intros seen s; [done|].
      cbn [members]. fold members. cbn [go]. fold go.
      assert (Hskip : ∀ c q m, let '(out, failed, s') := members seen l (complain c q m s) in ok s'.2 = true → False).
      { intros c q m. specialize (IHl seen (complain c q m s)). destruct (members seen l _) as [[out f] s2].
        intros [Hno _]%IHl. by apply Hstop in Hno. }
      destruct (str_in k DANGEROUS_KEYS); [|destruct (str_in k seen)].
      { specialize (Hskip POLICY_SCHEMA_INVALID (p +s "." +s k) ("key '" +s k +s "' is forbidden")).
        destruct (members seen l _) as [[out f] s2]. by intros ?%Hskip. }
      { specialize (Hskip POLICY_SYNTAX_INVALID (p +s "." +s k) ("duplicate key '" +s k +s "'")).
        destruct (members seen l _) as [[out f] s2]. by intros ?%Hskip. }
      cbn [snd] in Hx. specialize (Hx (p +s "." +s k) (depth + 1) s).
      destruct (sanitize x _ _ s) as [o s1]. specialize (IHl (k :: seen) s1).
      destruct (members (k :: seen) l s1) as [[out f] s2].
      assert (Hgo : ok s2.2 = true → ok s.2 = true ∧ ∃ j, o = Some j ∧ f = false ∧
        (j' ← converted x; js ← go l; Some ((k, j') :: js)) = Some ((k, j) :: out)).
      { intros Hok. destruct (IHl Hok) as (H1 & Hf & Hg). destruct (Hx H1) as (H0 & j & Ho & Hj).
        split; [done|]. exists j. by rewrite Hj, Hg. }
      destruct o as [j|]; intros (H0 & j' & Ho & Hf & Hg)%Hgo; [|done]. by injection Ho as <-. }
    specialize (Hl [] (budget - 1, r)). destruct (members [] l (budget - 1, r)) as [[out f] s2].
    unfold unless_failed. cbn [fst snd]. intros Hok. destruct (Hl Hok) as (H0 & -> & Hg).
    split; [exact H0|]. exists (JObj out). by rewrite Hg.
  - by intros ?%Hstop.
Qed.

(** The text of a source. *)
Definition source_text (source : PolicySource) : option string :=
  match source with Text t => Some t | Bytes _ decoded => decoded end.

(** A document that was read from a source: its text fits, was parsed to a value, and the value is
    the document, every part of it. *)
Definition document_of `{PolicyParsers} (source : PolicySource) (hint : option format) (j : json) : Prop :=
  ∃ text v, source_text source = Some text ∧ utf8_length text ≤ 256 * 1024 ∧ parse_text text hint = inl v ∧
    converted v = Some j.

Lemma decode_document `{PolicyParsers} source hint r j r' :
  decode source hint r = (Some j, r') → ok r' = true → document_of source hint j.
Proof.
  assert (Htext : ∀ text, source_text source = Some text →
    decode_text text hint r = (Some j, r') → ok r' = true → document_of source hint j).
  { intros text Hs. unfold decode_text. destruct (DECODE_LIMITS.maxBytes <? _) eqn:Hlen; [done|].
    destruct (parse_text text hint) as [v|[m loc]] eqn:Hp; [|done].
    destruct (negb (isPlainValue v)); [done|].
    pose proof (sanitize_converts v "$" 0 (DECODE_LIMITS.maxNodes, r)) as Hc.
    destruct (sanitize v "$" 0 _) as [o [b2 r2]]. intros [= -> ->] Hok.
    destruct (Hc Hok) as (_ & j' & [= <-] & Hj). exists text, v.
    unfold DECODE_LIMITS.maxBytes in Hlen. breflect. by split_and!. }
  destruct source as [text|n decoded]; cbn [decode]; [by apply Htext|].
  destruct (DECODE_LIMITS.maxBytes <? n); [done|]. destruct decoded as [text|]; [by apply Htext|done].
Qed.

(** ** What semantic validation accepts *)

Notation rejected := (λ r, ok r = false).

Lemma ok_refer known q what l r :
  ok (foldl (refer known q what) r l) = true → ok r = true ∧ ∀ x, x ∈ l → x ∈ known.
Proof.
  revert r. induction l as [|y l IH]; intros r; simpl; [intros Hr; split; [done|intros x Hx; set_solver]|].
  intros [Hr Hl]%IH. unfold refer in Hr. destruct (str_in y known) eqn:Hy; [|by rewrite add_not_ok in Hr].
  split; [done|]. intros x [->|Hx]%elem_of_cons; [by apply str_in_spec|auto].
Qed.

Lemma ok_triggers known l r :
  ok (foldl (refer_trigger known) r l) = true →
  ok r = true ∧ ∀ k ws, (k, ws) ∈ l → k ∈ TRIGGER_KINDS ∧ ∀ w, w ∈ ws → w ∈ known.
Proof.
  revert r. induction l as [|[k ws] l IH]; intros r; simpl; [intros Hr; split; [done|intros x y Hx; set_solver]|].
  intros [Hr Hl]%IH. unfold refer_trigger in Hr. apply ok_refer in Hr as [Hr Hws]. cbn [fst snd] in *.
  destruct (str_in k TRIGGER_KINDS) eqn:Hk; [|by rewrite add_not_ok in Hr]. split; [done|].
  intros k' ws' [[= -> ->]|Hin]%elem_of_cons; [|eauto]. split; [by apply str_in_spec|done].
Qed.

Lemma ok_group g l seen r :
  ok (foldl (group_action g) (seen, r) l).2 = true →
  ok r = true ∧ (∀ a g', a ∈ l → assoc a seen = Some g' → g' = g) ∧
  (∀ a, a ∈ l → assoc a (foldl (group_action g) (seen, r) l).1 = Some g) ∧
  ∀ a g', assoc a seen = Some g' → assoc a (foldl (group_action g) (seen, r) l).1 = Some g'.
Proof.
  revert seen r. induction l as [|a l IH]; intros seen r; cbn [foldl].
  { intros Hr. split_and!; [done|intros a g' Ha; set_solver|intros a Ha; set_solver|done]. }
  unfold group_action at 2 4 6. destruct (assoc a seen) as [g'|] eqn:Ha.
  - destruct (g' =s? g) eqn:Hg; intros (Hr & H1 & H2 & H3)%IH; [|by rewrite add_not_ok in Hr].
    apply String.eqb_eq in Hg as ->. split_and!; [done| | |done].
    + intros a' g' [->|Hin]%elem_of_cons Hs; [by simplify_eq|eauto].
    + intros a' [->|Hin]%elem_of_cons; auto.
  - intros (Hr & H1 & H2 & H3)%IH. split_and!; [done| | |].
    + intros a' g' [->|Hin]%elem_of_cons Hs; [by simplify_eq|]. apply (H1 a'); [done|].
      rewrite assoc_set. destruct (a' =s? a) eqn:E; [|done]. apply String.eqb_eq in E. congruence.
    + intros a' [->|Hin]%elem_of_cons; [|auto]. apply H3. by rewrite assoc_set, String.eqb_refl.
    + intros a' g' Hs. apply H3. rewrite assoc_set. destruct (a' =s? a) eqn:E; [|done].
      apply String.eqb_eq in E. congruence.
Qed.

Lemma ok_disjoint p r :
  ok (validateDisjointActions p r) = true →
  ok r = true ∧ (∀ a, a ∈ allow p → a ∉ requireApproval p ∧ a ∉ deny p) ∧
  (∀ a, a ∈ requireApproval p → a ∉ deny p).
Proof.
  unfold validateDisjointActions. cbn [foldl].
  destruct (foldl (group_action "allow") ([], r) (allow p)) as [s1 r1] eqn:E1.
  destruct (foldl (group_action "requireApproval") (s1, r1) (requireApproval p)) as [s2 r2] eqn:E2.
  intros (Hr2 & D1 & _)%ok_group. pose proof (ok_group "requireApproval" (requireApproval p) s1 r1) as H2.
  rewrite E2 in H2. destruct (H2 Hr2) as (Hr1 & D2 & A2 & K2).
  pose proof (ok_group "allow" (allow p) [] r) as H1. rewrite E1 in H1.
  destruct (H1 Hr1) as (Hr & _ & A1 & _). cbn [fst] in *. split; [done|]. split.
  - intros a Ha. split; intros Hb.
    + specialize (D2 a _ Hb (A1 a Ha)). done.
    + specialize (D1 a _ Hb (K2 _ _ (A1 a Ha))). done.
  - intros a Ha Hb. specialize (D1 a _ Hb (A2 a Ha)). done.
Qed.

Definition within (cap : Z) (v : option Z) : Prop := match v with Some v => v ≤ cap | None => True end.

Lemma ok_limit r x : ok (limit_within r x) = true → ok r = true ∧ within x.2 x.1.2.
Proof.
  destruct x as [[k [v|]] cap]; simpl; [|done]. destruct (cap <? v) eqn:E; [by rewrite add_not_ok|].
  breflect. intros Hr. by split.
Qed.

Lemma ok_limits p r :
  ok (validateLimitsWithinCaps p r) = true →
  ok r = true ∧ within 200 (maxFilesChanged p) ∧ within 30 (maxIterations p) ∧
  within 240 (maxRuntimeMinutes p).
Proof.
  unfold validateLimitsWithinCaps. cbn [foldl].
  intros [[[Hr H1]%ok_limit H2]%ok_limit H3]%ok_limit. by split_and!.
Qed.

(** The repository is the expected one, in any case of letters; an expectation is whole. *)
Definition matches_context (c : SemanticContext) (o n : string) : Prop :=
  match expectedOwner c, expectedName c with
  | Some o', Some n' => toLowerCase o = toLowerCase o' ∧ toLowerCase n = toLowerCase n'
  | None, None => True
  | _, _ => False
  end.

Lemma ok_match p c r :
  ok (validateRepositoryMatch p c r) = true → ok r = true ∧ matches_context c (owner p) (name p).
Proof.
  unfold validateRepositoryMatch, matches_context.
  destruct (expectedOwner c) as [o|], (expectedName c) as [n|]; rewrite ?add_not_ok; try done.
  destruct (_ && _) eqn:E; [|by rewrite add_not_ok]. breflect. intros Hr. by split.
Qed.

(** A document that semantic validation accepts. *)
Record accepted (c : SemanticContext) (p : RepositoryPolicyV1) : Prop := {
  acc_disjoint : (∀ a, a ∈ allow p → a ∉ requireApproval p ∧ a ∉ deny p) ∧
                 ∀ a, a ∈ requireApproval p → a ∉ deny p;
  acc_actions a : a ∈ allow p ++ requireApproval p ++ deny p → a ∈ knownActions (registries c);
  acc_triggers k ws : (k, ws) ∈ triggers p →
    k ∈ TRIGGER_KINDS ∧ ∀ w, w ∈ ws → w ∈ knownWorkflows (registries c);
  acc_commands w : w ∈ manualCommands p → w ∈ knownWorkflows (registries c);
  acc_obligations o : o ∈ obligations p → o ∈ knownObligations (registries c);
  acc_limits : within 200 (maxFilesChanged p) ∧ within 30 (maxIterations p) ∧ within 240 (maxRuntimeMinutes p);
  acc_match : matches_context c (owner p) (name p)
}.

Lemma semantics_accepts p c r : ok (validateSemantics p c r) = true → ok r = true ∧ accepted c p.
Proof.
  unfold validateSemantics, validateReferences. cbv zeta.
  intros [[[[Hr Ha]%ok_refer Ht]%ok_triggers Hm]%ok_refer Ho]%ok_refer.
  apply ok_match in Hr as [Hr Hmatch]. apply ok_limits in Hr as [Hr Hl]. apply ok_disjoint in Hr as [Hr Hd].
  split; [done|]. by constructor.
Qed.

(** ** What the schema accepts *)

Definition ids (n : nat) (p : string → bool) (l : list string) : Prop :=
  (length l ≤ n)%nat ∧ Forall (λ s, p s = true) l.

Definition positive (v : option Z) : Prop := match v with Some v => 1 ≤ v | None => True end.

Record conforms (p : RepositoryPolicyV1) : Prop := {
  conf_owner : ownerName (owner p) = true;
  conf_name : ownerName (name p) = true;
  conf_triggers : Forall (λ t, len_between 1 64 t.1 = true ∧ ids 64 (len_between 1 64) t.2) (triggers p);
  conf_commands : ids 64 (len_between 1 64) (manualCommands p);
  conf_allow : ids 64 (λ s, str_in s ActionType) (allow p);
  conf_approval : ids 64 (λ s, str_in s ActionType) (requireApproval p);
  conf_deny : ids 64 (λ s, str_in s ActionType) (deny p);
  conf_obligations : ids 32 (len_between 1 128) (obligations p);
  conf_limits : positive (maxFilesChanged p) ∧ positive (maxIterations p) ∧ positive (maxRuntimeMinutes p)
}.

Lemma p_strings_some n p j l : p_array (Z.of_nat n) (p_string p) j = Some l → ids n p l.
Proof.
  destruct j as [| | | |js|]; simpl; try done. destruct (_ <=? _) eqn:E; [|done]. breflect.
  intros Hl%mapM_Some. unfold ids. split.
  - rewrite <- (Forall2_length _ _ _ Hl). lia.
  - clear E. induction Hl as [|x y js l Hx _ IH]; constructor; [|done]. by apply p_string_some in Hx as [_ Hx].
Qed.

Lemma p_strings_back n p l : ids n p l → p_array (Z.of_nat n) (p_string p) (strings l) = Some l.
Proof.
  intros [Hn Hl]. unfold strings, p_array. rewrite length_map. rewrite (proj2 (Z.leb_le _ _)) by lia. clear Hn.
  apply mapM_Some. induction Hl as [|s l Hs _ IH]; simpl; constructor; [|done]. simpl. by rewrite Hs.
Qed.

Lemma ids_nil n p : ids n p [].
Proof. split; [simpl; lia|constructor]. Qed.

Lemma default_ids n p o l : with_default (p_array (Z.of_nat n) (p_string p)) [] o = Some l → ids n p l.
Proof. destruct o; simpl; [apply p_strings_some|intros [= <-]; apply ids_nil]. Qed.

Lemma default_positive o v : with_default p_positive None o = Some v → positive v.
Proof.
  destruct o as [[]|]; simpl; try done; [|by intros [= <-]]. destruct (1 <=? n) eqn:E; [|done].
  breflect. by intros [= <-].
Qed.

Lemma p_triggers_some j t : p_triggers j = Some t →
  Forall (λ t, len_between 1 64 t.1 = true ∧ ids 64 (len_between 1 64) t.2) t ∧
  (distinct_keys j → NoDup t.*1).
Proof.
  destruct j as [| | | | |l]; simpl; try done. intros Ht%mapM_Some. split.
  - induction Ht as [|[k v] y l t Hx _ IH]; constructor; [|done]. simpl in Hx.
    destruct (len_between 1 64 k) eqn:E; [|done]. destruct (p_ids v) as [ws|] eqn:Ew; simplify_eq/=.
    split; [done|]. by apply (p_strings_some 64 _ v).
  - intros Hd. inversion Hd as [| | | | |? Hnd _]; subst. cut (t.*1 = l.*1); [by intros ->|]. clear -Ht.
    induction Ht as [|[k v] y l t Hx _ IH]; [done|]. rewrite !fmap_cons, IH. f_equal. simpl in *.
    destruct (len_between 1 64 k); [|done]. destruct (p_ids v); by simplify_eq/=.
Qed.


Lemma assoc_distinct k l j : distinct_keys (JObj l) → assoc k l = Some j → distinct_keys j.
Proof.
  intros Hd Hk%assoc_elem. inversion Hd as [| | | | |? _ Hall]; subst. rewrite Forall_forall in Hall.
  apply (Hall _ Hk).
Qed.

Lemma schema_conforms j p : repositoryPolicyV1 j = Some p →
  conforms p ∧ (distinct_keys j → NoDup (triggers p).*1).
Proof.
  unfold repositoryPolicyV1. intros Hp.
  apply bind_Some in Hp as (d & Hd & Hp). apply bind_Some in Hp as (v & _ & Hp).
  apply bind_Some in Hp as (_ & _ & Hp). apply bind_Some in Hp as (r & _ & Hp).
  apply bind_Some in Hp as (o & Ho & Hp). apply bind_Some in Hp as (n & Hn & Hp).
  apply bind_Some in Hp as (a & _ & Hp). apply bind_Some in Hp as (l & _ & Hp).
  apply bind_Some in Hp as (t & Ht & Hp). apply bind_Some in Hp as (m & Hm & Hp).
  apply bind_Some in Hp as (acts & _ & Hp). apply bind_Some in Hp as (al & Hal & Hp).
  apply bind_Some in Hp as (ra & Hra & Hp). apply bind_Some in Hp as (dn & Hdn & Hp).
  apply bind_Some in Hp as (v' & _ & Hp). apply bind_Some in Hp as (ob & Hob & Hp).
  apply bind_Some in Hp as (lim & _ & Hp). apply bind_Some in Hp as (f & Hf & Hp).
  apply bind_Some in Hp as (i & Hi & Hp). apply bind_Some in Hp as (rt & Hrt & [= <-]).
  apply bind_Some in Ho as (jo & _ & [_ Ho]%p_string_some).
  apply bind_Some in Hn as (jn & _ & [_ Hn]%p_string_some).
  split.
  - constructor; cbn; try done.
    + destruct (assoc "triggers" d) as [jt|]; simpl in Ht; [by destruct (p_triggers_some _ _ Ht)|].
      injection Ht as <-. constructor.
    + by apply (default_ids 64) in Hm.
    + by apply (default_ids 64) in Hal.
    + by apply (default_ids 64) in Hra.
    + by apply (default_ids 64) in Hdn.
    + by apply (default_ids 32) in Hob.
    + split_and!; eapply default_positive; eassumption.
  - intros Hdk. cbn. destruct (assoc "triggers" d) as [jt|] eqn:Hjt; simpl in Ht; [|injection Ht as <-; constructor].
    apply p_triggers_some in Ht as [_ Ht]. apply Ht.
    destruct j as [| | | | |l']; simpl in Hd; try done. destruct (forallb _ l'); [|done].
    injection Hd as ->. eapply assoc_distinct; eassumption.
Qed.

(** ** Canonical documents *)

Definition strictly : list string → Prop := StronglySorted (λ a b, code_unit_compare a b < 0).

Lemma sortedUnique_elem l x : x ∈ sortedUnique l ↔ x ∈ l.
Proof.
  unfold sortedUnique. rewrite js_sort_elem, dedup_elem.
  replace (map normalize_nfc l) with l; [done|]. induction l as [|y l IH]; simpl; [done|by rewrite <- IH].
Qed.

Lemma sortedUnique_NoDup l : NoDup (sortedUnique l).
Proof. unfold sortedUnique. rewrite js_sort_perm. apply dedup_NoDup. Qed.

Lemma sortedUnique_strictly l : strictly (sortedUnique l).
Proof.
  pose proof (sortedUnique_NoDup l) as Hnd. unfold sortedUnique in *.
  pose proof (js_sort_sorted code_unit_compare (dedup (map normalize_nfc l))) as Hs. unfold strictly.
  induction Hs as [|x m Hm IH Hx]; [constructor|]. inversion Hnd as [|? ? Hnx Hnm]; subst.
  constructor; [by apply IH|]. rewrite Forall_forall in Hx |- *. intros y Hy. specialize (Hx y Hy).
  unfold cmp_le in Hx. destruct (Z.eq_dec (code_unit_compare x y) 0) as [E|E]; [|lia].
  apply code_unit_compare_eq in E as ->. done.
Qed.

Lemma strictly_id l : strictly l → sortedUnique l = l.
Proof.
  intros Hl. unfold sortedUnique. replace (map normalize_nfc l) with l
    by (clear; induction l as [|y l IH]; simpl; [done|by rewrite <- IH]).
  assert (Hnd : NoDup l).
  { induction Hl as [|x m Hm IH Hx]; constructor; [|done]. intros Hin. rewrite Forall_forall in Hx.
    specialize (Hx x Hin). rewrite cmp_refl in Hx. lia. }
  rewrite dedup_id by done. apply js_sort_id. clear Hnd.
  induction Hl as [|x m Hm IH Hx]; constructor; [done|]. eapply Forall_impl; [exact Hx|].
  intros y. unfold cmp_le. lia.
Qed.

Lemma dedup_acc_length `{EqDecision A} (seen l : list A) : (length (dedup_acc seen l) ≤ length l)%nat.
Proof.
  revert seen. induction l as [|x l IH]; intros seen; simpl; [lia|].
  case_match; [specialize (IH seen)|specialize (IH (x :: seen))]; simpl; lia.
Qed.

Lemma sortedUnique_ids n p l : ids n p l → ids n p (sortedUnique l).
Proof.
  intros [Hn Hl]. split.
  - unfold sortedUnique. rewrite js_sort_length. etrans; [apply dedup_acc_length|]. by rewrite length_map.
  - rewrite Forall_forall in Hl |- *. intros x Hx. by apply Hl, sortedUnique_elem.
Qed.

(** What a canonical document promises, under the registries and the repository of a context. *)
Record sound (c : SemanticContext) (d : CanonicalPolicyDocument) : Prop := {
  sound_sets : Forall strictly [d_manualCommands d; d_allow d; d_requireApproval d; d_deny d; d_obligations d]
               ∧ Forall (λ t, strictly t.2) (d_triggers d) ∧ NoDup (d_triggers d).*1;
  sound_disjoint : (∀ a, a ∈ d_allow d → a ∉ d_requireApproval d ∧ a ∉ d_deny d) ∧
                   ∀ a, a ∈ d_requireApproval d → a ∉ d_deny d;
  sound_actions a : a ∈ d_allow d ++ d_requireApproval d ++ d_deny d →
    a ∈ knownActions (registries c) ∧ a ∈ ActionType;
  sound_triggers k ws : (k, ws) ∈ d_triggers d →
    k ∈ TRIGGER_KINDS ∧ ∀ w, w ∈ ws → w ∈ knownWorkflows (registries c);
  sound_commands w : w ∈ d_manualCommands d → w ∈ knownWorkflows (registries c);
  sound_obligations o : o ∈ d_obligations d → o ∈ knownObligations (registries c);
  sound_limits : let '(f, i, t) := d_limits d in 1 ≤ f ≤ 200 ∧ 1 ≤ i ≤ 30 ∧ 1 ≤ t ≤ 240;
  sound_match : matches_context c (d_owner d) (d_name d) ∧
    toLowerCase (d_owner d) = d_owner d ∧ toLowerCase (d_name d) = d_name d
}.

Lemma normalize_sound c p :
  conforms p → NoDup (triggers p).*1 → accepted c p → sound c (normalizePolicyV1 p).
Proof.
  intros Hc Hnd Ha. destruct Ha as [[D1 D2] A T M O (L1 & L2 & L3) R]. constructor; cbn [normalizePolicyV1
    d_owner d_name d_triggers d_manualCommands d_allow d_requireApproval d_deny d_obligations d_limits].
  - split; [repeat constructor; apply sortedUnique_strictly|]. split.
    + apply Forall_forall. intros t ([k ws] & -> & _)%list_elem_of_fmap. apply sortedUnique_strictly.
    + cut ((map (λ '(t, ws), (t, sortedUnique ws)) (triggers p)).*1 = (triggers p).*1); [by intros ->|].
      clear. induction (triggers p) as [|[k ws] l IH]; [done|]. simpl. f_equal. exact IH.
  - split; intros a; rewrite !sortedUnique_elem; auto.
  - intros a Ha. rewrite !elem_of_app, !sortedUnique_elem in Ha. split.
    + apply A. by rewrite !elem_of_app.
    + destruct Hc as [_ _ _ _ [_ C1] [_ C2] [_ C3] _ _]. rewrite Forall_forall in C1, C2, C3.
      apply str_in_spec. destruct Ha as [Ha|[Ha|Ha]]; auto.
  - intros k ws ([k' ws'] & [= -> ->] & Hin)%list_elem_of_fmap. destruct (T _ _ Hin) as [Hk Hw].
    split; [done|]. intros w. rewrite sortedUnique_elem. auto.
  - intros w. rewrite sortedUnique_elem. auto.
  - intros o. rewrite sortedUnique_elem. auto.
  - destruct Hc as [_ _ _ _ _ _ _ _ (P1 & P2 & P3)]. unfold effectiveLimits, POLICY_LIMIT_DEFAULTS,
      POLICY_LIMIT_GLOBAL_CAPS, within, positive in *.
    destruct (maxFilesChanged p), (maxIterations p), (maxRuntimeMinutes p); cbn; lia.
  - rewrite !toLowerCase_idemp. split; [|done]. unfold matches_context in *.
    destruct (expectedOwner c), (expectedName c); rewrite ?toLowerCase_idemp; done.
Qed.

Lemma pipeline_inl `{PolicyParsers} msg source hint c d : runPipeline msg source hint c = inl d →
  ∃ j p, repositoryPolicyV1 j = Some p ∧ conforms p ∧ NoDup (triggers p).*1 ∧ accepted c p ∧
    tame 0 j ∧ nodes j ≤ 8192 ∧ document_of source hint j ∧ d = normalizePolicyV1 p.
Proof.
  unfold runPipeline. destruct (decode source hint []) as [[j|] r] eqn:Hd; [|done].
  apply decode_tame in Hd as Htn. destruct Htn as [Ht Hn]. destruct (repositoryPolicyV1 j) as [p|] eqn:Hp; [|done]. cbv zeta.
  destruct (ok (validateSemantics p c r)) eqn:Hok; [|done]. intros [= <-].
  apply semantics_accepts in Hok as [Hr Hacc]. apply decode_document in Hd; [|done].
  destruct (schema_conforms j p Hp) as [Hconf Hnd].
  exists j, p. split_and!; try done. by apply Hnd, (tame_distinct 0).
Qed.

(* @prop type 4.1 : runPipeline decode parse_text sanitize repositoryPolicyV1 validateSemantics validateDisjointActions validateReferences normalizePolicyV1 effectiveLimits sortedUnique / accepted_policies_are_sound_witness *)
(** C18. A policy that the pipeline accepts is sound, whatever text or bytes it came from: its text
    has at most 262144 bytes and was parsed, by the parser the hint or its first character
    chooses; every part of the parsed value is in the document, which respects every limit of the
    decoder (at most 8192 nodes, nesting 32, collections of 512, texts of 4096 characters,
    distinct and harmless keys -- of a JSON text, after [JSON.parse] has kept the last of equal
    keys); the policy is what the schema makes of this document; the three action lists are
    disjoint; every action, workflow, trigger kind and obligation it names is known; its limits
    lie between 1 and the global caps even where it gave none; it is bound to the expected
    repository in any spelling; and every list of it is sorted and without repetition. *)
Theorem accepted_policies_are_sound `{PolicyParsers} msg source hint c d
  (Hrun : runPipeline msg source hint c = inl d) :
  sound c d ∧ ∃ j p, document_of source hint j ∧ tame 0 j ∧ nodes j ≤ 8192 ∧
    repositoryPolicyV1 j = Some p ∧ d = normalizePolicyV1 p.
Proof.
  apply pipeline_inl in Hrun as (j & p & Hp & Hconf & Hnd & Hacc & Ht & Hn & Hdoc & ->).
  split; [by apply normalize_sound|]. by exists j, p.
Qed.

(** ** Reading a canonical text again *)

Lemma sort_strings l : sort_keys (strings l) = strings l.
Proof. unfold strings. cbn [sort_keys]. f_equal. induction l as [|s l IH]; simpl; [done|by rewrite IH]. Qed.

Definition trigger_member (t : string * list string) : string * json := let '(k, ws) := t in (k, strings ws).

Lemma sort_triggers l :
  sort_keys (JObj (map (λ '(k, ws), (k, strings ws)) l)) = JObj (map trigger_member (js_sort by_key l)).
Proof.
  cbn [sort_keys]. rewrite map_map. f_equal.
  transitivity (js_sort by_key (map (λ '(k, ws), (k, strings ws)) l)).
  - f_equal. apply map_ext. intros [k ws]. by rewrite sort_strings.
  - by rewrite js_sort_map_values.
Qed.

Definition sorted_members (d : CanonicalPolicyDocument) : list (string * json) :=
  [("actions", JObj [("allow", strings (d_allow d)); ("deny", strings (d_deny d));
                     ("requireApproval", strings (d_requireApproval d))]);
   ("autonomy", JObj [("level", JStr (level_name (d_level d)))]);
   ("limits", JObj [("maxFilesChanged", JNum (d_limits d).1.1); ("maxIterations", JNum (d_limits d).1.2);
                    ("maxRuntimeMinutes", JNum (d_limits d).2)]);
   ("manualCommands", strings (d_manualCommands d));
   ("repository", JObj [("name", JStr (d_name d)); ("owner", JStr (d_owner d))]);
   ("schemaVersion", JNum 1);
   ("triggers", JObj (map trigger_member (js_sort by_key (d_triggers d))));
   ("validation", JObj [("obligations", strings (d_obligations d))])].

Lemma sorted_document d : sortedDeep (document_json d) = JObj (sorted_members d).
Proof.
  unfold sortedDeep, document_json, sorted_members. destruct (d_limits d) as [[f i] t].
  pose proof (sort_triggers (d_triggers d)) as H0. pose proof (sort_strings (d_manualCommands d)) as H1.
  pose proof (sort_strings (d_allow d)) as H2. pose proof (sort_strings (d_requireApproval d)) as H3.
  pose proof (sort_strings (d_deny d)) as H4. pose proof (sort_strings (d_obligations d)) as H5.
  revert H0 H1 H2 H3 H4 H5.
  generalize (JObj (map (λ '(k, ws), (k, strings ws)) (d_triggers d)))
    (strings (d_manualCommands d)) (strings (d_allow d)) (strings (d_requireApproval d)) (strings (d_deny d))
    (strings (d_obligations d)) (JObj (map trigger_member (js_sort by_key (d_triggers d)))).
  intros t0 m al ra dn ob t1 H0 H1 H2 H3 H4 H5. cbn [sort_keys map]. rewrite H0, H1, H2, H3, H4, H5. reflexivity.
Qed.

(** The document as the schema reads it back. *)
Definition reread (d : CanonicalPolicyDocument) : RepositoryPolicyV1 := {|
  owner := d_owner d; name := d_name d; level := d_level d; triggers := js_sort by_key (d_triggers d);
  manualCommands := d_manualCommands d; allow := d_allow d; requireApproval := d_requireApproval d;
  deny := d_deny d; obligations := d_obligations d; maxFilesChanged := Some (d_limits d).1.1;
  maxIterations := Some (d_limits d).1.2; maxRuntimeMinutes := Some (d_limits d).2 |}.

Lemma p_triggers_back l :
  Forall (λ t, len_between 1 64 t.1 = true ∧ ids 64 (len_between 1 64) t.2) l →
  p_triggers (JObj (map trigger_member l)) = Some l.
Proof.
  intros Hl. apply mapM_Some. induction Hl as [|[k ws] l [Hk Hws] _ IH]; simpl; constructor; [|done].
  cbn [fst snd] in *. rewrite Hk. unfold p_ids. by rewrite (p_strings_back 64) by done.
Qed.

Lemma reread_schema d : conforms (reread d) → repositoryPolicyV1 (JObj (sorted_members d)) = Some (reread d).
Proof.
  intros [Ho Hn Ht Hm Hal Hra Hdn Hob (P1 & P2 & P3)].
  cbn [reread owner name triggers manualCommands allow requireApproval deny obligations maxFilesChanged
    maxIterations maxRuntimeMinutes positive] in *.
  unfold repositoryPolicyV1, sorted_members.
  cbn -[p_string p_array p_triggers p_ids p_actions p_positive p_level strings map js_sort].
  unfold p_actions, p_ids.
  rewrite (p_strings_back 64) by done. rewrite (p_strings_back 64) by done.
  rewrite (p_strings_back 64) by done. rewrite (p_strings_back 64) by done.
  rewrite (p_strings_back 32) by done. rewrite p_triggers_back by done.
  cbn [p_string p_positive]. rewrite Ho, Hn, !(proj2 (Z.leb_le _ _)) by done.
  unfold reread. by destruct (d_level d).
Qed.

Lemma lower_alnum c : is_alnum c = true → is_alnum (lower_char c) = true.
Proof. by destruct c as [[] [] [] [] [] [] [] []]. Qed.

Lemma lower_mark c : char_in "._-" c = true → char_in "._-" (lower_char c) = true.
Proof. by destruct c as [[] [] [] [] [] [] [] []]. Qed.

Lemma lower_length s : str_length (toLowerCase s) = str_length s.
Proof. unfold str_length. induction s as [|c s IH]; simpl in *; [done|]. lia. Qed.

Lemma ownerName_lower s : ownerName s = true → ownerName (toLowerCase s) = true.
Proof.
  unfold ownerName, len_between. rewrite lower_length. intros Hs. apply andb_true_iff in Hs as [-> Hs].
  cbn [andb]. destruct s as [|c s]; [done|]. cbn [toLowerCase]. apply andb_true_iff in Hs as [Hc Hs].
  rewrite lower_alnum by done. cbn [andb]. induction s as [|c' s IH]; [done|]. cbn [toLowerCase all_chars] in *.
  apply andb_true_iff in Hs as [Hc' Hs]. rewrite IH by done. rewrite andb_true_r.
  apply orb_true_iff in Hc' as [H'|H']; [by rewrite lower_alnum|]. by rewrite lower_mark, orb_true_r.
Qed.

Lemma reread_conforms c p : conforms p → accepted c p → conforms (reread (normalizePolicyV1 p)).
Proof.
  intros [Ho Hn Ht Hm Hal Hra Hdn Hob (P1 & P2 & P3)] [_ _ _ _ _ (L1 & L2 & L3) _].
  constructor; cbn [reread normalizePolicyV1 owner name triggers manualCommands allow requireApproval deny
    obligations maxFilesChanged maxIterations maxRuntimeMinutes d_owner d_name d_triggers d_manualCommands
    d_allow d_requireApproval d_deny d_obligations d_limits positive];
    try by (apply sortedUnique_ids || apply ownerName_lower).
  - rewrite js_sort_perm. apply Forall_forall. intros t ([k ws] & -> & Hin)%list_elem_of_fmap.
    rewrite Forall_forall in Ht. destruct (Ht _ Hin) as [Hk Hws]. split; [done|]. by apply sortedUnique_ids.
  - unfold effectiveLimits, POLICY_LIMIT_DEFAULTS, POLICY_LIMIT_GLOBAL_CAPS, positive, within in *.
    destruct (maxFilesChanged p), (maxIterations p), (maxRuntimeMinutes p); cbn; lia.
Qed.

(** A canonical document read back and normalised again differs in the order of its triggers
    only. *)
Lemma reread_normal c d : sound c d →
  normalizePolicyV1 (reread d) =
  {| d_owner := d_owner d; d_name := d_name d; d_level := d_level d; d_triggers := js_sort by_key (d_triggers d);
     d_manualCommands := d_manualCommands d; d_allow := d_allow d; d_requireApproval := d_requireApproval d;
     d_deny := d_deny d; d_obligations := d_obligations d; d_limits := d_limits d |}.
Proof.
  intros [(Hs & Ht & _) _ _ _ _ _ Hl (_ & Ho & Hn)]. repeat (apply Forall_cons in Hs as [? Hs]).
  unfold normalizePolicyV1. cbn [reread owner name level triggers manualCommands allow requireApproval deny
    obligations]. rewrite Ho, Hn, !strictly_id by done. f_equal.
  - rewrite <- (js_sort_perm by_key) in Ht. clear -Ht.
    induction Ht as [|[k ws] l Hx _ IH]; simpl; [done|]. rewrite strictly_id by done. by rewrite IH.
  - unfold effectiveLimits, POLICY_LIMIT_DEFAULTS, POLICY_LIMIT_GLOBAL_CAPS.
    cbn [reread maxFilesChanged maxIterations maxRuntimeMinutes].
    destruct (d_limits d) as [[f i] t]. cbn. rewrite !Z.min_l by lia. done.
Qed.

Lemma sorted_members_distinct d : NoDup (d_triggers d).*1 → distinct_keys (JObj (sorted_members d)).
Proof.
  assert (Hstrings : ∀ l, distinct_keys (strings l)).
  { intros l. constructor. induction l; simpl; constructor; [constructor|done]. }
  intros Hnd. constructor; [apply (bool_decide_unpack _); reflexivity|].
  repeat first [apply Forall_cons; split | apply Forall_nil_2]; cbn [snd]; try apply Hstrings; try constructor;
    try (apply (bool_decide_unpack _); reflexivity).
  all: try (repeat first [apply Forall_cons; split | apply Forall_nil_2]; cbn [snd];
            first [apply Hstrings | constructor]).
  - replace (map trigger_member (js_sort by_key (d_triggers d))).*1 with (js_sort by_key (d_triggers d)).*1.
    + by rewrite js_sort_perm.
    + generalize (js_sort by_key (d_triggers d)). intros l. induction l as [|[k ws] l IH]; [done|].
      cbn. f_equal. exact IH.
  - apply Forall_forall. intros t ([k ws] & -> & _)%list_elem_of_fmap. apply Hstrings.
Qed.

(* @prop roundtrip 8.3 : canonicalJson sortedDeep normalizePolicyV1 repositoryPolicyV1 canonicalizationIsStable runPipeline / canonical_form_is_stable_witness *)
(** C37. The canonical form is stable: for every policy the pipeline accepts, the canonical text
    parses, the parsed value is a valid policy again, and canonicalising that one gives the very
    same text, byte for byte, hence the same hash; so a stored version can be read back and
    compared, whatever [JSON.parse] does with other texts. *)
Theorem canonical_form_is_stable `{PolicyParsers} `{JsonParse} msg source hint c d
  (Hrun : runPipeline msg source hint c = inl d) : canonicalizationIsStable d = Some true.
Proof.
  apply pipeline_inl in Hrun as (j & p & _ & Hconf & Hnd & Hacc & _ & _ & _ & ->).
  pose proof (normalize_sound c p Hconf Hnd Hacc) as Hs. pose proof (reread_conforms c p Hconf Hacc) as Hc.
  set (d := normalizePolicyV1 p) in *. unfold canonicalizationIsStable, canonicalJson. cbv zeta.
  rewrite (sorted_document d), json_parse_stringify by (apply sorted_members_distinct, Hs).
  cbn [mbind option_bind]. rewrite (reread_schema d Hc). cbn [mbind option_bind].
  rewrite (reread_normal c d Hs), !sorted_document. f_equal.
  assert (Hk : js_sort by_key (js_sort by_key (d_triggers d)) = js_sort by_key (d_triggers d))
    by (apply js_sort_idemp; apply _).
  apply String.eqb_eq. unfold sorted_members. cbn [d_owner d_name d_level d_triggers d_manualCommands d_allow
    d_requireApproval d_deny d_obligations d_limits]. by rewrite Hk.
Qed.

(** ** A document read *)

Definition sample_policy : raw :=
  RObj [("schemaVersion", RNum 1); ("repository", RObj [("owner", RStr "Acme"); ("name", RStr "App")]);
        ("autonomy", RObj [("level", RStr "developer")]);
        ("triggers", RObj [("webhook", RArr [RStr "fix"]); ("manual", RArr [RStr "fix"; RStr "fix"])]);
        ("actions", RObj [("allow", RArr [RStr "repository.read"]); ("deny", RArr [RStr "comment.create"])]);
        ("limits", RObj [("maxIterations", RNum 30)])].

#[local] Instance sample_parsers : PolicyParsers := {|
  parse_json := λ _, inl sample_policy;
  parse_yaml := λ _, {| contents := Alias; errors := []; warnings := []; toJS := RNull |}
|}.

Definition sample_context : SemanticContext := {|
  expectedOwner := Some "acme"; expectedName := Some "APP";
  registries := {| knownActions := ["repository.read"; "comment.create"]; knownWorkflows := ["fix"];
                   knownObligations := [] |}
|}.

#[local] Instance sample_json_parse : JsonParse :=
  {| json_parse := any_inverse; json_parse_stringify v _ := any_inverse_stringify v |}.

Definition sample_document : CanonicalPolicyDocument := {|
  d_owner := "acme"; d_name := "app"; d_level := developer;
  d_triggers := [("webhook", ["fix"]); ("manual", ["fix"])]; d_manualCommands := [];
  d_allow := ["repository.read"]; d_requireApproval := []; d_deny := ["comment.create"]; d_obligations := [];
  d_limits := (25, 30, 20)
|}.

Lemma sample_run : runPipeline (λ _, "") (Text "{}") None sample_context = inl sample_document.
Proof. vm_compute. reflexivity. Qed.

Lemma accepted_policies_are_sound_witness :
  runPipeline (λ _, "") (Text "{}") None sample_context = inl sample_document ∧
  sound sample_context sample_document.
Proof.
  split; [apply sample_run|].
  exact (proj1 (accepted_policies_are_sound (λ _, "") (Text "{}") None sample_context _ sample_run)).
Defined.

Lemma canonical_form_is_stable_witness :
  runPipeline (λ _, "") (Text "{}") None sample_context = inl sample_document ∧
  canonicalizationIsStable sample_document = Some true.
Proof.
  split; [apply sample_run|].
  exact (canonical_form_is_stable (λ _, "") (Text "{}") None sample_context _ sample_run).
Defined.

(** Texts that are refused. *)
Example policies_that_are_refused :
  (∀ hint, ∃ r, runPipeline (λ _, "") (Bytes 300000 (Some "{}")) hint sample_context = inr r ∧
     worstCode r = POLICY_TOO_LARGE ∧ httpStatusFor (worstCode r) = 413) ∧
  (∃ r, runPipeline (λ _, "") (Bytes 3 None) None sample_context = inr r ∧ worstCode r = POLICY_SYNTAX_INVALID) ∧
  (∃ r, runPipeline (λ _, "") (Text "version: 1") None sample_context = inr r ∧
     map message r = ["YAML aliases are forbidden"]).
Proof.
  split; [intros []; eexists; vm_compute; done|]. split; eexists; vm_compute; done.
Qed.
