(* ===== verification/PolicyStore.v ===== *)
(** * Policy versions

    The lifecycle of a policy version and the service over a store of them
    ([packages/policy-engine/src/versioning/], [service.ts]); the store in the database,
    [PolicyVersionStore] of [packages/db/src/repositories/policy-approval.ts], with the effect
    of each statement on the rows of [repository_policy_versions] and
    [repository_policy_heads]; and the handlers of [apps/api/src/routes/web-surface.routes.ts]
    that validate, save and show a policy, as any number of requests whose statements
    interleave. *)

From S2P Require Import Prelude JsString Effects JsDate Json Contracts CanonicalJson PolicyDocuments.

(** ** Versions and snapshots *)

(* @src packages/policy-engine/src/versioning/version.ts:12-20 PolicyVersionStatus *)
Inductive PolicyVersionStatus := DRAFT | VALIDATED | ACTIVE | SUPERSEDED | REJECTED.

#[export] Instance PolicyVersionStatus_eq_dec : EqDecision PolicyVersionStatus.
Proof. solve_decision. Defined.

(* @src packages/policy-engine/src/versioning/version.ts:23-30 LEGAL_TRANSITIONS *)
Definition LEGAL_TRANSITIONS (from : PolicyVersionStatus) : list PolicyVersionStatus :=
  match from with
  | DRAFT => [VALIDATED; REJECTED]
  | VALIDATED => [ACTIVE; REJECTED]
  | ACTIVE => [SUPERSEDED]
  | SUPERSEDED | REJECTED => []
  end.

(* @src packages/policy-engine/src/versioning/version.ts:32-34 canTransition *)
Definition canTransition (from to : PolicyVersionStatus) : bool := bool_decide (to ∈ LEGAL_TRANSITIONS from).

(* @src packages/policy-engine/src/versioning/version.ts:36-50 PolicyVersionRecord *)
Record PolicyVersionRecord := {
  policyVersionId : string;
  pv_repositoryId : string;
  pv_version : Z;
  pv_canonicalJson : string;
  pv_hash : string;
  pv_createdBy : string;
  createdAt : Z;
  predecessorVersionId : option string;
  status : PolicyVersionStatus
}.

(* @src packages/policy-engine/src/versioning/version.ts:84-105 buildVersionRecord *)
Definition buildVersionRecord `{Digest} (repositoryId : string) (policy : CanonicalPolicyDocument)
    (createdBy id : string) (predecessor : option string) (now : Z) : PolicyVersionRecord := {|
  policyVersionId := id;
  pv_repositoryId := repositoryId;
  pv_version := 0;
  pv_canonicalJson := canonicalJson policy;
  pv_hash := canonicalHash policy;
  pv_createdBy := createdBy;
  createdAt := now;
  predecessorVersionId := predecessor;
  status := VALIDATED
|}.

(* @src packages/policy-engine/src/versioning/version.ts:52-63 RegistryBindingVersions *)
Record RegistryBindingVersions := {
  toolRegistryVersionId : string;
  workflowRegistryVersionId : string;
  validatorRegistryVersionId : string;
  globalSafetyVersionId : string;
  providerCapabilityVersions : list (string * string)
}.

(* @src packages/policy-engine/src/versioning/version.ts:69-79 PolicySnapshot *)
Record PolicySnapshot := {
  snapshotId : string;
  sn_repositoryId : string;
  runId : string;
  sn_policyVersionId : string;
  sn_canonicalJson : string;
  sn_hash : string;
  bindings : RegistryBindingVersions;
  boundAt : Z
}.

(* @src packages/policy-engine/src/service.ts:118-141 snapshotForRun *)
Definition snapshotForRun (repositoryId run : string) (active : PolicyVersionRecord)
    (b : RegistryBindingVersions) (id : string) (now : Z) : PolicySnapshot := {|
  snapshotId := id;
  sn_repositoryId := repositoryId;
  runId := run;
  sn_policyVersionId := policyVersionId active;
  sn_canonicalJson := pv_canonicalJson active;
  sn_hash := pv_hash active;
  bindings := b;
  boundAt := now
|}.

(** The store as the service sees it. *)
(* @src packages/policy-engine/src/versioning/version.ts:112-131 PolicyVersionRepositoryPort *)
Class PolicyVersionRepositoryPort (S : Type) := {
  insertVersion : PolicyVersionRecord → S → (string * Z) * S;
  findActiveVersion : string → S → option (string * Z * Z);
  port_activate : string → string → option string → Z → string → S → option (Z * S)
}.

Section Service.
Context {S : Type} `{PolicyVersionRepositoryPort S} `{PolicyParsers} `{Digest}.
Context (firstIssueMessage : json → string).

(* @src packages/policy-engine/src/service.ts:172-200 #validateForWrite *)
Definition validateForWrite (repositoryId createdBy : string) (source : PolicySource) (hint : option format)
    (c : SemanticContext) (id : string) (now : Z) (s : S)
  : outcome (PolicyVersionRecord + report) * S :=
  match runPipeline firstIssueMessage source hint c with
  | inr r => (Returned (inr r), s)
  | inl policy =>
      let record := buildVersionRecord repositoryId policy createdBy id
                      (option_map (λ a, a.1.1) (findActiveVersion repositoryId s)) now in
      if negb (canTransition DRAFT (status record)) then (Threw (PlainError "POLICY_VERSION_TRANSITION_INVALID"), s)
      else
      let '((stored, version), s) := insertVersion record s in
      (Returned (inl {| policyVersionId := stored; pv_repositoryId := pv_repositoryId record; pv_version := version;
              pv_canonicalJson := pv_canonicalJson record; pv_hash := pv_hash record;
              pv_createdBy := pv_createdBy record; createdAt := createdAt record;
              predecessorVersionId := predecessorVersionId record; status := status record |}), s)
  end.

(* @src packages/policy-engine/src/service.ts:95-103 createVersion *)
Definition createVersion := validateForWrite.

(* @src packages/policy-engine/src/service.ts:109-111 activate *)
Definition activate := port_activate.
End Service.

(** ** The tables *)

(* @src packages/db/src/repositories/policy-approval.ts:14-19 CanonicalPolicy *)
Record CanonicalPolicy := {
  repositoryId : string;
  policyJson : string;
  canonicalHash : string;
  createdBy : string
}.

(** A row of [repository_policy_versions]. *)
Record VersionRow := {
  row_id : string;
  version : Z;
  content : CanonicalPolicy
}.

(** A row of [repository_policy_heads]. *)
Record HeadRow := {
  active_policy_version_id : string;
  updated_by : string;
  row_version : Z
}.

(** The versions in the order they were inserted, and the head of each repository. *)
Record Tables := {
  versions : list VersionRow;
  heads : gmap string HeadRow
}.

(** The text a [jsonb] column gives back for the text stored in it. *)
Class Jsonb := jsonb_text : string → string.

(** The text a [uuid] column gives back: identifiers reach the tables in any case, and are compared
    there without it. *)
Definition uuid_text (id : string) : string := toLowerCase id.

Definition of_repository (r : string) (v : VersionRow) : bool := repositoryId (content v) =s? r.

Definition max_version (l : list VersionRow) : Z := foldr (λ v n, Z.max (version v) n) 0 l.

(** [gen_random_uuid()] gives [id]. *)
(* @src packages/db/src/repositories/policy-approval.ts:67-89 appendVersion *)
Definition appendVersion (id : string) (input : CanonicalPolicy) (t : Tables) : VersionRow * Tables :=
  let r := uuid_text (repositoryId input) in
  let v := {| row_id := id;
              version := max_version (filter (of_repository r) (versions t)) + 1;
              content := {| repositoryId := r; policyJson := policyJson input;
                            canonicalHash := canonicalHash input; createdBy := createdBy input |} |} in
  (v, {| versions := versions t ++ [v]; heads := heads t |}).

Definition row_of (id : string) (l : list VersionRow) : option VersionRow :=
  List.find (λ v, row_id v =s? id) l.

(** The owner is compared as text, so that what passes is spelled as the column spells it. *)
Inductive activation := Activated (t : Tables) | Conflicting | CrossRepository.

(* @src packages/db/src/repositories/policy-approval.ts:91-128 activateHead *)
Definition activateHead (r id : string) (expected : Z) (by_ : string) (t : Tables) : activation :=
  match row_of id (versions t) with
  | Some v =>
      if negb (of_repository r v) then CrossRepository else
      let put n := Activated {| versions := versions t;
        heads := <[r := {| active_policy_version_id := id; updated_by := by_; row_version := n |}]> (heads t) |} in
      match heads t !! r with
      | None => put 1
      | Some h => if row_version h =? expected then put (row_version h + 1) else Conflicting
      end
  | None => CrossRepository
  end.

(* @src packages/db/src/repositories/policy-approval.ts:130-137 getActive *)
Record Active := {
  a_version : Z;
  etag : string;
  a_policyJson : string;
  a_hash : string;
  a_createdBy : string
}.

(* @src packages/db/src/repositories/policy-approval.ts:130-156 getActive *)
Definition getActive `{Jsonb} (r : string) (t : Tables) : option Active :=
  h ← heads t !! uuid_text r;
  v ← row_of (active_policy_version_id h) (versions t);
  Some {| a_version := version v; etag := num_to_string (row_version h);
          a_policyJson := jsonb_text (policyJson (content v)); a_hash := canonicalHash (content v);
          a_createdBy := createdBy (content v) |}.

(* @src packages/db/src/repositories/policy-approval.ts:158-177 listVersions *)
Definition listVersions (r : string) (t : Tables) : list (Z * string * string) :=
  map (λ v, (version v, createdBy (content v), canonicalHash (content v)))
    (take 50 (js_sort (cmp_by version (λ a b, b - a)) (filter (of_repository (uuid_text r)) (versions t)))).

(** ** The handlers *)

(** What zod gives for a document, printed. *)
Definition optional_limit (k : string) (v : option Z) : list (string * json) :=
  match v with Some n => [(k, JNum n)] | None => [] end.

Definition data_json (p : RepositoryPolicyV1) : json :=
  JObj [("schemaVersion", JNum 1);
        ("repository", JObj [("owner", JStr (owner p)); ("name", JStr (name p))]);
        ("autonomy", JObj [("level", JStr (level_name (level p)))]);
        ("triggers", JObj (map (λ '(k, ws), (k, strings ws)) (triggers p)));
        ("manualCommands", strings (manualCommands p));
        ("actions", JObj [("allow", strings (allow p)); ("requireApproval", strings (requireApproval p));
                          ("deny", strings (deny p))]);
        ("validation", JObj [("obligations", strings (obligations p))]);
        ("limits", JObj (optional_limit "maxFilesChanged" (maxFilesChanged p) ++
                         optional_limit "maxIterations" (maxIterations p) ++
                         optional_limit "maxRuntimeMinutes" (maxRuntimeMinutes p)))].

(* @src apps/api/src/routes/web-surface.routes.ts:949-970 conservativeDefaults *)
Definition conservativeDefaults (o n : string) : RepositoryPolicyV1 := {|
  owner := o; name := n; level := assist; triggers := [];
  manualCommands := ["review_remediation"; "diagnose_failure"; "security_audit"; "security_patch";
                     "implement_issue"];
  allow := ["repository.read"; "issue.read"; "file.read"];
  requireApproval := ["pull_request.merge"; "workflow_file.write"];
  deny := []; obligations := ["run_tests"];
  maxFilesChanged := Some 25; maxIterations := Some 6; maxRuntimeMinutes := Some 20
|}.

(* @src apps/api/src/routes/web-surface.routes.ts:972-979 safePolicy *)
Definition safePolicy `{JsonParse} (text o n : string) : RepositoryPolicyV1 :=
  match json_parse text ≫= repositoryPolicyV1 with Some p => p | None => conservativeDefaults o n end.

(* @src apps/api/src/routes/web-surface.routes.ts:981-993 classifyDanger *)
Definition classifyDanger (p : RepositoryPolicyV1) : list string :=
  (if bool_decide (level p = autonomous) || bool_decide (level p = trusted)
   then ["Autonomy is broader than assist."] else []) ++
  (if 25 <? maxFilesChanged p ?? 0 then ["File-change limit is above the conservative default of 25."] else []).

(* @src packages/api-contracts/src/index.ts:79-83 idempotencyKeySchema *)
Definition idempotencyKeySchema (key : option string) : bool :=
  match key with
  | Some k => len_between 16 128 k && all_chars (λ c, is_alnum c || char_in "_-" c) k
  | None => false
  end.

(** The repository's row, when there is one, gives the owner and the name. *)
(* @src apps/api/src/routes/web-surface.routes.ts:612-631 registerWebSurfaceRoutes *)
Definition get_policy `{Jsonb} `{JsonParse} (repo : option (string * string)) (r : string) (t : Tables)
  : RepositoryPolicyV1 * Z * string * string :=
  let '(o, n) := repo ?? ("owner", "name") in
  match getActive r t with
  | Some a => (safePolicy (a_policyJson a) o n, a_version a, etag a, "saved")
  | None => (conservativeDefaults o n, 0, "0", "defaults")
  end.

Definition member_of (k : string) (body : option json) : option json :=
  match body with Some (JObj l) => assoc k l | _ => None end.

Definition draft_of (body : option json) : option RepositoryPolicyV1 :=
  member_of "draft" body ≫= repositoryPolicyV1.

(** The draft with its dangers and its digest, when the schema accepts it. *)
(* @src apps/api/src/routes/web-surface.routes.ts:633-654 registerWebSurfaceRoutes *)
Definition validate_policy `{Digest} (body : option json)
  : option (RepositoryPolicyV1 * list string * string) :=
  p ← draft_of body; Some (p, classifyDanger p, sha256 (stringify (data_json p))).

(** *** Saving

    The statements of one request, in order; between two of them other requests run theirs. *)

Record PutRequest := {
  repository : string;
  userId : string;
  idempotencyKey : option string;
  ifMatch : option string;
  body : option json
}.

Inductive PutResponse :=
  | Created (activeVersion : Z)
  | Unchanged (activeVersion : Z)
  | VersionConflict
  | Invalid (path constraint : string)
  | Failed.

Inductive phase :=
  | Start
  | Appending (p : RepositoryPolicyV1) (expected : Z)
  | Activating (p : RepositoryPolicyV1) (appended : VersionRow) (expected : Z)
  | Rereading (p : RepositoryPolicyV1)
  | Answered (r : PutResponse).

Definition digest_of `{Digest} (p : RepositoryPolicyV1) : string := sha256 (stringify (data_json p)).

(** The checks before the first statement. *)
(* @src apps/api/src/routes/web-surface.routes.ts:662-678 registerWebSurfaceRoutes *)
Definition check_put `{Digest} (q : PutRequest) : RepositoryPolicyV1 + PutResponse :=
  if negb (idempotencyKeySchema (idempotencyKey q)) then inr (Invalid "idempotency-key" "required") else
  match draft_of (body q), member_of "draftDigest" (body q) with
  | Some p, Some (JStr d) =>
      if negb (digest_of p =s? d) then inr (Invalid "draftDigest" "must match last validate") else inl p
  | _, _ => inr (Invalid "body" "validated draft required")
  end.

(** The expected version: a number that the client sends, or the version now active. *)
(* @src apps/api/src/routes/web-surface.routes.ts:693-694 registerWebSurfaceRoutes *)
Definition expected_version (q : PutRequest) (active : option Active) : Z :=
  match ifMatch q with
  | Some m => if digits m then leading_digits 0 m else option_map a_version active ?? 0
  | None => option_map a_version active ?? 0
  end.

(* @src apps/api/src/routes/web-surface.routes.ts:692-711 registerWebSurfaceRoutes *)
Definition after_read `{Digest} (q : PutRequest) (p : RepositoryPolicyV1) (active : option Active) : phase :=
  let expected := expected_version q active in
  match active with
  | Some a =>
      if a_hash a =s? digest_of p then Answered (Unchanged (a_version a))
      else if negb (a_version a =? expected) then Answered VersionConflict
      else Appending p expected
  | None => Appending p expected
  end.

(** One statement of a request; [id] is the identifier a new row gets. *)
(* @src apps/api/src/routes/web-surface.routes.ts:657-749 registerWebSurfaceRoutes *)
Definition put_step `{Digest} `{Jsonb} (q : PutRequest) (id : string) (ph : phase) (t : Tables) : phase * Tables :=
  match ph with
  | Start =>
      match check_put q with
      | inr r => (Answered r, t)
      | inl p => (after_read q p (getActive (repository q) t), t)
      end
  | Appending p expected =>
      let '(v, t) := appendVersion id {| repositoryId := repository q; policyJson := stringify (data_json p);
                                         canonicalHash := digest_of p; createdBy := userId q |} t in
      (Activating p v expected, t)
  | Activating p v expected =>
      match activateHead (repository q) (row_id v) (Z.max expected 0) (userId q) t with
      | Activated t => (Answered (Created (version v)), t)
      | Conflicting => (Rereading p, t)
      | CrossRepository => (Answered Failed, t)
      end
  | Rereading p =>
      match getActive (repository q) t with
      | Some a => if a_hash a =s? digest_of p then (Answered (Unchanged (a_version a)), t) else (Answered VersionConflict, t)
      | None => (Answered VersionConflict, t)
      end
  | Answered _ => (ph, t)
  end.

(** Any number of requests; one may stop at any point, with its connection or its process. *)
Definition world : Type := Tables * list (PutRequest * phase).

Inductive step `{Digest} `{Jsonb} : world → world → Prop :=
  | Arrives t hs q : step (t, hs) (t, hs ++ [(q, Start)])
  | Advances t hs i q ph id : hs !! i = Some (q, ph) → row_of id (versions t) = None →
      step (t, hs) ((put_step q id ph t).2, <[i := (q, (put_step q id ph t).1)]> hs)
  | Stops t hs i q ph : hs !! i = Some (q, ph) → step (t, hs) (t, <[i := (q, Answered Failed)]> hs).

(** One request without another between its statements. *)
Definition put_policy `{Digest} `{Jsonb} (q : PutRequest) (id : string) (t : Tables) : phase * Tables :=
  let s := put_step q id Start t in
  let s := put_step q id s.1 s.2 in
  let s := put_step q id s.1 s.2 in
  put_step q id s.1 s.2.

(** ** The rows *)

Definition rows (r : string) (t : Tables) : list VersionRow := filter (of_repository r) (versions t).

Lemma row_of_app id l l' w : row_of id l = Some w → row_of id (l ++ l') = Some w.
Proof. unfold row_of. induction l as [|x l IH]; simpl; [done|]. by case_match. Qed.

Lemma row_of_new l v : row_of (row_id v) l = None → row_of (row_id v) (l ++ [v]) = Some v.
Proof.
  unfold row_of. induction l as [|x l IH]; simpl; [by rewrite String.eqb_refl|]. by case_match.
Qed.

Lemma row_of_id id l v : row_of id l = Some v → row_id v = id ∧ v ∈ l.
Proof.
  intros Hf. split; [by apply String.eqb_eq, (List.find_some _ _ Hf)|].
  apply list_elem_of_In, (List.find_some _ _ Hf).
Qed.

Lemma row_of_none id l : row_of id l = None → id ∉ map row_id l.
Proof.
  intros Hf (v & -> & Hin)%list_elem_of_fmap. apply list_elem_of_In in Hin.
  pose proof (List.find_none _ _ Hf v Hin) as He. cbv beta in He. by rewrite String.eqb_refl in He.
Qed.

Lemma rows_snoc r l v : filter (of_repository r) (l ++ [v]) =
  filter (of_repository r) l ++ (if of_repository r v then [v] else []).
Proof.
  rewrite filter_app. f_equal. destruct (of_repository r v) eqn:E.
  - rewrite filter_cons_True by (by apply Is_true_true). done.
  - rewrite filter_cons_False by (by rewrite Is_true_true, E). done.
Qed.

(** The versions of a repository are numbered from 1 in the order they were stored. *)
Definition numbered (l : list VersionRow) : Prop := map version l = seqZ 1 (Z.of_nat (length l)).

Lemma max_seq l : numbered l → max_version l = Z.of_nat (length l).
Proof.
  unfold numbered. intros Hl. assert (Hm : ∀ a n (l : list VersionRow), 0 ≤ a → length l = n →
    map version l = seqZ (a + 1) (Z.of_nat n) → max_version l = if decide (n = 0)%nat then 0 else a + Z.of_nat n).
  { clear. intros a n. revert a. induction n as [|n IH]; intros a [|v l] Ha Hlen Hs; try done.
    rewrite seqZ_cons in Hs by lia. injection Hs as Hv Hs. injection Hlen as Hlen. cbn [max_version foldr].
    fold (max_version l). rewrite (IH (a + 1) l) by
      (done || lia || (rewrite Hs; f_equal; lia)). repeat case_decide; lia. }
  rewrite (Hm 0 (length l) l); [|lia|done|exact Hl]. case_decide; lia.
Qed.

Lemma numbered_snoc l v : numbered l → version v = max_version l + 1 → numbered (l ++ [v]).
Proof.
  intros Hl Hv. rewrite (max_seq l Hl) in Hv. unfold numbered in *.
  rewrite map_app, Hl, length_app. simpl. rewrite Nat2Z.inj_add, seqZ_app by lia. f_equal.
  rewrite seqZ_cons by lia. simpl. f_equal. lia.
Qed.

(** ** Interleavings *)

Section Store.
Context `{Digest} `{Jsonb}.

(** Every stored policy is one the schema accepts, in the form zod gives it, with its digest. *)
Definition stored (c : CanonicalPolicy) : Prop :=
  ∃ p, conforms p ∧ policyJson c = stringify (data_json p) ∧ canonicalHash c = digest_of p.

Record well_formed (t : Tables) : Prop := {
  wf_ids : NoDup (map row_id (versions t));
  wf_numbered r : numbered (rows r t);
  wf_heads r h : heads t !! r = Some h →
    1 ≤ row_version h ∧ ∃ v, row_of (active_policy_version_id h) (versions t) = Some v ∧ repositoryId (content v) = r;
  wf_stored : Forall (λ v, stored (content v)) (versions t)
}.

(** What a request holds between two statements. *)
Definition held (t : Tables) (q : PutRequest) (ph : phase) : Prop :=
  match ph with
  | Appending p _ => conforms p
  | Activating _ v _ => row_of (row_id v) (versions t) = Some v ∧ repositoryId (content v) = uuid_text (repository q)
  | _ => True
  end.

Definition sane (w : world) : Prop :=
  well_formed w.1 ∧ ∀ i q ph, w.2 !! i = Some (q, ph) → held w.1 q ph.

(** How one statement may change the rows: versions are only added, and a head moves by one. *)
Definition moves (t t' : Tables) : Prop :=
  (∃ l, versions t' = versions t ++ l) ∧
  ∀ r, heads t' !! r = heads t !! r ∨
       ∃ h', heads t' !! r = Some h' ∧
             row_version h' = match heads t !! r with Some h => row_version h + 1 | None => 1 end.

Lemma moves_refl t : moves t t.
Proof. split; [exists []; by rewrite app_nil_r|auto]. Qed.

Lemma held_moves t t' q ph : moves t t' → held t q ph → held t' q ph.
Proof.
  intros [[l Hl] _]. destruct ph; try done. cbn. rewrite Hl. intros [Hr ?]. split; [|done].
  by apply row_of_app.
Qed.

Lemma append_well_formed id c t v t' :
  well_formed t → row_of id (versions t) = None → stored c → appendVersion id c t = (v, t') →
  well_formed t' ∧ moves t t' ∧ row_of (row_id v) (versions t') = Some v ∧ repositoryId (content v) = uuid_text (repositoryId c).
Proof.
  intros [Wi Wn Wh Ws] Hid Hst [= <- <-]. cbn [versions heads row_id content]. split_and!; try done.
  - constructor; cbn [versions heads].
    + rewrite map_app. apply NoDup_app. split_and!; [done| |by apply NoDup_singleton].
      intros x Hx ->%list_elem_of_singleton. exact (row_of_none id (versions t) Hid Hx).
    + intros r. unfold rows. cbn [versions]. rewrite rows_snoc. case_match eqn:E; [|rewrite app_nil_r; apply Wn].
      apply String.eqb_eq in E. cbn in E. subst r. apply numbered_snoc; [apply Wn|done].
    + intros r h Hh. destruct (Wh r h Hh) as [? (v & Hv & ?)]. split; [done|]. exists v. split; [by apply row_of_app|done].
    + apply Forall_app. split; [done|]. apply Forall_singleton. exact Hst.
  - split; [by eexists|auto].
  - by apply (row_of_new (versions t) {| row_id := id; version := _; content := _ |}).
Qed.

Lemma activate_well_formed r id e u t t' : well_formed t → activateHead r id e u t = Activated t' →
  well_formed t' ∧ moves t t' ∧ versions t' = versions t ∧ (∀ r', r' ≠ r → heads t' !! r' = heads t !! r') ∧
  (∀ h, heads t !! r = Some h → row_version h = e).
Proof.
  intros [Wi Wn Wh Ws]. unfold activateHead. destruct (row_of id (versions t)) as [v|] eqn:Hv; [|done].
  destruct (of_repository r v) eqn:Hr; [|done]. cbn [negb]. apply String.eqb_eq in Hr.
  intros Ha. assert (∃ n, t' = {| versions := versions t; heads := <[r := {| active_policy_version_id := id;
      updated_by := u; row_version := n |}]> (heads t) |} ∧ 1 ≤ n ∧
      n = match heads t !! r with Some h => row_version h + 1 | None => 1 end ∧
      ∀ h, heads t !! r = Some h → row_version h = e) as (n & -> & Hn & Heq & He).
  { destruct (heads t !! r) as [h|] eqn:Hh.
    - destruct (row_version h =? e) eqn:E; [|done]. apply Z.eqb_eq in E. injection Ha as <-. eexists.
      split_and!; try done; [destruct (Wh r h Hh); lia|]. by intros h' [= <-].
    - injection Ha as <-. eexists. split_and!; done. }
  split_and!; cbn [versions heads]; try done.
  - constructor; cbn [versions heads]; try done. intros r' h. destruct (decide (r = r')) as [<-|Hne].
    + rewrite lookup_insert_eq. intros [= <-]. split; [done|]. by exists v.
    + rewrite lookup_insert_ne by done. apply Wh.
  - split; [exists []; by rewrite app_nil_r|]. intros r'. cbn [heads]. destruct (decide (r = r')) as [<-|Hne].
    + right. rewrite lookup_insert_eq. eexists. split; [done|]. cbn. exact Heq.
    + left. by rewrite lookup_insert_ne.
  - intros r' Hne. by rewrite lookup_insert_ne.
Qed.

Lemma check_put_conforms q p : check_put q = inl p → conforms p.
Proof.
  unfold check_put, draft_of. case_match; [done|].
  destruct (member_of "draft" (body q)) as [j|]; [|done]. cbn.
  destruct (repositoryPolicyV1 j) as [p'|] eqn:Hp; [|done].
  destruct (member_of "draftDigest" (body q)) as [[]|]; try done.
  case_match; [done|]. intros [= <-]. by apply (schema_conforms j).
Qed.

Lemma put_step_sane q id ph t : well_formed t → row_of id (versions t) = None → held t q ph →
  well_formed (put_step q id ph t).2 ∧ moves t (put_step q id ph t).2 ∧
  held (put_step q id ph t).2 q (put_step q id ph t).1.
Proof.
  intros Hwf Hid Hh. destruct ph as [|p e|p v e|p|r].
  - cbn [put_step]. destruct (check_put q) as [p|r] eqn:Hc; (split; [done|]); (split; [apply moves_refl|]); [|done].
    apply check_put_conforms in Hc. cbn [fst snd]. unfold after_read. repeat case_match; done.
  - cbn [put_step]. destruct (appendVersion _ _ _) as [v t'] eqn:Ha. cbn [fst snd].
    apply append_well_formed in Ha as (? & ? & Hr & Hc); [|done|done|by exists p].
    split_and!; try done.
  - cbn [put_step]. destruct (activateHead _ _ _ _ _) as [t'| |] eqn:Ha; cbn [fst snd];
      [|by split_and!; [|apply moves_refl|]..].
    by apply activate_well_formed in Ha as (? & ? & _).
  - cbn [put_step]. repeat case_match; cbn [fst snd]; by split_and!; [|apply moves_refl|].
  - cbn. by split_and!; [|apply moves_refl|].
Qed.

Lemma step_sane w w' : sane w → step w w' → sane w' ∧ moves w.1 w'.1.
Proof.
  intros Hs Hstep. destruct Hstep as [t hs q|t hs i q ph id Hi Hid|t hs i q ph Hi]; destruct Hs as [Hwf Hh];
    cbn [fst snd] in *.
  - split; [|apply moves_refl]. split; [done|]. intros j q' ph Hj. cbn [fst snd] in *.
    apply lookup_app_Some in Hj as [Hj|[_ Hj]]; [by eapply Hh|].
    apply list_lookup_singleton_Some in Hj as [_ [= <- <-]]. done.
  - destruct (put_step_sane q id ph t Hwf Hid (Hh _ _ _ Hi)) as (Hwf' & Hm & Hnew). split; [|done].
    split; [done|]. intros j q' ph' Hj. cbn [fst snd] in *.
    apply list_lookup_insert_Some in Hj as [(_ & [= <- <-] & _)|[_ Hj]]; [done|]. by eapply held_moves, Hh.
  - split; [|apply moves_refl]. split; [done|]. intros j q' ph' Hj. cbn [fst snd] in *.
    apply list_lookup_insert_Some in Hj as [(_ & [= <- <-] & _)|[_ Hj]]; [done|]. by eapply Hh.
Qed.

Definition empty_tables : Tables := {| versions := []; heads := ∅ |}.

Lemma empty_sane : sane (empty_tables, []).
Proof. split; [|done]. constructor; try done; constructor. Qed.

Lemma steps_sane w w' : sane w → rtc step w w' → sane w'.
Proof. intros Hs Hr. induction Hr as [|w1 w2 w3 Hstep _ IH]; [done|]. apply IH. by apply (step_sane w1). Qed.

Lemma steps_move w w' : sane w → rtc step w w' →
  (∃ l, versions w'.1 = versions w.1 ++ l) ∧
  ∀ r h, heads w.1 !! r = Some h → ∃ h', heads w'.1 !! r = Some h' ∧ row_version h ≤ row_version h'.
Proof.
  intros Hs Hr. induction Hr as [w|w1 w2 w3 Hstep _ IH].
  - split; [exists []; by rewrite app_nil_r|]. intros r h Hh. by exists h.
  - destruct (step_sane w1 w2 Hs Hstep) as [Hs2 [[l Hl] Hm]]. destruct (IH Hs2) as [[l' Hl'] Hm'].
    split; [exists (l ++ l'); by rewrite Hl', Hl, app_assoc|]. intros r h Hh.
    destruct (Hm r) as [Heq|(h2 & Hh2 & Hrow)]; [apply Hm'; by rewrite Heq|]. rewrite Hh in Hrow.
    destruct (Hm' r h2 Hh2) as (h' & ? & ?). exists h'. split; [done|lia].
Qed.
(** *** Versions and rows in step *)

(** The head of a repository is at its newest version, and was moved as often as there are
    versions; or there is neither. *)
Definition settled (r : string) (n : Z) (t : Tables) : Prop :=
  max_version (rows r t) = n ∧
  match heads t !! r with
  | Some h => row_version h = n ∧ ∃ v, row_of (active_policy_version_id h) (versions t) = Some v ∧ version v = n
  | None => n = 0
  end.

Lemma max_version_snoc l v : max_version l ≤ version v → max_version (l ++ [v]) = Z.max 0 (version v).
Proof.
  unfold max_version. induction l as [|x l IH]; cbn [app foldr]; [lia|]. intros Hle. rewrite IH; lia.
Qed.

Lemma max_version_nonneg l : 0 ≤ max_version l.
Proof. induction l; cbn [max_version foldr]; unfold max_version in *; lia. Qed.

Lemma newest_first l v : (∀ x, x ∈ l → version x < version v) →
  js_sort (cmp_by version (λ a b, b - a)) (l ++ [v]) = v :: js_sort (cmp_by version (λ a b, b - a)) l.
Proof.
  induction l as [|x l IH]; [done|]. intros Hl. cbn [app js_sort foldr].
  fold (js_sort (cmp_by version (λ a b, b - a)) (l ++ [v])). rewrite IH by (intros y Hy; apply Hl; by right).
  cbn [sort_insert]. unfold cmp_by at 1. case_match eqn:E; [|done]. breflect.
  specialize (Hl x (list_elem_of_here _ _)). lia.
Qed.

Lemma max_version_bound l x : x ∈ l → version x ≤ max_version l.
Proof. induction 1; cbn [max_version foldr]; unfold max_version in *; lia. Qed.

Lemma rows_append r id c t : uuid_text (repositoryId c) = r →
  rows r (appendVersion id c t).2 = rows r t ++ [(appendVersion id c t).1].
Proof.
  intros <-. unfold rows, appendVersion. cbn [fst snd versions]. rewrite rows_snoc.
  case_match eqn:E; [done|]. unfold of_repository in E. cbn in E. by rewrite String.eqb_refl in E.
Qed.

Lemma list_appended r id c t : uuid_text (repositoryId c) = uuid_text r →
  listVersions r (appendVersion id c t).2 =
  take 50 ((max_version (rows (uuid_text r) t) + 1, createdBy c, canonicalHash c) :: listVersions r t).
Proof.
  intros Hc. unfold listVersions. fold (rows (uuid_text r) t). fold (rows (uuid_text r) (appendVersion id c t).2).
  rewrite rows_append, newest_first by
    (done || (intros x ?%max_version_bound; cbn; rewrite Hc; fold (rows (uuid_text r) t); lia)).
  cbn [take map]. f_equal; [by cbn; rewrite Hc|]. rewrite !firstn_map, take_take. done.
Qed.

Lemma expected_settled q (a : option Active) n : 0 ≤ n → option_map a_version a ?? 0 = n →
  (ifMatch q = None ∨ ifMatch q = Some (num_to_string n)) → expected_version q a = n.
Proof.
  intros Hn Ha [Hm|Hm]; unfold expected_version; rewrite Hm; [done|].
  rewrite num_digits by done. pose proof (parseInt10_num n Hn) as Hp.
  rewrite parseInt10_digits in Hp by (by apply num_digits). by injection Hp.
Qed.
Lemma settled_read r n t : uuid_text r = r → settled r n t → 0 ≤ n ∧ option_map a_version (getActive r t) ?? 0 = n.
Proof.
  intros Hu [Hm Hh]. split; [rewrite <- Hm; apply max_version_nonneg|]. unfold getActive. rewrite Hu.
  destruct (heads t !! r) as [h|]; [|done]. destruct Hh as [_ (v & Hv & Hn)]. cbn. by rewrite Hv.
Qed.

Lemma settled_activates r id c u n t : uuid_text r = r → settled r n t → row_of id (versions t) = None →
  repositoryId c = r →
  activateHead r id (Z.max n 0) u (appendVersion id c t).2 =
  Activated {| versions := versions (appendVersion id c t).2;
    heads := <[r := {| active_policy_version_id := id; updated_by := u; row_version := n + 1 |}]> (heads t) |}.
Proof.
  intros Hu Hs Hid Hc. pose proof (settled_read r n t Hu Hs) as [Hn _]. destruct Hs as [Hm Hh].
  unfold activateHead. cbn [appendVersion snd versions heads].
  rewrite (row_of_new (versions t) {| row_id := id; version := _; content := _ |} Hid : row_of id _ = _).
  unfold of_repository at 1. cbn [content repositoryId]. rewrite Hc, Hu, String.eqb_refl. cbn [negb].
  destruct (heads t !! r) as [h|] eqn:Hhd; rewrite ?Hhd in Hh; [|by rewrite Hh].
  destruct Hh as [-> _]. by rewrite Z.max_l, Z.eqb_refl by done.
Qed.

Lemma saved q p n id t : uuid_text (repository q) = repository q → check_put q = inl p → settled (repository q) n t → row_of id (versions t) = None →
  (ifMatch q = None ∨ ifMatch q = Some (num_to_string n)) →
  (∀ a, getActive (repository q) t = Some a → a_hash a ≠ digest_of p) →
  let c := {| repositoryId := repository q; policyJson := stringify (data_json p); canonicalHash := digest_of p;
              createdBy := userId q |} in
  put_policy q id t =
  (Answered (Created (n + 1)), {| versions := versions (appendVersion id c t).2;
    heads := <[repository q := {| active_policy_version_id := id; updated_by := userId q; row_version := n + 1 |}]>
               (heads t) |}).
Proof.
  intros Hu Hc Hs Hid Hif Hnew c. destruct (settled_read _ _ _ Hu Hs) as [Hn Hact].
  assert (Hread : after_read q p (getActive (repository q) t) = Appending p n).
  { unfold after_read. rewrite (expected_settled q _ n Hn Hact Hif).
    destruct (getActive (repository q) t) as [a|]; [|done]. cbn in Hact.
    rewrite (proj2 (String.eqb_neq _ _)) by (by apply Hnew). by rewrite Hact, Z.eqb_refl. }
  unfold put_policy. cbn [put_step]. rewrite Hc. cbn [fst snd]. rewrite Hread. cbn [put_step]. fold c.
  destruct (appendVersion id c t) as [v t'] eqn:Ha. cbn [fst snd put_step].
  pose proof (settled_activates (repository q) id c (userId q) n t Hu Hs Hid eq_refl) as Hac. rewrite Ha in Hac.
  assert (row_id v = id ∧ version v = n + 1) as [-> Hv].
  { injection Ha as <- _. cbn. split; [done|]. f_equal. rewrite Hu. apply Hs. }
  cbn [snd] in Hac. rewrite Hac. cbn [fst snd put_step]. by rewrite Hv.
Qed.
Lemma saved_settled r id c u n t :
  uuid_text r = r → settled r n t → row_of id (versions t) = None → repositoryId c = r →
  let t' := {| versions := versions (appendVersion id c t).2;
    heads := <[r := {| active_policy_version_id := id; updated_by := u; row_version := n + 1 |}]> (heads t) |} in
  settled r (n + 1) t' ∧
  getActive r t' = Some {| a_version := n + 1; etag := num_to_string (n + 1);
    a_policyJson := jsonb_text (policyJson c); a_hash := canonicalHash c; a_createdBy := createdBy c |}.
Proof.
  intros Hu Hs Hid Hc t'. destruct (settled_read _ _ _ Hu Hs) as [Hn _].
  set (c' := {| repositoryId := r; policyJson := policyJson c; canonicalHash := canonicalHash c;
                createdBy := createdBy c |}).
  assert (Hrow : row_of id (versions t') = Some {| row_id := id; version := n + 1; content := c' |}).
  { unfold t', appendVersion. cbn [versions snd]. rewrite Hc, Hu. destruct Hs as [Hm _]. unfold rows in Hm.
    rewrite Hm. by apply (row_of_new (versions t) {| row_id := id; version := n + 1; content := c' |}). }
  split.
  - split.
    + unfold rows, t'. cbn [versions]. fold (rows r (appendVersion id c t).2). rewrite rows_append by congruence.
      destruct Hs as [Hm _]. rewrite max_version_snoc; unfold appendVersion; cbn [fst version];
        rewrite Hc, Hu; fold (rows r t); rewrite Hm; lia.
    + unfold t' at 1. cbn [heads]. rewrite lookup_insert_eq. cbn. split; [done|]. by eexists.
  - unfold getActive. rewrite Hu. replace (heads t' !! r) with (Some {| active_policy_version_id := id; updated_by := u;
      row_version := n + 1 |}) by (by cbn; rewrite lookup_insert_eq).
    cbn [mbind option_bind active_policy_version_id row_version]. by rewrite Hrow.
Qed.

Lemma other_repository r r' id c u n t : well_formed t → uuid_text r' ≠ r →
  getActive r' {| versions := versions (appendVersion id c t).2;
    heads := <[r := {| active_policy_version_id := id; updated_by := u; row_version := n |}]> (heads t) |} =
  getActive r' t.
Proof.
  intros Hwf Hne. unfold getActive. cbn [heads]. rewrite lookup_insert_ne by done.
  destruct (heads t !! uuid_text r') as [h|] eqn:Hh; [|done]. cbn [mbind option_bind].
  destruct (wf_heads t Hwf (uuid_text r') h Hh) as (_ & v & Hv & _). rewrite Hv. unfold appendVersion. cbn [snd versions].
  by rewrite (row_of_app _ _ _ v).
Qed.

(** *** Versions and rows out of step *)

(** What a request may hold when the head is jammed. *)
Definition harmless (r : string) (h : HeadRow) (q : PutRequest) (ph : phase) : Prop :=
  uuid_text (repository q) = r →
  match ph with Appending _ e | Activating _ _ e => Z.max e 0 ≠ row_version h | _ => True end.

(** The head is at a version whose number is not the head's own row version, and no request is
    about to move it. *)
Definition jammed (r : string) (h : HeadRow) (w : world) : Prop :=
  heads w.1 !! r = Some h ∧
  (∃ v, row_of (active_policy_version_id h) (versions w.1) = Some v ∧ version v ≠ row_version h ∧
        0 ≤ version v) ∧
  ∀ i q ph, w.2 !! i = Some (q, ph) → harmless r h q ph.

Lemma jammed_read r h w q p : jammed r h w → uuid_text (repository q) = r →
  match after_read q p (getActive (repository q) w.1) with
  | Appending _ e => Z.max e 0 ≠ row_version h
  | Answered (Unchanged _) | Answered VersionConflict => True
  | _ => False
  end.
Proof.
  intros (Hh & (v & Hv & Hne & Hpos) & _) Hr. unfold getActive. rewrite Hr, Hh. cbn [mbind option_bind]. rewrite Hv.
  cbn [mbind option_bind]. unfold after_read. cbn [a_hash a_version].
  destruct (canonicalHash (content v) =s? digest_of p); [done|].
  destruct (version v =? _) eqn:E; cbn [negb]; [|done]. breflect. lia.
Qed.

Lemma activate_jammed r h w id e u t : jammed r h w → Z.max e 0 ≠ row_version h → activateHead r id (Z.max e 0) u w.1 ≠ Activated t.
Proof.
  intros (Hh & _ & _) He. unfold activateHead. destruct (row_of _ _); [|done]. case_match; [done|].
  rewrite Hh. case_match eqn:E; [|done]. breflect. lia.
Qed.

(** A head moves only for a request that spells its repository as the tables do. *)
Lemma activated_spelling q (p : RepositoryPolicyV1) v id n u t t' :
  row_of (row_id v) (versions t) = Some v ∧ repositoryId (content v) = uuid_text (repository q) → id = row_id v →
  activateHead (repository q) id n u t = Activated t' → uuid_text (repository q) = repository q.
Proof.
  intros [Hrow Hown] -> Ha. unfold activateHead in Ha. rewrite Hrow in Ha.
  destruct (of_repository (repository q) v) eqn:Ho; [|done]. apply String.eqb_eq in Ho. congruence.
Qed.

Lemma jammed_put r h w q id ph : jammed r h w → well_formed w.1 → held w.1 q ph → harmless r h q ph →
  heads (put_step q id ph w.1).2 !! r = heads w.1 !! r ∧ harmless r h q (put_step q id ph w.1).1 ∧
  (∀ n, uuid_text (repository q) = r → (put_step q id ph w.1).1 = Answered (Created n) → ph = Answered (Created n)).
Proof.
  intros Hj Hwf Hheld Hh. destruct (decide (uuid_text (repository q) = r)) as [Hr|Hr].
  - specialize (Hh Hr). destruct ph as [|p e|p v e|p|a]; cbn [put_step].
    + destruct (check_put q) as [p|[]] eqn:Hc; cbn [fst snd]; try (by split_and!); [|].
      * pose proof (jammed_read r h w q p Hj Hr) as Hread.
        split; [done|]. split; [intros _|intros n _ Hn; rewrite Hn in Hread; done].
        destruct (after_read q p _) as [| | | |[]]; done.
      * exfalso. revert Hc. unfold check_put. by repeat case_match.
    + split; [done|]. split; [by intros _|done].
    + destruct (activateHead _ _ _ _ _) as [t'| |] eqn:Ha; cbn [fst snd]; [|by split_and!..].
      pose proof (activated_spelling q p v _ _ _ _ _ Hheld eq_refl Ha) as Hspell.
      assert (repository q = r) as Hq by congruence. rewrite Hq in Ha. by apply (activate_jammed r h w) in Ha.
    + repeat case_match; by split_and!.
    + split_and!; [done..|]. by intros n _ [= ->].
  - assert (Hheads : heads (put_step q id ph w.1).2 !! r = heads w.1 !! r).
    { destruct ph as [|p e|p v e|p|a]; cbn [put_step]; try done.
      - by repeat case_match.
      - destruct (activateHead _ _ _ _ _) as [t'| |] eqn:Ha; try done. cbn [snd].
        pose proof (activated_spelling q p v _ _ _ _ _ Hheld eq_refl Ha) as Hspell.
        apply activate_well_formed in Ha as (_ & _ & _ & Hne & _); [apply Hne; congruence|done].
      - by repeat case_match. }
    split; [done|]. split; [by intros Hx|by intros n Hx].
Qed.

Lemma jammed_step r h w w' : sane w → jammed r h w → step w w' →
  jammed r h w' ∧ ∀ i q n, w'.2 !! i = Some (q, Answered (Created n)) → uuid_text (repository q) = r →
    w.2 !! i = Some (q, Answered (Created n)).
Proof.
  intros Hs Hj Hstep. destruct Hstep as [t hs q|t hs i q ph id Hi Hid|t hs i q ph Hi].
  - destruct Hj as (Hh & Hv & Hp). cbn [fst snd] in *. split.
    + split_and!; try done. intros j q' ph [Hj|[_ Hj]]%lookup_app_Some; [by apply (Hp j q')|].
      apply list_lookup_singleton_Some in Hj as [_ [= <- <-]]. done.
    + intros j q' n [Hj|[_ Hj]]%lookup_app_Some Hr; [done|]. by apply list_lookup_singleton_Some in Hj as [_ [=]].
  - destruct Hs as [Hwf Hheld]. pose proof (put_step_sane q id ph t Hwf Hid (Hheld _ _ _ Hi)) as (_ & [[l Hl] _] & _).
    destruct (jammed_put r h (t, hs) q id ph Hj Hwf (Hheld _ _ _ Hi) (proj2 (proj2 Hj) i q ph Hi)) as (Hheads & Hharm & Hnew).
    destruct Hj as (Hh & (v & Hv & Hne) & Hp). cbn [fst snd] in *. split.
    + split_and!; cbn [fst snd]; [by rewrite Hheads| |].
      * exists v. split; [|done]. rewrite Hl. by apply row_of_app.
      * intros j q' ph' [(_ & [= <- <-] & _)|[_ Hj]]%list_lookup_insert_Some; [done|]. by apply (Hp j q').
    + intros j q' n [(<- & [= <- Hn] & _)|[_ Hj]]%list_lookup_insert_Some Hr; [|done].
      rewrite Hi. by rewrite (Hnew n Hr Hn).
  - destruct Hj as (Hh & Hv & Hp). cbn [fst snd] in *. split.
    + split_and!; try done. intros j q' ph' [(_ & [= <- <-] & _)|[_ Hj]]%list_lookup_insert_Some; [done|].
      by apply (Hp j q').
    + by intros j q' n [(_ & [=] & _)|[_ Hj]]%list_lookup_insert_Some Hr.
Qed.

Lemma jammed_steps r h w w' : sane w → jammed r h w → rtc step w w' →
  jammed r h w' ∧ ∀ i q n, w'.2 !! i = Some (q, Answered (Created n)) → uuid_text (repository q) = r →
    w.2 !! i = Some (q, Answered (Created n)).
Proof.
  intros Hs Hj Hr. induction Hr as [w|w1 w2 w3 Hstep _ IH]; [by split; auto|].
  destruct (jammed_step r h w1 w2 Hs Hj Hstep) as [Hj2 Hback].
  destruct (IH (proj1 (step_sane w1 w2 Hs Hstep)) Hj2) as [Hj3 Hback']. split; [done|]. auto.
Qed.
(** A save of a jammed policy that passes the first comparison. *)
Lemma jammed_save r h w q p e id : jammed r h w → uuid_text (repository q) = r → check_put q = inl p →
  row_of id (versions w.1) = None → after_read q p (getActive (repository q) w.1) = Appending p e →
  (put_policy q id w.1).1 ∈ [Answered VersionConflict; Answered Failed] ∧
  heads (put_policy q id w.1).2 = heads w.1 ∧
  ∃ v, versions (put_policy q id w.1).2 = versions w.1 ++ [v] ∧ canonicalHash (content v) = digest_of p.
Proof.
  intros Hj Hr Hc Hid Hread. pose proof (jammed_read r h w q p Hj Hr) as He. rewrite Hread in He.
  destruct Hj as (Hh & (a & Ha & Hne & Hpos) & _).
  assert (Hdiff : a_hash {| a_version := version a; etag := num_to_string (row_version h);
      a_policyJson := jsonb_text (policyJson (content a)); a_hash := canonicalHash (content a);
      a_createdBy := createdBy (content a) |} =s? digest_of p = false).
  { unfold after_read, getActive in Hread. rewrite Hr, Hh in Hread. cbn [mbind option_bind] in Hread.
    rewrite Ha in Hread. cbn [mbind option_bind] in Hread. by case_match. }
  unfold put_policy. cbn [put_step]. rewrite Hc. cbn [fst snd]. rewrite Hread. cbn [put_step].
  set (c := {| repositoryId := repository q; policyJson := _ |}).
  destruct (appendVersion id c w.1) as [v t'] eqn:Happ. cbn [fst snd put_step].
  assert (Hv : versions t' = versions w.1 ++ [v] ∧ heads t' = heads w.1 ∧ row_id v = id ∧
    repositoryId (content v) = r ∧ canonicalHash (content v) = digest_of p) by (by injection Happ as <- <-).
  destruct Hv as (Hvs & Hhs & Hvid & Hvr & Hvh).
  assert (Hrow : row_of (row_id v) (versions t') = Some v) by (rewrite Hvs; apply row_of_new; by rewrite Hvid).
  unfold activateHead. rewrite Hrow. unfold of_repository. rewrite Hvr.
  destruct (r =s? repository q) eqn:Hspell; cbn [negb].
  - apply String.eqb_eq in Hspell. rewrite <- Hspell, Hhs, Hh. destruct (_ =? _) eqn:E; [breflect; lia|].
    cbn [fst snd put_step]. unfold getActive. rewrite Hr, Hhs, Hh. cbn [mbind option_bind].
    rewrite Hvs, (row_of_app _ _ _ _ Ha). cbn [mbind option_bind]. rewrite Hdiff. cbn [fst snd].
    split_and!; [by left|done|by exists v].
  - cbn [fst snd put_step]. split_and!; [by right; left|done|by exists v].
Qed.
End Store.

(* @prop invariant 5.9 : put_step appendVersion activateHead check_put after_read getActive / policies_are_kept_witness *)
(** C24. However the saves of any number of clients interleave, and wherever they stop: the
    identifiers of the versions are distinct, each repository's versions are numbered 1, 2, 3
    and so on without a gap, every head points to a version of its own repository, and every
    stored policy is one that the schema accepts together with its digest; stored versions
    never change or vanish, and the row version of a head never falls. *)
Theorem policies_are_kept `{Digest} `{Jsonb} w w'
  (Hw : rtc step (empty_tables, []) w) (Hw' : rtc step w w') :
  well_formed w.1 ∧ (∃ l, versions w'.1 = versions w.1 ++ l) ∧
  ∀ r h, heads w.1 !! r = Some h → ∃ h', heads w'.1 !! r = Some h' ∧ row_version h ≤ row_version h'.
Proof.
  apply (steps_sane _ _ empty_sane) in Hw as Hs. split; [apply Hs|]. by apply steps_move.
Qed.

(* @prop functional 5.8 : put_step check_put expected_version after_read appendVersion activateHead getActive listVersions / save_is_read_back_witness *)
(** C22. A save without a rival between its statements succeeds, and is what is read back: when
    the head is at the newest version and its row version is that number, the client sends
    that number or none, and the draft differs from the active policy, then the draft becomes
    the next version and the active one, with its digest and author; it comes first in the
    list of versions; no other repository's policy changes; and the head is again in step, so
    that the next save succeeds too.  The client spells the repository as the tables do, in lower
    case ([upper_case_ids_fail_late] shows what becomes of another spelling). *)
Theorem save_is_read_back `{Digest} `{Jsonb} q p n id t
  (Hspell : uuid_text (repository q) = repository q)
  (Hwf : well_formed t) (Hs : settled (repository q) n t) (Hid : row_of id (versions t) = None)
  (Hc : check_put q = inl p) (Hif : ifMatch q = None ∨ ifMatch q = Some (num_to_string n))
  (Hnew : ∀ a, getActive (repository q) t = Some a → a_hash a ≠ digest_of p) :
  let '(ph, t') := put_policy q id t in
  ph = Answered (Created (n + 1)) ∧ settled (repository q) (n + 1) t' ∧
  getActive (repository q) t' =
    Some {| a_version := n + 1; etag := num_to_string (n + 1);
            a_policyJson := jsonb_text (stringify (data_json p)); a_hash := digest_of p;
            a_createdBy := userId q |} ∧
  listVersions (repository q) t' = take 50 ((n + 1, userId q, digest_of p) :: listVersions (repository q) t) ∧
  ∀ r, uuid_text r ≠ repository q → getActive r t' = getActive r t.
Proof.
  rewrite (saved q p n id t) by done. set (c := {| repositoryId := repository q |}).
  destruct (saved_settled (repository q) id c (userId q) n t Hspell Hs Hid eq_refl) as [Hs' Hget].
  split_and!; [done|done|exact Hget| |].
  - etrans; [apply (list_appended (repository q) id c t eq_refl)|]. by rewrite Hspell, (proj1 Hs).
  - intros r Hne. by apply other_repository.
Qed.

(* @prop error 5.85 : put_step after_read expected_version activateHead getActive / a_lost_race_jams_the_policy_witness *)
(** C23. A lost race jams a policy for good.  The number the client must send is compared with
    the active version's number before the version is stored, and with the head's row version
    after.  Once these differ (two first saves that overlap are enough) and no save under way still
    holds the head's row version as the number it expects, no number passes both comparisons.  From
    then on, whatever any client sends, the head stays where it is and no save is answered as
    created; yet a save whose number passes the first comparison adds its version to the table and
    is answered with a conflict, or with a failure where it spells the repository otherwise than
    the tables do. *)
Theorem a_lost_race_jams_the_policy `{Digest} `{Jsonb} r h w w'
  (Hw : rtc step (empty_tables, []) w) (Hj : jammed r h w) (Hw' : rtc step w w') :
  heads w'.1 !! r = Some h ∧
  (∀ i q n, w'.2 !! i = Some (q, Answered (Created n)) → uuid_text (repository q) = r →
     w.2 !! i = Some (q, Answered (Created n))) ∧
  (∀ q p e id, uuid_text (repository q) = r → check_put q = inl p → row_of id (versions w'.1) = None →
     after_read q p (getActive (repository q) w'.1) = Appending p e →
     (put_policy q id w'.1).1 ∈ [Answered VersionConflict; Answered Failed] ∧
     heads (put_policy q id w'.1).2 = heads w'.1 ∧
     ∃ v, versions (put_policy q id w'.1).2 = versions w'.1 ++ [v] ∧ canonicalHash (content v) = digest_of p).
Proof.
  apply (steps_sane _ _ empty_sane) in Hw as Hs.
  destruct (jammed_steps r h w w' Hs Hj Hw') as [Hj' Hback]. split_and!; [by destruct Hj'|done|].
  intros q p e id Hr Hc Hid Ha. by apply (jammed_save r h w' q p e id).
Qed.

(** ** Two saves that overlap *)

(** The statements in the order given: the index of a request, and the identifier a new row
    gets. *)
Fixpoint run `{Digest} `{Jsonb} (l : list (nat * string)) (w : world) : world :=
  match l with
  | [] => w
  | (i, id) :: l =>
      match w.2 !! i, row_of id (versions w.1) with
      | Some (q, ph), None =>
          run l ((put_step q id ph w.1).2, <[i := (q, (put_step q id ph w.1).1)]> w.2)
      | _, _ => run l w
      end
  end.

Lemma run_steps `{Digest} `{Jsonb} l w : rtc step w (run l w).
Proof.
  revert w. induction l as [|[i id] l IH]; intros [t hs]; [apply rtc_refl|]. cbn [run fst snd].
  destruct (hs !! i) as [[q ph]|] eqn:Hi; [|apply IH].
  destruct (row_of id (versions t)) eqn:Hid; [apply IH|]. eapply rtc_l; [by apply Advances|]. apply IH.
Qed.

#[local] Instance sample_digest : Digest := λ s, s.
#[local] Instance sample_jsonb : Jsonb := λ s, s.

Definition sample_draft (o : string) : RepositoryPolicyV1 := conservativeDefaults o "app".

Definition sample_put (o : string) (if_match : option string) : PutRequest := {|
  repository := "r"; userId := o; idempotencyKey := Some "0123456789abcdef"; ifMatch := if_match;
  body := Some (JObj [("draft", data_json (sample_draft o));
                      ("draftDigest", JStr (stringify (data_json (sample_draft o))))])
|}.

Definition arrived : world := (empty_tables, [(sample_put "ann" None, Start); (sample_put "bob" None, Start)]).

Lemma arrivals : rtc step (empty_tables, []) arrived.
Proof.
  eapply rtc_l; [apply (Arrives _ _ (sample_put "ann" None))|]. eapply rtc_once, (Arrives _ [_]).
Qed.

(** Both read, both store their version, and the second is first to move the head. *)
Definition raced : world := run [(0%nat, "a"); (1%nat, "b"); (0%nat, "a"); (1%nat, "b"); (1%nat, "c")] arrived.

Definition raced_head : HeadRow := {| active_policy_version_id := "b"; updated_by := "bob"; row_version := 1 |}.

Lemma raced_jammed : jammed "r" raced_head raced.
Proof.
  split_and!; [vm_compute; done| |].
  - eexists. split; [vm_compute; reflexivity|]. vm_compute. done.
  - assert (Hall : Forall (λ x, harmless "r" raced_head x.1 x.2) raced.2).
    { vm_compute. repeat constructor; done. }
    intros i q ph Hi. by apply (Forall_lookup_1 _ _ _ _ Hall Hi).
Qed.

Lemma policies_are_kept_witness :
  rtc step (empty_tables, []) raced ∧ well_formed raced.1.
Proof.
  assert (Hr : rtc step (empty_tables, []) raced) by (etrans; [apply arrivals|apply run_steps]).
  split; [done|]. exact (proj1 (policies_are_kept raced raced Hr (rtc_refl _ _))).
Defined.

(** A third client, which saw the active version, number 2, and saves after the race. *)
Definition later : world :=
  run [(2%nat, "d"); (2%nat, "d"); (2%nat, "e"); (2%nat, "e")]
      (raced.1, raced.2 ++ [(sample_put "cyd" (Some "2"), Start)]).

Lemma a_lost_race_jams_the_policy_witness :
  jammed "r" raced_head raced ∧ heads later.1 !! "r" = Some raced_head ∧
  option_map snd (later.2 !! 2%nat) = Some (Answered VersionConflict) ∧ length (versions later.1) = 3%nat.
Proof.
  assert (Hr : rtc step (empty_tables, []) raced) by (etrans; [apply arrivals|apply run_steps]).
  assert (Hl : rtc step raced later).
  { eapply rtc_l; [|apply run_steps]. exact (Arrives raced.1 raced.2 (sample_put "cyd" (Some "2"))). }
  split; [apply raced_jammed|]. split; [|vm_compute; done].
  exact (proj1 (a_lost_race_jams_the_policy "r" raced_head raced later Hr raced_jammed Hl)).
Defined.

Lemma save_is_read_back_witness :
  let q := sample_put "ann" (Some "0") in
  check_put q = inl (sample_draft "ann") ∧ (put_policy q "v" empty_tables).1 = Answered (Created 1).
Proof.
  intros q. assert (Hc : check_put q = inl (sample_draft "ann")) by (vm_compute; reflexivity).
  split; [done|].
  assert (Hs : settled (repository q) 0 empty_tables) by (split; reflexivity).
  assert (Hnew : ∀ a, getActive (repository q) empty_tables = Some a → a_hash a ≠ digest_of (sample_draft "ann"))
    by done.
  pose proof (save_is_read_back q (sample_draft "ann") 0 "v" empty_tables eq_refl (proj1 empty_sane) Hs eq_refl Hc
                (or_intror eq_refl) Hnew) as Hsave.
  destruct (put_policy q "v" empty_tables) as [ph t']. exact (proj1 Hsave).
Defined.

(** Without an [If-Match] the third client fares no better. *)
Example no_number_passes :
  map (λ m, (put_policy (sample_put "cyd" m) "d" raced.1).1) [None; Some "1"; Some "2"; Some "3"] =
  [Answered VersionConflict; Answered VersionConflict; Answered VersionConflict; Answered VersionConflict].
Proof. vm_compute. reflexivity. Qed.

(** A draft that allows and denies one action, without a limit and for another repository, is
    stored: the routes check its schema only. *)
Example contradictions_are_stored :
  let p := {| owner := "evil"; name := "other"; level := autonomous; triggers := []; manualCommands := ["nope"];
              allow := ["commit.push"]; requireApproval := []; deny := ["commit.push"]; obligations := [];
              maxFilesChanged := Some 100000; maxIterations := None; maxRuntimeMinutes := None |} in
  let q := {| repository := "r"; userId := "ann"; idempotencyKey := Some "0123456789abcdef"; ifMatch := None;
              body := Some (JObj [("draft", data_json p); ("draftDigest", JStr (stringify (data_json p)))]) |} in
  (put_policy q "v" empty_tables).1 = Answered (Created 1) ∧
  ok (validateSemantics p {| expectedOwner := Some "acme"; expectedName := Some "app";
                             registries := EMPTY_REGISTRIES |} []) = false.
Proof. vm_compute. done. Qed.

(** The developer level is above assist, and no danger is reported. *)
Example developer_is_not_dangerous :
  classifyDanger {| owner := "a"; name := "b"; level := developer; triggers := []; manualCommands := [];
                    allow := []; requireApproval := []; deny := []; obligations := [];
                    maxFilesChanged := None; maxIterations := None; maxRuntimeMinutes := None |} = [].
Proof. reflexivity. Qed.

(** An identifier in upper case, which the gate of the routes accepts: the version is stored under
    the repository, then refused as that of another; and the next save in the right spelling
    leaves the head out of step with its version, so that no save succeeds after it. *)
Example upper_case_ids_fail_late :
  let upper := {| repository := "R"; userId := "ann"; idempotencyKey := Some "0123456789abcdef"; ifMatch := None;
                  body := body (sample_put "ann" None) |} in
  let first := put_policy upper "a" empty_tables in
  let second := put_policy (sample_put "bob" None) "b" first.2 in
  first.1 = Answered Failed ∧ length (versions first.2) = 1%nat ∧ heads first.2 = ∅ ∧
  second.1 = Answered (Created 2) ∧
  map (λ m, (put_policy (sample_put "cyd" m) "c" second.2).1) [None; Some "1"; Some "2"] =
  [Answered VersionConflict; Answered VersionConflict; Answered VersionConflict].
Proof. vm_compute. done. Qed.
