(* ===== verification/Authorization.v ===== *)
(** * Repository authorization

    [packages/authorization/src/]: capabilities and the roles they ask for ([capabilities.ts],
    the table of [service.ts]), the service that decides a query, the HTTP gate over it
    ([apps/api/src/authorization/http.ts]) and the adapter the worker gives to the comment
    service ([apps/worker/src/composition/comment-authorizer.ts]).  A decision is a program over
    the local linkage, GitHub, the evidence store, the clock and the source of ids. *)

From S2P Require Import Prelude JsString Effects JsDate Json Contracts.

(** ** Capabilities and roles *)

(* @src packages/authorization/src/capabilities.ts:11-21 RepositoryCapability *)
Definition RepositoryCapability : list string :=
  ["repository:read"; "repository:connect"; "policy:read"; "policy:write"; "workflow:start";
   "workflow:cancel"; "approval:resolve"; "artifact:read"; "repository:privileged_action"].

(* @src packages/authorization/src/capabilities.ts:25-33 FRESH_REQUIRED *)
Definition FRESH_REQUIRED : list string :=
  ["policy:write"; "approval:resolve"; "repository:privileged_action"; "workflow:cancel";
   "repository:connect"].

(* @src packages/authorization/src/capabilities.ts:35-37 requiresFreshCheck *)
Definition requiresFreshCheck (capability : string) : bool := str_in capability FRESH_REQUIRED.

(* @src packages/authorization/src/capabilities.ts:156-156 NormalizedGitHubRole *)
Inductive NormalizedGitHubRole := admin | maintain | write | triage | read | none.

#[export] Instance NormalizedGitHubRole_eq_dec : EqDecision NormalizedGitHubRole.
Proof. solve_decision. Defined.

(* @src packages/authorization/src/service.ts:45-55 ROLE_FLOOR *)
Definition ROLE_FLOOR : list (string * list NormalizedGitHubRole) :=
  [("repository:read", [read; triage; write; maintain; admin]);
   ("artifact:read", [triage; write; maintain; admin]);
   ("policy:read", [triage; write; maintain; admin]);
   ("workflow:start", [write; maintain; admin]);
   ("workflow:cancel", [write; maintain; admin]);
   ("policy:write", [maintain; admin]);
   ("approval:resolve", [maintain; admin]);
   ("repository:privileged_action", [maintain; admin]);
   ("repository:connect", [admin])].

(* @src packages/authorization/src/service.ts:57-60 roleSatisfies *)
Definition roleSatisfies (role : NormalizedGitHubRole) (capability : string) : bool :=
  match assoc capability ROLE_FLOOR with Some allowed => includes allowed role | None => false end.

(** ** Queries *)

(* @src packages/authorization/src/capabilities.ts:51-54 PrincipalRef *)
Record Binding := { workflowRunId : option string; approvalId : option string }.

(* @src packages/authorization/src/capabilities.ts:39-55 PrincipalRef *)
Inductive PrincipalRef :=
  | user (userId issuer providerSubject : string)
  | system (serviceId : string) (binding : Binding).

(* @src packages/authorization/src/capabilities.ts:61-67 AuthorizationQueryShape *)
Record OperationContext := {
  ctx_workflowRunId : option string;
  ctx_approvalId : option string;
  ctx_targetExternalId : option string
}.

(* @src packages/authorization/src/capabilities.ts:57-68 AuthorizationQueryShape *)
Record AuthorizationQueryShape := {
  principal : PrincipalRef;
  repositoryId : string;
  capability : string;
  context : option OperationContext
}.

Definition id128 (s : string) : bool := len_between 1 128 s.
Definition optional (f : string → bool) (o : option string) : bool :=
  match o with Some s => f s | None => true end.

(** [/^[a-z][a-z0-9.-]{2,64}$/]. *)
Definition service_id (s : string) : bool :=
  match s with
  | String c t =>
      is_lower c && chars_between (λ c, is_lower c || is_digit c || char_in ".-" c) 2 64 t
  | EmptyString => false
  end.

(** The fields of a query of this shape that its schema accepts. *)
(* @src packages/authorization/src/capabilities.ts:70-105 authorizationQuery *)
Definition authorizationQuery (q : AuthorizationQueryShape) : bool :=
  match principal q with
  | user u i p => id128 u && id128 i && id128 p
  | system s b => service_id s && optional id128 (workflowRunId b) && optional id128 (approvalId b)
  end &&
  id128 (repositoryId q) && str_in (capability q) RepositoryCapability &&
  match context q with
  | Some c => optional id128 (ctx_workflowRunId c) && optional id128 (ctx_approvalId c) &&
              optional id128 (ctx_targetExternalId c)
  | None => true
  end.

(** ** Ports *)

Inductive Effect := allow | deny.

#[export] Instance Effect_eq_dec : EqDecision Effect.
Proof. solve_decision. Defined.

(* @src packages/authorization/src/capabilities.ts:115-115 AuthorizationSource *)
Inductive AuthorizationSource := local | github | cache.

(* @src packages/authorization/src/capabilities.ts:117-129 AuthorizationEvidenceRecord *)
Record AuthorizationEvidenceRecord := {
  id : string;
  ev_repositoryId : string;
  subjectKey : string;
  ev_capability : string;
  ev_effect : Effect;
  ev_reasonCode : string;
  source : AuthorizationSource;
  providerSnapshotHash : option string;
  checkedAt : string;
  expiresAt : option string
}.

(* @src packages/authorization/src/capabilities.ts:136-136 LocalRepositoryAccessPort *)
Inductive LinkageStatus := pending | active | degraded | disconnected.

(* @src packages/authorization/src/capabilities.ts:134-146 LocalRepositoryAccessPort *)
Record Linkage := {
  status : LinkageStatus;
  installationRef : string;
  repositoryExternalIdHint : option string
}.

(* @src packages/authorization/src/capabilities.ts:158-175 GitHubPermissionPort *)
Inductive AuthzCall :=
  | findLinkage_ (repositoryId : string)
  | fetchUserRole_ (installationRef : string) (hint : option string) (providerSubject : string)
  | append_ (record : AuthorizationEvidenceRecord)
  | findFresh_ (subjectKey repositoryId capability : string) (nowMs : Z)
  | now_
  | randomUUID_.

(* @src packages/authorization/src/service.ts:25-32 AuthorizationServiceDeps *)
Definition AuthzAns (c : AuthzCall) : Type :=
  match c with
  | findLinkage_ _ => option Linkage
  | fetchUserRole_ _ _ _ => NormalizedGitHubRole * string
  | append_ _ => unit
  | findFresh_ _ _ _ _ => option AuthorizationEvidenceRecord
  | now_ => Z
  | randomUUID_ => string
  end.

(** ** The service *)

(* @src packages/authorization/src/service.ts:38-42 AuthorizationResult *)
Record AuthorizationResult := {
  effect : Effect;
  reasonCode : string;
  evidenceId : option string
}.

(* @src packages/authorization/src/service.ts:239-242 deny *)
Definition denied (reason : string) : AuthorizationResult :=
  {| effect := deny; reasonCode := reason; evidenceId := None |}.

(* @src packages/authorization/src/service.ts:62-64 subjectKeyOf *)
Definition subjectKeyOf (p : PrincipalRef) : string :=
  match p with user u _ _ => "user:" +s u | system s _ => "system:" +s s end.

(* @src packages/authorization/src/service.ts:197-197 authorizeSystemActor *)
Definition systemAllowed : list string := ["workflow:start"; "workflow:cancel"; "approval:resolve"].

(** One requested id against the one the actor is bound to. *)
(* @src packages/authorization/src/service.ts:212-222 authorizeSystemActor *)
Definition bound_to (bound requested : option string) (what : string) : option AuthorizationResult :=
  match bound, requested with
  | None, _ => Some (denied ("system_actor_missing_" +s what +s "_binding"))
  | _, None => Some (denied ("system_actor_missing_" +s what +s "_context"))
  | Some b, Some r => if b =s? r then None else Some (denied "system_actor_binding_mismatch")
  end.

(* @src packages/authorization/src/service.ts:190-236 authorizeSystemActor *)
Definition authorizeSystemActor (binding : Binding) (q : AuthorizationQueryShape)
  : AuthorizationResult :=
  let cap := capability q in
  let scoped := {| effect := allow; reasonCode := "system_actor_scoped"; evidenceId := None |} in
  if negb (str_in cap systemAllowed) then denied "system_actor_capability_forbidden"
  else
    let needsRun := (cap =s? "workflow:start") || (cap =s? "workflow:cancel") in
    let needsApproval := cap =s? "approval:resolve" in
    if needsRun || needsApproval then
      match context q with
      | None => denied "system_actor_missing_operation_context"
      | Some c =>
          match (if needsRun then bound_to (workflowRunId binding) (ctx_workflowRunId c) "run"
                 else None) with
          | Some d => d
          | None =>
              match (if needsApproval
                     then bound_to (approvalId binding) (ctx_approvalId c) "approval"
                     else None) with
              | Some d => d
              | None => scoped
              end
          end
      end
    else scoped.

Section Service.
Context (readCacheTtlSeconds : Z).

Definition lift_iso {T} (o : outcome T) : proc AuthzAns T := Done o.

(** The evidence of a role, and the answer. *)
(* @src packages/authorization/src/service.ts:158-187 authorize *)
Definition decide_role (q : AuthorizationQueryShape) (role : NormalizedGitHubRole)
    (snapshotHash : string) : proc AuthzAns AuthorizationResult :=
  let allowed := roleSatisfies role (capability q) in
  checked <~ call (Ans := AuthzAns) now_ ;;
  uuid <~ call (Ans := AuthzAns) randomUUID_ ;;
  checkedIso <~ lift_iso (toISOString checked) ;;
  expires <~ (if allowed && negb (requiresFreshCheck (capability q))
              then iso <~ lift_iso (toISOString (checked + readCacheTtlSeconds * 1000)) ;;
                   pret (Some iso)
              else pret None) ;;
  let reason := if allowed then "role_satisfies_floor" else "role_below_floor" in
  call (Ans := AuthzAns) (append_
    {| id := uuid; ev_repositoryId := repositoryId q; subjectKey := subjectKeyOf (principal q);
       ev_capability := capability q; ev_effect := if allowed then allow else deny;
       ev_reasonCode := reason; source := github; providerSnapshotHash := Some snapshotHash;
       checkedAt := checkedIso; expiresAt := expires |}) ;~
  pret (if negb allowed then denied "role_below_floor"
        else {| effect := allow; reasonCode := reason; evidenceId := Some uuid |}).

(** GitHub's answer on the user's role, when no evidence is used. *)
(* @src packages/authorization/src/service.ts:138-156 authorize *)
Definition ask_github (q : AuthorizationQueryShape) (l : Linkage) (providerSubject : string)
  : proc AuthzAns AuthorizationResult :=
  fetched <~ ptry (call (Ans := AuthzAns)
                     (fetchUserRole_ (installationRef l) (repositoryExternalIdHint l) providerSubject))
                  (λ _, throw (GuardError "DEPENDENCY_UNAVAILABLE")) ;;
  let '(role, snapshot) := (fetched : NormalizedGitHubRole * string) in
  decide_role q role snapshot.

(** From the linkage on; [systemResult] is the allowance of a system actor. *)
(* @src packages/authorization/src/service.ts:90-138 authorize *)
Definition authorize_linked (q : AuthorizationQueryShape) (freshness : bool)
    (systemResult : option AuthorizationResult) : proc AuthzAns AuthorizationResult :=
  linkage <~ call (Ans := AuthzAns) (findLinkage_ (repositoryId q)) ;;
  match linkage with
  | None | Some {| status := disconnected |} => throw (GuardError "REPOSITORY_FORBIDDEN")
  | Some {| status := pending |} => pret (denied "linkage_pending")
  | Some l =>
      match systemResult, principal q with
      | Some r, _ =>
          uuid <~ call (Ans := AuthzAns) randomUUID_ ;;
          now <~ call (Ans := AuthzAns) now_ ;;
          iso <~ lift_iso (toISOString now) ;;
          call (Ans := AuthzAns) (append_
            {| id := uuid; ev_repositoryId := repositoryId q;
               subjectKey := subjectKeyOf (principal q); ev_capability := capability q;
               ev_effect := allow; ev_reasonCode := reasonCode r; source := local;
               providerSnapshotHash := None; checkedAt := iso; expiresAt := None |}) ;~
          pret r
      | None, system _ _ => pret (denied "unexpected_actor")
      | None, user _ _ providerSubject =>
          nowMs <~ call (Ans := AuthzAns) now_ ;;
          if negb (freshness || requiresFreshCheck (capability q)) then
            cached <~ call (Ans := AuthzAns)
                        (findFresh_ (subjectKeyOf (principal q)) (repositoryId q) (capability q)
                           nowMs) ;;
            match cached with
            | Some e => pret {| effect := ev_effect e; reasonCode := ev_reasonCode e;
                                evidenceId := Some (id e) |}
            | None => ask_github q l providerSubject
            end
          else ask_github q l providerSubject
      end
  end.

(* @src packages/authorization/src/service.ts:69-89 authorize *)
Definition authorize (q : AuthorizationQueryShape) (freshness : bool)
  : proc AuthzAns AuthorizationResult :=
  if negb (authorizationQuery q) then pret (denied "malformed_query")
  else match principal q with
  | system _ b =>
      let r := authorizeSystemActor b q in
      if bool_decide (effect r = deny) then pret r else authorize_linked q freshness (Some r)
  | user _ _ _ => authorize_linked q freshness None
  end.

(* @src packages/authorization/src/service.ts:245-249 requireAllow *)
Definition requireAllow (r : AuthorizationResult) : outcome unit :=
  if negb (bool_decide (effect r = allow)) then Threw (GuardError "REPOSITORY_FORBIDDEN")
  else Returned ().

(** The HTTP gate: the principal of the request, if any. *)
(* @src apps/api/src/authorization/http.ts:25-43 requireCapability *)
Definition requireCapability (p : option (string * string * string)) (cap repositoryId_ : string)
  : proc AuthzAns unit :=
  match p with
  | None => throw (GuardError "UNAUTHENTICATED")
  | Some (userId, issuer, providerSubject) =>
      result <~ authorize {| principal := user userId issuer providerSubject;
                             repositoryId := repositoryId_; capability := cap;
                             context := None |} false ;;
      lift_iso (requireAllow result)
  end.

(** The comment service's authorizer: allowed, and why. *)
(* @src apps/worker/src/composition/comment-authorizer.ts:4-20 repositoryAuthorizerAdapter *)
Definition authorizeWorkflowStart (userId issuer providerSubject repositoryId_ : string)
  : proc AuthzAns (bool * string) :=
  result <~ authorize {| principal := user userId issuer providerSubject;
                         repositoryId := repositoryId_; capability := "workflow:start";
                         context := None |} false ;;
  pret (bool_decide (effect result = allow), reasonCode result).
End Service.

(** ** Roles *)

Definition rank (r : NormalizedGitHubRole) : Z :=
  match r with none => 0 | read => 1 | triage => 2 | write => 3 | maintain => 4 | admin => 5 end.

(** A higher role can do whatever a lower one can, an administrator can do everything, and no
    role at all nothing. *)
Theorem roles_monotone r r' cap :
  (roleSatisfies r cap = true → rank r ≤ rank r' → roleSatisfies r' cap = true) ∧
  (str_in cap RepositoryCapability = true ↔ roleSatisfies admin cap = true) ∧
  roleSatisfies none cap = false.
Proof.
  unfold roleSatisfies, str_in, RepositoryCapability, ROLE_FLOOR. cbn [assoc existsb].
  repeat match goal with |- context [String.eqb cap ?k] =>
    destruct (String.eqb_spec cap k) as [->|_]; [by destruct r, r'|] end.
  by destruct r, r'.
Qed.

(** ** What an allowance rests on *)

Section Justified.
Context (readCacheTtlSeconds : Z) (q : AuthorizationQueryShape) (freshness : bool).

Definition seen (tr : list (event AuthzAns)) (c : AuthzCall) (a : AuthzAns c) : Prop :=
  ev c (Returned a) ∈ tr.

(** The repository is linked, and not disconnected or pending. *)
Definition linked (tr : list (event AuthzAns)) (l : Linkage) : Prop :=
  seen tr (findLinkage_ (repositoryId q)) (Some l) ∧ (status l = active ∨ status l = degraded).

(** GitHub gave the user a role that suffices, on the linked repository. *)
Definition role_given (tr : list (event AuthzAns)) : Prop :=
  ∃ u i p l role snapshot, principal q = user u i p ∧ linked tr l ∧
    seen tr (fetchUserRole_ (installationRef l) (repositoryExternalIdHint l) p) (role, snapshot) ∧
    roleSatisfies role (capability q) = true.

(** The actor is bound to the very run or approval that the query is about. *)
Definition in_scope (b : Binding) : Prop :=
  ∃ c, context q = Some c ∧
    ((capability q = "workflow:start" ∨ capability q = "workflow:cancel") ∧
       workflowRunId b ≠ None ∧ workflowRunId b = ctx_workflowRunId c ∨
     capability q = "approval:resolve" ∧ approvalId b ≠ None ∧ approvalId b = ctx_approvalId c).

(** Evidence of an allowance is appended only for what was established, and evidence that a
    later query may reuse only where reuse is allowed. *)
Definition evidence_allowed (tr : list (event AuthzAns)) (c : AuthzCall) : Prop :=
  match c with
  | append_ e =>
      ev_repositoryId e = repositoryId q ∧ ev_capability e = capability q ∧
      subjectKey e = subjectKeyOf (principal q) ∧
      (ev_effect e = allow →
         role_given tr ∨ ∃ s b l, principal q = system s b ∧ in_scope b ∧ linked tr l) ∧
      (expiresAt e ≠ None → ev_effect e = allow ∧ requiresFreshCheck (capability q) = false)
  | findFresh_ _ _ _ _ => freshness = false ∧ requiresFreshCheck (capability q) = false
  | fetchUserRole_ _ _ p => ∃ u i, principal q = user u i p
  | _ => True
  end.

Definition justified (tr : list (event AuthzAns)) (o : outcome AuthorizationResult) : Prop :=
  match o with
  | Returned r =>
      effect r = allow →
      authorizationQuery q = true ∧
      (role_given tr ∧ (∃ e, seen tr (append_ e) () ∧ evidenceId r = Some (id e)) ∨
       (∃ s b l, principal q = system s b ∧ in_scope b ∧ linked tr l ∧ ∃ e, seen tr (append_ e) ()) ∨
       (freshness = false ∧ requiresFreshCheck (capability q) = false ∧
        ∃ l e now, linked tr l ∧
          seen tr (findFresh_ (subjectKeyOf (principal q)) (repositoryId q) (capability q) now) (Some e) ∧
          ev_effect e = allow ∧ evidenceId r = Some (id e)))
  | Threw _ => True
  end.

Lemma authorizeSystemActor_scope b :
  effect (authorizeSystemActor b q) = allow → in_scope b.
Proof.
  unfold authorizeSystemActor. cbv zeta.
  destruct (negb _) eqn:Hs; [done|]. breflect. apply str_in_spec in Hs.
  destruct (String.eqb_spec (capability q) "workflow:start") as [H1|H1],
    (String.eqb_spec (capability q) "workflow:cancel") as [H2|H2],
    (String.eqb_spec (capability q) "approval:resolve") as [H3|H3]; try congruence;
    cbn [orb]; [| | |unfold systemAllowed in Hs; in_cases Hs; congruence].
  all: destruct (context q) as [c|] eqn:Hc; [|done].
  all: destruct (bound_to _ _ _) as [d|] eqn:Hb; [unfold bound_to in Hb; by repeat case_match; simplify_eq/=|].
  all: intros _; exists c; split; [done|]; unfold bound_to in Hb;
    destruct (workflowRunId b) as [w|], (ctx_workflowRunId c) as [w'|],
      (approvalId b) as [a|], (ctx_approvalId c) as [a'|]; try done;
    case_match; breflect; simplify_eq; eauto 8.
Qed.

Lemma seen_app tr l c a : seen tr c a → seen (tr ++ l) c a.
Proof. intros H. apply elem_of_app. by left. Qed.

Lemma linked_app tr l k : linked tr k → linked (tr ++ l) k.
Proof. intros [H ?]. split; [by apply seen_app|done]. Qed.

Lemma seen_last tr c (a : AuthzAns c) : seen (tr ++ [ev c (Returned a)]) c a.
Proof. apply elem_of_app. right. left. Qed.

Lemma role_given_app tr l : role_given tr → role_given (tr ++ l).
Proof.
  intros (u & i & p & k & r & s & Hp & Hl & Hs & Hr). exists u, i, p, k, r, s.
  split_and!; [done|by apply linked_app|by apply seen_app|done].
Qed.

Lemma decide_role_justified tr role snapshot :
  authorizationQuery q = true → (roleSatisfies role (capability q) = true → role_given tr) →
  ensures evidence_allowed justified tr (decide_role readCacheTtlSeconds q role snapshot).
Proof.
  intros Hq Hgiven. unfold decide_role. cbv zeta. cbn [call pbind ensures]. split; [done|].
  intros [now|e]; [|done]. cbn [pbind call ensures]. split; [done|].
  intros [uuid|e]; [|done]. cbn [pbind lift_iso].
  set (tr1 := (tr ++ _) ++ _).
  assert (Hgiven1 : roleSatisfies role (capability q) = true → role_given tr1)
    by (intros; by do 2 apply role_given_app; auto). clearbody tr1.
  destruct (toISOString now) as [iso|e]; cbn [pbind]; [|done].
  assert (Happend : ∀ ex,
    (ex ≠ None → roleSatisfies role (capability q) = true ∧ requiresFreshCheck (capability q) = false) →
    ensures evidence_allowed justified tr1
      (call (Ans := AuthzAns) (append_
        {| id := uuid; ev_repositoryId := repositoryId q; subjectKey := subjectKeyOf (principal q);
           ev_capability := capability q;
           ev_effect := if roleSatisfies role (capability q) then allow else deny;
           ev_reasonCode := if roleSatisfies role (capability q)
                            then "role_satisfies_floor" else "role_below_floor";
           source := github; providerSnapshotHash := Some snapshot; checkedAt := iso;
           expiresAt := ex |}) ;~
       pret (if negb (roleSatisfies role (capability q)) then denied "role_below_floor"
             else {| effect := allow;
                     reasonCode := if roleSatisfies role (capability q)
                                   then "role_satisfies_floor" else "role_below_floor";
                     evidenceId := Some uuid |}))).
  { intros ex Hex. cbn [call pbind ensures]. split.
    - simpl. split_and!; try done; [|intros He; by destruct (Hex He) as [-> ?]].
      destruct (roleSatisfies role (capability q)); [|done]. intros _. left. by apply Hgiven1.
    - intros [u|e]; cbn [pbind pret ensures]; [|done]. unfold justified. intros Heff.
      split; [done|]. left. destruct (roleSatisfies role (capability q)); [|done].
      split; [by apply role_given_app, Hgiven1|]. eexists. split; [destruct u; apply seen_last|done]. }
  destruct (roleSatisfies role (capability q)) eqn:Hr, (requiresFreshCheck (capability q)) eqn:Hf;
    cbn [andb negb pbind pret]; try (by apply Happend).
  destruct (toISOString (now + _)) as [iso'|e]; cbn [lift_iso pbind pret]; [|done]. by apply Happend.
Qed.

Lemma ask_github_justified tr l u i p :
  authorizationQuery q = true → principal q = user u i p → linked tr l →
  ensures evidence_allowed justified tr (ask_github readCacheTtlSeconds q l p).
Proof.
  intros Hq Hp Hl. unfold ask_github. cbn [call ptry pbind ensures]. split; [by exists u, i|].
  intros [[role snapshot]|e]; cbn [ptry pbind throw]; [|done].
  apply decide_role_justified; [done|]. intros Hr. exists u, i, p, l, role, snapshot.
  split_and!; [done|by apply linked_app|apply seen_last|done].
Qed.

Lemma authorize_linked_justified systemResult :
  authorizationQuery q = true →
  match systemResult with
  | Some r => ∃ s b, principal q = system s b ∧ in_scope b
  | None => ∃ u i p, principal q = user u i p
  end →
  ensures evidence_allowed justified [] (authorize_linked readCacheTtlSeconds q freshness systemResult).
Proof.
  intros Hq Hsys. unfold authorize_linked. cbn [call pbind ensures app]. split; [done|].
  intros [linkage|e]; [|done]. cbn [pbind].
  destruct linkage as [l|]; [|done].
  assert (Hl : status l = active ∨ status l = degraded →
    linked [ev (findLinkage_ (repositoryId q)) (Returned (Some l))] l)
    by (intros Hs; split; [apply (seen_last [])|done]).
  destruct l as [[] ref hint]; try done; specialize (Hl ltac:(by auto)).
  all: destruct systemResult as [r|].
  1, 3: destruct Hsys as (s & b & Hp & Hscope); cbn [call pbind ensures app]; split; [done|];
    intros [uuid|e]; [|done]; cbn [call pbind ensures app]; split; [done|];
    intros [now|e]; [|done]; cbn [pbind lift_iso];
    destruct (toISOString now) as [iso|e]; cbn [call pbind ensures app]; [|done]; split;
    [split_and!; try done; intros _; right; exists s, b; eexists; split_and!; [done..|];
       apply (linked_app [_]); exact Hl
    |intros [u|e]; [|done]; cbn [pbind pret ensures]; intros _; split; [done|]; right; left;
     exists s, b; eexists; split_and!; [done..|apply (linked_app [_]); exact Hl|];
     eexists; destruct u; apply (seen_last [_; _; _])].
  all: destruct Hsys as (u & i & p & Hp); rewrite Hp; cbn [call pbind ensures app]; split; [done|];
    intros [now|e]; [|done]; cbn [pbind]; destruct (negb _) eqn:Hfresh;
    [|apply (ask_github_justified _ _ u i p); [done|done|apply (linked_app [_]); exact Hl]];
    apply negb_true_iff, orb_false_iff in Hfresh as [Hf1 Hf2];
    cbn [call pbind ensures app]; split; [done|];
    intros [[ev0|]|e]; [| |done]; cbn [pbind pret ensures];
    [|apply (ask_github_justified _ _ u i p); [done|done|apply (linked_app [_]); exact Hl]].
  all: intros He; split; [done|]; right; right; split_and!; [done..|];
    eexists; exists ev0, now; split_and!; [apply (linked_app [_]); exact Hl| |exact He|done];
    rewrite Hp; apply (seen_last [_; _]).
Qed.
End Justified.

(* @prop safety 5.51 : authorize authorize_linked authorizeSystemActor decide_role ask_github authorizationQuery requiresFreshCheck roleSatisfies subjectKeyOf *)
(** C20. Nobody is allowed anything without a reason, whatever the linkage, GitHub, the evidence
    store and the clock answer or throw.  An allowance follows only on a well-formed query and a
    repository linked as active or degraded, and then rests on one of three things: a role
    GitHub just gave this very user on the linked repository and that meets the floor of the
    capability, recorded as evidence; a system actor bound to the very run or approval the query
    names, recorded too; or, when neither the caller nor the capability demands a fresh check,
    an allowance found in the evidence for this subject, repository and capability.  Evidence is
    appended as an allowance only for what was established, and with an expiry -- as reusable --
    only where reuse is allowed; a fresh capability never reads the evidence. *)
Theorem allowance_is_justified readCacheTtlSeconds q freshness :
  ensures (evidence_allowed q freshness) (justified q freshness) []
    (authorize readCacheTtlSeconds q freshness).
Proof.
  unfold authorize. destruct (negb (authorizationQuery q)) eqn:Hq; [done|].
  apply negb_false_iff in Hq. destruct (principal q) as [u i p|s b] eqn:Hp.
  - apply authorize_linked_justified; [done|]. by exists u, i, p.
  - cbv zeta. case_bool_decide as Hd; [by intros He; simpl in He; congruence|].
    apply authorize_linked_justified; [done|]. exists s, b. split; [done|].
    apply authorizeSystemActor_scope. by destruct (effect _).
Qed.

(** The worker keeps no evidence: its comment commands start a workflow only for a user to whom
    GitHub gave a role that can write, on the linked repository, in this very decision. *)
Theorem comment_needs_write {W} (port : ∀ c, W → outcome (AuthzAns c) * W) ttl u i p repo w reason :
  (∀ s r c t w, (port (findFresh_ s r c t) w).1 = Returned None) →
  (final port (authorizeWorkflowStart ttl u i p repo) w).1 = Returned (true, reason) →
  ∃ role snapshot ref hint before after,
    port (fetchUserRole_ ref hint p) before = (Returned (role, snapshot), after) ∧
    rank write ≤ rank role.
Proof.
  intros Hnone Hrun. set (q := {| principal := user u i p; repositoryId := repo;
    capability := "workflow:start"; context := None |}).
  assert (Hport : ∀ A (pr : proc AuthzAns A) w, let '(_, tr, _) := exec port pr w in
    Forall (λ e, ∃ before, (port (ev_call e) before).1 = projT2 e) tr).
  { intros A pr. induction pr as [o|c k IH]; intros w0; simpl; [constructor|].
    destruct (port c w0) as [o w1] eqn:Hc. specialize (IH o w1).
    destruct (exec port (k o) w1) as [[r tr] w2]. constructor; [|done].
    exists w0. simpl. by rewrite Hc. }
  pose proof (allowance_is_justified ttl q false) as Hens.
  apply (ensures_exec _ _ port _ w) in Hens. specialize (Hport _ (authorize ttl q false) w).
  unfold authorizeWorkflowStart in Hrun. fold q in Hrun. rewrite final_pbind in Hrun.
  unfold final in Hrun. destruct (exec port (authorize ttl q false) w) as [[[r|e] tr] w'];
    [|done]. cbn [fst] in Hrun. destruct Hens as [Hj _]. cbn [app] in Hj.
  simpl in Hrun. injection Hrun as Hallow _. apply bool_decide_eq_true in Hallow.
  destruct (Hj Hallow) as [_ [[Hr _]|[(s & b & l & Hp & _)|(_ & _ & l & e & now & _ & Hs & _)]]].
  - destruct Hr as (u' & i' & p' & l & role & snapshot & Hp & _ & Hs & Hsat). injection Hp as -> -> ->.
    unfold seen in Hs. rewrite Forall_forall in Hport. destruct (Hport _ Hs) as [before Hb].
    destruct (port _ before) as [o after] eqn:Heq in Hb. cbn in Hb. subst o.
    exists role, snapshot, (installationRef l), (repositoryExternalIdHint l), before, after.
    split; [exact Heq|]. by destruct role.
  - done.
  - unfold seen in Hs. rewrite Forall_forall in Hport. destruct (Hport _ Hs) as [before Hb].
    cbn [ev_call ev projT1 projT2] in Hb. rewrite Hnone in Hb. done.
Qed.
