(* ===== verification/Gateway.v ===== *)
(** * The policy gateway of agent tool calls

    [packages/agent/src/policy-gateway/]: tool profiles ([tool-profiles.ts]), the checks on a
    call's arguments ([argument-normalizer.ts]), the store of intents ([intent-store.ts]) and the
    gateway that turns a proposal into a disposition and, later, an approved intent into a grant
    ([mcp-policy-gateway.ts]).  A gateway method is a program over the policy decision, the
    store, the event sink, the clock, the source of ids and its own table of links. *)

From S2P Require Import Prelude JsString Effects Json Contracts.

(** ** Contracts *)

(* @src packages/agent/src/policy-gateway/contracts.ts:16-17 TOOL_POLICY_RESULTS *)
Inductive ToolPolicyResult := ALLOW | DENY | APPROVAL_REQUIRED.

#[export] Instance ToolPolicyResult_eq_dec : EqDecision ToolPolicyResult.
Proof. solve_decision. Defined.

(* @src packages/agent/src/policy-gateway/contracts.ts:19-32 TOOL_INTENT_STATUSES *)
Inductive ToolIntentStatus :=
  PROPOSED | EVALUATING | ALLOWED | DENIED | WAITING_APPROVAL | AUTHORIZED_EXECUTION | EXECUTING
| COMPLETED | FAILED | CANCELLED | STALE.

#[export] Instance ToolIntentStatus_eq_dec : EqDecision ToolIntentStatus.
Proof. solve_decision. Defined.

Definition status_text (s : ToolIntentStatus) : string :=
  match s with
  | PROPOSED => "PROPOSED" | EVALUATING => "EVALUATING" | ALLOWED => "ALLOWED"
  | DENIED => "DENIED" | WAITING_APPROVAL => "WAITING_APPROVAL"
  | AUTHORIZED_EXECUTION => "AUTHORIZED_EXECUTION" | EXECUTING => "EXECUTING"
  | COMPLETED => "COMPLETED" | FAILED => "FAILED" | CANCELLED => "CANCELLED" | STALE => "STALE"
  end.

Definition result_text (r : ToolPolicyResult) : string :=
  match r with
  | ALLOW => "ALLOW" | DENY => "DENY" | APPROVAL_REQUIRED => "APPROVAL_REQUIRED"
  end.

(* @src packages/agent/src/policy-gateway/contracts.ts:67-67 providerRisk *)
Inductive ProviderRisk := read_only | low | medium | high | mutative_external.

#[export] Instance ProviderRisk_eq_dec : EqDecision ProviderRisk.
Proof. solve_decision. Defined.

(* @src packages/agent/src/policy-gateway/contracts.ts:46-55 ToolProposal *)
Record ToolProposal := {
  p_provider : string;
  p_sessionId : string;
  p_turnId : string;
  p_providerToolCallId : string;
  p_toolName : string;
  p_schemaVersion : string;
  rawArgumentsDigest : string;
  toolProfileId : string
}.

(* @src packages/agent/src/policy-gateway/contracts.ts:34-45 toolProposalSchema *)
Definition toolProposalSchema (p : ToolProposal) : bool :=
  len_between 1 64 (p_provider p) && len_between 1 128 (p_sessionId p) &&
  len_between 1 128 (p_turnId p) && len_between 1 128 (p_providerToolCallId p) &&
  len_between 1 128 (p_toolName p) && len_between 1 32 (p_schemaVersion p) &&
  hex64 (rawArgumentsDigest p) && len_between 1 128 (toolProfileId p).

(* @src packages/agent/src/policy-gateway/contracts.ts:77-94 ToolCallIntent *)
Record ToolCallIntent := {
  id : string;
  provider : string;
  sessionId : string;
  turnId : string;
  providerToolCallId : string;
  toolName : string;
  profileId : string;
  actionId : string;
  providerRisk : ProviderRisk;
  policyDecision : ToolPolicyResult;
  status : ToolIntentStatus;
  normalizedArgumentsDigest : string;
  idempotencyKey : string;
  cancellationGeneration : Z;
  createdAtIso : string;
  updatedAtIso : string
}.

(* @src packages/agent/src/policy-gateway/contracts.ts:112-121 CheckpointLink *)
Record CheckpointLink := {
  link_id : string;
  toolIntentId : string;
  link_actionId : string;
  link_sessionId : string;
  link_turnId : string;
  providerCheckpointRef : string;
  syncStatus : string;
  link_createdAtIso : string
}.

(* @src packages/agent/src/policy-gateway/contracts.ts:123-131 ToolProfileEntry *)
Record ToolProfileEntry := {
  e_profileId : string;
  e_toolName : string;
  schemaVersion : string;
  e_actionId : string;
  e_providerRisk : ProviderRisk;
  enabled : bool;
  directMutative : bool
}.

(* @src packages/agent/src/policy-gateway/contracts.ts:133-139 AuthorizedToolExecutionGrant *)
Record AuthorizedToolExecutionGrant := {
  g_toolIntentId : string;
  g_actionId : string;
  g_profileId : string;
  g_toolName : string;
  g_cancellationGeneration : Z
}.

(** ** Tool profiles *)

Definition profile_key (e : ToolProfileEntry) : string :=
  e_profileId e +s String Ascii.zero (e_toolName e).

(** The registry, when no profile maps a tool twice. *)
(* @src packages/agent/src/policy-gateway/tool-profiles.ts:19-26 ToolProfileRegistry *)
Fixpoint registry_from (seen : list string) (entries : list ToolProfileEntry) : outcome unit :=
  match entries with
  | [] => Returned ()
  | e :: entries =>
      if str_in (profile_key e) seen then Threw (PlainError "duplicate tool profile mapping")
      else registry_from (profile_key e :: seen) entries
  end.

Definition newRegistry (entries : list ToolProfileEntry) : outcome (list ToolProfileEntry) :=
  obind (registry_from [] entries) (λ _, Returned entries).

(* @src packages/agent/src/policy-gateway/tool-profiles.ts:28-36 lookup *)
Definition lookup_tool (entries : list ToolProfileEntry) (tool profile : string)
  : string + ToolProfileEntry :=
  match List.find (λ e, (e_toolName e =s? tool) && (e_profileId e =s? profile)) entries with
  | None => inl "UNKNOWN_TOOL_DENIED"
  | Some e =>
      if negb (enabled e) then inl "PROFILE_DISABLED"
      else if directMutative e then inl "DIRECT_MUTATIVE_DENIED"
      else inr e
  end.

(* @src packages/agent/src/policy-gateway/tool-profiles.ts:39-48 preflight *)
Definition preflight (entries : list ToolProfileEntry) : bool :=
  negb (existsb (λ e, enabled e && directMutative e) entries).

(** ** Arguments *)

(** [/^(sessionId|session_id|turnId|workflowRunId|repository_?id)$/i]. *)
(* @src packages/agent/src/policy-gateway/argument-normalizer.ts:17-17 FORBIDDEN_ARG_KEYS *)
Definition FORBIDDEN_ARG_KEYS (k : string) : bool :=
  str_in (toLowerCase k)
    ["sessionid"; "session_id"; "turnid"; "workflowrunid"; "repositoryid"; "repository_id"].

(** What a visit ends with: true, false, or a thrown error. *)
Inductive visited := clean | smuggled | broken.

Definition and_then (v w : visited) : visited := match v with clean => w | _ => v end.

(* @src packages/agent/src/policy-gateway/argument-normalizer.ts:27-38 visit *)
Fixpoint visit (d : Z) (v : json) : visited :=
  if d >? 16 then broken
  else match v with
  | JArr l =>
      if Z.of_nat (length l) >? 100 then broken
      else (fix go l := match l with [] => clean | x :: l => and_then (visit (d + 1) x) (go l) end) l
  | JObj l =>
      (fix go l := match l with
                   | [] => clean
                   | (k, x) :: l =>
                       if FORBIDDEN_ARG_KEYS k then smuggled
                       else and_then (visit (d + 1) x) (go l)
                   end) l
  | JStr s => if str_length s >? 64000 then broken else clean
  | JNull | JBool _ | JNum _ => clean
  end.

(** A character below U+0020 or U+007F becomes a space. *)
Definition blank_control (c : ascii) : ascii :=
  if (code_of c <? 32) || (code_of c =? 127) then " "%char else c.

Section Arguments.
Context `{Digest}.

(** The digest and the byte length of the normalized arguments, or a code. *)
(* @src packages/agent/src/policy-gateway/argument-normalizer.ts:18-54 normalizeToolArguments *)
Definition normalizeToolArguments (raw : json) (expected provided : string) : string + string * Z :=
  if negb (expected =s? provided) then inl "TOOL_SCHEMA_MISMATCH"
  else match raw with
  | JObj _ =>
      match visit 0 raw with
      | smuggled => inl "CROSS_REPO_SESSION_ARGUMENT"
      | broken => inl "MALFORMED_ARGUMENTS"
      | clean =>
          let normalized := map_chars blank_control (stringify raw) in
          inr (sha256 normalized, utf8_length normalized)
      end
  | _ => inl "MALFORMED_ARGUMENTS"
  end.
End Arguments.

(** ** The store of intents *)

(* @src packages/agent/src/policy-gateway/intent-store.ts:16-18 InMemoryToolIntentStore *)
Record IntentStore := {
  intents : gmap string ToolCallIntent;
  byCall : gmap string ToolCallIntent
}.

(* @src packages/agent/src/policy-gateway/intent-store.ts:20-22 key *)
Definition call_key (provider sessionId callId : string) : string :=
  stringify (JArr [JStr provider; JStr sessionId; JStr callId]).

(* @src packages/agent/src/policy-gateway/intent-store.ts:34-37 save *)
Definition save (i : ToolCallIntent) (s : IntentStore) : IntentStore :=
  {| intents := <[id i := i]> (intents s);
     byCall := <[call_key (provider i) (sessionId i) (providerToolCallId i) := i]> (byCall s) |}.

(* @src packages/agent/src/policy-gateway/intent-store.ts:27-33 findByProviderCall *)
Definition findByProviderCall (provider sessionId callId : string) (s : IntentStore)
  : option ToolCallIntent := byCall s !! call_key provider sessionId callId.

(** ** The gateway *)

(** The default policy. *)
(* @src packages/agent/src/policy-gateway/mcp-policy-gateway.ts:35-43 AllowReadOnlyPolicyPort *)
Definition allow_read_only (risk : ProviderRisk) : ToolPolicyResult :=
  if bool_decide (risk = read_only) || bool_decide (risk = low) then ALLOW
  else if bool_decide (risk = high) || bool_decide (risk = mutative_external)
  then APPROVAL_REQUIRED else ALLOW.

(* @src packages/agent/src/policy-gateway/mcp-policy-gateway.ts:45-52 ToolDisposition *)
Inductive ToolDisposition :=
  | disp_allow (intent : ToolCallIntent)
  | disp_deny (code detail : string)
  | disp_approval (intent : ToolCallIntent) (checkpointId : string).

(* @src packages/agent/src/policy-gateway/mcp-policy-gateway.ts:54-71 PolicyGatewayDeps *)
Inductive GatewayCall :=
  | findByProviderCall_ (provider sessionId callId : string)
  | get_ (id : string)
  | save_ (intent : ToolCallIntent)
  | decide_ (actionId : string) (risk : ProviderRisk) (sessionId turnId : string)
  | emit_ (type intentId : string) (payload : list (string * json))
  | link_ (key : string) (link : CheckpointLink)
  | nowIso_
  | randomUUID_.

(* @src packages/agent/src/policy-gateway/intent-store.ts:6-14 ToolIntentStorePort *)
Definition GatewayAns (c : GatewayCall) : Type :=
  match c with
  | findByProviderCall_ _ _ _ => option ToolCallIntent
  | get_ _ => option ToolCallIntent
  | save_ _ => unit
  | decide_ _ _ _ _ => ToolPolicyResult
  | emit_ _ _ _ => unit
  | link_ _ _ => unit
  | nowIso_ => string
  | randomUUID_ => string
  end.

Definition checkpoint_of (id_ : string) : string := "cp-" +s slice_to 8 id_.

(** The answer for a call that has an intent. *)
(* @src packages/agent/src/policy-gateway/mcp-policy-gateway.ts:103-115 intercept *)
Definition replay (existing : ToolCallIntent) : ToolDisposition :=
  if bool_decide (status existing = DENIED) || bool_decide (policyDecision existing = DENY)
  then disp_deny (status_text (status existing)) "already denied"
  else if bool_decide (policyDecision existing = APPROVAL_REQUIRED)
  then disp_approval existing (checkpoint_of (id existing))
  else disp_allow existing.

(** The intent of a decided proposal. *)
(* @src packages/agent/src/policy-gateway/mcp-policy-gateway.ts:135-153 intercept *)
Definition new_intent (uuid now : string) (p : ToolProposal) (e : ToolProfileEntry)
    (argsDigest : string) (decision : ToolPolicyResult) : ToolCallIntent :=
  {| id := uuid; provider := p_provider p; sessionId := p_sessionId p; turnId := p_turnId p;
     providerToolCallId := p_providerToolCallId p; toolName := p_toolName p;
     profileId := toolProfileId p; actionId := e_actionId e; providerRisk := e_providerRisk e;
     policyDecision := decision;
     status := match decision with
               | ALLOW => ALLOWED | DENY => DENIED | APPROVAL_REQUIRED => WAITING_APPROVAL
               end;
     normalizedArgumentsDigest := argsDigest;
     idempotencyKey := p_providerToolCallId p +s ":" +s argsDigest;
     cancellationGeneration := 0; createdAtIso := now; updatedAtIso := now |}.

Section Gateway.
Context `{Digest} (registry : list ToolProfileEntry).

(* @src packages/agent/src/policy-gateway/mcp-policy-gateway.ts:89-165 intercept *)
Definition intercept (p : ToolProposal) (raw : json) : proc GatewayAns ToolDisposition :=
  if negb (toolProposalSchema p)
  then pret (disp_deny "TOOL_POLICY_INTERCEPTION_REQUIRED" "malformed proposal")
  else
  existing <~ call (Ans := GatewayAns)
                (findByProviderCall_ (p_provider p) (p_sessionId p) (p_providerToolCallId p)) ;;
  match existing with
  | Some i => pret (replay i)
  | None =>
      match lookup_tool registry (p_toolName p) (toolProfileId p) with
      | inl code => pret (disp_deny code "tool not allowed")
      | inr e =>
          match normalizeToolArguments raw (schemaVersion e) (p_schemaVersion p) with
          | inl code => pret (disp_deny code "arguments rejected")
          | inr (argsDigest, _) =>
              decision <~ call (Ans := GatewayAns)
                            (decide_ (e_actionId e) (e_providerRisk e) (p_sessionId p) (p_turnId p)) ;;
              now <~ call (Ans := GatewayAns) nowIso_ ;;
              uuid <~ call (Ans := GatewayAns) randomUUID_ ;;
              let intent := new_intent uuid now p e argsDigest decision in
              call (Ans := GatewayAns) (save_ intent) ;~
              call (Ans := GatewayAns)
                (emit_ "tool.intent.persisted" uuid
                   [("actionId", JStr (e_actionId e)); ("decision", JStr (result_text decision))]) ;~
              match (decision : ToolPolicyResult) with
              | DENY => pret (disp_deny "POLICY_DENIED" "action policy denied")
              | APPROVAL_REQUIRED =>
                  call (Ans := GatewayAns)
                    (emit_ "tool.approval_required" uuid [("actionId", JStr (e_actionId e))]) ;~
                  pret (disp_approval intent (checkpoint_of uuid))
              | ALLOW =>
                  call (Ans := GatewayAns)
                    (emit_ "tool.allowed" uuid [("actionId", JStr (e_actionId e))]) ;~
                  pret (disp_allow intent)
              end
          end
      end
  end.
End Gateway.

(** The intent as the grant leaves it. *)
Definition authorised_intent (now : string) (i : ToolCallIntent) : ToolCallIntent :=
  {| id := id i; provider := provider i; sessionId := sessionId i; turnId := turnId i;
     providerToolCallId := providerToolCallId i; toolName := toolName i; profileId := profileId i;
     actionId := actionId i; providerRisk := providerRisk i; policyDecision := policyDecision i;
     status := AUTHORIZED_EXECUTION; normalizedArgumentsDigest := normalizedArgumentsDigest i;
     idempotencyKey := idempotencyKey i; cancellationGeneration := cancellationGeneration i;
     createdAtIso := createdAtIso i; updatedAtIso := now |}.

(* @src packages/agent/src/policy-gateway/mcp-policy-gateway.ts:167-201 authorizeExecution *)
Definition authorizeExecution (intentId action : string)
  : proc GatewayAns AuthorizedToolExecutionGrant :=
  found <~ call (Ans := GatewayAns) (get_ intentId) ;;
  match found with
  | None => throw (GuardError "TOOL_CALL_NOT_FOUND")
  | Some i =>
      if negb (actionId i =s? action) then throw (GuardError "TOOL_ACTION_MISMATCH")
      else if negb (bool_decide (policyDecision i = APPROVAL_REQUIRED))
      then throw (GuardError "AUTHORIZED_GRANT_REQUIRED")
      else
        now <~ call (Ans := GatewayAns) nowIso_ ;;
        call (Ans := GatewayAns) (save_ (authorised_intent now i)) ;~
        uuid <~ call (Ans := GatewayAns) randomUUID_ ;;
        linked <~ call (Ans := GatewayAns) nowIso_ ;;
        call (Ans := GatewayAns) (link_ (intentId +s ":grant")
          {| link_id := uuid; toolIntentId := intentId; link_actionId := action;
             link_sessionId := sessionId i; link_turnId := turnId i;
             providerCheckpointRef := checkpoint_of intentId; syncStatus := "RESOLVED";
             link_createdAtIso := linked |}) ;~
        call (Ans := GatewayAns)
          (emit_ "tool.authorized_execution" (id i) [("actionId", JStr action)]) ;~
        pret {| g_toolIntentId := id i; g_actionId := actionId i; g_profileId := profileId i;
                g_toolName := toolName i; g_cancellationGeneration := cancellationGeneration i |}
  end.

(** ** Accepted arguments *)

(** A key of an object somewhere in the value. *)
Inductive nested_key (k : string) : json → Prop :=
  | key_here v l : (k, v) ∈ l → nested_key k (JObj l)
  | key_member k' v l : (k', v) ∈ l → nested_key k v → nested_key k (JObj l)
  | key_element v l : v ∈ l → nested_key k v → nested_key k (JArr l).

(** How deep objects and arrays nest. *)
Fixpoint depth (v : json) : Z :=
  match v with
  | JArr l => 1 + fold_right (λ x m, Z.max (depth x) m) 0 l
  | JObj l => 1 + fold_right (λ kx m, Z.max (let '(_, x) := kx in depth x) m) 0 l
  | _ => 0
  end.

Lemma and_then_clean v w : and_then v w = clean → v = clean ∧ w = clean.
Proof. by destruct v. Qed.

Lemma visit_clean v : ∀ d, visit d v = clean →
  d + depth v ≤ 17 ∧ ∀ k, nested_key k v → FORBIDDEN_ARG_KEYS k = false.
Proof.
  induction v as [| | | |l IH|l IH] using json_nested_ind; intros d; cbn [visit];
    destruct (d >? 16) eqn:Hd; try done; rewrite Z.gtb_ltb, Z.ltb_ge in Hd.
  1-4: intros _; cbn [depth]; split; [lia|]; intros k Hk; inversion Hk.
  - destruct (_ >? 100); [done|]. intros Hgo. cbn [depth].
    cut (d + 1 + fold_right (λ x m, Z.max (depth x) m) 0 l ≤ 17 ∧
         ∀ k v, v ∈ l → nested_key k v → FORBIDDEN_ARG_KEYS k = false).
    { intros [? Hk]. split; [lia|]. intros k Hn. inversion Hn; subst. by eapply Hk. }
    induction IH as [|x l Hx _ IHl]; [split; [simpl; lia|]; intros k v Hin; by destruct (not_elem_of_nil _ Hin)|].
    apply and_then_clean in Hgo as [Hgx Hgo]. destruct (Hx _ Hgx) as [Hdx Hkx].
    destruct (IHl Hgo) as [Hdl Hkl]. split; [simpl; lia|].
    intros k v [->|Hin]%elem_of_cons Hn; [by apply Hkx|by eapply Hkl].
  - intros Hgo. cbn [depth].
    cut (d + 1 + fold_right (λ kx m, Z.max (let '(_, x) := kx in depth x) m) 0 l ≤ 17 ∧
         ∀ k' v, (k', v) ∈ l → FORBIDDEN_ARG_KEYS k' = false ∧
           ∀ k, nested_key k v → FORBIDDEN_ARG_KEYS k = false).
    { intros [? Hk]. split; [lia|]. intros k Hn. inversion Hn; subst;
      match goal with Hin : (_, _) ∈ l |- _ => destruct (Hk _ _ Hin) end; auto. }
    induction IH as [|[k0 x] l Hx _ IHl]; [split; [simpl; lia|]; intros k v Hin; by destruct (not_elem_of_nil _ Hin)|].
    destruct (FORBIDDEN_ARG_KEYS k0) eqn:Hf; [done|].
    apply and_then_clean in Hgo as [Hgx Hgo]. destruct (Hx _ Hgx) as [Hdx Hkx].
    destruct (IHl Hgo) as [Hdl Hkl]. split; [simpl in *; lia|].
    intros k v [[= -> ->]|Hin]%elem_of_cons; [done|by eapply Hkl].
Qed.

(** Arguments the gateway takes are an object of at most seventeen levels under the schema
    version of the profile, and no object inside them names a session, turn, run or repository. *)
Theorem accepted_arguments `{Digest} raw expected provided r :
  normalizeToolArguments raw expected provided = inr r →
  expected = provided ∧ (∃ l, raw = JObj l) ∧ depth raw ≤ 17 ∧
  ∀ k, nested_key k raw → FORBIDDEN_ARG_KEYS k = false.
Proof.
  unfold normalizeToolArguments. destruct (String.eqb_spec expected provided) as [->|]; [|done].
  cbn [negb]. destruct raw as [| | | | |l]; try done.
  destruct (visit 0 (JObj l)) eqn:Hv; try done. intros _. apply visit_clean in Hv as [Hd Hk].
  split_and!; [done|by exists l|lia|done].
Qed.

(** ** Nothing before its intent *)

Section Guarded.
Context `{Digest} (registry : list ToolProfileEntry) (p : ToolProposal) (raw : json).

(** The profile the proposal falls under, and the digest of its arguments. *)
Definition admitted (e : ToolProfileEntry) (argsDigest : string) : Prop :=
  lookup_tool registry (p_toolName p) (toolProfileId p) = inr e ∧
  ∃ n, normalizeToolArguments raw (schemaVersion e) (p_schemaVersion p) = inr (argsDigest, n).

Definition decided (tr : list (event GatewayAns)) (e : ToolProfileEntry) (r : ToolPolicyResult)
  : Prop :=
  ev (decide_ (e_actionId e) (e_providerRisk e) (p_sessionId p) (p_turnId p)) (Returned r) ∈ tr.

Definition gateway_allowed (tr : list (event GatewayAns)) (c : GatewayCall) : Prop :=
  match c with
  | decide_ a risk s t =>
      ∃ e d, admitted e d ∧ a = e_actionId e ∧ risk = e_providerRisk e ∧
        s = p_sessionId p ∧ t = p_turnId p
  | save_ i =>
      ∃ uuid now e d r, admitted e d ∧ decided tr e r ∧ i = new_intent uuid now p e d r
  | emit_ _ i _ => ∃ j, ev (save_ j) (Returned ()) ∈ tr ∧ id j = i
  | get_ _ | link_ _ _ => False
  | _ => True
  end.

(** The intent was in the store before, or was just decided upon and saved. *)
Definition backed (tr : list (event GatewayAns)) (i : ToolCallIntent) (r : ToolPolicyResult) : Prop :=
  policyDecision i = r ∧
  (ev (findByProviderCall_ (p_provider p) (p_sessionId p) (p_providerToolCallId p))
      (Returned (Some i)) ∈ tr ∨
   ev (save_ i) (Returned ()) ∈ tr ∧
   ∃ uuid now e d, admitted e d ∧ decided tr e r ∧ i = new_intent uuid now p e d r).

Definition disposition_true (tr : list (event GatewayAns)) (o : outcome ToolDisposition) : Prop :=
  match o with
  | Returned (disp_allow i) => backed tr i ALLOW
  | Returned (disp_approval i _) => backed tr i APPROVAL_REQUIRED
  | _ => True
  end.

Lemma lookup_tool_ok tool profile e :
  lookup_tool registry tool profile = inr e →
  e ∈ registry ∧ e_toolName e = tool ∧ e_profileId e = profile ∧ enabled e = true ∧
  directMutative e = false.
Proof.
  unfold lookup_tool. destruct (List.find _ _) as [e0|] eqn:Hf; [|done].
  destruct (enabled e0) eqn:He; [|done]. destruct (directMutative e0) eqn:Hm; [done|].
  intros [= ->]. apply find_some_elem in Hf as [Hin Hb]. breflect. done.
Qed.

Ltac in_trace := repeat (rewrite elem_of_app || rewrite elem_of_cons); naive_solver.

Lemma intercept_guarded : ensures gateway_allowed disposition_true [] (intercept registry p raw).
Proof.
  unfold intercept. destruct (negb _); [done|]. cbn [call pbind ensures app]. split; [done|].
  intros [[i|]|err]; cbn [pbind pret ensures]; [| |done].
  - unfold replay. destruct (policyDecision i) eqn:Hp; destruct (bool_decide (status i = DENIED));
      cbn; try done; (split; [exact Hp|left; by left]).
  - destruct (lookup_tool _ _ _) as [code|e] eqn:Hlook; [done|].
    destruct (normalizeToolArguments _ _ _) as [code|[d n]] eqn:Hargs; [done|].
    assert (Hadm : admitted e d) by (split; [done|by exists n]).
    cbn [call pbind ensures app]. split; [by exists e, d|]. intros [r|err]; [|done].
    cbn [call pbind ensures app]. split; [done|]. intros [now|err]; [|done].
    cbn [call pbind ensures app]. split; [done|]. intros [uuid|err]; [|done].
    cbn [pbind]. cbv zeta. set (i := new_intent uuid now p e d r).
    cbn [call pbind ensures app]. split.
    { exists uuid, now, e, d, r. split_and!; [done| |done]. unfold decided. in_trace. }
    intros [u0|err]; [|done]. destruct u0. cbn [call pbind ensures app]. split; [exists i; split; [in_trace|done]|].
    intros [u|err]; [|done]. cbn [pbind].
    assert (Hb : ∀ l, backed ([ev (findByProviderCall_ (p_provider p) (p_sessionId p)
        (p_providerToolCallId p)) (Returned None);
      ev (decide_ (e_actionId e) (e_providerRisk e) (p_sessionId p) (p_turnId p)) (Returned r);
      ev nowIso_ (Returned now); ev randomUUID_ (Returned uuid); ev (save_ i) (Returned ())] ++ l) i r).
    { intros l. split; [done|]. right. split; [in_trace|]. exists uuid, now, e, d.
      split_and!; [done|unfold decided; in_trace|done]. }
    destruct r; [|done|]; cbn [call pbind ensures app];
      (split; [exists i; split; [in_trace|done]|]); intros [u'|err]; cbn [pbind pret ensures];
      try done; exact (Hb [_; _]).
Qed.
End Guarded.

(* @prop safety 5.61 : intercept replay new_intent lookup_tool normalizeToolArguments visit FORBIDDEN_ARG_KEYS toolProposalSchema *)
(** C21. No tool call goes ahead without its intent, whatever the store, the policy, the clock and
    the event sink answer or throw: an allowance, or a request for approval, carries an intent
    with that very policy decision, which the store either already had for this call or has
    just saved -- after the policy decided on exactly the action and risk of the one enabled,
    not directly mutative profile of the tool, and after the arguments passed the checks of
    that profile's schema version.  Nothing else is ever saved, no decision is asked for a
    proposal that does not fall under such a profile, and no event is emitted before the
    intent is saved. *)
Theorem no_tool_without_intent `{Digest} registry p raw :
  ensures (gateway_allowed registry p raw) (disposition_true registry p raw) []
    (intercept registry p raw) ∧
  (∀ e d, admitted registry p raw e d →
     e ∈ registry ∧ e_toolName e = p_toolName p ∧ e_profileId e = toolProfileId p ∧
     enabled e = true ∧ directMutative e = false ∧ schemaVersion e = p_schemaVersion p ∧
     ∀ k, nested_key k raw → FORBIDDEN_ARG_KEYS k = false).
Proof.
  split; [apply intercept_guarded|]. intros e d [Hl [n Ha]].
  apply lookup_tool_ok in Hl as (? & ? & ? & ? & ?).
  unfold normalizeToolArguments in Ha.
  destruct (String.eqb_spec (schemaVersion e) (p_schemaVersion p)) as [Hs|]; [|done].
  cbn [negb] in Ha. destruct raw as [| | | | |l]; try done.
  destruct (visit 0 (JObj l)) eqn:Hv; try done. apply visit_clean in Hv as [_ Hk]. by split_and!.
Qed.

(** ** The first decision stands *)

Section Store.
Context {W : Type} (outside : ∀ c, W → outcome (GatewayAns c) * W).

(** The ports over the in-memory store; the rest -- the policy, the sink, the clock, the ids and
    the table of links, which is never read -- answers or throws as it likes. *)
Definition gateway_port (c : GatewayCall) (w : IntentStore * W)
  : outcome (GatewayAns c) * (IntentStore * W) :=
  match c with
  | findByProviderCall_ p s i => (Returned (findByProviderCall p s i w.1), w)
  | get_ i => (Returned (intents w.1 !! i), w)
  | save_ i => (Returned (), (save i w.1, w.2))
  | c => let '(o, x) := outside c w.2 in (o, (w.1, x))
  end.
End Store.

(** One call of a gateway method, run to its end. *)
Inductive GatewayRun `{Digest} (registry : list ToolProfileEntry) (s : IntentStore) : IntentStore → Prop :=
  | run_intercept (W : Type) (outside : ∀ c, W → outcome (GatewayAns c) * W) p raw w :
      GatewayRun registry s (final (gateway_port outside) (intercept registry p raw) (s, w)).2.1
  | run_authorize (W : Type) (outside : ∀ c, W → outcome (GatewayAns c) * W) i a w :
      GatewayRun registry s (final (gateway_port outside) (authorizeExecution i a) (s, w)).2.1.

Definition key_of (i : ToolCallIntent) : string :=
  call_key (provider i) (sessionId i) (providerToolCallId i).

(** What never changes of an intent. *)
Definition same_decision (i j : ToolCallIntent) : Prop :=
  key_of i = key_of j ∧ id i = id j ∧ policyDecision i = policyDecision j ∧
  actionId i = actionId j ∧ toolName i = toolName j ∧ turnId i = turnId j ∧
  normalizedArgumentsDigest i = normalizedArgumentsDigest j ∧
  (status i = DENIED ↔ status j = DENIED).

#[export] Instance same_decision_equiv : Equivalence same_decision.
Proof.
  split.
  - intros i. by split_and!.
  - intros i j. unfold same_decision. intros (?&?&?&?&?&?&?&?). by split_and!.
  - intros i j k. unfold same_decision. intros (?&?&?&?&?&?&?&?) (?&?&?&?&?&?&?&?).
    split_and!; try congruence. naive_solver.
Qed.

(** The two tables agree, and only an intent the policy denied is marked as denied. *)
Definition consistent (s : IntentStore) : Prop :=
  (∀ k i, byCall s !! k = Some i →
     key_of i = k ∧ (policyDecision i ≠ DENY → status i ≠ DENIED)) ∧
  (∀ x i, intents s !! x = Some i →
     (policyDecision i ≠ DENY → status i ≠ DENIED) ∧
     ∃ j, byCall s !! key_of i = Some j ∧ same_decision i j).

Definition keeps_calls (s s' : IntentStore) : Prop :=
  ∀ k i, byCall s !! k = Some i → ∃ j, byCall s' !! k = Some j ∧ same_decision i j.

(** Saving an intent for a new call, or one that decides the same. *)
Lemma save_keeps s i :
  consistent s → (policyDecision i ≠ DENY → status i ≠ DENIED) →
  (∀ j, byCall s !! key_of i = Some j → same_decision j i) →
  consistent (save i s) ∧ keeps_calls s (save i s).
Proof.
  intros [Hk Hi] Hd Hsame. fold (key_of i).
  assert (Hkeep : keeps_calls s (save i s)).
  { intros k j Hj. unfold save; cbn [byCall]. fold (key_of i).
    destruct (decide (k = key_of i)) as [->|Hne].
    - exists i. rewrite lookup_insert_eq. split; [done|by apply Hsame].
    - exists j. rewrite lookup_insert_ne by done. by split. }
  split; [|done]. split.
  - intros k j. unfold save; cbn [byCall]. fold (key_of i).
    destruct (decide (k = key_of i)) as [->|Hne].
    + rewrite lookup_insert_eq. by intros [= <-].
    + rewrite lookup_insert_ne by done. apply Hk.
  - intros x j. unfold save at 1; cbn [intents].
    destruct (decide (x = id i)) as [->|Hne].
    + rewrite lookup_insert_eq. intros [= <-]. split; [done|]. exists i.
      unfold save; cbn [byCall]. fold (key_of i). by rewrite lookup_insert_eq.
    + rewrite lookup_insert_ne by done. intros Hj. destruct (Hi x j Hj) as [Hdj (j' & Hj' & Hs)].
      split; [done|]. destruct (Hkeep _ _ Hj') as (j2 & Hj2 & Hs2). exists j2. split; [done|].
      by etrans.
Qed.

Definition steady (s s' : IntentStore) : Prop := consistent s' ∧ keeps_calls s s'.

(** After the save a method only emits and links. *)
Lemma rest_steady {W A} (outside : ∀ c, W → outcome (GatewayAns c) * W) (p : proc GatewayAns A) s w tr :
  ensures (λ _ c, match c with save_ _ => False | _ => True end) (λ _ _, True) tr p →
  (final (gateway_port outside) p (s, w)).2.1 = s.
Proof.
  revert w tr. induction p as [o|c k IH]; intros w tr; [done|]. cbn [ensures]. intros [Hc Hk].
  rewrite final_await. destruct (gateway_port outside c (s, w)) as [o [s1 w1]] eqn:Hp.
  assert (s1 = s) as ->.
  { destruct c; simpl in Hp; try done; try (by destruct (outside _ w); simplify_eq); by simplify_eq. }
  by eapply IH.
Qed.

Ltac fcall outside :=
  match goal with |- context [?t] =>
    match t with final (gateway_port outside) (call ?c) ?x =>
      let z := fresh "z" in let Hz := fresh "Hz" in
      set (z := t);
      assert (Hz : z = gateway_port outside c x) by exact (final_call (gateway_port outside) c x);
      clearbody z; subst z
    end
  end.

Lemma run_steady `{Digest} registry s s' : GatewayRun registry s s' → consistent s → steady s s'.
Proof.
  intros Hrun Hs. assert (Hrefl : steady s s).
  { split; [done|]. intros k i Hi. by exists i. }
  destruct Hrun as [W outside p raw w|W outside x a w].
  - remember (final (gateway_port outside) (intercept registry p raw) (s, w)) as out eqn:Hout.
    revert Hout. unfold intercept. destruct (negb _); [by intros ->|].
    rewrite final_pbind. fcall outside. cbn [gateway_port fst snd].
    destruct (findByProviderCall _ _ _ s) as [i|] eqn:Hfind; [by intros ->|].
    destruct (lookup_tool _ _ _) as [code|e]; [by intros ->|].
    destruct (normalizeToolArguments _ _ _) as [code|[d n]]; [by intros ->|].
    rewrite final_pbind. fcall outside. cbn [gateway_port fst snd].
    destruct (outside (decide_ _ _ _ _) w) as [[r|err] w1]; [|by intros ->].
    rewrite final_pbind. fcall outside. cbn [gateway_port fst snd].
    destruct (outside nowIso_ w1) as [[now|err] w2]; [|by intros ->].
    rewrite final_pbind. fcall outside. cbn [gateway_port fst snd].
    destruct (outside randomUUID_ w2) as [[uuid|err] w3]; [|by intros ->].
    cbv zeta. rewrite final_pbind. fcall outside. cbn [gateway_port fst snd].
    set (i := new_intent uuid now p e d r). intros ->. erewrite rest_steady.
    + apply save_keeps; [done|by subst i; destruct r|].
      intros j Hj. unfold findByProviderCall in Hfind.
      change (byCall s !! key_of i = None) in Hfind. congruence.
    + instantiate (1 := []). cbn [call pbind ensures]. split; [done|]. intros [u|err]; [|done].
      destruct r; cbn; [split; [done|]; by intros []|done|split; [done|]; by intros []].
  - remember (final (gateway_port outside) (authorizeExecution x a) (s, w)) as out eqn:Hout.
    revert Hout. unfold authorizeExecution.
    rewrite final_pbind. fcall outside. cbn [gateway_port fst snd].
    destruct (intents s !! x) as [i|] eqn:Hi; [|by intros ->].
    destruct (negb (actionId i =s? a)); [by intros ->|].
    case_bool_decide as Hdec; cbn [negb]; [|by intros ->].
    rewrite final_pbind. fcall outside. cbn [gateway_port fst snd].
    destruct (outside nowIso_ w) as [[now|err] w1]; [|by intros ->].
    rewrite final_pbind. fcall outside. cbn [gateway_port fst snd]. intros ->.
    destruct Hs as [Hk Hin]. destruct (Hin x i Hi) as [Hnd (j & Hj & Hsame)].
    assert (Hauth : same_decision i (authorised_intent now i)).
    { split_and!; try done. simpl. split; [intros Hd; exfalso; apply Hnd; congruence|done]. }
    erewrite rest_steady.
    + apply save_keeps; [by split|done|]. intros j'. change (key_of (authorised_intent now i)) with (key_of i).
      intros Hj'. simplify_eq. etrans; [|exact Hauth]. by symmetry.
    + instantiate (1 := []). cbn [call pbind ensures]. split; [done|]. intros [u|err]; [|done].
      cbn. split; [done|]. intros [l|err]; [|done]. cbn. split; [done|]. intros [u2|err]; [|done].
      cbn. split; [done|]. by intros [].
Qed.

Lemma runs_steady `{Digest} registry s s' :
  rtc (GatewayRun registry) s s' → consistent s → steady s s'.
Proof.
  induction 1 as [s|s s1 s2 Hrun _ IH]; intros Hs.
  - split; [done|]. intros k i Hi. by exists i.
  - destruct (run_steady registry s s1 Hrun Hs) as [Hs1 Hk1]. destruct (IH Hs1) as [Hs2 Hk2].
    split; [done|]. intros k i Hi. destruct (Hk1 k i Hi) as (j & Hj & Hsame).
    destruct (Hk2 k j Hj) as (j2 & Hj2 & Hsame2). exists j2. split; [done|]. by etrans.
Qed.

Definition empty_store : IntentStore := {| intents := ∅; byCall := ∅ |}.

Lemma empty_consistent : consistent empty_store.
Proof. split; intros k i; cbn; by rewrite lookup_empty. Qed.

(** The first decision on a tool call stands.  Over any sequence of proposals and grants
    -- whatever tools, profiles, arguments and actions they name, whatever the policy, the
    sink and the clock answer, and wherever they fail -- the intent stored for a call keeps its
    decision, action, tool and argument digest, and every later well-formed proposal with the
    provider, session and call id of that call is answered from it alone: allowed if it was
    allowed, denied if it was denied, and otherwise still asking for approval.  The tool and the
    arguments of the later proposal play no part in the answer. *)
Theorem first_decision_stands `{Digest} registry registry' s s' i p raw {W}
    (outside : ∀ c, W → outcome (GatewayAns c) * W) w :
  rtc (GatewayRun registry) empty_store s → rtc (GatewayRun registry) s s' →
  toolProposalSchema p = true →
  findByProviderCall (p_provider p) (p_sessionId p) (p_providerToolCallId p) s = Some i →
  ∃ j, same_decision i j ∧
    final (gateway_port outside) (intercept registry' p raw) (s', w) =
    (Returned match policyDecision i with
              | ALLOW => disp_allow j
              | DENY => disp_deny (status_text (status j)) "already denied"
              | APPROVAL_REQUIRED => disp_approval j (checkpoint_of (id j))
              end, (s', w)).
Proof.
  intros H1 H2 Hp Hi. destruct (runs_steady _ _ _ H1 empty_consistent) as [Hs _].
  destruct (runs_steady _ _ _ H2 Hs) as [Hs' Hk]. destruct (Hk _ _ Hi) as (j & Hj & Hsame).
  exists j. split; [done|]. unfold intercept. rewrite Hp. cbn [negb].
  rewrite final_pbind. fcall outside. cbn [gateway_port fst snd]. unfold findByProviderCall.
  rewrite Hj. rewrite final_pret. f_equal. f_equal. unfold replay.
  destruct Hsame as (_ & _ & Hd & _). rewrite Hd. destruct Hs' as [Hb _].
  destruct (Hb _ _ Hj) as [_ Hnd]. destruct (policyDecision j) eqn:Hdec.
  - rewrite bool_decide_eq_false_2 by (by apply Hnd). done.
  - by destruct (bool_decide _).
  - rewrite bool_decide_eq_false_2 by (by apply Hnd). done.
Qed.

(** *** Grants *)

(** A grant asks for nothing but the action: any intent whose policy decision was to require
    approval is authorised -- whatever its status, also one cancelled, stale, failed or long
    completed, and as often as it is asked for. *)
Theorem grant_needs_no_approval {W} (outside : ∀ c, W → outcome (GatewayAns c) * W) s i w :
  (∀ c w, ∃ a w', outside c w = (Returned a, w')) →
  intents s !! id i = Some i → policyDecision i = APPROVAL_REQUIRED →
  ∃ now w', final (gateway_port outside) (authorizeExecution (id i) (actionId i)) (s, w) =
    (Returned {| g_toolIntentId := id i; g_actionId := actionId i; g_profileId := profileId i;
                 g_toolName := toolName i; g_cancellationGeneration := cancellationGeneration i |},
     (save (authorised_intent now i) s, w')).
Proof.
  intros Hout Hi Hd. unfold authorizeExecution.
  rewrite final_pbind. fcall outside. cbn [gateway_port fst snd]. rewrite Hi.
  rewrite String.eqb_refl. cbn [negb]. rewrite Hd, bool_decide_eq_true_2 by done. cbn [negb].
  rewrite final_pbind. fcall outside. cbn [gateway_port fst snd].
  destruct (Hout nowIso_ w) as (now & w1 & ->). exists now.
  rewrite final_pbind. fcall outside. cbn [gateway_port fst snd].
  rewrite final_pbind. fcall outside. cbn [gateway_port fst snd].
  destruct (Hout randomUUID_ w1) as (uuid & w2 & ->).
  rewrite final_pbind. fcall outside. cbn [gateway_port fst snd].
  destruct (Hout nowIso_ w2) as (linked & w3 & ->).
  rewrite final_pbind. fcall outside. cbn [gateway_port fst snd].
  match goal with |- context [outside (link_ ?k ?l) w3] =>
    destruct (Hout (link_ k l) w3) as (u & w4 & ->) end.
  rewrite final_pbind. fcall outside. cbn [gateway_port fst snd].
  match goal with |- context [outside (emit_ ?k ?l ?m) w4] =>
    destruct (Hout (emit_ k l m) w4) as (u' & w5 & ->) end.
  exists w5. reflexivity.
Qed.

(** ** Witnesses *)

#[local] Instance plain_digest : Digest := λ s, s.

Definition read_file : ToolProfileEntry :=
  {| e_profileId := "p"; e_toolName := "read_file"; schemaVersion := "1"; e_actionId := "read";
     e_providerRisk := read_only; enabled := true; directMutative := false |}.

Definition hex : string := "aaaaaaaaaaaaaaaaaaaaaaaaaaaaaaaaaaaaaaaaaaaaaaaaaaaaaaaaaaaaaaaa".

Definition proposal (tool : string) : ToolProposal :=
  {| p_provider := "tf"; p_sessionId := "s"; p_turnId := "t"; p_providerToolCallId := "c1";
     p_toolName := tool; p_schemaVersion := "1"; rawArgumentsDigest := hex; toolProfileId := "p" |}.

Definition default_outside (c : GatewayCall) (w : unit) : outcome (GatewayAns c) * unit :=
  (match c return outcome (GatewayAns c) with
   | decide_ _ risk _ _ => Returned (allow_read_only risk)
   | findByProviderCall_ _ _ _ | get_ _ => Returned None
   | save_ _ | emit_ _ _ _ | link_ _ _ => Returned ()
   | nowIso_ => Returned "now"
   | randomUUID_ => Returned "u"
   end, w).

(** The read is allowed; the same call id then carries an unknown tool with other arguments. *)
Definition after_read : IntentStore :=
  (final (gateway_port default_outside)
     (intercept [read_file] (proposal "read_file") (JObj [("path", JStr "a")])) (empty_store, ())).2.1.

Lemma first_decision_stands_witness :
  ∃ j, toolName j = "read_file" ∧
    final (gateway_port default_outside)
      (intercept [read_file] (proposal "watch_memory") (JObj [("sessionId", JStr "other")]))
      (after_read, ()) = (Returned (disp_allow j), (after_read, ())).
Proof.
  destruct (findByProviderCall "tf" "s" "c1" after_read) as [i|] eqn:Hi; [|vm_compute in Hi; discriminate].
  assert (Htool : toolName i = "read_file") by (vm_compute in Hi; by injection Hi as <-).
  assert (Hdec : policyDecision i = ALLOW) by (vm_compute in Hi; by injection Hi as <-).
  destruct (first_decision_stands [read_file] [read_file] after_read after_read i
    (proposal "watch_memory") (JObj [("sessionId", JStr "other")]) default_outside ())
    as (j & Hj & Hfin).
  - apply rtc_once. apply run_intercept.
  - reflexivity.
  - vm_compute. reflexivity.
  - exact Hi.
  - exists j. rewrite Hdec in Hfin. split; [|exact Hfin].
    destruct Hj as (_ & _ & _ & _ & Ht & _). congruence.
Defined.
