(* ===== verification/Authentication.v ===== *)
(** * Authentication

    [packages/auth/src/]: opaque tokens ([tokens.ts]), the login transactions and sessions of
    [AuthenticationService] ([service.ts]), the API tokens ([api-tokens.ts]), and the stores of
    both ([memory-store.ts]; [packages/db/src/repositories/auth-sessions.ts] and
    [api-tokens.ts]).  A stored timestamp is its instant in milliseconds: [Date.parse] and
    [toISOString] are inverse on the instants a date can hold.  A service method is a program
    over the stores, the identity provider, the clock and the random source. *)

From S2P Require Import Prelude JsString JsDate Json Effects Contracts.

(** ** Tokens *)

(** [createHash('sha256').update(text).digest('base64url')] *)
Class Digest64 := sha256_base64 : string → string.

Section Tokens.
Context {Hdigest : Digest} {Hdigest64 : Digest64}.

(* @src packages/auth/src/tokens.ts:17-19 hashToken *)
Definition hashToken (token : string) : string := sha256 ("devguard.session.v1:" +s token).

(* @src packages/auth/src/tokens.ts:22-22 API_TOKEN_PREFIX *)
Definition API_TOKEN_PREFIX : string := "dgv1_".

(* @src packages/auth/src/tokens.ts:38-40 hashApiToken *)
Definition hashApiToken (plaintext : string) : string :=
  sha256 ("devguard.api_token.v1:" +s plaintext).

(* @src packages/auth/src/tokens.ts:43-45 isApiTokenShape *)
Definition isApiTokenShape (value : string) : bool :=
  startsWith value API_TOKEN_PREFIX && (40 <=? str_length value).

(** Equal texts have equal UTF-8 bytes, and on the texts of the model only they. *)
(* @src packages/auth/src/tokens.ts:47-52 constantTimeEquals *)
Definition constantTimeEquals (a b : string) : bool := a =s? b.

(* @src packages/auth/src/tokens.ts:55-59 deriveCsrfToken *)
Definition deriveCsrfToken (sessionIdHash serverSecret : string) : string :=
  sha256_base64 ("devguard.csrf.v1:" +s sessionIdHash +s ":" +s serverSecret).
End Tokens.

(** ** Records *)

(* @src packages/auth/src/principal.ts:13-13 AuthMethod *)
Inductive AuthMethod := session | api_token.
#[export] Instance AuthMethod_eq_dec : EqDecision AuthMethod.
Proof. solve_decision. Defined.

(* @src packages/auth/src/principal.ts:16-35 Principal *)
Record Principal := {
  userId : string;
  issuer : string;
  providerSubject : string;
  providerLogin : option string;
  providerDisplayName : option string;
  authMethod : AuthMethod;
  p_sessionIdHash : option string;
  tokenIdHash : option string;
  authenticatedAt : Z;
}.

(* @src packages/auth/src/principal.ts:37-42 ExternalIdentity *)
Record ExternalIdentity := {
  id_issuer : string;
  id_subject : string;
  id_login : string;
  id_displayName : option string;
}.

(* @src packages/auth/src/principal.ts:44-58 AuthSessionRecord *)
Record AuthSessionRecord := {
  sessionIdHash : string;
  s_userId : string;
  s_issuer : string;
  s_subject : string;
  s_login : option string;
  s_displayName : option string;
  createdAt : Z;
  lastSeenAt : Z;
  idleExpiresAt : Z;
  absoluteExpiresAt : Z;
  revokedAt : option Z;
  rowVersion : Z;
}.

(* @src packages/auth/src/principal.ts:60-74 AuthTransactionRecord *)
Record AuthTransactionRecord := {
  stateHash : string;
  pkceVerifier : string;
  returnToPath : string;
  tx_createdAt : Z;
  tx_expiresAt : Z;
  consumedAt : option Z;
  tx_rowVersion : Z;
}.

(* @src packages/auth/src/principal.ts:76-79 SessionPolicyInput *)
Record SessionPolicyInput := { idleMinutes : Z; absoluteHours : Z }.

(* @src packages/auth/src/principal.ts:133-143 ApiTokenRecord *)
Record ApiTokenRecord := {
  tokenId : string;
  t_userId : string;
  tokenHash : string;
  t_label : string;
  t_createdAt : Z;
  lastUsedAt : option Z;
  t_expiresAt : Z;
  t_revokedAt : option Z;
  t_rowVersion : Z;
}.

(** ** The calls of the services *)

(** The two stores' ports, the provider's, the linker's, [now], and the random source. *)
(* @src packages/auth/src/principal.ts:82-127 AuthSessionRepository *)
Inductive AuthCall :=
  | insert_transaction (r : AuthTransactionRecord)
  | findByStateHash (h : string)
  | consume (h : string) (at_ expectedVersion : Z)
  | insert_session (r : AuthSessionRecord)
  | findBySessionIdHash (h : string)
  | touch (h : string) (lastSeen idleExpires expectedVersion : Z)
  | revoke_session (h : string) (at_ expectedVersion : Z)
  | buildAuthorizeUrl (state codeChallenge redirectUri : string)
  | exchangeCode (code codeVerifier redirectUri : string)
  | fetchIdentity (accessToken : string)
  | resolve_user (issuer providerSubject login : string) (displayName : option string)
  | insert_token (r : ApiTokenRecord)
  | findByTokenHash (h : string)
  | list_tokens (userId : string)
  | revoke_token (tokenId userId : string) (at_ : Z)
  | now_
  | random_ (bytes : Z)
  | uuid_.

(* @src packages/auth/src/principal.ts:146-154 ApiTokenRepository *)
Definition AuthAns (c : AuthCall) : Type :=
  match c with
  | findByStateHash _ => option AuthTransactionRecord
  | findBySessionIdHash _ => option AuthSessionRecord
  | buildAuthorizeUrl _ _ _ | exchangeCode _ _ _ | resolve_user _ _ _ _ | random_ _ | uuid_ => string
  | fetchIdentity _ => ExternalIdentity
  | findByTokenHash _ => option ApiTokenRecord
  | list_tokens _ => list ApiTokenRecord
  | now_ => Z
  | _ => unit
  end.

Abbreviation auth := (proc AuthAns).

(** A call of this module, with its answer type. *)
Definition ask (c : AuthCall) : auth (AuthAns c) := call (Ans := AuthAns) c.

(** [date.toISOString()] of an instant. *)
Definition iso (ms : Z) : auth Z :=
  if 8640000000000000 <? Z.abs ms then throw (PlainError "Invalid time value") else pret ms.

(** [error instanceof Error && error.message.startsWith('VERSION_CONFLICT')].  The registered
    error keeps the message the store gives it. *)
Definition is_version_conflict (e : js_error) : bool :=
  match e with
  | PlainError m => startsWith m "VERSION_CONFLICT"
  | GuardError c => c =s? "VERSION_CONFLICT"
  end.

Definition UNAUTHENTICATED : js_error := GuardError "UNAUTHENTICATED".
Definition IDEMPOTENCY_KEY_CONFLICT : js_error := GuardError "IDEMPOTENCY_KEY_CONFLICT".
Definition INTERNAL : js_error := GuardError "INTERNAL".

(** ** Login *)

(* @src packages/auth/src/service.ts:32-32 LOGIN_TRANSACTION_TTL_MS *)
Definition LOGIN_TRANSACTION_TTL_MS : Z := 10 * 60000.

(* @src packages/auth/src/service.ts:67-72 safeReturnTo *)
Definition safeReturnTo (raw : option string) : string :=
  match raw with
  | Some raw =>
      if startsWith raw "/" && negb (startsWith raw "//") && negb (str_includes raw "\") then
        if raw =s? "/" then "/repositories" else raw
      else "/repositories"
  | None => "/repositories"
  end.

(* @src packages/auth/src/service.ts:34-38 StartLoginResult *)
Record StartLoginResult := {
  stateToken : string;
  authorizeUrl : string;
  transactionExpiresAt : Z;
}.

(* @src packages/auth/src/service.ts:45-51 CompleteLoginResult *)
Record CompleteLoginResult := {
  sessionToken : string;
  r_sessionIdHash : string;
  r_userId : string;
  r_returnToPath : string;
  expiresAt : Z;
}.

Section Service.
Context {Hdigest : Digest} {Hdigest64 : Digest64}.
Context (policy : SessionPolicyInput) (redirectUri : string).

(* @src packages/auth/src/service.ts:81-109 startLogin *)
Definition startLogin (returnTo : option string) : auth StartLoginResult :=
  now <~ ask now_ ;;
  state <~ ask (random_ 32) ;;
  verifier <~ ask (random_ 48) ;;
  created <~ iso now ;;
  expires <~ iso (now + LOGIN_TRANSACTION_TTL_MS) ;;
  ask (insert_transaction {| stateHash := hashToken state; pkceVerifier := verifier;
    returnToPath := safeReturnTo returnTo; tx_createdAt := created; tx_expiresAt := expires;
    consumedAt := None; tx_rowVersion := 0 |}) ;~
  url <~ ask (buildAuthorizeUrl state (sha256_base64 verifier) redirectUri) ;;
  pret {| stateToken := state; authorizeUrl := url; transactionExpiresAt := expires |}.

(* @src packages/auth/src/service.ts:158-189 completeLogin *)
Definition open_session (now : Z) (transaction : AuthTransactionRecord)
    (identity : ExternalIdentity) : auth CompleteLoginResult :=
  user <~ ask (resolve_user (id_issuer identity) (id_subject identity) (id_login identity)
    (id_displayName identity)) ;;
  token <~ ask (random_ 32) ;;
  seen <~ iso now ;;
  idle <~ iso (now + idleMinutes policy * 60000) ;;
  absolute <~ iso (now + absoluteHours policy * 3600000) ;;
  ask (insert_session {| sessionIdHash := hashToken token; s_userId := user;
    s_issuer := id_issuer identity; s_subject := id_subject identity;
    s_login := Some (id_login identity); s_displayName := id_displayName identity;
    createdAt := seen; lastSeenAt := seen; idleExpiresAt := idle; absoluteExpiresAt := absolute;
    revokedAt := None; rowVersion := 0 |}) ;~
  pret {| sessionToken := token; r_sessionIdHash := hashToken token; r_userId := user;
          r_returnToPath := safeReturnTo (Some (returnToPath transaction));
          expiresAt := absolute |}.

(* @src packages/auth/src/service.ts:144-156 completeLogin *)
Definition exchange (code : string) (transaction : AuthTransactionRecord) : auth ExternalIdentity :=
  ptry (accessToken <~ ask (exchangeCode code (pkceVerifier transaction) redirectUri) ;;
        ask (fetchIdentity accessToken))
       (λ _, throw (GuardError "DEPENDENCY_UNAVAILABLE")).

(* @src packages/auth/src/service.ts:113-190 completeLogin *)
Definition completeLogin (code stateToken : option string) : auth CompleteLoginResult :=
  now <~ ask now_ ;;
  match stateToken, code with
  | Some state, Some code =>
      let h := hashToken state in
      found <~ ask (findByStateHash h) ;;
      match found with
      | None => throw UNAUTHENTICATED
      | Some transaction =>
          if tx_expiresAt transaction <? now then throw UNAUTHENTICATED else
          match consumedAt transaction with
          | Some _ => throw IDEMPOTENCY_KEY_CONFLICT
          | None =>
              ptry (at_ <~ iso now ;; ask (consume h at_ (tx_rowVersion transaction)))
                (λ e, throw (if is_version_conflict e then IDEMPOTENCY_KEY_CONFLICT else e)) ;~
              identity <~ exchange code transaction ;;
              open_session now transaction identity
          end
      end
  | _, _ => throw UNAUTHENTICATED
  end.

(** ** Sessions *)

(* @src packages/auth/src/service.ts:196-214 revokeIfExists *)
Definition revokeIfExists (token : string) : auth bool :=
  let h := hashToken token in
  found <~ ask (findBySessionIdHash h) ;;
  match found with
  | None => throw UNAUTHENTICATED
  | Some record =>
      match revokedAt record with
      | Some _ => pret false
      | None =>
          ptry (now <~ ask now_ ;; at_ <~ iso now ;;
                ask (revoke_session h at_ (rowVersion record)) ;~ pret true)
            (λ e, if is_version_conflict e then pret false else throw INTERNAL)
      end
  end.

(** The record stands at an instant. *)
Definition live_at (now : Z) (r : AuthSessionRecord) : bool :=
  match revokedAt r with
  | Some _ => false
  | None => (now <=? idleExpiresAt r) && (now <=? absoluteExpiresAt r)
  end.

(* @src packages/auth/src/service.ts:261-272 resolvePrincipal *)
Definition session_principal (h : string) (r : AuthSessionRecord) : Principal :=
  {| userId := s_userId r; issuer := s_issuer r; providerSubject := s_subject r;
     providerLogin := s_login r; providerDisplayName := s_displayName r;
     authMethod := session; p_sessionIdHash := Some h; tokenIdHash := None;
     authenticatedAt := createdAt r |}.

(** When the session is written again: at most once per half window, and never past the
    absolute expiry. *)
(* @src packages/auth/src/service.ts:232-237 resolvePrincipal *)
Definition touch_due (now : Z) (r : AuthSessionRecord) : bool :=
  let idleWindowMs := idleExpiresAt r - lastSeenAt r in
  (idleWindowMs <? 2 * (now - lastSeenAt r)) && (now <? absoluteExpiresAt r - idleWindowMs).

(* @src packages/auth/src/service.ts:216-273 resolvePrincipal *)
Definition resolvePrincipal (token : option string) : auth (option Principal) :=
  match token with
  | None => pret None
  | Some token =>
      if str_length token <? 20 then pret None else
      let h := hashToken token in
      found <~ ask (findBySessionIdHash h) ;;
      match found with
      | None => pret None
      | Some record =>
          now <~ ask now_ ;;
          if negb (live_at now record) then pret None else
          let principal := pret (Some (session_principal h record)) in
          if touch_due now record then
            touched <~ ptry
              (seen <~ iso now ;; idle <~ iso (now + (idleExpiresAt record - lastSeenAt record)) ;;
               ask (touch h seen idle (rowVersion record)) ;~ pret true)
              (λ e,
                if is_version_conflict e then
                  latest <~ ask (findBySessionIdHash h) ;;
                  pret match latest with Some latest => live_at now latest | None => false end
                else pret true) ;;
            if touched : bool then principal else pret None
          else principal
      end
  end.

(** The details of a conflict with a row that is gone fail their own schema: [makeError] then
    throws the [TypeError] of the refused details. *)
(* @src packages/auth/src/service.ts:276-292 revokeSession *)
Definition revokeSession (token : string) : auth unit :=
  let h := hashToken token in
  found <~ ask (findBySessionIdHash h) ;;
  match found with
  | None => throw UNAUTHENTICATED
  | Some record =>
      match revokedAt record with
      | Some _ => pret tt
      | None =>
          ptry (now <~ ask now_ ;; at_ <~ iso now ;; ask (revoke_session h at_ (rowVersion record)))
            (λ e, if is_version_conflict e then
                    current <~ ask (findBySessionIdHash h) ;;
                    match current with
                    | Some _ => throw (GuardError "VERSION_CONFLICT")
                    | None => throw (PlainError "Safe details rejected for error code 'VERSION_CONFLICT'.")
                    end
                  else throw INTERNAL)
      end
  end.
End Service.

(** ** API tokens *)

Section ApiTokens.
Context {Hdigest : Digest}.
(** [ownerProfile] and [tokenTtlDays] of the dependencies. *)
Context (ownerProfile : option (string * option string)) (tokenTtlDays : option Z).

(* @src packages/auth/src/api-tokens.ts:58-71 normalizeTokenLabel *)
Definition normalizeTokenLabel (raw : string) : auth string :=
  let label := trim raw in
  if (str_length label <? 1) || (64 <? str_length label) then throw (GuardError "VALIDATION_FAILED")
  else if any_char (λ c, (code_of c <=? 31) || ((127 <=? code_of c) && (code_of c <=? 159))) label
  then throw (GuardError "VALIDATION_FAILED")
  else pret label.

(* @src packages/auth/src/api-tokens.ts:76-78 tokenTtlMs *)
Definition tokenTtlMs : Z := (tokenTtlDays ?? 90) * 24 * 3600000.

(* @src packages/auth/src/api-tokens.ts:34-39 IssuedApiToken *)
Record IssuedApiToken := { token : string; i_tokenId : string; i_expiresAt : Z }.

(* @src packages/auth/src/api-tokens.ts:81-102 issue *)
Definition issue (ownerUserId label : string) : auth IssuedApiToken :=
  label <~ normalizeTokenLabel label ;;
  now <~ ask now_ ;;
  secret <~ ask (random_ 32) ;;
  id <~ ask uuid_ ;;
  created <~ iso now ;;
  expires <~ iso (now + tokenTtlMs) ;;
  let plaintext := API_TOKEN_PREFIX +s secret in
  ask (insert_token {| tokenId := id; t_userId := ownerUserId;
    tokenHash := hashApiToken plaintext; t_label := label; t_createdAt := created;
    lastUsedAt := None; t_expiresAt := expires; t_revokedAt := None; t_rowVersion := 0 |}) ;~
  pret {| token := plaintext; i_tokenId := id; i_expiresAt := expires |}.

(* @src packages/auth/src/api-tokens.ts:41-48 ApiTokenSummary *)
Record ApiTokenSummary := {
  sm_tokenId : string; sm_label : string; sm_createdAt : Z; sm_lastUsedAt : option Z;
  sm_expiresAt : Z; sm_revokedAt : option Z }.

(* @src packages/auth/src/api-tokens.ts:105-115 listByOwner *)
Definition listByOwner (userId : string) : auth (list ApiTokenSummary) :=
  records <~ ask (list_tokens userId) ;;
  pret (map (λ r, {| sm_tokenId := tokenId r; sm_label := t_label r; sm_createdAt := t_createdAt r;
    sm_lastUsedAt := lastUsedAt r; sm_expiresAt := t_expiresAt r;
    sm_revokedAt := t_revokedAt r |}) records).

(* @src packages/auth/src/api-tokens.ts:118-120 revoke *)
Definition revoke (tokenId userId : string) : auth unit :=
  now <~ ask now_ ;; at_ <~ iso now ;; ask (revoke_token tokenId userId at_).

(* @src packages/auth/src/api-tokens.ts:128-148 authenticate *)
Definition authenticate (bearerToken : string) : auth (option Principal) :=
  if negb (isApiTokenShape bearerToken) then pret None else
  found <~ ask (findByTokenHash (hashApiToken bearerToken)) ;;
  match found with
  | None => pret None
  | Some record =>
      match t_revokedAt record with
      | Some _ => pret None
      | None =>
          now <~ ask now_ ;;
          if t_expiresAt record <=? now then pret None else
          pret (Some {| userId := t_userId record; issuer := "devguard";
            providerSubject := t_userId record; providerLogin := fst <$> ownerProfile;
            providerDisplayName := ownerProfile ≫= snd; authMethod := api_token;
            p_sessionIdHash := None; tokenIdHash := Some (hashToken (tokenId record));
            authenticatedAt := t_createdAt record |})
      end
  end.
End ApiTokens.

(** ** The stores *)

(** The rows of [auth_sessions] and [auth_transactions] by their primary keys, and those of
    [api_tokens]. *)
(* @src packages/db/src/repositories/auth-sessions.ts:26-49 AuthSessionRecord *)
Record Tables := {
  sessions : gmap string AuthSessionRecord;
  transactions : gmap string AuthTransactionRecord;
  tokens : list ApiTokenRecord;
}.

Definition with_sessions f (t : Tables) : Tables :=
  {| sessions := f (sessions t); transactions := transactions t; tokens := tokens t |}.
Definition with_transactions f (t : Tables) : Tables :=
  {| sessions := sessions t; transactions := f (transactions t); tokens := tokens t |}.
Definition with_tokens f (t : Tables) : Tables :=
  {| sessions := sessions t; transactions := transactions t; tokens := f (tokens t) |}.

Definition touched (lastSeen idleExpires : Z) (r : AuthSessionRecord) : AuthSessionRecord :=
  {| sessionIdHash := sessionIdHash r; s_userId := s_userId r; s_issuer := s_issuer r;
     s_subject := s_subject r; s_login := s_login r; s_displayName := s_displayName r;
     createdAt := createdAt r; lastSeenAt := lastSeen; idleExpiresAt := idleExpires;
     absoluteExpiresAt := absoluteExpiresAt r; revokedAt := revokedAt r;
     rowVersion := rowVersion r + 1 |}.
Definition revoked (at_ : Z) (r : AuthSessionRecord) : AuthSessionRecord :=
  {| sessionIdHash := sessionIdHash r; s_userId := s_userId r; s_issuer := s_issuer r;
     s_subject := s_subject r; s_login := s_login r; s_displayName := s_displayName r;
     createdAt := createdAt r; lastSeenAt := lastSeenAt r; idleExpiresAt := idleExpiresAt r;
     absoluteExpiresAt := absoluteExpiresAt r; revokedAt := Some at_;
     rowVersion := rowVersion r + 1 |}.
Definition spent (at_ : Z) (r : AuthTransactionRecord) : AuthTransactionRecord :=
  {| stateHash := stateHash r; pkceVerifier := pkceVerifier r; returnToPath := returnToPath r;
     tx_createdAt := tx_createdAt r; tx_expiresAt := tx_expiresAt r; consumedAt := Some at_;
     tx_rowVersion := tx_rowVersion r + 1 |}.
Definition token_revoked (at_ : Z) (r : ApiTokenRecord) : ApiTokenRecord :=
  {| tokenId := tokenId r; t_userId := t_userId r; tokenHash := tokenHash r;
     t_label := t_label r; t_createdAt := t_createdAt r; lastUsedAt := lastUsedAt r;
     t_expiresAt := t_expiresAt r; t_revokedAt := Some at_; t_rowVersion := t_rowVersion r + 1 |}.

(** The keys and the check of the table [api_tokens]. *)
(* @src packages/db/src/repositories/api-tokens.ts:59-80 insert *)
Definition token_refused (r : ApiTokenRecord) (rows : list ApiTokenRecord) : bool :=
  existsb (λ r', (tokenId r' =s? tokenId r) || (tokenHash r' =s? tokenHash r)) rows
  || (str_length (t_label r) <? 1) || (64 <? str_length (t_label r)).

(* @src packages/db/src/repositories/api-tokens.ts:99-106 revoke *)
Definition revoke_row (id u : string) (at_ : Z) (r : ApiTokenRecord) : ApiTokenRecord :=
  if (tokenId r =s? id) && (t_userId r =s? u) && bool_decide (t_revokedAt r = None)
  then token_revoked at_ r else r.

(** Newest first. *)
Definition by_created (a b : ApiTokenRecord) : Z := t_createdAt b - t_createdAt a.
(* @src packages/db/src/repositories/api-tokens.ts:91-97 listByOwner *)
Definition tokens_of (u : string) (rows : list ApiTokenRecord) : list ApiTokenRecord :=
  js_sort by_created (List.filter (λ r, t_userId r =s? u) rows).

Definition CAS_CONFLICT : js_error := GuardError "VERSION_CONFLICT".

Section Postgres.
(** What answers the calls that are not of a store. *)
Context {X : Type} (other : ∀ c, X → outcome (AuthAns c) * X).

(** Every call of a store is one statement. *)
(* @src packages/db/src/repositories/auth-sessions.ts:114-239 PostgresAuthSessionRepository *)
Definition postgres (c : AuthCall) (w : Tables * X) : outcome (AuthAns c) * (Tables * X) :=
  let '(t, x) := w in
  match c return outcome (AuthAns c) * (Tables * X) with
  | insert_session r =>
      match sessions t !! sessionIdHash r with
      | Some _ => (Threw INTERNAL, w)
      | None => (Returned tt, (with_sessions (<[sessionIdHash r := r]>) t, x))
      end
  | findBySessionIdHash h => (Returned (sessions t !! h), w)
  | touch h lastSeen idleExpires v =>
      match sessions t !! h with
      | Some r =>
          if rowVersion r =? v
          then (Returned tt, (with_sessions (<[h := touched lastSeen idleExpires r]>) t, x))
          else (Threw CAS_CONFLICT, w)
      | None => (Threw CAS_CONFLICT, w)
      end
  | revoke_session h at_ v =>
      match sessions t !! h with
      | Some r =>
          if rowVersion r =? v then (Returned tt, (with_sessions (<[h := revoked at_ r]>) t, x))
          else (Threw CAS_CONFLICT, w)
      | None => (Threw CAS_CONFLICT, w)
      end
  | insert_transaction r =>
      match transactions t !! stateHash r with
      | Some _ => (Threw INTERNAL, w)
      | None => (Returned tt, (with_transactions (<[stateHash r := r]>) t, x))
      end
  | findByStateHash h => (Returned (transactions t !! h), w)
  | consume h at_ v =>
      match transactions t !! h with
      | Some r =>
          if (tx_rowVersion r =? v) && bool_decide (consumedAt r = None) && (at_ <? tx_expiresAt r)
          then (Returned tt, (with_transactions (<[h := spent at_ r]>) t, x))
          else (Threw CAS_CONFLICT, w)
      | None => (Threw CAS_CONFLICT, w)
      end
  | insert_token r =>
      if token_refused r (tokens t) then (Threw INTERNAL, w)
      else (Returned tt, (with_tokens (λ l, l ++ [r]) t, x))
  | findByTokenHash h => (Returned (List.find (λ r, tokenHash r =s? h) (tokens t)), w)
  | list_tokens u => (Returned (tokens_of u (tokens t)), w)
  | revoke_token id u at_ => (Returned tt, (with_tokens (map (revoke_row id u at_)) t, x))
  | c => let '(o, x) := other c x in (o, (t, x))
  end.

(** The volatile stores of development; they keep no API tokens. *)
(* @src packages/auth/src/memory-store.ts:19-93 InMemoryAuthSessionRepository *)
Definition in_memory (c : AuthCall) (w : Tables * X) : outcome (AuthAns c) * (Tables * X) :=
  let '(t, x) := w in
  let conflict := PlainError "VERSION_CONFLICT:" in
  match c return outcome (AuthAns c) * (Tables * X) with
  | insert_session r =>
      match sessions t !! sessionIdHash r with
      | Some _ => (Threw (PlainError "SESSION_CONFLICT:duplicate"), w)
      | None => (Returned tt, (with_sessions (<[sessionIdHash r := r]>) t, x))
      end
  | findBySessionIdHash h => (Returned (sessions t !! h), w)
  | touch h lastSeen idleExpires v =>
      match sessions t !! h with
      | Some r =>
          if rowVersion r =? v
          then (Returned tt, (with_sessions (<[h := touched lastSeen idleExpires r]>) t, x))
          else (Threw conflict, w)
      | None => (Threw (PlainError "NOT_FOUND:session"), w)
      end
  | revoke_session h at_ v =>
      match sessions t !! h with
      | Some r =>
          if rowVersion r =? v then (Returned tt, (with_sessions (<[h := revoked at_ r]>) t, x))
          else (Threw conflict, w)
      | None => (Threw (PlainError "NOT_FOUND:session"), w)
      end
  | insert_transaction r =>
      match transactions t !! stateHash r with
      | Some _ => (Threw (PlainError "SESSION_CONFLICT:duplicate-transaction"), w)
      | None => (Returned tt, (with_transactions (<[stateHash r := r]>) t, x))
      end
  | findByStateHash h => (Returned (transactions t !! h), w)
  | consume h at_ v =>
      match transactions t !! h with
      | Some r =>
          match consumedAt r with
          | Some _ => (Threw (PlainError "VERSION_CONFLICT:already_consumed"), w)
          | None =>
              if tx_rowVersion r =? v
              then (Returned tt, (with_transactions (<[h := spent at_ r]>) t, x))
              else (Threw conflict, w)
          end
      | None => (Threw (PlainError "NOT_FOUND:transaction"), w)
      end
  | c => let '(o, x) := other c x in (o, (t, x))
  end.
End Postgres.

(** ** One session per login *)

(** What the transaction store promises: a transaction is consumed only while it is not, and
    never comes back.  [unspent h w]: the transaction is not consumed, or not yet inserted. *)
Class LoginStore (W : Type) := {
  login_port : ∀ c, W → outcome (AuthAns c) * W;
  unspent : string → W → bool;
  consume_exclusive h at_ v w u w' :
    login_port (consume h at_ v) w = (Returned u, w') → unspent h w = true ∧ unspent h w' = false;
  never_unspent c h w : unspent h w = false → unspent h (login_port c w).2 = false;
}.

Definition row_unspent {X} (h : string) (w : Tables * X) : bool :=
  match transactions w.1 !! h with Some r => bool_decide (consumedAt r = None) | None => true end.

Lemma row_unspent_insert {X} h h' r (t : Tables) (x : X) :
  row_unspent h (t, x) = false →
  (h' = h → bool_decide (consumedAt r = None) = false) →
  row_unspent h (with_transactions (<[h' := r]>) t, x) = false.
Proof.
  unfold row_unspent. cbn [fst with_transactions transactions]. intros H Hr.
  destruct (decide (h' = h)) as [->|Hne].
  - rewrite lookup_insert_eq. by apply Hr.
  - by rewrite lookup_insert_ne.
Qed.

Lemma postgres_consume {X} other h at_ v (w w' : Tables * X) u :
  postgres other (consume h at_ v) w = (Returned u, w') →
  row_unspent h w = true ∧ row_unspent h w' = false.
Proof.
  destruct w as [t x]. unfold row_unspent. cbn [postgres fst].
  destruct (transactions t !! h) as [r|]; [|done]. destruct (_ && _) eqn:Hb; [|done].
  intros [= <- <-]. breflect. cbn [fst with_transactions transactions].
  rewrite lookup_insert_eq. cbn [spent consumedAt].
  by rewrite bool_decide_eq_true_2.
Qed.

Lemma postgres_unspent {X} other c h (w : Tables * X) :
  row_unspent h w = false → row_unspent h (postgres other c w).2 = false.
Proof.
  destruct w as [t x]. intros H.
  destruct c; cbn [postgres]; try exact H;
    try (destruct (other _ x); exact H); try (repeat case_match; exact H).
  - destruct (transactions t !! stateHash r) as [r'|] eqn:Hr; [exact H|].
    apply row_unspent_insert; [done|]. intros <-. unfold row_unspent in H. cbn [fst] in H.
    by rewrite Hr in H.
  - destruct (transactions t !! h0) as [r|] eqn:Hr; [|exact H]. case_match; [|exact H].
    by apply row_unspent_insert.
Qed.

#[export] Instance postgres_logins {X} (other : ∀ c, X → outcome (AuthAns c) * X) :
  LoginStore (Tables * X) := {
  login_port := postgres other; unspent := row_unspent;
  consume_exclusive h at_ v w u w' := postgres_consume other h at_ v w w' u;
  never_unspent := postgres_unspent other }.

Lemma in_memory_consume {X} other h at_ v (w w' : Tables * X) u :
  in_memory other (consume h at_ v) w = (Returned u, w') →
  row_unspent h w = true ∧ row_unspent h w' = false.
Proof.
  destruct w as [t x]. unfold row_unspent. cbn [in_memory fst].
  destruct (transactions t !! h) as [r|]; [|done]. destruct (consumedAt r) eqn:Hc; [done|].
  destruct (tx_rowVersion r =? v); [|done]. intros [= <- <-]. cbn [fst with_transactions transactions].
  by rewrite lookup_insert_eq.
Qed.

Lemma in_memory_unspent {X} other c h (w : Tables * X) :
  row_unspent h w = false → row_unspent h (in_memory other c w).2 = false.
Proof.
  destruct w as [t x]. intros H.
  destruct c; cbn [in_memory]; try exact H;
    try (destruct (other _ x); exact H); try (repeat case_match; exact H).
  - destruct (transactions t !! stateHash r) as [r'|] eqn:Hr; [exact H|].
    apply row_unspent_insert; [done|]. intros <-. unfold row_unspent in H. cbn [fst] in H.
    by rewrite Hr in H.
  - destruct (transactions t !! h0) as [r|]; [|exact H]. destruct (consumedAt r); [exact H|].
    case_match; [|exact H]. by apply row_unspent_insert.
Qed.

(** Not an instance: the two would be candidates for the same tables. *)
Definition in_memory_logins {X} (other : ∀ c, X → outcome (AuthAns c) * X) : LoginStore (Tables * X) := {|
  login_port := in_memory other; unspent := row_unspent;
  consume_exclusive h at_ v w u w' := in_memory_consume other h at_ v w w' u;
  never_unspent := in_memory_unspent other |}.

Definition is_exchange (e : event AuthAns) : bool :=
  match ev_call e with exchangeCode _ _ _ => true | _ => false end.
Definition is_session (e : event AuthAns) : bool :=
  match ev_call e with insert_session _ => true | _ => false end.
Definition is_consumption (e : event AuthAns) : bool :=
  match e with
  | existT c o =>
      match c return outcome (AuthAns c) → bool with
      | consume _ _ _ => λ o, match o with Returned _ => true | Threw _ => false end
      | _ => λ _, false
      end o
  end.

(** A login exchanges its code and opens its session once, after it consumed its transaction. *)
Definition login_call `{Digest} (stateToken : option string) (tr : list (event AuthAns)) (c : AuthCall)
    : Prop :=
  match c with
  | consume h _ _ => stateToken ≠ None ∧ h = hashToken (stateToken ?? "")
  | exchangeCode _ _ _ => count is_exchange tr = 0%nat ∧ count is_consumption tr = 1%nat
  | insert_session _ => count is_session tr = 0%nat ∧ count is_consumption tr = 1%nat
  | _ => True
  end.

Lemma ensures_iso P Q tr ms (k : Z → auth CompleteLoginResult) :
  ensures P Q tr (k ms) → (∀ e, Q tr (Threw e)) → ensures P Q tr (pbind (iso ms) k).
Proof. intros Hk He. unfold iso. case_match; [apply He|exact Hk]. Qed.

Lemma completeLogin_ensures `{Digest} policy redirectUri code stateToken :
  ensures (login_call stateToken) (λ _ _, True) []
    (completeLogin policy redirectUri code stateToken).
Proof.
  unfold completeLogin. split; [done|]. intros [now|]; [|done].
  destruct stateToken as [state|]; [|done]. destruct code as [code|]; [|done].
  split; [done|]. intros [[transaction|]|]; [|done..]. cbn [pbind].
  destruct (_ <? now); [done|]. destruct (consumedAt transaction); [done|].
  unfold iso at 1. destruct (8640000000000000 <? Z.abs now); [done|].
  split; [done|]. intros [u|e]; [|done]. cbn [pbind ptry].
  split; [done|]. intros [accessToken|]; [|done]. split; [done|]. intros [identity|]; [|done].
  cbn [pbind]. split; [done|]. intros [user|]; [|done]. split; [done|]. intros [token|]; [|done].
  cbn [pbind]. do 3 (apply ensures_iso; [|done]). split; [done|]. by intros [].
Qed.

Lemma login_rationed `{LoginStore W} `{Digest} state acts :
  (∀ tr c o, login_call (Some state) tr c → acts (ev c o) = true →
     count acts tr = 0%nat ∧ count is_consumption tr = 1%nat) →
  rationed login_port acts is_consumption (unspent (hashToken state)) (λ _, True)
    (login_call (Some state)).
Proof.
  intros Hacts tr c o Hc _. split.
  - unfold within_grants. rewrite !count_snoc. intros Hle.
    destruct (acts (ev c o)) eqn:E; [|lia]. destruct (Hacts tr c o Hc E) as [-> ->]. lia.
  - intros w w' Hport. split.
    + intros Hg. destruct c; try done. destruct o as [u|]; [|done].
      destruct Hc as [_ ->]. by eapply consume_exclusive.
    + intros Hl. pose proof (never_unspent c (hashToken state) w Hl) as Hn. by rewrite Hport in Hn.
Qed.

Definition logins `{Digest} policy redirectUri (state : string) (codes : list (option string))
    : list (list (event AuthAns) * auth CompleteLoginResult) :=
  (λ code, ([], completeLogin policy redirectUri code (Some state))) <$> codes.

(* @prop safety 2.9 : completeLogin exchange open_session postgres in_memory hashToken / one_session_per_login_witness *)
(** C9.  A login transaction is used once: let any number of callbacks carry the same state, their
    port calls interleaved in any order with each other and with any other activity that does not
    make the consumed transaction unconsumed again; over all of them together the authorization
    code is exchanged at most once and at most one session is opened, over any store that consumes
    a transaction only while it is not.  Both stores of the code are proved to be such, the SQL
    tables ([postgres_logins]) and the maps of development ([in_memory_logins]). *)
Theorem one_session_per_login `{LoginStore W} `{Digest} (environment : W → W → Prop)
    policy redirectUri state codes w w' ts
  (Henv : ∀ x y, environment x y → unspent (hashToken state) x = false →
     unspent (hashToken state) y = false)
  (Hrun : rtc (pool_step login_port environment)
     (w, logins policy redirectUri state codes) (w', ts)) :
  (total is_exchange ts ≤ 1)%nat ∧ (total is_session ts ≤ 1)%nat.
Proof.
  unfold logins in Hrun.
  split; (eapply (at_most_once login_port environment _ is_consumption
    (unspent (hashToken state)) (λ _, True) _ Henv _ _ _ _ Hrun); [|unfold grants_bounded; rewrite starting_total; lia]);
    apply starting_rationed; intros code; eexists _, _;
    (split; [apply login_rationed|apply completeLogin_ensures]);
    intros tr c o Hc Ha; by destruct c.
  Unshelve. all: done.
Qed.

(** A provider that knows one person, and a clock that stands at one second. *)
Definition sample_other (c : AuthCall) (x : unit) : outcome (AuthAns c) * unit :=
  (match c return outcome (AuthAns c) with
   | now_ => Returned 1000
   | random_ _ => Returned "0123456789012345678901234567890123456789012"
   | exchangeCode _ _ _ => Returned "gho_1234567890"
   | fetchIdentity _ => Returned {| id_issuer := "https://github.com"; id_subject := "7";
       id_login := "ada"; id_displayName := None |}
   | resolve_user _ _ _ _ => Returned "user-7"
   | buildAuthorizeUrl state _ _ => Returned ("https://github.com/login?state=" +s state)
   | uuid_ => Returned "11111111-1111-7111-8111-111111111111"
   | _ => Threw (PlainError "not a port")
   end, x).

Definition sample_policy : SessionPolicyInput := {| idleMinutes := 30; absoluteHours := 12 |}.
Definition sample_transaction : AuthTransactionRecord := {|
  stateHash := "devguard.session.v1:state"; pkceVerifier := "verifier"; returnToPath := "/runs";
  tx_createdAt := 0; tx_expiresAt := 600000; consumedAt := None; tx_rowVersion := 0 |}.
Definition sample_tables : Tables * unit :=
  ({| sessions := ∅; transactions := {[ "devguard.session.v1:state" := sample_transaction ]};
      tokens := [] |}, tt).

#[local] Instance plain_digest : Digest := λ s, s.

Definition sample_race :=
  schedule (postgres sample_other) [0; 1; 0; 1; 1; 0; 0; 1; 1; 1; 1; 1]%nat
    (sample_tables, logins sample_policy "/cb" "state" [Some "c1"; Some "c2"]).

(** Both callbacks read the transaction before either consumes it; the second wins. *)
Lemma one_session_per_login_witness :
  rtc (pool_step (postgres sample_other) (λ _ _, False))
    (sample_tables, logins sample_policy "/cb" "state" [Some "c1"; Some "c2"]) sample_race ∧
  snd <$> sample_race.2 !! 0%nat = Some (throw IDEMPOTENCY_KEY_CONFLICT) ∧
  total is_session sample_race.2 = 1%nat ∧ (total is_exchange sample_race.2 ≤ 1)%nat.
Proof.
  assert (rtc (pool_step (postgres sample_other) (λ _ _, False))
    (sample_tables, logins sample_policy "/cb" "state" [Some "c1"; Some "c2"]) sample_race) as Hrun
    by apply schedule_sound.
  split; [exact Hrun|]. split; [reflexivity|]. split; [reflexivity|].
  refine (proj1 (@one_session_per_login _ (postgres_logins sample_other) plain_digest
    (λ _ _, False) sample_policy "/cb" "state"
    [Some "c1"; Some "c2"] sample_tables sample_race.1 sample_race.2 (λ _ _ H, False_ind _ H) _)).
  destruct sample_race. exact Hrun.
Defined.

(** ** What a resolved principal rests on *)

(** A call of [resolvePrincipal]: it reads one session, and writes back only that one, with an
    idle expiry that stays before the absolute one. *)
Definition resolve_call `{Digest} (token : option string) (tr : list (event AuthAns)) (c : AuthCall)
    : Prop :=
  match c with
  | now_ => True
  | findBySessionIdHash h => ∃ t, token = Some t ∧ h = hashToken t
  | touch h lastSeen idleExpires v =>
      ∃ t r, token = Some t ∧ h = hashToken t ∧
        ev (findBySessionIdHash h) (Returned (Some r)) ∈ tr ∧ ev now_ (Returned lastSeen) ∈ tr ∧
        live_at lastSeen r = true ∧ v = rowVersion r ∧ idleExpires < absoluteExpiresAt r
  | _ => False
  end.

Definition resolved `{Digest} (token : option string) (tr : list (event AuthAns))
    (o : outcome (option Principal)) : Prop :=
  match o with
  | Returned (Some p) =>
      ∃ t r now, token = Some t ∧ 20 ≤ str_length t ∧
        ev (findBySessionIdHash (hashToken t)) (Returned (Some r)) ∈ tr ∧
        ev now_ (Returned now) ∈ tr ∧ live_at now r = true ∧
        p = session_principal (hashToken t) r
  | _ => True
  end.

Lemma resolvePrincipal_ensures `{Digest} token :
  ensures (resolve_call token) (resolved token) [] (resolvePrincipal token).
Proof.
  unfold resolvePrincipal. destruct token as [t|]; [|done].
  destruct (str_length t <? 20) eqn:Hlen; [done|]. breflect.
  split; [by exists t|]. intros [[r|]|]; [|done..]. cbn [pbind].
  split; [done|]. intros [now|]; [|done]. cbn [pbind].
  destruct (live_at now r) eqn:Hlive; [|done]. cbn [negb].
  assert (∀ rest, resolved (Some t)
    (ev (findBySessionIdHash (hashToken t)) (Returned (Some r)) :: ev now_ (Returned now) :: rest)
    (Returned (Some (session_principal (hashToken t) r)))) as Hres.
  { intros rest. exists t, r, now. split_and!; try done; set_solver. }
  destruct (touch_due now r) eqn:Hdue; [|apply (Hres [])].
  unfold iso at 1. destruct (8640000000000000 <? Z.abs now); [apply (Hres [])|].
  cbn [pbind pret]. unfold iso.
  destruct (8640000000000000 <? Z.abs (now + (idleExpiresAt r - lastSeenAt r)));
    [apply (Hres [])|].
  cbn [pbind ask call ptry pret]. split.
  - exists t, r. unfold touch_due in Hdue. breflect. split_and!; try done; [set_solver..|lia].
  - intros [u|e]; [apply (Hres [_])|]. cbn [ptry].
    destruct (is_version_conflict e); [|apply (Hres [_])].
    split; [by exists t|]. intros [[latest|]|]; cbn [pbind]; [|done..].
    destruct (live_at now latest); [apply (Hres [_; _])|done].
Qed.

(* @prop safety 2.91 : resolvePrincipal touch_due session_principal *)
(** C10.  A session authenticates only while it stands: whatever the stores answer, a principal is
    returned only for a token of at least twenty characters whose hash names a session that was
    read unrevoked, and within its idle and its absolute expiry by the clock read in the same
    call; it carries the user and identity of that row, and the only row written is the same one,
    at the version read, with an idle expiry before the absolute one. *)
Theorem principal_is_live `{Digest} token :
  ensures (resolve_call token) (resolved token) [] (resolvePrincipal token).
Proof. apply resolvePrincipal_ensures. Qed.

(** ** Revocation *)

Section Revocation.
Context {X : Type} (other : ∀ c, X → outcome (AuthAns c) * X).

(** Calls of anyone, one after the other. *)
Definition run_calls (calls : list AuthCall) (w : Tables * X) : Tables * X :=
  fold_left (λ w c, (postgres other c w).2) calls w.

Definition session_revoked (h : string) (w : Tables * X) : Prop :=
  ∃ r, sessions w.1 !! h = Some r ∧ revokedAt r ≠ None.

Lemma session_insert h k r (t : Tables) (x : X) :
  session_revoked h (t, x) → (k = h → revokedAt r ≠ None) →
  session_revoked h (with_sessions (<[k := r]>) t, x).
Proof.
  intros (r' & Hr & Hv) Hk. unfold session_revoked. cbn [fst with_sessions sessions] in *.
  destruct (decide (k = h)) as [->|Hne].
  - exists r. by rewrite lookup_insert_eq; auto.
  - exists r'. by rewrite lookup_insert_ne.
Qed.

Lemma session_stays_revoked h c w : session_revoked h w → session_revoked h (postgres other c w).2.
Proof.
  destruct w as [t x]. intros H. pose proof H as (r' & Hr' & Hv). cbn [fst] in Hr'.
  destruct c; cbn [postgres]; try exact H;
    try (destruct (other _ x); exact H); try (repeat case_match; exact H).
  - destruct (sessions t !! sessionIdHash r) eqn:Hr; [exact H|]. apply session_insert; [done|].
    congruence.
  - destruct (sessions t !! h0) as [r|] eqn:Hr; [|exact H]. case_match; [|exact H].
    apply session_insert; [done|]. cbn [touched revokedAt]. congruence.
  - destruct (sessions t !! h0) as [r|] eqn:Hr; [|exact H]. case_match; [|exact H].
    by apply session_insert.
Qed.

Lemma revoked_not_resolved `{Digest} token w :
  session_revoked (hashToken token) w →
  ∀ p w', final (postgres other) (resolvePrincipal (Some token)) w ≠ (Returned (Some p), w').
Proof.
  intros (r & Hr & Hv) p w'. destruct w as [t x]. cbn [fst] in Hr. unfold resolvePrincipal.
  destruct (str_length token <? 20); [done|]. rewrite final_pbind. unfold ask at 1.
  rewrite final_call. cbn [postgres]. rewrite Hr. rewrite final_pbind. unfold ask at 1.
  rewrite final_call. destruct (postgres other now_ (t, x)) as [[now|] w1]; [|done].
  unfold live_at. destruct (revokedAt r); [|done]. done.
Qed.

Definition token_row_revoked (h : string) (w : Tables * X) : Prop :=
  ∃ r, List.find (λ r, tokenHash r =s? h) (tokens w.1) = Some r ∧ t_revokedAt r ≠ None.

Lemma find_map (f : ApiTokenRecord → ApiTokenRecord) h l :
  (∀ r, tokenHash (f r) = tokenHash r) →
  List.find (λ r, tokenHash r =s? h) (map f l) = f <$> List.find (λ r, tokenHash r =s? h) l.
Proof.
  intros Hf. induction l as [|r l IH]; [done|]. cbn [map List.find]. rewrite Hf. by case_match.
Qed.

Lemma find_app_some {A} (f : A → bool) l l' a :
  List.find f l = Some a → List.find f (l ++ l') = Some a.
Proof. induction l as [|b l IH]; [done|]. cbn. by case_match. Qed.

Lemma token_stays_revoked h c w : token_row_revoked h w → token_row_revoked h (postgres other c w).2.
Proof.
  destruct w as [t x]. intros H. pose proof H as (r' & Hr' & Hv). cbn [fst] in Hr'.
  destruct c; cbn [postgres]; try exact H;
    try (destruct (other _ x); exact H); try (repeat case_match; exact H).
  - case_match; [exact H|]. exists r'. split; [by apply find_app_some|done].
  - unfold token_row_revoked. cbn [fst snd with_tokens tokens]. rewrite find_map, Hr'.
    + eexists. split; [done|]. unfold revoke_row. by case_match.
    + intros r. unfold revoke_row. by case_match.
Qed.

Lemma token_not_authenticated `{Digest} profile bearer w :
  token_row_revoked (hashApiToken bearer) w →
  ∀ p w', final (postgres other) (authenticate profile bearer) w ≠ (Returned (Some p), w').
Proof.
  intros (r & Hr & Hv) p w'. destruct w as [t x]. cbn [fst] in Hr. unfold authenticate.
  destruct (isApiTokenShape bearer); [|done]. cbn [negb]. rewrite final_pbind. unfold ask at 1.
  rewrite final_call. cbn [postgres]. rewrite Hr. by destruct (t_revokedAt r).
Qed.

Lemma run_calls_keep (P : Tables * X → Prop) calls w :
  (∀ c w, P w → P (postgres other c w).2) → P w → P (run_calls calls w).
Proof.
  intros Hstep. unfold run_calls. revert w. induction calls as [|c calls IH]; intros w Hw; [done|].
  cbn [fold_left]. by apply IH, Hstep.
Qed.
End Revocation.

(**  Revocation is final: once a session row is revoked, and once a token row is revoked, no
    sequence of statements of anyone, touches of the same session included, lets the session
    token or the bearer token authenticate again. *)
Theorem revocation_is_final `{Digest} {X} (other : ∀ c, X → outcome (AuthAns c) * X) profile
    calls w token bearer :
  session_revoked (hashToken token) w → token_row_revoked (hashApiToken bearer) w →
  let w1 := run_calls other calls w in
  (∀ p w', final (postgres other) (resolvePrincipal (Some token)) w1 ≠ (Returned (Some p), w')) ∧
  (∀ p w', final (postgres other) (authenticate profile bearer) w1 ≠ (Returned (Some p), w')).
Proof.
  intros Hs Ht w1. split.
  - apply revoked_not_resolved. apply run_calls_keep; [apply session_stays_revoked|done].
  - apply token_not_authenticated. apply run_calls_keep; [apply token_stays_revoked|done].
Qed.

Definition gone_session : AuthSessionRecord := {|
  sessionIdHash := "devguard.session.v1:01234567890123456789"; s_userId := "user-7";
  s_issuer := "https://github.com"; s_subject := "7"; s_login := None; s_displayName := None;
  createdAt := 0; lastSeenAt := 0; idleExpiresAt := 9000000; absoluteExpiresAt := 9000000;
  revokedAt := Some 10; rowVersion := 1 |}.
Definition gone_token : ApiTokenRecord := {|
  tokenId := "t"; t_userId := "user-7";
  tokenHash := "devguard.api_token.v1:dgv1_01234567890123456789012345678901234"; t_label := "ci";
  t_createdAt := 0; lastUsedAt := None; t_expiresAt := 9000000; t_revokedAt := Some 10;
  t_rowVersion := 1 |}.
Definition gone_tables : Tables * unit :=
  ({| sessions := {[ sessionIdHash gone_session := gone_session ]}; transactions := ∅;
      tokens := [gone_token] |}, tt).

Lemma revocation_is_final_witness :
  let calls := [touch (sessionIdHash gone_session) 20 9000000 1; revoke_token "t" "user-7" 30] in
  sessions (run_calls sample_other calls gone_tables).1 !! sessionIdHash gone_session =
    Some (touched 20 9000000 gone_session) ∧
  (∀ p w', final (postgres sample_other) (resolvePrincipal (Some "01234567890123456789"))
     (run_calls sample_other calls gone_tables) ≠ (Returned (Some p), w')) ∧
  (∀ p w', final (postgres sample_other)
     (authenticate None "dgv1_01234567890123456789012345678901234")
     (run_calls sample_other calls gone_tables) ≠ (Returned (Some p), w')).
Proof.
  intros calls. split; [reflexivity|].
  apply (revocation_is_final sample_other None calls gone_tables).
  - exists gone_session. split; [reflexivity|discriminate].
  - exists gone_token. split; [reflexivity|discriminate].
Defined.

(** ** From the callback to the principal *)

Section Opened.
Context `{Digest} {X : Type} (other : ∀ c, X → outcome (AuthAns c) * X).

Lemma final_iso {A} ms (k : Z → auth A) w :
  final (postgres other) (pbind (iso ms) k) w =
  if 8640000000000000 <? Z.abs ms then (Threw (PlainError "Invalid time value"), w)
  else final (postgres other) (k ms) w.
Proof. unfold iso. by case_match. Qed.

(** The row a login leaves. *)
Definition opened (policy : SessionPolicyInput) (now : Z) (c : CompleteLoginResult)
    (r : AuthSessionRecord) : Prop :=
  sessionIdHash r = r_sessionIdHash c ∧ s_userId r = r_userId c ∧ createdAt r = now ∧
  lastSeenAt r = now ∧ idleExpiresAt r = now + idleMinutes policy * 60000 ∧
  absoluteExpiresAt r = now + absoluteHours policy * 3600000 ∧ revokedAt r = None.

Lemma open_session_opened policy now transaction identity w c w1 :
  final (postgres other) (open_session policy now transaction identity) w = (Returned c, w1) →
  r_sessionIdHash c = hashToken (sessionToken c) ∧
  ∃ r, sessions w1.1 !! hashToken (sessionToken c) = Some r ∧ opened policy now c r.
Proof.
  unfold open_session. rewrite final_pbind. destruct (final _ (ask (resolve_user _ _ _ _)) w)
    as [[user|] w0]; [|done].
  rewrite final_pbind. destruct (final _ (ask (random_ 32)) w0) as [[token|] [t x]]; [|done].
  rewrite !final_iso. do 3 (case_match; [done|]; rewrite ?final_iso).
  rewrite final_pbind. unfold ask. rewrite final_call. cbn [postgres sessionIdHash].
  destruct (sessions t !! hashToken token) eqn:Hnone; [done|].
  rewrite final_pret. intros [= <- <-]. cbn [r_sessionIdHash sessionToken]. split; [done|].
  eexists. cbn [fst with_sessions sessions]. rewrite lookup_insert_eq. by split_and!.
Qed.

Lemma completeLogin_opened policy redirectUri code state now w c w1 :
  (∀ x, (other now_ x).1 = Returned now) →
  final (postgres other) (completeLogin policy redirectUri code state) w = (Returned c, w1) →
  r_sessionIdHash c = hashToken (sessionToken c) ∧
  ∃ r, sessions w1.1 !! hashToken (sessionToken c) = Some r ∧ opened policy now c r.
Proof.
  intros Hnow. unfold completeLogin. destruct w as [t x]. rewrite final_pbind. unfold ask at 1.
  rewrite final_call. cbn [postgres]. specialize (Hnow x). destruct (other now_ x) as [o x1].
  cbn [fst] in Hnow. subst o.
  destruct state as [state|]; [|done]. destruct code as [code|]; [|done].
  rewrite final_pbind. destruct (final _ (ask (findByStateHash _)) _) as [[[tx|]|] w0]; [|done..].
  destruct (tx_expiresAt tx <? now); [done|]. destruct (consumedAt tx); [done|].
  rewrite final_pbind. destruct (final _ (ptry _ _) w0) as [[u|] w2]; [|done].
  rewrite final_pbind. destruct (final _ (exchange _ _ _) w2) as [[identity|] w3]; [|done].
  apply open_session_opened.
Qed.
End Opened.

(**  A completed login is a session: the token it returns resolves, at any later instant
    within the idle and the absolute lifetime, to the user the login returned, authenticated at
    the instant of the login, whether or not the resolution extends the session. *)
Theorem login_opens_session `{Digest} {X Y} (other : ∀ c, X → outcome (AuthAns c) * X)
    (other' : ∀ c, Y → outcome (AuthAns c) * Y) policy redirectUri code state now w c tables x y t
  (Hnow : ∀ x, (other now_ x).1 = Returned now)
  (Hlogin : final (postgres other) (completeLogin policy redirectUri code state) w
     = (Returned c, (tables, x)))
  (Hlater : (other' now_ y).1 = Returned t)
  (Htoken : 20 ≤ str_length (sessionToken c))
  (Htime : now ≤ t ≤ now + idleMinutes policy * 60000)
  (Habs : t ≤ now + absoluteHours policy * 3600000) :
  ∃ p w2, final (postgres other') (resolvePrincipal (Some (sessionToken c))) (tables, y)
      = (Returned (Some p), w2) ∧
    userId p = r_userId c ∧ p_sessionIdHash p = Some (r_sessionIdHash c) ∧ authMethod p = session ∧
    authenticatedAt p = now.
Proof.
  destruct (completeLogin_opened _ _ _ _ _ _ _ _ _ Hnow Hlogin)
    as (Hhash & r & Hr & (_ & Hu & Hc & _ & Hi & Ha & Hv)). cbn [fst] in Hr.
  assert (live_at t r = true) as Hlive.
  { unfold live_at. rewrite Hv. apply andb_true_iff. split; apply Z.leb_le; lia. }
  unfold resolvePrincipal. rewrite (proj2 (Z.ltb_ge _ _)) by lia.
  rewrite final_pbind. unfold ask at 1. rewrite final_call. cbn [postgres]. rewrite Hr.
  rewrite final_pbind. unfold ask at 1. rewrite final_call. cbn [postgres].
  destruct (other' now_ y) as [o y1]. cbn [fst] in Hlater. subst o. rewrite Hlive. cbn [negb].
  set (p := session_principal (hashToken (sessionToken c)) r).
  assert (userId p = r_userId c ∧ p_sessionIdHash p = Some (r_sessionIdHash c) ∧
    authMethod p = session ∧ authenticatedAt p = now) as Hp by (split_and!; cbn; congruence).
  destruct (touch_due t r); [|rewrite final_pret; by eexists _, _].
  rewrite final_pbind, final_ptry, final_iso.
  destruct (8640000000000000 <? Z.abs t); [by eexists _, _|].
  rewrite final_iso. destruct (8640000000000000 <? Z.abs _); [by eexists _, _|].
  rewrite final_pbind. unfold ask at 1. rewrite final_call. cbn [postgres]. rewrite Hr, Z.eqb_refl.
  rewrite !final_pret. by eexists _, _.
Qed.

Definition sample_later (c : AuthCall) (x : unit) : outcome (AuthAns c) * unit :=
  (match c return outcome (AuthAns c) with
   | now_ => Returned 1200000 | _ => Threw (PlainError "not a port") end, x).

Lemma login_opens_session_witness :
  ∃ c w1 p w2,
    final (postgres sample_other)
      (completeLogin sample_policy "/cb" (Some "c1") (Some "state")) sample_tables
      = (Returned c, w1) ∧
    final (postgres sample_later) (resolvePrincipal (Some (sessionToken c))) w1
      = (Returned (Some p), w2) ∧ userId p = "user-7" ∧ authenticatedAt p = 1000.
Proof.
  assert (∃ c t, final (postgres sample_other)
      (completeLogin sample_policy "/cb" (Some "c1") (Some "state")) sample_tables
      = (Returned c, (t, tt)) ∧ r_userId c = "user-7" ∧ 20 ≤ str_length (sessionToken c))
    as (c & t & Hl & Hu & Hlen).
  { eexists _, _. split; [vm_compute; reflexivity|]. split; [reflexivity|]. vm_compute. discriminate. }
  destruct (login_opens_session sample_other sample_later sample_policy "/cb" (Some "c1")
    (Some "state") 1000 sample_tables c t tt tt 1200000) as (p & w2 & Hr & Hup & _ & _ & Hat);
    [reflexivity|exact Hl|reflexivity|exact Hlen|vm_compute; split; discriminate|
     vm_compute; discriminate|].
  exists c, (t, tt), p, w2. split; [exact Hl|]. split; [exact Hr|].
  split; [rewrite Hup; exact Hu|exact Hat].
Defined.

(** A bearer token never has the hash of a session token. *)
Lemma tokens_do_not_cross `{CollisionFree} a b : hashToken a ≠ hashApiToken b.
Proof. unfold hashToken, hashApiToken. intros Heq%sha256_inj. by injection Heq. Qed.

(** A tab passes the check of the return path; a browser drops it from the location, and the
    redirect after the login leaves the site. *)
Example return_path_leaves_the_site :
  let tab := String (ascii_of_N 9) "" in
  safeReturnTo (Some ("/" +s tab +s "/evil.example")) = "/" +s tab +s "/evil.example" ∧
  safeReturnTo (Some "//evil.example") = "/repositories" ∧
  safeReturnTo (Some "/\evil.example") = "/repositories".
Proof. by vm_compute. Qed.
