(* ===== verification/Transport.v ===== *)
(** * The HTTP transport of the API

    [apps/api/src/transport/]: cookies, bearer tokens and client classes, the bounded reader of
    raw bodies, the fixed order of the middlewares and the gates of a route ([kernel.ts]), the
    CSRF and origin check ([security.ts], put between them by [apps/api/src/app.ts]), the rate
    limiters ([rate-limit.ts]) and the registry of event streams ([sse.ts]); and the
    authentication routes ([routes/auth.routes.ts], [auth-tokens.routes.ts]).  The matching of a
    path to its route and its parameters is the router's. *)

From S2P Require Import Prelude JsString JsDate Json Effects CodeUnits Contracts Authentication.

(** ** Credentials of a request *)

(** [header.split(';')], and each part at its first [=]. *)
Definition cookie_part (part : string) : string * string :=
  match split_char "=" (trim part) with
  | key :: rest => (key, join "=" rest)
  | [] => ("", "")
  end.

(* @src apps/api/src/transport/kernel.ts:103-111 readCookie *)
Definition readCookie (header : option string) (name : string) : option string :=
  match header with
  | None => None
  | Some header => snd <$> List.find (λ p, p.1 =s? name) (map cookie_part (split_char ";" header))
  end.

Definition line_end (c : ascii) : bool := (code_of c =? 10) || (code_of c =? 13).

(** [/^Bearer\s+(.+)$/i] on the trimmed header. *)
(* @src apps/api/src/transport/kernel.ts:119-126 readBearerToken *)
Definition readBearerToken (header : option string) : option string :=
  match header with
  | None => None
  | Some header =>
      let h := trim header in
      if negb (toLowerCase (slice_to 6 h) =s? "bearer") then None else
      match slice_from 6 h with
      | String c rest =>
          if negb (is_space c) then None else
          let token := trim rest in
          if (token =s? "") || any_char line_end token then None else Some token
      | EmptyString => None
      end
  end.

(* @src apps/api/src/transport/kernel.ts:129-138 clientIpClass *)
Definition clientIpClass `{Digest} (headerValue : option string) (trustedProxy : bool) : string :=
  match headerValue with
  | Some value =>
      if negb trustedProxy || (value =s? "") then "direct" else
      let firstHop := trim (match split_char "," value with h :: _ => h | [] => "" end) in
      if (firstHop =s? "") || (45 <? str_length firstHop) then "direct"
      else "proxied:" +s slice_to 16 (sha256 firstHop)
  | None => "direct"
  end.

(** ** Raw bodies *)

(** The chunks of a stream, each a list of bytes: what is kept, or the refusal as soon as the sum
    exceeds the cap, with the chunks not read. *)
Inductive captured := Captured (body : list Z) | PayloadTooLarge (unread : list (list Z)).

(* @src apps/api/src/transport/kernel.ts:154-179 readBoundedRawBody *)
Fixpoint readBoundedRawBody (maxBytes : Z) (chunks : list (list Z)) (kept : list Z) : captured :=
  match chunks with
  | [] => Captured kept
  | value :: chunks =>
      let received := Z.of_nat (length kept) + Z.of_nat (length value) in
      if maxBytes <? received then PayloadTooLarge chunks
      else readBoundedRawBody maxBytes chunks (kept ++ value)
  end.

(** ** Routes *)

(* @src apps/api/src/transport/kernel.ts:60-61 RateLimitClass *)
Inductive RateLimitClass := auth_login | auth_callback | auth_logout | auth_token_issue | default_class.
Definition rate_class_name (c : RateLimitClass) : string :=
  match c with
  | auth_login => "auth_login" | auth_callback => "auth_callback" | auth_logout => "auth_logout"
  | auth_token_issue => "auth_token_issue" | default_class => "default"
  end.

(* @src apps/api/src/transport/kernel.ts:62-62 AuthClass *)
Inductive AuthClass := public | optional_session | required_session.
#[export] Instance AuthClass_eq_dec : EqDecision AuthClass.
Proof. solve_decision. Defined.

(* @src apps/api/src/transport/kernel.ts:64-78 RouteMetadata *)
Record RouteMetadata := {
  rateLimitClass : RateLimitClass;
  authClass : AuthClass;
  capability : option string;
  repositoryIdParam : option string;
}.

(* @src apps/api/src/transport/kernel.ts:83-93 RATE_LIMITS *)
Definition RATE_LIMITS (c : RateLimitClass) : Z * Z :=
  match c with
  | auth_login => (10, 60)
  | auth_callback => (30, 60)
  | auth_logout => (15, 60)
  | auth_token_issue => (5, 60)
  | default_class => (300, 60)
  end.

(* @src apps/api/src/transport/kernel.ts:197-199 pathHasParam *)
Definition pathHasParam (path segment : string) : bool := str_in segment (split_char "/" path).

Definition defined {A} (o : option A) : bool := bool_decide (is_Some o).

(** The metadata registered under a method and a path. *)
Abbreviation Registry := (list (string * RouteMetadata)).
Definition route_key (method path : string) : string := toUpperCase method +s " " +s path.

(** The declared repository parameter is not in the path. *)
(* @src apps/api/src/transport/kernel.ts:328-331 registerV1Route *)
Definition misses_param (path : string) (metadata : RouteMetadata) : bool :=
  match repositoryIdParam metadata with
  | Some param => negb (pathHasParam path (":" +s param))
  | None => false
  end.

(* @src apps/api/src/transport/kernel.ts:308-336 registerV1Route *)
Definition registerV1Route (method path : string) (metadata : RouteMetadata) (registry : Registry)
    : outcome Registry :=
  let key := route_key method path in
  if defined (assoc key registry) then
    Threw (PlainError ("Duplicate route registration: " +s key))
  else if negb (Bool.eqb (defined (capability metadata)) (defined (repositoryIdParam metadata))) then
    Threw (PlainError ("Route " +s key +s
      " must declare capability and repositoryIdParam together (CP005)."))
  else if pathHasParam path ":repositoryId" && negb (defined (capability metadata)) then
    Threw (PlainError ("Route " +s key +s
      " is repository-scoped and must declare capability + repositoryIdParam (CP005)."))
  else if misses_param path metadata then
    Threw (PlainError ("Route " +s key +s " must include repositoryIdParam " +s
      (repositoryIdParam metadata ?? "") +s " in its path (CP005)."))
  else Returned (set_key key metadata registry).

(** ** A request through the middlewares *)

Record Request := {
  method : string;
  path : string;
  cookie : option string;
  authorization : option string;
  content_length : option string;
  x_forwarded_for : option string;
  origin : option string;
  referer : option string;
  x_csrf_token : option string;
  body : list (list Z);
  params : string → option string;
}.

(** What the handler or a refusal answers. *)
Inductive Response :=
  | Refused (status : Z) (code : string)
  | Presented (e : js_error)          (* [presentHttpError(normalizeError(e))] *)
  | Answered (content : string).

(* @src apps/api/src/transport/kernel.ts:54-57 AuthResolution *)
Inductive AuthResolution := authenticated (p : Principal) | anonymous | ambiguous.

Inductive HttpCall :=
  | authenticate_ (sessionToken bearerToken : option string)
  | consume_ (key : string)
  | authorize_ (principal : Principal) (capability repositoryId : string)
  | handler_ (principal : option Principal).
Definition HttpAns (c : HttpCall) : Type :=
  match c with
  | authenticate_ _ _ => AuthResolution
  | consume_ _ => bool * Z
  | authorize_ _ _ _ => unit
  | handler_ _ => Response
  end.
Abbreviation http := (proc HttpAns).

(** ** CSRF and origin *)

(** [new URL(text).origin], [None] when the text is no URL. *)
Class UrlOrigin := url_origin : string → option string.

(* @src apps/api/src/transport/security.ts:12-12 SAFE_METHODS *)
Definition SAFE_METHODS : list string := ["GET"; "HEAD"; "OPTIONS"].

(** The cookie reader of [security.ts], which decodes; [decodeURIComponent] throws a [URIError]. *)
(* @src apps/api/src/transport/security.ts:14-22 readCookie *)
Definition decoded_cookie (header : option string) (name : string) : outcome (option ustring) :=
  match readCookie header name with
  | None => Returned None
  | Some raw =>
      match decodeURIComponent (u raw) with
      | Some text => Returned (Some text)
      | None => Threw (PlainError "URI malformed")
      end
  end.

(** [text.replace(/\/$/, '')] *)
Definition strip_slash (s : string) : string :=
  if endsWith s "/" then slice_to (String.length s - 1) s else s.

(* @src apps/api/src/transport/security.ts:98-106 stripPath *)
Definition stripPath `{UrlOrigin} (referer : option string) : option string := referer ≫= url_origin.

(** Equal texts have equal bytes. *)
Definition equal_units (a b : ustring) : bool := bool_decide (a = b).

(** The origin the browser names, and whether it is another one. *)
Definition named_origin `{UrlOrigin} (r : Request) : option string :=
  match origin r with Some o => Some o | None => stripPath (referer r) end.
(* @src apps/api/src/transport/security.ts:50-55 enforceCsrfAndOrigin *)
Definition cross_origin `{UrlOrigin} (publicOrigin : option string) (r : Request) : bool :=
  match named_origin r, publicOrigin with
  | Some from, Some expected => negb (strip_slash from =s? strip_slash expected)
  | _, _ => false
  end.

(* @src apps/api/src/transport/security.ts:37-96 enforceCsrfAndOrigin *)
Definition enforceCsrfAndOrigin `{UrlOrigin} (publicOrigin : option string) (viaBearer : bool)
    (r : Request) : outcome (option Response) :=
  if str_in (toUpperCase (method r)) SAFE_METHODS then Returned None else
  if startsWith (path r) "/api/v1/webhooks/" then Returned None else
  if viaBearer then Returned None else
  if cross_origin publicOrigin r
  then Returned (Some (Refused 403 "VALIDATION_FAILED")) else
  let? sessionCookie := decoded_cookie (cookie r) "devguard_session" in
  let? cookieToken := decoded_cookie (cookie r) "devguard_csrf" in
  let headerToken := u <$> x_csrf_token r in
  if defined sessionCookie || defined cookieToken || defined headerToken then
    match cookieToken, headerToken with
    | Some a, Some b => if equal_units a b then Returned None
                        else Returned (Some (Refused 403 "VALIDATION_FAILED"))
    | _, _ => Returned (Some (Refused 403 "VALIDATION_FAILED"))
    end
  else Returned None.

(** ** The pipeline *)

(** The UUID of a path, in either case. *)
(* @src apps/api/src/transport/kernel.ts:193-194 CANONICAL_REPOSITORY_ID_PATTERN *)
Definition canonical_repository_id (id : string) : bool :=
  match split_char "-" (toLowerCase id) with
  | [a; b; c; d; e] =>
      forallb (all_chars lower_hex) [a; b; c; d; e] &&
      (str_length a =? 8) && (str_length b =? 4) && (str_length c =? 4) && (str_length d =? 4) &&
      (str_length e =? 12) &&
      match c, d with
      | String c1 _, String d1 _ => char_in "12345678" c1 && char_in "89ab" d1
      | _, _ => false
      end
  | _ => false
  end.

(** A refused response ends the request. *)
Definition fail {A} (r : Response) : http (Response + A) := pret (inl r).
Definition hask (c : HttpCall) : http (HttpAns c) := call (Ans := HttpAns) c.

Section Kernel.
Context {Hdigest : Digest} {Hurl : UrlOrigin}.
Context (trustedProxy : bool) (webhookMaxBodyBytes : option Z) (publicOrigin : option string).

(** The request with the body limit of its path. *)
(* @src apps/api/src/transport/kernel.ts:253-264 app.use *)
Definition body_limits (r : Request) : outcome (option Response) :=
  if startsWith (path r) "/api/v1/webhooks/" then
    match readBoundedRawBody (webhookMaxBodyBytes ?? 1048576) (body r) [] with
    | Captured _ => Returned None
    | PayloadTooLarge _ => Returned (Some (Refused 413 "VALIDATION_FAILED"))
    end
  else match parseInt10 (content_length r ?? "0") with
       | Some n => if 1048576 <? n then Returned (Some (Refused 413 "VALIDATION_FAILED"))
                   else Returned None
       | None => Returned None
       end.

(* @src apps/api/src/transport/kernel.ts:276-305 app.use *)
Definition authenticate_request (r : Request) : http (Response + option Principal) :=
  let sessionToken := readCookie (cookie r) "devguard_session" in
  let bearerToken := readBearerToken (authorization r) in
  if defined sessionToken && defined bearerToken then fail (Refused 400 "AUTH_AMBIGUOUS") else
  resolution <~ hask (authenticate_ sessionToken bearerToken) ;;
  match resolution with
  | ambiguous => fail (Refused 400 "AUTH_AMBIGUOUS")
  | authenticated p => pret (inr (Some p))
  | anonymous => pret (inr None)
  end.

(** The gate of the repository capability, when the route declares one. *)
(* @src apps/api/src/transport/kernel.ts:353-370 registerV1Route *)
Definition authorize_route (authorizer : bool) (m : RouteMetadata) (r : Request)
    (principal : option Principal) : http (Response + unit) :=
  match capability m, repositoryIdParam m with
  | Some cap, Some param =>
      match principal with
      | None => fail (Refused 401 "UNAUTHENTICATED")
      | Some p =>
          if negb authorizer then fail (Refused 502 "AUTHORIZATION_UNCONFIGURED") else
          match params r param with
          | Some id =>
              if canonical_repository_id id then hask (authorize_ p cap id) ;~ pret (inr tt)
              else fail (Refused 400 "VALIDATION_FAILED")
          | None => fail (Refused 400 "VALIDATION_FAILED")
          end
      end
  | _, _ => pret (inr tt)
  end.

(* @src apps/api/src/transport/kernel.ts:337-379 registerV1Route *)
Definition run_route (authorizer : bool) (m : RouteMetadata) (r : Request)
    (principal : option Principal) : http Response :=
  if bool_decide (authClass m = required_session) && negb (defined principal)
  then pret (Refused 401 "UNAUTHENTICATED") else
  verdict <~ hask (consume_ (rate_class_name (rateLimitClass m) +s ":" +s
    clientIpClass (x_forwarded_for r) trustedProxy)) ;;
  if negb verdict.1 then pret (Refused 429 "RATE_LIMITED") else
  ptry (gate <~ authorize_route authorizer m r principal ;;
        match gate with
        | inl refusal => pret refusal
        | inr _ => hask (handler_ principal)
        end)
       (λ e, pret (Presented e)).

Definition is_api_token (p : option Principal) : bool :=
  match p with Some p => bool_decide (authMethod p = api_token) | None => false end.

(** The middlewares in their order, inside the error boundary. *)
(* @src apps/api/src/transport/kernel.ts:239-250 createTransportKernel *)
Definition handle (authorizer : bool) (m : RouteMetadata) (r : Request) : http Response :=
  ptry
    (limited <~ Done (body_limits r) ;;
     match limited with
     | Some refusal => pret refusal
     | None =>
         who <~ authenticate_request r ;;
         match who with
         | inl refusal => pret refusal
         | inr principal =>
             checked <~ Done (enforceCsrfAndOrigin publicOrigin (is_api_token principal) r) ;;
             match checked with
             | Some rejection => pret rejection
             | None => run_route authorizer m r principal
             end
         end
     end)
    (λ e, pret (Presented e)).
End Kernel.

(** ** Rate limiting *)

(** The start of a window is not a number where the class has no limits. *)
Record Bucket := { windowStart : option Z; bucket_count : Z }.

Definition class_of_name (name : string) : RateLimitClass :=
  if name =s? "auth_login" then auth_login else if name =s? "auth_callback" then auth_callback
  else if name =s? "auth_logout" then auth_logout
  else if name =s? "auth_token_issue" then auth_token_issue else default_class.

(** The names an object inherits: looked up in the table, they give a value without limits. *)
Definition inherited : list string :=
  ["constructor"; "toString"; "toLocaleString"; "valueOf"; "hasOwnProperty"; "isPrototypeOf";
   "propertyIsEnumerable"; "__proto__"; "__defineGetter__"; "__defineSetter__"; "__lookupGetter__";
   "__lookupSetter__"].

(* @src apps/api/src/transport/rate-limit.ts:22-23 consume *)
Definition limits_of (key : string) : option (Z * Z) :=
  let name := match split_char ":" key with c :: _ => c | [] => "" end in
  if str_in name inherited then None else Some (RATE_LIMITS (class_of_name name)).

(** The start of the window of an instant. *)
Definition window_at (now windowSeconds : Z) : Z :=
  now / (windowSeconds * 1000) * windowSeconds * 1000.

(** [Math.ceil(n / 1000)] *)
Definition ceil_seconds (n : Z) : Z := - ((- n) / 1000).

(** [a < b] and [a === b], false where a side is not a number. *)
Definition before_window (a b : option Z) : bool :=
  match a, b with Some a, Some b => a <? b | _, _ => false end.
Definition same_window (a b : option Z) : bool :=
  match a, b with Some a, Some b => a =? b | _, _ => false end.

(** The buckets of the [Map], in insertion order; above the bound, stale windows go first, then
    the oldest. *)
(* @src apps/api/src/transport/rate-limit.ts:28-41 consume *)
Definition evict (maxKeys : Z) (start : option Z) (buckets : list (string * Bucket)) : list (string * Bucket) :=
  if maxKeys <? Z.of_nat (length buckets) then
    let fresh := List.filter (λ e, negb (before_window (windowStart e.2) start)) buckets in
    drop (length fresh - Z.to_nat (Z.max 0 maxKeys)) fresh
  else buckets.

(* @src apps/api/src/transport/rate-limit.ts:21-60 consume *)
Definition consume_bucket (maxKeys : Z) (key : string) (now : Z) (buckets : list (string * Bucket))
    : (bool * Z) * list (string * Bucket) :=
  let limits := limits_of key in
  let start := (λ l, window_at now l.2) <$> limits in
  let buckets := evict maxKeys start buckets in
  let before := match assoc key buckets with
                | Some b => if same_window (windowStart b) start then bucket_count b else 0
                | None => 0
                end in
  let n := before + 1 in
  let buckets := set_key key {| windowStart := start; bucket_count := n |} (delete_key key buckets) in
  match limits with
  | Some (limit, windowSeconds) =>
      if limit <? n
      then ((false, Z.max 1 (ceil_seconds (window_at now windowSeconds + windowSeconds * 1000 - now))), buckets)
      else ((true, 0), buckets)
  | None => ((true, 0), buckets)
  end.

(** The shared limiter: one counter per class, window and key; the counters of past windows are
    never read again.  [later] is the second reading of the clock.  No answer where the class has
    no limits: what Redis makes of an expiry that is no number is not said by the source. *)
(* @src apps/api/src/transport/rate-limit.ts:64-90 RedisRateLimiter *)
Definition redis_consume (key : string) (now later : Z) (counters : gmap (string * Z) Z)
    : option ((bool * Z) * gmap (string * Z) Z) :=
  '(limit, windowSeconds) ← limits_of key;
  let window := now / (windowSeconds * 1000) in
  let count := (counters !! (key, window) ?? 0) + 1 in
  let counters := <[(key, window) := count]> counters in
  Some (if limit <? count
        then ((false, Z.max 1 (windowSeconds - later / 1000 mod windowSeconds)), counters)
        else ((true, 0), counters)).

(** ** Event streams *)

(** How many connections a principal holds. *)
(* @src apps/api/src/transport/sse.ts:37-42 tryAcquire *)
Definition tryAcquire (principalKey : string) (maxPerPrincipal : Z) (counts : gmap string Z)
    : bool * gmap string Z :=
  let current := counts !! principalKey ?? 0 in
  if maxPerPrincipal <=? current then (false, counts)
  else (true, <[principalKey := current + 1]> counts).

(* @src apps/api/src/transport/sse.ts:44-48 release *)
Definition release (principalKey : string) (counts : gmap string Z) : gmap string Z :=
  let current := counts !! principalKey ?? 0 in
  if current <=? 1 then delete principalKey counts
  else <[principalKey := current - 1]> counts.

(** ** The authentication routes *)

(** One [Set-Cookie] header. *)
Record Cookie := {
  c_name : string; c_value : string; maxAgeSeconds : Z; httpOnly : bool; secure : bool }.

(** [encodeURIComponent] on Latin-1: the octets of a code unit outside the unreserved ones. *)
Definition upper_hex (n : Z) : ascii :=
  if n <? 10 then ascii_of_N (Z.to_N (48 + n)) else ascii_of_N (Z.to_N (55 + n)).
Definition octet (b : Z) : string :=
  String "%" (String (upper_hex (b / 16)) (String (upper_hex (b mod 16)) "")).
Fixpoint encodeURIComponent (s : string) : string :=
  match s with
  | EmptyString => EmptyString
  | String c s =>
      let n := code_of c in
      (if is_alnum c || char_in "-_.!~*'()" c then String c ""
       else if n <? 128 then octet n else octet (192 + n / 64) +s octet (128 + n mod 64))
      +s encodeURIComponent s
  end.

(** The header text; the routes pass neither a path nor [SameSite]. *)
(* @src apps/api/src/routes/auth.routes.ts:23-43 setCookieValue *)
Definition setCookieValue (c : Cookie) : string :=
  join "; " ([c_name c +s "=" +s encodeURIComponent (c_value c); "Path=/";
              "Max-Age=" +s num_to_string (maxAgeSeconds c); "SameSite=Lax"] ++
             (if httpOnly c then ["HttpOnly"] else []) ++ (if secure c then ["Secure"] else [])).

(* @src apps/api/src/routes/auth.routes.ts:45-47 clearCookie *)
Definition clearCookie (name : string) : Cookie :=
  {| c_name := name; c_value := ""; maxAgeSeconds := 0; httpOnly := true; secure := false |}.

(** A redirect with its cookies, an empty answer with its cookies, or one of JSON. *)
Inductive Reply :=
  | Redirect (location : string) (cookies : list Cookie)
  | NoContent (cookies : list Cookie)
  | Created (t : IssuedApiToken)
  | Tokens (l : list ApiTokenSummary).

Definition VALIDATION_FAILED : js_error := GuardError "VALIDATION_FAILED".

(* @src packages/api-contracts/src/index.ts:106-119 authCallbackQuerySchema *)
Definition authCallbackQuerySchema (code state error error_description : option string) : bool :=
  let bounded lo hi o := match o with Some s => len_between lo hi s | None => true end in
  bounded 1 512 code && bounded 16 256 state && bounded 0 128 error &&
  bounded 0 512 error_description &&
  ((defined code && defined state && negb (defined error)) || defined error).

(* @src packages/api-contracts/src/index.ts:121-131 loginQuerySchema *)
Definition loginQuerySchema (returnTo : option string) : bool :=
  match returnTo with
  | Some s => (str_length s <=? 256) && startsWith s "/" && negb (startsWith s "//")
  | None => true
  end.

Section AuthRoutes.
Context {Hdigest : Digest} {Hdigest64 : Digest64}.
Context (policy : SessionPolicyInput) (redirectUri environment : string) (secureCookies : bool).

(** A thrown or refused step of the synchronous part. *)
Definition lift {A} (o : outcome A) : auth A := Done o.

(* @src apps/api/src/routes/auth.routes.ts:86-107 registerAuthRoutes *)
Definition login_route (returnTo : option string) : auth Reply :=
  if negb (loginQuerySchema returnTo) then throw VALIDATION_FAILED else
  started <~ startLogin redirectUri returnTo ;;
  pret (Redirect (authorizeUrl started)
    [{| c_name := "devguard_state"; c_value := stateToken started; maxAgeSeconds := 600;
        httpOnly := true; secure := secureCookies |}]).

(** [Date.now()] after the login is a second reading of the clock. *)
(* @src apps/api/src/routes/auth.routes.ts:109-168 registerAuthRoutes *)
Definition callback_route (cookieHeader code state error error_description : option string)
    : auth Reply :=
  if negb (authCallbackQuerySchema code state error error_description) then throw VALIDATION_FAILED
  else
  cookieState <~ lift (decoded_cookie cookieHeader "devguard_state") ;;
  match error, code, state, cookieState with
  | None, Some code, Some state, Some expected =>
      if negb (equal_units expected (u state)) then throw VALIDATION_FAILED else
      completed <~ completeLogin policy redirectUri (Some code) (Some state) ;;
      now <~ ask now_ ;;
      let age := expiresAt completed / 1000 - now / 1000 in
      let csrf := deriveCsrfToken (r_sessionIdHash completed)
                    (r_sessionIdHash completed +s environment) in
      pret (Redirect (r_returnToPath completed)
        [{| c_name := "devguard_session"; c_value := sessionToken completed; maxAgeSeconds := age;
            httpOnly := true; secure := secureCookies |};
         {| c_name := "devguard_csrf"; c_value := csrf; maxAgeSeconds := age;
            httpOnly := false; secure := secureCookies |};
         clearCookie "devguard_state"])
  | _, _, _, _ => throw VALIDATION_FAILED
  end.

(** The decoded cookie is a Latin-1 text again when it is a token the service issued. *)
(* @src apps/api/src/routes/auth.routes.ts:170-180 registerAuthRoutes *)
Definition logout_route (presented : option string) : auth Reply :=
  match presented with
  | None => throw UNAUTHENTICATED
  | Some token =>
      revokeIfExists token ;~
      pret (NoContent [clearCookie "devguard_session"; clearCookie "devguard_csrf"])
  end.

(** The routes of API tokens; [label] is the parsed body, [None] when it is refused. *)
(* @src apps/api/src/routes/auth-tokens.routes.ts:36-51 registerApiTokenRoutes *)
Definition issue_route (ttlDays : option Z) (principal : Principal) (label : option string)
    : auth Reply :=
  if negb (bool_decide (authMethod principal = session)) then throw UNAUTHENTICATED else
  match label with
  | None => throw VALIDATION_FAILED
  | Some label => issued <~ issue ttlDays (userId principal) label ;; pret (Created issued)
  end.

(* @src apps/api/src/routes/auth-tokens.routes.ts:53-60 registerApiTokenRoutes *)
Definition list_route (principal : option Principal) : auth Reply :=
  match principal with
  | None => throw UNAUTHENTICATED
  | Some p => l <~ listByOwner (userId p) ;; pret (Tokens l)
  end.

(* @src apps/api/src/routes/auth-tokens.routes.ts:62-73 registerApiTokenRoutes *)
Definition revoke_route (is_uuid : string → bool) (principal : option Principal)
    (id : option string) : auth Reply :=
  match principal, id with
  | None, _ => throw UNAUTHENTICATED
  | Some p, Some id =>
      if is_uuid id then revoke id (userId p) ;~ pret (NoContent []) else throw VALIDATION_FAILED
  | Some _, None => throw VALIDATION_FAILED
  end.
End AuthRoutes.

(** ** What a handler runs behind *)

(** A mutation with a cookie passes the check only with its pair of tokens, and no mutation with
    an origin passes it from another one. *)
Definition csrf_checked `{UrlOrigin} (publicOrigin : option string) (principal : option Principal)
    (r : Request) : Prop :=
  str_in (toUpperCase (method r)) SAFE_METHODS = true ∨
  startsWith (path r) "/api/v1/webhooks/" = true ∨ is_api_token principal = true ∨
  ((∀ from expected, named_origin r = Some from → publicOrigin = Some expected →
      strip_slash from = strip_slash expected) ∧
   ((readCookie (cookie r) "devguard_session" = None ∧ readCookie (cookie r) "devguard_csrf" = None ∧
     x_csrf_token r = None) ∨
    ∃ raw token, readCookie (cookie r) "devguard_csrf" = Some raw ∧ x_csrf_token r = Some token ∧
      decodeURIComponent (u raw) = Some (u token))).

Lemma decoded_none header name : decoded_cookie header name = Returned None → readCookie header name = None.
Proof. unfold decoded_cookie. destruct (readCookie header name); [by case_match|done]. Qed.

Lemma decoded_some header name t :
  decoded_cookie header name = Returned (Some t) →
  ∃ raw, readCookie header name = Some raw ∧ decodeURIComponent (u raw) = Some t.
Proof.
  unfold decoded_cookie. destruct (readCookie header name) as [raw|]; [|done].
  destruct (decodeURIComponent (u raw)) eqn:Hd; [|done]. intros [= <-]. by exists raw.
Qed.

Lemma enforce_checked `{UrlOrigin} publicOrigin principal r :
  enforceCsrfAndOrigin publicOrigin (is_api_token principal) r = Returned None →
  csrf_checked publicOrigin principal r.
Proof.
  unfold enforceCsrfAndOrigin, csrf_checked. destruct (str_in _ SAFE_METHODS); [by left|].
  destruct (startsWith _ _); [by right; left|]. destruct (is_api_token principal);
    [by right; right; left|].
  destruct (cross_origin publicOrigin r) eqn:Ho; [done|]. intros Hrest. right; right; right. split.
  - intros from expected Hf He. unfold cross_origin in Ho. rewrite Hf, He in Ho. by breflect.
  - destruct (decoded_cookie (cookie r) "devguard_session") as [s|] eqn:Hs;
      cbn [obind] in Hrest; [|done].
    destruct (decoded_cookie (cookie r) "devguard_csrf") as [c|] eqn:Hc;
      cbn [obind] in Hrest; [|done].
    destruct (_ || _) eqn:Hany.
    + destruct c as [a|]; [|done]. destruct (x_csrf_token r) as [b|]; [|done]. cbn [fmap option_fmap option_map] in Hrest.
      destruct (equal_units a (u b)) eqn:Heq; [|done]. right. unfold equal_units in Heq. breflect. subst.
      apply decoded_some in Hc as (raw & Hraw & Hd). by exists raw, b.
    + left. unfold defined in Hany. breflect. destruct s, c, (x_csrf_token r); cbn in *;
        try (exfalso; eauto; fail). split_and!; by try apply decoded_none.
Qed.

(** What has been answered before a handler runs. *)
Definition guarded `{Digest} `{UrlOrigin} (trustedProxy : bool) (publicOrigin : option string)
    (m : RouteMetadata) (r : Request) (tr : list (event HttpAns)) (c : HttpCall) : Prop :=
  match c with
  | handler_ principal =>
      (readCookie (cookie r) "devguard_session" = None ∨ readBearerToken (authorization r) = None) ∧
      ev (authenticate_ (readCookie (cookie r) "devguard_session") (readBearerToken (authorization r)))
         (Returned (match principal with Some p => authenticated p | None => anonymous end)) ∈ tr ∧
      (authClass m = required_session → principal ≠ None) ∧
      (∃ after, ev (consume_ (rate_class_name (rateLimitClass m) +s ":" +s
         clientIpClass (x_forwarded_for r) trustedProxy)) (Returned (true, after)) ∈ tr) ∧
      csrf_checked publicOrigin principal r ∧
      (∀ cap param, capability m = Some cap → repositoryIdParam m = Some param →
         ∃ p id, principal = Some p ∧ params r param = Some id ∧ canonical_repository_id id = true ∧
           ev (authorize_ p cap id) (Returned tt) ∈ tr)
  | _ => True
  end.

Lemma run_route_guarded `{Digest} `{UrlOrigin} trustedProxy publicOrigin authorizer m r principal tr :
  (readCookie (cookie r) "devguard_session" = None ∨ readBearerToken (authorization r) = None) →
  ev (authenticate_ (readCookie (cookie r) "devguard_session") (readBearerToken (authorization r)))
     (Returned (match principal with Some p => authenticated p | None => anonymous end)) ∈ tr →
  csrf_checked publicOrigin principal r →
  ensures (guarded trustedProxy publicOrigin m r) (λ _ _, True) tr
    (run_route trustedProxy authorizer m r principal).
Proof.
  intros Hone Hauth Hcsrf. unfold run_route.
  destruct (bool_decide _ && _) eqn:Hreq; [done|]. split; [done|]. intros [[allowed after]|]; [|done].
  cbn [pbind]. destruct allowed; [|done]. cbn [negb fst].
  set (tr1 := tr ++ _).
  assert (∀ tr2, (∀ cap param, capability m = Some cap → repositoryIdParam m = Some param →
     ∃ p id, principal = Some p ∧ params r param = Some id ∧ canonical_repository_id id = true ∧
       ev (authorize_ p cap id) (Returned tt) ∈ tr1 ++ tr2) →
    guarded trustedProxy publicOrigin m r (tr1 ++ tr2) (handler_ principal)) as Hhandler.
  { intros tr2 Hgate. split_and!; [done| | | |done|done].
    - apply elem_of_app. left. apply elem_of_app. by left.
    - intros Hc. rewrite bool_decide_eq_true_2 in Hreq by done. by destruct principal.
    - exists after. apply elem_of_app. left. apply elem_of_app. right. left. }
  apply ensures_ptry. apply ensures_pbind. unfold authorize_route.
  destruct (capability m) as [cap|] eqn:Hcap; [destruct (repositoryIdParam m) as [param|] eqn:Hparam|].
  - destruct principal as [p|]; [|done]. destruct authorizer; [|done]. cbn [negb].
    destruct (params r param) as [id|] eqn:Hid; [|done].
    destruct (canonical_repository_id id) eqn:Hcan; [|done].
    split; [done|]. intros [[]|]; [|done]. split; [|by intros []].
    apply Hhandler. intros cap' param' [= <-] [= <-]. exists p, id. split_and!; try done. set_solver.
  - split; [|by intros []]. rewrite <- (app_nil_r tr1). apply Hhandler. done.
  - split; [|by intros []]. rewrite <- (app_nil_r tr1). apply Hhandler. done.
Qed.

Lemma handle_guarded `{Digest} `{UrlOrigin} trustedProxy cap publicOrigin authorizer m r :
  ensures (guarded trustedProxy publicOrigin m r) (λ _ _, True) []
    (handle trustedProxy cap publicOrigin authorizer m r).
Proof.
  unfold handle. apply ensures_ptry. destruct (body_limits cap r) as [[]|]; [done| |done].
  cbn [pbind]. unfold authenticate_request.
  destruct (defined _ && defined _) eqn:Hboth; [done|].
  assert (readCookie (cookie r) "devguard_session" = None ∨ readBearerToken (authorization r) = None)
    as Hone.
  { destruct (readCookie _ _); [|by left]. destruct (readBearerToken _); [done|by right]. }
  split; [done|]. intros [resolution|]; [|done].
  assert (∀ principal, resolution = match principal with Some p => authenticated p | None => anonymous end →
    ensures (guarded trustedProxy publicOrigin m r)
      (λ tr o, match o with
       | Returned a => True
       | Threw e => ensures (guarded trustedProxy publicOrigin m r) (λ _ _, True) tr (pret (Presented e))
       end)
      [ev (authenticate_ (readCookie (cookie r) "devguard_session")
             (readBearerToken (authorization r))) (Returned resolution)]
      (checked <~ Done (enforceCsrfAndOrigin publicOrigin (is_api_token principal) r);;
       match checked with
       | Some rejection => pret rejection
       | None => run_route trustedProxy authorizer m r principal
       end)) as Hrun.
  { intros principal ->.
    destruct (enforceCsrfAndOrigin _ _ r) as [[]|] eqn:Hcsrf; [done| |done]. cbn [pbind].
    eapply ensures_mono; [done| |apply run_route_guarded; [done|left|by apply enforce_checked]].
    by intros tr []. }
  destruct resolution as [p| |]; [apply (Hrun (Some p))|apply (Hrun None)|]; done.
Qed.

(* @prop safety 2.95 : handle run_route authorize_route authenticate_request enforceCsrfAndOrigin readBearerToken canonical_repository_id *)
(** C11.  A controller runs only behind every gate, whatever the session store, the rate limiter and
    the authorizer answer: the request did not carry both a session cookie and a bearer token; the
    principal is the one authenticated from what it carried, and nobody where it carried neither
    or nothing valid; a route that requires a session has a principal; the rate limiter allowed
    the class and client; a mutation that is neither authenticated by an API token nor addressed
    to a webhook path named no origin but the configured one and, where it came with a session
    cookie, a CSRF cookie or a CSRF header, brought the equal pair of CSRF tokens; and a route
    with a capability was authorized for it on the well-formed repository id of the path. *)
Theorem controller_runs_guarded `{Digest} `{UrlOrigin} trustedProxy cap publicOrigin authorizer m r :
  ensures (guarded trustedProxy publicOrigin m r) (λ _ _, True) []
    (handle trustedProxy cap publicOrigin authorizer m r).
Proof. apply handle_guarded. Qed.

(** ** Registration *)

Definition register_all (routes : list (string * string * RouteMetadata)) (registry : Registry)
    : Registry :=
  fold_left (λ reg '(me, pa, md), match registerV1Route me pa md reg with
                                  | Returned reg => reg | Threw _ => reg end) routes registry.

(** A path that names a repository has its capability and its parameter. *)
Definition scoped (key : string) (m : RouteMetadata) : Prop :=
  ∃ method path, key = route_key method path ∧
    (pathHasParam path ":repositoryId" = true → is_Some (capability m)) ∧
    (is_Some (capability m) ↔ is_Some (repositoryIdParam m)) ∧
    (∀ param, repositoryIdParam m = Some param → pathHasParam path (":" +s param) = true).

Lemma register_scoped me pa md reg reg' :
  (∀ k m, assoc k reg = Some m → scoped k m) →
  registerV1Route me pa md reg = Returned reg' →
  assoc (route_key me pa) reg = None ∧ assoc (route_key me pa) reg' = Some md ∧
  (∀ k m, assoc k reg = Some m → assoc k reg' = Some m) ∧ ∀ k m, assoc k reg' = Some m → scoped k m.
Proof.
  intros Hreg. unfold registerV1Route. destruct (defined (assoc _ reg)) eqn:Hnew; [done|].
  destruct (negb (Bool.eqb _ _)) eqn:Hboth; [done|].
  destruct (pathHasParam pa ":repositoryId" && _) eqn:Hrepo; [done|].
  destruct (misses_param pa md) eqn:Hparam; [done|]. intros [= <-].
  assert (assoc (route_key me pa) reg = None) as Hnone.
  { unfold defined in Hnew. breflect. by apply eq_None_not_Some. }
  apply negb_false_iff, Bool.eqb_prop in Hboth. unfold defined in *.
  split; [done|]. split; [by rewrite assoc_set, String.eqb_refl|]. split.
  - intros k m Hk. rewrite assoc_set. destruct (k =s? route_key me pa) eqn:He; [|done].
    breflect. congruence.
  - intros k m. rewrite assoc_set. destruct (k =s? _) eqn:He; [|apply Hreg]. breflect.
    intros [= <-]. exists me, pa. split; [done|]. split_and!.
    + intros Hp. rewrite Hp in Hrepo. breflect. cbn in Hrepo. by breflect.
    + rewrite <- (bool_decide_eq_true (is_Some (capability md))), Hboth.
      apply bool_decide_eq_true.
    + intros param Hp. unfold misses_param in Hparam. rewrite Hp in Hparam. by breflect.
Qed.

(**  The route table stays safe: after any sequence of registrations, the refused ones left out,
    a path is registered once and keeps its metadata, every route whose path names a repository
    declares a capability, and a capability comes with a repository parameter that the path has. *)
Theorem registered_routes_are_scoped routes more k m :
  assoc k (register_all routes []) = Some m →
  scoped k m ∧ assoc k (register_all (routes ++ more) []) = Some m.
Proof.
  assert (∀ l reg, (∀ k m, assoc k reg = Some m → scoped k m) →
    (∀ k m, assoc k reg = Some m → assoc k (register_all l reg) = Some m) ∧
    ∀ k m, assoc k (register_all l reg) = Some m → scoped k m) as Hall.
  { induction l as [|[[me pa] md] l IH]; intros reg Hreg; [done|]. cbn [register_all fold_left].
    destruct (registerV1Route me pa md reg) as [reg'|] eqn:Hr; [|by apply IH].
    destruct (register_scoped _ _ _ _ _ Hreg Hr) as (_ & _ & Hkeep & Hreg').
    destruct (IH reg' Hreg') as [H1 H2]. split; [|done]. intros k' m' Hk. by apply H1, Hkeep. }
  destruct (Hall routes [] ltac:(done)) as [_ Hs]. intros Hk. split; [by apply Hs|].
  unfold register_all. rewrite fold_left_app. by apply Hall.
Qed.

Definition repository_route : RouteMetadata := {|
  rateLimitClass := default_class; authClass := required_session;
  capability := Some "repository:read"; repositoryIdParam := Some "repositoryId" |}.
Definition open_route : RouteMetadata := {|
  rateLimitClass := default_class; authClass := public; capability := None; repositoryIdParam := None |}.

(** The second registration forgets the capability and is refused; so is the duplicate. *)
Lemma registered_routes_are_scoped_witness :
  let path := "/api/v1/repositories/:repositoryId/runs" in
  let routes := [("get", path, repository_route); ("post", path, open_route)] in
  assoc ("POST " +s path) (register_all routes []) = None ∧
  scoped ("GET " +s path) repository_route ∧
  assoc ("GET " +s path) (register_all (routes ++ [("get", path, open_route)]) []) =
    Some repository_route.
Proof.
  intros path routes. split; [vm_compute; reflexivity|].
  apply (registered_routes_are_scoped routes [("get", path, open_route)]). vm_compute. reflexivity.
Defined.

(** ** The limits *)

(** A call of the limiter: its key and the time. *)
Abbreviation Calls := (list (string * Z)).

(** The buckets after a sequence of calls, oldest first. *)
Definition after_calls (maxKeys : Z) (calls : Calls) : list (string * Bucket) :=
  fold_left (λ buckets c, (consume_bucket maxKeys c.1 c.2 buckets).2) calls [].

Definition in_window (start : Z) (calls : Calls) : Calls :=
  List.filter (λ c, window_at c.2 60 =? start) calls.
(** How often a key was used in a window, and how many keys were. *)
Definition calls_of (key : string) (start : Z) (calls : Calls) : Z :=
  Z.of_nat (length (List.filter (λ c, c.1 =s? key) (in_window start calls))).
Definition keys_of (start : Z) (calls : Calls) : list string := remove_dups (in_window start calls).*1.

Definition in_order (calls : Calls) : Prop := StronglySorted Z.le calls.*2.

Lemma limits_window key limit w : limits_of key = Some (limit, w) → w = 60 ∧ 0 < limit.
Proof. unfold limits_of. destruct (str_in _ _); [done|]. intros [= Hl]. by destruct (class_of_name _); simplify_eq/=. Qed.

Lemma window_mono now later : now ≤ later → window_at now 60 ≤ window_at later 60.
Proof. intros H. unfold window_at. change (60 * 1000) with 60000. pose proof (Z.div_le_mono now later 60000 ltac:(lia) H). lia. Qed.

Lemma in_window_app start a b : in_window start (a ++ b) = in_window start a ++ in_window start b.
Proof. apply List.filter_app. Qed.

Lemma calls_of_snoc key start calls k now :
  calls_of key start (calls ++ [(k, now)]) =
    calls_of key start calls + (if (k =s? key) && (window_at now 60 =? start) then 1 else 0).
Proof.
  unfold calls_of. rewrite in_window_app, List.filter_app, length_app. unfold in_window at 2. cbn [List.filter fst snd].
  destruct (window_at now 60 =? start); cbn [List.filter fst]; [|rewrite andb_false_r; cbn; lia].
  rewrite andb_true_r. destruct (k =s? key); cbn; lia.
Qed.

Lemma calls_of_key key start calls : 1 ≤ calls_of key start calls → key ∈ keys_of start calls.
Proof.
  unfold calls_of, keys_of. intros H. apply elem_of_remove_dups.
  destruct (List.filter (λ c, c.1 =s? key) (in_window start calls)) as [|[k t] l] eqn:Hl; [cbn in H; lia|].
  assert (Hin : (k, t) ∈ List.filter (λ c, c.1 =s? key) (in_window start calls)) by (rewrite Hl; left).
  apply bfilter_elem in Hin as [Hin He]. cbn [fst] in He. breflect. subst.
  by apply (list_elem_of_fmap_2 fst _ (key, t)).
Qed.

(** What a limiter keeps of a key for a window. *)
Definition used (start : Z) (key : string) (buckets : list (string * Bucket)) : Z :=
  match assoc key buckets with
  | Some b => if same_window (windowStart b) (Some start) then bucket_count b else 0
  | None => 0
  end.

(** A limiter agrees with the calls that were made: its keys are distinct, every bucket is of a
    window in which its key was used, and for the newest window and those to come the counts are
    right. *)
Record counted (calls : Calls) (buckets : list (string * Bucket)) : Prop := {
  co_keys : NoDup buckets.*1;
  co_bucket k b : (k, b) ∈ buckets → ∃ start, windowStart b = Some start ∧ 1 ≤ calls_of k start calls;
  co_used start key : Forall (λ c, window_at c.2 60 ≤ start) calls → used start key buckets = calls_of key start calls
}.

(** The buckets that are not stale are those of the newest window, one for each of its keys. *)
Lemma fresh_few calls buckets start :
  counted calls buckets → Forall (λ c, window_at c.2 60 ≤ start) calls →
  (length (List.filter (λ e, negb (before_window (windowStart e.2) (Some start))) buckets) ≤
   length (keys_of start calls))%nat.
Proof.
  intros [Hk Hb _] Hall. rewrite <- (length_fmap fst). apply submseteq_length, NoDup_submseteq.
  - revert Hk. clear. induction buckets as [|[k b] l IH]; [done|].
    cbn [List.filter fmap list_fmap fst]. intros [Hk Hl]%NoDup_cons.
    destruct (negb _); cbn [fmap list_fmap fst]; [|by apply IH]. apply NoDup_cons. split; [|by apply IH].
    intros ([k' b'] & -> & Hin)%list_elem_of_fmap. apply bfilter_elem in Hin as [Hin _].
    apply Hk. by apply (list_elem_of_fmap_2 fst _ (k', b')).
  - intros k ([k' b] & -> & Hin)%list_elem_of_fmap. apply bfilter_elem in Hin as [Hin Hf]. cbn [fst snd] in *.
    destruct (Hb _ _ Hin) as (w & Hw & Hc). rewrite Hw in Hf. cbn [before_window] in Hf. breflect.
    assert (w ≤ start).
    { assert (Hu : k' ∈ keys_of w calls) by by apply calls_of_key.
      unfold keys_of in Hu. apply elem_of_remove_dups, list_elem_of_fmap in Hu as ([k2 t] & _ & Hu).
      apply bfilter_elem in Hu as [Hu Hwt]. rewrite Forall_forall in Hall. specialize (Hall _ Hu).
      cbn [snd] in *. breflect. lia. }
    replace start with w by lia. by apply calls_of_key.
Qed.

(** Eviction drops stale buckets only, while the keys of the newest window fit. *)
Lemma evict_stale maxKeys calls buckets start :
  counted calls buckets → Forall (λ c, window_at c.2 60 ≤ start) calls →
  Z.of_nat (length (keys_of start calls)) ≤ maxKeys →
  evict maxKeys (Some start) buckets = buckets ∨
  evict maxKeys (Some start) buckets =
    List.filter (λ e, negb (before_window (windowStart e.2) (Some start))) buckets.
Proof.
  intros Hc Hall Hmax. unfold evict. destruct (maxKeys <? _); [right|by left].
  pose proof (fresh_few _ _ _ Hc Hall). by replace (_ - _)%nat with 0%nat by lia.
Qed.

Lemma evict_counted maxKeys calls buckets start :
  counted calls buckets → Forall (λ c, window_at c.2 60 ≤ start) calls →
  Z.of_nat (length (keys_of start calls)) ≤ maxKeys →
  let kept := evict maxKeys (Some start) buckets in
  NoDup kept.*1 ∧ kept ⊆ buckets ∧
  ∀ later key, start ≤ later → used later key kept = used later key buckets.
Proof.
  intros Hc Hall Hmax. cbn zeta. pose proof (co_keys _ _ Hc) as Hk.
  destruct (evict_stale maxKeys calls buckets start Hc Hall Hmax) as [Hkept|Hkept]; rewrite Hkept; [done|].
  set (kept := List.filter _ buckets).
  assert (Hsub : kept ⊆ buckets) by (intros e He; by apply bfilter_elem in He as [? _]).
  assert (Hnd : NoDup kept.*1).
  { eapply (sublist_NoDup _ _ Hk), fmap_sublist. subst kept. clear. induction buckets as [|e l IH]; [done|].
    cbn [List.filter]. destruct (negb _); by constructor. }
  split_and!; [done|done|]. intros later key Hl. unfold used.
  destruct (assoc key kept) as [b|] eqn:Ha.
  - by rewrite (assoc_in key b buckets Hk) by (apply Hsub; by apply assoc_elem).
  - destruct (assoc key buckets) as [b|] eqn:Hb; [|done]. apply assoc_elem in Hb.
    destruct (windowStart b) as [w|] eqn:Hw; [|done]. cbn [same_window].
    destruct (w =? later) eqn:He; [|done]. breflect. subst w. exfalso.
    apply assoc_none in Ha. apply Ha. apply (list_elem_of_fmap_2 fst _ (key, b)). apply bfilter_elem.
    split; [done|]. cbn [snd]. rewrite Hw. cbn [before_window]. apply negb_true_iff. lia.
Qed.

(** One more call, not before the others. *)
Lemma consume_counted maxKeys calls buckets key now limit :
  counted calls buckets → Forall (λ c, window_at c.2 60 ≤ window_at now 60) calls →
  Z.of_nat (length (keys_of (window_at now 60) calls)) ≤ maxKeys → limits_of key = Some (limit, 60) →
  let r := consume_bucket maxKeys key now buckets in
  counted (calls ++ [(key, now)]) r.2 ∧
  r.1 = (if calls_of key (window_at now 60) calls <? limit then (true, 0)
         else (false, Z.max 1 (ceil_seconds (window_at now 60 + 60 * 1000 - now)))).
Proof.
  intros Hc Hall Hmax Hlim r. unfold r, consume_bucket. rewrite Hlim. cbn [fmap option_fmap option_map snd].
  set (start := window_at now 60) in *.
  destruct (evict_counted maxKeys calls buckets start Hc Hall Hmax) as (Hnd & Hsub & Hused).
  set (kept := evict maxKeys (Some start) buckets) in *. fold (used start key kept).
  rewrite Hused, (co_used _ _ Hc) by (done || lia). set (n := calls_of key start calls).
  set (next := set_key key {| windowStart := Some start; bucket_count := n + 1 |} (delete_key key kept)).
  assert (Hnext : counted (calls ++ [(key, now)]) next).
  { constructor.
    - by apply set_key_NoDup, delete_key_NoDup.
    - intros k b [[= -> ->]|Hin]%set_key_in.
      + exists start. split; [done|]. rewrite calls_of_snoc, String.eqb_refl. fold start. rewrite Z.eqb_refl.
        cbn [andb]. unfold calls_of. lia.
      + apply bfilter_elem in Hin as [Hin _]. destruct (co_bucket _ _ Hc k b (Hsub _ Hin)) as (w & Hw & Hn).
        exists w. split; [done|]. rewrite calls_of_snoc. case_match; lia.
    - intros later k [Hl Hlast]%Forall_app. rewrite Forall_singleton in Hlast. cbn [snd] in Hlast. fold start in Hlast.
      rewrite calls_of_snoc. fold start. unfold used. subst next. rewrite assoc_set.
      destruct (k =s? key) eqn:He; breflect.
      + subst k. rewrite String.eqb_refl. cbn [windowStart bucket_count same_window andb].
        destruct (start =? later) eqn:Hs; breflect; [subst later; subst n; lia|].
        assert (calls_of key later calls = 0) as Hz; [|lia].
        unfold calls_of. replace (in_window later calls) with ([] : Calls); [done|].
        symmetry. apply elem_of_nil_inv. intros c [Hin Hw]%bfilter_elem.
        rewrite Forall_forall in Hall. specialize (Hall _ Hin). cbn beta in Hall. cbn beta in Hw. breflect. lia.
      + rewrite assoc_delete by congruence. fold (used later k kept). rewrite Hused, (co_used _ _ Hc) by done.
        destruct (key =s? k) eqn:He'; breflect; [congruence|]. cbn [andb]. lia. }
  destruct (limit <? n + 1) eqn:E1, (n <? limit) eqn:E2; breflect; try lia; done.
Qed.

Lemma counted_after maxKeys calls :
  in_order calls → Forall (λ c, is_Some (limits_of c.1)) calls →
  (∀ start, Z.of_nat (length (keys_of start calls)) ≤ maxKeys) → counted calls (after_calls maxKeys calls).
Proof.
  induction calls as [|[key now] calls IH] using rev_ind; intros Ho Hl Hm.
  { constructor; [constructor|set_solver|done]. }
  unfold in_order in Ho. rewrite fmap_app in Ho. apply StronglySorted_app in Ho as (Hlast & Ho & _).
  apply Forall_app in Hl as [Hl Hk]. rewrite Forall_singleton in Hk. destruct Hk as [[limit w] Hk]. cbn [fst] in Hk.
  destruct (limits_window _ _ _ Hk) as [-> _].
  assert (Hm' : ∀ start, Z.of_nat (length (keys_of start calls)) ≤ maxKeys).
  { intros start. specialize (Hm start). pose proof (submseteq_length (keys_of start calls)
      (keys_of start (calls ++ [(key, now)]))) as Hle. specialize (Hle ltac:(
      apply NoDup_submseteq; [apply NoDup_remove_dups|]; unfold keys_of; rewrite in_window_app, fmap_app;
      intros x; rewrite !elem_of_remove_dups; set_solver)). lia. }
  unfold after_calls. rewrite fold_left_app. cbn [fold_left fst snd]. fold (after_calls maxKeys calls).
  eapply consume_counted; [by apply IH| |done|done].
  apply Forall_forall. intros c Hc. apply window_mono. apply Hlast; [|cbn; left].
  by apply list_elem_of_fmap_2.
Qed.

(* @prop bounds 2.97 : consume_bucket evict limits_of RATE_LIMITS / rate_limit_is_exact_witness *)
(** C12.  The in-process limiter is exact, over its whole life: after any sequence of calls in the order
    of time, through any number of windows, and however many keys were ever seen, as long as no
    window has more keys than the limiter keeps, the next call of a key is allowed exactly if the
    calls of this key in its window of sixty seconds are fewer than the limit of its class; a call
    that is refused is told to wait between one second and sixty, and is in the next window once
    it has.  (Every key begins with the name of a class or any name but those that an object
    inherits.) *)
Theorem rate_limit_is_exact maxKeys calls key now limit w
  (Horder : in_order (calls ++ [(key, now)])) (Hnames : Forall (λ c, is_Some (limits_of c.1)) calls)
  (Hroom : ∀ start, Z.of_nat (length (keys_of start calls)) ≤ maxKeys)
  (Hlimit : limits_of key = Some (limit, w)) :
  match (consume_bucket maxKeys key now (after_calls maxKeys calls)).1 with
  | (true, wait) => calls_of key (window_at now 60) calls < limit ∧ wait = 0
  | (false, wait) => limit ≤ calls_of key (window_at now 60) calls ∧ 1 ≤ wait ≤ 60 ∧
                     window_at now 60 < window_at (now + wait * 1000) 60
  end.
Proof.
  destruct (limits_window _ _ _ Hlimit) as [-> _]. unfold in_order in Horder.
  rewrite fmap_app in Horder. apply StronglySorted_app in Horder as (Hlast & Ho & _).
  destruct (consume_counted maxKeys calls (after_calls maxKeys calls) key now limit) as [_ ->];
    [by apply counted_after| |done|done|].
  { apply Forall_forall. intros c Hc. apply window_mono. apply Hlast; [|cbn; left]. by apply list_elem_of_fmap_2. }
  destruct (_ <? limit) eqn:Hlt; breflect; [done|]. split; [done|].
  set (s := window_at now 60).
  assert (s ≤ now < s + 60000) as Hs.
  { subst s. unfold window_at. change (60 * 1000) with 60000. pose proof (Z.mod_pos_bound now 60000 ltac:(lia)).
    pose proof (Z.div_mod now 60000 ltac:(lia)). lia. }
  set (wait := Z.max 1 (ceil_seconds (s + 60 * 1000 - now))).
  assert (1 ≤ wait ≤ 60 ∧ s + 60000 ≤ now + wait * 1000) as [Hw Hend].
  { subst wait. unfold ceil_seconds. pose proof (Z.mod_pos_bound (- (s + 60 * 1000 - now)) 1000 ltac:(lia)).
    pose proof (Z.div_mod (- (s + 60 * 1000 - now)) 1000 ltac:(lia)). lia. }
  split; [done|]. apply window_mono in Hend. enough (window_at (s + 60000) 60 = s + 60000) by lia.
  subst s. unfold window_at. change (60 * 1000) with 60000.
  replace (now / 60000 * 60 * 1000 + 60000) with ((now / 60000 + 1) * 60000) by lia. rewrite Z.div_mul by lia. lia.
Qed.

(** Six calls in one window and, with other keys, one in the next. *)
Definition calls_over_two_windows : Calls :=
  [("auth_token_issue:direct", 0); ("default:direct", 1); ("auth_token_issue:direct", 2);
   ("auth_token_issue:direct", 3); ("auth_token_issue:direct", 4); ("auth_token_issue:direct", 5);
   ("auth_token_issue:direct", 6); ("default:a", 60000); ("default:b", 60001)].

Lemma rate_limit_is_exact_witness :
  (∃ wait, (consume_bucket 2 "auth_token_issue:direct" 7
    (after_calls 2 (take 7 calls_over_two_windows))).1 = (false, wait) ∧ wait = 60) ∧
  calls_of "auth_token_issue:direct" 60000 calls_over_two_windows < 5 ∧
  (after_calls 2 calls_over_two_windows).*1 = ["default:a"; "default:b"].
Proof.
  assert (Hroom : ∀ n start, Z.of_nat (length (keys_of start (take n calls_over_two_windows))) ≤ 2).
  { intros n start. destruct (decide (start = 0)) as [->|H0]; [|destruct (decide (start = 60000)) as [->|H6]];
      try (do 9 (destruct n as [|n]; [vm_compute; done|]); rewrite take_ge by (cbn; lia); vm_compute; done).
    assert (in_window start (take n calls_over_two_windows) = []) as Hnone; [|unfold keys_of; by rewrite Hnone].
    apply elem_of_nil_inv. intros c [Hin Hw]%bfilter_elem. cbn beta in Hw. breflect.
    apply (λ H, elem_of_sublist _ _ _ H (sublist_take _ _)) in Hin.
    assert (Hall : Forall (λ c, window_at c.2 60 = 0 ∨ window_at c.2 60 = 60000) calls_over_two_windows)
      by (apply (bool_decide_unpack _); vm_compute; reflexivity).
    rewrite Forall_forall in Hall. destruct (Hall _ Hin); congruence. }
  split_and!; [| |reflexivity].
  - pose proof (rate_limit_is_exact 2 (take 7 calls_over_two_windows) "auth_token_issue:direct" 7 5 60) as H.
    specialize (H ltac:(apply (bool_decide_unpack _); vm_compute; reflexivity)
      ltac:(apply (bool_decide_unpack _); vm_compute; reflexivity) (Hroom 7%nat) eq_refl).
    destruct (consume_bucket _ _ _ _) as [[[] wait] ?] eqn:E; vm_compute in E; [done|].
    exists wait. split; [done|]. by simplify_eq.
  - pose proof (rate_limit_is_exact 2 (take 9 calls_over_two_windows) "auth_token_issue:direct" 60002 5 60) as H.
    specialize (H ltac:(apply (bool_decide_unpack _); vm_compute; reflexivity)
      ltac:(apply (bool_decide_unpack _); vm_compute; reflexivity) (Hroom 9%nat) eq_refl).
    destruct (consume_bucket _ _ _ _) as [[[] wait] ?] eqn:E; vm_compute in E; [|done].
    destruct H as [H _]. exact H.
Defined.

(** The verdicts of a sequence of calls. *)
Fixpoint verdicts (maxKeys : Z) (calls : Calls) (buckets : list (string * Bucket)) : list bool :=
  match calls with
  | [] => []
  | (k, now) :: calls =>
      let '((allowed, _), buckets) := consume_bucket maxKeys k now buckets in
      allowed :: verdicts maxKeys calls buckets
  end.

(** With more keys in a window than it keeps, other keys push a bucket out and its count starts
    again; a window is a calendar minute, so ten calls in two milliseconds pass at its edge; and a
    name that an object inherits has no limit at all. *)
Example eviction_forgets :
  verdicts 1 ([("auth_token_issue:a", 0)] ++ replicate 5 ("auth_token_issue:a", 1) ++
     [("default:b", 2); ("default:c", 3); ("auth_token_issue:a", 4)]) [] =
  [true; true; true; true; true; false; true; true; true].
Proof. reflexivity. Qed.
Example window_edge :
  verdicts 100 (replicate 5 ("auth_token_issue:a", 59999) ++ replicate 5 ("auth_token_issue:a", 60000)) [] =
  replicate 10 true.
Proof. reflexivity. Qed.
Example inherited_names_have_no_limit :
  forallb id (verdicts 100 (replicate 400 ("constructor:a", 0)) []) = true.
Proof. vm_compute. reflexivity. Qed.

(** ** Bodies and streams *)

Lemma bounded_body maxBytes chunks kept :
  Z.of_nat (length kept) ≤ maxBytes →
  match readBoundedRawBody maxBytes chunks kept with
  | Captured b => b = kept ++ concat chunks ∧ Z.of_nat (length b) ≤ maxBytes
  | PayloadTooLarge rest =>
      ∃ read value, chunks = read ++ value :: rest ∧
        Z.of_nat (length (kept ++ concat read)) ≤ maxBytes ∧
        maxBytes < Z.of_nat (length (kept ++ concat (read ++ [value])))
  end.
Proof.
  revert kept. induction chunks as [|value chunks IH]; intros kept Hk; cbn [readBoundedRawBody].
  - by rewrite app_nil_r.
  - destruct (maxBytes <? _) eqn:Hl; breflect.
    + exists [], value. cbn [app concat]. rewrite !app_nil_r, length_app. split_and!; [done|done|lia].
    + specialize (IH (kept ++ value)). rewrite length_app in IH. specialize (IH ltac:(lia)).
      destruct (readBoundedRawBody _ _ _) as [b|rest].
      * by rewrite <- app_assoc in IH.
      * destruct IH as (read & v & -> & H1 & H2). exists (value :: read), v.
        cbn [app concat]. rewrite <- app_assoc in H1, H2. done.
Qed.

(**  The raw body of a webhook is all or nothing: within the cap the reader returns exactly the
    bytes of the stream; otherwise it stops at the chunk that crosses the cap, reads none after
    it, and never holds more than the cap. *)
Theorem raw_body_is_bounded maxBytes chunks :
  0 ≤ maxBytes →
  match readBoundedRawBody maxBytes chunks [] with
  | Captured b => b = concat chunks ∧ Z.of_nat (length b) ≤ maxBytes
  | PayloadTooLarge rest =>
      ∃ read value, chunks = read ++ value :: rest ∧
        Z.of_nat (length (concat read)) ≤ maxBytes ∧
        maxBytes < Z.of_nat (length (concat (read ++ [value])))
  end.
Proof. intros H. apply (bounded_body maxBytes chunks []). cbn [length]. lia. Qed.

Lemma raw_body_is_bounded_witness :
  readBoundedRawBody 4 [[1; 2]; [3; 4; 5]; [6]] [] = PayloadTooLarge [[6]] ∧
  readBoundedRawBody 4 [[1; 2]; []; [3; 4]] [] = Captured [1; 2; 3; 4] ∧
  ∃ read value, [[1; 2]; [3; 4; 5]; [6]] = read ++ value :: [[6]] ∧
    Z.of_nat (length (concat read)) ≤ 4 ∧ 4 < Z.of_nat (length (concat (read ++ [value]))).
Proof.
  split; [reflexivity|]. split; [reflexivity|].
  exact (raw_body_is_bounded 4 [[1; 2]; [3; 4; 5]; [6]] ltac:(lia)).
Defined.

(** The connections of a principal. *)
Definition connected (key : string) (counts : gmap string Z) : Z := counts !! key ?? 0.

Lemma acquire_connected key max counts k :
  0 < max → (∀ k, 0 ≤ connected k counts ≤ max) →
  let r := tryAcquire key max counts in
  0 ≤ connected k r.2 ≤ max ∧
  connected k r.2 = connected k counts + (if r.1 && (k =s? key) then 1 else 0).
Proof.
  intros Hm Hall r. unfold r, tryAcquire. pose proof (Hall k) as Hk. pose proof (Hall key) as Hkey.
  unfold connected in *. destruct (max <=? _) eqn:Hf; breflect; cbn [fst snd andb]; [lia|].
  destruct (k =s? key) eqn:He; breflect.
  - subst. rewrite lookup_insert_eq. cbn. lia.
  - rewrite lookup_insert_ne by congruence. lia.
Qed.

Lemma release_connected key counts k :
  0 ≤ connected key counts →
  connected k (release key counts) =
    if k =s? key then Z.max 0 (connected k counts - 1) else connected k counts.
Proof.
  unfold release, connected. intros Hk. destruct (_ <=? 1) eqn:Hl; breflect.
  - destruct (k =s? key) eqn:He; breflect.
    + subst. rewrite lookup_delete_eq. cbn. lia.
    + by rewrite lookup_delete_ne by congruence.
  - destruct (k =s? key) eqn:He; breflect.
    + subst. rewrite lookup_insert_eq. cbn. lia.
    + by rewrite lookup_insert_ne by congruence.
Qed.

(** ** The callback *)

Lemma ensures_any {A} (P : list (event AuthAns) → AuthCall → Prop) Q tr (p : auth A) :
  (∀ tr c, P tr c) → (∀ tr o, Q tr o) → ensures P Q tr p.
Proof.
  intros HP HQ. revert tr. induction p as [o|c k IH]; intros tr; [apply HQ|].
  split; [apply HP|]. intros o. apply IH.
Qed.

(** The browser that started the login presents the state in its cookie. *)
Definition state_bound (cookieHeader state error : option string) : Prop :=
  error = None ∧ ∃ raw s, state = Some s ∧ readCookie cookieHeader "devguard_state" = Some raw ∧
    decodeURIComponent (u raw) = Some (u s).

Definition session_cookies (secureCookies : bool) (o : outcome Reply) : Prop :=
  match o with
  | Returned (Redirect _ cookies) =>
      ∃ token csrf age, cookies =
        [{| c_name := "devguard_session"; c_value := token; maxAgeSeconds := age; httpOnly := true;
            secure := secureCookies |};
         {| c_name := "devguard_csrf"; c_value := csrf; maxAgeSeconds := age; httpOnly := false;
            secure := secureCookies |};
         clearCookie "devguard_state"]
  | Returned _ => False
  | Threw _ => True
  end.

(**  A login callback is bound to the browser: whatever the stores and the provider answer, no
    call of any of them is made unless the state of the query is the state of the decoded cookie
    and the provider reported no error; a reply sets the session cookie out of reach of scripts,
    the CSRF cookie for as long, both Secure on an HTTPS origin, and drops the state cookie. *)
Theorem callback_is_bound `{Digest} `{Digest64} policy redirectUri environment secureCookies
    cookieHeader code state error error_description :
  ensures (λ _ _, state_bound cookieHeader state error)
    (λ _ o, session_cookies secureCookies o) []
    (callback_route policy redirectUri environment secureCookies cookieHeader code state error
       error_description).
Proof.
  unfold callback_route. destruct (authCallbackQuerySchema _ _ _ _); [|done]. cbn [negb].
  unfold lift. destruct (decoded_cookie _ _) as [[expected|]|] eqn:Hc; cbn [pbind]; [| |done].
  - destruct error; [done|]. destruct code as [code|]; [|done]. destruct state as [state|]; [|done].
    destruct (equal_units expected (u state)) eqn:He; [|done]. cbn [negb].
    assert (state_bound cookieHeader (Some state) None) as Hb.
    { split; [done|]. apply decoded_some in Hc as (raw & Hraw & Hd). unfold equal_units in He.
      breflect. subst. by exists raw, state. }
    apply ensures_pbind, ensures_any; [done|]. intros tr [completed|]; [|done].
    split; [done|]. intros [now|]; [|done]. cbn [pbind pret ensures session_cookies].
    by eexists _, _, _.
  - by destruct error, code, state.
Qed.
