(* ===== verification/Sessions.v ===== *)
(** * Agent sessions and turns

    [packages/agent/src/sessions/]: the state machines of sessions and turns ([fsm.ts]), the
    stores with their version checks ([repos.ts]; the rows of
    [packages/db/src/repositories/agent-execution.ts] are kept the same way) and the service that
    opens sessions, submits, observes and cancels turns ([agent-session-service.ts]).  A method
    is a program over the agent runtime, the two stores, the event sink, the clock and the
    source of ids, so that other methods may run between any two of its calls. *)

From S2P Require Import Prelude JsString Effects Json Contracts.

(** ** State machines *)

(* @src packages/agent/src/sessions/contracts.ts:16-25 AGENT_SESSION_STATUSES *)
Inductive AgentSessionStatus :=
  CREATING | READY | TURN_ACTIVE | CANCELLING | CANCELLED | COMPLETED | FAILED | RECONCILING.

#[export] Instance AgentSessionStatus_eq_dec : EqDecision AgentSessionStatus.
Proof. solve_decision. Defined.

(* @src packages/agent/src/sessions/contracts.ts:33-42 AGENT_TURN_STATUSES *)
Inductive AgentTurnStatus :=
  t_REQUESTED | t_SUBMITTING | t_RUNNING | t_PAUSED | t_SUCCEEDED | t_FAILED | t_CANCELLED
| t_RECONCILING.

#[export] Instance AgentTurnStatus_eq_dec : EqDecision AgentTurnStatus.
Proof. solve_decision. Defined.

(* @src packages/agent/src/sessions/fsm.ts:13-23 SessionTrigger *)
Inductive SessionTrigger :=
  s_begin | s_ready | s_turn_active | s_idle | s_cancel | s_cancelled | s_complete | s_fail
| s_reconcile | s_restore.

(* @src packages/agent/src/sessions/fsm.ts:29-57 SESSION_EDGES *)
Definition SESSION_EDGES (t : SessionTrigger) : list (AgentSessionStatus * AgentSessionStatus) :=
  match t with
  | s_begin => [(CREATING, READY)]
  | s_ready => [(CREATING, READY)]
  | s_turn_active => [(READY, TURN_ACTIVE)]
  | s_idle => [(TURN_ACTIVE, READY)]
  | s_cancel => [(READY, CANCELLING); (TURN_ACTIVE, CANCELLING)]
  | s_cancelled => [(CANCELLING, CANCELLED)]
  | s_complete => [(READY, COMPLETED); (TURN_ACTIVE, COMPLETED)]
  | s_fail => [(CREATING, FAILED); (CANCELLING, FAILED); (RECONCILING, FAILED)]
  | s_reconcile => [(CREATING, RECONCILING); (READY, RECONCILING); (TURN_ACTIVE, RECONCILING);
                    (CANCELLING, RECONCILING)]
  | s_restore => [(RECONCILING, READY)]
  end.

(* @src packages/agent/src/sessions/fsm.ts:59-71 resolveSessionEdge *)
Definition resolveSessionEdge (from : AgentSessionStatus) (t : SessionTrigger)
  : option AgentSessionStatus :=
  snd <$> List.find (λ e, bool_decide (e.1 = from)) (SESSION_EDGES t).

(* @src packages/agent/src/sessions/fsm.ts:73-82 TurnTrigger *)
Inductive TurnTrigger :=
  t_submit | t_started | t_pause | t_resume | t_succeed | t_fail | t_cancel | t_reconcile
| t_restore.

(* @src packages/agent/src/sessions/fsm.ts:88-113 TURN_EDGES *)
Definition TURN_EDGES (t : TurnTrigger) : list (AgentTurnStatus * AgentTurnStatus) :=
  match t with
  | t_submit => [(t_REQUESTED, t_SUBMITTING)]
  | t_started => [(t_SUBMITTING, t_RUNNING)]
  | t_pause => [(t_RUNNING, t_PAUSED)]
  | t_resume => [(t_PAUSED, t_RUNNING)]
  | t_succeed => [(t_RUNNING, t_SUCCEEDED)]
  | t_fail => [(t_SUBMITTING, t_FAILED); (t_RUNNING, t_FAILED); (t_PAUSED, t_FAILED);
               (t_RECONCILING, t_FAILED)]
  | t_cancel => [(t_REQUESTED, t_CANCELLED); (t_SUBMITTING, t_CANCELLED); (t_RUNNING, t_CANCELLED);
                 (t_PAUSED, t_CANCELLED)]
  | t_reconcile => [(t_SUBMITTING, t_RECONCILING); (t_RUNNING, t_RECONCILING);
                    (t_PAUSED, t_RECONCILING)]
  | t_restore => [(t_RECONCILING, t_RUNNING)]
  end.

(* @src packages/agent/src/sessions/fsm.ts:115-124 resolveTurnEdge *)
Definition resolveTurnEdge (from : AgentTurnStatus) (t : TurnTrigger) : option AgentTurnStatus :=
  snd <$> List.find (λ e, bool_decide (e.1 = from)) (TURN_EDGES t).

(* @src packages/agent/src/sessions/fsm.ts:126-128 isTerminalSession *)
Definition isTerminalSession (s : AgentSessionStatus) : bool :=
  bool_decide (s = CANCELLED) || bool_decide (s = COMPLETED) || bool_decide (s = FAILED).

(* @src packages/agent/src/sessions/fsm.ts:129-131 isTerminalTurn *)
Definition isTerminalTurn (s : AgentTurnStatus) : bool :=
  bool_decide (s = t_SUCCEEDED) || bool_decide (s = t_FAILED) || bool_decide (s = t_CANCELLED).

(** ** Contracts *)

(* @src packages/agent/src/sessions/contracts.ts:46-51 TURN_PURPOSES *)
Inductive TurnPurpose := WORKFLOW | USER_FOLLOWUP | REQUIRED_ACTION_RESULT | RECOVERY.

#[export] Instance TurnPurpose_eq_dec : EqDecision TurnPurpose.
Proof. solve_decision. Defined.

(* @src packages/agent/src/sessions/contracts.ts:112-129 AgentSession *)
Record AgentSession := {
  id : string;
  workflowRunId : string;
  repositoryId : string;
  agentDefinitionId : string;
  agentVersion : string;
  provider : string;
  contractSnapshotDigest : string;
  providerSessionId : option string;
  providerThreadId : option string;
  status : AgentSessionStatus;
  currentTurnId : option string;
  cancellationGeneration : Z;
  version : Z;
  startedAtIso : string;
  updatedAtIso : string;
  commandKey : string
}.

(* @src packages/agent/src/sessions/contracts.ts:150-167 AgentTurn *)
Record AgentTurn := {
  turn_id : string;
  turn_sessionId : string;
  ordinal : Z;
  purpose : TurnPurpose;
  turn_commandKey : string;
  inputDigest : string;
  toolProfileId : string;
  turn_status : AgentTurnStatus;
  providerTurnId : option string;
  providerTerminalReason : option string;
  finalResponseDigest : option string;
  errorCode : option string;
  turn_startedAtIso : string;
  completedAtIso : option string;
  turn_version : option Z
}.

(* @src packages/agent/src/sessions/contracts.ts:64-71 AgentSessionRef *)
Record AgentSessionRef := {
  sr_sessionId : string;
  sr_provider : string;
  sr_providerSessionId : option string;
  sr_providerThreadId : option string;
  sr_providerVersion : string;
  sr_status : AgentSessionStatus
}.

(* @src packages/agent/src/sessions/contracts.ts:83-90 AgentTurnRef *)
Record AgentTurnRef := {
  tr_turnId : string;
  tr_sessionId : string;
  tr_ordinal : Z;
  tr_providerTurnId : option string;
  tr_status : AgentTurnStatus
}.

(* @src packages/agent/src/sessions/contracts.ts:179-186 EnsureAgentSession *)
Record EnsureAgentSession := {
  en_workflowRunId : string;
  en_repositoryId : string;
  en_agentDefinitionId : string;
  en_agentVersion : string;
  en_contractSnapshotDigest : string;
  en_commandKey : string
}.

(* @src packages/agent/src/sessions/contracts.ts:169-178 ensureAgentSessionSchema *)
Definition ensureAgentSessionSchema (i : EnsureAgentSession) : bool :=
  id_schema (en_workflowRunId i) && len_between 1 128 (en_repositoryId i) &&
  len_between 1 128 (en_agentDefinitionId i) && len_between 1 64 (en_agentVersion i) &&
  hex64 (en_contractSnapshotDigest i) && len_between 1 128 (en_commandKey i).

(* @src packages/agent/src/sessions/contracts.ts:204-217 SubmitAgentTurn *)
Record SubmitAgentTurn := {
  sub_sessionId : string;
  commandId : string;
  sub_purpose : TurnPurpose;
  workflowObjectiveRef : string;
  workflowDefinitionVersion : string;
  policySnapshotRef : string;
  trustContextSnapshotRef : string;
  sub_toolProfileId : string;
  contextDigest : string;
  expectedVersion : Z;
  expectedCancellationGeneration : Z;
  linkedPausedTurnId : option string
}.

(* @src packages/agent/src/sessions/contracts.ts:188-203 submitAgentTurnSchema *)
Definition submitAgentTurnSchema (i : SubmitAgentTurn) : bool :=
  len_between 1 128 (sub_sessionId i) && len_between 1 128 (commandId i) &&
  len_between 1 128 (workflowObjectiveRef i) && len_between 1 64 (workflowDefinitionVersion i) &&
  len_between 1 128 (policySnapshotRef i) && len_between 1 128 (trustContextSnapshotRef i) &&
  len_between 1 128 (sub_toolProfileId i) && hex64 (contextDigest i) &&
  (0 <=? expectedVersion i) && (0 <=? expectedCancellationGeneration i) &&
  match linkedPausedTurnId i with Some t => len_between 1 128 t | None => true end.

(* @src packages/agent/src/sessions/contracts.ts:221-226 AgentTurnObservation *)
Record AgentTurnObservation := {
  ob_turn : AgentTurn;
  observation : string;
  ob_status : AgentTurnStatus;
  summaryRef : option string
}.

(** ** Updates of records *)

(** [{ ...session, status, currentTurnId, updatedAtIso }]. *)
Definition session_as (st : AgentSessionStatus) (current : option string) (now : string)
    (s : AgentSession) : AgentSession :=
  {| id := id s; workflowRunId := workflowRunId s; repositoryId := repositoryId s;
     agentDefinitionId := agentDefinitionId s; agentVersion := agentVersion s;
     provider := provider s; contractSnapshotDigest := contractSnapshotDigest s;
     providerSessionId := providerSessionId s; providerThreadId := providerThreadId s;
     status := st; currentTurnId := current; cancellationGeneration := cancellationGeneration s;
     version := version s; startedAtIso := startedAtIso s; updatedAtIso := now;
     commandKey := commandKey s |}.

Definition with_generation (g : Z) (s : AgentSession) : AgentSession :=
  {| id := id s; workflowRunId := workflowRunId s; repositoryId := repositoryId s;
     agentDefinitionId := agentDefinitionId s; agentVersion := agentVersion s;
     provider := provider s; contractSnapshotDigest := contractSnapshotDigest s;
     providerSessionId := providerSessionId s; providerThreadId := providerThreadId s;
     status := status s; currentTurnId := currentTurnId s; cancellationGeneration := g;
     version := version s; startedAtIso := startedAtIso s; updatedAtIso := updatedAtIso s;
     commandKey := commandKey s |}.

Definition with_provider (ps pt : option string) (s : AgentSession) : AgentSession :=
  {| id := id s; workflowRunId := workflowRunId s; repositoryId := repositoryId s;
     agentDefinitionId := agentDefinitionId s; agentVersion := agentVersion s;
     provider := provider s; contractSnapshotDigest := contractSnapshotDigest s;
     providerSessionId := ps; providerThreadId := pt;
     status := status s; currentTurnId := currentTurnId s;
     cancellationGeneration := cancellationGeneration s; version := version s;
     startedAtIso := startedAtIso s; updatedAtIso := updatedAtIso s; commandKey := commandKey s |}.

Definition with_version (v : Z) (s : AgentSession) : AgentSession :=
  {| id := id s; workflowRunId := workflowRunId s; repositoryId := repositoryId s;
     agentDefinitionId := agentDefinitionId s; agentVersion := agentVersion s;
     provider := provider s; contractSnapshotDigest := contractSnapshotDigest s;
     providerSessionId := providerSessionId s; providerThreadId := providerThreadId s;
     status := status s; currentTurnId := currentTurnId s;
     cancellationGeneration := cancellationGeneration s; version := v;
     startedAtIso := startedAtIso s; updatedAtIso := updatedAtIso s; commandKey := commandKey s |}.

(** [{ ...turn, status, ... }] with the members a call adds; [None] keeps the old member. *)
Definition turn_as (st : AgentTurnStatus) (prov reason err completed : option string)
    (t : AgentTurn) : AgentTurn :=
  let or a b := match a with Some x => Some x | None => b end in
  {| turn_id := turn_id t; turn_sessionId := turn_sessionId t; ordinal := ordinal t;
     purpose := purpose t; turn_commandKey := turn_commandKey t; inputDigest := inputDigest t;
     toolProfileId := toolProfileId t; turn_status := st;
     providerTurnId := or prov (providerTurnId t);
     providerTerminalReason := or reason (providerTerminalReason t);
     finalResponseDigest := finalResponseDigest t; errorCode := or err (errorCode t);
     turn_startedAtIso := turn_startedAtIso t; completedAtIso := or completed (completedAtIso t);
     turn_version := turn_version t |}.

(* @src packages/agent/src/sessions/agent-session-service.ts:492-501 refOf *)
Definition refOf (s : AgentSession) : AgentSessionRef :=
  {| sr_sessionId := id s; sr_provider := provider s; sr_providerSessionId := providerSessionId s;
     sr_providerThreadId := providerThreadId s; sr_providerVersion := agentVersion s;
     sr_status := status s |}.

(* @src packages/agent/src/sessions/agent-session-service.ts:503-511 refOfTurn *)
Definition refOfTurn (t : AgentTurn) : AgentTurnRef :=
  {| tr_turnId := turn_id t; tr_sessionId := turn_sessionId t; tr_ordinal := ordinal t;
     tr_providerTurnId := providerTurnId t; tr_status := turn_status t |}.

(* @src packages/agent/src/sessions/agent-session-service.ts:513-535 mapProviderTurnStatus *)
Definition mapProviderTurnStatus (s : string) : AgentTurnStatus :=
  let s := toLowerCase s in
  if str_in s ["completed"; "succeeded"; "success"] then t_SUCCEEDED
  else if str_in s ["failed"; "error"] then t_FAILED
  else if str_in s ["cancelled"; "canceled"] then t_CANCELLED
  else if str_in s ["paused"; "waiting_for_action"] then t_PAUSED
  else if str_in s ["running"; "in_progress"; "queued"] then t_RUNNING
  else t_RECONCILING.

(** ** Ports *)

(* @src packages/agent/src/sessions/agent-runtime-port.ts:8-10 AgentRuntimeResult *)
Inductive RuntimeResult (T : Type) :=
  | ok (value : T)
  | failed (code detail : string).
Arguments ok {T} value.
Arguments failed {T} code detail.

(* @src packages/agent/src/sessions/agent-runtime-port.ts:12-36 AgentRuntimePort *)
Inductive SessionCall :=
  | s_get (id : string)
  | s_find (commandKey : string)
  | s_save (s : AgentSession) (expected : Z)
  | t_get (id : string)
  | t_find (commandKey : string)
  | t_countActive (sessionId : string)
  | t_nextOrdinal (sessionId : string)
  | t_save (t : AgentTurn)
  | t_saveIfCurrent (t : AgentTurn) (version : Z)
  | createSession_ (provider agentVersion : string)
  | createTurn_ (providerSessionId : string) (ordinal : Z)
  | getTurnStatus_ (providerSessionId providerTurnId : string)
  | cancelSession_ (providerSessionId : string)
  | cancelTurn_ (providerSessionId providerTurnId : string)
  | emit_ (type aggregateId : string) (payload : list (string * json))
  | nowIso_
  | randomUUID_.

(** A conflict of versions is [None]. *)
(* @src packages/agent/src/sessions/repos.ts:11-28 SessionStorePort *)
Definition SessionAns (c : SessionCall) : Type :=
  match c with
  | s_get _ | s_find _ => option AgentSession
  | s_save _ _ => option AgentSession
  | t_get _ | t_find _ => option AgentTurn
  | t_countActive _ | t_nextOrdinal _ => Z
  | t_save _ => unit
  | t_saveIfCurrent _ _ => bool
  | createSession_ _ _ => RuntimeResult (string * option string)
  | createTurn_ _ _ => RuntimeResult string
  | getTurnStatus_ _ _ => RuntimeResult (string * option string)
  | cancelSession_ _ => RuntimeResult bool
  | cancelTurn_ _ _ => RuntimeResult bool
  | emit_ _ _ _ => unit
  | nowIso_ | randomUUID_ => string
  end.

Definition status_name (s : AgentSessionStatus) : string :=
  match s with
  | CREATING => "CREATING" | READY => "READY" | TURN_ACTIVE => "TURN_ACTIVE"
  | CANCELLING => "CANCELLING" | CANCELLED => "CANCELLED" | COMPLETED => "COMPLETED"
  | FAILED => "FAILED" | RECONCILING => "RECONCILING"
  end.

(** ** The service *)

Fixpoint set_char (n : nat) (c : ascii) (s : string) : string :=
  match n, s with
  | _, EmptyString => EmptyString
  | O, String _ s => String c s
  | S n, String d s => String d (set_char n c s)
  end.

Definition hex_value (c : ascii) : Z :=
  if is_digit c then code_of c - 48 else code_of (lower_char c) - 87.

Definition conflict {T} : proc SessionAns T := throw (GuardError "SESSION_VERSION_CONFLICT").

Section Service.
Context `{Digest} (serviceVersion : string).
(** Which optional methods the runtime has, and whether the turn store has [saveIfCurrent]. *)
Context (cancelsTurns cancelsSessions guardedSaves : bool).

(* @src packages/agent/src/sessions/repos.ts:35-43 sessionIdForCommand *)
Definition sessionIdForCommand (commandKey : string) : string :=
  let hex := slice_to 32 (sha256 ("session:" +s commandKey)) in
  let hex := set_char 12 "5" hex in
  let variant := match slice 16 17 hex with
                 | String c _ => slice (Z.to_nat (hex_value c mod 4)) (S (Z.to_nat (hex_value c mod 4))) "89ab"
                 | EmptyString => "8"
                 end in
  let hex := match variant with String v _ => set_char 16 v hex | EmptyString => hex end in
  slice_to 8 hex +s "-" +s slice 8 12 hex +s "-" +s slice 12 16 hex +s "-" +s slice 16 20 hex +s
  "-" +s slice_from 20 hex.

Definition event_ (type aggregateId : string) (payload : list (string * json)) : proc SessionAns unit :=
  call (Ans := SessionAns) (emit_ type aggregateId payload).

Definition status_event (type aggregateId : string) (st : AgentSessionStatus) : proc SessionAns unit :=
  event_ type aggregateId [("status", JStr (status_name st))].

(** A session that exists already: failed, or as it is. *)
(* @src packages/agent/src/sessions/agent-session-service.ts:84-88 ensureSession *)
Definition existing_session (s : AgentSession) : proc SessionAns AgentSessionRef :=
  if bool_decide (status s = FAILED) then throw (GuardError "SESSION_FAILED") else pret (refOf s).

(* @src packages/agent/src/sessions/agent-session-service.ts:77-146 ensureSession *)
Definition ensureSession (req : EnsureAgentSession) : proc SessionAns AgentSessionRef :=
  if negb (ensureAgentSessionSchema req) then throw (GuardError "VALIDATION_FAILED")
  else
  existing <~ call (Ans := SessionAns) (s_find (en_commandKey req)) ;;
  match existing with
  | Some s => existing_session s
  | None =>
      started <~ call (Ans := SessionAns) nowIso_ ;;
      updated <~ call (Ans := SessionAns) nowIso_ ;;
      let session :=
        {| id := sessionIdForCommand (en_commandKey req); workflowRunId := en_workflowRunId req;
           repositoryId := en_repositoryId req; agentDefinitionId := en_agentDefinitionId req;
           agentVersion := serviceVersion; provider := "trueforge";
           contractSnapshotDigest := en_contractSnapshotDigest req;
           providerSessionId := None; providerThreadId := None; status := CREATING;
           currentTurnId := None; cancellationGeneration := 0; version := 0;
           startedAtIso := started; updatedAtIso := updated; commandKey := en_commandKey req |} in
      reserved <~ call (Ans := SessionAns) (s_save session 0) ;;
      match reserved with
      | None =>
          concurrent <~ call (Ans := SessionAns) (s_find (en_commandKey req)) ;;
          match concurrent with Some s => existing_session s | None => conflict end
      | Some r =>
          created <~ call (Ans := SessionAns) (createSession_ "trueforge" serviceVersion) ;;
          match created with
          | failed _ _ =>
              now <~ call (Ans := SessionAns) nowIso_ ;;
              call (Ans := SessionAns) (s_save (session_as FAILED (currentTurnId r) now r) (version r)) ;~
              status_event "session.state_changed.v1" (id session) FAILED ;~
              throw (GuardError "SESSION_CREATE_FAILED")
          | ok (ps, pt) =>
              now <~ call (Ans := SessionAns) nowIso_ ;;
              saved <~ call (Ans := SessionAns)
                (s_save (session_as READY (currentTurnId r) now (with_provider (Some ps) pt r)) (version r)) ;;
              match saved with
              | None => conflict
              | Some s =>
                  status_event "session.created.v1" (id session) READY ;~ pret (refOf s)
              end
          end
      end
  end.

(** Whether cancellation, or another turn, took the session away from a turn. *)
(* @src packages/agent/src/sessions/agent-session-service.ts:247-252 submitTurn *)
Definition fenced (now_session : option AgentSession) (s : AgentSession) (turn : string) : bool :=
  match now_session with
  | None => true
  | Some n =>
      negb (cancellationGeneration n =? cancellationGeneration s) ||
      isTerminalSession (status n) || negb (bool_decide (currentTurnId n = Some turn))
  end.

(** The turn saved as cancelled, and answered so. *)
(* @src packages/agent/src/sessions/agent-session-service.ts:297-307 submitTurn *)
Definition cancel_turn (t : AgentTurn) (prov : option string) : proc SessionAns AgentTurnRef :=
  now <~ call (Ans := SessionAns) nowIso_ ;;
  call (Ans := SessionAns) (t_save (turn_as t_CANCELLED prov None None (Some now) t)) ;~
  pret (refOfTurn (turn_as t_CANCELLED prov None None None t)).

(** The session given back, as far as nobody changed it. *)
(* @src packages/agent/src/sessions/agent-session-service.ts:266-274 submitTurn *)
Definition release_session (reserved : AgentSession) : proc SessionAns unit :=
  now <~ call (Ans := SessionAns) nowIso_ ;;
  call (Ans := SessionAns) (s_save (session_as READY None now reserved) (version reserved)) ;~
  pret ().

(** From the reserved session on. *)
(* @src packages/agent/src/sessions/agent-session-service.ts:229-317 submitTurn *)
Definition start_turn (session reserved : AgentSession) (turn : AgentTurn)
  : proc SessionAns AgentTurnRef :=
  match providerSessionId session with
  | None =>
      call (Ans := SessionAns)
        (t_save (turn_as t_FAILED None None (Some "SESSION_PROVIDER_MISSING") None turn)) ;~
      release_session reserved ;~
      throw (GuardError "SESSION_PROVIDER_MISSING")
  | Some ps =>
      let submitting := turn_as t_SUBMITTING None None None None turn in
      call (Ans := SessionAns) (t_save submitting) ;~
      before <~ call (Ans := SessionAns) (s_get (id session)) ;;
      if fenced before session (turn_id turn) then cancel_turn submitting None
      else
        created <~ call (Ans := SessionAns) (createTurn_ ps (ordinal turn)) ;;
        match created with
        | failed code _ =>
            call (Ans := SessionAns) (t_save (turn_as t_FAILED None None (Some code) None submitting)) ;~
            release_session reserved ;~
            event_ "turn.state_changed.v1" (turn_id turn)
              [("sessionId", JStr (id session)); ("status", JStr "FAILED"); ("errorCode", JStr code)] ;~
            throw (GuardError "TURN_CREATE_FAILED")
        | ok pt =>
            after <~ call (Ans := SessionAns) (s_get (id session)) ;;
            if fenced after session (turn_id turn) then
              (if cancelsTurns
               then call (Ans := SessionAns) (cancelTurn_ ps pt) ;~ pret () else pret ()) ;~
              cancel_turn submitting (Some pt)
            else
              let running := turn_as t_RUNNING (Some pt) None None None submitting in
              call (Ans := SessionAns) (t_save running) ;~
              event_ "turn.started.v1" (turn_id turn) [("sessionId", JStr (id session))] ;~
              pret (refOfTurn running)
        end
  end.

(** The turn saved, or what a concurrent one makes of it. *)
(* @src packages/agent/src/sessions/agent-session-service.ts:192-207 submitTurn *)
Definition save_request (req : SubmitAgentTurn) (turn : AgentTurn)
  : proc SessionAns (option AgentTurnRef) :=
  ptry (call (Ans := SessionAns) (t_save turn) ;~ pret None)
    (λ error,
      concurrent <~ call (Ans := SessionAns) (t_find (commandId req)) ;;
      match concurrent with
      | Some c =>
          if negb (inputDigest c =s? inputDigest turn)
          then throw (GuardError "TURN_COMMAND_DIGEST_CONFLICT") else pret (Some (refOfTurn c))
      | None =>
          n <~ call (Ans := SessionAns) (t_countActive (sub_sessionId req)) ;;
          if n >? 0 then throw (GuardError "SESSION_TURN_ACTIVE") else throw error
      end).

(* @src packages/agent/src/sessions/agent-session-service.ts:148-227 submitTurn *)
Definition submitTurn (req : SubmitAgentTurn) : proc SessionAns AgentTurnRef :=
  if negb (submitAgentTurnSchema req) then throw (GuardError "VALIDATION_FAILED")
  else
  found <~ call (Ans := SessionAns) (s_get (sub_sessionId req)) ;;
  match found with
  | None => throw (GuardError "SESSION_NOT_FOUND")
  | Some session =>
      if isTerminalSession (status session) then throw (GuardError "SESSION_TERMINAL")
      else if negb (cancellationGeneration session =? expectedCancellationGeneration req)
      then throw (GuardError "TURN_GENERATION_STALE")
      else if bool_decide (sub_purpose req = REQUIRED_ACTION_RESULT) &&
              bool_decide (linkedPausedTurnId req = None)
      then throw (GuardError "REQUIRED_ACTION_RESULT_LINK_REQUIRED")
      else
      existing <~ call (Ans := SessionAns) (t_find (commandId req)) ;;
      match existing with
      | Some t =>
          if negb (inputDigest t =s? sha256 (contextDigest req))
          then throw (GuardError "TURN_COMMAND_DIGEST_CONFLICT") else pret (refOfTurn t)
      | None =>
          active <~ call (Ans := SessionAns) (t_countActive (sub_sessionId req)) ;;
          if 1 <=? active then throw (GuardError "SESSION_TURN_ACTIVE")
          else
          next <~ call (Ans := SessionAns) (t_nextOrdinal (sub_sessionId req)) ;;
          uuid <~ call (Ans := SessionAns) randomUUID_ ;;
          now <~ call (Ans := SessionAns) nowIso_ ;;
          let turn :=
            {| turn_id := uuid; turn_sessionId := sub_sessionId req; ordinal := next;
               purpose := sub_purpose req; turn_commandKey := commandId req;
               inputDigest := sha256 (contextDigest req); toolProfileId := sub_toolProfileId req;
               turn_status := t_REQUESTED; providerTurnId := None;
               providerTerminalReason := None; finalResponseDigest := None; errorCode := None;
               turn_startedAtIso := now; completedAtIso := None; turn_version := None |} in
          other <~ save_request req turn ;;
          match (other : option AgentTurnRef) with
          | Some r => pret r
          | None =>
              event_ "turn.requested.v1" uuid [("sessionId", JStr (sub_sessionId req))] ;~
              now2 <~ call (Ans := SessionAns) nowIso_ ;;
              reserved <~ call (Ans := SessionAns)
                (s_save (session_as TURN_ACTIVE (Some uuid) now2 session) (version session)) ;;
              match reserved with
              | None => cancel_turn turn None ;~ conflict
              | Some r => start_turn session r turn
              end
          end
      end
  end.

(** [saveIfCurrent], where the store has it. *)
(* @src packages/agent/src/sessions/agent-session-service.ts:346-348 observeTurn *)
Definition save_observed (t : AgentTurn) (v : Z) : proc SessionAns bool :=
  if guardedSaves then call (Ans := SessionAns) (t_saveIfCurrent t v)
  else call (Ans := SessionAns) (t_save t) ;~ pret true.

(** What is kept of an observation: it, or the turn as it is by now. *)
(* @src packages/agent/src/sessions/agent-session-service.ts:349-352 observeTurn *)
Definition keep_observed (turn observed : AgentTurn) : proc SessionAns AgentTurn :=
  saved <~ save_observed observed (turn_version turn ?? 0) ;;
  if (saved : bool) then pret observed
  else latest <~ call (Ans := SessionAns) (t_get (turn_id turn)) ;; pret (latest ?? turn).

(* @src packages/agent/src/sessions/agent-session-service.ts:328-367 observeTurn *)
Definition observe_provider (turn : AgentTurn) : proc SessionAns AgentTurn :=
  match (if isTerminalTurn (turn_status turn) then None else providerTurnId turn) with
  | None => pret turn
  | Some pt =>
      session <~ call (Ans := SessionAns) (s_get (turn_sessionId turn)) ;;
      match (match session with Some s => providerSessionId s | None => None end) with
      | None => pret turn
      | Some ps =>
          result <~ call (Ans := SessionAns) (getTurnStatus_ ps pt) ;;
          match result with
          | ok (st, reason) =>
              let next := mapProviderTurnStatus st in
              if negb (bool_decide (next = turn_status turn)) || bool_decide (reason ≠ None) then
                completed <~ (if isTerminalTurn next
                              then now <~ call (Ans := SessionAns) nowIso_ ;; pret (Some now)
                              else pret None) ;;
                keep_observed turn (turn_as next None reason None completed turn)
              else pret turn
          | failed code _ =>
              kept <~ keep_observed turn (turn_as t_RECONCILING None None (Some code) None turn) ;;
              event_ "turn.state_changed.v1" (turn_id turn)
                [("sessionId", JStr (turn_sessionId turn)); ("status", JStr "RECONCILING");
                 ("errorCode", JStr code)] ;~
              pret kept
          end
      end
  end.

(* @src packages/agent/src/sessions/agent-session-service.ts:472-489 #settleSessionForTurn *)
Definition settleSessionForTurn (turn : AgentTurn) : proc SessionAns unit :=
  session <~ call (Ans := SessionAns) (s_get (turn_sessionId turn)) ;;
  match session with
  | None => pret ()
  | Some s =>
      if negb (bool_decide (currentTurnId s = Some (turn_id turn))) || isTerminalSession (status s)
      then pret ()
      else
        let next := if bool_decide (turn_status turn = t_FAILED) then RECONCILING else READY in
        now <~ call (Ans := SessionAns) nowIso_ ;;
        saved <~ call (Ans := SessionAns) (s_save (session_as next None now s) (version s)) ;;
        match saved with
        | Some _ => status_event "session.state_changed.v1" (id s) next
        | None => pret ()
        end
  end.

(* @src packages/agent/src/sessions/agent-session-service.ts:320-382 observeTurn *)
Definition observeTurn (turnId : string) : proc SessionAns AgentTurnObservation :=
  if negb (len_between 1 128 turnId) then throw (GuardError "VALIDATION_FAILED")
  else
  found <~ call (Ans := SessionAns) (t_get turnId) ;;
  match found with
  | None => throw (GuardError "TURN_NOT_FOUND")
  | Some turn =>
      observed <~ observe_provider turn ;;
      if isTerminalTurn (turn_status observed) then
        settleSessionForTurn observed ;~
        pret {| ob_turn := observed; observation := "completed"; ob_status := turn_status observed;
                summaryRef := finalResponseDigest observed |}
      else
        pret {| ob_turn := observed;
                observation := if bool_decide (turn_status observed = t_PAUSED)
                               then "paused" else "running";
                ob_status := turn_status observed; summaryRef := None |}
  end.

(** The active turn of a cancelled session. *)
(* @src packages/agent/src/sessions/agent-session-service.ts:424-441 cancelSession *)
Definition cancel_active (session : AgentSession) : proc SessionAns unit :=
  match currentTurnId session with
  | None => pret ()
  | Some current =>
      active <~ call (Ans := SessionAns) (t_get current) ;;
      match active with
      | Some t =>
          if isTerminalTurn (turn_status t) then pret ()
          else
            now <~ call (Ans := SessionAns) nowIso_ ;;
            save_observed (turn_as t_CANCELLED None None None (Some now) t) (turn_version t ?? 0) ;~
            pret ()
      | None => pret ()
      end
  end.

(* @src packages/agent/src/sessions/agent-session-service.ts:385-446 cancelSession *)
Definition cancelSession (sessionId : string) (expected : Z) : proc SessionAns AgentSessionRef :=
  if expected <? 0 then throw (GuardError "VALIDATION_FAILED")
  else
  found <~ call (Ans := SessionAns) (s_get sessionId) ;;
  match found with
  | None => throw (GuardError "SESSION_NOT_FOUND")
  | Some session =>
      if isTerminalSession (status session) then pret (refOf session)
      else
      now <~ call (Ans := SessionAns) nowIso_ ;;
      claimed <~ call (Ans := SessionAns)
        (s_save (with_generation (cancellationGeneration session + 1)
                   (session_as CANCELLING (currentTurnId session) now session)) expected) ;;
      match claimed with
      | None => conflict
      | Some c =>
          stopped <~ (match providerSessionId session with
                      | Some ps =>
                          if cancelsSessions then
                            result <~ call (Ans := SessionAns) (cancelSession_ ps) ;;
                            pret (match result with ok _ => true | failed _ _ => false end)
                          else pret true
                      | None => pret true
                      end) ;;
          if negb stopped then
            now2 <~ call (Ans := SessionAns) nowIso_ ;;
            call (Ans := SessionAns)
              (s_save (session_as RECONCILING (currentTurnId c) now2 c) (version c)) ;~
            throw (GuardError "SESSION_CANCEL_FAILED")
          else
          now2 <~ call (Ans := SessionAns) nowIso_ ;;
          saved <~ call (Ans := SessionAns)
            (s_save (session_as CANCELLED (currentTurnId c) now2 c) (version c)) ;;
          match saved with
          | None => conflict
          | Some s =>
              cancel_active session ;~
              event_ "session.cancelled.v1" (id session)
                [("cancellationGeneration", JNum (cancellationGeneration s))] ;~
              pret (refOf s)
          end
      end
  end.

(* @src packages/agent/src/sessions/agent-session-service.ts:448-466 reconcileSession *)
Definition reconcileSession (sessionId : string) : proc SessionAns AgentSessionRef :=
  if negb (len_between 1 128 sessionId) then throw (GuardError "VALIDATION_FAILED")
  else
  found <~ call (Ans := SessionAns) (s_get sessionId) ;;
  match found with
  | None => throw (GuardError "SESSION_NOT_FOUND")
  | Some session =>
      if isTerminalSession (status session) then pret (refOf session)
      else
      now <~ call (Ans := SessionAns) nowIso_ ;;
      saved <~ call (Ans := SessionAns)
        (s_save (session_as RECONCILING (currentTurnId session) now session) (version session)) ;;
      match saved with
      | None => conflict
      | Some s =>
          status_event "session.state_changed.v1" (id session) RECONCILING ;~ pret (refOf s)
      end
  end.
End Service.

(** ** Turns are fenced *)

Section Fencing.
Context `{Digest} (cancelsTurns : bool) (req : SubmitAgentTurn).

Definition seen (tr : list (event SessionAns)) (c : SessionCall) (a : SessionAns c) : Prop :=
  ev c (Returned a) ∈ tr.

(** The session was handed to the turn, at the version it was read with. *)
Definition reserved_for (tr : list (event SessionAns)) (s : AgentSession) (t : AgentTurn) : Prop :=
  ∃ now r, seen tr (s_get (sub_sessionId req)) (Some s) ∧
    cancellationGeneration s = expectedCancellationGeneration req ∧
    isTerminalSession (status s) = false ∧
    seen tr (s_save (session_as TURN_ACTIVE (Some (turn_id t)) now s) (version s)) (Some r).

(** The last thing known: the session, just read, is still the turn's. *)
Definition still_owned (tr : list (event SessionAns)) (s : AgentSession) (t : string) : Prop :=
  ∃ tr' b, tr = tr' ++ [ev (s_get (id s)) (Returned (Some b))] ∧
    cancellationGeneration b = cancellationGeneration s ∧
    isTerminalSession (status b) = false ∧ currentTurnId b = Some t.

Definition no_turn_created (tr : list (event SessionAns)) : Prop :=
  Forall (λ e, match ev_call e with createTurn_ _ _ => False | _ => True end) tr.

(** The runtime made this turn. *)
Definition made (e : event SessionAns) : option (string * string) :=
  match e with existT (createTurn_ ps _) (Returned (ok pt)) => Some (ps, pt) | _ => None end.

Definition created (tr : list (event SessionAns)) (ps pt : string) : Prop :=
  ∃ e, e ∈ tr ∧ made e = Some (ps, pt).

Definition turn_allowed (tr : list (event SessionAns)) (c : SessionCall) : Prop :=
  match c with
  | createTurn_ ps n =>
      no_turn_created tr ∧
      ∃ s t, reserved_for tr s t ∧ still_owned tr s (turn_id t) ∧
        providerSessionId s = Some ps ∧ ordinal t = n
  | t_save t =>
      turn_status t = t_RUNNING →
      ∃ s ps pt, reserved_for tr s t ∧ still_owned tr s (turn_id t) ∧
        created tr ps pt ∧ providerTurnId t = Some pt
  | cancelTurn_ ps pt => created tr ps pt
  | _ => True
  end.

(** A turn the runtime made is running, or cancelled -- also at the runtime, if it can. *)
Definition turn_accounted (tr : list (event SessionAns)) (o : outcome AgentTurnRef) : Prop :=
  match o with
  | Returned r => ∀ ps pt, created tr ps pt →
      tr_providerTurnId r = Some pt ∧
      (tr_status r = t_RUNNING ∨
       tr_status r = t_CANCELLED ∧ (cancelsTurns = true → ∃ a, seen tr (cancelTurn_ ps pt) a))
  | Threw _ => True
  end.

Notation fenced_run := (ensures turn_allowed turn_accounted).

Lemma saw_app tr l c a : seen tr c a → seen (tr ++ l) c a.
Proof. intros. apply elem_of_app. by left. Qed.

Lemma reserved_app tr l s t : reserved_for tr s t → reserved_for (tr ++ l) s t.
Proof. intros (now & r & ? & ? & ? & ?). exists now, r. split_and!; try done; by apply saw_app. Qed.

Lemma no_turn_snoc tr e :
  no_turn_created tr → (match ev_call e with createTurn_ _ _ => False | _ => True end) →
  no_turn_created (tr ++ [e]).
Proof. intros. apply Forall_app. split; [done|by repeat constructor]. Qed.

Lemma no_turn_not_created tr ps pt : no_turn_created tr → ¬ created tr ps pt.
Proof.
  intros Hn (e & He & Hm). unfold no_turn_created in Hn. rewrite Forall_forall in Hn.
  specialize (Hn e He). by destruct e as [[] []].
Qed.

(** With no turn made at the runtime, any answer is accounted for. *)
Lemma accounted_none tr o : no_turn_created tr → turn_accounted tr o.
Proof. intros Hn. destruct o as [r|e]; [|done]. intros ps pt Hc. by apply no_turn_not_created in Hc. Qed.

(** Reads, saves of turns that do not run, events: nothing the fence is about. *)
Definition plain (c : SessionCall) : Prop :=
  match c with
  | createTurn_ _ _ | cancelTurn_ _ _ => False
  | t_save t => turn_status t ≠ t_RUNNING
  | _ => True
  end.

Lemma plain_allowed tr c : plain c → turn_allowed tr c.
Proof. destruct c; simpl; done. Qed.

Lemma plain_snoc tr c o : plain c → no_turn_created tr → no_turn_created (tr ++ [ev c o]).
Proof. intros Hc Hn. apply no_turn_snoc; [done|]. by destruct c. Qed.

(** A program of plain calls, before any turn was made. *)
Definition plain_run {A} (p : proc SessionAns A) : Prop :=
  ∀ tr, ensures (λ _, plain) (λ _ _, True) tr p.

Lemma plain_bind {A} (p : proc SessionAns A) (k : A → proc SessionAns AgentTurnRef) tr :
  plain_run p → no_turn_created tr →
  (∀ a l, no_turn_created (tr ++ l) → fenced_run (tr ++ l) (k a)) → fenced_run tr (pbind p k).
Proof.
  intros Hp. specialize (Hp tr). revert tr Hp.
  induction p as [[a|e]|c k' IH]; intros tr Hp Hn Hk; cbn [pbind ensures].
  - specialize (Hk a []). rewrite app_nil_r in Hk. by apply Hk.
  - done.
  - destruct Hp as [Hc Hp]. split; [by apply plain_allowed|]. intros o. apply IH; [apply Hp|..].
    + by apply plain_snoc.
    + intros a l. rewrite <- app_assoc. apply Hk.
Qed.

Lemma plain_end (p : proc SessionAns AgentTurnRef) tr :
  plain_run p → no_turn_created tr → fenced_run tr p.
Proof.
  intros Hp. specialize (Hp tr). revert tr Hp. induction p as [o|c k IH]; intros tr Hp Hn.
  - by apply accounted_none.
  - destruct Hp as [Hc Hp]. split; [by apply plain_allowed|]. intros o. apply IH; [apply Hp|].
    by apply plain_snoc.
Qed.

Lemma fenced_owned b s t tr :
  fenced b s t = false →
  still_owned (tr ++ [ev (s_get (id s)) (Returned b)]) s t.
Proof.
  unfold fenced. destruct b as [b|]; [|done]. intros Hf. breflect.
  exists tr, b. split_and!; try done; by apply Z.eqb_eq.
Qed.

Lemma start_turn_fenced s r t tr :
  reserved_for tr s t → turn_status t ≠ t_RUNNING → no_turn_created tr →
  providerTurnId t = None →
  fenced_run tr (start_turn cancelsTurns s r t).
Proof.
  intros Hres Hst Hn Hpt. unfold start_turn. destruct (providerSessionId s) as [ps|] eqn:Hps.
  2: { apply plain_end; [|done]. intros tr'. cbn. split; [done|]. intros [u|e]; [|done]. cbn.
       split; [done|]. intros [now|e]; [|done]. cbn. split; [done|]. by intros []. }
  cbv zeta. set (sub := turn_as t_SUBMITTING None None None None t).
  cbn [call pbind ensures]. split; [done|]. intros [u|e]; [|done]. cbn [pbind].
  cbn [call pbind ensures]. split; [done|]. intros [b|e]; [|done]. cbn [pbind].
  set (tr1 := tr ++ _). assert (Hn1 : no_turn_created tr1) by (by apply plain_snoc).
  assert (Hres1 : reserved_for tr1 s t) by (by apply reserved_app). clearbody tr1.
  assert (Hn2 : no_turn_created (tr1 ++ [ev (s_get (id s)) (Returned b)])) by (by apply plain_snoc).
  destruct (fenced b s (turn_id t)) eqn:Hf.
  { apply plain_end; [|done]. intros tr'. cbn. split; [done|]. intros [now|e]; [|done]. cbn.
    split; [done|]. by intros []. }
  apply (fenced_owned _ _ _ tr1) in Hf.
  cbn [call pbind ensures]. split.
  { split; [done|]. exists s, t. split_and!; [by apply reserved_app|done|done|done]. }
  set (tr2 := tr1 ++ _) in *. assert (Hres2 : reserved_for tr2 s t) by (by apply reserved_app).
  clearbody tr2. clear Hf b Hres Hres1 tr1 Hn1.
  intros [[pt|code d]|e]; cbn [pbind]; [| |done].
  - set (tr3 := tr2 ++ _).
    assert (Honly : ∀ l ps' pt', Forall (λ e, made e = None) l →
      created (tr3 ++ l) ps' pt' → ps' = ps ∧ pt' = pt).
    { intros l ps' pt' Hl (e & He & Hm). apply elem_of_app in He as [[He|He%list_elem_of_singleton]%elem_of_app|He].
      - exfalso. by apply (no_turn_not_created tr2 ps' pt'); [|exists e].
      - subst e. simpl in Hm. by simplify_eq.
      - rewrite Forall_forall in Hl. rewrite (Hl e He) in Hm. done. }
    assert (Hcr : created tr3 ps pt).
    { eexists. split; [apply elem_of_app; right; left|done]. }
    assert (Hres3 : reserved_for tr3 s t) by (by apply reserved_app). clearbody tr3.
    cbn [call pbind ensures]. split; [done|]. intros [b|e]; cbn [pbind]; [|done].
    assert (Hcr4 : created (tr3 ++ [ev (s_get (id s)) (Returned b)]) ps pt).
    { destruct Hcr as (e & He & Hm). exists e. split; [|done]. apply elem_of_app. by left. }
    destruct (fenced b s (turn_id t)) eqn:Hf.
    + assert (Hend : ∀ l, Forall (λ e, made e = None) l →
        (cancelsTurns = true → ∃ a, seen (tr3 ++ l) (cancelTurn_ ps pt) a) →
        fenced_run (tr3 ++ l) (cancel_turn sub (Some pt))).
      { intros l Hl Hcan. unfold cancel_turn. cbn [call pbind ensures]. split; [done|].
        intros [now|e]; [|done]. cbn [call pbind ensures]. split; [done|].
        intros [u'|e]; cbn [pbind pret ensures]; [|done]. intros ps' pt' Hc'.
        rewrite <- !app_assoc in Hc'. apply Honly in Hc' as [-> ->]; [|].
        - split; [done|]. right. split; [done|]. intros Hc. destruct (Hcan Hc) as [a Ha].
          exists a. by do 2 apply saw_app.
        - apply Forall_app. split; [done|by repeat constructor]. }
      destruct cancelsTurns; cbn [call pbind pret ensures].
      * split; [exact Hcr4|]. intros [a|e]; cbn [pbind]; [|done].
        rewrite <- app_assoc. apply Hend; [by repeat constructor|]. intros _. exists a.
        apply elem_of_app. right. right. left.
      * by apply Hend; [repeat constructor|].
    + apply (fenced_owned _ _ _ tr3) in Hf. cbn [call pbind ensures]. split.
      { intros _. exists s, ps, pt. split_and!; [by apply reserved_app|done|done|done]. }
      intros [u'|e]; [|done]. cbn [pbind event_ call ensures]. split; [done|].
      intros [u2|e]; cbn [pbind pret ensures]; [|done]. intros ps' pt' Hc'.
      rewrite <- !app_assoc in Hc'. apply Honly in Hc' as [-> ->]; [|by repeat constructor].
      split; [done|by left].
  - cbn [call pbind ensures]. split; [done|]. intros [u'|e]; [|done]. cbn.
    split; [done|]. intros [now|e]; [|done]. cbn. split; [done|]. intros [s'|e]; [|done]. cbn.
    split; [done|]. by intros [].
Qed.

Lemma save_request_plain t : turn_status t ≠ t_RUNNING → plain_run (save_request req t).
Proof.
  intros Ht tr. unfold save_request. cbn. split; [done|]. intros [u|e]; cbn; [done|].
  split; [done|]. intros [[c|]|e']; cbn; [by destruct (negb _)| |done].
  split; [done|]. intros [n|e']; cbn; [by destruct (n >? 0)|done].
Qed.

Lemma submitTurn_fenced : fenced_run [] (submitTurn cancelsTurns req).
Proof.
  unfold submitTurn. destruct (negb _); [done|]. cbn [call pbind ensures app]. split; [done|].
  intros [[s|]|e]; cbn [pbind]; [| |done]; [|by apply accounted_none; repeat constructor].
  assert (Hnil : ∀ tr, no_turn_created tr → ∀ e, fenced_run tr (throw e))
    by (intros; by apply accounted_none).
  assert (Hseen : seen [ev (s_get (sub_sessionId req)) (Returned (Some s))] (s_get (sub_sessionId req)) (Some s))
    by left.
  assert (Hn : no_turn_created [ev (s_get (sub_sessionId req)) (Returned (Some s))]) by (by repeat constructor).
  set (tr := [ev (s_get _) _]) in *. clearbody tr.
  destruct (isTerminalSession (status s)) eqn:Hterm; [by apply Hnil|].
  destruct (negb (cancellationGeneration s =? _)) eqn:Hgen; [by apply Hnil|].
  apply negb_false_iff, Z.eqb_eq in Hgen.
  destruct (bool_decide _ && _); [by apply Hnil|].
  cbn [call pbind ensures]. split; [done|].
  intros [[t|]|e]; cbn [pbind]; [| |done].
  { destruct (negb _); apply accounted_none; by apply plain_snoc. }
  cbn [call pbind ensures]. split; [done|]. intros [n|e]; cbn [pbind]; [|done].
  destruct (1 <=? n).
  { apply Hnil. by do 2 (apply plain_snoc; [done|]). }
  cbn [call pbind ensures]. split; [done|]. intros [next|e]; cbn [pbind]; [|done].
  cbn [call pbind ensures]. split; [done|]. intros [uuid|e]; cbn [pbind]; [|done].
  cbn [call pbind ensures]. split; [done|]. intros [now|e]; cbn [pbind]; [|done].
  cbv zeta. match goal with |- context [save_request req ?x] => set (turn := x) end.
  match goal with |- ensures _ _ ?x _ => set (tr1 := x) end.
  assert (Hseen1 : seen tr1 (s_get (sub_sessionId req)) (Some s)) by (by do 5 apply saw_app).
  assert (Hn1 : no_turn_created tr1) by (by do 5 (apply plain_snoc; [done|])).
  clearbody tr1. apply plain_bind; [by apply save_request_plain|done|].
  intros [other|] l Hl; [by apply accounted_none|].
  unfold event_. cbn [call pbind ensures]. split; [done|]. intros [u|e]; cbn [pbind]; [|done].
  cbn [call pbind ensures]. split; [done|]. intros [now2|e]; cbn [pbind]; [|done].
  cbn [call pbind ensures]. split; [done|]. intros [[r|]|e]; cbn [pbind]; [| |done].
  - apply start_turn_fenced; [|done| |done].
    + exists now2, r. split_and!; [by do 4 apply saw_app|done|done|apply elem_of_app; right; left].
    + by do 3 (apply plain_snoc; [done|]).
  - apply plain_end.
    + intros tr'. unfold cancel_turn. cbn. split; [done|]. intros [now3|e]; [|done]. cbn.
      split; [done|]. by intros [].
    + by do 3 (apply plain_snoc; [done|]).
Qed.
End Fencing.

(** A turn reaches the agent runtime only while it owns its session, whatever the stores, the
    runtime and everything running in between do.  [submitTurn] makes at most one turn at the
    runtime, and only after the session -- read as not terminal, at the cancellation generation
    the caller expects -- was handed to the turn at the version it was read with, and the very
    last read before shows the same generation, a live session and this turn as its current one.
    The turn is recorded as running only after the same check was made once more, directly
    after the runtime made it.  When the method returns, a turn that was made is named in the
    answer and is running there, or cancelled -- and then, if the runtime can cancel turns, it
    has been. *)
Theorem turns_are_fenced `{Digest} cancelsTurns req :
  ensures (turn_allowed req) (turn_accounted cancelsTurns) [] (submitTurn cancelsTurns req).
Proof. apply submitTurn_fenced. Qed.

(** ** Over the stores *)

(* @src packages/agent/src/sessions/repos.ts:45-69 InMemorySessionStore *)
Record AgentStores := {
  sessions : gmap string AgentSession;
  turns : gmap string AgentTurn;
  byCommand : gmap string AgentTurn
}.

Definition turn_with_version (v : Z) (t : AgentTurn) : AgentTurn :=
  {| turn_id := turn_id t; turn_sessionId := turn_sessionId t; ordinal := ordinal t;
     purpose := purpose t; turn_commandKey := turn_commandKey t; inputDigest := inputDigest t;
     toolProfileId := toolProfileId t; turn_status := turn_status t;
     providerTurnId := providerTurnId t; providerTerminalReason := providerTerminalReason t;
     finalResponseDigest := finalResponseDigest t; errorCode := errorCode t;
     turn_startedAtIso := turn_startedAtIso t; completedAtIso := completedAtIso t;
     turn_version := Some v |}.

(* @src packages/agent/src/sessions/repos.ts:54-64 save *)
Definition save_session (s : AgentSession) (expected : Z) (w : AgentStores)
  : option AgentSession * AgentStores :=
  if match sessions w !! id s with
     | Some e => negb (version e =? expected)
     | None => false
     end
  then (None, w)
  else
    let next := with_version (version s + 1) s in
    (Some next, {| sessions := <[id s := next]> (sessions w); turns := turns w;
                   byCommand := byCommand w |}).

(* @src packages/agent/src/sessions/repos.ts:77-84 countActive *)
Definition countActive (sid : string) (w : AgentStores) : Z :=
  Z.of_nat (length (List.filter (λ e : string * AgentTurn,
    (turn_sessionId e.2 =s? sid) && negb (isTerminalTurn (turn_status e.2))) (map_to_list (turns w)))).

(* @src packages/agent/src/sessions/repos.ts:85-90 nextOrdinal *)
Definition nextOrdinal (sid : string) (w : AgentStores) : Z :=
  fold_left (λ m e, if (turn_sessionId e.2 =s? sid) && (ordinal e.2 >? m) then ordinal e.2 else m)
    (map_to_list (turns w)) 0 + 1.

(* @src packages/agent/src/sessions/repos.ts:91-96 save *)
Definition save_turn (t : AgentTurn) (w : AgentStores) : AgentStores :=
  let v := match turns w !! turn_id t with Some c => turn_version c ?? 0 | None => 0 end in
  let next := turn_with_version (v + 1) t in
  {| sessions := sessions w; turns := <[turn_id t := next]> (turns w);
     byCommand := <[turn_commandKey t := next]> (byCommand w) |}.

(* @src packages/agent/src/sessions/repos.ts:98-103 saveIfCurrent *)
Definition saveIfCurrent (t : AgentTurn) (v : Z) (w : AgentStores) : bool * AgentStores :=
  match turns w !! turn_id t with
  | Some c => if bool_decide (turn_version c = Some v) then (true, save_turn t w) else (false, w)
  | None => (false, w)
  end.

Section Stores.
Context `{Digest} {W : Type} (outside : ∀ c, W → outcome (SessionAns c) * W).

Definition session_port (c : SessionCall) (w : AgentStores * W)
  : outcome (SessionAns c) * (AgentStores * W) :=
  match c with
  | s_get i => (Returned (sessions w.1 !! i), w)
  | s_find k => (Returned (sessions w.1 !! sessionIdForCommand k), w)
  | s_save s v => let '(r, x) := save_session s v w.1 in (Returned r, (x, w.2))
  | t_get i => (Returned (turns w.1 !! i), w)
  | t_find k => (Returned (byCommand w.1 !! k), w)
  | t_countActive sid => (Returned (countActive sid w.1), w)
  | t_nextOrdinal sid => (Returned (nextOrdinal sid w.1), w)
  | t_save t => (Returned (), (save_turn t w.1, w.2))
  | t_saveIfCurrent t v => let '(r, x) := saveIfCurrent t v w.1 in (Returned r, (x, w.2))
  | c => let '(o, x) := outside c w.2 in (o, (w.1, x))
  end.
End Stores.

(** *** A turn that never learned its provider's name *)

Lemma countActive_pos w t :
  turns w !! turn_id t = Some t → isTerminalTurn (turn_status t) = false →
  1 ≤ countActive (turn_sessionId t) w.
Proof.
  intros Ht Hs. unfold countActive.
  assert (Hin : (turn_id t, t) ∈ List.filter (λ e : string * AgentTurn,
    (turn_sessionId e.2 =s? turn_sessionId t) && negb (isTerminalTurn (turn_status e.2)))
    (map_to_list (turns w))).
  { apply bfilter_elem. split; [by apply elem_of_map_to_list|]. simpl. by rewrite String.eqb_refl, Hs. }
  destruct (List.filter _ _); [by apply elem_of_nil in Hin|]. simpl. lia.
Qed.

Ltac sess_call port :=
  match goal with |- context [?t] =>
    match t with final port (call ?c) ?x =>
      let z := fresh "z" in let Hz := fresh "Hz" in
      set (z := t); assert (Hz : z = port c x) by exact (final_call port c x);
      clearbody z; subst z
    end
  end.

(** What may be asked of a session and of one of its turns. *)
Inductive attempt : Type :=
  | submits (req : SubmitAgentTurn)
  | observes
  | reconciles.

Section Orphans.
Context `{Digest} {W : Type} (outside : ∀ c, W → outcome (SessionAns c) * W).
Context (cancelsTurns guardedSaves : bool) (t : AgentTurn).

#[local] Notation port := (session_port outside).

(** Every submission is one for the session of the turn. *)
Definition concerns (a : attempt) : Prop :=
  match a with submits req => sub_sessionId req = turn_sessionId t | _ => True end.

(** One after the other, each to its end. *)
Definition attempted (later : list attempt) (w : AgentStores * W) : AgentStores * W :=
  fold_left (λ w a,
    match a with
    | submits req => (final port (submitTurn cancelsTurns req) w).2
    | observes => (final port (observeTurn guardedSaves (turn_id t)) w).2
    | reconciles => (final port (reconcileSession (turn_sessionId t)) w).2
    end) later w.

(** The turn is where it was, and its session is live, at the generation [g]. *)
Record blocked (w0 : AgentStores) (g : Z) (w : AgentStores) : Prop := {
  blocked_turns : turns w = turns w0;
  blocked_commands : byCommand w = byCommand w0;
  blocked_session : ∃ s, sessions w !! turn_sessionId t = Some s ∧
    isTerminalSession (status s) = false ∧ cancellationGeneration s = g
}.

Context (w0 : AgentStores) (g : Z).
Hypothesis Hturn : turns w0 !! turn_id t = Some t.
Hypothesis Hlive : isTerminalTurn (turn_status t) = false.
Hypothesis Hprov : providerTurnId t = None.
Hypothesis Hlen : len_between 1 128 (turn_id t) = true.

(** A submission ends in an error, or in the answer of a turn its command already has. *)
Lemma blocked_submit w req :
  blocked w0 g w.1 → sub_sessionId req = turn_sessionId t →
  ∃ o, final port (submitTurn cancelsTurns req) w = (o, w) ∧
    (byCommand w0 !! commandId req = None → ∃ e, o = Threw e ∧
       (submitAgentTurnSchema req = true → expectedCancellationGeneration req = g →
        (sub_purpose req = REQUIRED_ACTION_RESULT → linkedPausedTurnId req ≠ None) →
        e = GuardError "SESSION_TURN_ACTIVE")).
Proof.
  destruct w as [w x]. cbn [fst]. intros [Ht Hc (s & Hs & Hterm & Hgen)] Hsid. unfold submitTurn.
  destruct (submitAgentTurnSchema req); cbn [negb]; [|eexists; split; [done|]; intros _; by eexists].
  rewrite final_pbind. sess_call (session_port outside). cbn [session_port fst snd]. rewrite Hsid, Hs, Hterm.
  destruct (cancellationGeneration s =? expectedCancellationGeneration req) eqn:Hg; cbn [negb];
    [|eexists; split; [done|]; intros _; eexists; split; [done|]; intros _ Heq; apply Z.eqb_neq in Hg;
      congruence].
  destruct (bool_decide (sub_purpose req = REQUIRED_ACTION_RESULT) &&
            bool_decide (linkedPausedTurnId req = None)) eqn:Hlink.
  { breflect. eexists. split; [done|]. intros _. eexists. split; [done|]. naive_solver. }
  rewrite final_pbind. sess_call (session_port outside). cbn [session_port fst snd]. rewrite Hc.
  destruct (byCommand w0 !! commandId req) as [old|].
  { destruct (negb _); eexists; (split; [done|]); done. }
  rewrite final_pbind. sess_call (session_port outside). cbn [session_port fst snd].
  assert (Hpos : 1 ≤ countActive (turn_sessionId t) w)
    by (apply countActive_pos; [by rewrite Ht|done]).
  apply Z.leb_le in Hpos. rewrite Hpos. eexists. split; [done|]. intros _. by eexists.
Qed.

Lemma blocked_observe w :
  blocked w0 g w.1 →
  ∃ status, final port (observeTurn guardedSaves (turn_id t)) w =
    (Returned {| ob_turn := t; observation := status; ob_status := turn_status t;
                 summaryRef := None |}, w).
Proof.
  destruct w as [w x]. cbn [fst]. intros [Ht _ _]. unfold observeTurn. rewrite Hlen. cbn [negb].
  rewrite final_pbind. sess_call (session_port outside). cbn [session_port fst snd]. rewrite Ht, Hturn.
  unfold observe_provider. rewrite Hlive, Hprov. cbn [pret pbind]. rewrite Hlive. by eexists.
Qed.

Lemma blocked_reconcile w :
  blocked w0 g w.1 → blocked w0 g (final port (reconcileSession (turn_sessionId t)) w).2.1.
Proof.
  destruct w as [w x]. cbn [fst]. intros Hb. pose proof Hb as [Ht Hc (s & Hs & Hterm & Hgen)].
  unfold reconcileSession. destruct (negb _); [done|]. rewrite final_pbind.
  sess_call (session_port outside). cbn [session_port fst snd]. rewrite Hs, Hterm.
  rewrite final_pbind. sess_call (session_port outside). cbn [session_port fst snd].
  destruct (outside nowIso_ x) as [[now|e] x1]; [|done].
  rewrite final_pbind. sess_call (session_port outside). cbn [session_port fst snd].
  unfold save_session. destruct (match _ with Some _ => _ | None => _ end); [done|]. cbv zeta.
  unfold status_event, event_. rewrite final_pbind. sess_call (session_port outside). cbn [session_port fst snd].
  match goal with |- context [outside ?c x1] => destruct (outside c x1) as [o x2] end.
  match goal with |- blocked _ _ ?w' => assert (Hw : sessions w' !! turn_sessionId t = Some s ∨
    ∃ n, sessions w' !! turn_sessionId t = Some n ∧ status n = RECONCILING ∧
         cancellationGeneration n = cancellationGeneration s) end.
  { destruct (decide (id s = turn_sessionId t)) as [Heq|Hne]; destruct o; cbn.
    1,2: right; rewrite Heq, lookup_insert_eq; eexists; split_and!; reflexivity.
    1,2: left; by rewrite lookup_insert_ne. }
  destruct o; (split; [done|done|]);
    destruct Hw as [Hw|(n & Hw & Hst & Hn)];
    first [exists s; by split_and! | exists n; rewrite Hst; split_and!; [exact Hw|done|congruence]].
Qed.

Lemma blocked_forever later w :
  Forall concerns later → blocked w0 g w.1 → blocked w0 g (attempted later w).1.
Proof.
  revert w. induction later as [|a later IH]; intros w Hl Hb; [done|].
  apply Forall_cons in Hl as [Ha Hl]. apply IH; [done|]. destruct a as [req| |].
  - destruct (blocked_submit w req Hb Ha) as (o & -> & _). done.
  - destruct (blocked_observe w Hb) as (st & ->). done.
  - by apply blocked_reconcile.
Qed.
End Orphans.

(* @prop invariant 9.473 : submitTurn observeTurn observe_provider reconcileSession isTerminalTurn isTerminalSession countActive save_session / orphan_turn_blocks_witness *)
(** C40. A turn that is not over and never learned its provider's name -- requested or submitting,
    as after a crash or a thrown call -- stops its session, however often one tries.  After any
    number of submissions for that session (whatever they ask for, answers to a required action
    included), observations of the turn and reconciliations of the session, in any order and each
    run to its end: no turn and no command was recorded or changed, and so every submission of a
    command without a turn is again refused -- because a turn is active, when it is well formed,
    names the current generation and links what it must -- and observing the turn again asks no
    provider, answers the turn as it was and changes nothing.  (Cancelling the session is not
    among the attempts.) *)
Theorem orphan_turn_blocks `{Digest} {W} (outside : ∀ c, W → outcome (SessionAns c) * W)
    cancelsTurns guardedSaves w x t s :
  turns w !! turn_id t = Some t → isTerminalTurn (turn_status t) = false → providerTurnId t = None →
  len_between 1 128 (turn_id t) = true →
  sessions w !! turn_sessionId t = Some s → isTerminalSession (status s) = false →
  ∀ later, Forall (concerns t) later →
  let port := session_port outside in
  let w' := attempted outside cancelsTurns guardedSaves t later (w, x) in
  turns w'.1 = turns w ∧ byCommand w'.1 = byCommand w ∧
  (∀ req, sub_sessionId req = turn_sessionId t → byCommand w !! commandId req = None →
     ∃ e, final port (submitTurn cancelsTurns req) w' = (Threw e, w') ∧
       (submitAgentTurnSchema req = true →
        expectedCancellationGeneration req = cancellationGeneration s →
        (sub_purpose req = REQUIRED_ACTION_RESULT → linkedPausedTurnId req ≠ None) →
        e = GuardError "SESSION_TURN_ACTIVE")) ∧
  ∃ status, final port (observeTurn guardedSaves (turn_id t)) w' =
    (Returned {| ob_turn := t; observation := status; ob_status := turn_status t;
                 summaryRef := None |}, w').
Proof.
  intros Ht Hlive Hprov Hlen Hs Hterm later Hlater port w'.
  assert (Hb : blocked t w (cancellationGeneration s) w'.1).
  { eapply blocked_forever; try done. split; [done|done|]. by exists s. }
  split_and!; [by apply Hb|by apply Hb| |by eapply blocked_observe].
  intros req Hsid Hnew.
  destruct (blocked_submit outside cancelsTurns t w _ Ht Hlive w' req Hb Hsid) as (o & Ho & Hr).
  destruct (Hr Hnew) as (e & -> & He). by exists e.
Qed.

(** ** One schedule *)

#[local] Instance plain_digest : Digest := λ s, s.

Definition hex64_a : string := "aaaaaaaaaaaaaaaaaaaaaaaaaaaaaaaaaaaaaaaaaaaaaaaaaaaaaaaaaaaaaaaa".

Definition sample_session : AgentSession :=
  {| id := "s"; workflowRunId := "w"; repositoryId := "r"; agentDefinitionId := "d";
     agentVersion := "1"; provider := "trueforge"; contractSnapshotDigest := hex64_a;
     providerSessionId := Some "ps"; providerThreadId := None; status := READY;
     currentTurnId := None; cancellationGeneration := 0; version := 1; startedAtIso := "";
     updatedAtIso := ""; commandKey := "k" |}.

Definition sample_stores (ts : gmap string AgentTurn) : AgentStores :=
  {| sessions := {["s" := sample_session]}; turns := ts; byCommand := ∅ |}.

Definition sample_submit : SubmitAgentTurn :=
  {| sub_sessionId := "s"; commandId := "c"; sub_purpose := WORKFLOW; workflowObjectiveRef := "o";
     workflowDefinitionVersion := "1"; policySnapshotRef := "p"; trustContextSnapshotRef := "t";
     sub_toolProfileId := "tp"; contextDigest := hex64_a; expectedVersion := 1;
     expectedCancellationGeneration := 0; linkedPausedTurnId := None |}.

(** A runtime that does what it is asked. *)
Definition good_runtime (c : SessionCall) (w : unit) : outcome (SessionAns c) * unit :=
  (match c return outcome (SessionAns c) with
   | s_get _ | s_find _ | s_save _ _ => Returned None
   | t_get _ | t_find _ => Returned None
   | t_countActive _ | t_nextOrdinal _ => Returned 0
   | t_save _ | emit_ _ _ _ => Returned ()
   | t_saveIfCurrent _ _ => Returned true
   | createSession_ _ _ => Returned (ok ("ps", None))
   | createTurn_ _ _ => Returned (ok "pt")
   | getTurnStatus_ _ _ => Returned (ok ("running", None))
   | cancelSession_ _ | cancelTurn_ _ _ => Returned (ok true)
   | nowIso_ => Returned "now"
   | randomUUID_ => Returned "turn-1"
   end, w).

Definition quiet {A} (p : proc SessionAns A) : proc SessionAns unit := p ;~ pret ().

(** The turn is submitted up to its second look at the session, the session is cancelled from
    beginning to end, and the turn goes on. *)
Definition cancel_in_between : list nat := repeat 0%nat 14 ++ repeat 1%nat 10 ++ repeat 0%nat 2.

(** A session that is cancelled can keep a running turn: between the turn's last look at its
    session and its unconditional save there is room for the whole cancellation. *)
Theorem cancelled_session_keeps_running_turn :
  ∃ w ts, rtc (pool_step (session_port good_runtime) (λ _ _, False))
    ((sample_stores ∅, ()),
     [([], quiet (submitTurn true sample_submit)); ([], quiet (cancelSession true true "s" 2))])
    (w, ts) ∧
  Forall (λ t, t.2 = Done (Returned ())) ts ∧
  status <$> sessions w.1 !! "s" = Some CANCELLED ∧
  turn_status <$> turns w.1 !! "turn-1" = Some t_RUNNING.
Proof.
  set (start := ((sample_stores ∅, ()),
     [([], quiet (submitTurn true sample_submit)); ([], quiet (cancelSession true true "s" 2))])).
  set (finish := schedule (session_port good_runtime) cancel_in_between start).
  exists finish.1, finish.2. split.
  - rewrite <- surjective_pairing. apply schedule_sound.
  - vm_compute. split_and!; [|done|done]. by repeat constructor.
Qed.

Definition orphan : AgentTurn :=
  {| turn_id := "turn-0"; turn_sessionId := "s"; ordinal := 1; purpose := WORKFLOW;
     turn_commandKey := "c0"; inputDigest := ""; toolProfileId := ""; turn_status := t_SUBMITTING;
     providerTurnId := None; providerTerminalReason := None; finalResponseDigest := None;
     errorCode := None; turn_startedAtIso := ""; completedAtIso := None; turn_version := Some 2 |}.

Lemma orphan_turn_blocks_witness :
  turns (attempted good_runtime true true orphan
    [submits sample_submit; observes; reconciles; submits sample_submit]
    (sample_stores {["turn-0" := orphan]}, ())).1 = {["turn-0" := orphan]}.
Proof.
  assert (Hl : Forall (concerns orphan)
    [submits sample_submit; observes; reconciles; submits sample_submit]) by by repeat constructor.
  exact (proj1 (orphan_turn_blocks good_runtime true true
    (sample_stores {["turn-0" := orphan]}) () orphan sample_session
    eq_refl eq_refl eq_refl eq_refl eq_refl eq_refl _ Hl)).
Defined.
