(* ===== verification/AgentContract.v ===== *)
(** * The contract with the agent runtime

    [packages/agent/src/]: the capabilities a runtime must have and the verdict over them
    ([capabilities.ts]), the machine of its compatibility ([compatibility.ts]), sealed contract
    snapshots and their verification ([snapshot.ts]), what is accepted from a provider
    ([mapper.ts], [redact.ts]), the verifier that probes a runtime ([verifier.ts], [ports.ts])
    and the gate before privileged work ([preflight.ts]). *)

From S2P Require Import Prelude JsString Effects JsDate Json Contracts CanonicalJson Schemas Regex.

(** ** Capabilities *)

(* @src packages/agent/src/capabilities.ts:14-33 AGENT_CAPABILITIES *)
Definition AGENT_CAPABILITIES : list string :=
  ["session_create"; "session_get"; "turn_create"; "turn_get"; "one_active_turn"; "event_stream";
   "event_cursor"; "event_delta"; "event_replay"; "mcp_interception"; "required_action_resume";
   "checkpoint_replay"; "sandbox"; "cancellation"; "subagents"; "context_compaction";
   "final_response"; "idempotency_semantics"].

(* @src packages/agent/src/capabilities.ts:45-54 MANDATORY_CAPABILITIES *)
Definition MANDATORY_CAPABILITIES : list string :=
  ["session_create"; "session_get"; "turn_create"; "turn_get"; "one_active_turn"; "event_stream";
   "mcp_interception"; "required_action_resume"].

(* @src packages/agent/src/capabilities.ts:57-59 OPTIONAL_CAPABILITIES *)
Definition OPTIONAL_CAPABILITIES : list string :=
  List.filter (λ n, negb (str_in n MANDATORY_CAPABILITIES)) AGENT_CAPABILITIES.

(* @src packages/agent/src/capabilities.ts:67-67 FATAL_PROVIDER_PROPERTIES *)
Definition FATAL_PROVIDER_PROPERTIES : list string := ["direct_mutative_github_tools"].

(* @src packages/agent/src/capabilities.ts:79-79 CapabilityVerdict *)
Inductive CapabilityVerdict := V_COMPATIBLE | V_DEGRADED | V_INCOMPATIBLE.

#[export] Instance CapabilityVerdict_eq_dec : EqDecision CapabilityVerdict.
Proof. solve_decision. Defined.

(* @src packages/agent/src/capabilities.ts:81-91 CapabilityEvaluation *)
Record CapabilityEvaluation := {
  verdict : CapabilityVerdict;
  missingMandatory : list string;
  missingOptional : list string;
  fatalPresent : list string;
  unknownClaims : list string
}.

(** The claims: a [Map] in the order of insertion. *)
Definition claims : Type := list (string * bool).

Definition claimed (c : claims) (name : string) : bool := bool_decide (assoc name c = Some true).

(** [l.length > 0] *)
Definition is_cons {A} (l : list A) : bool := match l with [] => false | _ => true end.

(* @src packages/agent/src/capabilities.ts:93-102 missingNames *)
Definition missingNames (c : claims) (expected : list string) : list string :=
  List.filter (λ n, negb (claimed c n)) expected.

(* @src packages/agent/src/capabilities.ts:108-157 evaluateCapabilities *)
Definition evaluateCapabilities (c : claims) (fatal : list string) : CapabilityEvaluation :=
  let mandatory := missingNames c MANDATORY_CAPABILITIES in
  let optional := missingNames c OPTIONAL_CAPABILITIES in
  let unknown := List.filter (λ n, negb (str_in n AGENT_CAPABILITIES)) (map fst c) in
  let known_fatal := List.filter (λ n, str_in n FATAL_PROVIDER_PROPERTIES) fatal in
  let answer v := {| verdict := v; missingMandatory := mandatory; missingOptional := optional;
                     fatalPresent := known_fatal; unknownClaims := unknown |} in
  if is_cons known_fatal then answer V_INCOMPATIBLE
  else if is_cons mandatory || is_cons unknown then answer V_INCOMPATIBLE
  else if is_cons optional then answer V_DEGRADED
  else answer V_COMPATIBLE.

(* @src packages/agent/src/capabilities.ts:159-161 isKnownCapability *)
Definition isKnownCapability (name : string) : bool := str_in name AGENT_CAPABILITIES.

(** ** Compatibility *)

(* @src packages/agent/src/compatibility.ts:21-30 CompatibilityStatus *)
Inductive CompatibilityStatus := UNVERIFIED | VERIFYING | COMPATIBLE | DEGRADED | INCOMPATIBLE | UNAVAILABLE.

#[export] Instance CompatibilityStatus_eq_dec : EqDecision CompatibilityStatus.
Proof. solve_decision. Defined.

Definition status_name (s : CompatibilityStatus) : string :=
  match s with
  | UNVERIFIED => "UNVERIFIED" | VERIFYING => "VERIFYING" | COMPATIBLE => "COMPATIBLE"
  | DEGRADED => "DEGRADED" | INCOMPATIBLE => "INCOMPATIBLE" | UNAVAILABLE => "UNAVAILABLE"
  end.

(* @src packages/agent/src/compatibility.ts:33-40 isOperational *)
Definition isOperational (s : CompatibilityStatus) : bool :=
  match s with COMPATIBLE | DEGRADED => true | _ => false end.

(* @src packages/agent/src/compatibility.ts:47-56 verdictToStatus *)
Definition verdictToStatus (v : CapabilityVerdict) : CompatibilityStatus :=
  match v with V_COMPATIBLE => COMPATIBLE | V_DEGRADED => DEGRADED | V_INCOMPATIBLE => INCOMPATIBLE end.

(* @src packages/agent/src/compatibility.ts:58-65 CompatibilityTrigger *)
Inductive CompatibilityTrigger :=
  begin_verify | verified_compatible | verified_degraded | verified_incompat | unavailable
| drift_degraded | drift_incompat.

#[export] Instance CompatibilityTrigger_eq_dec : EqDecision CompatibilityTrigger.
Proof. solve_decision. Defined.

(* @src packages/agent/src/compatibility.ts:67-92 LEGAL_EDGES *)
Definition LEGAL_EDGES (t : CompatibilityTrigger) : list (CompatibilityStatus * CompatibilityStatus) :=
  match t with
  | begin_verify => [(UNVERIFIED, VERIFYING); (INCOMPATIBLE, VERIFYING); (UNAVAILABLE, VERIFYING);
                     (DEGRADED, VERIFYING)]
  | verified_compatible => [(VERIFYING, COMPATIBLE)]
  | verified_degraded => [(VERIFYING, DEGRADED)]
  | verified_incompat => [(VERIFYING, INCOMPATIBLE)]
  | unavailable => [(VERIFYING, UNAVAILABLE); (COMPATIBLE, DEGRADED); (DEGRADED, UNAVAILABLE)]
  | drift_degraded => [(COMPATIBLE, DEGRADED)]
  | drift_incompat => [(COMPATIBLE, INCOMPATIBLE); (DEGRADED, INCOMPATIBLE)]
  end.

(** The status after, when the transition is allowed. *)
(* @src packages/agent/src/compatibility.ts:131-156 resolveEdge *)
Definition resolveEdge (from : CompatibilityStatus) (t : CompatibilityTrigger)
    (verificationRunId : option string) : option CompatibilityStatus :=
  if negb (bool_decide (t = begin_verify)) && negb (truthy verificationRunId) then None
  else match List.filter (λ e, bool_decide (e.1 = from)) (LEGAL_EDGES t) with
       | e :: _ => Some e.2
       | [] => None
       end.

(** ** Snapshots *)

Inductive AuthMode := server_secret | oauth | mtls.
Inductive Topology := hosted | local_ | shared.

Definition auth_name (a : AuthMode) : string :=
  match a with server_secret => "server_secret" | oauth => "oauth" | mtls => "mtls" end.
Definition topology_name (t : Topology) : string :=
  match t with hosted => "hosted" | local_ => "local" | shared => "shared" end.

(* @src packages/agent/src/snapshot.ts:37-46 ProviderIdentification *)
Record ProviderIdentification := {
  endpointIdentity : string;
  provider : string;
  serverVersion : string;
  sdkPackage : option string;
  sdkVersion : option string;
  sdkIntegrity : option string;
  authMode : option AuthMode;
  topology : option Topology
}.

(** The identification of a snapshot is the first eight of its members. *)
(* @src packages/agent/src/snapshot.ts:71-92 ContractSnapshot *)
Record ContractSnapshot := {
  snapshot_id : string;
  verificationRunId : string;
  identification : ProviderIdentification;
  suiteVersion : Z;
  capabilities : claims;
  fatalProperties : list string;
  status : CompatibilityStatus;
  failureReasons : list string;
  checkedAt : string;
  digest : string;
  staleAfterMs : Z
}.

(* @src packages/agent/src/snapshot.ts:21-21 AGENT_CAPABILITY_SUITE_VERSION *)
Definition AGENT_CAPABILITY_SUITE_VERSION : Z := 1.

(** A member that is left out when it is [undefined]. *)
Definition optional_member (k : string) (v : option string) : list (string * json) :=
  match v with Some s => [(k, JStr s)] | None => [] end.

Definition shape_json (i : ProviderIdentification) (suite : Z) (c : claims) (fatal : list string) : json :=
  JObj ([("endpointIdentity", JStr (endpointIdentity i)); ("provider", JStr (provider i));
         ("serverVersion", JStr (serverVersion i))] ++
        optional_member "sdkPackage" (sdkPackage i) ++ optional_member "sdkVersion" (sdkVersion i) ++
        optional_member "sdkIntegrity" (sdkIntegrity i) ++
        optional_member "authMode" (auth_name <$> authMode i) ++
        optional_member "topology" (topology_name <$> topology i) ++
        [("suiteVersion", JNum suite); ("capabilities", JObj (map (λ '(k, b), (k, JBool b)) c));
         ("fatalProperties", JArr (map JStr fatal))]).

(** The same serializer as that of the idempotency keys. *)
(* @src packages/agent/src/snapshot.ts:95-108 canonicalize *)
Definition canonicalize : json → string := canonicalJsonStringify.

Section Snapshots.
Context `{Digest} `{DateParse}.

(* @src packages/agent/src/snapshot.ts:115-129 snapshotDigest *)
Definition snapshotDigest (i : ProviderIdentification) (suite : Z) (c : claims) (fatal : list string) : string :=
  sha256 (canonicalize (shape_json i suite c fatal)).

(* @src packages/agent/src/snapshot.ts:132-139 verificationRunKey *)
Definition verificationRunKey (i : ProviderIdentification) (suite : Z) : string :=
  sha256 (canonicalize (JObj ([("endpointIdentity", JStr (endpointIdentity i));
    ("serverVersion", JStr (serverVersion i))] ++ optional_member "sdkIntegrity" (sdkIntegrity i) ++
    [("suiteVersion", JNum suite)]))).

(* @src packages/agent/src/snapshot.ts:145-147 snapshotId *)
Definition snapshotId (digest run : string) : string := sha256 (digest +s ":" +s run).

(* @src packages/agent/src/snapshot.ts:149-154 isSnapshotFresh *)
Definition isSnapshotFresh (s : ContractSnapshot) (now : Z) : bool :=
  match date_parse (checkedAt s) with
  | None => false
  | Some at_ => let age := now - at_ in (0 <=? age) && (age <=? staleAfterMs s)
  end.

Definition optional_len (a b : Z) (s : option string) : bool :=
  match s with Some s => len_between a b s | None => true end.

(* @src packages/agent/src/snapshot.ts:26-35 providerIdentificationSchema *)
Definition providerIdentificationSchema (i : ProviderIdentification) : bool :=
  len_between 1 256 (endpointIdentity i) && len_between 1 64 (provider i) &&
  len_between 1 128 (serverVersion i) && optional_len 1 128 (sdkPackage i) &&
  optional_len 1 128 (sdkVersion i) &&
  match sdkIntegrity i with Some s => hex64 s | None => true end.

(** Of a value with the members of a snapshot, what their schemas ask. *)
(* @src packages/agent/src/snapshot.ts:48-69 contractSnapshotSchema *)
Definition contractSnapshotSchema (s : ContractSnapshot) : bool :=
  hex64 (snapshot_id s) && id_schema (verificationRunId s) &&
  providerIdentificationSchema (identification s) &&
  (suiteVersion s =? AGENT_CAPABILITY_SUITE_VERSION) &&
  forallb (λ kv, len_between 1 64 kv.1) (capabilities s) &&
  forallb (len_between 1 64) (fatalProperties s) && forallb (len_between 1 200) (failureReasons s) &&
  hex64 (digest s) && (0 <? staleAfterMs s).

(* @src packages/agent/src/snapshot.ts:157-158 SnapshotIntegrityFailure *)
Inductive SnapshotIntegrityFailure := schema_invalid | digest_mismatch | identity_mismatch | status_mismatch.

Definition failure_name (f : SnapshotIntegrityFailure) : string :=
  match f with
  | schema_invalid => "schema_invalid" | digest_mismatch => "digest_mismatch"
  | identity_mismatch => "identity_mismatch" | status_mismatch => "status_mismatch"
  end.

(* @src packages/agent/src/snapshot.ts:173-209 verifySnapshotIntegrity *)
Definition verifySnapshotIntegrity (s : ContractSnapshot) (expected : option string)
  : option SnapshotIntegrityFailure :=
  if negb (contractSnapshotSchema s) then Some schema_invalid
  else if negb (snapshotDigest (identification s) (suiteVersion s) (capabilities s) (fatalProperties s) =s? digest s)
  then Some digest_mismatch
  else if match expected with Some e => negb (endpointIdentity (identification s) =s? e) | None => false end
  then Some identity_mismatch
  else if negb (bool_decide (verdictToStatus (verdict (evaluateCapabilities (capabilities s) (fatalProperties s)))
                             = status s))
  then Some status_mismatch
  else None.
End Snapshots.

(** ** What is accepted from a provider *)

Definition separated (l : list string) : re :=
  match l with
  | [] => Eps
  | a :: l => fold_left (λ r w, Seq [r; Opt (Cls (λ c, char_in "-_ ." c)); Lit w]) l (Lit a)
  end.

(** The names that occur in both patterns; the key pattern has two more. *)
(* @src packages/agent/src/redact.ts:10-11 SECRET_KEY_PATTERN *)
Definition SECRET_KEY_PATTERN : re :=
  fold_right Alt (Lit "token")
    [Lit "authorization"; Lit "proxy-authorization"; Lit "cookie"; Lit "set-cookie"; Lit "password"; Lit "passwd";
     separated ["client"; "secret"]; separated ["access"; "token"]; separated ["refresh"; "token"];
     separated ["auth"; "token"]; separated ["api"; "key"]; separated ["x"; "api"; "key"];
     separated ["private"; "key"]; Lit "signature"; Lit "integrity"; Lit "credentials"; Lit "secret"].

Definition inline_secret : re :=
  Seq [fold_right Alt (Lit "credentials")
         [Lit "authorization"; Lit "proxy-authorization"; Lit "cookie"; separated ["client"; "secret"];
          separated ["access"; "token"]; separated ["refresh"; "token"]; separated ["auth"; "token"];
          separated ["api"; "key"]; separated ["x"; "api"; "key"]; separated ["private"; "key"];
          Lit "password"; Lit "passwd"; Lit "secret"; Lit "token"; Lit "signature"; Lit "integrity"];
       StarCls is_space; Cls (λ c, char_in ":=" c); StarCls is_space;
       Opt (Cls (λ c, char_in ("'" +s String dquote "") c));
       PlusCls (λ c, negb (char_in ("'" +s String dquote (String (ascii_of_N 13) (String (ascii_of_N 10) ",;&"))) c))].

(* @src packages/agent/src/redact.ts:13-13 REDACTION_MASK *)
Definition REDACTION_MASK : string := "[REDACTED]".

(** The parts of a text between its matches, each match replaced by its own text. *)
Fixpoint weave (parts : list string) (between : list string) : string :=
  match parts, between with
  | p :: ps, b :: bs => p +s b +s weave ps bs
  | p :: _, [] => p
  | [], _ => ""
  end.

(** The pattern has no group, so the second argument of the replacer is the offset of the match. *)
(* @src packages/agent/src/redact.ts:21-26 redactInlineSecrets *)
Definition redactInlineSecrets (input : string) : string :=
  weave (re_parts inline_secret input)
    (map (λ h, num_to_string (hit_start h) +s " " +s REDACTION_MASK) (matchAll inline_secret input)).

(** The value and the budget left. *)
(* @src packages/agent/src/redact.ts:33-60 redactProviderPayload *)
Fixpoint redactProviderPayload (value : json) (depth : Z) (budget : Z) : json * Z :=
  if (8 <? depth) || (budget <=? 0) then (JStr REDACTION_MASK, budget) else
  match value with
  | JArr l =>
      let '(out, b) := (fix each (l : list json) (b : Z) : list json * Z :=
        match l with
        | [] => ([], b)
        | x :: l => let '(y, b) := redactProviderPayload x (depth + 1) b in
                    let '(ys, b) := each l b in (y :: ys, b)
        end) l (budget - 1) in
      (JArr out, b)
  | JObj l =>
      let '(out, b) := (fix each (l : list (string * json)) (b : Z) : list (string * json) * Z :=
        match l with
        | [] => ([], b)
        | (k, x) :: l =>
            let '(y, b) := if re_test SECRET_KEY_PATTERN k then (JStr REDACTION_MASK, b - 1)
                           else redactProviderPayload x (depth + 1) b in
            let '(ys, b) := each l b in ((k, y) :: ys, b)
        end) l budget in
      (JObj out, b)
  | _ => (value, budget - 1)
  end.

(* @src packages/agent/src/contracts.ts:16-21 isKnownProvider *)
Definition isKnownProvider (v : string) : bool := str_in v ["trueforge"].

Definition auth_of (s : string) : option AuthMode :=
  List.find (λ a, auth_name a =s? s) [server_secret; oauth; mtls].
Definition topology_of (s : string) : option Topology :=
  List.find (λ a, topology_name a =s? s) [hosted; local_; shared].

(** What the report says, with the endpoint that is known here. *)
(* @src packages/agent/src/mapper.ts:17-31 identificationReportSchema *)
Definition identificationReportSchema (endpoint : string) (raw : json) : option ProviderIdentification :=
  l ← p_strict ["provider"; "serverVersion"; "sdkPackage"; "sdkVersion"; "sdkIntegrity"; "authMode"; "topology";
                "metadata"] raw;
  p ← assoc "provider" l ≫= p_string (len_between 1 64);
  v ← assoc "serverVersion" l ≫= p_string (len_between 1 128);
  sp ← p_optional (p_string (len_between 1 128)) (assoc "sdkPackage" l);
  sv ← p_optional (p_string (len_between 1 128)) (assoc "sdkVersion" l);
  si ← p_optional (p_string hex64) (assoc "sdkIntegrity" l);
  a ← p_optional (p_enum auth_of) (assoc "authMode" l);
  t ← p_optional (p_enum topology_of) (assoc "topology" l);
  _ ← p_optional p_record (assoc "metadata" l);
  Some {| endpointIdentity := endpoint; provider := p; serverVersion := v; sdkPackage := sp; sdkVersion := sv;
          sdkIntegrity := si; authMode := a; topology := t |}.

(* @src packages/agent/src/mapper.ts:89-118 normalizeIdentification *)
Definition normalizeIdentification (raw : json) (endpoint expectedProvider : string)
  : outcome ProviderIdentification :=
  match identificationReportSchema endpoint raw with
  | None => Threw (PlainError "AGENT_RESPONSE_SCHEMA_REJECTED:identification violated pinned contract schema")
  | Some v =>
      if negb (isKnownProvider (provider v))
      then Threw (PlainError "AGENT_RESPONSE_SCHEMA_REJECTED:unsupported provider")
      else if negb (provider v =s? expectedProvider)
      then Threw (PlainError ("AGENT_RESPONSE_SCHEMA_REJECTED:provider mismatch (" +s provider v +s ")"))
      else Returned v
  end.

(* @src packages/agent/src/mapper.ts:34-41 probeResultSchema *)
Definition probeResultSchema (raw : json) : option (bool * list string * option string) :=
  l ← p_strict ["ok"; "verifiedCapabilities"; "detail"; "metadata"] raw;
  o ← assoc "ok" l ≫= p_bool;
  v ← match assoc "verifiedCapabilities" l with
      | None => Some []
      | Some (JArr l) => mapM (p_string (len_between 1 64)) l
      | Some _ => None
      end;
  d ← p_optional (p_string (λ s, str_length s <=? 400)) (assoc "detail" l);
  _ ← p_optional p_record (assoc "metadata" l);
  Some (o, v, d).

(** [/^[a-z][a-z0-9_]*$/] *)
Definition capability_name (s : string) : bool :=
  (str_length s <=? 64) &&
  match s with
  | String c rest => is_lower c && all_chars (λ c, is_lower c || is_digit c || Ascii.eqb c "_") rest
  | EmptyString => false
  end.

(** Whether the probe was ok, and the capabilities it verified; none when the schema rejects. *)
(* @src packages/agent/src/mapper.ts:74-86 normalizeProbeResult *)
Definition normalizeProbeResult (raw : json) : option (bool * list string) :=
  '(o, v, _) ← probeResultSchema raw; Some (o, List.filter capability_name v).

(* @src packages/agent/src/mapper.ts:59-68 ProviderErrorClassification *)
Record ProviderErrorClassification := {
  code : string;
  retryClass : string;
  causeSanitized : string
}.

(* @src packages/agent/src/mapper.ts:125-155 classifyProviderError *)
Definition classifyProviderError (raw : string) : ProviderErrorClassification :=
  let text := slice_to 200 (redactInlineSecrets raw) in
  let lower := toLowerCase raw in
  let has l := existsb (str_includes lower) l in
  let cls c r := {| code := c; retryClass := r; causeSanitized := text |} in
  if has ["401"; "403"; "unauthori"; "forbidden"; "denied"] then cls "AGENT_AUTH_DENIED" "no_retry"
  else if has ["429"; "too many requests"] ||
          re_test (Seq [Lit "rate"; Opt (Cls (λ c, negb (char_in (String (ascii_of_N 10) (String (ascii_of_N 13) "")) c)));
                        Lit "limit"]) lower
  then cls "PROVIDER_RATE_LIMITED" "reconcile_then_retry"
  else if has ["schema"; "contract"; "unexpected"; "unknown field"; "validation failed"]
  then cls "AGENT_RESPONSE_SCHEMA_REJECTED" "reconcile_then_retry"
  else if has ["econnreset"; "timeout"; "timed out"; "unavailable"; "network"; "dns"]
  then cls "PROVIDER_UNAVAILABLE" "safe_retry"
  else cls "DEPENDENCY_UNAVAILABLE" "reconcile_then_retry".

(** ** The verifier *)

(* @src packages/agent/src/events.ts:28-34 AGENT_EVENT_TYPES *)
Inductive AgentEvent :=
  | capabilitiesVerified (snapshotId run prov server : string) (st : CompatibilityStatus) (verified : list string)
      (at_ : string)
  | contractIncompatible (snapshotId prov server : string) (missing fatal : list string)
  | contractDrift (snapshotId expected observed reason : string)
  | verificationFailed (prov endpoint errorCode detail : string).

(** The schema of the payload, and of the aggregate the event is about. *)
(* @src packages/agent/src/events.ts:40-83 payloads *)
Definition event_ok (e : AgentEvent) : bool :=
  match e with
  | capabilitiesVerified id run p v _ names _ =>
      hex64 id && id_schema run && len_between 1 64 p && len_between 1 128 v && forallb (len_between 1 64) names
  | contractIncompatible id p v missing fatal =>
      hex64 id && len_between 1 64 p && len_between 1 128 v && forallb (len_between 1 64) missing &&
      forallb (len_between 1 64) fatal
  | contractDrift id expected observed reason =>
      hex64 id && hex64 expected && hex64 observed && (str_length reason <=? 200)
  | verificationFailed p endpoint c d =>
      len_between 1 64 p && len_between 1 256 endpoint && len_between 1 64 c && (str_length d <=? 400)
  end.

(* @src packages/agent/src/ports.ts:57-82 VERIFICATION_PROBE_SUITE *)
Definition VERIFICATION_PROBE_SUITE : list (string * list string) := [
  ("session_probe", ["session_create"; "session_get"; "one_active_turn"]);
  ("turn_probe", ["turn_create"; "turn_get"; "final_response"]);
  ("event_probe", ["event_stream"; "event_cursor"; "event_replay"; "event_delta"; "idempotency_semantics"]);
  ("interception_probe", ["mcp_interception"; "checkpoint_replay"; "cancellation"]);
  ("required_action_probe", ["required_action_resume"]);
  ("sandbox_probe", ["sandbox"]);
  ("context_probe", ["subagents"; "context_compaction"])].

(** The channel to the provider, the store of snapshots, the clock, the identifiers and the
    listener of events. *)
(* @src packages/agent/src/ports.ts:89-112 RawProviderChannel *)
Inductive Call :=
  | LoadCurrent (endpoint : string)
  | NowMs
  | NowIso
  | Identify
  | RunProbe (probe : string) (names : list string)
  | DetectsTools
  | NewUuid
  | RecordSnapshot (s : ContractSnapshot)
  | Emit (e : AgentEvent)
  | LiveIdentify.

Definition Ans (c : Call) : Type :=
  match c with
  | LoadCurrent _ => option ContractSnapshot
  | NowMs => Z
  | NowIso | NewUuid => string
  | Identify | RunProbe _ _ => json
  | DetectsTools => bool
  | RecordSnapshot _ | Emit _ => unit
  | LiveIdentify => ProviderIdentification
  end.

Definition zod_error : js_error := PlainError "ZodError".

(** An event is checked when it is made; [listening] is whether a listener is given. *)
(* @src packages/agent/src/events.ts:148-163 makeAgentEvent *)
Definition emit (listening : bool) (e : AgentEvent) : proc Ans unit :=
  if event_ok e then (if listening then call (Emit e) else pret tt) else throw zod_error.

(** [deps.emit?.(f(clock.nowIso()))]: without a listener nothing of it is evaluated. *)
(* @src packages/agent/src/verifier.ts:236-238 verify *)
Definition notify (listening : bool) (e : AgentEvent) : proc Ans unit :=
  if listening then _ <~ call NowIso;; emit true e else pret tt.

Definition lift {A} (o : outcome A) : proc Ans A := Done o.

Section Verifier.
Context `{Digest} `{DateParse} (registered_message : string → string).
(** [channel.endpointIdentity], [channel.provider], [staleAfterMs], and whether [emit] is given. *)
Context (endpoint channelProvider : string) (ttl : Z) (listening : bool).

Definition message_of (e : js_error) : string :=
  match e with GuardError c => registered_message c | PlainError m => m end.

(* @src packages/agent/src/verifier.ts:66-74 ContractVerifierResult *)
Record ContractVerifierResult := {
  v_snapshot : ContractSnapshot;
  v_status : CompatibilityStatus;
  v_verdict : CapabilityVerdict;
  reused : bool;
  runKey : string;
  failures : list string
}.

(** The names a probe is for are set from its own answer; the others it reports, unless they
    are set already. *)
(* @src packages/agent/src/verifier.ts:157-174 verify *)
Definition claims_after (names : list string) (answer : option (bool * list string)) (c : claims) : claims :=
  match answer with
  | None => fold_left (λ c n, set_key n false c) names c
  | Some (ok, verified) =>
      fold_left (λ c n, match assoc n c with Some _ => c | None => set_key n ok c end) verified
        (fold_left (λ c n, set_key n (ok && str_in n verified) c) names c)
  end.

(* @src packages/agent/src/verifier.ts:151-177 verify *)
Fixpoint probe_all (suite : list (string * list string)) (c : claims) (failed : list string)
  : proc Ans (claims * list string) :=
  match suite with
  | [] => pret (c, failed)
  | (probe, names) :: suite =>
      answer <~ ptry (raw <~ call (RunProbe probe names);; pret (Some raw)) (λ _, pret None);;
      match answer with
      | None => probe_all suite (claims_after names None c) (failed ++ [probe +s ":error"])
      | Some raw =>
          match normalizeProbeResult raw with
          | None => probe_all suite (claims_after names None c) (failed ++ [probe +s ":schema"])
          | Some (ok, verified) =>
              probe_all suite (claims_after names (Some (ok, verified)) c)
                (if ok then failed else failed ++ [probe +s ":not_ok"])
          end
      end
  end.

(* @src packages/agent/src/verifier.ts:322-361 outcomeEnvelope *)
Definition outcomeEnvelope (s : ContractSnapshot) : AgentEvent :=
  let i := identification s in
  if bool_decide (status s = INCOMPATIBLE)
  then contractIncompatible (snapshot_id s) (provider i) (serverVersion i)
         (map (slice_from 8) (List.filter (λ r, startsWith r "missing:") (failureReasons s))) (fatalProperties s)
  else capabilitiesVerified (snapshot_id s) (verificationRunId s) (provider i) (serverVersion i) (status s)
         (map fst (List.filter snd (capabilities s))) (checkedAt s).

(* @src packages/agent/src/verifier.ts:131-142 verify *)
Definition identify : proc Ans ProviderIdentification :=
  ptry (raw <~ call Identify;; lift (normalizeIdentification raw endpoint channelProvider))
    (λ e, let cls := classifyProviderError (message_of e) in
          _ <~ notify listening (verificationFailed channelProvider endpoint (code cls) (causeSanitized cls));;
          throw (GuardError (code cls))).

(* @src packages/agent/src/verifier.ts:179-187 verify *)
Definition detect_fatal : proc Ans (list string) :=
  ptry (b <~ call DetectsTools;; pret (if b : bool then FATAL_PROVIDER_PROPERTIES else []))
    (λ _, pret FATAL_PROVIDER_PROPERTIES).

(** The snapshot that a run seals. *)
(* @src packages/agent/src/verifier.ts:189-234 verify *)
Definition sealed (i : ProviderIdentification) (c : claims) (probeFailures fatal : list string) (run iso : string)
  : ContractSnapshot :=
  let e := evaluateCapabilities c fatal in
  let d := snapshotDigest i AGENT_CAPABILITY_SUITE_VERSION c fatal in
  {| snapshot_id := snapshotId d run; verificationRunId := run; identification := i;
     suiteVersion := AGENT_CAPABILITY_SUITE_VERSION; capabilities := c; fatalProperties := fatal;
     status := verdictToStatus (verdict e);
     failureReasons := take 64 (probeFailures ++ map (λ n, "missing:" +s n) (missingMandatory e) ++
                         map (λ n, "optional:" +s n) (missingOptional e) ++ fatalPresent e ++
                         map (λ n, "unknown:" +s n) (unknownClaims e));
     checkedAt := iso; digest := d; staleAfterMs := ttl |}.

(** A new run, once no snapshot is reused. *)
(* @src packages/agent/src/verifier.ts:130-248 verify *)
Definition verify_afresh : proc Ans ContractVerifierResult :=
  i <~ identify;;
  probed <~ probe_all VERIFICATION_PROBE_SUITE [] [];;
  let '(c, probeFailures) := probed in
  fatal <~ detect_fatal;;
  run <~ call NewUuid;;
  if negb (id_schema run) then throw zod_error else
  iso <~ call NowIso;;
  let s := sealed i c probeFailures fatal run iso in
  if negb (contractSnapshotSchema s) then throw zod_error else
  _ <~ call (RecordSnapshot s);;
  _ <~ notify listening (outcomeEnvelope s);;
  pret {| v_snapshot := s; v_status := status s; v_verdict := verdict (evaluateCapabilities c fatal);
          reused := false; runKey := verificationRunKey i AGENT_CAPABILITY_SUITE_VERSION;
          failures := failureReasons s |}.

(* @src packages/agent/src/verifier.ts:89-248 verify *)
Definition verify (force : bool) : proc Ans ContractVerifierResult :=
  current <~ call (LoadCurrent endpoint);;
  match current with
  | None => verify_afresh
  | Some s =>
      match verifySnapshotIntegrity s (Some endpoint) with
      | Some failure =>
          _ <~ notify listening (verificationFailed channelProvider endpoint "AGENT_SNAPSHOT_INTEGRITY_REJECTED"
                 ("AGENT_SNAPSHOT_INTEGRITY_REJECTED:" +s
                  failure_name failure));;
          verify_afresh
      | None =>
          if negb force && isOperational (status s) then
            now <~ call NowMs;;
            if isSnapshotFresh s now then
              pret {| v_snapshot := s; v_status := status s;
                      v_verdict := if bool_decide (status s = COMPATIBLE) then V_COMPATIBLE else V_DEGRADED;
                      reused := true; runKey := verificationRunKey (identification s) (suiteVersion s);
                      failures := failureReasons s |}
            else verify_afresh
          else verify_afresh
      end
  end.
End Verifier.

(** ** The gate before privileged work *)

Section Preflight.
Context `{Digest} `{DateParse}.
(** [channel.endpointIdentity], and whether a live identification and a listener are injected. *)
Context (endpoint : string) (has_live listening : bool).

(* @src packages/agent/src/preflight.ts:36-44 PreflightResult *)
Record PreflightResult := {
  ready : bool;
  p_status : CompatibilityStatus;
  reason : string;
  p_snapshot : option ContractSnapshot;
  driftDetected : bool;
  p_missingMandatory : list string;
  p_missingOptional : list string
}.

(* @src packages/agent/src/preflight.ts:177-179 mandatoryMissing *)
Definition mandatoryMissing (s : ContractSnapshot) : list string := missingNames (capabilities s) MANDATORY_CAPABILITIES.

(* @src packages/agent/src/preflight.ts:181-183 optionalMissing *)
Definition optionalMissing (s : ContractSnapshot) : list string := missingNames (capabilities s) OPTIONAL_CAPABILITIES.

(* @src packages/agent/src/preflight.ts:186-203 observedDigestFor *)
Definition observedDigestFor (s : ContractSnapshot) (live : ProviderIdentification) : string :=
  snapshotDigest live (suiteVersion s) (capabilities s) (fatalProperties s).

Definition not_ready (s : ContractSnapshot) (why : string) (drift : bool) : PreflightResult :=
  {| ready := false; p_status := status s; reason := why; p_snapshot := Some s; driftDetected := drift;
     p_missingMandatory := mandatoryMissing s; p_missingOptional := optionalMissing s |}.

Definition no_digest : string := join "" (repeat "0" 64).

(* @src packages/agent/src/preflight.ts:53-172 run *)
Definition run : proc Ans PreflightResult :=
  current <~ call (LoadCurrent endpoint);;
  match current with
  | None =>
      pret {| ready := false; p_status := UNVERIFIED;
              reason := "No agent contract snapshot exists for this endpoint."; p_snapshot := None;
              driftDetected := false; p_missingMandatory := MANDATORY_CAPABILITIES;
              p_missingOptional := OPTIONAL_CAPABILITIES |}
  | Some s =>
      match verifySnapshotIntegrity s (Some endpoint) with
      | Some f =>
          pret (not_ready s ("Contract snapshot failed integrity verification (" +s failure_name f +s ").") false)
      | None =>
          if negb (isOperational (status s)) then
            pret (not_ready s ("Contract snapshot is not operational (status " +s status_name (status s) +s ").") false)
          else
          now <~ call NowMs;;
          if negb (isSnapshotFresh s now)
          then pret (not_ready s "Contract snapshot is stale and must be reverified." false)
          else if is_cons (mandatoryMissing s) then
            pret (not_ready s ("A mandatory capability is unverified: " +s join ", " (mandatoryMissing s) +s ".") false)
          else
          live <~ (if has_live
                   then ptry (live <~ call LiveIdentify;;
                              let o := observedDigestFor s live in pret (negb (digest s =s? o), o))
                             (λ _, pret (true, no_digest))
                   else pret (false, digest s));;
          let '(drift, observed) := live : bool * string in
          if drift then
            _ <~ call NowIso;;
            _ <~ emit listening (contractDrift (snapshot_id s) (digest s) observed
                         "live runtime identification differs from the compatible snapshot");;
            pret (not_ready s "Contract drift detected; privileged execution is disabled until reverify." true)
          else
            pret {| ready := true; p_status := status s;
                    reason := if bool_decide (status s = COMPATIBLE)
                              then "Agent runtime contract verified and current."
                              else "Agent runtime contract verified with optional degradations.";
                    p_snapshot := Some s; driftDetected := false; p_missingMandatory := [];
                    p_missingOptional := optionalMissing s |}
      end
  end.
End Preflight.

(** ** The verdict *)

Lemma is_cons_false {A} (l : list A) : is_cons l = false ↔ l = [].
Proof. by destruct l. Qed.

Lemma missing_nil c names : missingNames c names = [] ↔ ∀ n, n ∈ names → claimed c n = true.
Proof.
  unfold missingNames. induction names as [|x names IH]; simpl.
  - split; [|done]. intros _ n Hn. by apply elem_of_nil in Hn.
  - destruct (claimed c x) eqn:E; simpl; [rewrite IH|].
    + split; [intros Hall n [->|]%elem_of_cons; auto|intros Hall n Hn; apply Hall; by right].
    + split; [done|]. intros Hall. specialize (Hall x (list_elem_of_here _ _)). congruence.
Qed.

(** What a verdict that lets the runtime be used stands for. *)
Record usable (c : claims) (fatal : list string) : Prop := {
  all_mandatory n : n ∈ MANDATORY_CAPABILITIES → claimed c n = true;
  no_fatal n : n ∈ fatal → n ∉ FATAL_PROVIDER_PROPERTIES;
  all_known n : n ∈ c.*1 → n ∈ AGENT_CAPABILITIES
}.

Lemma filter_none {A} (f : A → bool) l : List.filter f l = [] ↔ ∀ x, x ∈ l → f x = false.
Proof.
  induction l as [|y l IH]; simpl; [split; [|done]; intros _ x Hx; by apply elem_of_nil in Hx|].
  destruct (f y) eqn:E; [split; [done|intros Hall; specialize (Hall y (list_elem_of_here _ _)); congruence]|].
  rewrite IH. split; [intros Hall x [->|]%elem_of_cons; auto|intros Hall x Hx; apply Hall; by right].
Qed.

Lemma evaluate_usable c fatal : verdict (evaluateCapabilities c fatal) ≠ V_INCOMPATIBLE ↔ usable c fatal.
Proof.
  unfold evaluateCapabilities. destruct (is_cons (List.filter (λ n, str_in n FATAL_PROVIDER_PROPERTIES) fatal)) eqn:Ef.
  { split; [done|]. intros [_ Hf _]. apply not_false_iff_true in Ef. destruct Ef. apply is_cons_false, filter_none.
    intros n Hn. apply str_in_false. by apply Hf. }
  rewrite is_cons_false, filter_none in Ef.
  destruct (is_cons (missingNames c MANDATORY_CAPABILITIES)) eqn:Em; cbn [orb].
  { split; [done|]. intros [Hm _ _]. apply not_false_iff_true in Em. destruct Em.
    by apply is_cons_false, missing_nil. }
  rewrite is_cons_false, missing_nil in Em.
  destruct (is_cons (List.filter (λ n, negb (str_in n AGENT_CAPABILITIES)) (map fst c))) eqn:Eu.
  { split; [done|]. intros [_ _ Hk]. apply not_false_iff_true in Eu. destruct Eu. apply is_cons_false, filter_none.
    intros n Hn. apply negb_false_iff, str_in_spec. by apply Hk. }
  rewrite is_cons_false, filter_none in Eu. split; [intros _|by case_match].
  constructor; [done| |].
  - intros n Hn. apply str_in_false. by apply Ef.
  - intros n Hn. apply str_in_spec, negb_false_iff. by apply Eu.
Qed.

(** ** The digest determines what it seals *)

Definition members (i : ProviderIdentification) (suite : Z) (c : claims) (fatal : list string) : list (string * json) :=
  match shape_json i suite c fatal with JObj l => l | _ => [] end.

Lemma members_distinct i suite c fatal : NoDup (members i suite c fatal).*1.
Proof.
  destruct i as [? ? ? [] [] [] [] []]; apply (bool_decide_unpack _); reflexivity.
Qed.

Lemma canonical_members l l' k s :
  NoDup l.*1 → NoDup l'.*1 → canonicalize (JObj l) = canonicalize (JObj l') →
  assoc k l = Some (JStr s) → assoc k l' = Some (JStr s).
Proof.
  intros Hl Hl' Heq. unfold canonicalize in Heq. rewrite !canonicalJsonStringify_sorted in Heq.
  apply (inj stringify) in Heq. cbn [sort_keys] in Heq. injection Heq as Heq.
  assert (Hp : map (λ '(k, v), (k, sort_keys v)) l ≡ₚ map (λ '(k, v), (k, sort_keys v)) l')
    by (by rewrite <- (js_sort_perm by_key (map _ l)), Heq, js_sort_perm).
  intros Hin%assoc_elem. apply assoc_in; [done|].
  assert (Hin' : (k, JStr s) ∈ map (λ '(k, v), (k, sort_keys v)) l').
  { rewrite <- Hp. apply list_elem_of_fmap. exists (k, JStr s). by split. }
  apply list_elem_of_fmap in Hin' as ([k' v] & Hkv & Hin'). injection Hkv as -> Hv. by destruct v; try done; injection Hv as ->.
Qed.

Lemma identification_sealed i i' suite c fatal :
  canonicalize (shape_json i suite c fatal) = canonicalize (shape_json i' suite c fatal) → i = i'.
Proof.
  intros Heq.
  assert (Hk : ∀ k s, assoc k (members i suite c fatal) = Some (JStr s) ↔ assoc k (members i' suite c fatal) = Some (JStr s)).
  { intros k s. split; apply canonical_members; try apply members_distinct; [exact Heq|symmetry; exact Heq]. }
  assert (Hget : ∀ i, assoc "endpointIdentity" (members i suite c fatal) = Some (JStr (endpointIdentity i)) ∧
    assoc "provider" (members i suite c fatal) = Some (JStr (provider i)) ∧
    assoc "serverVersion" (members i suite c fatal) = Some (JStr (serverVersion i)) ∧
    assoc "sdkPackage" (members i suite c fatal) = JStr <$> sdkPackage i ∧
    assoc "sdkVersion" (members i suite c fatal) = JStr <$> sdkVersion i ∧
    assoc "sdkIntegrity" (members i suite c fatal) = JStr <$> sdkIntegrity i ∧
    assoc "authMode" (members i suite c fatal) = JStr <$> (auth_name <$> authMode i) ∧
    assoc "topology" (members i suite c fatal) = JStr <$> (topology_name <$> topology i)).
  { clear. intros [? ? ? [] [] [] [] []]; done. }
  assert (Hsome : ∀ (o o' : option string), (∀ s, JStr <$> o = Some (JStr s) ↔ JStr <$> o' = Some (JStr s)) → o = o').
  { clear. intros [a|] [b|] Ho; [pose proof (proj1 (Ho a) eq_refl) as He | pose proof (proj1 (Ho a) eq_refl) as He
      | pose proof (proj2 (Ho b) eq_refl) as He | done]; cbn in He; congruence. }
  destruct (Hget i) as (A1 & A2 & A3 & A4 & A5 & A6 & A7 & A8), (Hget i') as (B1 & B2 & B3 & B4 & B5 & B6 & B7 & B8).
  assert (Ho : ∀ k o o', assoc k (members i suite c fatal) = JStr <$> o → assoc k (members i' suite c fatal) = JStr <$> o' → o = o').
  { intros k o o' Ha Hb. apply Hsome. intros s. rewrite <- Ha, <- Hb. apply Hk. }
  assert (Hd : authMode i = authMode i').
  { assert (He : auth_name <$> authMode i = auth_name <$> authMode i') by (by eapply Ho).
    revert He. by destruct (authMode i) as [[]|], (authMode i') as [[]|]. }
  assert (Ht : topology i = topology i').
  { assert (He : topology_name <$> topology i = topology_name <$> topology i') by (by eapply Ho).
    revert He. by destruct (topology i) as [[]|], (topology i') as [[]|]. }
  pose proof (Ho _ (Some _) (Some _) A1 B1) as H1. pose proof (Ho _ (Some _) (Some _) A2 B2) as H2.
  pose proof (Ho _ (Some _) (Some _) A3 B3) as H3. pose proof (Ho _ _ _ A4 B4) as H4.
  pose proof (Ho _ _ _ A5 B5) as H5. pose proof (Ho _ _ _ A6 B6) as H6.
  destruct i, i'; cbn in *; congruence.
Qed.

Lemma integrity_ok `{Digest} s e : verifySnapshotIntegrity s (Some e) = None →
  contractSnapshotSchema s = true ∧
  snapshotDigest (identification s) (suiteVersion s) (capabilities s) (fatalProperties s) = digest s ∧
  endpointIdentity (identification s) = e ∧
  verdictToStatus (verdict (evaluateCapabilities (capabilities s) (fatalProperties s))) = status s.
Proof.
  unfold verifySnapshotIntegrity. destruct (contractSnapshotSchema s); [|done]. cbn [negb].
  destruct (_ =s? digest s) eqn:Ed; [|done]. cbn [negb].
  destruct (endpointIdentity _ =s? e) eqn:Ee; [|done]. cbn [negb].
  destruct (bool_decide _) eqn:Es; [|done]. breflect. done.
Qed.

Lemma digest_decides `{Digest} i i' suite c fatal : snapshotDigest i suite c fatal = snapshotDigest i' suite c fatal →
  i' = i ∨ ∃ a b : string, a ≠ b ∧ sha256 a = sha256 b.
Proof.
  intros Hd. destruct (decide (canonicalize (shape_json i suite c fatal) = canonicalize (shape_json i' suite c fatal)))
    as [Heq|Hne]; [left; by apply identification_sealed in Heq|right; by eexists _, _].
Qed.

(** What stands behind an answer that the runtime is ready. *)
Record proven `{Digest} `{DateParse} (endpoint : string) (s : ContractSnapshot) (now : Z) : Prop := {
  proven_endpoint : endpointIdentity (identification s) = endpoint;
  proven_digest : digest s = snapshotDigest (identification s) (suiteVersion s) (capabilities s) (fatalProperties s);
  proven_usable : usable (capabilities s) (fatalProperties s);
  proven_status : status s = COMPATIBLE ∨ status s = DEGRADED;
  proven_fresh : ∃ t, date_parse (checkedAt s) = Some t ∧ 0 ≤ now - t ≤ staleAfterMs s
}.

Lemma operational_usable s :
  verdictToStatus (verdict (evaluateCapabilities (capabilities s) (fatalProperties s))) = status s →
  isOperational (status s) = true →
  usable (capabilities s) (fatalProperties s) ∧ (status s = COMPATIBLE ∨ status s = DEGRADED).
Proof.
  intros <- Ho. split; [apply evaluate_usable|]; destruct (verdict _); try done; auto.
Qed.

Lemma fresh_spec `{DateParse} s now : isSnapshotFresh s now = true →
  ∃ t, date_parse (checkedAt s) = Some t ∧ 0 ≤ now - t ≤ staleAfterMs s.
Proof. unfold isSnapshotFresh. destruct (date_parse _) as [t|]; [|done]. intros Hf. breflect. by exists t. Qed.

(* @prop safety 7.55 : run verifySnapshotIntegrity snapshotDigest evaluateCapabilities isSnapshotFresh observedDigestFor mandatoryMissing *)
(** C32. Privileged work starts on proof only: whatever the store, the clock and the provider
    answer, the gate reports ready only for the snapshot that the store holds for this
    endpoint, whose digest seals its identity and claims, in which every mandatory capability
    is verified, no fatal property is present and every claim is known, which is operational
    and within its window of freshness; and when a live identification is made, the gate
    reports ready only if the runtime is the very one that was verified, in each of the eight
    fields of its identity, or two different texts have one digest. *)
Theorem ready_is_proven `{Digest} `{DateParse} endpoint live listening :
  ensures (λ _ _, True)
    (λ tr o, match o with
             | Returned r => ready r = true →
                 ∃ s now, p_snapshot r = Some s ∧ ev (LoadCurrent endpoint) (Returned (Some s)) ∈ tr ∧
                   ev NowMs (Returned now) ∈ tr ∧ proven endpoint s now ∧
                   (live = true → ∃ i, ev LiveIdentify (Returned i) ∈ tr ∧
                      (i = identification s ∨ ∃ a b, a ≠ b ∧ sha256 a = sha256 b))
             | Threw _ => True
             end) [] (run endpoint live listening).
Proof.
  unfold run. unfold call at 1. cbn [pbind]. split; [done|]. intros [[s|]|]; [| |done]; cbn [pbind]; [|done].
  destruct (verifySnapshotIntegrity s (Some endpoint)) eqn:Hv; [done|]. apply integrity_ok in Hv as (_ & Hd & He & Hst).
  destruct (isOperational (status s)) eqn:Ho; [|done]. cbn [negb]. destruct (operational_usable s Hst Ho) as [Hu Hs].
  unfold call at 1. cbn [pbind]. split; [done|]. intros [now|]; [|done]. cbn [pbind].
  destruct (isSnapshotFresh s now) eqn:Hf; [|done]. cbn [negb]. apply fresh_spec in Hf.
  destruct (is_cons _); [done|].
  assert (Hp : proven endpoint s now) by by constructor.
  destruct live.
  - unfold call at 1. cbn [pbind ptry]. split; [done|]. intros [i|]; cbn [pbind ptry].
    + cbn [pbind pret]. destruct (digest s =s? observedDigestFor s i) eqn:E; cbn [negb].
      * intros _. apply String.eqb_eq in E. rewrite <- Hd in E.
        exists s, now. split_and!; [done|set_solver|set_solver|done|]. intros _. exists i. split; [set_solver|].
        by eapply digest_decides.
      * unfold call at 1. cbn [pbind]. split; [done|]. intros [x|]; [|done]. cbn [pbind]. unfold emit.
        case_match; [|done]. destruct listening; [|done]. split; [done|]. by intros [].
    + unfold call at 1. cbn [pbind]. split; [done|]. intros [x|]; [|done]. cbn [pbind]. unfold emit.
      case_match; [|done]. destruct listening; [|done]. split; [done|]. by intros [].
  - cbn [pbind pret]. intros _. exists s, now. split_and!; [done|set_solver|set_solver|done|done].
Qed.

(** ** The probes *)

(** A probe that is for a capability was ok and reported it. *)
Definition evidence (tr : list (event Ans)) (n : string) : Prop :=
  ∃ probe names raw verified, ev (RunProbe probe names) (Returned raw) ∈ tr ∧
    (probe, names) ∈ VERIFICATION_PROBE_SUITE ∧ n ∈ names ∧
    normalizeProbeResult raw = Some (true, verified) ∧ n ∈ verified.

Lemma evidence_app tr tr' n : evidence tr n → evidence (tr ++ tr') n.
Proof. intros (p & ns & raw & v & Hin & ?). exists p, ns, raw, v. split; [set_solver|done]. Qed.

Lemma set_all {A} (f : string → A) names c n :
  assoc n (fold_left (λ c n, set_key n (f n) c) names c) = if str_in n names then Some (f n) else assoc n c.
Proof.
  revert c. induction names as [|m names IH]; intros c; [done|]. cbn [fold_left]. rewrite IH, assoc_set.
  destruct (str_in n names) eqn:E.
  - by replace (str_in n (m :: names)) with true by (symmetry; apply str_in_spec; right; by apply str_in_spec).
  - destruct (n =s? m) eqn:Em; breflect.
    + subst. by replace (str_in m (m :: names)) with true by (symmetry; apply str_in_spec; left).
    + replace (str_in n (m :: names)) with false; [done|]. symmetry. apply str_in_false.
      apply str_in_false in E. set_solver.
Qed.

Lemma keep_set (ok : bool) verified (c : claims) n b : assoc n c = Some b →
  assoc n (fold_left (λ c n, match assoc n c with Some _ => c | None => set_key n ok c end) verified c) = Some b.
Proof.
  revert c. induction verified as [|m verified IH]; intros c Hn; [done|]. cbn [fold_left]. apply IH.
  destruct (assoc m c) eqn:Em; [done|]. rewrite assoc_set. case_match eqn:E; [|done]. breflect. congruence.
Qed.

Lemma claims_after_spec names answer c n :
  (n ∈ names → assoc n (claims_after names answer c) =
     Some (match answer with Some (ok, verified) => ok && str_in n verified | None => false end)) ∧
  (∀ b, n ∉ names → assoc n c = Some b → assoc n (claims_after names answer c) = Some b).
Proof.
  split.
  - intros Hn%str_in_spec. destruct answer as [[ok verified]|]; cbn [claims_after]; [apply keep_set|];
      rewrite set_all, Hn; done.
  - intros b Hn%str_in_false Hc. destruct answer as [[ok verified]|]; cbn [claims_after]; [apply keep_set|];
      rewrite set_all, Hn; done.
Qed.

(** Some probe of the suite was ok and reported the name, for it or not. *)
Definition reported (tr : list (event Ans)) (n : string) : Prop :=
  ∃ probe names raw verified, ev (RunProbe probe names) (Returned raw) ∈ tr ∧
    (probe, names) ∈ VERIFICATION_PROBE_SUITE ∧
    normalizeProbeResult raw = Some (true, verified) ∧ n ∈ verified.

Lemma reported_app tr tr' n : reported tr n → reported (tr ++ tr') n.
Proof. intros (p & ns & raw & v & Hin & ?). exists p, ns, raw, v. split; [set_solver|done]. Qed.

(** Nothing is claimed but what was claimed before or is in an answer that is ok. *)
Lemma claims_after_true names answer c n : assoc n (claims_after names answer c) = Some true →
  assoc n c = Some true ∨ ∃ verified, answer = Some (true, verified) ∧ n ∈ verified.
Proof.
  destruct answer as [[ok verified]|]; cbn [claims_after].
  - match goal with |- context [fold_left ?f names c] => set (c1 := fold_left f names c) end. intros Hn. assert (H1 : assoc n c1 = Some true ∨ ok = true ∧ n ∈ verified).
    { revert Hn. generalize c1. clear. induction verified as [|m l IH]; intros c1 Hn; [by left|].
      cbn [fold_left] in Hn. apply IH in Hn as [Hn|[Hok Hn]]; [|right; split; [done|by right]].
      destruct (assoc m c1) eqn:Em; [by left|]. rewrite assoc_set in Hn. destruct (n =s? m) eqn:E; [|by left].
      breflect. injection Hn as ->. right. split; [done|]. rewrite E. left. }
    destruct H1 as [H1|[-> H1]]; [|right; by eexists]. subst c1. rewrite set_all in H1.
    destruct (str_in n names); [|by left]. injection H1 as H1. apply andb_true_iff in H1 as [-> H1].
    right. exists verified. split; [done|]. by apply str_in_spec.
  - intros Hn. rewrite set_all in Hn. destruct (str_in n names); [done|by left].
Qed.

Definition settled (names : list string) (c : claims) (tr : list (event Ans)) : Prop :=
  (∀ n, n ∈ names → ∃ b, assoc n c = Some b ∧ (b = true → evidence tr n)) ∧
  ∀ n, assoc n c = Some true → reported tr n.

Lemma settled_after done_ names answer c tr tr' :
  settled done_ c tr →
  (∀ n verified, n ∈ names → answer = Some (true, verified) → n ∈ verified → evidence (tr ++ tr') n) →
  (∀ n verified, answer = Some (true, verified) → n ∈ verified → reported (tr ++ tr') n) →
  settled (done_ ++ names) (claims_after names answer c) (tr ++ tr').
Proof.
  intros [Hs Hr] Hev Hrep. split.
  2: { intros n [Hn|(verified & Ha & Hn)]%claims_after_true; [by apply reported_app, Hr|by eapply Hrep]. }
  intros n Hn. destruct (claims_after_spec names answer c n) as [Hown Hother].
  destruct (decide (n ∈ names)) as [Hin|Hout].
  - eexists. split; [by apply Hown|]. destruct answer as [[[] verified]|]; [|done..].
    cbn [andb]. intros Hv%str_in_spec. by eapply Hev.
  - apply elem_of_app in Hn as [Hn|]; [|done]. destruct (Hs n Hn) as (b & Hb & He).
    exists b. split; [by apply Hother|]. intros Ht. by apply evidence_app, He.
Qed.

Lemma probe_all_ensures {A} P (Q : list (event Ans) → outcome A → Prop) suite done_ c failed tr f :
  (∀ tr probe names, P tr (RunProbe probe names)) →
  (∀ x, x ∈ suite → x ∈ VERIFICATION_PROBE_SUITE) → settled done_ c tr →
  (∀ tr' c' failed', settled (done_ ++ concat (map snd suite)) c' (tr ++ tr') → ensures P Q (tr ++ tr') (f (c', failed'))) →
  ensures P Q tr (pbind (probe_all suite c failed) f).
Proof.
  intros HP. revert done_ c failed tr. induction suite as [|[probe names] suite IH]; intros done_ c failed tr Hin Hs Hf.
  - specialize (Hf [] c failed). cbn [map concat] in Hf. rewrite !app_nil_r in Hf. by apply Hf.
  - cbn [probe_all]. unfold call at 1. cbn [pbind ptry]. split; [apply HP|].
    assert (Hgo : ∀ answer o failed', (∀ n verified, n ∈ names → answer = Some (true, verified) → n ∈ verified →
        evidence (tr ++ [ev (RunProbe probe names) o]) n) →
      (∀ n verified, answer = Some (true, verified) → n ∈ verified → reported (tr ++ [ev (RunProbe probe names) o]) n) →
      ensures P Q (tr ++ [ev (RunProbe probe names) o])
        (pbind (probe_all suite (claims_after names answer c) failed') f)).
    { intros answer o failed' Hev Hrep. eapply IH; [set_solver|by apply settled_after|].
      intros tr' c' f' Hs'. rewrite <- app_assoc in *. apply Hf. cbn [map concat snd].
      by rewrite <- app_assoc in Hs'. }
    intros [raw|e]; cbn [pbind ptry pret].
    + destruct (normalizeProbeResult raw) as [[ok verified]|] eqn:Hn; apply Hgo; [| |done|done].
      * intros n v Hname [= -> ->] Hv. exists probe, names, raw, v. split_and!; [set_solver|set_solver|done..].
      * intros n v [= -> ->] Hv. exists probe, names, raw, v. split_and!; [set_solver|set_solver|done..].
    + by apply Hgo.
Qed.

Lemma suite_covers n : n ∈ AGENT_CAPABILITIES → n ∈ concat (map snd VERIFICATION_PROBE_SUITE).
Proof.
  intros Hn. apply str_in_spec. revert n Hn. apply Forall_forall. apply (bool_decide_unpack _). vm_compute. reflexivity.
Qed.

Lemma normalized_endpoint raw endpoint p i : normalizeIdentification raw endpoint p = Returned i →
  endpointIdentity i = endpoint ∧ provider i = p.
Proof.
  unfold normalizeIdentification. destruct (identificationReportSchema endpoint raw) as [v|] eqn:Hv; [|done].
  case_match; [done|]. destruct (provider v =s? p) eqn:Hp; [|done]. intros [= <-]. apply String.eqb_eq in Hp. split; [|done].
  revert Hv. unfold identificationReportSchema. intros Hv.
  repeat (apply bind_Some in Hv as (? & _ & Hv)). by injection Hv as <-.
Qed.

(** What may be recorded, and when. *)
Definition may_record `{Digest} (endpoint : string) (tr : list (event Ans)) (c : Call) : Prop :=
  match c with
  | RecordSnapshot s =>
      verifySnapshotIntegrity s (Some endpoint) = None ∧
      (∀ n, claimed (capabilities s) n = true → reported tr n) ∧
      (∀ n, n ∈ AGENT_CAPABILITIES → claimed (capabilities s) n = true → evidence tr n) ∧
      (∀ n, n ∈ (capabilities s).*1 → n ∉ AGENT_CAPABILITIES → status s = INCOMPATIBLE) ∧
      (fatalProperties s = [] → ev DetectsTools (Returned false) ∈ tr)
  | _ => True
  end.

Definition verified `{Digest} `{DateParse} (endpoint : string) (tr : list (event Ans))
    (o : outcome ContractVerifierResult) : Prop :=
  match o with
  | Returned r =>
      if reused r
      then ∃ now, ev (LoadCurrent endpoint) (Returned (Some (v_snapshot r))) ∈ tr ∧
             ev NowMs (Returned now) ∈ tr ∧ proven endpoint (v_snapshot r) now
      else ev (RecordSnapshot (v_snapshot r)) (Returned ()) ∈ tr ∧ v_status r = status (v_snapshot r)
  | Threw _ => True
  end.

Lemma notify_ensures {A} P (Q : list (event Ans) → outcome A → Prop) tr listening e f :
  (∀ tr, P tr NowIso) → (∀ tr x, P tr (Emit x)) → (∀ tr x, Q tr (Threw x)) →
  (∀ tr', ensures P Q (tr ++ tr') (f ())) → ensures P Q tr (pbind (notify listening e) f).
Proof.
  intros HN HP HQ Hf. unfold notify. destruct listening; [|specialize (Hf []); by rewrite app_nil_r in Hf].
  unfold call at 1. cbn [pbind]. split; [apply HN|]. intros [x|]; [|apply HQ]. cbn [pbind]. unfold emit.
  case_match; [|apply HQ]. split; [apply HP|]. intros [[]|y]; [|apply HQ]. rewrite <- app_assoc. apply Hf.
Qed.

Section VerifierProof.
Context `{Digest} `{DateParse} (message : string → string) (endpoint p : string) (ttl : Z) (listening : bool).

Lemma identify_ensures {A} (f : _ → proc Ans A) Q tr :
  (∀ tr x, Q tr (Threw x)) →
  (∀ tr' i, endpointIdentity i = endpoint → ensures (may_record endpoint) Q (tr ++ tr') (f i)) →
  ensures (may_record endpoint) Q tr (pbind (identify message endpoint p listening) f).
Proof.
  intros HQ Hf. apply ensures_pbind, ensures_ptry. unfold call at 1. cbn [pbind]. split; [done|].
  assert (Hfail : ∀ e tr, ensures (may_record endpoint) (λ tr o, match o with
      | Returned a => ensures (may_record endpoint) Q tr (f a) | Threw e => Q tr (Threw e) end) tr
    (notify listening (verificationFailed p endpoint (code (classifyProviderError (message_of message e)))
       (causeSanitized (classifyProviderError (message_of message e))));~
     throw (GuardError (code (classifyProviderError (message_of message e)))))).
  { intros e tr'. apply notify_ensures; [done|done|intros; apply HQ|]. intros tr2. apply HQ. }
  intros [raw|e]; [|apply Hfail]. unfold lift. cbn [pbind]. destruct (normalizeIdentification raw endpoint p) as [i|e] eqn:Hn; [|apply Hfail].
  apply Hf. by apply normalized_endpoint in Hn as [-> _].
Qed.

Lemma sealed_verifies i c fs fatal run iso : endpointIdentity i = endpoint →
  contractSnapshotSchema (sealed ttl i c fs fatal run iso) = true →
  verifySnapshotIntegrity (sealed ttl i c fs fatal run iso) (Some endpoint) = None.
Proof.
  intros He Hs. unfold verifySnapshotIntegrity. rewrite Hs. cbn [negb sealed identification suiteVersion capabilities
    fatalProperties digest status]. rewrite !String.eqb_refl, He, String.eqb_refl. cbn [negb].
  by rewrite bool_decide_eq_true_2.
Qed.

Lemma verify_afresh_ensures tr :
  ensures (may_record endpoint) (verified endpoint) tr (verify_afresh message endpoint p ttl listening).
Proof.
  apply identify_ensures; [done|]. intros tr1 i Hi.
  apply (probe_all_ensures _ _ _ []); [done|done|by split; [intros n ?%elem_of_nil|]|]. intros tr2 c fs [Hset Hrep].
  assert (Hfatal : ∀ fatal tr3, (fatal = [] → ev DetectsTools (Returned false) ∈ tr3) →
    ensures (may_record endpoint) (verified endpoint) (((tr ++ tr1) ++ tr2) ++ tr3)
      (run <~ call NewUuid;; if negb (id_schema run) then throw zod_error else
       iso <~ call NowIso;;
       if negb (contractSnapshotSchema (sealed ttl i c fs fatal run iso)) then throw zod_error else
       call (RecordSnapshot (sealed ttl i c fs fatal run iso));~
       notify listening (outcomeEnvelope (sealed ttl i c fs fatal run iso));~
       pret {| v_snapshot := sealed ttl i c fs fatal run iso; v_status := status (sealed ttl i c fs fatal run iso);
               v_verdict := verdict (evaluateCapabilities c fatal); reused := false;
               runKey := verificationRunKey i AGENT_CAPABILITY_SUITE_VERSION;
               failures := failureReasons (sealed ttl i c fs fatal run iso) |})).
  { intros fatal tr3 Hdet. unfold call at 1. cbn [pbind]. split; [done|]. intros [run|]; [|done]. cbn [pbind].
    destruct (id_schema run); [|done]. cbn [negb]. unfold call at 1. cbn [pbind]. split; [done|].
    intros [iso|]; [|done]. cbn [pbind]. destruct (contractSnapshotSchema (sealed ttl i c fs fatal run iso)) eqn:Hs; [|done].
    cbn [negb]. unfold call at 1. cbn [pbind]. split.
    - pose proof (sealed_verifies i c fs fatal run iso Hi Hs) as Hver. split; [done|].
      apply integrity_ok in Hver as (_ & _ & _ & Hst). split_and!.
      + intros n Hc. unfold claimed in Hc. breflect. cbn [capabilities sealed] in Hc. apply Hrep in Hc.
        rewrite <- !app_assoc in *.
        apply (reported_app (tr ++ tr1 ++ tr2)) with (tr' := tr3 ++ [ev NewUuid (Returned run)] ++ [ev NowIso (Returned iso)]) in Hc.
        by rewrite <- !app_assoc in Hc.
      + intros n Hn Hc. unfold claimed in Hc. breflect. destruct (Hset n) as (b & Hb & Hev); [by apply suite_covers|].
        cbn [capabilities sealed] in Hc. rewrite Hb in Hc. injection Hc as ->. rewrite <- !app_assoc in *.
        apply (evidence_app (tr ++ tr1 ++ tr2)) with (tr' := tr3 ++ [ev NewUuid (Returned run)] ++ [ev NowIso (Returned iso)]) in Hev; [|done].
        by rewrite <- !app_assoc in Hev.
      + intros n Hn Hout. rewrite <- Hst. destruct (decide (verdict (evaluateCapabilities (capabilities (sealed ttl i c fs fatal run iso))
          (fatalProperties (sealed ttl i c fs fatal run iso))) = V_INCOMPATIBLE)) as [->|Hv]; [done|].
        apply evaluate_usable in Hv as [_ _ Hk]. by apply Hk in Hn.
      + intros Hf. set_solver.
    - intros [[]|]; [|done]. cbn [pbind].
      apply notify_ensures; [done..|]. intros tr4. cbn. split; [set_solver|done]. }
  unfold detect_fatal. unfold call at 1. cbn [pbind ptry]. split; [done|].
  intros [[]|x]; cbn [pbind ptry pret]; apply (Hfatal _ [_]); try done. intros _. by left.
Qed.
End VerifierProof.

(* @prop safety 7.6 : verify verify_afresh notify identify probe_all claims_after sealed detect_fatal verifySnapshotIntegrity evaluateCapabilities normalizeProbeResult normalizeIdentification *)
(** C33. A verification records what was probed: whatever the provider, the store and the clock
    answer, every recorded snapshot passes the verification that a loaded one must pass (schema,
    digest, endpoint, status of its claims); each name it claims as verified was reported by a
    probe of the fixed suite that was ok, and each of the known capabilities by one that is for
    it; a snapshot with a name that is no known capability -- a probe may report any, and it is
    recorded as verified -- is INCOMPATIBLE; and it is free of the fatal property only if the
    provider was asked and said so.  A result that is new was recorded; one that is reused is a
    fresh, operational and intact snapshot of the store. *)
Theorem verification_records_what_was_probed `{Digest} `{DateParse} message endpoint p ttl listening force :
  ensures (may_record endpoint) (verified endpoint) [] (verify message endpoint p ttl listening force).
Proof.
  unfold verify. unfold call at 1. cbn [pbind]. split; [done|].
  intros [[s|]|]; cbn [pbind]; [|apply verify_afresh_ensures|done].
  destruct (verifySnapshotIntegrity s (Some endpoint)) as [f|] eqn:Hv.
  - apply notify_ensures; [done..|]. intros tr'. apply verify_afresh_ensures.
  - apply integrity_ok in Hv as (_ & Hd & He & Hst).
    destruct (negb force && isOperational (status s)) eqn:Ho; [|apply verify_afresh_ensures].
    apply andb_true_iff in Ho as [_ Ho]. destruct (operational_usable s Hst Ho) as [Hu Hs].
    unfold call at 1. cbn [pbind]. split; [done|]. intros [now|]; [|done]. cbn [pbind].
    destruct (isSnapshotFresh s now) eqn:Hf; [|apply verify_afresh_ensures]. apply fresh_spec in Hf.
    cbn. exists now. split_and!; [set_solver|set_solver|by constructor].
Qed.

(** ** Redaction *)

(** No member with a secret name keeps its value. *)
Inductive masked : json → Prop :=
  | masked_null : masked JNull
  | masked_bool b : masked (JBool b)
  | masked_num n : masked (JNum n)
  | masked_str s : masked (JStr s)
  | masked_arr l : Forall masked l → masked (JArr l)
  | masked_obj l :
      Forall (λ kv, masked kv.2 ∧ (re_test SECRET_KEY_PATTERN kv.1 = true → kv.2 = JStr REDACTION_MASK)) l →
      masked (JObj l).

(** Whatever a provider sends, of whatever depth and size, the copy that may be logged or stored
    keeps no value under a name that looks secret, and its budget never grows. *)
Theorem payloads_are_masked value depth budget :
  masked (redactProviderPayload value depth budget).1 ∧ (redactProviderPayload value depth budget).2 ≤ budget.
Proof.
  revert depth budget. induction value as [| | | |l IH|l IH] using json_nested_ind; intros depth budget;
    cbn [redactProviderPayload]; (destruct (_ || _); [split; [constructor|cbn; lia]|]);
    try (split; [constructor|cbn; lia]).
  - set (each := fix each (l : list json) (b : Z) := _).
    assert (Hall : ∀ b, Forall masked (each l b).1 ∧ (each l b).2 ≤ b).
    { induction IH as [|x l Hx _ IHl]; intros b; cbn [each]; [split; [constructor|cbn; lia]|].
      destruct (redactProviderPayload x (depth + 1) b) as [y b1] eqn:E1. fold each.
      specialize (Hx (depth + 1) b). rewrite E1 in Hx. specialize (IHl b1).
      destruct (each l b1) as [ys b2]. cbn [fst snd] in *. split; [constructor; [apply Hx|apply IHl]|lia]. }
    specialize (Hall (budget - 1)). destruct (each l (budget - 1)) as [out b]. cbn [fst snd] in *.
    split; [constructor; apply Hall|lia].
  - set (each := fix each (l : list (string * json)) (b : Z) := _).
    assert (Hall : ∀ b, Forall (λ kv, masked kv.2 ∧ (re_test SECRET_KEY_PATTERN kv.1 = true →
        kv.2 = JStr REDACTION_MASK)) (each l b).1 ∧ (each l b).2 ≤ b).
    { induction IH as [|[k x] l Hx _ IHl]; intros b; cbn [each]; [split; [constructor|cbn; lia]|]. fold each.
      cbn [snd] in Hx. destruct (re_test SECRET_KEY_PATTERN k) eqn:Ek.
      - specialize (IHl (b - 1)). destruct (each l (b - 1)) as [ys b2]. cbn [fst snd] in *.
        split; [constructor; [split; [constructor|done]|apply IHl]|lia].
      - destruct (redactProviderPayload x (depth + 1) b) as [y b1] eqn:E1. specialize (Hx (depth + 1) b).
        rewrite E1 in Hx. specialize (IHl b1). destruct (each l b1) as [ys b2]. cbn [fst snd] in *.
        split; [constructor; [split; [apply Hx|intros He; cbn [fst] in He; congruence]|apply IHl]|lia]. }
    specialize (Hall budget). destruct (each l budget) as [out b]. cbn [fst snd] in *. split; [constructor; apply Hall|lia].
Qed.

(** The replacement names the offset of the match in place of the key, and a quoted key is not
    followed by a colon: a token in a JSON text stays. *)
Example inline_secrets :
  redactInlineSecrets "x token=abc" = "x 2 [REDACTED]" ∧
  let json_text := stringify (JObj [("access_token", JStr "abc")]) in redactInlineSecrets json_text = json_text.
Proof. vm_compute. done. Qed.

(** ** The machine *)

(** A snapshot that is compatible and stale must be verified again, which its machine does not
    allow. *)
Example compatible_is_never_verified_again : resolveEdge COMPATIBLE begin_verify (Some "run") = None.
Proof. reflexivity. Qed.

(** Without the evidence of a run no status is left but for the start of a verification. *)
Example only_evidence_moves_the_status from t to : resolveEdge from t None = Some to → t = begin_verify ∧ to = VERIFYING.
Proof. by destruct from, t; intros [= <-]. Qed.

(** ** One verification and the gate after it *)

#[local] Instance sample_digest : Digest := λ _, join "" (repeat "a" 64).
#[local] Instance sample_dates : DateParse := λ _, Some 1000.

Definition sample_report : json := JObj [("provider", JStr "trueforge"); ("serverVersion", JStr "1.2.3")].

(** A store that keeps what is recorded, and a provider whose probes verify all they are for,
    except the sandbox. *)
Definition sample_port (c : Call) (store : option ContractSnapshot) : outcome (Ans c) * option ContractSnapshot :=
  match c return outcome (Ans c) * _ with
  | LoadCurrent _ => (Returned store, store)
  | NowMs => (Returned 2000, store)
  | NowIso => (Returned "1970-01-01T00:00:01.000Z", store)
  | Identify => (Returned sample_report, store)
  | RunProbe _ names =>
      (Returned (JObj [("ok", JBool true);
        ("verifiedCapabilities", JArr (map JStr (List.filter (λ n, negb (n =s? "sandbox")) names)))]), store)
  | DetectsTools => (Returned false, store)
  | NewUuid => (Returned "01234567-89ab-4def-8123-456789abcdef", store)
  | RecordSnapshot s => (Returned (), Some s)
  | Emit _ => (Returned (), store)
  | LiveIdentify => (Threw (PlainError "offline"), store)
  end.

Definition sample_store : option ContractSnapshot :=
  (exec sample_port (verify (λ c, c) "local" "trueforge" 86400000 true false) None).2.

Example a_verified_runtime_is_ready :
  option_map status sample_store = Some DEGRADED ∧
  match (exec sample_port (run "local" false true) sample_store).1.1 with
  | Returned r => ready r = true ∧ p_missingOptional r = ["sandbox"]
  | Threw _ => False
  end ∧
  match (exec sample_port (run "local" true true) sample_store).1.1 with
  | Returned r => ready r = false ∧ driftDetected r = true
  | Threw _ => False
  end.
Proof. vm_compute. done. Qed.
