(* ===== verification/Workspace.v ===== *)
(** * Sandbox workspaces: the pure parts

    [packages/sandbox/src/workspaces/]: the lifecycle state machine ([fsm.ts]), lease fences
    ([fence.ts]), idempotency keys ([idempotency.ts]), checkout selectors ([selector.ts]), the
    capability gate ([capability-gate.ts]), the checkout plan ([safe-git.ts]) and the checkout
    verification ([verifier.ts]).  Regular expressions are written out over the characters, zod
    schemas as the boolean checks they declare. *)

From S2P Require Import Prelude JsString Effects Json.

Definition validation_failed : js_error := GuardError "VALIDATION_FAILED".

Definition key_char (c : ascii) : bool := is_alnum c || char_in "._-" c.

(** ** The state machine *)

Module Fsm.

(* @src packages/sandbox/src/workspaces/fsm.ts:12-22 WORKSPACE_STATUSES *)
Inductive WorkspaceStatus :=
  REQUESTED | PROVISIONING | CHECKING_OUT | VERIFYING | READY | DESTROYING | DESTROYED | FAILED
| QUARANTINED.

#[export] Instance WorkspaceStatus_eq_dec : EqDecision WorkspaceStatus.
Proof. solve_decision. Defined.

Definition status_name (s : WorkspaceStatus) : string :=
  match s with
  | REQUESTED => "REQUESTED" | PROVISIONING => "PROVISIONING" | CHECKING_OUT => "CHECKING_OUT"
  | VERIFYING => "VERIFYING" | READY => "READY" | DESTROYING => "DESTROYING"
  | DESTROYED => "DESTROYED" | FAILED => "FAILED" | QUARANTINED => "QUARANTINED"
  end.

(* @src packages/sandbox/src/workspaces/fsm.ts:33-35 isTerminalWorkspace *)
Definition isTerminalWorkspace (s : WorkspaceStatus) : bool := includes [DESTROYED] s.

(* @src packages/sandbox/src/workspaces/fsm.ts:38-40 workspaceCleanupRequired *)
Definition workspaceCleanupRequired (s : WorkspaceStatus) : bool :=
  includes [FAILED; QUARANTINED] s.

(* @src packages/sandbox/src/workspaces/fsm.ts:42-52 WorkspaceTrigger *)
Inductive WorkspaceTrigger :=
  begin_provisioning | provision_complete | checkout_complete | verify_ok | verify_fail | fail
| quarantine | begin_destroy | destroy_confirmed | destroy_uncertain.

#[export] Instance WorkspaceTrigger_eq_dec : EqDecision WorkspaceTrigger.
Proof. solve_decision. Defined.

Definition trigger_name (t : WorkspaceTrigger) : string :=
  match t with
  | begin_provisioning => "begin-provisioning" | provision_complete => "provision-complete"
  | checkout_complete => "checkout-complete" | verify_ok => "verify-ok"
  | verify_fail => "verify-fail" | fail => "fail" | quarantine => "quarantine"
  | begin_destroy => "begin-destroy" | destroy_confirmed => "destroy-confirmed"
  | destroy_uncertain => "destroy-uncertain"
  end.

Inductive GuardKey :=
  fenceValid | cancellationRequested | capabilitiesVerified | providerWorkspaceCreated
| safeCheckoutApplied | headMatchesResolvedSha | remoteIdentityVerified | attestationComplete
| verificationFailed | failureKnown | providerAmbiguity | providerProvesDestroyed
| cleanupAttemptsExhausted.

#[export] Instance GuardKey_eq_dec : EqDecision GuardKey.
Proof. solve_decision. Defined.

(** The guards as an object literal, the first entry of a key counting: [{...guards, key: v}]
    puts [(key, v)] in front. *)
(* @src packages/sandbox/src/workspaces/fsm.ts:59-73 WorkspaceTransitionGuards *)
Definition WorkspaceTransitionGuards : Type := list (GuardKey * bool).

(** A guard the caller left out is false. *)
(* @src packages/sandbox/src/workspaces/fsm.ts:81-83 g *)
Definition g (guards : WorkspaceTransitionGuards) (key : GuardKey) : bool :=
  match List.find (λ p, bool_decide (p.1 = key)) guards with
  | Some (_, v) => v
  | None => false
  end.

(* @src packages/sandbox/src/workspaces/fsm.ts:75-79 WorkspaceTransitionVerdict *)
Record WorkspaceTransitionVerdict := {
  allowed : bool;
  to : option WorkspaceStatus;
  reason : string;
}.

(* @src packages/sandbox/src/workspaces/fsm.ts:85-89 Edge *)
Record Edge := { edge_from : WorkspaceStatus; edge_to : WorkspaceStatus; guard : string }.

Definition edge (a b : WorkspaceStatus) (g : string) : Edge :=
  {| edge_from := a; edge_to := b; guard := g |}.

(* @src packages/sandbox/src/workspaces/fsm.ts:91-174 LEGAL_EDGES *)
Definition LEGAL_EDGES (t : WorkspaceTrigger) : list Edge :=
  match t with
  | begin_provisioning =>
      [edge REQUESTED PROVISIONING
         "fence valid + no cancellation + capabilities/isolation verified"]
  | provision_complete =>
      [edge PROVISIONING CHECKING_OUT
         "fence valid + provider workspace created under stable idempotency key"]
  | checkout_complete =>
      [edge CHECKING_OUT VERIFYING
         "fence valid + safe checkout plan applied + observed HEAD captured"]
  | verify_ok =>
      [edge VERIFYING READY
         "fence valid + exact SHA equality + remote identity + attestation complete"]
  | verify_fail =>
      [edge VERIFYING QUARANTINED "checkout mismatch observed; workspace must never be used"]
  | fail =>
      [edge REQUESTED FAILED "known, non-ambiguous normalized failure";
       edge PROVISIONING FAILED "known, non-ambiguous normalized failure";
       edge CHECKING_OUT FAILED "known, non-ambiguous normalized failure";
       edge VERIFYING FAILED "known, non-ambiguous normalized failure (e.g. REF_CHANGED)"]
  | quarantine =>
      [edge PROVISIONING QUARANTINED "provider create/inspect outcome ambiguous";
       edge CHECKING_OUT QUARANTINED "provider checkout outcome ambiguous";
       edge VERIFYING QUARANTINED "provider verification outcome ambiguous";
       edge DESTROYING QUARANTINED "destruction attempts exhausted, still unproven"]
  | begin_destroy =>
      [edge REQUESTED DESTROYING "fence valid or durable cancellation; lifecycle end";
       edge PROVISIONING DESTROYING "fence valid or durable cancellation";
       edge CHECKING_OUT DESTROYING "fence valid or durable cancellation";
       edge VERIFYING DESTROYING "fence valid or durable cancellation";
       edge READY DESTROYING "fence valid or durable cancellation; run complete";
       edge FAILED DESTROYING "durable cleanup of failed workspace";
       edge QUARANTINED DESTROYING "retry destruction of quarantined workspace"]
  | destroy_confirmed =>
      [edge DESTROYING DESTROYED "provider proves workspace is gone (inspection, not assumption)"]
  | destroy_uncertain =>
      [edge DESTROYING QUARANTINED
         "provider cannot prove destruction after exhausted attempts; never claim cleaned"]
  end.

(* @src packages/sandbox/src/workspaces/fsm.ts:176-181 isLegalWorkspaceEdge *)
Definition isLegalWorkspaceEdge (from : WorkspaceStatus) (t : WorkspaceTrigger) : option Edge :=
  List.find (λ e, bool_decide (edge_from e = from)) (LEGAL_EDGES t).

(** The guard of a trigger and the reason of its refusal. *)
(* @src packages/sandbox/src/workspaces/fsm.ts:197-249 resolveWorkspaceEdge *)
Definition guard_of (t : WorkspaceTrigger) (guards : WorkspaceTransitionGuards) : bool * string :=
  match t with
  | begin_provisioning =>
      (g guards fenceValid && negb (g guards cancellationRequested) && g guards capabilitiesVerified,
       "fence, cancellation, or capability/isolation proof missing")
  | provision_complete =>
      (g guards fenceValid && negb (g guards cancellationRequested) && g guards providerWorkspaceCreated,
       "fence or stable provider creation not proven")
  | checkout_complete =>
      (g guards fenceValid && negb (g guards cancellationRequested) && g guards safeCheckoutApplied,
       "fence or safe checkout application not proven")
  | verify_ok =>
      (g guards fenceValid && negb (g guards cancellationRequested) && g guards headMatchesResolvedSha &&
       g guards remoteIdentityVerified && g guards attestationComplete,
       "READY requires exact SHA equality, remote identity, and attestation")
  | verify_fail => (g guards verificationFailed, "verification failure not observed")
  | fail =>
      (g guards failureKnown && (g guards fenceValid || g guards cancellationRequested),
       "known failure with valid fence or cancellation required")
  | quarantine => (g guards providerAmbiguity, "provider outcome ambiguity not established")
  | begin_destroy =>
      (g guards fenceValid || g guards cancellationRequested,
       "begin-destroy requires a valid fence or durable cancellation")
  | destroy_confirmed =>
      (g guards providerProvesDestroyed, "provider must prove absence before DESTROYED")
  | destroy_uncertain =>
      (negb (g guards providerProvesDestroyed) && g guards cleanupAttemptsExhausted,
       "destruction uncertainty requires exhausted cleanup attempts")
  end.

(* @src packages/sandbox/src/workspaces/fsm.ts:184-258 resolveWorkspaceEdge *)
Definition resolveWorkspaceEdge (from : WorkspaceStatus) (t : WorkspaceTrigger)
    (guards : WorkspaceTransitionGuards) : WorkspaceTransitionVerdict :=
  if isTerminalWorkspace from then
    {| allowed := false; to := None;
       reason := "workspace is terminal in '" +s status_name from +s "'" |}
  else match isLegalWorkspaceEdge from t with
  | None =>
      {| allowed := false; to := None;
         reason := "illegal transition " +s status_name from +s " --" +s trigger_name t +s
                   "--> (none)" |}
  | Some e =>
      let '(ok, why) := guard_of t guards in
      {| allowed := ok; to := Some (edge_to e);
         reason := if ok then "guard satisfied" else guard e +s "; " +s why |}
  end.

(* @src packages/sandbox/src/workspaces/fsm.ts:264-276 transitionWorkspace *)
Definition transitionWorkspace (from : WorkspaceStatus) (t : WorkspaceTrigger)
    (guards : WorkspaceTransitionGuards) : outcome WorkspaceStatus :=
  let v := resolveWorkspaceEdge from t guards in
  match to v with
  | Some s => if allowed v then Returned s else Threw (GuardError "WORKSPACE_ILLEGAL_TRANSITION")
  | None => Threw (GuardError "WORKSPACE_ILLEGAL_TRANSITION")
  end.

(** One step of the machine. *)
Inductive step (from : WorkspaceStatus) : WorkspaceStatus → Prop :=
  step_edge t guards s : transitionWorkspace from t guards = Returned s → step from s.

Lemma transition_inv from t guards s :
  transitionWorkspace from t guards = Returned s →
  (guard_of t guards).1 = true ∧ ∃ e, e ∈ LEGAL_EDGES t ∧ edge_from e = from ∧ edge_to e = s.
Proof.
  unfold transitionWorkspace, resolveWorkspaceEdge. destruct (isTerminalWorkspace from); [done|].
  destruct (isLegalWorkspaceEdge from t) as [e|] eqn:He; [|done].
  destruct (guard_of t guards) as [[] why]; [|done]. intros [= <-]. split; [done|].
  apply find_some_elem in He as [He Hf]. breflect. eauto.
Qed.

Lemma step_edges from s :
  step from s → ∃ t e, e ∈ LEGAL_EDGES t ∧ edge_from e = from ∧ edge_to e = s.
Proof. intros [t guards s' H]. apply transition_inv in H as (_ & e & He). eauto. Qed.

(** The states from which READY is still possible. *)
Definition fresh : list WorkspaceStatus := [REQUESTED; PROVISIONING; CHECKING_OUT; VERIFYING; READY].

Lemma step_back from s : step from s → s ∈ fresh → from ∈ fresh.
Proof.
  intros (t & e & He & <- & <-)%step_edges. destruct t; in_cases He; subst e; simpl; set_solver.
Qed.

(** The life of a sandbox workspace: READY is entered only from VERIFYING with a valid fence,
    no cancellation, the exact head, the remote identity and the attestation proven, and
    DESTROYED only from DESTROYING with the provider's proof; nothing leaves DESTROYED; a
    workspace that failed, was quarantined or began to be destroyed never becomes READY again;
    and from every state DESTROYED can still be reached. *)
Theorem workspace_lifecycle :
  (∀ from t gs, transitionWorkspace from t gs = Returned READY →
     from = VERIFYING ∧ g gs fenceValid = true ∧ g gs cancellationRequested = false ∧
     g gs headMatchesResolvedSha = true ∧ g gs remoteIdentityVerified = true ∧
     g gs attestationComplete = true) ∧
  (∀ from t gs, transitionWorkspace from t gs = Returned DESTROYED →
     from = DESTROYING ∧ g gs providerProvesDestroyed = true) ∧
  (∀ s, ¬ step DESTROYED s) ∧
  (∀ s, rtc step s READY → s ∈ fresh) ∧
  (∀ s, rtc step s DESTROYED).
Proof.
  split_and!.
  - intros from t gs (Hg & e & He & <- & Hto)%transition_inv.
    destruct t; in_cases He; subst e; try done. simpl in Hg. by breflect.
  - intros from t gs (Hg & e & He & <- & Hto)%transition_inv.
    destruct t; in_cases He; subst e; done.
  - intros s (t & e & He & Hf & _)%step_edges. destruct t; in_cases He; by subst e.
  - intros s Hs. remember READY as x eqn:Hx. assert (Hr : x ∈ fresh) by (subst; set_solver).
    clear Hx. induction Hs as [x|x y z Hxy _ IH]; [done|]. eapply step_back; eauto.
  - assert (Hend : rtc step DESTROYING DESTROYED).
    { apply rtc_once. by apply (step_edge _ destroy_confirmed [(providerProvesDestroyed, true)]). }
    assert (Hbegin : ∀ s, isLegalWorkspaceEdge s begin_destroy = Some (edge s DESTROYING
      (default "" (guard <$> isLegalWorkspaceEdge s begin_destroy))) →
      isTerminalWorkspace s = false → rtc step s DESTROYED).
    { intros s He Ht. eapply rtc_l; [|exact Hend].
      apply (step_edge _ begin_destroy [(fenceValid, true)]).
      unfold transitionWorkspace, resolveWorkspaceEdge. by rewrite Ht, He. }
    intros []; first [exact Hend | by apply Hbegin | apply rtc_refl].
Qed.
End Fsm.

(** ** Fences *)

(* @src packages/sandbox/src/workspaces/fence.ts:15-21 WorkspaceFence *)
Record WorkspaceFence := {
  workspaceId : string;
  runId : string;
  generation : Z;
  leaseToken : string;
  leaseExpiresAtMs : Z;
}.

(* @src packages/sandbox/src/workspaces/fence.ts:51-53 isLeaseExpired *)
Definition isLeaseExpired (f : WorkspaceFence) (nowMs : Z) : bool := leaseExpiresAtMs f <=? nowMs.

(* @src packages/sandbox/src/workspaces/fence.ts:59-79 assertFenceCurrent *)
Definition assertFenceCurrent (expected actual : WorkspaceFence) (nowMs : Z) : outcome unit :=
  let rejected := Threw (GuardError "WORKSPACE_FENCE_REJECTED") in
  if negb (workspaceId expected =s? workspaceId actual) then rejected
  else if negb (runId expected =s? runId actual) then rejected
  else if negb (generation expected =? generation actual) then rejected
  else if negb (leaseToken expected =s? leaseToken actual) then rejected
  else if isLeaseExpired actual nowMs then rejected
  else Returned tt.

(** ** Idempotency keys *)

(** [/^[A-Za-z0-9._-]{1,64}$/]. *)
Definition key_part (s : string) : bool := chars_between key_char 1 64 s.

(* @src packages/sandbox/src/workspaces/idempotency.ts:14-19 workspaceCreationKey *)
Definition workspaceCreationKey (run : string) (gen : Z) : outcome string :=
  if key_part run then Returned ("devguard/workspace/" +s run +s "/v" +s num_to_string gen)
  else Threw (PlainError "runId shape is not usable in an idempotency key").

(* @src packages/sandbox/src/workspaces/idempotency.ts:21-26 workspaceDestroyKey *)
Definition workspaceDestroyKey (workspace : string) (gen : Z) : outcome string :=
  if key_part workspace then
    Returned ("devguard/workspace/" +s workspace +s ":destroy:v" +s num_to_string gen)
  else Threw (PlainError "workspaceId shape is not usable in an idempotency key").

(** [v\d+]. *)
Definition version_part (s : string) : bool :=
  match s with
  | String c d => Ascii.eqb c "v" && nonempty d && all_chars is_digit d
  | EmptyString => false
  end.

(* @src packages/sandbox/src/workspaces/idempotency.ts:28-30 isWorkspaceCreationKey *)
Definition isWorkspaceCreationKey (value : string) : bool :=
  match split_char "/" value with
  | [a; b; run; v] => (a =s? "devguard") && (b =s? "workspace") && nonempty run &&
                      all_chars key_char run && version_part v
  | _ => false
  end.

(* @src packages/sandbox/src/workspaces/idempotency.ts:32-34 isWorkspaceDestroyKey *)
Definition isWorkspaceDestroyKey (value : string) : bool :=
  match split_char "/" value with
  | [a; b; c] =>
      (a =s? "devguard") && (b =s? "workspace") &&
      match split_char ":" c with
      | [w; d; v] => nonempty w && all_chars key_char w && (d =s? "destroy") && version_part v
      | _ => false
      end
  | _ => false
  end.

(* @src packages/sandbox/src/workspaces/idempotency.ts:37-41 assertWorkspaceKeyShape *)
Definition assertWorkspaceKeyShape (value : string) : outcome unit :=
  if negb (isWorkspaceCreationKey value) && negb (isWorkspaceDestroyKey value) then
    Threw (PlainError ("unexpected sandbox idempotency key shape: " +s
                       num_to_string (str_length value) +s " chars"))
  else Returned tt.

(** ** Selectors *)

(** [/^(?:[0-9a-f]{40}|[0-9a-f]{64})$/]. *)
(* @src packages/sandbox/src/workspaces/selector.ts:20-20 FULL_SHA_PATTERN *)
Definition full_sha (s : string) : bool :=
  all_chars lower_hex s && ((str_length s =? 40) || (str_length s =? 64)).

(** [/^[A-Za-z0-9._/][A-Za-z0-9._/-]{0,199}$/]. *)
(* @src packages/sandbox/src/workspaces/selector.ts:32-32 REF_NAME_PATTERN *)
Definition ref_name_pattern (s : string) : bool :=
  match s with
  | String c r => (is_alnum c || char_in "._/" c) &&
                  chars_between (λ d, is_alnum d || char_in "._/-" d) 0 199 r
  | EmptyString => false
  end.

(* @src packages/sandbox/src/workspaces/selector.ts:33-39 isSafeRefName *)
Definition isSafeRefName (name : string) : bool :=
  if negb (ref_name_pattern name) then false
  else if startsWith name "-" || startsWith name "?" then false
  else if str_includes name ".." || str_includes name "@{" || str_includes name "//" then false
  else if endsWith name "." || endsWith name ".lock" then false
  else true.

(* @src packages/sandbox/src/workspaces/selector.ts:47-55 CheckoutSelector *)
Inductive CheckoutSelector :=
  | commit (sha : string)
  | branch (name : string) (expectedSha : option string)
  | tag (name : string) (expectedSha : option string)
  | pull_request_head (number : Z) (expectedSha : option string).

Definition selector_kind (s : CheckoutSelector) : string :=
  match s with
  | commit _ => "commit" | branch _ _ => "branch" | tag _ _ => "tag"
  | pull_request_head _ _ => "pull_request_head"
  end.

(* @src packages/sandbox/src/workspaces/selector.ts:57-80 checkoutSelectorSchema *)
Definition selector_valid (s : CheckoutSelector) : bool :=
  let pinned (o : option string) := match o with Some sha => full_sha sha | None => true end in
  let ref_name n := (1 <=? str_length n) && (str_length n <=? 200) && isSafeRefName n in
  match s with
  | commit sha => full_sha sha
  | branch n e | tag n e => ref_name n && pinned e
  | pull_request_head n e => (0 <? n) && pinned e
  end.

(* @src packages/sandbox/src/workspaces/selector.ts:92-98 parseCheckoutSelector *)
Definition parseCheckoutSelector (s : CheckoutSelector) : outcome CheckoutSelector :=
  if selector_valid s then Returned s else Threw validation_failed.

(* @src packages/sandbox/src/workspaces/selector.ts:101-112 describeSelector *)
Definition describeSelector (s : CheckoutSelector) : string :=
  match s with
  | commit sha => "commit:" +s slice_to 12 sha
  | branch n _ => "branch:" +s n
  | tag n _ => "tag:" +s n
  | pull_request_head n _ => "pull_request_head:" +s num_to_string n
  end.

(* @src packages/sandbox/src/workspaces/selector.ts:115-125 ResolvedCheckout *)
Record ResolvedCheckout := {
  res_repositoryId : string;
  canonicalOwner : string;
  canonicalName : string;
  res_selector : CheckoutSelector;
  resolvedSha : string;
  remoteFingerprint : string;
  resolvedAtMs : Z;
}.

(** [/^[A-Za-z0-9_.-]{1,100}$/]. *)
(* @src packages/sandbox/src/workspaces/selector.ts:127-127 OWNER_NAME_PATTERN *)
Definition owner_name (s : string) : bool := chars_between key_char 1 100 s.

Definition last_char (s : string) : option ascii := first_char (str_rev s).
Definition char_is (p : ascii → bool) (o : option ascii) : bool :=
  match o with Some c => p c | None => false end.

(** [[A-Za-z0-9](?:[A-Za-z0-9._-]*[A-Za-z0-9])?]. *)
Definition host_name (s : string) : bool :=
  all_chars key_char s && char_is is_alnum (first_char s) && char_is is_alnum (last_char s).

(** [/^host(:[0-9]{1,5})?\/owner\/name$/]. *)
(* @src packages/sandbox/src/workspaces/selector.ts:128-129 REMOTE_PATTERN *)
Definition remote_pattern (s : string) : bool :=
  match split_char "/" s with
  | [h; o; n] =>
      owner_name o && owner_name n &&
      match split_char ":" h with
      | [h] => host_name h
      | [h; p] => host_name h && chars_between is_digit 1 5 p
      | _ => false
      end
  | _ => false
  end.

(** [/^[0-9a-z-]{1,64}$/i]. *)
Definition repository_shape (s : string) : bool :=
  chars_between (λ c, is_alnum c || Ascii.eqb c "-") 1 64 s.

(* @src packages/sandbox/src/workspaces/selector.ts:142-182 parseResolvedCheckout *)
Definition parseResolvedCheckout (i : ResolvedCheckout) : outcome ResolvedCheckout :=
  let issues :=
    negb (repository_shape (res_repositoryId i)) ||
    (negb (owner_name (canonicalOwner i)) || negb (owner_name (canonicalName i))) ||
    negb (full_sha (resolvedSha i)) ||
    (negb (remote_pattern (remoteFingerprint i)) ||
     negb (remoteFingerprint i =s? "github.com/" +s canonicalOwner i +s "/" +s canonicalName i)) ||
    (resolvedAtMs i <=? 0) in
  let? _ := parseCheckoutSelector (res_selector i) in
  if issues then Threw validation_failed else Returned i.

(* @src packages/sandbox/src/workspaces/selector.ts:189-198 expectedShaOf *)
Definition expectedShaOf (s : CheckoutSelector) : option string :=
  match s with
  | commit sha => Some sha
  | branch _ e | tag _ e | pull_request_head _ e => e
  end.

(** ** The capability gate *)

(* @src packages/sandbox/src/workspaces/capability-gate.ts:18-33 WORKSPACE_CAPABILITY_NAMES *)
Definition WORKSPACE_CAPABILITY_NAMES : list string :=
  ["workspace.create"; "workspace.inspect"; "workspace.cancel"; "workspace.destroy";
   "isolation.process"; "isolation.filesystem"; "isolation.no_host_bind"; "checkout.native";
   "checkout.sandboxed_git"; "limits.cpu"; "limits.memory"; "limits.network"; "limits.secrets";
   "limits.cancellation"].

(* @src packages/sandbox/src/workspaces/capability-gate.ts:37-40 ProviderCapabilityClaim *)
Record ProviderCapabilityClaim := { claim_name : string; verified : bool }.

Record ProviderCapabilityManifest := {
  provider : string;
  man_providerVersion : string;
  capabilities : list ProviderCapabilityClaim;
}.

(* @src packages/sandbox/src/workspaces/capability-gate.ts:43-76 providerCapabilityManifestSchema *)
Definition manifest_valid (m : ProviderCapabilityManifest) : bool :=
  (1 <=? str_length (provider m)) && (str_length (provider m) <=? 64) &&
  (1 <=? str_length (man_providerVersion m)) && (str_length (man_providerVersion m) <=? 128) &&
  (1 <=? Z.of_nat (length (capabilities m))) && (Z.of_nat (length (capabilities m)) <=? 64) &&
  forallb (λ c, str_in (claim_name c) WORKSPACE_CAPABILITY_NAMES) (capabilities m) &&
  bool_decide (NoDup (map claim_name (capabilities m))).

(* @src packages/sandbox/src/workspaces/capability-gate.ts:80-86 WorkspaceCapabilityProfile *)
Record WorkspaceCapabilityProfile := {
  profile_name : string;
  required : list string;
  oneOf : list string;
}.

(* @src packages/sandbox/src/workspaces/capability-gate.ts:88-105 DEFAULT_WORKSPACE_CAPABILITY_PROFILE *)
Definition DEFAULT_WORKSPACE_CAPABILITY_PROFILE : WorkspaceCapabilityProfile := {|
  profile_name := "sandbox-workspace-v1";
  required :=
    ["workspace.create"; "workspace.inspect"; "workspace.cancel"; "workspace.destroy";
     "isolation.process"; "isolation.filesystem"; "isolation.no_host_bind"; "limits.cpu";
     "limits.memory"; "limits.network"; "limits.secrets"; "limits.cancellation"];
  oneOf := ["checkout.native"; "checkout.sandboxed_git"];
|}.

(* @src packages/sandbox/src/workspaces/capability-gate.ts:107-120 CapabilityDecision *)
Inductive CapabilityDecision :=
  | Granted (capabilitySnapshotId provider providerVersion : string) (checked : list string)
  | Refused (blockedCapability reason code : string).

Section Gate.
Context `{Digest}.

(* @src packages/sandbox/src/workspaces/capability-gate.ts:125-135 capabilitySnapshotId *)
Definition capabilitySnapshotId (m : ProviderCapabilityManifest) : string :=
  let names := js_sort code_unit_compare
    (map claim_name (List.filter verified (capabilities m))) in
  sha256 ("provider=" +s provider m +s "|version=" +s man_providerVersion m +s "|" +s
          join "," names).

(** The entry of [claims], a later claim of the same name replacing an earlier one. *)
Definition claim_of (m : ProviderCapabilityManifest) (name : string) : option bool :=
  verified <$> List.find (λ c, claim_name c =s? name) (rev (capabilities m)).

Definition proven (m : ProviderCapabilityManifest) (name : string) : bool :=
  bool_decide (claim_of m name = Some true).

(* @src packages/sandbox/src/workspaces/capability-gate.ts:137-212 requireWorkspaceCapabilities *)
Definition requireWorkspaceCapabilities (m : ProviderCapabilityManifest)
    (profile : WorkspaceCapabilityProfile) : CapabilityDecision :=
  if negb (manifest_valid m) then
    Refused "manifest" "unsupported" "SANDBOX_CAPABILITY_UNSUPPORTED"
  else match List.find (λ c, negb (str_in (claim_name c) WORKSPACE_CAPABILITY_NAMES))
               (capabilities m) with
  | Some c => Refused (claim_name c) "unsupported" "SANDBOX_CAPABILITY_UNSUPPORTED"
  | None =>
      match List.filter (λ n, negb (proven m n)) (required profile) with
      | n :: _ =>
          if str_in n ["isolation.process"; "isolation.filesystem"; "isolation.no_host_bind"]
          then Refused n "unverified" "SANDBOX_ISOLATION_UNVERIFIED"
          else Refused n "unsupported" "SANDBOX_CAPABILITY_UNSUPPORTED"
      | [] =>
          if (0 <? Z.of_nat (length (oneOf profile))) && negb (existsb (proven m) (oneOf profile))
          then Refused (join "|" (oneOf profile)) "unsupported" "SANDBOX_CAPABILITY_UNSUPPORTED"
          else Granted (capabilitySnapshotId m) (provider m) (man_providerVersion m)
                 (required profile ++ oneOf profile)
      end
  end.
End Gate.

(** ** The checkout plan *)

(* @src packages/sandbox/src/workspaces/safe-git.ts:42-42 CheckoutExecution *)
Inductive CheckoutExecution := native | sandboxed_git.

(* @src packages/sandbox/src/workspaces/safe-git.ts:20-37 SAFE_GIT_DIRECTIVES *)
Definition SAFE_GIT_DIRECTIVES : list (string * string) :=
  [("core.hooksPath", ""); ("filter.lfs.required", "false"); ("filter.lfs.process", "");
   ("filter.lfs.smudge", ""); ("credential.helper", ""); ("submodule.recurse", "false");
   ("protocol.allow", "never"); ("protocol.https.allow", "always"); ("core.autocrlf", "false")].

(* @src packages/sandbox/src/workspaces/safe-git.ts:47-66 SafeCheckoutPlan *)
Record SafeCheckoutPlan := {
  plan_repositoryId : string;
  plan_remoteFingerprint : string;
  plan_sha : string;
  execution : CheckoutExecution;
  transport : string;
  credentials : string;
  hostFilesystem : bool;
  fetchPolicy : string;
  submodulePolicy : string;
  lfsPolicy : string;
  directives : list (string * string);
}.

(** [/^github\.com\/[A-Za-z0-9_.-]{1,100}\/[A-Za-z0-9_.-]{1,100}$/]. *)
(* @src packages/sandbox/src/workspaces/safe-git.ts:75-75 FINGERPRINT_PATTERN *)
Definition fingerprint_pattern (s : string) : bool :=
  match split_char "/" s with
  | [h; o; n] => (h =s? "github.com") && owner_name o && owner_name n
  | _ => false
  end.

(* @src packages/sandbox/src/workspaces/safe-git.ts:82-115 buildSafeCheckoutPlan *)
Definition buildSafeCheckoutPlan (repository fingerprint sha : string) (e : CheckoutExecution)
  : outcome SafeCheckoutPlan :=
  if negb (repository_shape repository) || negb (full_sha sha) ||
     negb (fingerprint_pattern fingerprint) then Threw validation_failed
  else Returned
    {| plan_repositoryId := repository; plan_remoteFingerprint := fingerprint; plan_sha := sha;
       execution := e; transport := "https_allowlist";
       credentials := "in_memory_provider_secret"; hostFilesystem := false;
       fetchPolicy := "exact_sha"; submodulePolicy := "blocked"; lfsPolicy := "blocked";
       directives := SAFE_GIT_DIRECTIVES |}.

(* @src packages/sandbox/src/workspaces/safe-git.ts:121-127 assertNoHostCheckout *)
Definition assertNoHostCheckout (p : SafeCheckoutPlan) : outcome unit :=
  if hostFilesystem p then Threw (GuardError "SANDBOX_HOST_EXECUTION_BLOCKED") else Returned tt.

(** ** Verification *)

(* @src packages/sandbox/src/workspaces/verifier.ts:16-20 CheckoutObservation *)
Record CheckoutObservation := {
  observedHeadSha : string;
  observedRemoteFingerprint : string;
  treeHash : option string;
}.

(* @src packages/sandbox/src/workspaces/verifier.ts:40-47 VerificationOutcome *)
Inductive VerificationOutcome :=
  | Verified (checks : list string)
  | Mismatch (kind expectedSha observedSha : string).

(* @src packages/sandbox/src/workspaces/verifier.ts:55-95 verifyCheckout *)
Definition verifyCheckout (r : ResolvedCheckout) (o : CheckoutObservation) : VerificationOutcome :=
  if negb (full_sha (observedHeadSha o)) then
    Mismatch "unverified_head" (resolvedSha r) (observedHeadSha o)
  else if negb (observedHeadSha o =s? resolvedSha r) then
    Mismatch "head_sha" (resolvedSha r) (observedHeadSha o)
  else if negb (observedRemoteFingerprint o =s? remoteFingerprint r) then
    Mismatch "remote_identity" (resolvedSha r) (observedHeadSha o)
  else if bool_decide (treeHash o = Some "") then
    Mismatch "tree_hash" (resolvedSha r) (observedHeadSha o)
  else Verified (["head_sha"; "remote_identity"] ++
                 (if truthy (treeHash o) then ["tree_hash"] else [])).

(* @src packages/sandbox/src/workspaces/verifier.ts:22-38 CheckoutAttestation *)
Record CheckoutAttestation := {
  att_id : string;
  att_workspaceId : string;
  att_repositoryId : string;
  att_canonicalOwner : string;
  att_canonicalName : string;
  att_remoteFingerprint : string;
  requestedSelectorKind : string;
  att_requestedRef : string;
  att_resolvedSha : string;
  att_observedHeadSha : string;
  att_treeHash : option string;
  att_fetchPolicy : string;
  att_submodulePolicy : string;
  att_lfsPolicy : string;
  verifiedAtMs : Z;
}.

(* @src packages/sandbox/src/workspaces/verifier.ts:104-133 buildAttestation *)
Definition buildAttestation (id workspace : string) (r : ResolvedCheckout)
    (o : CheckoutObservation) (nowMs : Z) : outcome CheckoutAttestation :=
  match verifyCheckout r o with
  | Mismatch _ _ _ => Threw (GuardError "CHECKOUT_MISMATCH")
  | Verified _ => Returned
      {| att_id := id; att_workspaceId := workspace; att_repositoryId := res_repositoryId r;
         att_canonicalOwner := canonicalOwner r; att_canonicalName := canonicalName r;
         att_remoteFingerprint := remoteFingerprint r;
         requestedSelectorKind := selector_kind (res_selector r);
         att_requestedRef := describeSelector (res_selector r);
         att_resolvedSha := resolvedSha r; att_observedHeadSha := observedHeadSha o;
         att_treeHash := treeHash o; att_fetchPolicy := "exact_sha";
         att_submodulePolicy := "blocked"; att_lfsPolicy := "blocked"; verifiedAtMs := nowMs |}
  end.

(** ** Record ids *)

(** [/^(?:uuid v1-v8|ulid)$/]. *)
(* @src packages/sandbox/src/workspaces/state.ts:18-24 isWellFormedRecordId *)
Definition isWellFormedRecordId (value : string) : bool :=
  match split_char "-" value with
  | [a; b; c; d; e] =>
      forallb (all_chars lower_hex) [a; b; c; d; e] &&
      (str_length a =? 8) && (str_length b =? 4) && (str_length c =? 4) && (str_length d =? 4) &&
      (str_length e =? 12) && char_is (char_in "12345678") (first_char c) &&
      char_is (char_in "89ab") (first_char d)
  | [u] => (str_length u =? 26) && all_chars (char_in "0123456789ABCDEFGHJKMNPQRSTVWXYZ") u
  | _ => false
  end.

(** ** Lemmas *)

Lemma full_sha_nonempty s : full_sha s = true → s ≠ "".
Proof. intros H ->. done. Qed.

(** What a passed verification establishes. *)
Lemma verifyCheckout_ok r o checks :
  verifyCheckout r o = Verified checks →
  observedHeadSha o = resolvedSha r ∧ full_sha (resolvedSha r) = true ∧
  observedRemoteFingerprint o = remoteFingerprint r ∧ treeHash o ≠ Some "".
Proof.
  unfold verifyCheckout. intros H. repeat case_match; try done; breflect; split_and!; congruence.
Qed.

Lemma parseResolvedCheckout_ok i r :
  parseResolvedCheckout i = Returned r →
  r = i ∧ repository_shape (res_repositoryId r) = true ∧ owner_name (canonicalOwner r) = true ∧
  owner_name (canonicalName r) = true ∧ full_sha (resolvedSha r) = true ∧
  remoteFingerprint r = "github.com/" +s canonicalOwner r +s "/" +s canonicalName r ∧
  selector_valid (res_selector r) = true.
Proof.
  unfold parseResolvedCheckout, parseCheckoutSelector.
  destruct (selector_valid (res_selector i)) eqn:Hv; simpl; [|done].
  destruct (_ || _) eqn:Hi; [done|]. intros [= <-]. breflect. by split_and!.
Qed.

Lemma num_all_digits z : 0 ≤ z → all_chars is_digit (num_to_string z) = true.
Proof.
  intros Hz. unfold num_to_string. destruct z; [done| |lia]. apply (pretty_N_digits (N.pos _)).
Qed.

Lemma version_part_ok z : 0 ≤ z → version_part (String "v" (num_to_string z)) = true.
Proof.
  intros Hz. simpl. rewrite num_all_digits by done. unfold nonempty.
  rewrite (proj2 (String.eqb_neq _ _)); [done|apply num_nonempty].
Qed.

Lemma key_part_ok s : key_part s = true →
  all_chars key_char s = true ∧ nonempty s = true ∧ ∀ c, key_char c = false → any_char (Ascii.eqb c) s = false.
Proof.
  intros [Hc Hl]%chars_between_ok. split_and!; [done| |intros c Hk; by eapply class_absent].
  destruct s; [by compute in Hl|done].
Qed.

Lemma creation_split run gen :
  key_part run = true → 0 ≤ gen →
  split_char "/" ("devguard/workspace/" +s run +s "/v" +s num_to_string gen) =
  ["devguard"; "workspace"; run; String "v" (num_to_string gen)].
Proof.
  intros (_ & _ & Ha)%key_part_ok Hg.
  change ("devguard/workspace/" +s run +s "/v" +s num_to_string gen)
    with ("devguard" +s String "/" ("workspace" +s String "/"
            (run +s String "/" (String "v" (num_to_string gen))))).
  rewrite (split_char_cons "/" "devguard"), (split_char_cons "/" "workspace") by done.
  rewrite (split_char_cons "/" run) by by apply Ha.
  rewrite split_char_absent; [done|]. cbn [any_char Ascii.eqb].
  eapply class_absent; [|by apply num_all_digits]. done.
Qed.

Lemma destroy_split w gen :
  key_part w = true → 0 ≤ gen →
  split_char "/" ("devguard/workspace/" +s w +s ":destroy:v" +s num_to_string gen) =
    ["devguard"; "workspace"; w +s ":destroy:v" +s num_to_string gen] ∧
  split_char ":" (w +s ":destroy:v" +s num_to_string gen) =
    [w; "destroy"; String "v" (num_to_string gen)].
Proof.
  intros (_ & _ & Ha)%key_part_ok Hg. split.
  - change ("devguard/workspace/" +s w +s ":destroy:v" +s num_to_string gen)
      with ("devguard" +s String "/" ("workspace" +s String "/"
              (w +s ":destroy:v" +s num_to_string gen))).
    rewrite (split_char_cons "/" "devguard"), (split_char_cons "/" "workspace") by done.
    rewrite split_char_absent; [done|]. rewrite !any_char_app, (Ha "/"%char) by done. simpl.
    eapply class_absent; [|by apply num_all_digits]. done.
  - change (w +s ":destroy:v" +s num_to_string gen)
      with (w +s String ":" ("destroy" +s String ":" (String "v" (num_to_string gen)))).
    rewrite (split_char_cons ":" w) by by apply Ha.
    rewrite (split_char_cons ":" "destroy") by done.
    rewrite split_char_absent; [done|]. cbn [any_char Ascii.eqb].
    eapply class_absent; [|by apply num_all_digits]. done.
Qed.

(** Workspace idempotency keys are sound: for ids the builders accept and a nonnegative
    generation, a creation key is recognised as one and not as a destruction key, and the other
    way around, so the shape check passes; and two keys are equal only when their kind, id and
    generation are, so no two operations ever share a key. *)
Theorem workspace_keys a b m n k l
  (Ha : key_part a = true) (Hb : key_part b = true) (Hm : 0 ≤ m) (Hn : 0 ≤ n)
  (Hk : workspaceCreationKey a m = Returned k) (Hl : workspaceDestroyKey b n = Returned l) :
  isWorkspaceCreationKey k = true ∧ isWorkspaceDestroyKey k = false ∧
  isWorkspaceDestroyKey l = true ∧ isWorkspaceCreationKey l = false ∧
  assertWorkspaceKeyShape k = Returned tt ∧ assertWorkspaceKeyShape l = Returned tt ∧ k ≠ l ∧
  (workspaceCreationKey b n = Returned k → a = b ∧ m = n) ∧
  (workspaceDestroyKey a m = Returned l → a = b ∧ m = n).
Proof.
  unfold workspaceCreationKey in Hk. rewrite Ha in Hk.
  assert (k = "devguard/workspace/" +s a +s "/v" +s num_to_string m) as -> by congruence.
  unfold workspaceDestroyKey in Hl. rewrite Hb in Hl.
  assert (l = "devguard/workspace/" +s b +s ":destroy:v" +s num_to_string n) as -> by congruence.
  pose proof (creation_split a m Ha Hm) as Hs. destruct (destroy_split b n Hb Hn) as [Hd1 Hd2].
  destruct (key_part_ok a Ha) as (Ha1 & Ha2 & _). destruct (key_part_ok b Hb) as (Hb1 & Hb2 & _).
  assert (Hc : isWorkspaceCreationKey
    ("devguard/workspace/" +s a +s "/v" +s num_to_string m) = true).
  { unfold isWorkspaceCreationKey. by rewrite Hs, Ha1, Ha2, version_part_ok. }
  assert (Hd : isWorkspaceDestroyKey
    ("devguard/workspace/" +s b +s ":destroy:v" +s num_to_string n) = true).
  { unfold isWorkspaceDestroyKey. by rewrite Hd1, Hd2, Hb1, Hb2, version_part_ok. }
  split_and!; [exact Hc| |exact Hd| | | | | |].
  - unfold isWorkspaceDestroyKey. by rewrite Hs.
  - unfold isWorkspaceCreationKey. by rewrite Hd1.
  - unfold assertWorkspaceKeyShape. by rewrite Hc.
  - unfold assertWorkspaceKeyShape. by rewrite Hd, andb_false_r.
  - intros He. rewrite He in Hs. congruence.
  - unfold workspaceCreationKey. rewrite Hb. intros He.
    assert (He2 : split_char "/" ("devguard/workspace/" +s b +s "/v" +s num_to_string n) =
      split_char "/" ("devguard/workspace/" +s a +s "/v" +s num_to_string m)) by (f_equal; congruence).
    rewrite Hs, creation_split in He2 by done. injection He2 as -> Hv.
    split; [done|]. by apply (inj pretty).
  - unfold workspaceDestroyKey. rewrite Ha. intros [= He].
    destruct (destroy_split a m Ha Hm) as [_ Hd3].
    assert (He2 : a +s ":destroy:v" +s num_to_string m = b +s ":destroy:v" +s num_to_string n)
      by exact He.
    rewrite He2, Hd2 in Hd3. injection Hd3 as -> Hv. split; [done|]. by apply (inj pretty).
Qed.

Lemma workspace_keys_witness :
  isWorkspaceCreationKey "devguard/workspace/run.1/v2" = true ∧
  isWorkspaceDestroyKey "devguard/workspace/w-1:destroy:v1" = true.
Proof.
  destruct (workspace_keys "run.1" "w-1" 2 1 "devguard/workspace/run.1/v2"
    "devguard/workspace/w-1:destroy:v1") as (H1 & _ & H2 & _); [by vm_compute..|].
  by split.
Defined.
