(* ===== verification/WorkspaceManager.v ===== *)
(** * The workspace manager

    [packages/sandbox/src/workspaces/manager.ts]: creation, lease renewal and destruction of a
    sandbox workspace over its ports -- store, capability probe, ref resolver, provider,
    attestation store and event sink -- with the clock and the UUID source as ports too.
    [makeSandboxEvent], which validates an envelope with the zod schemas of its type, is a call
    that may be refused; log lines are left out. *)

From S2P Require Import Prelude JsString Effects Json Workspace.
Import Fsm.

(** ** Records *)

(* @src packages/sandbox/src/workspaces/state.ts:26-51 WorkspaceRecord *)
Record WorkspaceRecord := {
  rec_workspaceId : string;
  rec_runId : string;
  rec_sessionId : option string;
  rec_repositoryId : string;
  rec_selector : CheckoutSelector;
  requestedRefKind : string;
  requestedRef : string;
  rec_resolvedSha : option string;
  rec_verifiedHeadSha : option string;
  rec_providerWorkspaceId : option string;
  rec_providerVersion : option string;
  rec_capabilitySnapshotId : option string;
  rec_limitProfileId : string;
  rec_status : WorkspaceStatus;
  rec_generation : Z;
  leaseOwner : option string;
  rec_leaseToken : option string;
  rec_leaseExpiresAtMs : option Z;
  rowVersion : Z;
  createdAtMs : Z;
  readyAtMs : option Z;
  destroyedAtMs : option Z;
  failureCode : option string;
  failureDetailRedacted : option string;
}.

(** The members of a transition's patch. *)
(* @src packages/sandbox/src/workspaces/state.ts:54-67 WorkspaceTransitionPatch *)
Inductive PatchMember :=
  | set_resolvedSha (s : string)
  | set_verifiedHeadSha (s : string)
  | set_providerWorkspaceId (s : string)
  | set_providerVersion (s : string)
  | set_capabilitySnapshotId (s : string)
  | set_readyAtMs (ms : Z)
  | set_destroyedAtMs (ms : Z)
  | set_failureCode (s : string)
  | set_failureDetailRedacted (s : string).

(* @src packages/sandbox/src/workspaces/state.ts:69-81 WorkspaceReservation *)
Record WorkspaceReservation := {
  new_workspaceId : string;
  new_runId : string;
  new_sessionId : option string;
  new_repositoryId : string;
  new_selector : CheckoutSelector;
  new_limitProfileId : string;
  new_generation : Z;
  new_leaseOwner : string;
  new_leaseToken : string;
  new_leaseExpiresAtMs : Z;
  new_createdAtMs : Z;
}.

(* @src packages/sandbox/src/workspaces/state.ts:83-90 WorkspaceTransitionInput *)
Record WorkspaceTransitionInput := {
  tr_workspaceId : string;
  expectedRowVersion : Z;
  expectedStatus : WorkspaceStatus;
  tr_to : WorkspaceStatus;
  trigger : WorkspaceTrigger;
  patch : list PatchMember;
}.

(* @src packages/sandbox/src/workspaces/state.ts:92-95 WorkspaceTransitionResult *)
Record WorkspaceTransitionResult := { applied : bool; record : WorkspaceRecord }.

(* @src packages/sandbox/src/workspaces/state.ts:97-103 WorkspaceLeaseRenewal *)
Record WorkspaceLeaseRenewal := {
  ren_workspaceId : string;
  expectedLeaseToken : string;
  newLeaseToken : string;
  ren_leaseExpiresAtMs : Z;
  ren_rowVersion : Z;
}.

(* @src packages/sandbox/src/workspaces/ports.ts:46-52 ProviderWorkspaceSnapshot *)
Record ProviderWorkspaceSnapshot := {
  snap_providerWorkspaceId : string;
  snap_status : string;
  snap_observedHeadSha : option string;
  snap_observedRemoteFingerprint : option string;
  snap_treeHash : option string;
}.

(* @src packages/sandbox/src/workspaces/ports.ts:54-59 ProviderWorkspaceCreateResult *)
Record ProviderWorkspaceCreateResult := {
  providerWorkspaceId : string;
  created : bool;
  snapshot : ProviderWorkspaceSnapshot;
}.

Record ProviderCreateInput := {
  create_idempotencyKey : string;
  create_limitProfileId : string;
  create_capabilitySnapshotId : string;
  create_generation : Z;
  create_leaseToken : string;
  create_leaseExpiresAtMs : Z;
  checkout : SafeCheckoutPlan;
}.

Record ProviderDestroyInput := {
  destroy_providerWorkspaceId : string;
  destroy_idempotencyKey : string;
  destroy_generation : Z;
  destroy_leaseToken : string;
  destroy_leaseExpiresAtMs : Z;
}.

(* @src packages/sandbox/src/workspaces/manager.ts:72-79 CreateWorkspaceInput *)
Record CreateWorkspaceInput := {
  in_runId : string;
  in_sessionId : option string;
  in_repositoryId : string;
  in_selector : CheckoutSelector;
  in_limitProfileId : string;
  in_nowMs : Z;
}.

(* @src packages/sandbox/src/workspaces/manager.ts:81-91 WorkspaceRef *)
Record WorkspaceRef := {
  ref_workspaceId : string;
  ref_runId : string;
  ref_sessionId : option string;
  ref_repositoryId : string;
  ref_resolvedSha : option string;
  ref_generation : Z;
  ref_capabilitySnapshotId : option string;
  ref_status : WorkspaceStatus;
  ref_createdAtMs : Z;
}.

(* @src packages/sandbox/src/workspaces/manager.ts:60-70 DESTROY_REASONS *)
Definition DESTROY_REASONS : list string :=
  ["run_complete"; "run_cancelled"; "run_failed"; "lease_expired"; "cleanup"; "quarantine";
   "maintenance"].

(* @src packages/sandbox/src/workspaces/manager.ts:106-106 DestroyOutcome *)
Inductive DestroyOutcome := destroyed | pending_cleanup | quarantined.

(** The ports of [ports.ts], the clock and [node:crypto]'s [randomUUID]. *)
(* @src packages/sandbox/src/workspaces/ports.ts:32-129 WorkspaceManagerPorts *)
Inductive WsCall :=
  | clock
  | randomUUID
  | loadByRunId (run : string)
  | load (workspace : string)
  | reserve (r : WorkspaceReservation)
  | tryTransition (t : WorkspaceTransitionInput)
  | store_renewLease (l : WorkspaceLeaseRenewal)
  | probe
  | resolve (repository : string) (selector : CheckoutSelector) (nowMs : Z)
  | provider_create (i : ProviderCreateInput)
  | provider_destroy (i : ProviderDestroyInput)
  | attest (a : CheckoutAttestation)
  | makeSandboxEvent (type aggregate id : string) (occurredAtMs : Z)
      (payload : list (string * json))
  | emit (envelope : string).

Definition WsAns (c : WsCall) : Type :=
  match c with
  | clock => Z
  | randomUUID => string
  | loadByRunId _ => option WorkspaceRecord
  | load _ | reserve _ => WorkspaceRecord
  | tryTransition _ | store_renewLease _ => WorkspaceTransitionResult
  | probe => ProviderCapabilityManifest
  | resolve _ _ _ => ResolvedCheckout
  | provider_create _ => ProviderWorkspaceCreateResult
  | provider_destroy _ => bool
  | attest _ => unit
  | makeSandboxEvent _ _ _ _ _ => string
  | emit _ => unit
  end.

(* @src packages/sandbox/src/workspaces/manager.ts:766-774 fenceOf *)
Definition fenceOf (r : WorkspaceRecord) : WorkspaceFence :=
  {| workspaceId := rec_workspaceId r; runId := rec_runId r; generation := rec_generation r;
     leaseToken := rec_leaseToken r ?? ""; leaseExpiresAtMs := rec_leaseExpiresAtMs r ?? 0 |}.

(** [JSON.stringify] of a selector; the members in schema order. *)
Definition selector_json (s : CheckoutSelector) : json :=
  let pinned o := match o with Some sha => [("expectedSha", JStr sha)] | None => [] end in
  JObj (("kind", JStr (selector_kind s)) ::
    match s with
    | commit sha => [("sha", JStr sha)]
    | branch n e | tag n e => ("name", JStr n) :: pinned e
    | pull_request_head n e => ("number", JNum n) :: pinned e
    end).

(* @src packages/sandbox/src/workspaces/manager.ts:782-791 bindingMismatch *)
Definition bindingMismatch (e : WorkspaceRecord) (i : CreateWorkspaceInput) : option string :=
  if negb (rec_repositoryId e =s? in_repositoryId i) then Some "repositoryId"
  else if negb (rec_limitProfileId e =s? in_limitProfileId i) then Some "limitProfileId"
  else if negb (bool_decide (rec_sessionId e = in_sessionId i)) then Some "sessionId"
  else if negb (stringify (selector_json (rec_selector e)) =s?
                stringify (selector_json (in_selector i))) then Some "selector"
  else None.

(* @src packages/sandbox/src/workspaces/manager.ts:793-805 toRef *)
Definition toRef (r : WorkspaceRecord) : WorkspaceRef :=
  {| ref_workspaceId := rec_workspaceId r; ref_runId := rec_runId r;
     ref_sessionId := rec_sessionId r; ref_repositoryId := rec_repositoryId r;
     ref_resolvedSha := rec_resolvedSha r; ref_generation := rec_generation r;
     ref_capabilitySnapshotId := rec_capabilitySnapshotId r; ref_status := rec_status r;
     ref_createdAtMs := createdAtMs r |}.

(* @src packages/sandbox/src/workspaces/manager.ts:822-832 observationOf *)
Definition observationOf (s : ProviderWorkspaceSnapshot) : CheckoutObservation :=
  {| observedHeadSha := snap_observedHeadSha s ?? "";
     observedRemoteFingerprint := snap_observedRemoteFingerprint s ?? "";
     treeHash := snap_treeHash s |}.

(* @src packages/sandbox/src/workspaces/manager.ts:93-104 WorkspaceStatusView *)
Record WorkspaceStatusView := {
  view_workspaceId : string;
  view_status : WorkspaceStatus;
  view_providerWorkspaceId : option string;
  view_resolvedSha : option string;
  view_verifiedHeadSha : option string;
  view_providerVersion : option string;
  view_failureCode : option string;
  view_leaseExpiresAtMs : option Z;
  view_readyAtMs : option Z;
  cleanupRequired : bool;
}.

(* @src packages/sandbox/src/workspaces/manager.ts:807-820 toStatusView *)
Definition toStatusView (r : WorkspaceRecord) : WorkspaceStatusView :=
  {| view_workspaceId := rec_workspaceId r; view_status := rec_status r;
     view_providerWorkspaceId := rec_providerWorkspaceId r; view_resolvedSha := rec_resolvedSha r;
     view_verifiedHeadSha := rec_verifiedHeadSha r;
     view_providerVersion := rec_providerVersion r; view_failureCode := failureCode r;
     view_leaseExpiresAtMs := rec_leaseExpiresAtMs r; view_readyAtMs := readyAtMs r;
     cleanupRequired := workspaceCleanupRequired (rec_status r) |}.

(* @src packages/sandbox/src/workspaces/manager.ts:441-444 WorkspaceManager.inspect *)
Definition inspect (w : string) : proc WsAns WorkspaceStatusView :=
  r <~ call (load w) ;; pret (toStatusView r).

(** ** Internals *)

(* @src packages/sandbox/src/workspaces/manager.ts:561-573 WorkspaceManager.assertBoundaryIds *)
Definition assertBoundaryIds (i : CreateWorkspaceInput) : outcome unit :=
  if negb (isWellFormedRecordId (in_runId i)) || negb (isWellFormedRecordId (in_repositoryId i)) ||
     match in_sessionId i with Some s => negb (isWellFormedRecordId s) | None => false end
  then Threw validation_failed else Returned tt.

(* @src packages/sandbox/src/workspaces/manager.ts:575-587 WorkspaceManager.assertCurrent *)
Definition assertCurrent (r : WorkspaceRecord) (f : WorkspaceFence) : proc WsAns unit :=
  t <~ call clock ;; Done (assertFenceCurrent (fenceOf r) f t).

(* @src packages/sandbox/src/workspaces/manager.ts:589-610 WorkspaceManager.transition *)
Definition transition (r : WorkspaceRecord) (f : WorkspaceFence) (t : WorkspaceTrigger)
    (guards : WorkspaceTransitionGuards) (p : list PatchMember) : proc WsAns WorkspaceRecord :=
  assertCurrent r f ;~
  s <~ Done (transitionWorkspace (rec_status r) t ((fenceValid, true) :: guards)) ;;
  result <~ call (tryTransition
    {| tr_workspaceId := rec_workspaceId r; expectedRowVersion := rowVersion r;
       expectedStatus := rec_status r; tr_to := s; trigger := t; patch := p |}) ;;
  if applied result then pret (record result) else throw (GuardError "VERSION_CONFLICT").

(* @src packages/sandbox/src/workspaces/manager.ts:646-668 WorkspaceManager.emitEvent *)
Definition emitEvent (type aggregate id : string) (payload : list (string * json))
  : proc WsAns unit :=
  t <~ call clock ;;
  e <~ call (makeSandboxEvent type aggregate id t payload) ;;
  (ptry (call (emit e)) (λ _, pret tt) : proc WsAns unit).

(* @src packages/sandbox/src/workspaces/manager.ts:612-644 WorkspaceManager.markFailed *)
Definition markFailed (r : WorkspaceRecord) (f : WorkspaceFence) (code detail : string)
  : proc WsAns unit :=
  ptry
    (transition r f fail [(failureKnown, true)]
       [set_failureCode code; set_failureDetailRedacted detail] ;~
     emitEvent "sandbox.workspace.failed" "workspace" (rec_workspaceId r)
       [("workspaceId", JStr (rec_workspaceId r)); ("runId", JStr (rec_runId r));
        ("failureCode", JStr code); ("failureDetailRedacted", JStr detail)])
    (λ _, pret tt).

(* @src packages/sandbox/src/workspaces/manager.ts:734-755 WorkspaceManager.markAmbiguous *)
Definition markAmbiguous (r : WorkspaceRecord) (f : WorkspaceFence) (detail : string)
  : proc WsAns WorkspaceRecord :=
  q <~ transition r f quarantine [(providerAmbiguity, true)]
         [set_failureCode "WORKSPACE_QUARANTINED"; set_failureDetailRedacted detail] ;;
  emitEvent "sandbox.workspace.quarantined" "workspace" (rec_workspaceId r)
    [("workspaceId", JStr (rec_workspaceId r)); ("runId", JStr (rec_runId r));
     ("reason", JStr detail)] ;~
  pret q.

(* @src packages/sandbox/src/workspaces/manager.ts:677-710 WorkspaceManager.providerCreate *)
Definition providerCreate (r : WorkspaceRecord) (f : WorkspaceFence) (i : ProviderCreateInput)
  : proc WsAns ProviderWorkspaceCreateResult :=
  assertCurrent r f ;~
  result <~ ptry (call (provider_create i))
    (λ cause,
       markAmbiguous r f "provider create outcome ambiguous (rejection/timeout)" ;~
       throw cause) ;;
  assertCurrent r f ;~
  pret result.

(* @src packages/sandbox/src/workspaces/manager.ts:716-731 WorkspaceManager.providerDestroy *)
Definition providerDestroy (r : WorkspaceRecord) (f : WorkspaceFence) (i : ProviderDestroyInput)
  : proc WsAns bool :=
  assertCurrent r f ;~
  result <~ call (provider_destroy i) ;;
  assertCurrent r f ;~
  pret result.

(** ** Operations *)

Section Manager.
Context `{Digest} (leaseTtlMs : Z) (checkoutExecution : CheckoutExecution).

Definition requiredCapability : string :=
  match checkoutExecution with
  | native => "checkout.native"
  | sandboxed_git => "checkout.sandboxed_git"
  end.

Definition event_id (w : string) : string * json := ("workspaceId", JStr w).

(** From READY on: verification, attestation and the last transition. *)
(* @src packages/sandbox/src/workspaces/manager.ts:317-438 WorkspaceManager.create *)
Definition verify_and_attest (i : CreateWorkspaceInput) (w : string) (f : WorkspaceFence)
    (snapshotId : string) (resolved : ResolvedCheckout) (made : ProviderWorkspaceCreateResult)
    (r : WorkspaceRecord) : proc WsAns WorkspaceRef :=
  let o := observationOf (snapshot made) in
  match verifyCheckout resolved o with
  | Mismatch kind expected observed =>
      transition r f verify_fail [(verificationFailed, true)]
        [set_verifiedHeadSha (observedHeadSha o); set_failureCode "CHECKOUT_MISMATCH";
         set_failureDetailRedacted ("mismatch kind: " +s kind)] ;~
      emitEvent "checkout.verification_failed" "checkout" w
        [event_id w; ("expectedSha", JStr expected); ("observedSha", JStr observed);
         ("mismatchKind", JStr kind)] ;~
      emitEvent "sandbox.workspace.quarantined" "workspace" w
        [event_id w; ("runId", JStr (in_runId i)); ("reason", JStr ("checkout " +s kind))] ;~
      throw (GuardError "CHECKOUT_MISMATCH")
  | Verified _ =>
      attestationId <~ call randomUUID ;;
      a <~ Done (buildAttestation attestationId w resolved o (in_nowMs i)) ;;
      ptry (call (attest a))
        (λ cause,
           transition r f fail [(failureKnown, true)]
             [set_verifiedHeadSha (observedHeadSha o);
              set_providerWorkspaceId (providerWorkspaceId made);
              set_failureCode "CHECKOUT_ATTESTATION_FAILED";
              set_failureDetailRedacted "attestation persistence failed after verification"] ;~
           emitEvent "sandbox.workspace.failed" "workspace" w
             [event_id w; ("runId", JStr (in_runId i));
              ("failureCode", JStr "CHECKOUT_ATTESTATION_FAILED");
              ("failureDetailRedacted",
               JStr "attestation persistence failed after verification")] ;~
           throw cause) ;~
      ready <~ transition r f verify_ok
        [(headMatchesResolvedSha, true); (remoteIdentityVerified, true);
         (attestationComplete, true)]
        [set_verifiedHeadSha (observedHeadSha o);
         set_providerWorkspaceId (providerWorkspaceId made); set_readyAtMs (in_nowMs i)] ;;
      emitEvent "checkout.completed" "checkout" w
        ([event_id w; ("resolvedSha", JStr (resolvedSha resolved));
          ("observedHeadSha", JStr (observedHeadSha o));
          ("remoteFingerprint", JStr (remoteFingerprint resolved))] ++
         match treeHash o with Some h => [("treeHash", JStr h)] | None => [] end) ;~
      emitEvent "sandbox.workspace.ready" "workspace" w
        [event_id w; ("runId", JStr (in_runId i)); ("resolvedSha", JStr (resolvedSha resolved));
         ("verifiedHeadSha", JStr (observedHeadSha o));
         ("capabilitySnapshotId", JStr snapshotId)] ;~
      call clock ;~
      pret (toRef ready)
  end.

(** From the resolved checkout to the provider's workspace. *)
(* @src packages/sandbox/src/workspaces/manager.ts:216-315 WorkspaceManager.create *)
Definition provision (i : CreateWorkspaceInput) (w : string) (f : WorkspaceFence)
    (selector : CheckoutSelector) (snapshotId version : string) (resolved : ResolvedCheckout)
    (r : WorkspaceRecord) : proc WsAns WorkspaceRef :=
  emitEvent "checkout.resolved" "checkout" w
    [event_id w; ("requestedRefKind", JStr (selector_kind selector));
     ("requestedRef", JStr (describeSelector selector));
     ("resolvedSha", JStr (resolvedSha resolved))] ;~
  r <~ transition r f begin_provisioning [(capabilitiesVerified, true)]
    [set_resolvedSha (resolvedSha resolved); set_capabilitySnapshotId snapshotId;
     set_providerVersion version] ;;
  plan <~ Done (buildSafeCheckoutPlan (in_repositoryId i) (remoteFingerprint resolved)
                  (resolvedSha resolved) checkoutExecution) ;;
  Done (assertNoHostCheckout plan) ;~
  createKey <~ Done (workspaceCreationKey (in_runId i) (rec_generation r)) ;;
  Done (assertWorkspaceKeyShape createKey) ;~
  made <~ providerCreate r f
    {| create_idempotencyKey := createKey; create_limitProfileId := rec_limitProfileId r;
       create_capabilitySnapshotId := snapshotId; create_generation := rec_generation r;
       create_leaseToken := leaseToken f; create_leaseExpiresAtMs := leaseExpiresAtMs f;
       checkout := plan |} ;;
  if negb (snap_status (snapshot made) =s? "ready") then
    let why := "provider status " +s snap_status (snapshot made) in
    transition r f quarantine [(providerAmbiguity, true)]
      [set_providerWorkspaceId (providerWorkspaceId made);
       set_failureCode "WORKSPACE_QUARANTINED"; set_failureDetailRedacted why] ;~
    emitEvent "sandbox.workspace.quarantined" "workspace" w
      [event_id w; ("runId", JStr (in_runId i)); ("reason", JStr why)] ;~
    throw (GuardError "WORKSPACE_QUARANTINED")
  else
    r <~ transition r f provision_complete [(providerWorkspaceCreated, true)]
      [set_providerWorkspaceId (providerWorkspaceId made)] ;;
    emitEvent "sandbox.workspace.created" "workspace" w
      [event_id w; ("runId", JStr (in_runId i));
       ("providerWorkspaceId", JStr (providerWorkspaceId made));
       ("providerVersion", JStr version); ("capabilitySnapshotId", JStr snapshotId)] ;~
    r <~ transition r f checkout_complete [(safeCheckoutApplied, true)]
      [set_providerWorkspaceId (providerWorkspaceId made)] ;;
    verify_and_attest i w f snapshotId resolved made r.

(** The new reservation, through the capability gate and the ref resolution. *)
(* @src packages/sandbox/src/workspaces/manager.ts:160-215 WorkspaceManager.create *)
Definition gate_and_resolve (i : CreateWorkspaceInput) (w : string) (selector : CheckoutSelector)
    (r : WorkspaceRecord) : proc WsAns WorkspaceRef :=
  let f := fenceOf r in
  emitEvent "sandbox.workspace.requested" "workspace" w
    [event_id w; ("runId", JStr (in_runId i));
     ("requestedRefKind", JStr (selector_kind selector));
     ("requestedRef", JStr (describeSelector selector))] ;~
  manifest <~ call probe ;;
  match requireWorkspaceCapabilities manifest DEFAULT_WORKSPACE_CAPABILITY_PROFILE with
  | Refused capability why code =>
      markFailed r f code ("capability '" +s capability +s "' is " +s why) ;~
      throw (GuardError code)
  | Granted snapshotId _ version _ =>
      if negb (existsb (λ c, (claim_name c =s? requiredCapability) && verified c)
                 (capabilities manifest)) then
        markFailed r f "SANDBOX_CAPABILITY_UNSUPPORTED" (requiredCapability +s " unverified") ;~
        throw (GuardError "SANDBOX_CAPABILITY_UNSUPPORTED")
      else
        resolved <~ ptry
          (raw <~ call (resolve (in_repositoryId i) selector (in_nowMs i)) ;;
           Done (parseResolvedCheckout raw))
          (λ cause, markFailed r f "REF_CHANGED" "ref resolution failed" ;~ throw cause) ;;
        if match expectedShaOf selector with
           | Some sha => negb (sha =s? resolvedSha resolved)
           | None => false
           end then
          markFailed r f "REF_CHANGED" "selector moved during resolution" ;~
          throw (GuardError "REF_CHANGED")
        else provision i w f selector snapshotId version resolved r
  end.

(* @src packages/sandbox/src/workspaces/manager.ts:124-439 WorkspaceManager.create *)
Definition create (i : CreateWorkspaceInput) : proc WsAns WorkspaceRef :=
  selector <~ Done (parseCheckoutSelector (in_selector i)) ;;
  Done (assertBoundaryIds i) ;~
  existing <~ call (loadByRunId (in_runId i)) ;;
  match existing with
  | Some e =>
      match bindingMismatch e i with
      | Some _ => throw (GuardError "WORKSPACE_REPLAY_MISMATCH")
      | None => pret (toRef e)
      end
  | None =>
      w <~ call randomUUID ;;
      token <~ call randomUUID ;;
      r <~ call (reserve
        {| new_workspaceId := w; new_runId := in_runId i; new_sessionId := in_sessionId i;
           new_repositoryId := in_repositoryId i; new_selector := selector;
           new_limitProfileId := in_limitProfileId i; new_generation := 1;
           new_leaseOwner := "worker"; new_leaseToken := token;
           new_leaseExpiresAtMs := in_nowMs i + leaseTtlMs; new_createdAtMs := in_nowMs i |}) ;;
      gate_and_resolve i w selector r
  end.

(* @src packages/sandbox/src/workspaces/manager.ts:446-470 WorkspaceManager.renewLease *)
Definition renewLease (w : string) (f : WorkspaceFence) : proc WsAns WorkspaceFence :=
  r <~ call (load w) ;;
  assertCurrent r f ;~
  token <~ call randomUUID ;;
  t <~ call clock ;;
  result <~ call (store_renewLease
    {| ren_workspaceId := w; expectedLeaseToken := leaseToken f; newLeaseToken := token;
       ren_leaseExpiresAtMs := t + leaseTtlMs; ren_rowVersion := rowVersion r |}) ;;
  if applied result then
    pret {| workspaceId := w; runId := rec_runId r; generation := rec_generation r;
            leaseToken := token; leaseExpiresAtMs := t + leaseTtlMs |}
  else throw (GuardError "WORKSPACE_FENCE_REJECTED").
End Manager.

(** From the DESTROYING record on. *)
(* @src packages/sandbox/src/workspaces/manager.ts:495-554 WorkspaceManager.requestDestroy *)
Definition destroy (w reason : string) (f : WorkspaceFence) (r : WorkspaceRecord)
  : proc WsAns DestroyOutcome :=
  emitEvent "sandbox.workspace.destroy_requested" "workspace" w
    [("workspaceId", JStr w); ("runId", JStr (rec_runId r));
     ("generation", JNum (rec_generation r)); ("reason", JStr reason)] ;~
  match rec_providerWorkspaceId r with
  | None =>
      t <~ call clock ;;
      transition r f destroy_confirmed [(providerProvesDestroyed, true)] [set_destroyedAtMs t] ;~
      pret destroyed
  | Some p =>
      key <~ Done (workspaceDestroyKey w (rec_generation r)) ;;
      Done (assertWorkspaceKeyShape key) ;~
      gone <~ providerDestroy r f
        {| destroy_providerWorkspaceId := p; destroy_idempotencyKey := key;
           destroy_generation := rec_generation r; destroy_leaseToken := leaseToken f;
           destroy_leaseExpiresAtMs := leaseExpiresAtMs f |} ;;
      if gone : bool then
        t <~ call clock ;;
        transition r f destroy_confirmed [(providerProvesDestroyed, true)]
          [set_destroyedAtMs t] ;~
        pret destroyed
      else
        r <~ transition r f destroy_uncertain
          [(providerProvesDestroyed, false); (cleanupAttemptsExhausted, true)]
          [set_failureCode "WORKSPACE_QUARANTINED";
           set_failureDetailRedacted "provider could not prove destruction"] ;;
        emitEvent "sandbox.workspace.quarantined" "workspace" w
          [("workspaceId", JStr w); ("runId", JStr (rec_runId r));
           ("reason", JStr "destruction unproven")] ;~
        pret quarantined
  end.

(* @src packages/sandbox/src/workspaces/manager.ts:472-555 WorkspaceManager.requestDestroy *)
Definition requestDestroy (w reason : string) (f : WorkspaceFence)
  : proc WsAns DestroyOutcome :=
  if negb (str_in reason DESTROY_REASONS) then throw validation_failed
  else
    r <~ call (load w) ;;
    if decide (rec_status r = DESTROYED) then pret destroyed
    else
      assertCurrent r f ;~
      if decide (rec_status r = DESTROYING) then destroy w reason f r
      else
        t <~ call clock ;;
        r <~ transition r f begin_destroy [] [set_destroyedAtMs t] ;;
        destroy w reason f r.

(** ** Reasoning about the internals

    [Q] is any postcondition and [P] any condition on calls that holds of the clock, the ids,
    the events and the reads. *)

Definition answered (c : WsCall) (a : WsAns c) : event WsAns := ev c (Returned a).

Definition extends (tr tr' : list (event WsAns)) : Prop := ∃ s, tr' = tr ++ s.

Lemma extends_refl tr : extends tr tr.
Proof. exists []. by rewrite app_nil_r. Qed.
Lemma extends_snoc tr tr' e : extends tr tr' → extends tr (tr' ++ [e]).
Proof. intros [s ->]. exists (s ++ [e]). by rewrite app_assoc. Qed.
Lemma extends_trans a b c : extends a b → extends b c → extends a c.
Proof. intros [s ->] [s' ->]. exists (s ++ s'). by rewrite app_assoc. Qed.
Lemma extends_elem e tr tr' : extends tr tr' → e ∈ tr → e ∈ tr'.
Proof. intros [s ->] He. apply elem_of_app. by left. Qed.

#[export] Hint Resolve extends_refl extends_snoc extends_trans : js.

Definition free (c : WsCall) : Prop :=
  match c with
  | tryTransition _ | provider_create _ | provider_destroy _ => False
  | _ => True
  end.

(** The last call was a reading of the clock before the lease of [f] expires. *)
Definition fenced (f : WorkspaceFence) (tr : list (event WsAns)) : Prop :=
  ∃ pre t, tr = pre ++ [answered clock t] ∧ t < leaseExpiresAtMs f.

(** The record belongs to the fence. *)
Definition held (r : WorkspaceRecord) (f : WorkspaceFence) : Prop :=
  rec_workspaceId r = workspaceId f ∧ rec_runId r = runId f ∧ rec_generation r = generation f ∧
  (rec_leaseToken r ?? "") = leaseToken f.

Lemma assertFenceCurrent_ok r f t :
  assertFenceCurrent (fenceOf r) f t = Returned tt → held r f ∧ t < leaseExpiresAtMs f.
Proof.
  unfold assertFenceCurrent, isLeaseExpired, held. simpl. intros H.
  repeat case_match; try done. breflect. done.
Qed.

Section Walk.
Context (P : list (event WsAns) → WsCall → Prop) (HP : ∀ tr c, free c → P tr c).

Lemma assertCurrent_ok (Q : list (event WsAns) → outcome unit → Prop) tr r f :
  (∀ tr' e, extends tr tr' → Q tr' (Threw e)) →
  (∀ tr', extends tr tr' → held r f → fenced f tr' → Q tr' (Returned tt)) →
  ensures P Q tr (assertCurrent r f).
Proof.
  intros Ht Hr. unfold assertCurrent. cbn [call pbind ensures]. split; [by apply HP|].
  intros [t|e]; cbn [pbind ensures]; [|apply Ht; auto with js].
  destruct (assertFenceCurrent (fenceOf r) f t) as [[]|e] eqn:Ha; [|apply Ht; auto with js].
  apply assertFenceCurrent_ok in Ha as [Hh Hl].
  apply Hr; [auto with js|done|]. by exists tr, t.
Qed.

Lemma transition_ok (Q : list (event WsAns) → outcome WorkspaceRecord → Prop) tr r f t gs p :
  (∀ tr' s, extends tr tr' → held r f → fenced f tr' →
    transitionWorkspace (rec_status r) t ((fenceValid, true) :: gs) = Returned s →
    P tr' (tryTransition {| tr_workspaceId := rec_workspaceId r; expectedRowVersion := rowVersion r;
       expectedStatus := rec_status r; tr_to := s; trigger := t; patch := p |})) →
  (∀ tr' e, extends tr tr' → Q tr' (Threw e)) →
  (∀ tr' s x, extends tr tr' → held r f →
    transitionWorkspace (rec_status r) t ((fenceValid, true) :: gs) = Returned s →
    applied x = true →
    answered (tryTransition {| tr_workspaceId := rec_workspaceId r;
       expectedRowVersion := rowVersion r; expectedStatus := rec_status r; tr_to := s;
       trigger := t; patch := p |}) x ∈ tr' → Q tr' (Returned (record x))) →
  ensures P Q tr (transition r f t gs p).
Proof.
  intros Hcall Ht Hr. unfold transition. apply ensures_pbind, assertCurrent_ok; [exact Ht|].
  intros tr' He Hh Hf. destruct (transitionWorkspace _ _ _) as [s|e] eqn:Hs;
    cbn [call pbind ensures]; [|by apply Ht].
  split; [by apply Hcall|]. intros [x|e]; cbn [pbind]; [|apply Ht; auto with js].
  destruct (applied x) eqn:Hx; cbn [pret throw ensures]; [|apply Ht; auto with js].
  eapply Hr; [auto with js|done|done|done|]. apply elem_of_app. right. by left.
Qed.

Lemma emitEvent_ok (Q : list (event WsAns) → outcome unit → Prop) tr ty ag id pl :
  (∀ tr' e, extends tr tr' → Q tr' (Threw e)) →
  (∀ tr', extends tr tr' → Q tr' (Returned tt)) →
  ensures P Q tr (emitEvent ty ag id pl).
Proof.
  intros Ht Hr. unfold emitEvent. cbn [call pbind ptry ensures].
  split; [by apply HP|]. intros [t|e]; cbn [pbind ensures]; [|apply Ht; auto with js].
  split; [by apply HP|]. intros [env|e]; cbn [pbind ptry ensures]; [|apply Ht; auto with js].
  split; [by apply HP|]. intros [[]|e]; cbn [pbind ptry pret ensures]; apply Hr; auto with js.
Qed.

Lemma markFailed_ok (Q : list (event WsAns) → outcome unit → Prop) tr r f code detail :
  (∀ tr' s p, extends tr tr' → held r f → fenced f tr' →
    transitionWorkspace (rec_status r) fail [(fenceValid, true); (failureKnown, true)] = Returned s →
    P tr' (tryTransition {| tr_workspaceId := rec_workspaceId r; expectedRowVersion := rowVersion r;
       expectedStatus := rec_status r; tr_to := s; trigger := fail; patch := p |})) →
  (∀ tr', extends tr tr' → Q tr' (Returned tt)) →
  ensures P Q tr (markFailed r f code detail).
Proof.
  intros Hcall Hr. unfold markFailed. apply ensures_ptry, ensures_pbind, transition_ok.
  - intros tr' s. apply Hcall.
  - intros tr' e He. cbn [pret ensures]. by apply Hr.
  - intros tr' s x He _ _ _ _. apply emitEvent_ok; intros tr2; cbn [pret ensures]; eauto with js.
Qed.
End Walk.

(** ** Creation *)

Definition said (c : WsCall) (a : WsAns c) (tr : list (event WsAns)) : Prop := answered c a ∈ tr.

Lemma said_extends c a tr tr' : extends tr tr' → said c a tr → said c a tr'.
Proof. apply extends_elem. Qed.
Lemma said_last c a tr : said c a (tr ++ [ev c (Returned a)]).
Proof. apply elem_of_app. right. by left. Qed.

#[export] Hint Resolve said_extends said_last : js.

Section CreateProperties.
Context `{Digest} (leaseTtlMs : Z) (checkoutExecution : CheckoutExecution).
Context (i : CreateWorkspaceInput).

(** The capability gate passed on the probed manifest. *)
Definition gate_passed (snapshotId version : string) (tr : list (event WsAns)) : Prop :=
  ∃ m p checked, said probe m tr ∧
    requireWorkspaceCapabilities m DEFAULT_WORKSPACE_CAPABILITY_PROFILE =
      Granted snapshotId p version checked ∧
    ∃ c, c ∈ capabilities m ∧ claim_name c = requiredCapability checkoutExecution ∧
      verified c = true.

(** The selector of the request was resolved to this checkout, at the pinned commit if any. *)
Definition ref_resolved (r : ResolvedCheckout) (tr : list (event WsAns)) : Prop :=
  said (resolve (in_repositoryId i) (in_selector i) (in_nowMs i)) r tr ∧
  full_sha (resolvedSha r) = true ∧
  remoteFingerprint r = "github.com/" +s canonicalOwner r +s "/" +s canonicalName r ∧
  ∀ sha, expectedShaOf (in_selector i) = Some sha → sha = resolvedSha r.

(** The plan of the request for this checkout. *)
Definition planned (r : ResolvedCheckout) (p : SafeCheckoutPlan) : Prop :=
  buildSafeCheckoutPlan (in_repositoryId i) (remoteFingerprint r) (resolvedSha r)
    checkoutExecution = Returned p.

(** The provider reports a ready workspace at exactly this commit of exactly this remote. *)
Definition provider_ready (snapshotId : string) (r : ResolvedCheckout)
    (tr : list (event WsAns)) : Prop :=
  ∃ c made, said (provider_create c) made tr ∧ planned r (checkout c) ∧
    create_capabilitySnapshotId c = snapshotId ∧ snap_status (snapshot made) = "ready" ∧
    snap_observedHeadSha (snapshot made) = Some (resolvedSha r) ∧
    snap_observedRemoteFingerprint (snapshot made) = Some (remoteFingerprint r).

(** An attestation of this checkout was stored. *)
Definition attested (r : ResolvedCheckout) (tr : list (event WsAns)) : Prop :=
  ∃ a, said (attest a) tt tr ∧ att_resolvedSha a = resolvedSha r ∧
    att_observedHeadSha a = resolvedSha r ∧ att_remoteFingerprint a = remoteFingerprint r.

Definition ready_proven (patch : list PatchMember) (tr : list (event WsAns)) : Prop :=
  ∃ snapshotId version r, gate_passed snapshotId version tr ∧ ref_resolved r tr ∧
    provider_ready snapshotId r tr ∧ attested r tr ∧ set_verifiedHeadSha (resolvedSha r) ∈ patch.

(** The fence of this run's new reservation. *)
Definition own_fence (f : WorkspaceFence) (tr : list (event WsAns)) : Prop :=
  ∃ n r, said (reserve n) r tr ∧ new_runId n = in_runId i ∧ f = fenceOf r.

(** What each call may assume of the calls before it. *)
Definition create_call (tr : list (event WsAns)) (c : WsCall) : Prop :=
  match c with
  | tryTransition t =>
      (∃ f, own_fence f tr ∧ fenced f tr ∧ tr_workspaceId t = workspaceId f) ∧
      step (expectedStatus t) (tr_to t) ∧ (tr_to t = READY → ready_proven (patch t) tr)
  | provider_create p =>
      (∃ f, own_fence f tr ∧ fenced f tr ∧ create_leaseToken p = leaseToken f ∧
        create_generation p = generation f) ∧
      ∃ snapshotId version r, gate_passed snapshotId version tr ∧ ref_resolved r tr ∧
        planned r (checkout p) ∧ create_capabilitySnapshotId p = snapshotId
  | provider_destroy _ => False
  | _ => True
  end.

(** What a returned reference rests on: the reservation of an identical request, or an
    acknowledged transition to READY. *)
Definition create_result (tr : list (event WsAns)) (o : outcome WorkspaceRef) : Prop :=
  match o with
  | Returned ref =>
      (∃ e, tr = [answered (loadByRunId (in_runId i)) (Some e)] ∧ bindingMismatch e i = None ∧
        ref = toRef e) ∨
      (∃ t x, said (tryTransition t) x tr ∧ tr_to t = READY ∧ applied x = true ∧
        ref = toRef (record x))
  | Threw _ => True
  end.

Lemma create_free tr c : free c → create_call tr c.
Proof. by destruct c. Qed.

Lemma gate_extends s v tr tr' : extends tr tr' → gate_passed s v tr → gate_passed s v tr'.
Proof. intros He (m & p & ch & Hm & Hr). exists m, p, ch. split; [eauto with js|done]. Qed.
Lemma ref_extends r tr tr' : extends tr tr' → ref_resolved r tr → ref_resolved r tr'.
Proof. intros He (Hr & Hrest). split; [eauto with js|done]. Qed.
Lemma provider_extends s r tr tr' :
  extends tr tr' → provider_ready s r tr → provider_ready s r tr'.
Proof. intros He (c & m & Hm & Hr). exists c, m. split; [eauto with js|done]. Qed.
Lemma own_extends f tr tr' : extends tr tr' → own_fence f tr → own_fence f tr'.
Proof. intros He (n & r & Hr & Hrest). exists n, r. split; [eauto with js|done]. Qed.

Hint Resolve gate_extends ref_extends provider_extends own_extends : js.

(** Every transition but the last needs the fence only. *)
Lemma create_transition (Q : list (event WsAns) → outcome WorkspaceRecord → Prop) tr r f t gs p :
  own_fence f tr →
  (∀ tr' e, Q tr' (Threw e)) →
  (t = verify_ok → ∀ tr', extends tr tr' → ready_proven p tr') →
  (∀ tr' s x, extends tr tr' → held r f →
    transitionWorkspace (rec_status r) t ((fenceValid, true) :: gs) = Returned s →
    applied x = true →
    answered (tryTransition {| tr_workspaceId := rec_workspaceId r;
       expectedRowVersion := rowVersion r; expectedStatus := rec_status r; tr_to := s;
       trigger := t; patch := p |}) x ∈ tr' → Q tr' (Returned (record x))) →
  ensures create_call Q tr (transition r f t gs p).
Proof.
  intros Hf Ht Hv Hr. apply transition_ok; [exact create_free| |by intros|exact Hr].
  intros tr' s He Hh Hl Hs. split_and!.
  - exists f. split_and!; [eauto with js|done|]. simpl. by destruct Hh.
  - by econstructor.
  - simpl. intros ->. apply Hv; [|done].
    apply transition_inv in Hs as (_ & e & Hin & _ & Hto). destruct t; in_cases Hin; by subst e.
Qed.

Lemma create_emit {B} (Q : list (event WsAns) → outcome B → Prop) tr ty ag id pl k :
  (∀ tr' e, Q tr' (Threw e)) →
  (∀ tr', extends tr tr' → ensures create_call Q tr' k) →
  ensures create_call Q tr (emitEvent ty ag id pl ;~ k).
Proof.
  intros Ht Hk. apply ensures_pbind, emitEvent_ok; [exact create_free|by intros|exact Hk].
Qed.

Lemma create_failed {B} (Q : list (event WsAns) → outcome B → Prop) tr r f code detail e :
  (∀ tr' e, Q tr' (Threw e)) → own_fence f tr →
  ensures create_call Q tr (markFailed r f code detail ;~ throw e).
Proof.
  intros Ht Hf. apply ensures_pbind, markFailed_ok; [exact create_free| |].
  - intros tr' s p He Hh Hl Hs. split_and!.
    + exists f. split_and!; [eauto with js|done|]. simpl. by destruct Hh.
    + by econstructor.
    + simpl. intros ->. apply transition_inv in Hs as (_ & x & Hin & _ & Hto).
      in_cases Hin; by subst x.
  - intros tr' _. apply Ht.
Qed.
Lemma provider_ready_intro snapshotId r tr c made checks :
  said (provider_create c) made tr → planned r (checkout c) →
  create_capabilitySnapshotId c = snapshotId → snap_status (snapshot made) = "ready" →
  ref_resolved r tr → verifyCheckout r (observationOf (snapshot made)) = Verified checks →
  provider_ready snapshotId r tr.
Proof.
  intros Hs Hp Hc Hst (_ & Hsha & Hrem & _) (Hhead & _ & Hfp & _)%verifyCheckout_ok.
  exists c, made. split_and!; try done.
  - simpl in Hhead. destruct (snap_observedHeadSha _); simpl in *; [by f_equal|].
    exfalso. by rewrite <- Hhead in Hsha.
  - simpl in Hfp. destruct (snap_observedRemoteFingerprint _); simpl in *; [by f_equal|].
    exfalso. by rewrite Hrem in Hfp.
Qed.

Lemma attested_ok w r o now a u :
  buildAttestation u w r o now = Returned a → observedHeadSha o = resolvedSha r →
  att_resolvedSha a = resolvedSha r ∧ att_observedHeadSha a = resolvedSha r ∧
  att_remoteFingerprint a = remoteFingerprint r.
Proof. unfold buildAttestation. intros Hb Ho. by destruct (verifyCheckout r o); simplify_eq/=. Qed.

Lemma verify_and_attest_ok tr w f snapshotId version r c made rec :
  own_fence f tr → gate_passed snapshotId version tr → ref_resolved r tr →
  said (provider_create c) made tr → planned r (checkout c) →
  create_capabilitySnapshotId c = snapshotId → snap_status (snapshot made) = "ready" →
  ensures create_call create_result tr (verify_and_attest i w f snapshotId r made rec).
Proof.
  intros Hf Hg Hr Hm Hp Hc Hst. unfold verify_and_attest.
  destruct (verifyCheckout r (observationOf (snapshot made))) as [checks|kind ex ob] eqn:Hv.
  2: { apply ensures_pbind, create_transition; [done..|]. intros tr' s x He _ _ _ _.
       apply create_emit; [done|]. intros tr2 _. by apply create_emit. }
  pose proof (provider_ready_intro _ _ _ _ _ _ Hm Hp Hc Hst Hr Hv) as Hready.
  apply verifyCheckout_ok in Hv as Hv'. destruct Hv' as (Hhead & _).
  cbn [call pbind ensures]. split; [done|]. intros [u|e]; cbn [pbind ensures]; [|done].
  destruct (buildAttestation _ _ _ _ _) as [a|e] eqn:Ha; cbn [call pbind ptry ensures]; [|done].
  split; [done|]. intros [[]|e]; cbn [pbind ptry ensures].
  - pose proof (attested_ok _ _ _ _ _ _ Ha Hhead) as Hatt.
    apply ensures_pbind, create_transition; [eauto with js|done| |].
    + intros _ tr' He. exists snapshotId, version, r. split_and!; [eauto with js..| |].
      * exists a. split; [eauto with js|done].
      * rewrite Hhead. by left.
    + intros tr' s x He Hh Hs Hx Hin. apply create_emit; [done|]. intros tr2 He2.
      apply create_emit; [done|]. intros tr3 He3. cbn [call pbind pret ensures].
      split; [done|]. intros [t|e]; cbn [pbind pret ensures]; [|done].
      right. eexists _, x. split_and!; [|cbn [tr_to]|done|done].
      * eapply extends_elem; [|exact Hin]. eauto with js.
      * apply transition_inv in Hs as (_ & y & Hy & _ & <-). in_cases Hy; by subst y.
  - apply ensures_pbind, ensures_pbind, create_transition; [eauto with js|done|done|].
    intros tr' s x He _ _ _ _. by apply create_emit.
Qed.

Lemma provision_ok tr w f selector snapshotId version r rec :
  own_fence f tr → gate_passed snapshotId version tr → ref_resolved r tr →
  ensures create_call create_result tr
    (provision checkoutExecution i w f selector snapshotId version r rec).
Proof.
  intros Hf Hg Hr. unfold provision. apply create_emit; [done|]. intros tr1 He1.
  apply ensures_pbind, create_transition; [eauto with js|done|done|].
  intros tr2 s x He2 Hh _ _ _. cbn [pbind ensures].
  destruct (buildSafeCheckoutPlan _ _ _ _) as [plan|e] eqn:Hplan; cbn [pbind ensures]; [|done].
  destruct (assertNoHostCheckout plan) as [[]|e]; cbn [pbind ensures]; [|done].
  destruct (workspaceCreationKey _ _) as [key|e]; cbn [pbind ensures]; [|done].
  destruct (assertWorkspaceKeyShape key) as [[]|e]; cbn [pbind ensures]; [|done].
  unfold providerCreate. apply ensures_pbind, ensures_pbind, assertCurrent_ok;
    [exact create_free|done|]. intros tr3 He3 Hh3 Hfen.
  apply ensures_pbind. cbn [call ptry ensures]. split.
  { split; [exists f; split_and!; [eauto with js|done|done|by destruct Hh3 as (_ & _ & ? & _)]|].
    exists snapshotId, version, r. split_and!; [eauto with js..|done|done]. }
  intros [made|e]; cbn [ptry ensures].
  2: { apply ensures_pbind. unfold markAmbiguous.
       apply ensures_pbind, create_transition; [eauto with js|done|done|].
       intros tr4 s4 x4 He4 _ _ _ _. by apply create_emit. }
  apply ensures_pbind, assertCurrent_ok; [exact create_free|done|].
  intros tr4 He4 _ _. cbn [pret ensures].
  set (c := {| create_idempotencyKey := key |}) in *.
  assert (Hm : said (provider_create c) made tr4).
  { eapply said_extends; [exact He4|]. apply said_last. }
  assert (Hx : extends tr tr4) by eauto 8 with js.
  destruct (negb (snap_status (snapshot made) =s? "ready")) eqn:Hst.
  - apply ensures_pbind, create_transition; [eauto with js|done|done|].
    intros tr5 s5 x5 He5 _ _ _ _. by apply create_emit.
  - breflect. apply ensures_pbind, create_transition; [eauto with js|done|done|].
    intros tr5 s5 x5 He5 _ _ _ _. apply create_emit; [done|]. intros tr6 He6.
    apply ensures_pbind, create_transition; [eauto with js|done|done|].
    intros tr7 s7 x7 He7 _ _ _ _.
    eapply (verify_and_attest_ok _ _ _ _ version _ c); eauto with js.
Qed.

Lemma gate_and_resolve_ok tr w r :
  own_fence (fenceOf r) tr →
  ensures create_call create_result tr
    (gate_and_resolve checkoutExecution i w (in_selector i) r).
Proof.
  intros Hf. unfold gate_and_resolve. apply create_emit; [done|]. intros tr1 He1.
  cbn [call pbind ensures]. split; [done|]. intros [m|e]; cbn [pbind ensures]; [|done].
  destruct (requireWorkspaceCapabilities m _) as [snap p version checked|cap why code] eqn:Hgate.
  2: { apply create_failed; [done|eauto with js]. }
  destruct (existsb _ (capabilities m)) eqn:Hcap; cbn [negb].
  2: { apply create_failed; [done|eauto with js]. }
  apply existsb_true in Hcap as (c & Hc & Hcv). breflect.
  assert (Hg : gate_passed snap version (tr1 ++ [ev probe (Returned m)])).
  { exists m, p, checked. split_and!; [apply said_last|done|eauto]. }
  apply ensures_pbind, ensures_ptry. cbn [call pbind ensures]. split; [done|].
  intros [raw|e]; cbn [pbind ensures].
  2: { apply create_failed; [done|eauto with js]. }
  destruct (parseResolvedCheckout raw) as [res|e] eqn:Hp.
  2: { apply create_failed; [done|eauto with js]. }
  apply parseResolvedCheckout_ok in Hp as (-> & _ & _ & _ & Hsha & Hrem & _).
  destruct (match expectedShaOf (in_selector i) with Some _ => _ | None => _ end) eqn:Hpin.
  { apply create_failed; [done|eauto with js]. }
  apply provision_ok; [eauto with js|eauto with js|].
  split_and!; [apply said_last|done|done|].
  intros sha Hs. rewrite Hs in Hpin. by breflect.
Qed.

(* @prop safety 2.5 : create gate_and_resolve provision verify_and_attest transition assertCurrent providerCreate markFailed markAmbiguous emitEvent bindingMismatch toRef *)
(** C6. A workspace becomes READY only with proof, whatever its ports answer: the transition to
    READY is attempted only after the capability gate accepted the probed manifest and the
    checkout channel is verified, the selector was resolved to a full commit of the repository
    (the pinned one, if the selector pins one), the provider was asked for exactly that commit
    of exactly that remote with the safe plan and reported ready with that head and that remote,
    and the attestation was stored; every transition and every provider call carries the run's
    own reservation and directly follows a clock reading before its lease expires; nothing is
    ever destroyed; and a reference is returned only for an identical earlier request or after
    an acknowledged transition to READY. *)
Theorem workspace_ready_proof :
  ensures create_call create_result [] (create leaseTtlMs checkoutExecution i).
Proof.
  unfold create, parseCheckoutSelector. destruct (selector_valid (in_selector i)); [|done].
  cbn [pbind]. destruct (assertBoundaryIds i) as [[]|e]; [|done].
  cbn [call pbind ensures]. split; [done|]. intros [[e|]|e]; cbn [pbind ensures]; [| |done].
  - destruct (bindingMismatch e i) eqn:Hb; [done|]. left. by exists e.
  - split; [done|]. intros [w|e]; cbn [pbind ensures]; [|done].
    split; [done|]. intros [token|e]; cbn [pbind ensures]; [|done].
    split; [done|]. intros [r|e]; cbn [pbind ensures]; [|done].
    apply gate_and_resolve_ok. eexists _, r. split_and!; [apply said_last|done|done].
Qed.
End CreateProperties.

(** ** Destruction *)

(** A record the store has answered. *)
Definition stored (r : WorkspaceRecord) (tr : list (event WsAns)) : Prop :=
  (∃ w, said (load w) r tr) ∨ (∃ t x, said (tryTransition t) x tr ∧ r = record x).

(** Why a workspace may be recorded as destroyed: the provider says it is gone, or no provider
    workspace is recorded. *)
Definition gone (tr : list (event WsAns)) : Prop :=
  (∃ p, said (provider_destroy p) true tr) ∨
  (∃ r, stored r tr ∧ rec_providerWorkspaceId r = None).

Definition destroy_call (f : WorkspaceFence) (tr : list (event WsAns)) (c : WsCall) : Prop :=
  match c with
  | tryTransition t =>
      fenced f tr ∧ tr_workspaceId t = workspaceId f ∧ step (expectedStatus t) (tr_to t) ∧
      (tr_to t = DESTROYING ∨ tr_to t = DESTROYED ∧ gone tr ∨
       tr_to t = QUARANTINED ∧ ∃ p, said (provider_destroy p) false tr)
  | provider_destroy p =>
      fenced f tr ∧ destroy_leaseToken p = leaseToken f ∧
      ∃ r, stored r tr ∧ held r f ∧ rec_providerWorkspaceId r = Some (destroy_providerWorkspaceId p)
  | provider_create _ => False
  | _ => True
  end.

Definition destroy_result (tr : list (event WsAns)) (o : outcome DestroyOutcome) : Prop :=
  match o with
  | Returned destroyed =>
      (∃ w r, said (load w) r tr ∧ rec_status r = DESTROYED) ∨
      (∃ t x, said (tryTransition t) x tr ∧ tr_to t = DESTROYED ∧ applied x = true ∧ gone tr)
  | Returned quarantined =>
      ∃ t x, said (tryTransition t) x tr ∧ tr_to t = QUARANTINED ∧ applied x = true
  | Returned pending_cleanup => False
  | Threw _ => True
  end.

Lemma stored_extends r tr tr' : extends tr tr' → stored r tr → stored r tr'.
Proof. intros He [(w & H)|(t & x & H & ->)]; [left|right]; eauto 6 with js. Qed.
Lemma gone_extends tr tr' : extends tr tr' → gone tr → gone tr'.
Proof.
  intros He [(p & H)|(r & H & Hn)]; [left; eauto with js|].
  right. exists r. split; [by eapply stored_extends|done].
Qed.

#[export] Hint Resolve stored_extends gone_extends : js.

Section DestroyProperties.
Context (f : WorkspaceFence).

Lemma destroy_free tr c : free c → destroy_call f tr c.
Proof. by destruct c. Qed.

(** Where each trigger leads. *)
Definition destroy_goal (t : WorkspaceTrigger) (tr : list (event WsAns)) : Prop :=
  match t with
  | begin_destroy => True
  | destroy_confirmed => gone tr
  | destroy_uncertain => ∃ p, said (provider_destroy p) false tr
  | _ => False
  end.

Lemma destroy_goal_extends t tr tr' : extends tr tr' → destroy_goal t tr → destroy_goal t tr'.
Proof. intros He. destruct t; simpl; try done; [eauto with js|]. intros [p Hp]. eauto with js. Qed.

Lemma destroy_transition (Q : list (event WsAns) → outcome WorkspaceRecord → Prop) tr r t gs p :
  destroy_goal t tr →
  (∀ tr' e, Q tr' (Threw e)) →
  (∀ tr' u x, extends tr tr' → held r f → applied x = true → trigger u = t →
    said (tryTransition u) x tr' →
    edge_to <$> isLegalWorkspaceEdge (rec_status r) t = Some (tr_to u) →
    Q tr' (Returned (record x))) →
  ensures (destroy_call f) Q tr (transition r f t gs p).
Proof.
  intros Hg Ht Hr. apply transition_ok; [exact destroy_free| |by intros|].
  - intros tr' s He Hh Hl Hs. split_and!; [done|simpl; by destruct Hh|by econstructor|].
    pose proof (destroy_goal_extends _ _ _ He Hg) as Hg'. cbn [tr_to].
    apply transition_inv in Hs as (_ & e & Hin & _ & <-).
    destruct t; try done; simpl in Hg'; in_cases Hin; subst e; eauto.
  - intros tr' s x He Hh Hs Hx Hin. eapply Hr; [done..| |exact Hin|]; [done|].
    unfold transitionWorkspace, resolveWorkspaceEdge in Hs. cbn [tr_to].
    destruct (isTerminalWorkspace _); [done|]. destruct (isLegalWorkspaceEdge _ _); [|done].
    simpl in *. by destruct (guard_of t _) as [[] ?]; simplify_eq/=.
Qed.

Lemma confirmed_to s s' :
  edge_to <$> isLegalWorkspaceEdge s destroy_confirmed = Some s' → s' = DESTROYED.
Proof. by destruct s; intros [= <-]. Qed.
Lemma uncertain_to s s' :
  edge_to <$> isLegalWorkspaceEdge s destroy_uncertain = Some s' → s' = QUARANTINED.
Proof. by destruct s; intros [= <-]. Qed.

Lemma destroy_confirm tr r now :
  gone tr →
  ensures (destroy_call f) destroy_result tr
    (transition r f destroy_confirmed [(providerProvesDestroyed, true)] [set_destroyedAtMs now] ;~
     pret destroyed).
Proof.
  intros Hg. apply ensures_pbind, destroy_transition; [done|done|].
  intros tr' u x He _ Hx _ Hu Hto%confirmed_to. right. exists u, x.
  split_and!; [done..|by eapply gone_extends].
Qed.

Lemma destroy_ok tr w reason r :
  stored r tr → ensures (destroy_call f) destroy_result tr (destroy w reason f r).
Proof.
  intros Hr. unfold destroy. apply ensures_pbind, emitEvent_ok; [exact destroy_free|done|].
  intros tr1 He1. destruct (rec_providerWorkspaceId r) as [p|] eqn:Hp.
  2: { cbn [call pbind ensures]. split; [done|]. intros [t|e]; cbn [pbind ensures]; [|done].
       apply destroy_confirm. right. exists r. split; [|done]. eauto 6 with js. }
  destruct (workspaceDestroyKey _ _) as [key|e]; cbn [pbind ensures]; [|done].
  destruct (assertWorkspaceKeyShape key) as [[]|e]; cbn [pbind ensures]; [|done].
  unfold providerDestroy. apply ensures_pbind, ensures_pbind, assertCurrent_ok;
    [exact destroy_free|done|]. intros tr2 He2 Hh Hf. cbn [call pbind ensures]. split.
  { split_and!; [done|done|]. exists r. split_and!; [|done|done]. eauto 6 with js. }
  intros [d|e]; cbn [pbind ensures]; [|done].
  apply ensures_pbind, assertCurrent_ok; [exact destroy_free|done|].
  intros tr3 He3 _ _. cbn [pret ensures].
  match type of He3 with extends (_ ++ [ev ?c _]) _ =>
    assert (Hd : said c d tr3) by (eapply said_extends; [exact He3|apply said_last]) end.
  destruct d; cbn [call pbind ensures].
  - split; [done|]. intros [t|e]; cbn [pbind ensures]; [|done].
    apply destroy_confirm. left. eexists. eauto with js.
  - apply ensures_pbind, destroy_transition; [simpl; eauto|done|].
    intros tr4 u x He4 _ Hx _ Hu Hto%uncertain_to.
    apply ensures_pbind, emitEvent_ok; [exact destroy_free|done|].
    intros tr5 He5. cbn [pret ensures]. exists u, x. split_and!; [eauto with js|done|done].
Qed.

(** Destruction is fenced and never guessed while a provider workspace is recorded: whatever
    the ports answer, every transition and every provider call of a destruction directly follows
    a clock reading before the caller's lease expires and carries the caller's lease, the
    provider is asked only to destroy the workspace recorded for the caller's record, DESTROYED
    is recorded and reported only when the provider proved it gone, when the record says so
    already, or when no provider workspace was ever recorded, and an unproven destruction is
    recorded as QUARANTINED. *)
Theorem destruction_fenced w reason :
  ensures (destroy_call f) destroy_result [] (requestDestroy w reason f).
Proof.
  unfold requestDestroy. destruct (negb _); [done|]. cbn [call pbind ensures].
  split; [done|]. intros [r|e]; cbn [pbind ensures]; [|done].
  case_decide as Hd; [left; exists w, r; split; [apply said_last|done]|].
  apply ensures_pbind, assertCurrent_ok; [exact destroy_free|done|]. intros tr1 He1 _ _.
  assert (Hr : stored r tr1) by (left; exists w; eapply said_extends; [exact He1|apply said_last]).
  case_decide; [by apply destroy_ok|]. cbn [call pbind ensures]. split; [done|].
  intros [t|e]; cbn [pbind ensures]; [|done].
  apply ensures_pbind, destroy_transition; [done|done|].
  intros tr2 u x He2 _ _ _ Hu _. apply destroy_ok. right. eauto.
Qed.
End DestroyProperties.

(** ** An expired lease *)

(** A workspace whose lease has run out is stuck: once the clock has reached the expiry of the
    caller's fence, the manager neither destroys it -- not even for the reason lease_expired --
    nor renews the lease; both are refused with WORKSPACE_FENCE_REJECTED after reading the row
    and the clock, without any other call, so the workspace and its provider resource stay as
    they are for ever. *)
Theorem expired_lease_is_stuck {W} (port : ∀ c, W → outcome (WsAns c) * W) (ttl : Z) x y z w reason f r t
  (Hreason : reason ∈ DESTROY_REASONS)
  (Hload : port (load w) x = (Returned r, y)) (Hclock : port clock y = (Returned t, z))
  (Hlive : rec_status r ≠ DESTROYED) (Hexpired : leaseExpiresAtMs f ≤ t) :
  let refused A := (Threw (A := A) (GuardError "WORKSPACE_FENCE_REJECTED"),
                    [answered (load w) r; answered clock t], z) in
  exec port (requestDestroy w reason f) x = refused DestroyOutcome ∧
  exec port (renewLease ttl w f) x = refused WorkspaceFence.
Proof.
  intros refused.
  assert (Ha : assertFenceCurrent (fenceOf r) f t = Threw (GuardError "WORKSPACE_FENCE_REJECTED")).
  { unfold assertFenceCurrent, isLeaseExpired. apply Z.leb_le in Hexpired. rewrite Hexpired.
    by repeat case_match. }
  split.
  - unfold requestDestroy. apply str_in_spec in Hreason. rewrite Hreason. cbn [negb call pbind exec].
    rewrite Hload. rewrite decide_False by done. unfold assertCurrent. cbn [call pbind exec].
    rewrite Hclock. cbn [pbind exec]. by rewrite Ha.
  - unfold renewLease, assertCurrent. cbn [call pbind exec]. rewrite Hload. cbn [call pbind exec].
    rewrite Hclock. cbn [pbind exec]. by rewrite Ha.
Qed.

(** ** A world of ports

    A store with one row, the provider's live workspaces by idempotency key, and a clock.  With
    [lossy] the provider creates the workspace and its answer is lost. *)

Record World := { row : option WorkspaceRecord; live : list string; time : Z; lossy : bool }.

Definition set_row (w : World) (r : WorkspaceRecord) : World :=
  {| row := Some r; live := live w; time := time w; lossy := lossy w |}.
Definition set_live (w : World) (l : list string) : World :=
  {| row := row w; live := l; time := time w; lossy := lossy w |}.

(** The row after a transition; [f] picks the member of the patch, the last one winning. *)
Definition patched {A} (f : PatchMember → option A) (p : list PatchMember) (old : option A)
  : option A := foldl (λ o m, match f m with Some a => Some a | None => o end) old p.

Definition moved (t : WorkspaceTransitionInput) (r : WorkspaceRecord) : WorkspaceRecord := {|
  rec_workspaceId := rec_workspaceId r; rec_runId := rec_runId r;
  rec_sessionId := rec_sessionId r; rec_repositoryId := rec_repositoryId r;
  rec_selector := rec_selector r; requestedRefKind := requestedRefKind r;
  requestedRef := requestedRef r;
  rec_resolvedSha := patched (λ m, match m with set_resolvedSha s => Some s | _ => None end)
                       (patch t) (rec_resolvedSha r);
  rec_verifiedHeadSha :=
    patched (λ m, match m with set_verifiedHeadSha s => Some s | _ => None end)
      (patch t) (rec_verifiedHeadSha r);
  rec_providerWorkspaceId :=
    patched (λ m, match m with set_providerWorkspaceId s => Some s | _ => None end)
      (patch t) (rec_providerWorkspaceId r);
  rec_providerVersion := rec_providerVersion r;
  rec_capabilitySnapshotId := rec_capabilitySnapshotId r;
  rec_limitProfileId := rec_limitProfileId r; rec_status := tr_to t;
  rec_generation := rec_generation r; leaseOwner := leaseOwner r;
  rec_leaseToken := rec_leaseToken r; rec_leaseExpiresAtMs := rec_leaseExpiresAtMs r;
  rowVersion := rowVersion r + 1; createdAtMs := createdAtMs r; readyAtMs := readyAtMs r;
  destroyedAtMs := destroyedAtMs r; failureCode := failureCode r;
  failureDetailRedacted := failureDetailRedacted r |}.

Definition reserved (n : WorkspaceReservation) : WorkspaceRecord := {|
  rec_workspaceId := new_workspaceId n; rec_runId := new_runId n;
  rec_sessionId := new_sessionId n; rec_repositoryId := new_repositoryId n;
  rec_selector := new_selector n; requestedRefKind := selector_kind (new_selector n);
  requestedRef := describeSelector (new_selector n); rec_resolvedSha := None;
  rec_verifiedHeadSha := None; rec_providerWorkspaceId := None; rec_providerVersion := None;
  rec_capabilitySnapshotId := None; rec_limitProfileId := new_limitProfileId n;
  rec_status := REQUESTED; rec_generation := new_generation n;
  leaseOwner := Some (new_leaseOwner n); rec_leaseToken := Some (new_leaseToken n);
  rec_leaseExpiresAtMs := Some (new_leaseExpiresAtMs n); rowVersion := 1;
  createdAtMs := new_createdAtMs n; readyAtMs := None; destroyedAtMs := None;
  failureCode := None; failureDetailRedacted := None |}.

Definition sample_sha : string := "0123456789abcdef0123456789abcdef01234567".
Definition sample_id : string := "22222222-2222-4222-8222-222222222222".

Definition world_port (c : WsCall) (w : World) : outcome (WsAns c) * World :=
  match c return outcome (WsAns c) * World with
  | clock => (Returned (time w), w)
  | randomUUID => (Returned sample_id, w)
  | loadByRunId _ => (Returned (row w), w)
  | load _ => (match row w with Some r => Returned r | None => Threw (GuardError "NOT_FOUND") end, w)
  | reserve n => (Returned (reserved n), set_row w (reserved n))
  | tryTransition t =>
      match row w with
      | Some r =>
          if (rowVersion r =? expectedRowVersion t) && bool_decide (rec_status r = expectedStatus t)
          then (Returned {| applied := true; record := moved t r |}, set_row w (moved t r))
          else (Returned {| applied := false; record := r |}, w)
      | None => (Threw (GuardError "NOT_FOUND"), w)
      end
  | store_renewLease _ => (Threw (PlainError "unused"), w)
  | probe =>
      (Returned {| provider := "trueforge"; man_providerVersion := "1.0.0";
         capabilities := map (λ n, {| claim_name := n; verified := true |})
                           WORKSPACE_CAPABILITY_NAMES |}, w)
  | resolve repository selector now =>
      (Returned {| res_repositoryId := repository; canonicalOwner := "devguard";
         canonicalName := "demo"; res_selector := selector; resolvedSha := sample_sha;
         remoteFingerprint := "github.com/devguard/demo"; resolvedAtMs := now |}, w)
  | provider_create i =>
      let w' := set_live w (create_idempotencyKey i :: live w) in
      if lossy w then (Threw (PlainError "timeout"), w')
      else (Returned {| providerWorkspaceId := "p1"; created := true;
              snapshot := {| snap_providerWorkspaceId := "p1"; snap_status := "ready";
                snap_observedHeadSha := Some (plan_sha (checkout i));
                snap_observedRemoteFingerprint := Some (plan_remoteFingerprint (checkout i));
                snap_treeHash := None |} |}, w')
  | provider_destroy _ => (Returned true, set_live w [])
  | attest _ => (Returned tt, w)
  | makeSandboxEvent _ _ _ _ _ => (Returned "envelope", w)
  | emit _ => (Returned tt, w)
  end.

Definition sample_request : CreateWorkspaceInput :=
  {| in_runId := sample_id; in_sessionId := None; in_repositoryId := sample_id;
     in_selector := branch "main" None; in_limitProfileId := "default"; in_nowMs := 1000 |}.

Definition start (lost : bool) : World := {| row := None; live := []; time := 1000; lossy := lost |}.

Definition run_create (lost : bool) : outcome WorkspaceRef * list (event WsAns) * World :=
  let _ : Digest := λ s, s in exec world_port (create 60000 sandboxed_git sample_request) (start lost).

Definition status_of (w : World) : option WorkspaceStatus := rec_status <$> row w.

Example create_reaches_ready :
  (ref_status <$> match (run_create false).1.1 with Returned r => Some r | _ => None end,
   status_of (run_create false).2, live (run_create false).2) =
  (Some READY, Some READY, ["devguard/workspace/" +s sample_id +s "/v1"]).
Proof. by vm_compute. Qed.

Definition sample_fence : WorkspaceFence :=
  {| workspaceId := sample_id; runId := sample_id; generation := 1; leaseToken := sample_id;
     leaseExpiresAtMs := 61000 |}.

(** A workspace whose creation answer was lost is reported destroyed while it lives on: when the
    provider creates the workspace but its answer is lost, the run is quarantined without a
    provider id, and destroying it afterwards records DESTROYED and returns destroyed without
    ever asking the provider, whose workspace is still live. *)
Theorem lost_creation_called_destroyed :
  let w := (run_create true).2 in
  let '(o, tr, w') := exec world_port (requestDestroy sample_id "cleanup" sample_fence) w in
  status_of w = Some QUARANTINED ∧ o = Returned destroyed ∧ status_of w' = Some DESTROYED ∧
  live w' = ["devguard/workspace/" +s sample_id +s "/v1"] ∧
  Forall (λ e, match ev_call e with provider_destroy _ => False | _ => True end) tr.
Proof. vm_compute. repeat constructor. Qed.

(** The stuck case: the same world once the clock has passed the lease. *)
Definition late : World :=
  {| row := row (run_create false).2; live := live (run_create false).2; time := 61000;
     lossy := false |}.

Lemma expired_lease_is_stuck_witness :
  (exec world_port (requestDestroy sample_id "lease_expired" sample_fence) late).1.1 =
    Threw (GuardError "WORKSPACE_FENCE_REJECTED") ∧
  (exec world_port (renewLease 60000 sample_id sample_fence) late).1.1 =
    Threw (GuardError "WORKSPACE_FENCE_REJECTED").
Proof.
  destruct (row late) as [r|] eqn:Hr; [|by vm_compute in Hr].
  destruct (expired_lease_is_stuck world_port 60000 late late late sample_id "lease_expired"
    sample_fence r 61000) as [-> ->]; [by vm_compute; repeat constructor| | | |done|done].
  - cbn [world_port]. by rewrite Hr.
  - done.
  - vm_compute in Hr. injection Hr as <-. done.
Defined.
