(* ===== verification/Definitions.v ===== *)
(** * Workflow definitions

    [packages/workflows/src/definitions/]: the contracts of workflow definitions and skills
    ([contracts.ts]), and the registry of immutable, versioned definitions with its digests,
    resolution and run-bound snapshots ([registry.ts]).  The zod schemas are the boolean checks
    they declare; the shape of a value is its record type.  The canonical digest serializes a
    step in the order of its interface. *)

From S2P Require Import Prelude JsString JsDate Effects Json CanonicalJson.

(** ** Contracts *)

(* @src packages/workflows/src/definitions/contracts.ts:15-22 DefinitionStatus *)
Inductive DefinitionStatus := DISCOVERED | VALIDATING | ACTIVE | DEPRECATED | RETIRED.

(* @src packages/workflows/src/definitions/contracts.ts:24-25 TrustTier *)
Inductive TrustTier := global_core | workflow_tier.

Inductive StepKind := turn | validator | command | approval | published.
Inductive FailureBehavior := fail_run | stop | repair_turn.

#[export] Instance DefinitionStatus_eq_dec : EqDecision DefinitionStatus.
Proof. solve_decision. Defined.
#[export] Instance TrustTier_eq_dec : EqDecision TrustTier.
Proof. solve_decision. Defined.
#[export] Instance StepKind_eq_dec : EqDecision StepKind.
Proof. solve_decision. Defined.
#[export] Instance FailureBehavior_eq_dec : EqDecision FailureBehavior.
Proof. solve_decision. Defined.

Definition status_name (s : DefinitionStatus) : string :=
  match s with
  | DISCOVERED => "DISCOVERED" | VALIDATING => "VALIDATING" | ACTIVE => "ACTIVE"
  | DEPRECATED => "DEPRECATED" | RETIRED => "RETIRED"
  end.

Definition kind_name (k : StepKind) : string :=
  match k with
  | turn => "turn" | validator => "validator" | command => "command" | approval => "approval"
  | published => "published"
  end.

Definition behavior_name (b : FailureBehavior) : string :=
  match b with fail_run => "fail_run" | stop => "stop" | repair_turn => "repair_turn" end.

Definition tier_name (t : TrustTier) : string :=
  match t with global_core => "global_core" | workflow_tier => "workflow" end.

(* @src packages/workflows/src/definitions/contracts.ts:42-50 WorkflowStepTemplate *)
Record WorkflowStepTemplate := {
  step_id : string;
  step_kind : StepKind;
  actionTypes : list string;
  maxRetries : Z;
  maxWallMillis : Z;
  failureBehavior : FailureBehavior;
  validatorIds : list string;
}.

(* @src packages/workflows/src/definitions/contracts.ts:70-85 WorkflowDefinition *)
Record WorkflowDefinition := {
  id : string;
  semanticVersion : string;
  status : DefinitionStatus;
  enabled : bool;
  agentDefinitionId : string;
  inputSchemaId : string;
  outputSchemaId : string;
  steps : list WorkflowStepTemplate;
  allowedActionTypes : list string;
  requiredCapabilities : list string;
  artifactDeclarations : list string;
  skillBundleRefs : list string;
  compatibilityRange : string;
  digest : string;
}.

(* @src packages/workflows/src/definitions/contracts.ts:99-108 SkillAsset *)
Record SkillAsset := {
  skill_id : string;
  skill_version : string;
  trustTier : TrustTier;
  mediaType : string;
  contentDigest : string;
  requiredContextVariables : list string;
  prohibitedMutableFields : list string;
  sourceProvenance : string;
}.

(** [z.array(element).min(a).max(b)]. *)
Definition array_of {A} (p : A → bool) (a b : Z) (l : list A) : bool :=
  forallb p l && (a <=? Z.of_nat (length l)) && (Z.of_nat (length l) <=? b).

(* @src packages/workflows/src/definitions/contracts.ts:27-41 stepTemplateSchema *)
Definition stepTemplateSchema (s : WorkflowStepTemplate) : bool :=
  len_between 1 64 (step_id s) &&
  array_of (len_between 1 64) 0 32 (actionTypes s) &&
  (0 <=? maxRetries s) && (maxRetries s <=? 8) &&
  (1 <=? maxWallMillis s) && (maxWallMillis s <=? 24 * 60 * 60000) &&
  array_of (len_between 1 64) 0 16 (validatorIds s).

(* @src packages/workflows/src/definitions/contracts.ts:52-69 workflowDefinitionSchema *)
Definition workflowDefinitionSchema (d : WorkflowDefinition) : bool :=
  len_between 1 64 (id d) && three_numbers (semanticVersion d) &&
  len_between 1 64 (agentDefinitionId d) && len_between 1 64 (inputSchemaId d) &&
  len_between 1 64 (outputSchemaId d) && array_of stepTemplateSchema 1 64 (steps d) &&
  array_of (len_between 1 64) 0 64 (allowedActionTypes d) &&
  array_of (len_between 1 64) 0 32 (requiredCapabilities d) &&
  array_of (len_between 1 128) 0 32 (artifactDeclarations d) &&
  array_of (len_between 1 128) 0 32 (skillBundleRefs d) &&
  len_between 1 64 (compatibilityRange d) && hex64 (digest d).

(* @src packages/workflows/src/definitions/contracts.ts:87-98 skillAssetSchema *)
Definition skillAssetSchema (s : SkillAsset) : bool :=
  len_between 1 128 (skill_id s) && len_between 1 32 (skill_version s) &&
  len_between 1 64 (mediaType s) && hex64 (contentDigest s) &&
  array_of (len_between 0 64) 0 32 (requiredContextVariables s) &&
  array_of (len_between 0 64) 0 32 (prohibitedMutableFields s) &&
  len_between 0 200 (sourceProvenance s).

(* @src packages/workflows/src/definitions/contracts.ts:111-118 WorkflowDefinitionSnapshot *)
Record WorkflowDefinitionSnapshot := {
  snap_id : string;
  snap_definitionId : string;
  snap_semanticVersion : string;
  normalizedJsonDigest : string;
  normalizedJson : string;
  capturedAtIso : string;
}.

(* @src packages/workflows/src/definitions/contracts.ts:120-127 WorkflowCatalogEntry *)
Record WorkflowCatalogEntry := {
  entry_id : string;
  entry_version : string;
  entry_name : string;
  available : bool;
  blockReason : option string;
  entry_inputSchemaId : string;
}.

Inductive RegisterCode := WORKFLOW_VERSION_IMMUTABLE | INVALID | BLOCKED_CAPABILITY | UNKNOWN_REFERENCE.

(* @src packages/workflows/src/definitions/contracts.ts:129-136 RegisterResult *)
Inductive RegisterResult :=
  | Registered (definition : WorkflowDefinition)
  | Rejected (code : RegisterCode) (detail : string).

(** ** The registry *)

(* @src packages/workflows/src/definitions/registry.ts:22-26 RegistryKnownIds *)
Record RegistryKnownIds := {
  known_actionTypes : gset string;
  known_capabilities : gset string;
  known_validators : gset string;
}.

(** [{ available, reason }], and the optional port that computes it. *)
Record Availability := { is_available : bool; reason : option string }.

(* @src packages/workflows/src/definitions/registry.ts:28-35 WorkflowDefinitionRegistryDeps *)
Record WorkflowDefinitionRegistryDeps := {
  known : RegistryKnownIds;
  featureAvailability : option (WorkflowDefinition → Availability);
}.

(** Definitions in insertion order, as a [Map] iterates them. *)
(* @src packages/workflows/src/definitions/registry.ts:37-41 WorkflowDefinitionRegistry *)
Record Registry := {
  definitions : list (string * WorkflowDefinition);
  skills : gmap string SkillAsset;
  generation : Z;
}.

Definition empty_registry : Registry := {| definitions := []; skills := ∅; generation := 0 |}.

Definition strings (l : list string) : json := JArr (map JStr l).

Definition step_json (s : WorkflowStepTemplate) : json :=
  JObj [("id", JStr (step_id s)); ("kind", JStr (kind_name (step_kind s)));
        ("actionTypes", strings (actionTypes s)); ("maxRetries", JNum (maxRetries s));
        ("maxWallMillis", JNum (maxWallMillis s));
        ("failureBehavior", JStr (behavior_name (failureBehavior s)));
        ("validatorIds", strings (validatorIds s))].

Definition definition_json (d : WorkflowDefinition) : json :=
  JObj [("id", JStr (id d)); ("semanticVersion", JStr (semanticVersion d));
        ("status", JStr (status_name (status d))); ("enabled", JBool (enabled d));
        ("agentDefinitionId", JStr (agentDefinitionId d));
        ("inputSchemaId", JStr (inputSchemaId d)); ("outputSchemaId", JStr (outputSchemaId d));
        ("steps", JArr (map step_json (steps d)));
        ("allowedActionTypes", strings (allowedActionTypes d));
        ("requiredCapabilities", strings (requiredCapabilities d));
        ("artifactDeclarations", strings (artifactDeclarations d));
        ("skillBundleRefs", strings (skillBundleRefs d));
        ("compatibilityRange", JStr (compatibilityRange d)); ("digest", JStr (digest d))].

Definition skill_json (s : SkillAsset) : json :=
  JObj [("id", JStr (skill_id s)); ("version", JStr (skill_version s));
        ("trustTier", JStr (tier_name (trustTier s))); ("mediaType", JStr (mediaType s));
        ("contentDigest", JStr (contentDigest s));
        ("requiredContextVariables", strings (requiredContextVariables s));
        ("prohibitedMutableFields", strings (prohibitedMutableFields s));
        ("sourceProvenance", JStr (sourceProvenance s))].

(* @src packages/workflows/src/definitions/registry.ts:191-199 stableStringify *)
Fixpoint stableStringify (v : json) : string :=
  match v with
  | JArr l => "[" +s join "," (map stableStringify l) +s "]"
  | JObj l =>
      "{" +s join "," (map (λ '(k, t), quote k +s ":" +s t)
                         (js_sort by_key (map (λ '(k, v), (k, stableStringify v)) l))) +s "}"
  | v => stringify v
  end.

Section Registry.
Context `{Digest}.

(** The value whose digest is taken. *)
(* @src packages/workflows/src/definitions/registry.ts:165-175 canonicalDigest *)
Definition digest_json (d : WorkflowDefinition) : json :=
  JObj [("id", JStr (id d)); ("version", JStr (semanticVersion d));
        ("steps", JArr (map step_json (steps d))); ("schemaOutput", JStr (outputSchemaId d))].

(* @src packages/workflows/src/definitions/registry.ts:165-175 canonicalDigest *)
Definition canonicalDigest (d : WorkflowDefinition) : string := sha256 (stringify (digest_json d)).

Definition def_key (i version : string) : string := i +s "@" +s version.

(* @src packages/workflows/src/definitions/registry.ts:47-55 WorkflowDefinitionRegistry.registerSkill *)
Definition registerSkill (skill : SkillAsset) (r : Registry) : outcome unit * Registry :=
  if negb (skillAssetSchema skill) then (Threw (PlainError "INVALID_SKILL"), r)
  else
    let key := def_key (skill_id skill) (skill_version skill) in
    let store := (Returned tt, {| definitions := definitions r;
                                  skills := <[key := skill]> (skills r);
                                  generation := generation r |}) in
    match skills r !! key with
    | Some existing =>
        if negb (stableStringify (skill_json existing) =s? stableStringify (skill_json skill))
        then (Threw (PlainError "WORKFLOW_VERSION_IMMUTABLE"), r)
        else store
    | None => store
    end.

(** [for (const x of l) if (...) return ...]. *)
Fixpoint first_some {A B} (f : A → option B) (l : list A) : option B :=
  match l with
  | [] => None
  | x :: l => match f x with Some e => Some e | None => first_some f l end
  end.

Definition unknown_in (s : gset string) (what : string) (x : string) : option string :=
  if bool_decide (x ∈ s) then None else Some (what +s " " +s x).

Definition or_else {A} (a b : option A) : option A := match a with Some _ => a | None => b end.

(** The loops over the cross references: the detail of the first unknown one. *)
(* @src packages/workflows/src/definitions/registry.ts:66-86 WorkflowDefinitionRegistry.register *)
Definition unknown_reference (k : RegistryKnownIds) (d : WorkflowDefinition) : option string :=
  or_else (first_some (unknown_in (known_actionTypes k) "action") (allowedActionTypes d))
  (or_else
    (first_some (λ step,
       or_else (first_some (λ a, if str_in a (allowedActionTypes d) then None
                                 else Some ("action " +s a +s " exceeds ceiling"))
                  (actionTypes step))
       (or_else (first_some (unknown_in (known_actionTypes k) "action") (actionTypes step))
                (first_some (unknown_in (known_validators k) "validator") (validatorIds step))))
       (steps d))
    (first_some (unknown_in (known_capabilities k) "capability") (requiredCapabilities d))).

Definition availability (deps : WorkflowDefinitionRegistryDeps) (d : WorkflowDefinition)
  : Availability :=
  match featureAvailability deps with
  | Some f => f d
  | None => {| is_available := true; reason := None |}
  end.

Definition activate (d : WorkflowDefinition) : WorkflowDefinition :=
  {| id := id d; semanticVersion := semanticVersion d; status := ACTIVE; enabled := enabled d;
     agentDefinitionId := agentDefinitionId d; inputSchemaId := inputSchemaId d;
     outputSchemaId := outputSchemaId d; steps := steps d;
     allowedActionTypes := allowedActionTypes d; requiredCapabilities := requiredCapabilities d;
     artifactDeclarations := artifactDeclarations d; skillBundleRefs := skillBundleRefs d;
     compatibilityRange := compatibilityRange d; digest := digest d |}.

Definition lookup_key {A} (key : string) (l : list (string * A)) : option A :=
  snd <$> List.find (λ kv, kv.1 =s? key) l.

(* @src packages/workflows/src/definitions/registry.ts:57-114 WorkflowDefinitionRegistry.register *)
Definition register (deps : WorkflowDefinitionRegistryDeps) (d : WorkflowDefinition)
    (r : Registry) : RegisterResult * Registry :=
  if negb (digest d =s? canonicalDigest d) then (Rejected INVALID "digest mismatch", r)
  else if negb (workflowDefinitionSchema d) then (Rejected INVALID "schema", r)
  else match unknown_reference (known deps) d with
  | Some detail => (Rejected UNKNOWN_REFERENCE detail, r)
  | None =>
      let key := def_key (id d) (semanticVersion d) in
      match lookup_key key (definitions r) with
      | Some existing =>
          if digest existing =s? digest d then (Registered existing, r)
          else (Rejected WORKFLOW_VERSION_IMMUTABLE "conflicting digest for existing version", r)
      | None =>
          let a := availability deps d in
          if negb (is_available a) && enabled d then
            (Rejected BLOCKED_CAPABILITY (reason a ?? "capability unsupported"), r)
          else
            (Registered (activate d),
             {| definitions := definitions r ++ [(key, activate d)];
                skills := skills r; generation := generation r + 1 |})
      end
  end.

(* @src packages/workflows/src/definitions/registry.ts:201-204 firstKey *)
Definition firstKey (keys : list string) (i : string) : option string :=
  List.find (λ key, startsWith key (i +s "@")) keys.

(* @src packages/workflows/src/definitions/registry.ts:116-125 WorkflowDefinitionRegistry.resolve *)
Definition resolve (i : string) (version : option string) (r : Registry)
  : outcome WorkflowDefinition :=
  let candidate := match version with
                   | Some v => Some (def_key i v)
                   | None => firstKey (map fst (definitions r)) i
                   end in
  let def := match candidate with Some key => lookup_key key (definitions r) | None => None end in
  match def with
  | None => Threw (PlainError "WORKFLOW_UNKNOWN")
  | Some def =>
      if bool_decide (status def = RETIRED) && bool_decide (is_Some version) then
        Threw (PlainError "WORKFLOW_VERSION_RETIRED")
      else if negb (enabled def) then Threw (PlainError "WORKFLOW_CAPABILITY_UNSUPPORTED")
      else Returned def
  end.

(* @src packages/workflows/src/definitions/registry.ts:127-139 WorkflowDefinitionRegistry.snapshot *)
Definition snapshot (i version nowIso : string) (r : Registry) : outcome WorkflowDefinitionSnapshot :=
  match lookup_key (def_key i version) (definitions r) with
  | None => Threw (PlainError "WORKFLOW_UNKNOWN")
  | Some def =>
      let normalized := stringify (definition_json def) in
      Returned {| snap_id := "snap:" +s slice 0 16 (sha256 (def_key i version));
                  snap_definitionId := i; snap_semanticVersion := version;
                  normalizedJsonDigest := sha256 normalized; normalizedJson := normalized;
                  capturedAtIso := nowIso |}
  end.

(* @src packages/workflows/src/definitions/registry.ts:141-158 WorkflowDefinitionRegistry.list *)
Definition list_ (deps : WorkflowDefinitionRegistryDeps) (r : Registry) : list WorkflowCatalogEntry :=
  map (λ kd : string * WorkflowDefinition,
    let def := kd.2 in
    let a := availability deps def in
    {| entry_id := id def; entry_version := semanticVersion def; entry_name := id def;
       available := enabled def && is_available a;
       blockReason := if enabled def && negb (is_available a)
                      then Some (reason a ?? "capability unsupported") else None;
       entry_inputSchemaId := inputSchemaId def |}) (definitions r).

(* @src packages/workflows/src/definitions/registry.ts:160-162 WorkflowDefinitionRegistry.hasDefinition *)
Definition hasDefinition (i version : string) (r : Registry) : bool :=
  bool_decide (is_Some (lookup_key (def_key i version) (definitions r))).
End Registry.

(** ** What is in the registry *)

Section Facts.
Context `{Digest}.

Lemma first_some_none {A B} (f : A → option B) l : first_some f l = None ↔ ∀ x, x ∈ l → f x = None.
Proof.
  induction l as [|x l IH]; simpl; [set_solver|]. destruct (f x) eqn:E; [|rewrite IH; set_solver].
  split; [done|]. intros Hl. rewrite (Hl x) in E; [done|left].
Qed.

Lemma or_else_none {A} (a b : option A) : or_else a b = None ↔ a = None ∧ b = None.
Proof. destruct a, b; naive_solver. Qed.

Lemma unknown_in_none s what x : unknown_in s what x = None ↔ x ∈ s.
Proof. unfold unknown_in. case_bool_decide; naive_solver. Qed.

(** The actions, validators and capabilities of a definition are known, and its steps stay
    below its own ceiling. *)
Definition references_known (k : RegistryKnownIds) (d : WorkflowDefinition) : Prop :=
  (∀ a, a ∈ allowedActionTypes d → a ∈ known_actionTypes k) ∧
  (∀ s, s ∈ steps d →
     (∀ a, a ∈ actionTypes s → a ∈ allowedActionTypes d) ∧
     (∀ v, v ∈ validatorIds s → v ∈ known_validators k)) ∧
  (∀ c, c ∈ requiredCapabilities d → c ∈ known_capabilities k).

Lemma unknown_reference_none k d : unknown_reference k d = None ↔ references_known k d.
Proof.
  unfold unknown_reference, references_known. rewrite !or_else_none, !first_some_none.
  setoid_rewrite or_else_none. setoid_rewrite or_else_none. setoid_rewrite first_some_none.
  setoid_rewrite unknown_in_none.
  assert (Hceil : ∀ a, (if str_in a (allowedActionTypes d) then None
      else Some ("action " +s a +s " exceeds ceiling")) = None ↔ a ∈ allowedActionTypes d).
  { intros a. rewrite <- str_in_spec. by destruct (str_in a _). }
  setoid_rewrite Hceil. naive_solver.
Qed.

Lemma def_key_inj i j v w :
  any_char (Ascii.eqb "@") v = false → any_char (Ascii.eqb "@") w = false →
  def_key i v = def_key j w → i = j ∧ v = w.
Proof.
  unfold def_key. intros Hv Hw. revert j.
  assert (Hsplit : ∀ a b c, any_char (Ascii.eqb "@") a = false → a ≠ b +s String "@" c).
  { intros a b c Ha ->. rewrite any_char_app in Ha. simpl in Ha. by rewrite orb_true_r in Ha. }
  induction i as [|c i IH]; intros [|d j] E; simpl in E.
  - by injection E as ->.
  - injection E as _ E. by apply Hsplit in E.
  - injection E as _ E. symmetry in E. by apply Hsplit in E.
  - injection E as -> E. by destruct (IH j E) as [-> ->].
Qed.

Lemma three_numbers_no_at v : three_numbers v = true → any_char (Ascii.eqb "@") v = false.
Proof.
  unfold three_numbers. intros Hv. rewrite <- (join_split_char "." v).
  destruct (split_char "." v) as [|a [|b [|c [|]]]]; try done. unfold digits in Hv. breflect.
  simpl. rewrite !any_char_app. simpl. rewrite any_char_app. simpl.
  by rewrite !(class_absent is_digit) by done.
Qed.

Lemma lookup_key_elem {A} key (l : list (string * A)) a :
  lookup_key key l = Some a → (key, a) ∈ l.
Proof.
  unfold lookup_key. intros ([k a'] & Hf & ->)%fmap_Some.
  apply find_some_elem in Hf as [Hin Hk]. simpl in Hk. by breflect; subst.
Qed.

Lemma lookup_key_none {A} key (l : list (string * A)) : lookup_key key l = None → key ∉ map fst l.
Proof.
  unfold lookup_key. intros Hn%fmap_None ([k a] & -> & Hin)%list_elem_of_fmap.
  pose proof (find_none_elem _ _ _ Hn Hin) as Hf. simpl in Hf. by breflect.
Qed.

Lemma lookup_key_app {A} key (l l' : list (string * A)) a :
  lookup_key key l = Some a → lookup_key key (l ++ l') = Some a.
Proof.
  unfold lookup_key. induction l as [|[k b] l IH]; simpl; [done|]. by destruct (k =s? key).
Qed.

#[local] Instance JStr_inj : Inj (=) (=) JStr.
Proof. by intros a b [= ->]. Qed.

#[export] Instance strings_inj : Inj (=) (=) strings.
Proof. intros l l' E. injection E as E. apply (inj (map JStr)). exact E. Qed.

#[export] Instance step_json_inj : Inj (=) (=) step_json.
Proof.
  intros s s' E. unfold step_json in E. injection E as Hid Hk Ha Hr Hw Hb Hv.
  destruct s, s'; simpl in *. assert (step_kind0 = step_kind1) as -> by (by destruct step_kind0, step_kind1).
  assert (failureBehavior0 = failureBehavior1) as -> by (by destruct failureBehavior0, failureBehavior1).
  apply (inj (map JStr)) in Ha, Hv. by subst.
Qed.

Lemma step_texts_inj l l' : map step_json l = map step_json l' → l = l'.
Proof. apply (inj (map step_json)). Qed.

(** An operation of the registry. *)
Inductive registry_step (deps : WorkflowDefinitionRegistryDeps) : Registry → Registry → Prop :=
  | step_register d r : registry_step deps r (register deps d r).2
  | step_skill s r : registry_step deps r (registerSkill s r).2.

Lemma register_cases deps d r :
  register deps d r = (Registered (activate d),
    {| definitions := definitions r ++ [(def_key (id d) (semanticVersion d), activate d)];
       skills := skills r; generation := generation r + 1 |}) ∧
    digest d = canonicalDigest d ∧ workflowDefinitionSchema d = true ∧
    references_known (known deps) d ∧
    def_key (id d) (semanticVersion d) ∉ map fst (definitions r) ∧
    (enabled d = true → is_available (availability deps d) = true) ∨
  (register deps d r).2 = r.
Proof.
  unfold register.
  destruct (negb (digest d =s? _)) eqn:Hd; [by right|].
  destruct (negb (workflowDefinitionSchema d)) eqn:Hs; [by right|].
  destruct (unknown_reference _ d) eqn:Hu; [by right|].
  destruct (lookup_key _ _) eqn:Hl; [by case_match; right|].
  destruct (negb _ && _) eqn:Ha; [by right|]. left. breflect.
  split_and!; [done|done|done|by apply unknown_reference_none|by apply lookup_key_none|].
  intros He. rewrite He, andb_true_r in Ha. by breflect.
Qed.

(** What holds of an entry. *)
Definition entry_sound (deps : WorkflowDefinitionRegistryDeps) (e : string * WorkflowDefinition)
  : Prop :=
  let d := e.2 in
  e.1 = def_key (id d) (semanticVersion d) ∧ status d = ACTIVE ∧ digest d = canonicalDigest d ∧
  workflowDefinitionSchema d = true ∧ references_known (known deps) d.

Definition registry_sound (deps : WorkflowDefinitionRegistryDeps) (r : Registry) : Prop :=
  NoDup (map fst (definitions r)) ∧ generation r = Z.of_nat (length (definitions r)) ∧
  ∀ e, e ∈ definitions r → entry_sound deps e.

Lemma registry_sound_step deps r r' :
  registry_step deps r r' → registry_sound deps r → registry_sound deps r'.
Proof.
  intros Hstep Hs. destruct Hstep as [d r|s r].
  - destruct (register_cases deps d r) as [(-> & Hd & Hok & Hk & Hnew & _)| ->]; [|done].
    destruct Hs as (Hnd & Hg & He). unfold registry_sound. simpl. rewrite map_app. split_and!.
    + apply NoDup_app. split_and!; [done| |apply NoDup_singleton]. set_solver.
    + rewrite length_app. simpl. lia.
    + intros e [Hin|Hin%list_elem_of_singleton]%elem_of_app; [by apply He|]. subst. by split_and!.
  - unfold registerSkill. by repeat case_match.
Qed.

Lemma registry_sound_reachable deps r : rtc (registry_step deps) empty_registry r → registry_sound deps r.
Proof.
  apply rtc_ind_r; [|by intros; eapply registry_sound_step].
  split_and!; [constructor|done|]. intros e []%elem_of_nil.
Qed.

(** Entries are never changed nor removed. *)
Lemma lookup_kept deps r r' key d :
  rtc (registry_step deps) r r' → lookup_key key (definitions r) = Some d →
  lookup_key key (definitions r') = Some d.
Proof.
  induction 1 as [|r r1 r' Hstep _ IH]; [done|]. intros Hl. apply IH. destruct Hstep as [e r|s r].
  - destruct (register_cases deps e r) as [(-> & _)| ->]; [by apply lookup_key_app|done].
  - unfold registerSkill. by repeat case_match.
Qed.
End Facts.

(** The registry only ever holds what it promises, and never changes it: after any sequence
    of registrations every entry is ACTIVE under the key of its id and version, has a truthful
    digest, satisfies the schema, names only known actions, validators and capabilities, and no
    step goes beyond the ceiling of its definition; keys are unique and the generation counts
    the entries.  Once a version resolves, it resolves to the same definition, and its run-bound
    snapshot is the same, after any further registrations. *)
Theorem registry_immutable `{Digest} deps r r'
  (Hr : rtc (registry_step deps) empty_registry r) (Hr' : rtc (registry_step deps) r r') :
  registry_sound deps r' ∧
  ∀ i v d, resolve i (Some v) r = Returned d →
    (three_numbers v = true → id d = i ∧ semanticVersion d = v) ∧ enabled d = true ∧
    resolve i (Some v) r' = Returned d ∧
    (∀ now, snapshot i v now r' = snapshot i v now r).
Proof.
  pose proof (registry_sound_reachable _ _ Hr) as (_ & _ & Hsound).
  split; [by apply registry_sound_reachable; etrans|]. intros i v d Hres.
  unfold resolve, snapshot in *.
  destruct (lookup_key (def_key i v) (definitions r)) as [e|] eqn:Hl; [|done].
  rewrite (lookup_kept _ _ _ _ _ Hr' Hl).
  destruct (_ && _) eqn:Hret; [done|]. destruct (negb (enabled e)) eqn:He; [done|].
  simplify_eq. breflect. split_and!; [|done|done|done]. intros Hv.
  destruct (Hsound _ (lookup_key_elem _ _ _ Hl)) as (Hkey & _ & _ & Hok & _). simpl in Hkey.
  unfold workflowDefinitionSchema in Hok. breflect.
  destruct (def_key_inj i (id d) v (semanticVersion d)) as [-> ->];
    [by apply three_numbers_no_at..|done|done].
Qed.

(** What counts as a conflicting definition of a registered version, if digests do not
    collide: a candidate that passes the checks is rejected as WORKFLOW_VERSION_IMMUTABLE
    exactly when its steps or its output schema differ from the registered ones.  When only the
    other fields differ -- its ceiling of action types, its required capabilities, its enabled
    flag -- the registration reports success, and hands back the registered definition in place
    of the candidate. *)
Theorem conflict_is_partial `{CollisionFree} deps r d existing
  (Hr : rtc (registry_step deps) empty_registry r)
  (Hl : lookup_key (def_key (id d) (semanticVersion d)) (definitions r) = Some existing)
  (Hd : digest d = canonicalDigest d) (Hok : workflowDefinitionSchema d = true)
  (Hk : references_known (known deps) d) :
  (register deps d r = (Registered existing, r) ↔
     steps d = steps existing ∧ outputSchemaId d = outputSchemaId existing) ∧
  (¬ (steps d = steps existing ∧ outputSchemaId d = outputSchemaId existing) →
     register deps d r =
       (Rejected WORKFLOW_VERSION_IMMUTABLE "conflicting digest for existing version", r)).
Proof.
  pose proof (registry_sound_reachable _ _ Hr) as (_ & _ & Hsound).
  destruct (Hsound _ (lookup_key_elem _ _ _ Hl)) as (Hkey & _ & Hde & Hoke & _). simpl in *.
  assert (id d = id existing ∧ semanticVersion d = semanticVersion existing) as [Hid Hver].
  { unfold workflowDefinitionSchema in Hok, Hoke. breflect.
    by apply def_key_inj; [apply three_numbers_no_at..|]. }
  assert (Heq : digest existing = digest d ↔
      steps d = steps existing ∧ outputSchemaId d = outputSchemaId existing).
  { rewrite Hd, Hde. split; [|intros [Hs Ho]; unfold canonicalDigest, digest_json; congruence].
    intros E. apply digest_inj in E. unfold digest_json in E. injection E as _ _ Hs Ho.
    split; [|done]. apply step_texts_inj. by symmetry. }
  unfold register. rewrite Hd, String.eqb_refl, Hok. cbn [negb].
  apply unknown_reference_none in Hk as ->. rewrite Hl, <- Hd. clear Hkey Hid Hver.
  destruct (String.eqb_spec (digest existing) (digest d)) as [E|E].
  - rewrite <- Heq. naive_solver.
  - rewrite <- Heq. naive_solver.
Qed.

(** ** Witnesses: one definition, and a candidate that only widens its ceiling *)

Definition sample_step : WorkflowStepTemplate :=
  {| step_id := "plan"; step_kind := turn; actionTypes := ["read_repo"]; maxRetries := 1;
     maxWallMillis := 60000; failureBehavior := fail_run; validatorIds := [] |}.

Definition sixty_four : string :=
  "00000000000000000000000000000000" +s "00000000000000000000000000000000".

Definition sample_definition (ceiling : list string) : WorkflowDefinition :=
  {| id := "implement"; semanticVersion := "1.0.0"; status := DISCOVERED; enabled := true;
     agentDefinitionId := "agent"; inputSchemaId := "in"; outputSchemaId := "out";
     steps := [sample_step]; allowedActionTypes := ceiling; requiredCapabilities := [];
     artifactDeclarations := []; skillBundleRefs := []; compatibilityRange := "1";
     digest := sixty_four |}.

Definition sample_deps : WorkflowDefinitionRegistryDeps :=
  {| known := {| known_actionTypes := {["read_repo"; "push_commit"]}; known_capabilities := ∅;
                 known_validators := ∅ |};
     featureAvailability := None |}.

Definition sample_text : string := stringify (digest_json (sample_definition [])).

(** An injective digest that maps the sample's text to 64 hexadecimal digits. *)
#[local] Instance sample_digest : Digest := λ s,
  if s =s? sample_text then sixty_four else if s =s? sixty_four then sample_text else s.

Lemma sample_collision_free : CollisionFree.
Proof.
  intros a b. unfold sha256, sample_digest. intros E.
  assert (sample_text ≠ sixty_four) by (by vm_compute).
  destruct (String.eqb_spec a sample_text), (String.eqb_spec b sample_text),
    (String.eqb_spec a sixty_four), (String.eqb_spec b sixty_four); congruence.
Qed.

Definition sample_registry : Registry :=
  (register sample_deps (sample_definition ["read_repo"]) empty_registry).2.

Lemma registry_immutable_witness :
  rtc (registry_step sample_deps) empty_registry sample_registry ∧
  (∃ d, resolve "implement" (Some "1.0.0") sample_registry = Returned d ∧
     enabled d = true ∧ registry_sound sample_deps sample_registry).
Proof.
  assert (Hr : rtc (registry_step sample_deps) empty_registry sample_registry)
    by (apply rtc_once, step_register).
  split; [done|].
  destruct (registry_immutable sample_deps _ _ Hr (rtc_refl _ _)) as [Hs Hres].
  exists (activate (sample_definition ["read_repo"])).
  split; [by vm_compute|]. split; [|done].
  by apply (Hres "implement" "1.0.0" (activate (sample_definition ["read_repo"]))); vm_compute.
Defined.

Lemma conflict_is_partial_witness :
  register sample_deps (sample_definition ["read_repo"; "push_commit"]) sample_registry
    = (Registered (activate (sample_definition ["read_repo"])), sample_registry).
Proof.
  apply (conflict_is_partial (H0 := sample_collision_free) sample_deps sample_registry
           (sample_definition ["read_repo"; "push_commit"])
           (activate (sample_definition ["read_repo"]))); [..|done].
  - apply rtc_once, step_register.
  - by vm_compute.
  - by vm_compute.
  - by vm_compute.
  - apply unknown_reference_none. by vm_compute.
Defined.
