(* ===== verification/Runs.v ===== *)
(** * Workflow runs: state machines and orchestration

    [packages/workflows/src/runs/]: the run and step state machines ([fsm.ts]), the contracts
    ([contracts.ts]), and the orchestrator that launches a run bound to a definition snapshot
    and moves it and its steps over an in-memory store ([run-orchestrator.ts]).  Every [await]
    of a store call is a point where other calls may run. *)

From S2P Require Import Prelude JsString Effects Contracts.
From S2P Require Definitions.

(** ** Contracts *)

(* @src packages/workflows/src/runs/contracts.ts:13-24 RunState *)
Inductive RunState :=
  PENDING | PROVISIONING | RUNNING | PAUSED | WAITING_APPROVAL | SUCCEEDED | FAILED | CANCELLED
| RECONCILING.

(* @src packages/workflows/src/runs/contracts.ts:26-36 StepState *)
Inductive StepState :=
  S_PENDING | S_PROVISIONING | S_RUNNING | S_PAUSED | S_SUCCEEDED | S_FAILED | S_CANCELLED
| S_RECONCILING.

#[export] Instance RunState_eq_dec : EqDecision RunState.
Proof. solve_decision. Defined.
#[export] Instance StepState_eq_dec : EqDecision StepState.
Proof. solve_decision. Defined.

(* @src packages/workflows/src/runs/contracts.ts:75-81 WorkflowRunStep *)
Record WorkflowRunStep := {
  templateId : string;
  step_kind : string;
  step_state : StepState;
  attempts : Z;
  terminalReason : option string;
}.

(* @src packages/workflows/src/runs/contracts.ts:62-73 WorkflowRun *)
Record WorkflowRun := {
  id : string;
  workflowRunId : string;
  repositoryId : string;
  definitionSnapshotId : string;
  state : RunState;
  currentStepIndex : Z;
  steps : list WorkflowRunStep;
  idempotencyKey : string;
  createdAtIso : string;
  updatedAtIso : string;
}.

(* @src packages/workflows/src/runs/contracts.ts:83-89 LaunchWorkflowInput *)
Record LaunchWorkflowInput := {
  in_workflowRunId : string;
  in_repositoryId : string;
  workflowDefinitionId : string;
  definitionVersion : string;
  in_idempotencyKey : string;
}.

(* @src packages/workflows/src/runs/contracts.ts:38-61 runSchema *)
Definition runSchema (r : WorkflowRun) : bool :=
  len_between 1 128 (id r) && id_schema (workflowRunId r) && len_between 1 128 (repositoryId r) &&
  len_between 1 128 (definitionSnapshotId r) && (0 <=? currentStepIndex r) &&
  forallb (λ s, len_between 1 64 (templateId s) && len_between 1 32 (step_kind s) &&
                (0 <=? attempts s) &&
                match terminalReason s with Some t => len_between 0 64 t | None => true end)
    (steps r) &&
  (Z.of_nat (length (steps r)) <=? 64) && len_between 1 128 (idempotencyKey r) &&
  len_between 1 40 (createdAtIso r) && len_between 1 40 (updatedAtIso r).

(** ** The state machines *)

(* @src packages/workflows/src/runs/fsm.ts:11-22 RunTrigger *)
Inductive RunTrigger :=
  begin_ | provisioned | run_ | pause | resume | await_approval | approval_resolved | succeed
| fail_ | cancel | reconcile.

(* @src packages/workflows/src/runs/fsm.ts:28-57 RUN_EDGES *)
Definition RUN_EDGES (t : RunTrigger) : list (RunState * RunState) :=
  match t with
  | begin_ => [(PENDING, PROVISIONING)]
  | provisioned => [(PROVISIONING, RUNNING)]
  | run_ => [(PENDING, RUNNING)]
  | pause => [(RUNNING, PAUSED)]
  | resume => [(PAUSED, RUNNING)]
  | await_approval => [(RUNNING, WAITING_APPROVAL)]
  | approval_resolved => [(WAITING_APPROVAL, RUNNING)]
  | succeed => [(RUNNING, SUCCEEDED)]
  | fail_ => [(PENDING, FAILED); (PROVISIONING, FAILED); (RUNNING, FAILED); (RECONCILING, FAILED)]
  | cancel => [(PENDING, CANCELLED); (PROVISIONING, CANCELLED); (RUNNING, CANCELLED);
               (PAUSED, CANCELLED); (WAITING_APPROVAL, CANCELLED)]
  | reconcile => [(PENDING, RECONCILING); (PROVISIONING, RECONCILING); (RUNNING, RECONCILING);
                  (PAUSED, RECONCILING); (WAITING_APPROVAL, RECONCILING)]
  end.

(* @src packages/workflows/src/runs/fsm.ts:59-59 RUN_TERMINALS *)
Definition RUN_TERMINALS : list RunState := [SUCCEEDED; FAILED; CANCELLED].

(** [None] is [{ allowed: false }]; the callers ignore its detail. *)
(* @src packages/workflows/src/runs/fsm.ts:61-68 resolveRunEdge *)
Definition resolveRunEdge (from : RunState) (trigger : RunTrigger) : option RunState :=
  if includes RUN_TERMINALS from then None
  else snd <$> List.find (λ e, bool_decide (e.1 = from)) (RUN_EDGES trigger).

(* @src packages/workflows/src/runs/fsm.ts:70-71 StepTrigger *)
Inductive StepTrigger := s_begin | s_provisioned | s_run | s_pause | s_resume | s_succeed | s_fail | s_cancel.

(* @src packages/workflows/src/runs/fsm.ts:77-95 STEP_EDGES *)
Definition STEP_EDGES (t : StepTrigger) : list (StepState * StepState) :=
  match t with
  | s_begin => [(S_PENDING, S_PROVISIONING)]
  | s_provisioned => [(S_PROVISIONING, S_RUNNING)]
  | s_run => [(S_PENDING, S_RUNNING)]
  | s_pause => [(S_RUNNING, S_PAUSED)]
  | s_resume => [(S_PAUSED, S_RUNNING)]
  | s_succeed => [(S_RUNNING, S_SUCCEEDED)]
  | s_fail => [(S_PROVISIONING, S_FAILED); (S_RUNNING, S_FAILED); (S_PAUSED, S_FAILED)]
  | s_cancel => [(S_PENDING, S_CANCELLED); (S_PROVISIONING, S_CANCELLED);
                 (S_RUNNING, S_CANCELLED); (S_PAUSED, S_CANCELLED)]
  end.

(* @src packages/workflows/src/runs/fsm.ts:97-97 STEP_TERMINALS *)
Definition STEP_TERMINALS : list StepState := [S_SUCCEEDED; S_FAILED; S_CANCELLED].

(* @src packages/workflows/src/runs/fsm.ts:99-106 resolveStepEdge *)
Definition resolveStepEdge (from : StepState) (trigger : StepTrigger) : option StepState :=
  if includes STEP_TERMINALS from then None
  else snd <$> List.find (λ e, bool_decide (e.1 = from)) (STEP_EDGES trigger).

(** ** The orchestrator *)

(* @src packages/workflows/src/runs/run-orchestrator.ts:22-47 RunStorePort, RunOrchestratorDeps *)
Inductive RunCall :=
  | store_get (i : string)
  | store_findByIdempotency (key : string)
  | store_save (r : WorkflowRun)
  | resolveDefinition (i version : string)
  | snapshotDefinition (i version : string)
  | nowIso
  | randomUUID.

Definition RunAns (c : RunCall) : Type :=
  match c with
  | store_get _ | store_findByIdempotency _ => option WorkflowRun
  | store_save _ => unit
  | resolveDefinition _ _ => Definitions.WorkflowDefinition
  | snapshotDefinition _ _ => Definitions.WorkflowDefinitionSnapshot
  | nowIso | randomUUID => string
  end.

Definition pending_steps (d : Definitions.WorkflowDefinition) : list WorkflowRunStep :=
  map (λ s, {| templateId := Definitions.step_id s;
               step_kind := Definitions.kind_name (Definitions.step_kind s);
               step_state := S_PENDING; attempts := 0; terminalReason := None |})
    (Definitions.steps d).

(** The run and whether it was there before. *)
(* @src packages/workflows/src/runs/run-orchestrator.ts:69-97 WorkflowRunOrchestrator.launch *)
Definition launch (i : LaunchWorkflowInput) : proc RunAns (WorkflowRun * bool) :=
  existing <~ call (store_findByIdempotency (in_idempotencyKey i)) ;;
  match existing with
  | Some run => pret (run, true)
  | None =>
      definition <~ call (resolveDefinition (workflowDefinitionId i) (definitionVersion i)) ;;
      snapshot <~ call (snapshotDefinition (workflowDefinitionId i) (definitionVersion i)) ;;
      now <~ call nowIso ;;
      uuid <~ call randomUUID ;;
      let run := {| id := uuid; workflowRunId := in_workflowRunId i;
                    repositoryId := in_repositoryId i;
                    definitionSnapshotId := Definitions.snap_id snapshot; state := PENDING;
                    currentStepIndex := 0; steps := pending_steps definition;
                    idempotencyKey := in_idempotencyKey i; createdAtIso := now;
                    updatedAtIso := now |} in
      if negb (runSchema run) then throw (PlainError "ZodError")
      else call (store_save run) ;~ pret (run, false)
  end.

Definition with_state (s : RunState) (now : string) (r : WorkflowRun) : WorkflowRun :=
  {| id := id r; workflowRunId := workflowRunId r; repositoryId := repositoryId r;
     definitionSnapshotId := definitionSnapshotId r; state := s;
     currentStepIndex := currentStepIndex r; steps := steps r;
     idempotencyKey := idempotencyKey r; createdAtIso := createdAtIso r; updatedAtIso := now |}.

(* @src packages/workflows/src/runs/run-orchestrator.ts:99-107 WorkflowRunOrchestrator.transitionRun *)
Definition transitionRun (runId : string) (trigger : RunTrigger) : proc RunAns WorkflowRun :=
  found <~ call (store_get runId) ;;
  match found with
  | None => throw (GuardError "RUN_NOT_FOUND")
  | Some run =>
      match resolveRunEdge (state run) trigger with
      | None => throw (GuardError "RUN_ILLEGAL_TRANSITION")
      | Some to =>
          now <~ call nowIso ;;
          let next := with_state to now run in
          call (store_save next) ;~ pret next
      end
  end.

Definition with_steps (l : list WorkflowRunStep) (now : string) (r : WorkflowRun) : WorkflowRun :=
  {| id := id r; workflowRunId := workflowRunId r; repositoryId := repositoryId r;
     definitionSnapshotId := definitionSnapshotId r; state := state r;
     currentStepIndex := currentStepIndex r; steps := l;
     idempotencyKey := idempotencyKey r; createdAtIso := createdAtIso r; updatedAtIso := now |}.

Definition step_moved (to : StepState) (s : WorkflowRunStep) : WorkflowRunStep :=
  {| templateId := templateId s; step_kind := step_kind s; step_state := to;
     attempts := attempts s + 1; terminalReason := terminalReason s |}.

(** [steps[i]] of a JavaScript array: [undefined] out of range and for a negative index. *)
Definition at_index {A} (l : list A) (i : Z) : option A :=
  if i <? 0 then None else l !! Z.to_nat i.

(* @src packages/workflows/src/runs/run-orchestrator.ts:109-125 WorkflowRunOrchestrator.transitionStep *)
Definition transitionStep (runId : string) (stepIndex : Z) (trigger : StepTrigger)
  : proc RunAns WorkflowRun :=
  found <~ call (store_get runId) ;;
  match found with
  | None => throw (GuardError "RUN_NOT_FOUND")
  | Some run =>
      match at_index (steps run) stepIndex with
      | None => throw (GuardError "STEP_NOT_FOUND")
      | Some step =>
          match resolveStepEdge (step_state step) trigger with
          | None => throw (GuardError "STEP_ILLEGAL_TRANSITION")
          | Some to =>
              let updated := step_moved to step in
              now <~ call nowIso ;;
              let next := with_steps (<[Z.to_nat stepIndex := updated]> (steps run)) now run in
              call (store_save next) ;~ pret next
          end
      end
  end.

(* @src packages/workflows/src/runs/run-orchestrator.ts:127-130 WorkflowRunOrchestrator.currentStep *)
Definition currentStep (runId : string) : proc RunAns (option WorkflowRunStep) :=
  found <~ call (store_get runId) ;;
  pret (run ← found; at_index (steps run) (currentStepIndex run)).

(** ** The in-memory store *)

(* @src packages/workflows/src/runs/run-orchestrator.ts:28-30 InMemoryRunStore *)
Record RunStore := {
  runs : gmap string WorkflowRun;
  byKey : gmap string WorkflowRun;
}.

(* @src packages/workflows/src/runs/run-orchestrator.ts:31-33 InMemoryRunStore.get *)
Definition get (i : string) (st : RunStore) : option WorkflowRun := runs st !! i.

(* @src packages/workflows/src/runs/run-orchestrator.ts:34-36 InMemoryRunStore.findByIdempotency *)
Definition findByIdempotency (key : string) (st : RunStore) : option WorkflowRun := byKey st !! key.

(* @src packages/workflows/src/runs/run-orchestrator.ts:37-40 InMemoryRunStore.save *)
Definition save (r : WorkflowRun) (st : RunStore) : RunStore :=
  {| runs := <[id r := r]> (runs st); byKey := <[idempotencyKey r := r]> (byKey st) |}.

(** The rest of the ports: the definition registry, the clock, the supply of UUIDs. *)
Record Supply := {
  definition_of : string → string → outcome Definitions.WorkflowDefinition;
  snapshot_of : string → string → outcome Definitions.WorkflowDefinitionSnapshot;
  clock : string;
  next_uuid : string;
}.

Definition world : Type := RunStore * Supply.

Section Port.
Context (after_uuid : Supply → Supply).

Definition run_port (c : RunCall) (w : world) : outcome (RunAns c) * world :=
  match c return outcome (RunAns c) * world with
  | store_get i => (Returned (get i w.1), w)
  | store_findByIdempotency key => (Returned (findByIdempotency key w.1), w)
  | store_save r => (Returned tt, (save r w.1, w.2))
  | resolveDefinition i v => (definition_of w.2 i v, w)
  | snapshotDefinition i v => (snapshot_of w.2 i v, w)
  | nowIso => (Returned (clock w.2), w)
  | randomUUID => (Returned (next_uuid w.2), (w.1, after_uuid w.2))
  end.
End Port.

(** ** Edges *)

Lemma find_edge {A} `{EqDecision A} (l : list (A * A)) from to :
  snd <$> List.find (λ e, bool_decide (e.1 = from)) l = Some to → (from, to) ∈ l.
Proof.
  intros ([f t] & Hf & ->)%fmap_Some. apply find_some_elem in Hf as [Hin Hb]. simpl in *.
  by breflect; subst.
Qed.

Lemma resolveRunEdge_sound from t to :
  resolveRunEdge from t = Some to → (from, to) ∈ RUN_EDGES t ∧ from ∉ RUN_TERMINALS.
Proof.
  unfold resolveRunEdge. destruct (includes _ _) eqn:Ht; [done|]. intros Hf.
  split; [by apply find_edge|]. intros Hin%includes_spec. congruence.
Qed.

Lemma resolveStepEdge_sound from t to :
  resolveStepEdge from t = Some to → (from, to) ∈ STEP_EDGES t ∧ from ∉ STEP_TERMINALS.
Proof.
  unfold resolveStepEdge. destruct (includes _ _) eqn:Ht; [done|]. intros Hf.
  split; [by apply find_edge|]. intros Hin%includes_spec. congruence.
Qed.

Definition run_edge (a b : RunState) : Prop := ∃ t, (a, b) ∈ RUN_EDGES t.
Definition step_edge (a b : StepState) : Prop := ∃ t, (a, b) ∈ STEP_EDGES t.

Lemma run_edge_source a b : run_edge a b → a ∉ RUN_TERMINALS.
Proof.
  intros [t Ht]. destruct t; simpl in Ht; in_cases Ht; injection Ht as -> _;
    intros Hin; unfold RUN_TERMINALS in Hin; in_cases Hin; discriminate.
Qed.

(** ** How a stored run may change *)

Definition same_run (r r' : WorkflowRun) : Prop :=
  id r' = id r ∧ workflowRunId r' = workflowRunId r ∧ repositoryId r' = repositoryId r ∧
  definitionSnapshotId r' = definitionSnapshotId r ∧ idempotencyKey r' = idempotencyKey r ∧
  createdAtIso r' = createdAtIso r ∧ currentStepIndex r' = currentStepIndex r.

Definition same_template (s s' : WorkflowRunStep) : Prop :=
  templateId s' = templateId s ∧ step_kind s' = step_kind s ∧ terminalReason s' = terminalReason s.

(** A step keeps its template; its state is reached along edges of the step machine, and it
    counts its transitions. *)
Definition step_advanced (s s' : WorkflowRunStep) : Prop :=
  same_template s s' ∧ attempts s ≤ attempts s' ∧
  nsteps step_edge (Z.to_nat (attempts s' - attempts s)) (step_state s) (step_state s').

Definition run_advanced (r r' : WorkflowRun) : Prop :=
  same_run r r' ∧ rtc run_edge (state r) (state r') ∧ Forall2 step_advanced (steps r) (steps r').

#[export] Instance step_advanced_preorder : PreOrder step_advanced.
Proof.
  split.
  - intros s. repeat split; [lia|]. rewrite Z.sub_diag. constructor.
  - intros s1 s2 s3 [(?&?&?) [Hle Hn]] [(?&?&?) [Hle' Hn']].
    split; [split_and!; congruence|split; [lia|]].
    replace (Z.to_nat (attempts s3 - attempts s1)) with
      (Z.to_nat (attempts s2 - attempts s1) + Z.to_nat (attempts s3 - attempts s2))%nat by lia.
    by eapply nsteps_trans.
Qed.

#[export] Instance run_advanced_preorder : PreOrder run_advanced.
Proof.
  split.
  - intros r. split; [by repeat split|]. split; [apply rtc_refl|reflexivity].
  - intros r1 r2 r3 [(?&?&?&?&?&?&?) [E12 S12]] [(?&?&?&?&?&?&?) [E23 S23]].
    split; [repeat split; congruence|]. split; [by etrans|].
    by transitivity (steps r2).
Qed.

Lemma terminal_stays a b : a ∈ RUN_TERMINALS → rtc run_edge a b → b = a.
Proof. intros Ha Hr. destruct Hr as [|? ? ? Hab]; [done|]. by apply run_edge_source in Hab. Qed.

Lemma with_state_advances r t to now :
  resolveRunEdge (state r) t = Some to → run_advanced r (with_state to now r).
Proof.
  intros [He _]%resolveRunEdge_sound. split; [by repeat split|]. split.
  - apply rtc_once. by exists t.
  - reflexivity.
Qed.

Lemma with_steps_advances r i s t to now :
  at_index (steps r) i = Some s → resolveStepEdge (step_state s) t = Some to →
  run_advanced r (with_steps (<[Z.to_nat i := step_moved to s]> (steps r)) now r).
Proof.
  intros Hs [He _]%resolveStepEdge_sound. split; [by repeat split|]. split; [apply rtc_refl|].
  unfold at_index in Hs. destruct (i <? 0); [done|]. simpl.
  rewrite <- (list_insert_id (steps r) (Z.to_nat i) s) at 1 by done.
  apply Forall2_insert; [reflexivity|].
  split; [done|]. simpl. split; [lia|]. replace (Z.to_nat _) with 1%nat by lia.
  apply nsteps_once. by exists t.
Qed.

(** ** One call after another *)

Inductive operation :=
  | Launch (i : LaunchWorkflowInput)
  | TransitionRun (runId : string) (t : RunTrigger)
  | TransitionStep (runId : string) (i : Z) (t : StepTrigger).

Definition perform (after_uuid : Supply → Supply) (o : operation) (w : world) : world :=
  match o with
  | Launch i => (exec (run_port after_uuid) (launch i) w).2
  | TransitionRun i t => (exec (run_port after_uuid) (transitionRun i t) w).2
  | TransitionStep i n t => (exec (run_port after_uuid) (transitionStep i n t) w).2
  end.

(** A call that runs to its end before the next one starts, with any registry and clock and a
    new UUID. *)
Inductive alone : RunStore → RunStore → Prop :=
  | alone_call st s after o :
      runs st !! next_uuid s = None → alone st (perform after o (st, s)).1.

(** Both maps hold the same runs. *)
Definition store_consistent (st : RunStore) : Prop :=
  (∀ i r, runs st !! i = Some r → id r = i ∧ byKey st !! idempotencyKey r = Some r) ∧
  (∀ k r, byKey st !! k = Some r → idempotencyKey r = k ∧ runs st !! id r = Some r).

Lemma save_new r st :
  store_consistent st → runs st !! id r = None → byKey st !! idempotencyKey r = None →
  store_consistent (save r st).
Proof.
  intros [H1 H2] Hi Hk. split; simpl.
  - intros i r' [[<- <-]|[Hne Hr]]%lookup_insert_Some; [split; [done|apply lookup_insert_eq]|].
    destruct (H1 _ _ Hr) as [Hid Hb]. split; [done|]. rewrite lookup_insert_ne; [done|congruence].
  - intros k r' [[<- <-]|[Hne Hr]]%lookup_insert_Some; [split; [done|apply lookup_insert_eq]|].
    destruct (H2 _ _ Hr) as [Hid Hb]. split; [done|]. rewrite lookup_insert_ne; [done|congruence].
Qed.

Lemma save_next r r' st :
  store_consistent st → runs st !! id r = Some r → same_run r r' →
  store_consistent (save r' st).
Proof.
  intros [H1 H2] Hr (Hid & _ & _ & _ & Hkey & _).
  destruct (H1 _ _ Hr) as [_ Hb]. split; simpl; rewrite Hid, Hkey.
  - intros i s [[<- <-]|[Hne Hs]]%lookup_insert_Some.
    + split; [done|]. rewrite Hkey. apply lookup_insert_eq.
    + destruct (H1 _ _ Hs) as [Hi Hbs]. split; [done|]. rewrite lookup_insert_ne; [done|].
      intros E. rewrite <- E in Hbs. congruence.
  - intros k s [[<- <-]|[Hne Hs]]%lookup_insert_Some.
    + split; [done|]. rewrite Hid. apply lookup_insert_eq.
    + destruct (H2 _ _ Hs) as [Hk Hrs]. split; [done|]. rewrite lookup_insert_ne; [done|].
      intros E. rewrite <- E in Hrs. congruence.
Qed.

(** Every run is still there, and advanced. *)
Definition store_advanced (st st' : RunStore) : Prop :=
  ∀ i r, runs st !! i = Some r → ∃ r', runs st' !! i = Some r' ∧ run_advanced r r'.

#[export] Instance store_advanced_preorder : PreOrder store_advanced.
Proof.
  split.
  - intros st i r Hr. by exists r.
  - intros s1 s2 s3 H12 H23 i r Hr. destruct (H12 i r Hr) as (r2 & Hr2 & Ha).
    destruct (H23 i r2 Hr2) as (r3 & Hr3 & Ha'). exists r3. split; [done|]. by etrans.
Qed.

Lemma save_next_advanced r r' st :
  runs st !! id r = Some r → run_advanced r r' → store_advanced st (save r' st).
Proof.
  intros Hr Ha i s Hs. destruct Ha as [(Hid & Hsame) Ha]. simpl. rewrite Hid.
  destruct (decide (id r = i)) as [<-|Hne].
  - exists r'. rewrite lookup_insert_eq. split; [done|]. simplify_eq. by split; [split|].
  - exists s. by rewrite lookup_insert_ne.
Qed.

Lemma alone_sound st st' :
  alone st st' → store_consistent st → store_consistent st' ∧ store_advanced st st'.
Proof.
  intros [st0 s after o Hfresh] Hc. clear st. destruct o as [i|runId t|runId n t]; simpl.
  - destruct (findByIdempotency _ st0) as [r|] eqn:Hk; simpl; [done|].
    destruct (definition_of s _ _) as [d|]; simpl; [|done].
    destruct (snapshot_of s _ _) as [sn|]; simpl; [|done].
    destruct (negb _); simpl; [done|]. split; [by apply save_new|].
    intros j r Hr. exists r. simpl. rewrite lookup_insert_ne; [done|congruence].
  - unfold get. destruct (runs st0 !! runId) as [r|] eqn:Hr; simpl; [|done].
    destruct (resolveRunEdge _ _) as [to|] eqn:He; simpl; [|done].
    assert (runs st0 !! id r = Some r) by (by destruct (proj1 Hc _ _ Hr) as [-> _]).
    split; [by eapply save_next|]. eapply save_next_advanced; [done|by eapply with_state_advances].
  - unfold get. destruct (runs st0 !! runId) as [r|] eqn:Hr; simpl; [|done].
    destruct (at_index _ _) as [st|] eqn:Hs; simpl; [|done].
    destruct (resolveStepEdge _ _) as [to|] eqn:He; simpl; [|done].
    assert (runs st0 !! id r = Some r) by (by destruct (proj1 Hc _ _ Hr) as [-> _]).
    split; [by eapply save_next|]. eapply save_next_advanced; [done|by eapply with_steps_advances].
Qed.

Lemma alone_run_sound st st' :
  rtc alone st st' → store_consistent st → store_consistent st' ∧ store_advanced st st'.
Proof.
  induction 1 as [st|st st1 st' Hstep _ IH]; [done|]. intros Hc.
  destruct (alone_sound _ _ Hstep Hc) as [Hc1 Ha1]. destruct (IH Hc1) as [Hc' Ha'].
  split; [done|]. by etrans.
Qed.

Definition empty_store : RunStore := {| runs := ∅; byKey := ∅ |}.

(** Runs advanced one call after another, starting from an empty store, with any definition
    registry, any clock and new UUIDs: both maps of the store hold the same runs; no run is ever
    lost, and each keeps its id, its definition snapshot, its idempotency key and its step
    templates, while its state moves along the edges of the run machine and the state of each
    step along the edges of the step machine, in exactly as many edges as its attempts count; a
    run that ended stays as it ended; and launching again with a key that was used returns the
    run of that key as a replay and changes nothing. *)
Theorem sequential_runs st st'
  (Hst : rtc alone empty_store st) (Hst' : rtc alone st st') :
  store_consistent st' ∧ store_advanced st st' ∧
  (∀ i r, runs st !! i = Some r → state r ∈ RUN_TERMINALS →
     ∃ r', runs st' !! i = Some r' ∧ state r' = state r) ∧
  ∀ i r s after, byKey st !! in_idempotencyKey i = Some r →
    ∃ r', run_advanced r r' ∧
      (exec (run_port after) (launch i) (st', s)).1.1 = Returned (r', true) ∧
      perform after (Launch i) (st', s) = (st', s).
Proof.
  destruct (alone_run_sound _ _ Hst) as [Hc _].
  { by split; intros ? ? H; simpl in H; rewrite lookup_empty in H. }
  destruct (alone_run_sound _ _ Hst' Hc) as [Hc' Ha]. split_and!; [done|done| |].
  - intros i r Hr Ht. destruct (Ha i r Hr) as (r' & Hr' & _ & He & _).
    exists r'. split; [done|]. by apply terminal_stays.
  - intros i r s after Hk. destruct (proj2 Hc _ _ Hk) as [Hkey Hr].
    destruct (Ha _ _ Hr) as (r' & Hr' & Hadv). exists r'. split; [done|].
    assert (Hk' : byKey st' !! in_idempotencyKey i = Some r').
    { destruct (proj1 Hc' _ _ Hr') as [_ Hb]. destruct Hadv as [(_ & _ & _ & _ & E & _) _].
      by rewrite <- Hkey, <- E. }
    simpl. unfold findByIdempotency. by rewrite Hk'.
Qed.

(** ** Calls that overlap *)

Definition pool (after : Supply → Supply) {A} :=
  pool_step (A := A) (run_port after) (λ _ _, False).

Ltac step_at before := eapply rtc_l; [by eapply (pool_call _ _ _ before)|]; cbn [app].

(** Two transitions of one run that overlap at the read of the store both succeed, whatever
    the two triggers are, as long as each is legal in the state they both read: the second save
    replaces the first.  So a run can be stored as SUCCEEDED, reported as such, and end up
    CANCELLED, which the state machine forbids. *)
Theorem overlapping_transitions after st s r t1 t2 a b
  (Hr : runs st !! id r = Some r)
  (H1 : resolveRunEdge (state r) t1 = Some a) (H2 : resolveRunEdge (state r) t2 = Some b) :
  ∃ mid ts tr1 tr2 st',
    rtc (pool after) ((st, s), [([], transitionRun (id r) t1); ([], transitionRun (id r) t2)])
      ((mid, s), ts) ∧
    runs mid !! id r = Some (with_state a (clock s) r) ∧
    rtc (pool after) ((mid, s), ts)
      ((st', s), [(tr1, Done (Returned (with_state a (clock s) r)));
                  (tr2, Done (Returned (with_state b (clock s) r)))]) ∧
    runs st' !! id r = Some (with_state b (clock s) r).
Proof.
  unfold pool, transitionRun. do 5 eexists. split; [|split; [|split]].
  - step_at (@nil (thread (Call := RunCall) (Ans := RunAns) (A := WorkflowRun))).
    unfold get. cbn [fst snd]. rewrite Hr. cbn [pbind]. rewrite H1. cbn [call pbind].
    eapply rtc_l; [by eapply (pool_call _ _ _ [_])|]. cbn [app].
    unfold get. cbn [fst snd]. rewrite Hr. cbn [pbind]. rewrite H2. cbn [call pbind].
    step_at (@nil (thread (Call := RunCall) (Ans := RunAns) (A := WorkflowRun))).
    step_at (@nil (thread (Call := RunCall) (Ans := RunAns) (A := WorkflowRun))).
    apply rtc_refl.
  - simpl. apply lookup_insert_eq.
  - eapply rtc_l; [by eapply (pool_call _ _ _ [_])|]. cbn [app].
    eapply rtc_l; [by eapply (pool_call _ _ _ [_])|]. cbn [app].
    apply rtc_refl.
  - simpl. apply lookup_insert_eq.
Qed.

(** ** Witnesses *)

Definition sample_supply : Supply :=
  {| definition_of := λ _ _, Returned (Definitions.sample_definition ["read_repo"]);
     snapshot_of := λ i v, Returned
       {| Definitions.snap_id := "snap:1"; Definitions.snap_definitionId := i;
          Definitions.snap_semanticVersion := v; Definitions.normalizedJsonDigest := "d";
          Definitions.normalizedJson := "{}"; Definitions.capturedAtIso := "now" |};
     clock := "2026-01-01T00:00:00.000Z"; next_uuid := "u1" |}.

Definition sample_input : LaunchWorkflowInput :=
  {| in_workflowRunId := "00000000-0000-4000-8000-000000000000"; in_repositoryId := "repo";
     workflowDefinitionId := "implement"; definitionVersion := "1.0.0";
     in_idempotencyKey := "key" |}.

Definition launched : RunStore :=
  (perform (λ s, s) (Launch sample_input) (empty_store, sample_supply)).1.

Definition launched_run (s : RunState) : WorkflowRun :=
  {| id := "u1"; workflowRunId := in_workflowRunId sample_input; repositoryId := "repo";
     definitionSnapshotId := "snap:1"; state := s; currentStepIndex := 0;
     steps := pending_steps (Definitions.sample_definition ["read_repo"]);
     idempotencyKey := "key"; createdAtIso := clock sample_supply;
     updatedAtIso := clock sample_supply |}.

Definition cancelled_store : RunStore :=
  (perform (λ s, s) (TransitionRun "u1" cancel)
     (launched, {| definition_of := definition_of sample_supply;
                   snapshot_of := snapshot_of sample_supply; clock := clock sample_supply;
                   next_uuid := "u2" |})).1.

Lemma sequential_runs_witness :
  runs launched !! "u1" = Some (launched_run PENDING) ∧
  ∃ r', runs cancelled_store !! "u1" = Some r' ∧ state r' = CANCELLED.
Proof.
  split; [by vm_compute|].
  assert (H1 : rtc alone empty_store cancelled_store).
  { eapply rtc_l; [by apply (alone_call _ sample_supply (λ s, s) (Launch sample_input))|].
    by apply rtc_once, alone_call. }
  destruct (sequential_runs _ _ H1 (rtc_refl _ _)) as (_ & _ & Hterm & _).
  destruct (Hterm "u1" (launched_run CANCELLED)) as (r' & Hr' & E); [by vm_compute| |].
  - by apply includes_spec.
  - by exists r'.
Defined.

Lemma overlapping_transitions_witness :
  ∃ mid ts tr1 tr2 st',
    let st := save (launched_run RUNNING) empty_store in
    rtc (pool (λ s, s)) ((st, sample_supply),
        [([], transitionRun "u1" succeed); ([], transitionRun "u1" cancel)])
      ((mid, sample_supply), ts) ∧
    runs mid !! "u1" = Some (launched_run SUCCEEDED) ∧
    rtc (pool (λ s, s)) ((mid, sample_supply), ts)
      ((st', sample_supply), [(tr1, Done (Returned (launched_run SUCCEEDED)));
                              (tr2, Done (Returned (launched_run CANCELLED)))]) ∧
    runs st' !! "u1" = Some (launched_run CANCELLED).
Proof.
  exact (overlapping_transitions (λ s, s) (save (launched_run RUNNING) empty_store) sample_supply
    (launched_run RUNNING) succeed cancel SUCCEEDED CANCELLED eq_refl eq_refl eq_refl).
Defined.
