(* ===== verification/RunQuery.v ===== *)
(** * Listing and cancelling runs

    [packages/workflows/src/runs/run-query-service.ts] over the keyset-paginated [list] and the
    compare-and-set [cancel] of [packages/db/src/repositories/workflow-evidence.ts].  Creation
    times are database timestamps in microseconds, which the cursor carries exactly, as text. *)

From S2P Require Import Prelude JsString Effects.
From S2P Require RunStore.

#[local] Existing Instance RunStore.RunStatus_eq_dec.

(** The columns of a run that [list] filters, orders and pages by. *)
(* @src packages/workflows/src/runs/run-query-service.ts:9-24 RunRow *)
Record ListedRun := {
  id : string;
  repositoryId : string;
  createdAt : Z;
  triggerType : string;
  originSurface : string;
  prNumber : option Z;
}.

(* @src packages/workflows/src/runs/run-query-service.ts:42-45 Cursor *)
Record Cursor := { cursor_createdAt : Z; cursor_id : string }.

(** The input of [listRuns]; [list] gets the same filters. *)
(* @src packages/workflows/src/runs/run-query-service.ts:66-73 WorkflowQueryService.listRuns *)
Record ListInput := {
  in_repositoryId : string;
  in_limit : option Z;
  in_triggerType : option string;
  in_originSurface : option string;
  in_pullRequestNumber : option Z;
}.

(* @src packages/workflows/src/runs/run-query-service.ts:47-51 RunListPage *)
Record RunListPage := { page_runs : list ListedRun; hasMore : bool; nextCursor : option Cursor }.

Definition DEFAULT_RUN_LIMIT : Z := 50.
Definition MAX_RUN_LIMIT : Z := 100.

(** [ORDER BY created_at DESC, id DESC]. *)
Definition newest_first : ListedRun → ListedRun → Z :=
  cmp_then (cmp_by createdAt (flip Z.sub)) (cmp_by id (flip code_unit_compare)).

Definition equals_if {A} `{EqDecision A} (o : option A) (a : A) : bool :=
  match o with Some b => bool_decide (a = b) | None => true end.

(** The [WHERE] conditions but the cursor's. *)
(* @src packages/db/src/repositories/workflow-evidence.ts:213-237 WorkflowRunStore.list *)
Definition selected (i : ListInput) (r : ListedRun) : bool :=
  (repositoryId r =s? in_repositoryId i) &&
  equals_if (in_triggerType i) (triggerType r) && equals_if (in_originSurface i) (originSurface r) &&
  match in_pullRequestNumber i with Some n => bool_decide (prNumber r = Some n) | None => true end.

(* @src packages/db/src/repositories/workflow-evidence.ts:216-222 WorkflowRunStore.list *)
Definition before_cursor (c : option Cursor) (r : ListedRun) : bool :=
  match c with
  | None => true
  | Some c =>
      (createdAt r <? cursor_createdAt c) ||
      ((createdAt r =? cursor_createdAt c) && (code_unit_compare (id r) (cursor_id c) <? 0))
  end.

(* @src packages/db/src/repositories/workflow-evidence.ts:203-246 WorkflowRunStore.list *)
Definition list_ (i : ListInput) (limit : Z) (c : option Cursor) (table : list ListedRun)
  : list ListedRun :=
  take (Z.to_nat (limit + 1))
    (js_sort newest_first
       (List.filter (λ r, selected i r && before_cursor c r) table)).

(* @src packages/workflows/src/runs/run-query-service.ts:74-74 WorkflowQueryService.listRuns *)
Definition requested (i : ListInput) : Z :=
  Z.min (Z.max (in_limit i ?? DEFAULT_RUN_LIMIT) 1) MAX_RUN_LIMIT.

(* @src packages/workflows/src/runs/run-query-service.ts:66-95 WorkflowQueryService.listRuns *)
Definition listRuns (i : ListInput) (cursor : option Cursor) (table : list ListedRun) : RunListPage :=
  let rows := list_ i (requested i + 1) cursor table in
  let more := Z.of_nat (length rows) >? requested i in
  let page := if more then take (Z.to_nat (requested i)) rows else rows in
  {| page_runs := page; hasMore := more;
     nextCursor := (λ r, {| cursor_createdAt := createdAt r; cursor_id := id r |}) <$> last page |}.

(** A client that follows the cursors, with at most [fuel] requests. *)
Fixpoint walk (fuel : nat) (i : ListInput) (cursor : option Cursor) (table : list ListedRun)
  : option (list ListedRun) :=
  match fuel with
  | O => None
  | S fuel =>
      let page := listRuns i cursor table in
      if hasMore page then
        (c ← nextCursor page; rest ← walk fuel i (Some c) table; Some (page_runs page ++ rest))
      else Some (page_runs page)
  end.

(** What the pages are to enumerate. *)
Definition listing (i : ListInput) (table : list ListedRun) : list ListedRun :=
  js_sort newest_first (List.filter (selected i) table).

(** ** The order *)

Lemma flip_comparator {A} (p : A → A → Z) : Comparator p → Comparator (flip p).
Proof.
  intros Hp. unfold flip. split.
  - intros a. apply cmp_refl.
  - intros a b. apply (cmp_sym (cmp := p)).
  - intros a b c H1 H2. by apply (cmp_trans (cmp := p) c b a).
Qed.

#[local] Instance newest_first_comparator : Comparator newest_first.
Proof. apply cmp_then_comparator; apply cmp_by_comparator, flip_comparator; apply _. Qed.

Definition cursor_of (r : ListedRun) : Cursor := {| cursor_createdAt := createdAt r; cursor_id := id r |}.

#[local] Arguments before_cursor : simpl never.

Lemma before_cursor_spec x r : before_cursor (Some (cursor_of x)) r = true ↔ newest_first x r < 0.
Proof.
  unfold before_cursor, newest_first, cmp_then, cmp_by, flip, cursor_of.
  cbn [cursor_createdAt cursor_id].
  pose proof (cmp_sym (cmp := code_unit_compare) (id x) (id r)).
  rewrite orb_true_iff, andb_true_iff, !Z.ltb_lt, Z.eqb_eq.
  destruct (createdAt r - createdAt x =? 0) eqn:E; breflect; lia.
Qed.

Lemma newest_first_eq a b : newest_first a b = 0 → id a = id b.
Proof.
  unfold newest_first, cmp_then, cmp_by, flip. case_match; breflect; [|lia].
  intros Hz. symmetry. by apply code_unit_compare_eq.
Qed.

(** In a sorted list of distinct runs, what lies behind a run is what its cursor selects. *)
Lemma behind_cursor l x l' :
  NoDup (map id (l ++ x :: l')) → StronglySorted (cmp_le newest_first) (l ++ x :: l') →
  List.filter (before_cursor (Some (cursor_of x))) (l ++ x :: l') = l'.
Proof.
  intros Hnd Hs. rewrite List.filter_app. simpl. fold (cursor_of x).
  assert (Hx : before_cursor (Some (cursor_of x)) x = false).
  { apply not_true_iff_false. rewrite before_cursor_spec, cmp_refl. lia. }
  rewrite Hx.
  assert (Hfront : List.filter (before_cursor (Some (cursor_of x))) l = []).
  { induction l as [|y l IH]; [done|]. simpl in *. inversion Hs as [|? ? Hs' Hy]; subst.
    inversion Hnd; subst. rewrite IH by done.
    destruct (before_cursor _ y) eqn:E; [|done]. exfalso.
    apply before_cursor_spec in E. rewrite Forall_app, Forall_cons in Hy. destruct Hy as [_ [Hy _]].
    unfold cmp_le in Hy. pose proof (cmp_sym (cmp := newest_first) x y). lia. }
  rewrite Hfront. simpl. clear Hfront Hx.
  rewrite map_app in Hnd. apply NoDup_app in Hnd as (_ & _ & Hnd). simpl in Hnd.
  apply StronglySorted_app_1_r in Hs. inversion Hs as [|? ? _ Hall]; subst.
  inversion Hnd as [|? ? Hx _]; subst. clear Hs Hnd.
  induction l' as [|y l' IH]; [done|]. simpl in *. inversion Hall as [|? ? Hy Hall']; subst.
  apply not_elem_of_cons in Hx as [Hne Hx]. rewrite IH by done.
  assert (before_cursor (Some (cursor_of x)) y = true) as ->; [|done].
  apply before_cursor_spec. unfold cmp_le in Hy.
  destruct (decide (newest_first x y = 0)) as [E|E]; [|lia]. by apply newest_first_eq in E.
Qed.

Lemma filter_sort_insert {A} (cmp : A → A → Z) `{!Comparator cmp} (f : A → bool) x l :
  StronglySorted (cmp_le cmp) l →
  List.filter f (sort_insert cmp x l) =
    if f x then sort_insert cmp x (List.filter f l) else List.filter f l.
Proof.
  induction 1 as [|y l Hl IH Hy]; simpl; [by destruct (f x)|].
  destruct (cmp x y <=? 0) eqn:E; simpl.
  - destruct (f x) eqn:Hfx; [|done]. rewrite sort_insert_head; [done|].
    apply Forall_forall. intros z Hz. breflect. unfold cmp_le.
    assert (Hz' : z ∈ y :: l).
    { apply (bfilter_elem f (y :: l)) in Hz as [Hz _]. done. }
    apply elem_of_cons in Hz' as [->|Hz']; [done|].
    rewrite Forall_forall in Hy. eapply cmp_trans; [done|]. by apply Hy.
  - rewrite IH. destruct (f x) eqn:Hfx, (f y) eqn:Hfy; simpl; rewrite ?E; done.
Qed.

(** Selecting from a sorted list is sorting the selection. *)
Lemma filter_sort {A} (cmp : A → A → Z) `{!Comparator cmp} (f : A → bool) l :
  List.filter f (js_sort cmp l) = js_sort cmp (List.filter f l).
Proof.
  induction l as [|x l IH]; simpl; [done|].
  rewrite (filter_sort_insert cmp f x _ (js_sort_sorted cmp l)). rewrite IH. by destruct (f x).
Qed.

Lemma filter_filter {A} (f g : A → bool) l :
  List.filter (λ x, f x && g x) l = List.filter g (List.filter f l).
Proof.
  induction l as [|x l IH]; simpl; [done|].
  destruct (f x); simpl; [destruct (g x); by rewrite IH|done].
Qed.

Lemma list_is_listing i limit c table :
  list_ i limit c table =
    take (Z.to_nat (limit + 1)) (List.filter (before_cursor c) (listing i table)).
Proof. unfold list_, listing. by rewrite filter_filter, filter_sort by apply _. Qed.

Lemma requested_bounds i : 1 ≤ requested i ≤ 100.
Proof. unfold requested, MAX_RUN_LIMIT. lia. Qed.

(** One page of what is left. *)
Lemma listRuns_page i c table rest :
  List.filter (before_cursor c) (listing i table) = rest →
  listRuns i c table =
    let n := Z.to_nat (requested i) in
    {| page_runs := take n rest; hasMore := bool_decide (n < length rest)%nat;
       nextCursor := cursor_of <$> last (take n rest) |}.
Proof.
  intros Hrest. unfold listRuns. rewrite list_is_listing, Hrest. pose proof (requested_bounds i).
  replace (Z.to_nat (requested i + 1 + 1)) with (S (S (Z.to_nat (requested i)))) by lia.
  rewrite length_take.
  destruct (_ >? requested i) eqn:E; [apply Z.gtb_lt in E|rewrite Z.gtb_ltb in E; breflect].
  - rewrite take_take, Nat.min_l by lia. rewrite bool_decide_eq_true_2 by lia. done.
  - rewrite bool_decide_eq_false_2 by lia. rewrite !take_ge by lia. done.
Qed.

Lemma walk_rest fuel i table : ∀ c done_ rest,
  NoDup (map id (listing i table)) →
  listing i table = done_ ++ rest → List.filter (before_cursor c) (listing i table) = rest →
  (length rest < fuel)%nat → walk fuel i c table = Some rest.
Proof.
  pose proof (requested_bounds i). pose proof (js_sort_sorted newest_first (List.filter (selected i) table)) as Hs.
  fold (listing i table) in Hs.
  induction fuel as [|fuel IH]; intros c done_ rest Hnd Hl Hrest Hf; [lia|].
  cbn [walk]. rewrite (listRuns_page _ _ _ _ Hrest). cbn.
  set (n := Z.to_nat (requested i)). assert (1 ≤ n)%nat by (unfold n; lia).
  case_bool_decide as Hn; [|by rewrite take_ge by lia].
  destruct (last (take n rest)) as [x|] eqn:Hx; cycle 1.
  { apply last_None in Hx. apply (f_equal length) in Hx. rewrite length_take in Hx. simpl in Hx. lia. }
  apply last_Some in Hx as [front Hx]. cbn.
  assert (Hsplit : listing i table = (done_ ++ front) ++ x :: drop n rest).
  { rewrite Hl, <- app_assoc. f_equal. rewrite <- (take_drop n rest) at 1. rewrite Hx.
    by rewrite <- app_assoc. }
  rewrite (IH _ ((done_ ++ front) ++ [x]) (drop n rest)).
  - cbn. by rewrite take_drop.
  - done.
  - rewrite Hsplit. by rewrite <- (app_assoc (done_ ++ front) [x]).
  - rewrite Hsplit. apply behind_cursor; by rewrite <- Hsplit.
  - rewrite length_drop. lia.
Qed.

Lemma filter_ids i table : NoDup (map id table) → NoDup (map id (List.filter (selected i) table)).
Proof.
  induction table as [|r table IH]; simpl; [done|]. inversion 1 as [|? ? Hr Hnd]; subst.
  destruct (selected i r); simpl; [|by apply IH]. constructor; [|by apply IH].
  intros (r' & E & Hin)%list_elem_of_fmap. apply Hr, list_elem_of_fmap. exists r'.
  by apply bfilter_elem in Hin as [Hin _].
Qed.

(** Following the cursors ends and misses nothing: for any table of runs with distinct ids,
    any filters and any limit -- none, zero, negative or beyond the maximum --, a client that
    requests pages until there are no more makes at most one request per matching run and one
    more, no page has more than 100 runs or than the requested limit, and the pages together are
    the matching runs, each exactly once, newest first. *)
Theorem pages_enumerate i table (Hids : NoDup (map id table)) :
  (∀ c, Z.of_nat (length (page_runs (listRuns i c table))) ≤ requested i ≤ 100) ∧
  walk (S (length (listing i table))) i None table = Some (listing i table) ∧
  listing i table ≡ₚ List.filter (selected i) table ∧
  StronglySorted (cmp_le newest_first) (listing i table).
Proof.
  split_and!.
  - intros c. pose proof (requested_bounds i). rewrite (listRuns_page _ _ _ _ eq_refl). cbn.
    rewrite length_take. lia.
  - apply (walk_rest _ _ _ _ []); [|done| |lia].
    + unfold listing. rewrite js_sort_perm. by apply filter_ids.
    + generalize (listing i table). intros l. unfold before_cursor.
      induction l as [|x l IH]; simpl; congruence.
  - apply js_sort_perm.
  - apply (js_sort_sorted newest_first).
Qed.

(** ** Cancelling *)

Inductive CancelOutcome :=
  | CancelOk (run : RunStore.RunRow)
  | WORKFLOW_UNKNOWN | WORKFLOW_NOT_CANCELLABLE | PRECONDITION_FAILED.

Inductive QueryCall :=
  | getDetail (i : string)
  | store_cancel (i : string) (expectedVersion : Z).

Definition QueryAns (c : QueryCall) : Type :=
  match c with getDetail _ => option RunStore.RunRow | store_cancel _ _ => RunStore.RunRow end.

(* @src packages/workflows/src/runs/run-query-service.ts:102-114 WorkflowQueryService.cancel *)
Definition cancel (runId : string) (expectedVersion : Z) : proc QueryAns CancelOutcome :=
  existing <~ call (getDetail runId) ;;
  match existing with
  | None => pret WORKFLOW_UNKNOWN
  | Some r =>
      if negb (bool_decide (RunStore.status r = RunStore.queued)) &&
         negb (bool_decide (RunStore.status r = RunStore.waiting_for_approval)) then
        pret WORKFLOW_NOT_CANCELLABLE
      else
        ptry (run <~ call (store_cancel runId expectedVersion) ;; pret (CancelOk run))
          (λ _, pret PRECONDITION_FAILED)
  end.

(** The durable store answers. *)
Definition run_store_port (now : Z) (c : QueryCall) (m : gmap string RunStore.RunRow)
  : outcome (QueryAns c) * gmap string RunStore.RunRow :=
  match c return outcome (QueryAns c) * gmap string RunStore.RunRow with
  | getDetail i => (Returned (m !! i), m)
  | store_cancel i v => RunStore.cancel now i v m
  end.

(** Every outcome of an uninterrupted cancellation, over the durable store. *)
Lemma cancel_outcomes now i v m :
  let '(o, _, m') := exec (run_store_port now) (cancel i v) m in
  match m !! i with
  | None => o = Returned WORKFLOW_UNKNOWN ∧ m' = m
  | Some r =>
      if bool_decide (RunStore.status r = RunStore.queued ∨
                      RunStore.status r = RunStore.waiting_for_approval) then
        if RunStore.rowVersion r =? v then
          ∃ r', o = Returned (CancelOk r') ∧ m' = <[i := r']> m ∧
            RunStore.status r' = RunStore.cancelled ∧
            RunStore.rowVersion r' = RunStore.rowVersion r + 1 ∧
            RunStore.input r' = RunStore.input r
        else o = Returned PRECONDITION_FAILED ∧ m' = m
      else o = Returned WORKFLOW_NOT_CANCELLABLE ∧ m' = m
  end.
Proof.
  simpl. destruct (m !! i) as [r|] eqn:Hr; simpl; [|done].
  destruct (decide (RunStore.status r = RunStore.queued)) as [Hq|Hq];
    [|destruct (decide (RunStore.status r = RunStore.waiting_for_approval)) as [Hw|Hw]].
  - rewrite (bool_decide_eq_true_2 _ Hq), (bool_decide_eq_true_2 (_ ∨ _)) by auto. simpl.
    unfold RunStore.cancel. rewrite Hr, Hq. simpl. destruct (_ =? v); simpl; [|done].
    by eexists.
  - rewrite (bool_decide_eq_false_2 _ Hq), (bool_decide_eq_true_2 _ Hw),
      (bool_decide_eq_true_2 (_ ∨ _)) by auto. simpl.
    unfold RunStore.cancel. rewrite Hr, Hw. simpl. destruct (_ =? v); simpl; [|done].
    by eexists.
  - by rewrite (bool_decide_eq_false_2 _ Hq), (bool_decide_eq_false_2 _ Hw),
      (bool_decide_eq_false_2 (_ ∨ _)) by naive_solver.
Qed.

(** ** Witness: three runs of one millisecond, two per page *)

Definition sample_run (i repo : string) (t : Z) : ListedRun :=
  {| id := i; repositoryId := repo; createdAt := t; triggerType := "api"; originSurface := "web";
     prNumber := None |}.

Definition sample_table : list ListedRun :=
  [sample_run "a" "r" 5; sample_run "b" "r" 5; sample_run "x" "other" 6; sample_run "c" "r" 4].

Definition two_per_page : ListInput :=
  {| in_repositoryId := "r"; in_limit := Some 2; in_triggerType := None;
     in_originSurface := None; in_pullRequestNumber := None |}.

Lemma pages_enumerate_witness :
  NoDup (map id sample_table) ∧
  walk 4 two_per_page None sample_table
    = Some [sample_run "b" "r" 5; sample_run "a" "r" 5; sample_run "c" "r" 4].
Proof.
  assert (Hnd : NoDup (map id sample_table)) by (apply (bool_decide_unpack _); by vm_compute).
  split; [done|]. exact (proj1 (proj2 (pages_enumerate two_per_page sample_table Hnd))).
Defined.
