(* ===== verification/Aggregator.v ===== *)
(** * Validation aggregation

    [packages/workflows/src/validation/aggregator.ts]: the aggregate gate over validation
    results and artifacts, and the user-facing outcome derived from it.  Timestamps are what
    [Date.parse] makes of them: milliseconds, or [None] when it is not a number. *)

From S2P Require Import Prelude JsString.

(* @src packages/workflows/src/validation/aggregator.ts:13-28 ValidationItemState *)
Inductive ValidationItemState :=
  PENDING | READY | RUNNING | COLLECTING_EVIDENCE | RETRY_WAIT | PASSED | FAILED | SKIPPED
| ITEM_BLOCKED | ERROR | ITEM_STALE | CANCELLING | CANCELLED.

#[export] Instance ValidationItemState_eq_dec : EqDecision ValidationItemState.
Proof. solve_decision. Defined.

(* @src packages/workflows/src/validation/aggregator.ts:41-50 ValidationResult *)
Record ValidationResult := {
  validatorId : string;
  validatorVersion : string;
  status : ValidationItemState;
  mandatory : bool;
  targetSha : string;
  observedAt : option Z;
  validUntil : option (option Z);
  findingIds : list string;
}.

Inductive ScanState := SAFE | QUARANTINED | REJECTED.

#[export] Instance ScanState_eq_dec : EqDecision ScanState.
Proof. solve_decision. Defined.

(* @src packages/workflows/src/validation/aggregator.ts:52-59 OutcomeEvidenceInput *)
Record OutcomeEvidenceInput := {
  runId : string;
  completedItems : list string;
  notCompletedItems : list string;
  artifactScanStates : gmap string ScanState;
  requiredArtifactIds : list string;
  prPendingApproval : bool;
}.

(* @src packages/workflows/src/validation/aggregator.ts:61-70 WorkflowOutcomeKind *)
Inductive WorkflowOutcomeKind := success | partial | blocked | failed | cancelled | rejected | timed_out.

Inductive Retryability := safe | reconcile | required_user_action | none.

(* @src packages/workflows/src/validation/aggregator.ts:72-78 WorkflowOutcome *)
Record WorkflowOutcome := {
  outcome_runId : string;
  kind : WorkflowOutcomeKind;
  summary : string;
  retryability : Retryability;
  nextAction : string;
}.

Inductive Gate := SATISFIED | UNSATISFIED | BLOCKED | STALE.

#[export] Instance Gate_eq_dec : EqDecision Gate.
Proof. solve_decision. Defined.

(** [validUntilIso] is absent, or present with what it parses to. *)
(* @src packages/workflows/src/validation/aggregator.ts:86-98 NoopFreshnessEvaluator *)
Definition NoopFreshnessEvaluator (now : Z) (r : ValidationResult) : bool :=
  match validUntil r, observedAt r with
  | Some (Some u), Some o => (o <=? now) && (now <=? u)
  | _, _ => false
  end.

(** [{ targetSha?, validatorIds? }]. *)
Record Expectations := { expected_targetSha : option string; expected_validatorIds : option (list string) }.

Section Aggregate.
Context (isFresh : ValidationResult → bool).

(* @src packages/workflows/src/validation/aggregator.ts:219-227 ValidationAggregator.outcome *)
Definition outcome_ (e : OutcomeEvidenceInput) (k : WorkflowOutcomeKind) (s : string)
    (r : Retryability) (next : string) : WorkflowOutcome :=
  {| outcome_runId := runId e; kind := k; summary := s; retryability := r; nextAction := next |}.

(* @src packages/workflows/src/validation/aggregator.ts:108-113 ValidationAggregator.aggregate *)
Definition is_bad (x : Expectations) (r : ValidationResult) : bool :=
  bool_decide (status r = ITEM_BLOCKED) || bool_decide (status r = ERROR) ||
  match expected_targetSha x with Some t => negb (targetSha r =s? t) | None => false end.

(* @src packages/workflows/src/validation/aggregator.ts:114-118 ValidationAggregator.aggregate *)
Definition missing_evidence (x : Expectations) (results : list ValidationResult) : bool :=
  match expected_validatorIds x with
  | Some ids =>
      existsb (λ i, negb (existsb (λ r, (validatorId r =s? i) && bool_decide (status r = PASSED)) results))
        ids
  | None => false
  end.

(* @src packages/workflows/src/validation/aggregator.ts:103-217 ValidationAggregator.aggregate *)
Definition aggregate (results : list ValidationResult) (e : OutcomeEvidenceInput) (x : Expectations)
  : Gate * WorkflowOutcome :=
  let bad := List.find (is_bad x) results in
  if missing_evidence x results then
    (UNSATISFIED, outcome_ e failed "required validation evidence missing" required_user_action
                    "run required validations")
  else match bad with
  | Some _ => (BLOCKED, outcome_ e blocked "blocked" required_user_action "resolve blocked validation")
  | None =>
  match List.find (λ r, negb (isFresh r)) results with
  | Some _ => (STALE, outcome_ e blocked "blocked" required_user_action "re-run stale validation")
  | None =>
  match List.find (λ r, mandatory r && negb (bool_decide (status r = PASSED))) results with
  | Some r =>
      (UNSATISFIED,
       outcome_ e failed (validatorId r +s " not passed")
         (if decide (status r = FAILED) then required_user_action else safe) "fix failed validation")
  | None =>
  match List.find (λ a, negb (bool_decide (artifactScanStates e !! a = Some SAFE)))
          (requiredArtifactIds e) with
  | Some a =>
      (UNSATISFIED,
       outcome_ e failed ("artifact " +s a +s " not safe") required_user_action
         "quarantine/replace artifact")
  | None =>
      if negb (bool_decide (notCompletedItems e = [])) then
        (UNSATISFIED, outcome_ e partial "workflow items remain incomplete" required_user_action
                        "complete remaining items")
      else if prPendingApproval e then
        (UNSATISFIED, outcome_ e partial "awaiting PR approval" required_user_action "await approval")
      else
        (SATISFIED, outcome_ e success "all validations passed and artifacts safe" none "complete")
  end end end end.

(** ** When the gate is satisfied *)

Definition expected_passed (x : Expectations) (results : list ValidationResult) : Prop :=
  ∀ ids i, expected_validatorIds x = Some ids → i ∈ ids →
    ∃ r, r ∈ results ∧ validatorId r = i ∧ status r = PASSED.

Definition result_good (x : Expectations) (r : ValidationResult) : Prop :=
  status r ≠ ITEM_BLOCKED ∧ status r ≠ ERROR ∧
  (∀ t, expected_targetSha x = Some t → targetSha r = t) ∧ isFresh r = true ∧
  (mandatory r = true → status r = PASSED).

Lemma missing_evidence_false x results :
  missing_evidence x results = false ↔ expected_passed x results.
Proof.
  unfold missing_evidence, expected_passed. destruct (expected_validatorIds x) as [ids|]; [|naive_solver].
  rewrite existsb_false. setoid_rewrite negb_false_iff. setoid_rewrite existsb_true.
  setoid_rewrite andb_true_iff. setoid_rewrite String.eqb_eq. setoid_rewrite bool_decide_eq_true.
  naive_solver.
Qed.

Lemma is_bad_false x r :
  is_bad x r = false ↔ status r ≠ ITEM_BLOCKED ∧ status r ≠ ERROR ∧
    (∀ t, expected_targetSha x = Some t → targetSha r = t).
Proof.
  unfold is_bad. rewrite !orb_false_iff, !bool_decide_eq_false.
  destruct (expected_targetSha x) as [t|]; [|naive_solver].
  rewrite negb_false_iff, String.eqb_eq. naive_solver.
Qed.

Lemma find_none {A} (f : A → bool) l : List.find f l = None ↔ ∀ a, a ∈ l → f a = false.
Proof.
  split; [intros Hf a; by apply find_none_elem|]. intros Hall.
  destruct (List.find f l) as [a|] eqn:E; [|done]. apply find_some_elem in E as [Hin Ha].
  rewrite Hall in Ha; done.
Qed.

(** The aggregate gate, for any freshness check: it is satisfied exactly when every expected
    validator has a passed result, no result is blocked, in error, about another target or
    stale, every mandatory result passed, every required artifact was scanned safe, nothing is
    left incomplete and no pull request awaits approval; and the outcome claims success exactly
    then, for this run.  With no results, no expected validators and no required artifacts all
    of that holds vacuously: the gate is satisfied and the outcome reads "all validations
    passed", linked to no evidence at all. *)
Theorem aggregate_exact results e x :
  let '(gate, o) := aggregate results e x in
  (gate = SATISFIED ↔
     expected_passed x results ∧ (∀ r, r ∈ results → result_good x r) ∧
     (∀ a, a ∈ requiredArtifactIds e → artifactScanStates e !! a = Some SAFE) ∧
     notCompletedItems e = [] ∧ prPendingApproval e = false) ∧
  (kind o = success ↔ gate = SATISFIED) ∧ outcome_runId o = runId e ∧
  (results = [] → expected_validatorIds x = None → requiredArtifactIds e = [] →
   notCompletedItems e = [] → prPendingApproval e = false →
     gate = SATISFIED ∧ summary o = "all validations passed and artifacts safe").
Proof.
  destruct (aggregate results e x) as [gate o] eqn:E.
  assert (Hsat : gate = SATISFIED ↔
     expected_passed x results ∧ (∀ r, r ∈ results → result_good x r) ∧
     (∀ a, a ∈ requiredArtifactIds e → artifactScanStates e !! a = Some SAFE) ∧
     notCompletedItems e = [] ∧ prPendingApproval e = false).
  { unfold aggregate in E. rewrite <- missing_evidence_false. unfold result_good.
    destruct (missing_evidence x results); [naive_solver|].
    destruct (List.find (is_bad x) results) as [r|] eqn:Hb.
    { apply find_some_elem in Hb as [Hin Hb]. injection E as <- _. split; [done|].
      intros (_ & Hg & _). destruct (Hg r Hin) as (H1 & H2 & H3 & _).
      assert (is_bad x r = false) by (by apply is_bad_false). congruence. }
    rewrite find_none in Hb. setoid_rewrite is_bad_false in Hb.
    destruct (List.find (λ r, negb (isFresh r)) results) as [r|] eqn:Hf.
    { apply find_some_elem in Hf as [Hin Hf]. injection E as <- _. split; [done|].
      intros (_ & Hg & _). destruct (Hg r Hin) as (_ & _ & _ & H4 & _). by rewrite H4 in Hf. }
    rewrite find_none in Hf.
    destruct (List.find (λ r, mandatory r && _) results) as [r|] eqn:Hm.
    { apply find_some_elem in Hm as [Hin Hm]. injection E as <- _. split; [done|].
      intros (_ & Hg & _). destruct (Hg r Hin) as (_ & _ & _ & _ & H5). breflect. naive_solver. }
    rewrite find_none in Hm.
    destruct (List.find _ (requiredArtifactIds e)) as [a|] eqn:Ha.
    { apply find_some_elem in Ha as [Hin Ha]. injection E as <- _. split; [done|].
      intros (_ & _ & Hg & _). rewrite (Hg a Hin) in Ha. by breflect. }
    rewrite find_none in Ha.
    destruct (bool_decide (notCompletedItems e = [])) eqn:Hn; breflect; simpl in E;
      [|naive_solver].
    destruct (prPendingApproval e); [naive_solver|]. injection E as <- _.
    split; [intros _|done]. split_and!; [done| | |done|done].
    - intros r Hr. specialize (Hf r Hr). specialize (Hm r Hr). specialize (Hb r Hr). simpl in *.
      split_and!; [apply Hb..| |]; [by destruct (isFresh r)|].
      intros Hman. rewrite Hman in Hm. simpl in Hm. by breflect.
    - intros a Hin. specialize (Ha a Hin). simpl in Ha. by breflect. }
  split; [exact Hsat|]. split.
  { clear Hsat. unfold aggregate in E. repeat case_match; simplify_eq/=; done. }
  split; [unfold aggregate in E; repeat case_match; by simplify_eq/=|].
  intros -> Hx Hr Hn Hp. unfold aggregate, missing_evidence in E. rewrite Hx, Hr, Hn, Hp in E.
  simpl in E. by simplify_eq/=.
Qed.
End Aggregate.

(** ** The outcome store *)

(* @src packages/workflows/src/validation/aggregator.ts:234-242 InMemoryOutcomeStore *)
Definition commit (o : WorkflowOutcome) (m : gmap string WorkflowOutcome) : gmap string WorkflowOutcome :=
  <[outcome_runId o := o]> m.
