(* ===== verification/Executor.v ===== *)
(** * Workflow executor

    [packages/workflows/src/executor/executor.ts]: the classification of failures, the lock
    table and the execution of one step under its locks.  [execute] is a program over the lock
    manager, the command port and the step handlers; the lock manager's own calls are answered
    by the modelled table, in any interleaving of any number of executions. *)

From S2P Require Import Prelude JsString JsDate Effects.

(* @src packages/workflows/src/executor/executor.ts:31-39 LockState *)
Inductive LockState :=
  | WAITING | HELD | RELEASING | RELEASED | EXPIRED | RECONCILING.

#[export] Instance lock_state_eq_dec : EqDecision LockState.
Proof. solve_decision. Defined.

(* @src packages/workflows/src/executor/executor.ts:41-42 RetryClass *)
Inductive RetryClass := safe | reconcile | no_retry | human_intervention.

#[export] Instance retry_class_eq_dec : EqDecision RetryClass.
Proof. solve_decision. Defined.

(* @src packages/workflows/src/executor/executor.ts:44-51 ExecuteStepJob *)
Record ExecuteStepJob := {
  runId : string;
  stepId : string;
  executionGeneration : Z;
  cancellationGeneration : Z;
  traceId : string;
  attempt : Z;
}.

(* @src packages/workflows/src/executor/executor.ts:53-58 RetryDisposition *)
Record RetryDisposition := {
  kind : RetryClass;
  delayMs : option Z;
  reconcilerId : option string;
  terminalCode : option string;
}.

Definition terminal (k : RetryClass) (code : string) : RetryDisposition :=
  {| kind := k; delayMs := None; reconcilerId := None; terminalCode := Some code |}.

(* @src packages/workflows/src/executor/executor.ts:60-62 LockResult *)
Inductive LockResult :=
  | Locked (lockId : string)
  | Refused (detail : string).

(* @src packages/workflows/src/executor/executor.ts:70-95 RetryClassifier.classify *)
Definition classify (code : string) : RetryDisposition :=
  if (code =s? "POLICY_DENIED") || (code =s? "VALIDATION_FAILED") ||
     (code =s? "PERMISSION_DENIED") || (code =s? "STALE_APPROVAL") then
    terminal no_retry code
  else if (code =s? "SIDE_EFFECT_OUTCOME_UNKNOWN") || (code =s? "COMMAND_OUTCOME_UNKNOWN") ||
          (code =s? "AGENT_OUTCOME_UNKNOWN") then
    {| kind := reconcile; delayMs := None; reconcilerId := Some code; terminalCode := None |}
  else if (code =s? "RATE_LIMITED") || (code =s? "TRANSIENT_PROVIDER_FAULT") then
    {| kind := safe; delayMs := Some 2000; reconcilerId := None; terminalCode := None |}
  else
    {| kind := reconcile; delayMs := None; reconcilerId := Some code; terminalCode := None |}.

(** ** The lock table *)

(* @src packages/workflows/src/executor/executor.ts:99-102 InMemoryLockManager.locks *)
Record lock_row := {
  row_state : LockState;
  row_ownerRunId : string;
  row_token : string;
  row_untilIso : string;
}.

(** The two readings of [Date.now()] and the text of [Math.random()] of one call. *)
Record instant := { now1 : Z; now2 : Z; random : string }.

(* @src packages/workflows/src/executor/executor.ts:104-117 InMemoryLockManager.acquire *)
Definition acquire (canonicalKey ownerRunId : string) (ttlMs : Z) (at_ : instant)
    (locks : gmap string lock_row) : outcome LockResult * gmap string lock_row :=
  let set_lock :=
    let token := "lock:" +s ownerRunId +s ":" +s canonicalKey +s ":" +s
                 num_to_string (now1 at_) +s ":" +s random at_ in
    match toISOString (now2 at_ + ttlMs) with
    | Threw e => (Threw e, locks)
    | Returned until =>
        (Returned (Locked token),
         <[canonicalKey := {| row_state := HELD; row_ownerRunId := ownerRunId;
                              row_token := token; row_untilIso := until |}]> locks)
    end in
  match locks !! canonicalKey with
  | Some existing =>
      if decide (row_state existing = HELD) then
        (Returned (Refused ("held by " +s row_ownerRunId existing)), locks)
      else set_lock
  | None => set_lock
  end.

(* @src packages/workflows/src/executor/executor.ts:119-123 InMemoryLockManager.release *)
Definition release (canonicalKey ownerRunId token : string)
    (locks : gmap string lock_row) : gmap string lock_row :=
  match locks !! canonicalKey with
  | Some existing =>
      if (row_ownerRunId existing =s? ownerRunId) && (row_token existing =s? token) then
        <[canonicalKey := {| row_state := RELEASED; row_ownerRunId := row_ownerRunId existing;
                             row_token := row_token existing;
                             row_untilIso := row_untilIso existing |}]> locks
      else locks
  | None => locks
  end.

(** ** Execution of a step *)

(** [{ ok: true }] or a code, the answer of a step handler. *)
(* @src packages/workflows/src/executor/executor.ts:126-129 StepHandler *)
Inductive HandlerAnswer := HandlerOk | HandlerFailed (code : string).

(** The calls of [execute]: the lock manager, the command port and the handler found. *)
(* @src packages/workflows/src/executor/executor.ts:64-67 ExecutorCommandPort *)
Inductive ExecutorCall :=
  | acquireLock (canonicalKey ownerRunId : string) (ttlMs : Z)
  | releaseLock (canonicalKey ownerRunId token : string)
  | verifyCancellationSupported (run : string)
  | dispatch (job : ExecuteStepJob)
  | runHandler (stepKind : string) (job : ExecuteStepJob).

Definition ExecutorAns (c : ExecutorCall) : Type :=
  match c with
  | acquireLock _ _ _ => LockResult
  | releaseLock _ _ _ => unit
  | verifyCancellationSupported _ => bool
  | dispatch _ => unit
  | runHandler _ _ => HandlerAnswer
  end.

Inductive StepOutcome :=
  | StepOk
  | StepFailed (retry : RetryDisposition) (detail : string).

(** The registered step kinds and [deps.maxRetries ?? 3]. *)
(* @src packages/workflows/src/executor/executor.ts:139-152 WorkflowExecutor *)
Record WorkflowExecutor := {
  handlers : gset string;
  maxRetries : option Z;
}.

Definition held_lock : Type := string * string.

(** [for (const a of acquired) await this.#locks.release(a.key, job.runId, a.token)]. *)
(* @src packages/workflows/src/executor/executor.ts:180-180 WorkflowExecutor.execute *)
Fixpoint release_all (run : string) (acquired : list held_lock) : proc ExecutorAns unit :=
  match acquired with
  | [] => pret tt
  | (key, token) :: acquired => call (releaseLock key run token) ;~ release_all run acquired
  end.

(** The loop of acquisitions: the locks acquired, or the detail of the refusal once everything
    acquired before it is released. *)
(* @src packages/workflows/src/executor/executor.ts:176-188 WorkflowExecutor.execute *)
Fixpoint acquire_all (run : string) (acquired : list held_lock) (locks : list string)
  : proc ExecutorAns (list held_lock + string) :=
  match locks with
  | [] => pret (inl acquired)
  | lockKey :: locks =>
      lock <~ call (acquireLock lockKey run 30000) ;;
      match lock with
      | Refused detail => release_all run acquired ;~ pret (inr detail)
      | Locked lockId => acquire_all run (acquired ++ [(lockKey, lockId)]) locks
      end
  end.

(* @src packages/workflows/src/executor/executor.ts:190-208 WorkflowExecutor.execute *)
Definition run_locked (job : ExecuteStepJob) (stepKind : string) (acquired : list held_lock)
  : proc ExecutorAns StepOutcome :=
  supported <~ call (verifyCancellationSupported (runId job)) ;;
  if negb supported && (stepKind =s? "command") then
    pret (StepFailed (terminal human_intervention "CANCELLATION_INCOMPLETE")
            "cancellation unsupported")
  else
    call (dispatch job) ;~
    result <~ call (runHandler stepKind job) ;;
    match result with
    | HandlerOk => release_all (runId job) acquired ;~ pret StepOk
    | HandlerFailed code =>
        let retry := classify code in
        release_all (runId job) acquired ;~ pret (StepFailed retry code)
    end.

(* @src packages/workflows/src/executor/executor.ts:154-208 WorkflowExecutor.execute *)
Definition execute (this : WorkflowExecutor) (job : ExecuteStepJob) (stepKind : string)
    (locks : list string) : proc ExecutorAns StepOutcome :=
  if attempt job >? (maxRetries this ?? 3) then
    pret (StepFailed (terminal human_intervention "RETRY_BUDGET_EXHAUSTED")
            "retry budget exhausted")
  else if negb (bool_decide (stepKind ∈ handlers this)) then
    pret (StepFailed (terminal no_retry "EXECUTION_FENCED") ("no handler for " +s stepKind))
  else
    r <~ acquire_all (runId job) [] (js_sort code_unit_compare locks) ;;
    match r with
    | inr detail => pret (StepFailed (terminal no_retry "RESOURCE_LOCKED") detail)
    | inl acquired => run_locked job stepKind acquired
    end.

(** ** The locks a run of calls has taken and not given back *)

Definition holding : Type := string * string * string.

#[export] Instance holding_eq_dec : EqDecision holding.
Proof. solve_decision. Defined.

Fixpoint drop_one (x : holding) (l : list holding) : list holding :=
  match l with
  | [] => []
  | y :: l => if decide (x = y) then l else y :: drop_one x l
  end.

Definition held_step (h : list holding) (e : event ExecutorAns) : list holding :=
  match e with
  | existT c o =>
      match c return outcome (ExecutorAns c) → list holding with
      | acquireLock k r _ => λ o,
          match o with Returned (Locked t) => (k, r, t) :: h | _ => h end
      | releaseLock k r t => λ o,
          match o with Returned _ => drop_one (k, r, t) h | _ => h end
      | _ => λ _, h
      end o
  end.

Definition held (tr : list (event ExecutorAns)) : list holding := fold_left held_step tr [].

Lemma held_snoc tr e : held (tr ++ [e]) = held_step (held tr) e.
Proof. unfold held. by rewrite fold_left_app. Qed.

Lemma drop_one_perm x l l' : l ≡ₚ x :: l' → drop_one x l ≡ₚ l'.
Proof.
  revert l'. induction l as [|y l IH]; intros l' Hp; simpl.
  - by apply Permutation_nil_cons in Hp.
  - case_decide as Hxy; subst; [by apply Permutation_cons_inv in Hp|].
    assert (Hy : y ∈ l').
    { assert (y ∈ x :: l') as [->|]%elem_of_cons by (rewrite <- Hp; left); done. }
    apply elem_of_Permutation in Hy as [l2 Hl']. rewrite Hl' in *.
    rewrite (IH l2); [done|]. apply (Permutation_cons_inv (a := y)). rewrite Hp.
    apply Permutation_swap.
Qed.

Definition tag_owner (run : string) (a : held_lock) : holding := (a.1, run, a.2).

(** All of the locks named are held by the run. *)
Definition all_held (run : string) (locks : list string) (h : list holding) : Prop :=
  ∀ k, k ∈ locks → ∃ t, (k, run, t) ∈ h.

(** ** What an execution does, whatever the ports answer *)

Section Execution.
Context (this : WorkflowExecutor) (job : ExecuteStepJob) (stepKind : string).
Context (locks : list string).

(** What precedes each call. *)
Definition call_allowed (tr : list (event ExecutorAns)) (c : ExecutorCall) : Prop :=
  attempt job ≤ (maxRetries this ?? 3) ∧ stepKind ∈ handlers this ∧
  match c with
  | acquireLock k r ttl => k ∈ locks ∧ r = runId job ∧ ttl = 30000
  | releaseLock k r t => (k, r, t) ∈ held tr
  | verifyCancellationSupported r => r = runId job ∧ all_held (runId job) locks (held tr)
  | dispatch j => j = job ∧ all_held (runId job) locks (held tr)
  | runHandler s j =>
      s = stepKind ∧ j = job ∧ all_held (runId job) locks (held tr) ∧
      ∃ tr', tr = tr' ++ [ev (dispatch job) (Returned tt)]
  end.

Definition rejected (e : event ExecutorAns) : bool :=
  match e with existT c o => match o with Threw _ => true | Returned _ => false end end.

(** The handler's answers in a trace. *)
Definition answers (tr : list (event ExecutorAns)) : list HandlerAnswer :=
  omap (λ e : event ExecutorAns, match e with existT c o =>
    match c return outcome (ExecutorAns c) → option HandlerAnswer with
    | runHandler _ _ => λ o, match o with Returned a => Some a | _ => None end
    | _ => λ _, None
    end o end) tr.

Definition is_run (e : event ExecutorAns) : bool :=
  match ev_call e with runHandler _ _ => true | _ => false end.

Definition handler_runs (tr : list (event ExecutorAns)) : nat :=
  length (List.filter is_run tr).

(** What the result says of the calls made. *)
Definition result_true (tr : list (event ExecutorAns)) (r : outcome StepOutcome) : Prop :=
  (length tr ≤ 2 * length locks + 3)%nat ∧ (handler_runs tr ≤ 1)%nat ∧
  match r with
  | Returned StepOk => held tr = [] ∧ answers tr = [HandlerOk]
  | Returned (StepFailed d detail) =>
      (handler_runs tr = 0%nat ∧ held tr = [] ∧
        ((tr = [] ∧ maxRetries this ?? 3 < attempt job ∧
           d = terminal human_intervention "RETRY_BUDGET_EXHAUSTED") ∨
         (tr = [] ∧ stepKind ∉ handlers this ∧ d = terminal no_retry "EXECUTION_FENCED") ∨
         d = terminal no_retry "RESOURCE_LOCKED")) ∨
      (handler_runs tr = 0%nat ∧ stepKind = "command" ∧ all_held (runId job) locks (held tr) ∧
        d = terminal human_intervention "CANCELLATION_INCOMPLETE") ∨
      (held tr = [] ∧ answers tr = [HandlerFailed detail] ∧ d = classify detail)
  | Threw _ =>
      ∃ tr' e, tr = tr' ++ [e] ∧ rejected e = true ∧
        match ev_call e with
        | acquireLock _ _ _ | releaseLock _ _ _ => True
        | _ => all_held (runId job) locks (held tr)
        end
  end.

Definition allowed_before_run : Prop := attempt job ≤ (maxRetries this ?? 3) ∧ stepKind ∈ handlers this.

Lemma handler_runs_snoc tr e :
  handler_runs (tr ++ [e]) = (handler_runs tr + if is_run e then 1 else 0)%nat.
Proof.
  unfold handler_runs. rewrite List.filter_app, length_app. simpl. by destruct (is_run e).
Qed.

Lemma answers_snoc tr e : answers (tr ++ [e]) = answers tr ++ answers [e].
Proof. unfold answers. apply omap_app. Qed.

(** A rejected call that is not a run of the handler ends the execution. *)
Lemma rejection_true tr c e :
  (length tr < 2 * length locks + 3)%nat → (handler_runs (tr ++ [ev c (Threw e)]) ≤ 1)%nat →
  match c with
  | acquireLock _ _ _ | releaseLock _ _ _ => True
  | _ => all_held (runId job) locks (held tr)
  end →
  result_true (tr ++ [ev c (Threw e)]) (Threw e).
Proof.
  intros Hl Hr Hc. split; [rewrite length_app; simpl; lia|]. split; [done|].
  exists tr, (ev c (Threw e)). split_and!; [done|done|].
  rewrite held_snoc. by destruct c.
Qed.

(** [release_all] gives every lock back and calls nothing else. *)
Lemma ensures_release_all {A} (k : proc ExecutorAns A) (Q : list (event ExecutorAns) → outcome A → Prop)
    acquired tr :
  allowed_before_run →
  held tr ≡ₚ tag_owner (runId job) <$> acquired →
  (∀ tr', held tr' = [] → length tr' = (length tr + length acquired)%nat →
     answers tr' = answers tr → handler_runs tr' = handler_runs tr →
     ensures call_allowed Q tr' k) →
  (∀ tr' c e, (length tr' < length tr + length acquired)%nat →
     handler_runs (tr' ++ [ev c (Threw e)]) = handler_runs tr →
     match c with releaseLock _ _ _ => True | _ => False end →
     Q (tr' ++ [ev c (Threw e)]) (Threw e)) →
  ensures call_allowed Q tr (release_all (runId job) acquired ;~ k).
Proof.
  intros Hok. revert tr. induction acquired as [|[key token] acquired IH]; intros tr Hh Hk HQ.
  - apply Permutation_nil_r in Hh. simpl. apply Hk; [done|simpl; lia|done|done].
  - cbn [release_all call pbind ensures]. split.
    { split_and!; [apply Hok..|]. rewrite Hh. left. }
    intros [[]|e]; cbn [pbind].
    + apply IH.
      * rewrite held_snoc. simpl. by apply drop_one_perm.
      * intros tr' Hn Hl Ha Hr. apply Hk; [done| | |].
        -- rewrite Hl, length_app. simpl. lia.
        -- rewrite Ha, answers_snoc. by rewrite app_nil_r.
        -- rewrite Hr, handler_runs_snoc. simpl. lia.
      * intros tr' c e Hl Hr Hc. apply HQ; [rewrite length_app in Hl; simpl in *; lia| |done].
        rewrite Hr, handler_runs_snoc. simpl. lia.
    + apply HQ; [simpl; lia| |done]. rewrite handler_runs_snoc. simpl. lia.
Qed.

Lemma ensures_run_locked acquired tr :
  allowed_before_run →
  held tr ≡ₚ tag_owner (runId job) <$> acquired → acquired.*1 ≡ₚ locks →
  length tr = length locks → answers tr = [] → handler_runs tr = 0%nat →
  ensures call_allowed result_true tr (run_locked job stepKind acquired).
Proof.
  intros Hok Hh Hkeys Hl Ha Hr.
  assert (Hall : all_held (runId job) locks (held tr)).
  { intros k Hk. rewrite <- Hkeys in Hk. apply list_elem_of_fmap in Hk as ([k' t] & -> & Hk).
    exists t. rewrite Hh. by apply (list_elem_of_fmap_2 (tag_owner (runId job)) _ (k', t)). }
  assert (Hla : length acquired = length locks) by (by rewrite <- Hkeys, length_fmap).
  unfold run_locked. cbn [call pbind ensures]. split; [split_and!; [apply Hok..|done|done]|].
  intros [supported|e]; [|apply rejection_true; [lia|rewrite handler_runs_snoc; simpl; lia|done]].
  set (tr1 := tr ++ _).
  assert (H1 : held tr1 = held tr ∧ length tr1 = S (length locks) ∧ answers tr1 = [] ∧
      handler_runs tr1 = 0%nat).
  { subst tr1. rewrite held_snoc, answers_snoc, handler_runs_snoc, length_app, Ha. simpl.
    split_and!; [done|lia|done|lia]. }
  destruct H1 as (Hh1 & Hl1 & Ha1 & Hr1). clearbody tr1. cbn [pbind].
  destruct (negb supported && _) eqn:Hc; breflect.
  { split; [lia|]. split; [lia|]. right. left. by rewrite Hh1. }
  cbn [call pbind ensures]. rewrite <- Hh1 in Hall, Hh.
  split; [split_and!; [apply Hok..|done|done]|].
  intros [[]|e]; [|apply rejection_true; [lia|rewrite handler_runs_snoc; simpl; lia|done]].
  cbn [call pbind ensures]. split.
  { split_and!; [apply Hok..|done|done| |by exists tr1]. by rewrite held_snoc. }
  set (tr2 := tr1 ++ _).
  assert (H2 : held tr2 = held tr1 ∧ length tr2 = S (S (length locks)) ∧ answers tr2 = [] ∧
      handler_runs tr2 = 0%nat).
  { subst tr2. rewrite held_snoc, answers_snoc, handler_runs_snoc, length_app, Ha1. simpl.
    split_and!; [done|lia|done|lia]. }
  destruct H2 as (Hh2 & Hl2 & Ha2 & Hr2). clearbody tr2.
  rewrite <- Hh2 in Hall, Hh.
  intros [result|e]; [|apply rejection_true; [lia|rewrite handler_runs_snoc; simpl; lia|done]].
  set (tr3 := tr2 ++ _).
  assert (H3 : held tr3 = held tr2 ∧ length tr3 = (3 + length locks)%nat ∧
      answers tr3 = [result] ∧ handler_runs tr3 = 1%nat).
  { subst tr3. rewrite held_snoc, answers_snoc, handler_runs_snoc, length_app, Ha2. simpl.
    split_and!; [done|lia|done|lia]. }
  destruct H3 as (Hh3 & Hl3 & Ha3 & Hr3). clearbody tr3.
  rewrite <- Hh3 in Hh. cbn [pbind].
  destruct result as [|code]; (apply ensures_release_all; [done|done| |]);
    [intros tr' Hn Hl' Ha' Hr'| |intros tr' Hn Hl' Ha' Hr'|].
  - split; [lia|]. split; [lia|]. by rewrite Ha', Ha3.
  - intros tr' c e Hlt Hr' Hc'. apply rejection_true; [lia|lia|by destruct c].
  - split; [lia|]. split; [lia|]. right. right. by rewrite Ha', Ha3.
  - intros tr' c e Hlt Hr' Hc'. apply rejection_true; [lia|lia|by destruct c].
Qed.

Lemma ensures_acquire_all todo : ∀ acquired tr,
  allowed_before_run →
  held tr ≡ₚ tag_owner (runId job) <$> acquired → acquired.*1 ++ todo ≡ₚ locks →
  length tr = length acquired → answers tr = [] → handler_runs tr = 0%nat →
  ensures call_allowed result_true tr
    (r <~ acquire_all (runId job) acquired todo ;;
     match r with
     | inr detail => pret (StepFailed (terminal no_retry "RESOURCE_LOCKED") detail)
     | inl acquired => run_locked job stepKind acquired
     end).
Proof.
  induction todo as [|key todo IH]; intros acquired tr Hok Hh Hkeys Hl Ha Hr.
  - rewrite app_nil_r in Hkeys. apply ensures_run_locked; [done..| |done|done].
    by rewrite Hl, <- Hkeys, length_fmap.
  - assert (Hlen : (length acquired + S (length todo))%nat = length locks).
    { by rewrite <- Hkeys, length_app, length_fmap. }
    cbn [acquire_all call pbind ensures]. split.
    { split_and!; [apply Hok..| |done|done]. rewrite <- Hkeys. apply elem_of_app. right. left. }
    intros [[token|detail]|e]; cbn [pbind].
    + apply IH; [done| | | | |].
      * rewrite held_snoc. simpl. rewrite fmap_app, Hh. simpl.
        by rewrite <- Permutation_cons_append.
      * rewrite fmap_app, <- app_assoc. done.
      * rewrite !length_app. simpl. lia.
      * by rewrite answers_snoc, Ha.
      * rewrite handler_runs_snoc, Hr. done.
    + apply ensures_pbind_assoc; cbn [pbind].
      apply ensures_release_all; [done|by rewrite held_snoc| |].
      * intros tr' Hn Hl' Ha' Hr'. rewrite length_app in Hl'. simpl in Hl'.
        rewrite (handler_runs_snoc tr), Hr in Hr'. simpl in Hr'.
        split; [lia|]. split; [lia|]. left. auto.
      * intros tr' c e Hlt Hr' Hc'. rewrite length_app in Hlt. simpl in Hlt.
        rewrite (handler_runs_snoc tr), Hr in Hr'. simpl in Hr'.
        apply rejection_true; [lia|lia|by destruct c].
    + apply rejection_true; [lia|rewrite handler_runs_snoc; simpl; lia|done].
Qed.
End Execution.

Lemma ensures_step this job stepKind locks :
  ensures (call_allowed this job stepKind locks) (result_true this job stepKind locks) []
    (execute this job stepKind locks).
Proof.
  unfold execute. destruct (attempt job >? _) eqn:Ha.
  { apply Z.gtb_lt in Ha. split; [simpl; lia|]. split; [unfold handler_runs; simpl; lia|].
    left. split_and!; [done..|]. by left. }
  assert (Hle : attempt job ≤ (maxRetries this ?? 3)).
  { rewrite Z.gtb_ltb in Ha. by apply Z.ltb_ge. }
  case_bool_decide as Hk; cbn [negb].
  - by apply ensures_acquire_all; [split|..|rewrite js_sort_perm| | |].
  - split; [simpl; lia|]. split; [unfold handler_runs; simpl; lia|].
    left. split_and!; [done..|]. right. by left.
Qed.

(* @prop functional 9.1 : execute acquire_all run_locked release_all classify *)
(** C39. One execution of a step, whatever the lock manager, the command port and the handler
    answer or reject: it ends after at most two calls per lock and three more; it calls nothing
    when the retry budget is exhausted or no handler is registered; it dispatches and runs the
    handler only with every requested lock taken and not released, runs it at most once and
    directly after an acknowledged dispatch; it releases only what it took; a success means
    that the handler succeeded, a failure after the handler carries the classification of the
    handler's code, and both hold no lock any more.  What keeps its locks is a refusal because
    cancellation is not supported, and a rejection of the cancellation query, of the dispatch or
    of the handler: those leave every lock taken. *)
Theorem execution_accounts_for_locks this job stepKind locks :
  ensures (call_allowed this job stepKind locks) (result_true this job stepKind locks) []
    (execute this job stepKind locks).
Proof. apply ensures_step. Qed.

(** ** Concurrent executions over one lock table

    The state is the lock table with everything else, [O]: the clock and random readings, and
    whatever decides the answers of the command port and of the handlers. *)

Section Pool.
Context {O : Type} (reading : O → instant).
Context (outside : ∀ c : ExecutorCall, O → outcome (ExecutorAns c) * O).

Definition world : Type := gmap string lock_row * O.

Definition lock_port (c : ExecutorCall) (w : world) : outcome (ExecutorAns c) * world :=
  match c return outcome (ExecutorAns c) * world with
  | acquireLock k r ttl =>
      let '(o, locks) := acquire k r ttl (reading w.2) w.1 in (o, (locks, w.2))
  | releaseLock k r t => (Returned tt, (release k r t w.1, w.2))
  | c => let '(o, rest) := outside c w.2 in (o, (w.1, rest))
  end.

(** Time passes, and the rest of the system runs; only executions touch the lock table. *)
Definition elsewhere (w w' : world) : Prop := w'.1 = w.1.

Definition lock_thread : Type := list (event ExecutorAns) * proc ExecutorAns StepOutcome.

(** A step to execute: the executor, the job, the step kind and the locks. *)
Definition request : Type := WorkflowExecutor * ExecuteStepJob * string * list string.

Definition started (x : request) : lock_thread :=
  let '(this, job, stepKind, locks) := x in ([], execute this job stepKind locks).

Definition follows (x : request) (t : lock_thread) : Prop :=
  let '(this, job, stepKind, locks) := x in
  ensures (call_allowed this job stepKind locks) (result_true this job stepKind locks) t.1 t.2.

Definition all_holdings (ts : list lock_thread) : list holding := ts ≫= λ t, held t.1.

Definition keys_of (h : list holding) : list string := (λ x : holding, x.1.1) <$> h.

(** No key is held twice, and the table knows each holder. *)
Definition table_agrees (locks : gmap string lock_row) (h : list holding) : Prop :=
  NoDup (keys_of h) ∧
  ∀ k r t, (k, r, t) ∈ h → ∃ until, locks !! k =
    Some {| row_state := HELD; row_ownerRunId := r; row_token := t; row_untilIso := until |}.

#[global] Instance table_agrees_perm locks : Proper ((≡ₚ) ==> iff) (table_agrees locks).
Proof.
  intros h h' Hp. unfold table_agrees, keys_of. rewrite Hp.
  split; intros [? H]; (split; [done|]); intros k r t Hin; apply H; by rewrite ?Hp in *.
Qed.

Lemma acquire_cases k r ttl i locks :
  let '(o, locks') := acquire k r ttl i locks in
  match o with
  | Returned (Locked t) =>
      (∀ row, locks !! k = Some row → row_state row ≠ HELD) ∧
      ∃ until, locks' = <[k := {| row_state := HELD; row_ownerRunId := r; row_token := t;
                                  row_untilIso := until |}]> locks
  | _ => locks' = locks
  end.
Proof.
  unfold acquire. repeat (case_match; simplify_eq/=); try done.
  all: split; [|by eexists]; intros row [= <-]; done.
Qed.

Lemma table_acquire locks h k r t until :
  table_agrees locks h → (∀ row, locks !! k = Some row → row_state row ≠ HELD) →
  table_agrees (<[k := {| row_state := HELD; row_ownerRunId := r; row_token := t;
                          row_untilIso := until |}]> locks) ((k, r, t) :: h).
Proof.
  intros [Hnd Hrows] Hfree.
  assert (Hk : k ∉ keys_of h).
  { intros ([[k' r'] t'] & -> & Hin)%list_elem_of_fmap.
    destruct (Hrows _ _ _ Hin) as [u Hu]. by apply (Hfree _ Hu). }
  split; [by constructor|]. intros k' r' t' [Heq|Hin]%elem_of_cons.
  - injection Heq as -> -> ->. exists until. apply lookup_insert_eq.
  - destruct (Hrows _ _ _ Hin) as [u Hu]. exists u. rewrite lookup_insert_ne; [done|].
    intros <-. apply Hk. by apply (list_elem_of_fmap_2 (λ x : holding, x.1.1) _ (k, r', t')).
Qed.

Lemma table_release locks h k r t :
  table_agrees locks ((k, r, t) :: h) → table_agrees (release k r t locks) h.
Proof.
  intros [Hnd Hrows]. inversion Hnd as [|? ? Hk Hnd']; subst.
  split; [done|]. intros k' r' t' Hin.
  destruct (Hrows k' r' t' (ltac:(by right))) as [u Hu]. exists u.
  assert (k ≠ k').
  { intros <-. apply Hk. by apply (list_elem_of_fmap_2 (λ x : holding, x.1.1) _ (k, r', t')). }
  unfold release. repeat case_match; try done. by rewrite lookup_insert_ne.
Qed.

Lemma held_perm_drop x l : x ∈ l → l ≡ₚ x :: drop_one x l.
Proof.
  intros Hx. apply elem_of_Permutation in Hx as [l' Hl]. rewrite Hl at 1.
  by rewrite (drop_one_perm _ _ _ Hl).
Qed.

(** One call, among what the other executions hold. *)
Lemma port_keeps_table x tr c k rest locks out o w' :
  follows x (tr, Await c k) →
  table_agrees locks (held tr ++ rest) → lock_port c (locks, out) = (o, w') →
  table_agrees w'.1 (held (tr ++ [ev c o]) ++ rest).
Proof.
  destruct x as [[[this job] stepKind] lks]. intros [(_ & _ & Hc) _] Hagree Hport.
  rewrite held_snoc. destruct c; simpl in Hport |- *; cycle 2.
  1-3: by destruct (outside _ out) as [o' rest'] eqn:?; simplify_eq/=.
  - destruct (acquire _ _ _ _ _) as [o' locks'] eqn:E. simplify_eq/=.
    pose proof (acquire_cases canonicalKey ownerRunId ttlMs (reading out) locks) as Hcase.
    rewrite E in Hcase. destruct o as [[t|d]|e]; [|by subst..].
    destruct Hcase as [Hfree [u ->]]. by apply table_acquire.
  - simplify_eq/=. apply table_release.
    change ((canonicalKey, ownerRunId, token) :: drop_one _ (held tr) ++ rest)
      with (((canonicalKey, ownerRunId, token) :: drop_one (canonicalKey, ownerRunId, token)
              (held tr)) ++ rest).
    by rewrite <- held_perm_drop.
Qed.

Definition pool_invariant (xs : list request) (w : world) (ts : list lock_thread) : Prop :=
  Forall2 follows xs ts ∧ table_agrees w.1 (all_holdings ts).

Lemma pool_invariant_step xs w ts w' ts' :
  pool_step lock_port elsewhere (w, ts) (w', ts') → pool_invariant xs w ts → pool_invariant xs w' ts'.
Proof.
  intros Hstep [Hf Ha]. inversion Hstep as [[locks out] before tr c k after o ? Hport|? ? ? Henv]; subst.
  2: { split; [done|]. by rewrite Henv. }
  apply Forall2_app_inv_r in Hf as (xs1 & xs2 & Hbefore & Hrest & ->).
  apply Forall2_cons_inv_r in Hrest as (x & xs3 & Hx & Hafter & ->).
  unfold pool_invariant, all_holdings in *. rewrite bind_app, bind_cons in *.
  assert (Hperm : ∀ h : list holding, (before ≫= λ t, held t.1) ++ h ++ (after ≫= λ t, held t.1)
      ≡ₚ h ++ ((before ≫= λ t, held t.1) ++ (after ≫= λ t, held t.1))).
  { intros h. by rewrite Permutation_app_swap_app. }
  rewrite Hperm in Ha. split.
  - apply Forall2_app; [done|]. constructor; [|done].
    destruct x as [[[this job] stepKind] lks]. apply Hx.
  - rewrite Hperm. by eapply port_keeps_table.
Qed.

Lemma pool_invariant_run xs w ts w' ts' :
  rtc (pool_step lock_port elsewhere) (w, ts) (w', ts') →
  pool_invariant xs w ts → pool_invariant xs w' ts'.
Proof.
  intros Hrun. remember (w, ts) as p eqn:Hp. remember (w', ts') as q eqn:Hq. revert w ts Hp.
  induction Hrun as [x|x [w1 ts1] z Hstep _ IH]; intros w ts ->; [by simplify_eq|].
  intros Hinv. apply (IH Hq w1 ts1 eq_refl). by eapply pool_invariant_step.
Qed.

Lemma pool_invariant_start xs w : pool_invariant xs w (started <$> xs).
Proof.
  split.
  - apply Forall2_fmap_r, Forall_Forall2_diag, Forall_forall.
    intros [[[this job] stepKind] locks] _. apply ensures_step.
  - unfold all_holdings. replace (_ ≫= _) with (@nil holding).
    { split; [constructor|]. intros k r t []%elem_of_nil. }
    induction xs as [|[[[this job] stepKind] locks] xs IH]; [done|]. by rewrite fmap_cons, bind_cons, <- IH.
Qed.

(** At its dispatch or at its handler, not answered yet. *)
Definition at_work (t : lock_thread) : Prop :=
  match t.2 with Await (dispatch _) _ | Await (runHandler _ _) _ => True | _ => False end.

Definition locks_of (x : request) : list string := x.2.
Definition run_of (x : request) : string := runId x.1.1.2.

Lemma working_holds x t : follows x t → at_work t → all_held (run_of x) (locks_of x) (held t.1).
Proof.
  destruct x as [[[this job] stepKind] locks], t as [tr [o|c k]]; [done|].
  intros [(_ & _ & Hc) _] Hw. by destruct c; try done; destruct_and?.
Qed.
End Pool.

Lemma no_key_twice (ts : list lock_thread) i j t u k r r' token token' :
  NoDup (keys_of (all_holdings ts)) → i ≠ j → ts !! i = Some t → ts !! j = Some u →
  (k, r, token) ∈ held t.1 → (k, r', token') ∈ held u.1 → False.
Proof.
  intros Hnd Hij Hi Hj Ht Hu. revert i j Hij Hi Hj.
  assert (Hkey : ∀ h r0 t0, (k, r0, t0) ∈ h → k ∈ keys_of h).
  { intros h r0 t0. apply (list_elem_of_fmap_2 (λ x : holding, x.1.1) _ (k, r0, t0)). }
  assert (Hlater : ∀ ts i (v : lock_thread) r0 t0,
    ts !! i = Some v → (k, r0, t0) ∈ held v.1 → k ∈ keys_of (all_holdings ts)).
  { intros ts0 i v r0 t0 Hv Hin. apply (Hkey _ r0 t0), list_elem_of_bind.
    exists v. split; [done|]. by eapply list_elem_of_lookup_2. }
  induction ts as [|v ts IH]; intros i j Hij Hi Hj; [done|].
  unfold all_holdings, keys_of in Hnd. rewrite bind_cons, fmap_app in Hnd.
  apply NoDup_app in Hnd as (_ & Hdisj & Hnd).
  destruct i as [|i], j as [|j]; simplify_eq/=.
  - by eapply (Hdisj k), Hlater; [eapply Hkey|..].
  - by eapply (Hdisj k), Hlater; [eapply Hkey|..].
  - eapply (IH Hnd i j); [congruence|done..].
Qed.

(** What the thread leaves behind holding its locks: refused for want of cancellation, or the
    query, the dispatch or the handler rejected. *)
Definition abandoned (t : lock_thread) : Prop :=
  match t.2 with
  | Done (Returned (StepFailed d _)) => d = terminal human_intervention "CANCELLATION_INCOMPLETE"
  | Done (Threw _) =>
      match last t.1 with
      | Some e => match ev_call e with
                  | acquireLock _ _ _ | releaseLock _ _ _ => False
                  | _ => True
                  end
      | None => False
      end
  | _ => False
  end.

Lemma classify_never_human code : kind (classify code) ≠ human_intervention.
Proof. unfold classify. by repeat case_match. Qed.

Lemma abandoned_holds x t :
  follows x t → abandoned t → all_held (run_of x) (locks_of x) (held t.1).
Proof.
  destruct x as [[[this job] stepKind] locks], t as [tr [[[|d detail]|e]|c k]]; try done.
  - intros (_ & _ & H) Ha. unfold abandoned in Ha. cbn [snd] in Ha. subst d.
    destruct H as [(_ & _ & [(_ & _ & Hd)|[(_ & _ & Hd)|Hd]])|[(_ & _ & H & _)|(_ & _ & Hd)]];
      try done; try (unfold terminal in Hd; congruence).
    by destruct (classify_never_human detail); rewrite <- Hd.
  - intros (_ & _ & tr' & e' & Htr & _ & H) Ha. unfold abandoned in Ha. cbn [fst snd] in *.
    subst tr. rewrite last_snoc in Ha. by destruct (ev_call e').
Qed.

(** Mutual exclusion: any number of steps are executed concurrently over one lock table,
    their calls interleaved in any order, with the clock advancing and the command port and the
    handlers answering or rejecting as they like; two of them that share a lock are never both
    between their dispatch and the answer of their handler. *)
Theorem lock_mutual_exclusion {O} (reading : O → instant) outside xs w w' ts i j x y t u k
  (Hrun : rtc (pool_step (lock_port reading outside) elsewhere) (w, started <$> xs) (w', ts))
  (Hij : i ≠ j) (Hx : xs !! i = Some x) (Hy : xs !! j = Some y)
  (Ht : ts !! i = Some t) (Hu : ts !! j = Some u) (Hwt : at_work t) (Hwu : at_work u) :
  ¬ (k ∈ locks_of x ∧ k ∈ locks_of y).
Proof.
  intros [Hkx Hky].
  destruct (pool_invariant_run _ _ _ _ _ _ _ Hrun (pool_invariant_start xs w)) as [Hf [Hnd _]].
  pose proof (Forall2_lookup_lr _ _ _ _ _ _ Hf Hx Ht) as Hfx.
  pose proof (Forall2_lookup_lr _ _ _ _ _ _ Hf Hy Hu) as Hfy.
  destruct (working_holds _ _ Hfx Hwt k Hkx) as [tx Hinx].
  destruct (working_holds _ _ Hfy Hwu k Hky) as [ty Hiny].
  by eapply (no_key_twice ts i j).
Qed.

(** A lock that is left behind is never free again: once a step was refused because
    cancellation is not supported, or its dispatch or its handler rejected, then however the
    system goes on and however much time passes beyond the 30 seconds the locks were taken
    for, every later attempt to take one of its locks, by any run, is refused. *)
Theorem abandoned_locks_stay {O} (reading : O → instant) outside xs w w1 ts1 w2 ts2 i x t k
  (Hstart : rtc (pool_step (lock_port reading outside) elsewhere) (w, started <$> xs) (w1, ts1))
  (Hx : xs !! i = Some x) (Ht : ts1 !! i = Some t) (Ha : abandoned t) (Hk : k ∈ locks_of x)
  (Hlater : rtc (pool_step (lock_port reading outside) elsewhere) (w1, ts1) (w2, ts2)) :
  ∀ r ttl at_, acquire k r ttl at_ w2.1 = (Returned (Refused ("held by " +s run_of x)), w2.1).
Proof.
  intros r ttl at_.
  pose proof (pool_invariant_run _ _ _ _ _ _ _ Hstart (pool_invariant_start xs w)) as H1.
  destruct (pool_invariant_run _ _ _ _ _ _ _ Hlater H1) as [Hf [_ Hrows]].
  assert (Ht2 : ts2 !! i = Some t).
  { destruct t as [tr [o|c p]]; [|done]. by eapply pool_done. }
  pose proof (Forall2_lookup_lr _ _ _ _ _ _ Hf Hx Ht2) as Hfx.
  destruct (abandoned_holds _ _ Hfx Ha k Hk) as [token Hin].
  destruct (Hrows k (run_of x) token) as [u Hu].
  { apply list_elem_of_bind. exists t. split; [done|]. by eapply list_elem_of_lookup_2. }
  unfold acquire. by rewrite Hu.
Qed.

(** ** Witnesses: one kind of step, cancellation unsupported *)

Definition sample_executor : WorkflowExecutor :=
  {| handlers := {["command"; "edit"]}; maxRetries := None |}.

Definition sample_job (run : string) : ExecuteStepJob :=
  {| runId := run; stepId := "s"; executionGeneration := 1; cancellationGeneration := 0;
     traceId := "t"; attempt := 1 |}.

Definition sample_request (run stepKind : string) (locks : list string) : request :=
  (sample_executor, sample_job run, stepKind, locks).

Definition sample_reading (_ : unit) : instant := {| now1 := 0; now2 := 0; random := "0.5" |}.

Definition sample_outside (c : ExecutorCall) (w : unit) : outcome (ExecutorAns c) * unit :=
  (match c return outcome (ExecutorAns c) with
   | acquireLock _ _ _ => Returned (Refused "")
   | releaseLock _ _ _ => Returned tt
   | verifyCancellationSupported _ => Returned false
   | dispatch _ => Returned tt
   | runHandler _ _ => Returned HandlerOk
   end, w).

Definition two_steps : list request :=
  [sample_request "r1" "edit" ["main"]; sample_request "r2" "edit" ["docs"]].

(** Each step takes its lock and asks for cancellation: both are about to dispatch. *)
Definition both_working : world * list lock_thread :=
  schedule (lock_port sample_reading sample_outside) [0%nat; 1%nat; 0%nat; 1%nat]
    ((∅, tt), started <$> two_steps).

Lemma lock_mutual_exclusion_witness :
  ∃ t u, both_working.2 !! 0%nat = Some t ∧ both_working.2 !! 1%nat = Some u ∧
    at_work t ∧ at_work u ∧ ¬ ("main" ∈ ["main"] ∧ "main" ∈ ["docs"]).
Proof.
  destruct (both_working.2 !! 0%nat) as [t|] eqn:Ht; [|by vm_compute in Ht].
  destruct (both_working.2 !! 1%nat) as [u|] eqn:Hu; [|by vm_compute in Hu].
  assert (Hwt : from_option at_work False (both_working.2 !! 0%nat)) by (vm_compute; exact I).
  assert (Hwu : from_option at_work False (both_working.2 !! 1%nat)) by (vm_compute; exact I).
  rewrite Ht in Hwt. rewrite Hu in Hwu. exists t, u. split_and!; [done..|].
  assert (Hrun : rtc (pool_step (lock_port sample_reading sample_outside) elsewhere)
    ((∅, tt), started <$> two_steps) (both_working.1, both_working.2)).
  { rewrite <- surjective_pairing. apply schedule_sound. }
  exact (lock_mutual_exclusion sample_reading sample_outside two_steps _ _ _ 0 1 _ _ t u "main"
    Hrun (ltac:(lia)) eq_refl eq_refl Ht Hu Hwt Hwu).
Defined.

Definition one_command : list request := [sample_request "r1" "command" ["main"]].

Definition refused_command : world * list lock_thread :=
  schedule (lock_port sample_reading sample_outside) [0%nat; 0%nat]
    ((∅, tt), started <$> one_command).

Lemma abandoned_locks_stay_witness :
  (∃ t, refused_command.2 !! 0%nat = Some t ∧ abandoned t) ∧
  (acquire "main" "r2" 30000 {| now1 := 90000; now2 := 90000; random := "0.7" |}
     refused_command.1.1).1 = Returned (Refused "held by r1").
Proof.
  destruct (refused_command.2 !! 0%nat) as [t|] eqn:Ht; [|by vm_compute in Ht].
  assert (Ha : from_option abandoned False (refused_command.2 !! 0%nat)) by (vm_compute; reflexivity).
  rewrite Ht in Ha. split; [by exists t|].
  assert (Hrun : rtc (pool_step (lock_port sample_reading sample_outside) elsewhere)
    ((∅, tt), started <$> one_command) (refused_command.1, refused_command.2)).
  { rewrite <- surjective_pairing. apply schedule_sound. }
  rewrite (abandoned_locks_stay sample_reading sample_outside one_command _ _ _ _ _ 0 _ t "main"
    Hrun eq_refl Ht Ha (ltac:(left)) (rtc_refl _ _)).
  reflexivity.
Defined.
