(* ===== verification/Execution.v ===== *)
(** * Privileged execution

    [packages/approvals/src/application/execution.ts]: the eight-step double check around the
    one external effect of an approved action.  The ports -- persistence, target, policy,
    validity gate, executor and verifier -- are the calls of the program. *)

From S2P Require Import Prelude JsString Effects ApprovalFsm.

(* @src packages/approvals/src/application/execution.ts:19-30 EXECUTION_STEPS *)
Inductive ExecutionStep :=
  | STEP_1_POLICY_DECISION_PERSISTED | STEP_2_OPERATION_PERSISTED
  | STEP_3_HUMAN_DECISION_RECORDED | STEP_4_TARGET_REFETCHED | STEP_5_POLICY_REEVALUATED
  | STEP_6_VALIDITY_CONFIRMED | STEP_7_EXECUTED_ONCE | STEP_8_OUTCOME_VERIFIED.

(** [resolvedAtMs] is [None] when it is not a finite number. *)
(* @src packages/approvals/src/application/execution.ts:38-53 PrivilegedApprovalRecord *)
Record PrivilegedApprovalRecord := {
  id : string;
  status : ApprovalStatus;
  version : Z;
  actionFingerprint : string;
  contextFingerprint : string;
  operationKey : string;
  cancellationGeneration : Z;
  expiresAtMs : Z;
  policyDecisionId : string;
  policyDecisionEffect : string;
  resolvedBy : string;
  resolvedAtMs : option Z;
}.

(* @src packages/approvals/src/application/execution.ts:55-59 CurrentTargetObservation *)
Record CurrentTargetObservation := {
  target_actionFingerprint : string;
  target_contextFingerprint : string;
}.

(* @src packages/approvals/src/application/execution.ts:61-65 CurrentPolicyEvaluation *)
Record CurrentPolicyEvaluation := {
  stillRequiresApprovalAndGranted : bool;
  stricterDeny : bool;
}.

(* @src packages/approvals/src/application/execution.ts:67-70 ExecutorOutcome *)
Inductive ExecutorOutcome :=
  | OutcomeExecuted (providerReference : string)
  | OutcomeAlreadyPresent (providerReference : string)
  | OutcomeFailedPermanently (errorCode : string).

Record Verification := { verified : bool; verification_detail : option string }.

Record Claim := { claimed : bool; attemptId : string; versionAfter : Z }.

(** [{ valid: true }], or a code and a detail. *)
Inductive GateAnswer := Valid | Invalid (code detail : string).

Record Closure := {
  toStatus : ApprovalStatus;
  closure_attemptId : string;
  closure_providerReference : option string;
  closure_errorCode : option string;
}.

(* @src packages/approvals/src/application/execution.ts:72-128 C034Ports *)
Inductive ExecCall :=
  | loadPrivilegedApproval (approvalId : string)
  | claimExecutionLease (approvalId : string) (expectedVersion : Z) (workerId : string)
      (nowMs : Z) (stepsProven : list ExecutionStep)
  | closeExecution (approvalId : string) (c : Closure)
  | validityGate (approvalId : string) (nowMs : Z)
  | fetchCurrentTarget
  | reevaluatePolicy
  | executeOnce (operationKey actionFingerprint contextFingerprint leaseToken : string)
  | verify (providerReference expectedEffectDigest : string).

Definition ExecAns (c : ExecCall) : Type :=
  match c with
  | loadPrivilegedApproval _ => PrivilegedApprovalRecord
  | claimExecutionLease _ _ _ _ _ => Claim
  | closeExecution _ _ => unit
  | validityGate _ _ => GateAnswer
  | fetchCurrentTarget => CurrentTargetObservation
  | reevaluatePolicy => CurrentPolicyEvaluation
  | executeOnce _ _ _ _ => ExecutorOutcome
  | verify _ _ => Verification
  end.

(* @src packages/approvals/src/application/execution.ts:130-137 ExecutionResult *)
Inductive ExecutionResult :=
  | Executed (stepsProven : list ExecutionStep) (providerReference : string) (wasVerified : bool)
  | Blocked (code detail : string).

Definition close_as (s : ApprovalStatus) (attempt : string) (reference error : option string)
  : Closure :=
  {| toStatus := s; closure_attemptId := attempt; closure_providerReference := reference;
     closure_errorCode := error |}.

Definition provenEarly : list ExecutionStep :=
  [STEP_1_POLICY_DECISION_PERSISTED; STEP_2_OPERATION_PERSISTED; STEP_3_HUMAN_DECISION_RECORDED].

Definition proven : list ExecutionStep :=
  provenEarly ++ [STEP_4_TARGET_REFETCHED; STEP_5_POLICY_REEVALUATED; STEP_6_VALIDITY_CONFIRMED].

Section Service.
Variable digest : string → string.

Definition status_text (s : ApprovalStatus) : string := approval_status_name s.

(* @src packages/approvals/src/application/execution.ts:299-309 markStaled *)
Definition markStaled (approvalId : string) : proc ExecAns unit :=
  ptry (call (closeExecution approvalId (close_as STALE "pre-claim-invalidation" None None)))
    (λ _, pret tt).

(* @src packages/approvals/src/application/execution.ts:311-313 blocked *)
Definition blocked (code detail : string) : proc ExecAns ExecutionResult :=
  pret (Blocked code detail).

(** Steps 1 to 3: [None] when the prerequisites are proven. *)
(* @src packages/approvals/src/application/execution.ts:149-162 PrivilegedExecutionService.executeApproved *)
Definition prerequisites (r : PrivilegedApprovalRecord) : option string :=
  if negb (bool_decide (status r = APPROVED)) then
    Some ("approval is " +s status_text (status r) +s "; only APPROVED may be executed")
  else if negb (nonempty (policyDecisionId r)) ||
          negb (policyDecisionEffect r =s? "REQUIRE_APPROVAL") then
    Some "policy decision is not a persisted REQUIRE_APPROVAL"
  else if negb (nonempty (resolvedBy r)) || negb (bool_decide (is_Some (resolvedAtMs r))) then
    Some "no authorized human decision recorded"
  else None.

(** The [try] block after the claim. *)
(* @src packages/approvals/src/application/execution.ts:226-284 PrivilegedExecutionService.executeApproved *)
Definition execute_and_verify (approvalId workerId : string) (r : PrivilegedApprovalRecord)
    (c : Claim) : proc ExecAns ExecutionResult :=
  o <~ call (executeOnce (operationKey r) (actionFingerprint r) (contextFingerprint r)
               (workerId +s ":" +s attemptId c)) ;;
  match o with
  | OutcomeFailedPermanently code =>
      call (closeExecution approvalId
              (close_as EXECUTION_FAILED (attemptId c) None (Some code))) ;~
      blocked code "executor reported permanent failure after claim"
  | OutcomeExecuted reference =>
      v <~ call (verify reference (digest (operationKey r))) ;;
      if negb (verified v) then
        call (closeExecution approvalId
                (close_as EXECUTION_FAILED (attemptId c) None (Some "OUTCOME_UNVERIFIED"))) ;~
        blocked "OUTCOME_UNVERIFIED" "provider state does not yet prove the intended effect"
      else
        call (closeExecution approvalId
                (close_as EXECUTED (attemptId c)
                   (if nonempty reference then Some reference else None) None)) ;~
        pret (Executed (proven ++ [STEP_7_EXECUTED_ONCE; STEP_8_OUTCOME_VERIFIED]) reference
                (verified v))
  | OutcomeAlreadyPresent reference =>
      v <~ call (verify reference (digest (operationKey r))) ;;
      call (closeExecution approvalId
              (close_as EXECUTED (attemptId c)
                 (if nonempty reference then Some reference else None) None)) ;~
      pret (Executed (proven ++ [STEP_7_EXECUTED_ONCE; STEP_8_OUTCOME_VERIFIED]) reference true)
  end.

(* @src packages/approvals/src/application/execution.ts:205-296 PrivilegedExecutionService.executeApproved *)
Definition claim_and_execute (approvalId workerId : string) (nowMs : Z)
    (r : PrivilegedApprovalRecord) : proc ExecAns ExecutionResult :=
  c <~ call (claimExecutionLease approvalId (version r) workerId nowMs proven) ;;
  if negb (claimed c) then
    blocked "APPROVAL_VERSION_CONFLICT"
      "execution claim lost the race or state changed concurrently"
  else
    ptry (execute_and_verify approvalId workerId r c)
      (λ e,
         ptry (call (closeExecution approvalId
                  (close_as EXECUTION_FAILED (attemptId c) None (Some "EXECUTOR_EXCEPTION"))))
           (λ _, pret tt) ;~
         throw e).

(* @src packages/approvals/src/application/execution.ts:140-297 PrivilegedExecutionService.executeApproved *)
Definition executeApproved (approvalId workerId : string) (nowMs : Z)
  : proc ExecAns ExecutionResult :=
  r <~ ptry (call (loadPrivilegedApproval approvalId)) (λ _, throw (GuardError "NOT_FOUND")) ;;
  match prerequisites r with
  | Some detail => blocked "STEPS_PREREQ_INVALID" detail
  | None =>
      target <~ call fetchCurrentTarget ;;
      if negb (target_actionFingerprint target =s? actionFingerprint r) ||
         negb (target_contextFingerprint target =s? contextFingerprint r) then
        markStaled approvalId ;~
        blocked "TARGET_CHANGED" "current provider state no longer matches the approved binding"
      else
        policyNow <~ call reevaluatePolicy ;;
        if stricterDeny policyNow then
          blocked "POLICY_CHANGED" "current policy denies what it previously floor-gated"
        else if negb (stillRequiresApprovalAndGranted policyNow) then
          blocked "POLICY_LOOSENED"
            "current policy no longer gates identically; submit a fresh proposal"
        else
          validity <~ call (validityGate approvalId nowMs) ;;
          match validity with
          | Invalid code detail => blocked code detail
          | Valid =>
              if expiresAtMs r <=? nowMs then
                blocked "APPROVAL_EXPIRED" "expired before execution could be claimed"
              else claim_and_execute approvalId workerId nowMs r
          end
  end.
End Service.

(** ** The double check *)

Definition answered (c : ExecCall) (a : ExecAns c) : event ExecAns := ev c (Returned a).

(** What the four checks must have answered. *)
Record ready (now : Z) (r : PrivilegedApprovalRecord) (t : CurrentTargetObservation)
    (p : CurrentPolicyEvaluation) : Prop := {
  ready_status : status r = APPROVED;
  ready_decision : policyDecisionId r ≠ "" ∧ policyDecisionEffect r = "REQUIRE_APPROVAL";
  ready_resolver : resolvedBy r ≠ "" ∧ is_Some (resolvedAtMs r);
  ready_action : target_actionFingerprint t = actionFingerprint r;
  ready_context : target_contextFingerprint t = contextFingerprint r;
  ready_policy : stricterDeny p = false ∧ stillRequiresApprovalAndGranted p = true;
  ready_time : now < expiresAtMs r;
}.

Definition checks (a : string) (now : Z) (r : PrivilegedApprovalRecord)
    (t : CurrentTargetObservation) (p : CurrentPolicyEvaluation) : list (event ExecAns) :=
  [answered (loadPrivilegedApproval a) r; answered fetchCurrentTarget t;
   answered reevaluatePolicy p; answered (validityGate a now) Valid].

Definition granted (a worker : string) (now : Z) (r : PrivilegedApprovalRecord) (c : Claim)
  : event ExecAns :=
  answered (claimExecutionLease a (version r) worker now proven) c.

(** What each call may assume of the calls before it. *)
Definition call_allowed (a worker : string) (now : Z) (tr : list (event ExecAns)) (c : ExecCall)
  : Prop :=
  match c with
  | claimExecutionLease a' v w n steps =>
      ∃ r t p, tr = checks a now r t p ∧ ready now r t p ∧
        a' = a ∧ v = version r ∧ w = worker ∧ n = now ∧ steps = proven
  | executeOnce op af cf lease =>
      ∃ r t p cl, tr = checks a now r t p ++ [granted a worker now r cl] ∧ ready now r t p ∧
        claimed cl = true ∧ op = operationKey r ∧ af = actionFingerprint r ∧
        cf = contextFingerprint r ∧ lease = worker +s ":" +s attemptId cl
  | closeExecution a' cl =>
      a' = a ∧
      (toStatus cl = EXECUTED → ∃ before x y z u reference d v,
         tr = before ++ [answered (executeOnce x y z u) (OutcomeExecuted reference);
                         answered (verify reference d) v] ∧ verified v = true ∨
         tr = before ++ [answered (executeOnce x y z u) (OutcomeAlreadyPresent reference);
                         answered (verify reference d) v])
  | _ => True
  end.

(** What a reported success rests on. *)
Definition result_earned (a worker : string) (now : Z) (tr : list (event ExecAns))
    (o : outcome ExecutionResult) : Prop :=
  match o with
  | Returned (Executed steps reference w) =>
      w = true ∧
      ∃ r t p cl x y z u d v o c, ready now r t p ∧ claimed cl = true ∧
        (o = OutcomeExecuted reference ∧ verified v = true ∨ o = OutcomeAlreadyPresent reference) ∧
        toStatus c = EXECUTED ∧
        tr = checks a now r t p ++ [granted a worker now r cl; answered (executeOnce x y z u) o;
               answered (verify reference d) v; answered (closeExecution a c) tt]
  | _ => True
  end.

Lemma prerequisites_ready r :
  prerequisites r = None →
  status r = APPROVED ∧ (policyDecisionId r ≠ "" ∧ policyDecisionEffect r = "REQUIRE_APPROVAL") ∧
  (resolvedBy r ≠ "" ∧ is_Some (resolvedAtMs r)).
Proof.
  unfold prerequisites, nonempty. intros H. repeat case_match; try done. by breflect.
Qed.

Lemma ensures_execute digest a worker now r t p cl :
  ready now r t p → claimed cl = true →
  ensures (call_allowed a worker now) (result_earned a worker now)
    (checks a now r t p ++ [granted a worker now r cl])
    (ptry (execute_and_verify digest a worker r cl)
      (λ e,
         ptry (call (closeExecution a
                  (close_as EXECUTION_FAILED (attemptId cl) None (Some "EXECUTOR_EXCEPTION"))))
           (λ _, pret tt) ;~
         throw e)).
Proof.
  intros Hr Hc. unfold execute_and_verify. cbn [call pbind ptry ensures].
  split; [by exists r, t, p, cl|].
  assert (Hfail : ∀ tr e, ensures (call_allowed a worker now) (result_earned a worker now) tr
    (ptry (call (closeExecution a
        (close_as EXECUTION_FAILED (attemptId cl) None (Some "EXECUTOR_EXCEPTION"))))
      (λ _, pret tt) ;~ throw e : proc ExecAns ExecutionResult)).
  { intros tr e. simpl. split; [by split|]. intros [[]|?]; simpl; done. }
  intros [[reference|reference|code]|e]; [| | |by apply Hfail]; cbn [call pbind ptry ensures].
  - split; [done|]. intros [v|e]; [|by apply Hfail].
    destruct (verified v) eqn:Hv; cbn [negb call pbind ptry ensures].
    + split.
      { split; [done|]. intros _. do 8 eexists. left. by rewrite <- app_assoc. }
      intros [[]|e]; [|by apply Hfail]. cbn [pbind ptry pret ensures result_earned].
      split; [done|].
      do 12 eexists. split_and!; [exact Hr|exact Hc|left; by split| |].
      2: { by rewrite <- !app_assoc. } done.
    + split; [by split|]. intros [[]|e]; [done|by apply Hfail].
  - split; [done|]. intros [v|e]; [|by apply Hfail]. cbn [call pbind ptry ensures]. split.
    { split; [done|]. intros _. do 8 eexists. right. by rewrite <- app_assoc. }
    intros [[]|e]; [|by apply Hfail]. cbn [pbind ptry pret ensures result_earned].
      split; [done|].
    do 12 eexists. split_and!; [exact Hr|exact Hc|by right| |].
    2: { by rewrite <- !app_assoc. } done.
  - split; [by split|]. intros [[]|e]; [done|by apply Hfail].
Qed.

Lemma executeApproved_ensures digest a worker now :
  ensures (call_allowed a worker now) (result_earned a worker now) []
    (executeApproved digest a worker now).
Proof.
  unfold executeApproved. cbn [call pbind ptry ensures]. split; [done|].
  intros [r|e]; [|done]. cbn [call pbind ptry ensures].
  destruct (prerequisites r) eqn:Hpre; [done|].
  apply prerequisites_ready in Hpre as (Hs & Hd & Hres).
  cbn [call pbind ensures]. split; [done|]. intros [t|e]; [|done]. cbn [call pbind ensures].
  destruct (negb _ || negb _) eqn:Ht.
  { simpl. split; [by split|]. by intros [[]|?]. }
  breflect. cbn [call pbind ensures]. split; [done|]. intros [p|e]; [|done].
  cbn [call pbind ensures]. destruct (stricterDeny p) eqn:Hd1; [done|].
  destruct (stillRequiresApprovalAndGranted p) eqn:Hd2; [|done]. cbn [negb call pbind ensures].
  split; [done|]. intros [[|code detail]|e]; [|done..]. cbn [call pbind ensures].
  destruct (Z.leb_spec (expiresAtMs r) now) as [|Hlive]; [done|].
  assert (Hready : ready now r t p) by (by split).
  unfold claim_and_execute. cbn [call pbind ensures].
  split; [by exists r, t, p|].
  intros [cl|e]; [|done]. cbn [call pbind ensures].
  destruct (claimed cl) eqn:Hc; [|done]. cbn [negb].
  by apply (ensures_execute digest a worker now r t p cl).
Qed.

(* @prop safety 2 : executeApproved execute_and_verify claim_and_execute prerequisites markStaled *)
(** C5. The eight-step double check, whatever the ports answer: the executor is called at most
    once, as the sixth call, right after the approval was read as APPROVED with a persisted
    REQUIRE_APPROVAL decision and a recorded resolver, the refetched target matched both
    fingerprints, the current policy still required and granted the approval, the validity gate
    passed before the expiry, and the execution lease was granted for the version read and with
    steps one to six proven -- for exactly the approved operation and fingerprints; success is
    recorded and reported only after the executor's effect was verified or reported already
    present, and reported only once the recording was acknowledged. *)
Theorem execution_double_check digest a worker now :
  ensures (call_allowed a worker now) (result_earned a worker now) []
    (executeApproved digest a worker now).
Proof. apply executeApproved_ensures. Qed.

(** ** At most once, under concurrency *)

Definition is_execution (e : event ExecAns) : bool :=
  match ev_call e with executeOnce _ _ _ _ => true | _ => false end.

Definition is_grant (e : event ExecAns) : bool :=
  match e with
  | existT c o =>
      match c return outcome (ExecAns c) → bool with
      | claimExecutionLease _ _ _ _ _ => λ o, match o with Returned cl => claimed cl | _ => false end
      | _ => λ _, false
      end o
  end.

(** What the persistence port promises, as its comment states it: a lease is granted only by the
    transition of that approval out of APPROVED, and no call makes an approval APPROVED again
    (only a resolution does, once, from PENDING).  [approved a w] says that [a] is still
    APPROVED, or not yet, in the state [w]. *)
Class ClaimStore (W : Type) := {
  port : ∀ c, W → outcome (ExecAns c) * W;
  approved : string → W → bool;
  claim_exclusive a v worker now steps w cl w' :
    port (claimExecutionLease a v worker now steps) w = (Returned cl, w') →
    claimed cl = true → approved a w = true ∧ approved a w' = false;
  never_reapproved c a w : approved a w = false → approved a (port c w).2 = false;
}.

(** Workers about to run, each with its name and its clock reading. *)
Definition starting (a : string) (digest : string → string) (workers : list (string * Z))
  : list (list (event ExecAns) * proc ExecAns ExecutionResult) :=
  (λ x, ([], executeApproved digest a x.1 x.2)) <$> workers.

(** A worker's calls are rationed by the leases of the approval. *)
Lemma calls_rationed `{ClaimStore W} a worker now :
  rationed port is_execution is_grant (approved a) (λ _, True) (call_allowed a worker now).
Proof.
  intros tr c o Hc _. split.
  - unfold within_grants. rewrite !count_snoc. intros Hle.
    destruct (is_execution (ev c o)) eqn:E; [|lia].
    destruct c; try done. destruct Hc as (r & t & p & cl & -> & _ & Hcl & _).
    cbn. rewrite Hcl. simpl. lia.
  - intros w w' Hport. split.
    + intros Hg. destruct c; try done. destruct o as [cl|]; [|done]. simpl in Hg.
      destruct Hc as (r & t & p & _ & _ & -> & _). by eapply claim_exclusive.
    + intros Hl. pose proof (never_reapproved c a w Hl) as Hn. by rewrite Hport in Hn.
Qed.

(* @prop safety 1 : executeApproved claim_and_execute execute_and_verify / executed_at_most_once_witness *)
(** C2. At most one execution, however many workers race: let any number of workers run the
    privileged execution of one approval concurrently, their port calls interleaved in any
    order with each other and with any other activity that does not re-approve it; if the
    persistence port grants a lease only by moving the approval out of APPROVED, then over all
    workers together the external executor is invoked at most once. *)
Theorem executed_at_most_once `{ClaimStore W} (environment : W → W → Prop) a digest workers w w' ts
  (Henv : ∀ x y, environment x y → approved a x = false → approved a y = false)
  (Hrun : rtc (pool_step port environment)
     (w, starting a digest workers) (w', ts)) :
  (total is_execution ts ≤ 1)%nat.
Proof.
  unfold starting in Hrun.
  refine (at_most_once port environment is_execution is_grant (approved a) (λ _, True) _ Henv
            _ _ _ _ Hrun _ _).
  - done.
  - apply starting_rationed. intros x. eexists _, _. split; [apply calls_rationed|].
    apply executeApproved_ensures.
  - unfold grants_bounded. rewrite starting_total. lia.
Qed.

(** ** Witness: a store with one approval, two racing workers *)

Record OneApproval := { one_record : PrivilegedApprovalRecord; one_attempts : Z }.

Definition with_status (s : ApprovalStatus) (r : PrivilegedApprovalRecord)
  : PrivilegedApprovalRecord :=
  {| id := id r; status := s; version := version r + 1; actionFingerprint := actionFingerprint r;
     contextFingerprint := contextFingerprint r; operationKey := operationKey r;
     cancellationGeneration := cancellationGeneration r; expiresAtMs := expiresAtMs r;
     policyDecisionId := policyDecisionId r; policyDecisionEffect := policyDecisionEffect r;
     resolvedBy := resolvedBy r; resolvedAtMs := resolvedAtMs r |}.

(** [UPDATE ... WHERE id AND version AND status = 'APPROVED']; a closure writes the status it is
    given unless that would re-approve. *)
Definition one_port (c : ExecCall) (w : OneApproval) : outcome (ExecAns c) * OneApproval :=
  let r := one_record w in
  match c return outcome (ExecAns c) * OneApproval with
  | loadPrivilegedApproval _ => (Returned r, w)
  | claimExecutionLease a v _ _ _ =>
      if (a =s? id r) && (v =? version r) && bool_decide (status r = APPROVED) then
        (Returned {| claimed := true; attemptId := num_to_string (one_attempts w);
                     versionAfter := v + 1 |},
         {| one_record := with_status EXECUTING r; one_attempts := one_attempts w + 1 |})
      else
        (Returned {| claimed := false; attemptId := ""; versionAfter := version r |}, w)
  | closeExecution _ cl =>
      if decide (toStatus cl = APPROVED) then (Threw (PlainError "illegal"), w)
      else (Returned tt,
            {| one_record := with_status (toStatus cl) r; one_attempts := one_attempts w |})
  | validityGate _ _ => (Returned Valid, w)
  | fetchCurrentTarget =>
      (Returned {| target_actionFingerprint := actionFingerprint r;
                   target_contextFingerprint := contextFingerprint r |}, w)
  | reevaluatePolicy =>
      (Returned {| stillRequiresApprovalAndGranted := true; stricterDeny := false |}, w)
  | executeOnce op _ _ _ => (Returned (OutcomeExecuted op), w)
  | verify _ _ => (Returned {| verified := true; verification_detail := None |}, w)
  end.

#[export] Program Instance one_approval_store : ClaimStore OneApproval := {
  port := one_port;
  approved := λ a w, (a =s? id (one_record w)) && bool_decide (status (one_record w) = APPROVED);
}.
Next Obligation.
  intros a v worker now steps w cl w' Hp Hc. simpl in Hp.
  destruct (_ && _ && _) eqn:E in Hp; simplify_eq/=. breflect. subst.
  rewrite String.eqb_refl. split; [by rewrite bool_decide_eq_true_2|done].
Qed.
Next Obligation.
  intros c a w Hn. destruct c; simpl; try done.
  - destruct (_ && _ && _); [|done]. simpl. by rewrite andb_false_r.
  - case_decide; [done|]. simpl. rewrite bool_decide_eq_false_2 by done. apply andb_false_r.
Qed.

Definition approved_record : PrivilegedApprovalRecord :=
  {| id := "a"; status := APPROVED; version := 2; actionFingerprint := "af";
     contextFingerprint := "cf"; operationKey := "op"; cancellationGeneration := 0;
     expiresAtMs := 100; policyDecisionId := "d"; policyDecisionEffect := "REQUIRE_APPROVAL";
     resolvedBy := "alice"; resolvedAtMs := Some 1 |}.

Lemma executed_at_most_once_witness :
  ∃ w' tr1 p1 tr2 p2,
    rtc (pool_step port (λ _ _, False))
      ({| one_record := approved_record; one_attempts := 0 |},
       starting "a" (λ s, s) [("w1", 5); ("w2", 5)])
      (w', [(tr1, p1); (tr2, p2)]) ∧
    count is_execution tr1 = 1%nat ∧ count is_execution tr2 = 0%nat.
Proof.
  assert (Hrun : ∃ w' ts, rtc (pool_step port (λ _ _, False))
      ({| one_record := approved_record; one_attempts := 0 |},
       starting "a" (λ s, s) [("w1", 5); ("w2", 5)]) (w', ts) ∧
      ∃ tr1 p1 tr2 p2, ts = [(tr1, p1); (tr2, p2)] ∧ count is_execution tr1 = 1%nat).
  { eexists _, _. split.
    - do 6 (eapply rtc_l; [by eapply (pool_call _ _ _ [])|]; simpl). apply rtc_refl.
    - by do 4 eexists. }
  destruct Hrun as (w' & ts & Hrun & tr1 & p1 & tr2 & p2 & -> & H1).
  exists w', tr1, p1, tr2, p2. split_and!; [done|done|].
  pose proof (executed_at_most_once (λ _ _, False) "a" (λ s, s) [("w1", 5); ("w2", 5)]
    _ w' _ (λ _ _ H, False_ind _ H) Hrun) as Hle.
  unfold total in Hle. simpl in Hle. lia.
Defined.
