(* ===== verification/ApprovalServices.v ===== *)
(** * Approval services

    The use cases of [packages/approvals/src/application/] around the state machine:
    [Module Resolution] (resolution.ts), [Module Validity] (validity.ts) and [Module Resume]
    (resume-sync.ts).  Their ports are the calls of the programs. *)

From S2P Require Import Prelude JsString Effects ApprovalFsm.

Definition validation_failed : js_error := GuardError "VALIDATION_FAILED".

(** [/^[0-9a-fA-F-]{26,36}$/]. *)
(* @src packages/approvals/src/application/resolution.ts:106-106 UUID_LIKE *)
Definition UUID_LIKE (s : string) : bool :=
  all_chars (λ c, is_hex c || Ascii.eqb c "-") s &&
  (26 <=? str_length s) && (str_length s <=? 36).

Module Resolution.

Inductive PrincipalKind := user | service.

(* @src packages/approvals/src/application/resolution.ts:13-16 AuthenticatedPrincipal *)
Record AuthenticatedPrincipal := { userId : string; kind : PrincipalKind }.

(* @src packages/approvals/src/application/resolution.ts:18-19 ApproverCapability *)
Inductive ApproverCapability :=
  APPROVE_PRIVILEGED_ACTION | REJECT_PRIVILEGED_ACTION | CANCEL_PRIVILEGED_ACTION.

Inductive Decision := APPROVE | REJECT.

#[export] Instance Decision_eq_dec : EqDecision Decision.
Proof. solve_decision. Defined.

(* @src packages/approvals/src/application/resolution.ts:30-41 ApprovalSnapshot *)
Record ApprovalSnapshot := {
  id : string;
  repositoryDevguardId : string;
  status : ApprovalStatus;
  version : Z;
  actionFingerprint : string;
  contextFingerprint : string;
  expiresAtMs : Z;
  resolvedBy : option string;
  finalDecision : option Decision;
  cancellationGeneration : Z;
}.

Record Grant := { authorized : bool; reasonCode : option string }.

(** The CAS of the port: UPDATE ... WHERE id AND version AND status. *)
Record CasInput := {
  cas_approvalId : string;
  cas_expectedVersion : Z;
  cas_from : ApprovalStatus;
  cas_to : ApprovalStatus;
  cas_commandKey : string;
  cas_actorIsSystem : bool;
  cas_actorId : string;
  cas_reasonCode : string;
  cas_comment : option string;
}.

Record CasResult := { applied : bool; versionAfter : Z }.

Inductive ValidityAnswer := Ok | NotOk (code detail : string).

(** The ports; [readClock] is [ports.now()]. *)
(* @src packages/approvals/src/application/resolution.ts:43-84 ResolutionPorts *)
Inductive Call :=
  | authorizeFresh (p : AuthenticatedPrincipal) (repositoryId : string) (c : ApproverCapability)
  | load (approvalId : string)
  | compareAndSet (i : CasInput)
  | checkForResolution (approvalId : string) (nowMs : Z) (action context : string)
  | readClock.

Definition Ans (c : Call) : Type :=
  match c with
  | authorizeFresh _ _ _ => Grant
  | load _ => ApprovalSnapshot
  | compareAndSet _ => CasResult
  | checkForResolution _ _ _ _ => ValidityAnswer
  | readClock => Z
  end.

(* @src packages/approvals/src/application/resolution.ts:86-94 ResolveApprovalCommand *)
Record ResolveApprovalCommand := {
  commandId : string;
  approvalId : string;
  decision : Decision;
  expectedVersion : Z;
  expectedActionFingerprint : string;
  expectedContextFingerprint : string;
  comment : option string;
}.

(* @src packages/approvals/src/application/resolution.ts:96-104 ApprovalCommandResult *)
Inductive ApprovalCommandResult :=
  | APPLIED (s : ApprovalStatus) (v : Z)
  | REPLAYED (s : ApprovalStatus) (v : Z)
  | NOOP_SAME_DECISION (s : ApprovalStatus) (v : Z)
  | DENIED (code detail : string).

(* @src packages/approvals/src/application/resolution.ts:229-256 terminalRefusal *)
Definition terminalRefusal (s : ApprovalSnapshot) : ApprovalCommandResult :=
  match status s with
  | EXPIRED => DENIED "APPROVAL_EXPIRED" "approval expired before resolution"
  | STALE =>
      DENIED "APPROVAL_STALE" "binding changed since request; fresh approval required"
  | EXECUTING =>
      DENIED "APPROVAL_EXECUTION_STARTED" "executor already claimed this approval"
  | other =>
      DENIED "APPROVAL_ALREADY_RESOLVED"
        ("approval is " +s toLowerCase (approval_status_name other))
  end.

Definition denied_grant (g : Grant) : ApprovalCommandResult :=
  DENIED (reasonCode g ?? "AUTHORIZATION_DENIED") "authorization denied".

Definition decision_name (d : Decision) : string :=
  match d with APPROVE => "APPROVE" | REJECT => "REJECT" end.

Definition decision_status (d : Decision) : ApprovalStatus :=
  match d with APPROVE => APPROVED | REJECT => REJECTED end.

Definition decision_capability (d : Decision) : ApproverCapability :=
  match d with
  | APPROVE => APPROVE_PRIVILEGED_ACTION
  | REJECT => REJECT_PRIVILEGED_ACTION
  end.

Definition is_system (p : AuthenticatedPrincipal) : bool :=
  match kind p with service => true | user => false end.

(* @src packages/approvals/src/application/resolution.ts:111-177 ApprovalAuthorizationService.resolve *)
Definition resolve (p : AuthenticatedPrincipal) (c : ResolveApprovalCommand)
  : proc Ans ApprovalCommandResult :=
  if negb (UUID_LIKE (approvalId c)) || negb (nonempty (commandId c)) then
    throw validation_failed
  else
    grant <~ call (authorizeFresh p "" (decision_capability (decision c))) ;;
    if negb (authorized grant) then pret (denied_grant grant)
    else
      snapshot <~ call (load (approvalId c)) ;;
      if bool_decide (status snapshot = APPROVED ∨ status snapshot = REJECTED) then
        pret (if bool_decide (finalDecision snapshot = Some (decision c)) then
                NOOP_SAME_DECISION (status snapshot) (version snapshot)
              else DENIED "APPROVAL_ALREADY_RESOLVED"
                     ("already " +s toLowerCase (approval_status_name (status snapshot)) +s
                      " by another decision"))
      else if negb (bool_decide (status snapshot = PENDING)) then pret (terminalRefusal snapshot)
      else
        nowMs <~ call readClock ;;
        validity <~ call (checkForResolution (approvalId c) nowMs
                            (expectedActionFingerprint c) (expectedContextFingerprint c)) ;;
        match validity with
        | NotOk code detail => pret (DENIED code detail)
        | Ok =>
            r <~ call (compareAndSet
                   {| cas_approvalId := approvalId c; cas_expectedVersion := expectedVersion c;
                      cas_from := PENDING; cas_to := decision_status (decision c);
                      cas_commandKey := "resolve:" +s commandId c;
                      cas_actorIsSystem := is_system p; cas_actorId := userId p;
                      cas_reasonCode := "RESOLUTION_" +s decision_name (decision c);
                      cas_comment := slice_to 512 <$> comment c |}) ;;
            pret (if negb (applied r) then
                    DENIED "APPROVAL_VERSION_CONFLICT"
                      "approval changed concurrently; reload and resubmit"
                  else APPLIED (decision_status (decision c)) (versionAfter r))
        end.

(** The context [cancel] passes to the state machine. *)
Definition cancel_context (nowMs expires : Z) : TransitionGuardContext :=
  {| ApprovalFsm.nowMs := Some nowMs; ApprovalFsm.expiresAtMs := Some expires;
     contextMatchesBinding := None; cancellationCurrent := Some true;
     stepsOneThroughSixPassed := None; externalEffectBegan := Some false;
     providerProvesNotStarted := None; leaseFenced := None; providerOutcomeVerified := None;
     resolutionAuthorized := None; expectedVersionMatches := None; fingerprintsMatch := None;
     providerProvesFailure := None; uncertaintyExhausted := None |}.

(* @src packages/approvals/src/application/resolution.ts:179-226 ApprovalAuthorizationService.cancel *)
Definition cancel (p : AuthenticatedPrincipal) (commandId approvalId : string)
    (expectedVersion : Z) (reason : string) : proc Ans ApprovalCommandResult :=
  grant <~ call (authorizeFresh p "" CANCEL_PRIVILEGED_ACTION) ;;
  if negb (authorized grant) then pret (denied_grant grant)
  else
    snapshot <~ call (load approvalId) ;;
    if bool_decide (status snapshot = CANCELLED) then
      pret (NOOP_SAME_DECISION (status snapshot) (version snapshot))
    else
      nowMs <~ call readClock ;;
      match resolveEdge (status snapshot) cancel_before_execution
              (cancel_context nowMs (expiresAtMs snapshot)) with
      | Refused detail => pret (DENIED "APPROVAL_ILLEGAL_TRANSITION" detail)
      | Allowed _ _ =>
          r <~ call (compareAndSet
                 {| cas_approvalId := approvalId; cas_expectedVersion := expectedVersion;
                    cas_from := status snapshot; cas_to := CANCELLED;
                    cas_commandKey := "cancel:" +s commandId;
                    cas_actorIsSystem := is_system p; cas_actorId := userId p;
                    cas_reasonCode := "CANCELLATION_REQUESTED";
                    cas_comment := Some (slice_to 512 reason) |}) ;;
          pret (if negb (applied r) then
                  DENIED "APPROVAL_VERSION_CONFLICT" "approval changed concurrently"
                else APPLIED CANCELLED (versionAfter r))
      end.

(** ** What every write rests on *)

Definition asked (c : Call) (a : Ans c) : event Ans := ev c (Returned a).

(** Before a write: a fresh grant of the capability the write needs -- asked, in both commands,
    for the empty repository id --, a snapshot in the status the write starts from, an edge of
    the machine, and for a resolution the validity check of the client's own fingerprints. *)
Definition write_allowed (p : AuthenticatedPrincipal) (tr : list (event Ans)) (c : Call) : Prop :=
  match c with
  | compareAndSet i =>
      cas_actorId i = userId p ∧
      (∃ t, legal t (cas_from i) (cas_to i)) ∧
      ∃ capability g snapshot rest,
        tr = asked (authorizeFresh p "" capability) g ::
             asked (load (cas_approvalId i)) snapshot :: rest ∧
        authorized g = true ∧ status snapshot = cas_from i ∧
        match cas_to i with
        | APPROVED => capability = APPROVE_PRIVILEGED_ACTION
        | REJECTED => capability = REJECT_PRIVILEGED_ACTION
        | _ => capability = CANCEL_PRIVILEGED_ACTION ∧ cas_to i = CANCELLED
        end ∧
        (cas_to i = APPROVED ∨ cas_to i = REJECTED →
           cas_from i = PENDING ∧ ∃ now af cf,
             rest = [asked readClock now; asked (checkForResolution (cas_approvalId i) now af cf) Ok])
  | authorizeFresh _ repository _ => tr = [] ∧ repository = ""
  | _ => True
  end.

(** A result APPLIED is the CAS's own answer, the last call made. *)
Definition applied_result (tr : list (event Ans)) (o : outcome ApprovalCommandResult) : Prop :=
  match o with
  | Returned (APPLIED s v) =>
      ∃ before i r, tr = before ++ [asked (compareAndSet i) r] ∧ applied r = true ∧
        cas_to i = s ∧ versionAfter r = v
  | Returned (REPLAYED _ _) => False
  | _ => True
  end.

Lemma resolve_ensures p c : ensures (write_allowed p) applied_result [] (resolve p c).
Proof.
  unfold resolve. destruct (_ || _); [done|]. simpl. split; [done|]. intros [g|]; [|done].
  simpl. destruct (authorized g) eqn:Hg; [|done]. simpl. split; [done|]. intros [s|]; [|done].
  simpl. case_bool_decide; [by case_bool_decide|]. simpl.
  destruct (bool_decide_reflect (status s = PENDING)) as [Hs|];
    [|unfold terminalRefusal; simpl; by destruct (status s)].
  simpl. split; [done|]. intros [now|]; [|done]. simpl. split; [done|].
  intros [[|]|]; [|done..]. simpl. split.
  - split; [done|]. split.
    + destruct (decision c); [exists approve|exists reject]; constructor.
    + do 4 eexists. split_and!; [done|done|done|by destruct (decision c)|].
      intros _. split; [done|]. by do 3 eexists.
  - intros [r|]; [|done]. simpl. destruct (applied r) eqn:Hr; [|done]. simpl.
    by eexists [_; _; _; _], _, _.
Qed.

Lemma cancel_ensures p cid a v reason :
  ensures (write_allowed p) applied_result [] (cancel p cid a v reason).
Proof.
  unfold cancel. simpl. split; [done|]. intros [g|]; [|done].
  simpl. destruct (authorized g) eqn:Hg; [|done]. simpl. split; [done|]. intros [s|]; [|done].
  simpl. case_bool_decide; [done|]. simpl. split; [done|]. intros [now|]; [|done].
  cbn [pbind ensures]. destruct (resolveEdge _ _ _) as [f to|] eqn:E; [|done].
  assert (Hl : ∃ t, legal t (status s) CANCELLED).
  { exists cancel_before_execution. constructor. unfold resolveEdge in E.
    by destruct (status s); auto. }
  simpl. split.
  - split_and!; [done|done|]. do 4 eexists. split_and!; [done|done|done|done|done|].
    by intros [|].
  - intros [r|]; [|done]. simpl. destruct (applied r) eqn:Hr; [|done]. simpl.
    by eexists [_; _; _], _, _.
Qed.

(** Whatever the ports answer, resolving or cancelling writes only along an edge of the state
    machine, for the actor of the command, after a fresh authorization of exactly the
    capability that write needs and a read of the approval in the status it starts from --
    and, to approve or reject, after the validity check of the fingerprints the client saw; it
    reports APPLIED only on the store's own confirmation. The authorizer is asked with an empty
    repository id, so the authorization is not tied to the approval's repository. *)
Theorem resolution_writes_allowed p c cid a v reason :
  ensures (write_allowed p) applied_result [] (resolve p c) ∧
  ensures (write_allowed p) applied_result [] (cancel p cid a v reason).
Proof. split; [apply resolve_ensures|apply cancel_ensures]. Qed.
End Resolution.

Module Validity.

(* @src packages/approvals/src/application/validity.ts:14-31 STALE_REASON_CODES *)
Inductive StaleReasonCode :=
  ACTION_CHANGED | TARGET_CHANGED | PR_HEAD_CHANGED | PR_BASE_CHANGED | PR_STATE_CHANGED
| BRANCH_SHA_CHANGED | DEFAULT_BRANCH_CHANGED | POLICY_CHANGED | RISK_CHANGED
| VALIDATION_CHANGED | VALIDATION_EXPIRED | REPOSITORY_CHANGED | WORKFLOW_SUPERSEDED
| FINGERPRINT_SCHEMA_UNSUPPORTED.

#[export] Instance StaleReasonCode_eq_dec : EqDecision StaleReasonCode.
Proof. solve_decision. Defined.

(* @src packages/approvals/src/application/validity.ts:33-33 ValidityPurpose *)
Inductive ValidityPurpose := RESOLUTION | EVENT | SCHEDULED | PRE_EXECUTION | RECOVERY.

#[export] Instance ValidityPurpose_eq_dec : EqDecision ValidityPurpose.
Proof. solve_decision. Defined.

Definition purpose_name (p : ValidityPurpose) : string :=
  match p with
  | RESOLUTION => "RESOLUTION" | EVENT => "EVENT" | SCHEDULED => "SCHEDULED"
  | PRE_EXECUTION => "PRE_EXECUTION" | RECOVERY => "RECOVERY"
  end.

(* @src packages/approvals/src/application/validity.ts:35-42 CurrentBindingObservation *)
Record CurrentBindingObservation := {
  cur_actionFingerprint : string;
  cur_contextFingerprint : string;
  currentCancellationGeneration : Z;
  contextChangeReasons : option (list StaleReasonCode);
}.

(* @src packages/approvals/src/application/validity.ts:44-53 ExpiringApprovalState *)
Record ExpiringApprovalState := {
  id : string;
  status : ApprovalStatus;
  version : Z;
  expiresAtMs : Z;
  boundActionFingerprint : string;
  boundContextFingerprint : string;
  boundCancellationGeneration : Z;
  supportedFingerprintSchemaVersion : bool;
}.

Inductive CheckResult := VALID | STALE_ | EXPIRED_.

#[export] Instance CheckResult_eq_dec : EqDecision CheckResult.
Proof. solve_decision. Defined.

(* @src packages/approvals/src/application/validity.ts:55-64 ValidityCheckRecord *)
Record ValidityCheckRecord := {
  checkId : string;
  approvalId : string;
  check_kind : ValidityPurpose;
  result : CheckResult;
  reasonCodes : list StaleReasonCode;
  record_boundContextFingerprint : string;
  currentContextFingerprint : string;
  checkedAtMs : Z;
}.

Inductive CasReasons := TIME_EXPIRED | StaleBecause (l : list StaleReasonCode).

Record CasInput := {
  cas_approvalId : string;
  cas_expectedVersion : Z;
  cas_from : ApprovalStatus;
  cas_to : ApprovalStatus;
  cas_commandKey : string;
  cas_reasonCodes : CasReasons;
}.

Record CasResult := { applied : bool; versionAfter : Z }.

(** The persistence port; [newCheckId] is the id generator. *)
(* @src packages/approvals/src/application/validity.ts:66-78 ValidityPersistencePort *)
Inductive Call :=
  | loadExpiringApproval (approvalId : string)
  | appendValidityCheck (r : ValidityCheckRecord)
  | compareAndSet (i : CasInput)
  | newCheckId.

Definition Ans (c : Call) : Type :=
  match c with
  | loadExpiringApproval _ => ExpiringApprovalState
  | appendValidityCheck _ => unit
  | compareAndSet _ => CasResult
  | newCheckId => string
  end.

(* @src packages/approvals/src/application/validity.ts:117-123 ApprovalValidityService.contextStalenessReasons *)
Definition contextStalenessReasons (c : CurrentBindingObservation) : list StaleReasonCode :=
  match contextChangeReasons c with
  | Some ((_ :: _) as l) => dedup l
  | _ => [TARGET_CHANGED]
  end.

(* @src packages/approvals/src/application/validity.ts:90-114 ApprovalValidityService.determine *)
Definition determine (s : ExpiringApprovalState) (c : CurrentBindingObservation) (nowMs : Z)
  : CheckResult * list StaleReasonCode :=
  if expiresAtMs s <=? nowMs then (EXPIRED_, [])
  else
    let reasons :=
      (if supportedFingerprintSchemaVersion s then [] else [FINGERPRINT_SCHEMA_UNSUPPORTED]) ++
      (if cur_actionFingerprint c =s? boundActionFingerprint s then [] else [ACTION_CHANGED]) ++
      (if cur_contextFingerprint c =s? boundContextFingerprint s then []
       else contextStalenessReasons c) ++
      (if boundCancellationGeneration s <? currentCancellationGeneration c
       then [WORKFLOW_SUPERSEDED] else []) in
    (match reasons with [] => VALID | _ => STALE_ end, dedup reasons).

Inductive CheckOutcome :=
  | IsValid (approvalVersion : Z) (contextFingerprint : string) (validThroughMs : Z)
      (checkId : string)
  | IsStale (reasons : list StaleReasonCode) (checkId : string) (applied : bool)
  | IsExpired (checkId : string) (applied : bool)
  | INDETERMINATE_FAIL_CLOSED (code : string).

Definition record_of (cid a : string) (purpose : ValidityPurpose) (r : CheckResult)
    (reasons : list StaleReasonCode) (s : ExpiringApprovalState) (c : CurrentBindingObservation)
    (nowMs : Z) : ValidityCheckRecord :=
  {| checkId := cid; approvalId := a; check_kind := purpose; result := r;
     reasonCodes := reasons; record_boundContextFingerprint := boundContextFingerprint s;
     currentContextFingerprint := cur_contextFingerprint c; checkedAtMs := nowMs |}.

Definition valid_outcome (s : ExpiringApprovalState) (cid : string) : CheckOutcome :=
  IsValid (version s) (boundContextFingerprint s) (expiresAtMs s) cid.

Definition pre_execution (p : ValidityPurpose) : bool :=
  bool_decide (p = PRE_EXECUTION) || bool_decide (p = RECOVERY).

(** The CAS to EXPIRED or STALE, after the evidence is appended. *)
(* @src packages/approvals/src/application/validity.ts:209-238 ApprovalValidityService.check *)
Definition transition_out (a : string) (purpose : ValidityPurpose) (s : ExpiringApprovalState)
    (cid : string) (determined : CheckResult * list StaleReasonCode) : proc Ans CheckOutcome :=
  if decide (determined.1 = EXPIRED_) then
    r <~ call (compareAndSet
           {| cas_approvalId := a; cas_expectedVersion := version s; cas_from := status s;
              cas_to := EXPIRED; cas_reasonCodes := TIME_EXPIRED;
              cas_commandKey := "expire:" +s purpose_name purpose +s ":" +s cid |}) ;;
    pret (IsExpired cid (applied r))
  else
    match resolveEdge (status s) mark_stale
            {| nowMs := None; ApprovalFsm.expiresAtMs := None;
               contextMatchesBinding := Some false; cancellationCurrent := None;
               stepsOneThroughSixPassed := None; externalEffectBegan := None;
               providerProvesNotStarted := None; leaseFenced := None;
               providerOutcomeVerified := None; resolutionAuthorized := None;
               expectedVersionMatches := None; fingerprintsMatch := None;
               providerProvesFailure := None; uncertaintyExhausted := None |} with
    | Refused _ => throw (GuardError "APPROVAL_ILLEGAL_TRANSITION")
    | Allowed _ _ =>
        r <~ call (compareAndSet
               {| cas_approvalId := a; cas_expectedVersion := version s; cas_from := status s;
                  cas_to := STALE; cas_reasonCodes := StaleBecause determined.2;
                  cas_commandKey := "stale:" +s purpose_name purpose +s ":" +s cid |}) ;;
        pret (IsStale determined.2 cid (applied r))
    end.

(* @src packages/approvals/src/application/validity.ts:125-239 ApprovalValidityService.check *)
Definition check (a : string) (purpose : ValidityPurpose) (current : CurrentBindingObservation)
    (nowMs : Z) : proc Ans CheckOutcome :=
  s <~ call (loadExpiringApproval a) ;;
  if bool_decide (status s = EXECUTING) && negb (pre_execution purpose) then
    cid <~ call newCheckId ;;
    call (appendValidityCheck (record_of cid a purpose VALID [] s current nowMs)) ;~
    pret (valid_outcome s cid)
  else if isTerminal (status s) then
    pret (INDETERMINATE_FAIL_CLOSED ("APPROVAL_TERMINAL_" +s approval_status_name (status s)))
  else
    let determined := determine s current nowMs in
    cid <~ call newCheckId ;;
    call (appendValidityCheck
      (record_of cid a purpose determined.1 determined.2 s current nowMs)) ;~
    if decide (determined.1 = VALID) then pret (valid_outcome s cid)
    else if bool_decide (status s = EXECUTING) && pre_execution purpose then
      pret (if decide (determined.1 = STALE_) then IsStale determined.2 cid false
            else IsExpired cid false)
    else transition_out a purpose s cid determined.

Record Candidate := {
  cand_id : string; cand_status : ApprovalStatus; cand_version : Z; cand_expiresAtMs : Z
}.

(* @src packages/approvals/src/application/validity.ts:245-266 ApprovalValidityService.expireDue *)
Fixpoint expireDue (nowMs : Z) (candidates : list Candidate) (expiredCount : Z) : proc Ans Z :=
  match candidates with
  | [] => pret expiredCount
  | c :: rest =>
      if negb (bool_decide (cand_status c = PENDING)) &&
         negb (bool_decide (cand_status c = APPROVED)) then expireDue nowMs rest expiredCount
      else if nowMs <? cand_expiresAtMs c then expireDue nowMs rest expiredCount
      else
        r <~ call (compareAndSet
               {| cas_approvalId := cand_id c; cas_expectedVersion := cand_version c;
                  cas_from := cand_status c; cas_to := EXPIRED; cas_reasonCodes := TIME_EXPIRED;
                  cas_commandKey := "expire:scheduled:" +s cand_id c +s ":" +s
                                    num_to_string (cand_version c) |}) ;;
        expireDue nowMs rest (if applied r then expiredCount + 1 else expiredCount)
  end.

(** ** Properties *)

(** The binding still holds: the schema is supported, both fingerprints are the bound ones, and
    the run's cancellation generation has not advanced. *)
Definition binding_holds (s : ExpiringApprovalState) (c : CurrentBindingObservation) : Prop :=
  supportedFingerprintSchemaVersion s = true ∧
  cur_actionFingerprint c = boundActionFingerprint s ∧
  cur_contextFingerprint c = boundContextFingerprint s ∧
  currentCancellationGeneration c ≤ boundCancellationGeneration s.

Lemma context_reasons_nonempty c : contextStalenessReasons c ≠ [].
Proof.
  unfold contextStalenessReasons. by destruct (contextChangeReasons c) as [[|r l]|].
Qed.

Lemma determine_spec s c now :
  ((determine s c now).1 = EXPIRED_ ↔ expiresAtMs s ≤ now) ∧
  ((determine s c now).1 = VALID ↔ now < expiresAtMs s ∧ binding_holds s c).
Proof.
  unfold determine, binding_holds. pose proof (context_reasons_nonempty c).
  destruct (Z.leb_spec (expiresAtMs s) now); simpl; [split; split; (done || lia)|].
  destruct (supportedFingerprintSchemaVersion s),
    (String.eqb_spec (cur_actionFingerprint c) (boundActionFingerprint s)),
    (String.eqb_spec (cur_contextFingerprint c) (boundContextFingerprint s)),
    (Z.ltb_spec (boundCancellationGeneration s) (currentCancellationGeneration c)); simpl;
    try destruct (contextStalenessReasons c); simpl;
    (split; split; [done || lia|lia|..]); intuition (done || lia).
Qed.

Definition asked (c : Call) (a : Ans c) : event Ans := ev c (Returned a).

(** A write: for the approval as it was read, along an edge of the machine; EXPIRED exactly when
    the expiry is reached and never for a changed binding, STALE only before the expiry. *)
Definition write_allowed (a : string) (c : CurrentBindingObservation) (now : Z)
    (tr : list (event Ans)) (k : Call) : Prop :=
  match k with
  | compareAndSet i =>
      cas_approvalId i = a ∧ (∃ t, legal t (cas_from i) (cas_to i)) ∧
      ∃ s rest, tr = asked (loadExpiringApproval a) s :: rest ∧ cas_from i = status s ∧
        cas_expectedVersion i = version s ∧
        (cas_to i = EXPIRED ∧ expiresAtMs s ≤ now ∨
         cas_to i = STALE ∧ now < expiresAtMs s ∧ ¬ binding_holds s c)
  | _ => True
  end.

(** A verdict of VALID on an approval that is not executing means what it says. *)
Definition verdict_sound (a : string) (purpose : ValidityPurpose) (c : CurrentBindingObservation)
    (now : Z) (tr : list (event Ans)) (o : outcome CheckOutcome) : Prop :=
  match o with
  | Returned (IsValid v fp through _) =>
      ∃ s rest, tr = asked (loadExpiringApproval a) s :: rest ∧ v = version s ∧
        isTerminal (status s) = false ∧
        (status s = EXECUTING ∧ pre_execution purpose = false ∨
         now < expiresAtMs s ∧ binding_holds s c)
  | Returned (IsExpired _ _) =>
      ∃ s rest, tr = asked (loadExpiringApproval a) s :: rest ∧ expiresAtMs s ≤ now
  | Returned (IsStale _ _ _) =>
      ∃ s rest, tr = asked (loadExpiringApproval a) s :: rest ∧ now < expiresAtMs s ∧
        ¬ binding_holds s c
  | _ => True
  end.

Lemma stale_edge s c f to : resolveEdge s mark_stale c = Allowed f to → legal mark_stale s STALE.
Proof. unfold resolveEdge. destruct s; try done; intros _; constructor; auto. Qed.

Lemma live_edge s : isTerminal s = false → s ≠ EXECUTING → legal expire s EXPIRED.
Proof. destruct s; try done; intros _ _; constructor; auto. Qed.

Lemma transition_out_ensures a purpose c now s cid rest :
  isTerminal (status s) = false → status s ≠ EXECUTING →
  (determine s c now).1 ≠ VALID →
  ensures (write_allowed a c now) (verdict_sound a purpose c now)
    (asked (loadExpiringApproval a) s :: rest)
    (transition_out a purpose s cid (determine s c now)).
Proof.
  intros Hterm Hex Hnv. destruct (determine_spec s c now) as [He Hv].
  unfold transition_out. case_decide as Hd.
  - apply He in Hd. cbn [call pbind ensures]. split.
    + split; [done|]. split; [exists expire; by apply live_edge|].
      exists s, rest. split_and!; auto.
    + intros [r|]; simpl; [|done]. eauto.
  - assert (Hlive : now < expiresAtMs s) by (destruct (Z.le_gt_cases (expiresAtMs s) now); tauto || lia).
    assert (Hb : ¬ binding_holds s c) by tauto.
    destruct (resolveEdge _ _ _) as [f to|] eqn:E; [|done]. apply stale_edge in E.
    cbn [call pbind ensures]. split.
    + split; [done|]. split; [by exists mark_stale|]. exists s, rest. split_and!; auto.
    + intros [r|]; simpl; [|done]. eauto.
Qed.

(** The validity check, whatever the store answers: EXPIRED is written and reported exactly on
    approvals whose expiry has been reached, STALE only before it and only when the binding
    (schema, action or context fingerprint, cancellation generation) no longer holds; every
    write is for the version and status read and follows an edge of the state machine; VALID
    is reported only for an unexpired approval whose binding holds -- or, for purposes other
    than pre-execution and recovery, for any approval that is EXECUTING, without looking. *)
Theorem validity_check_sound a purpose c now :
  ensures (write_allowed a c now) (verdict_sound a purpose c now) [] (check a purpose c now).
Proof.
  unfold check. simpl. split; [done|]. intros [s|]; [|done]. cbn [pbind].
  destruct (bool_decide (status s = EXECUTING) && negb (pre_execution purpose)) eqn:Hq.
  - breflect. simpl. split; [done|]. intros [cid|]; [|done]. simpl. split; [done|].
    intros [[]|]; [|done]. simpl. do 2 eexists. split_and!; [done|done|by rewrite H|by left].
  - destruct (isTerminal (status s)) eqn:Ht; [done|]. destruct (determine_spec s c now) as [He Hv].
    simpl. split; [done|]. intros [cid|]; [|done]. cbn [call pbind ensures Ans]. split; [done|].
    intros [[]|]; [|done]. cbn [pbind].
    destruct (decide ((determine s c now).1 = VALID)) as [Hd|Hd].
    { simpl. do 2 eexists. split_and!; [done|done|done|right; tauto]. }
    destruct (bool_decide _ && pre_execution purpose) eqn:Hp.
    + destruct (decide ((determine s c now).1 = STALE_)) as [Hst|Hst]; simpl; do 2 eexists; (split; [done|]).
      * assert (¬ expiresAtMs s ≤ now) by (rewrite <- He; congruence). split; [lia|]. tauto || naive_solver lia.
      * apply He. by destruct (determine s c now).1.
    + apply transition_out_ensures; [done| |done].
      intros Hex. rewrite Hex in *. destruct (pre_execution purpose); [|].
      all: by rewrite bool_decide_eq_true_2 in *.
Qed.
End Validity.

Module Resume.

(* @src packages/approvals/src/application/resume-sync.ts:12-21 RESUME_INTENT_KINDS *)
Inductive ResumeIntentKind :=
  CONTINUE_APPROVED | CLOSE_REJECTED | CLOSE_STALE | CLOSE_EXPIRED | CLOSE_CANCELLED
| REPORT_EXECUTION_RESULT.

#[export] Instance ResumeIntentKind_eq_dec : EqDecision ResumeIntentKind.
Proof. solve_decision. Defined.

(* @src packages/approvals/src/application/resume-sync.ts:23-34 RESUME_INTENT_STATES *)
Inductive ResumeIntentState :=
  I_PENDING | I_CLAIMED | I_EXECUTING_ACTION | I_RUNTIME_RESUMING | I_RECONCILING | I_COMPLETED
| I_FAILED | I_HUMAN_INTERVENTION.

(* @src packages/approvals/src/application/resume-sync.ts:36-46 RuntimeLink *)
Record RuntimeLink := {
  linkId : string;
  link_approvalId : string;
  checkpointTokenDigest : string;
  sessionId : string;
  turnId : string;
  observedSequence : Z;
  syncState : ResumeIntentState;
}.

(* @src packages/approvals/src/application/resume-sync.ts:48-67 intentForStatus *)
Definition intentForStatus (s : ApprovalStatus) : option ResumeIntentKind :=
  match s with
  | APPROVED => Some CONTINUE_APPROVED
  | REJECTED => Some CLOSE_REJECTED
  | STALE => Some CLOSE_STALE
  | EXPIRED => Some CLOSE_EXPIRED
  | CANCELLED => Some CLOSE_CANCELLED
  | EXECUTED | EXECUTION_FAILED => Some REPORT_EXECUTION_RESULT
  | PENDING | EXECUTING => None
  end.

Record Intent := { intentId : string; alreadyExisted : bool }.

(** [transitionIntent] answers [applied]; [resumeCheckpoint] answers [resumed]. *)
(* @src packages/approvals/src/application/resume-sync.ts:69-95 ResumeDispatchPort *)
Inductive Call :=
  | loadLink (approvalId : string)
  | createOrGetIntent (approvalId : string) (kind : ResumeIntentKind) (generation : Z)
      (operationKey : string)
  | transitionIntent (intentId : string) (from to : ResumeIntentState)
  | resumeCheckpoint (sessionId turnId checkpointTokenDigest : string) (evidence : option string)
  | deliverClosure (sessionId turnId : string) (reason : ResumeIntentKind).

Definition Ans (c : Call) : Type :=
  match c with
  | loadLink _ => option RuntimeLink
  | createOrGetIntent _ _ _ _ => Intent
  | transitionIntent _ _ _ => bool
  | resumeCheckpoint _ _ _ _ => bool
  | deliverClosure _ _ _ => unit
  end.

Record StateChange := {
  approvalId : string;
  status : ApprovalStatus;
  change_version : Z;
  operationKey : string;
  cancellationGeneration : Z;
  executionEvidenceDigest : option string;
}.

Record SyncResult := {
  result_intentId : string; result_kind : ResumeIntentKind; state : ResumeIntentState
}.

Definition sync (i : Intent) (k : ResumeIntentKind) (s : ResumeIntentState) : SyncResult :=
  {| result_intentId := intentId i; result_kind := k; state := s |}.

(** The body for [CONTINUE_APPROVED]. *)
(* @src packages/approvals/src/application/resume-sync.ts:139-180 ApprovalResumeCoordinator.onApprovalStateChanged *)
Definition continue_approved (link : RuntimeLink) (i : Intent) (evidence : option string)
  : proc Ans SyncResult :=
  if negb (truthy evidence) then
    call (transitionIntent (intentId i) I_CLAIMED I_HUMAN_INTERVENTION) ;~
    throw (PlainError "cannot CONTINUE_APPROVED without durable execution evidence")
  else
    call (transitionIntent (intentId i) I_CLAIMED I_EXECUTING_ACTION) ;~
    call (transitionIntent (intentId i) I_EXECUTING_ACTION I_RUNTIME_RESUMING) ;~
    resumed <~ call (resumeCheckpoint (sessionId link) (turnId link)
                       (checkpointTokenDigest link) evidence) ;;
    if negb resumed then
      call (transitionIntent (intentId i) I_RUNTIME_RESUMING I_RECONCILING) ;~
      pret (sync i CONTINUE_APPROVED I_RECONCILING)
    else
      call (transitionIntent (intentId i) I_RUNTIME_RESUMING I_COMPLETED) ;~
      pret (sync i CONTINUE_APPROVED I_COMPLETED).

(* @src packages/approvals/src/application/resume-sync.ts:105-195 ApprovalResumeCoordinator.onApprovalStateChanged *)
Definition onApprovalStateChanged (x : StateChange) : proc Ans SyncResult :=
  found <~ call (loadLink (approvalId x)) ;;
  match found with
  | None => throw (PlainError ("no runtime link for approval '" +s approvalId x +s "'"))
  | Some link =>
      match intentForStatus (status x) with
      | None => throw (PlainError ("status '" +s approval_status_name (status x) +s
                                   "' does not map to a resume intent"))
      | Some k =>
          i <~ call (createOrGetIntent (approvalId x) k
                 (Z.max (cancellationGeneration x) (observedSequence link)) (operationKey x)) ;;
          call (transitionIntent (intentId i) I_PENDING I_CLAIMED) ;~
          if decide (k = CONTINUE_APPROVED) then
            continue_approved link i (executionEvidenceDigest x)
          else
            call (deliverClosure (sessionId link) (turnId link) k) ;~
            call (transitionIntent (intentId i) I_CLAIMED I_COMPLETED) ;~
            pret (sync i k I_COMPLETED)
      end
  end.

(** ** Properties *)

Definition asked (c : Call) (a : Ans c) : event Ans := ev c (Returned a).

(** A runtime is resumed only for an approved action with execution evidence, on the link the
    store holds for the approval; it is closed only with the reason of a terminal status. *)
Definition signal_allowed (x : StateChange) (tr : list (event Ans)) (c : Call) : Prop :=
  match c with
  | resumeCheckpoint s t d e =>
      status x = APPROVED ∧ truthy e = true ∧ e = executionEvidenceDigest x ∧
      ∃ link rest, tr = asked (loadLink (approvalId x)) (Some link) :: rest ∧
        s = sessionId link ∧ t = turnId link ∧ d = checkpointTokenDigest link
  | deliverClosure s t k =>
      isTerminal (status x) = true ∧ intentForStatus (status x) = Some k ∧
      ∃ link rest, tr = asked (loadLink (approvalId x)) (Some link) :: rest ∧
        s = sessionId link ∧ t = turnId link
  | _ => True
  end.

Definition completed_after_signal (x : StateChange) (tr : list (event Ans)) (o : outcome SyncResult)
  : Prop :=
  match o with
  | Returned r =>
      intentForStatus (status x) = Some (result_kind r) ∧
      (state r = I_COMPLETED → ∃ e before after,
        tr = before ++ [e] ++ after ∧
        match ev_call e with
        | resumeCheckpoint _ _ _ _ => result_kind r = CONTINUE_APPROVED
        | deliverClosure _ _ k => k = result_kind r
        | _ => False
        end)
  | Threw _ => True
  end.

(** Whatever the runtime and the store answer, a paused session is continued only when the
    approval is APPROVED and execution evidence is supplied, with the session, turn and
    checkpoint of the link stored for that approval; it is closed only for a terminal status
    and with that status's reason; and COMPLETED is reported only after the continuation or
    the closure was sent. *)
Theorem resume_needs_evidence x :
  ensures (signal_allowed x) (completed_after_signal x) [] (onApprovalStateChanged x).
Proof.
  unfold onApprovalStateChanged. simpl. split; [done|]. intros [[link|]|]; [|done..].
  simpl. destruct (intentForStatus (status x)) as [k|] eqn:Hk; [|done]. simpl. split; [done|].
  intros [i|]; [|done]. simpl. split; [done|]. intros [b|]; [|done]. cbn [pbind].
  destruct (decide (k = CONTINUE_APPROVED)) as [->|Hne].
  - assert (Hs : status x = APPROVED) by (by destruct (status x)).
    unfold continue_approved. destruct (truthy (executionEvidenceDigest x)) eqn:He; simpl.
    2: { split; [done|]. by intros [|]. }
    split; [done|]. intros [b1|]; [|done]. simpl. split; [done|]. intros [b2|]; [|done].
    simpl. split; [split_and!; try done; by do 2 eexists|].
    intros [[|]|]; [| |done]; simpl; (split; [done|]).
    + intros [b3|]; simpl; [|done]. split; [done|].
      intros _. eexists _, [_; _; _; _; _], [_]. by split.
    + intros [b3|]; simpl; [|done]. by split.
  - assert (Ht : isTerminal (status x) = true) by (destruct (status x); simpl in Hk; (done || congruence)).
    simpl. split; [split_and!; try done; by do 2 eexists|]. intros [[]|]; [|done]. simpl.
    split; [done|]. intros [b1|]; [|done]. simpl. split; [done|].
    intros _. eexists _, [_; _; _], [_]. by split.
Qed.

Definition resumes (tr : list (event Ans)) : nat :=
  length (List.filter (λ e, match ev_call e with resumeCheckpoint _ _ _ _ => true | _ => false end)
    tr).

(** A dispatch port that already completed the intent: it exists, and no transition applies. *)
Definition completed_port (link : RuntimeLink) (c : Call) (w : unit) : outcome (Ans c) * unit :=
  (Returned match c return Ans c with
            | loadLink _ => Some link
            | createOrGetIntent _ _ _ _ => {| intentId := "i"; alreadyExisted := true |}
            | transitionIntent _ _ _ => false
            | resumeCheckpoint _ _ _ _ => true
            | deliverClosure _ _ _ => tt
            end, w).

(** Replays are not absorbed: delivering the approval of an intent that already exists and is
    already completed -- the store says so, and applies none of the transitions -- resumes the
    checkpoint again and reports COMPLETED, because the coordinator ignores both answers,
    although the module promises that duplicates converge without side effects. *)
Theorem replay_resumes_again x link
  (Hs : status x = APPROVED) (He : truthy (executionEvidenceDigest x) = true) :
  let '(r, tr, _) := exec (completed_port link) (onApprovalStateChanged x) tt in
  resumes tr = 1%nat ∧
  r = Returned (sync {| intentId := "i"; alreadyExisted := true |} CONTINUE_APPROVED I_COMPLETED).
Proof.
  unfold onApprovalStateChanged. rewrite Hs. simpl. unfold continue_approved. rewrite He. done.
Qed.

Lemma replay_resumes_again_witness :
  let x := {| approvalId := "a"; status := APPROVED; change_version := 2; operationKey := "op";
              cancellationGeneration := 0; executionEvidenceDigest := Some "digest" |} in
  let link := {| linkId := "l"; link_approvalId := "a"; checkpointTokenDigest := "t";
                 sessionId := "s"; turnId := "1"; observedSequence := 0;
                 syncState := I_COMPLETED |} in
  resumes (exec (completed_port link) (onApprovalStateChanged x) tt).1.2 = 1%nat.
Proof. intros x link. apply (replay_resumes_again x link); reflexivity. Defined.
End Resume.
