(* ===== verification/PathGuard.v ===== *)
(** * The path guard

    [packages/security/src/content/paths.ts]: the lexical normalisation of an untrusted path
    ([normalizeRelativePath]) and the walk of the file system that follows it
    ([resolveWorkspacePath]), over the one file-system call it makes.  A throw of
    [PATH_ACCESS_BLOCKED] with a reason is the value [Blocked]. *)

From S2P Require Import Prelude JsString Effects CodeUnits.

(** ** Budgets and results *)

(* @src packages/security/src/content/paths.ts:19-29 ContentBudget *)
Record ContentBudget := {
  maxFiles : Z;
  maxFileBytes : Z;
  maxTotalBytes : Z;
  maxLines : Z;
  maxDepth : Z;
  maxArchiveRatio : Z;
  maxPatchFiles : Z;
  maxPatchHunks : Z;
  deadlineMs : Z;
}.

(* @src packages/security/src/content/paths.ts:31-41 DEFAULT_BUDGET *)
Definition DEFAULT_BUDGET : ContentBudget := {|
  maxFiles := 500;
  maxFileBytes := 10000000;
  maxTotalBytes := 50000000;
  maxLines := 20000;
  maxDepth := 16;
  maxArchiveRatio := 100;
  maxPatchFiles := 100;
  maxPatchHunks := 2000;
  deadlineMs := 60000;
|}.

(* @src packages/security/src/content/paths.ts:47-52 SafePathShape *)
Record SafePathShape := {
  rootId : string;
  normalizedRelativePath : ustring;
  kind : string;
}.

(** A value, or [fail(reasonCode)]. *)
(* @src packages/security/src/content/paths.ts:65-67 path_result *)
Inductive path_result (A : Type) :=
  | Safe (a : A)
  | Blocked (reasonCode : string).
Arguments Safe {A} a.
Arguments Blocked {A} reasonCode.

Definition path_bind {A B} (r : path_result A) (f : A → path_result B) : path_result B :=
  match r with Safe a => f a | Blocked why => Blocked why end.

(* @src packages/security/src/content/paths.ts:54-61 RESERVED_DEVICE_NAMES *)
Definition RESERVED_DEVICE_NAMES : list ustring :=
  u <$> (["CON"; "PRN"; "AUX"; "NUL"] ++
         ((λ i, "COM" +s num_to_string i) <$> [1; 2; 3; 4; 5; 6; 7; 8; 9]) ++
         ((λ i, "LPT" +s num_to_string i) <$> [1; 2; 3; 4; 5; 6; 7; 8; 9])).

(** ** The lexical layer *)

Section Guard.
Context `{Unicode}.

Definition u_alpha (c : Z) : bool := (65 <=? c) && (c <=? 90) || (97 <=? c) && (c <=? 122).

(** [/^[a-zA-Z]:/] *)
(* @src packages/security/src/content/paths.ts:75-75 normalizeRelativePath *)
Definition windows_drive (s : ustring) : bool :=
  match s with c :: d :: _ => u_alpha c && (d =? 58) | _ => false end.

(** The checks of the raw input. *)
(* @src packages/security/src/content/paths.ts:71-76 normalizeRelativePath *)
Definition raw_check (rawInput : ustring) : option string :=
  if has 0 rawInput then Some "nul_byte"
  else if has backslash rawInput then Some "alternate_separator"
  else if u_starts (u "/") rawInput then Some "absolute_path"
  else if windows_drive rawInput then Some "windows_drive"
  else if u_starts (u "//") rawInput || u_starts (u "\\") rawInput then Some "unc_path"
  else None.

(* @src packages/security/src/content/paths.ts:78-89 normalizeRelativePath *)
Definition percent_decode (rawInput : ustring) : path_result ustring :=
  if percent_encoded rawInput then
    match decodeURIComponent rawInput with
    | None => Blocked "invalid_encoding"
    | Some candidate =>
        if has 0 candidate then Blocked "nul_byte_after_decode"
        else if percent_encoded candidate then Blocked "double_encoding"
        else if u_includes (u "..") candidate || has backslash candidate
        then Blocked "encoded_traversal"
        else Safe candidate
    end
  else Safe rawInput.

(** [/[\u2044\u2215]/] *)
Definition confusable (c : Z) : bool := (c =? 8260) || (c =? 8725).

(* @src packages/security/src/content/paths.ts:94-96 normalizeRelativePath *)
Definition unicode_normalize (candidate : ustring) : path_result ustring :=
  let normalizedUnicode := nfc candidate in
  if negb (normalizedUnicode =u? candidate) && some_unit confusable normalizedUnicode
  then Blocked "unicode_separator_confusable" else Safe normalizedUnicode.

(** [/[\u0000-\u001F\u007F]/] *)
Definition control (c : Z) : bool := (0 <=? c) && (c <=? 31) || (c =? 127).

(** [/[.\s]$/] *)
Definition trailing_dot_or_space (s : ustring) : bool :=
  match last s with Some c => (c =? 46) || u_space c | None => false end.

(* @src packages/security/src/content/paths.ts:111-116 normalizeRelativePath *)
Definition reserved_device (segment : ustring) : bool :=
  let baseName := hd [] (u_split 46 segment) in
  bool_decide (u_upper segment ∈ RESERVED_DEVICE_NAMES) ||
  bool_decide (u_upper baseName ∈ RESERVED_DEVICE_NAMES).

(** The checks of a segment that is kept. *)
(* @src packages/security/src/content/paths.ts:109-118 normalizeRelativePath *)
Definition segment_check (segment : ustring) : option string :=
  if some_unit control segment then Some "control_characters"
  else if trailing_dot_or_space segment then Some "trailing_dot_or_space"
  else if reserved_device segment then Some "reserved_device_name"
  else if 255 <? Z.of_nat (length segment) then Some "segment_too_long"
  else None.

(* @src packages/security/src/content/paths.ts:101-119 normalizeRelativePath *)
Fixpoint resolve_segments (segments resolved : list ustring) : path_result (list ustring) :=
  match segments with
  | [] => Safe resolved
  | segment :: segments =>
      if (segment =u? []) || (segment =u? u ".") then resolve_segments segments resolved
      else if segment =u? u ".." then
        match resolved with
        | [] => Blocked "traversal_above_root"
        | _ :: _ => resolve_segments segments (removelast resolved)
        end
      else
        match segment_check segment with
        | Some why => Blocked why
        | None => resolve_segments segments (resolved ++ [segment])
        end
  end.

(* @src packages/security/src/content/paths.ts:70-125 normalizeRelativePath *)
Definition normalizeRelativePath (root : string) (rawInput : ustring)
    : path_result SafePathShape :=
  match raw_check rawInput with
  | Some why => Blocked why
  | None =>
      path_bind (percent_decode rawInput) (λ candidate,
      path_bind (unicode_normalize candidate) (λ normalizedUnicode,
      path_bind (resolve_segments (u_split slash normalizedUnicode) []) (λ resolved,
      match resolved with
      | [] => Blocked "empty_path"
      | _ :: _ =>
          Safe {| rootId := root; normalizedRelativePath := u_join slash resolved;
                  kind := "file" |}
      end)))
  end.

(** ** What an accepted path is *)

(** A segment that is a plain name: it survives every check, so it is not empty, [.] or [..]. *)
Definition plain_segment (segment : ustring) : Prop :=
  segment ≠ [] ∧ slash ∉ segment ∧ segment_check segment = None.

Lemma plain_not_special segment :
  plain_segment segment →
  (segment =u? []) || (segment =u? u ".") = false ∧ (segment =u? u "..") = false.
Proof.
  intros (Hne & _ & Hc). unfold segment_check in Hc.
  destruct (some_unit control segment); [done|].
  destruct (trailing_dot_or_space segment) eqn:Ht; [done|].
  destruct (ueqb_spec segment []), (ueqb_spec segment (u ".")), (ueqb_spec segment (u ".."));
    subst; done.
Qed.

Lemma resolve_segments_plain segments resolved out :
  Forall (λ s, slash ∉ s) segments → Forall plain_segment resolved →
  resolve_segments segments resolved = Safe out → Forall plain_segment out.
Proof.
  intros Hs. revert resolved. induction Hs as [|s segments Hslash Hs IH]; intros resolved Hr Ho;
    cbn [resolve_segments] in Ho; [by simplify_eq|].
  destruct (ueqb_spec s []) as [|Hne]; [by eapply IH|].
  destruct (ueqb_spec s (u ".")); [by eapply IH|]. cbn [orb] in Ho.
  destruct (ueqb_spec s (u "..")) as [|Hd].
  - destruct resolved as [|r rs]; [done|]. eapply IH; [|done].
    destruct (exists_last (l := r :: rs)) as (l' & x & E); [done|].
    rewrite E, removelast_last in *. by apply Forall_app in Hr as [? _].
  - destruct (segment_check s) eqn:Hc; [done|]. eapply IH; [|done].
    apply Forall_app. split; [done|]. by repeat constructor.
Qed.

Lemma resolve_segments_keeps segments resolved :
  Forall plain_segment segments →
  resolve_segments segments resolved = Safe (resolved ++ segments).
Proof.
  intros Hs. revert resolved. induction Hs as [|s segments Hp Hs IH]; intros resolved;
    cbn [resolve_segments]; [by rewrite app_nil_r|].
  destruct (plain_not_special s Hp) as [-> ->]. destruct Hp as (_ & _ & ->).
  by rewrite IH, <- app_assoc.
Qed.

Lemma path_bind_safe {A B} (r : path_result A) (f : A → path_result B) b :
  path_bind r f = Safe b → ∃ a, r = Safe a ∧ f a = Safe b.
Proof. destruct r; [by eauto|done]. Qed.

Lemma percent_decode_clean raw c :
  has backslash raw = false → percent_decode raw = Safe c →
  has backslash c = false ∧ percent_encoded c = false.
Proof.
  unfold percent_decode. intros Hb. destruct (percent_encoded raw) eqn:Hp.
  - destruct (decodeURIComponent raw) as [d|]; [|done].
    destruct (has 0 d), (percent_encoded d) eqn:Hd; try done.
    destruct (u_includes (u "..") d), (has backslash d) eqn:Hbd; simpl; try done.
    by intros [= <-].
  - by intros [= <-].
Qed.

Lemma resolve_segments_elem segments resolved out x :
  resolve_segments segments resolved = Safe out → x ∈ out → x ∈ resolved ∨ x ∈ segments.
Proof.
  revert resolved. induction segments as [|s segments IH]; intros resolved Ho Hx;
    cbn [resolve_segments] in Ho; [simplify_eq; by left|].
  destruct ((s =u? []) || (s =u? u ".")).
  { destruct (IH _ Ho Hx); [by left|right; by right]. }
  destruct (s =u? u "..").
  - destruct resolved as [|r rs]; [done|]. destruct (IH _ Ho Hx) as [Hr|]; [|right; by right].
    left. destruct (exists_last (l := r :: rs)) as (l' & y & E); [done|].
    rewrite E, removelast_last in *. apply elem_of_app. by left.
  - destruct (segment_check s); [done|].
    destruct (IH _ Ho Hx) as [[?| ->%list_elem_of_singleton]%elem_of_app|];
      [by left|right; by left|right; by right].
Qed.

Lemma normalize_segments root raw p :
  normalizeRelativePath root raw = Safe p →
  ∃ segments, segments ≠ [] ∧ Forall plain_segment segments ∧
    normalizedRelativePath p = u_join slash segments.
Proof.
  unfold normalizeRelativePath. destruct (raw_check raw); [done|].
  intros (c & _ & Hp)%path_bind_safe. apply path_bind_safe in Hp as (n & _ & Hp).
  apply path_bind_safe in Hp as (segments & Hr & Hp).
  destruct segments as [|s l]; [done|]. injection Hp as <-. exists (s :: l). split_and!; [done| |done].
  eapply resolve_segments_plain; [apply u_split_parts|constructor|exact Hr].
Qed.

Context `{!UnicodeLaws}.

(** The text whose segments are resolved. *)
Lemma normalized_text raw c n :
  raw_check raw = None → percent_decode raw = Safe c → unicode_normalize c = Safe n →
  n = nfc c ∧ backslash ∉ n ∧ percent_encoded n = false.
Proof.
  unfold raw_check, unicode_normalize. intros Hr Hc Hn.
  destruct (has 0 raw), (has backslash raw) eqn:Hb; try done.
  destruct (percent_decode_clean raw c Hb Hc) as [Hcb Hcp]. apply has_false in Hcb.
  destruct (negb _ && _); [done|]. injection Hn as <-. split_and!; [done|..].
  - by intros ?%nfc_separator; [|right].
  - destruct (percent_encoded (nfc c)) eqn:He; [|done]. apply nfc_percent in He. congruence.
Qed.

Lemma raw_check_plain segments :
  segments ≠ [] → Forall plain_segment segments →
  backslash ∉ u_join slash segments →
  raw_check (u_join slash segments) =
  if windows_drive (u_join slash segments) then Some "windows_drive" else None.
Proof.
  intros Hne Hp Hb. unfold raw_check.
  assert (Hnul : has 0 (u_join slash segments) = false).
  { apply has_false. intros [?|(a & Ha & Hz)]%u_join_elem; [done|].
    rewrite Forall_forall in Hp. destruct (Hp a Ha) as (_ & _ & Hc). unfold segment_check in Hc.
    destruct (some_unit control a) eqn:Hcontrol; [done|].
    unfold some_unit in Hcontrol. rewrite existsb_false in Hcontrol.
    specialize (Hcontrol 0 Hz). done. }
  apply has_false in Hb as Hb'. rewrite Hnul, Hb'.
  assert (Hs : u_starts (u "/") (u_join slash segments) = false).
  { destruct segments as [|a l]; [done|]. apply Forall_cons in Hp as [(Ha & Hs & _) _].
    destruct a as [|d a]; [done|]. apply not_elem_of_cons in Hs as [Hd _].
    change (u "/") with [slash].
    assert (E : ∃ t, u_join slash ((d :: a) :: l) = d :: t)
      by (destruct l as [|b l]; eexists; reflexivity).
    destruct E as [t ->]. cbn [u_starts]. rewrite andb_true_r. apply Z.eqb_neq. congruence. }
  rewrite Hs.
  assert (Hs2 : u_starts (u "//") (u_join slash segments) = false).
  { destruct (u_starts (u "//") _) eqn:E; [|done]. apply u_starts_spec in E as [t E].
    rewrite <- Hs. symmetry. apply u_starts_spec. rewrite E. by exists (slash :: t). }
  assert (Hs3 : u_starts (u "\\") (u_join slash segments) = false).
  { destruct (u_starts (u "\\") _) eqn:E; [|done]. apply u_starts_spec in E as [t E].
    exfalso. apply Hb. rewrite E. by left. }
  by rewrite Hs2, Hs3.
Qed.

(** The whole of what the guard promises. *)
Lemma guard_accepts root raw p :
  normalizeRelativePath root raw = Safe p →
  let path := normalizedRelativePath p in
  (∃ segments, segments ≠ [] ∧ Forall plain_segment segments ∧ path = u_join slash segments ∧
     u_split slash path = segments) ∧
  backslash ∉ path ∧ percent_encoded path = false ∧
  normalizeRelativePath root path =
    if windows_drive path then Blocked "windows_drive" else Safe p.
Proof.
  unfold normalizeRelativePath at 1. intros Hp.
  destruct (raw_check raw) eqn:Hraw; [done|].
  apply path_bind_safe in Hp as (c & Hc & Hp). apply path_bind_safe in Hp as (n & Hn & Hp).
  apply path_bind_safe in Hp as (segments & Hr & Hp).
  destruct segments as [|s0 l]; [done|]. remember (s0 :: l) as segments eqn:Hseg.
  injection Hp as <-. simpl.
  assert (Hne : segments ≠ []) by by subst.
  destruct (normalized_text raw c n Hraw Hc Hn) as (-> & Hnb & Hnp).
  assert (Hplain : Forall plain_segment segments)
    by (eapply resolve_segments_plain; [apply u_split_parts|constructor|exact Hr]).
  assert (Hin : ∀ a, a ∈ segments → a ∈ u_split slash (nfc c)).
  { intros a Ha. by destruct (resolve_segments_elem _ _ _ _ Hr Ha) as [?%elem_of_nil|]. }
  assert (Hsplit : u_split slash (u_join slash segments) = segments).
  { apply u_split_join; [done|]. eapply Forall_impl; [exact Hplain|]. by intros a (_ & ? & _). }
  assert (Hpath_b : backslash ∉ u_join slash segments).
  { intros [?|(a & Ha & Hx)]%u_join_elem; [done|]. apply Hnb.
    rewrite <- (u_join_split slash (nfc c)). by eapply u_join_part; [apply Hin|]. }
  assert (Hpath_p : percent_encoded (u_join slash segments) = false).
  { rewrite percent_encoded_join. apply existsb_false. intros a Ha.
    rewrite <- (u_join_split slash (nfc c)), percent_encoded_join in Hnp.
    rewrite existsb_false in Hnp. by apply Hnp, Hin. }
  split_and!; [by exists segments|done|done|].
  unfold normalizeRelativePath. rewrite raw_check_plain by done.
  destruct (windows_drive _); [done|].
  unfold percent_decode. rewrite Hpath_p. simpl. unfold unicode_normalize.
  assert (Hnfc : nfc (u_join slash segments) = u_join slash segments).
  { rewrite nfc_join. f_equal. apply list_fmap_id_on. intros a Ha.
    eapply nfc_segments; [apply nfc_stable|by apply Hin]. }
  rewrite Hnfc. destruct (ueqb_spec (u_join slash segments) (u_join slash segments)); [|done].
  simpl. rewrite Hsplit, resolve_segments_keeps by done. simpl. by rewrite Hseg.
Qed.
(** Guarding an accepted path again gives the same path, unless it is refused as a drive. *)
Lemma guard_again root raw p q :
  normalizeRelativePath root raw = Safe p →
  normalizeRelativePath root (normalizedRelativePath p) = Safe q → q = p.
Proof.
  intros Hp Hq. destruct (guard_accepts root raw p Hp) as (_ & _ & _ & E).
  rewrite E in Hq. destruct (windows_drive _); [done|]. by injection Hq.
Qed.

(* @prop type 2.7 : normalizeRelativePath raw_check percent_decode unicode_normalize resolve_segments segment_check reserved_device windows_drive SafePathShape / accepted_path_is_plain_witness *)
(** C7. What the path guard accepts is a plain relative path, for every text of code units and
    whatever encoding it hides behind: a non-empty list of segments joined by single slashes,
    each of them a name -- not empty, not [.] or [..], without slash, NUL or control character,
    not ending in a dot or a space, not a reserved device, at most 255 units --, without a
    backslash or a percent escape anywhere.  Guarding such a path once more changes nothing, with
    exactly one exception: one that starts like a Windows drive is then refused -- the drive
    check looks at the raw text only, so [x/../C:/y] passes it the first time. *)
Theorem accepted_path_is_plain root raw p :
  normalizeRelativePath root raw = Safe p →
  let path := normalizedRelativePath p in
  (∃ segments, segments ≠ [] ∧ Forall plain_segment segments ∧ path = u_join slash segments ∧
     u_split slash path = segments) ∧
  backslash ∉ path ∧ percent_encoded path = false ∧
  normalizeRelativePath root path =
    if windows_drive path then Blocked "windows_drive" else Safe p.
Proof. apply guard_accepts. Qed.
End Guard.

(** ** The file-system layer *)

(** [path.posix] of Node: an absolute path is resolved segment by segment, [..] at the root
    stays there. *)
Fixpoint normalize_string (segments kept : list ustring) : list ustring :=
  match segments with
  | [] => kept
  | s :: segments =>
      if (s =u? []) || (s =u? u ".") then normalize_string segments kept
      else if s =u? u ".." then normalize_string segments (removelast kept)
      else normalize_string segments (kept ++ [s])
  end.

(** The absolute path with these segments. *)
Definition at_root (names : list ustring) : ustring := slash :: u_join slash names.

(** The segments of [p], which is taken from [base] when it is relative. *)
Definition resolve_names (base p : ustring) : list ustring :=
  normalize_string (u_split slash (if u_starts [slash] p then p else base ++ slash :: p)) [].

(** [path.resolve(base, p)] for an absolute [base]. *)
Definition path_resolve (base p : ustring) : ustring := at_root (resolve_names base p).

(** [path.join(base, p)] for an absolute [base] and a [p] that does not end in a slash. *)
Definition path_join (base p : ustring) : ustring :=
  at_root (normalize_string (u_split slash (base ++ slash :: p)) []).

(** What [lstat] answers. *)
Record Stats := { isSymbolicLink : bool; isFile : bool; isDirectory : bool }.

Inductive FsCall := lstat (path : ustring).
Definition FsAns (c : FsCall) : Type := Stats.

Section Workspace.
Context `{Unicode}.

Definition block {A} (reasonCode : string) : proc FsAns A :=
  throw (GuardError "PATH_ACCESS_BLOCKED").

(** The checks of one component. *)
(* @src packages/security/src/content/paths.ts:158-165 resolveWorkspacePath *)
Definition component_check (isFinal : bool) (stats : Stats) : option string :=
  if isSymbolicLink stats then Some "symlink_component"
  else if isFinal then
    if negb (isFile stats) && negb (isDirectory stats) then Some "special_file" else None
  else if negb (isDirectory stats) then Some "non_directory_component" else None.

(* @src packages/security/src/content/paths.ts:168-168 resolveWorkspacePath *)
Definition not_found (e : js_error) : bool := bool_decide (e = GuardError "ENOENT").

(** The walk over the components.  [None] after a component that does not exist. *)
(* @src packages/security/src/content/paths.ts:150-169 resolveWorkspacePath *)
Fixpoint walk_components (walked : ustring) (segments : list ustring) : proc FsAns unit :=
  match segments with
  | [] => pret tt
  | segment :: rest =>
      let walked := path_join walked segment in
      pbind
        (ptry (pbind (call (Ans := FsAns) (lstat walked)) (λ stats,
               match component_check (bool_decide (rest = [])) stats with
               | Some why => block why
               | None => pret true
               end))
              (λ e, if not_found e then pret false else throw e))
        (λ go_on, if go_on then walk_components walked rest else pret tt)
  end.

(** The working directory of the process is [cwd]. *)
(* @src packages/security/src/content/paths.ts:128-173 resolveWorkspacePath *)
Definition resolveWorkspacePath (cwd : ustring) (root : string) (rawInput rootDir : ustring)
    : proc FsAns SafePathShape :=
  match normalizeRelativePath root rawInput with
  | Blocked why => block why
  | Safe safe =>
      realRoot <~ call (Ans := FsAns) (lstat rootDir) ;;
      if isSymbolicLink realRoot then block "root_is_symlink" else
      let rootAbsolute := path_resolve cwd rootDir in
      let targetAbsolute := path_resolve rootAbsolute (normalizedRelativePath safe) in
      if negb (u_starts (rootAbsolute ++ [slash]) targetAbsolute) &&
         negb (targetAbsolute =u? rootAbsolute)
      then block "resolved_escape" else
      walk_components rootAbsolute (u_split slash (normalizedRelativePath safe)) ;~
      pret safe
  end.

(** *** Resolution of ordinary segments *)

Definition ordinary (s : ustring) : Prop :=
  (s =u? []) || (s =u? u ".") = false ∧ (s =u? u "..") = false ∧ slash ∉ s.

Lemma ordinary_nonempty s : ordinary s → s ≠ [].
Proof. by intros (Hs & _) ->. Qed.

Lemma plain_ordinary s : plain_segment s → ordinary s.
Proof. intros Hs. destruct (plain_not_special s Hs). by destruct Hs as (_ & ? & _). Qed.

Lemma normalize_ordinary segments kept :
  Forall ordinary segments → normalize_string segments kept = kept ++ segments.
Proof.
  intros Hs. revert kept. induction Hs as [|s segments (H1 & H2 & _) Hs IH]; intros kept;
    cbn [normalize_string]; [by rewrite app_nil_r|].
  by rewrite H1, H2, IH, <- app_assoc.
Qed.

Lemma normalized_ordinary segments kept :
  Forall (λ s, slash ∉ s) segments → Forall ordinary kept →
  Forall ordinary (normalize_string segments kept).
Proof.
  intros Hs. revert kept. induction Hs as [|s segments Hslash Hs IH]; intros kept Hk;
    cbn [normalize_string]; [done|].
  destruct ((s =u? []) || (s =u? u ".")) eqn:H1; [by apply IH|].
  destruct (s =u? u "..") eqn:H2; apply IH.
  - destruct kept as [|k ks]; [done|].
    destruct (exists_last (l := k :: ks)) as (l' & x & E); [done|].
    rewrite E, removelast_last in *. by apply Forall_app in Hk as [? _].
  - apply Forall_app. split; [done|]. by repeat constructor.
Qed.

Lemma resolve_names_ordinary base p : Forall ordinary (resolve_names base p).
Proof. apply normalized_ordinary; [apply u_split_parts|constructor]. Qed.

(** A relative path of ordinary segments lies below its base. *)
Lemma normalize_below names rel :
  Forall ordinary names → Forall ordinary rel → rel ≠ [] →
  normalize_string (u_split slash (at_root names ++ slash :: u_join slash rel)) [] = names ++ rel.
Proof.
  intros Hn Hr Hne.
  assert (Hslash : ∀ l, Forall ordinary l → Forall (λ a, slash ∉ a) l)
    by (intros l Hl; eapply Forall_impl; [exact Hl|]; by intros a (_ & _ & ?)).
  unfold at_root. cbn [app u_split]. rewrite Z.eqb_refl. cbn [normalize_string]. simpl orb.
  destruct names as [|n names].
  - cbn [u_join app u_split]. rewrite Z.eqb_refl. cbn [normalize_string]. simpl orb.
    rewrite u_split_join by auto. by rewrite normalize_ordinary.
  - rewrite (u_join_app slash (n :: names) rel ltac:(done) Hne), u_split_join.
    + rewrite normalize_ordinary; [done|by apply Forall_app].
    + done.
    + by apply Forall_app; split; apply Hslash.
Qed.

Lemma path_join_below names s :
  Forall ordinary names → ordinary s → path_join (at_root names) s = at_root (names ++ [s]).
Proof. intros Hn Hs. unfold path_join. f_equal. by apply (normalize_below names [s]); auto. Qed.

(** *** The walk over a file system at rest *)

Definition fs_port (fs : ustring → outcome Stats) (c : FsCall) (w : unit)
    : outcome (FsAns c) * unit :=
  match c with lstat path => (fs path, w) end.

(** The components of [rest] below [names], one by one: each is fit, up to the first that does
    not exist. *)
Fixpoint components_ok (fs : ustring → outcome Stats) (names rest : list ustring) : Prop :=
  match rest with
  | [] => True
  | s :: rest =>
      fs (at_root (names ++ [s])) = Threw (GuardError "ENOENT") ∨
      ∃ stats, fs (at_root (names ++ [s])) = Returned stats ∧
        component_check (bool_decide (rest = [])) stats = None ∧
        components_ok fs (names ++ [s]) rest
  end.

Lemma walk_components_iff fs names rest :
  Forall ordinary names → Forall ordinary rest →
  final (fs_port fs) (walk_components (at_root names) rest) tt = (Returned tt, tt) ↔
  components_ok fs names rest.
Proof.
  intros Hn Hr. revert names Hn. induction Hr as [|s rest Hs Hr IH]; intros names Hn; [done|].
  cbn [walk_components components_ok]. rewrite path_join_below by done.
  rewrite final_pbind, final_ptry, final_pbind, final_call. cbn [fs_port].
  assert (Hn' : Forall ordinary (names ++ [s])) by (apply Forall_app; split; [done|by apply Forall_singleton]).
  specialize (IH (names ++ [s]) Hn'). setoid_rewrite <- IH.
  destruct (fs _) as [stats|e].
  - destruct (component_check _ stats) eqn:Hc; cbn -[walk_components].
    + split; [done|]. intros [?|(st & [= <-] & ? & _)]; congruence.
    + split; [intros ?; right; by exists stats|].
      intros [?|(st & [= <-] & _ & ?)]; done.
  - cbn -[walk_components]. unfold not_found. case_bool_decide as He; cbn -[walk_components].
    + subst. split; [by left|done].
    + split; [done|]. intros [?|(st & ? & _)]; congruence.
Qed.

(** One component at a time. *)
Lemma components_ok_lookup fs names rest :
  components_ok fs names rest ↔
  ∀ k s, rest !! k = Some s →
    (∃ j, (j ≤ k)%nat ∧
       fs (at_root (names ++ take (S j) rest)) = Threw (GuardError "ENOENT")) ∨
    ∃ stats, fs (at_root (names ++ take (S k) rest)) = Returned stats ∧
      component_check (bool_decide (S k = length rest)) stats = None.
Proof.
  revert names. induction rest as [|s0 rest IH]; intros names; cbn [components_ok]; [done|].
  assert (Hshift : ∀ j, names ++ take (S (S j)) (s0 :: rest) = (names ++ [s0]) ++ take (S j) rest)
    by (intros j; by rewrite <- app_assoc).
  assert (Hlast : bool_decide (rest = []) = bool_decide (1%nat = length (s0 :: rest)))
    by (apply bool_decide_ext; destruct rest; simpl; split; congruence || lia).
  rewrite Hlast. setoid_rewrite IH. split.
  - intros [He|(st & Hf & Hc & Hok)] k s Hk.
    + left. exists 0%nat. split; [lia|done].
    + destruct k as [|k]; [right; by exists st|].
      destruct (Hok k s Hk) as [(j & Hj & He)|(st' & Hf' & Hc')].
      * left. exists (S j). split; [lia|]. by rewrite Hshift.
      * right. exists st'. rewrite Hshift. split; [done|].
        erewrite bool_decide_ext; [exact Hc'|]. simpl. lia.
  - intros Hall. destruct (Hall 0%nat s0 eq_refl) as [(j & Hj & He)|(st & Hf & Hc)].
    + left. by replace j with 0%nat in He by lia.
    + right. exists st. split_and!; [done..|]. intros k s Hk.
      destruct (Hall (S k) s Hk) as [(j & Hj & He)|(st' & Hf' & Hc')].
      * destruct j as [|j]; [exfalso; cbn in He, Hf; congruence|].
        left. exists j. split; [lia|]. by rewrite <- Hshift.
      * right. exists st'. rewrite <- Hshift. split; [done|].
        erewrite bool_decide_ext; [exact Hc'|]. simpl. lia.
Qed.

Lemma at_root_below names rel :
  names ≠ [] → rel ≠ [] → u_starts (at_root names ++ [slash]) (at_root (names ++ rel)) = true.
Proof.
  intros Hn Hr. apply u_starts_spec. exists (u_join slash rel). unfold at_root.
  by rewrite <- u_join_app, <- !app_assoc.
Qed.

Lemma at_root_top s rel :
  ordinary s → u_starts (at_root [] ++ [slash]) (at_root (s :: rel)) = false ∧
  (at_root (s :: rel) =u? at_root []) = false.
Proof.
  intros Hs. pose proof (ordinary_nonempty s Hs). destruct Hs as (_ & _ & Hs).
  destruct s as [|c s]; [done|]. apply not_elem_of_cons in Hs as [Hc _].
  assert (E : ∃ t, at_root ((c :: s) :: rel) = slash :: c :: t)
    by (unfold at_root; destruct rel; eexists; reflexivity).
  destruct E as [t ->]. split.
  - cbn [at_root u_join app u_starts]. rewrite Z.eqb_refl, andb_true_r. by apply Z.eqb_neq.
  - by destruct (ueqb_spec (slash :: c :: t) (at_root [])).
Qed.

(** Exactly when a path of the workspace is resolved, over a file system at rest: the text
    passes the lexical guard, the root directory is no symbolic link and is not the file-system
    root, and walking down from it each component is no symbolic link and a directory -- the
    last one a file or a directory --, up to the first component that does not exist, if any.
    The comparison of the absolute paths that follows the guard never refuses a path, except
    that it refuses every path when the root directory is [/]. *)
Theorem resolved_path_walks fs cwd root raw rootDir p :
  final (fs_port fs) (resolveWorkspacePath cwd root raw rootDir) tt = (Returned p, tt) ↔
  normalizeRelativePath root raw = Safe p ∧
  (∃ stats, fs rootDir = Returned stats ∧ isSymbolicLink stats = false) ∧
  let base := resolve_names cwd rootDir in
  let segments := u_split slash (normalizedRelativePath p) in
  base ≠ [] ∧
  ∀ k s, segments !! k = Some s →
    (∃ j, (j ≤ k)%nat ∧
       fs (at_root (base ++ take (S j) segments)) = Threw (GuardError "ENOENT")) ∨
    ∃ stats, fs (at_root (base ++ take (S k) segments)) = Returned stats ∧
      component_check (bool_decide (S k = length segments)) stats = None.
Proof.
  unfold resolveWorkspacePath.
  destruct (normalizeRelativePath root raw) as [safe|why] eqn:Hn; [|split; [done|by intros []]].
  destruct (normalize_segments root raw safe Hn) as (segments & Hne & Hplain & Hpath).
  assert (Hord : Forall ordinary segments) by (eapply Forall_impl; [exact Hplain|apply plain_ordinary]).
  assert (Hsplit : u_split slash (normalizedRelativePath safe) = segments).
  { rewrite Hpath. apply u_split_join; [done|]. eapply Forall_impl; [exact Hplain|].
    by intros a (_ & ? & _). }
  pose proof (resolve_names_ordinary cwd rootDir) as Hbase.
  rewrite final_pbind, final_call. cbn [fs_port].
  destruct (fs rootDir) as [stats|e] eqn:Hroot;
    [|split; [done|intros (_ & (st & ? & _) & _); congruence]].
  destruct (isSymbolicLink stats) eqn:Hlink;
    [split; [done|intros (_ & (st & [= <-] & ?) & _); congruence]|].
  set (base := resolve_names cwd rootDir) in *.
  assert (Htarget : path_resolve (path_resolve cwd rootDir) (normalizedRelativePath safe) =
                    at_root (base ++ segments)).
  { unfold path_resolve at 1, resolve_names at 1. f_equal.
    assert (Hrel : u_starts [slash] (normalizedRelativePath safe) = false).
    { destruct (u_starts [slash] (normalizedRelativePath safe)) eqn:E; [|done].
      apply u_starts_spec in E as [t E]. rewrite E in Hsplit. cbn [app u_split] in Hsplit.
      rewrite Z.eqb_refl in Hsplit. subst segments. apply Forall_cons in Hplain as [[? _] _]. done. }
    rewrite Hrel, Hpath. by apply normalize_below. }
  rewrite Htarget. change (path_resolve cwd rootDir) with (at_root base).
  destruct (decide (base = [])) as [Hb|Hb].
  - rewrite Hb, app_nil_l. destruct segments as [|s l]; [done|].
    apply Forall_cons in Hord as [Hs _]. destruct (at_root_top s l Hs) as [-> ->].
    split; [done|by intros (_ & _ & ? & _)].
  - rewrite (at_root_below base segments Hb Hne). cbn [negb andb].
    rewrite final_pbind, Hsplit.
    pose proof (walk_components_iff fs base segments Hbase Hord) as Hwalk.
    rewrite (components_ok_lookup fs base segments) in Hwalk.
    destruct (final _ (walk_components _ _) tt) as [[[]|e] []] eqn:Hf.
    + rewrite final_pret. split.
      * intros [= <-]. rewrite Hsplit. split_and!; [done|by eauto|done|by apply Hwalk].
      * by intros ([= <-] & _).
    + split; [done|]. intros ([= <-] & _ & _ & Hok). rewrite Hsplit in Hok.
      by apply Hwalk in Hok.
Qed.
End Workspace.

(** ** Witnesses *)

Section Examples.
#[local] Existing Instance ascii_tables.

Example decoded_path :
  normalizeRelativePath "ws" (u "a/.//%62%C3%A9.txt") =
  Safe {| rootId := "ws"; normalizedRelativePath := u "a/b" ++ 233 :: u ".txt"; kind := "file" |}.
Proof. reflexivity. Qed.

(** The drive check looks at the raw text only. *)
Example drive_after_traversal :
  normalizedRelativePath <$> match normalizeRelativePath "ws" (u "x/../C:/y") with
                             | Safe p => Some p | Blocked _ => None end = Some (u "C:/y").
Proof. reflexivity. Qed.

(** A separator look-alike passes in any text that is in normal form already. *)
Lemma confusable_passes root :
  normalizeRelativePath root (u "a" ++ 8260 :: u "b") =
  Safe {| rootId := root; normalizedRelativePath := u "a" ++ 8260 :: u "b"; kind := "file" |}.
Proof. reflexivity. Qed.

Lemma accepted_path_is_plain_witness :
  ∃ p, normalizeRelativePath "ws" (u "a/.//%62%C3%A9.txt") = Safe p ∧
  normalizeRelativePath "ws" (normalizedRelativePath p) = Safe p.
Proof.
  eexists. split; [reflexivity|].
  destruct (@accepted_path_is_plain ascii_tables ascii_tables_lawful "ws" (u "a/.//%62%C3%A9.txt") _
              eq_refl) as (_ & _ & _ & H).
  exact H.
Defined.
End Examples.
