(* ===== verification/TarArchive.v ===== *)
(** * Tar archives

    [packages/security/src/content/archives.ts]: the inspection of a tar stream, header by header,
    before anything is extracted.  A byte is an integer from 0 to 255; [reject] is the value
    [Rejected]. *)

From S2P Require Import Prelude JsString CodeUnits PathGuard.

Notation bytes := (list Z).

(** [Buffer.toString('utf8')] of Node, which leaves ASCII as it is. *)
Class Utf8 := utf8_text : bytes → ustring.

Definition ascii_byte (b : Z) : Prop := 0 ≤ b < 128.

Class Utf8Laws `{Utf8} : Prop :=
  utf8_ascii l : Forall ascii_byte l → utf8_text l = l.

(** ** Manifests *)

(* @src packages/security/src/content/archives.ts:16-16 ArchiveEntry *)
Inductive entry_type := tar_file | tar_directory.
#[export] Instance entry_type_eq_dec : EqDecision entry_type.
Proof. solve_decision. Defined.

(* @src packages/security/src/content/archives.ts:13-17 ArchiveEntry *)
Record ArchiveEntry := { path : ustring; sizeBytes : Z; type : entry_type }.

(* @src packages/security/src/content/archives.ts:19-25 ArchiveManifest *)
Record ArchiveManifest := {
  entries : list ArchiveEntry;
  totalUncompressedBytes : Z;
  maxDepth_ : Z;
  expansionRatio : Z;
  compressedBytes_ : Z;
}.

(** A result, [reject(reasonCode)], or a loop that has not ended within its fuel. *)
(* @src packages/security/src/content/archives.ts:36-38 archive_result *)
Inductive archive_result (A : Type) :=
  | Accepted (a : A)
  | Rejected (reasonCode : string)
  | Unfinished.
Arguments Accepted {A} a.
Arguments Rejected {A} reasonCode.
Arguments Unfinished {A}.

Definition archive_bind {A B} (r : archive_result A) (f : A → archive_result B)
    : archive_result B :=
  match r with Accepted a => f a | Rejected why => Rejected why | Unfinished => Unfinished end.

(** Goes on when the condition does not hold. *)
Definition unless {A} (bad : bool) (reasonCode : string) (r : archive_result A)
    : archive_result A := if bad then Rejected reasonCode else r.

(** ** Fields of a header *)

(* @src packages/security/src/content/archives.ts:40-40 TAR_BLOCK *)
Definition TAR_BLOCK : nat := 512.

(** [buffer.subarray(offset, offset + length)] *)
Definition subarray (offset length : nat) (b : bytes) : bytes := take length (drop offset b).

(** The bytes before the first NUL. *)
Fixpoint before_nul (b : bytes) : bytes :=
  match b with [] => [] | c :: b => if c =? 0 then [] else c :: before_nul b end.

(** [Number.parseInt(text, 8)], [None] for [NaN]. *)
Definition octal_digit (c : Z) : bool := (48 <=? c) && (c <=? 55).

Fixpoint octal_value (acc : Z) (s : ustring) : Z :=
  match s with
  | c :: s => if octal_digit c then octal_value (8 * acc + (c - 48)) s else acc
  | [] => acc
  end.

Definition parse_digits (s : ustring) : option Z :=
  match s with
  | c :: _ => if octal_digit c then Some (octal_value 0 s) else None
  | [] => None
  end.

Definition parseInt8 (text : ustring) : option Z :=
  match u_trimStart text with
  | 45 :: s => n ← parse_digits s; Some (- n)
  | 43 :: s => parse_digits s
  | s => parse_digits s
  end.

Definition MAX_SAFE_INTEGER : Z := 9007199254740991.
Definition isSafeInteger (n : Z) : bool := (- MAX_SAFE_INTEGER <=? n) && (n <=? MAX_SAFE_INTEGER).

Section Tar.
Context `{Hutf8 : Utf8} `{Htables : Unicode}.

(* @src packages/security/src/content/archives.ts:42-46 readString *)
Definition readString (block : bytes) (offset length : nat) : ustring :=
  utf8_text (before_nul (subarray offset length block)).

(* @src packages/security/src/content/archives.ts:48-53 readOctal *)
Definition readOctal (block : bytes) (offset length : nat) : Z :=
  let text := u_trim (readString block offset length) in
  if bool_decide (text = []) then 0
  else match parseInt8 text with
       | Some parsed => if isSafeInteger parsed && (0 <=? parsed) then parsed else -1
       | None => -1
       end.

(** The sum of the header's bytes, its checksum field read as spaces. *)
Definition byte_sum (b : bytes) : Z := foldr Z.add 0 b.

(* @src packages/security/src/content/archives.ts:83-86 inspectTarArchive *)
Definition header_sum (header : bytes) : Z :=
  byte_sum (take 148 header ++ replicate 8 32 ++ drop 156 header).

(** ** The inspection *)

(** The variables of the loop. *)
(* @src packages/security/src/content/archives.ts:67-73 inspectTarArchive *)
Record Scan := {
  found : list ArchiveEntry;
  sawFirstZeroBlock : bool;
  sawSecondZeroBlock : bool;
  seenNamesLower : list ustring;
  offset : nat;
  total : Z;
  depth : Z;
}.

Definition scan_start : Scan := {|
  found := []; sawFirstZeroBlock := false; sawSecondZeroBlock := false; seenNamesLower := [];
  offset := 0; total := 0; depth := 0
|}.

(** [Math.ceil(size / TAR_BLOCK) * TAR_BLOCK] *)
Definition data_blocks (size : Z) : Z := (size + 511) / 512 * 512.

(* @src packages/security/src/content/archives.ts:112-112 inspectTarArchive *)
Definition full_name (header : bytes) : ustring :=
  let name := readString header 0 100 in
  let prefix := readString header 345 155 in
  if (0 <? length prefix)%nat then prefix ++ slash :: name else name.

(** One entry: its fields are checked, then it is added to the manifest. *)
(* @src packages/security/src/content/archives.ts:101-151 inspectTarArchive *)
Definition inspect_entry (length_ : nat) (budget : ContentBudget) (header : bytes) (s : Scan)
    : archive_result Scan :=
  let size := readOctal header 124 12 in
  let typeflag := nth 156 header 48 in
  let magic := readString header 257 6 in
  unless (negb (u_starts (u "ustar") magic)) "unsupported_magic" $
  unless (bool_decide (typeflag ∈ [76; 75; 120; 103])) "pax_or_longname_unsupported" $
  unless (negb (bool_decide (typeflag ∈ [48; 0; 53]))) "link_or_device_entry" $
  unless (size <? 0) "invalid_entry_size" $
  unless (Z.of_nat length_ <? Z.of_nat (offset s) + 512 + data_blocks size) "truncated_payload" $
  match normalizeRelativePath "archive" (full_name header) with
  | Blocked code => Rejected ("entry_" +s code)
  | Safe safe =>
      let safePath := normalizedRelativePath safe in
      let lower := u_lower safePath in
      unless (bool_decide (lower ∈ seenNamesLower s)) "case_colliding_duplicate" $
      let entryType := if typeflag =? 53 then tar_directory else tar_file in
      unless (bool_decide (entryType = tar_file) && (maxFileBytes budget <? size))
        "file_bytes_budget" $
      let counted := if bool_decide (entryType = tar_directory) then 0 else size in
      let entry := {| path := safePath; sizeBytes := counted; type := entryType |} in
      let total' := total s + counted in
      let depth' := Z.max (depth s) (Z.of_nat (length (u_split slash safePath))) in
      unless (maxTotalBytes budget <? total') "total_bytes_budget" $
      unless (maxFiles budget <? Z.of_nat (length (found s ++ [entry]))) "file_count_budget" $
      unless (maxDepth budget <? depth') "depth_budget" $
      Accepted {| found := found s ++ [entry];
                  sawFirstZeroBlock := sawFirstZeroBlock s;
                  sawSecondZeroBlock := sawSecondZeroBlock s;
                  seenNamesLower := lower :: seenNamesLower s;
                  offset := offset s + 512 + Z.to_nat (data_blocks size);
                  total := total'; depth := depth' |}
  end.

(* @src packages/security/src/content/archives.ts:78-78 inspectTarArchive *)
Definition is_zero_block (header : bytes) : bool :=
  bool_decide (readString header 0 100 = []) && forallb (Z.eqb 0) header.

(* @src packages/security/src/content/archives.ts:89-98 inspectTarArchive *)
Definition zero_block (s : Scan) : Scan * bool :=
  if negb (sawFirstZeroBlock s) then
    ({| found := found s; sawFirstZeroBlock := true; sawSecondZeroBlock := sawSecondZeroBlock s;
        seenNamesLower := seenNamesLower s; offset := offset s + 512;
        total := total s; depth := depth s |}, true)
  else
    ({| found := found s; sawFirstZeroBlock := sawFirstZeroBlock s; sawSecondZeroBlock := true;
        seenNamesLower := seenNamesLower s; offset := offset s + 512;
        total := total s; depth := depth s |}, false).

(* @src packages/security/src/content/archives.ts:75-152 inspectTarArchive *)
Fixpoint scan_headers (fuel : nat) (tarBytes : bytes) (budget : ContentBudget) (s : Scan)
    : archive_result Scan :=
  match fuel with
  | O => Unfinished
  | S fuel =>
      if (offset s + TAR_BLOCK <=? length tarBytes)%nat then
        let header := subarray (offset s) TAR_BLOCK tarBytes in
        if is_zero_block header then
          let '(s, continue) := zero_block s in
          if continue then scan_headers fuel tarBytes budget s else Accepted s
        else
          unless (negb (header_sum header =? readOctal header 148 8)) "header_checksum_mismatch" $
          unless (sawFirstZeroBlock s || sawSecondZeroBlock s) "data_after_terminator" $
          archive_bind (inspect_entry (length tarBytes) budget header s) $
          scan_headers fuel tarBytes budget
      else Accepted s
  end.

(** As many rounds as the stream has blocks, and one to see its end. *)
Definition scan_fuel (tarBytes : bytes) : nat := S (length tarBytes / TAR_BLOCK).

(** The loop over the rest of the stream, block by block. *)
(* @src packages/security/src/content/archives.ts:155-159 inspectTarArchive *)
Definition only_zeros_after (o : nat) (tarBytes : bytes) : bool :=
  forallb (Z.eqb 0) (drop o tarBytes).

(** The quotient of the sizes, rounded to the nearest integer; exact below 2^52 bytes. *)
(* @src packages/security/src/content/archives.ts:161-161 inspectTarArchive *)
Definition rounded_ratio (total compressedBytes : Z) : Z :=
  if 0 <? compressedBytes then (2 * total + compressedBytes) / (2 * compressedBytes) else total.

(* @src packages/security/src/content/archives.ts:59-171 inspectTarArchive *)
Definition inspectTarArchive (tarBytes : bytes) (compressedBytes : Z) (budget : ContentBudget)
    : archive_result ArchiveManifest :=
  unless (negb (length tarBytes mod TAR_BLOCK =? 0)%nat || (length tarBytes <? TAR_BLOCK)%nat)
    "invalid_tar_structure" $
  archive_bind (scan_headers (scan_fuel tarBytes) tarBytes budget scan_start) $ λ s,
  unless (negb (sawFirstZeroBlock s) || negb (sawSecondZeroBlock s)) "missing_terminator" $
  unless (negb (only_zeros_after (offset s) tarBytes)) "data_after_terminator" $
  unless (bool_decide (found s = [])) "empty_archive" $
  unless ((0 <? compressedBytes) && (maxArchiveRatio budget * compressedBytes <? total s))
    "expansion_ratio_budget" $
  Accepted {| entries := found s; totalUncompressedBytes := total s; maxDepth_ := depth s;
              expansionRatio := rounded_ratio (total s) compressedBytes;
              compressedBytes_ := compressedBytes |}.

(** ** Every inspection ends *)

Lemma unless_accepted {A} bad why (r : archive_result A) a :
  unless bad why r = Accepted a ↔ bad = false ∧ r = Accepted a.
Proof. unfold unless. destruct bad; naive_solver. Qed.

Lemma unless_unfinished {A} bad why (r : archive_result A) :
  unless bad why r = Unfinished → r = Unfinished.
Proof. unfold unless. by destruct bad. Qed.

Lemma archive_bind_accepted {A B} (r : archive_result A) (f : A → archive_result B) b :
  archive_bind r f = Accepted b ↔ ∃ a, r = Accepted a ∧ f a = Accepted b.
Proof. destruct r; naive_solver. Qed.

Lemma data_blocks_nonneg size : 0 ≤ size → 0 ≤ data_blocks size.
Proof. intros Hs. unfold data_blocks. pose proof (Z.div_pos (size + 511) 512). lia. Qed.

Lemma inspect_entry_finished len budget header s : inspect_entry len budget header s ≠ Unfinished.
Proof.
  unfold inspect_entry. do 5 (intros Hx%unless_unfinished; revert Hx).
  destruct (normalizeRelativePath _ _); [|done].
  by do 5 (intros Hx%unless_unfinished; revert Hx).
Qed.

(** What an entry that is let through satisfies. *)
Lemma inspect_entry_accepted len budget header s s' :
  inspect_entry len budget header s = Accepted s' →
  let size := readOctal header 124 12 in
  u_starts (u "ustar") (readString header 257 6) = true ∧
  0 ≤ size ∧ Z.of_nat (offset s) + 512 + data_blocks size ≤ Z.of_nat len ∧
  ∃ safe e, normalizeRelativePath "archive" (full_name header) = Safe safe ∧
    path e = normalizedRelativePath safe ∧
    (type e = tar_directory ∧ nth 156 header 48 = 53 ∧ sizeBytes e = 0 ∨
     type e = tar_file ∧ (nth 156 header 48 = 48 ∨ nth 156 header 48 = 0) ∧
       sizeBytes e = size ∧ size ≤ maxFileBytes budget) ∧
    u_lower (path e) ∉ seenNamesLower s ∧
    let total' := total s + sizeBytes e in
    let depth' := Z.max (depth s) (Z.of_nat (length (u_split slash (path e)))) in
    total' ≤ maxTotalBytes budget ∧ Z.of_nat (length (found s ++ [e])) ≤ maxFiles budget ∧
    depth' ≤ maxDepth budget ∧
    s' = {| found := found s ++ [e]; sawFirstZeroBlock := sawFirstZeroBlock s;
            sawSecondZeroBlock := sawSecondZeroBlock s;
            seenNamesLower := u_lower (path e) :: seenNamesLower s;
            offset := offset s + 512 + Z.to_nat (data_blocks size);
            total := total'; depth := depth' |}.
Proof.
  unfold inspect_entry. intros Ha.
  apply unless_accepted in Ha as [Hmagic Ha]. apply unless_accepted in Ha as [_ Ha].
  apply unless_accepted in Ha as [Hflag Ha]. apply unless_accepted in Ha as [Hsize Ha].
  apply unless_accepted in Ha as [Hfits Ha].
  destruct (normalizeRelativePath _ _) as [safe|] eqn:Hpath; [|done].
  apply unless_accepted in Ha as [Hnew Ha]. apply unless_accepted in Ha as [Hfile Ha].
  apply unless_accepted in Ha as [Htotal Ha]. apply unless_accepted in Ha as [Hcount Ha].
  apply unless_accepted in Ha as [Hdepth Ha]. injection Ha as <-.
  apply negb_false_iff in Hmagic, Hflag. apply bool_decide_eq_true in Hflag.
  breflect. split_and!; [done|lia..|].
  destruct (nth 156 header 48 =? 53) eqn:Hd; breflect; cbn in *.
  - eexists safe, {| path := normalizedRelativePath safe; sizeBytes := 0; type := tar_directory |}.
    split_and!; try done; simpl; try lia. by left.
  - eexists safe, {| path := normalizedRelativePath safe;
                     sizeBytes := readOctal header 124 12; type := tar_file |}.
    split_and!; try done; simpl; try lia.
    right. apply Z.ltb_ge in Hfile. split_and!; [done| |done|done].
    apply elem_of_cons in Hflag as [?|Hflag]; [by left|].
    apply elem_of_cons in Hflag as [?|Hflag]; [by right|].
    apply elem_of_cons in Hflag as [?|Hflag]; [done|by apply elem_of_nil in Hflag].
Qed.

Lemma scan_finishes fuel b budget s :
  (offset s ≤ length b)%nat → (length b < offset s + 512 * fuel)%nat →
  scan_headers fuel b budget s ≠ Unfinished.
Proof.
  revert s. induction fuel as [|fuel IH]; intros s Ho Hf; [lia|]. cbn [scan_headers].
  unfold TAR_BLOCK. destruct (offset s + 512 <=? length b)%nat eqn:Hle; [|done].
  apply Nat.leb_le in Hle. destruct (is_zero_block _).
  - unfold zero_block. destruct (negb (sawFirstZeroBlock s)); [|done].
    apply IH; simpl; lia.
  - do 2 (intros Hx%unless_unfinished; revert Hx).
    destruct (inspect_entry _ _ _ _) as [s'| |] eqn:Hi; [|done|].
    + simpl. apply inspect_entry_accepted in Hi as (_ & Hsize & Hfits & safe & e & _ & _ & _ & _ & Hi).
      destruct Hi as (_ & _ & _ & ->). pose proof (data_blocks_nonneg _ Hsize).
      apply IH; simpl; lia.
    + by apply inspect_entry_finished in Hi.
Qed.

(** The fuel of the scan is enough for every stream. *)
Lemma inspection_ends b c budget : inspectTarArchive b c budget ≠ Unfinished.
Proof.
  unfold inspectTarArchive. intros Hu%unless_unfinished.
  destruct (scan_headers _ _ _ _) as [s| |] eqn:Hs; [|done|].
  - simpl in Hu. by do 4 apply unless_unfinished in Hu.
  - apply scan_finishes in Hs; [done|simpl; lia|]. unfold scan_fuel, TAR_BLOCK. simpl offset.
    pose proof (Nat.div_mod_eq (length b) 512). pose proof (Nat.mod_upper_bound (length b) 512). lia.
Qed.

(** ** What an accepted archive is *)

Definition depth_of (e : ArchiveEntry) : Z := Z.of_nat (length (u_split slash (path e))).
Definition sizes (es : list ArchiveEntry) : Z := foldl (λ n e, n + sizeBytes e) 0 es.
Definition deepest (es : list ArchiveEntry) : Z := foldl (λ n e, Z.max n (depth_of e)) 0 es.

(** A header and its payload, and the entry they stand for. *)
Record member_ok (budget : ContentBudget) (e : ArchiveEntry) (m : bytes * bytes) : Prop := {
  member_header : length m.1 = 512%nat;
  member_checksum : header_sum m.1 = readOctal m.1 148 8;
  member_magic : u_starts (u "ustar") (readString m.1 257 6) = true;
  member_path : ∃ safe, normalizeRelativePath "archive" (full_name m.1) = Safe safe ∧
    path e = normalizedRelativePath safe;
  member_type :
    type e = tar_directory ∧ nth 156 m.1 48 = 53 ∧ sizeBytes e = 0 ∨
    type e = tar_file ∧ (nth 156 m.1 48 = 48 ∨ nth 156 m.1 48 = 0) ∧
      sizeBytes e = readOctal m.1 124 12 ∧ sizeBytes e ≤ maxFileBytes budget;
  member_payload : 0 ≤ readOctal m.1 124 12 ∧
    Z.of_nat (length m.2) = data_blocks (readOctal m.1 124 12);
}.

Definition within (budget : ContentBudget) (es : list ArchiveEntry) : Prop :=
  sizes es ≤ maxTotalBytes budget ∧ Z.of_nat (length es) ≤ maxFiles budget ∧
  deepest es ≤ maxDepth budget.

(** The bytes of the members one after the other. *)
Definition laid_out (members : list (bytes * bytes)) : bytes :=
  concat ((λ m, m.1 ++ m.2) <$> members).

Definition zero_blocks (s : Scan) : nat :=
  (if sawFirstZeroBlock s then 1 else 0) + (if sawSecondZeroBlock s then 1 else 0).

Definition zero_bytes (blocks : nat) : bytes := replicate (blocks * 512) 0.
#[local] Arguments zero_bytes : simpl never.

Lemma zero_bytes_S n : zero_bytes (S n) = zero_bytes n ++ zero_bytes 1.
Proof. unfold zero_bytes. rewrite <- replicate_add. f_equal. lia. Qed.

Lemma zero_bytes_O : zero_bytes 0 = [].
Proof. reflexivity. Qed.

(** The state of the scan tells what has been read. *)
Record scan_ok (b : bytes) (budget : ContentBudget) (members : list (bytes * bytes)) (s : Scan)
    : Prop := {
  scan_offset : (offset s ≤ length b)%nat;
  scan_bytes : take (offset s) b = laid_out members ++ zero_bytes (zero_blocks s);
  scan_members : Forall2 (member_ok budget) (found s) members;
  scan_names : seenNamesLower s = rev ((λ e, u_lower (path e)) <$> found s);
  scan_distinct : NoDup (seenNamesLower s);
  scan_total : total s = sizes (found s);
  scan_depth : depth s = deepest (found s);
  scan_budget : found s = [] ∨ within budget (found s);
  scan_order : sawSecondZeroBlock s = true → sawFirstZeroBlock s = true;
}.

Lemma take_more {A} n m (l : list A) : take (n + m) l = take n l ++ take m (drop n l).
Proof.
  revert l. induction n as [|n IH]; intros l; [done|].
  destruct l as [|x l]; simpl; [by rewrite take_nil|]. by rewrite IH.
Qed.

Lemma zero_header header :
  length header = 512%nat → is_zero_block header = true → header = zero_bytes 1.
Proof.
  unfold is_zero_block, zero_bytes. intros Hl [_ Hz]%andb_true_iff. change (1 * 512)%nat with 512%nat. rewrite <- Hl.
  symmetry. apply replicate_as_Forall. split; [done|]. rewrite forallb_true in Hz. apply Forall_forall.
  intros x Hx%Hz. by apply Z.eqb_eq in Hx.
Qed.

Lemma scan_ok_zero b budget members s s' go_on :
  scan_ok b budget members s → (offset s + 512 ≤ length b)%nat →
  is_zero_block (subarray (offset s) TAR_BLOCK b) = true →
  sawSecondZeroBlock s = false → zero_block s = (s', go_on) →
  scan_ok b budget members s' ∧ sawSecondZeroBlock s' = negb go_on ∧
  zero_blocks s' = S (zero_blocks s).
Proof.
  intros Hs Ho Hz H2 E. apply zero_header in Hz;
    [|unfold subarray, TAR_BLOCK; rewrite length_take, length_drop; lia].
  assert (Hb : ∀ k, k = S (zero_blocks s) → take (offset s + 512) b =
                 laid_out members ++ zero_bytes k).
  { intros k ->. rewrite take_more, (scan_bytes _ _ _ _ Hs). unfold subarray, TAR_BLOCK in Hz.
    by rewrite Hz, <- app_assoc, <- zero_bytes_S. }
  unfold zero_block in E. destruct (sawFirstZeroBlock s) eqn:H1; simplify_eq/=.
  - assert (zero_blocks s = 1%nat) by (unfold zero_blocks; by rewrite H1, H2).
    split_and!; [|done|unfold zero_blocks; simpl; by rewrite H1, H2].
    split; simpl; try apply Hs; [done| |done].
    apply Hb. unfold zero_blocks; simpl. by rewrite H1, H2.
  - assert (zero_blocks s = 0%nat) by (unfold zero_blocks; by rewrite H1, H2).
    split_and!; [|done|unfold zero_blocks; simpl; by rewrite H1, H2].
    split; simpl; try apply Hs; [done| |done].
    apply Hb. unfold zero_blocks; simpl. by rewrite H1, H2.
Qed.

Lemma scan_ok_entry b budget members s s' :
  let header := subarray (offset s) TAR_BLOCK b in
  scan_ok b budget members s → (offset s + 512 ≤ length b)%nat →
  header_sum header = readOctal header 148 8 →
  sawFirstZeroBlock s = false → sawSecondZeroBlock s = false →
  inspect_entry (length b) budget header s = Accepted s' →
  ∃ m, scan_ok b budget (members ++ [m]) s' ∧ sawSecondZeroBlock s' = false.
Proof.
  intros header Hs Ho Hsum H1 H2
    (Hmagic & Hsize & Hfits & safe & e & Hsafe & Hpath & Htype & Hnew & Htot & Hcount & Hdeep & ->)
    %inspect_entry_accepted.
  set (size := readOctal header 124 12) in *.
  pose proof (data_blocks_nonneg size Hsize) as Hdata.
  set (n := Z.to_nat (data_blocks size)) in *.
  assert (Hh : length header = 512%nat)
    by (unfold header, subarray, TAR_BLOCK; rewrite length_take, length_drop; lia).
  exists (header, take n (drop (offset s + 512) b)). split; [|done].
  assert (Hz : zero_blocks s = 0%nat) by (unfold zero_blocks; by rewrite H1, H2).
  split; simpl.
  - lia.
  - unfold zero_blocks. simpl. rewrite H1, H2. change (0 + 0)%nat with 0%nat.
    rewrite !take_more, (scan_bytes _ _ _ _ Hs), Hz, zero_bytes_O, !app_nil_r.
    unfold laid_out. rewrite fmap_app, concat_app. simpl. rewrite app_nil_r, <- app_assoc.
    done.
  - apply Forall2_app; [apply Hs|]. constructor; [|constructor].
    split; simpl; try done; [by exists safe| |].
    { destruct Htype as [?|(? & ? & Hb & ?)]; [by left|right; rewrite Hb; tauto]. }
    split; [done|]. rewrite length_take, length_drop. fold size. lia.
  - rewrite fmap_app, rev_app_distr. simpl. by rewrite (scan_names _ _ _ _ Hs).
  - apply NoDup_cons. split; [done|apply Hs].
  - unfold sizes. rewrite foldl_snoc. by rewrite (scan_total _ _ _ _ Hs).
  - unfold deepest. rewrite foldl_snoc. by rewrite (scan_depth _ _ _ _ Hs).
  - right. unfold within, sizes, deepest. rewrite !foldl_snoc.
    rewrite (scan_total _ _ _ _ Hs) in Htot. rewrite (scan_depth _ _ _ _ Hs) in Hdeep. done.
  - by rewrite H2.
Qed.

Lemma scan_headers_ok fuel b budget members s s' :
  scan_ok b budget members s → sawSecondZeroBlock s = false →
  scan_headers fuel b budget s = Accepted s' → ∃ members', scan_ok b budget members' s'.
Proof.
  revert members s. induction fuel as [|fuel IH]; intros members s Hs H2 Ha; [done|].
  cbn [scan_headers] in Ha. unfold TAR_BLOCK in Ha at 1.
  destruct (offset s + 512 <=? length b)%nat eqn:Hle; [|simplify_eq; by eauto].
  apply Nat.leb_le in Hle. destruct (is_zero_block _) eqn:Hz.
  - destruct (zero_block s) as [s1 go_on] eqn:E.
    destruct (scan_ok_zero b budget members s s1 go_on Hs Hle Hz H2 E) as (Hs1 & Hg & _).
    destruct go_on; [by eapply IH|]. simplify_eq. by eauto.
  - apply unless_accepted in Ha as [Hsum Ha]. apply unless_accepted in Ha as [Hzero Ha].
    apply archive_bind_accepted in Ha as (s1 & Hi & Ha). apply orb_false_iff in Hzero as [H1 _].
    apply negb_false_iff, Z.eqb_eq in Hsum.
    destruct (scan_ok_entry b budget members s s1 Hs Hle Hsum H1 H2 Hi) as (m & Hm & H2').
    by eapply IH.
Qed.

Lemma scan_ok_start b budget : scan_ok b budget [] scan_start.
Proof.
  split; simpl; try done; [lia|apply NoDup_nil_2|by left].
Qed.

(* @prop safety 2.72 : inspectTarArchive scan_headers inspect_entry zero_block is_zero_block readOctal readString header_sum full_name Scan ArchiveManifest / accepted_archive_witness *)
(** C8. An accepted archive holds nothing that was not inspected.  Its bytes are exactly the
    headers and payloads of its entries, one after the other, and then at least two blocks of
    zeros; every header has the right checksum and magic and is a file or a directory, every
    entry path passed the path guard, no two differ by case only; and the number of entries, the
    size of each file, the total size, the depth and the expansion of the compressed stream are
    within the budget.  The manifest reports these numbers. *)
Theorem accepted_archive b c budget m :
  inspectTarArchive b c budget = Accepted m →
  ∃ members zeros,
    b = laid_out members ++ replicate zeros 0 ∧ (1024 ≤ zeros)%nat ∧
    Forall2 (member_ok budget) (entries m) members ∧ entries m ≠ [] ∧
    NoDup ((λ e, u_lower (path e)) <$> entries m) ∧ within budget (entries m) ∧
    totalUncompressedBytes m = sizes (entries m) ∧ maxDepth_ m = deepest (entries m) ∧
    (0 < c → totalUncompressedBytes m ≤ maxArchiveRatio budget * c).
Proof.
  unfold inspectTarArchive. intros [_ Ha]%unless_accepted.
  apply archive_bind_accepted in Ha as (s & Hscan & Ha).
  apply unless_accepted in Ha as [Hend Ha]. apply unless_accepted in Ha as [Hrest Ha].
  apply unless_accepted in Ha as [Hsome Ha]. apply unless_accepted in Ha as [Hratio Ha].
  injection Ha as <-. simpl.
  destruct (scan_headers_ok _ _ _ [] _ _ (scan_ok_start b budget) eq_refl Hscan) as [members Hs].
  apply orb_false_iff in Hend as [H1%negb_false_iff H2%negb_false_iff].
  apply bool_decide_eq_false in Hsome. apply negb_false_iff in Hrest.
  assert (Hdrop : drop (offset s) b = replicate (length (drop (offset s) b)) 0).
  { symmetry. apply replicate_as_Forall. split; [done|]. apply Forall_forall. intros x Hx.
    unfold only_zeros_after in Hrest. rewrite forallb_true in Hrest.
    by apply Hrest, Z.eqb_eq in Hx. }
  exists members, (1024 + length (drop (offset s) b))%nat. split_and!; try done; try apply Hs.
  - rewrite <- (take_drop (offset s) b) at 1. rewrite (scan_bytes _ _ _ _ Hs), Hdrop at 1.
    unfold zero_blocks, zero_bytes. by rewrite H1, H2, <- app_assoc, <- replicate_add.
  - lia.
  - pose proof (scan_distinct _ _ _ _ Hs) as Hnd. rewrite (scan_names _ _ _ _ Hs) in Hnd.
    by rewrite <- (Permutation_rev ((λ e, u_lower (path e)) <$> found s)) in Hnd.
  - by destruct (scan_budget _ _ _ _ Hs).
  - intros Hc. apply andb_false_iff in Hratio as [?|Hr]; breflect; lia.
Qed.

(** ** A writer of archives

    The reference the inspection is compared with: the ustar format as the standard gives it, for
    files and directories whose names fit the name field. *)
Record tar_member := { m_name : ustring; m_directory : bool; m_content : bytes }.

Fixpoint octal_digits (width : nat) (n : Z) : bytes :=
  match width with
  | O => []
  | S width => octal_digits width (n / 8) ++ [48 + n mod 8]
  end.

Definition nul_padded (n : nat) (l : bytes) : bytes := l ++ replicate (n - length l) 0.

(** The header before and after its checksum field. *)
Definition ustar_front (m : tar_member) : bytes :=
  nul_padded 100 (m_name m) ++ replicate 24 0 ++
  octal_digits 11 (Z.of_nat (length (m_content m))) ++ [0] ++ replicate 12 0.
Definition ustar_back (m : tar_member) : bytes :=
  [if m_directory m then 53 else 48] ++ replicate 100 0 ++ u "ustar" ++ [0] ++ replicate 249 0.

Definition ustar_header (m : tar_member) : bytes :=
  ustar_front m ++
  (octal_digits 6 (byte_sum (ustar_front m ++ replicate 8 32 ++ ustar_back m)) ++ [0; 32]) ++
  ustar_back m.

Definition ustar_payload (m : tar_member) : bytes :=
  m_content m ++
  replicate (Z.to_nat (data_blocks (Z.of_nat (length (m_content m)))) - length (m_content m)) 0.

Definition ustar_archive (members : list tar_member) : bytes :=
  laid_out ((λ m, (ustar_header m, ustar_payload m)) <$> members) ++ zero_bytes 2.

Definition entry_of (m : tar_member) : ArchiveEntry :=
  if m_directory m then {| path := m_name m; sizeBytes := 0; type := tar_directory |}
  else {| path := m_name m; sizeBytes := Z.of_nat (length (m_content m)); type := tar_file |}.

(** What the format can hold, under a path the guard leaves as it is. *)
Record member_fits (m : tar_member) : Prop := {
  fits_guarded : normalizeRelativePath "archive" (m_name m) =
    Safe {| rootId := "archive"; normalizedRelativePath := m_name m; kind := "file" |};
  fits_name : Forall (λ c, 1 ≤ c < 128) (m_name m) ∧ (length (m_name m) ≤ 100)%nat;
  fits_size : Z.of_nat (length (m_content m)) < 8 ^ 11;
  fits_directory : m_directory m = true → m_content m = [];
}.

(** *** Reading back one field *)

Lemma octal_digits_length w n : length (octal_digits w n) = w.
Proof.
  revert n. induction w as [|w IH]; intros n; [done|].
  cbn [octal_digits]. rewrite length_app, IH. simpl. lia.
Qed.

Lemma octal_digits_digit w n : Forall (λ c, octal_digit c = true) (octal_digits w n).
Proof.
  revert n. induction w as [|w IH]; intros n; [constructor|].
  cbn [octal_digits]. apply Forall_app. split; [done|]. apply Forall_singleton.
  unfold octal_digit. pose proof (Z.mod_pos_bound n 8).
  apply andb_true_iff. split; apply Z.leb_le; lia.
Qed.

Lemma octal_value_app acc a b :
  Forall (λ c, octal_digit c = true) a →
  octal_value acc (a ++ b) = octal_value (octal_value acc a) b.
Proof.
  intros Ha. revert acc. induction Ha as [|c a Hc Ha IH]; intros acc; [done|].
  simpl. by rewrite Hc.
Qed.

Lemma octal_value_digits w n :
  0 ≤ n < 8 ^ Z.of_nat w → octal_value 0 (octal_digits w n) = n.
Proof.
  revert n. induction w as [|w IH]; intros n Hn; [simpl in *; lia|].
  cbn [octal_digits]. rewrite octal_value_app by apply octal_digits_digit.
  rewrite Nat2Z.inj_succ, Z.pow_succ_r in Hn by lia.
  rewrite IH by (split; [by apply Z.div_pos; lia|apply Z.div_lt_upper_bound; lia]).
  cbn [octal_value]. pose proof (Z.mod_pos_bound n 8).
  assert (Hd : octal_digit (48 + n mod 8) = true)
    by (unfold octal_digit; apply andb_true_iff; split; apply Z.leb_le; lia).
  rewrite Hd. pose proof (Z.div_mod n 8). lia.
Qed.

Lemma digit_not_space c : octal_digit c = true → u_space c = false ∧ 0 < c < 128.
Proof.
  unfold octal_digit, u_space. intros [H1%Z.leb_le H2%Z.leb_le]%andb_true_iff.
  split; [|lia]. repeat (apply orb_false_iff; split); try apply Z.eqb_neq; try lia;
    apply andb_false_iff; rewrite ?Z.leb_gt; lia.
Qed.

Lemma trimStart_digits s t :
  Forall (λ c, octal_digit c = true) s → s ≠ [] → u_trimStart (s ++ t) = s ++ t.
Proof.
  intros Hs Hne. destruct Hs as [|c s Hc Hs]; [done|]. simpl.
  by destruct (digit_not_space c Hc) as [-> _].
Qed.

Lemma trim_digits s : Forall (λ c, octal_digit c = true) s → s ≠ [] → u_trim s = s.
Proof.
  intros Hs Hne. unfold u_trim.
  assert (E : u_trimStart s = s) by (rewrite <- (app_nil_r s); by apply trimStart_digits).
  rewrite E. rewrite <- (app_nil_r (rev s)), trimStart_digits, app_nil_r.
  - apply rev_involutive.
  - by apply Forall_rev.
  - intros Hr. apply Hne. by rewrite <- (rev_involutive s), Hr.
Qed.

Lemma before_nul_exact a b : Forall (λ c, 0 < c) a → before_nul (a ++ 0 :: b) = a.
Proof.
  induction 1 as [|c a Hc Ha IH]; [done|]. simpl.
  destruct (c =? 0) eqn:E; breflect; [lia|]. by rewrite IH.
Qed.

Lemma before_nul_full a : Forall (λ c, 0 < c) a → before_nul a = a.
Proof.
  induction 1 as [|c a Hc Ha IH]; [done|]. simpl.
  destruct (c =? 0) eqn:E; breflect; [lia|]. by rewrite IH.
Qed.

Lemma parse_digits_value s :
  Forall (λ c, octal_digit c = true) s → s ≠ [] → parseInt8 s = Some (octal_value 0 s).
Proof.
  intros Hs Hne. unfold parseInt8.
  assert (E : u_trimStart s = s) by (rewrite <- (app_nil_r s); by apply trimStart_digits).
  rewrite E. destruct Hs as [|c l Hc Hl]; [done|].
  assert (Ep : parse_digits (c :: l) = Some (octal_value 0 (c :: l)))
    by (unfold parse_digits; by rewrite Hc).
  rewrite <- Ep. unfold octal_digit in Hc. apply andb_true_iff in Hc as [H1%Z.leb_le H2%Z.leb_le].
  assert (c = 48 ∨ c = 49 ∨ c = 50 ∨ c = 51 ∨ c = 52 ∨ c = 53 ∨ c = 54 ∨ c = 55) as Hcases by lia.
  by destruct_or! Hcases; subst.
Qed.

Context `{Hlaws : !Utf8Laws}.

(** An octal field that ends in a NUL is read back. *)
Lemma readOctal_digits header offset w n rest :
  (0 < w)%nat → 0 ≤ n < 8 ^ Z.of_nat w → n ≤ MAX_SAFE_INTEGER →
  subarray offset (S w + length rest) header = octal_digits w n ++ 0 :: rest →
  readOctal header offset (S w + length rest) = n.
Proof.
  intros Hw Hn Hsafe Hfield. pose proof (octal_digits_digit w n) as Hd.
  assert (Hne : octal_digits w n ≠ [])
    by (intros E; pose proof (octal_digits_length w n) as Hl; rewrite E in Hl; simpl in Hl; lia).
  unfold readOctal, readString. rewrite Hfield, before_nul_exact.
  - rewrite utf8_ascii by (eapply Forall_impl; [exact Hd|]; intros c Hc;
      destruct (digit_not_space c Hc); unfold ascii_byte; lia).
    rewrite trim_digits by done. rewrite bool_decide_eq_false_2 by done.
    rewrite parse_digits_value, octal_value_digits by done. unfold isSafeInteger.
    assert (- MAX_SAFE_INTEGER <=? n = true) as -> by (apply Z.leb_le; unfold MAX_SAFE_INTEGER; lia).
    assert (n <=? MAX_SAFE_INTEGER = true) as -> by by apply Z.leb_le.
    assert (0 <=? n = true) as -> by (apply Z.leb_le; lia). done.
  - eapply Forall_impl; [exact Hd|]. intros c Hc. destruct (digit_not_space c Hc). lia.
Qed.

(** *** Reading back one header *)

#[local] Arguments replicate : simpl never.

Lemma subarray_middle off len (a b c : bytes) :
  length a = off → length b = len → subarray off len (a ++ b ++ c) = b.
Proof.
  intros <- <-. unfold subarray. by rewrite drop_app_length, take_app_length.
Qed.

Lemma subarray_start len (a b : bytes) : length a = len → subarray 0 len (a ++ b) = a.
Proof. intros <-. unfold subarray. by rewrite drop_0, take_app_length. Qed.

Lemma nul_padded_length n l : (length l ≤ n)%nat → length (nul_padded n l) = n.
Proof. intros Hl. unfold nul_padded. rewrite length_app, length_replicate. lia. Qed.

Lemma before_nul_padded n l : Forall (λ c, 0 < c) l → before_nul (nul_padded n l) = l.
Proof.
  intros Hl. unfold nul_padded. destruct (n - length l)%nat as [|k].
  - rewrite app_nil_r. by apply before_nul_full.
  - by apply (before_nul_exact l (replicate k 0)).
Qed.

Section Member.
Context (m : tar_member) (Hfits : member_fits m).

Let size := Z.of_nat (length (m_content m)).

Lemma name_positive : Forall (λ c, 0 < c) (m_name m).
Proof. eapply Forall_impl; [apply (fits_name m Hfits)|]. simpl. lia. Qed.

Lemma name_ascii : Forall ascii_byte (m_name m).
Proof. eapply Forall_impl; [apply (fits_name m Hfits)|]. unfold ascii_byte. simpl. lia. Qed.

Lemma front_length : length (ustar_front m) = 148%nat.
Proof.
  unfold ustar_front. rewrite !length_app, nul_padded_length by apply (fits_name m Hfits).
  rewrite !length_replicate, octal_digits_length. simpl. lia.
Qed.

Lemma back_length : length (ustar_back m) = 356%nat.
Proof. unfold ustar_back. rewrite !length_app, !length_replicate. simpl. lia. Qed.

Lemma header_length : length (ustar_header m) = 512%nat.
Proof.
  unfold ustar_header. rewrite !length_app, front_length, back_length, octal_digits_length.
  simpl. lia.
Qed.

Lemma header_name : readString (ustar_header m) 0 100 = m_name m.
Proof.
  unfold readString, ustar_header, ustar_front. rewrite <- app_assoc.
  rewrite subarray_start by by apply nul_padded_length, (fits_name m Hfits).
  rewrite before_nul_padded by apply name_positive. by rewrite utf8_ascii by apply name_ascii.
Qed.

Lemma header_size : readOctal (ustar_header m) 124 12 = size.
Proof.
  pose proof (fits_size m Hfits) as Hs.
  apply (readOctal_digits _ 124 11 size []); [lia|unfold size; lia|unfold size, MAX_SAFE_INTEGER; lia|].
  unfold ustar_header, ustar_front. rewrite <- !app_assoc, (app_assoc (nul_padded _ _)).
  rewrite (app_assoc (octal_digits 11 _)). apply subarray_middle.
  - rewrite length_app, nul_padded_length, length_replicate by apply (fits_name m Hfits). done.
  - rewrite length_app, octal_digits_length. done.
Qed.

Lemma header_flag : nth 156 (ustar_header m) 48 = if m_directory m then 53 else 48.
Proof.
  unfold ustar_header. rewrite app_assoc, app_nth2; rewrite !length_app, front_length,
    octal_digits_length; [done|simpl; lia].
Qed.

Lemma header_magic : u_starts (u "ustar") (readString (ustar_header m) 257 6) = true.
Proof.
  unfold readString, ustar_header, ustar_back.
  rewrite !app_assoc, <- (app_assoc _ (u "ustar") [0]), <- app_assoc.
  rewrite (subarray_middle 257 6); [|by rewrite !length_app, front_length, octal_digits_length, length_replicate|done].
  change (u "ustar" ++ [0]) with (u "ustar" ++ 0 :: []).
  rewrite before_nul_exact by (by repeat constructor). rewrite utf8_ascii; [done|].
  by repeat constructor.
Qed.

Lemma header_prefix : readString (ustar_header m) 345 155 = [].
Proof.
  unfold readString, ustar_header, ustar_back.
  change 249%nat with (82 + (155 + 12))%nat. rewrite !replicate_add, !app_assoc.
  rewrite <- (app_assoc _ (replicate 155 0) (replicate 12 0)).
  rewrite (subarray_middle 345 155);
    [|by rewrite !length_app, front_length, octal_digits_length, !length_replicate
     |apply length_replicate].
  change (replicate 155 0) with (0 :: replicate 154 0). simpl. by rewrite utf8_ascii by constructor.
Qed.

Lemma header_full_name : full_name (ustar_header m) = m_name m.
Proof. unfold full_name. by rewrite header_name, header_prefix. Qed.

Definition byte (c : Z) : Prop := 0 ≤ c < 256.

Lemma byte_sum_bound l : Forall byte l → 0 ≤ byte_sum l ≤ 255 * Z.of_nat (length l).
Proof.
  induction 1 as [|c l Hc Hl IH]; [done|]. unfold byte in Hc. cbn [byte_sum foldr length].
  unfold byte_sum in IH. lia.
Qed.

Lemma digits_bytes w n : Forall byte (octal_digits w n).
Proof.
  eapply Forall_impl; [apply octal_digits_digit|]. intros c Hc.
  destruct (digit_not_space c Hc). unfold byte. lia.
Qed.

Lemma replicate_bytes n c : byte c → Forall byte (replicate n c).
Proof. intros Hc. by apply Forall_replicate. Qed.

Lemma checked_bytes : Forall byte (ustar_front m ++ replicate 8 32 ++ ustar_back m).
Proof.
  assert (byte 0 ∧ byte 32 ∧ byte 48 ∧ byte 53) as (H0 & H32 & H48 & H53) by (unfold byte; lia).
  unfold ustar_front, nul_padded, ustar_back. rewrite !Forall_app.
  split_and!; try apply replicate_bytes; try apply digits_bytes; try by repeat constructor.
  - eapply Forall_impl; [apply name_ascii|]. unfold ascii_byte, byte. lia.
  - apply Forall_singleton. by destruct (m_directory m).
Qed.

Lemma header_checksum : header_sum (ustar_header m) = readOctal (ustar_header m) 148 8.
Proof.
  set (n := byte_sum (ustar_front m ++ replicate 8 32 ++ ustar_back m)).
  assert (Hsum : header_sum (ustar_header m) = n).
  { unfold header_sum, ustar_header.
    rewrite <- front_length at 1. rewrite take_app_length.
    assert (E : drop 156 (ustar_front m ++ (octal_digits 6 n ++ [0; 32]) ++ ustar_back m) =
                ustar_back m).
    { rewrite app_assoc. replace 156%nat with
        (length (ustar_front m ++ octal_digits 6 n ++ [0; 32]))
        by (rewrite !length_app, front_length, octal_digits_length; done).
      apply drop_app_length. }
    fold n. by rewrite E. }
  rewrite Hsum. symmetry. pose proof (byte_sum_bound _ checked_bytes) as Hn. fold n in Hn.
  rewrite !length_app, front_length, back_length, length_replicate in Hn. simpl in Hn.
  apply (readOctal_digits _ 148 6 n [32]); [lia|simpl; lia|unfold MAX_SAFE_INTEGER; lia|].
  unfold ustar_header. fold n. apply subarray_middle; [apply front_length|].
  rewrite length_app, octal_digits_length. done.
Qed.

Lemma header_not_zero : is_zero_block (ustar_header m) = false.
Proof.
  unfold is_zero_block. apply andb_false_iff. right.
  destruct (forallb (Z.eqb 0) (ustar_header m)) eqn:E; [|done].
  rewrite forallb_true in E. exfalso.
  assert (Hin : 117 ∈ ustar_header m).
  { unfold ustar_header, ustar_back. rewrite !elem_of_app. do 2 right. right. right. left. left. }
  by specialize (E 117 Hin).
Qed.

Lemma payload_length : Z.of_nat (length (ustar_payload m)) = data_blocks size.
Proof.
  unfold ustar_payload. rewrite length_app, length_replicate. fold size.
  assert (size ≤ data_blocks size).
  { unfold data_blocks. pose proof (Z.div_mod (size + 511) 512).
    pose proof (Z.mod_pos_bound (size + 511) 512). lia. }
  lia.
Qed.
End Member.

(** *** Reading back an archive *)

(** The budget allows the member after the entries that were found. *)
Definition allowed_next (budget : ContentBudget) (s : Scan) (m : tar_member) : Prop :=
  u_lower (m_name m) ∉ seenNamesLower s ∧
  (m_directory m = false → Z.of_nat (length (m_content m)) ≤ maxFileBytes budget) ∧
  total s + sizeBytes (entry_of m) ≤ maxTotalBytes budget ∧
  Z.of_nat (length (found s ++ [entry_of m])) ≤ maxFiles budget ∧
  Z.max (depth s) (depth_of (entry_of m)) ≤ maxDepth budget.

Definition after_member (s : Scan) (m : tar_member) : Scan := {|
  found := found s ++ [entry_of m];
  sawFirstZeroBlock := sawFirstZeroBlock s; sawSecondZeroBlock := sawSecondZeroBlock s;
  seenNamesLower := u_lower (m_name m) :: seenNamesLower s;
  offset := offset s + 512 + length (ustar_payload m);
  total := total s + sizeBytes (entry_of m);
  depth := Z.max (depth s) (depth_of (entry_of m))
|}.

Lemma unless_passes {A} bad why (r r' : archive_result A) :
  bad = false → r = r' → unless bad why r = r'.
Proof. by intros -> ->. Qed.

Lemma ltb_false a b : b ≤ a → (a <? b) = false.
Proof. apply Z.ltb_ge. Qed.

Lemma inspect_member len budget s m :
  member_fits m → allowed_next budget s m →
  (offset s + 512 + length (ustar_payload m) ≤ len)%nat →
  inspect_entry len budget (ustar_header m) s = Accepted (after_member s m).
Proof.
  intros Hf (Hnew & Hfile & Htot & Hcount & Hdeep) Hlen. unfold inspect_entry.
  pose proof (payload_length m) as Hpay.
  rewrite header_size, header_flag, header_full_name, header_magic by done.
  apply unless_passes; [done|]. apply unless_passes; [by destruct (m_directory m)|].
  apply unless_passes; [by destruct (m_directory m)|]. apply unless_passes; [apply ltb_false; lia|].
  apply unless_passes; [apply ltb_false; lia|]. rewrite (fits_guarded m Hf).
  unfold after_member, entry_of, depth_of in *. cbn [normalizedRelativePath].
  apply unless_passes; [by apply bool_decide_eq_false_2|].
  destruct (m_directory m) eqn:Hd; cbn in *.
  - apply unless_passes; [done|]. do 3 (apply unless_passes; [by apply ltb_false|]).
    by rewrite <- Hpay, Nat2Z.id.
  - apply unless_passes; [by apply ltb_false, Hfile|].
    do 3 (apply unless_passes; [by apply ltb_false|]). by rewrite <- Hpay, Nat2Z.id.
Qed.

Definition stored (m : tar_member) : bytes * bytes := (ustar_header m, ustar_payload m).

(** The budget allows all members, one after the other. *)
Fixpoint allowed_all (budget : ContentBudget) (s : Scan) (ms : list tar_member) : Prop :=
  match ms with
  | [] => True
  | m :: ms => allowed_next budget s m ∧ allowed_all budget (after_member s m) ms
  end.

Lemma stored_length m :
  member_fits m → length (ustar_header m ++ ustar_payload m) = (512 + length (ustar_payload m))%nat.
Proof. intros Hf. by rewrite length_app, header_length. Qed.

Lemma scan_members_back fuel budget pre ms b s :
  b = pre ++ laid_out (stored <$> ms) ++ zero_bytes 2 → offset s = length pre →
  sawFirstZeroBlock s = false → sawSecondZeroBlock s = false →
  Forall member_fits ms → allowed_all budget s ms → (length ms + 2 ≤ fuel)%nat →
  scan_headers fuel b budget s =
  let s' := foldl after_member s ms in
  Accepted {| found := found s'; sawFirstZeroBlock := true; sawSecondZeroBlock := true;
              seenNamesLower := seenNamesLower s'; offset := length b; total := total s';
              depth := depth s' |}.
Proof.
  intros Hb Ho H1 H2 Hfits. revert fuel pre s Hb Ho H1 H2.
  induction Hfits as [|m ms Hf Hfits IH]; intros fuel pre s Hb Ho H1 H2 Hall Hfuel.
  - destruct fuel as [|[|fuel]]; simpl in Hfuel; [lia..|].
    assert (Hz : is_zero_block (zero_bytes 1) = true).
    { unfold is_zero_block. rewrite andb_true_iff. split; [|reflexivity].
      apply bool_decide_eq_true_2. unfold readString.
      change (before_nul (subarray 0 100 (zero_bytes 1))) with (@nil Z).
      by rewrite utf8_ascii by constructor. }
    assert (Hl : length b = (length pre + 1024)%nat) by (subst b; by rewrite length_app).
    change (laid_out (stored <$> []) ++ zero_bytes 2) with (zero_bytes 1 ++ zero_bytes 1) in Hb.
    assert (B1 : subarray (length pre) 512 b = zero_bytes 1)
      by (rewrite Hb; by apply subarray_middle).
    assert (B2 : subarray (length pre + 512) 512 b = zero_bytes 1).
    { rewrite Hb, app_assoc, <- (app_nil_r (_ ++ zero_bytes 1)), <- app_assoc.
      apply subarray_middle; [by rewrite length_app|done]. }
    assert (E1 : (length pre + 512 <=? length b)%nat = true) by (apply Nat.leb_le; lia).
    assert (E2 : (length pre + 512 + 512 <=? length b)%nat = true) by (apply Nat.leb_le; lia).
    cbn [scan_headers foldl]. unfold TAR_BLOCK. rewrite Ho, E1, B1, Hz.
    unfold zero_block at 1. rewrite H1. cbn [negb offset]. rewrite Ho, E2, B2, Hz.
    unfold zero_block. cbn. do 2 f_equal. lia.
  - destruct fuel as [|fuel]; [simpl in Hfuel; lia|]. destruct Hall as [Hnext Hall].
    assert (Hb' : b = pre ++ ustar_header m ++ ustar_payload m ++ laid_out (stored <$> ms) ++
                      zero_bytes 2)
      by (rewrite Hb; unfold laid_out; simpl; by rewrite <- !app_assoc).
    pose proof (header_length m Hf) as Hh.
    assert (Hl : (length pre + 512 + length (ustar_payload m) ≤ length b)%nat)
      by (rewrite Hb', !length_app, Hh; lia).
    cbn [scan_headers foldl]. unfold TAR_BLOCK.
    assert (E1 : (offset s + 512 <=? length b)%nat = true) by (apply Nat.leb_le; lia).
    assert (B1 : subarray (length pre) 512 b = ustar_header m)
      by (rewrite Hb'; by apply subarray_middle).
    rewrite E1, Ho, B1.
    rewrite header_not_zero, (header_checksum m Hf), Z.eqb_refl, H1, H2. cbn [negb orb unless].
    rewrite inspect_member by (done || by rewrite Ho). cbn [archive_bind].
    apply IH with (pre := pre ++ ustar_header m ++ ustar_payload m); try done.
    + by rewrite Hb', <- !app_assoc.
    + simpl. rewrite !length_app, Hh, Ho. lia.
    + simpl in Hfuel. lia.
Qed.

(** The scan after some members knows their entries. *)
Lemma scanned_members ms :
  let s := foldl after_member scan_start ms in
  found s = entry_of <$> ms ∧ total s = sizes (entry_of <$> ms) ∧
  depth s = deepest (entry_of <$> ms) ∧
  seenNamesLower s = rev ((λ m, u_lower (m_name m)) <$> ms).
Proof.
  induction ms as [|m ms IH] using rev_ind; [done|]. destruct IH as (Hf & Ht & Hd & Hn).
  cbv zeta. rewrite foldl_snoc. cbn [after_member found total depth seenNamesLower].
  rewrite Hf, Ht, Hd, Hn, !fmap_app. unfold sizes, deepest. cbn [fmap list_fmap].
  rewrite !foldl_snoc, rev_app_distr. done.
Qed.

Lemma sizes_app es es' : sizes (es ++ es') = sizes es + sizes es'.
Proof.
  induction es' as [|e es' IH] using rev_ind; [rewrite app_nil_r; unfold sizes at 3; simpl; lia|].
  unfold sizes in *. rewrite app_assoc, !foldl_snoc, IH. lia.
Qed.

Lemma sizes_nonneg ms : 0 ≤ sizes (entry_of <$> ms).
Proof.
  induction ms as [|m ms IH]; [done|]. change (entry_of <$> m :: ms) with ([entry_of m] ++ (entry_of <$> ms)).
  rewrite sizes_app. assert (0 ≤ sizes [entry_of m]); [|lia].
  unfold entry_of. destruct (m_directory m); unfold sizes; simpl; lia.
Qed.

Lemma deepest_app es es' : deepest es ≤ deepest (es ++ es').
Proof.
  induction es' as [|e es' IH] using rev_ind; [rewrite app_nil_r; lia|].
  unfold deepest in *. rewrite app_assoc, foldl_snoc. lia.
Qed.

Lemma within_prefix budget ms ms' :
  within budget (entry_of <$> ms ++ ms') → within budget (entry_of <$> ms).
Proof.
  unfold within. rewrite fmap_app, sizes_app, length_app. intros (Hs & Hc & Hd).
  pose proof (sizes_nonneg ms').
  pose proof (deepest_app (entry_of <$> ms) (entry_of <$> ms')). split_and!; lia.
Qed.

Lemma all_allowed budget ms todo :
  within budget (entry_of <$> ms ++ todo) →
  NoDup ((λ m, u_lower (m_name m)) <$> ms ++ todo) →
  (∀ m, m ∈ todo → m_directory m = false →
     Z.of_nat (length (m_content m)) ≤ maxFileBytes budget) →
  allowed_all budget (foldl after_member scan_start ms) todo.
Proof.
  revert ms. induction todo as [|m todo IH]; intros ms Hw Hnd Hfile; [done|].
  destruct (scanned_members ms) as (Hf & Ht & Hd & Hn). split.
  - rewrite (app_assoc ms [m] todo : ms ++ m :: todo = _) in Hw, Hnd.
    apply within_prefix in Hw as (Hs & Hc & Hdeep).
    rewrite fmap_app in Hs, Hc, Hdeep. unfold allowed_next. rewrite Hf, Ht, Hd, Hn. split_and!.
    + rewrite fmap_app in Hnd. apply NoDup_app in Hnd as [Hnd _]. rewrite fmap_app in Hnd.
      apply NoDup_app in Hnd as (_ & Hdis & _). intros Hin. rewrite rev_elem in Hin.
      by apply (Hdis _ Hin); left.
    + apply Hfile. left.
    + rewrite sizes_app in Hs. done.
    + done.
    + unfold deepest in *. cbn [fmap list_fmap] in Hdeep. by rewrite foldl_snoc in Hdeep.
  - rewrite <- foldl_snoc. apply IH.
    + by rewrite <- app_assoc.
    + by rewrite <- app_assoc.
    + intros m' Hm'. apply Hfile. by right.
Qed.

Lemma laid_out_length ms :
  Forall member_fits ms → ∃ n, length (laid_out (stored <$> ms)) = (512 * (length ms + n))%nat.
Proof.
  induction 1 as [|m ms Hf Hfits [n IH]]; [by exists 0%nat|].
  exists (n + Z.to_nat ((Z.of_nat (length (m_content m)) + 511) / 512))%nat.
  unfold laid_out in *. cbn [fmap list_fmap concat stored fst snd]. rewrite length_app, IH.
  rewrite stored_length by done. pose proof (payload_length m) as Hp. unfold data_blocks in Hp.
  pose proof (Z.div_pos (Z.of_nat (length (m_content m)) + 511) 512). simpl length. lia.
Qed.

(** What a standard tar writer packs is read back exactly: for any files and directories whose
    names the guard leaves as they are and that fit the ustar format, no two of which differ by
    case only, and a budget that covers their number, sizes, depth and expansion, the inspection
    of the archive accepts, and its manifest lists these members in order, with their sizes, the
    total, the greatest depth and the rounded ratio. *)
Theorem archive_roundtrip ms c budget :
  ms ≠ [] → Forall member_fits ms → within budget (entry_of <$> ms) →
  NoDup ((λ m, u_lower (m_name m)) <$> ms) →
  (∀ m, m ∈ ms → m_directory m = false →
     Z.of_nat (length (m_content m)) ≤ maxFileBytes budget) →
  (0 < c → sizes (entry_of <$> ms) ≤ maxArchiveRatio budget * c) →
  inspectTarArchive (ustar_archive ms) c budget =
  Accepted {| entries := entry_of <$> ms; totalUncompressedBytes := sizes (entry_of <$> ms);
              maxDepth_ := deepest (entry_of <$> ms);
              expansionRatio := rounded_ratio (sizes (entry_of <$> ms)) c;
              compressedBytes_ := c |}.
Proof.
  intros Hne Hfits Hwithin Hnd Hfile Hratio. unfold inspectTarArchive.
  set (b := ustar_archive ms).
  destruct (laid_out_length ms Hfits) as [n Hl].
  assert (Hlen : length b = (512 * (length ms + n + 2))%nat).
  { unfold b, ustar_archive. rewrite length_app. change (length (zero_bytes 2)) with 1024%nat.
    fold stored. rewrite Hl. lia. }
  apply unless_passes.
  { unfold TAR_BLOCK. rewrite Hlen, Nat.mul_comm, Nat.Div0.mod_mul. simpl. apply Nat.ltb_ge. lia. }
  rewrite (scan_members_back _ budget [] ms b scan_start eq_refl eq_refl eq_refl eq_refl Hfits).
  - destruct (scanned_members ms) as (Hf & Ht & Hd & _). cbn [archive_bind]. simpl.
    rewrite Hf, Ht, Hd. unfold only_zeros_after. rewrite drop_all. simpl.
    apply unless_passes; [by rewrite bool_decide_eq_false; intros ?%fmap_nil_inv|].
    apply unless_passes; [|done]. apply andb_false_iff.
    destruct (0 <? c) eqn:Hc; [right; apply Z.ltb_lt in Hc; apply ltb_false; lia|by left].
  - by apply (all_allowed budget []).
  - unfold scan_fuel, TAR_BLOCK. rewrite Hlen, Nat.mul_comm, Nat.div_mul by done. lia.
Qed.
End Tar.

(** ** Witnesses *)

Section Examples.
#[local] Existing Instance ascii_tables.
#[local] Instance plain_text : Utf8 := λ b, b.

Definition two_members : list tar_member :=
  [{| m_name := u "src"; m_directory := true; m_content := [] |};
   {| m_name := u "src/a.ts"; m_directory := false; m_content := [65; 10] |}].

Lemma two_members_fit : Forall member_fits two_members.
Proof.
  repeat constructor; try reflexivity; try done; simpl; try lia; repeat constructor; lia.
Qed.

Lemma plain_text_lawful : Utf8Laws.
Proof. by intros l. Qed.

Lemma archive_roundtrip_witness :
  entries <$> match inspectTarArchive (ustar_archive two_members) 100 DEFAULT_BUDGET with
              | Accepted m => Some m | _ => None end = Some (entry_of <$> two_members).
Proof.
  rewrite (@archive_roundtrip plain_text ascii_tables plain_text_lawful two_members 100
             DEFAULT_BUDGET).
  - reflexivity.
  - discriminate.
  - apply two_members_fit.
  - unfold within. vm_compute. split_and!; discriminate.
  - apply NoDup_cons. split; [|apply NoDup_singleton].
    intros H%list_elem_of_singleton. discriminate H.
  - intros m Hm. in_cases Hm; subst m; vm_compute; discriminate.
  - intros _. vm_compute. discriminate.
Defined.

Lemma accepted_archive_witness :
  ∃ m, inspectTarArchive (ustar_archive two_members) 100 DEFAULT_BUDGET = Accepted m ∧
  entries m ≠ [].
Proof.
  destruct (inspectTarArchive (ustar_archive two_members) 100 DEFAULT_BUDGET) as [m| |] eqn:E.
  - exists m. split; [reflexivity|].
    destruct (@accepted_archive plain_text ascii_tables (ustar_archive two_members) 100
                DEFAULT_BUDGET m E) as (ms & z & _ & _ & _ & H & _). exact H.
  - exfalso. vm_compute in E. discriminate E.
  - exfalso. vm_compute in E. discriminate E.
Defined.
End Examples.
