(* ===== verification/Patches.v ===== *)
(** * Patches

    [packages/security/src/content/patches.ts]: the parser of untrusted unified diffs and the
    validation of what it parsed against the path guard, the protected prefixes and the budget.
    The lines still to read stand for the index into the array of lines. *)

From S2P Require Import Prelude JsString CodeUnits PathGuard.

(** A value, a throw of [PATCH_REJECTED] or of [PATH_ACCESS_BLOCKED] with its reason, or a loop
    that has not ended within its fuel. *)
(* @src packages/security/src/content/patches.ts:53-55 patch_result *)
Inductive patch_result (A : Type) :=
  | Patched (a : A)
  | PatchRejected (reasonCode : string)
  | PathRefused (reasonCode : string)
  | Endless.
Arguments Patched {A} a.
Arguments PatchRejected {A} reasonCode.
Arguments PathRefused {A} reasonCode.
Arguments Endless {A}.

Definition patch_bind {A B} (r : patch_result A) (f : A → patch_result B) : patch_result B :=
  match r with
  | Patched a => f a
  | PatchRejected why => PatchRejected why
  | PathRefused why => PathRefused why
  | Endless => Endless
  end.
Notation "'let!' x ':=' r 'in' f" := (patch_bind r (λ x, f))
  (at level 100, x binder, r at next level, f at level 200, right associativity) : js_scope.

Definition reject_if {A} (bad : bool) (reasonCode : string) (r : patch_result A)
    : patch_result A := if bad then PatchRejected reasonCode else r.

(** ** Data *)

(* @src packages/security/src/content/patches.ts:19-19 PatchOperationKind *)
Inductive PatchOperationKind := op_create | op_update | op_delete.
#[export] Instance PatchOperationKind_eq_dec : EqDecision PatchOperationKind.
Proof. solve_decision. Defined.

(* @src packages/security/src/content/patches.ts:21-27 PatchOperation *)
Record PatchOperation := {
  kind : PatchOperationKind;
  targetPath : ustring;
  op_hunks : Z;
  op_addedLines : Z;
  op_removedLines : Z;
}.

(* @src packages/security/src/content/patches.ts:29-33 PathDecision *)
Record PathDecision := { decided_path : ustring; allowed : bool; reasonCode : option string }.

(* @src packages/security/src/content/patches.ts:35-42 PatchValidationShape *)
Record PatchValidationShape := {
  inputDigest : string;
  operations : list PatchOperation;
  pathDecisions : list PathDecision;
  totalAddedLines : Z;
  totalRemovedLines : Z;
}.

(** The limits of a [Partial<ContentBudget>] that the validation reads. *)
Record PatchBudget := {
  budget_maxTotalBytes : option Z;
  budget_maxLines : option Z;
  budget_maxPatchFiles : option Z;
  budget_maxPatchHunks : option Z;
}.

(* @src packages/security/src/content/patches.ts:44-51 PatchValidationContext *)
Record PatchValidationContext := {
  ctx_rootId : string;
  protectedPrefixes : option (list ustring);
  allowBinary : option bool;
  allowModeChanges : option bool;
  ctx_budget : option PatchBudget;
}.

(* @src packages/security/src/content/patches.ts:66-77 ParsedBlock *)
Record ParsedBlock := {
  gitOldPath : option ustring;
  gitNewPath : option ustring;
  oldPath : option ustring;
  newPath : option ustring;
  renameFrom : option ustring;
  renameTo : option ustring;
  hasModeChange : bool;
  hunks : list (Z * Z);
  addedLines : Z;
  removedLines : Z;
}.

(** ** Text *)

(** The last occurrence of [pat]: what precedes and what follows it. *)
Fixpoint last_split (pat s : ustring) : option (ustring * ustring) :=
  match s with
  | [] => if bool_decide (pat = []) then Some ([], []) else None
  | c :: s' =>
      match last_split pat s' with
      | Some (a, b) => Some (c :: a, b)
      | None => if u_starts pat s then Some ([], drop (length pat) s) else None
      end
  end.

(** [value.replace(/^pre/, '')] *)
Definition strip_start (pre s : ustring) : ustring :=
  if u_starts pre s then drop (length pre) s else s.

(** The line terminators, which [.] does not match. *)
Definition line_end (c : Z) : bool := (c =? 10) || (c =? 13) || (c =? 8232) || (c =? 8233).

(** [value.replace(/\t.*$/, '')] *)
Fixpoint cut_tab (s : ustring) : ustring :=
  match s with
  | [] => []
  | c :: s' => if (c =? 9) && negb (some_unit line_end s') then [] else c :: cut_tab s'
  end.

(* @src packages/security/src/content/patches.ts:235-237 stripPrefix *)
Definition stripPrefix (value : ustring) : ustring :=
  cut_tab (strip_start (u "b/") (strip_start (u "a/") value)).

Definition doublequote : Z := 34.

(* @src packages/security/src/content/patches.ts:60-62 quoted_path *)
Definition quoted_path (value : ustring) : bool := u_starts [doublequote] value.

Definition u_digit (c : Z) : bool := (48 <=? c) && (c <=? 57).

(** [(\d+)]: the number and the rest. *)
Fixpoint digit_run (acc : Z) (s : ustring) : Z * ustring :=
  match s with
  | c :: s' => if u_digit c then digit_run (10 * acc + (c - 48)) s' else (acc, s)
  | [] => (acc, [])
  end.
Definition take_number (s : ustring) : option (Z * ustring) :=
  match s with c :: _ => if u_digit c then Some (digit_run 0 s) else None | [] => None end.

(** [(\d+)(?:,(\d+))?] *)
Definition take_range (s : ustring) : option (Z * option Z * ustring) :=
  '(start, s) ← take_number s;
  match s with
  | 44 :: s' =>
      match take_number s' with
      | Some (count, s') => Some (start, Some count, s')
      | None => Some (start, None, s)
      end
  | _ => Some (start, None, s)
  end.

Definition expect (pat s : ustring) : option ustring :=
  if u_starts pat s then Some (drop (length pat) s) else None.

(** [/^@@ -(\d+)(?:,(\d+))? \+(\d+)(?:,(\d+))? @@/] *)
(* @src packages/security/src/content/patches.ts:64-64 HUNK_HEADER *)
Definition HUNK_HEADER (line : ustring) : option (Z * option Z * Z * option Z) :=
  s ← expect (u "@@ -") line;
  '(oldStart, oldCount, s) ← take_range s;
  s ← expect (u " +") s;
  '(newStart, newCount, s) ← take_range s;
  _ ← expect (u " @@") s;
  Some (oldStart, oldCount, newStart, newCount).

(** ** The parser *)

(** The names of the envelope line [diff --git a/... b/...]. *)
(* @src packages/security/src/content/patches.ts:92-101 parseUnifiedDiff *)
Definition parse_envelope (line : ustring) : patch_result (ustring * ustring) :=
  let remainder := drop (length (u "diff --git ")) line in
  reject_if (has doublequote remainder) "quoted_path_unsupported" $
  match last_split (u " b/") remainder with
  | None | Some ([], _) => PatchRejected "envelope_unparsable"
  | Some (before, after) =>
      let rawGitOld := strip_start (u "a/") before in
      let rawGitNew := strip_start (u "b/") after in
      reject_if (quoted_path rawGitOld) "quoted_path_unsupported" $
      reject_if (quoted_path rawGitNew) "quoted_path_unsupported" $
      Patched (rawGitOld, rawGitNew)
  end.

Record Metadata := { meta_from : option ustring; meta_to : option ustring; meta_mode : bool }.

Definition no_metadata : Metadata := {| meta_from := None; meta_to := None; meta_mode := false |}.

Definition starts_one_of (pres : list string) (line : ustring) : bool :=
  existsb (λ pre, u_starts (u pre) line) pres.

(** The lines between the envelope and the file headers or the first hunk. *)
(* @src packages/security/src/content/patches.ts:111-156 parseUnifiedDiff *)
Fixpoint parse_metadata (lines : list ustring) (m : Metadata)
    : patch_result (Metadata * list ustring) :=
  match lines with
  | [] => Patched (m, [])
  | line :: rest =>
      if u_starts (u "--- ") line then Patched (m, lines)
      else if starts_one_of ["new file mode"; "deleted file mode"] line then parse_metadata rest m
      else if starts_one_of ["old mode "; "new mode "] line then
        parse_metadata rest {| meta_from := meta_from m; meta_to := meta_to m; meta_mode := true |}
      else if u_starts (u "rename from ") line then
        parse_metadata rest {| meta_from := Some (u_trim (drop 12 line)); meta_to := meta_to m;
                               meta_mode := meta_mode m |}
      else if u_starts (u "rename to ") line then
        parse_metadata rest {| meta_from := meta_from m; meta_to := Some (u_trim (drop 10 line));
                               meta_mode := meta_mode m |}
      else if starts_one_of ["similarity index "; "dissimilarity index "] line
      then parse_metadata rest m
      else if u_starts (u "index ") line then parse_metadata rest m
      else if starts_one_of ["Binary files "; "GIT binary patch"] line
      then PatchRejected "binary_patch_unsupported"
      else if u_starts (u "@") line then Patched (m, lines)
      else PatchRejected "unexpected_record"
  end.

(** A line [--- name] or [+++ name], when there is one. *)
(* @src packages/security/src/content/patches.ts:159-168 parseUnifiedDiff *)
Definition parse_file_header (mark : string) (lines : list ustring)
    : patch_result (option ustring * list ustring) :=
  match lines with
  | line :: rest =>
      if u_starts (u mark) line then
        let value := u_trim (drop 4 line) in
        if value =u? u "/dev/null" then Patched (None, rest)
        else reject_if (quoted_path value) "quoted_path_unsupported" $
             Patched (Some (stripPrefix value), rest)
      else Patched (None, lines)
  | [] => Patched (None, [])
  end.

(** The counters of a block and the line counts of the hunk at hand. *)
Record Counts := { consumedOld : Z; consumedNew : Z; added : Z; removed : Z }.

(* @src packages/security/src/content/patches.ts:198-209 parseUnifiedDiff *)
Definition count_line (line : ustring) (n : Counts) : option Counts :=
  if u_starts (u "+") line then
    Some {| consumedOld := consumedOld n; consumedNew := consumedNew n + 1;
            added := added n + 1; removed := removed n |}
  else if u_starts (u "-") line then
    Some {| consumedOld := consumedOld n + 1; consumedNew := consumedNew n;
            added := added n; removed := removed n + 1 |}
  else if u_starts (u " ") line then
    Some {| consumedOld := consumedOld n + 1; consumedNew := consumedNew n + 1;
            added := added n; removed := removed n |}
  else None.

(* @src packages/security/src/content/patches.ts:191-211 parseUnifiedDiff *)
Fixpoint parse_hunk_body (oldCount newCount : Z) (lines : list ustring) (n : Counts)
    : patch_result (Counts * list ustring) :=
  if (consumedOld n <? oldCount) || (consumedNew n <? newCount) then
    match lines with
    | [] => PatchRejected "truncated_hunk"
    | line :: rest =>
        if u_starts (u "\ No newline") line then parse_hunk_body oldCount newCount rest n
        else match count_line line n with
             | Some n => parse_hunk_body oldCount newCount rest n
             | None => PatchRejected "bad_hunk_line"
             end
    end
  else Patched (n, lines).

Definition MAX_SAFE_INTEGER : Z := 9007199254740991.

(* @src packages/security/src/content/patches.ts:174-213 parseUnifiedDiff *)
Fixpoint parse_hunks (fuel : nat) (lines : list ustring) (hunks : list (Z * Z))
    (addedLines removedLines : Z) : patch_result (list (Z * Z) * Z * Z * list ustring) :=
  match fuel with
  | O => Endless
  | S fuel =>
      match lines with
      | [] => Patched (hunks, addedLines, removedLines, [])
      | candidate :: rest =>
          if u_starts (u "diff --git ") candidate
          then Patched (hunks, addedLines, removedLines, lines)
          else match HUNK_HEADER candidate with
               | None => PatchRejected "unexpected_record_outside_hunk"
               | Some (oldStart, oldCountRaw, newStart, newCountRaw) =>
                   let oldCount := oldCountRaw ?? 1 in
                   let newCount := newCountRaw ?? 1 in
                   reject_if ((MAX_SAFE_INTEGER <? oldStart) || (MAX_SAFE_INTEGER <? newStart))
                     "bad_hunk_range" $
                   let! '(n, rest) := parse_hunk_body oldCount newCount rest
                     {| consumedOld := 0; consumedNew := 0;
                        added := addedLines; removed := removedLines |} in
                   parse_hunks fuel rest (hunks ++ [(oldCount, newCount)]) (added n) (removed n)
               end
      end
  end.

Definition not_dev_null (p : ustring) : option ustring :=
  if p =u? u "/dev/null" then None else Some p.

(** One block: its envelope, metadata, file headers and hunks. *)
(* @src packages/security/src/content/patches.ts:90-226 parseUnifiedDiff *)
Definition parse_block (fuel : nat) (line : ustring) (rest : list ustring)
    : patch_result (ParsedBlock * list ustring) :=
  reject_if (negb (u_starts (u "diff --git ") line)) "unexpected_record" $
  let! '(rawGitOld, rawGitNew) := parse_envelope line in
  let! '(m, rest) := parse_metadata rest no_metadata in
  let! '(old, rest) := parse_file_header "--- " rest in
  let! '(new, rest) := parse_file_header "+++ " rest in
  let! '(hs, a, r, rest) := parse_hunks fuel rest [] 0 0 in
  Patched ({| gitOldPath := not_dev_null rawGitOld; gitNewPath := not_dev_null rawGitNew;
              oldPath := old; newPath := new;
              renameFrom := meta_from m; renameTo := meta_to m;
              hasModeChange := meta_mode m; hunks := hs; addedLines := a; removedLines := r |},
           rest).

(* @src packages/security/src/content/patches.ts:89-227 parseUnifiedDiff *)
Fixpoint parse_blocks (fuel : nat) (lines : list ustring) : patch_result (list ParsedBlock) :=
  match fuel with
  | O => Endless
  | S fuel =>
      match lines with
      | [] => Patched []
      | line :: rest =>
          let! '(block, rest) := parse_block (S (length rest)) line rest in
          let! blocks := parse_blocks fuel rest in
          Patched (block :: blocks)
      end
  end.

Definition newline : Z := 10.

(** The lines of the text; an empty one after the last line end does not count. *)
(* @src packages/security/src/content/patches.ts:84-85 parseUnifiedDiff *)
Definition diff_lines (text : ustring) : list ustring :=
  let lines := u_split newline text in
  if bool_decide (last lines = Some []) then removelast lines else lines.

(* @src packages/security/src/content/patches.ts:83-235 parseUnifiedDiff *)
Definition parseUnifiedDiff (text : ustring) : patch_result (list ParsedBlock) :=
  let lines := diff_lines text in parse_blocks (S (length lines)) lines.

(** ** The validation *)

(* @src packages/security/src/content/patches.ts:240-244 classifyOperation *)
Definition classifyOperation (diff : ParsedBlock) : PatchOperationKind :=
  match oldPath diff, newPath diff with
  | None, Some _ => op_create
  | Some _, None => op_delete
  | _, _ => op_update
  end.

(** [Buffer.byteLength(text, 'utf8')]; a surrogate without its partner becomes U+FFFD. *)
Fixpoint byteLength (s : ustring) : Z :=
  match s with
  | [] => 0
  | c :: s' =>
      let pair := match s' with
                  | d :: _ => (55296 <=? c) && (c <=? 56319) && (56320 <=? d) && (d <=? 57343)
                  | [] => false
                  end in
      (if c <? 128 then 1 else if c <? 2048 then 2 else if pair then 1 else 3) + byteLength s'
  end.

(** [/^pat/m.test(text)], asked at the start of a line or not. *)
Fixpoint line_starts_with (pat : ustring) (at_start : bool) (s : ustring) : bool :=
  (at_start && u_starts pat s) ||
  match s with [] => false | c :: s => line_starts_with pat (line_end c) s end.

Section Validate.
Context `{Htables : Unicode} (digest : ustring → string).

(** A name through the path guard; an absent one stays absent. *)
(* @src packages/security/src/content/patches.ts:321-324 validatePatch *)
Definition normalizeOrNull (root : string) (value : option ustring)
    : patch_result (option ustring) :=
  match value with
  | None => Patched None
  | Some value =>
      match normalizeRelativePath root value with
      | Safe safe => Patched (Some (normalizedRelativePath safe))
      | Blocked why => PathRefused why
      end
  end.

Definition protected_by (normalized prefix : ustring) : bool :=
  (normalized =u? prefix) || u_starts (prefix ++ [slash]) normalized.

(* @src packages/security/src/content/patches.ts:283-306 validatePatch *)
Definition checkPath (context : PatchValidationContext) (touched : ustring)
    : patch_result PathDecision :=
  match normalizeRelativePath (ctx_rootId context) touched with
  | Blocked why => PatchRejected ("path_" +s why)
  | Safe safe =>
      let normalized := normalizedRelativePath safe in
      reject_if ((normalized =u? u ".git") || u_starts (u ".git/") normalized)
        "git_internals_forbidden" $
      reject_if (existsb (protected_by normalized) (protectedPrefixes context ?? []))
        "protected_path" $
      Patched {| decided_path := normalized; allowed := true; reasonCode := None |}
  end.

Fixpoint check_targets (context : PatchValidationContext) (targets : list ustring)
    : patch_result (list PathDecision) :=
  match targets with
  | [] => Patched []
  | target :: targets =>
      let! d := checkPath context target in
      let! ds := check_targets context targets in
      Patched (d :: ds)
  end.

(** The six normalised names of a block. *)
Record Names := {
  normGitOld : option ustring; normGitNew : option ustring;
  normHeaderOld : option ustring; normHeaderNew : option ustring;
  normRenameFrom : option ustring; normRenameTo : option ustring;
}.

(* @src packages/security/src/content/patches.ts:325-330 validatePatch *)
Definition normalize_names (root : string) (diff : ParsedBlock) : patch_result Names :=
  let! a := normalizeOrNull root (gitOldPath diff) in
  let! b := normalizeOrNull root (gitNewPath diff) in
  let! c := normalizeOrNull root (oldPath diff) in
  let! d := normalizeOrNull root (newPath diff) in
  let! e := normalizeOrNull root (renameFrom diff) in
  let! f := normalizeOrNull root (renameTo diff) in
  Patched {| normGitOld := a; normGitNew := b; normHeaderOld := c; normHeaderNew := d;
             normRenameFrom := e; normRenameTo := f |}.

Definition differs (a b : option ustring) : bool :=
  match a, b with Some a, Some b => negb (a =u? b) | _, _ => false end.

(** The envelope and the file headers disagree. *)
(* @src packages/security/src/content/patches.ts:335-342 validatePatch *)
Definition inconsistent_headers (n : Names) : bool :=
  differs (normGitOld n) (normHeaderOld n) || differs (normGitNew n) (normHeaderNew n) ||
  (bool_decide (is_Some (normHeaderOld n)) && negb (bool_decide (is_Some (normGitOld n)))) ||
  (bool_decide (is_Some (normHeaderNew n)) && negb (bool_decide (is_Some (normGitNew n)))).

(** The comparison with [undefined] never fails: an absent name is [null]. *)
(* @src packages/security/src/content/patches.ts:344-349 validatePatch *)
Definition isPureRename (diff : ParsedBlock) (n : Names) : bool :=
  bool_decide (hunks diff = []) && bool_decide (normGitOld n = normRenameFrom n) &&
  bool_decide (normGitNew n = normRenameTo n).

(** The names a block mentions, each once, in the order of the source. *)
(* @src packages/security/src/content/patches.ts:360-369 validatePatch *)
Definition block_targets (n : Names) : list ustring :=
  dedup (omap id [normGitOld n; normGitNew n; normHeaderOld n; normHeaderNew n;
                  normRenameFrom n; normRenameTo n]).

(** The running totals of the validation. *)
Record Tally := { totalHunks : Z; totalAdded : Z; totalRemoved : Z }.

Definition op_kind_of (diff : ParsedBlock) (n : Names) : PatchOperationKind :=
  if isPureRename diff n then op_update else classifyOperation diff.

(* @src packages/security/src/content/patches.ts:309-381 validatePatch *)
Definition validate_block (context : PatchValidationContext) (maxPatchHunks : Z)
    (diff : ParsedBlock) (t : Tally)
    : patch_result (PatchOperation * list PathDecision * Tally) :=
  reject_if (hasModeChange diff && negb (allowModeChanges context ?? false))
    "mode_change_unauthorized" $
  let t := {| totalHunks := totalHunks t + Z.of_nat (length (hunks diff));
              totalAdded := totalAdded t + addedLines diff;
              totalRemoved := totalRemoved t + removedLines diff |} in
  reject_if (maxPatchHunks <? totalHunks t) "budget_exceeded" $
  let! n := normalize_names (ctx_rootId context) diff in
  reject_if (inconsistent_headers n) "inconsistent_headers" $
  let operationKind := op_kind_of diff n in
  reject_if (negb (isPureRename diff n) && negb (bool_decide (operationKind = op_delete)) &&
             bool_decide (hunks diff = [])) "operation_requires_hunk" $
  let! decisions := check_targets context (block_targets n) in
  let primaryTarget :=
    hd [] (omap id [normGitNew n; normHeaderNew n; normGitOld n; normHeaderOld n]) in
  Patched ({| kind := operationKind; targetPath := primaryTarget;
              op_hunks := Z.of_nat (length (hunks diff));
              op_addedLines := addedLines diff; op_removedLines := removedLines diff |},
           decisions, t).

Fixpoint validate_blocks (context : PatchValidationContext) (maxPatchHunks : Z)
    (blocks : list ParsedBlock) (t : Tally)
    : patch_result (list PatchOperation * list PathDecision * Tally) :=
  match blocks with
  | [] => Patched ([], [], t)
  | diff :: blocks =>
      let! '(op, ds, t) := validate_block context maxPatchHunks diff t in
      let! '(ops, ds', t) := validate_blocks context maxPatchHunks blocks t in
      Patched (op :: ops, ds ++ ds', t)
  end.

Definition limit (field : PatchBudget → option Z) (fallback : Z)
    (context : PatchValidationContext) : Z :=
  from_option id fallback (b ← ctx_budget context; field b).

(* @src packages/security/src/content/patches.ts:251-402 validatePatch *)
Definition validatePatch (patchText : ustring) (context : PatchValidationContext)
    : patch_result PatchValidationShape :=
  reject_if (limit budget_maxTotalBytes 50000000 context <? byteLength patchText)
    "budget_exceeded" $
  reject_if (line_starts_with (u "GIT binary patch") true patchText &&
             negb (allowBinary context ?? false)) "binary_patch_unsupported" $
  let! blocks := parseUnifiedDiff patchText in
  reject_if (bool_decide (length blocks = 0%nat)) "no_operations_parsed" $
  reject_if (limit budget_maxPatchFiles 100 context <? Z.of_nat (length blocks))
    "budget_exceeded" $
  let! '(ops, ds, t) := validate_blocks context (limit budget_maxPatchHunks 2000 context) blocks
    {| totalHunks := 0; totalAdded := 0; totalRemoved := 0 |} in
  reject_if (limit budget_maxLines 20000 context <? totalAdded t + totalRemoved t)
    "budget_exceeded" $
  Patched {| inputDigest := digest patchText; operations := ops; pathDecisions := ds;
             totalAddedLines := totalAdded t; totalRemovedLines := totalRemoved t |}.

(** ** Inversion *)

Lemma patch_bind_patched {A B} (r : patch_result A) (f : A → patch_result B) b :
  patch_bind r f = Patched b ↔ ∃ a, r = Patched a ∧ f a = Patched b.
Proof. destruct r; naive_solver. Qed.

Lemma reject_if_patched {A} bad why (r : patch_result A) a :
  reject_if bad why r = Patched a ↔ bad = false ∧ r = Patched a.
Proof. unfold reject_if. destruct bad; naive_solver. Qed.

Lemma patch_bind_endless {A B} (r : patch_result A) (f : A → patch_result B) :
  r ≠ Endless → (∀ a, r = Patched a → f a ≠ Endless) → patch_bind r f ≠ Endless.
Proof. destruct r; naive_solver. Qed.

Lemma reject_if_endless {A} bad why (r : patch_result A) :
  r ≠ Endless → reject_if bad why r ≠ Endless.
Proof. unfold reject_if. by destruct bad. Qed.

(** ** The parser ends

    Every loop consumes lines, so the number of lines bounds its rounds. *)

(** A step that ends and leaves at most [n] lines. *)
Definition shrinks {A} (n : nat) (r : patch_result (A * list ustring)) : Prop :=
  r ≠ Endless ∧ ∀ a rest, r = Patched (a, rest) → (length rest ≤ n)%nat.

Lemma shrinks_patched {A} n (a : A) rest : (length rest ≤ n)%nat → shrinks n (Patched (a, rest)).
Proof. intros Hn. split; [done|]. by intros a' r' [= _ <-]. Qed.

Lemma shrinks_rejected {A} n why : @shrinks A n (PatchRejected why).
Proof. by split. Qed.

Lemma shrinks_weaken {A} n n' (r : patch_result (A * list ustring)) :
  shrinks n r → (n ≤ n')%nat → shrinks n' r.
Proof. intros [He Hr] Hn. split; [done|]. intros a rest Hp%Hr. lia. Qed.

Ltac split_ifs :=
  repeat match goal with |- context [if ?b then _ else _] => destruct b end.

Ltac shrinks_tac IH :=
  first [ apply shrinks_rejected | apply shrinks_patched; cbn [length]; lia
        | eapply shrinks_weaken; [apply IH|cbn [length]; lia] ].

Lemma parse_metadata_rest lines m : shrinks (length lines) (parse_metadata lines m).
Proof.
  revert m. induction lines as [|line lines IH]; intros m; cbn [parse_metadata];
    [by apply shrinks_patched|]. split_ifs; shrinks_tac IH.
Qed.

Lemma parse_file_header_rest mark lines : shrinks (length lines) (parse_file_header mark lines).
Proof.
  destruct lines as [|line lines]; cbn [parse_file_header]; [by apply shrinks_patched|].
  unfold reject_if. split_ifs; shrinks_tac I.
Qed.

Lemma parse_hunk_body_rest oc nc lines n : shrinks (length lines) (parse_hunk_body oc nc lines n).
Proof.
  revert n. induction lines as [|line lines IH]; intros n; cbn [parse_hunk_body];
    [split_ifs; shrinks_tac I|].
  destruct (_ || _); [|shrinks_tac I]. destruct (u_starts _ line); [shrinks_tac IH|].
  destruct (count_line line n); shrinks_tac IH.
Qed.

Lemma parse_hunks_rest fuel lines hs a r :
  (length lines < fuel)%nat → shrinks (length lines) (parse_hunks fuel lines hs a r).
Proof.
  revert lines hs a r. induction fuel as [|fuel IH]; intros lines hs a r Hf; [lia|].
  cbn [parse_hunks]. destruct lines as [|line lines]; [by apply shrinks_patched|].
  cbn [length] in Hf. destruct (u_starts _ line); [by apply shrinks_patched|].
  destruct (HUNK_HEADER line) as [[[[os oc] ns] nc]|]; [|apply shrinks_rejected].
  unfold reject_if. destruct (_ || _); [apply shrinks_rejected|].
  destruct (parse_hunk_body_rest (oc ?? 1) (nc ?? 1) lines
    {| consumedOld := 0; consumedNew := 0; added := a; removed := r |}) as [Hb Hrest].
  destruct (parse_hunk_body _ _ _ _) as [[n' rest]|w|w|]; [|by split..|done]. cbn [patch_bind].
  specialize (Hrest n' rest eq_refl).
  eapply shrinks_weaken; [apply IH; lia|cbn [length]; lia].
Qed.

Lemma shrinks_bind {A B} n (r : patch_result (A * list ustring))
    (f : A * list ustring → patch_result (B * list ustring)) :
  shrinks n r → (∀ a rest, (length rest ≤ n)%nat → shrinks n (f (a, rest))) →
  shrinks n (patch_bind r f).
Proof.
  intros [He Hr] Hf. destruct r as [[a rest]|w|w|]; [|by split..|done]. by apply Hf, (Hr a).
Qed.

Lemma parse_block_rest fuel line rest :
  (length rest < fuel)%nat → shrinks (length rest) (parse_block fuel line rest).
Proof.
  intros Hf. unfold parse_block, reject_if. destruct (negb _); [apply shrinks_rejected|].
  assert (He : parse_envelope line ≠ Endless)
    by (unfold parse_envelope, reject_if; destruct (has _ _); [done|];
        destruct (last_split _ _) as [[[|] ?]|]; try done; split_ifs; done).
  destruct (parse_envelope line) as [[go gn]|w|w|]; [|by split..|done]. cbn [patch_bind].
  apply shrinks_bind; [apply parse_metadata_rest|]. intros m r1 H1.
  apply shrinks_bind; [eapply shrinks_weaken; [apply parse_file_header_rest|lia]|]. intros o r2 H2.
  apply shrinks_bind; [eapply shrinks_weaken; [apply parse_file_header_rest|lia]|]. intros n r3 H3.
  apply shrinks_bind; [eapply shrinks_weaken; [apply parse_hunks_rest; lia|lia]|].
  intros [[hs a] r] r4 H4. by apply shrinks_patched.
Qed.

Lemma parse_blocks_end fuel lines : (length lines < fuel)%nat → parse_blocks fuel lines ≠ Endless.
Proof.
  revert lines. induction fuel as [|fuel IH]; intros lines Hf; [lia|]. cbn [parse_blocks].
  destruct lines as [|line rest]; [done|]. simpl in Hf.
  destruct (parse_block_rest (S (length rest)) line rest) as [Hb Hr]; [lia|].
  apply patch_bind_endless; [done|]. intros [b rest'] Hp. apply Hr in Hp.
  apply patch_bind_endless; [apply IH; lia|done].
Qed.

Lemma check_targets_end context targets : check_targets context targets ≠ Endless.
Proof.
  induction targets as [|t targets IH]; [done|]. simpl. apply patch_bind_endless.
  - unfold checkPath, reject_if. destruct (normalizeRelativePath _ _); [split_ifs|]; done.
  - intros d _. by apply patch_bind_endless.
Qed.

Lemma normalizeOrNull_end root v : normalizeOrNull root v ≠ Endless.
Proof. unfold normalizeOrNull. destruct v; [|done]. by destruct (normalizeRelativePath _ _). Qed.

Lemma validate_block_end context max diff t : validate_block context max diff t ≠ Endless.
Proof.
  unfold validate_block. do 2 apply reject_if_endless. apply patch_bind_endless.
  - unfold normalize_names. do 6 (apply patch_bind_endless; [apply normalizeOrNull_end|intros ? _]).
    done.
  - intros n _. do 2 apply reject_if_endless. apply patch_bind_endless; [apply check_targets_end|done].
Qed.

Lemma validate_blocks_end context max blocks t : validate_blocks context max blocks t ≠ Endless.
Proof.
  revert t. induction blocks as [|b blocks IH]; intros t; [done|]. simpl.
  apply patch_bind_endless; [apply validate_block_end|]. intros [[op ds] t'] _.
  apply patch_bind_endless; [apply IH|]. by intros [[? ?] ?].
Qed.

(** The fuel of the loops is enough for every text. *)
Theorem validation_ends text context : validatePatch text context ≠ Endless.
Proof.
  unfold validatePatch. do 2 apply reject_if_endless. apply patch_bind_endless.
  - apply parse_blocks_end. lia.
  - intros blocks _. do 2 apply reject_if_endless.
    apply patch_bind_endless; [apply validate_blocks_end|]. intros [[ops ds] t] _.
    by apply reject_if_endless.
Qed.

(** ** What an accepted patch is *)

(** The names a block mentions, as they are written. *)
Definition mentioned (b : ParsedBlock) : list ustring :=
  omap id [gitOldPath b; gitNewPath b; oldPath b; newPath b; renameFrom b; renameTo b].

(** A name the policy lets through. *)
Definition permitted (context : PatchValidationContext) (p : ustring) : Prop :=
  p ≠ u ".git" ∧ u_starts (u ".git/") p = false ∧
  ∀ prefix, prefix ∈ protectedPrefixes context ?? [] →
    p ≠ prefix ∧ u_starts (prefix ++ [slash]) p = false.

Definition allowance (p : ustring) : PathDecision :=
  {| decided_path := p; allowed := true; reasonCode := None |}.

Lemma checkPath_patched context touched d :
  checkPath context touched = Patched d →
  ∃ safe, normalizeRelativePath (ctx_rootId context) touched = Safe safe ∧
    d = allowance (normalizedRelativePath safe) ∧ permitted context (normalizedRelativePath safe).
Proof.
  unfold checkPath. destruct (normalizeRelativePath _ touched) as [safe|]; [|done].
  intros [Hg Hd]%reject_if_patched. apply reject_if_patched in Hd as [Hp Hd].
  injection Hd as <-. exists safe. split_and!; [done..|].
  apply orb_false_iff in Hg as [H1 H2]. split_and!.
  - by destruct (ueqb_spec (normalizedRelativePath safe) (u ".git")).
  - done.
  - intros prefix Hin. rewrite existsb_false in Hp. specialize (Hp prefix Hin).
    unfold protected_by in Hp. apply orb_false_iff in Hp as [H3 H4].
    split; [|done]. by destruct (ueqb_spec (normalizedRelativePath safe) prefix).
Qed.

Lemma check_targets_patched context targets ds :
  check_targets context targets = Patched ds →
  Forall2 (λ t d, checkPath context t = Patched d) targets ds.
Proof.
  revert ds. induction targets as [|t targets IH]; intros ds; cbn [check_targets].
  - intros [= <-]. constructor.
  - intros (d & Hd & Hr)%patch_bind_patched. apply patch_bind_patched in Hr as (ds' & Hds & Hr).
    injection Hr as <-. constructor; [done|by apply IH].
Qed.

Lemma normalizeOrNull_patched root v n :
  normalizeOrNull root v = Patched n →
  v = None ∧ n = None ∨
  ∃ raw safe, v = Some raw ∧ normalizeRelativePath root raw = Safe safe ∧
    n = Some (normalizedRelativePath safe).
Proof.
  unfold normalizeOrNull. destruct v as [raw|]; [|intros [= <-]; by left].
  destruct (normalizeRelativePath root raw) as [safe|] eqn:E; [|done].
  intros [= <-]. right. by exists raw, safe.
Qed.

(** Every mentioned name is a target of the block, normalised. *)
Lemma normalize_names_targets root b n raw :
  normalize_names root b = Patched n → raw ∈ mentioned b →
  ∃ safe, normalizeRelativePath root raw = Safe safe ∧
    normalizedRelativePath safe ∈ block_targets n.
Proof.
  unfold normalize_names. intros Hn Hraw.
  apply patch_bind_patched in Hn as (x1 & H1 & Hn). apply patch_bind_patched in Hn as (x2 & H2 & Hn).
  apply patch_bind_patched in Hn as (x3 & H3 & Hn). apply patch_bind_patched in Hn as (x4 & H4 & Hn).
  apply patch_bind_patched in Hn as (x5 & H5 & Hn). apply patch_bind_patched in Hn as (x6 & H6 & Hn).
  injection Hn as <-. unfold mentioned in Hraw. apply list_elem_of_omap in Hraw as (v & Hv & Hraw).
  assert (Hone : ∀ w x, v = w → normalizeOrNull root w = Patched x →
    ∃ safe, normalizeRelativePath root raw = Safe safe ∧ x = Some (normalizedRelativePath safe)).
  { intros w x <- Hx. apply normalizeOrNull_patched in Hx as [[-> _]|(r & safe & -> & Hs & ->)];
      [done|]. injection Hraw as ->. by exists safe. }
  unfold block_targets. setoid_rewrite dedup_elem. setoid_rewrite list_elem_of_omap. cbn.
  repeat (apply elem_of_cons in Hv as [Hv|Hv]); [..|by apply elem_of_nil in Hv];
    (eapply Hone in Hv; [|eassumption]); destruct Hv as (safe & ? & ->); exists safe;
    (split; [done|]); eexists (Some _); (split; [|reflexivity]); set_solver.
Qed.

(** What a block that is let through satisfies. *)
Definition block_ok (context : PatchValidationContext) (ds : list PathDecision)
    (op : PatchOperation) (b : ParsedBlock) : Prop :=
  (hasModeChange b = true → allowModeChanges context = Some true) ∧
  op_hunks op = Z.of_nat (length (hunks b)) ∧ op_addedLines op = addedLines b ∧
  op_removedLines op = removedLines b ∧
  (∀ raw, raw ∈ mentioned b →
     ∃ safe, normalizeRelativePath (ctx_rootId context) raw = Safe safe ∧
       permitted context (normalizedRelativePath safe) ∧
       allowance (normalizedRelativePath safe) ∈ ds) ∧
  (targetPath op = [] ∨
   ∃ raw safe, raw ∈ mentioned b ∧
     normalizeRelativePath (ctx_rootId context) raw = Safe safe ∧
     targetPath op = normalizedRelativePath safe).

Context `{Hlaws : !UnicodeLaws}.

(** The target of an operation is one of the names, if there are any. *)
Lemma target_mentioned root b n :
  normalize_names root b = Patched n →
  let target := hd [] (omap id [normGitNew n; normHeaderNew n; normGitOld n; normHeaderOld n]) in
  target = [] ∨ ∃ raw safe, raw ∈ mentioned b ∧ normalizeRelativePath root raw = Safe safe ∧
    target = normalizedRelativePath safe.
Proof.
  unfold normalize_names. intros Hn.
  apply patch_bind_patched in Hn as (x1 & H1 & Hn). apply patch_bind_patched in Hn as (x2 & H2 & Hn).
  apply patch_bind_patched in Hn as (x3 & H3 & Hn). apply patch_bind_patched in Hn as (x4 & H4 & Hn).
  apply patch_bind_patched in Hn as (x5 & _ & Hn). apply patch_bind_patched in Hn as (x6 & _ & Hn).
  injection Hn as <-. cbn [normGitNew normHeaderNew normGitOld normHeaderOld].
  assert (Hone : ∀ v x, normalizeOrNull root v = Patched x → v ∈ [gitOldPath b; gitNewPath b;
      oldPath b; newPath b; renameFrom b; renameTo b] →
    x = None ∨ ∃ raw safe, raw ∈ mentioned b ∧ normalizeRelativePath root raw = Safe safe ∧
      x = Some (normalizedRelativePath safe)).
  { intros v x [[_ ->]|(raw & safe & -> & Hs & ->)]%normalizeOrNull_patched Hv; [by left|].
    right. exists raw, safe. split_and!; [|done..]. apply list_elem_of_omap. by exists (Some raw). }
  apply Hone in H1; [|set_solver]. apply Hone in H2; [|set_solver].
  apply Hone in H3; [|set_solver]. apply Hone in H4; [|set_solver].
  destruct H2 as [->|(raw & safe & ? & ? & ->)]; [|right; by exists raw, safe].
  destruct H4 as [->|(raw & safe & ? & ? & ->)]; [|right; by exists raw, safe].
  destruct H1 as [->|(raw & safe & ? & ? & ->)]; [|right; by exists raw, safe].
  destruct H3 as [->|(raw & safe & ? & ? & ->)]; [|right; by exists raw, safe]. by left.
Qed.

Lemma validate_block_patched context max b t op ds t' :
  validate_block context max b t = Patched (op, ds, t') →
  block_ok context ds op b ∧ Forall (λ d, allowed d = true) ds ∧
  t' = {| totalHunks := totalHunks t + Z.of_nat (length (hunks b));
          totalAdded := totalAdded t + addedLines b;
          totalRemoved := totalRemoved t + removedLines b |} ∧ totalHunks t' ≤ max.
Proof.
  unfold validate_block. intros [Hmode Hv]%reject_if_patched.
  apply reject_if_patched in Hv as [Hmax Hv]. apply patch_bind_patched in Hv as (n & Hn & Hv).
  apply reject_if_patched in Hv as [_ Hv]. apply reject_if_patched in Hv as [_ Hv].
  apply patch_bind_patched in Hv as (ds' & Hds & Hv). injection Hv as <- <- <-.
  apply check_targets_patched in Hds. apply Z.ltb_ge in Hmax. split_and!.
  - split_and!; try done.
    + intros Hm. rewrite Hm in Hmode. apply andb_false_iff in Hmode as [|Hmode]; [done|].
      by destruct (allowModeChanges context) as [[]|].
    + intros raw Hraw. destruct (normalize_names_targets _ _ _ _ Hn Hraw) as (safe & Hs & Hin).
      exists safe. split; [done|].
      apply list_elem_of_lookup in Hin as [i Hi].
      destruct (Forall2_lookup_l _ _ _ _ _ Hds Hi) as (d & Hd & Hc).
      destruct (checkPath_patched _ _ _ Hc) as (safe' & Hs' & -> & Hp).
      rewrite (guard_again _ _ _ _ Hs Hs') in *. split; [done|]. by apply list_elem_of_lookup_2 in Hd.
    + by apply target_mentioned with (root := ctx_rootId context).
  - apply Forall_forall. intros d [i Hi]%list_elem_of_lookup.
    destruct (Forall2_lookup_r _ _ _ _ _ Hds Hi) as (x & _ & Hc).
    by destruct (checkPath_patched _ _ _ Hc) as (? & _ & -> & _).
  - done.
  - done.
Qed.

Definition sum_of (f : ParsedBlock → Z) (bs : list ParsedBlock) : Z := foldr (λ b n, f b + n) 0 bs.

Lemma block_ok_more context ds ds' op b :
  (∀ d, d ∈ ds → d ∈ ds') → block_ok context ds op b → block_ok context ds' op b.
Proof.
  intros Hin (H1 & H2 & H3 & H4 & H5 & H6). split_and!; try done.
  intros raw Hraw. destruct (H5 raw Hraw) as (safe & ? & ? & ?). exists safe. by split_and!; auto.
Qed.

Lemma validate_blocks_patched context max blocks t ops ds t' :
  validate_blocks context max blocks t = Patched (ops, ds, t') →
  totalHunks t ≤ max →
  Forall2 (block_ok context ds) ops blocks ∧ Forall (λ d, allowed d = true) ds ∧
  totalHunks t' = totalHunks t + sum_of (λ b, Z.of_nat (length (hunks b))) blocks ∧
  totalAdded t' = totalAdded t + sum_of addedLines blocks ∧
  totalRemoved t' = totalRemoved t + sum_of removedLines blocks ∧ totalHunks t' ≤ max.
Proof.
  revert t ops ds. induction blocks as [|b blocks IH]; intros t ops ds Hv Ht;
    cbn [validate_blocks] in Hv.
  - injection Hv as <- <- <-. cbn. split_and!; try lia; constructor.
  - apply patch_bind_patched in Hv as ([[op ds1] t1] & Hb & Hv).
    apply patch_bind_patched in Hv as ([[ops2 ds2] t2] & Hr & Hv). injection Hv as <- <- <-.
    apply validate_block_patched in Hb as (Hok & Hall & -> & Hmax).
    destruct (IH _ _ _ Hr Hmax) as (Hoks & Halls & Hh & Ha & Hrem & Hm). split_and!.
    + constructor.
      * eapply block_ok_more; [|exact Hok]. intros d Hd. apply elem_of_app. by left.
      * eapply Forall2_impl; [exact Hoks|]. intros o p. apply block_ok_more.
        intros d Hd. apply elem_of_app. by right.
    + by apply Forall_app.
    + unfold sum_of in *. cbn [foldr totalHunks totalAdded totalRemoved] in *. lia.
    + unfold sum_of in *. cbn [foldr totalHunks totalAdded totalRemoved] in *. lia.
    + unfold sum_of in *. cbn [foldr totalHunks totalAdded totalRemoved] in *. lia.
    + done.
Qed.

(** An accepted patch touches nothing unchecked: the text parses into at least one block, and
    every name a block mentions -- in its envelope, its file headers or its rename lines -- passed
    the path guard, is neither [.git] nor inside it, is not a protected prefix nor below one, and
    is recorded as allowed; no other decision is recorded.  The operations are the blocks in
    order with their counts, each on one of the names of its block; a changed mode needs the
    explicit permission; and the files, the hunks and the changed lines are within the budget,
    their totals the sums over the blocks. *)
Theorem accepted_patch_checked text context shape :
  0 ≤ limit budget_maxPatchHunks 2000 context →
  validatePatch text context = Patched shape →
  ∃ blocks, parseUnifiedDiff text = Patched blocks ∧ blocks ≠ [] ∧
    Forall2 (block_ok context (pathDecisions shape)) (operations shape) blocks ∧
    Forall (λ d, allowed d = true) (pathDecisions shape) ∧
    totalAddedLines shape = sum_of addedLines blocks ∧
    totalRemovedLines shape = sum_of removedLines blocks ∧
    Z.of_nat (length blocks) ≤ limit budget_maxPatchFiles 100 context ∧
    sum_of (λ b, Z.of_nat (length (hunks b))) blocks ≤ limit budget_maxPatchHunks 2000 context ∧
    totalAddedLines shape + totalRemovedLines shape ≤ limit budget_maxLines 20000 context ∧
    byteLength text ≤ limit budget_maxTotalBytes 50000000 context ∧
    inputDigest shape = digest text.
Proof.
  intros Hmax. unfold validatePatch. intros [Hbytes Hv]%reject_if_patched.
  apply reject_if_patched in Hv as [_ Hv]. apply patch_bind_patched in Hv as (blocks & Hp & Hv).
  apply reject_if_patched in Hv as [Hne Hv]. apply reject_if_patched in Hv as [Hfiles Hv].
  apply patch_bind_patched in Hv as ([[ops ds] t] & Hb & Hv).
  apply reject_if_patched in Hv as [Hlines Hv]. injection Hv as <-. cbn.
  apply validate_blocks_patched in Hb as (Hoks & Hall & Hh & Ha & Hr & Hm); [|done].
  cbn in Hh, Ha, Hr. breflect. exists blocks. split_and!; try done; try lia.
  intros ->. done.
Qed.
End Validate.

(** ** A writer of diffs

    The reference the parser is compared with: ordinary unified diffs as git writes them. *)
Inductive mark := unchanged | inserted | deleted.

Record hunk := { h_old : Z; h_new : Z; h_lines : list (mark * ustring) }.

Record file_diff := { fd_name : ustring; fd_kind : PatchOperationKind; fd_hunks : list hunk }.

(** Decimal notation. *)
Fixpoint decimal (fuel : nat) (n : Z) : ustring :=
  match fuel with
  | O => [48 + n mod 10]
  | S fuel => if n <? 10 then [48 + n] else decimal fuel (n / 10) ++ [48 + n mod 10]
  end.
Definition numeral (n : Z) : ustring := decimal (Z.to_nat n) n.

Definition mark_unit (m : mark) : Z :=
  match m with unchanged => 32 | inserted => 43 | deleted => 45 end.
Definition in_old (m : mark) : Z := match m with inserted => 0 | _ => 1 end.
Definition in_new (m : mark) : Z := match m with deleted => 0 | _ => 1 end.

Definition count_marks (f : mark → Z) (l : list (mark * ustring)) : Z :=
  foldr (λ p n, f p.1 + n) 0 l.
Definition old_count (h : hunk) : Z := count_marks in_old (h_lines h).
Definition new_count (h : hunk) : Z := count_marks in_new (h_lines h).
Definition inserted_count (l : list (mark * ustring)) : Z := count_marks (λ m, 1 - in_old m) l.
Definition deleted_count (l : list (mark * ustring)) : Z := count_marks (λ m, 1 - in_new m) l.

Definition hunk_header (h : hunk) : ustring :=
  u "@@ -" ++ numeral (h_old h) ++ 44 :: numeral (old_count h) ++ u " +" ++
  numeral (h_new h) ++ 44 :: numeral (new_count h) ++ u " @@".

Definition render_lines (l : list (mark * ustring)) : list ustring :=
  (λ p, mark_unit p.1 :: p.2) <$> l.
Definition render_hunk (h : hunk) : list ustring := hunk_header h :: render_lines (h_lines h).

Definition render_file (fd : file_diff) : list ustring :=
  (u "diff --git a/" ++ fd_name fd ++ u " b/" ++ fd_name fd) ::
  match fd_kind fd with
  | op_create => [u "new file mode 100644"]
  | op_delete => [u "deleted file mode 100644"]
  | op_update => []
  end ++
  [u "index 0000000..1111111 100644";
   u "--- " ++ (if bool_decide (fd_kind fd = op_create) then u "/dev/null"
                else u "a/" ++ fd_name fd);
   u "+++ " ++ (if bool_decide (fd_kind fd = op_delete) then u "/dev/null"
                else u "b/" ++ fd_name fd)] ++
  concat (render_hunk <$> fd_hunks fd).

Definition render (fds : list file_diff) : ustring :=
  u_join newline (concat (render_file <$> fds)) ++ [newline].

Definition block_of (fd : file_diff) : ParsedBlock := {|
  gitOldPath := Some (fd_name fd); gitNewPath := Some (fd_name fd);
  oldPath := if bool_decide (fd_kind fd = op_create) then None else Some (fd_name fd);
  newPath := if bool_decide (fd_kind fd = op_delete) then None else Some (fd_name fd);
  renameFrom := None; renameTo := None; hasModeChange := false;
  hunks := (λ h, (old_count h, new_count h)) <$> fd_hunks fd;
  addedLines := foldr (λ h n, inserted_count (h_lines h) + n) 0 (fd_hunks fd);
  removedLines := foldr (λ h n, deleted_count (h_lines h) + n) 0 (fd_hunks fd);
|}.

(** A name the format can hold unquoted.  It may not begin with [b/]: see [top_level_b_refused]. *)
Record name_ok (n : ustring) : Prop := {
  name_nonempty : n ≠ [];
  name_plain : Forall (λ c, c ≠ doublequote ∧ c ≠ newline ∧ c ≠ 9) n;
  name_end : from_option u_space false (last n) = false;
  name_no_separator : u_includes (u " b/") n = false;
  name_not_b : u_starts (u "b/") n = false;
  name_not_null : n ≠ u "/dev/null";
}.

Record hunk_ok (h : hunk) : Prop := {
  hunk_starts : 0 ≤ h_old h ≤ MAX_SAFE_INTEGER ∧ 0 ≤ h_new h ≤ MAX_SAFE_INTEGER;
  hunk_texts : Forall (λ p, newline ∉ p.2) (h_lines h);
}.

Definition file_ok (fd : file_diff) : Prop := name_ok (fd_name fd) ∧ Forall hunk_ok (fd_hunks fd).

(** *** Reading back a hunk *)

Definition all_digits (s : ustring) : Prop := Forall (λ c, u_digit c = true) s.

(** The rest of the line does not go on with a digit. *)
Definition no_digit_next (s : ustring) : Prop :=
  match s with c :: _ => u_digit c = false | [] => True end.

Fixpoint decimal_value (acc : Z) (s : ustring) : Z :=
  match s with c :: s => decimal_value (10 * acc + (c - 48)) s | [] => acc end.

Lemma digit_run_digits acc s rest :
  all_digits s → no_digit_next rest → digit_run acc (s ++ rest) = (decimal_value acc s, rest).
Proof.
  intros Hs Hr. revert acc. induction Hs as [|c s Hc Hs IH]; intros acc.
  - destruct rest as [|c rest]; [done|]. simpl in *. by rewrite Hr.
  - cbn [app digit_run decimal_value]. by rewrite Hc, IH.
Qed.

Lemma decimal_value_snoc acc s c :
  decimal_value acc (s ++ [c]) = 10 * decimal_value acc s + (c - 48).
Proof. revert acc. induction s as [|d s IH]; intros acc; simpl; [done|apply IH]. Qed.

Lemma digit_unit d : 0 ≤ d < 10 → u_digit (48 + d) = true.
Proof. intros Hd. unfold u_digit. apply andb_true_iff. split; apply Z.leb_le; lia. Qed.

Lemma decimal_digits fuel n : 0 ≤ n → all_digits (decimal fuel n) ∧ decimal fuel n ≠ [].
Proof.
  revert n. induction fuel as [|fuel IH]; intros n Hn; cbn [decimal].
  - split; [|done]. apply Forall_singleton, digit_unit, Z.mod_pos_bound. lia.
  - destruct (n <? 10) eqn:E; breflect.
    + split; [|done]. apply Forall_singleton, digit_unit. lia.
    + split; [|by intros [? ?]%app_eq_nil]. apply Forall_app. split.
      * apply IH, Z.div_pos; lia.
      * apply Forall_singleton, digit_unit, Z.mod_pos_bound. lia.
Qed.

Lemma decimal_value_decimal fuel n :
  0 ≤ n ≤ Z.of_nat fuel → decimal_value 0 (decimal fuel n) = n.
Proof.
  revert n. induction fuel as [|fuel IH]; intros n Hn; cbn [decimal].
  - assert (n = 0) as -> by lia. done.
  - destruct (n <? 10) eqn:E; breflect; [simpl; lia|].
    rewrite decimal_value_snoc, IH.
    + pose proof (Z.div_mod n 10). lia.
    + pose proof (Z.div_pos n 10). pose proof (Z.div_lt n 10). lia.
Qed.

Lemma take_numeral n rest :
  0 ≤ n → no_digit_next rest → take_number (numeral n ++ rest) = Some (n, rest).
Proof.
  intros Hn Hr. unfold numeral.
  destruct (decimal_digits (Z.to_nat n) n Hn) as [Hd Hne].
  pose proof (decimal_value_decimal (Z.to_nat n) n) as Hv.
  unfold take_number. destruct (decimal (Z.to_nat n) n) as [|c s] eqn:E; [done|].
  cbn [app]. assert (u_digit c = true) as -> by by apply Forall_cons in Hd as [? _].
  change (c :: s ++ rest) with ((c :: s) ++ rest). rewrite digit_run_digits, Hv by (done || lia). done.
Qed.

Lemma expect_app pat s : expect pat (pat ++ s) = Some s.
Proof.
  unfold expect. assert (u_starts pat (pat ++ s) = true) as -> by (apply u_starts_spec; by exists s).
  by rewrite drop_app_length.
Qed.

Lemma take_range_numerals a b rest :
  0 ≤ a → 0 ≤ b → no_digit_next rest →
  take_range (numeral a ++ 44 :: numeral b ++ rest) = Some (a, Some b, rest).
Proof.
  intros Ha Hb Hr. unfold take_range. rewrite take_numeral by done. cbn.
  by rewrite take_numeral.
Qed.

Lemma count_marks_nonneg f l : (∀ m, 0 ≤ f m) → 0 ≤ count_marks f l.
Proof. intros Hf. induction l as [|p l IH]; simpl; [lia|]. specialize (Hf p.1). lia. Qed.

Lemma in_old_nonneg m : 0 ≤ in_old m. Proof. by destruct m. Qed.
Lemma in_new_nonneg m : 0 ≤ in_new m. Proof. by destruct m. Qed.

Lemma HUNK_HEADER_rendered h :
  hunk_ok h → HUNK_HEADER (hunk_header h) =
    Some (h_old h, Some (old_count h), h_new h, Some (new_count h)).
Proof.
  intros [[Ho Hn] _].
  pose proof (count_marks_nonneg in_old (h_lines h) in_old_nonneg).
  pose proof (count_marks_nonneg in_new (h_lines h) in_new_nonneg).
  unfold HUNK_HEADER, hunk_header. rewrite expect_app. cbn [mbind option_bind].
  rewrite take_range_numerals by (done || lia). cbn [mbind option_bind].
  rewrite expect_app. cbn [mbind option_bind].
  rewrite <- (app_nil_r (u " @@")), take_range_numerals by (done || lia). cbn [mbind option_bind].
  rewrite expect_app. done.
Qed.

(** The counters after some lines. *)
Definition counted (n : Counts) (l : list (mark * ustring)) : Counts := {|
  consumedOld := consumedOld n + count_marks in_old l;
  consumedNew := consumedNew n + count_marks in_new l;
  added := added n + inserted_count l;
  removed := removed n + deleted_count l
|}.

Lemma Counts_eq a b :
  consumedOld a = consumedOld b → consumedNew a = consumedNew b → added a = added b →
  removed a = removed b → a = b.
Proof. destruct a, b; simpl; congruence. Qed.

Lemma parse_hunk_body_rendered oldCount newCount l rest n :
  consumedOld n + count_marks in_old l = oldCount →
  consumedNew n + count_marks in_new l = newCount →
  parse_hunk_body oldCount newCount (render_lines l ++ rest) n = Patched (counted n l, rest).
Proof.
  revert n. induction l as [|[m t] l IH]; intros n Ho Hn.
  - assert (E : parse_hunk_body oldCount newCount rest n = Patched (n, rest)).
    { cbn [count_marks foldr] in Ho, Hn. destruct rest; cbn [parse_hunk_body];
        assert ((consumedOld n <? oldCount) = false) as -> by (apply Z.ltb_ge; lia);
        assert ((consumedNew n <? newCount) = false) as -> by (apply Z.ltb_ge; lia); done. }
    cbn [render_lines fmap list_fmap app]. rewrite E. do 2 f_equal.
    apply Counts_eq; unfold counted, inserted_count, deleted_count, count_marks;
      cbn [foldr consumedOld consumedNew added removed]; lia.
  - pose proof (count_marks_nonneg in_old l in_old_nonneg).
    pose proof (count_marks_nonneg in_new l in_new_nonneg).
    cbn [count_marks foldr fst] in Ho, Hn. fold (count_marks in_old l) in Ho.
    fold (count_marks in_new l) in Hn.
    cbn [render_lines fmap list_fmap app parse_hunk_body fst snd].
    assert (E : (consumedOld n <? oldCount) || (consumedNew n <? newCount) = true).
    { apply orb_true_iff. destruct m; cbn [in_old in_new] in Ho, Hn; [left|right|left]; apply Z.ltb_lt; lia. }
    rewrite E. assert (F : u_starts (u "\ No newline") (mark_unit m :: t) = false) by by destruct m.
    rewrite F. set (n' := counted n [(m, t)]).
    assert (G : count_line (mark_unit m :: t) n = Some n').
    { unfold n', counted. destruct m, n; cbn; rewrite ?Z.add_0_r; done. }
    rewrite G. fold (render_lines l). rewrite IH.
    + do 2 f_equal. apply Counts_eq; unfold n', counted, inserted_count, deleted_count, count_marks;
        cbn [foldr fst consumedOld consumedNew added removed]; lia.
    + unfold n', counted, count_marks. cbn [foldr fst consumedOld]. fold (count_marks in_old l). lia.
    + unfold n', counted, count_marks. cbn [foldr fst consumedNew]. fold (count_marks in_new l). lia.
Qed.

(** *** Reading back a file *)

Definition counts_of (h : hunk) : Z * Z := (old_count h, new_count h).

(** What may follow the hunks of a file: nothing or the next file. *)
Definition next_file (tail : list ustring) : Prop :=
  match tail with [] => True | line :: _ => u_starts (u "diff --git ") line = true end.

Lemma parse_hunks_next k tail hs a r :
  next_file tail → parse_hunks (S k) tail hs a r = Patched (hs, a, r, tail).
Proof. destruct tail as [|line tail]; [done|]. simpl. by intros ->. Qed.

Lemma parse_hunks_rendered hs fuel tail done a r :
  Forall hunk_ok hs →
  parse_hunks (length hs + fuel) (concat (render_hunk <$> hs) ++ tail) done a r =
  parse_hunks fuel tail (done ++ (counts_of <$> hs))
    (a + foldr (λ h n, inserted_count (h_lines h) + n) 0 hs)
    (r + foldr (λ h n, deleted_count (h_lines h) + n) 0 hs).
Proof.
  intros Hhs. revert done a r. induction Hhs as [|h hs Hh Hhs IH]; intros done a r.
  - cbn [fmap list_fmap concat app length foldr Nat.add]. by rewrite app_nil_r, !Z.add_0_r.
  - cbn [fmap list_fmap concat length foldr Nat.add]. unfold render_hunk at 1.
    rewrite <- app_assoc. cbn [app parse_hunks].
    assert (u_starts (u "diff --git ") (hunk_header h) = false) as -> by reflexivity.
    rewrite HUNK_HEADER_rendered by done. destruct (hunk_starts h Hh) as [Ho Hn].
    assert ((MAX_SAFE_INTEGER <? h_old h) = false) as -> by (apply Z.ltb_ge; lia).
    assert ((MAX_SAFE_INTEGER <? h_new h) = false) as -> by (apply Z.ltb_ge; lia).
    cbn [orb reject_if default from_option id]. rewrite parse_hunk_body_rendered by reflexivity.
    cbn [patch_bind]. rewrite IH. unfold counted. cbn [added removed].
    rewrite <- app_assoc. cbn [app]. by rewrite !Z.add_assoc.
Qed.

Lemma u_trim_id v :
  from_option u_space false (head v) = false → from_option u_space false (last v) = false →
  u_trim v = v.
Proof.
  intros Hh Hl. unfold u_trim.
  assert (E : ∀ s, from_option u_space false (head s) = false → u_trimStart s = s)
    by (intros [|c s]; simpl; [done|by intros ->]).
  rewrite (E v Hh), E, rev_involutive; [done|].
  destruct v as [|x v] using rev_ind; [done|]. by rewrite rev_app_distr; rewrite last_snoc in Hl.
Qed.

Lemma cut_tab_id s : 9 ∉ s → cut_tab s = s.
Proof.
  induction s as [|c s IH]; intros Hs; [done|]. apply not_elem_of_cons in Hs as [Hc Hs].
  cbn [cut_tab]. assert ((c =? 9) = false) as -> by (apply Z.eqb_neq; congruence).
  cbn. by rewrite IH.
Qed.

Lemma u_includes_cons sub c s : u_includes sub (c :: s) = false → u_includes sub s = false.
Proof. cbn [u_includes]. by intros [_ ?]%orb_false_iff. Qed.

Lemma last_split_none pat s : pat ≠ [] → u_includes pat s = false → last_split pat s = None.
Proof.
  intros Hp. induction s as [|c s IH]; intros Hs; cbn [last_split].
  - by rewrite bool_decide_eq_false_2.
  - rewrite IH by (by eapply u_includes_cons). cbn [u_includes] in Hs.
    by apply orb_false_iff in Hs as [-> _].
Qed.

Lemma last_split_prefix pat x s a b :
  last_split pat s = Some (a, b) → last_split pat (x ++ s) = Some (x ++ a, b).
Proof. intros Hs. induction x as [|c x IH]; [done|]. cbn [app last_split]. by rewrite IH. Qed.

Lemma separator_split n :
  u_includes (u " b/") n = false → last_split (u " b/") (u " b/" ++ n) = Some ([], n).
Proof.
  intros Hn. apply last_split_none in Hn; [|done].
  change (u " b/" ++ n) with (32 :: 98 :: 47 :: n). cbn [last_split].
  rewrite Hn. cbn. by rewrite drop_0.
Qed.

Lemma strip_start_app pre s : strip_start pre (pre ++ s) = s.
Proof.
  unfold strip_start.
  assert (u_starts pre (pre ++ s) = true) as -> by (apply u_starts_spec; by exists s).
  by rewrite drop_app_length.
Qed.

Section Name.
Context (n : ustring) (Hn : name_ok n).

Lemma name_unquoted : doublequote ∉ n ∧ newline ∉ n ∧ 9 ∉ n.
Proof.
  pose proof (name_plain n Hn) as Hp. rewrite Forall_forall in Hp.
  split_and!; intros Hin; destruct (Hp _ Hin) as (? & ? & ?); done.
Qed.

Lemma name_not_quoted : quoted_path n = false.
Proof.
  destruct name_unquoted as (Hq & _). unfold quoted_path. destruct n as [|c s]; [done|].
  apply not_elem_of_cons in Hq as [Hc _]. cbn [u_starts]. rewrite andb_true_r. by apply Z.eqb_neq.
Qed.

Lemma name_kept : strip_start (u "b/") n = n.
Proof. unfold strip_start. by rewrite (name_not_b n Hn). Qed.

Lemma parse_envelope_rendered :
  parse_envelope (u "diff --git a/" ++ n ++ u " b/" ++ n) = Patched (n, n).
Proof.
  destruct name_unquoted as (Hq & _). unfold parse_envelope.
  change (u "diff --git a/") with (u "diff --git " ++ u "a/").
  rewrite <- app_assoc, drop_app_length.
  assert (has doublequote (u "a/" ++ n ++ u " b/" ++ n) = false) as ->.
  { apply has_false. rewrite !elem_of_app. intros [H|[H|[H|H]]]; try done; set_solver. }
  cbn [reject_if]. rewrite app_assoc.
  rewrite (last_split_prefix _ (u "a/" ++ n) _ [] n (separator_split n (name_no_separator n Hn))).
  rewrite app_nil_r. change (u "a/" ++ n) with (97 :: 47 :: n) at 1. cbv iota.
  rewrite strip_start_app, name_kept, name_not_quoted. done.
Qed.

Lemma last_prefixed a : last (a ++ n) = last n.
Proof.
  rewrite last_app. destruct (last n) eqn:E; [done|].
  apply last_None in E. by destruct (name_nonempty n Hn).
Qed.

(** The name of a file header line. *)
Lemma parse_file_header_name mark pre rest :
  length (u mark) = 4%nat → (pre = u "a/" ∨ pre = u "b/") →
  parse_file_header mark ((u mark ++ pre ++ n) :: rest) = Patched (Some n, rest).
Proof.
  intros Hm Hpre. destruct name_unquoted as (Hq & _ & Htab). unfold parse_file_header.
  assert (u_starts (u mark) (u mark ++ pre ++ n) = true) as ->
    by (apply u_starts_spec; by exists (pre ++ n)).
  rewrite <- Hm, drop_app_length.
  assert (Ht : u_trim (pre ++ n) = pre ++ n).
  { apply u_trim_id; [by destruct Hpre as [-> | ->]|]. rewrite last_prefixed. apply name_end, Hn. }
  rewrite Ht.
  assert ((pre ++ n =u? u "/dev/null") = false) as ->
    by (destruct (ueqb_spec (pre ++ n) (u "/dev/null")); destruct Hpre as [-> | ->]; done).
  assert (quoted_path (pre ++ n) = false) as -> by by destruct Hpre as [-> | ->].
  cbn [reject_if]. unfold stripPrefix. destruct Hpre as [-> | ->].
  - by rewrite strip_start_app, name_kept, cut_tab_id.
  - assert (strip_start (u "a/") (u "b/" ++ n) = u "b/" ++ n) as -> by done.
    by rewrite strip_start_app, cut_tab_id.
Qed.
End Name.

Lemma parse_file_header_null mark rest :
  length (u mark) = 4%nat →
  parse_file_header mark ((u mark ++ u "/dev/null") :: rest) = Patched (None, rest).
Proof.
  intros Hm. unfold parse_file_header.
  assert (u_starts (u mark) (u mark ++ u "/dev/null") = true) as ->
    by (apply u_starts_spec; by exists (u "/dev/null")).
  by rewrite <- Hm, drop_app_length.
Qed.

Definition mode_lines (k : PatchOperationKind) : list ustring :=
  match k with
  | op_create => [u "new file mode 100644"]
  | op_delete => [u "deleted file mode 100644"]
  | op_update => []
  end.

Lemma parse_metadata_skip known rest :
  known ∈ [u "new file mode 100644"; u "deleted file mode 100644";
           u "index 0000000..1111111 100644"] →
  parse_metadata (known :: rest) no_metadata = parse_metadata rest no_metadata.
Proof. intros Hk. in_cases Hk; by subst known. Qed.

Lemma parse_metadata_rendered k line rest :
  u_starts (u "--- ") line = true →
  parse_metadata (mode_lines k ++ u "index 0000000..1111111 100644" :: line :: rest) no_metadata =
  Patched (no_metadata, line :: rest).
Proof.
  intros Hl.
  destruct k; cbn [mode_lines app]; rewrite ?parse_metadata_skip by set_solver;
    cbn [parse_metadata]; by rewrite Hl.
Qed.

Lemma render_file_lines fd :
  render_file fd =
  (u "diff --git a/" ++ fd_name fd ++ u " b/" ++ fd_name fd) ::
  (mode_lines (fd_kind fd) ++ u "index 0000000..1111111 100644" ::
   (u "--- " ++ (if bool_decide (fd_kind fd = op_create) then u "/dev/null"
                 else u "a/" ++ fd_name fd)) ::
   (u "+++ " ++ (if bool_decide (fd_kind fd = op_delete) then u "/dev/null"
                 else u "b/" ++ fd_name fd)) ::
   concat (render_hunk <$> fd_hunks fd)).
Proof. by destruct fd as [n [] hs]. Qed.

Lemma render_hunks_length hs : (length hs ≤ length (concat (render_hunk <$> hs)))%nat.
Proof.
  induction hs as [|h hs IH]; [done|]. cbn [fmap list_fmap concat length].
  rewrite length_app. cbn [render_hunk length]. lia.
Qed.

(** The parser on the hunks of a file and what follows them. *)
Lemma parse_block_rendered fuel fd tail :
  file_ok fd → (length (fd_hunks fd) < fuel)%nat →
  match render_file fd with
  | line :: rest =>
      parse_block fuel line (rest ++ tail) =
      let! '(hs, a, r, rest) := parse_hunks (fuel - length (fd_hunks fd)) tail
             (hunks (block_of fd)) (addedLines (block_of fd)) (removedLines (block_of fd)) in
      Patched ({| gitOldPath := gitOldPath (block_of fd); gitNewPath := gitNewPath (block_of fd);
                  oldPath := oldPath (block_of fd); newPath := newPath (block_of fd);
                  renameFrom := None; renameTo := None; hasModeChange := false;
                  hunks := hs; addedLines := a; removedLines := r |}, rest)
  | [] => False
  end.
Proof.
  intros [Hn Hh] Hf. rewrite render_file_lines. unfold parse_block.
  assert (u_starts (u "diff --git ")
            (u "diff --git a/" ++ fd_name fd ++ u " b/" ++ fd_name fd) = true) as ->
    by (apply u_starts_spec; eexists; by change (u "diff --git a/") with (u "diff --git " ++ u "a/");
        rewrite <- app_assoc).
  cbn [negb reject_if]. rewrite parse_envelope_rendered by done. cbn [patch_bind].
  rewrite <- app_assoc. cbn [app].
  rewrite parse_metadata_rendered by (by apply u_starts_spec; eexists). cbn [patch_bind].
  assert (Hold : ∀ rest, parse_file_header "--- "
      ((u "--- " ++ (if bool_decide (fd_kind fd = op_create) then u "/dev/null"
                     else u "a/" ++ fd_name fd)) :: rest) = Patched (oldPath (block_of fd), rest)).
  { intros rest. cbn [block_of oldPath]. destruct (bool_decide (fd_kind fd = op_create)).
    - by apply parse_file_header_null.
    - apply parse_file_header_name; [done|done|by left]. }
  assert (Hnew : ∀ rest, parse_file_header "+++ "
      ((u "+++ " ++ (if bool_decide (fd_kind fd = op_delete) then u "/dev/null"
                     else u "b/" ++ fd_name fd)) :: rest) = Patched (newPath (block_of fd), rest)).
  { intros rest. cbn [block_of newPath]. destruct (bool_decide (fd_kind fd = op_delete)).
    - by apply parse_file_header_null.
    - apply parse_file_header_name; [done|done|by right]. }
  rewrite Hold. cbn [patch_bind]. rewrite Hnew. cbn [patch_bind].
  replace fuel with (length (fd_hunks fd) + (fuel - length (fd_hunks fd)))%nat at 1 by lia.
  rewrite parse_hunks_rendered by done. cbn [app]. rewrite !Z.add_0_l.
  assert (Hgit : not_dev_null (fd_name fd) = Some (fd_name fd)).
  { unfold not_dev_null. destruct (ueqb_spec (fd_name fd) (u "/dev/null")) as [E|]; [|done].
    by destruct (name_not_null _ Hn). }
  rewrite Hgit. done.
Qed.

Lemma render_file_next fd tail :
  render_file fd ++ tail ≠ [] ∧ next_file (render_file fd ++ tail).
Proof.
  rewrite render_file_lines. split; [done|]. cbn [app next_file]. apply u_starts_spec.
  eexists. change (u "diff --git a/") with (u "diff --git " ++ u "a/"). by rewrite <- app_assoc.
Qed.

Lemma parse_blocks_rendered fds fuel :
  Forall file_ok fds → (length fds < fuel)%nat →
  parse_blocks fuel (concat (render_file <$> fds)) = Patched (block_of <$> fds).
Proof.
  intros Hfds. revert fuel. induction Hfds as [|fd fds Hfd Hfds IH]; intros fuel Hf;
    (destruct fuel as [|fuel]; [cbn [length] in Hf; lia|]); [done|].
  cbn [length] in Hf. cbn [fmap list_fmap concat].
  set (tail := concat (render_file <$> fds)).
  assert (Hnext : next_file tail).
  { unfold tail. destruct fds as [|fd' fds']; [done|]. cbn [fmap list_fmap concat].
    apply render_file_next. }
  pose proof (parse_block_rendered) as Hb.
  destruct (render_file fd) as [|line rest] eqn:E.
  { by destruct (render_file_next fd []) as [? _]; rewrite E in *. }
  cbn [app parse_blocks].
  assert (Hlen : (length (fd_hunks fd) < S (length (rest ++ tail)))%nat).
  { rewrite render_file_lines in E. injection E as _ <-.
    pose proof (render_hunks_length (fd_hunks fd)). rewrite !length_app. cbn [length]. lia. }
  specialize (Hb (S (length (rest ++ tail))) fd tail Hfd Hlen). rewrite E in Hb. rewrite Hb.
  destruct (S (length (rest ++ tail)) - length (fd_hunks fd))%nat as [|k] eqn:Hk; [lia|].
  rewrite parse_hunks_next by done. cbn [patch_bind]. unfold tail.
  rewrite IH by lia. cbn [patch_bind]. by destruct fd.
Qed.

Lemma diff_lines_joined lines :
  lines ≠ [] → Forall (λ l, newline ∉ l) lines →
  diff_lines (u_join newline lines ++ [newline]) = lines.
Proof.
  intros Hne Hl. unfold diff_lines.
  change [newline] with (newline :: u_join newline [[]]).
  rewrite u_join_app by done. rewrite u_split_join.
  - rewrite last_snoc, bool_decide_eq_true_2 by done. by rewrite removelast_last.
  - by intros [? ?]%app_eq_nil.
  - apply Forall_app. split; [done|]. apply Forall_singleton, not_elem_of_nil.
Qed.

Lemma numeral_line n : 0 ≤ n → newline ∉ numeral n.
Proof.
  intros Hn Hin. destruct (decimal_digits (Z.to_nat n) n Hn) as [Hd _].
  unfold all_digits in Hd. rewrite Forall_forall in Hd. by specialize (Hd _ Hin).
Qed.

Lemma no_newline (s : string) : has newline (u s) = false → newline ∉ u s.
Proof. apply has_false. Qed.

Lemma render_file_no_newline fd : file_ok fd → Forall (λ l, newline ∉ l) (render_file fd).
Proof.
  intros [Hn Hh]. destruct (name_unquoted _ Hn) as (_ & Hnl & _).
  rewrite render_file_lines. repeat apply Forall_cons_2 || apply Forall_app_2.
  - rewrite !elem_of_app. intros [H|[H|[H|H]]]; try done; by apply has_spec in H.
  - destruct (fd_kind fd); cbn [mode_lines]; repeat constructor; by apply no_newline.
  - by apply no_newline.
  - rewrite elem_of_app. intros [H|H]; [by apply has_spec in H|]. case_bool_decide;
      [by apply has_spec in H|]. apply elem_of_app in H as [H|H]; [by apply has_spec in H|done].
  - rewrite elem_of_app. intros [H|H]; [by apply has_spec in H|]. case_bool_decide;
      [by apply has_spec in H|]. apply elem_of_app in H as [H|H]; [by apply has_spec in H|done].
  - induction Hh as [|h hs [[Ho Hw] Ht] Hhs IH]; [constructor|].
    cbn [fmap list_fmap concat]. apply Forall_app_2; [|done]. unfold render_hunk. constructor.
    + unfold hunk_header.
      pose proof (count_marks_nonneg in_old (h_lines h) in_old_nonneg).
      pose proof (count_marks_nonneg in_new (h_lines h) in_new_nonneg).
      intros H'. repeat (rewrite elem_of_app in H' || rewrite elem_of_cons in H').
      destruct_or! H'; try done; try (by apply has_spec in H');
        by (eapply numeral_line; [|exact H']; unfold old_count, new_count; lia).
    + unfold render_lines. apply Forall_fmap. eapply Forall_impl; [exact Ht|].
      intros [m t] Hp. cbn in *. apply not_elem_of_cons. split; [by destruct m|done].
Qed.

(** Ordinary diffs are read back exactly: for any non-empty list of created, updated and
    deleted files with any hunks -- any starts within the safe integers, any unchanged, inserted
    and deleted lines --, the text git writes for them parses into one block per file, in order,
    with the file's name on the sides it exists on, the line counts of each hunk and the numbers
    of inserted and deleted lines.  The names are those the format can hold without quotes, not
    containing [ b/] and not beginning with [b/]. *)
Theorem diff_roundtrip fds :
  fds ≠ [] → Forall file_ok fds → parseUnifiedDiff (render fds) = Patched (block_of <$> fds).
Proof.
  intros Hne Hfds. unfold parseUnifiedDiff, render.
  assert (Hlines : Forall (λ l, newline ∉ l) (concat (render_file <$> fds))).
  { apply Forall_concat, Forall_fmap. eapply Forall_impl; [exact Hfds|]. apply render_file_no_newline. }
  assert (Hc : concat (render_file <$> fds) ≠ [] ∧
               (length fds ≤ length (concat (render_file <$> fds)))%nat).
  { clear Hlines Hfds. split.
    - destruct fds as [|fd fds]; [done|]. cbn [fmap list_fmap concat]. apply render_file_next.
    - clear Hne. induction fds as [|fd fds IH]; [done|]. cbn [fmap list_fmap concat length].
      rewrite length_app, render_file_lines. cbn [length]. lia. }
  destruct Hc as [Hc Hlen]. rewrite diff_lines_joined by done.
  apply parse_blocks_rendered; [done|lia].
Qed.

(** ** Ordinary patches that are refused *)

(** The lines of a pure rename. *)
Definition rename_lines (from to : ustring) : list ustring :=
  [u "diff --git a/" ++ from ++ u " b/" ++ to; u "similarity index 100%";
   u "rename from " ++ from; u "rename to " ++ to].

Lemma parse_envelope_rename from to :
  name_ok from → name_ok to →
  parse_envelope (u "diff --git a/" ++ from ++ u " b/" ++ to) = Patched (from, to).
Proof.
  intros Hf Ht. destruct (name_unquoted from Hf) as (Hqf & _).
  destruct (name_unquoted to Ht) as (Hqt & _). unfold parse_envelope.
  change (u "diff --git a/") with (u "diff --git " ++ u "a/").
  rewrite <- app_assoc, drop_app_length.
  assert (has doublequote (u "a/" ++ from ++ u " b/" ++ to) = false) as ->.
  { apply has_false. rewrite !elem_of_app. intros [H|[H|[H|H]]]; try done; set_solver. }
  cbn [reject_if]. rewrite app_assoc.
  rewrite (last_split_prefix _ (u "a/" ++ from) _ [] to
             (separator_split to (name_no_separator to Ht))).
  rewrite app_nil_r. change (u "a/" ++ from) with (97 :: 47 :: from) at 1. cbv iota.
  by rewrite strip_start_app, (name_kept to Ht), (name_not_quoted from Hf), (name_not_quoted to Ht).
Qed.

Lemma rename_then_refused fuel from to line rest :
  name_ok from → name_ok to → u_starts (u "diff --git ") line = true →
  parse_blocks (S fuel) (rename_lines from to ++ line :: rest) = PatchRejected "unexpected_record".
Proof.
  intros Hf Ht Hl. unfold rename_lines. cbn [app parse_blocks]. unfold parse_block.
  assert (u_starts (u "diff --git ") (u "diff --git a/" ++ from ++ u " b/" ++ to) = true) as ->
    by (apply u_starts_spec; eexists; by change (u "diff --git a/") with (u "diff --git " ++ u "a/");
        rewrite <- app_assoc).
  cbn [negb reject_if]. rewrite parse_envelope_rename by done. cbn [patch_bind].
  apply u_starts_spec in Hl as [t ->].
  set (n := drop 12 (u "rename from " ++ from)). set (n' := drop 10 (u "rename to " ++ to)).
  assert (E : parse_metadata
      (u "similarity index 100%" :: (u "rename from " ++ from) :: (u "rename to " ++ to) ::
       (u "diff --git " ++ t) :: rest) no_metadata = PatchRejected "unexpected_record") by done.
  by rewrite E.
Qed.

Lemma marker_refused fuel fd marker rest :
  file_ok fd → u_starts (u "\ No newline") marker = true →
  parse_blocks (S fuel) (render_file fd ++ marker :: rest) =
  PatchRejected "unexpected_record_outside_hunk".
Proof.
  intros Hfd Hm. pose proof (parse_block_rendered) as Hb.
  destruct (render_file fd) as [|line lines] eqn:E.
  { by destruct (render_file_next fd []) as [? _]; rewrite E in *. }
  cbn [app parse_blocks].
  assert (Hlen : (length (fd_hunks fd) < S (length (lines ++ marker :: rest)))%nat).
  { rewrite render_file_lines in E. injection E as _ <-.
    pose proof (render_hunks_length (fd_hunks fd)). rewrite !length_app. cbn [length]. lia. }
  specialize (Hb (S (length (lines ++ marker :: rest))) fd (marker :: rest) Hfd Hlen).
  rewrite E in Hb. rewrite Hb.
  destruct (S (length (lines ++ marker :: rest)) - length (fd_hunks fd))%nat as [|k] eqn:Hk; [lia|].
  apply u_starts_spec in Hm as [t ->]. reflexivity.
Qed.

(** Two kinds of ordinary patches are always refused.  A file whose last hunk ends in the
    marker for a missing newline at the end of the file is refused, whatever follows, because the
    marker is skipped only while the hunk still lacks lines; and a pure rename is refused as soon
    as another file follows it, because its metadata is only closed by a file header or a hunk. *)
Theorem ordinary_patches_refused fd marker from to rest :
  file_ok fd → name_ok from → name_ok to →
  u_starts (u "\ No newline") marker = true → newline ∉ marker →
  Forall (λ l, newline ∉ l) rest →
  parseUnifiedDiff (u_join newline (render_file fd ++ marker :: rest) ++ [newline]) =
    PatchRejected "unexpected_record_outside_hunk" ∧
  parseUnifiedDiff (u_join newline (rename_lines from to ++ render_file fd ++ rest) ++ [newline]) =
    PatchRejected "unexpected_record".
Proof.
  intros Hfd Hf Ht Hm Hmn Hrest. pose proof (render_file_no_newline fd Hfd) as Hlines.
  destruct (render_file_next fd rest) as [_ Hnext]. unfold parseUnifiedDiff. split.
  - rewrite diff_lines_joined.
    + by apply marker_refused.
    + by intros [? ?]%app_eq_nil.
    + apply Forall_app_2; [done|]. by constructor.
  - rewrite diff_lines_joined.
    + destruct (render_file fd ++ rest) as [|line tail] eqn:E; [|by apply rename_then_refused].
      by destruct (render_file_next fd rest) as [? _].
    + done.
    + apply Forall_app_2; [|by apply Forall_app_2].
      destruct (name_unquoted from Hf) as (_ & Hfn & _), (name_unquoted to Ht) as (_ & Htn & _).
      apply Forall_forall. intros l Hl Hin. in_cases Hl; subst l;
        repeat (rewrite elem_of_app in Hin); destruct_or? Hin; try done; by apply has_spec in Hin.
Qed.

(** ** Witnesses and counterexamples *)

Section Examples.
#[local] Existing Instance ascii_tables.

Definition text_of (lines : list string) : ustring := u_join newline (u <$> lines) ++ [newline].

Definition no_limits : PatchValidationContext :=
  {| ctx_rootId := "ws"; protectedPrefixes := Some [u ".github"]; allowBinary := None;
     allowModeChanges := None; ctx_budget := None |}.

Definition one_hunk : hunk :=
  {| h_old := 1; h_new := 1; h_lines := [(deleted, u "old"); (inserted, u "new")] |}.
Definition one_file : file_diff :=
  {| fd_name := u "src/x.ts"; fd_kind := op_update; fd_hunks := [one_hunk] |}.

Lemma one_file_ok : file_ok one_file.
Proof.
  split.
  - split; try reflexivity; try discriminate. apply (bool_decide_unpack _). reflexivity.
  - apply Forall_singleton. split; [vm_compute; split; split; discriminate|].
    apply (bool_decide_unpack _). reflexivity.
Qed.

Lemma readme_ok : name_ok (u "README.md").
Proof. split; try reflexivity; try discriminate. apply (bool_decide_unpack _). reflexivity. Qed.

Lemma diff_roundtrip_witness :
  parseUnifiedDiff (render [one_file]) = Patched [block_of one_file].
Proof. apply (diff_roundtrip [one_file]); [discriminate|apply Forall_singleton, one_file_ok]. Defined.

Lemma ordinary_patches_refused_witness :
  parseUnifiedDiff (u_join newline (render_file one_file ++ [u "\ No newline at end of file"]) ++
    [newline]) = PatchRejected "unexpected_record_outside_hunk".
Proof.
  apply (ordinary_patches_refused one_file (u "\ No newline at end of file") (u "README.md")
           (u "README.md") []).
  - apply one_file_ok.
  - apply readme_ok.
  - apply readme_ok.
  - reflexivity.
  - apply has_false. reflexivity.
  - constructor.
Defined.

Lemma accepted_patch_checked_witness :
  ∃ shape, validatePatch (λ _, "digest") (render [one_file]) no_limits = Patched shape ∧
  totalAddedLines shape + totalRemovedLines shape ≤ 20000.
Proof.
  destruct (validatePatch (λ _, "digest") (render [one_file]) no_limits) as [shape|w|w|] eqn:E.
  - exists shape. split; [reflexivity|].
    destruct (@accepted_patch_checked ascii_tables (λ _, "digest") ascii_tables_lawful
                (render [one_file]) no_limits shape ltac:(vm_compute; discriminate) E)
      as (_ & _ & _ & _ & _ & _ & _ & _ & _ & H & _).
    exact H.
  - exfalso. vm_compute in E. discriminate E.
  - exfalso. vm_compute in E. discriminate E.
  - exfalso. vm_compute in E. discriminate E.
Defined.

(** A file below a top-level directory [b]: the prefix [b/] is removed twice from the new name of
    the envelope, and both prefixes from the old name of the header, so the two disagree. *)
Example top_level_b_refused :
  validatePatch (λ _, "digest")
    (text_of ["diff --git a/b/x.ts b/b/x.ts"; "--- a/b/x.ts"; "+++ b/b/x.ts"; "@@ -1 +1 @@";
              "-old"; "+new"]) no_limits = PatchRejected "inconsistent_headers".
Proof. vm_compute. reflexivity. Qed.

(** A patch without any name is accepted as an update of the empty path, and no path is checked. *)
Example nameless_patch_accepted :
  validatePatch (λ _, "digest")
    (text_of ["diff --git /dev/null b//dev/null"; "@@ -0,0 +1 @@"; "+new"]) no_limits =
  Patched {| inputDigest := "digest";
             operations := [{| kind := op_update; targetPath := []; op_hunks := 1;
                               op_addedLines := 1; op_removedLines := 0 |}];
             pathDecisions := []; totalAddedLines := 1; totalRemovedLines := 0 |}.
Proof. vm_compute. reflexivity. Qed.

(** A hunk may hold more lines than its header declares: an unchanged line counts for both sides. *)
Example hunk_overshoots :
  parseUnifiedDiff (text_of ["diff --git a/x b/x"; "--- a/x"; "+++ b/x"; "@@ -1,0 +1,1 @@";
                             " kept"]) =
  Patched [{| gitOldPath := Some (u "x"); gitNewPath := Some (u "x"); oldPath := Some (u "x");
              newPath := Some (u "x"); renameFrom := None; renameTo := None;
              hasModeChange := false; hunks := [(0, 1)]; addedLines := 0; removedLines := 0 |}].
Proof. vm_compute. reflexivity. Qed.

(** With a hunk, the rename lines need not agree with the envelope. *)
Example rename_not_cross_checked :
  match validatePatch (λ _, "digest")
    (text_of ["diff --git a/x b/x"; "rename from y"; "rename to z"; "--- a/x"; "+++ b/x";
              "@@ -1 +1 @@"; "-old"; "+new"]) no_limits with
  | Patched shape => decided_path <$> pathDecisions shape
  | _ => []
  end = [u "x"; u "y"; u "z"].
Proof. vm_compute. reflexivity. Qed.
End Examples.
