(* ===== verification/ArtifactScan.v ===== *)
(** * Output collection, terminal sanitising and artifact promotion

    [packages/security/src/content/artifacts.ts]: the sanitiser of terminal text, the bounded
    collection of a byte stream, the scan-and-promote pipeline over its two scanners, and the
    authorisation of an artifact read. *)

From S2P Require Import Prelude JsString Effects JsDate CodeUnits PathGuard TarArchive.

(** ** Terminal text *)

Definition esc : Z := 27.
Definition between (a b c : Z) : bool := (a <=? c) && (c <=? b).

(** Drops the longest prefix in a class. *)
Fixpoint skip (p : Z → bool) (s : ustring) : ustring :=
  match s with c :: s' => if p c then skip p s' else s | [] => [] end.

(** [[0-?]*[ -/]*[@-~]] *)
Definition csi_tail (s : ustring) : option ustring :=
  match skip (between 32 47) (skip (between 48 63) s) with
  | c :: s' => if between 64 126 c then Some s' else None
  | [] => None
  end.

(** [[^\u0007\u001B\\]*(?:\u0007|\u001B\\)?] *)
Definition osc_end (s : ustring) : ustring :=
  match s with
  | c :: s1 =>
      if c =? 7 then s1
      else if c =? 27 then match s1 with d :: s2 => if d =? 92 then s2 else s | [] => s end
      else s
  | [] => []
  end.
Definition osc_tail (s : ustring) : ustring :=
  osc_end (skip (λ c, negb ((c =? 7) || (c =? 27) || (c =? 92))) s).

(** [[^\u0007\u009C]*(?:\u0007|\u009C)?] *)
Definition osc8_end (s : ustring) : ustring :=
  match s with
  | c :: s1 => if (c =? 7) || (c =? 156) then s1 else s
  | [] => []
  end.
Definition osc8_tail (s : ustring) : ustring :=
  osc8_end (skip (λ c, negb ((c =? 7) || (c =? 156))) s).

(** A match of the pattern at the head of the text: what follows it. *)
(* @src packages/security/src/content/artifacts.ts:34-36 ANSI_CSI_OSC *)
Definition ANSI_CSI_OSC (s : ustring) : option ustring :=
  match s with
  | c :: s1 =>
      if c =? 155 then csi_tail s1
      else if c =? 157 then Some (osc8_tail s1)
      else if c =? 27 then
        match s1 with
        | d :: s2 => if d =? 91 then csi_tail s2 else if d =? 93 then Some (osc_tail s2) else None
        | [] => None
        end
      else None
  | [] => None
  end.

(** [text.replaceAll(pattern, '')]; every match consumes, so the length is enough fuel. *)
Fixpoint remove_matches (fuel : nat) (s : ustring) : ustring :=
  match fuel with
  | O => s
  | S fuel =>
      match s with
      | [] => []
      | c :: s' =>
          match ANSI_CSI_OSC s with
          | Some rest => remove_matches fuel rest
          | None => c :: remove_matches fuel s'
          end
      end
  end.

(** [[\u0000-\u0008\u000B\u000C\u000E-\u001F]] *)
Definition stripped_control (c : Z) : bool :=
  between 0 8 c || (c =? 11) || (c =? 12) || between 14 31 c.

(* @src packages/security/src/content/artifacts.ts:39-42 sanitizeTerminal *)
Definition sanitizeTerminal (text : ustring) : ustring :=
  List.filter (λ c, negb (stripped_control c)) (remove_matches (length text) text).

(** *** What the sanitiser keeps *)

Lemma suffix_cons {A} (x : A) l l' : l `suffix_of` l' → l `suffix_of` x :: l'.
Proof. intros [a ->]. by exists (x :: a). Qed.

Ltac solve_suffix := first [reflexivity | apply suffix_cons; solve_suffix].

Lemma skip_suffix p s : skip p s `suffix_of` s.
Proof.
  induction s as [|c s IH]; [done|]. cbn [skip]. destruct (p c); [by apply suffix_cons|done].
Qed.

Lemma csi_suffix s r : csi_tail s = Some r → r `suffix_of` s.
Proof.
  unfold csi_tail. intros H.
  transitivity (skip (between 48 63) s); [|apply skip_suffix].
  transitivity (skip (between 32 47) (skip (between 48 63) s)); [|apply skip_suffix].
  destruct (skip (between 32 47) _) as [|c t]; [done|]. destruct (between 64 126 c); [|done].
  injection H as <-. by apply suffix_cons.
Qed.

Lemma osc_suffix s : osc_tail s `suffix_of` s ∧ osc8_tail s `suffix_of` s.
Proof.
  split.
  - unfold osc_tail. etransitivity; [|apply (skip_suffix (λ c, negb ((c =? 7) || (c =? 27) || (c =? 92))))].
    destruct (skip _ s) as [|c [|d t]]; cbn; [done|..]; repeat case_match; solve_suffix.
  - unfold osc8_tail. etransitivity; [|apply (skip_suffix (λ c, negb ((c =? 7) || (c =? 156))))].
    destruct (skip _ s) as [|c t]; cbn; [done|]. case_match; solve_suffix.
Qed.

(** A match is a non-empty prefix. *)
Lemma ANSI_suffix c s rest : ANSI_CSI_OSC (c :: s) = Some rest → rest `suffix_of` s.
Proof.
  unfold ANSI_CSI_OSC. destruct (osc_suffix s) as [_ H8].
  destruct (c =? 155); [apply csi_suffix|]. destruct (c =? 157); [by intros [= <-]|].
  destruct (c =? 27); [|done]. destruct s as [|d s]; [done|]. destruct (osc_suffix s) as [H7 _].
  destruct (d =? 91); [intros H%csi_suffix; by apply suffix_cons|].
  destruct (d =? 93); [|done]. intros [= <-]. by apply suffix_cons.
Qed.

Lemma remove_matches_sublist fuel s : remove_matches fuel s `sublist_of` s.
Proof.
  revert s. induction fuel as [|fuel IH]; intros s; [done|]. cbn [remove_matches].
  destruct s as [|c s]; [done|]. destruct (ANSI_CSI_OSC (c :: s)) as [rest|] eqn:E.
  - transitivity rest; [apply IH|]. apply ANSI_suffix in E as [a ->].
    apply sublist_cons. by apply sublist_inserts_l.
  - apply sublist_skip, IH.
Qed.

(** A text no match starts in is kept by the first replacement. *)
Definition plain_text (s : ustring) : Prop :=
  Forall (λ c, c ≠ 27 ∧ c ≠ 155 ∧ c ≠ 157 ∧ stripped_control c = false) s.

Lemma plain_text_kept s : plain_text s → sanitizeTerminal s = s.
Proof.
  unfold sanitizeTerminal. induction 1 as [|c s (H1 & H2 & H3 & Hc) Hs IH]; [done|].
  cbn [length remove_matches]. unfold ANSI_CSI_OSC.
  assert ((c =? 155) = false) as -> by by apply Z.eqb_neq.
  assert ((c =? 157) = false) as -> by by apply Z.eqb_neq.
  assert ((c =? 27) = false) as -> by by apply Z.eqb_neq.
  cbn [List.filter]. by rewrite Hc, IH.
Qed.

(** Sanitised text is part of the text, in order, and holds no escape and no other C0 control than
    tab, line feed and carriage return; a text without controls is left as it is. *)
Theorem sanitized_text text :
  sanitizeTerminal text `sublist_of` text ∧
  (∀ c, c ∈ sanitizeTerminal text → 0 ≤ c < 32 → c = 9 ∨ c = 10 ∨ c = 13) ∧
  (plain_text text → sanitizeTerminal text = text).
Proof.
  split_and!; [|..|apply plain_text_kept].
  - unfold sanitizeTerminal. transitivity (remove_matches (length text) text);
      [|apply remove_matches_sublist].
    induction (remove_matches _ _) as [|c s IH]; [done|]. cbn [List.filter].
    destruct (negb _); [by apply sublist_skip|by apply sublist_cons].
  - intros c [_ Hc]%bfilter_elem Hr. apply negb_true_iff in Hc.
    unfold stripped_control, between in Hc. lia.
Qed.

(** Removing a control can put a control sequence together: here the 8-bit introducer U+009B and
    [2J], which clears the screen.  A second pass would remove them. *)
Lemma sanitized_text_still_controls :
  sanitizeTerminal (155 :: 1 :: u "2J") = 155 :: u "2J" ∧
  sanitizeTerminal (155 :: u "2J") = [].
Proof. done. Qed.

(** ** Bounded output *)

(** [TextDecoder] in streaming mode: a chunk is decoded with what earlier chunks left over, and
    [decode()] flushes the rest. *)
Class TextDecoder := {
  decoder : Type;
  fresh_decoder : decoder;
  decode_chunk : decoder → bytes → ustring * decoder;
  flush_decoder : decoder → ustring;
}.

(* @src packages/security/src/content/artifacts.ts:61-67 collectOutput *)
Fixpoint countLines (text : ustring) : Z :=
  match text with [] => 0 | c :: text => (if c =? 10 then 1 else 0) + countLines text end.

(** A line feed is a line feed in every position of a UTF-8 stream. *)
Class DecoderLaws `{TextDecoder} : Prop :=
  decode_lines d chunk : countLines (decode_chunk d chunk).1 = countLines chunk.

(* @src packages/security/src/content/artifacts.ts:20-28 BoundedOutput *)
Record BoundedOutput := {
  text : ustring;
  truncated : bool;
  limitKind : option string;
  originalBytes : Z;
  originalLines : Z;
  digest : string;
}.

(** The bytes of a string, or the chunks of a stream, each with the time it is looked at. *)
Inductive source := Whole (b : bytes) | Chunks (l : list (Z * bytes)).

Section Collect.
Context `{Utf8} `{TextDecoder} (sha256_hex : ustring → string).

(** The variables of the collection. *)
(* @src packages/security/src/content/artifacts.ts:52-58 collectOutput *)
Record Collected := {
  retained : list bytes;
  c_totalBytes : Z;
  c_totalLines : Z;
  c_truncated : bool;
  c_limitKind : option string;
  c_decoder : decoder;
}.

Definition collect_start : Collected := {|
  retained := []; c_totalBytes := 0; c_totalLines := 1; c_truncated := false; c_limitKind := None;
  c_decoder := fresh_decoder
|}.

Definition byteLength_ (chunk : bytes) : Z := Z.of_nat (length chunk).
Definition retainCap (budget : ContentBudget) : Z :=
  Z.min (maxTotalBytes budget) (maxFileBytes budget).

(* @src packages/security/src/content/artifacts.ts:69-89 collectOutput *)
Definition processChunk (budget : ContentBudget) (s : Collected) (chunk : bytes) : Collected :=
  let '(chunkText, d) := decode_chunk (c_decoder s) chunk in
  let projectedTotalLines := c_totalLines s + countLines chunkText in
  let projectedTotalBytes := c_totalBytes s + byteLength_ chunk in
  let linesViolated := maxLines budget <? projectedTotalLines in
  let bytesViolated := retainCap budget <? projectedTotalBytes in
  let hit := negb (c_truncated s) && (linesViolated || bytesViolated) in
  let truncated := c_truncated s || hit in
  {| retained := if truncated then retained s else retained s ++ [chunk];
     c_totalBytes := projectedTotalBytes;
     c_totalLines := projectedTotalLines;
     c_truncated := truncated;
     c_limitKind := if hit then Some (if linesViolated then "lines" else "bytes")
                    else c_limitKind s;
     c_decoder := d |}.

(* @src packages/security/src/content/artifacts.ts:95-101 collectOutput *)
Fixpoint collect_chunks (deadline : Z) (budget : ContentBudget) (s : Collected)
    (chunks : list (Z * bytes)) : Collected :=
  match chunks with
  | [] => s
  | (now, chunk) :: chunks =>
      if deadline <? now then
        {| retained := retained s; c_totalBytes := c_totalBytes s; c_totalLines := c_totalLines s;
           c_truncated := true; c_limitKind := Some (c_limitKind s ?? "bytes");
           c_decoder := c_decoder s |}
      else collect_chunks deadline budget (processChunk budget s chunk) chunks
  end.

(* @src packages/security/src/content/artifacts.ts:44-119 collectOutput *)
Definition collectOutput (now : Z) (src : source) (budget : ContentBudget) : BoundedOutput :=
  let deadline := now + deadlineMs budget in
  let s := match src with
           | Whole b => processChunk budget collect_start b
           | Chunks l => collect_chunks deadline budget collect_start l
           end in
  let t := utf8_text (concat (retained s)) ++ flush_decoder (c_decoder s) in
  {| text := t; truncated := c_truncated s; limitKind := c_limitKind s;
     originalBytes := c_totalBytes s; originalLines := c_totalLines s; digest := sha256_hex t |}.

Context `{!DecoderLaws}.

(** The chunks of a source, whatever the clock says. *)
Definition chunks_of (src : source) : list bytes :=
  match src with Whole b => [b] | Chunks l => l.*2 end.

Definition total_bytes (l : list bytes) : Z := foldr (λ b n, byteLength_ b + n) 0 l.
Definition total_lines (l : list bytes) : Z := foldr (λ b n, countLines b + n) 0 l.

Lemma total_snoc l b :
  total_bytes (l ++ [b]) = total_bytes l + byteLength_ b ∧
  total_lines (l ++ [b]) = total_lines l + countLines b.
Proof. induction l as [|a l [IH1 IH2]]; simpl; lia. Qed.

(** The chunks that were processed, and those that are kept. *)
Record collected_ok (budget : ContentBudget) (seen : list bytes) (s : Collected) : Prop := {
  co_prefix : retained s `prefix_of` seen;
  co_bytes : c_totalBytes s = total_bytes seen;
  co_lines : c_totalLines s = 1 + total_lines seen;
  co_all : c_truncated s = false → retained s = seen;
  co_kind : c_truncated s = true ↔ c_limitKind s ≠ None;
  co_budget : retained s = [] ∨
    total_bytes (retained s) ≤ retainCap budget ∧ 1 + total_lines (retained s) ≤ maxLines budget;
}.

Lemma processChunk_ok budget seen s chunk :
  collected_ok budget seen s → collected_ok budget (seen ++ [chunk]) (processChunk budget s chunk).
Proof.
  intros [Hp Hb Hl Ha Hk Hbud]. unfold processChunk.
  pose proof (decode_lines (c_decoder s) chunk) as Hlines.
  destruct (decode_chunk (c_decoder s) chunk) as [t d]. cbn [fst] in Hlines.
  destruct (total_snoc seen chunk) as [Hsb Hsl].
  split; cbn [retained c_totalBytes c_totalLines c_truncated c_limitKind].
  - destruct (_ || _) eqn:E; [by apply prefix_app_r|].
    apply orb_false_iff in E as [E _]. rewrite Ha by done. done.
  - by rewrite Hsb, Hb.
  - rewrite Hsl, Hl, Hlines. lia.
  - intros E. rewrite E. apply orb_false_iff in E as [E _]. by rewrite Ha.
  - destruct (c_truncated s) eqn:Et; cbn [negb andb orb]; [by rewrite <- Hk|].
    destruct (_ || _); [done|]. rewrite <- Hk. done.
  - destruct (_ || _) eqn:E; [done|]. apply orb_false_iff in E as [E1 E2]. rewrite E1 in E2.
    apply orb_false_iff in E2 as [E2 E3]. right. rewrite Ha by done. rewrite Hsb, Hsl.
    apply Z.ltb_ge in E2, E3. split; [by rewrite <- Hb|]. rewrite Hl, Hlines in E2. lia.
Qed.

Lemma collect_start_ok budget : collected_ok budget [] collect_start.
Proof. split; cbn; try done; by left. Qed.

(** The stream is read to its end, or up to the chunk that comes after the deadline. *)
Lemma collect_chunks_ok deadline budget seen s chunks :
  collected_ok budget seen s →
  let s' := collect_chunks deadline budget s chunks in
  ∃ k, collected_ok budget (seen ++ take k chunks.*2) s' ∧
    (k = length chunks ∨
     ∃ now chunk, chunks !! k = Some (now, chunk) ∧ deadline < now ∧ c_truncated s' = true).
Proof.
  revert seen s. induction chunks as [|[now chunk] chunks IH]; intros seen s Hs;
    cbn [collect_chunks].
  - exists 0%nat. rewrite app_nil_r. split; [done|by left].
  - destruct (deadline <? now) eqn:E.
    + exists 0%nat. rewrite app_nil_r. destruct Hs as [Hp Hb Hl Ha Hk Hbud].
      split; [by split; cbn|]. right. apply Z.ltb_lt in E. by exists now, chunk.
    + destruct (IH (seen ++ [chunk]) _ (processChunk_ok budget seen s chunk Hs)) as (k & Hk & Hend).
      exists (S k). cbn. rewrite <- app_assoc in Hk. split; [done|].
      destruct Hend as [->|?]; [by left|by right].
Qed.

(** Collected output respects its budget, whatever the decoder and the clock do: the text
    comes from some of the first chunks of the source -- all of those that were read, unless it is
    reported as truncated --, and what is kept has at most as many bytes as the smaller of the
    two byte limits and at most as many lines as the line limit, or is nothing at all.  The
    reported counts are those of everything that was read, and the source is read to its end or
    up to the first chunk that comes after the deadline, which is then reported as truncated. *)
Theorem output_within_budget now src budget :
  let out := collectOutput now src budget in
  ∃ kept read d,
    text out = utf8_text (concat kept) ++ flush_decoder d ∧
    kept `prefix_of` read ∧ read `prefix_of` chunks_of src ∧
    (truncated out = false → kept = read) ∧
    (truncated out = true ↔ limitKind out ≠ None) ∧
    (kept = [] ∨ total_bytes kept ≤ retainCap budget ∧ 1 + total_lines kept ≤ maxLines budget) ∧
    originalBytes out = total_bytes read ∧ originalLines out = 1 + total_lines read ∧
    (read = chunks_of src ∨
     ∃ l t chunk, src = Chunks l ∧ l !! length read = Some (t, chunk) ∧
       now + deadlineMs budget < t ∧ truncated out = true) ∧
    digest out = sha256_hex (text out).
Proof.
  destruct src as [b|l]; cbn [collectOutput chunks_of].
  - pose proof (processChunk_ok budget [] collect_start b (collect_start_ok budget)) as H'.
    destruct H' as [Hp Hb Hl Ha Hk Hbud]. cbn [app] in *.
    eexists _, [b], _. split_and!; try done. by left.
  - destruct (collect_chunks_ok (now + deadlineMs budget) budget [] collect_start l
                (collect_start_ok budget)) as (k & [Hp Hb Hl Ha Hk Hbud] & Hend).
    cbn [app] in *. eexists _, (take k l.*2), _. split_and!; try done; [apply prefix_take|].
    destruct Hend as [->|(t & chunk & Hi & Ht & Htr)].
    + left. rewrite take_ge; [done|]. by rewrite length_fmap.
    + right. exists l, t, chunk. split_and!; try done.
      rewrite length_take, length_fmap, Nat.min_l; [done|].
      apply lookup_lt_Some in Hi. lia.
Qed.
End Collect.

(** ** Scan and promotion *)

(* @src packages/security/src/content/artifacts.ts:127-128 ArtifactScanState *)
Inductive ArtifactScanState :=
  COLLECTED | PENDING_SCAN | SCANNING | SAFE | QUARANTINED | EXPIRED | DELETED.
#[export] Instance ArtifactScanState_eq_dec : EqDecision ArtifactScanState.
Proof. solve_decision. Defined.

(* @src packages/security/src/content/artifacts.ts:130-135 ArtifactCandidate *)
Record ArtifactCandidate := {
  cand_repositoryId : string;
  cand_workflowRunId : string;
  cand_mediaType : string;
  content : bytes;
}.

(* @src packages/security/src/content/artifacts.ts:137-148 ArtifactRecordShape *)
Record ArtifactRecordShape := {
  artifactId : string;
  repositoryId : string;
  workflowRunId : string;
  mediaType : string;
  sizeBytes : Z;
  contentDigest : string;
  scanState : ArtifactScanState;
  scannerVersion : string;
  quarantineReasonCode : option string;
  createdAt : string;
}.

Inductive leak_status := clean | findings_present | scanner_unavailable.
#[export] Instance leak_status_eq_dec : EqDecision leak_status.
Proof. solve_decision. Defined.

(** Both scanners are given the buffer itself, so an answer says what it holds afterwards. *)
Inductive ScanCall :=
  | scanForLeaks (subjectId : string) (snapshot : bytes)
  | contentScan (snapshot : bytes).

(* @src packages/security/src/content/artifacts.ts:150-156 ContentScan *)
Record ContentScan := { available : bool; findings : Z }.

Definition ScanAns (c : ScanCall) : Type :=
  match c with scanForLeaks _ _ => leak_status | contentScan _ => ContentScan end * bytes.

Definition snapshot_of (c : ScanCall) : bytes :=
  match c with scanForLeaks _ b | contentScan b => b end.

(** An error whose name is [AbortError]. *)
Definition is_abort (e : js_error) : bool := bool_decide (e = PlainError "AbortError").

Section Promotion.
Context (sha256_of : bytes → string).

(* @src packages/security/src/content/artifacts.ts:255-257 quarantined *)
Definition quarantined (base : ArtifactRecordShape) (reasonCode : string) : ArtifactRecordShape := {|
  artifactId := artifactId base; repositoryId := repositoryId base;
  workflowRunId := workflowRunId base; mediaType := mediaType base; sizeBytes := sizeBytes base;
  contentDigest := contentDigest base; scanState := QUARANTINED;
  scannerVersion := scannerVersion base; quarantineReasonCode := Some reasonCode;
  createdAt := createdAt base |}.

Definition promoted (base : ArtifactRecordShape) : ArtifactRecordShape := {|
  artifactId := artifactId base; repositoryId := repositoryId base;
  workflowRunId := workflowRunId base; mediaType := mediaType base; sizeBytes := sizeBytes base;
  contentDigest := contentDigest base; scanState := SAFE;
  scannerVersion := scannerVersion base; quarantineReasonCode := quarantineReasonCode base;
  createdAt := createdAt base |}.

(** A scanner whose failure, other than an abort, counts as unavailable; one that fails is taken to leave
    the buffer as it is. *)
(* @src packages/security/src/content/artifacts.ts:204-215 scanAndPromote *)
Definition leak_scan (id : string) (snapshot : bytes) : proc ScanAns (leak_status * bytes) :=
  ptry (call (Ans := ScanAns) (scanForLeaks id snapshot))
       (λ e, if is_abort e then throw e else pret (scanner_unavailable, snapshot)).

(* @src packages/security/src/content/artifacts.ts:226-237 scanAndPromote *)
Definition content_scan (snapshot : bytes) : proc ScanAns (ContentScan * bytes) :=
  ptry (call (Ans := ScanAns) (contentScan snapshot))
       (λ e, if is_abort e then throw e
             else pret ({| available := false; findings := 0 |}, snapshot)).

Definition maxScanAttempts : nat := 2.

(** The rounds of the loop; [attempts] have been made before. *)
(* @src packages/security/src/content/artifacts.ts:198-251 scanAndPromote *)
Fixpoint scan_rounds (fuel attempts : nat) (base : ArtifactRecordShape) (snapshot : bytes)
    : proc ScanAns ArtifactRecordShape :=
  match fuel with
  | O => throw (PlainError "out of fuel")
  | S fuel =>
      let attempts := S attempts in
      leak <~ leak_scan (artifactId base) snapshot ;;
      let '(leakStatus, snapshot) := leak in
      if bool_decide (leakStatus = scanner_unavailable) && (attempts <? maxScanAttempts)%nat
      then scan_rounds fuel attempts base snapshot else
      if bool_decide (leakStatus = findings_present) then pret (quarantined base "leak_findings") else
      if bool_decide (leakStatus = scanner_unavailable)
      then pret (quarantined base "scanner_unavailable") else
      looked <~ content_scan snapshot ;;
      let '(scan, snapshot) := looked in
      if negb (available scan) && (attempts <? maxScanAttempts)%nat
      then scan_rounds fuel attempts base snapshot else
      if negb (available scan) then pret (quarantined base "content_scanner_unavailable") else
      if 0 <? findings scan then pret (quarantined base "content_findings") else
      if negb (sha256_of snapshot =s? contentDigest base)
      then throw (GuardError "PUBLICATION_BLOCKED") else
      pret (promoted base)
  end.

(* @src packages/security/src/content/artifacts.ts:181-253 scanAndPromote *)
Definition scanAndPromote (uuid createdAt : string) (candidate : ArtifactCandidate)
    : proc ScanAns ArtifactRecordShape :=
  let contentSnapshot := content candidate in
  let base := {|
    artifactId := uuid; repositoryId := cand_repositoryId candidate;
    workflowRunId := cand_workflowRunId candidate; mediaType := cand_mediaType candidate;
    sizeBytes := byteLength_ (content candidate); contentDigest := sha256_of contentSnapshot;
    scanState := PENDING_SCAN; scannerVersion := "dg-content-1"; quarantineReasonCode := None;
    createdAt := createdAt |} in
  scan_rounds maxScanAttempts 0 base contentSnapshot.

(** The last two calls of a promotion: a clean leak scan, and then a content scan of the same
    buffer that is available and has no findings. *)
Definition scanned_clean (id : string) (tr : list (event ScanAns)) (b : bytes) : Prop :=
  ∃ before b1 b2 n,
    tr = before ++ [ev (Ans := ScanAns) (scanForLeaks id b1) (Returned (clean, b2));
                    ev (Ans := ScanAns) (contentScan b2)
                      (Returned ({| available := true; findings := n |}, b))] ∧ n ≤ 0.

(** How a scan ends. *)
Definition scan_outcome (base : ArtifactRecordShape) (tr : list (event ScanAns))
    (o : outcome ArtifactRecordShape) : Prop :=
  (length tr ≤ 4)%nat ∧
  match o with
  | Returned r =>
      (r = promoted base ∧
       ∃ b, scanned_clean (artifactId base) tr b ∧ sha256_of b = contentDigest base) ∨
      (∃ why, r = quarantined base why)
  | Threw e => e = GuardError "PUBLICATION_BLOCKED" ∨ is_abort e = true
  end.

Lemma ensures_scan {A} (c : ScanCall) (fallback : ScanAns c) (k : ScanAns c → proc ScanAns A)
    (Q : list (event ScanAns) → outcome A → Prop) tr :
  (∀ a, ensures (λ _ _, True) Q (tr ++ [ev (Ans := ScanAns) c (Returned a)]) (k a)) →
  (∀ e, is_abort e = false →
     ensures (λ _ _, True) Q (tr ++ [ev (Ans := ScanAns) c (Threw e)]) (k fallback)) →
  (∀ e, is_abort e = true → Q (tr ++ [ev (Ans := ScanAns) c (Threw e)]) (Threw e)) →
  ensures (λ _ _, True) Q tr
    (pbind (ptry (call (Ans := ScanAns) c) (λ e, if is_abort e then throw e else pret fallback)) k).
Proof.
  intros Hok Hfail Habort. split; [done|]. intros [a|e]; [apply Hok|]. cbn.
  destruct (is_abort e) eqn:He; [by apply Habort|by apply Hfail].
Qed.

Lemma scan_rounds_ok fuel attempts base snapshot tr :
  (fuel + attempts = maxScanAttempts)%nat → (0 < fuel)%nat → (length tr ≤ 2 * attempts)%nat →
  ensures (λ _ _, True) (scan_outcome base) tr (scan_rounds fuel attempts base snapshot).
Proof.
  revert attempts snapshot tr. induction fuel as [|fuel IH]; intros attempts snapshot tr Hf Hpos Hlen;
    [lia|]. cbn [scan_rounds]. unfold maxScanAttempts in *.
  assert (Hretry : ∀ tr' s, (length tr' ≤ 2 * S attempts)%nat → (S attempts <? 2)%nat = true →
    ensures (λ _ _, True) (scan_outcome base) tr' (scan_rounds fuel (S attempts) base s)).
  { intros tr' s Hl Hlt. apply Nat.ltb_lt in Hlt. apply IH; lia. }
  assert (Hquar : ∀ tr' why, (length tr' ≤ 4)%nat →
    ensures (λ _ _, True) (scan_outcome base) tr' (pret (quarantined base why))).
  { intros tr' why Hl. split; [done|]. right. by exists why. }
  assert (Hl1 : ∀ e, (length (tr ++ [e]) ≤ 2 * S attempts)%nat)
    by (intros e; rewrite length_app; cbn [length]; lia).
  assert (Hl2 : ∀ e f, (length ((tr ++ [e]) ++ [f]) ≤ 2 * S attempts)%nat)
    by (intros e f; rewrite !length_app; cbn [length]; lia).
  assert (H4 : (2 * S attempts ≤ 4)%nat) by lia.
  assert (Hunavail : ∀ tr' s, (length tr' ≤ 2 * S attempts)%nat →
    ensures (λ _ _, True) (scan_outcome base) tr'
      (if (S attempts <? 2)%nat then scan_rounds fuel (S attempts) base s
       else pret (quarantined base "scanner_unavailable"))).
  { intros tr' s Hl. destruct (S attempts <? 2)%nat eqn:E; [by apply Hretry|apply Hquar; lia]. }
  apply (ensures_scan (scanForLeaks (artifactId base) snapshot)).
  2: { intros e _. cbn -[scan_rounds Nat.ltb]. by apply Hunavail. }
  2: { intros e He. split; [etransitivity; [apply Hl1|done]|by right]. }
  intros [st b2]. destruct st; cbn -[scan_rounds Nat.ltb].
  2: { apply Hquar. etransitivity; [apply Hl1|done]. }
  2: { by apply Hunavail. }
  apply (ensures_scan (contentScan b2)).
  2: { intros e _. cbn -[scan_rounds Nat.ltb]. destruct (S attempts <? 2)%nat eqn:E;
         [by apply Hretry|apply Hquar; etransitivity; [apply Hl2|done]]. }
  2: { intros e He. split; [etransitivity; [apply Hl2|done]|by right]. }
  intros [[av n] b3]. cbn -[scan_rounds Nat.ltb Z.ltb].
  destruct av; cbn -[scan_rounds Nat.ltb Z.ltb].
  - destruct (0 <? n) eqn:En; [apply Hquar; etransitivity; [apply Hl2|done]|]. apply Z.ltb_ge in En.
    destruct (sha256_of b3 =s? contentDigest base) eqn:Ed; cbn; breflect;
      (split; [etransitivity; [apply Hl2|done]|]); [left|by left].
    split; [done|]. exists b3. split; [|done].
    exists tr, snapshot, b2, n. by rewrite <- app_assoc.
  - destruct (S attempts <? 2)%nat eqn:E; [by apply Hretry|].
    apply Hquar. etransitivity; [apply Hl2|done].
Qed.

(** Only scanned bytes are promoted: whatever the scanners answer, throw or do to the buffer they
    are given, at most four scans are made, and the record is SAFE only when the last two are a
    clean leak scan and a content scan of the same buffer that is available and has no findings,
    and the buffer still has the digest of the candidate's bytes; every other record is
    quarantined with a reason, and the only errors are an abort and a changed buffer. *)
Theorem only_scanned_is_safe uuid at_ candidate :
  ensures (λ _ _, True)
    (λ tr o, (length tr ≤ 4)%nat ∧
       match o with
       | Returned r =>
           contentDigest r = sha256_of (content candidate) ∧ artifactId r = uuid ∧
           (scanState r = SAFE ∧
            (∃ b, scanned_clean uuid tr b ∧ sha256_of b = sha256_of (content candidate)) ∨
            scanState r = QUARANTINED ∧ quarantineReasonCode r ≠ None)
       | Threw e => e = GuardError "PUBLICATION_BLOCKED" ∨ is_abort e = true
       end) [] (scanAndPromote uuid at_ candidate).
Proof.
  unfold scanAndPromote.
  eapply ensures_mono; [done| |apply scan_rounds_ok; unfold maxScanAttempts; cbn [length]; lia].
  intros tr [r|e] [Hl Ho]; (split; [done|]); [|done].
  destruct Ho as [(-> & b & Hc & Hd)|[why ->]]; cbn in *; split_and!; try done.
  - left. split; [done|]. by exists b.
  - by right.
Qed.
End Promotion.

(** ** Reading an artifact *)

(* @src packages/security/src/content/artifacts.ts:261-288 authorizeArtifactRead *)
Definition authorizeArtifactRead `{DateParse} (now : Z) (recordRepository : string)
    (state : ArtifactScanState) (retentionExpiresAt : option string)
    (allowed : bool) (accessRepository : string) : outcome unit :=
  if negb allowed || negb (accessRepository =s? recordRepository)
  then Threw (GuardError "ARTIFACT_ACCESS_DENIED")
  else if negb (bool_decide (state = SAFE)) then Threw (GuardError "ARTIFACT_NOT_SAFE")
  else match retentionExpiresAt with
       | None => Returned tt
       | Some t =>
           match date_parse t with
           | None => Threw (GuardError "ARTIFACT_EXPIRED")
           | Some expiryMs =>
               if expiryMs <=? now then Threw (GuardError "ARTIFACT_EXPIRED") else Returned tt
           end
       end.

(** An artifact is read exactly when the access is to its own repository, its scan made it SAFE,
    and its retention, if there is one, is a date that has not been reached. *)
Theorem artifact_read_exact `{DateParse} now repo state expires allowed access :
  authorizeArtifactRead now repo state expires allowed access = Returned tt ↔
  allowed = true ∧ access = repo ∧ state = SAFE ∧
  (∀ t, expires = Some t → ∃ ms, date_parse t = Some ms ∧ now < ms).
Proof.
  unfold authorizeArtifactRead. destruct allowed; cbn [negb orb]; [|naive_solver].
  destruct (String.eqb_spec access repo) as [->|]; cbn [negb]; [|naive_solver].
  case_bool_decide as Hs; cbn [negb]; [|split; [done|by intros (_ & _ & ? & _)]].
  destruct expires as [t|]; [|by split; [intros _; split_and!|]].
  destruct (date_parse t) as [ms|] eqn:Hd;
    [|split; [done|intros (_ & _ & _ & Ht); destruct (Ht t eq_refl) as (? & ? & _); congruence]].
  destruct (ms <=? now) eqn:E; breflect; (split; [done || intros _|]).
  - intros (_ & _ & _ & Ht). destruct (Ht t eq_refl) as (ms' & Hd' & ?). rewrite Hd in Hd'. simplify_eq. lia.
  - split_and!; try done. intros t' [= <-]. by exists ms.
  - done.
Qed.
