(* ===== verification/Perimeter.v ===== *)
(** * Perimeter: secrets, cross-site checks, rate policies and webhook signatures

    [packages/security/src/secrets/] (references and leases, the order of the checks of the
    resolver, envelope encryption with its associated data) and [packages/security/src/api/]
    (origins, the cross-site check, the limiter that fails closed, the verification of a signed
    delivery).  AES-256-GCM, Base64, UTF-8 decoding and the URL parser are classes with their
    documented laws; the bytes of a body or a key are characters below U+0100. *)

From S2P Require Import Prelude JsString Effects JsDate Json Redaction.

(** ** References and leases *)

(* @src packages/security/src/secrets/refs.ts:14-22 SECRET_STATUSES *)
Inductive SecretStatus := CONFIGURED | AVAILABLE | EXPIRING | ROTATING | REVOKED | UNAVAILABLE.

#[export] Instance SecretStatus_eq_dec : EqDecision SecretStatus.
Proof. solve_decision. Defined.

(* @src packages/security/src/secrets/refs.ts:25-25 RESOLVABLE_STATUSES *)
Definition RESOLVABLE_STATUSES : list SecretStatus := [AVAILABLE; EXPIRING].

(* @src packages/security/src/secrets/refs.ts:27-28 SCOPE_TYPES *)
Inductive ScopeType := global | repository | workflow | action.

#[export] Instance ScopeType_eq_dec : EqDecision ScopeType.
Proof. solve_decision. Defined.

(** [expiresAt] is the instant its text denotes. *)
(* @src packages/security/src/secrets/refs.ts:30-40 SecretRefShape *)
Record SecretRefShape := {
  name : string;
  purpose : string;
  scopeType : ScopeType;
  scopeId : string;
  version : string;
  expiresAt : option Z;
  status : SecretStatus;
}.

(* @src packages/security/src/secrets/refs.ts:56-61 AuthorizationContext *)
Record AuthorizationContext := {
  callerId : string;
  a_purpose : string;
  a_scopeType : ScopeType;
  a_scopeId : string;
}.

(* @src packages/security/src/secrets/refs.ts:67-80 ResolvedSecretLease *)
Record ResolvedSecretLease := {
  refName : string;
  lease_version : string;
  leaseExpiresAtMs : Z;
  lease_value : option string;
}.

(* @src packages/security/src/secrets/refs.ts:92-97 release *)
Definition release (l : ResolvedSecretLease) : ResolvedSecretLease := {|
  refName := refName l; lease_version := lease_version l;
  leaseExpiresAtMs := leaseExpiresAtMs l; lease_value := None |}.

Definition SECRET_UNAVAILABLE : js_error := GuardError "SECRET_UNAVAILABLE".
Definition SECRET_ACCESS_DENIED : js_error := GuardError "SECRET_ACCESS_DENIED".

(** What the callback is given, and the lease afterwards. *)
(* @src packages/security/src/secrets/refs.ts:83-89 use *)
Definition use (now : Z) (l : ResolvedSecretLease) : outcome string * ResolvedSecretLease :=
  if leaseExpiresAtMs l <=? now then (Threw SECRET_UNAVAILABLE, release l)
  else (Returned (lease_value l ?? ""), l).

(* @src packages/security/src/secrets/refs.ts:99-105 toJSON *)
Definition lease_text (l : ResolvedSecretLease) : string := "[REDACTED]".

(** ** Resolution *)

(** The calls: the clock, the backend, and the callback of [withSecret]. *)
Inductive SecretCall :=
  | now_
  | get (name : string)
  | callback (value : string).

(** A backend that throws rejects; [DevGuardError]s pass, everything else becomes
    [SECRET_UNAVAILABLE]. *)
Definition SecretAns (c : SecretCall) : Type :=
  match c with now_ => Z | get _ => option string | callback _ => () end.

Abbreviation secret := (proc SecretAns).
Definition ask (c : SecretCall) : secret (SecretAns c) := call c.

(* @src packages/security/src/secrets/resolver.ts:22-22 LEASE_TTL_MS *)
Definition LEASE_TTL_MS : Z := 30000.

(* @src packages/security/src/secrets/resolver.ts:31-34 scopeMatches *)
Definition scopeMatches (r : SecretRefShape) (auth : AuthorizationContext) : bool :=
  bool_decide (scopeType r = global) ||
  (bool_decide (scopeType r = a_scopeType auth) && (scopeId r =s? a_scopeId auth)).

(** The fetch that concurrent callers share: a usable value, or an error. *)
(* @src packages/security/src/secrets/resolver.ts:75-88 resolveSecret *)
Definition fetch (n : string) : secret string :=
  ptry (raw <~ ask (get n) ;;
        match raw with
        | Some v => if str_length v <? 8 then throw SECRET_UNAVAILABLE else pret v
        | None => throw SECRET_UNAVAILABLE
        end)
       (λ e, match e with GuardError _ => throw e | PlainError _ => throw SECRET_UNAVAILABLE end).

Section Service.
Context (leaseTtlMs : option Z).

(* @src packages/security/src/secrets/resolver.ts:41-44 constructor *)
Definition ttl : Z := Z.max 1 (leaseTtlMs ?? LEASE_TTL_MS).

(** [joined]: what a fetch of the same name and version, in progress when this call arrived,
    settles to; without one the call starts its own. *)
(* @src packages/security/src/secrets/resolver.ts:46-98 resolveSecret *)
Definition resolveSecret (joined : option (outcome string)) (r : SecretRefShape)
    (authorization : AuthorizationContext) : secret ResolvedSecretLease :=
  if negb (bool_decide (status r ∈ RESOLVABLE_STATUSES)) then throw (GuardError "SECRET_STATE_INVALID")
  else
    expired <~ match expiresAt r with
               | Some t => pbind (ask now_) (λ now, pret (t <=? now))
               | None => pret false
               end ;;
    if expired : bool then throw SECRET_UNAVAILABLE
    else if negb (purpose r =s? a_purpose authorization) then throw SECRET_ACCESS_DENIED
    else if negb (scopeMatches r authorization) then throw SECRET_ACCESS_DENIED
    else
      rawValue <~ match joined with Some o => Done o | None => fetch (name r) end ;;
      now <~ ask now_ ;;
      pret {| refName := name r; lease_version := version r; leaseExpiresAtMs := now + ttl;
              lease_value := Some rawValue |}.

(** The lease is released on every path; its value leaves only through the callback. *)
(* @src packages/security/src/secrets/resolver.ts:104-118 withSecret *)
Definition withSecret (joined : option (outcome string)) (r : SecretRefShape)
    (authorization : AuthorizationContext) : secret () :=
  lease <~ resolveSecret joined r authorization ;;
  now <~ ask now_ ;;
  if leaseExpiresAtMs lease <=? now then throw SECRET_UNAVAILABLE
  else
    now <~ ask now_ ;;
    value <~ Done (use now lease).1 ;;
    ask (callback value).
End Service.

(** ** Envelope encryption *)

(** [aes-256-gcm] with key, nonce and associated data: the ciphertext with its tag, and back. *)
Class Aead := {
  seal : string → string → string → string → string * string;
  unseal : string → string → string → string → string → option string;
  unseal_seal key iv aad text :
    unseal key iv aad (seal key iv aad text).1 (seal key iv aad text).2 = Some text;
}.

(** [toString('base64')] and [Buffer.from(_, 'base64')]. *)
Class Base64 := {
  to_base64 : string → string;
  from_base64 : string → string;
  from_to_base64 s : from_base64 (to_base64 s) = s;
}.

(** UTF-8 of the characters below U+0100, as bytes; [toString('utf8')] reads it back. *)
Fixpoint utf8_encode (s : string) : string :=
  match s with
  | EmptyString => EmptyString
  | String c s =>
      let n := code_of c in
      if n <? 128 then String c (utf8_encode s)
      else String (ascii_of_N (Z.to_N (192 + n / 64)))
             (String (ascii_of_N (Z.to_N (128 + n mod 64))) (utf8_encode s))
  end.

Class Utf8Decode := {
  utf8_decode : string → string;
  utf8_decode_encode s : utf8_decode (utf8_encode s) = s;
}.

Definition byte (n : Z) : ascii := ascii_of_N (Z.to_N (n mod 256)).

(** [writeUInt32BE]. *)
Definition uint32_be (n : Z) : string :=
  String (byte (n / 16777216)) (String (byte (n / 65536)) (String (byte (n / 256)) (String (byte n) ""))).

(* @src packages/security/src/secrets/envelope.ts:34-39 AssociatedData *)
Record AssociatedData := {
  d_scopeType : string;
  d_scopeId : string;
  d_purpose : string;
  refVersion : string;
}.

(* @src packages/security/src/secrets/envelope.ts:41-48 EncryptedSecretRecord *)
Record EncryptedSecretRecord := {
  ciphertextB64 : string;
  ivB64 : string;
  authTagB64 : string;
  keyVersion : string;
  r_aadDigest : string;
}.

(* @src packages/security/src/secrets/envelope.ts:56-61 canonicalAad *)
Definition prefixed (field : string) : string :=
  let bytes := utf8_encode field in uint32_be (str_length bytes) +s bytes.
Definition aad_fields (d : AssociatedData) : list string :=
  [d_scopeType d; d_scopeId d; d_purpose d; refVersion d].
(* @src packages/security/src/secrets/envelope.ts:50-63 canonicalAad *)
Definition canonicalAad (d : AssociatedData) : string := join "" (map prefixed (aad_fields d)).

Section Envelope.
Context {Hdigest : Digest} {Haead : Aead} {H64 : Base64} {Hutf8 : Utf8Decode}.
(** [getKey]: [None] when it throws. *)
Context (getKey : string → option string) (activeKeyVersion : string).

(* @src packages/security/src/secrets/envelope.ts:65-67 aadDigest *)
Definition aadDigest (d : AssociatedData) : string := sha256 (canonicalAad d).

(* @src packages/security/src/secrets/envelope.ts:75-92 encrypt *)
Definition encrypt (iv plaintext : string) (associatedData : AssociatedData)
  : outcome EncryptedSecretRecord :=
  match getKey activeKeyVersion with
  | None => Threw (PlainError ("unknown_key_version:" +s activeKeyVersion))
  | Some key =>
      if negb (str_length key =? 32) then Threw (PlainError "master_key_must_be_32_bytes")
      else
        let sealed := seal key iv (canonicalAad associatedData) (utf8_encode plaintext) in
        Returned {| ciphertextB64 := to_base64 sealed.1; ivB64 := to_base64 iv;
          authTagB64 := to_base64 sealed.2; keyVersion := activeKeyVersion;
          r_aadDigest := aadDigest associatedData |}
  end.

(* @src packages/security/src/secrets/envelope.ts:94-113 decrypt *)
Definition decrypt (record : EncryptedSecretRecord) (associatedData : AssociatedData) : outcome string :=
  if negb (str_length (aadDigest associatedData) =? str_length (r_aadDigest record))
  then Threw (PlainError "ERR_CRYPTO_TIMING_SAFE_EQUAL_LENGTH")
  else if negb (aadDigest associatedData =s? r_aadDigest record) then Threw (PlainError "aad_mismatch")
  else
    match getKey (keyVersion record) with
    | None => Threw (PlainError ("unknown_key_version:" +s keyVersion record))
    | Some key =>
        match unseal key (from_base64 (ivB64 record)) (canonicalAad associatedData)
                (from_base64 (ciphertextB64 record)) (from_base64 (authTagB64 record)) with
        | Some bytes => Returned (utf8_decode bytes)
        | None => Threw (PlainError "decryption_failed")
        end
    end.
End Envelope.

(** ** Origins and the cross-site check *)

(** [new URL(raw)]: [None] when it throws. *)
Record Url := {
  protocol : string;
  username : string;
  password : string;
  host : string;
  pathname : string;
  search : string;
  hash : string;
}.
Class UrlParse := url_parse : string → option Url.

Section Origins.
Context {Hurl : UrlParse}.

(* @src packages/security/src/api/perimeter.ts:26-45 normalizeOrigin *)
Definition normalizeOrigin (raw : string) : string :=
  match url_parse raw with
  | None => ""
  | Some parsed =>
      if negb (str_in (protocol parsed) ["http:"; "https:"]) || nonempty (username parsed) ||
         nonempty (password parsed) || (negb (pathname parsed =s? "/") && nonempty (pathname parsed)) ||
         nonempty (search parsed) || nonempty (hash parsed)
      then "" else toLowerCase (protocol parsed +s "//" +s host parsed)
  end.

(* @src packages/security/src/api/perimeter.ts:47-54 OriginPolicy *)
Definition OriginPolicy (allowedOrigins : list string) : list string :=
  List.filter nonempty (map normalizeOrigin allowedOrigins).

(* @src packages/security/src/api/perimeter.ts:56-67 isAllowed *)
Definition isAllowed (allowed : list string) (originHeader : option string) : bool :=
  match originHeader with
  | None => false
  | Some o =>
      if (o =s? "") || (o =s? "null") then false
      else let normalized := normalizeOrigin o in nonempty normalized && str_in normalized allowed
  end.

(* @src packages/security/src/api/perimeter.ts:20-24 CorsDecision *)
Record CorsDecision := { cors_allowed : bool; varyOrigin : bool; maxAgeSeconds : Z }.

(* @src packages/security/src/api/perimeter.ts:69-72 evaluateCors *)
Definition evaluateCors (allowed : list string) (originHeader : option string) : CorsDecision :=
  let ok := isAllowed allowed originHeader in
  {| cors_allowed := ok; varyOrigin := true; maxAgeSeconds := if ok then 600 else 0 |}.

(* @src packages/security/src/api/perimeter.ts:79-79 FetchMetadataSite *)
Inductive FetchMetadataSite := same_origin | same_site | cross_site | none.

#[export] Instance FetchMetadataSite_eq_dec : EqDecision FetchMetadataSite.
Proof. solve_decision. Defined.

(* @src packages/security/src/api/perimeter.ts:81-94 fetchMetadataSite *)
Definition fetchMetadataSite (headerValue : option string) : FetchMetadataSite :=
  match headerValue with
  | Some v =>
      if v =s? "same-origin" then same_origin
      else if v =s? "same-site" then same_site
      else if v =s? "none" then none
      else if v =s? "cross-site" then cross_site
      else none
  | None => none
  end.

(* @src packages/security/src/api/perimeter.ts:96-106 CsrfVerificationInput *)
Record CsrfVerificationInput := {
  method : string;
  cookieToken : option string;
  headerToken : option string;
  origin : option string;
  secFetchSite : FetchMetadataSite;
  publicOrigin : option string;
  bearerAuthenticated : bool;
  webhookPath : bool;
}.

(* @src packages/security/src/api/perimeter.ts:108-112 CsrfDecision *)
Inductive CsrfDecision :=
  | Allowed
  | Refused (reasonCode : string).

(* @src packages/security/src/api/perimeter.ts:114-119 safeEquals *)
Definition safeEquals (a b : string) : bool := a =s? b.

(* @src packages/security/src/api/perimeter.ts:122-155 verifyCsrf *)
Definition verifyCsrf (input : CsrfVerificationInput) : CsrfDecision :=
  let mutating := negb (str_in (toUpperCase (method input)) ["GET"; "HEAD"; "OPTIONS"]) in
  if negb mutating then Allowed
  else if webhookPath input then Allowed
  else if bearerAuthenticated input && bool_decide (cookieToken input = None) then Allowed
  else if bool_decide (secFetchSite input = cross_site) || bool_decide (secFetchSite input = none)
  then Refused "cross_site_blocked"
  else if match publicOrigin input with
          | None => false
          | Some p => match origin input with
                      | None => true
                      | Some o => negb (isAllowed (OriginPolicy [p]) (Some o))
                      end
          end
  then Refused "origin_disallowed"
  else
    match cookieToken input, headerToken input with
    | Some cookie, Some header =>
        if safeEquals cookie header then Allowed else Refused "csrf_pair_mismatch"
    | _, _ => Refused "csrf_pair_missing"
    end.
End Origins.

(** ** Rate policies *)

(* @src packages/security/src/api/perimeter.ts:161-171 RatePolicyClass *)
Inductive RatePolicyClass :=
  | auth_login | auth_callback | auth_logout | webhook_ingress | approval_resolve | workflow_start
  | workflow_cancel | artifact_download | expensive_diagnostics | default_class.

Definition class_text (c : RatePolicyClass) : string :=
  match c with
  | auth_login => "auth_login" | auth_callback => "auth_callback" | auth_logout => "auth_logout"
  | webhook_ingress => "webhook_ingress" | approval_resolve => "approval_resolve"
  | workflow_start => "workflow_start" | workflow_cancel => "workflow_cancel"
  | artifact_download => "artifact_download" | expensive_diagnostics => "expensive_diagnostics"
  | default_class => "default"
  end.

(* @src packages/security/src/api/perimeter.ts:173-178 RatePolicy *)
Record RatePolicy := { limit : Z; windowSeconds : Z; failClosedOnOutage : bool }.

(* @src packages/security/src/api/perimeter.ts:180-191 RATE_POLICIES *)
Definition RATE_POLICIES (c : RatePolicyClass) : RatePolicy :=
  match c with
  | auth_login => {| limit := 10; windowSeconds := 60; failClosedOnOutage := true |}
  | auth_callback => {| limit := 30; windowSeconds := 60; failClosedOnOutage := true |}
  | auth_logout => {| limit := 15; windowSeconds := 60; failClosedOnOutage := false |}
  | webhook_ingress => {| limit := 600; windowSeconds := 60; failClosedOnOutage := false |}
  | approval_resolve => {| limit := 20; windowSeconds := 60; failClosedOnOutage := true |}
  | workflow_start => {| limit := 30; windowSeconds := 60; failClosedOnOutage := true |}
  | workflow_cancel => {| limit := 30; windowSeconds := 60; failClosedOnOutage := true |}
  | artifact_download => {| limit := 60; windowSeconds := 60; failClosedOnOutage := false |}
  | expensive_diagnostics => {| limit := 5; windowSeconds := 60; failClosedOnOutage := false |}
  | default_class => {| limit := 300; windowSeconds := 60; failClosedOnOutage := false |}
  end.

(* @src packages/security/src/api/perimeter.ts:194-203 hierarchicalRateKey *)
Definition hierarchicalRateKey `{Digest} (policyClass : RatePolicyClass)
    (components : list (option string)) : string :=
  let hashed := map (λ c, match c with
    | Some s => if nonempty s then slice_to 16 (sha256 s) else "-"
    | None => "-"
    end) components in
  class_text policyClass +s ":" +s join ":" hashed.

(* @src packages/security/src/api/perimeter.ts:205-211 RateLimitDecision *)
Record RateLimitDecision := {
  allowed : bool;
  retryAfterSeconds : Z;
  remaining : Z;
  failClosed : option bool;
}.

(** [answer]: what the distributed limiter gives for the key, the limit and the window. *)
(* @src packages/security/src/api/perimeter.ts:229-250 consume *)
Definition consume `{Digest} (answer : string → Z → Z → outcome RateLimitDecision)
    (policyClass : RatePolicyClass) (components : list (option string)) : RateLimitDecision :=
  let policy := RATE_POLICIES policyClass in
  match answer (hierarchicalRateKey policyClass components) (limit policy) (windowSeconds policy) with
  | Returned decision => decision
  | Threw _ =>
      if failClosedOnOutage policy then
        {| allowed := false; retryAfterSeconds := windowSeconds policy; remaining := 0;
           failClosed := Some true |}
      else {| allowed := true; retryAfterSeconds := 0; remaining := limit policy; failClosed := Some true |}
  end.

(** ** Signed deliveries *)

(* @src packages/security/src/api/webhooks.ts:19-19 MAX_WEBHOOK_BYTES *)
Definition MAX_WEBHOOK_BYTES : Z := 1048576.
Definition delivery_id (s : string) : bool := chars_between (λ c, is_alnum c || Ascii.eqb c "-") 8 64 s.
Definition event_name (s : string) : bool := chars_between (λ c, is_lower c || Ascii.eqb c "_") 1 64 s.

(* @src packages/security/src/api/webhooks.ts:30-37 VerifiedWebhookEnvelope *)
Record VerifiedWebhookEnvelope := {
  deliveryId : string;
  eventType : string;
  payloadDigest : string;
  signatureKeyVersion : string;
  payload : list (string * json);
}.

Definition SIGNATURE_INVALID : js_error := GuardError "WEBHOOK_SIGNATURE_INVALID".

(* @src packages/security/src/api/webhooks.ts:58-65 verify *)
Definition provided_hex (header : option string) : option string :=
  match header with
  | Some h => if startsWith h "sha256=" && hex64 (slice_from 7 h) then Some (slice_from 7 h) else None
  | None => None
  end.

Section Webhook.
Context {Hdigest : Digest} {Hhmac : Hmac} {Hparse : JsonParse} {Hutf8 : Utf8Decode}.

(** The first key whose code over the raw bytes is the given one. *)
(* @src packages/security/src/api/webhooks.ts:88-96 verify *)
Fixpoint matching_version (keys : list (string * string)) (rawBody providedHex : string) : option string :=
  match keys with
  | [] => None
  | (v, secret) :: keys =>
      if hmac_sha256 secret rawBody =s? providedHex then Some v
      else matching_version keys rawBody providedHex
  end.

(** The three headers are those of the delivery; [keys]: what the provider of secrets answers. *)
(* @src packages/security/src/api/webhooks.ts:42-123 verify *)
Definition verify (keys : list (string * string)) (rawBody : string)
    (signature delivery event : option string) : outcome VerifiedWebhookEnvelope :=
  if (str_length rawBody =? 0) || (MAX_WEBHOOK_BYTES <? str_length rawBody) then Threw SIGNATURE_INVALID
  else
    match provided_hex signature with
    | None => Threw SIGNATURE_INVALID
    | Some providedHex =>
        match delivery, event with
        | Some d, Some e =>
            if negb (delivery_id d) || negb (event_name e) then Threw SIGNATURE_INVALID
            else
              match matching_version keys rawBody providedHex with
              | None => Threw SIGNATURE_INVALID
              | Some v =>
                  match json_parse (utf8_decode rawBody) with
                  | Some (JObj payload) => Returned {| deliveryId := d; eventType := e;
                      payloadDigest := sha256 rawBody; signatureKeyVersion := v; payload := payload |}
                  | _ => Threw SIGNATURE_INVALID
                  end
              end
        | _, _ => Threw SIGNATURE_INVALID
        end
    end.
End Webhook.

(* @src packages/security/src/api/webhooks.ts:130-131 WebhookDeliveryStatus *)
Inductive WebhookDeliveryStatus := RECEIVED | VERIFIED | PERSISTED | ENQUEUED | PROCESSED | REJECTED.

(* @src packages/security/src/api/webhooks.ts:133-144 WebhookDeliveryRecord *)
Record WebhookDeliveryRecord := {
  w_deliveryId : string;
  w_eventType : string;
  repositoryExternalId : option string;
  installationId : option string;
  w_payloadDigest : string;
  w_signatureKeyVersion : string;
  receivedAt : string;
  w_status : WebhookDeliveryStatus;
}.

(* @src packages/security/src/api/webhooks.ts:146-149 AcceptanceOutcome *)
Inductive AcceptanceOutcome :=
  | accepted_new (s : WebhookDeliveryStatus)
  | duplicate (s : WebhookDeliveryStatus)
  | conflict (existingStatus : WebhookDeliveryStatus).

(* @src packages/security/src/api/webhooks.ts:171-175 payloadSchema *)
Definition payloadSchema (p : list (string * json)) : bool :=
  match List.find (λ kv, kv.1 =s? "action") p with
  | None => true
  | Some (_, JStr a) => str_length a <=? 64
  | Some _ => false
  end.

(** The row handed to the store, and what the caller answers once the store did. *)
(* @src packages/security/src/api/webhooks.ts:193-206 accept *)
Definition delivery_row (now : Z) (repo inst : option string) (e : VerifiedWebhookEnvelope)
  : outcome WebhookDeliveryRecord :=
  if negb (payloadSchema (payload e)) then Threw SIGNATURE_INVALID
  else
    let? iso := toISOString now in
    Returned {| w_deliveryId := deliveryId e; w_eventType := eventType e; repositoryExternalId := repo;
      installationId := inst; w_payloadDigest := payloadDigest e;
      w_signatureKeyVersion := signatureKeyVersion e; receivedAt := iso; w_status := PERSISTED |}.

(* @src packages/security/src/api/webhooks.ts:180-219 accept *)
Definition accept (acceptDelivery : WebhookDeliveryRecord → outcome AcceptanceOutcome) (now : Z)
    (repo inst : option string) (e : VerifiedWebhookEnvelope) : outcome (string * Z) :=
  let? row := delivery_row now repo inst e in
  let? o := acceptDelivery row in
  match o with
  | accepted_new _ => Returned ("accepted_new", 202)
  | duplicate _ => Returned ("duplicate", 200)
  | conflict _ => Threw (GuardError "WEBHOOK_DELIVERY_CONFLICT")
  end.

(** ** A secret leaves only to whom it was granted *)

(** What every call of [withSecret] after the clock needs. *)
Definition granted (r : SecretRefShape) (auth : AuthorizationContext) : Prop :=
  status r ∈ RESOLVABLE_STATUSES ∧ purpose r = a_purpose auth ∧ scopeMatches r auth = true.

(** Where a value came from: the fetch joined, or the backend's answer for this name. *)
Definition fetched (joined : option (outcome string)) (n : string) (tr : list (event SecretAns))
    (v : string) : Prop :=
  joined = Some (Returned v) ∨
  (joined = None ∧ ev (get n) (Returned (Some v)) ∈ tr ∧ 8 ≤ str_length v).

Definition secret_call (joined : option (outcome string)) r auth (tr : list (event SecretAns))
    (c : SecretCall) : Prop :=
  match c with
  | now_ => True
  | get n => n = name r ∧ granted r auth ∧ joined = None
  | callback v => granted r auth ∧ fetched joined (name r) tr v
  end.

Lemma fetch_ensures joined r auth tr {B} (k : string → secret B) :
  granted r auth → joined = None →
  (∀ tr' v, ev (get (name r)) (Returned (Some v)) ∈ tr' → 8 ≤ str_length v →
     ensures (secret_call joined r auth) (λ _ _, True) tr' (k v)) →
  ensures (secret_call joined r auth) (λ _ _, True) tr (pbind (fetch (name r)) k).
Proof.
  intros Hg Hj Hk. unfold fetch, ask, call. cbn [pbind ptry]. split; [done|].
  intros [[v|]|e]; cbn [pbind ptry].
  - destruct (Z.ltb_spec (str_length v) 8); [done|]. cbn [pret ptry pbind].
    apply Hk; [apply elem_of_app; right; apply list_elem_of_singleton; done | lia].
  - done.
  - by destruct e.
Qed.

Lemma withSecret_ensures ttl0 joined r auth :
  ensures (secret_call joined r auth) (λ _ _, True) [] (withSecret ttl0 joined r auth).
Proof.
  unfold withSecret, resolveSecret. destruct (bool_decide (status r ∈ RESOLVABLE_STATUSES)) eqn:Hs; [|done].
  apply bool_decide_eq_true in Hs. cbn [negb].
  assert (Hrest : ∀ tr, ensures (secret_call joined r auth) (λ _ _, True) tr
    (pbind (if negb (purpose r =s? a_purpose auth) then throw SECRET_ACCESS_DENIED
            else if negb (scopeMatches r auth) then throw SECRET_ACCESS_DENIED
            else rawValue <~ match joined with Some o => Done o | None => fetch (name r) end ;;
                 now <~ ask now_ ;;
                 pret {| refName := name r; lease_version := version r; leaseExpiresAtMs := now + ttl ttl0;
                         lease_value := Some rawValue |})
       (λ lease, now <~ ask now_ ;;
          if leaseExpiresAtMs lease <=? now then throw SECRET_UNAVAILABLE
          else now <~ ask now_ ;; value <~ Done (use now lease).1 ;; ask (callback value)))).
  { intros tr. destruct (String.eqb_spec (purpose r) (a_purpose auth)) as [Hp|]; [|done].
    destruct (scopeMatches r auth) eqn:Hm; [|done]. cbn [negb].
    assert (Hg : granted r auth) by done.
    apply ensures_pbind_assoc.
    assert (Hafter : ∀ tr' v, fetched joined (name r) tr' v →
      ensures (secret_call joined r auth) (λ _ _, True) tr'
        (pbind (now <~ ask now_ ;;
                pret {| refName := name r; lease_version := version r; leaseExpiresAtMs := now + ttl ttl0;
                        lease_value := Some v |})
           (λ lease, now <~ ask now_ ;;
              if leaseExpiresAtMs lease <=? now then throw SECRET_UNAVAILABLE
              else now <~ ask now_ ;; value <~ Done (use now lease).1 ;; ask (callback value)))).
    { intros tr' v Hv. unfold ask, call. cbn [pbind pret]. split; [done|]. intros [t|]; [|done].
      cbn [pbind pret]. split; [done|]. intros [t'|]; [|done]. cbn [pbind leaseExpiresAtMs].
      destruct (_ <=? t'); [done|]. cbn [pbind]. split; [done|]. intros [t''|]; [|done]. cbn [pbind].
      unfold use. cbn [leaseExpiresAtMs lease_value]. destruct (_ <=? t''); [done|]. cbn [fst pbind default].
      split; [|by intros []]. split; [done|]. destruct Hv as [|(? & ? & ?)]; [by left|right].
      split; [done|]. split; [|done]. apply elem_of_app. left. apply elem_of_app. left.
      apply elem_of_app. by left. }
    destruct joined as [[v|e]|]; [apply Hafter; by left|done|].
    apply fetch_ensures; [done|done|]. intros tr' v Hin Hlen. apply Hafter. right. done. }
  destruct (expiresAt r) as [t|].
  - unfold ask at 1, call at 1. cbn [pbind pret]. split; [done|]. intros [now|]; [|done]. cbn [pbind pret].
    destruct (t <=? now); [done|]. apply Hrest.
  - cbn [pbind pret]. apply Hrest.
Qed.

(** A secret leaves only to whom it was granted: whatever the clock and the backend answer, the
    backend is asked, and the callback is given a value, only when the reference is available
    or expiring, the purpose of the caller is the one of the reference, and the reference is
    global or of exactly the caller's scope; and the value given is the one the backend
    answered for the name of the reference (at least eight characters), or the one of the fetch
    that was joined. *)
Theorem secret_needs_a_grant ttl0 joined r auth :
  ensures (secret_call joined r auth) (λ _ _, True) [] (withSecret ttl0 joined r auth).
Proof. apply withSecret_ensures. Qed.

(** An expired lease gives nothing, and a released one the empty text. *)
Lemma lease_expires now l : leaseExpiresAtMs l ≤ now → use now l = (Threw SECRET_UNAVAILABLE, release l).
Proof. intros Hl. unfold use. by apply Z.leb_le in Hl as ->. Qed.

Example released_lease_is_empty :
  use 5 (release {| refName := "r"; lease_version := "1"; leaseExpiresAtMs := 10; lease_value := Some "hunter22" |}) =
  (Returned "", release {| refName := "r"; lease_version := "1"; leaseExpiresAtMs := 10; lease_value := Some "hunter22" |}).
Proof. done. Qed.

(** ** An encrypted record is bound to its associated data *)

Lemma app_inj_length a b x y : str_length a = str_length b → a +s x = b +s y → a = b ∧ x = y.
Proof.
  revert b. unfold str_length. induction a as [|c a IH]; intros [|d b] Hlen Heq; simpl in *; try lia; [done|].
  injection Heq as -> Heq. destruct (IH b ltac:(lia) Heq) as [-> ->]. done.
Qed.

Lemma byte_inj a b : byte a = byte b → a mod 256 = b mod 256.
Proof.
  unfold byte. intros Heq. apply (f_equal N_of_ascii) in Heq.
  assert (Hb : ∀ n, (Z.to_N (n mod 256) < 256)%N).
  { intros n. pose proof (Z.mod_pos_bound n 256). lia. }
  rewrite !N_ascii_embedding in Heq by apply Hb.
  pose proof (Z.mod_pos_bound a 256). pose proof (Z.mod_pos_bound b 256). lia.
Qed.

Lemma uint32_inj a b : 0 ≤ a < 4294967296 → 0 ≤ b < 4294967296 → uint32_be a = uint32_be b → a = b.
Proof.
  intros Ha Hb Heq. unfold uint32_be in Heq. injection Heq as H1 H2 H3 H4.
  apply byte_inj in H1, H2, H3, H4.
  assert (Hsplit : ∀ n, 0 ≤ n < 4294967296 → n = (n / 16777216) mod 256 * 16777216 +
    (n / 65536) mod 256 * 65536 + (n / 256) mod 256 * 256 + n mod 256).
  { intros n Hn. Z.to_euclidean_division_equations. lia. }
  rewrite (Hsplit a Ha), (Hsplit b Hb). congruence.
Qed.

(** A field a 32-bit length prefix can describe. *)
Definition short (s : string) : Prop := str_length (utf8_encode s) < 4294967296.

Lemma str_length_nonneg s : 0 ≤ str_length s.
Proof. unfold str_length. lia. Qed.

Lemma prefixed_inj `{Utf8Decode} a b x y :
  short a → short b → prefixed a +s x = prefixed b +s y → a = b ∧ x = y.
Proof.
  unfold prefixed. intros Ha Hb. rewrite !str_app_assoc.
  intros [Hl Heq]%app_inj_length; [|done]. apply uint32_inj in Hl; [|split; [apply str_length_nonneg|done]..].
  apply app_inj_length in Heq as [Heq ->]; [|done].
  split; [|done]. apply (f_equal utf8_decode) in Heq. by rewrite !utf8_decode_encode in Heq.
Qed.

Definition storable (d : AssociatedData) : Prop := Forall short (aad_fields d).

Lemma canonicalAad_inj `{Utf8Decode} d d' :
  storable d → storable d' → canonicalAad d = canonicalAad d' → d = d'.
Proof.
  destruct d as [t1 i1 p1 v1], d' as [t2 i2 p2 v2]. intros H1 H2. unfold storable, aad_fields in *.
  cbn [d_scopeType d_scopeId d_purpose refVersion] in H1, H2.
  repeat match goal with H : Forall _ (_ :: _) |- _ => apply Forall_cons in H as [? H] end.
  unfold canonicalAad. cbn [aad_fields map join d_scopeType d_scopeId d_purpose refVersion String.append].
  intros Heq. repeat (apply prefixed_inj in Heq as [-> Heq]; [|done|done]).
  rewrite <- (str_app_nil_r (prefixed v1)), <- (str_app_nil_r (prefixed v2)) in Heq.
  by apply prefixed_inj in Heq as [-> _].
Qed.

(* @prop roundtrip 8.5 : encrypt decrypt canonicalAad aadDigest / sealed_record_is_bound_witness *)
(** C38. An encrypted record gives back the text for the associated data it was made with, and for
    no other: decryption under the same data returns the plaintext, and under any other data,
    in any one of its fields, it fails before a key is fetched. *)
Theorem sealed_record_is_bound `{CollisionFree} `{!Aead} `{!Base64} `{!Utf8Decode} getKey active iv text d record
  (Hd : storable d) (Henc : encrypt getKey active iv text d = Returned record) :
  decrypt getKey record d = Returned text ∧
  ∀ getKey' d', storable d' → d' ≠ d → ∃ e, decrypt getKey' record d' = Threw (PlainError e) ∧
    (e = "aad_mismatch" ∨ e = "ERR_CRYPTO_TIMING_SAFE_EQUAL_LENGTH").
Proof.
  unfold encrypt in Henc. destruct (getKey active) as [key|] eqn:Hk; [|done].
  destruct (negb _); [done|]. injection Henc as <-. unfold decrypt. cbn. split.
  - rewrite Z.eqb_refl, String.eqb_refl, Hk. cbn [negb]. by rewrite !from_to_base64, unseal_seal, utf8_decode_encode.
  - intros getKey' d' Hd' Hne. destruct (_ =? _); [|eexists; split; [done|by right]]. cbn [negb].
    destruct (String.eqb_spec (aadDigest d') (aadDigest d)) as [Heq|]; [|eexists; split; [done|by left]].
    exfalso. apply Hne. apply (canonicalAad_inj d' d); [done|done|]. unfold aadDigest in Heq. by apply sha256_inj in Heq.
Qed.

Definition sample_aead : Aead.
Proof.
  refine {| seal key iv aad text := (text, key +s aad);
            unseal key iv aad c t := if t =s? key +s aad then Some c else None |}.
  intros. cbn. by rewrite String.eqb_refl.
Defined.
Definition sample_base64 : Base64.
Proof. by refine {| to_base64 s := s; from_base64 s := s |}. Defined.

(** UTF-8 of Latin-1, read back. *)
Fixpoint latin1_decode (s : string) : string :=
  match s with
  | EmptyString => EmptyString
  | String c s =>
      if code_of c <? 128 then String c (latin1_decode s)
      else match s with
           | String d s => String (byte ((code_of c - 192) * 64 + (code_of d - 128))) (latin1_decode s)
           | EmptyString => EmptyString
           end
  end.
Lemma code_of_bounds c : 0 ≤ code_of c < 256.
Proof. unfold code_of. pose proof (N_ascii_bounded c). lia. Qed.

Lemma code_of_ascii n : 0 ≤ n < 256 → code_of (ascii_of_N (Z.to_N n)) = n.
Proof. intros Hn. unfold code_of. rewrite N_ascii_embedding by lia. lia. Qed.

Lemma byte_code c : byte (code_of c) = c.
Proof.
  pose proof (code_of_bounds c). unfold byte. rewrite Z.mod_small by done.
  unfold code_of. by rewrite N2Z.id, ascii_N_embedding.
Qed.

Lemma latin1_decode_encode s : latin1_decode (utf8_encode s) = s.
Proof.
  induction s as [|c s IH]; [done|]. cbn [utf8_encode]. pose proof (code_of_bounds c) as Hc.
  destruct (code_of c <? 128) eqn:Hn; cbn [latin1_decode].
  - by rewrite Hn, IH.
  - apply Z.ltb_ge in Hn. assert (0 ≤ code_of c / 64 < 4) by (split; [apply Z.div_pos|apply Z.div_lt_upper_bound]; lia).
    pose proof (Z.mod_pos_bound (code_of c) 64). rewrite !code_of_ascii by lia.
    destruct (Z.ltb_spec (192 + code_of c / 64) 128); [lia|]. f_equal; [|done].
    rewrite <- (byte_code c) at 3. f_equal. pose proof (Z.div_mod (code_of c) 64). lia.
Qed.

Definition sample_utf8 : Utf8Decode := {| utf8_decode_encode := latin1_decode_encode |}.

#[local] Instance sample_digest : Digest := λ s, s.
#[local] Instance sample_collision_free : @CollisionFree sample_digest.
Proof. by intros a b. Qed.

Definition sample_data (scope : string) : AssociatedData :=
  {| d_scopeType := "repository"; d_scopeId := scope; d_purpose := "deploy"; refVersion := "1" |}.

Lemma sealed_record_is_bound_witness :
  let key (v : string) := if v =s? "k1" then Some "0123456789abcdef0123456789abcdef" else None in
  ∃ record, @encrypt sample_digest sample_aead sample_base64 key "k1" "nonce" "hunter22" (sample_data "a") = Returned record ∧
    @decrypt sample_digest sample_aead sample_base64 sample_utf8 key record (sample_data "a") = Returned "hunter22" ∧
    ∃ e, @decrypt sample_digest sample_aead sample_base64 sample_utf8 key record (sample_data "b") = Threw (PlainError e).
Proof.
  intros key.
  destruct (@encrypt sample_digest sample_aead sample_base64 key "k1" "nonce" "hunter22" (sample_data "a")) as [record|e] eqn:He;
    [|vm_compute in He; discriminate He].
  assert (Hst : ∀ x, x ∈ ["a"; "b"] → storable (sample_data x)).
  { intros x Hx. in_cases Hx; subst; apply (Forall_impl (λ f, str_length (utf8_encode f) ≤ 100));
      (apply (bool_decide_unpack _); vm_compute; reflexivity) || (unfold short; intros; lia). }
  destruct (@sealed_record_is_bound _ sample_collision_free sample_aead sample_base64 sample_utf8 key "k1"
    "nonce" "hunter22" (sample_data "a") record (Hst "a" ltac:(left)) He) as [Hback Hother].
  exists record. split; [done|]. split; [exact Hback|].
  destruct (Hother key (sample_data "b")) as (e & Hbad & _); [apply Hst; right; left | done | by exists e].
Defined.

(** ** What passes the perimeter *)

(** A mutating request of a browser that passes the cross-site check came from the site: the
    method is not a safe one, it is no webhook (these are signed) and no bearer call without a
    cookie, so its Fetch-Metadata say same-origin or same-site, its origin is present and
    normalises to the configured public origin, and its header carries the token of its
    cookie. *)
Theorem mutation_is_same_site `{UrlParse} input
  (Hmut : str_in (toUpperCase (method input)) ["GET"; "HEAD"; "OPTIONS"] = false)
  (Hhook : webhookPath input = false)
  (Hbearer : bearerAuthenticated input = false ∨ cookieToken input ≠ None)
  (Hok : verifyCsrf input = Allowed) :
  (secFetchSite input = same_origin ∨ secFetchSite input = same_site) ∧
  (∀ p, publicOrigin input = Some p → ∃ o, origin input = Some o ∧
     normalizeOrigin o = normalizeOrigin p ∧ normalizeOrigin o ≠ "") ∧
  ∃ token, cookieToken input = Some token ∧ headerToken input = Some token.
Proof.
  unfold verifyCsrf in Hok. rewrite Hmut, Hhook in Hok. cbn [negb] in Hok.
  assert (bearerAuthenticated input && bool_decide (cookieToken input = None) = false) as Hb.
  { destruct Hbearer as [->|Hc]; [done|]. rewrite bool_decide_false by done. apply andb_false_r. }
  rewrite Hb in Hok. destruct (_ || _) eqn:Hsite; [done|].
  destruct (match publicOrigin input with Some _ => _ | None => _ end) eqn:Ho; [done|].
  split; [breflect; by destruct (secFetchSite input); auto|]. split.
  - intros p Hp. rewrite Hp in Ho. destruct (origin input) as [o|]; [|done]. apply negb_false_iff in Ho.
    exists o. split; [done|]. unfold isAllowed, OriginPolicy in Ho.
    destruct ((o =s? "") || (o =s? "null")); [done|]. cbn [map List.filter] in Ho. apply andb_true_iff in Ho as [Hne Hin]. unfold nonempty in *.
    apply negb_true_iff, String.eqb_neq in Hne. split; [|done].
    apply str_in_spec in Hin. destruct (negb (normalizeOrigin p =s? "")); [by apply list_elem_of_singleton in Hin | by apply elem_of_nil in Hin].
  - destruct (cookieToken input) as [c|], (headerToken input) as [h|]; try done.
    unfold safeEquals in Hok. destruct (String.eqb_spec c h) as [->|]; [|done]. by exists h.
Qed.

Lemma mutation_is_same_site_witness :
  let parse : UrlParse := λ s, Some {| protocol := "https:"; username := ""; password := "";
    host := slice_from 8 s; pathname := "/"; search := ""; hash := "" |} in
  let input := {| method := "post"; cookieToken := Some "t"; headerToken := Some "t";
    origin := Some "https://Dev.example"; secFetchSite := same_origin;
    publicOrigin := Some "https://dev.example"; bearerAuthenticated := true; webhookPath := false |} in
  @verifyCsrf parse input = Allowed ∧ ∃ token, cookieToken input = Some token ∧ headerToken input = Some token.
Proof.
  intros parse input. assert (Hok : @verifyCsrf parse input = Allowed) by (vm_compute; reflexivity).
  split; [exact Hok|]. assert (Hc : cookieToken input ≠ None) by done.
  destruct (@mutation_is_same_site parse input eq_refl eq_refl (or_intror Hc) Hok) as (_ & _ & Ht).
  exact Ht.
Defined.

(** The pair of two empty texts is a pair, and without a public origin no origin is asked for. *)
Example empty_pair_passes :
  @verifyCsrf (λ _, None) {| method := "POST"; cookieToken := Some ""; headerToken := Some "";
    origin := None; secFetchSite := same_site; publicOrigin := None; bearerAuthenticated := false;
    webhookPath := false |} = Allowed.
Proof. by vm_compute. Qed.

(** A wrong answer of the limiter is passed on; an outage refuses exactly the classes at risk. *)
Lemma outage_fails_closed `{Digest} answer c components e :
  answer (hierarchicalRateKey c components) (limit (RATE_POLICIES c)) (windowSeconds (RATE_POLICIES c)) = Threw e →
  allowed (consume answer c components) = negb (failClosedOnOutage (RATE_POLICIES c)).
Proof. intros Ha. unfold consume. rewrite Ha. by destruct (failClosedOnOutage _). Qed.

Lemma matching_version_spec `{Hmac} keys raw hex v :
  matching_version keys raw hex = Some v → ∃ secret, (v, secret) ∈ keys ∧ hmac_sha256 secret raw = hex.
Proof.
  induction keys as [|[v' secret] keys IH]; cbn [matching_version]; [done|].
  destruct (String.eqb_spec (hmac_sha256 secret raw) hex) as [Heq|].
  - intros [= <-]. exists secret. split; [left|done].
  - intros (s & Hin & Hs)%IH. exists s. split; [by right|done].
Qed.

(** A verified delivery was signed: its raw bytes are within the bound and their keyed code
    under one of the configured keys, the one recorded, is exactly what the signature header
    says; the payload is what these same bytes parse to and the digest is theirs. *)
Theorem delivery_is_signed `{Digest} `{Hmac} `{JsonParse} `{Utf8Decode} keys raw signature delivery event e
  (Hok : verify keys raw signature delivery event = Returned e) :
  0 < str_length raw ≤ MAX_WEBHOOK_BYTES ∧
  (∃ secret, (signatureKeyVersion e, secret) ∈ keys ∧
     signature = Some ("sha256=" +s hmac_sha256 secret raw)) ∧
  delivery = Some (deliveryId e) ∧ event = Some (eventType e) ∧
  payloadDigest e = sha256 raw ∧ json_parse (utf8_decode raw) = Some (JObj (payload e)).
Proof.
  unfold verify in Hok. destruct (_ || _) eqn:Hlen; [done|].
  destruct (provided_hex signature) as [hex|] eqn:Hhex; [|done].
  destruct delivery as [d|], event as [ev|]; try done.
  destruct (negb (delivery_id d) || negb (event_name ev)); [done|].
  destruct (matching_version keys raw hex) as [v|] eqn:Hv; [|done].
  destruct (json_parse _) as [[]|] eqn:Hj; try done. injection Hok as <-. cbn.
  apply orb_false_iff in Hlen as [Hz Hmax]. apply Z.eqb_neq in Hz. apply Z.ltb_ge in Hmax.
  pose proof (str_length_nonneg raw).
  split; [lia|]. split; [|done].
  apply matching_version_spec in Hv as (secret & Hin & Hmac). exists secret. split; [done|].
  unfold provided_hex in Hhex. destruct signature as [h|]; [|done].
  destruct (startsWith h "sha256=") eqn:Hs; [|done]. destruct (hex64 _); [|done]. injection Hhex as Hhex.
  apply prefix_spec in Hs as [t ->]. by rewrite Hmac, <- Hhex.
Qed.

Lemma delivery_is_signed_witness :
  let hmac : Hmac := λ k s, "0123456789abcdef0123456789abcdef0123456789abcdef0123456789abcdef" in
  let parse : JsonParse := {| json_parse := any_inverse; json_parse_stringify v _ := any_inverse_stringify v |} in
  ∃ e, @verify sample_digest hmac parse sample_utf8 [("v1", "hunter22")] "{}"
      (Some "sha256=0123456789abcdef0123456789abcdef0123456789abcdef0123456789abcdef")
      (Some "12345678-abcd") (Some "issues") = Returned e ∧ payload e = [] ∧
    @json_parse parse (@utf8_decode sample_utf8 "{}") = Some (JObj (payload e)).
Proof.
  intros hmac parse.
  assert (Hj : @json_parse parse (@utf8_decode sample_utf8 "{}") = Some (JObj [])).
  { change (@utf8_decode sample_utf8 "{}") with (stringify (JObj [])). apply any_inverse_stringify. }
  assert (Hv : @verify sample_digest hmac parse sample_utf8 [("v1", "hunter22")] "{}"
      (Some "sha256=0123456789abcdef0123456789abcdef0123456789abcdef0123456789abcdef")
      (Some "12345678-abcd") (Some "issues") = Returned {| deliveryId := "12345678-abcd"; eventType := "issues";
      payloadDigest := "{}"; signatureKeyVersion := "v1"; payload := [] |}).
  { unfold verify. cbn -[json_parse utf8_decode]. by rewrite Hj. }
  eexists. split; [exact Hv|]. split; [done|].
  apply (@delivery_is_signed sample_digest hmac parse sample_utf8 _ _ _ _ _ _ Hv).
Defined.
