(* ===== verification/OutputGuard.v ===== *)
(** * OutputGuard: the output of a sandbox command

    [packages/sandbox/src/commands/output-normalizer.ts]: bounded, normalised and redacted
    ingestion of a stream in chunks.  A text is the sequence of its Unicode scalar values, as
    [Array.from] gives them for the well-formed texts a provider sends; a value that straddles
    two chunks is what the carry is for. *)

From Stdlib Require String.
From S2P Require Import Prelude.

Definition text : Type := list Z.

(** The bytes of a character and of a text in UTF-8. *)
Definition char_bytes (c : Z) : Z :=
  if c <? 128 then 1 else if c <? 2048 then 2 else if c <? 65536 then 3 else 4.
Definition byteLength (t : text) : Z := foldr (λ c n, char_bytes c + n) 0 t.

Fixpoint starts (pre t : text) : bool :=
  match pre, t with
  | [], _ => true
  | p :: pre, c :: t => (p =? c) && starts pre t
  | _ :: _, [] => false
  end.

(** [text.split(secret)]: the parts between the occurrences, from the left; [skip] characters of
    the current occurrence are still to pass. *)
Fixpoint split_from (secret : text) (skip : nat) (t : text) : list text :=
  match t with
  | [] => [[]]
  | c :: t' =>
      match skip with
      | S skip => split_from secret skip t'
      | O =>
          if starts secret t then [] :: split_from secret (pred (length secret)) t'
          else match split_from secret O t' with
               | p :: ps => (c :: p) :: ps
               | [] => [[c]]
               end
      end
  end.

Fixpoint join_with (sep : text) (l : list text) : text :=
  match l with
  | [] => []
  | [p] => p
  | p :: l => p ++ sep ++ join_with sep l
  end.

(** [split('')] gives the characters. *)
Definition split (secret t : text) : list text :=
  match secret with
  | [] => map (λ c, [c]) t
  | _ => split_from secret O t
  end.

(** [[REDACTED]]. *)
Definition marker : text := [91; 82; 69; 68; 65; 67; 84; 69; 68; 93].

Section Normalizer.
Context (sha256_text : text → string).
Context (outputId : string) (maxBytes : Z) (secretValues : list text).

(** The fields of the object; [digested] is what the running digest was given. *)
(* @src packages/sandbox/src/commands/output-normalizer.ts:21-26 OutputNormalizer *)
Record Normalizer := {
  bytes : Z;
  chunkCount : Z;
  truncated : bool;
  digested : text;
  carry : text;
}.

(* @src packages/sandbox/src/commands/output-normalizer.ts:62-66 constructor *)
Definition new_normalizer : Normalizer :=
  {| bytes := 0; chunkCount := 0; truncated := false; digested := []; carry := [] |}.

(* @src packages/sandbox/src/commands/output-normalizer.ts:28-33 longestSecret *)
Definition longestSecret : Z := fold_left (λ m secret, Z.max m (byteLength secret)) secretValues 0.

(* @src packages/sandbox/src/commands/output-normalizer.ts:35-37 redact *)
Definition redact (t : text) : text :=
  fold_left (λ acc secret, join_with marker (split secret acc)) secretValues t.

(** The characters that fit, and U+FFFD for one that is cut. *)
Fixpoint fitting (budget : Z) (t : text) : text :=
  match t with
  | [] => []
  | c :: t => if char_bytes c <=? budget then c :: fitting (budget - char_bytes c) t
              else if 0 <? budget then [65533] else []
  end.

(* @src packages/sandbox/src/commands/output-normalizer.ts:39-46 accept *)
Definition accept (t : text) (n : Normalizer) : Z * Normalizer :=
  let safe := fitting (Z.max 0 (maxBytes - bytes n)) t in
  (byteLength safe,
   {| bytes := bytes n + byteLength safe; chunkCount := chunkCount n; truncated := truncated n;
      digested := digested n ++ safe; carry := carry n |}).

(* @src packages/sandbox/src/commands/output-normalizer.ts:48-63 flush *)
Definition flush (final : bool) (n : Normalizer) : Z * Normalizer :=
  let redacted := redact (carry n) in
  let keep := if final then 0 else Z.max 0 (longestSecret - 1) in
  let cut := Z.to_nat (Z.max 0 (Z.of_nat (length redacted) - keep)) in
  accept (take cut redacted)
    {| bytes := bytes n; chunkCount := chunkCount n; truncated := truncated n; digested := digested n;
       carry := if final then [] else drop cut redacted |}.

(** [ESC [ params letter] removed from the left, and then every control but tab, line feed and
    carriage return. *)
Definition ansi_tail (t : text) : option text :=
  let param c := (48 <=? c) && (c <=? 57) || (c =? 59) in
  let fix params (t : text) : option text :=
    match t with
    | [] => None
    | c :: t => if param c then params t
                else if ((65 <=? c) && (c <=? 90)) || ((97 <=? c) && (c <=? 122)) then Some t
                else None
    end in
  match t with
  | e :: b :: t => if (e =? 27) && (b =? 91) then params t else None
  | _ => None
  end.

Fixpoint strip_ansi (fuel : nat) (t : text) : text :=
  match fuel with
  | O => t
  | S fuel =>
      match t with
      | [] => []
      | c :: t' => match ansi_tail t with
                   | Some rest => strip_ansi fuel rest
                   | None => c :: strip_ansi fuel t'
                   end
      end
  end.

(* @src packages/sandbox/src/commands/output-normalizer.ts:103-111 stripControls *)
Definition stripControls (t : text) : text :=
  List.filter (λ c, (32 <=? c) || (c =? 10) || (c =? 9) || (c =? 13)) (strip_ansi (length t) t).

(* @src packages/sandbox/src/commands/output-normalizer.ts:68-80 ingest *)
Definition ingest (chunk : text) (n : Normalizer) : (Z * bool) * Normalizer :=
  let normalized := stripControls chunk in
  let '(accepted, n) := flush false {| bytes := bytes n; chunkCount := chunkCount n;
    truncated := truncated n; digested := digested n; carry := carry n ++ normalized |} in
  let truncated' := truncated n || (accepted <? byteLength normalized) in
  ((accepted, truncated'),
   {| bytes := bytes n; chunkCount := chunkCount n + 1; truncated := truncated';
      digested := digested n; carry := carry n |}).

(* @src packages/sandbox/src/commands/output-normalizer.ts:13-19 OutputStreamState *)
Record OutputRef := {
  o_outputId : string;
  o_bytes : Z;
  o_truncated : bool;
  o_checksum : string;
  o_chunks : Z;
}.

(* @src packages/sandbox/src/commands/output-normalizer.ts:93-101 state *)
Definition state (n : Normalizer) : OutputRef := {|
  o_outputId := outputId; o_bytes := bytes n; o_truncated := truncated n;
  o_checksum := sha256_text (digested n); o_chunks := chunkCount n |}.

(* @src packages/sandbox/src/commands/output-normalizer.ts:82-91 finalize *)
Definition finalize (n : Normalizer) : OutputRef * Normalizer :=
  let n := if bool_decide (carry n = []) then n else (flush true n).2 in
  (state n, n).

(** A whole stream: every chunk, then the end. *)
Definition ingest_all (chunks : list text) : Normalizer :=
  fold_left (λ n chunk, (ingest chunk n).2) chunks new_normalizer.
End Normalizer.

(** ** Occurrences *)

Definition occurs (v t : text) : Prop := ∃ a b, t = a ++ v ++ b.

(** A value that meets the marker nowhere, and no replacement character. *)
Definition plain (v : text) : Prop :=
  v ≠ [] ∧ 91 ∉ v ∧ 93 ∉ v ∧ 65533 ∉ v ∧ ¬ occurs v [82; 69; 68; 65; 67; 84; 69; 68].

Lemma starts_spec pre t : starts pre t = true ↔ ∃ r, t = pre ++ r.
Proof.
  revert t. induction pre as [|p pre IH]; intros t; simpl; [split; [by exists t|done]|].
  destruct t as [|c t]; [split; [done|by intros []]|].
  rewrite andb_true_iff, Z.eqb_eq, IH. split; [intros [-> [r ->]]; by exists r|].
  intros [r Hr]. injection Hr as -> ->. split; [done|by exists r].
Qed.

(** A value without the separator stands on one side of it. *)
Lemma occurs_around c v w t : c ∉ v → v ≠ [] → occurs v (w ++ c :: t) → occurs v w ∨ occurs v t.
Proof.
  intros Hc Hv (a & b & Heq).
  apply app_eq_inv in Heq as [(k & -> & Hk)|(k & -> & Hk)].
  - apply app_eq_inv in Hk as [(k' & -> & Hk)|(k' & -> & Hk)].
    + destruct k' as [|d k']; [left; exists a, []; by rewrite !app_nil_r|].
      injection Hk as <- _. destruct Hc. apply elem_of_app. right. left.
    + left. by exists a, k'.
  - right. destruct k as [|d k].
    + destruct v as [|x v]; [done|]. injection Hk as <- Hk. destruct Hc. left.
    + injection Hk as <- ->. by exists k, b.
Qed.

(** ** What a replacement does to a text *)

Definition opens (t : text) : Prop := 91 ∈ t.

(** The parts of a text: the first is its beginning, and a single one is all of it. *)
Definition parts_of (t : text) (l : list text) : Prop :=
  match l with
  | [] => t = []
  | p :: ps => (∃ r, t = p ++ r) ∧ Forall (λ q, occurs q t) ps ∧ (ps = [] → p = t)
  end.

Lemma occurs_tail q c t : occurs q t → occurs q (c :: t).
Proof. intros (a & b & ->). by exists (c :: a), b. Qed.

Lemma prefix_occurs p t : (∃ r, t = p ++ r) → occurs p t.
Proof. intros [r ->]. by exists [], r. Qed.

(** Every part after the passed characters occurs in the text and holds no secret. *)
Lemma split_from_parts secret skip t : secret ≠ [] →
  Forall (λ q, occurs q t ∧ ¬ occurs secret q) (split_from secret skip t) ∧
  (skip = O → ∃ p ps, split_from secret skip t = p :: ps ∧ (∃ r, t = p ++ r) ∧ (ps = [] → p = t)).
Proof.
  intros Hs. assert (Hnil : ¬ occurs secret []).
  { intros (a & b & Heq). symmetry in Heq. apply app_eq_nil in Heq as [_ Heq].
    apply app_eq_nil in Heq as [Heq _]. done. }
  revert skip. induction t as [|c t IH]; intros skip; cbn [split_from].
  - split; [constructor; [split; [by exists [], []|done]|done]|].
    intros _. exists [], []. split; [done|]. split; [by exists []|done].
  - assert (Hlift : ∀ l, Forall (λ q, occurs q t ∧ ¬ occurs secret q) l →
        Forall (λ q, occurs q (c :: t) ∧ ¬ occurs secret q) l).
    { intros l Hl. eapply Forall_impl; [exact Hl|]. intros q [Hq ?]. split; [by apply occurs_tail|done]. }
    destruct skip as [|skip]; [|split; [apply Hlift, IH|done]].
    destruct (starts secret (c :: t)) eqn:Hst.
    + destruct (IH (pred (length secret))) as [Hall _]. split.
      * constructor; [|by apply Hlift]. split; [by exists [], (c :: t)|done].
      * intros _. eexists _, _. split; [done|]. split; [by exists (c :: t)|]. intros Hn.
        assert (Hne : ∀ k u, split_from secret k u ≠ []).
        { clear. intros k u. revert k. induction u as [|d u IHu]; intros [|k]; cbn; try done; try apply IHu.
          destruct (starts _ _); [done|]. by destruct (split_from secret 0 u). }
        by apply Hne in Hn.
    + destruct (IH O) as [Hall Hhead]. destruct (Hhead eq_refl) as (p & ps & Hp & [r Hr] & Hone).
      rewrite Hp in Hall |- *. apply Forall_cons in Hall as [[_ Hno] Hall]. split.
      * constructor; [|by apply Hlift]. split; [exists [], r; by rewrite Hr|].
        intros (a & b & Heq). destruct a as [|d a].
        -- assert (starts secret (c :: t) = true); [|congruence].
           apply starts_spec. exists (b ++ r). rewrite Hr.
           change (c :: p ++ r) with ((c :: p) ++ r). rewrite Heq. cbn [app]. by rewrite <- app_assoc.
        -- injection Heq as <- Heq. apply Hno. by exists a, b.
      * intros _. exists (c :: p), ps. split; [done|]. split; [exists r; by rewrite Hr|].
        intros Hps. by rewrite Hone.
Qed.

Lemma split_parts secret t : parts_of t (split secret t).
Proof.
  destruct secret as [|x secret].
  - unfold split. destruct t as [|c t]; [done|]. cbn [map parts_of]. split; [by exists t|]. split.
    + apply Forall_forall. intros q Hq. apply list_elem_of_fmap in Hq as (d & -> & Hd).
      apply list_elem_of_split in Hd as (a & b & ->). by exists (c :: a), b.
    + by destruct t.
  - unfold split. destruct (split_from_parts (x :: secret) 0 t) as [Hall Hhead]; [done|].
    destruct (Hhead eq_refl) as (p & ps & Hp & Hpre & Hone). rewrite Hp in Hall |- *.
    apply Forall_cons in Hall as [_ Hall]. split; [done|]. split; [|done].
    eapply Forall_impl; [exact Hall|]. by intros q [].
Qed.

Lemma join_with_cons sep p l : l ≠ [] → join_with sep (p :: l) = p ++ sep ++ join_with sep l.
Proof. by destruct l. Qed.

(** What occurs in a joined text occurs in a part. *)
Lemma joined_occurs v l : plain v → occurs v (join_with marker l) → ∃ p, p ∈ l ∧ occurs v p.
Proof.
  intros (Hne & Ho & Hc & _ & Hw). induction l as [|p l IH].
  - intros (a & b & Heq). symmetry in Heq. apply app_eq_nil in Heq as [_ Heq].
    by apply app_eq_nil in Heq as [? _].
  - destruct (decide (l = [])) as [->|Hl]; [exists p; split; [left|done]|].
    rewrite join_with_cons by done.
    change (marker ++ join_with marker l) with
      (91 :: [82; 69; 68; 65; 67; 84; 69; 68] ++ 93 :: join_with marker l).
    intros [Hp|Hin]%occurs_around; [exists p; split; [left|done]| |done|done].
    apply occurs_around in Hin as [Hin|Hin]; [done| |done|done].
    destruct (IH Hin) as (q & Hq & Hv). exists q. split; [by right|done].
Qed.

Lemma cut_before_bracket (b p t : text) : 91 ∉ b → (∃ r, p ++ 91 :: t = b ++ r) → ∃ r, p = b ++ r.
Proof.
  intros Hb [r Heq]. apply app_eq_inv in Heq as [(k & -> & _)|(k & -> & Hk)]; [by exists k|].
  destruct k as [|d k]; [exists []; by rewrite !app_nil_r|]. injection Hk as <- _.
  destruct Hb. apply elem_of_app. right. left.
Qed.

(** What redaction keeps of a text. *)
Record masked (t r : text) : Prop := {
  masked_clean v : plain v → ¬ occurs v t → ¬ occurs v r;
  masked_prefix b : 91 ∉ b → (∃ k, r = b ++ k) → ∃ k, t = b ++ k;
  masked_opens : r = t ∨ opens r;
}.

Lemma masked_refl t : masked t t.
Proof. split; auto. Qed.

Lemma masked_trans t r s : masked t r → masked r s → masked t s.
Proof.
  intros [H1 H2 H3] [G1 G2 G3]. split; [eauto|eauto|].
  destruct G3 as [->|]; [done|by right].
Qed.

Lemma replaced_masked secret t : masked t (join_with marker (split secret t)).
Proof.
  pose proof (split_parts secret t) as Hparts.
  assert (Hin : ∀ p, p ∈ split secret t → occurs p t).
  { intros p Hp. destruct (split secret t) as [|q qs]; [by apply elem_of_nil in Hp|].
    destruct Hparts as (Hq & Hall & _). rewrite Forall_forall in Hall.
    apply elem_of_cons in Hp as [->|Hp]; [by apply prefix_occurs | by apply Hall]. }
  split.
  - intros v Hv Hno Hocc. apply joined_occurs in Hocc as (p & Hp & (a & b & ->)); [|done].
    apply Hno. destruct (Hin _ Hp) as (x & y & ->). exists (x ++ a), (b ++ y). by rewrite <- !app_assoc.
  - intros b Hb [k Hk]. destruct (split secret t) as [|p ps]; [exists k; by rewrite Hparts|].
    destruct Hparts as ([r Hr] & _). destruct ps as [|q qs]; cbn [join_with] in Hk.
    + exists (k ++ r). by rewrite Hr, Hk, <- app_assoc.
    + destruct (cut_before_bracket b p (tail marker ++ join_with marker (q :: qs)) Hb) as [k' ->]; [by exists k|].
      exists (k' ++ r). by rewrite Hr, <- app_assoc.
  - destruct (split secret t) as [|p [|q qs]]; [by left|left|right].
    + destruct Hparts as (_ & _ & Hone). cbn [join_with]. by apply Hone.
    + cbn [join_with]. unfold opens. apply elem_of_app. right. left.
Qed.

Lemma redact_masked secrets t : masked t (redact secrets t).
Proof.
  unfold redact. revert t. induction secrets as [|s secrets IH]; intros t; cbn [fold_left]; [apply masked_refl|].
  eapply masked_trans; [apply replaced_masked|apply IH].
Qed.

Lemma redact_clean secrets t v : v ∈ secrets → plain v → ¬ occurs v (redact secrets t).
Proof.
  unfold redact. revert t. induction secrets as [|s secrets IH]; intros t Hv Hp; [by apply elem_of_nil in Hv|].
  cbn [fold_left]. apply elem_of_cons in Hv as [->|Hv]; [|by apply IH].
  apply (redact_masked secrets); [done|]. intros Hocc.
  apply joined_occurs in Hocc as (p & Hpart & Hocc); [|done]. destruct s as [|x s]; [by destruct Hp|].
  destruct (split_from_parts (x :: s) 0 t) as [Hall _]; [done|]. rewrite Forall_forall in Hall.
  by destruct (Hall _ Hpart).
Qed.

(** ** The bound *)

Lemma char_bytes_pos c : 1 ≤ char_bytes c ≤ 4.
Proof. unfold char_bytes. repeat case_match; lia. Qed.

Lemma byteLength_app a b : byteLength (a ++ b) = byteLength a + byteLength b.
Proof. induction a as [|c a IH]; cbn [app byteLength foldr] in *; [done|]. unfold byteLength in *. lia. Qed.

Lemma byteLength_length t : Z.of_nat (length t) ≤ byteLength t.
Proof.
  induction t as [|c t IH]; cbn [length byteLength foldr] in *; [done|].
  pose proof (char_bytes_pos c). unfold byteLength in *. lia.
Qed.

Lemma fitting_none t : fitting 0 t = [].
Proof. destruct t as [|c t]; [done|]. cbn. pose proof (char_bytes_pos c). by destruct (Z.leb_spec (char_bytes c) 0); [lia|]. Qed.

Lemma fitting_app budget a b : 0 ≤ budget →
  fitting budget (a ++ b) = fitting budget a ++ fitting (Z.max 0 (budget - byteLength (fitting budget a))) b.
Proof.
  revert budget. induction a as [|c a IH]; intros budget Hb; cbn [app fitting].
  - cbn. by rewrite Z.sub_0_r, Z.max_r.
  - pose proof (char_bytes_pos c). destruct (Z.leb_spec (char_bytes c) budget).
    + rewrite IH by lia. cbn [app byteLength foldr]. do 3 f_equal. unfold byteLength. lia.
    + destruct (Z.ltb_spec 0 budget); cbn [app byteLength foldr].
      * change (char_bytes 65533) with 3. rewrite Z.max_l by lia. by rewrite fitting_none.
      * rewrite Z.max_l by lia. by rewrite fitting_none.
Qed.

(** What fits is a beginning of the text, with a replacement character at most at its end. *)
Lemma fitting_shape budget t : 0 ≤ budget →
  ∃ k rest, t = k ++ rest ∧ (fitting budget t = k ∨ fitting budget t = k ++ [65533]) ∧ byteLength k ≤ budget.
Proof.
  revert budget. induction t as [|c t IH]; intros budget Hb; cbn [fitting].
  - exists [], []. split; [done|]. split; [by left|done].
  - destruct (Z.leb_spec (char_bytes c) budget).
    + destruct (IH (budget - char_bytes c)) as (k & rest & Ht & Hk & Hlen); [lia|].
      exists (c :: k), rest. split; [by rewrite Ht|]. split; [destruct Hk as [Hk|Hk]; rewrite Hk; auto|].
      cbn [byteLength foldr]. unfold byteLength in Hlen. lia.
    + exists [], (c :: t). split; [done|]. split; [|done]. destruct (0 <? budget); [by right|by left].
Qed.

Lemma fitting_bound budget t : 0 ≤ budget → byteLength (fitting budget t) ≤ budget + 2.
Proof.
  revert budget. induction t as [|c t IH]; intros budget Hb; cbn [fitting]; [cbn; lia|].
  destruct (Z.leb_spec (char_bytes c) budget).
  - cbn [byteLength foldr]. pose proof (IH (budget - char_bytes c)). unfold byteLength in *. lia.
  - destruct (Z.ltb_spec 0 budget); cbn; lia.
Qed.

Lemma fitting_occurs v budget t : 0 ≤ budget → plain v → occurs v (fitting budget t) → occurs v t.
Proof.
  intros Hb (Hne & _ & _ & Hr & _) Hocc. destruct (fitting_shape budget t Hb) as (k & rest & -> & Hk & _).
  assert (Hin : occurs v k).
  { destruct Hk as [Hk|Hk]; rewrite Hk in Hocc; [done|].
    apply occurs_around in Hocc as [?|(a & b & Heq)]; [done| |done|done].
    symmetry in Heq. apply app_eq_nil in Heq as [_ Heq]. by apply app_eq_nil in Heq as [? _]. }
  destruct Hin as (a & b & ->). exists a, (b ++ rest). by rewrite <- !app_assoc.
Qed.

(** ** The carry *)

Section Stream.
Context (maxBytes : Z) (secretValues : list text).
Abbreviation keep := (Z.max 0 (longestSecret secretValues - 1)).

(** After the texts emitted so far, [e]: no secret stands in them and the carry together, and
    the carry is long enough for a secret that is still incomplete, or a marker closes it off. *)
Record carried (e : text) (n : Normalizer) : Prop := {
  carried_clean v : v ∈ secretValues → plain v → ¬ occurs v (e ++ carry n);
  carried_long : e = [] ∨ keep ≤ Z.of_nat (length (carry n)) ∨ opens (carry n);
  carried_digest : digested n = fitting (Z.max 0 maxBytes) e;
  carried_bytes : bytes n = byteLength (digested n);
}.

Lemma longest_secret v : v ∈ secretValues → Z.of_nat (length v) - 1 ≤ keep.
Proof.
  intros Hv. pose proof (byteLength_length v). enough (byteLength v ≤ longestSecret secretValues) by lia.
  unfold longestSecret. assert (Hmono : ∀ l m, m ≤ fold_left (λ m s, Z.max m (byteLength s)) l m).
  { induction l as [|s l IH]; intros m; cbn [fold_left]; [lia|]. specialize (IH (Z.max m (byteLength s))). lia. }
  revert Hv. generalize 0. induction secretValues as [|s l IH]; intros m Hv; [by apply elem_of_nil in Hv|].
  cbn [fold_left]. apply elem_of_cons in Hv as [<-|Hv]; [|by apply IH].
  specialize (Hmono l (Z.max m (byteLength v))). lia.
Qed.

(** The redaction of the carry and what follows it does not complete a secret. *)
Lemma carried_join e n more v :
  carried e n → v ∈ secretValues → plain v → ¬ occurs v (e ++ redact secretValues (carry n ++ more)).
Proof.
  intros [Hclean Hlong _ _] Hv Hp (a & b & Heq).
  pose proof (redact_clean secretValues (carry n ++ more) v Hv Hp) as Hno.
  pose proof (masked_prefix _ _ (redact_masked secretValues (carry n ++ more))) as Hpre.
  destruct Hp as (Hne & Hopen & Hp). pose proof (conj Hne (conj Hopen Hp)) as Hplain.
  apply app_eq_inv in Heq as [(k & -> & Hk)|(k & -> & Hk)].
  - apply app_eq_inv in Hk as [(k' & Hvk & Hk)|(k' & -> & Hk)].
    + (* the secret starts in [e] and ends in the redacted text *)
      destruct (decide (k = [])) as [->|Hkne].
      { apply Hno. exists [], b. cbn in Hvk. by rewrite Hk, Hvk. }
      assert (Hk' : 91 ∉ k') by (intros Hin; apply Hopen; rewrite Hvk; apply elem_of_app; by right).
      destruct (Hpre k' Hk') as [r Hr]; [by exists b|].
      apply app_eq_inv in Hr as [(x & Hc & _)|(x & Hc & _)].
      * apply (Hclean v Hv Hplain). exists a, x. by rewrite Hc, Hvk, <- !app_assoc.
      * destruct (decide (x = [])) as [->|Hx].
        { apply (Hclean v Hv Hplain). exists a, []. by rewrite Hvk, Hc, !app_nil_r, <- app_assoc. }
        destruct Hlong as [He|[Hlong|Ho]].
        -- apply app_eq_nil in He as [_ He]. done.
        -- pose proof (longest_secret v Hv) as Hl. rewrite Hvk, Hc, !length_app in Hl.
           destruct k; [done|]. destruct x; [done|]. cbn [length] in Hl. lia.
        -- apply Hk'. rewrite Hc. apply elem_of_app. by left.
    + apply (Hclean v Hv Hplain). exists a, (k' ++ carry n). by rewrite <- !app_assoc.
  - apply Hno. by exists k, b.
Qed.

Lemma accept_carried e n t :
  digested n = fitting (Z.max 0 maxBytes) e → bytes n = byteLength (digested n) →
  digested (accept maxBytes t n).2 = fitting (Z.max 0 maxBytes) (e ++ t) ∧
  bytes (accept maxBytes t n).2 = byteLength (digested (accept maxBytes t n).2).
Proof.
  intros Hd Hb. unfold accept. cbn [snd digested bytes]. rewrite byteLength_app, Hb. split; [|done].
  rewrite fitting_app by lia. rewrite Hd. f_equal.
  pose proof (byteLength_length (fitting (Z.max 0 maxBytes) e)).
  replace (Z.max 0 (Z.max 0 maxBytes - byteLength (fitting (Z.max 0 maxBytes) e)))
    with (Z.max 0 (maxBytes - byteLength (fitting (Z.max 0 maxBytes) e))) by lia. done.
Qed.

Lemma redact_shorter t : Z.of_nat (length (redact secretValues t)) ≠ Z.of_nat (length t) → opens (redact secretValues t).
Proof. destruct (masked_opens _ _ (redact_masked secretValues t)) as [->|]; [lia|done]. Qed.

Lemma ingest_carried e n chunk :
  carried e n → ∃ e', carried e' (ingest maxBytes secretValues chunk n).2.
Proof.
  intros Hn. unfold ingest, flush. cbn [carry bytes chunkCount truncated digested].
  set (more := stripControls chunk). set (r := redact secretValues (carry n ++ more)).
  set (cut := Z.to_nat (Z.max 0 (Z.of_nat (length r) - keep))).
  destruct (accept_carried e n (take cut r) (carried_digest _ _ Hn) (carried_bytes _ _ Hn)) as [Hd Hb].
  exists (e ++ take cut r). split; cbn.
  - intros v Hv Hp. rewrite <- app_assoc, take_drop. by apply carried_join.
  - destruct (decide (keep ≤ Z.of_nat (length r))) as [Hlen|Hlen].
    + right; left. rewrite length_drop. unfold cut. lia.
    + replace cut with 0%nat by (unfold cut; lia). cbn [take drop]. rewrite app_nil_r.
      destruct (carried_long _ _ Hn) as [He|[Hlong|Ho]]; [by left|right; right..].
      * apply redact_shorter. fold r. rewrite length_app. lia.
      * destruct (masked_opens _ _ (redact_masked secretValues (carry n ++ more))) as [Hr|]; [|done].
        unfold r. rewrite Hr. apply elem_of_app. by left.
  - exact Hd.
  - exact Hb.
Qed.

Lemma stream_carried chunks : ∃ e, carried e (ingest_all maxBytes secretValues chunks).
Proof.
  unfold ingest_all. assert (Hstart : ∃ e, carried e new_normalizer).
  { exists []. split; cbn; try done; [|by left].
    intros v _ (Hne & _) (a & b & Heq). symmetry in Heq. apply app_eq_nil in Heq as [_ Heq].
    by apply app_eq_nil in Heq as [? _]. }
  revert Hstart. generalize new_normalizer. induction chunks as [|chunk chunks IH]; intros n [e He]; [by exists e|].
  cbn [fold_left]. apply IH. by eapply ingest_carried.
Qed.

Lemma finalize_carried sha i e n :
  carried e n → ∃ e', let n' := (finalize sha i maxBytes secretValues n).2 in
    digested n' = fitting (Z.max 0 maxBytes) e' ∧ bytes n' = byteLength (digested n') ∧
    ∀ v, v ∈ secretValues → plain v → ¬ occurs v e'.
Proof.
  intros Hn. unfold finalize. case_bool_decide as Hc; cbn [snd].
  - exists e. split; [apply Hn|]. split; [apply Hn|]. intros v Hv Hp.
    pose proof (carried_clean _ _ Hn v Hv Hp) as Hno. by rewrite Hc, app_nil_r in Hno.
  - unfold flush. set (r := redact secretValues (carry n)).
    destruct (accept_carried e n r (carried_digest _ _ Hn) (carried_bytes _ _ Hn)) as [Hd Hb].
    exists (e ++ r). rewrite (take_ge r) by lia. split; [exact Hd|]. split; [exact Hb|].
    intros v Hv Hp. pose proof (carried_join e n [] v Hn Hv Hp) as Hno. by rewrite app_nil_r in Hno.
Qed.
End Stream.

(* @prop safety 2.9955 : ingest flush accept finalize redact stripControls / output_holds_no_secret_witness *)
(** C15. The output of a command keeps its secrets to itself: however a stream is cut into chunks,
    what is accepted of it (and digested), up to the last character and after the end, contains
    no secret value, a value cut by a chunk boundary included; and its size is counted exactly
    and stays within two bytes of the configured bound (the replacement of a character the
    bound cuts).  The secret shares nothing with the marker. *)
Theorem output_holds_no_secret sha i maxBytes secretValues chunks v
  (Hv : v ∈ secretValues) (Hplain : plain v) :
  let n := ingest_all maxBytes secretValues chunks in
  let n' := (finalize sha i maxBytes secretValues n).2 in
  ¬ occurs v (digested n) ∧ ¬ occurs v (digested n') ∧
  bytes n' = byteLength (digested n') ∧ bytes n' ≤ Z.max 0 maxBytes + 2.
Proof.
  cbn zeta. destruct (stream_carried maxBytes secretValues chunks) as [e He].
  destruct (finalize_carried maxBytes secretValues sha i e _ He) as (e' & Hd & Hb & Hclean). cbn zeta in Hd, Hb.
  split; [|split; [|split; [exact Hb|]]].
  - rewrite (carried_digest _ _ _ _ He). intros Hocc%fitting_occurs; [|lia|done].
    apply (carried_clean _ _ _ _ He v Hv Hplain). destruct Hocc as (a & b & ->).
    exists a, (b ++ carry (ingest_all maxBytes secretValues chunks)). by rewrite <- !app_assoc.
  - rewrite Hd. intros Hocc%fitting_occurs; [|lia|done]. by apply (Hclean v).
  - rewrite Hb, Hd. apply fitting_bound. lia.
Qed.

Definition txt (s : string) : text := map (λ c, Z.of_N (N_of_ascii c)) (String.list_ascii_of_string s).

Lemma output_holds_no_secret_witness :
  let n := ingest_all 1000 [txt "topsecret"] [txt "a tops"; txt "ecret b"] in
  digested (finalize (λ _, "") "out" 1000 [txt "topsecret"] n).2 = txt "a [REDACTED] b" ∧
  ¬ occurs (txt "topsecret") (digested (finalize (λ _, "") "out" 1000 [txt "topsecret"] n).2).
Proof.
  cbn zeta. split; [by vm_compute|].
  assert (Hp : plain (txt "topsecret")).
  { unfold plain. split; [done|]. do 3 (split; [apply (bool_decide_unpack _); vm_compute; reflexivity|]).
    intros (a & b & Heq). apply (f_equal length) in Heq. rewrite !length_app in Heq. cbn in Heq. lia. }
  apply (output_holds_no_secret (λ _, "") "out" 1000 [txt "topsecret"] [txt "a tops"; txt "ecret b"]
    (txt "topsecret") (list_elem_of_here _ _) Hp).
Defined.

(** With a secret configured, a part of every first chunk waits in the carry, and the output is
    reported as truncated although all of it is accepted in the end. *)
Example complete_output_is_truncated :
  let n := ingest_all 1000 [txt "topsecret"] [txt "hello"] in
  let '(ref, n) := finalize (λ _, "") "out" 1000 [txt "topsecret"] n in
  digested n = txt "hello" ∧ o_truncated ref = true.
Proof. by vm_compute. Qed.

(** A redaction makes the text longer than the chunk, and output that the bound cuts is not
    reported as truncated. *)
Example cut_output_is_not_truncated :
  let n := ingest_all 5 [txt "a"] [txt "a"] in
  let '(ref, n) := finalize (λ _, "") "out" 5 [txt "a"] n in
  digested n = txt "[REDA" ∧ o_truncated ref = false.
Proof. by vm_compute. Qed.

(** The replacement of a character that the bound cuts is longer than what was left. *)
Example bound_is_exceeded :
  bytes (ingest_all 1 [] [[233]]) = 3.
Proof. by vm_compute. Qed.
