(* ===== verification/SandboxCommands.v ===== *)
(** * SandboxCommands: commands, containment and artifacts of the sandbox

    [packages/sandbox/src/commands/] (state machine, identity, the governed runner over its
    provider and its store), [controls/] (compilation and application of a containment profile)
    and [artifacts/] (collection under a policy, and cleanup).  The output streams are those of
    [OutputGuard].  The schemas of zod are boolean functions. *)

From S2P Require Import Prelude JsString Effects Json Contracts.
From S2P Require OutputGuard.

(** ** Contracts *)

(* @src packages/sandbox/src/commands/contracts.ts:15-24 COMMAND_CLASSES *)
Inductive CommandClass := read | build | test | scan | install | network | destructive.

Definition class_text (c : CommandClass) : string :=
  match c with
  | read => "read" | build => "build" | test => "test" | scan => "scan" | install => "install"
  | network => "network" | destructive => "destructive"
  end.

(* @src packages/sandbox/src/commands/contracts.ts:26-34 COMMAND_RESULT_STATUSES *)
Inductive CommandResultStatus := succeeded | failed | timed_out | cancelled | blocked | unknown.

#[export] Instance CommandResultStatus_eq_dec : EqDecision CommandResultStatus.
Proof. solve_decision. Defined.

Definition status_text (s : CommandResultStatus) : string :=
  match s with
  | succeeded => "succeeded" | failed => "failed" | timed_out => "timed_out"
  | cancelled => "cancelled" | blocked => "blocked" | unknown => "unknown"
  end.

(* @src packages/sandbox/src/commands/contracts.ts:36-54 COMMAND_STATES *)
Inductive CommandState :=
  | PROPOSED | AUTHORIZED | QUEUED | STARTING | RUNNING | SUCCEEDED | FAILED | TIMING_OUT
  | CANCELLING | TERMINATING | TIMED_OUT | CANCELLED | TERMINATION_FAILED | UNKNOWN | RECONCILING
  | QUARANTINED.

#[export] Instance CommandState_eq_dec : EqDecision CommandState.
Proof. solve_decision. Defined.

Definition state_text (s : CommandState) : string :=
  match s with
  | PROPOSED => "PROPOSED" | AUTHORIZED => "AUTHORIZED" | QUEUED => "QUEUED" | STARTING => "STARTING"
  | RUNNING => "RUNNING" | SUCCEEDED => "SUCCEEDED" | FAILED => "FAILED" | TIMING_OUT => "TIMING_OUT"
  | CANCELLING => "CANCELLING" | TERMINATING => "TERMINATING" | TIMED_OUT => "TIMED_OUT"
  | CANCELLED => "CANCELLED" | TERMINATION_FAILED => "TERMINATION_FAILED" | UNKNOWN => "UNKNOWN"
  | RECONCILING => "RECONCILING" | QUARANTINED => "QUARANTINED"
  end.

(* @src packages/sandbox/src/commands/contracts.ts:78-80 EnvValue *)
Inductive EnvValue := secret_ref (ref : string) | literal_safe (value : string).

(* @src packages/sandbox/src/commands/contracts.ts:122-138 SandboxCommand *)
Record SandboxCommand := {
  commandId : string;
  workspaceId : string;
  headSha : string;
  ready : bool;
  actionDecisionId : string;
  class : CommandClass;
  executable : string;
  args : list string;
  cwd : string;
  env : list (string * EnvValue);
  timeoutMs : Z;
  maxStdoutBytes : Z;
  maxStderrBytes : Z;
  generation : Z;
}.

(** [/^[A-Za-z_][A-Za-z0-9_]*$/]. *)
Definition env_name (s : string) : bool :=
  match s with
  | String c s => (is_alpha c || Ascii.eqb c "_") && all_chars (λ c, is_alnum c || Ascii.eqb c "_") s
  | EmptyString => false
  end.

Definition nul : string := String (ascii_of_N 0) "".
Definition newline : string := String (ascii_of_N 10) "".
Definition ten_minutes : Z := 600000.
Definition max_output : Z := 67108864.

(* @src packages/sandbox/src/commands/contracts.ts:74-77 envValueSchema *)
Definition envValueSchema (v : EnvValue) : bool :=
  match v with secret_ref r => len_between 1 128 r | literal_safe s => len_between 1 200 s end.

(* @src packages/sandbox/src/commands/contracts.ts:66-121 sandboxCommandSchema *)
Definition sandboxCommandSchema (c : SandboxCommand) : bool :=
  len_between 1 128 (commandId c) && id_schema (workspaceId c) &&
  (all_chars lower_hex (headSha c) && (str_length (headSha c) =? 40)) && ready c &&
  len_between 1 128 (actionDecisionId c) &&
  (len_between 1 1024 (executable c) && negb (str_includes (executable c) nul) &&
   negb (str_includes (executable c) newline)) &&
  (forallb (λ a, str_length a <=? 16384) (args c) && (length (args c) <=? 4096)%nat) &&
  (len_between 1 1024 (cwd c) && negb (startsWith (cwd c) "/")) &&
  (forallb (λ '(n, v), env_name n && envValueSchema v) (env c) && (length (env c) <=? 64)%nat) &&
  ((0 <? timeoutMs c) && (timeoutMs c <=? ten_minutes)) &&
  ((0 <? maxStdoutBytes c) && (maxStdoutBytes c <=? max_output)) &&
  ((0 <? maxStderrBytes c) && (maxStderrBytes c <=? max_output)) && (0 <=? generation c).

(** ** Identity *)

Definition env_json (v : EnvValue) : json :=
  match v with
  | secret_ref r => JObj [("kind", JStr "secret_ref"); ("ref", JStr r)]
  | literal_safe s => JObj [("kind", JStr "literal_safe"); ("value", JStr s)]
  end.

(* @src packages/sandbox/src/commands/command-identity.ts:15-30 canonicalDigest *)
Definition canonicalDigest `{Digest} (c : SandboxCommand) : string :=
  sha256 (stringify (JObj [
    ("workspaceId", JStr (workspaceId c)); ("headSha", JStr (headSha c));
    ("class", JStr (class_text (class c))); ("executable", JStr (executable c));
    ("args", JArr (map JStr (args c))); ("cwd", JStr (cwd c));
    ("env", JArr (map (λ '(n, v), JArr [JStr n; env_json v]) (env c)));
    ("output", JObj [("maxStdoutBytes", JNum (maxStdoutBytes c)); ("maxStderrBytes", JNum (maxStderrBytes c))]);
    ("timeoutMs", JNum (timeoutMs c)); ("generation", JNum (generation c))])).

(** [/^(?:[A-Za-z]:[\\/]|[\\\\/])/]. *)
Definition separator (c : ascii) : bool := Ascii.eqb c "/" || Ascii.eqb c "\".
Definition rooted (s : string) : bool :=
  match s with
  | String c s' => separator c ||
      match s' with
      | String d (String e _) => is_alpha c && Ascii.eqb d ":" && separator e
      | _ => false
      end
  | EmptyString => false
  end.

(* @src packages/sandbox/src/commands/command-identity.ts:32-47 assertSafeArgv *)
Definition assertSafeArgv (c : SandboxCommand) : outcome () :=
  if str_includes (executable c) nul || existsb (λ a, str_includes a nul) (args c)
  then Threw (PlainError "SANDBOX_ARGV_NUL_DENIED")
  else if rooted (cwd c) || startsWith (cwd c) "/" || str_includes (cwd c) nul ||
          str_in ".." (split_char "/" (map_chars (λ d, if separator d then "/"%char else d) (cwd c)))
  then Threw (PlainError "SANDBOX_CWD_DENIED")
  else if existsb (λ '(n, _), negb (env_name n)) (env c)
  then Threw (PlainError "SANDBOX_ENV_NAME_DENIED")
  else Returned ().

(* @src packages/sandbox/src/commands/command-identity.ts:50-52 commandIdempotencyKey *)
Definition commandIdempotencyKey (commandId : string) (generation : Z) : string :=
  "command:" +s commandId +s ":generation:" +s num_to_string generation.

(** ** The state machine *)

(* @src packages/sandbox/src/commands/command-fsm.ts:11-27 CommandTrigger *)
Inductive CommandTrigger :=
  | authorize | queue | start_ | running_ | succeed | fail | deadline | cancel_request | terminate_
  | timed_out_ | cancelled_ | termination_failed_ | unknown_ | reconcile | quarantine | resolved.

#[export] Instance CommandTrigger_eq_dec : EqDecision CommandTrigger.
Proof. solve_decision. Defined.

(* @src packages/sandbox/src/commands/command-fsm.ts:37-44 TERMINALS *)
Definition TERMINALS : list CommandState :=
  [SUCCEEDED; FAILED; TIMED_OUT; CANCELLED; TERMINATION_FAILED; QUARANTINED].

(* @src packages/sandbox/src/commands/command-fsm.ts:46-76 EDGES *)
Definition EDGES (t : CommandTrigger) : list (CommandState * CommandState) :=
  match t with
  | authorize => [(PROPOSED, AUTHORIZED)]
  | queue => [(AUTHORIZED, QUEUED)]
  | start_ => [(QUEUED, STARTING)]
  | running_ => [(STARTING, RUNNING)]
  | succeed => [(RUNNING, SUCCEEDED)]
  | fail => [(RUNNING, FAILED); (STARTING, FAILED)]
  | deadline => [(RUNNING, TIMING_OUT)]
  | cancel_request => [(RUNNING, CANCELLING)]
  | terminate_ => [(TIMING_OUT, TERMINATING); (CANCELLING, TERMINATING)]
  | timed_out_ => [(TERMINATING, TIMED_OUT)]
  | cancelled_ => [(TERMINATING, CANCELLED)]
  | termination_failed_ => [(TERMINATING, TERMINATION_FAILED)]
  | unknown_ => [(RUNNING, UNKNOWN); (STARTING, UNKNOWN); (TERMINATING, UNKNOWN)]
  | reconcile => [(UNKNOWN, RECONCILING)]
  | quarantine => [(RECONCILING, QUARANTINED)]
  | resolved => [(RECONCILING, SUCCEEDED); (RECONCILING, FAILED)]
  end.

(** The state after the trigger, when it is allowed. *)
(* @src packages/sandbox/src/commands/command-fsm.ts:78-86 resolveCommandEdge *)
Definition resolveCommandEdge (from : CommandState) (t : CommandTrigger) : option CommandState :=
  if bool_decide (from ∈ TERMINALS) then None
  else snd <$> List.find (λ e, bool_decide (e.1 = from)) (EDGES t).

(* @src packages/sandbox/src/commands/command-fsm.ts:88-90 isTerminalCommand *)
Definition isTerminalCommand (s : CommandState) : bool := bool_decide (s ∈ TERMINALS).

Definition command_step (s s' : CommandState) : Prop := ∃ t, resolveCommandEdge s t = Some s'.

(** A terminal state is final; a run succeeds only from a running or a reconciling one; and the
    second edge of [resolved] is never found, so that nothing reconciled fails. *)
Lemma command_machine :
  (∀ s s', s ∈ TERMINALS → ¬ command_step s s') ∧
  (∀ s, command_step s SUCCEEDED → s = RUNNING ∨ s = RECONCILING) ∧
  (∀ s, command_step s CANCELLED → s = TERMINATING) ∧
  ¬ command_step RECONCILING FAILED.
Proof.
  split; [|split; [|split]].
  - intros s s' Hs [t Ht]. unfold resolveCommandEdge in Ht. by rewrite bool_decide_true in Ht.
  - intros s [t Ht]. destruct s, t; vm_compute in Ht; try done; auto.
  - intros s [t Ht]. destruct s, t; vm_compute in Ht; try done; auto.
  - intros [t Ht]. destruct t; vm_compute in Ht; done.
Qed.

(** ** The runner *)

(* @src packages/sandbox/src/commands/command-runner.ts:24-33 CommandStoreRecord *)
Record CommandStoreRecord := {
  s_commandId : string;
  s_generation : Z;
  idempotencyKey : string;
  digest : string;
  state : string;
  providerRefs : list string;
  createdAtIso : string;
  updatedAtIso : string;
}.

(* @src packages/sandbox/src/commands/command-provider-port.ts:11-17 CommandProviderResult *)
Inductive ProviderCode := NOT_FOUND | CANCEL_UNSUPPORTED | SERVER_ERROR | TIMEOUT.

#[export] Instance ProviderCode_eq_dec : EqDecision ProviderCode.
Proof. solve_decision. Defined.

Definition code_text (c : ProviderCode) : string :=
  match c with
  | NOT_FOUND => "NOT_FOUND" | CANCEL_UNSUPPORTED => "CANCEL_UNSUPPORTED"
  | SERVER_ERROR => "SERVER_ERROR" | TIMEOUT => "TIMEOUT"
  end.

(** A chunk of standard output, or of standard error. *)
(* @src packages/sandbox/src/commands/command-provider-port.ts:19-23 ProviderOutputChunk *)
Record ProviderOutputChunk := { to_stdout : bool; chunk_text : OutputGuard.text }.

(* @src packages/sandbox/src/commands/command-provider-port.ts:25-34 ProviderStreamSlice *)
Record ProviderStreamSlice := {
  chunks : list ProviderOutputChunk;
  running : bool;
  exitCode : option Z;
  signal : option string;
  nextCursor : Z;
}.

(** The calls of the runner: the store, the events, the provider and the clock. *)
(* @src packages/sandbox/src/commands/command-provider-port.ts:36-52 TrueForgeCommandPort *)
Inductive RunnerCall :=
  | getByKey (key : string)
  | save (r : CommandStoreRecord)
  | emit (type_ commandId : string)
  | execute (c : SandboxCommand)
  | stream (cursor : Z) (providerCommandId : string)
  | inspect
  | terminate (providerCommandId : option string)
  | now_.

Definition RunnerAns (c : RunnerCall) : Type :=
  match c with
  | getByKey _ => option CommandStoreRecord
  | save _ | emit _ _ => ()
  | execute _ => string + ProviderCode
  | stream _ _ => ProviderStreamSlice + ProviderCode
  | inspect => bool + ProviderCode
  | terminate _ => bool + ProviderCode
  | now_ => string
  end.

Abbreviation runner := (proc RunnerAns).
Definition ask (c : RunnerCall) : runner (RunnerAns c) := call c.

(* @src packages/sandbox/src/commands/command-runner.ts:81-84 start *)
Inductive StartResult :=
  | Started (providerCommandId : string)
  | NotStarted (status : CommandResultStatus) (detail : string).

(* @src packages/sandbox/src/commands/contracts.ts:177-187 SandboxResult *)
Record Streams := {
  stdout : OutputGuard.Normalizer;
  stderr : OutputGuard.Normalizer;
  cursor : Z;
  last_exit : option Z;
  last_signal : option string;
}.

Section Runner.
Context {Hdigest : Digest}.
Context (secretValues : list OutputGuard.text).

Definition with_state (s : string) (refs : list string) (at_ : string) (r : CommandStoreRecord)
  : CommandStoreRecord := {|
  s_commandId := s_commandId r; s_generation := s_generation r; idempotencyKey := idempotencyKey r;
  digest := digest r; state := s; providerRefs := refs; createdAtIso := createdAtIso r;
  updatedAtIso := at_ |}.

(* @src packages/sandbox/src/commands/command-runner.ts:160-163 started *)
Definition ingest_chunk (c : SandboxCommand) (s : Streams) (chunk : ProviderOutputChunk) : Streams :=
  let into max n := (OutputGuard.ingest max secretValues (chunk_text chunk) n).2 in
  if to_stdout chunk then
    {| stdout := into (maxStdoutBytes c) (stdout s); stderr := stderr s; cursor := cursor s;
       last_exit := last_exit s; last_signal := last_signal s |}
  else
    {| stdout := stdout s; stderr := into (maxStderrBytes c) (stderr s); cursor := cursor s;
       last_exit := last_exit s; last_signal := last_signal s |}.

(* @src packages/sandbox/src/commands/command-runner.ts:160-169 started *)
Definition take_slice (c : SandboxCommand) (slice : ProviderStreamSlice) (s : Streams) : Streams :=
  let s := fold_left (ingest_chunk c) (chunks slice) s in
  {| stdout := stdout s; stderr := stderr s; cursor := nextCursor slice;
     last_exit := if running slice then last_exit s else exitCode slice;
     last_signal := if running slice then last_signal s else signal slice |}.

(** At most [fuel] slices; [None] when the command still runs after them. *)
(* @src packages/sandbox/src/commands/command-runner.ts:157-170 started *)
Fixpoint stream_loop (fuel : nat) (c : SandboxCommand) (providerCommandId : string) (s : Streams)
  : runner (option Streams) :=
  match fuel with
  | O => pret None
  | S fuel =>
      slice <~ ask (stream (cursor s) providerCommandId) ;;
      match slice with
      | inr _ => pret (Some s)
      | inl slice =>
          let s := take_slice c slice s in
          if running slice then stream_loop fuel c providerCommandId s else pret (Some s)
      end
  end.

(* @src packages/sandbox/src/commands/command-runner.ts:201-207 ranUnderDeadline *)
Definition ranUnderDeadline (c : SandboxCommand) : bool := true.

(* @src packages/sandbox/src/commands/command-runner.ts:172-176 started *)
Definition result_status (c : SandboxCommand) (s : Streams) : CommandResultStatus :=
  if negb (ranUnderDeadline c) then timed_out
  else if bool_decide (last_exit s = Some 0) then succeeded else failed.

(** The [SandboxResult] built from the streams is dropped by the code; what remains is the record. *)
(* @src packages/sandbox/src/commands/command-runner.ts:128-199 started *)
Definition started (fuel : nat) (c : SandboxCommand) (record : CommandStoreRecord)
    (providerCommandId : string) : runner (option StartResult) :=
  now <~ ask now_ ;;
  ask (save (with_state "RUNNING" [providerCommandId] now record)) ;~
  ask (emit "sandbox.command.started" (commandId c)) ;~
  ended <~ stream_loop fuel c providerCommandId {| stdout := OutputGuard.new_normalizer;
    stderr := OutputGuard.new_normalizer; cursor := 0; last_exit := None; last_signal := None |} ;;
  match ended with
  | None => pret None
  | Some s =>
      now <~ ask now_ ;;
      ask (save (with_state (toUpperCase (status_text (result_status c s))) [providerCommandId] now record)) ;~
      ask (emit ("sandbox.command." +s status_text (result_status c s)) (commandId c)) ;~
      pret (Some (Started providerCommandId))
  end.

(* @src packages/sandbox/src/commands/command-runner.ts:78-126 start *)
Definition start (fuel : nat) (c : SandboxCommand) (decisionId : string) (allowed : bool)
  : runner (option StartResult) :=
  if negb (sandboxCommandSchema c) then pret (Some (NotStarted blocked "malformed command"))
  else
    match assertSafeArgv c with
    | Threw _ => pret (Some (NotStarted blocked "unsafe argv"))
    | Returned _ =>
        if negb allowed || negb (decisionId =s? actionDecisionId c)
        then pret (Some (NotStarted blocked "COMMAND_NOT_AUTHORIZED"))
        else
          let digest_ := canonicalDigest c in
          let key := commandIdempotencyKey (commandId c) (generation c) in
          existing <~ ask (getByKey key) ;;
          match existing with
          | Some r =>
              if negb (digest r =s? digest_) then pret (Some (NotStarted blocked "COMMAND_IDEMPOTENCY_CONFLICT"))
              else if state r =s? "SUCCEEDED" then pret (Some (Started (head (providerRefs r) ?? "")))
              else pret (Some (NotStarted blocked ("already " +s state r)))
          | None =>
              created <~ ask now_ ;;
              updated <~ ask now_ ;;
              let record := {| s_commandId := commandId c; s_generation := generation c;
                idempotencyKey := key; digest := digest_; state := "AUTHORIZED"; providerRefs := [];
                createdAtIso := created; updatedAtIso := updated |} in
              ask (save record) ;~
              ask (emit "sandbox.command.queued" (commandId c)) ;~
              dispatched <~ ask (execute c) ;;
              match dispatched with
              | inl providerCommandId => started fuel c record providerCommandId
              | inr code =>
                  if bool_decide (code = CANCEL_UNSUPPORTED) || bool_decide (code = SERVER_ERROR)
                  then pret (Some (NotStarted failed ("provider " +s code_text code)))
                  else pret (Some (NotStarted unknown "start outcome unknown; reconcile"))
              end
          end
    end.

(** [true]: cancelled; [false]: the answer [cancelled_unsupported]. *)
(* @src packages/sandbox/src/commands/command-runner.ts:209-232 cancel *)
Definition cancel (commandId : string) (generation : Z) : runner bool :=
  let key := commandIdempotencyKey commandId generation in
  existing <~ ask (getByKey key) ;;
  match existing with
  | None => pret false
  | Some record =>
      if negb (state record =s? "RUNNING") then pret false
      else
        result <~ ask (terminate (head (providerRefs record))) ;;
        match result with
        | inl true =>
            inspected <~ ask inspect ;;
            match inspected with
            | inl false =>
                now <~ ask now_ ;;
                ask (save (with_state "CANCELLED" (providerRefs record) now record)) ;~
                ask (emit "sandbox.command.cancelled" commandId) ;~
                pret true
            | _ => pret false
            end
        | _ => pret false
        end
  end.
End Runner.

(** ** What the runner does with its ports *)

Section RunnerFacts.
Context {Hdigest : Digest}.
Context (secretValues : list OutputGuard.text).

(** What a command needs before it is handed to the provider. *)
Definition permitted (c : SandboxCommand) (decisionId : string) (allowed : bool) : Prop :=
  sandboxCommandSchema c = true ∧ assertSafeArgv c = Returned () ∧ allowed = true ∧
  decisionId = actionDecisionId c.

(** The stream reported that the command ended with exit code 0. *)
Definition reported_success (tr : list (event RunnerAns)) : Prop :=
  ∃ cur p slice, ev (stream cur p) (Returned (inl slice)) ∈ tr ∧ running slice = false ∧ exitCode slice = Some 0.

Definition start_call (c : SandboxCommand) (decisionId : string) (allowed : bool)
    (tr : list (event RunnerAns)) (call : RunnerCall) : Prop :=
  let key := commandIdempotencyKey (commandId c) (generation c) in
  match call with
  | execute c' => c' = c ∧ permitted c decisionId allowed ∧
      ev (getByKey key) (Returned None) ∈ tr ∧
      ∃ r, idempotencyKey r = key ∧ digest r = canonicalDigest c ∧ ev (save r) (Returned ()) ∈ tr
  | save r => idempotencyKey r = key ∧ digest r = canonicalDigest c ∧
      (state r = "AUTHORIZED" ∨ state r = "RUNNING" ∨ state r = "FAILED" ∨
       (state r = "SUCCEEDED" ∧ reported_success tr))
  | terminate _ | inspect => False
  | _ => True
  end.

Lemma elem_snoc {A} (x : A) l : x ∈ l ++ [x].
Proof. apply elem_of_app. right. by apply list_elem_of_singleton. Qed.

Lemma elem_weaken {A} (x y : A) l : x ∈ l → x ∈ l ++ [y].
Proof. intros H. apply elem_of_app. by left. Qed.

Lemma reported_weaken tr e : reported_success tr → reported_success (tr ++ [e]).
Proof. intros (cur & p & slice & Hin & H). exists cur, p, slice. split; [by apply elem_weaken|done]. Qed.

Definition exit_reported (tr : list (event RunnerAns)) (s : Streams) : Prop :=
  last_exit s = Some 0 → reported_success tr.

Lemma ingest_exit c s l : last_exit (fold_left (ingest_chunk secretValues c) l s) = last_exit s.
Proof.
  revert s. induction l as [|x l IH]; intros s; cbn [fold_left]; [done|]. rewrite IH.
  unfold ingest_chunk. by destruct (to_stdout x).
Qed.

Lemma stream_loop_ensures c d a fuel p s tr {B} (k : option Streams → runner B) Q :
  exit_reported tr s → (∀ tr' o, Q tr' (Threw o)) →
  (∀ tr', ensures (start_call c d a) Q tr' (k None)) →
  (∀ tr' s', exit_reported tr' s' → ensures (start_call c d a) Q tr' (k (Some s'))) →
  ensures (start_call c d a) Q tr (pbind (stream_loop secretValues fuel c p s) k).
Proof.
  intros Hs HQ Hnone Hsome. revert tr s Hs. induction fuel as [|fuel IH]; intros tr s Hs; cbn [stream_loop].
  - apply Hnone.
  - unfold ask, call. cbn [pbind]. split; [done|]. intros [[slice|code]|e]; cbn [pbind].
    + assert (Hs' : exit_reported (tr ++ [ev (stream (cursor s) p) (Returned (inl slice))]) (take_slice secretValues c slice s)).
      { unfold exit_reported, take_slice. cbn [last_exit]. rewrite ingest_exit.
        destruct (running slice) eqn:Hr; intros H; [apply reported_weaken, Hs, H|].
        exists (cursor s), p, slice. split; [apply elem_snoc|done]. }
      destruct (running slice); [by apply IH | by apply Hsome].
    + apply Hsome. intros H. apply reported_weaken, Hs, H.
    + apply HQ.
Qed.

Lemma started_ensures c d a fuel record p tr :
  idempotencyKey record = commandIdempotencyKey (commandId c) (generation c) →
  digest record = canonicalDigest c →
  ensures (start_call c d a) (λ _ _, True) tr (started secretValues fuel c record p).
Proof.
  intros Hk Hd. unfold started. unfold ask at 1, call at 1. cbn [pbind]. split; [done|].
  intros [now|]; [|done]. cbn [pbind]. unfold ask at 1, call at 1. cbn [pbind]. split.
  { cbn. auto. } intros [[]|]; [|done]. cbn [pbind].
  unfold ask at 1, call at 1. cbn [pbind]. split; [done|]. intros [[]|]; [|done]. cbn [pbind].
  apply stream_loop_ensures; [done|done|done|]. intros tr' s Hs. cbn [pbind].
  unfold ask at 1, call at 1. cbn [pbind]. split; [done|]. intros [now'|]; [|done]. cbn [pbind].
  unfold ask at 1, call at 1. cbn [pbind]. split.
  - cbn. split; [done|]. split; [done|]. unfold result_status, ranUnderDeadline. cbn [negb].
    case_bool_decide as He; cbn; [|auto]. right; right; right. split; [done|].
    apply reported_weaken. by apply Hs.
  - intros [[]|]; [|done]. cbn [pbind]. split; [done|]. by intros [].
Qed.

Lemma start_ensures fuel c d a :
  ensures (start_call c d a) (λ _ _, True) [] (start secretValues fuel c d a).
Proof.
  unfold start. destruct (sandboxCommandSchema c) eqn:Hschema; [|done]. cbn [negb].
  destruct (assertSafeArgv c) as [[]|] eqn:Hargv; [|done].
  destruct (negb a || negb (d =s? actionDecisionId c)) eqn:Ha; [done|].
  assert (Hp : permitted c d a) by (breflect; done).
  unfold ask at 1, call at 1. cbn [pbind]. split; [done|]. intros [[r|]|]; [|..|done]; cbn [pbind].
  - destruct (negb (digest r =s? canonicalDigest c)); [done|]. by destruct (state r =s? "SUCCEEDED").
  - unfold ask at 1, call at 1. cbn [pbind]. split; [done|]. intros [t1|]; [|done]. cbn [pbind].
    unfold ask at 1, call at 1. cbn [pbind]. split; [done|]. intros [t2|]; [|done]. cbn [pbind].
    set (record := Build_CommandStoreRecord _ _ _ _ _ _ _ _).
    unfold ask at 1, call at 1. cbn [pbind]. split; [cbn; auto|]. intros [[]|]; [|done]. cbn [pbind].
    unfold ask at 1, call at 1. cbn [pbind]. split; [done|]. intros [[]|]; [|done]. cbn [pbind].
    unfold ask at 1, call at 1. cbn [pbind]. split.
    + split; [done|]. split; [done|]. split; [do 4 apply elem_weaken; apply elem_snoc|].
      exists record. split; [done|]. split; [done|]. apply elem_weaken, elem_snoc.
    + intros [[p|code]|]; cbn [pbind]; [by apply started_ensures| |done].
      by destruct (bool_decide (code = CANCEL_UNSUPPORTED) || bool_decide (code = SERVER_ERROR)).
Qed.
End RunnerFacts.

(** A command reaches the provider only when it may: whatever the store, the clock and the
    provider answer, the provider is handed this very command, only if it is well formed, its
    argument vector is safe, its own decision was allowed, no record of its key was found, and
    a record with its digest was saved before; and a record says [SUCCEEDED] only after the
    stream reported the end of the command with exit code 0. *)
Theorem command_needs_permission `{Digest} secretValues fuel c decisionId allowed :
  ensures (start_call c decisionId allowed) (λ _ _, True) [] (start secretValues fuel c decisionId allowed).
Proof. apply start_ensures. Qed.

(** ** What the runner does not do *)

(** A store with a single row, a provider with the commands it started, the slices it will
    give, and whether it refuses. *)
Record World := {
  row : option CommandStoreRecord;
  executed : nat;
  slices : list (ProviderStreamSlice + ProviderCode);
  refuses : option ProviderCode;
}.

Definition with_row (r : CommandStoreRecord) (w : World) : World :=
  {| row := Some r; executed := executed w; slices := slices w; refuses := refuses w |}.

Definition sample_port (c : RunnerCall) (w : World) : outcome (RunnerAns c) * World :=
  match c with
  | getByKey _ => (Returned (row w), w)
  | save r => (Returned (), with_row r w)
  | emit _ _ => (Returned (), w)
  | execute _ =>
      match refuses w with
      | Some code => (Returned (inr code), w)
      | None => (Returned (inl "pc"),
          {| row := row w; executed := S (executed w); slices := slices w; refuses := None |})
      end
  | stream _ _ =>
      match slices w with
      | s :: rest => (Returned s,
          {| row := row w; executed := executed w; slices := rest; refuses := refuses w |})
      | [] => (Returned (inr TIMEOUT), w)
      end
  | inspect => (Returned (inl false), w)
  | terminate _ => (Returned (inl true), w)
  | now_ => (Returned "now", w)
  end.

#[local] Instance sample_digest : Digest := λ s, s.

Definition sample_command : SandboxCommand := {|
  commandId := "cmd-1"; workspaceId := "9b5d2b1c-1122-4433-a5de-0f0f0f0f0f0f";
  headSha := "aaaaaaaaaaaaaaaaaaaaaaaaaaaaaaaaaaaaaaaa"; ready := true; actionDecisionId := "decision-1";
  class := test; executable := "/usr/bin/true"; args := []; cwd := "src";
  env := [("DEVGUARD_WORKSPACE", literal_safe "local")]; timeoutMs := 60000; maxStdoutBytes := 1000;
  maxStderrBytes := 1000; generation := 0 |}.

Definition sample_start : runner (option StartResult) := start [] 3 sample_command "decision-1" true.
Definition fresh_world (s : list (ProviderStreamSlice + ProviderCode)) (refuses : option ProviderCode) : World :=
  {| row := None; executed := 0; slices := s; refuses := refuses |}.
Definition ended (code : Z) : ProviderStreamSlice + ProviderCode :=
  inl {| chunks := []; running := false; exitCode := Some code; signal := None; nextCursor := 0 |}.

(** A run, and its replay. *)
Example a_run_and_its_replay :
  let '(first, w) := final sample_port sample_start (fresh_world [ended 0] None) in
  first = Returned (Some (Started "pc")) ∧ state <$> row w = Some "SUCCEEDED" ∧
  let '(again, w) := final sample_port sample_start w in
  again = Returned (Some (Started "pc")) ∧ executed w = 1%nat.
Proof. by vm_compute. Qed.

(** The lookup and the save are two calls: two starts of one command that interleave both find
    nothing, and the provider runs the command twice. *)
Example racing_starts_execute_twice :
  executed (schedule sample_port (repeat 0 1 ++ repeat 1 6 ++ repeat 0 5)%nat
    (fresh_world [] None, [([], sample_start); ([], sample_start)])).1 = 2%nat.
Proof. by vm_compute. Qed.

(** A dispatch that failed leaves its record [AUTHORIZED]: every later start is refused, and
    nothing else of the runner touches the record. *)
Example failed_dispatch_blocks :
  let '(first, w) := final sample_port sample_start (fresh_world [] (Some SERVER_ERROR)) in
  first = Returned (Some (NotStarted failed "provider SERVER_ERROR")) ∧
  (final sample_port sample_start w).1 = Returned (Some (NotStarted blocked "already AUTHORIZED")) ∧
  (final sample_port (cancel "cmd-1" 0) w).1 = Returned false.
Proof. by vm_compute. Qed.

(** A stream that breaks off is a failure of the command, which may be running. *)
Example broken_stream_is_a_failure :
  let '(r, w) := final sample_port sample_start (fresh_world [] None) in
  r = Returned (Some (Started "pc")) ∧ state <$> row w = Some "FAILED".
Proof. by vm_compute. Qed.

(** A cancellation while the stream is read is overwritten when the stream ends. *)
Example cancellation_is_overwritten :
  let '(w, ts) := schedule sample_port (repeat 0 8 ++ repeat 1 6 ++ repeat 0 5)%nat
    (fresh_world [ended 0] None,
     [([], sample_start); ([], (b <~ cancel "cmd-1" 0 ;; pret (if b : bool then None else Some (NotStarted blocked ""))))]) in
  ts.*2 = [pret (Some (Started "pc")); pret None] ∧ state <$> row w = Some "SUCCEEDED".
Proof. by vm_compute. Qed.

(** ** Containment *)

Module Containment.
(* @src packages/sandbox/src/controls/contracts.ts:14-15 NETWORK_POLICY *)
Inductive NetworkPolicy := deny_all | allowlist_only | allow_private.

#[export] Instance NetworkPolicy_eq_dec : EqDecision NetworkPolicy.
Proof. solve_decision. Defined.

Definition policy_text (n : NetworkPolicy) : string :=
  match n with deny_all => "deny_all" | allowlist_only => "allowlist_only" | allow_private => "allow_private" end.

(* @src packages/sandbox/src/controls/contracts.ts:17-32 PROFILE_STATES *)
Inductive ProfileState :=
  | REQUESTED | COMPILING | VERIFYING_CAPABILITIES | APPLYING | ATTESTING | ACTIVE
  | BLOCKED_UNSUPPORTED | BLOCKED_POLICY | FAILED | VIOLATED | TERMINATING | TERMINATED
  | TERMINATION_FAILED.

#[export] Instance ProfileState_eq_dec : EqDecision ProfileState.
Proof. solve_decision. Defined.

(** The caps on CPU, memory, disk, processes and wall time. *)
Record Ceilings := {
  c_cpu : Z;
  c_memory : Z;
  c_disk : Z;
  c_processes : Z;
  c_wall : Z;
}.

(* @src packages/sandbox/src/controls/contracts.ts:34-40 DEFAULT_GLOBAL_CEILINGS *)
Definition DEFAULT_GLOBAL_CEILINGS : Ceilings := {|
  c_cpu := 650000; c_memory := 4294967296; c_disk := 17179869184; c_processes := 64; c_wall := 900000 |}.

(* @src packages/sandbox/src/controls/contracts.ts:58-71 EffectiveContainmentProfile *)
Record EffectiveContainmentProfile := {
  id : string;
  generation : Z;
  network : NetworkPolicy;
  allowedDestinations : list string;
  maxCpuMillis : Z;
  maxMemoryBytes : Z;
  maxDiskBytes : Z;
  maxProcesses : Z;
  maxWallMillis : Z;
  shellModeAllowed : bool;
  parallelReadCommands : bool;
  secretRefs : list string;
}.

(* @src packages/sandbox/src/controls/contracts.ts:42-57 effectiveContainmentProfileSchema *)
Definition effectiveContainmentProfileSchema (p : EffectiveContainmentProfile) : bool :=
  len_between 1 128 (id p) && (0 <=? generation p) &&
  (forallb (λ d, str_length d <=? 200) (allowedDestinations p) && (length (allowedDestinations p) <=? 64)%nat) &&
  (0 <? maxCpuMillis p) && (0 <? maxMemoryBytes p) && (0 <? maxDiskBytes p) && (0 <? maxProcesses p) &&
  (0 <? maxWallMillis p) &&
  (forallb (λ r, str_length r <=? 128) (secretRefs p) && (length (secretRefs p) <=? 64)%nat).

(* @src packages/sandbox/src/controls/containment-controller.ts:20-26 ProfileSourceConstraints *)
Record ProfileSourceConstraints := {
  s_network : option NetworkPolicy;
  s_allowedDestinations : option (list string);
  s_maxWallMillis : option Z;
  s_maxCpuMillis : option Z;
  s_shellModeAllowed : option bool;
}.

(* @src packages/sandbox/src/controls/containment-controller.ts:137-141 compileNetworkPolicy *)
Definition compileNetworkPolicy (source : ProfileSourceConstraints) : NetworkPolicy :=
  match s_allowedDestinations source with
  | Some (_ :: _) => allowlist_only
  | _ => s_network source ?? deny_all
  end.

Section Controller.
Context {Hdigest : Digest}.
(** The ceilings of the deployment over the default ones, and its policy on shells. *)
Context (ceilings : Ceilings) (shellModePolicyAllowed : bool).

(** Members that are [undefined] are left out. *)
(* @src packages/sandbox/src/controls/containment-controller.ts:74-74 compile *)
Definition profile_id (source : ProfileSourceConstraints) (class : string) (wall : Z) : string :=
  let member {A} (k : string) (f : A → json) (o : option A) :=
    match o with Some a => [(k, f a)] | None => [] end in
  "cp-" +s slice_to 16 (sha256 (stringify (JObj ([("class", JStr class)] ++
    member "network" (λ n, JStr (policy_text n)) (s_network source) ++
    member "allowedDestinations" (λ l, JArr (map JStr l)) (s_allowedDestinations source) ++
    [("maxWallMillis", JNum wall)] ++
    member "maxCpuMillis" JNum (s_maxCpuMillis source) ++
    member "shellModeAllowed" JBool (s_shellModeAllowed source))))).

(** The profile, or the detail of [BLOCKED_POLICY]. *)
(* @src packages/sandbox/src/controls/containment-controller.ts:60-95 compile *)
Definition compile (source : ProfileSourceConstraints) (class : string) (classExtraWallMillis : option Z)
  : EffectiveContainmentProfile + string :=
  if (s_shellModeAllowed source ?? false) && negb shellModePolicyAllowed
  then inr "shell mode not policy-approved"
  else
    let wall := Z.min (s_maxWallMillis source ?? c_wall ceilings) (c_wall ceilings) +
                Z.min (classExtraWallMillis ?? 0) (c_wall ceilings) in
    let profile := {| id := profile_id source class wall; generation := 1;
      network := compileNetworkPolicy source;
      allowedDestinations := if bool_decide (s_network source = Some allowlist_only)
                             then s_allowedDestinations source ?? [] else [];
      maxCpuMillis := Z.min (s_maxCpuMillis source ?? c_cpu ceilings) (c_cpu ceilings);
      maxMemoryBytes := c_memory ceilings; maxDiskBytes := c_disk ceilings;
      maxProcesses := c_processes ceilings; maxWallMillis := wall;
      shellModeAllowed := s_shellModeAllowed source ?? false; parallelReadCommands := false;
      secretRefs := [] |} in
    if effectiveContainmentProfileSchema profile then inl profile
    else inr "compiled profile violates policy".
End Controller.

(* @src packages/sandbox/src/controls/containment-controller.ts:28-35 ProviderCapabilityProbe *)
Record ProviderCapabilityProbe := {
  networkDeny : bool;
  allowlist : bool;
  resourceLimits : bool;
  processKill : bool;
}.

Definition probe_json (c : ProviderCapabilityProbe) : json :=
  JObj [("supports", JObj [("networkDeny", JBool (networkDeny c)); ("allowlist", JBool (allowlist c));
    ("resourceLimits", JBool (resourceLimits c)); ("processKill", JBool (processKill c))])].

(* @src packages/sandbox/src/controls/contracts.ts:73-78 ControlAttestation *)
Record ControlAttestation := {
  profileId : string;
  provider : string;
  attestedAtIso : string;
  capabilityDigest : string;
}.

(* @src packages/sandbox/src/controls/containment-controller.ts:37-40 ContainmentProvider *)
Inductive ProviderCall := probe | apply_profile (p : EffectiveContainmentProfile) | nowIso.
Definition ProviderAns (c : ProviderCall) : Type :=
  match c with probe => ProviderCapabilityProbe | apply_profile _ => option string | nowIso => string end.

(** The attestation, or a code with its detail. *)
(* @src packages/sandbox/src/controls/containment-controller.ts:97-134 apply *)
Definition apply `{Digest} (p : EffectiveContainmentProfile)
  : proc ProviderAns (ControlAttestation + string * string) :=
  caps <~ ptry (pbind (call (Ans := ProviderAns) probe) (λ c, pret (Some c))) (λ _, pret None) ;;
  match caps with
  | None => pret (inr ("FAILED", "provider probe failed"))
  | Some caps =>
      if negb (networkDeny caps && allowlist caps && resourceLimits caps && processKill caps)
      then pret (inr ("BLOCKED_UNSUPPORTED", "provider cannot enforce requested controls"))
      else
        applied <~ ptry (pbind (call (Ans := ProviderAns) (apply_profile p)) (λ c, pret (Some c))) (λ _, pret None) ;;
        match applied with
        | None => pret (inr ("FAILED", "provider apply failed"))
        | Some (Some code) =>
            pret (inr (if code =s? "BLOCKED_UNSUPPORTED" then "BLOCKED_UNSUPPORTED" else "FAILED", code))
        | Some None =>
            now <~ call (Ans := ProviderAns) nowIso ;;
            pret (inl {| profileId := id p; provider := "trueforge"; attestedAtIso := now;
                         capabilityDigest := sha256 (stringify (probe_json caps)) |})
        end
  end.

(* @src packages/sandbox/src/controls/contracts.ts:95-114 PROFILE_EDGES *)
Definition PROFILE_EDGES : list (string * list (ProfileState * ProfileState)) := [
  ("compile", [(REQUESTED, COMPILING)]); ("verify", [(COMPILING, VERIFYING_CAPABILITIES)]);
  ("apply", [(VERIFYING_CAPABILITIES, APPLYING)]); ("attest", [(APPLYING, ATTESTING)]);
  ("active", [(ATTESTING, ACTIVE)]);
  ("blocked_unsupported", [(VERIFYING_CAPABILITIES, BLOCKED_UNSUPPORTED); (APPLYING, BLOCKED_UNSUPPORTED)]);
  ("blocked_policy", [(COMPILING, BLOCKED_POLICY)]); ("fail", [(COMPILING, FAILED); (APPLYING, FAILED)]);
  ("violated", [(ACTIVE, VIOLATED)]); ("terminate", [(VIOLATED, TERMINATING)]);
  ("terminated", [(TERMINATING, TERMINATED)]); ("termination_failed", [(TERMINATING, TERMINATION_FAILED)])].

(* @src packages/sandbox/src/controls/contracts.ts:116-125 resolveProfileEdge *)
Definition resolveProfileEdge (from : ProfileState) (trigger : string) : option ProfileState :=
  snd <$> List.find (λ e, bool_decide (e.1 = from)) (assoc trigger PROFILE_EDGES ?? []).

(** What a compiled profile keeps of the ceilings: everything but the wall time, which the class
    may double. *)
Lemma compiled_within_ceilings `{Digest} ceilings shell source class extra p :
  compile ceilings shell source class extra = inl p →
  maxCpuMillis p ≤ c_cpu ceilings ∧ maxMemoryBytes p = c_memory ceilings ∧
  maxDiskBytes p = c_disk ceilings ∧ maxProcesses p = c_processes ceilings ∧
  0 < maxWallMillis p ≤ 2 * c_wall ceilings ∧
  (extra = None → 0 ≤ c_wall ceilings → maxWallMillis p ≤ c_wall ceilings) ∧
  (shellModeAllowed p = true → shell = true) ∧
  (network p ≠ deny_all → s_network source ≠ None ∨ s_allowedDestinations source ≠ None).
Proof.
  unfold compile. destruct ((s_shellModeAllowed source ?? false) && negb shell) eqn:Hshell; [done|].
  destruct (effectiveContainmentProfileSchema _) eqn:Hschema; [|done]. intros [= <-]. cbn.
  unfold effectiveContainmentProfileSchema in Hschema. breflect. cbn in *. breflect.
  split; [lia|]. do 3 (split; [done|]). split; [lia|]. split; [intros ->; cbn in *; lia|]. split.
  - intros Hs. rewrite Hs in Hshell. cbn in Hshell. by destruct shell.
  - unfold compileNetworkPolicy. destruct (s_allowedDestinations source); [intros _; by right|].
    destruct (s_network source); [intros _; by left|done].
Qed.

(** A class adds its own wall time to a source that already has all of it; and destinations turn
    an explicit [deny_all] into a list of destinations that is empty. *)
Section Examples.
#[local] Instance short_digest : Digest := λ _, "0123456789abcdef".

Example wall_time_doubles :
  match compile DEFAULT_GLOBAL_CEILINGS false {| s_network := None; s_allowedDestinations := None;
    s_maxWallMillis := None; s_maxCpuMillis := None; s_shellModeAllowed := None |} "test" (Some 900000) with
  | inl p => maxWallMillis p = 2 * c_wall DEFAULT_GLOBAL_CEILINGS
  | inr _ => False
  end.
Proof. by vm_compute. Qed.

Example deny_all_becomes_a_list :
  match compile DEFAULT_GLOBAL_CEILINGS false {| s_network := Some deny_all;
    s_allowedDestinations := Some ["registry.npmjs.org"]; s_maxWallMillis := None;
    s_maxCpuMillis := None; s_shellModeAllowed := None |} "test" None with
  | inl p => network p = allowlist_only ∧ allowedDestinations p = []
  | inr _ => False
  end.
Proof. by vm_compute. Qed.
End Examples.
End Containment.

(** ** Artifacts and cleanup *)

Module Artifacts.
(* @src packages/sandbox/src/artifacts/contracts.ts:14-29 ARTIFACT_STATES *)
Inductive ArtifactState :=
  | DECLARED | COLLECTING | HASHING | UPLOADING | VERIFYING | SCANNING | SAFE | QUARANTINED | REJECTED
  | EXPIRING | DELETED | FAILED | RESCAN_REQUIRED.

#[export] Instance ArtifactState_eq_dec : EqDecision ArtifactState.
Proof. solve_decision. Defined.

(* @src packages/sandbox/src/artifacts/contracts.ts:31-41 CLEANUP_STATES *)
Inductive CleanupState :=
  | C_REQUESTED | C_INSPECTING | C_DESTROYING | C_VERIFYING_ABSENT | C_COMPLETED | C_RETRY_WAIT
  | C_QUARANTINED | C_ESCALATED.

#[export] Instance CleanupState_eq_dec : EqDecision CleanupState.
Proof. solve_decision. Defined.

(* @src packages/sandbox/src/artifacts/contracts.ts:43-44 CleanupReason *)
Inductive CleanupReason := success | failure | timeout | cancelled | provisioning_failed | lease_expired.

(** [scanState]: the states of [ArtifactState] with [UNSCANNED]. *)
Inductive ScanState := UNSCANNED | Scanned (s : ArtifactState).

#[export] Instance ScanState_eq_dec : EqDecision ScanState.
Proof. solve_decision. Defined.

Inductive RetentionClass := ephemeral | workflow | forensic.

(* @src packages/sandbox/src/artifacts/contracts.ts:71-85 SandboxArtifact *)
Record SandboxArtifact := {
  id : string;
  manifestId : string;
  workspaceId : string;
  commandId : string;
  path : string;
  sizeBytes : Z;
  sha256Checksum : string;
  mimeType : string;
  scanState : ScanState;
  retentionClass : RetentionClass;
  artifact_state : ArtifactState;
  createdAtIso : string;
}.

(* @src packages/sandbox/src/artifacts/contracts.ts:46-70 artifactSchema *)
Definition artifactSchema (a : SandboxArtifact) : bool :=
  len_between 1 128 (id a) && len_between 1 128 (manifestId a) && id_schema (workspaceId a) &&
  len_between 1 128 (commandId a) &&
  (len_between 1 1024 (path a) && negb (startsWith (path a) "/") && negb (str_includes (path a) "..")) &&
  ((0 <=? sizeBytes a) && (sizeBytes a <=? 268435456)) && hex64 (sha256Checksum a) &&
  (str_length (mimeType a) <=? 64) && len_between 1 40 (createdAtIso a).

(* @src packages/sandbox/src/artifacts/contracts.ts:87-94 ArtifactManifest *)
Record ArtifactManifest := {
  m_id : string;
  m_workspaceId : string;
  m_commandId : string;
  checksum : string;
  artifactIds : list string;
  m_createdAtIso : string;
}.

(* @src packages/sandbox/src/artifacts/artifact-lifecycle.ts:20-25 ArtifactPolicy *)
Record ArtifactPolicy := {
  maxArtifacts : Z;
  maxSizeBytes : Z;
  allowedMimePrefixes : list string;
}.

(* @src packages/sandbox/src/artifacts/artifact-lifecycle.ts:120-130 collect *)
Record ArtifactSpec := {
  s_path : string;
  s_sizeBytes : Z;
  s_checksum : string;
  s_mimeType : string;
  s_retention : RetentionClass;
}.

(** The calls of the collector and of the cleanup. *)
(* @src packages/sandbox/src/artifacts/artifact-lifecycle.ts:54-62 ArtifactStorePort *)
Inductive ArtifactCall :=
  | save (a : SandboxArtifact)
  | scan (checksum mimeType path : string)
  | mark (artifactId : string) (s : ArtifactState)
  | saveManifest (m : ArtifactManifest)
  | get (artifactId : string)
  | now_
  | cleanupState (workspace : string)
  | persistCleanup (workspace : string) (s : CleanupState) (r : CleanupReason)
  | exists_ (workspace : string)
  | destroy (workspace : string).

(** [scan] answers [SAFE], [QUARANTINED] or [REJECTED]; [destroy]: [None] when it is refused, and
    otherwise whether the workspace is absent. *)
Definition ArtifactAns (c : ArtifactCall) : Type :=
  match c with
  | save _ | mark _ _ | saveManifest _ | persistCleanup _ _ _ => ()
  | scan _ _ _ => ArtifactState
  | get _ => option SandboxArtifact
  | now_ => string
  | cleanupState _ => option CleanupState
  | exists_ _ => bool
  | destroy _ => option bool
  end.

Abbreviation collector := (proc ArtifactAns).
Definition ask (c : ArtifactCall) : collector (ArtifactAns c) := call c.

(* @src packages/sandbox/src/artifacts/artifact-lifecycle.ts:109-115 CollectOutcome *)
Inductive CollectOutcome :=
  | Collected (manifest : string) (safeArtifactIds : list string)
  | NotCollected (code detail : string).

Section Collector.
Context {Hdigest : Digest} (policy : ArtifactPolicy).

(* @src packages/sandbox/src/artifacts/artifact-lifecycle.ts:145-158 collect *)
Definition declared (manifest workspace command now : string) (spec : ArtifactSpec) : SandboxArtifact := {|
  id := "art-" +s slice_to 16 (sha256 (stringify (JObj [("workspaceId", JStr workspace);
    ("commandId", JStr command); ("manifestId", JStr manifest); ("path", JStr (s_path spec));
    ("sha256Checksum", JStr (s_checksum spec))])));
  manifestId := manifest; workspaceId := workspace; commandId := command; path := s_path spec;
  sizeBytes := s_sizeBytes spec; sha256Checksum := s_checksum spec; mimeType := s_mimeType spec;
  scanState := UNSCANNED; retentionClass := s_retention spec; artifact_state := DECLARED; createdAtIso := now |}.

(** The loop over the specifications: the ids that are safe, or the refusal. *)
(* @src packages/sandbox/src/artifacts/artifact-lifecycle.ts:137-171 collect *)
Fixpoint collect_each (manifest workspace command now : string) (specs : list ArtifactSpec) (ids : list string)
  : collector (list string + CollectOutcome) :=
  match specs with
  | [] => pret (inl ids)
  | spec :: specs =>
      if startsWith (s_path spec) "/" || str_includes (s_path spec) ".."
      then pret (inr (NotCollected "PATH_INVALID" (s_path spec)))
      else if maxSizeBytes policy <? s_sizeBytes spec
      then pret (inr (NotCollected "TOO_LARGE" (s_path spec)))
      else if negb (existsb (startsWith (s_mimeType spec)) (allowedMimePrefixes policy))
      then pret (inr (NotCollected "UNSAFE" ("mime " +s s_mimeType spec)))
      else
        let artifact := declared manifest workspace command now spec in
        if negb (artifactSchema artifact) then throw (PlainError "ZodError")
        else
          ask (save artifact) ;~
          scanned <~ ask (scan (s_checksum spec) (s_mimeType spec) (s_path spec)) ;;
          if bool_decide (scanned = REJECTED)
          then pret (inr (NotCollected "UNSAFE" (s_path spec +s " rejected by safety scan")))
          else
            ask (mark (id artifact) (if bool_decide (scanned = SAFE) then SAFE else QUARANTINED)) ;~
            collect_each manifest workspace command now specs
              (if bool_decide (scanned = SAFE) then ids ++ [id artifact] else ids)
  end.

(* @src packages/sandbox/src/artifacts/artifact-lifecycle.ts:120-183 collect *)
Definition collect (workspace command : string) (specs : list ArtifactSpec) : collector CollectOutcome :=
  if maxArtifacts policy <? Z.of_nat (length specs)
  then pret (NotCollected "TOO_MANY" "artifact count exceeds policy")
  else
    now <~ ask now_ ;;
    let manifest := "mf-" +s slice_to 16 (sha256 (stringify (JObj [("workspaceId", JStr workspace);
      ("commandId", JStr command); ("ts", JStr now)]))) in
    each <~ collect_each manifest workspace command now specs [] ;;
    match each with
    | inr refusal => pret refusal
    | inl ids =>
        ask (saveManifest {| m_id := manifest; m_workspaceId := workspace; m_commandId := command;
          checksum := sha256 (join "," ids); artifactIds := ids; m_createdAtIso := now |}) ;~
        pret (Collected manifest ids)
    end.

(* @src packages/sandbox/src/artifacts/artifact-lifecycle.ts:185-190 getSafeArtifact *)
Definition getSafeArtifact (i : string) : collector (option SandboxArtifact) :=
  found <~ ask (get i) ;;
  pret match found with
       | Some a => if bool_decide (scanState a = Scanned SAFE) && negb (bool_decide (artifact_state a = DELETED))
                   then Some a else None
       | None => None
       end.
End Collector.

(** The volatile store: what [save] and [mark] leave in the map. *)
(* @src packages/sandbox/src/artifacts/artifact-lifecycle.ts:69-71 InMemoryArtifactStore *)
Definition saved (a : SandboxArtifact) : SandboxArtifact := {|
  id := id a; manifestId := manifestId a; workspaceId := workspaceId a; commandId := commandId a;
  path := path a; sizeBytes := sizeBytes a; sha256Checksum := sha256Checksum a; mimeType := mimeType a;
  scanState := scanState a; retentionClass := retentionClass a; artifact_state := DECLARED;
  createdAtIso := createdAtIso a |}.

(* @src packages/sandbox/src/artifacts/artifact-lifecycle.ts:81-89 mark *)
Definition marked (s : ArtifactState) (a : SandboxArtifact) : SandboxArtifact := {|
  id := id a; manifestId := manifestId a; workspaceId := workspaceId a; commandId := commandId a;
  path := path a; sizeBytes := sizeBytes a; sha256Checksum := sha256Checksum a; mimeType := mimeType a;
  scanState := if bool_decide (s ∈ [SAFE; QUARANTINED; REJECTED]) then Scanned s else scanState a;
  retentionClass := retentionClass a; artifact_state := s; createdAtIso := createdAtIso a |}.

(** [DefaultArtifactSafetyScan]: the two branches of the code answer alike. *)
(* @src packages/sandbox/src/artifacts/artifact-lifecycle.ts:35-52 DefaultArtifactSafetyScan *)
Definition default_scan (secretSamples : list string) (checksum mimeType path : string) : ArtifactState :=
  if endsWith path ".sh" || startsWith mimeType "application/x-archive" ||
     startsWith mimeType "application/x-shell" || startsWith mimeType "text/x-shellscript"
  then if (0 <? length secretSamples)%nat then QUARANTINED else SAFE
  else if (0 <? length secretSamples)%nat then QUARANTINED else SAFE.

(** ** Cleanup *)

(* @src packages/sandbox/src/artifacts/artifact-lifecycle.ts:206-208 request *)
Definition request (workspace : string) (reason : CleanupReason) : collector () :=
  ask (persistCleanup workspace C_REQUESTED reason).

(* @src packages/sandbox/src/artifacts/artifact-lifecycle.ts:210-235 reconcile *)
Definition reconcile (workspace : string) : collector CleanupState :=
  found <~ ask (cleanupState workspace) ;;
  let state := found ?? C_REQUESTED in
  if bool_decide (state ∈ [C_COMPLETED; C_QUARANTINED; C_ESCALATED]) then pret state
  else
    before <~ ask (exists_ workspace) ;;
    if negb before then ask (persistCleanup workspace C_COMPLETED success) ;~ pret C_COMPLETED
    else
      result <~ ptry (ask (destroy workspace)) (λ _, pret None) ;;
      match result with
      | None => ask (persistCleanup workspace C_RETRY_WAIT failure) ;~ pret C_RETRY_WAIT
      | Some false => ask (persistCleanup workspace C_ESCALATED failure) ;~ pret C_ESCALATED
      | Some true => ask (persistCleanup workspace C_COMPLETED success) ;~ pret C_COMPLETED
      end.

(** ** What a manifest and a completed cleanup stand for *)

Definition scanned_safe (tr : list (event ArtifactAns)) (i : string) : Prop :=
  ∃ a, id a = i ∧ ev (save a) (Returned ()) ∈ tr ∧
    ev (scan (sha256Checksum a) (mimeType a) (path a)) (Returned SAFE) ∈ tr ∧
    ev (mark i SAFE) (Returned ()) ∈ tr.

Definition collect_call (policy : ArtifactPolicy) (tr : list (event ArtifactAns)) (c : ArtifactCall) : Prop :=
  match c with
  | save a => artifactSchema a = true ∧ sizeBytes a ≤ maxSizeBytes policy ∧ artifact_state a = DECLARED ∧
      ∃ p, p ∈ allowedMimePrefixes policy ∧ startsWith (mimeType a) p = true
  | saveManifest m => Forall (scanned_safe tr) (artifactIds m)
  | _ => True
  end.

Definition collect_result (tr : list (event ArtifactAns)) (o : outcome CollectOutcome) : Prop :=
  match o with
  | Returned (Collected manifest ids) => Forall (scanned_safe tr) ids ∧
      ∃ m, m_id m = manifest ∧ artifactIds m = ids ∧ ev (saveManifest m) (Returned ()) ∈ tr
  | _ => True
  end.

Lemma scanned_weaken tr e i : scanned_safe tr i → scanned_safe (tr ++ [e]) i.
Proof. intros (a & H1 & H2 & H3 & H4). exists a. auto using elem_weaken. Qed.

Lemma Forall_scanned tr e l : Forall (scanned_safe tr) l → Forall (scanned_safe (tr ++ [e])) l.
Proof. intros H. eapply Forall_impl; [exact H|]. intros i. apply scanned_weaken. Qed.

Lemma collect_each_ensures `{Digest} policy manifest workspace command now specs ids tr {B}
    (k : _ → collector B) (Q : list (event ArtifactAns) → outcome B → Prop) :
  Forall (scanned_safe tr) ids → (∀ tr' o, Q tr' (Threw o)) →
  (∀ tr' ids', Forall (scanned_safe tr') ids' → ensures (collect_call policy) Q tr' (k (inl ids'))) →
  (∀ tr' c d, ensures (collect_call policy) Q tr' (k (inr (NotCollected c d)))) →
  ensures (collect_call policy) Q tr (pbind (collect_each policy manifest workspace command now specs ids) k).
Proof.
  intros Hids HQ Hok Hno. revert tr ids Hids. induction specs as [|spec specs IH]; intros tr ids Hids; cbn [collect_each].
  - by apply Hok.
  - destruct (startsWith (s_path spec) "/" || str_includes (s_path spec) ".."); [apply Hno|].
    destruct (Z.ltb_spec (maxSizeBytes policy) (s_sizeBytes spec)); [apply Hno|].
    destruct (existsb (startsWith (s_mimeType spec)) (allowedMimePrefixes policy)) eqn:Hmime; [|apply Hno]. cbn [negb].
    set (a := declared manifest workspace command now spec).
    destruct (artifactSchema a) eqn:Ha; [|apply HQ]. cbn [negb].
    unfold ask, call. cbn [pbind]. split.
    { cbn. split; [done|]. split; [done|]. split; [done|]. by apply existsb_true in Hmime. }
    intros [[]|]; [|apply HQ]. cbn [pbind]. split; [done|]. intros [s|]; [|apply HQ]. cbn [pbind].
    destruct (bool_decide (s = REJECTED)); [apply Hno|]. cbn [pbind]. split; [done|].
    intros [[]|]; [|apply HQ]. cbn [pbind]. apply IH. case_bool_decide as Hs.
    + subst s. apply Forall_app. split; [by do 3 apply Forall_scanned|]. constructor; [|done].
      exists a. split; [done|]. split; [apply elem_weaken, elem_weaken, elem_snoc|].
      split; [apply elem_weaken, elem_snoc|]. apply elem_snoc.
    + by do 3 apply Forall_scanned.
Qed.

Lemma collect_ensures `{Digest} policy workspace command specs :
  ensures (collect_call policy) collect_result [] (collect policy workspace command specs).
Proof.
  unfold collect. destruct (_ <? _); [done|]. unfold ask at 1, call at 1. cbn [pbind]. split; [done|].
  intros [now|]; [|done]. cbn [pbind]. apply collect_each_ensures; [done|done| |done].
  intros tr ids Hids. cbn [pbind]. unfold ask, call. cbn [pbind]. split; [done|].
  intros [[]|]; [|done]. cbn. split; [by apply Forall_scanned|].
  eexists. split; [|split; [|apply elem_snoc]]; done.
Qed.

(** A manifest lists only artifacts that were found safe: whatever the store and the scanner
    answer, only well-formed artifacts within the policy are saved, each id of a saved manifest
    is that of an artifact that was saved, whose checksum, type and path the scanner answered
    [SAFE] for, and that was marked so; and the ids returned are those of the saved manifest. *)
Theorem manifest_is_scanned `{Digest} policy workspace command specs :
  ensures (collect_call policy) collect_result [] (collect policy workspace command specs).
Proof. apply collect_ensures. Qed.

Definition cleanup_call (workspace : string) (tr : list (event ArtifactAns)) (c : ArtifactCall) : Prop :=
  match c with
  | persistCleanup w C_COMPLETED _ => w = workspace ∧
      (ev (exists_ w) (Returned false) ∈ tr ∨ ev (destroy w) (Returned (Some true)) ∈ tr)
  | destroy w => w = workspace ∧ ev (exists_ w) (Returned true) ∈ tr
  | _ => True
  end.

(** A cleanup is completed only on a proof of absence. *)
Lemma cleanup_proves_absence workspace :
  ensures (cleanup_call workspace) (λ _ _, True) [] (reconcile workspace).
Proof.
  unfold reconcile, ask, call. cbn [pbind]. split; [done|]. intros [found|]; [|done]. cbn [pbind].
  destruct (bool_decide (found ?? C_REQUESTED ∈ _)); [done|]. cbn [pbind]. split; [done|].
  intros [[]|]; [| |done]; cbn [pbind negb].
  - cbn [ptry pbind]. split; [split; [done|apply elem_snoc]|].
    intros [[[]|]|]; cbn [pbind ptry pret]; (split; [|by intros []]); try done.
    split; [done|]. right. apply elem_snoc.
  - split; [|by intros []]. split; [done|]. left. apply elem_snoc.
Qed.

(** A scanner that has samples quarantines everything, and one that has none finds everything safe. *)
Lemma default_scan_ignores_its_input samples c m p :
  default_scan samples c m p = if bool_decide (samples = []) then SAFE else QUARANTINED.
Proof. unfold default_scan. destruct samples, (_ || _); done. Qed.
End Artifacts.
